(* ===== verification/_CoqProject ===== *)
-Q . S2P
Prelude.v
Crc32.v
BlockDevice.v
AtomicStore.v
SnapshotStore.v
SnapshotStoreSpec.v
CheckpointJournal.v
CheckpointJournalSpec.v
KeyframeRing.v
KeyframeRingSpec.v
KeyframeStore.v
KeyframeStoreSpec.v
Recorders.v
RecordersSpec.v
JournalCapture.v
JournalCaptureSpec.v
ReplayEngine.v
ReplayEngineSpec.v
ReplayDriver.v
ReplayDriverSpec.v
Rewind.v
RewindSpec.v
Divergence.v
DivergenceSpec.v
GdbStub.v
GdbStubSpec.v
Mcp.v
McpSpec.v
Barrier.v
BarrierSpec.v
ExtState.v
ExtStateSpec.v
StateTables.v
StateTablesSpec.v
Vmm.v
VmmSpec.v
PageWalk.v
PageTreeSpec.v
FrameSpec.v
PageWalkSpec.v
PageOpsSpec.v
PageBootSpec.v
Checkpoint.v
CheckpointSpec.v
CheckpointTakeSpec.v
CheckpointRestore.v
CheckpointRestoreSpec.v
CheckpointTickSpec.v
DriverReattach.v
DriverReattachSpec.v
RestoreSeq.v
RestoreSeqSpec.v
BootRestoreSpec.v
Scheduler.v
SchedulerSpec.v
SchedulerPrioSpec.v
SchedulerTickSpec.v
SchedulerReplaySpec.v
Memory.v
Kalloc.v
KallocHeap.v
KallocLarge.v
KallocSlab.v
KallocCache.v
KallocSpec.v
KallocClientSpec.v
StateMonad.v
KernelHeap.v
VmmRegions.v
RegionListSpec.v
RegionPagesSpec.v
RegionOpsSpec.v
RegionSpaceSpec.v
RegionMmSpec.v
RegionSpec.v
ForkSpec.v
Fat.v
FatFileSpec.v
FatDirSpec.v
FatSpec.v
