(* ===== verification/Prelude.v ===== *)
(** * Laplace (IKOS): the persistence and time-travel stack

    Laplace is an operating system whose whole state survives a power cut and
    whose past can be replayed.  This library models the kernel modules that
    carry those two promises, as written, and proves what they promise.

    ** The program and how its parts interact

    Persistence.  At a checkpoint ([checkpoint_take] in kernel/checkpoint.c)
    every CPU is parked at a safe point (checkpoint_barrier.c), every writable
    page is marked copy-on-write (the entries of vmm.c) and the CPU contexts
    are captured; the page-fault hook preserves a page before its first write.
    Writeback later streams the preserved and the still-clean pages to the
    double-buffered snapshot store (snapshot_store.c) on a block device.  At
    boot the store is read back: kernel-state blobs (process table, open
    files, IPC) are put together from their chunks and handed to the
    subsystems, drivers are re-attached, external endpoints are severed, and
    the processes' pages and registers are rebuilt.

    Time travel.  Between two checkpoints the recorders (sched_record.c,
    time_record.c, entropy_record.c) log every nondeterministic input; at the
    commit they are written as one journal (journal_capture.c over
    checkpoint_journal.c), and the checkpoint becomes a keyframe in a ring of
    the last N (keyframe_ring.c, keyframe_store.c).  Rewinding restores the
    nearest keyframe and replays the journal (replay_engine.c,
    replay_driver.c, rewind.c); reverse stepping, breakpoints and watchpoints
    (reverse.c, revbreak.c) are searches over rewinds; the divergence detector
    (divergence.c) compares checksums epoch by epoch; gdb (gdbstub.c,
    gdb_serial.c) and an MCP client (mcp.c, mcp_server.c) drive it all.

    ** Files

    [X.v] holds the definitions that model a component, [XSpec.v] its
    theorems; a client requires the files of the components it calls.

    - [Prelude]: integers, pointers, struct images, automation, list lemmas;
      [Crc32]: the CRC loop the stores share, and the changes it detects.
    - [BlockDevice]: fat.h's device record, the class [BlockDevice] of the
      laws a store needs, the RAM disk (ramdisk.c) and the power-cut device as
      instances; [AtomicStore]: the contract of a crash-atomic store as a
      record of laws, and what a client may conclude over a whole history.
    - [SnapshotStore], [CheckpointJournal]: snapshot_store.c and
      checkpoint_journal.c, both implementations of that contract.
    - [KeyframeRing], [KeyframeStore]: keyframe_ring.c, keyframe_store.c.
    - [Recorders] (Modules [Sched], [Ktime], [Kentropy]): the three record
      cores and the scheduler tick's decision; [JournalCapture]:
      journal_capture.c and its instance over the recorders.
    - [ReplayEngine], [ReplayDriver]: replay_engine.c, replay_driver.c and
      the journal event source of replay_driver_sync.c.
    - [Rewind]: rewind.c, reverse.c, revbreak.c; [Divergence]: divergence.c,
      divergence_scan.c.
    - [GdbStub]: gdbstub.c, gdb_serial.c; [Mcp]: mcp.c, mcp_server.c.
    - [Barrier]: checkpoint_barrier.c; [ExtState]: checkpoint_extstate.c;
      [StateTables] (Modules [ProcTable], [FileTable], [IpcTable]):
      checkpoint_proctable.c, checkpoint_filetable.c, checkpoint_ipc.c.
    - [Vmm]: the page-table operations of vmm.c and vmm_cow.c the checkpoint
      uses; [Checkpoint]: checkpoint.c up to writeback; [CheckpointRestore]:
      its restore half.
    - [DriverReattach]: checkpoint_driver.c, checkpoint_disk.c,
      checkpoint_fb.c; [RestoreSeq]: checkpoint_restore_seq.c and
      checkpoint_boot_v2.c.
    - [PageWalk]: the frame database with its free list, the four-level page
      walk and the operations over both (map, unmap, translate, new address
      space, copy-on-write share and fault) of vmm.c and vmm_cow.c;
      [VmmSpec] (entries), [PageTreeSpec] (the tree of tables), [FrameSpec]
      (free list and reference counts), [PageWalkSpec] (the walk),
      [PageOpsSpec] (each operation refines an abstract one), [PageBootSpec]
      (from the boot state on: the properties).
    - [StateMonad]: computations that return, or fail on a dangling pointer,
      with their weakest precondition; [KernelHeap]: the class of kernel heaps
      (kmalloc, kfree) and its laws; [VmmRegions]: address spaces and the rest
      of vmm.c, all of vmm_regions.c and the copy of a space at fork
      (vmm_cow.c), over [PageWalk] and a kernel heap, every region an object in
      a list linked both ways; [RegionListSpec] (the list), [RegionPagesSpec]
      (loops over pages; a list as a map from addresses to flags),
      [RegionOpsSpec] (each operation on its space), [RegionSpaceSpec] (the
      invariant of all spaces), [RegionMmSpec], [RegionSpec], [ForkSpec] (the
      properties).
    - [Memory]: the bytes of memory with little-endian loads and stores;
      [Kalloc]: the whole of kalloc.c over it, every list link a load or a
      store, a walk failing when it leaves the heap; [KallocHeap] (what is in
      the heap: blocks, slabs, lists, as a map from addresses),
      [KallocLarge], [KallocSlab], [KallocCache] (each operation's weakest
      precondition over that map), [KallocSpec] (kalloc and kfree),
      [KallocClientSpec] (any history of calls).
    - [Scheduler]: scheduler.c over tasks in a heap linked by pointers, as
      computations that fail where a dangling pointer is followed;
      [SchedulerSpec], [SchedulerPrioSpec] (the two queues),
      [SchedulerTickSpec] (time slices), [SchedulerReplaySpec] (the recorded
      decisions replayed).
    - [Fat]: fat.c over a block device and the kernel heap, and the volume
      ramdisk.c formats; [FatFileSpec] (the allocation table as a map, chains
      of clusters, reading and writing a file), [FatDirSpec] (directories,
      names, creation, lookup), [FatSpec] (mounting and unmounting).

    ** Conventions

    A [w]-bit unsigned integer is a [Z] with its wrap-around written out
    ([u8], [u32], [u64]); a pointer that may be NULL is an [option] ([ptr],
    [& x], [NULL]), and the objects a function updates through its pointers
    are returned next to its result.  Structs on disk are byte images laid out
    by [pack] and read by [unpack].  A device [D] or the world [W] that
    callbacks act on is a type parameter threaded through the calls; a
    callback is a function over it.  Whether an allocation succeeds is an
    argument.  A loop whose bound is not structural takes fuel and returns
    [None] when it runs out; the theorems about it say how much is enough.
    JSON literals are written with single quotes and converted byte by byte.

    ** What the theorems show

    - Crash atomicity, on a device whose reads succeed: whatever write fails,
      however the power is cut, a later load finds the old value or the complete new one, for the snapshot store
      ([save_atomic], [save_history]), the journal ([record_epoch_atomic],
      [capture_epoch_atomic]) and the keyframe store
      ([keyframe_save_crash_safe]); a corrupted record is noticed
      ([load_detects_burst]).
    - Round trips: what was saved is loaded ([save_load_roundtrip],
      [record_load_roundtrip], [keyframe_store_reload], the three table
      round trips, [blob_roundtrip]); what was captured is replayed
      ([capture_replay_roundtrip], [sched_replay_same],
      [entropy_replay_same]).
    - The checkpoint: when every page has a frame of its own and one CPU runs,
      whatever the processes store, and whatever faults and register switches
      happen, between the take and the writeback, the disk gets the memory of
      the instant of the take
      ([checkpoint_consistent], [checkpoint_durable]) and a restore rebuilds
      it ([checkpoint_survives]); the timer never opens a second epoch
      ([tick_spec]) and fires in time ([tick_fires_in_time]); the barrier is
      quiescent exactly when every CPU is parked
      ([barrier_quiescent_iff]).
    - Boot: the phases run in order with a cold-boot fallback
      ([restore_sequence_order]), every blob reaches its restorer once and
      whole ([boot_restores_blobs]), drivers and endpoints are re-attached or
      severed ([reattach_all_continue], [endpoint_sever_reconnect]).
    - Time travel: rewinding lands on the nearest keyframe and runs exactly
      the plan ([replay_run_plan], [rewind_to_window]); stepping back reaches
      the predecessor ([reverse_step_predecessor]); reverse breakpoints and
      watchpoints find the latest hit and terminate
      ([reverse_breakpoint_latest], [reverse_watchpoint_last_write]); the
      detector keeps the first mismatch and misses none.
    - Front ends: packets, the empty one too, survive the wire and any one
      changed byte of the payload is refused
      ([frame_unframe_roundtrip]), a session is served whole
      ([serve_once_session]), an MCP answer is complete or refused
      ([mcp_handle_exact], [rewind_request_served]).
    - Page tables: from boot on ([boot_rep]), the frame database and the
      tables implement a map from (space, page) to (frame, flags) with a
      reference count per frame ([vm_refines]); no frame that is mapped is on
      the free list ([free_frames_unused]); a write fault gives the writer a
      frame of its own with the same contents and no other mapping changes
      ([cow_fault_private]); the checkpoint sees the entries the walk writes
      ([engine_view_agrees]); the stack a process is given is absent
      ([stack_page_absent]).
    - Address spaces: every region operation whose arguments the listed
      counterexamples do not exclude keeps the spaces well formed and leaves
      the other processes alone ([region_ops_sound]); a mapping goes
      where it may and gets frames of its own ([mmap_exact]), unmapping and
      protecting act on exactly their range ([munmap_exact],
      [protect_exact]), a fault is answered by the flags of its region
      ([fault_exact]); fork gives the child the parent's regions and pages,
      shared and read-only on both sides ([fork_exact]).
    - The kernel heap: whatever a client allocates (sizes below 2^62), frees
      and writes inside what it holds, every call returns, no two live objects overlap, each
      lies inside the heap and keeps its bytes ([kalloc_safe]); an
      allocation returns an object of the size asked for or 0, zeroed when
      asked ([kalloc_returns]).
    - The scheduler: the linked ready queues implement a FIFO queue
      ([ready_queue_refines_fifo]) and one stack per priority
      ([priority_queues_refine_stacks]); round robin runs every ready task in
      turn for its whole slice ([round_robin_fair]); replaying the recorded
      decisions gives the recorded schedule ([replay_same_schedule]); two of
      its corner cases fail ([lone_task_lost], [task_destroy_running_faults]).
    - The FAT file system: what is written to an open file survives an unmount
      and is read back from a new mount, with every other file
      ([fat_write_survives]).

    Theorems that show the code failing its own intent are kept next to the
    others: [stale_capture_unrestorable], [forked_page_lost],
    [kernel_record_process], [restored_process_dropped], [fb_size_wraps],
    [store_init_wraps], [tick_discards_loaded], [bad_checksum_acked],
    [large_never_freed], [full_slab_lost], [size_wraps],
    [aligned_not_aligned], [cache_name_digits], and of the address spaces
    [mmap_lazy_faults], [mmap_unaligned], [heap_page_faults],
    [heap_overlaps], [create_region_overlaps], [munmap_loses_tail],
    [split_makes_empty], [protect_breaks_sharing], [no_execute_lost],
    [destroy_leaks_tables], [init_drops_table], [mmap_shows_old_data],
    [forked_writes], [failed_fork_protects], [destroyed_current_faults];
    of the stores when a read fails [superblock_read_error_loses],
    [journal_read_error_loses]; [unmapped_page_lost],
    [equal_priority_starves]; of the FAT file system
    [ramdisk_volume_refused], [created_missing], [new_directory_names],
    [lookup_never_returns], [read_wraps], [failed_flush_lost],
    [unmount_keeps_root].

    ** Bounds and fuel

    Array and buffer sizes are the source's constants.  The store theorems ask
    for a geometry that fits the device without wrapping, which
    [store_init_spec] shows [snapshot_store_init] checks except for the wrap.
    Fuel: the restore loops need one more than the store's [max_records], the
    journal's event source one more than the number of events, the search
    loops of [Rewind] the number of retained positions, the serial reader the
    length of the line, the list walks of the heap allocator the heap's size
    over the smallest block (32), the loops over an address range its pages, the
    walks of a region list the objects of its space; each theorem that a loop returns states its
    own.

    ** Not modelled

    The TLB, CR3, interrupt entry and context switches (assembly);
    concurrency of several CPUs beyond the barrier (the tick runs on one); the adapters
    ([*_sync.c], checkpoint_ide*.c) that copy fields between live kernel
    objects and the portable structures modelled here, and the process table,
    which the boot path reaches through functions given as arguments.  Of the
    rest of the kernel, the other allocators, the VFS and its other
    file systems, networking, signals, devices and the user interface are independent of the promises above. *)

From Stdlib Require Import ZArith Lia.
From stdpp Require Export base tactics list numbers option sets.
From coqutil Require Export Byte Word.LittleEndianList.

Open Scope Z_scope.

(** ** Machine integers

    A [w]-bit unsigned C integer is a [Z]; every operation of the source that
    can leave the range is followed by the truncation below. *)
Definition u8 (z : Z) : Z := z mod 2 ^ 8.
Definition u32 (z : Z) : Z := z mod 2 ^ 32.
Definition u64 (z : Z) : Z := z mod 2 ^ 64.

#[global] Arguments u8 : simpl never.
#[global] Arguments u32 : simpl never.
#[global] Arguments u64 : simpl never.

(** The values a field of [w] bytes can hold. *)
Definition fits (w : nat) (z : Z) : Prop := 0 <= z < 2 ^ (Z.of_nat w * 8).

(** ** C pointers

    A pointer the source may receive or hold as NULL is an [option]; a pointer
    that is dereferenced without a test is the value it points to. *)
Declare Scope c_scope.
Delimit Scope c_scope with c.
Abbreviation ptr := option (only parsing).
Abbreviation NULL := None (only parsing).
Notation "& x" := (Some x) (at level 8, format "& x") : c_scope.
Open Scope c_scope.

(** ** C structs as byte images

    The source moves structs to and from sectors with [memcpy] on x86-64:
    every field is little-endian, at its natural alignment.  [pack] lays the
    fields out one after the other (padding is a field of its own), [unpack]
    reads them back. *)
Fixpoint pack (widths : list nat) (vs : list Z) : list byte :=
  match widths, vs with
  | w :: ws, v :: vs' => le_split w v ++ pack ws vs'
  | _, _ => []
  end.

Fixpoint unpack (widths : list nat) (bs : list byte) : list Z :=
  match widths with
  | [] => []
  | w :: ws => le_combine (take w bs) :: unpack ws (drop w bs)
  end.

(** The [i]-th field of an unpacked struct. *)
Definition field (i : nat) (vs : list Z) : Z := nth i vs 0.

(** [memset(buf, 0, n)] *)
Definition zeros (n : nat) : list byte := replicate n Byte.x00.

(** A buffer of [n] zero bytes whose first bytes are overwritten with [bs]. *)
Definition zero_padded (n : nat) (bs : list byte) : list byte :=
  bs ++ zeros (n - length bs).

(** The [i]-th block of [k] bytes of a buffer. *)
Definition chunk (k : nat) (bs : list byte) (i : Z) : list byte :=
  take k (drop (Z.to_nat i * k) bs).

(** [a[i] = x] for an index the code has checked against the array's size. *)
Definition zset {A} (i : Z) (x : A) (l : list A) : list A := <[Z.to_nat i := x]> l.
(** [a[i]] *)
Definition zget {A} (d : A) (l : list A) (i : Z) : A := nth (Z.to_nat i) l d.

(** ** Automation shared by the components *)
Create HintDb ikos discriminated.
Create Rewrite HintDb len.

(** Split the conditionals and matches of the goal (or of a hypothesis). *)
Ltac split_match :=
  match goal with
  | |- context [match ?x with _ => _ end] =>
      lazymatch x with context [match _ with _ => _ end] => fail | _ => destruct x eqn:? end
  end.
Ltac split_match_in H :=
  match type of H with
  | context [match ?x with _ => _ end] =>
      lazymatch x with context [match _ with _ => _ end] => fail | _ => destruct x eqn:? end
  end.

(** Boolean comparisons of the code turned into their propositions. *)
Ltac zbool :=
  repeat match goal with
  | H : (_ && _)%bool = true |- _ => apply andb_prop in H as [? ?]
  | H : (_ || _)%bool = false |- _ => apply orb_false_elim in H as [? ?]
  | H : negb _ = true |- _ => apply negb_true_iff in H
  | H : negb _ = false |- _ => apply negb_false_iff in H
  | H : (_ =? _) = true |- _ => apply Z.eqb_eq in H
  | H : (_ =? _) = false |- _ => apply Z.eqb_neq in H
  | H : (_ <? _) = true |- _ => apply Z.ltb_lt in H
  | H : (_ <? _) = false |- _ => apply Z.ltb_ge in H
  | H : (_ <=? _) = true |- _ => apply Z.leb_le in H
  | H : (_ <=? _) = false |- _ => apply Z.leb_gt in H
  end.

(** Every field of a struct holds its value: hypotheses, bounds, constants. *)
Ltac fits_fields :=
  repeat (apply Forall2_cons; split); try apply Forall2_nil; unfold fits in *;
  first [assumption | lia | vm_compute; split; [discriminate | reflexivity]].

(** ** Lemmas on machine integers *)
Lemma u8_range z : 0 <= u8 z < 2 ^ 8.
Proof. apply Z.mod_pos_bound; lia. Qed.
Lemma u32_range z : 0 <= u32 z < 2 ^ 32.
Proof. apply Z.mod_pos_bound; lia. Qed.
Lemma u64_range z : 0 <= u64 z < 2 ^ 64.
Proof. apply Z.mod_pos_bound; lia. Qed.
Lemma u8_id z : 0 <= z < 2 ^ 8 -> u8 z = z.
Proof. apply Z.mod_small. Qed.
Lemma u32_id z : 0 <= z < 2 ^ 32 -> u32 z = z.
Proof. apply Z.mod_small. Qed.
Lemma u64_id z : 0 <= z < 2 ^ 64 -> u64 z = z.
Proof. apply Z.mod_small. Qed.
#[export] Hint Resolve u8_range u32_range u64_range : ikos.

(** ** Lemmas on byte images *)
Lemma length_pack ws vs :
  length ws = length vs -> length (pack ws vs) = sum_list ws.
Proof.
  revert vs; induction ws as [|w ws IH]; intros [|v vs] [=]; [done|].
  cbn [pack]. rewrite length_app, length_le_split, IH; done.
Qed.

Lemma unpack_pack ws vs rest :
  Forall2 fits ws vs -> unpack ws (pack ws vs ++ rest) = vs.
Proof.
  induction 1 as [|w v ws vs Hv _ IH]; [done|]. cbn [pack unpack].
  rewrite <- app_assoc, take_app_length', drop_app_length', IH
    by (rewrite length_le_split; done).
  rewrite le_combine_split. f_equal. apply Z.mod_small, Hv.
Qed.

Lemma unpack_fits ws bs : Forall2 fits ws (unpack ws bs).
Proof.
  revert bs; induction ws as [|w ws IH]; intros bs; constructor; [|apply IH].
  unfold fits. pose proof (le_combine_bound (take w bs)) as [Hlo Hhi].
  split; [done|]. eapply Z.lt_le_trans; [exact Hhi|].
  apply Z.pow_le_mono_r; [lia|]. rewrite length_take. lia.
Qed.

Lemma field_fits ws bs i w : ws !! i = Some w -> fits w (field i (unpack ws bs)).
Proof.
  intros Hw. pose proof (unpack_fits ws bs) as HF.
  destruct (Forall2_lookup_l _ _ _ _ _ HF Hw) as (v & Hv & Hf).
  unfold field. rewrite (nth_lookup_Some _ _ _ _ Hv). done.
Qed.

Lemma unpack_length ws bs : length (unpack ws bs) = length ws.
Proof. revert bs; induction ws; intros; cbn [unpack length]; auto. Qed.

(** Re-encoding a decoded struct gives back the bytes it was read from. *)
Lemma pack_unpack ws bs :
  (sum_list ws <= length bs)%nat -> pack ws (unpack ws bs) = take (sum_list ws) bs.
Proof.
  revert bs; induction ws as [|w ws IH]; intros bs Hlen; [done|].
  simpl in *. rewrite IH by (rewrite length_drop; lia).
  rewrite split_le_combine' by (rewrite length_take; lia).
  rewrite <- (take_drop w bs) at 3. rewrite take_app_add'; [done|].
  rewrite length_take; lia.
Qed.

Lemma length_zeros n : length (zeros n) = n.
Proof. apply length_replicate. Qed.

Lemma length_zero_padded n bs : (length bs <= n)%nat -> length (zero_padded n bs) = n.
Proof. intros. unfold zero_padded. rewrite length_app, length_zeros. lia. Qed.

Lemma length_chunk k bs i :
  (Z.to_nat i * k + k <= length bs)%nat -> length (chunk k bs i) = k.
Proof. intros. unfold chunk. rewrite length_take, length_drop. lia. Qed.

Lemma chunk_0 k bs : length bs = k -> chunk k bs 0 = bs.
Proof. intros. unfold chunk. simpl. apply take_ge. lia. Qed.

(** A buffer of [n] blocks is the concatenation of its blocks. *)
Lemma concat_chunks k n bs :
  length bs = (n * k)%nat -> mjoin (chunk k bs <$> seqZ 0 (Z.of_nat n)) = bs.
Proof.
  revert bs; induction n as [|n IH]; intros bs Hlen.
  - destruct bs; [done | simpl in Hlen; lia].
  - rewrite seqZ_cons by lia. simpl.
    replace (Z.succ 0) with (0 + 1) by lia.
    replace (Z.pred (Z.of_nat (S n))) with (Z.of_nat n) by lia.
    rewrite <- (take_drop k bs) at 3. f_equal.
    rewrite <- (IH (drop k bs)) at 1 by (rewrite length_drop; lia).
    f_equal. replace (seqZ (0 + 1) (Z.of_nat n)) with (Z.add 1 <$> seqZ 0 (Z.of_nat n))
      by (rewrite fmap_add_seqZ; f_equal; lia).
    rewrite <- list_fmap_compose. apply list_fmap_ext. intros i x Hx.
    apply lookup_seqZ in Hx as [-> Hi]. unfold compose, chunk. f_equal.
    rewrite drop_drop. f_equal. lia.
Qed.

(** [memcpy] of [n] blocks into the middle of a buffer replaces exactly those. *)
Lemma chunk_splice k data s n bs i :
  length bs = (n * k)%nat -> ((s + n) * k <= length data)%nat ->
  chunk k (take (s * k) data ++ bs ++ drop ((s + n) * k) data) (Z.of_nat i) =
  if decide (s <= i < s + n)%nat then chunk k bs (Z.of_nat (i - s)) else chunk k data (Z.of_nat i).
Proof.
  intros Hbs Hlen. unfold chunk. rewrite !Nat2Z.id. apply list_eq. intros j.
  destruct (decide (j < k)%nat) as [Hj|Hj].
  2:{ rewrite lookup_take_ge by lia. case_decide; rewrite lookup_take_ge by lia; done. }
  assert (length (take (s * k) data) = s * k)%nat by (rewrite length_take; nia).
  rewrite lookup_take_lt, lookup_drop by lia. case_decide as Hi.
  - rewrite lookup_take_lt, lookup_drop by lia.
    rewrite lookup_app_r, lookup_app_l by nia. f_equal. nia.
  - rewrite lookup_take_lt, lookup_drop by lia. destruct (decide (i < s)%nat).
    + rewrite lookup_app_l, lookup_take_lt by nia. done.
    + rewrite lookup_app_r, lookup_app_r, lookup_drop by nia. f_equal. nia.
Qed.

Lemma length_mjoin_const {A B} (f : A -> list B) k l :
  (forall x, x ∈ l -> length (f x) = k) -> length (mjoin (f <$> l)) = (length l * k)%nat.
Proof.
  intros H. induction l as [|x l IH]; [done|]. rewrite fmap_cons.
  change (mjoin (f x :: (f <$> l))) with (f x ++ mjoin (f <$> l)).
  rewrite length_app, IH, H by set_solver. simpl. lia.
Qed.

(** A block of a prefix or of a suffix of a buffer. *)
Lemma chunk_drop k data s i :
  chunk k (drop (s * k) data) (Z.of_nat i) = chunk k data (Z.of_nat (s + i)).
Proof. unfold chunk. rewrite drop_drop, !Nat2Z.id. do 2 f_equal. lia. Qed.

Lemma chunk_take k data n i :
  (i < n)%nat -> chunk k (take (n * k) data) (Z.of_nat i) = chunk k data (Z.of_nat i).
Proof.
  intros Hi. unfold chunk. rewrite Nat2Z.id, skipn_firstn_comm, take_take. f_equal. nia.
Qed.

#[export] Hint Rewrite @length_app @length_take @length_drop @length_zeros
  @length_le_split @length_insert @length_replicate @length_fmap : len.

(** Lists indexed by machine integers. *)
Lemma length_zset {A} i (x : A) l : length (zset i x l) = length l.
Proof. apply length_insert. Qed.

Lemma zget_zset {A} (d : A) i j x l :
  0 <= i < Z.of_nat (length l) -> 0 <= j ->
  zget d (zset i x l) j = if i =? j then x else zget d l j.
Proof.
  intros Hi Hj. unfold zget, zset.
  rewrite !nth_lookup. destruct (Z.eqb_spec i j) as [->|Hne].
  - rewrite list_lookup_insert_eq by lia. done.
  - rewrite list_lookup_insert_ne by lia. done.
Qed.
#[export] Hint Rewrite @length_zset : len.

(** Byte images are reasoned about through the lemmas above. *)
#[global] Arguments pack : simpl never.
#[global] Arguments unpack : simpl never.
#[global] Arguments zeros : simpl never.
#[global] Arguments zero_padded : simpl never.
#[global] Arguments chunk : simpl never.

(** Appending to the used prefix of a log. *)
Lemma take_zset_append {A} (l : list A) (n : nat) (x : A) :
  (n < length l)%nat -> take (S n) (zset (Z.of_nat n) x l) = take n l ++ [x].
Proof.
  intros Hn. unfold zset. rewrite Nat2Z.id.
  rewrite (take_S_r _ _ x) by (apply list_lookup_insert_eq; exact Hn).
  rewrite take_insert_ge by lia. reflexivity.
Qed.

Lemma zget_take {A} (d : A) (l : list A) (n i : nat) x :
  take n l !! i = Some x -> zget d l (Z.of_nat i) = x.
Proof.
  intros H. unfold zget. rewrite Nat2Z.id. apply nth_lookup_Some.
  apply lookup_take_Some in H as [H _]. exact H.
Qed.

Lemma zget_lookup {A} (d : A) l i x : l !! i = Some x -> zget d l (Z.of_nat i) = x.
Proof. intros H. unfold zget. rewrite Nat2Z.id. apply nth_lookup_Some, H. Qed.
