(* ===== verification/Crc32.v ===== *)
(** * The CRC32 that protects the on-disk structures

    One bitwise IEEE 802.3 loop (polynomial 0xEDB88320, reflected) is written
    out four times in the source so that each core stays dependency-free:
    [snapshot_crc32], [journal_crc32], [keyframe_ring_crc32] and
    [divergence_checksum].  The lemmas cover what the stores rely on: feeding
    a buffer in pieces equals feeding it whole, the result is a 32-bit value,
    and a change confined to four consecutive bytes is always detected. *)
From Stdlib Require Import ZArith Lia.
From S2P Require Import Prelude.
Open Scope Z_scope.

(** ** Definitions *)

(** One bit of the loop: [mask = -(crc & 1u)], then
    [crc = (crc >> 1) ^ (0xEDB88320u & mask)]. *)
Definition crc_bit (crc : Z) : Z :=
  let mask := u32 (- Z.land crc 1) in
  Z.lxor (Z.shiftr crc 1) (Z.land 0xEDB88320 mask).

(** The body of the outer loop: fold one byte in, then eight bit steps. *)
Definition crc_byte (crc : Z) (p : byte) : Z :=
  Nat.iter 8 crc_bit (Z.lxor crc (byte.unsigned p)).

(** The CRC of [data] continued from [crc]; [len] is the length of [data]. *)
Definition snapshot_crc32 (crc : Z) (data : list byte) : Z :=
  let crc := u32 (Z.lnot crc) in
  let crc := foldl crc_byte crc data in
  u32 (Z.lnot crc).

Definition journal_crc32 (crc : Z) (data : list byte) : Z :=
  let crc := u32 (Z.lnot crc) in
  let crc := foldl crc_byte crc data in
  u32 (Z.lnot crc).

Definition keyframe_ring_crc32 (crc : Z) (data : list byte) : Z :=
  let crc := u32 (Z.lnot crc) in
  let crc := foldl crc_byte crc data in
  u32 (Z.lnot crc).

Definition divergence_checksum (crc : Z) (data : list byte) : Z :=
  let crc := u32 (Z.lnot crc) in
  let crc := foldl crc_byte crc data in
  u32 (Z.lnot crc).

(** The four copies compute the same function. *)
Lemma journal_crc32_eq crc data : journal_crc32 crc data = snapshot_crc32 crc data.
Proof. reflexivity. Qed.
Lemma keyframe_ring_crc32_eq crc data : keyframe_ring_crc32 crc data = snapshot_crc32 crc data.
Proof. reflexivity. Qed.
Lemma divergence_checksum_eq crc data : divergence_checksum crc data = snapshot_crc32 crc data.
Proof. reflexivity. Qed.

#[global] Arguments crc_byte : simpl never.
#[global] Arguments snapshot_crc32 : simpl never.
#[global] Arguments journal_crc32 : simpl never.
#[global] Arguments keyframe_ring_crc32 : simpl never.
#[global] Arguments divergence_checksum : simpl never.

(** ** The register stays 32 bits wide *)

Abbreviation reg c := (0 <= c < 2 ^ 32).

Lemma lxor_range n a b :
  0 <= n -> 0 <= a < 2 ^ n -> 0 <= b < 2 ^ n -> 0 <= Z.lxor a b < 2 ^ n.
Proof.
  intros Hn Ha Hb.
  rewrite <- (Z.mod_small a (2 ^ n)), <- (Z.mod_small b (2 ^ n)) by done.
  rewrite <- !Z.land_ones by done.
  replace (Z.lxor (Z.land a (Z.ones n)) (Z.land b (Z.ones n)))
    with (Z.land (Z.lxor a b) (Z.ones n)).
  - rewrite Z.land_ones by done. apply Z.mod_pos_bound. lia.
  - apply Z.bits_inj. intros i. rewrite !Z.land_spec, !Z.lxor_spec, !Z.land_spec.
    destruct (Z.testbit a i), (Z.testbit b i), (Z.testbit (Z.ones n) i); done.
Qed.

Lemma lxor_inj_l p a b : Z.lxor a p = Z.lxor b p -> a = b.
Proof.
  intros H. apply (f_equal (fun z => Z.lxor z p)) in H.
  rewrite !Z.lxor_assoc, Z.lxor_nilpotent, !Z.lxor_0_r in H. done.
Qed.

Lemma u32_lnot_involutive c : reg c -> u32 (Z.lnot (u32 (Z.lnot c))) = c.
Proof.
  intros Hc. unfold u32, Z.lnot.
  rewrite (Z.mod_eq (Z.pred (- c))) by lia.
  replace (Z.pred (- c) / 2 ^ 32) with (-1).
  - replace (Z.pred (- (Z.pred (- c) - 2 ^ 32 * -1))) with (c + (-1) * 2 ^ 32) by lia.
    rewrite Z.mod_add by lia. apply Z.mod_small; lia.
  - apply Z.div_unique with (r := 2 ^ 32 - 1 - c); lia.
Qed.

Lemma crc_bit_even c : reg c -> Z.even c = true -> crc_bit c = c / 2.
Proof.
  intros Hc He. unfold crc_bit. change 1 with (Z.ones 1) at 2.
  rewrite Z.land_ones by lia. rewrite Zmod_even, He. simpl.
  rewrite Z.lxor_0_r. apply Z.shiftr_div_pow2; lia.
Qed.

Lemma crc_bit_odd c : reg c -> Z.even c = false -> crc_bit c = Z.lxor (c / 2) 0xEDB88320.
Proof.
  intros Hc He. unfold crc_bit. change 1 with (Z.ones 1) at 2.
  rewrite Z.land_ones by lia. rewrite Zmod_even, He.
  rewrite Z.shiftr_div_pow2 by lia. reflexivity.
Qed.

Lemma crc_bit_range c : reg c -> reg (crc_bit c).
Proof.
  intros Hc. assert (0 <= c / 2 < 2 ^ 32) by (split; [apply Z.div_pos | apply Z.div_lt_upper_bound]; lia).
  destruct (Z.even c) eqn:E; [rewrite crc_bit_even by done; done|].
  rewrite crc_bit_odd by done. apply lxor_range; lia.
Qed.

(** The polynomial has bit 31 set, so the top bit of the result tells which
    branch was taken: the bit step loses no information. *)
Lemma crc_bit_top c : reg c -> Z.testbit (crc_bit c) 31 = negb (Z.even c).
Proof.
  intros Hc. assert (0 <= c / 2 < 2 ^ 31) by (split; [apply Z.div_pos | apply Z.div_lt_upper_bound]; lia).
  assert (Z.testbit (c / 2) 31 = false) as H31.
  { rewrite <- (Z.mod_small (c / 2) (2 ^ 31)) by done. apply Z.mod_pow2_bits_high. lia. }
  destruct (Z.even c) eqn:E.
  - rewrite crc_bit_even by done. done.
  - rewrite crc_bit_odd by done. rewrite Z.lxor_spec, H31. reflexivity.
Qed.

Lemma crc_bit_inj a b : reg a -> reg b -> crc_bit a = crc_bit b -> a = b.
Proof.
  intros Ha Hb H.
  assert (Z.even a = Z.even b) as He.
  { pose proof (crc_bit_top a Ha) as Ta. pose proof (crc_bit_top b Hb) as Tb.
    rewrite H, Tb in Ta. destruct (Z.even a), (Z.even b); done. }
  assert (a / 2 = b / 2) as Hd.
  { destruct (Z.even a) eqn:Ea.
    - rewrite !crc_bit_even in H; congruence.
    - rewrite !crc_bit_odd in H by congruence. eapply lxor_inj_l, H. }
  rewrite (Z.div_mod a 2), (Z.div_mod b 2) by lia. rewrite Hd, !Zmod_even, He. done.
Qed.

Lemma iter_bit_range n c : reg c -> reg (Nat.iter n crc_bit c).
Proof. intros; induction n; simpl; auto using crc_bit_range. Qed.

Lemma iter_bit_inj n a b :
  reg a -> reg b -> Nat.iter n crc_bit a = Nat.iter n crc_bit b -> a = b.
Proof.
  intros Ha Hb. induction n as [|n IH]; [done|]. simpl. intros H.
  apply IH, crc_bit_inj; auto using iter_bit_range.
Qed.

Lemma crc_byte_range c p : reg c -> reg (crc_byte c p).
Proof.
  intros Hc. unfold crc_byte. apply iter_bit_range, lxor_range; [lia | done|].
  pose proof (byte.unsigned_range p). lia.
Qed.

Lemma crc_fold_range c data : reg c -> reg (foldl crc_byte c data).
Proof. revert c; induction data; simpl; auto using crc_byte_range. Qed.

Lemma crc32_range crc data : reg (snapshot_crc32 crc data).
Proof. apply u32_range. Qed.
#[export] Hint Resolve crc32_range : ikos.

(** Feeding a buffer in two pieces equals feeding it whole. *)
Lemma crc32_app crc a b :
  snapshot_crc32 (snapshot_crc32 crc a) b = snapshot_crc32 crc (a ++ b).
Proof.
  unfold snapshot_crc32. rewrite u32_lnot_involutive; [by rewrite foldl_app|].
  apply crc_fold_range, u32_range.
Qed.

Lemma crc32_nil crc : reg crc -> snapshot_crc32 crc [] = crc.
Proof. intros H. apply u32_lnot_involutive, H. Qed.

(** ** Error detection *)

(** With the same byte folded in, different registers stay different. *)
Lemma crc_byte_inj_reg a b p : reg a -> reg b -> crc_byte a p = crc_byte b p -> a = b.
Proof.
  unfold crc_byte. intros Ha Hb H. pose proof (byte.unsigned_range p).
  apply iter_bit_inj in H; [|apply lxor_range; lia..]. eapply lxor_inj_l, H.
Qed.

Lemma crc_fold_inj_reg a b data :
  reg a -> reg b -> foldl crc_byte a data = foldl crc_byte b data -> a = b.
Proof.
  revert a b; induction data as [|p data IH]; simpl; [done|]. intros a b Ha Hb H.
  eapply crc_byte_inj_reg, IH, H; auto using crc_byte_range.
Qed.

Lemma u32_lnot_inj a b : reg a -> reg b -> u32 (Z.lnot a) = u32 (Z.lnot b) -> a = b.
Proof.
  intros Ha Hb H. rewrite <- (u32_lnot_involutive a), <- (u32_lnot_involutive b), H by done. done.
Qed.

Lemma crc32_inj_state c1 c2 data :
  reg c1 -> reg c2 -> snapshot_crc32 c1 data = snapshot_crc32 c2 data -> c1 = c2.
Proof.
  intros H1 H2 H. apply u32_lnot_inj in H; try apply crc_fold_range, u32_range.
  apply crc_fold_inj_reg in H; try apply u32_range. apply u32_lnot_inj; done.
Qed.

(** A bit step is linear in the bits above bit 0. *)
Lemma crc_bit_lxor_double x y :
  crc_bit (Z.lxor x (Z.shiftl y 1)) = Z.lxor (crc_bit x) y.
Proof.
  unfold crc_bit.
  replace (Z.land (Z.lxor x (Z.shiftl y 1)) 1) with (Z.land x 1).
  2:{ apply Z.bits_inj. intros i. rewrite !Z.land_spec, Z.lxor_spec.
      destruct (Z.ltb_spec i 0); [rewrite !Z.testbit_neg_r by lia; done|].
      destruct (Z.ltb_spec i 1).
      - rewrite (Z.shiftl_spec_low y 1 i) by lia. rewrite xorb_false_r. done.
      - assert (Z.testbit 1 i = false) as ->; [|rewrite !andb_false_r; done].
        change 1 with (Z.ones 1). apply Z.ones_spec_high. lia. }
  rewrite Z.shiftr_lxor, Z.shiftr_shiftl_l by lia. simpl (1 - 1).
  rewrite Z.shiftl_0_r, !Z.lxor_assoc. f_equal. apply Z.lxor_comm.
Qed.

Lemma iter_bit_lxor_shift n x y :
  Nat.iter n crc_bit (Z.lxor x (Z.shiftl y (Z.of_nat n))) = Z.lxor (Nat.iter n crc_bit x) y.
Proof.
  revert x y; induction n as [|n IH]; intros x y.
  - simpl. rewrite Z.shiftl_0_r. done.
  - replace (Z.of_nat (S n)) with (1 + Z.of_nat n) by lia.
    rewrite <- Z.shiftl_shiftl by lia. simpl. rewrite IH. apply crc_bit_lxor_double.
Qed.

(** Folding bytes in one at a time is the same as folding their little-endian
    value in at once and then taking all the bit steps. *)
Lemma crc_fold_block c bs :
  foldl crc_byte c bs = Nat.iter (8 * length bs) crc_bit (Z.lxor c (le_combine bs)).
Proof.
  revert c; induction bs as [|b bs IH]; intros c.
  - simpl. rewrite Z.lxor_0_r. done.
  - change (le_combine (b :: bs))
      with (Z.lor (byte.unsigned b) (Z.shiftl (le_combine bs) 8)).
    cbn [foldl length]. rewrite IH.
    replace (8 * S (length bs))%nat with (8 * length bs + 8)%nat by lia.
    rewrite Nat.iter_add. f_equal. unfold crc_byte.
    rewrite <- (iter_bit_lxor_shift 8). f_equal.
    rewrite Z.lxor_assoc. f_equal. change (Z.of_nat 8) with 8.
    rewrite <- Z.lxor_lor; [done|]. apply Z.bits_inj. intros i. rewrite Z.land_spec, Z.bits_0.
    destruct (Z.ltb_spec i 8).
    + rewrite (Z.shiftl_spec_low _ 8 i), andb_false_r by lia. done.
    + pose proof (byte.unsigned_range b).
      rewrite <- (Z.mod_small (byte.unsigned b) (2 ^ 8)) by lia.
      rewrite Z.mod_pow2_bits_high by lia. done.
Qed.

Lemma crc_fold_block_inj c x y :
  reg c -> length x = length y -> (length x <= 4)%nat ->
  foldl crc_byte c x = foldl crc_byte c y -> x = y.
Proof.
  intros Hc Hlen Hx H. apply le_combine_inj; [done|].
  assert (forall l : list byte, (length l <= 4)%nat -> reg (le_combine l)) as R.
  { intros l Hl. pose proof (le_combine_bound l) as [Hlo Hhi]. split; [done|].
    eapply Z.lt_le_trans; [exact Hhi|]. apply Z.pow_le_mono_r; lia. }
  rewrite !crc_fold_block, <- Hlen in H.
  apply iter_bit_inj in H; [|apply lxor_range; [lia|done|apply R; lia]..].
  rewrite !(Z.lxor_comm c) in H. eapply lxor_inj_l, H.
Qed.

(** Two sectors that differ in at most four consecutive bytes have
    different checksums, whatever surrounds the difference. *)
Lemma crc32_detects_burst pre x y post :
  length x = length y -> (length x <= 4)%nat -> x <> y ->
  snapshot_crc32 0 (pre ++ x ++ post) <> snapshot_crc32 0 (pre ++ y ++ post).
Proof.
  intros Hlen Hx Hne H. rewrite <- !crc32_app in H.
  apply crc32_inj_state in H; [|apply crc32_range..].
  unfold snapshot_crc32 in H. apply u32_lnot_inj in H.
  2,3: apply crc_fold_range, u32_range.
  apply Hne. eapply crc_fold_block_inj, H; auto. apply u32_range.
Qed.
