(* ===== verification/BlockDevice.v ===== *)
(** * Block devices: the storage interface and the RAM disk

    [fat_block_device_t] (include/fat.h) is the record of function pointers
    through which every store of the stack reaches its device; the state its
    [private_data] points to is a type parameter [D] threaded explicitly.
    [BlockDevice] is the interface the stores are proved against: a read
    inside the device succeeds and returns its sectors, and a write may fail,
    with each sector of its range written entirely or not at all.  Nothing is
    proved of the stores on a device whose reads fail ([flaky_device] is one):
    there they may lose their data.  The RAM disk of
    kernel/ramdisk.c implements it, and so does any device whose power is cut
    after a number of sectors. *)
From Stdlib Require Import ZArith Lia.
From S2P Require Import Prelude.
Open Scope Z_scope.
Open Scope c_scope.

(** ** The device record *)
Record fat_block_device_t (D : Type) := {
  read_sectors : ptr (D -> Z -> Z -> Z * list byte);
  write_sectors : ptr (D -> Z -> Z -> list byte -> Z * D);
  sector_size : Z;
  total_sectors : Z }.
Arguments read_sectors {D}. Arguments write_sectors {D}.
Arguments sector_size {D}. Arguments total_sectors {D}.

(** ** The RAM disk *)
Definition RAMDISK_SECTOR_SIZE : Z := 512.
Definition RAMDISK_TOTAL_SECTORS : Z := 2048.
Definition RAMDISK_TOTAL_SIZE : Z := RAMDISK_TOTAL_SECTORS * RAMDISK_SECTOR_SIZE.

Record ramdisk_t := {
  rd_data : ptr (list byte);
  rd_sector_size : Z;
  rd_total_sectors : Z;
  rd_initialized : bool }.

(** [static ramdisk_t g_ramdisk = {0};] *)
Definition g_ramdisk : ramdisk_t :=
  {| rd_data := NULL; rd_sector_size := 0; rd_total_sectors := 0; rd_initialized := false |}.

(** [kmalloc] is the kernel's allocator: whether it succeeds is an argument. *)
Definition ramdisk_init (kmalloc_ok : bool) (g : ramdisk_t) : Z * ramdisk_t :=
  if rd_initialized g then (0, g)
  else if negb kmalloc_ok then
    (-1, {| rd_data := NULL; rd_sector_size := rd_sector_size g;
            rd_total_sectors := rd_total_sectors g; rd_initialized := rd_initialized g |})
  else
    (0, {| rd_data := & (zeros (Z.to_nat RAMDISK_TOTAL_SIZE));
           rd_sector_size := RAMDISK_SECTOR_SIZE;
           rd_total_sectors := RAMDISK_TOTAL_SECTORS;
           rd_initialized := true |}).

Definition ramdisk_cleanup (g : ramdisk_t) : ramdisk_t :=
  match rd_initialized g, rd_data g with
  | true, Some _ => g_ramdisk
  | _, _ => g
  end.

(** The bounds test both transfer routines make, in 32-bit arithmetic. *)
Definition ramdisk_out_of_bounds (g : ramdisk_t) (sector count : Z) : bool :=
  (rd_total_sectors g <=? sector) || (rd_total_sectors g <? u32 (sector + count)).

(** [buffer] says whether the output buffer is non-NULL; the bytes copied into
    it are the second result. *)
Definition ramdisk_read_sectors (device : ptr ramdisk_t) (sector count : Z) (buffer : bool)
  : Z * list byte :=
  match device with
  | NULL => (-1, [])
  | Some g =>
      match rd_data g with
      | NULL => (-1, [])
      | Some data =>
          if negb (rd_initialized g) || negb buffer then (-1, [])
          else if ramdisk_out_of_bounds g sector count then (-1, [])
          else
            let offset := u32 (sector * rd_sector_size g) in
            let size := u32 (count * rd_sector_size g) in
            (0, take (Z.to_nat size) (drop (Z.to_nat offset) data))
      end
  end.

Definition ramdisk_write_sectors (device : ptr ramdisk_t) (sector count : Z)
    (buffer : ptr (list byte)) : Z * ptr ramdisk_t :=
  match device with
  | NULL => (-1, device)
  | Some g =>
      match rd_data g, buffer with
      | Some data, Some buf =>
          if negb (rd_initialized g) then (-1, device)
          else if ramdisk_out_of_bounds g sector count then (-1, device)
          else
            let offset := Z.to_nat (u32 (sector * rd_sector_size g)) in
            let size := Z.to_nat (u32 (count * rd_sector_size g)) in
            (0, & {| rd_data := & (take offset data ++ take size buf ++ drop (offset + size) data);
                     rd_sector_size := rd_sector_size g;
                     rd_total_sectors := rd_total_sectors g;
                     rd_initialized := rd_initialized g |})
      | _, _ => (-1, device)
      end
  end.

(** [static fat_block_device_t ramdisk_device], with [private_data = &g_ramdisk]. *)
Definition ramdisk_device : fat_block_device_t ramdisk_t := {|
  read_sectors := & (fun g sector count => ramdisk_read_sectors (& g) sector count true);
  write_sectors := & (fun g sector count buf =>
    let '(rc, g') := ramdisk_write_sectors (& g) sector count (& buf) in
    (rc, match g' with Some x => x | NULL => g end));
  sector_size := RAMDISK_SECTOR_SIZE;
  total_sectors := RAMDISK_TOTAL_SECTORS |}.

Definition ramdisk_get_device (kmalloc_ok : bool) (g : ramdisk_t)
  : ptr (fat_block_device_t ramdisk_t) * ramdisk_t :=
  if rd_initialized g then (& ramdisk_device, g)
  else let '(rc, g') := ramdisk_init kmalloc_ok g in
       if rc =? 0 then (& ramdisk_device, g') else (NULL, g').

(** ** The interface the stores rely on *)

(** A transfer of [n >= 1] sectors at [s] stays inside the device. *)
Definition in_range {D} (dev : fat_block_device_t D) (s n : Z) : Prop :=
  0 <= s /\ 0 < n /\ s + n <= total_sectors dev.

(** The sectors [s .. s+n-1] laid out one after the other. *)
Definition sector_run {D} (sector : D -> Z -> list byte) (d : D) (s n : Z) : list byte :=
  mjoin (sector d <$> seqZ s n).

(** What a write of [bs] at [s] that returned [rc] may have done: sectors
    outside the run are untouched, each sector inside is old or new, and a
    success wrote them all. *)
Record write_effect {D} (dev : fat_block_device_t D) (sector : D -> Z -> list byte)
    (d : D) (s n : Z) (bs : list byte) (rc : Z) (d' : D) : Prop := {
  we_frame i : 0 <= i < total_sectors dev -> ~ (s <= i < s + n) -> sector d' i = sector d i;
  we_atomic i : s <= i < s + n ->
    sector d' i = sector d i \/ sector d' i = chunk 512 bs (i - s);
  we_done i : rc = 0 -> s <= i < s + n -> sector d' i = chunk 512 bs (i - s) }.

Class BlockDevice {D : Type} (dev : fat_block_device_t D) := {
  bd_read : D -> Z -> Z -> Z * list byte;
  bd_write : D -> Z -> Z -> list byte -> Z * D;
  bd_inv : D -> Prop;
  bd_sector : D -> Z -> list byte;
  bd_read_eq : read_sectors dev = & bd_read;
  bd_write_eq : write_sectors dev = & bd_write;
  bd_sector_size : sector_size dev = 512;
  bd_total : 0 <= total_sectors dev < 2 ^ 32;
  bd_sector_len d i : bd_inv d -> 0 <= i < total_sectors dev -> length (bd_sector d i) = 512%nat;
  bd_read_ok d s n : bd_inv d -> in_range dev s n ->
    bd_read d s n = (0, sector_run bd_sector d s n);
  bd_write_inv d s n bs : bd_inv d -> in_range dev s n -> length bs = (Z.to_nat n * 512)%nat ->
    bd_inv (bd_write d s n bs).2;
  bd_write_ok d s n bs : bd_inv d -> in_range dev s n -> length bs = (Z.to_nat n * 512)%nat ->
    write_effect dev bd_sector d s n bs (bd_write d s n bs).1 (bd_write d s n bs).2 }.

(** A device without I/O errors. *)
Class ReliableDevice {D : Type} (dev : fat_block_device_t D) `{!BlockDevice dev} := {
  bd_write_zero d s n bs : bd_inv d -> in_range dev s n -> length bs = (Z.to_nat n * 512)%nat ->
    (bd_write d s n bs).1 = 0 }.

(** A device whose power is cut after a budget of sectors: the write that
    exhausts the budget stores its first sectors and fails, later writes fail
    without effect. *)
Definition cut_device {D} (dev : fat_block_device_t D) : fat_block_device_t (Z * D) := {|
  read_sectors := match read_sectors dev with
                  | Some rd => & (fun d s n => rd d.2 s n)
                  | NULL => NULL
                  end;
  write_sectors := match write_sectors dev with
                   | Some wr => & (fun d s n bs =>
                       if n <=? d.1 then
                         let '(rc, d') := wr d.2 s n bs in (rc, (d.1 - n, d'))
                       else if 0 <? d.1 then
                         let '(_, d') := wr d.2 s d.1 (take (Z.to_nat d.1 * 512) bs) in (-1, (0, d'))
                       else (-1, d))
                   | NULL => NULL
                   end;
  sector_size := sector_size dev;
  total_sectors := total_sectors dev |}.

(** A device whose reads fail while the flag is set, which the interface does
    not allow: the stores' begin routines mistake a failed read of their
    superblock for an empty store. *)
Definition flaky_device : fat_block_device_t (bool * (Z -> list byte)) := {|
  read_sectors := & (fun (d : bool * (Z -> list byte)) s n => if d.1 then (-1, []) else (0, mjoin (d.2 <$> seqZ s n)));
  write_sectors := & (fun d s n bs =>
    (0, (d.1, fun i => if (s <=? i) && (i <? s + n) then chunk 512 bs (i - s) else d.2 i)));
  sector_size := 512;
  total_sectors := 2048 |}.
Definition flaky_fresh : bool * (Z -> list byte) := (false, fun _ => zeros 512).
Definition failing {S : Type} (d : bool * S) : bool * S := (true, d.2).

(** ** Lemmas on the interface *)
Section interface.
Context {D : Type} (dev : fat_block_device_t D) `{!BlockDevice dev}.

Lemma sector_run_1 d s : sector_run bd_sector d s 1 = bd_sector d s.
Proof.
  unfold sector_run. rewrite seqZ_cons by lia. simpl. rewrite app_nil_r. done.
Qed.

Lemma sector_run_app d s n m :
  0 <= n -> 0 <= m ->
  sector_run bd_sector d s (n + m) = sector_run bd_sector d s n ++ sector_run bd_sector d (s + n) m.
Proof.
  intros Hn Hm. unfold sector_run. rewrite seqZ_app, fmap_app by lia. apply join_app.
Qed.

Lemma sector_run_ext d d' s n :
  (forall i, s <= i < s + n -> bd_sector d' i = bd_sector d i) ->
  sector_run bd_sector d' s n = sector_run bd_sector d s n.
Proof.
  intros H. unfold sector_run. f_equal. apply list_fmap_ext. intros i x Hx.
  apply lookup_seqZ in Hx as [-> Hi]. apply H. lia.
Qed.

(** Reading back a run that holds the blocks of a buffer yields the buffer. *)
Lemma sector_run_chunks d s n bs :
  length bs = (Z.to_nat n * 512)%nat -> 0 <= n ->
  (forall i, s <= i < s + n -> bd_sector d i = chunk 512 bs (i - s)) ->
  sector_run bd_sector d s n = bs.
Proof.
  intros Hlen Hn H. unfold sector_run.
  rewrite <- (concat_chunks 512 (Z.to_nat n) bs) by done. rewrite Z2Nat.id by done.
  f_equal. replace (seqZ s n) with (Z.add s <$> seqZ 0 n)
    by (rewrite fmap_add_seqZ; f_equal; lia).
  rewrite <- list_fmap_compose. apply list_fmap_ext. intros i x Hx.
  apply lookup_seqZ in Hx as [-> Hi]. unfold compose. rewrite H by lia. f_equal. lia.
Qed.

Lemma sector_run_lookup d s n q :
  bd_inv d -> in_range dev s n -> 0 <= q < n ->
  bd_sector d (s + q) = chunk 512 (sector_run bd_sector d s n) q.
Proof.
  intros Hd (Hs & Hn & Hl) Hq. replace n with (q + (1 + (n - q - 1))) by lia.
  rewrite !sector_run_app, sector_run_1 by lia. unfold chunk.
  assert (length (sector_run bd_sector d s q) = (Z.to_nat q * 512)%nat) as H1.
  { unfold sector_run. rewrite (length_mjoin_const _ 512), length_seqZ; [done|].
    intros i Hi%elem_of_seqZ. apply bd_sector_len; [done|lia]. }
  rewrite drop_app_length', take_app_length'; try done. symmetry. apply bd_sector_len; [done|lia].
Qed.

Lemma length_sector_run d s n :
  bd_inv d -> in_range dev s n -> length (sector_run bd_sector d s n) = (Z.to_nat n * 512)%nat.
Proof.
  intros Hinv (Hs & Hn & Hlim). unfold sector_run.
  rewrite (length_mjoin_const _ 512), length_seqZ; [done|].
  intros i Hi%elem_of_seqZ. apply bd_sector_len; [done|lia].
Qed.
End interface.

(** ** The RAM disk implements the interface *)
Definition ramdisk_inv (g : ramdisk_t) : Prop :=
  exists data, rd_data g = & data /\ Z.of_nat (length data) = 2048 * 512 /\
    rd_sector_size g = RAMDISK_SECTOR_SIZE /\ rd_total_sectors g = RAMDISK_TOTAL_SECTORS /\
    rd_initialized g = true.

Definition ramdisk_sector (g : ramdisk_t) (i : Z) : list byte :=
  match rd_data g with Some data => chunk 512 data i | NULL => [] end.

Definition ramdisk_write_fn (g : ramdisk_t) (s n : Z) (buf : list byte) : Z * ramdisk_t :=
  let '(rc, g') := ramdisk_write_sectors (& g) s n (& buf) in
  (rc, match g' with Some x => x | NULL => g end).

Lemma ramdisk_bounds_ok g s n :
  ramdisk_inv g -> in_range ramdisk_device s n -> ramdisk_out_of_bounds g s n = false.
Proof.
  intros (data & _ & _ & _ & Ht & _) (? & ? & H). unfold ramdisk_out_of_bounds.
  rewrite Ht. cbn in H. unfold RAMDISK_TOTAL_SECTORS in *. rewrite u32_id by lia.
  apply orb_false_intro; [apply Z.leb_gt | apply Z.ltb_ge]; lia.
Qed.

Lemma ramdisk_read_ok g s n :
  ramdisk_inv g -> in_range ramdisk_device s n ->
  ramdisk_read_sectors (& g) s n true = (0, sector_run ramdisk_sector g s n).
Proof.
  intros Hinv Hr. pose proof (ramdisk_bounds_ok g s n Hinv Hr) as Hb.
  destruct Hinv as (data & Hd & Hlen & Hss & Ht & Hi), Hr as (? & ? & Hlim).
  cbn in Hlim. unfold RAMDISK_TOTAL_SECTORS in *.
  unfold ramdisk_read_sectors, sector_run, ramdisk_sector. rewrite Hd, Hi, Hb, Hss. simpl.
  unfold RAMDISK_SECTOR_SIZE. rewrite !u32_id by lia. f_equal.
  replace (Z.to_nat (s * 512)) with (Z.to_nat s * 512)%nat by lia.
  replace (Z.to_nat (n * 512)) with (Z.to_nat n * 512)%nat by lia.
  rewrite <- (concat_chunks 512 (Z.to_nat n) (take (Z.to_nat n * 512) (drop (Z.to_nat s * 512) data)))
    by (rewrite length_take, length_drop; lia).
  rewrite Z2Nat.id by lia.
  replace (seqZ s n) with (Z.add s <$> seqZ 0 n) by (rewrite fmap_add_seqZ; f_equal; lia).
  rewrite <- list_fmap_compose. f_equal. apply list_fmap_ext. intros i x Hx.
  apply lookup_seqZ in Hx as [-> Hlt]. unfold compose.
  replace (0 + Z.of_nat i) with (Z.of_nat i) by lia.
  rewrite chunk_take, chunk_drop by lia. f_equal. lia.
Qed.

Lemma ramdisk_write_run g s n bs :
  ramdisk_inv g -> in_range ramdisk_device s n -> length bs = (Z.to_nat n * 512)%nat ->
  exists g', ramdisk_write_sectors (& g) s n (& bs) = (0, & g') /\ ramdisk_inv g' /\
    forall i, 0 <= i < RAMDISK_TOTAL_SECTORS ->
      ramdisk_sector g' i = if decide (s <= i < s + n) then chunk 512 bs (i - s) else ramdisk_sector g i.
Proof.
  intros Hinv Hr Hbs. pose proof (ramdisk_bounds_ok g s n Hinv Hr) as Hb.
  destruct Hinv as (data & Hd & Hlen & Hss & Ht & Hi), Hr as (? & ? & Hlim).
  cbn in Hlim. unfold RAMDISK_TOTAL_SECTORS in *.
  unfold ramdisk_write_sectors. rewrite Hd, Hi, Hb, Hss. simpl.
  unfold RAMDISK_SECTOR_SIZE. rewrite !u32_id by lia.
  replace (Z.to_nat (s * 512)) with (Z.to_nat s * 512)%nat by lia.
  replace (Z.to_nat (n * 512)) with (Z.to_nat n * 512)%nat by lia.
  rewrite (take_ge bs) by lia.
  eexists. split; [done|]. split.
  - eexists. cbn [rd_data rd_sector_size rd_total_sectors rd_initialized].
    split_and!; try done. autorewrite with len. lia.
  - intros i Hin. unfold ramdisk_sector at 1. simpl.
    replace (Z.to_nat s * 512 + Z.to_nat n * 512)%nat with ((Z.to_nat s + Z.to_nat n) * 512)%nat by lia.
    rewrite <- (Z2Nat.id i) at 1 by lia.
    rewrite chunk_splice by lia. unfold ramdisk_sector. rewrite Hd.
    repeat case_decide; try lia; f_equal; lia.
Qed.

#[export] Program Instance ramdisk_block_device : BlockDevice ramdisk_device := {|
  bd_read := fun g sector count => ramdisk_read_sectors (& g) sector count true;
  bd_write := ramdisk_write_fn;
  bd_inv := ramdisk_inv;
  bd_sector := ramdisk_sector |}.
Next Obligation. done. Qed.
Next Obligation. done. Qed.
Next Obligation. done. Qed.
Next Obligation. cbn. unfold RAMDISK_TOTAL_SECTORS. lia. Qed.
Next Obligation.
  intros g i (data & Hd & Hlen & _) Hi. unfold ramdisk_sector. rewrite Hd.
  cbn in Hi. unfold RAMDISK_TOTAL_SECTORS in Hi. apply length_chunk. lia.
Qed.
Next Obligation. apply ramdisk_read_ok. Qed.
Next Obligation.
  intros g s n bs Hinv Hr Hbs. unfold ramdisk_write_fn.
  destruct (ramdisk_write_run g s n bs) as (g' & -> & ? & _); done.
Qed.
Next Obligation.
  intros g s n bs Hinv Hr Hbs. unfold ramdisk_write_fn.
  destruct (ramdisk_write_run g s n bs Hinv Hr Hbs) as (g' & -> & ? & H). simpl.
  destruct Hr as (? & ? & Hlim). cbn in Hlim.
  split; [intros i Hi Hni | intros i Hi | intros i _ Hi]; rewrite H by (cbn in *; lia);
    case_decide; auto; lia.
Qed.

#[export] Instance ramdisk_reliable : ReliableDevice ramdisk_device.
Proof.
  split. intros g s n bs Hinv Hr Hbs. cbn. unfold ramdisk_write_fn.
  destruct (ramdisk_write_run g s n bs Hinv Hr Hbs) as (g' & -> & _). reflexivity.
Qed.

(** A freshly initialised RAM disk. *)
Definition ramdisk_fresh : ramdisk_t := (ramdisk_init true g_ramdisk).2.

Lemma ramdisk_fresh_inv : ramdisk_inv ramdisk_fresh.
Proof.
  unfold ramdisk_fresh, ramdisk_init. cbn [rd_initialized g_ramdisk negb snd].
  exists (zeros (Z.to_nat RAMDISK_TOTAL_SIZE)). split; [reflexivity|].
  split; [rewrite length_zeros, Z2Nat.id by (vm_compute; discriminate); reflexivity|].
  split_and!; reflexivity.
Qed.

Lemma ramdisk_fresh_sector i :
  0 <= i < RAMDISK_TOTAL_SECTORS -> ramdisk_sector ramdisk_fresh i = zeros 512.
Proof.
  intros Hi. unfold ramdisk_sector, ramdisk_fresh, ramdisk_init.
  cbn [rd_initialized g_ramdisk negb snd rd_data]. unfold chunk, zeros.
  rewrite drop_replicate, take_replicate.
  f_equal. unfold RAMDISK_TOTAL_SIZE, RAMDISK_TOTAL_SECTORS, RAMDISK_SECTOR_SIZE in *. lia.
Qed.

(** ** So does a device whose power is cut *)
Section cut.
Context {D : Type} (dev : fat_block_device_t D) `{!BlockDevice dev}.

Definition cut_write (d : Z * D) (s n : Z) (bs : list byte) : Z * (Z * D) :=
  if n <=? d.1 then
    let '(rc, d') := bd_write d.2 s n bs in (rc, (d.1 - n, d'))
  else if 0 <? d.1 then
    let '(_, d') := bd_write d.2 s d.1 (take (Z.to_nat d.1 * 512) bs) in (-1, (0, d'))
  else (-1, d).

Lemma in_range_prefix s n m : in_range dev s n -> 0 < m <= n -> in_range dev s m.
Proof. unfold in_range. lia. Qed.

Lemma cut_write_inv d s n bs :
  bd_inv d.2 -> in_range dev s n -> length bs = (Z.to_nat n * 512)%nat ->
  bd_inv (cut_write d s n bs).2.2.
Proof.
  intros Hinv Hr Hbs. unfold cut_write.
  destruct (Z.leb_spec n d.1) as [|Hlt]; [|destruct (Z.ltb_spec 0 d.1) as [Hpos|]; [|done]].
  - pose proof (bd_write_inv d.2 s n bs Hinv Hr Hbs). destruct (bd_write _ _ _ _); done.
  - pose proof (bd_write_inv d.2 s d.1 (take (Z.to_nat d.1 * 512) bs) Hinv) as H.
    destruct (bd_write _ _ _ _). apply H; [eapply in_range_prefix; [done|lia]|].
    rewrite length_take. lia.
Qed.

Lemma cut_write_ok d s n bs :
  bd_inv d.2 -> in_range dev s n -> length bs = (Z.to_nat n * 512)%nat ->
  write_effect (cut_device dev) (fun d => bd_sector d.2) d s n bs
    (cut_write d s n bs).1 (cut_write d s n bs).2.
Proof.
  intros Hinv Hr Hbs. unfold cut_write.
  destruct (Z.leb_spec n d.1) as [|Hlt]; [|destruct (Z.ltb_spec 0 d.1) as [Hpos|]].
  - pose proof (bd_write_ok d.2 s n bs Hinv Hr Hbs) as [Hf Ha Hd].
    destruct (bd_write _ _ _ _); split; done.
  - pose proof (bd_write_ok d.2 s d.1 (take (Z.to_nat d.1 * 512) bs) Hinv) as H.
    destruct (bd_write _ _ _ _) as [rc d']. cbn in H. destruct H as [Hf Ha _];
      [eapply in_range_prefix; [done|lia] | rewrite length_take; lia |].
    destruct Hr as (? & ? & ?).
    split; [intros i Hi Hni | intros i Hi | intros i [=]]; cbn in *; [apply Hf; lia|].
    destruct (decide (i < s + d.1)) as [Hin|Hout]; [|left; apply Hf; lia].
    destruct (Ha i) as [|Heq]; [lia|by left|right]. rewrite Heq.
    rewrite <- (Z2Nat.id (i - s)) by lia. apply chunk_take. lia.
  - split; cbn; intros; auto; done.
Qed.

#[export] Program Instance cut_block_device : BlockDevice (cut_device dev) := {|
  bd_read := fun d s n => bd_read d.2 s n;
  bd_write := cut_write;
  bd_inv := fun d => bd_inv d.2;
  bd_sector := fun d => bd_sector d.2 |}.
Next Obligation. cbn. rewrite bd_read_eq. done. Qed.
Next Obligation. cbn. rewrite bd_write_eq. done. Qed.
Next Obligation. apply (bd_sector_size (dev:=dev)). Qed.
Next Obligation. apply (bd_total (dev:=dev)). Qed.
Next Obligation. intros d i ? ?. apply (bd_sector_len (dev:=dev)); done. Qed.
Next Obligation. intros d s n ? ?. apply (bd_read_ok (dev:=dev)); done. Qed.
Next Obligation. intros. apply cut_write_inv; done. Qed.
Next Obligation. intros. apply cut_write_ok; done. Qed.
End cut.
