(* ===== verification/AtomicStore.v ===== *)
(** * Crash-atomic stores: the contract and what a client may conclude

    Both double-buffered stores (snapshot store, input journal) promise the
    same thing about publishing a value: whatever fails on the way, what a
    later load finds is either the old value or the complete new one, and a
    publication that reported success is the one that is found.  [AtomicStore]
    states the promise; the section below draws the consequence for a client
    that publishes again and again over power cuts and reboots. *)
From Stdlib Require Import ZArith Lia.
From S2P Require Import Prelude.
Open Scope Z_scope.

Class AtomicStore {D A V : Type} (inv : D -> Prop) (valid : A -> Prop)
    (publish : D -> A -> Z * D) (view : D -> V) (stored : A -> V) := {
  publish_inv d a : inv d -> valid a -> inv (publish d a).2;
  publish_atomic d a : inv d -> valid a ->
    view (publish d a).2 = view d \/ view (publish d a).2 = stored a;
  publish_durable d a : inv d -> valid a -> (publish d a).1 = 0 ->
    view (publish d a).2 = stored a }.

Section client.
Context {D A V : Type} {inv : D -> Prop} {valid : A -> Prop}
  {publish : D -> A -> Z * D} {view : D -> V} {stored : A -> V}
  `{!AtomicStore inv valid publish view stored}.

(** A history of publications: what each returned, and the final device. *)
Fixpoint publish_all (d : D) (xs : list A) : list Z * D :=
  match xs with
  | [] => ([], d)
  | a :: xs =>
      let '(rc, d) := publish d a in
      let '(rcs, d) := publish_all d xs in (rc :: rcs, d)
  end.

(** What may be found afterwards: an acknowledged publication forgets
    everything before it, an unacknowledged one adds a possibility. *)
Fixpoint candidates (cand : list V) (xs : list A) (rcs : list Z) : list V :=
  match xs, rcs with
  | a :: xs, rc :: rcs =>
      candidates (if rc =? 0 then [stored a] else stored a :: cand) xs rcs
  | _, _ => cand
  end.

Lemma publish_all_candidates d xs cand :
  inv d -> Forall valid xs -> view d ∈ cand ->
  view (publish_all d xs).2 ∈ candidates cand xs (publish_all d xs).1 /\
  inv (publish_all d xs).2.
Proof.
  revert d cand; induction xs as [|a xs IH]; intros d cand Hinv Hv Hc; [done|].
  inv Hv. simpl.
  pose proof (publish_inv d a Hinv H1) as Hi.
  pose proof (publish_atomic d a Hinv H1) as Ha.
  pose proof (publish_durable d a Hinv H1) as Hd.
  destruct (publish d a) as [rc d1]. simpl in *.
  destruct (Z.eqb_spec rc 0) as [->|].
  - specialize (IH d1 [stored a] Hi H2).
    destruct (publish_all d1 xs); simpl in *. apply IH. rewrite Hd by done. set_solver.
  - specialize (IH d1 (stored a :: cand) Hi H2). 
    destruct (publish_all d1 xs); simpl in *.
    rewrite (proj2 (Z.eqb_neq rc 0)) by done. apply IH.
    destruct Ha as [-> | ->]; set_solver.
Qed.

(** If some publication was acknowledged, nothing older than it comes back. *)
Lemma candidates_after_ack cand xs rcs a :
  length xs = length rcs -> candidates cand (xs ++ [a]) (rcs ++ [0]) = [stored a].
Proof.
  revert cand rcs; induction xs as [|x xs IH]; intros cand [|rc rcs] [=]; simpl; auto.
Qed.
End client.
