(* ===== verification/SnapshotStore.v ===== *)
(** * The on-disk snapshot store (kernel/snapshot_store.c)

    A superblock sector and two double-buffered slots, each a header sector
    followed by nine-sector page records.  A checkpoint is written to the
    inactive slot; the superblock write that flips the active slot is the one
    commit point.

    The device state [D] is threaded through the operations.  A writer or
    reader holds a pointer to its store in the source; here the store it points
    to is passed next to it, so that a client that re-points the store (the
    keyframe store does) is modelled as it is. *)
From Stdlib Require Import ZArith Lia.
From S2P Require Import Prelude.
From S2P Require Import Crc32.
From S2P Require Import BlockDevice.
Open Scope Z_scope.
Open Scope c_scope.

(** ** Geometry, magic numbers, error codes *)
Definition SNAPSHOT_SECTOR_SIZE : Z := 512.
Definition SNAPSHOT_PAGE_SIZE : Z := 4096.
Definition SNAPSHOT_SECTORS_PER_PAGE : Z := SNAPSHOT_PAGE_SIZE / SNAPSHOT_SECTOR_SIZE.
Definition SNAPSHOT_SECTORS_PER_RECORD : Z := 1 + SNAPSHOT_SECTORS_PER_PAGE.
Definition SNAPSHOT_SB_MAGIC : Z := 0x494B4F53534E4250.
Definition SNAPSHOT_SLOT_MAGIC : Z := 0x494B4F53534C4F54.
Definition SNAPSHOT_FORMAT_VERSION : Z := 1.
Definition SNAPSHOT_NO_SLOT : Z := 0xFFFFFFFF.

Definition SNAPSHOT_OK : Z := 0.
Definition SNAPSHOT_ERR_PARAM : Z := -1.
Definition SNAPSHOT_ERR_IO : Z := -2.
Definition SNAPSHOT_ERR_NOMEM : Z := -3.
Definition SNAPSHOT_ERR_FULL : Z := -4.
Definition SNAPSHOT_ERR_NO_CHECKPOINT : Z := -5.
Definition SNAPSHOT_ERR_CRC : Z := -6.
Definition SNAPSHOT_ERR_STATE : Z := -7.
Definition SNAPSHOT_ERR_VERSION : Z := -8.

(** ** On-disk structures *)
Record snapshot_superblock_t := {
  sb_magic : Z;
  sb_version : Z;
  sb_active_slot : Z;
  sb_epoch : Z;
  sb_slot_crc : Z;
  sb_kernel_version : Z;
  sb_superblock_crc : Z }.

Record snapshot_slot_header_t := {
  sh_magic : Z;
  sh_epoch : Z;
  sh_record_count : Z;
  sh_reserved : Z;
  sh_page_count : Z;
  sh_slot_crc : Z;
  sh_reserved2 : Z }.

Record snapshot_record_header_t := {
  rh_epoch : Z;
  rh_pid : Z;
  rh_flags : Z;
  rh_virt_addr : Z;
  rh_page_bytes : Z;
  rh_reserved : Z }.

(** Field widths in memory order; the superblock ends with four padding bytes. *)
Definition superblock_layout : list nat := [8; 4; 4; 8; 4; 4; 4; 4]%nat.
Definition slot_header_layout : list nat := [8; 8; 4; 4; 8; 4; 4]%nat.
Definition record_header_layout : list nat := [8; 4; 4; 8; 4; 4]%nat.

Definition superblock_fields (sb : snapshot_superblock_t) : list Z :=
  [sb_magic sb; sb_version sb; sb_active_slot sb; sb_epoch sb; sb_slot_crc sb;
   sb_kernel_version sb; sb_superblock_crc sb; 0].
Definition superblock_bytes (sb : snapshot_superblock_t) : list byte :=
  pack superblock_layout (superblock_fields sb).
Definition superblock_of_bytes (bs : list byte) : snapshot_superblock_t :=
  let f := unpack superblock_layout bs in
  {| sb_magic := field 0 f; sb_version := field 1 f; sb_active_slot := field 2 f;
     sb_epoch := field 3 f; sb_slot_crc := field 4 f; sb_kernel_version := field 5 f;
     sb_superblock_crc := field 6 f |}.

Definition slot_header_fields (sh : snapshot_slot_header_t) : list Z :=
  [sh_magic sh; sh_epoch sh; sh_record_count sh; sh_reserved sh; sh_page_count sh;
   sh_slot_crc sh; sh_reserved2 sh].
Definition slot_header_bytes (sh : snapshot_slot_header_t) : list byte :=
  pack slot_header_layout (slot_header_fields sh).
Definition slot_header_of_bytes (bs : list byte) : snapshot_slot_header_t :=
  let f := unpack slot_header_layout bs in
  {| sh_magic := field 0 f; sh_epoch := field 1 f; sh_record_count := field 2 f;
     sh_reserved := field 3 f; sh_page_count := field 4 f; sh_slot_crc := field 5 f;
     sh_reserved2 := field 6 f |}.

Definition record_header_fields (h : snapshot_record_header_t) : list Z :=
  [rh_epoch h; rh_pid h; rh_flags h; rh_virt_addr h; rh_page_bytes h; rh_reserved h].
Definition record_header_bytes (h : snapshot_record_header_t) : list byte :=
  pack record_header_layout (record_header_fields h).
Definition record_header_of_bytes (bs : list byte) : snapshot_record_header_t :=
  let f := unpack record_header_layout bs in
  {| rh_epoch := field 0 f; rh_pid := field 1 f; rh_flags := field 2 f;
     rh_virt_addr := field 3 f; rh_page_bytes := field 4 f; rh_reserved := field 5 f |}.

(** A struct written at the start of a [memset]-zeroed sector. *)
Definition sector_of (bs : list byte) : list byte :=
  zero_padded (Z.to_nat SNAPSHOT_SECTOR_SIZE) bs.

(** ** In-memory handles *)
Record snapshot_store_t (D : Type) := {
  st_dev : ptr (fat_block_device_t D);
  st_base_sector : Z;
  st_slot_sectors : Z;
  st_max_records : Z;
  st_kernel_version : Z;
  st_initialized : bool }.
Arguments st_dev {D}. Arguments st_base_sector {D}. Arguments st_slot_sectors {D}.
Arguments st_max_records {D}. Arguments st_kernel_version {D}. Arguments st_initialized {D}.

Record snapshot_writer_t := {
  w_slot : Z;
  w_slot_base : Z;
  w_epoch : Z;
  w_record_count : Z;
  w_page_count : Z;
  w_crc : Z;
  w_active : bool }.

Record snapshot_reader_t := {
  r_slot_base : Z;
  r_epoch : Z;
  r_record_count : Z;
  r_next_index : Z;
  r_valid : bool }.

Record snapshot_page_record_t := {
  pr_epoch : Z;
  pr_pid : Z;
  pr_flags : Z;
  pr_virt_addr : Z;
  pr_page_data : list byte }.

(** The reader after its [memset] to zero. *)
Definition reader_zero : snapshot_reader_t :=
  {| r_slot_base := 0; r_epoch := 0; r_record_count := 0; r_next_index := 0; r_valid := false |}.

Section store.
Context {D : Type}.
Implicit Types (store : snapshot_store_t D) (d : D).

(** *** Sector I/O wrappers *)
Definition dev_read store d (sector count : Z) : Z * list byte :=
  match st_dev store with
  | NULL => (SNAPSHOT_ERR_IO, [])
  | Some dv =>
      match read_sectors dv with
      | NULL => (SNAPSHOT_ERR_IO, [])
      | Some rd =>
          let '(rc, buf) := rd d sector count in
          ((if rc =? 0 then SNAPSHOT_OK else SNAPSHOT_ERR_IO), buf)
      end
  end.

Definition dev_write store d (sector count : Z) (buf : list byte) : Z * D :=
  match st_dev store with
  | NULL => (SNAPSHOT_ERR_IO, d)
  | Some dv =>
      match write_sectors dv with
      | NULL => (SNAPSHOT_ERR_IO, d)
      | Some wr =>
          let '(rc, d') := wr d sector count buf in
          ((if rc =? 0 then SNAPSHOT_OK else SNAPSHOT_ERR_IO), d')
      end
  end.

Definition slot_base_sector store (slot : Z) : Z :=
  u32 (st_base_sector store + 1 + u32 (slot * st_slot_sectors store)).

Definition record_sector (slot_base index : Z) : Z :=
  u32 (slot_base + 1 + u32 (index * SNAPSHOT_SECTORS_PER_RECORD)).

(** *** Superblock helpers *)
Definition read_superblock store d : Z * snapshot_superblock_t :=
  let '(rc, sec) := dev_read store d (st_base_sector store) 1 in
  (rc, superblock_of_bytes sec).

Definition write_superblock store d (sb : snapshot_superblock_t) : Z * D :=
  dev_write store d (st_base_sector store) 1 (sector_of (superblock_bytes sb)).

(** The CRC of the bytes before the [superblock_crc] field, at offset 32. *)
Definition superblock_crc (sb : snapshot_superblock_t) : Z :=
  snapshot_crc32 0 (take 32 (superblock_bytes sb)).

Definition superblock_valid (sb : snapshot_superblock_t) : bool :=
  if negb (sb_magic sb =? SNAPSHOT_SB_MAGIC) then false
  else if negb (sb_version sb =? SNAPSHOT_FORMAT_VERSION) then false
  else sb_superblock_crc sb =? superblock_crc sb.

(** A superblock whose last field is its own CRC. *)
Definition seal_superblock (sb : snapshot_superblock_t) : snapshot_superblock_t :=
  {| sb_magic := sb_magic sb; sb_version := sb_version sb;
     sb_active_slot := sb_active_slot sb; sb_epoch := sb_epoch sb;
     sb_slot_crc := sb_slot_crc sb; sb_kernel_version := sb_kernel_version sb;
     sb_superblock_crc := superblock_crc sb |}.

(** *** Provisioning *)
Definition snapshot_store_init (store : ptr (snapshot_store_t D))
    (dev : ptr (fat_block_device_t D)) (base_sector slot_sectors : Z)
  : Z * ptr (snapshot_store_t D) :=
  match store, dev with
  | Some _, Some dv =>
      if slot_sectors <? 1 + SNAPSHOT_SECTORS_PER_RECORD then (SNAPSHOT_ERR_PARAM, store)
      else if negb (sector_size dv =? SNAPSHOT_SECTOR_SIZE) then (SNAPSHOT_ERR_PARAM, store)
      else
        let needed := u32 (1 + u32 (2 * slot_sectors)) in
        if total_sectors dv <? u64 (base_sector + needed) then (SNAPSHOT_ERR_PARAM, store)
        else
          (SNAPSHOT_OK,
           & {| st_dev := dev; st_base_sector := base_sector; st_slot_sectors := slot_sectors;
                st_max_records := u32 (slot_sectors - 1) / SNAPSHOT_SECTORS_PER_RECORD;
                st_kernel_version := 0; st_initialized := true |})
  | _, _ => (SNAPSHOT_ERR_PARAM, store)
  end.

Definition snapshot_store_set_version (store : ptr (snapshot_store_t D)) (kernel_version : Z)
  : ptr (snapshot_store_t D) :=
  match store with
  | NULL => NULL
  | Some st =>
      & {| st_dev := st_dev st; st_base_sector := st_base_sector st;
           st_slot_sectors := st_slot_sectors st; st_max_records := st_max_records st;
           st_kernel_version := kernel_version; st_initialized := st_initialized st |}
  end.

Definition snapshot_store_format (store : ptr (snapshot_store_t D)) d : Z * D :=
  match store with
  | NULL => (SNAPSHOT_ERR_STATE, d)
  | Some st =>
      if negb (st_initialized st) then (SNAPSHOT_ERR_STATE, d)
      else
        let sb := {| sb_magic := SNAPSHOT_SB_MAGIC; sb_version := SNAPSHOT_FORMAT_VERSION;
                     sb_active_slot := SNAPSHOT_NO_SLOT; sb_epoch := 0; sb_slot_crc := 0;
                     sb_kernel_version := st_kernel_version st; sb_superblock_crc := 0 |} in
        write_superblock st d (seal_superblock sb)
  end.

(** *** Writing a checkpoint *)
Definition snapshot_store_begin (store : ptr (snapshot_store_t D)) d (epoch : Z)
    (writer : ptr snapshot_writer_t) : Z * ptr snapshot_writer_t :=
  match store, writer with
  | Some st, Some _ =>
      if negb (st_initialized st) then (SNAPSHOT_ERR_PARAM, writer)
      else
        let '(rc, sb) := read_superblock st d in
        let inactive :=
          if (rc =? SNAPSHOT_OK) && superblock_valid sb && (sb_active_slot sb <=? 1)
          then Z.lxor (sb_active_slot sb) 1
          else 0 in
        (SNAPSHOT_OK,
         & {| w_slot := inactive; w_slot_base := slot_base_sector st inactive;
              w_epoch := epoch; w_record_count := 0; w_page_count := 0; w_crc := 0;
              w_active := true |})
  | _, _ => (SNAPSHOT_ERR_PARAM, writer)
  end.

Definition record_meta (epoch pid flags virt_addr : Z) : list byte :=
  sector_of (record_header_bytes
    {| rh_epoch := epoch; rh_pid := pid; rh_flags := flags; rh_virt_addr := virt_addr;
       rh_page_bytes := SNAPSHOT_PAGE_SIZE; rh_reserved := 0 |}).

(** [store] is [*writer->store]. *)
Definition snapshot_writer_add_page store d (writer : ptr snapshot_writer_t)
    (pid virt_addr flags : Z) (page_data : ptr (list byte)) : Z * D * ptr snapshot_writer_t :=
  match writer, page_data with
  | Some w, Some page =>
      if negb (w_active w) then (SNAPSHOT_ERR_PARAM, d, writer)
      else if st_max_records store <=? w_record_count w then (SNAPSHOT_ERR_FULL, d, writer)
      else
        let base := record_sector (w_slot_base w) (w_record_count w) in
        let meta := record_meta (w_epoch w) pid flags virt_addr in
        let '(rc, d) := dev_write store d base 1 meta in
        if negb (rc =? SNAPSHOT_OK) then (rc, d, writer)
        else
          let '(rc, d) := dev_write store d (u32 (base + 1)) SNAPSHOT_SECTORS_PER_PAGE page in
          if negb (rc =? SNAPSHOT_OK) then (rc, d, writer)
          else
            let crc := snapshot_crc32 (w_crc w) meta in
            let crc := snapshot_crc32 crc page in
            (SNAPSHOT_OK, d,
             & {| w_slot := w_slot w; w_slot_base := w_slot_base w; w_epoch := w_epoch w;
                  w_record_count := u32 (w_record_count w + 1);
                  w_page_count := u64 (w_page_count w + 1);
                  w_crc := crc; w_active := w_active w |})
  | _, _ => (SNAPSHOT_ERR_PARAM, d, writer)
  end.

Definition snapshot_store_commit store d (writer : ptr snapshot_writer_t)
  : Z * D * ptr snapshot_writer_t :=
  match writer with
  | NULL => (SNAPSHOT_ERR_STATE, d, writer)
  | Some w =>
      if negb (w_active w) then (SNAPSHOT_ERR_STATE, d, writer)
      else
        let sh := {| sh_magic := SNAPSHOT_SLOT_MAGIC; sh_epoch := w_epoch w;
                     sh_record_count := w_record_count w; sh_reserved := 0;
                     sh_page_count := w_page_count w; sh_slot_crc := w_crc w;
                     sh_reserved2 := 0 |} in
        let '(rc, d) := dev_write store d (w_slot_base w) 1 (sector_of (slot_header_bytes sh)) in
        if negb (rc =? SNAPSHOT_OK) then (rc, d, writer)
        else
          let sb := {| sb_magic := SNAPSHOT_SB_MAGIC; sb_version := SNAPSHOT_FORMAT_VERSION;
                       sb_active_slot := w_slot w; sb_epoch := w_epoch w;
                       sb_slot_crc := w_crc w; sb_kernel_version := st_kernel_version store;
                       sb_superblock_crc := 0 |} in
          let '(rc, d) := write_superblock store d (seal_superblock sb) in
          if negb (rc =? SNAPSHOT_OK) then (rc, d, writer)
          else
            (SNAPSHOT_OK, d,
             & {| w_slot := w_slot w; w_slot_base := w_slot_base w; w_epoch := w_epoch w;
                  w_record_count := w_record_count w; w_page_count := w_page_count w;
                  w_crc := w_crc w; w_active := false |})
  end.

(** *** Reading a checkpoint *)

(** The loop of [validate_slot]: [n] records left, [i] the next index. *)
Fixpoint validate_records store d (slot_base : Z) (n : nat) (i crc : Z) : Z * Z :=
  match n with
  | O => (SNAPSHOT_OK, crc)
  | S n =>
      let base := record_sector slot_base i in
      let '(rc, meta) := dev_read store d base 1 in
      if negb (rc =? SNAPSHOT_OK) then (rc, crc)
      else
        let '(rc, page) := dev_read store d (u32 (base + 1)) SNAPSHOT_SECTORS_PER_PAGE in
        if negb (rc =? SNAPSHOT_OK) then (rc, crc)
        else
          let crc := snapshot_crc32 crc meta in
          let crc := snapshot_crc32 crc page in
          validate_records store d slot_base n (u32 (i + 1)) crc
  end.

(** [kmalloc_ok]: the page buffer could be allocated. *)
Definition validate_slot (kmalloc_ok : bool) store d (slot_base : Z)
    (sh : snapshot_slot_header_t) : Z :=
  if negb kmalloc_ok then SNAPSHOT_ERR_NOMEM
  else
    let '(rc, crc) := validate_records store d slot_base (Z.to_nat (sh_record_count sh)) 0 0 in
    if negb (rc =? SNAPSHOT_OK) then rc
    else if crc =? sh_slot_crc sh then SNAPSHOT_OK else SNAPSHOT_ERR_CRC.

Definition snapshot_store_load (kmalloc_ok : bool) (store : ptr (snapshot_store_t D)) d
    (reader : ptr snapshot_reader_t) : Z * ptr snapshot_reader_t :=
  match store, reader with
  | Some st, Some _ =>
      if negb (st_initialized st) then (SNAPSHOT_ERR_PARAM, reader)
      else
        let r0 := & reader_zero in
        let '(rc, sb) := read_superblock st d in
        if negb (rc =? SNAPSHOT_OK) then (rc, r0)
        else if negb (superblock_valid sb) then (SNAPSHOT_ERR_NO_CHECKPOINT, r0)
        else if negb (sb_kernel_version sb =? st_kernel_version st) then (SNAPSHOT_ERR_VERSION, r0)
        else if 1 <? sb_active_slot sb then (SNAPSHOT_ERR_NO_CHECKPOINT, r0)
        else
          let slot_base := slot_base_sector st (sb_active_slot sb) in
          let '(rc, sec) := dev_read st d slot_base 1 in
          if negb (rc =? SNAPSHOT_OK) then (rc, r0)
          else
            let sh := slot_header_of_bytes sec in
            if negb (sh_magic sh =? SNAPSHOT_SLOT_MAGIC) then (SNAPSHOT_ERR_NO_CHECKPOINT, r0)
            else if negb (sh_epoch sh =? sb_epoch sb) then (SNAPSHOT_ERR_NO_CHECKPOINT, r0)
            else if negb (sh_slot_crc sh =? sb_slot_crc sb) then (SNAPSHOT_ERR_CRC, r0)
            else if st_max_records st <? sh_record_count sh then (SNAPSHOT_ERR_CRC, r0)
            else
              let rc := validate_slot kmalloc_ok st d slot_base sh in
              if negb (rc =? SNAPSHOT_OK) then (rc, r0)
              else
                (SNAPSHOT_OK,
                 & {| r_slot_base := slot_base; r_epoch := sh_epoch sh;
                      r_record_count := sh_record_count sh; r_next_index := 0;
                      r_valid := true |})
  | _, _ => (SNAPSHOT_ERR_PARAM, reader)
  end.

(** [store] is [*reader->store]; [out] says that the record and its page
    buffer are non-NULL.  A filled record is the third result. *)
Definition snapshot_reader_next store d (reader : ptr snapshot_reader_t) (out : bool)
  : Z * ptr snapshot_reader_t * ptr snapshot_page_record_t :=
  match reader with
  | NULL => (SNAPSHOT_ERR_PARAM, reader, NULL)
  | Some r =>
      if negb (r_valid r) || negb out then (SNAPSHOT_ERR_PARAM, reader, NULL)
      else if r_record_count r <=? r_next_index r then (SNAPSHOT_ERR_NO_CHECKPOINT, reader, NULL)
      else
        let base := record_sector (r_slot_base r) (r_next_index r) in
        let '(rc, meta) := dev_read store d base 1 in
        if negb (rc =? SNAPSHOT_OK) then (rc, reader, NULL)
        else
          let '(rc, page) := dev_read store d (u32 (base + 1)) SNAPSHOT_SECTORS_PER_PAGE in
          if negb (rc =? SNAPSHOT_OK) then (rc, reader, NULL)
          else
            let hdr := record_header_of_bytes meta in
            (SNAPSHOT_OK,
             & {| r_slot_base := r_slot_base r; r_epoch := r_epoch r;
                  r_record_count := r_record_count r;
                  r_next_index := u32 (r_next_index r + 1); r_valid := r_valid r |},
             & {| pr_epoch := rh_epoch hdr; pr_pid := rh_pid hdr; pr_flags := rh_flags hdr;
                  pr_virt_addr := rh_virt_addr hdr; pr_page_data := page |})
  end.
End store.
