(* ===== verification/SnapshotStoreSpec.v ===== *)
(** * The snapshot store is crash-atomic *)
From Stdlib Require Import ZArith Lia.
From S2P Require Import Prelude.
From S2P Require Import Crc32.
From S2P Require Import BlockDevice.
From S2P Require Import AtomicStore.
From S2P Require Import SnapshotStore.
Open Scope Z_scope.
Open Scope c_scope.

(** ** A checkpoint session and what a load finds *)

(** One page to persist: the arguments of [snapshot_writer_add_page]. *)
Record page := { pg_pid : Z; pg_virt_addr : Z; pg_flags : Z; pg_data : list byte }.

Definition writer_none : snapshot_writer_t :=
  {| w_slot := 0; w_slot_base := 0; w_epoch := 0; w_record_count := 0; w_page_count := 0;
     w_crc := 0; w_active := false |}.

Section session.
Context {D : Type}.
Implicit Types (store : snapshot_store_t D) (d : D).

(** Stream pages until one fails, as the writeback loop does. *)
Fixpoint add_pages store d (w : ptr snapshot_writer_t) (ps : list page)
  : Z * D * ptr snapshot_writer_t :=
  match ps with
  | [] => (SNAPSHOT_OK, d, w)
  | p :: ps =>
      let '(rc, d, w) := snapshot_writer_add_page store d w (pg_pid p) (pg_virt_addr p)
                           (pg_flags p) (& (pg_data p)) in
      if negb (rc =? SNAPSHOT_OK) then (rc, d, w) else add_pages store d w ps
  end.

(** Begin, stream, commit; stop at the first failure. *)
Definition save store d (ckpt : Z * list page) : Z * D :=
  let '(rc, w) := snapshot_store_begin (& store) d ckpt.1 (& writer_none) in
  if negb (rc =? SNAPSHOT_OK) then (rc, d)
  else
    let '(rc, d, w) := add_pages store d w ckpt.2 in
    if negb (rc =? SNAPSHOT_OK) then (rc, d)
    else let '(rc, d, w) := snapshot_store_commit store d w in (rc, d).

(** Iterate [snapshot_reader_next] until it stops yielding. *)
Fixpoint read_pages store d (r : ptr snapshot_reader_t) (fuel : nat) : list page :=
  match fuel with
  | O => []
  | S fuel =>
      match snapshot_reader_next store d r true with
      | (rc, r, Some pr) =>
          {| pg_pid := pr_pid pr; pg_virt_addr := pr_virt_addr pr; pg_flags := pr_flags pr;
             pg_data := pr_page_data pr |} :: read_pages store d r fuel
      | _ => []
      end
  end.

(** What a reader of the store finds: the load's error, or the epoch and the
    pages of the checkpoint in slot order. *)
Definition checkpoint_view store d : Z + Z * list page :=
  match snapshot_store_load true (& store) d (& reader_zero) with
  | (rc, Some r) =>
      if rc =? SNAPSHOT_OK
      then inr (r_epoch r, read_pages store d (& r) (Z.to_nat (r_record_count r)))
      else inl rc
  | (rc, NULL) => inl rc
  end.
End session.

(** ** Well-formed stores and pages *)
Definition page_ok (p : page) : Prop :=
  fits 4 (pg_pid p) /\ fits 8 (pg_virt_addr p) /\ fits 4 (pg_flags p) /\
  length (pg_data p) = 4096%nat.

Record store_wf {D} (dev : fat_block_device_t D) (st : snapshot_store_t D) : Prop := {
  wf_dev : st_dev st = & dev;
  wf_init : st_initialized st = true;
  wf_base : 0 <= st_base_sector st;
  wf_slot : 10 <= st_slot_sectors st;
  wf_fit : st_base_sector st + 1 + 2 * st_slot_sectors st <= total_sectors dev;
  wf_max : st_max_records st = (st_slot_sectors st - 1) / 9;
  wf_version : fits 4 (st_kernel_version st) }.

(** A checkpoint that fits the store's slots. *)
Definition ckpt_ok {D} (st : snapshot_store_t D) (ckpt : Z * list page) : Prop :=
  fits 8 ckpt.1 /\ Forall page_ok ckpt.2.

(** ** Byte-level round trips *)
Lemma superblock_roundtrip sb :
  Forall2 fits superblock_layout (superblock_fields sb) ->
  superblock_of_bytes (sector_of (superblock_bytes sb)) = sb.
Proof.
  intros H. unfold superblock_of_bytes, sector_of, zero_padded, superblock_bytes.
  rewrite unpack_pack by done. destruct sb; reflexivity.
Qed.

Lemma slot_header_roundtrip sh :
  Forall2 fits slot_header_layout (slot_header_fields sh) ->
  slot_header_of_bytes (sector_of (slot_header_bytes sh)) = sh.
Proof.
  intros H. unfold slot_header_of_bytes, sector_of, zero_padded, slot_header_bytes.
  rewrite unpack_pack by done. destruct sh; reflexivity.
Qed.

Lemma record_header_roundtrip h :
  Forall2 fits record_header_layout (record_header_fields h) ->
  record_header_of_bytes (sector_of (record_header_bytes h)) = h.
Proof.
  intros H. unfold record_header_of_bytes, sector_of, zero_padded, record_header_bytes.
  rewrite unpack_pack by done. destruct h; reflexivity.
Qed.

Lemma length_sector_of bs : (length bs <= 512)%nat -> length (sector_of bs) = 512%nat.
Proof. intros. apply length_zero_padded. done. Qed.

(** The superblock's CRC does not depend on the field that stores it. *)
Lemma superblock_crc_seal sb : superblock_crc (seal_superblock sb) = superblock_crc sb.
Proof. unfold superblock_crc. f_equal. Qed.

Lemma superblock_crc_range sb : reg (superblock_crc sb).
Proof. apply crc32_range. Qed.

Lemma superblock_valid_seal sb :
  sb_magic sb = SNAPSHOT_SB_MAGIC -> sb_version sb = SNAPSHOT_FORMAT_VERSION ->
  superblock_valid (seal_superblock sb) = true.
Proof.
  intros Hm Hv. unfold superblock_valid. rewrite superblock_crc_seal.
  cbn [seal_superblock sb_magic sb_version sb_superblock_crc].
  rewrite Hm, Hv, !Z.eqb_refl. done.
Qed.

(** ** Geometry and device access *)
Section proofs.
Context {D : Type} {dev : fat_block_device_t D} `{!BlockDevice dev}.
Context {st : snapshot_store_t D} (wf : store_wf dev st).
Implicit Types (d : D).

(** First sector of slot [s]. *)
Definition slot_lo (s : Z) : Z := st_base_sector st + 1 + s * st_slot_sectors st.
(** First sector of record [i] of slot [s]. *)
Definition record_lo (s i : Z) : Z := slot_lo s + 1 + i * 9.

Lemma geometry s i :
  0 <= s <= 1 -> 0 <= i < st_max_records st ->
  slot_lo s < record_lo s i /\ record_lo s i + 9 <= slot_lo s + st_slot_sectors st /\
  slot_lo s + st_slot_sectors st <= total_sectors dev.
Proof.
  intros Hs Hi. destruct wf as [_ _ _ Hslot Hfit Hmax _]. rewrite Hmax in Hi.
  pose proof (Z.mul_div_le (st_slot_sectors st - 1) 9 ltac:(lia)).
  unfold record_lo, slot_lo. assert (s = 0 \/ s = 1) as [-> | ->] by lia; lia.
Qed.

Lemma total_small : total_sectors dev < 2 ^ 32.
Proof. apply (bd_total (dev := dev)). Qed.

Lemma max_records_small : 0 <= st_max_records st < 2 ^ 32 - 1.
Proof.
  pose proof total_small. destruct wf as [_ _ Hb Hslot Hfit Hmax _]. rewrite Hmax.
  pose proof (Z.mul_div_le (st_slot_sectors st - 1) 9 ltac:(lia)).
  split; [apply Z.div_pos; lia | lia].
Qed.

Lemma slot_base_eq s : 0 <= s <= 1 -> slot_base_sector st s = slot_lo s.
Proof.
  intros Hs. pose proof total_small. destruct wf as [_ _ Hb Hslot Hfit _ _].
  unfold slot_base_sector, slot_lo.
  assert (0 <= s * st_slot_sectors st <= st_slot_sectors st) by nia.
  rewrite (u32_id (_ * _)), u32_id; lia.
Qed.

Lemma record_sector_eq s i :
  0 <= s <= 1 -> 0 <= i < st_max_records st -> record_sector (slot_lo s) i = record_lo s i.
Proof.
  intros Hs Hi. pose proof total_small. destruct (geometry s i Hs Hi) as (H1 & H2 & H3).
  assert (0 <= slot_lo s) by (destruct wf; unfold slot_lo; nia).
  unfold record_sector, record_lo in *. change SNAPSHOT_SECTORS_PER_RECORD with 9.
  rewrite (u32_id (_ * _)), u32_id; lia.
Qed.

Lemma record_page_eq s i :
  0 <= s <= 1 -> 0 <= i < st_max_records st -> u32 (record_lo s i + 1) = record_lo s i + 1.
Proof.
  intros Hs Hi. pose proof total_small. destruct (geometry s i Hs Hi) as (H1 & H2 & H3).
  assert (0 <= slot_lo s) by (destruct wf; unfold slot_lo; nia). apply u32_id. lia.
Qed.

Lemma range_superblock : in_range dev (st_base_sector st) 1.
Proof. destruct wf. unfold in_range. lia. Qed.

Lemma range_header s : 0 <= s <= 1 -> in_range dev (slot_lo s) 1.
Proof. intros. destruct wf. unfold in_range, slot_lo. nia. Qed.

Lemma range_meta s i :
  0 <= s <= 1 -> 0 <= i < st_max_records st -> in_range dev (record_lo s i) 1.
Proof.
  intros Hs Hi. pose proof (geometry s i Hs Hi). pose proof (range_header s Hs).
  unfold in_range in *. lia.
Qed.

Lemma range_page s i :
  0 <= s <= 1 -> 0 <= i < st_max_records st -> in_range dev (record_lo s i + 1) 8.
Proof.
  intros Hs Hi. pose proof (geometry s i Hs Hi). pose proof (range_header s Hs).
  unfold in_range in *. lia.
Qed.

Lemma dev_read_ok d s n :
  bd_inv d -> in_range dev s n -> dev_read st d s n = (SNAPSHOT_OK, sector_run bd_sector d s n).
Proof.
  intros Hd Hr. unfold dev_read. rewrite (wf_dev _ _ wf), bd_read_eq, bd_read_ok by done. done.
Qed.

Lemma dev_write_ok d s n bs :
  bd_inv d -> in_range dev s n -> length bs = (Z.to_nat n * 512)%nat ->
  bd_inv (dev_write st d s n bs).2 /\
  write_effect dev bd_sector d s n bs (dev_write st d s n bs).1 (dev_write st d s n bs).2.
Proof.
  intros Hd Hr Hb. unfold dev_write. rewrite (wf_dev _ _ wf), bd_write_eq.
  pose proof (bd_write_inv d s n bs Hd Hr Hb) as Hi.
  pose proof (bd_write_ok d s n bs Hd Hr Hb) as [Hf Ha Hw].
  destruct (bd_write d s n bs) as [rc d']. cbn in *. split; [done|]. split; [done..|].
  intros i Hrc Hin. apply Hw; [|done]. destruct (Z.eqb_spec rc 0); [done|discriminate].
Qed.

(** *** A load reads the superblock and the active slot only *)

(** The two devices hold the same bytes in [lo, hi). *)
Definition same_on (lo hi : Z) d d' : Prop :=
  forall i, lo <= i < hi -> bd_sector d' i = bd_sector d i.

Lemma same_on_weaken lo hi lo' hi' d d' :
  same_on lo hi d d' -> lo <= lo' -> hi' <= hi -> same_on lo' hi' d d'.
Proof. intros H ? ? i ?. apply H. lia. Qed.

Lemma same_on_trans lo hi d1 d2 d3 :
  same_on lo hi d1 d2 -> same_on lo hi d2 d3 -> same_on lo hi d1 d3.
Proof. intros H1 H2 i Hi. rewrite H2, H1; done. Qed.

Lemma dev_read_same d d' s n :
  bd_inv d -> bd_inv d' -> in_range dev s n -> same_on s (s + n) d d' ->
  dev_read st d' s n = dev_read st d s n.
Proof.
  intros Hd Hd' Hr Hs. rewrite !dev_read_ok by done.
  f_equal. apply (sector_run_ext dev). done.
Qed.

Lemma validate_records_same d d' s n i crc :
  bd_inv d -> bd_inv d' -> 0 <= s <= 1 -> 0 <= i -> i + Z.of_nat n <= st_max_records st ->
  same_on (slot_lo s) (slot_lo s + st_slot_sectors st) d d' ->
  validate_records st d' (slot_lo s) n i crc = validate_records st d (slot_lo s) n i crc.
Proof.
  intros Hd Hd' Hs. revert i crc; induction n as [|n IH]; intros i crc Hi Hn Hsame; [done|].
  assert (0 <= i < st_max_records st) as Hi' by lia.
  pose proof (geometry s i Hs Hi') as (G1 & G2 & G3). pose proof max_records_small.
  pose proof (range_header s Hs) as (R1 & _ & _).
  cbn [validate_records]. rewrite record_sector_eq, record_page_eq by done.
  change SNAPSHOT_SECTORS_PER_PAGE with 8.
  rewrite (dev_read_same d d' (record_lo s i) 1), (dev_read_same d d' (record_lo s i + 1) 8);
    try done; try (eapply same_on_weaken; [exact Hsame|lia..]);
    [|apply range_page; done | apply range_meta; done].
  destruct (dev_read st d (record_lo s i) 1) as [rc1 meta].
  destruct (dev_read st d (record_lo s i + 1) 8) as [rc2 pg].
  destruct (negb (rc1 =? SNAPSHOT_OK)); [done|]. destruct (negb (rc2 =? SNAPSHOT_OK)); [done|].
  rewrite u32_id by lia. apply IH; [lia..|done].
Qed.

Lemma read_pages_same d d' s fuel r :
  bd_inv d -> bd_inv d' -> 0 <= s <= 1 -> r_slot_base r = slot_lo s -> 0 <= r_next_index r ->
  r_record_count r <= st_max_records st ->
  same_on (slot_lo s) (slot_lo s + st_slot_sectors st) d d' ->
  read_pages st d' (& r) fuel = read_pages st d (& r) fuel.
Proof.
  intros Hd Hd' Hs. revert r; induction fuel as [|fuel IH]; intros r Hb Hi Hc Hsame; [done|].
  cbn [read_pages snapshot_reader_next].
  destruct (negb (r_valid r) || negb true); [done|].
  destruct (Z.leb_spec (r_record_count r) (r_next_index r)); [done|].
  assert (0 <= r_next_index r < st_max_records st) as Hi' by lia.
  pose proof (geometry s _ Hs Hi') as (G1 & G2 & G3). pose proof total_small.
  pose proof (range_header s Hs) as (R1 & _ & _).
  rewrite Hb, record_sector_eq, record_page_eq by done.
  change SNAPSHOT_SECTORS_PER_PAGE with 8.
  rewrite (dev_read_same d d' _ 1), (dev_read_same d d' _ 8);
    try done; try (eapply same_on_weaken; [exact Hsame|lia..]);
    [|apply range_page; done | apply range_meta; done].
  destruct (dev_read st d (record_lo s _) 1) as [rc1 meta].
  destruct (dev_read st d (record_lo s _ + 1) 8) as [rc2 pg].
  destruct (negb (rc1 =? SNAPSHOT_OK)); [done|]. destruct (negb (rc2 =? SNAPSHOT_OK)); [done|].
  f_equal. apply IH; cbn; auto. apply u32_range.
Qed.

(** *** Which slot a session writes *)

Definition disk_superblock d : snapshot_superblock_t :=
  superblock_of_bytes (bd_sector d (st_base_sector st)).

Definition inactive_slot d : Z :=
  let sb := disk_superblock d in
  if superblock_valid sb && (sb_active_slot sb <=? 1) then Z.lxor (sb_active_slot sb) 1 else 0.

Lemma active_slot_nonneg bs : 0 <= sb_active_slot (superblock_of_bytes bs).
Proof. apply (field_fits superblock_layout bs 2 4). done. Qed.

Lemma inactive_slot_range d : 0 <= inactive_slot d <= 1.
Proof.
  unfold inactive_slot. cbv zeta.
  destruct (superblock_valid _); cbn [andb]; [|lia].
  destruct (Z.leb_spec (sb_active_slot (disk_superblock d)) 1); [|lia].
  pose proof (active_slot_nonneg (bd_sector d (st_base_sector st))) as H0.
  fold (disk_superblock d) in H0.
  assert (sb_active_slot (disk_superblock d) = 0 \/ sb_active_slot (disk_superblock d) = 1)
    as [-> | ->] by lia; [change (Z.lxor 0 1) with 1 | change (Z.lxor 1 1) with 0]; lia.
Qed.

(** The slot a session writes is never the one a valid superblock names. *)
Lemma inactive_not_active d :
  superblock_valid (disk_superblock d) = true -> sb_active_slot (disk_superblock d) <= 1 ->
  sb_active_slot (disk_superblock d) <> inactive_slot d.
Proof.
  intros Hv Ha. unfold inactive_slot. rewrite Hv. rewrite (proj2 (Z.leb_le _ _) Ha). cbn [andb].
  pose proof (active_slot_nonneg (bd_sector d (st_base_sector st))) as H0.
  fold (disk_superblock d) in H0.
  assert (sb_active_slot (disk_superblock d) = 0 \/ sb_active_slot (disk_superblock d) = 1)
    as [-> | ->] by lia; [change (Z.lxor 0 1) with 1 | change (Z.lxor 1 1) with 0]; lia.
Qed.

Lemma read_superblock_ok d : bd_inv d -> read_superblock st d = (SNAPSHOT_OK, disk_superblock d).
Proof.
  intros Hd. unfold read_superblock. rewrite dev_read_ok by (done || apply range_superblock).
  rewrite (sector_run_1 dev). done.
Qed.

(** The devices agree outside the store's region. *)
Definition region_end : Z := st_base_sector st + 1 + 2 * st_slot_sectors st.
Definition outside d d' : Prop :=
  forall i, 0 <= i < total_sectors dev -> ~ (st_base_sector st <= i < region_end) ->
    bd_sector d' i = bd_sector d i.

(** What a session to slot [s] leaves alone: the superblock and the other slot. *)
Definition keeps s d d' : Prop :=
  bd_inv d' /\ same_on (st_base_sector st) (st_base_sector st + 1) d d' /\
  (forall s', 0 <= s' <= 1 -> s' <> s -> same_on (slot_lo s') (slot_lo s' + st_slot_sectors st) d d') /\
  outside d d'.

Lemma keeps_refl s d : bd_inv d -> keeps s d d.
Proof. intros. split_and!; done. Qed.

Lemma keeps_trans s d1 d2 d3 : keeps s d1 d2 -> keeps s d2 d3 -> keeps s d1 d3.
Proof.
  intros (_ & Hb & Hs & Ho) (? & Hb' & Hs' & Ho'). split_and!; [done|eapply same_on_trans; done| |].
  - intros s' H1 H2. eapply same_on_trans; [apply Hs | apply Hs']; done.
  - intros i H1 H2. rewrite Ho', Ho; done.
Qed.

(** A load depends on the superblock and the active slot only. *)
Lemma checkpoint_view_same d d' :
  bd_inv d -> bd_inv d' ->
  same_on (st_base_sector st) (st_base_sector st + 1) d d' ->
  (forall s, superblock_valid (disk_superblock d) = true -> s = sb_active_slot (disk_superblock d) ->
    0 <= s <= 1 -> same_on (slot_lo s) (slot_lo s + st_slot_sectors st) d d') ->
  checkpoint_view st d' = checkpoint_view st d.
Proof.
  intros Hd Hd' Hb Hs.
  assert (disk_superblock d' = disk_superblock d) as Hsb
    by (unfold disk_superblock; rewrite (Hb (st_base_sector st)) by lia; done).
  unfold checkpoint_view, snapshot_store_load. rewrite (wf_init _ _ wf). cbn [negb].
  rewrite !read_superblock_ok, Hsb by done. cbn [negb].
  destruct (superblock_valid (disk_superblock d)) eqn:Hv; [|done].
  destruct (negb (sb_kernel_version _ =? _)); [done|].
  destruct (Z.ltb_spec 1 (sb_active_slot (disk_superblock d))) as [|Ha]; [done|].
  pose proof (active_slot_nonneg (bd_sector d (st_base_sector st))) as H0.
  fold (disk_superblock d) in H0. cbn [negb].
  set (s := sb_active_slot (disk_superblock d)) in *.
  specialize (Hs s eq_refl eq_refl ltac:(lia)). rewrite slot_base_eq by lia.
  pose proof (wf_slot _ _ wf).
  rewrite (dev_read_same d d' (slot_lo s) 1);
    [|done|done|apply range_header; lia|eapply same_on_weaken; [exact Hs|lia..]].
  destruct (dev_read st d (slot_lo s) 1) as [rc sec]. destruct (negb (rc =? _)); [done|].
  destruct (negb (sh_magic _ =? _)); [reflexivity|].
  destruct (negb (sh_epoch _ =? _)); [reflexivity|].
  destruct (negb (sh_slot_crc _ =? _)); [reflexivity|].
  destruct (Z.ltb_spec (st_max_records st) (sh_record_count (slot_header_of_bytes sec))); [done|].
  assert (0 <= sh_record_count (slot_header_of_bytes sec))
    by (apply (field_fits slot_header_layout sec 2 4); done).
  unfold validate_slot. cbn [negb].
  rewrite (validate_records_same d d' s) by (done || lia).
  destruct (validate_records _ _ _ _ _ _) as [rc2 crc].
  destruct (rc2 =? SNAPSHOT_OK) eqn:E; cbn [negb]; [|rewrite E; reflexivity].
  destruct (crc =? _); [|reflexivity]. cbn -[read_pages].
  rewrite (read_pages_same d d' s); auto; cbn; lia.
Qed.

Lemma checkpoint_view_keeps d d' :
  bd_inv d -> keeps (inactive_slot d) d d' -> checkpoint_view st d' = checkpoint_view st d.
Proof.
  intros Hd (Hd' & Hb & Hs & _). apply checkpoint_view_same; [assumption..|].
  intros s Hv -> Ha. apply Hs; [lia|]. apply inactive_not_active; [assumption|lia].
Qed.

(** In particular, writes outside the region do not matter. *)
Lemma checkpoint_view_region d d' :
  bd_inv d -> bd_inv d' -> same_on (st_base_sector st) region_end d d' ->
  checkpoint_view st d' = checkpoint_view st d.
Proof.
  intros Hd Hd' Hs. pose proof (wf_slot _ _ wf). unfold region_end in Hs.
  apply checkpoint_view_same; [assumption..| |].
  - eapply same_on_weaken; [exact Hs | lia..].
  - intros s _ _ Hs'. eapply same_on_weaken; [exact Hs | unfold slot_lo; nia..].
Qed.

(** *** What a session writes *)

Definition page_meta (epoch : Z) (p : page) : list byte :=
  record_meta epoch (pg_pid p) (pg_flags p) (pg_virt_addr p).

(** Record [i] of slot [s] is the page [p]. *)
Definition holds d (s epoch : Z) (i : nat) (p : page) : Prop :=
  bd_sector d (record_lo s (Z.of_nat i)) = page_meta epoch p /\
  sector_run bd_sector d (record_lo s (Z.of_nat i) + 1) 8 = pg_data p.

Definition holds_all d s epoch (ps : list page) : Prop :=
  forall i p, ps !! i = Some p -> holds d s epoch i p.

Definition crc_page (epoch crc : Z) (p : page) : Z :=
  snapshot_crc32 (snapshot_crc32 crc (page_meta epoch p)) (pg_data p).
Definition slot_crc (epoch : Z) (ps : list page) : Z := fold_left (crc_page epoch) ps 0.

Lemma length_page_meta epoch p : length (page_meta epoch p) = 512%nat.
Proof.
  apply length_sector_of. unfold record_header_bytes. rewrite length_pack by done.
  cbn. lia.
Qed.

Lemma slot_crc_range epoch ps : 0 <= slot_crc epoch ps < 2 ^ 32.
Proof.
  unfold slot_crc. destruct ps as [|p ps] using rev_ind; [cbn; lia|].
  rewrite fold_left_app. cbn [fold_left]. unfold crc_page. apply crc32_range.
Qed.

(** The state of a session to slot [s] that has streamed [ps]. *)
Record writing (d0 : D) (s epoch : Z) (ps : list page) (w : snapshot_writer_t) (d : D) : Prop := {
  wr_keeps : keeps s d0 d;
  wr_slot : w_slot w = s;
  wr_base : w_slot_base w = slot_lo s;
  wr_epoch : w_epoch w = epoch;
  wr_count : w_record_count w = Z.of_nat (length ps);
  wr_pages : w_page_count w = Z.of_nat (length ps);
  wr_max : Z.of_nat (length ps) <= st_max_records st;
  wr_crc : w_crc w = slot_crc epoch ps;
  wr_active : w_active w = true;
  wr_holds : holds_all d s epoch ps }.

Lemma dev_write_rc d s n bs :
  (dev_write st d s n bs).1 = SNAPSHOT_OK \/ (dev_write st d s n bs).1 = SNAPSHOT_ERR_IO.
Proof.
  unfold dev_write. destruct (st_dev st) as [dv|]; [|by right].
  destruct (write_sectors dv) as [wr|]; [|by right].
  destruct (wr d s n bs) as [rc d']. cbn. destruct (rc =? 0); auto.
Qed.

(** A write inside slot [s] keeps the superblock and the other slot. *)
Lemma write_keeps d s a n bs :
  bd_inv d -> 0 <= s <= 1 -> length bs = (Z.to_nat n * 512)%nat -> 0 < n ->
  slot_lo s <= a -> a + n <= slot_lo s + st_slot_sectors st ->
  keeps s d (dev_write st d a n bs).2.
Proof.
  intros Hd Hs Hb Hn H1 H2. pose proof total_small.
  destruct wf as [_ _ Hb0 Hsl Hfit _ _].
  assert (in_range dev a n) as Hr by (unfold in_range, slot_lo in *; nia).
  destruct (dev_write_ok d a n bs Hd Hr Hb) as [Hi [Hf _ _]].
  split_and!; [done| | |].
  - intros i Hi'. apply Hf; unfold slot_lo in *; nia.
  - intros s' Hs' Hne i Hi'. apply Hf; unfold slot_lo in *;
      assert ((s = 0 /\ s' = 1) \/ (s = 1 /\ s' = 0)) as [[-> ->] | [-> ->]] by lia; lia.
  - intros i Hi' Ho. apply Hf; unfold region_end, slot_lo in *; nia.
Qed.

(** ... and the records it does not overlap. *)
Lemma write_holds d s a n bs epoch i p :
  bd_inv d -> in_range dev a n -> length bs = (Z.to_nat n * 512)%nat ->
  0 <= s <= 1 -> Z.of_nat i < st_max_records st ->
  (a + n <= record_lo s (Z.of_nat i) \/ record_lo s (Z.of_nat i) + 9 <= a) ->
  holds d s epoch i p -> holds (dev_write st d a n bs).2 s epoch i p.
Proof.
  intros Hd Hr Hb Hs Hi Hsep [Hm Hp].
  pose proof (geometry s (Z.of_nat i) Hs ltac:(lia)) as (G1 & G2 & G3).
  pose proof (range_header s Hs) as (R1 & _ & _).
  destruct (dev_write_ok d a n bs Hd Hr Hb) as [_ [Hf _ _]]. split.
  - rewrite Hf by lia. done.
  - rewrite <- Hp. apply (sector_run_ext dev). intros j Hj. apply Hf; lia.
Qed.

(** One page streamed: a failure leaves the session's footprint, a success
    also the record. *)
Lemma add_page_writing d0 s epoch ps w d p :
  0 <= s <= 1 -> writing d0 s epoch ps w d -> page_ok p ->
  let '(rc, d', w') := snapshot_writer_add_page st d (& w) (pg_pid p) (pg_virt_addr p)
                         (pg_flags p) (& (pg_data p)) in
  keeps s d0 d' /\ (rc = SNAPSHOT_OK -> exists w'', w' = & w'' /\ writing d0 s epoch (ps ++ [p]) w'' d').
Proof.
  intros Hs [Hk Hsl Hb He Hc Hp Hm Hcrc Hact Hh] (_ & _ & _ & Hlen).
  unfold snapshot_writer_add_page. rewrite Hact, Hb, Hc, He, Hp, Hcrc, Hsl. cbn [negb].
  destruct (Z.leb_spec (st_max_records st) (Z.of_nat (length ps))) as [|Hlt]; [done|].
  set (n := Z.of_nat (length ps)) in *.
  pose proof (geometry s n Hs ltac:(lia)) as (G1 & G2 & G3).
  pose proof (range_meta s n Hs ltac:(lia)) as Rm. pose proof (range_page s n Hs ltac:(lia)) as Rp.
  pose proof max_records_small. pose proof Hk as (Hd & _ & _).
  rewrite record_sector_eq, record_page_eq by lia.
  pose proof (length_page_meta epoch p) as Hlm. fold (page_meta epoch p).
  pose proof (write_keeps d s (record_lo s n) 1 _ Hd Hs Hlm ltac:(lia) ltac:(lia) ltac:(lia)) as Hk1.
  pose proof (dev_write_ok d _ 1 _ Hd Rm Hlm) as [_ [_ _ Hw1]].
  pose proof (fun i q Hq => write_holds d s (record_lo s n) 1 _ epoch i q Hd Rm Hlm Hs Hq) as Hh1.
  destruct (dev_write st d (record_lo s n) 1 _) as [rc1 d1]. cbn in Hk1, Hw1, Hh1.
  pose proof (keeps_trans _ _ _ _ Hk Hk1) as Hk01. pose proof Hk01 as (Hd1 & _ & _).
  destruct (Z.eqb_spec rc1 SNAPSHOT_OK) as [->|Hne]; cbn [negb]; [|done].
  change SNAPSHOT_SECTORS_PER_PAGE with 8.
  pose proof (write_keeps d1 s (record_lo s n + 1) 8 (pg_data p) Hd1 Hs Hlen ltac:(lia)
    ltac:(lia) ltac:(lia)) as Hk2.
  pose proof (dev_write_ok d1 _ 8 _ Hd1 Rp Hlen) as [_ [Hf2 _ Hw2]].
  pose proof (fun i q Hq => write_holds d1 s (record_lo s n + 1) 8 _ epoch i q Hd1 Rp Hlen Hs Hq) as Hh2.
  destruct (dev_write st d1 (record_lo s n + 1) 8 _) as [rc2 d2]. cbn in Hk2, Hf2, Hw2, Hh2.
  pose proof (keeps_trans _ _ _ _ Hk01 Hk2) as Hk02. pose proof (range_header s Hs) as (R1 & _ & _).
  destruct (Z.eqb_spec rc2 SNAPSHOT_OK) as [->|Hne]; cbn [negb]; [|done].
  split; [done|]. intros _. eexists. split; [done|].
  split; cbn; try done; rewrite ?length_app; cbn; rewrite ?u32_id, ?u64_id; try lia.
  { unfold slot_crc. rewrite fold_left_app. reflexivity. }
  intros i q [Hq | [Hi Hq]]%lookup_app_Some.
  - apply lookup_lt_Some in Hq as Hi. apply Hh in Hq.
    assert (record_lo s (Z.of_nat i) + 9 <= record_lo s n) by (unfold record_lo; lia).
    apply Hh2; [lia | lia |]. apply Hh1; [lia | lia | done].
  - apply list_lookup_singleton_Some in Hq as [Hi' <-].
    replace i with (length ps) by lia. fold n. split; fold n.
    + rewrite Hf2 by lia. rewrite Hw1 by (done || lia). rewrite Z.sub_diag. apply chunk_0. done.
    + apply (sector_run_chunks dev); [done|lia|]. intros j Hj. apply Hw2; [done|lia].
Qed.

Lemma add_pages_writing d0 s epoch ps done w d :
  0 <= s <= 1 -> writing d0 s epoch done w d -> Forall page_ok ps ->
  let '(rc, d', w') := add_pages st d (& w) ps in
  keeps s d0 d' /\ (rc = SNAPSHOT_OK -> exists w'', w' = & w'' /\ writing d0 s epoch (done ++ ps) w'' d').
Proof.
  intros Hs Hw Hok. revert done w d Hw; induction Hok as [|p ps Hp _ IH]; intros done w d Hw.
  - cbn. split; [apply Hw|]. intros _. exists w. rewrite app_nil_r. done.
  - cbn [add_pages]. pose proof (add_page_writing _ _ _ _ _ _ p Hs Hw Hp) as H.
    destruct (snapshot_writer_add_page _ _ _ _ _ _ _) as [[rc d1] w1]. destruct H as [Hk H].
    destruct (Z.eqb_spec rc SNAPSHOT_OK) as [->|Hne]; cbn [negb]; [|done].
    destruct (H eq_refl) as (w'' & -> & Hw'). specialize (IH _ _ _ Hw').
    rewrite <- app_assoc in IH. done.
Qed.

(** *** What a load finds in a committed slot *)

Definition committed_header (epoch : Z) (ps : list page) : snapshot_slot_header_t :=
  {| sh_magic := SNAPSHOT_SLOT_MAGIC; sh_epoch := epoch;
     sh_record_count := Z.of_nat (length ps); sh_reserved := 0;
     sh_page_count := Z.of_nat (length ps); sh_slot_crc := slot_crc epoch ps;
     sh_reserved2 := 0 |}.

Definition committed_superblock (s epoch : Z) (ps : list page) : snapshot_superblock_t :=
  seal_superblock
    {| sb_magic := SNAPSHOT_SB_MAGIC; sb_version := SNAPSHOT_FORMAT_VERSION;
       sb_active_slot := s; sb_epoch := epoch; sb_slot_crc := slot_crc epoch ps;
       sb_kernel_version := st_kernel_version st; sb_superblock_crc := 0 |}.

Lemma read_meta_ok d s epoch i p :
  bd_inv d -> 0 <= s <= 1 -> Z.of_nat i < st_max_records st -> holds d s epoch i p ->
  dev_read st d (record_lo s (Z.of_nat i)) 1 = (SNAPSHOT_OK, page_meta epoch p).
Proof.
  intros Hd Hs Hi [Hm _]. rewrite dev_read_ok by (done || apply range_meta; lia).
  rewrite (sector_run_1 dev), Hm. done.
Qed.

Lemma read_page_ok d s epoch i p :
  bd_inv d -> 0 <= s <= 1 -> Z.of_nat i < st_max_records st -> holds d s epoch i p ->
  dev_read st d (u32 (record_lo s (Z.of_nat i) + 1)) SNAPSHOT_SECTORS_PER_PAGE
    = (SNAPSHOT_OK, pg_data p).
Proof.
  intros Hd Hs Hi [_ Hp]. rewrite record_page_eq by lia. change SNAPSHOT_SECTORS_PER_PAGE with 8.
  rewrite dev_read_ok by (done || apply range_page; lia). rewrite Hp. done.
Qed.

Lemma validate_records_holds d s epoch ps done :
  bd_inv d -> 0 <= s <= 1 -> Z.of_nat (length (done ++ ps)) <= st_max_records st ->
  holds_all d s epoch (done ++ ps) ->
  validate_records st d (slot_lo s) (length ps) (Z.of_nat (length done)) (slot_crc epoch done)
    = (SNAPSHOT_OK, slot_crc epoch (done ++ ps)).
Proof.
  intros Hd Hs. revert done; induction ps as [|p ps IH]; intros done Hlen Hh.
  { rewrite app_nil_r. done. }
  rewrite length_app in Hlen. cbn [length] in *. pose proof max_records_small.
  assert (holds d s epoch (length done) p) as Hp by (apply Hh, list_lookup_middle; done).
  cbn [validate_records]. rewrite record_sector_eq by lia.
  rewrite (read_meta_ok _ _ _ _ _ Hd Hs) with (2 := Hp) by lia. cbn [negb Z.eqb SNAPSHOT_OK].
  rewrite (read_page_ok _ _ _ _ _ Hd Hs) with (2 := Hp) by lia. cbn [negb Z.eqb SNAPSHOT_OK].
  rewrite u32_id by lia. replace (p :: ps) with ([p] ++ ps) by done. rewrite app_assoc.
  rewrite <- IH; [|rewrite !length_app in *; cbn [length]; lia | rewrite <- app_assoc; done].
  f_equal; [rewrite length_app; cbn [length]; lia|].
  unfold slot_crc. rewrite fold_left_app. reflexivity.
Qed.

Lemma page_meta_roundtrip epoch p :
  fits 8 epoch -> page_ok p ->
  record_header_of_bytes (page_meta epoch p) =
    {| rh_epoch := epoch; rh_pid := pg_pid p; rh_flags := pg_flags p;
       rh_virt_addr := pg_virt_addr p; rh_page_bytes := SNAPSHOT_PAGE_SIZE; rh_reserved := 0 |}.
Proof.
  intros He (H1 & H2 & H3 & _). apply record_header_roundtrip.
  repeat constructor; cbn; try done; apply He || apply H1 || apply H2 || apply H3.
Qed.

Lemma read_pages_holds d s epoch ps done r :
  bd_inv d -> 0 <= s <= 1 -> fits 8 epoch -> Forall page_ok ps ->
  Z.of_nat (length (done ++ ps)) <= st_max_records st -> holds_all d s epoch (done ++ ps) ->
  r_slot_base r = slot_lo s -> r_valid r = true ->
  r_record_count r = Z.of_nat (length (done ++ ps)) -> r_next_index r = Z.of_nat (length done) ->
  read_pages st d (& r) (length ps) = ps.
Proof.
  intros Hd Hs He Hok. revert done r; induction Hok as [|p ps Hp _ IH];
    intros done r Hlen Hh Hb Hv Hc Hn; [done|].
  pose proof max_records_small. pose proof Hlen as Hlen'.
  rewrite length_app in Hlen'. cbn [length] in *.
  assert (holds d s epoch (length done) p) as Hhp by (apply Hh, list_lookup_middle; done).
  cbn [read_pages snapshot_reader_next]. rewrite Hv, Hc, Hn, Hb. cbn [negb orb].
  rewrite (proj2 (Z.leb_gt _ _)) by (rewrite length_app; cbn [length]; lia).
  rewrite record_sector_eq by lia.
  rewrite (read_meta_ok _ _ _ _ _ Hd Hs) with (2 := Hhp) by lia. cbn [negb Z.eqb SNAPSHOT_OK].
  rewrite (read_page_ok _ _ _ _ _ Hd Hs) with (2 := Hhp) by lia. cbn [negb Z.eqb SNAPSHOT_OK].
  rewrite page_meta_roundtrip by done. cbn [rh_epoch rh_pid rh_flags rh_virt_addr
    pr_pid pr_virt_addr pr_flags pr_page_data]. f_equal; [destruct p; done|].
  replace (p :: ps) with ([p] ++ ps) in * by done. rewrite app_assoc in *.
  apply (IH (done ++ [p])); cbn; auto. rewrite u32_id by lia.
  rewrite length_app. cbn [length]. lia.
Qed.

(** The committed slot: its header, its records and the superblock naming it. *)
Record committed d (s epoch : Z) (ps : list page) : Prop := {
  cm_slot : 0 <= s <= 1;
  cm_count : Z.of_nat (length ps) <= st_max_records st;
  cm_superblock : disk_superblock d = committed_superblock s epoch ps;
  cm_header : slot_header_of_bytes (bd_sector d (slot_lo s)) = committed_header epoch ps;
  cm_records : holds_all d s epoch ps }.

Lemma view_committed d s epoch ps :
  bd_inv d -> ckpt_ok st (epoch, ps) -> committed d s epoch ps ->
  checkpoint_view st d = inr (epoch, ps).
Proof.
  intros Hd [He Hok] [Hs Hc Hsb Hsh Hh]. cbn in He, Hok.
  unfold checkpoint_view, snapshot_store_load. rewrite (wf_init _ _ wf). cbn [negb].
  rewrite read_superblock_ok, Hsb by done. cbn [negb Z.eqb SNAPSHOT_OK].
  unfold committed_superblock at 1. rewrite superblock_valid_seal by done.
  cbn [negb committed_superblock seal_superblock sb_kernel_version sb_active_slot sb_epoch sb_slot_crc].
  rewrite Z.eqb_refl. cbn [negb]. rewrite (proj2 (Z.ltb_ge 1 s)) by lia.
  rewrite slot_base_eq, dev_read_ok by first [assumption | apply range_header; lia].
  rewrite (sector_run_1 dev), Hsh. cbn [negb Z.eqb SNAPSHOT_OK].
  cbn [committed_header sh_magic sh_epoch sh_slot_crc sh_record_count].
  rewrite !Z.eqb_refl. cbn [negb]. rewrite (proj2 (Z.ltb_ge _ _) Hc).
  unfold validate_slot. cbn [negb committed_header sh_record_count sh_slot_crc].
  rewrite Nat2Z.id.
  pose proof (validate_records_holds d s epoch ps [] Hd Hs Hc Hh) as HV. cbn [length] in HV.
  change (Z.of_nat 0) with 0 in HV. change (slot_crc epoch []) with 0 in HV. rewrite HV.
  cbn [negb Z.eqb SNAPSHOT_OK app]. rewrite Z.eqb_refl. cbn -[read_pages]. rewrite Nat2Z.id.
  rewrite (read_pages_holds d s epoch ps []); auto.
Qed.

Lemma superblock_fits s epoch ps :
  0 <= s <= 1 -> fits 8 epoch ->
  Forall2 fits superblock_layout (superblock_fields (committed_superblock s epoch ps)).
Proof.
  intros Hs He. pose proof (wf_version _ _ wf) as Hv. pose proof (slot_crc_range epoch ps) as Hc.
  unfold committed_superblock, seal_superblock, superblock_fields.
  cbn [sb_magic sb_version sb_active_slot sb_epoch sb_slot_crc sb_kernel_version sb_superblock_crc].
  match goal with |- context [superblock_crc ?sb] =>
    generalize (superblock_crc_range sb); generalize (superblock_crc sb) end.
  revert Hc. generalize (slot_crc epoch ps). intros c Hc crc Hb.
  fits_fields.
Qed.

Lemma header_fits epoch ps :
  fits 8 epoch -> Z.of_nat (length ps) <= st_max_records st ->
  Forall2 fits slot_header_layout (slot_header_fields (committed_header epoch ps)).
Proof.
  intros He Hc. pose proof (slot_crc_range epoch ps) as H. pose proof max_records_small.
  unfold slot_header_fields, committed_header. cbn [sh_magic sh_epoch sh_record_count sh_reserved
    sh_page_count sh_slot_crc sh_reserved2].
  generalize dependent (slot_crc epoch ps). intros c H'.
  fits_fields.
Qed.

Lemma length_superblock_sector sb : length (sector_of (superblock_bytes sb)) = 512%nat.
Proof. apply length_sector_of. unfold superblock_bytes. rewrite length_pack by done. cbn; lia. Qed.
Lemma length_header_sector sh : length (sector_of (slot_header_bytes sh)) = 512%nat.
Proof. apply length_sector_of. unfold slot_header_bytes. rewrite length_pack by done. cbn; lia. Qed.

(** The superblock write over a complete slot is the commit point. *)
Lemma superblock_commit d0 s epoch ps d :
  0 <= s <= 1 -> fits 8 epoch -> Z.of_nat (length ps) <= st_max_records st ->
  keeps s d0 d -> slot_header_of_bytes (bd_sector d (slot_lo s)) = committed_header epoch ps ->
  holds_all d s epoch ps ->
  let '(rc, d') := write_superblock st d (committed_superblock s epoch ps) in
  bd_inv d' /\ outside d0 d' /\ (keeps s d0 d' \/ committed d' s epoch ps) /\
  (rc = SNAPSHOT_OK -> committed d' s epoch ps).
Proof.
  intros Hs He Hm Hk Hsh Hh. pose proof Hk as (Hd & _ & _).
  pose proof (length_superblock_sector (committed_superblock s epoch ps)) as Hls.
  unfold write_superblock.
  pose proof (dev_write_ok d _ 1 _ Hd range_superblock Hls) as [Hd2 [Hf2 Ha2 Hw2]].
  pose proof (fun i q Hq => write_holds d s _ 1 _ epoch i q Hd range_superblock Hls Hs Hq) as Hh2.
  destruct (dev_write st d (st_base_sector st) 1 _) as [rc d2]. cbn in Hd2, Hf2, Ha2, Hw2, Hh2.
  pose proof (range_header s Hs) as Rh. pose proof range_superblock as Rb.
  pose proof (wf_slot _ _ wf) as Hsl. unfold in_range in Rh, Rb.
  assert (st_base_sector st + 1 <= slot_lo s) as Hlo by (unfold slot_lo; nia).
  assert (bd_sector d2 (st_base_sector st)
            = chunk 512 (sector_of (superblock_bytes (committed_superblock s epoch ps))) 0
          -> committed d2 s epoch ps) as Hnew.
  { intros Hs2. rewrite chunk_0 in Hs2 by assumption. split; [assumption..| | |].
    - unfold disk_superblock. rewrite Hs2. apply superblock_roundtrip, superblock_fits; assumption.
    - rewrite Hf2 by lia. exact Hsh.
    - intros i q Hq. apply lookup_lt_Some in Hq as Hi. apply Hh in Hq.
      pose proof (geometry s (Z.of_nat i) Hs ltac:(lia)) as (G1 & _ & _).
      apply Hh2; [lia | lia | exact Hq]. }
  assert (outside d0 d2) as Ho2.
  { destruct Hk as (_ & _ & _ & Ho). intros i Hi Hni. rewrite <- (Ho i Hi Hni). apply Hf2; [lia|].
    unfold region_end in Hni. lia. }
  split_and!; [exact Hd2 | exact Ho2 | |].
  - destruct (Ha2 (st_base_sector st) ltac:(lia)) as [Hs2 | Hs2];
      [left | right; apply Hnew; rewrite Hs2, Z.sub_diag; reflexivity].
    eapply keeps_trans; [exact Hk|]. split_and!; [exact Hd2| | |].
    + intros i Hi. replace i with (st_base_sector st) by lia. exact Hs2.
    + intros s' Hs' Hns i Hi. pose proof (wf_fit _ _ wf).
      apply Hf2; unfold slot_lo in *; nia.
    + intros i Hi Hni. apply Hf2; [lia | unfold region_end in Hni; lia].
  - intros ->. apply Hnew. rewrite Hw2 by (reflexivity || lia). rewrite Z.sub_diag. reflexivity.
Qed.

(** The commit: old until the superblock sector is written, new afterwards,
    and new when it reports success. *)
Lemma commit_writing d0 s epoch ps w d :
  0 <= s <= 1 -> fits 8 epoch -> writing d0 s epoch ps w d ->
  let '(rc, d', _) := snapshot_store_commit st d (& w) in
  bd_inv d' /\ outside d0 d' /\ (keeps s d0 d' \/ committed d' s epoch ps) /\
  (rc = SNAPSHOT_OK -> committed d' s epoch ps).
Proof.
  intros Hs He [Hk Hsl Hb Hep Hc Hp Hm Hcrc Hact Hh].
  unfold snapshot_store_commit. rewrite Hact, Hb, Hc, Hep, Hp, Hcrc, Hsl. cbn [negb].
  fold (committed_header epoch ps). fold (committed_superblock s epoch ps).
  pose proof Hk as (Hd & _ & _). pose proof (wf_slot _ _ wf) as Hsls.
  pose proof (length_header_sector (committed_header epoch ps)) as Hlh.
  pose proof (range_header s Hs) as Rh.
  pose proof (write_keeps d s (slot_lo s) 1 _ Hd Hs Hlh ltac:(lia) ltac:(lia) ltac:(lia)) as Hk1.
  pose proof (dev_write_ok d _ 1 _ Hd Rh Hlh) as [_ [_ _ Hw1]].
  pose proof (fun i q Hq => write_holds d s (slot_lo s) 1 _ epoch i q Hd Rh Hlh Hs Hq) as Hh1.
  destruct (dev_write st d (slot_lo s) 1 _) as [rc1 d1]. cbn in Hk1, Hw1, Hh1.
  pose proof (keeps_trans _ _ _ _ Hk Hk1) as Hk01. pose proof Hk01 as (Hd1 & _ & _).
  destruct (Z.eqb_spec rc1 SNAPSHOT_OK) as [->|Hne]; cbn [negb];
    [|split_and!; [assumption | apply Hk01 | left; assumption | intros; contradiction]].
  assert (holds_all d1 s epoch ps) as Hh1'.
  { intros i q Hq. apply lookup_lt_Some in Hq as Hi. apply Hh in Hq.
    pose proof (geometry s (Z.of_nat i) Hs ltac:(lia)) as (G1 & _ & _).
    apply Hh1; [lia | lia | exact Hq]. }
  pose proof (superblock_commit d0 s epoch ps d1 Hs He Hm Hk01) as H.
  destruct (write_superblock st d1 _) as [rc2 d2].
  destruct (Z.eqb_spec rc2 SNAPSHOT_OK) as [->|Hne]; cbn [negb]; apply H; try assumption;
    rewrite Hw1 by (reflexivity || lia); rewrite Z.sub_diag, chunk_0 by assumption;
    apply slot_header_roundtrip, header_fits; assumption.
Qed.

Lemma writing_start d s epoch :
  bd_inv d -> 0 <= s <= 1 ->
  writing d s epoch []
    {| w_slot := s; w_slot_base := slot_lo s; w_epoch := epoch; w_record_count := 0;
       w_page_count := 0; w_crc := 0; w_active := true |} d.
Proof.
  intros Hd Hs. pose proof max_records_small.
  split; cbn; try reflexivity; [apply keeps_refl; assumption|lia|].
  intros i p Hp. rewrite lookup_nil in Hp. discriminate.
Qed.

(** A whole session. *)
Lemma save_spec d ckpt :
  bd_inv d -> ckpt_ok st ckpt ->
  let '(rc, d') := save st d ckpt in
  bd_inv d' /\ outside d d' /\
  (keeps (inactive_slot d) d d' \/ committed d' (inactive_slot d) ckpt.1 ckpt.2) /\
  (rc = SNAPSHOT_OK -> committed d' (inactive_slot d) ckpt.1 ckpt.2).
Proof.
  intros Hd [He Hok]. unfold save, snapshot_store_begin. rewrite (wf_init _ _ wf). cbn [negb].
  rewrite read_superblock_ok by assumption. cbn [Z.eqb SNAPSHOT_OK andb negb].
  fold (inactive_slot d). pose proof (inactive_slot_range d) as Hs. rewrite slot_base_eq by lia.
  match goal with |- context [add_pages _ _ (& ?w)] => assert (writing d (inactive_slot d) ckpt.1 [] w d) as Hw end.
  { apply writing_start; assumption. }
  pose proof (add_pages_writing _ _ _ _ _ _ _ Hs Hw Hok) as H.
  destruct (add_pages _ _ _ _) as [[rc d1] w1]. destruct H as [Hk H].
  destruct (Z.eqb_spec rc SNAPSHOT_OK) as [->|Hne]; cbn [negb];
    [|pose proof Hk as (? & _ & _); split_and!; [assumption | apply Hk | left; assumption | intros; contradiction]].
  destruct (H eq_refl) as (w'' & -> & Hw').
  pose proof (commit_writing _ _ _ _ _ _ Hs He Hw') as Hc.
  destruct (snapshot_store_commit _ _ _) as [[rc d2] w2]. exact Hc.
Qed.

(** *** On a device without I/O errors a session that fits succeeds *)

Lemma dev_write_reliable `{!ReliableDevice dev} d s n bs :
  bd_inv d -> in_range dev s n -> length bs = (Z.to_nat n * 512)%nat ->
  (dev_write st d s n bs).1 = SNAPSHOT_OK.
Proof.
  intros Hd Hr Hb. unfold dev_write. rewrite (wf_dev _ _ wf), bd_write_eq.
  pose proof (bd_write_zero d s n bs Hd Hr Hb) as H. destruct (bd_write d s n bs) as [rc d'].
  cbn in *. rewrite H. reflexivity.
Qed.

Lemma add_page_reliable `{!ReliableDevice dev} d0 s epoch ps w d p :
  0 <= s <= 1 -> writing d0 s epoch ps w d -> page_ok p ->
  Z.of_nat (length ps) < st_max_records st ->
  (snapshot_writer_add_page st d (& w) (pg_pid p) (pg_virt_addr p)
     (pg_flags p) (& (pg_data p))).1.1 = SNAPSHOT_OK.
Proof.
  intros Hs [Hk Hsl Hb He Hc Hp Hm Hcrc Hact Hh] (_ & _ & _ & Hlen) Hlt.
  unfold snapshot_writer_add_page. rewrite Hact, Hb, Hc, He, Hp, Hcrc, Hsl. cbn [negb].
  rewrite (proj2 (Z.leb_gt _ _) Hlt). pose proof Hk as (Hd & _ & _).
  set (n := Z.of_nat (length ps)) in *.
  rewrite record_sector_eq, record_page_eq by lia. fold (page_meta epoch p).
  pose proof (range_meta s n Hs ltac:(lia)) as Rm. pose proof (range_page s n Hs ltac:(lia)) as Rp.
  pose proof (dev_write_reliable d _ 1 _ Hd Rm (length_page_meta epoch p)) as H1.
  pose proof (dev_write_ok d _ 1 _ Hd Rm (length_page_meta epoch p)) as [Hd1 _].
  destruct (dev_write st d (record_lo s n) 1 _) as [rc1 d1]. cbn in H1, Hd1. subst rc1.
  cbn [negb Z.eqb SNAPSHOT_OK]. change SNAPSHOT_SECTORS_PER_PAGE with 8.
  pose proof (dev_write_reliable d1 _ 8 _ Hd1 Rp Hlen) as H2.
  destruct (dev_write st d1 (record_lo s n + 1) 8 _) as [rc2 d2]. cbn in H2. subst rc2.
  reflexivity.
Qed.

Lemma add_pages_reliable `{!ReliableDevice dev} d0 s epoch ps done w d :
  0 <= s <= 1 -> writing d0 s epoch done w d -> Forall page_ok ps ->
  Z.of_nat (length done + length ps) <= st_max_records st ->
  (add_pages st d (& w) ps).1.1 = SNAPSHOT_OK.
Proof.
  intros Hs Hw Hok. revert done w d Hw; induction Hok as [|p ps Hp _ IH]; intros done w d Hw Hl.
  - reflexivity.
  - cbn [length] in Hl. cbn [add_pages].
    pose proof (add_page_writing _ _ _ _ _ _ p Hs Hw Hp) as H.
    pose proof (add_page_reliable _ _ _ _ _ _ p Hs Hw Hp ltac:(lia)) as Hrc.
    destruct (snapshot_writer_add_page _ _ _ _ _ _ _) as [[rc d1] w1]. cbn in Hrc. subst rc.
    destruct H as [_ H]. destruct (H eq_refl) as (w'' & -> & Hw'). cbn [negb Z.eqb SNAPSHOT_OK].
    apply (IH (done ++ [p])); [assumption|]. rewrite length_app. cbn [length]. lia.
Qed.

Lemma commit_reliable `{!ReliableDevice dev} d0 s epoch ps w d :
  0 <= s <= 1 -> writing d0 s epoch ps w d ->
  (snapshot_store_commit st d (& w)).1.1 = SNAPSHOT_OK.
Proof.
  intros Hs [Hk Hsl Hb Hep Hc Hp Hm Hcrc Hact Hh].
  unfold snapshot_store_commit. rewrite Hact, Hb. cbn [negb]. pose proof Hk as (Hd & _ & _).
  match goal with |- context [slot_header_bytes ?sh] => pose proof (length_header_sector sh) as Hlh end.
  pose proof (dev_write_reliable d _ 1 _ Hd (range_header s Hs) Hlh) as H1.
  pose proof (dev_write_ok d _ 1 _ Hd (range_header s Hs) Hlh) as [Hd1 _].
  destruct (dev_write st d (slot_lo s) 1 _) as [rc1 d1]. cbn in H1, Hd1. subst rc1.
  cbn [negb Z.eqb SNAPSHOT_OK]. unfold write_superblock.
  match goal with |- context [superblock_bytes ?sb] => pose proof (length_superblock_sector sb) as Hls end.
  pose proof (dev_write_reliable d1 _ 1 _ Hd1 range_superblock Hls) as H2.
  destruct (dev_write st d1 (st_base_sector st) 1 _) as [rc2 d2]. cbn in H2. subst rc2. reflexivity.
Qed.

Lemma save_reliable `{!ReliableDevice dev} d ckpt :
  bd_inv d -> ckpt_ok st ckpt -> Z.of_nat (length ckpt.2) <= st_max_records st ->
  (save st d ckpt).1 = SNAPSHOT_OK.
Proof.
  intros Hd [He Hok] Hl. unfold save, snapshot_store_begin. rewrite (wf_init _ _ wf). cbn [negb].
  rewrite read_superblock_ok by assumption. cbn [Z.eqb SNAPSHOT_OK andb negb].
  fold (inactive_slot d). pose proof (inactive_slot_range d) as Hs. rewrite slot_base_eq by lia.
  match goal with |- context [add_pages _ _ (& ?w)] => assert (writing d (inactive_slot d) ckpt.1 [] w d) as Hw end.
  { apply writing_start; assumption. }
  pose proof (add_pages_writing _ _ _ _ _ _ _ Hs Hw Hok) as H.
  pose proof (add_pages_reliable _ _ _ _ _ _ _ Hs Hw Hok Hl) as Hrc.
  destruct (add_pages _ _ _ _) as [[rc d1] w1]. cbn in Hrc. subst rc. destruct H as [Hk H].
  cbn [negb Z.eqb SNAPSHOT_OK]. destruct (H eq_refl) as (w'' & -> & Hw').
  pose proof (commit_reliable _ _ _ _ _ _ Hs Hw') as Hc.
  destruct (snapshot_store_commit _ _ _) as [[rc d2] w2]. exact Hc.
Qed.

(** ... and one that does not fit is refused with the last checkpoint intact. *)
Lemma add_pages_full `{!ReliableDevice dev} d0 s epoch ps done w d :
  0 <= s <= 1 -> writing d0 s epoch done w d -> Forall page_ok ps ->
  st_max_records st < Z.of_nat (length done + length ps) ->
  (add_pages st d (& w) ps).1.1 = SNAPSHOT_ERR_FULL.
Proof.
  intros Hs Hw Hok. revert done w d Hw; induction Hok as [|p ps Hp _ IH]; intros done w d Hw Hl.
  - pose proof (wr_max _ _ _ _ _ _ Hw). cbn [length] in Hl. lia.
  - cbn [length] in Hl. cbn [add_pages].
    pose proof (add_page_writing _ _ _ _ _ _ p Hs Hw Hp) as H.
    destruct (decide (Z.of_nat (length done) < st_max_records st)) as [Hlt|Hge].
    + pose proof (add_page_reliable _ _ _ _ _ _ p Hs Hw Hp Hlt) as Hrc.
      destruct (snapshot_writer_add_page _ _ _ _ _ _ _) as [[rc d1] w1]. cbn in Hrc. subst rc.
      destruct H as [_ H]. destruct (H eq_refl) as (w'' & -> & Hw'). cbn [negb Z.eqb SNAPSHOT_OK].
      apply (IH (done ++ [p])); [assumption|]. rewrite length_app. cbn [length]. lia.
    + clear H. unfold snapshot_writer_add_page.
      rewrite (wr_active _ _ _ _ _ _ Hw), (wr_count _ _ _ _ _ _ Hw). cbn [negb].
      rewrite (proj2 (Z.leb_le _ _)) by lia. reflexivity.
Qed.

(** *** Validation is the CRC of the record area *)

Lemma validate_records_payload d s n i crc :
  bd_inv d -> 0 <= s <= 1 -> 0 <= i -> i + Z.of_nat n <= st_max_records st -> 0 <= crc < 2 ^ 32 ->
  validate_records st d (slot_lo s) n i crc =
    (SNAPSHOT_OK, snapshot_crc32 crc (sector_run bd_sector d (record_lo s i) (Z.of_nat n * 9))).
Proof.
  intros Hd Hs. revert i crc; induction n as [|n IH]; intros i crc Hi Hn Hcrc.
  { cbn [validate_records]. f_equal. symmetry. apply crc32_nil. assumption. }
  assert (0 <= i < st_max_records st) as Hi' by lia. pose proof max_records_small.
  cbn [validate_records]. rewrite record_sector_eq, record_page_eq by lia.
  change SNAPSHOT_SECTORS_PER_PAGE with 8.
  rewrite !dev_read_ok by first [assumption | apply range_meta; lia | apply range_page; lia].
  cbn [negb Z.eqb SNAPSHOT_OK]. rewrite u32_id by lia.
  rewrite IH by first [assumption | lia | apply crc32_range]. f_equal. rewrite !crc32_app. f_equal.
  replace (Z.of_nat (S n) * 9) with (1 + (8 + Z.of_nat n * 9)) by lia.
  rewrite !(sector_run_app dev) by lia.
  unfold record_lo. do 3 f_equal; lia.
Qed.

(** The record area of slot [s] holding [n] records. *)
Definition record_area d (s n : Z) : list byte :=
  sector_run bd_sector d (slot_lo s + 1) (n * 9).

Lemma record_area_crc d s epoch ps :
  bd_inv d -> committed d s epoch ps ->
  slot_crc epoch ps = snapshot_crc32 0 (record_area d s (Z.of_nat (length ps))).
Proof.
  intros Hd [Hs Hc _ _ Hh].
  pose proof (validate_records_holds d s epoch ps [] Hd Hs Hc Hh) as HV.
  cbn [length app] in HV. change (Z.of_nat 0) with 0 in HV. change (slot_crc epoch []) with 0 in HV.
  rewrite validate_records_payload in HV by first [assumption | lia].
  injection HV as HV. rewrite <- HV. unfold record_area, record_lo.
  do 2 f_equal; lia.
Qed.

(** A load of a committed slot whose records changed compares the two CRCs. *)
Lemma load_changed_records d d' s epoch ps :
  bd_inv d -> bd_inv d' -> committed d s epoch ps ->
  bd_sector d' (st_base_sector st) = bd_sector d (st_base_sector st) ->
  bd_sector d' (slot_lo s) = bd_sector d (slot_lo s) ->
  snapshot_crc32 0 (record_area d' s (Z.of_nat (length ps)))
    <> snapshot_crc32 0 (record_area d s (Z.of_nat (length ps))) ->
  snapshot_store_load true (& st) d' (& reader_zero) = (SNAPSHOT_ERR_CRC, & reader_zero).
Proof.
  intros Hd Hd' Hcm Hb Hh Hne. rewrite <- (record_area_crc d s epoch ps Hd Hcm) in Hne.
  destruct Hcm as [Hs Hc Hsb Hsh _].
  unfold snapshot_store_load. rewrite (wf_init _ _ wf). cbn [negb].
  rewrite read_superblock_ok by assumption. unfold disk_superblock in *. rewrite Hb, Hsb.
  cbn [negb Z.eqb SNAPSHOT_OK].
  unfold committed_superblock at 1. rewrite superblock_valid_seal by reflexivity.
  cbn [negb committed_superblock seal_superblock sb_kernel_version sb_active_slot sb_epoch sb_slot_crc].
  rewrite Z.eqb_refl. cbn [negb]. rewrite (proj2 (Z.ltb_ge 1 s)) by lia.
  rewrite slot_base_eq, dev_read_ok by first [assumption | apply range_header; lia].
  rewrite (sector_run_1 dev), Hh, Hsh. cbn [negb Z.eqb SNAPSHOT_OK].
  cbn [committed_header sh_magic sh_epoch sh_slot_crc sh_record_count].
  rewrite !Z.eqb_refl. cbn [negb]. rewrite (proj2 (Z.ltb_ge _ _) Hc).
  unfold validate_slot. cbn [negb committed_header sh_record_count sh_slot_crc].
  rewrite Nat2Z.id, validate_records_payload by first [assumption | lia]. cbn [negb Z.eqb SNAPSHOT_OK].
  unfold record_area in Hne. unfold record_lo. replace (slot_lo s + 1 + 0 * 9) with (slot_lo s + 1) by lia.
  rewrite (proj2 (Z.eqb_neq _ _) Hne). reflexivity.
Qed.
End proofs.

(** ** The contract: a crash-atomic store *)
#[export] Instance snapshot_atomic_store {D} (dev : fat_block_device_t D) `{!BlockDevice dev}
    (st : snapshot_store_t D) (wf : store_wf dev st) :
  AtomicStore bd_inv (ckpt_ok st) (save st) (checkpoint_view st) inr.
Proof.
  split; intros d ckpt Hd Hok; pose proof (save_spec wf d ckpt Hd Hok) as H;
    destruct (save st d ckpt) as [rc d']; destruct H as (Hd' & _ & Hor & Hrc); cbn.
  - exact Hd'.
  - destruct Hor as [Hk | Hc]; [left | right].
    + apply (checkpoint_view_keeps wf); assumption.
    + destruct ckpt. apply (view_committed wf _ _ _ _ Hd' Hok Hc).
  - intros ->. destruct ckpt. apply (view_committed wf _ _ _ _ Hd' Hok (Hrc eq_refl)).
Qed.

(** A store at the start of a RAM disk, with two records per slot, and pages
    for the concrete instances below. *)
Definition example_store {D} (dev : fat_block_device_t D) : snapshot_store_t D :=
  {| st_dev := & dev; st_base_sector := 0; st_slot_sectors := 19; st_max_records := 2;
     st_kernel_version := 1; st_initialized := true |}.
Definition example_page (addr : Z) : page :=
  {| pg_pid := 3; pg_virt_addr := addr; pg_flags := 7; pg_data := zeros (Z.to_nat SNAPSHOT_PAGE_SIZE) |}.

Lemma example_store_wf : store_wf ramdisk_device (example_store ramdisk_device).
Proof. split; cbn; try reflexivity; try lia; unfold RAMDISK_TOTAL_SECTORS, fits; cbn; lia. Qed.
Lemma example_cut_wf : store_wf (cut_device ramdisk_device) (example_store (cut_device ramdisk_device)).
Proof. split; cbn; try reflexivity; try lia; unfold RAMDISK_TOTAL_SECTORS, fits; cbn; lia. Qed.
Lemma example_page_ok addr : 0 <= addr < 2 ^ 64 -> page_ok (example_page addr).
Proof. intros H. split_and!; cbn; unfold fits; try lia. apply length_zeros. Qed.
Lemma example_ckpt_ok {D} (dev : fat_block_device_t D) epoch addrs :
  0 <= epoch < 2 ^ 64 -> Forall (fun a => 0 <= a < 2 ^ 64) addrs ->
  ckpt_ok (example_store dev) (epoch, example_page <$> addrs).
Proof.
  intros He Ha. split; [exact He|]. cbn. apply Forall_fmap. eapply Forall_impl; [exact Ha|].
  intros a H. apply example_page_ok, H.
Qed.

(** C3: on a device whose reads succeed (else see [superblock_read_error_loses]),
    whichever write of a checkpoint session fails, by an I/O error or a power
    cut inside it, a load afterwards finds either exactly what it found before
    or the complete new checkpoint; and if the session reported success, it
    finds the new one. *)
Theorem save_atomic {D} (dev : fat_block_device_t D) `{!BlockDevice dev} (st : snapshot_store_t D)
    (d : D) (ckpt : Z * list page) :
  store_wf dev st -> bd_inv d -> ckpt_ok st ckpt ->
  let '(rc, d') := save st d ckpt in
  (checkpoint_view st d' = checkpoint_view st d \/ checkpoint_view st d' = inr ckpt) /\
  (rc = SNAPSHOT_OK -> checkpoint_view st d' = inr ckpt).
Proof.
  intros wf Hd Hok. pose proof (snapshot_atomic_store dev st wf) as A.
  pose proof (publish_atomic d ckpt Hd Hok) as H1. pose proof (publish_durable d ckpt Hd Hok) as H2.
  destruct (save st d ckpt) as [rc d']. split; assumption.
Qed.

(** A power cut after three sectors of the session. *)
Lemma save_atomic_witness :
  let st := example_store (cut_device ramdisk_device) in
  let ckpt := (5, example_page <$> [4096; 8192]) in
  let '(rc, d') := save st (3, ramdisk_fresh) ckpt in
  (checkpoint_view st d' = checkpoint_view st (3, ramdisk_fresh) \/ checkpoint_view st d' = inr ckpt) /\
  (rc = SNAPSHOT_OK -> checkpoint_view st d' = inr ckpt).
Proof.
  apply (save_atomic (cut_device ramdisk_device) (example_store (cut_device ramdisk_device))
           (3, ramdisk_fresh) (5, example_page <$> [4096; 8192])).
  - exact example_cut_wf.
  - exact ramdisk_fresh_inv.
  - apply example_ckpt_ok; [lia|]. repeat constructor; lia.
Defined.

(** C22: over any history of checkpoint sessions on a device that may fail or
    lose power at any write, a load finds one of the checkpoints allowed by
    the history: the last acknowledged one or one attempted after it. *)
Theorem save_history {D} (dev : fat_block_device_t D) `{!BlockDevice dev} (st : snapshot_store_t D)
    (d : D) (ckpts : list (Z * list page)) :
  store_wf dev st -> bd_inv d -> Forall (ckpt_ok st) ckpts ->
  let '(rcs, d') := publish_all (publish := save st) d ckpts in
  checkpoint_view st d' ∈ candidates (stored := inr) [checkpoint_view st d] ckpts rcs.
Proof.
  intros wf Hd Hok. pose proof (snapshot_atomic_store dev st wf) as A.
  pose proof (publish_all_candidates d ckpts [checkpoint_view st d] Hd Hok) as H.
  destruct (publish_all d ckpts) as [rcs d']. apply H. apply list_elem_of_singleton. reflexivity.
Qed.

Lemma save_history_witness :
  let st := example_store (cut_device ramdisk_device) in
  let ckpts := [(5, example_page <$> [4096]); (6, example_page <$> [4096; 8192])] in
  let '(rcs, d') := publish_all (publish := save st) (20, ramdisk_fresh) ckpts in
  checkpoint_view st d' ∈ candidates (stored := inr) [checkpoint_view st (20, ramdisk_fresh)] ckpts rcs.
Proof.
  apply (save_history (cut_device ramdisk_device) (example_store (cut_device ramdisk_device))
           (20, ramdisk_fresh) [(5, example_page <$> [4096]); (6, example_page <$> [4096; 8192])]).
  - exact example_cut_wf.
  - exact ramdisk_fresh_inv.
  - repeat apply Forall_cons_2; try apply Forall_nil_2; apply example_ckpt_ok; try lia; repeat constructor; lia.
Defined.

(** C5: on a device without I/O errors, a checkpoint of at most [max_records]
    pages is written and acknowledged, and a load gives back its epoch and its
    pages, in order and byte for byte. *)
Theorem save_load_roundtrip {D} (dev : fat_block_device_t D) `{!BlockDevice dev, !ReliableDevice dev}
    (st : snapshot_store_t D) (d : D) (ckpt : Z * list page) :
  store_wf dev st -> bd_inv d -> ckpt_ok st ckpt -> Z.of_nat (length ckpt.2) <= st_max_records st ->
  (save st d ckpt).1 = SNAPSHOT_OK /\ checkpoint_view st (save st d ckpt).2 = inr ckpt.
Proof.
  intros wf Hd Hok Hl. pose proof (save_reliable wf d ckpt Hd Hok Hl) as Hrc.
  pose proof (snapshot_atomic_store dev st wf) as A. split; [exact Hrc|].
  exact (publish_durable d ckpt Hd Hok Hrc).
Qed.

Lemma save_load_roundtrip_witness :
  let st := example_store ramdisk_device in
  let ckpt := (5, example_page <$> [4096; 8192]) in
  (save st ramdisk_fresh ckpt).1 = SNAPSHOT_OK /\
  checkpoint_view st (save st ramdisk_fresh ckpt).2 = inr ckpt.
Proof.
  apply (save_load_roundtrip ramdisk_device (example_store ramdisk_device) ramdisk_fresh
           (5, example_page <$> [4096; 8192])).
  - exact example_store_wf.
  - exact ramdisk_fresh_inv.
  - apply example_ckpt_ok; [lia|]. repeat constructor; lia.
  - cbn. lia.
Defined.


(** A checkpoint with more pages than a slot holds is refused with
    [SNAPSHOT_ERR_FULL] before the commit point: the previous checkpoint is
    what a load still finds. *)
Theorem save_full {D} (dev : fat_block_device_t D) `{!BlockDevice dev, !ReliableDevice dev}
    (st : snapshot_store_t D) (d : D) (ckpt : Z * list page) :
  store_wf dev st -> bd_inv d -> ckpt_ok st ckpt -> st_max_records st < Z.of_nat (length ckpt.2) ->
  (save st d ckpt).1 = SNAPSHOT_ERR_FULL /\
  checkpoint_view st (save st d ckpt).2 = checkpoint_view st d.
Proof.
  intros wf Hd Hok Hl. pose proof Hok as [He Hps]. unfold save, snapshot_store_begin.
  rewrite (wf_init _ _ wf). cbn [negb]. rewrite (read_superblock_ok wf) by assumption.
  cbn [Z.eqb SNAPSHOT_OK andb negb]. fold (inactive_slot (st := st) d).
  pose proof (inactive_slot_range (st := st) d) as Hs. rewrite (slot_base_eq wf) by lia.
  pose proof (writing_start wf d (inactive_slot d) ckpt.1 Hd Hs) as Hw.
  pose proof (add_pages_full wf _ _ _ _ _ _ _ Hs Hw Hps Hl) as Hrc.
  pose proof (add_pages_writing wf _ _ _ _ _ _ _ Hs Hw Hps) as Hk.
  destruct (add_pages _ _ _ _) as [[rc d1] w1]. cbn in Hrc. subst rc. destruct Hk as [Hk _].
  split; [reflexivity|]. apply (checkpoint_view_keeps wf); assumption.
Qed.

Lemma save_full_witness :
  let st := example_store ramdisk_device in
  let ckpt := (5, example_page <$> [4096; 8192; 12288]) in
  (save st ramdisk_fresh ckpt).1 = SNAPSHOT_ERR_FULL /\
  checkpoint_view st (save st ramdisk_fresh ckpt).2 = checkpoint_view st ramdisk_fresh.
Proof.
  apply (save_full ramdisk_device (example_store ramdisk_device) ramdisk_fresh
           (5, example_page <$> [4096; 8192; 12288])).
  - exact example_store_wf.
  - exact ramdisk_fresh_inv.
  - apply example_ckpt_ok; [lia|]. repeat constructor; lia.
  - cbn. lia.
Defined.

(** C39: a committed checkpoint whose records have since changed in up to four
    consecutive bytes (anywhere in the slot's record area) is never restored:
    the load reports [SNAPSHOT_ERR_CRC]. *)
Theorem load_detects_burst {D} (dev : fat_block_device_t D) `{!BlockDevice dev, !ReliableDevice dev}
    (st : snapshot_store_t D) (d d' : D) (ckpt : Z * list page) pre x y post :
  let d1 := (save st d ckpt).2 in
  let n := Z.of_nat (length ckpt.2) in
  let s := inactive_slot (st := st) d in
  store_wf dev st -> bd_inv d -> bd_inv d' -> ckpt_ok st ckpt -> n <= st_max_records st ->
  bd_sector d' (st_base_sector st) = bd_sector d1 (st_base_sector st) ->
  bd_sector d' (slot_lo (st := st) s) = bd_sector d1 (slot_lo (st := st) s) ->
  record_area (st := st) d1 s n = pre ++ x ++ post ->
  record_area (st := st) d' s n = pre ++ y ++ post ->
  length x = length y -> (length x <= 4)%nat -> x <> y ->
  snapshot_store_load true (& st) d' (& reader_zero) = (SNAPSHOT_ERR_CRC, & reader_zero).
Proof.
  intros d1 n s wf Hd Hd' Hok Hn Hb Hh Hx Hy Hlen H4 Hne.
  pose proof (save_spec wf d ckpt Hd Hok) as Hs. pose proof (save_reliable wf d ckpt Hd Hok Hn) as Hrc.
  subst d1. destruct (save st d ckpt) as [rc d1]. cbn in *. destruct Hs as (Hd1 & _ & _ & Hcm).
  apply (load_changed_records wf d1 d' s ckpt.1 ckpt.2); auto.
  fold n. rewrite Hx, Hy. intros HC. symmetry in HC. revert HC. apply crc32_detects_burst; assumption.
Qed.

(** One page is saved to a fresh RAM disk; then the first byte of the page's
    first sector is flipped. *)
Section flipped.
Abbreviation st := (example_store ramdisk_device).
Abbreviation ckpt := (5, [example_page 4096]).
Abbreviation d1 := (save st ramdisk_fresh ckpt).2.
Definition flipped_sector : list byte := Byte.x01 :: zeros 511.
Definition flipped_disk : ramdisk_t := (ramdisk_write_fn d1 3 1 flipped_sector).2.

Lemma fresh_inactive_slot : inactive_slot (st := st) ramdisk_fresh = 0.
Proof.
  unfold inactive_slot, disk_superblock.
  change (bd_sector ramdisk_fresh (st_base_sector st)) with (ramdisk_sector ramdisk_fresh 0).
  rewrite ramdisk_fresh_sector by (unfold RAMDISK_TOTAL_SECTORS; lia). reflexivity.
Qed.

Lemma flipped_saved : bd_inv d1 /\ committed (st := st) d1 0 5 [example_page 4096].
Proof.
  assert (ckpt_ok st ckpt) as Hok by (apply (example_ckpt_ok _ 5 [4096]); [lia|repeat constructor; lia]).
  pose proof (save_spec example_store_wf ramdisk_fresh ckpt ramdisk_fresh_inv Hok) as H.
  pose proof (save_reliable example_store_wf ramdisk_fresh ckpt ramdisk_fresh_inv Hok ltac:(cbn; lia)) as Hrc.
  rewrite fresh_inactive_slot in H. 
  destruct (save st ramdisk_fresh ckpt) as [rc g]. cbn in Hrc. destruct H as (Hi & _ & _ & Hc).
  split; [exact Hi | exact (Hc Hrc)].
Qed.

Lemma flipped_write :
  bd_inv flipped_disk /\ bd_sector flipped_disk 3 = flipped_sector /\
  forall i, 0 <= i < 2048 -> i <> 3 -> bd_sector flipped_disk i = bd_sector d1 i.
Proof.
  destruct flipped_saved as [Hi _]. unfold flipped_disk, ramdisk_write_fn.
  destruct (ramdisk_write_run d1 3 1 flipped_sector Hi) as (g' & -> & Hi' & Hs).
  { unfold in_range. cbn. unfold RAMDISK_TOTAL_SECTORS. lia. }
  { reflexivity. }
  cbn [snd]. split_and!; [exact Hi' | |].
  - cbn. rewrite Hs by (unfold RAMDISK_TOTAL_SECTORS; lia). reflexivity.
  - intros i H1 H2. cbn. rewrite Hs by (unfold RAMDISK_TOTAL_SECTORS; lia).
    rewrite decide_False by lia. reflexivity.
Qed.

Lemma flip_area g1 g2 p :
  bd_inv g1 -> holds (st := st) g1 0 5 0 p -> pg_data p = zeros (Z.to_nat SNAPSHOT_PAGE_SIZE) ->
  bd_sector g2 3 = flipped_sector ->
  (forall i, 0 <= i < 2048 -> i <> 3 -> bd_sector g2 i = bd_sector g1 i) ->
  let post := zeros 511 ++ sector_run bd_sector g1 4 7 in
  record_area (st := st) g1 0 1 = page_meta 5 p ++ [Byte.x00] ++ post /\
  record_area (st := st) g2 0 1 = page_meta 5 p ++ [Byte.x01] ++ post.
Proof.
  intros Hi [Hm Hp] Hz H3 Hf. rewrite Hz in Hp.
  change (record_lo 0 (Z.of_nat 0)) with 2 in Hm, Hp. unfold record_area.
  change (slot_lo 0 + 1) with 2. change (1 * 9) with (1 + (1 + 7)).
  rewrite !(sector_run_app ramdisk_device) by lia. rewrite !(sector_run_1 ramdisk_device).
  change (2 + 1 + 1) with 4. change (2 + 1) with 3 in *. change 8 with (1 + 7) in Hp.
  rewrite !(sector_run_app ramdisk_device), !(sector_run_1 ramdisk_device) in Hp by lia.
  rewrite H3, (Hf 2), Hm by lia.
  assert (bd_sector g1 3 = zeros 512) as ->.
  { apply (f_equal (take 512)) in Hp. rewrite take_app_length' in Hp.
    2:{ symmetry. apply (bd_sector_len (dev := ramdisk_device)); [exact Hi|].
        cbn; unfold RAMDISK_TOTAL_SECTORS; lia. }
    rewrite Hp. unfold zeros. rewrite take_replicate. reflexivity. }
  split; [reflexivity|]. rewrite (sector_run_ext ramdisk_device g1); [reflexivity|].
  intros i Hi'. apply Hf; lia.
Qed.

Lemma load_detects_burst_witness :
  snapshot_store_load true (& st) flipped_disk (& reader_zero) = (SNAPSHOT_ERR_CRC, & reader_zero).
Proof.
  destruct flipped_saved as [Hi1 Hc1]. destruct flipped_write as (Hi & H3 & Hf).
  destruct (flip_area d1 flipped_disk (example_page 4096) Hi1
              (cm_records _ _ _ _ Hc1 0%nat _ eq_refl) eq_refl H3 Hf) as [Hx Hy].
  apply (load_detects_burst ramdisk_device st ramdisk_fresh flipped_disk ckpt
           (page_meta 5 (example_page 4096)) [Byte.x00] [Byte.x01]
           (zeros 511 ++ sector_run bd_sector d1 4 7));
    [exact example_store_wf | exact ramdisk_fresh_inv | exact Hi | | cbn; lia | | | | |
     reflexivity | cbn; lia | discriminate].
  - apply (example_ckpt_ok _ 5 [4096]); [lia|repeat constructor; lia].
  - apply Hf; cbn; lia.
  - rewrite fresh_inactive_slot. change (slot_lo 0) with 1. apply Hf; lia.
  - rewrite fresh_inactive_slot. exact Hx.
  - rewrite fresh_inactive_slot. exact Hy.
Defined.
End flipped.

(** [snapshot_store_init] accepts exactly the regions that fit the device
    and hold at least one record per slot (for slots below 2^31 sectors), the
    store it builds is well formed, and a refused region leaves the caller's
    store alone. *)
Theorem store_init_spec {D} (dev : fat_block_device_t D) `{!BlockDevice dev}
    (st0 : snapshot_store_t D) (base_sector slot_sectors : Z) :
  0 <= base_sector < 2 ^ 32 -> 0 <= slot_sectors < 2 ^ 31 ->
  if decide (10 <= slot_sectors /\ base_sector + 1 + 2 * slot_sectors <= total_sectors dev)
  then exists st, snapshot_store_init (& st0) (& dev) base_sector slot_sectors = (SNAPSHOT_OK, & st) /\
         store_wf dev st /\ st_base_sector st = base_sector /\ st_slot_sectors st = slot_sectors
  else snapshot_store_init (& st0) (& dev) base_sector slot_sectors = (SNAPSHOT_ERR_PARAM, & st0).
Proof.
  intros Hb Hs. unfold snapshot_store_init. change SNAPSHOT_SECTORS_PER_RECORD with 9.
  rewrite bd_sector_size. cbn [Z.eqb SNAPSHOT_SECTOR_SIZE Pos.eqb negb]. change (512 =? 512) with true.
  pose proof (bd_total (dev := dev)) as Ht.
  destruct (Z.ltb_spec slot_sectors (1 + 9)); cbn [negb].
  { rewrite decide_False by lia. reflexivity. }
  rewrite (u32_id (2 * slot_sectors)) by lia.
  rewrite (u32_id (1 + _)), u64_id by lia.
  destruct (Z.ltb_spec (total_sectors dev) (base_sector + (1 + 2 * slot_sectors))).
  { rewrite decide_False by lia. reflexivity. }
  rewrite decide_True by lia. eexists. split; [reflexivity|].
  split; [|split; reflexivity]. split; cbn; try reflexivity; try lia.
  - rewrite u32_id by lia. reflexivity.
  - unfold fits. lia.
Qed.

Lemma store_init_spec_witness :
  exists st, snapshot_store_init (& (example_store ramdisk_device)) (& ramdisk_device) 100 500 = (SNAPSHOT_OK, & st) /\
    store_wf ramdisk_device st /\ st_base_sector st = 100 /\ st_slot_sectors st = 500.
Proof.
  pose proof (store_init_spec ramdisk_device (example_store ramdisk_device) 100 500 ltac:(lia) ltac:(lia)) as H.
  exact H.
Defined.

(** The region check is computed in 32 bits: a slot of 2^31 sectors wraps
    to one sector needed, so the store is accepted on any device of at least
    one sector although its second slot starts far beyond the device. *)
Theorem store_init_wraps {D} (dev : fat_block_device_t D) `{!BlockDevice dev}
    (st0 : snapshot_store_t D) :
  1 <= total_sectors dev < 2 ^ 31 ->
  exists st, snapshot_store_init (& st0) (& dev) 0 (2 ^ 31) = (SNAPSHOT_OK, & st) /\
    st_max_records st = 238609294 /\ total_sectors dev < slot_base_sector st 1.
Proof.
  intros Ht. unfold snapshot_store_init. rewrite bd_sector_size.
  change (2 ^ 31 <? 1 + SNAPSHOT_SECTORS_PER_RECORD) with false. change (512 =? SNAPSHOT_SECTOR_SIZE) with true.
  cbn [negb]. change (u64 (0 + u32 (1 + u32 (2 * 2 ^ 31)))) with 1.
  rewrite (proj2 (Z.ltb_ge _ _)) by lia. eexists. split; [reflexivity|]. split; [reflexivity|].
  unfold slot_base_sector. cbn [st_base_sector st_slot_sectors].
  change (u32 (0 + 1 + u32 (1 * 2 ^ 31))) with 2147483649. lia.
Qed.

Lemma store_init_wraps_witness :
  exists st, snapshot_store_init (& (example_store ramdisk_device)) (& ramdisk_device) 0 (2 ^ 31) = (SNAPSHOT_OK, & st) /\
    st_max_records st = 238609294 /\ total_sectors ramdisk_device < slot_base_sector st 1.
Proof. apply (store_init_wraps ramdisk_device). cbn. unfold RAMDISK_TOTAL_SECTORS. lia. Defined.

(** When the superblock cannot be read [snapshot_store_begin] takes the store
    for empty and chooses slot 0: the next page is written over the active
    checkpoint, which is lost. *)
Lemma superblock_read_error_loses :
  let st := example_store flaky_device in
  let d1 := (save st flaky_fresh (5, [example_page 4096])).2 in
  let w := (snapshot_store_begin (& st) (failing d1) 6 (& writer_none)).2 in
  checkpoint_view st d1 = inr (5, [example_page 4096]) /\
  checkpoint_view st (add_pages st d1 w [example_page 8192]).1.2 = inl SNAPSHOT_ERR_CRC.
Proof. vm_compute. split; reflexivity. Qed.
