(* ===== verification/CheckpointJournal.v ===== *)
(** * The input journal (kernel/checkpoint_journal.c)

    The delta between two checkpoints: a superblock sector and two
    double-buffered slots, each a header sector followed by event sectors of
    sixteen 32-byte events.  Appends gather events in the writer's sector
    buffer; a full buffer is flushed to the inactive slot, and the superblock
    write is the commit point.  As in [SnapshotStore], the store a writer or a
    reader points to is passed next to it. *)
From Stdlib Require Import ZArith Lia.
From S2P Require Import Prelude.
From S2P Require Import Crc32.
From S2P Require Import BlockDevice.
Open Scope Z_scope.
Open Scope c_scope.

(** ** Geometry, magic numbers, event types, error codes *)
Definition JOURNAL_SECTOR_SIZE : Z := 512.
Definition JOURNAL_EVENT_SIZE : Z := 32.
Definition JOURNAL_EVENTS_PER_SECTOR : Z := JOURNAL_SECTOR_SIZE / JOURNAL_EVENT_SIZE.
Definition JOURNAL_SB_MAGIC : Z := 0x494B4F534A524E4C.
Definition JOURNAL_SLOT_MAGIC : Z := 0x494B4F534A534C54.
Definition JOURNAL_FORMAT_VERSION : Z := 1.
Definition JOURNAL_NO_SLOT : Z := 0xFFFFFFFF.

Definition JOURNAL_EV_KEY : Z := 1.
Definition JOURNAL_EV_DISK : Z := 2.
Definition JOURNAL_EV_TIMER : Z := 3.
Definition JOURNAL_EV_ENTROPY : Z := 4.

Definition JOURNAL_OK : Z := 0.
Definition JOURNAL_ERR_PARAM : Z := -1.
Definition JOURNAL_ERR_IO : Z := -2.
Definition JOURNAL_ERR_FULL : Z := -3.
Definition JOURNAL_ERR_NO_JOURNAL : Z := -4.
Definition JOURNAL_ERR_CRC : Z := -5.
Definition JOURNAL_ERR_STATE : Z := -6.

(** ** On-disk structures *)
Record journal_superblock_t := {
  sb_magic : Z;
  sb_version : Z;
  sb_active_slot : Z;
  sb_epoch : Z;
  sb_event_count : Z;
  sb_slot_crc : Z;
  sb_superblock_crc : Z;
  sb_reserved : Z }.

Record journal_slot_header_t := {
  jh_magic : Z;
  jh_epoch : Z;
  jh_event_count : Z;
  jh_slot_crc : Z;
  jh_base_lclock : Z }.

Record journal_event_t := {
  ev_epoch : Z;
  ev_lclock : Z;
  ev_type : Z;
  ev_len : Z;
  ev_value : Z }.

Definition superblock_layout : list nat := [8; 4; 4; 8; 4; 4; 4; 4]%nat.
Definition slot_header_layout : list nat := [8; 8; 4; 4; 8]%nat.
Definition event_layout : list nat := [8; 8; 4; 4; 8]%nat.

Definition superblock_fields (sb : journal_superblock_t) : list Z :=
  [sb_magic sb; sb_version sb; sb_active_slot sb; sb_epoch sb; sb_event_count sb;
   sb_slot_crc sb; sb_superblock_crc sb; sb_reserved sb].
Definition superblock_bytes (sb : journal_superblock_t) : list byte :=
  pack superblock_layout (superblock_fields sb).
Definition superblock_of_bytes (bs : list byte) : journal_superblock_t :=
  let f := unpack superblock_layout bs in
  {| sb_magic := field 0 f; sb_version := field 1 f; sb_active_slot := field 2 f;
     sb_epoch := field 3 f; sb_event_count := field 4 f; sb_slot_crc := field 5 f;
     sb_superblock_crc := field 6 f; sb_reserved := field 7 f |}.

Definition slot_header_fields (h : journal_slot_header_t) : list Z :=
  [jh_magic h; jh_epoch h; jh_event_count h; jh_slot_crc h; jh_base_lclock h].
Definition slot_header_bytes (h : journal_slot_header_t) : list byte :=
  pack slot_header_layout (slot_header_fields h).
Definition slot_header_of_bytes (bs : list byte) : journal_slot_header_t :=
  let f := unpack slot_header_layout bs in
  {| jh_magic := field 0 f; jh_epoch := field 1 f; jh_event_count := field 2 f;
     jh_slot_crc := field 3 f; jh_base_lclock := field 4 f |}.

Definition event_fields (e : journal_event_t) : list Z :=
  [ev_epoch e; ev_lclock e; ev_type e; ev_len e; ev_value e].
Definition event_bytes (e : journal_event_t) : list byte := pack event_layout (event_fields e).
Definition event_of_bytes (bs : list byte) : journal_event_t :=
  let f := unpack event_layout bs in
  {| ev_epoch := field 0 f; ev_lclock := field 1 f; ev_type := field 2 f;
     ev_len := field 3 f; ev_value := field 4 f |}.

Definition sector_of (bs : list byte) : list byte :=
  zero_padded (Z.to_nat JOURNAL_SECTOR_SIZE) bs.

(** ** In-memory handles *)
Record journal_store_t (D : Type) := {
  js_dev : ptr (fat_block_device_t D);
  js_base_sector : Z;
  js_slot_sectors : Z;
  js_max_events : Z;
  js_initialized : bool }.
Arguments js_dev {D}. Arguments js_base_sector {D}. Arguments js_slot_sectors {D}.
Arguments js_max_events {D}. Arguments js_initialized {D}.

Record journal_writer_t := {
  jw_slot : Z;
  jw_slot_base : Z;
  jw_epoch : Z;
  jw_base_lclock : Z;
  jw_event_count : Z;
  jw_crc : Z;
  jw_buf_events : Z;
  jw_event_sector : Z;
  jw_sector_buf : list byte;
  jw_active : bool }.

Record journal_reader_t := {
  jr_slot_base : Z;
  jr_epoch : Z;
  jr_event_count : Z;
  jr_next_index : Z;
  jr_buf_sector : Z;
  jr_sector_buf : list byte;
  jr_valid : bool }.

(** [writer->active = false] *)
Definition deactivate (w : journal_writer_t) : journal_writer_t :=
  {| jw_slot := jw_slot w; jw_slot_base := jw_slot_base w; jw_epoch := jw_epoch w;
     jw_base_lclock := jw_base_lclock w; jw_event_count := jw_event_count w;
     jw_crc := jw_crc w; jw_buf_events := jw_buf_events w;
     jw_event_sector := jw_event_sector w; jw_sector_buf := jw_sector_buf w;
     jw_active := false |}.

Section journal.
Context {D : Type}.
Implicit Types (store : journal_store_t D) (d : D).

(** *** Sector I/O wrappers *)
(** [buf] is the caller's buffer, returned as it is when nothing is read. *)
Definition dev_read store d (sector : Z) (buf : list byte) : Z * list byte :=
  match js_dev store with
  | NULL => (JOURNAL_ERR_IO, buf)
  | Some dv =>
      match read_sectors dv with
      | NULL => (JOURNAL_ERR_IO, buf)
      | Some rd =>
          let '(rc, buf) := rd d sector 1 in
          ((if rc =? 0 then JOURNAL_OK else JOURNAL_ERR_IO), buf)
      end
  end.

Definition dev_write store d (sector : Z) (buf : list byte) : Z * D :=
  match js_dev store with
  | NULL => (JOURNAL_ERR_IO, d)
  | Some dv =>
      match write_sectors dv with
      | NULL => (JOURNAL_ERR_IO, d)
      | Some wr =>
          let '(rc, d') := wr d sector 1 buf in
          ((if rc =? 0 then JOURNAL_OK else JOURNAL_ERR_IO), d')
      end
  end.

Definition slot_base_sector store (slot : Z) : Z :=
  u32 (js_base_sector store + 1 + u32 (slot * js_slot_sectors store)).

Definition event_sectors_for (event_count : Z) : Z :=
  u32 (event_count + JOURNAL_EVENTS_PER_SECTOR - 1) / JOURNAL_EVENTS_PER_SECTOR.

(** *** Superblock helpers *)

(** The CRC of the bytes before the [superblock_crc] field, at offset 32. *)
Definition superblock_crc (sb : journal_superblock_t) : Z :=
  journal_crc32 0 (take 32 (superblock_bytes sb)).

Definition seal_superblock (sb : journal_superblock_t) : journal_superblock_t :=
  {| sb_magic := sb_magic sb; sb_version := sb_version sb;
     sb_active_slot := sb_active_slot sb; sb_epoch := sb_epoch sb;
     sb_event_count := sb_event_count sb; sb_slot_crc := sb_slot_crc sb;
     sb_superblock_crc := superblock_crc sb; sb_reserved := sb_reserved sb |}.

Definition read_superblock store d : Z * journal_superblock_t :=
  let '(rc, sec) := dev_read store d (js_base_sector store) [] in
  let sb := superblock_of_bytes sec in
  if negb (rc =? JOURNAL_OK) then (rc, sb)
  else if negb (sb_magic sb =? JOURNAL_SB_MAGIC) then (JOURNAL_ERR_NO_JOURNAL, sb)
  else if negb (sb_superblock_crc sb =? superblock_crc sb) then (JOURNAL_ERR_CRC, sb)
  else (JOURNAL_OK, sb).

(** *** API *)
Definition journal_store_init (store : ptr (journal_store_t D))
    (dev : ptr (fat_block_device_t D)) (base_sector slot_sectors : Z)
  : Z * ptr (journal_store_t D) :=
  match store, dev with
  | Some _, Some _ =>
      if slot_sectors <? 2 then (JOURNAL_ERR_PARAM, store)
      else
        (JOURNAL_OK,
         & {| js_dev := dev; js_base_sector := base_sector; js_slot_sectors := slot_sectors;
              js_max_events := u32 (u32 (slot_sectors - 1) * JOURNAL_EVENTS_PER_SECTOR);
              js_initialized := true |})
  | _, _ => (JOURNAL_ERR_PARAM, store)
  end.

Definition journal_store_format (store : ptr (journal_store_t D)) d : Z * D :=
  match store with
  | NULL => (JOURNAL_ERR_STATE, d)
  | Some st =>
      if negb (js_initialized st) then (JOURNAL_ERR_STATE, d)
      else
        let sb := {| sb_magic := JOURNAL_SB_MAGIC; sb_version := JOURNAL_FORMAT_VERSION;
                     sb_active_slot := JOURNAL_NO_SLOT; sb_epoch := 0; sb_event_count := 0;
                     sb_slot_crc := 0; sb_superblock_crc := 0; sb_reserved := 0 |} in
        dev_write st d (js_base_sector st) (sector_of (superblock_bytes (seal_superblock sb)))
  end.

Definition journal_store_begin (store : ptr (journal_store_t D)) d (epoch base_lclock : Z)
    (writer : ptr journal_writer_t) : Z * ptr journal_writer_t :=
  match store, writer with
  | Some st, Some _ =>
      if negb (js_initialized st) then (JOURNAL_ERR_PARAM, writer)
      else
        let '(rc, sb) := read_superblock st d in
        let target := if (rc =? JOURNAL_OK) && (sb_active_slot sb =? 0) then 1 else 0 in
        (JOURNAL_OK,
         & {| jw_slot := target; jw_slot_base := slot_base_sector st target;
              jw_epoch := epoch; jw_base_lclock := base_lclock; jw_event_count := 0;
              jw_crc := 0; jw_buf_events := 0; jw_event_sector := 0;
              jw_sector_buf := zeros (Z.to_nat JOURNAL_SECTOR_SIZE); jw_active := true |})
  | _, _ => (JOURNAL_ERR_PARAM, writer)
  end.

Definition flush_sector store d (w : journal_writer_t) : Z * D * journal_writer_t :=
  let sector := u32 (jw_slot_base w + 1 + jw_event_sector w) in
  let '(rc, d) := dev_write store d sector (jw_sector_buf w) in
  if negb (rc =? JOURNAL_OK) then (rc, d, w)
  else
    (JOURNAL_OK, d,
     {| jw_slot := jw_slot w; jw_slot_base := jw_slot_base w; jw_epoch := jw_epoch w;
        jw_base_lclock := jw_base_lclock w; jw_event_count := jw_event_count w;
        jw_crc := journal_crc32 (jw_crc w) (jw_sector_buf w); jw_buf_events := 0;
        jw_event_sector := u32 (jw_event_sector w + 1);
        jw_sector_buf := zeros (Z.to_nat JOURNAL_SECTOR_SIZE); jw_active := jw_active w |}).

(** [memcpy(buf + off, bs, n)] inside a buffer. *)
Definition buf_put (buf : list byte) (off : Z) (bs : list byte) : list byte :=
  take (Z.to_nat off) buf ++ bs ++ drop (Z.to_nat off + length bs) buf.

Definition journal_writer_append_len store d (writer : ptr journal_writer_t)
    (type lclock value len : Z) : Z * D * ptr journal_writer_t :=
  match writer with
  | NULL => (JOURNAL_ERR_STATE, d, writer)
  | Some w =>
      if negb (jw_active w) then (JOURNAL_ERR_STATE, d, writer)
      else if js_max_events store <=? jw_event_count w then (JOURNAL_ERR_FULL, d, writer)
      else
        let ev := {| ev_epoch := jw_epoch w; ev_lclock := lclock; ev_type := type;
                     ev_len := len; ev_value := value |} in
        let off := u32 (jw_buf_events w * JOURNAL_EVENT_SIZE) in
        let w :=
          {| jw_slot := jw_slot w; jw_slot_base := jw_slot_base w; jw_epoch := jw_epoch w;
             jw_base_lclock := jw_base_lclock w; jw_event_count := u32 (jw_event_count w + 1);
             jw_crc := jw_crc w; jw_buf_events := u32 (jw_buf_events w + 1);
             jw_event_sector := jw_event_sector w;
             jw_sector_buf := buf_put (jw_sector_buf w) off (event_bytes ev);
             jw_active := jw_active w |} in
        if jw_buf_events w =? JOURNAL_EVENTS_PER_SECTOR then
          let '(rc, d, w) := flush_sector store d w in
          if negb (rc =? JOURNAL_OK) then (rc, d, & (deactivate w))
          else (JOURNAL_OK, d, & w)
        else (JOURNAL_OK, d, & w)
  end.

Definition journal_writer_append store d (writer : ptr journal_writer_t)
    (type lclock value : Z) : Z * D * ptr journal_writer_t :=
  journal_writer_append_len store d writer type lclock value 0.

Definition journal_store_commit store d (writer : ptr journal_writer_t)
  : Z * D * ptr journal_writer_t :=
  match writer with
  | NULL => (JOURNAL_ERR_STATE, d, writer)
  | Some w =>
      if negb (jw_active w) then (JOURNAL_ERR_STATE, d, writer)
      else
        let '(rc, d, w) :=
          if 0 <? jw_buf_events w then flush_sector store d w else (JOURNAL_OK, d, w) in
        if negb (rc =? JOURNAL_OK) then (rc, d, & (deactivate w))
        else
          let hdr := {| jh_magic := JOURNAL_SLOT_MAGIC; jh_epoch := jw_epoch w;
                        jh_event_count := jw_event_count w; jh_slot_crc := jw_crc w;
                        jh_base_lclock := jw_base_lclock w |} in
          let '(rc, d) := dev_write store d (jw_slot_base w) (sector_of (slot_header_bytes hdr)) in
          if negb (rc =? JOURNAL_OK) then (rc, d, & (deactivate w))
          else
            let sb := {| sb_magic := JOURNAL_SB_MAGIC; sb_version := JOURNAL_FORMAT_VERSION;
                         sb_active_slot := jw_slot w; sb_epoch := jw_epoch w;
                         sb_event_count := jw_event_count w; sb_slot_crc := jw_crc w;
                         sb_superblock_crc := 0; sb_reserved := 0 |} in
            let '(rc, d) := dev_write store d (js_base_sector store)
                              (sector_of (superblock_bytes (seal_superblock sb))) in
            (rc, d, & (deactivate w))
  end.

(** The CRC loop of [journal_store_load]: [n] sectors left, [i] the next. *)
Fixpoint crc_sectors store d (slot_base : Z) (n : nat) (i crc : Z) : Z * Z :=
  match n with
  | O => (JOURNAL_OK, crc)
  | S n =>
      let '(rc, sec) := dev_read store d (u32 (slot_base + 1 + i)) [] in
      if negb (rc =? JOURNAL_OK) then (rc, crc)
      else crc_sectors store d slot_base n (u32 (i + 1)) (journal_crc32 crc sec)
  end.

Definition journal_store_load (store : ptr (journal_store_t D)) d
    (reader : ptr journal_reader_t) : Z * ptr journal_reader_t :=
  match store, reader with
  | Some st, Some _ =>
      if negb (js_initialized st) then (JOURNAL_ERR_PARAM, reader)
      else
        let '(rc, sb) := read_superblock st d in
        if negb (rc =? JOURNAL_OK) then (rc, reader)
        else if sb_active_slot sb =? JOURNAL_NO_SLOT then (JOURNAL_ERR_NO_JOURNAL, reader)
        else
          let slot_base := slot_base_sector st (sb_active_slot sb) in
          let '(rc, sec) := dev_read st d slot_base [] in
          if negb (rc =? JOURNAL_OK) then (rc, reader)
          else
            let hdr := slot_header_of_bytes sec in
            if negb (jh_magic hdr =? JOURNAL_SLOT_MAGIC) then (JOURNAL_ERR_CRC, reader)
            else if negb (jh_epoch hdr =? sb_epoch sb)
                    || negb (jh_event_count hdr =? sb_event_count sb)
            then (JOURNAL_ERR_CRC, reader)
            else
              let nsec := event_sectors_for (jh_event_count hdr) in
              let '(rc, crc) := crc_sectors st d slot_base (Z.to_nat nsec) 0 0 in
              if negb (rc =? JOURNAL_OK) then (rc, reader)
              else if negb (crc =? jh_slot_crc hdr) || negb (crc =? sb_slot_crc sb)
              then (JOURNAL_ERR_CRC, reader)
              else
                (JOURNAL_OK,
                 & {| jr_slot_base := slot_base; jr_epoch := jh_epoch hdr;
                      jr_event_count := jh_event_count hdr; jr_next_index := 0;
                      jr_buf_sector := JOURNAL_NO_SLOT;
                      jr_sector_buf := zeros (Z.to_nat JOURNAL_SECTOR_SIZE);
                      jr_valid := true |})
  | _, _ => (JOURNAL_ERR_PARAM, reader)
  end.

(** [out] says whether the output pointer is non-NULL. *)
Definition journal_reader_next store d (reader : ptr journal_reader_t) (out : bool)
  : Z * ptr journal_reader_t * ptr journal_event_t :=
  match reader with
  | NULL => (JOURNAL_ERR_PARAM, reader, NULL)
  | Some r =>
      if negb (jr_valid r) || negb out then (JOURNAL_ERR_PARAM, reader, NULL)
      else if jr_event_count r <=? jr_next_index r then (JOURNAL_ERR_NO_JOURNAL, reader, NULL)
      else
        let sidx := jr_next_index r / JOURNAL_EVENTS_PER_SECTOR in
        let within := jr_next_index r mod JOURNAL_EVENTS_PER_SECTOR in
        let '(rc, buf_sector, buf) :=
          if negb (jr_buf_sector r =? sidx) then
            let '(rc, sec) := dev_read store d (u32 (jr_slot_base r + 1 + sidx)) (jr_sector_buf r) in
            if negb (rc =? JOURNAL_OK) then (rc, jr_buf_sector r, sec) else (JOURNAL_OK, sidx, sec)
          else (JOURNAL_OK, jr_buf_sector r, jr_sector_buf r) in
        let r' next :=
          {| jr_slot_base := jr_slot_base r; jr_epoch := jr_epoch r;
             jr_event_count := jr_event_count r; jr_next_index := next;
             jr_buf_sector := buf_sector; jr_sector_buf := buf; jr_valid := jr_valid r |} in
        if negb (rc =? JOURNAL_OK) then (rc, & (r' (jr_next_index r)), NULL)
        else
          (JOURNAL_OK, & (r' (u32 (jr_next_index r + 1))),
           & (event_of_bytes (drop (Z.to_nat (within * JOURNAL_EVENT_SIZE)) buf)))
  end.
End journal.
