(* ===== verification/CheckpointJournalSpec.v ===== *)
(** * The input journal is crash-atomic and reads back exactly what was appended *)
From Stdlib Require Import ZArith Lia.
From S2P Require Import Prelude.
From S2P Require Import Crc32.
From S2P Require Import BlockDevice.
From S2P Require Import AtomicStore.
From S2P Require Import CheckpointJournal.
Open Scope Z_scope.
Open Scope c_scope.

(** ** A journal session and what a load finds *)

(** The arguments of [journal_writer_append_len]. *)
Record input := { in_type : Z; in_lclock : Z; in_value : Z; in_len : Z }.

(** One epoch's journal: epoch, logical clock at its opening, inputs. *)
Record epoch_journal := { ej_epoch : Z; ej_base_lclock : Z; ej_inputs : list input }.

Definition event_of (epoch : Z) (i : input) : journal_event_t :=
  {| ev_epoch := epoch; ev_lclock := in_lclock i; ev_type := in_type i;
     ev_len := in_len i; ev_value := in_value i |}.

Definition writer_none : journal_writer_t :=
  {| jw_slot := 0; jw_slot_base := 0; jw_epoch := 0; jw_base_lclock := 0; jw_event_count := 0;
     jw_crc := 0; jw_buf_events := 0; jw_event_sector := 0; jw_sector_buf := [];
     jw_active := false |}.
Definition reader_none : journal_reader_t :=
  {| jr_slot_base := 0; jr_epoch := 0; jr_event_count := 0; jr_next_index := 0;
     jr_buf_sector := 0; jr_sector_buf := []; jr_valid := false |}.

Section session.
Context {D : Type}.
Implicit Types (store : journal_store_t D) (d : D).

Fixpoint append_all store d (w : ptr journal_writer_t) (xs : list input)
  : Z * D * ptr journal_writer_t :=
  match xs with
  | [] => (JOURNAL_OK, d, w)
  | x :: xs =>
      let '(rc, d, w) := journal_writer_append_len store d w (in_type x) (in_lclock x)
                           (in_value x) (in_len x) in
      if negb (rc =? JOURNAL_OK) then (rc, d, w) else append_all store d w xs
  end.

Definition record_epoch store d (j : epoch_journal) : Z * D :=
  let '(rc, w) := journal_store_begin (& store) d (ej_epoch j) (ej_base_lclock j) (& writer_none) in
  if negb (rc =? JOURNAL_OK) then (rc, d)
  else
    let '(rc, d, w) := append_all store d w (ej_inputs j) in
    if negb (rc =? JOURNAL_OK) then (rc, d)
    else let '(rc, d, w) := journal_store_commit store d w in (rc, d).

Fixpoint read_events store d (r : ptr journal_reader_t) (fuel : nat) : list journal_event_t :=
  match fuel with
  | O => []
  | S fuel =>
      match journal_reader_next store d r true with
      | (_, r, Some ev) => ev :: read_events store d r fuel
      | _ => []
      end
  end.

(** The load's error, or the epoch and its events in order. *)
Definition journal_view store d : Z + Z * list journal_event_t :=
  match journal_store_load (& store) d (& reader_none) with
  | (rc, Some r) =>
      if rc =? JOURNAL_OK
      then inr (jr_epoch r, read_events store d (& r) (Z.to_nat (jr_event_count r)))
      else inl rc
  | (rc, NULL) => inl rc
  end.
End session.

(** ** Well-formed journals *)
Definition input_ok (x : input) : Prop :=
  fits 4 (in_type x) /\ fits 8 (in_lclock x) /\ fits 8 (in_value x) /\ fits 4 (in_len x).

Definition journal_ok (j : epoch_journal) : Prop :=
  fits 8 (ej_epoch j) /\ fits 8 (ej_base_lclock j) /\ Forall input_ok (ej_inputs j).

Definition stored (j : epoch_journal) : Z + Z * list journal_event_t :=
  inr (ej_epoch j, event_of (ej_epoch j) <$> ej_inputs j).

Record store_wf {D} (dev : fat_block_device_t D) (st : journal_store_t D) : Prop := {
  wf_dev : js_dev st = & dev;
  wf_init : js_initialized st = true;
  wf_base : 0 <= js_base_sector st;
  wf_slot : 2 <= js_slot_sectors st;
  wf_fit : js_base_sector st + 1 + 2 * js_slot_sectors st <= total_sectors dev;
  wf_max : js_max_events st = u32 (u32 (js_slot_sectors st - 1) * JOURNAL_EVENTS_PER_SECTOR) }.

(** ** Byte-level round trips *)
Lemma journal_superblock_roundtrip sb :
  Forall2 fits superblock_layout (superblock_fields sb) ->
  superblock_of_bytes (sector_of (superblock_bytes sb)) = sb.
Proof.
  intros H. unfold superblock_of_bytes, sector_of, zero_padded, superblock_bytes.
  rewrite unpack_pack by done. destruct sb; reflexivity.
Qed.

Lemma journal_slot_header_roundtrip h :
  Forall2 fits slot_header_layout (slot_header_fields h) ->
  slot_header_of_bytes (sector_of (slot_header_bytes h)) = h.
Proof.
  intros H. unfold slot_header_of_bytes, sector_of, zero_padded, slot_header_bytes.
  rewrite unpack_pack by done. destruct h; reflexivity.
Qed.

Lemma event_roundtrip e rest :
  Forall2 fits event_layout (event_fields e) -> event_of_bytes (event_bytes e ++ rest) = e.
Proof.
  intros H. unfold event_of_bytes, event_bytes. rewrite unpack_pack by done. destruct e; reflexivity.
Qed.

Lemma event_fits epoch x : fits 8 epoch -> input_ok x -> Forall2 fits event_layout (event_fields (event_of epoch x)).
Proof. intros He (H1 & H2 & H3 & H4). fits_fields. Qed.

Lemma length_event_bytes e : length (event_bytes e) = 32%nat.
Proof. unfold event_bytes. rewrite length_pack by done. reflexivity. Qed.

Lemma journal_length_sector_of bs : (length bs <= 512)%nat -> length (sector_of bs) = 512%nat.
Proof. intros. apply length_zero_padded. assumption. Qed.

Lemma journal_length_superblock_sector sb : length (sector_of (superblock_bytes sb)) = 512%nat.
Proof. apply journal_length_sector_of. unfold superblock_bytes. rewrite length_pack by done. cbn; lia. Qed.
Lemma journal_length_header_sector h : length (sector_of (slot_header_bytes h)) = 512%nat.
Proof. apply journal_length_sector_of. unfold slot_header_bytes. rewrite length_pack by done. cbn; lia. Qed.

Lemma journal_superblock_crc_seal sb : superblock_crc (seal_superblock sb) = superblock_crc sb.
Proof. unfold superblock_crc. f_equal. Qed.
Lemma journal_superblock_crc_range sb : 0 <= superblock_crc sb < 2 ^ 32.
Proof. unfold superblock_crc. rewrite journal_crc32_eq. apply crc32_range. Qed.

(** The bytes of a list of events. *)
Definition events_bytes (epoch : Z) (xs : list input) : list byte :=
  mjoin ((fun x => event_bytes (event_of epoch x)) <$> xs).

Lemma length_events_bytes epoch xs : length (events_bytes epoch xs) = (length xs * 32)%nat.
Proof. unfold events_bytes. apply length_mjoin_const. intros. apply length_event_bytes. Qed.

Lemma events_bytes_snoc epoch xs x :
  events_bytes epoch (xs ++ [x]) = events_bytes epoch xs ++ event_bytes (event_of epoch x).
Proof.
  unfold events_bytes. rewrite fmap_app, join_app. f_equal.
Qed.

(** The bytes at the place of event [i] start with its encoding. *)
Lemma events_bytes_lookup epoch xs i x pad :
  xs !! i = Some x ->
  exists rest, drop (i * 32) (events_bytes epoch xs ++ pad) = event_bytes (event_of epoch x) ++ rest.
Proof.
  intros Hx. exists (events_bytes epoch (drop (S i) xs) ++ pad).
  rewrite <- (take_drop_middle xs i x Hx) at 1. unfold events_bytes at 1.
  rewrite fmap_app, join_app, fmap_cons.
  change (mjoin ((fun x => event_bytes (event_of epoch x)) <$> take i xs)) with (events_bytes epoch (take i xs)).
  assert (length (events_bytes epoch (take i xs)) = (i * 32)%nat) as Hl.
  { rewrite length_events_bytes, length_take. apply lookup_lt_Some in Hx. lia. }
  rewrite <- app_assoc, drop_app_length' by done. reflexivity.
Qed.

(** ** Geometry and device access *)
Section proofs.
Context {D : Type} {dev : fat_block_device_t D} `{!BlockDevice dev}.
Context {st : journal_store_t D} (wf : store_wf dev st).
Implicit Types (d : D).

Definition slot_lo (s : Z) : Z := js_base_sector st + 1 + s * js_slot_sectors st.

Lemma journal_total_small : total_sectors dev < 2 ^ 32.
Proof. apply (bd_total (dev := dev)). Qed.

(** [max_events] is a whole number of sectors, and they fit the slot. *)
Lemma max_events_sectors :
  exists m, js_max_events st = 16 * m /\ 0 <= m <= js_slot_sectors st - 1 /\ m < 2 ^ 28.
Proof.
  pose proof journal_total_small. destruct wf as [_ _ Hb Hs Hf Hm]. rewrite Hm, (u32_id (js_slot_sectors st - 1)) by lia.
  change JOURNAL_EVENTS_PER_SECTOR with 16. exists ((js_slot_sectors st - 1) mod 2 ^ 28). split.
  - unfold u32. change (2 ^ 32) with (2 ^ 28 * 16). rewrite Z.mul_mod_distr_r by lia. lia.
  - pose proof (Z.mod_pos_bound (js_slot_sectors st - 1) (2 ^ 28) ltac:(lia)).
    pose proof (Z.mod_le (js_slot_sectors st - 1) (2 ^ 28) ltac:(lia) ltac:(lia)). lia.
Qed.

Lemma journal_slot_base_eq s : 0 <= s <= 1 -> slot_base_sector st s = slot_lo s.
Proof.
  intros Hs. pose proof journal_total_small. destruct wf as [_ _ Hb Hslot Hfit _].
  unfold slot_base_sector, slot_lo.
  assert (0 <= s * js_slot_sectors st <= js_slot_sectors st) by nia.
  rewrite (u32_id (_ * _)), u32_id; lia.
Qed.

Lemma slot_sector_eq s i :
  0 <= s <= 1 -> 0 <= i < js_slot_sectors st - 1 -> u32 (slot_lo s + 1 + i) = slot_lo s + 1 + i.
Proof.
  intros Hs Hi. pose proof journal_total_small. destruct wf as [_ _ Hb Hslot Hfit _].
  apply u32_id. unfold slot_lo. nia.
Qed.

Lemma journal_range_superblock : in_range dev (js_base_sector st) 1.
Proof. destruct wf. unfold in_range. lia. Qed.

Lemma range_slot s i :
  0 <= s <= 1 -> 0 <= i < js_slot_sectors st -> in_range dev (slot_lo s + i) 1.
Proof. intros. destruct wf. unfold in_range, slot_lo. nia. Qed.

Lemma journal_range_header s : 0 <= s <= 1 -> in_range dev (slot_lo s) 1.
Proof. intros Hs. pose proof (wf_slot _ _ wf). rewrite <- (Z.add_0_r (slot_lo s)). apply range_slot; lia. Qed.

Lemma event_sectors_small n :
  0 <= n <= js_max_events st ->
  event_sectors_for n = (n + 15) / 16 /\ 0 <= event_sectors_for n <= js_slot_sectors st - 1 /\
  16 * (event_sectors_for n) < 2 ^ 32.
Proof.
  intros Hn. destruct max_events_sectors as (m & Hm & Hm1 & Hm2). unfold event_sectors_for.
  change JOURNAL_EVENTS_PER_SECTOR with 16. rewrite u32_id by lia.
  replace (n + 16 - 1) with (n + 15) by lia. split; [reflexivity|].
  pose proof (Z.div_lt_upper_bound (n + 15) 16 (m + 1) ltac:(lia) ltac:(lia)).
  pose proof (Z.div_pos (n + 15) 16 ltac:(lia) ltac:(lia)). lia.
Qed.

Lemma journal_dev_read_ok d s buf :
  bd_inv d -> in_range dev s 1 -> dev_read st d s buf = (JOURNAL_OK, bd_sector d s).
Proof.
  intros Hd Hr. unfold dev_read. rewrite (wf_dev _ _ wf), bd_read_eq, bd_read_ok by assumption.
  rewrite (sector_run_1 dev). reflexivity.
Qed.

Lemma journal_dev_write_ok d s bs :
  bd_inv d -> in_range dev s 1 -> length bs = 512%nat ->
  bd_inv (dev_write st d s bs).2 /\
  write_effect dev bd_sector d s 1 bs (dev_write st d s bs).1 (dev_write st d s bs).2.
Proof.
  intros Hd Hr Hb. unfold dev_write. rewrite (wf_dev _ _ wf), bd_write_eq.
  pose proof (bd_write_inv d s 1 bs Hd Hr Hb) as Hi.
  pose proof (bd_write_ok d s 1 bs Hd Hr Hb) as [Hf Ha Hw].
  destruct (bd_write d s 1 bs) as [rc d']. cbn in *. split; [assumption|]. split; [assumption..|].
  intros i Hrc Hin. apply Hw; [|assumption]. destruct (Z.eqb_spec rc 0); [assumption|discriminate].
Qed.

(** One-sector writes: elsewhere nothing changes, there old or new. *)
Lemma dev_write_1 d s bs :
  bd_inv d -> in_range dev s 1 -> length bs = 512%nat ->
  let d' := (dev_write st d s bs).2 in
  bd_inv d' /\ (forall i, 0 <= i < total_sectors dev -> i <> s -> bd_sector d' i = bd_sector d i) /\
  (bd_sector d' s = bd_sector d s \/ bd_sector d' s = bs) /\
  ((dev_write st d s bs).1 = JOURNAL_OK -> bd_sector d' s = bs).
Proof.
  intros Hd Hr Hb. destruct (journal_dev_write_ok d s bs Hd Hr Hb) as [Hi [Hf Ha Hw]].
  assert (chunk 512 bs (s - s) = bs) as Hc by (rewrite Z.sub_diag; apply chunk_0; assumption).
  split_and!; [exact Hi | intros i Hi' Hne; apply Hf; lia | |].
  - destruct (Ha s ltac:(lia)) as [H|H]; [left; exact H | right; rewrite H; exact Hc].
  - intros Hrc. rewrite (Hw s Hrc) by lia. exact Hc.
Qed.

(** *** A load reads the superblock and the active slot only *)
Definition disk_superblock d : journal_superblock_t :=
  superblock_of_bytes (bd_sector d (js_base_sector st)).

Definition superblock_valid (sb : journal_superblock_t) : bool :=
  (sb_magic sb =? JOURNAL_SB_MAGIC) && (sb_superblock_crc sb =? superblock_crc sb).

Lemma journal_read_superblock_ok d :
  bd_inv d ->
  read_superblock st d =
    ((if superblock_valid (disk_superblock d) then JOURNAL_OK
      else if sb_magic (disk_superblock d) =? JOURNAL_SB_MAGIC then JOURNAL_ERR_CRC
      else JOURNAL_ERR_NO_JOURNAL), disk_superblock d).
Proof.
  intros Hd. unfold read_superblock. rewrite journal_dev_read_ok by (assumption || apply journal_range_superblock).
  cbn [negb Z.eqb JOURNAL_OK]. fold (disk_superblock d). unfold superblock_valid.
  destruct (sb_magic (disk_superblock d) =? JOURNAL_SB_MAGIC); cbn [negb andb]; [|reflexivity].
  destruct (_ =? superblock_crc _); reflexivity.
Qed.

(** What a valid superblock promises: a slot of the region, and events that
    fit it.  The store itself never writes any other. *)
Definition sane d : Prop :=
  superblock_valid (disk_superblock d) = true ->
  sb_active_slot (disk_superblock d) = JOURNAL_NO_SLOT \/
  (sb_active_slot (disk_superblock d) <= 1 /\ sb_event_count (disk_superblock d) <= js_max_events st).

Definition journal_inv d : Prop := bd_inv d /\ sane d.

Definition inactive_slot d : Z :=
  if superblock_valid (disk_superblock d) && (sb_active_slot (disk_superblock d) =? 0) then 1 else 0.

Lemma journal_inactive_slot_range d : 0 <= inactive_slot d <= 1.
Proof. unfold inactive_slot. destruct (_ && _)%bool; lia. Qed.

Lemma begin_target d :
  bd_inv d ->
  let '(rc, sb) := read_superblock st d in
  (if (rc =? JOURNAL_OK) && (sb_active_slot sb =? 0) then 1 else 0) = inactive_slot d.
Proof.
  intros Hd. rewrite journal_read_superblock_ok by assumption. unfold inactive_slot.
  destruct (superblock_valid _); [reflexivity|]. destruct (_ =? JOURNAL_SB_MAGIC); reflexivity.
Qed.

(** What a session to slot [s] leaves alone: the superblock and the other slot. *)
Definition keeps s d d' : Prop :=
  bd_inv d' /\ bd_sector d' (js_base_sector st) = bd_sector d (js_base_sector st) /\
  forall s' i, 0 <= s' <= 1 -> s' <> s -> 0 <= i < js_slot_sectors st ->
    bd_sector d' (slot_lo s' + i) = bd_sector d (slot_lo s' + i).

Lemma journal_keeps_refl s d : bd_inv d -> keeps s d d.
Proof. intros. split_and!; done. Qed.

Lemma journal_keeps_trans s d1 d2 d3 : keeps s d1 d2 -> keeps s d2 d3 -> keeps s d1 d3.
Proof.
  intros (_ & Hb & Hs) (? & Hb' & Hs'). split_and!; [done|congruence|].
  intros s' i H1 H2 H3. rewrite Hs', Hs; done.
Qed.

Lemma journal_write_keeps d s i bs :
  bd_inv d -> 0 <= s <= 1 -> length bs = 512%nat -> 0 <= i < js_slot_sectors st ->
  keeps s d (dev_write st d (slot_lo s + i) bs).2.
Proof.
  intros Hd Hs Hb Hi. destruct (dev_write_1 d _ bs Hd (range_slot s i Hs Hi) Hb) as (Hd' & Hf & _).
  pose proof journal_total_small. destruct wf as [_ _ Hb0 Hsl Hfit _]. split_and!; [exact Hd'| |].
  - apply Hf; unfold slot_lo in *; nia.
  - intros s' j Hs' Hne Hj. apply Hf; unfold slot_lo in *; nia.
Qed.

Lemma crc_sectors_run d s n i crc :
  bd_inv d -> 0 <= s <= 1 -> 0 <= i -> i + Z.of_nat n <= js_slot_sectors st - 1 -> 0 <= crc < 2 ^ 32 ->
  crc_sectors st d (slot_lo s) n i crc =
    (JOURNAL_OK, snapshot_crc32 crc (sector_run bd_sector d (slot_lo s + 1 + i) (Z.of_nat n))).
Proof.
  intros Hd Hs. revert i crc; induction n as [|n IH]; intros i crc Hi Hn Hc.
  { cbn [crc_sectors]. f_equal. symmetry. apply crc32_nil. assumption. }
  pose proof journal_total_small. pose proof (wf_fit _ _ wf). pose proof (wf_base _ _ wf).
  cbn [crc_sectors]. rewrite slot_sector_eq by lia.
  replace (slot_lo s + 1 + i) with (slot_lo s + (1 + i)) by lia.
  rewrite journal_dev_read_ok by first [assumption | apply range_slot; lia]. cbn [negb Z.eqb JOURNAL_OK].
  rewrite journal_crc32_eq, u32_id, IH by first [lia | apply crc32_range]. f_equal.
  rewrite crc32_app. f_equal. replace (Z.of_nat (S n)) with (1 + Z.of_nat n) by lia.
  rewrite (sector_run_app dev), (sector_run_1 dev) by lia. do 2 f_equal; lia.
Qed.

Lemma read_events_same d d' s n fuel r :
  bd_inv d -> bd_inv d' -> 0 <= s <= 1 -> jr_slot_base r = slot_lo s ->
  0 <= jr_next_index r -> jr_event_count r <= n -> n <= js_max_events st ->
  (forall i, 0 <= i < js_slot_sectors st -> bd_sector d' (slot_lo s + i) = bd_sector d (slot_lo s + i)) ->
  read_events st d' (& r) fuel = read_events st d (& r) fuel.
Proof.
  intros Hd Hd' Hs. revert r; induction fuel as [|fuel IH]; intros r Hb Hi Hc Hn Hsame; [reflexivity|].
  cbn [read_events journal_reader_next].
  destruct (negb (jr_valid r) || negb true); [reflexivity|].
  destruct (Z.leb_spec (jr_event_count r) (jr_next_index r)) as [|Hlt]; [reflexivity|].
  change JOURNAL_EVENTS_PER_SECTOR with 16.
  destruct max_events_sectors as (m & Hm & Hm1 & Hm2).
  assert (0 <= jr_next_index r / 16 < m) as Hq.
  { split; [apply Z.div_pos; lia | apply Z.div_lt_upper_bound; lia]. }
  rewrite Hb, slot_sector_eq by lia.
  replace (slot_lo s + 1 + jr_next_index r / 16) with (slot_lo s + (1 + jr_next_index r / 16)) by lia.
  rewrite !journal_dev_read_ok by first [assumption | apply range_slot; lia]. rewrite Hsame by lia.
  cbn [negb Z.eqb JOURNAL_OK].
  destruct (jr_buf_sector r =? jr_next_index r / 16); cbn [negb Z.eqb JOURNAL_OK];
    (f_equal; apply IH; cbn [jr_slot_base jr_next_index jr_event_count]; auto; apply u32_range).
Qed.

Lemma active_nonneg bs : 0 <= sb_active_slot (superblock_of_bytes bs).
Proof. apply (field_fits superblock_layout bs 2 4). done. Qed.
Lemma count_nonneg bs : 0 <= sb_event_count (superblock_of_bytes bs).
Proof. apply (field_fits superblock_layout bs 4 4). done. Qed.

(** A load after such changes finds what it found before. *)
Lemma journal_view_keeps d d' :
  journal_inv d -> keeps (inactive_slot d) d d' -> journal_view st d' = journal_view st d.
Proof.
  intros [Hd Hsane] (Hd' & Hb & Hs).
  assert (disk_superblock d' = disk_superblock d) as Hsb by (unfold disk_superblock; congruence).
  unfold journal_view, journal_store_load. rewrite (wf_init _ _ wf). cbn [negb].
  rewrite !journal_read_superblock_ok, Hsb by assumption.
  unfold sane in Hsane. unfold inactive_slot in Hs.
  pose proof (active_nonneg (bd_sector d (js_base_sector st))) as Ha0.
  pose proof (count_nonneg (bd_sector d (js_base_sector st))) as Hc0.
  fold (disk_superblock d) in Ha0, Hc0.
  destruct (superblock_valid (disk_superblock d)) eqn:Hv.
  2:{ destruct (_ =? JOURNAL_SB_MAGIC); reflexivity. }
  cbn [negb Z.eqb JOURNAL_OK].
  destruct (Z.eqb_spec (sb_active_slot (disk_superblock d)) JOURNAL_NO_SLOT) as [|Hne]; [reflexivity|].
  destruct (Hsane eq_refl) as [|[Ha Hc]]; [contradiction|]. clear Hsane. cbn [andb] in Hs.
  set (s := sb_active_slot (disk_superblock d)) in *.
  assert (forall i, 0 <= i < js_slot_sectors st ->
    bd_sector d' (slot_lo s + i) = bd_sector d (slot_lo s + i)) as Hsame.
  { intros i Hi. apply Hs; [lia | | exact Hi]. destruct (Z.eqb_spec s 0); lia. }
  pose proof (wf_slot _ _ wf). rewrite journal_slot_base_eq by lia.
  rewrite !journal_dev_read_ok by first [assumption | apply journal_range_header; lia].
  pose proof (Hsame 0 ltac:(lia)) as H0. rewrite Z.add_0_r in H0. rewrite H0.
  cbn [negb Z.eqb JOURNAL_OK].
  set (h := slot_header_of_bytes _).
  destruct (negb (jh_magic h =? _)); [reflexivity|].
  destruct (Z.eqb_spec (jh_event_count h) (sb_event_count (disk_superblock d))) as [He|];
    [|cbn [negb]; rewrite orb_true_r; reflexivity].
  destruct (negb (jh_epoch h =? _)); cbn [orb negb]; [reflexivity|].
  destruct (event_sectors_small (jh_event_count h) ltac:(lia)) as (_ & Hn & _).
  rewrite !crc_sectors_run by first [assumption | lia]. cbn [negb Z.eqb JOURNAL_OK].
  rewrite (sector_run_ext dev d d').
  2:{ intros i Hi. replace i with (slot_lo s + (i - slot_lo s)) by lia. apply Hsame. lia. }
  destruct (negb _ || negb _)%bool; [reflexivity|]. cbn -[read_events].
  rewrite (read_events_same d d' s (jh_event_count h)); cbn [jr_slot_base jr_next_index jr_event_count]; first [assumption | reflexivity | lia].
Qed.

(** *** What a session writes *)

Lemma buf_put_zero_padded P e :
  (length P + length e <= 512)%nat ->
  buf_put (zero_padded 512 P) (Z.of_nat (length P)) e = zero_padded 512 (P ++ e).
Proof.
  intros H. unfold buf_put, zero_padded. rewrite Nat2Z.id, take_app_length.
  rewrite drop_app_add, <- app_assoc. do 2 f_equal. unfold zeros. rewrite drop_replicate.
  f_equal. rewrite length_app. lia.
Qed.

Lemma flush_run d s w F :
  bd_inv d -> 0 <= s <= 1 -> jw_slot_base w = slot_lo s ->
  0 <= jw_event_sector w < js_slot_sectors st - 1 -> length (jw_sector_buf w) = 512%nat ->
  sector_run bd_sector d (slot_lo s + 1) (jw_event_sector w) = F ->
  let '(rc, d', w') := flush_sector st d w in
  keeps s d d' /\
  (rc = JOURNAL_OK ->
    sector_run bd_sector d' (slot_lo s + 1) (jw_event_sector w + 1) = F ++ jw_sector_buf w /\
    w' = {| jw_slot := jw_slot w; jw_slot_base := jw_slot_base w; jw_epoch := jw_epoch w;
        jw_base_lclock := jw_base_lclock w; jw_event_count := jw_event_count w;
        jw_crc := snapshot_crc32 (jw_crc w) (jw_sector_buf w); jw_buf_events := 0;
        jw_event_sector := jw_event_sector w + 1; jw_sector_buf := zeros 512;
        jw_active := jw_active w |}).
Proof.
  intros Hd Hs Hb Hi Hl HF. unfold flush_sector. rewrite Hb, slot_sector_eq by lia.
  replace (slot_lo s + 1 + jw_event_sector w) with (slot_lo s + (1 + jw_event_sector w)) by lia.
  pose proof (journal_write_keeps d s (1 + jw_event_sector w) _ Hd Hs Hl ltac:(lia)) as Hk.
  pose proof (range_slot s (1 + jw_event_sector w) Hs ltac:(lia)) as Hr.
  destruct (dev_write_1 d _ _ Hd Hr Hl) as (_ & Hf & _ & Hw).
  destruct (dev_write st d _ _) as [rc d']. cbn in Hk, Hf, Hw.
  destruct (Z.eqb_spec rc JOURNAL_OK) as [->|Hne]; cbn [negb]; [|split; [exact Hk | contradiction]].
  split; [exact Hk|]. intros _. pose proof journal_total_small. pose proof (wf_fit _ _ wf).
  pose proof (wf_base _ _ wf). unfold in_range in Hr. split.
  - rewrite (sector_run_app dev), (sector_run_1 dev) by lia. f_equal.
    + rewrite <- HF. apply (sector_run_ext dev). intros i Hi'. apply Hf; unfold slot_lo in *; nia.
    + rewrite <- (Hw eq_refl). f_equal. lia.
  - rewrite journal_crc32_eq, u32_id by lia. reflexivity.
Qed.

(** The state of a session to slot [s] that has appended [xs]: [F] has been
    flushed, [P] waits in the sector buffer. *)
Record appending (d0 : D) (s epoch base : Z) (xs : list input) (F P : list byte)
    (w : journal_writer_t) (d : D) : Prop := {
  ap_keeps : keeps s d0 d;
  ap_slot : jw_slot w = s;
  ap_base : jw_slot_base w = slot_lo s;
  ap_epoch : jw_epoch w = epoch;
  ap_lclock : jw_base_lclock w = base;
  ap_count : jw_event_count w = Z.of_nat (length xs);
  ap_max : Z.of_nat (length xs) <= js_max_events st;
  ap_active : jw_active w = true;
  ap_bytes : events_bytes epoch xs = F ++ P;
  ap_flushed : Z.of_nat (length F) = 512 * jw_event_sector w;
  ap_pending : Z.of_nat (length P) = 32 * jw_buf_events w;
  ap_room : 0 <= jw_buf_events w < 16;
  ap_buf : jw_sector_buf w = zero_padded 512 P;
  ap_disk : sector_run bd_sector d (slot_lo s + 1) (jw_event_sector w) = F;
  ap_crc : jw_crc w = snapshot_crc32 0 F }.

Lemma appending_sector d0 s epoch base xs F P w d :
  appending d0 s epoch base xs F P w d ->
  16 * jw_event_sector w + jw_buf_events w = Z.of_nat (length xs) /\ 0 <= jw_event_sector w.
Proof.
  intros A. pose proof (f_equal length (ap_bytes _ _ _ _ _ _ _ _ _ A)) as H.
  rewrite length_events_bytes, length_app in H. destruct A. lia.
Qed.

Lemma append_appending d0 s epoch base xs F P w d x :
  0 <= s <= 1 -> appending d0 s epoch base xs F P w d ->
  let '(rc, d', w') := journal_writer_append_len st d (& w) (in_type x) (in_lclock x)
                         (in_value x) (in_len x) in
  keeps s d0 d' /\
  (rc = JOURNAL_OK -> exists w'' F' P', w' = & w'' /\ appending d0 s epoch base (xs ++ [x]) F' P' w'' d').
Proof.
  intros Hs A. destruct (appending_sector _ _ _ _ _ _ _ _ _ A) as [Hn Hes].
  destruct A as [Hk Hsl Hb He Hlc Hc Hm Hact Hbytes HF HP Hroom Hbuf Hdisk Hcrc].
  destruct max_events_sectors as (m & Hm1 & Hm2 & Hm3). pose proof Hk as (Hd & _ & _).
  unfold journal_writer_append_len. rewrite Hact, Hc, He. cbn [negb].
  destruct (Z.leb_spec (js_max_events st) (Z.of_nat (length xs))) as [|Hlt]; [split; [exact Hk|discriminate]|].
  cbn [jw_buf_events]. change JOURNAL_EVENTS_PER_SECTOR with 16. change JOURNAL_EVENT_SIZE with 32.
  rewrite !u32_id by lia.
  fold (event_of epoch x).
  replace (jw_buf_events w * 32) with (Z.of_nat (length P)) by lia.
  pose proof (length_event_bytes (event_of epoch x)) as Hle.
  rewrite Hbuf, buf_put_zero_padded by lia.
  assert (events_bytes epoch (xs ++ [x]) = F ++ (P ++ event_bytes (event_of epoch x))) as Hbytes'
    by (rewrite events_bytes_snoc, Hbytes, app_assoc; reflexivity).
  assert (Z.of_nat (length (P ++ event_bytes (event_of epoch x))) = 32 * (jw_buf_events w + 1)) as HP'
    by (rewrite length_app; lia).
  generalize dependent (event_bytes (event_of epoch x)). intros E Hle Hbytes' HP'.
  destruct (Z.eqb_spec (jw_buf_events w + 1) 16) as [Hfull|Hnf].
  - match goal with |- context [flush_sector st d ?w1] =>
      pose proof (flush_run d s w1 F Hd Hs) as HL end.
    cbn [jw_slot_base jw_event_sector jw_sector_buf jw_slot jw_epoch jw_base_lclock jw_event_count
         jw_crc jw_active] in HL.
    assert (zero_padded 512 (P ++ E) = P ++ E) as Hz.
    { unfold zero_padded. replace (512 - length (P ++ E))%nat with 0%nat by lia. apply app_nil_r. }
    rewrite Hz in *. specialize (HL Hb ltac:(lia) ltac:(lia) Hdisk).
    destruct (flush_sector st d _) as [[rc d'] w']. destruct HL as [Hk' HL].
    pose proof (journal_keeps_trans _ _ _ _ Hk Hk') as Hk2.
    destruct (Z.eqb_spec rc JOURNAL_OK) as [->|Hne]; cbn [negb]; [|split; [exact Hk2 | contradiction]].
    destruct (HL eq_refl) as [Hdisk' ->]. split; [exact Hk2|]. intros _.
    eexists _, (F ++ (P ++ E)), []. split; [reflexivity|].
    split; cbn [jw_slot jw_slot_base jw_epoch jw_base_lclock jw_event_count jw_active jw_event_sector
      jw_buf_events jw_sector_buf jw_crc]; rewrite ?length_app in *; cbn [length] in *;
      rewrite ?app_nil_r; first [assumption | reflexivity | lia | idtac].
    rewrite Hcrc, crc32_app. reflexivity.
  - split; [exact Hk|]. intros _. eexists _, F, (P ++ E). split; [reflexivity|].
    split; cbn [jw_slot jw_slot_base jw_epoch jw_base_lclock jw_event_count jw_active jw_event_sector
      jw_buf_events jw_sector_buf jw_crc]; rewrite ?(length_app xs) in *; cbn [length] in *;
      first [assumption | reflexivity | lia].
Qed.

Lemma append_all_appending d0 s epoch base xs F P w d ys :
  0 <= s <= 1 -> appending d0 s epoch base xs F P w d ->
  let '(rc, d', w') := append_all st d (& w) ys in
  keeps s d0 d' /\
  (rc = JOURNAL_OK -> exists w'' F' P', w' = & w'' /\ appending d0 s epoch base (xs ++ ys) F' P' w'' d').
Proof.
  intros Hs. revert xs F P w d; induction ys as [|y ys IH]; intros xs F P w d A.
  - cbn. split; [apply A|]. intros _. exists w, F, P. rewrite app_nil_r. auto.
  - cbn [append_all]. pose proof (append_appending _ _ _ _ _ _ _ _ _ y Hs A) as H.
    destruct (journal_writer_append_len _ _ _ _ _ _ _) as [[rc d1] w1]. destruct H as [Hk H].
    destruct (Z.eqb_spec rc JOURNAL_OK) as [->|Hne]; cbn [negb]; [|split; [exact Hk | contradiction]].
    destruct (H eq_refl) as (w'' & F' & P' & -> & A'). specialize (IH _ _ _ _ _ A').
    rewrite <- app_assoc in IH. exact IH.
Qed.

(** The event sectors of a committed slot, zero-filled at the end. *)
Definition payload (epoch : Z) (xs : list input) : list byte :=
  zero_padded (Z.to_nat (512 * event_sectors_for (Z.of_nat (length xs)))) (events_bytes epoch xs).

Definition committed_header epoch base (xs : list input) : journal_slot_header_t :=
  {| jh_magic := JOURNAL_SLOT_MAGIC; jh_epoch := epoch; jh_event_count := Z.of_nat (length xs);
     jh_slot_crc := snapshot_crc32 0 (payload epoch xs); jh_base_lclock := base |}.

Definition committed_superblock s epoch (xs : list input) : journal_superblock_t :=
  seal_superblock
    {| sb_magic := JOURNAL_SB_MAGIC; sb_version := JOURNAL_FORMAT_VERSION;
       sb_active_slot := s; sb_epoch := epoch; sb_event_count := Z.of_nat (length xs);
       sb_slot_crc := snapshot_crc32 0 (payload epoch xs); sb_superblock_crc := 0; sb_reserved := 0 |}.

Record committed d (s epoch base : Z) (xs : list input) : Prop := {
  cm_slot : 0 <= s <= 1;
  cm_count : Z.of_nat (length xs) <= js_max_events st;
  cm_superblock : disk_superblock d = committed_superblock s epoch xs;
  cm_header : slot_header_of_bytes (bd_sector d (slot_lo s)) = committed_header epoch base xs;
  cm_payload : sector_run bd_sector d (slot_lo s + 1) (event_sectors_for (Z.of_nat (length xs)))
                 = payload epoch xs }.

(** After the flush of the trailing partial sector the payload is on disk. *)
Lemma commit_flush d0 s epoch base xs F P w d :
  0 <= s <= 1 -> appending d0 s epoch base xs F P w d ->
  let '(rc, d', w') :=
    if 0 <? jw_buf_events w then flush_sector st d w else (JOURNAL_OK, d, w) in
  keeps s d0 d' /\
  (rc = JOURNAL_OK ->
    sector_run bd_sector d' (slot_lo s + 1) (event_sectors_for (Z.of_nat (length xs))) = payload epoch xs /\
    jw_slot w' = s /\ jw_slot_base w' = slot_lo s /\ jw_epoch w' = epoch /\ jw_base_lclock w' = base /\
    jw_event_count w' = Z.of_nat (length xs) /\ jw_crc w' = snapshot_crc32 0 (payload epoch xs)).
Proof.
  intros Hs A. destruct (appending_sector _ _ _ _ _ _ _ _ _ A) as [Hn Hes].
  destruct A as [Hk Hsl Hb He Hlc Hc Hm Hact Hbytes HF HP Hroom Hbuf Hdisk Hcrc].
  pose proof Hk as (Hd & _ & _). destruct (event_sectors_small (Z.of_nat (length xs)) ltac:(lia)) as (Hq & Hq2 & _).
  destruct (Z.ltb_spec 0 (jw_buf_events w)) as [Hpos|Hzero].
  - assert (event_sectors_for (Z.of_nat (length xs)) = jw_event_sector w + 1) as Hes'.
    { rewrite Hq. symmetry. apply (Z.div_unique _ 16 _ (jw_buf_events w - 1)); lia. }
    pose proof (flush_run d s w F Hd Hs Hb ltac:(lia)) as HL.
    assert (length (jw_sector_buf w) = 512%nat) as Hl by (rewrite Hbuf; apply length_zero_padded; lia).
    specialize (HL Hl Hdisk). destruct (flush_sector st d w) as [[rc d'] w']. destruct HL as [Hk' HL].
    split; [eapply journal_keeps_trans; eassumption|]. intros Hrc. destruct (HL Hrc) as [Hd' ->].
    cbn [jw_slot jw_slot_base jw_epoch jw_base_lclock jw_event_count jw_crc].
    assert (F ++ jw_sector_buf w = payload epoch xs) as Hpl.
    { unfold payload. rewrite Hes', Hbytes, Hbuf. unfold zero_padded. rewrite <- app_assoc. do 3 f_equal.
      rewrite length_app. lia. }
    rewrite Hes'. split_and!; try assumption; [rewrite <- Hpl; exact Hd'|].
    rewrite Hcrc, crc32_app, Hpl. reflexivity.
  - assert (event_sectors_for (Z.of_nat (length xs)) = jw_event_sector w) as Hes'.
    { rewrite Hq. symmetry. apply (Z.div_unique _ 16 _ 15); lia. }
    split; [exact Hk|]. intros _.
    assert (F = payload epoch xs) as Hpl.
    { unfold payload. rewrite Hes', Hbytes. destruct P; [|cbn [length] in HP; lia]. rewrite app_nil_r.
      unfold zero_padded, zeros. replace (Z.to_nat _ - length F)%nat with 0%nat by lia.
      symmetry. apply app_nil_r. }
    rewrite Hes', <- Hpl. split_and!; assumption.
Qed.

Lemma length_payload epoch xs :
  Z.of_nat (length xs) <= js_max_events st ->
  Z.of_nat (length (payload epoch xs)) = 512 * event_sectors_for (Z.of_nat (length xs)).
Proof.
  intros Hm. destruct (event_sectors_small (Z.of_nat (length xs)) ltac:(lia)) as (Hq & Hq2 & _).
  pose proof (Z.mul_succ_div_gt (Z.of_nat (length xs) + 15) 16 ltac:(lia)).
  unfold payload. rewrite length_zero_padded; [lia|]. rewrite length_events_bytes. lia.
Qed.

Lemma journal_superblock_fits s epoch xs :
  0 <= s <= 1 -> fits 8 epoch -> Z.of_nat (length xs) <= js_max_events st ->
  Forall2 fits superblock_layout (superblock_fields (committed_superblock s epoch xs)).
Proof.
  intros Hs He Hm. destruct max_events_sectors as (m & Hm1 & Hm2 & Hm3).
  pose proof (crc32_range 0 (payload epoch xs)) as Hc.
  unfold committed_superblock, seal_superblock, superblock_fields.
  cbn [sb_magic sb_version sb_active_slot sb_epoch sb_slot_crc sb_event_count sb_superblock_crc sb_reserved].
  match goal with |- context [superblock_crc ?sb] =>
    generalize (journal_superblock_crc_range sb); generalize (superblock_crc sb) end.
  revert Hc. generalize (snapshot_crc32 0 (payload epoch xs)). intros c Hc crc Hb. fits_fields.
Qed.

Lemma journal_header_fits epoch base xs :
  fits 8 epoch -> fits 8 base -> Z.of_nat (length xs) <= js_max_events st ->
  Forall2 fits slot_header_layout (slot_header_fields (committed_header epoch base xs)).
Proof.
  intros He Hb Hm. destruct max_events_sectors as (m & Hm1 & Hm2 & Hm3).
  pose proof (crc32_range 0 (payload epoch xs)) as Hc. unfold slot_header_fields, committed_header.
  cbn [jh_magic jh_epoch jh_event_count jh_slot_crc jh_base_lclock].
  revert Hc. generalize (snapshot_crc32 0 (payload epoch xs)). intros c Hc. fits_fields.
Qed.

(** The superblock write over a complete slot is the commit point. *)
Lemma journal_superblock_commit d0 s epoch base xs d :
  0 <= s <= 1 -> fits 8 epoch -> Z.of_nat (length xs) <= js_max_events st ->
  keeps s d0 d -> slot_header_of_bytes (bd_sector d (slot_lo s)) = committed_header epoch base xs ->
  sector_run bd_sector d (slot_lo s + 1) (event_sectors_for (Z.of_nat (length xs))) = payload epoch xs ->
  let '(rc, d') := dev_write st d (js_base_sector st)
                     (sector_of (superblock_bytes (committed_superblock s epoch xs))) in
  (keeps s d0 d' \/ bd_inv d' /\ committed d' s epoch base xs) /\
  (rc = JOURNAL_OK -> bd_inv d' /\ committed d' s epoch base xs).
Proof.
  intros Hs He Hm Hk Hh Hp. pose proof Hk as (Hd & _ & _).
  pose proof (journal_length_superblock_sector (committed_superblock s epoch xs)) as Hls.
  destruct (dev_write_1 d _ _ Hd journal_range_superblock Hls) as (Hd' & Hf & Ha & Hw).
  destruct (dev_write st d _ _) as [rc d']. cbn in Hd', Hf, Ha, Hw.
  pose proof journal_total_small. pose proof (journal_range_header s Hs) as Rh. unfold in_range in Rh.
  pose proof (wf_slot _ _ wf). pose proof (wf_fit _ _ wf). pose proof (wf_base _ _ wf).
  destruct (event_sectors_small (Z.of_nat (length xs)) ltac:(lia)) as (_ & Hq & _).
  assert (js_base_sector st + 1 <= slot_lo s /\ slot_lo s + js_slot_sectors st <= total_sectors dev)
    as [Hlo Hhi] by (unfold slot_lo; nia).
  assert (bd_sector d' (js_base_sector st) = sector_of (superblock_bytes (committed_superblock s epoch xs))
    -> bd_inv d' /\ committed d' s epoch base xs) as Hnew.
  { intros Hs2. split; [exact Hd'|]. split; [assumption..| | |].
    - unfold disk_superblock. rewrite Hs2. apply journal_superblock_roundtrip, journal_superblock_fits; assumption.
    - rewrite Hf by lia. exact Hh.
    - rewrite <- Hp. apply (sector_run_ext dev). intros i Hi. apply Hf; lia. }
  split; [|intros Hrc; apply Hnew, Hw, Hrc].
  destruct Ha as [Ha | Ha]; [left | right; apply Hnew, Ha].
  eapply journal_keeps_trans; [exact Hk|]. split_and!; [exact Hd' | exact Ha |].
  intros s' i Hs' Hns Hi. apply Hf; unfold slot_lo in *; nia.
Qed.

Lemma commit_appending d0 s epoch base xs F P w d :
  0 <= s <= 1 -> fits 8 epoch -> fits 8 base -> appending d0 s epoch base xs F P w d ->
  let '(rc, d', _) := journal_store_commit st d (& w) in
  (keeps s d0 d' \/ bd_inv d' /\ committed d' s epoch base xs) /\
  (rc = JOURNAL_OK -> bd_inv d' /\ committed d' s epoch base xs).
Proof.
  intros Hs He Hb A. pose proof (commit_flush _ _ _ _ _ _ _ _ _ Hs A) as HF.
  unfold journal_store_commit. rewrite (ap_active _ _ _ _ _ _ _ _ _ A). cbn [negb].
  pose proof (ap_max _ _ _ _ _ _ _ _ _ A) as Hm.
  destruct (if 0 <? jw_buf_events w then _ else _) as [[rc d1] w1]. destruct HF as [Hk HF].
  destruct (Z.eqb_spec rc JOURNAL_OK) as [->|Hne]; cbn [negb]; [|split; [left; exact Hk | contradiction]].
  destruct (HF eq_refl) as (Hp & -> & -> & -> & -> & -> & ->).
  fold (committed_header epoch base xs). fold (committed_superblock s epoch xs).
  pose proof Hk as (Hd1 & _ & _).
  pose proof (journal_length_header_sector (committed_header epoch base xs)) as Hlh.
  pose proof (journal_write_keeps d1 s 0 _ Hd1 Hs Hlh) as Hk1. rewrite Z.add_0_r in Hk1.
  pose proof (wf_slot _ _ wf) as Hsl. specialize (Hk1 ltac:(lia)).
  pose proof (journal_range_header s Hs) as Rh. unfold in_range in Rh.
  destruct (dev_write_1 d1 _ _ Hd1 (journal_range_header s Hs) Hlh) as (_ & Hf & _ & Hw).
  destruct (dev_write st d1 (slot_lo s) _) as [rc1 d2]. cbn in Hk1, Hf, Hw.
  pose proof (journal_keeps_trans _ _ _ _ Hk Hk1) as Hk2.
  destruct (Z.eqb_spec rc1 JOURNAL_OK) as [->|Hne]; cbn [negb]; [|split; [left; exact Hk2 | contradiction]].
  assert (slot_header_of_bytes (bd_sector d2 (slot_lo s)) = committed_header epoch base xs) as Hh.
  { rewrite (Hw eq_refl). apply journal_slot_header_roundtrip, journal_header_fits; assumption. }
  pose proof (journal_superblock_commit d0 s epoch base xs d2 Hs He Hm Hk2 Hh) as H.
  destruct (dev_write st d2 _ _) as [rc2 d3]. apply H. rewrite <- Hp. apply (sector_run_ext dev).
  intros i Hi. destruct (event_sectors_small (Z.of_nat (length xs)) ltac:(lia)) as (_ & Hq & _).
  pose proof (wf_fit _ _ wf). pose proof (wf_base _ _ wf). apply Hf; unfold slot_lo in *; nia.
Qed.

(** *** What a load finds in a committed slot *)

Lemma event_at d s epoch base xs i x :
  bd_inv d -> fits 8 epoch -> Forall input_ok xs -> committed d s epoch base xs -> xs !! i = Some x ->
  0 <= Z.of_nat i / 16 < js_slot_sectors st - 1 /\
  event_of_bytes (drop (Z.to_nat (Z.of_nat i mod 16 * 32)) (bd_sector d (slot_lo s + 1 + Z.of_nat i / 16)))
    = event_of epoch x.
Proof.
  intros Hd He Hok [Hs Hm _ _ Hp] Hx.
  pose proof (Z.div_mod (Z.of_nat i) 16 ltac:(lia)) as Hdm.
  pose proof (Z.mod_pos_bound (Z.of_nat i) 16 ltac:(lia)) as Hmod.
  pose proof (lookup_lt_Some _ _ _ Hx) as Hi.
  destruct (event_sectors_small (Z.of_nat (length xs)) ltac:(lia)) as (Hq & Hq2 & _).
  assert (0 <= Z.of_nat i / 16 < event_sectors_for (Z.of_nat (length xs))) as Hqi.
  { split; [apply Z.div_pos; lia|]. rewrite Hq.
    pose proof (Z.mul_succ_div_gt (Z.of_nat (length xs) + 15) 16 ltac:(lia)). lia. }
  split; [lia|].
  pose proof (wf_fit _ _ wf). pose proof (wf_base _ _ wf).
  rewrite (sector_run_lookup dev d (slot_lo s + 1) (event_sectors_for (Z.of_nat (length xs)))), Hp; first last.
  { lia. } { unfold in_range, slot_lo. nia. } { assumption. }
  unfold payload, chunk, zero_padded.
  replace (Z.to_nat (Z.of_nat i / 16) * 512)%nat with (Z.to_nat (Z.of_nat i / 16) * 16 * 32)%nat by lia.
  rewrite skipn_firstn_comm, drop_drop.
  replace (Z.to_nat (Z.of_nat i / 16) * 16 * 32 + Z.to_nat (Z.of_nat i mod 16 * 32))%nat
    with (i * 32)%nat by lia.
  destruct (events_bytes_lookup epoch xs i x (zeros
    (Z.to_nat (512 * event_sectors_for (Z.of_nat (length xs))) - length (events_bytes epoch xs))) Hx)
    as [rest ->].
  pose proof (length_event_bytes (event_of epoch x)).
  replace (512 - Z.to_nat (Z.of_nat i mod 16 * 32))%nat
    with (length (event_bytes (event_of epoch x)) + (480 - Z.to_nat (Z.of_nat i mod 16 * 32)))%nat by lia.
  rewrite take_app_add. apply event_roundtrip, event_fits; [exact He|].
  eapply Forall_lookup_1; eassumption.
Qed.

Lemma read_events_committed d s epoch base xs fuel i r :
  bd_inv d -> fits 8 epoch -> Forall input_ok xs -> committed d s epoch base xs ->
  jr_slot_base r = slot_lo s -> jr_valid r = true -> jr_event_count r = Z.of_nat (length xs) ->
  jr_next_index r = Z.of_nat i -> (i + fuel = length xs)%nat ->
  jr_buf_sector r = JOURNAL_NO_SLOT \/
    jr_sector_buf r = bd_sector d (slot_lo s + 1 + jr_buf_sector r) ->
  read_events st d (& r) fuel = event_of epoch <$> drop i xs.
Proof.
  intros Hd He Hok Hcm. revert i r; induction fuel as [|fuel IH]; intros i r Hb Hv Hc Hn Hf Hbuf.
  { rewrite drop_ge by lia. reflexivity. }
  destruct (lookup_lt_is_Some_2 xs i ltac:(lia)) as [x Hx].
  destruct (event_at d s epoch base xs i x Hd He Hok Hcm Hx) as [Hq Hev].
  pose proof Hcm as [Hs Hm _ _ _]. destruct max_events_sectors as (m & Hm1 & Hm2 & Hm3).
  cbn [read_events journal_reader_next]. rewrite Hv, Hc, Hn, Hb. cbn [negb orb].
  rewrite (proj2 (Z.leb_gt _ _)) by lia.
  change JOURNAL_EVENTS_PER_SECTOR with 16. change JOURNAL_EVENT_SIZE with 32.
  rewrite slot_sector_eq by lia. rewrite (drop_S xs x i Hx), fmap_cons.
  assert (dev_read st d (slot_lo s + 1 + Z.of_nat i / 16) (jr_sector_buf r)
          = (JOURNAL_OK, bd_sector d (slot_lo s + 1 + Z.of_nat i / 16))) as ->.
  { apply journal_dev_read_ok; [assumption|]. rewrite <- Z.add_assoc. apply range_slot; lia. }
  destruct (Z.eqb_spec (jr_buf_sector r) (Z.of_nat i / 16)) as [Heq|Hne]; cbn [negb Z.eqb JOURNAL_OK].
  - destruct Hbuf as [Hno|Hbuf].
    { exfalso. unfold JOURNAL_NO_SLOT in Hno.
      pose proof (Z.div_le_upper_bound (Z.of_nat i) 16 (Z.of_nat i) ltac:(lia) ltac:(lia)). lia. }
    rewrite Heq in Hbuf. rewrite Hbuf, Hev. f_equal.
    apply IH; cbn; auto; [rewrite u32_id; lia | lia |]. right. rewrite Heq. reflexivity.
  - rewrite Hev. f_equal. apply IH; cbn; auto; [rewrite u32_id; lia | lia].
Qed.

Lemma load_committed d s j r0 :
  bd_inv d -> journal_ok j -> committed d s (ej_epoch j) (ej_base_lclock j) (ej_inputs j) ->
  journal_store_load (& st) d (& r0) =
  (JOURNAL_OK,
   & {| jr_slot_base := slot_lo s; jr_epoch := ej_epoch j;
        jr_event_count := Z.of_nat (length (ej_inputs j)); jr_next_index := 0;
        jr_buf_sector := JOURNAL_NO_SLOT; jr_sector_buf := zeros (Z.to_nat JOURNAL_SECTOR_SIZE);
        jr_valid := true |}).
Proof.
  intros Hd (He & Hb & Hok) Hcm. pose proof Hcm as [Hs Hm Hsb Hh Hp].
  destruct (event_sectors_small (Z.of_nat (length (ej_inputs j))) ltac:(lia)) as (_ & Hq & _).
  unfold journal_store_load. rewrite (wf_init _ _ wf). cbn [negb].
  rewrite journal_read_superblock_ok, Hsb by assumption.
  assert (superblock_valid (committed_superblock s (ej_epoch j) (ej_inputs j)) = true) as ->.
  { unfold superblock_valid, committed_superblock. rewrite journal_superblock_crc_seal.
    cbn [seal_superblock sb_magic sb_superblock_crc]. rewrite !Z.eqb_refl. reflexivity. }
  cbn [negb Z.eqb JOURNAL_OK committed_superblock seal_superblock sb_active_slot sb_epoch sb_event_count sb_slot_crc].
  rewrite (proj2 (Z.eqb_neq s _)) by (unfold JOURNAL_NO_SLOT; lia).
  rewrite journal_slot_base_eq, journal_dev_read_ok by first [assumption | apply journal_range_header; assumption].
  rewrite Hh. cbn [negb Z.eqb JOURNAL_OK committed_header jh_magic jh_epoch jh_event_count jh_slot_crc].
  rewrite !Z.eqb_refl. cbn [negb orb].
  rewrite crc_sectors_run by first [assumption | lia]. cbn [negb Z.eqb JOURNAL_OK].
  rewrite Z2Nat.id, Z.add_0_r, Hp, !Z.eqb_refl by lia. reflexivity.
Qed.

Lemma journal_view_committed d s j :
  bd_inv d -> journal_ok j -> committed d s (ej_epoch j) (ej_base_lclock j) (ej_inputs j) ->
  journal_view st d = stored j.
Proof.
  intros Hd Hok Hcm. unfold journal_view. rewrite (load_committed d s j) by assumption.
  cbn -[read_events]. rewrite Nat2Z.id. unfold stored. do 2 f_equal. destruct Hok as (He & Hb & Hok).
  rewrite (read_events_committed d s (ej_epoch j) (ej_base_lclock j) (ej_inputs j) _ 0);
    cbn [jr_slot_base jr_valid jr_event_count jr_next_index jr_buf_sector]; auto.
Qed.

Lemma appending_start d s epoch base :
  bd_inv d -> 0 <= s <= 1 ->
  appending d s epoch base [] [] []
    {| jw_slot := s; jw_slot_base := slot_lo s; jw_epoch := epoch; jw_base_lclock := base;
       jw_event_count := 0; jw_crc := 0; jw_buf_events := 0; jw_event_sector := 0;
       jw_sector_buf := zeros (Z.to_nat JOURNAL_SECTOR_SIZE); jw_active := true |} d.
Proof.
  intros Hd Hs. destruct max_events_sectors as (m & Hm & Hm1 & Hm2).
  split; cbn [jw_slot jw_slot_base jw_epoch jw_base_lclock jw_event_count jw_crc jw_buf_events
    jw_event_sector jw_sector_buf jw_active length]; try reflexivity; try lia.
  apply journal_keeps_refl. exact Hd.
Qed.

Lemma begin_ok d epoch base :
  bd_inv d ->
  journal_store_begin (& st) d epoch base (& writer_none) =
    (JOURNAL_OK,
     & {| jw_slot := inactive_slot d; jw_slot_base := slot_lo (inactive_slot d); jw_epoch := epoch;
          jw_base_lclock := base; jw_event_count := 0; jw_crc := 0; jw_buf_events := 0;
          jw_event_sector := 0; jw_sector_buf := zeros (Z.to_nat JOURNAL_SECTOR_SIZE);
          jw_active := true |}).
Proof.
  intros Hd. unfold journal_store_begin. rewrite (wf_init _ _ wf). cbn [negb].
  pose proof (begin_target d Hd) as Ht. destruct (read_superblock st d) as [rc sb]. rewrite Ht.
  rewrite journal_slot_base_eq by apply journal_inactive_slot_range. reflexivity.
Qed.

Lemma committed_sane d s epoch base xs : committed d s epoch base xs -> sane d.
Proof.
  intros [Hs Hm Hsb _ _] _. right. rewrite Hsb.
  cbn [committed_superblock seal_superblock sb_active_slot sb_event_count]. lia.
Qed.

Lemma keeps_sane s d d' : keeps s d d' -> sane d -> sane d'.
Proof. intros (_ & Hb & _). unfold sane, disk_superblock. rewrite Hb. auto. Qed.

Lemma record_spec d j :
  journal_inv d -> journal_ok j ->
  let '(rc, d') := record_epoch st d j in
  journal_inv d' /\
  (keeps (inactive_slot d) d d' \/
   committed d' (inactive_slot d) (ej_epoch j) (ej_base_lclock j) (ej_inputs j)) /\
  (rc = JOURNAL_OK -> committed d' (inactive_slot d) (ej_epoch j) (ej_base_lclock j) (ej_inputs j)).
Proof.
  intros [Hd Hsane] (He & Hb & Hok). unfold record_epoch. rewrite begin_ok by assumption.
  cbn [Z.eqb JOURNAL_OK negb]. pose proof (journal_inactive_slot_range d) as Hs.
  pose proof (appending_start d (inactive_slot d) (ej_epoch j) (ej_base_lclock j) Hd Hs) as A.
  pose proof (append_all_appending _ _ _ _ _ _ _ _ _ (ej_inputs j) Hs A) as H. cbn [app] in H.
  destruct (append_all _ _ _ _) as [[rc d1] w1]. destruct H as [Hk H].
  assert (forall d', keeps (inactive_slot d) d d' -> journal_inv d') as Hki.
  { intros d' Hk'. split; [apply Hk' | eapply keeps_sane; eassumption]. }
  destruct (Z.eqb_spec rc JOURNAL_OK) as [->|Hne]; cbn [negb];
    [|split_and!; [apply Hki; exact Hk | left; exact Hk | contradiction]].
  destruct (H eq_refl) as (w'' & F & P & -> & A').
  pose proof (commit_appending _ _ _ _ _ _ _ _ _ Hs He Hb A') as Hc.
  destruct (journal_store_commit _ _ _) as [[rc2 d2] w2]. destruct Hc as [Hor Hrc].
  split_and!.
  - destruct Hor as [Hk2 | [Hi Hc]]; [apply Hki; exact Hk2|].
    split; [exact Hi | eapply committed_sane; exact Hc].
  - destruct Hor as [Hk2 | [Hi Hc]]; [left; exact Hk2 | right; exact Hc].
  - intros Hr. apply Hrc, Hr.
Qed.

(** *** On a device without I/O errors a journal that fits is recorded *)
Lemma journal_dev_write_reliable `{!ReliableDevice dev} d s bs :
  bd_inv d -> in_range dev s 1 -> length bs = 512%nat -> (dev_write st d s bs).1 = JOURNAL_OK.
Proof.
  intros Hd Hr Hb. unfold dev_write. rewrite (wf_dev _ _ wf), bd_write_eq.
  pose proof (bd_write_zero d s 1 bs Hd Hr Hb) as H. destruct (bd_write d s 1 bs) as [rc d'].
  cbn in *. rewrite H. reflexivity.
Qed.

Lemma flush_reliable `{!ReliableDevice dev} d s w :
  bd_inv d -> 0 <= s <= 1 -> jw_slot_base w = slot_lo s ->
  0 <= jw_event_sector w < js_slot_sectors st - 1 -> length (jw_sector_buf w) = 512%nat ->
  (flush_sector st d w).1.1 = JOURNAL_OK.
Proof.
  intros Hd Hs Hb Hi Hl. unfold flush_sector. rewrite Hb, slot_sector_eq by lia.
  replace (slot_lo s + 1 + jw_event_sector w) with (slot_lo s + (1 + jw_event_sector w)) by lia.
  pose proof (journal_dev_write_reliable d _ _ Hd (range_slot s (1 + jw_event_sector w) Hs ltac:(lia)) Hl) as H.
  destruct (dev_write st d _ _) as [rc d']. cbn in H. subst rc. reflexivity.
Qed.

Lemma append_reliable `{!ReliableDevice dev} d0 s epoch base xs F P w d x :
  0 <= s <= 1 -> appending d0 s epoch base xs F P w d -> Z.of_nat (length xs) < js_max_events st ->
  (journal_writer_append_len st d (& w) (in_type x) (in_lclock x) (in_value x) (in_len x)).1.1 = JOURNAL_OK.
Proof.
  intros Hs A Hlt. destruct (appending_sector _ _ _ _ _ _ _ _ _ A) as [Hn Hes].
  destruct A as [Hk Hsl Hb He Hlc Hc Hm Hact Hbytes HF HP Hroom Hbuf Hdisk Hcrc].
  destruct max_events_sectors as (m & Hm1 & Hm2 & Hm3). pose proof Hk as (Hd & _ & _).
  unfold journal_writer_append_len. rewrite Hact, Hc, He. cbn [negb].
  rewrite (proj2 (Z.leb_gt _ _)) by lia. cbn [jw_buf_events].
  change JOURNAL_EVENTS_PER_SECTOR with 16. change JOURNAL_EVENT_SIZE with 32.
  rewrite !u32_id by lia. fold (event_of epoch x).
  replace (jw_buf_events w * 32) with (Z.of_nat (length P)) by lia.
  pose proof (length_event_bytes (event_of epoch x)) as Hle.
  rewrite Hbuf, buf_put_zero_padded by lia.
  destruct (Z.eqb_spec (jw_buf_events w + 1) 16) as [Hfull|Hnf]; [|reflexivity].
  match goal with |- context [flush_sector st d ?w1] =>
    pose proof (flush_reliable d s w1 Hd Hs) as HL end.
  cbn [jw_slot_base jw_event_sector jw_sector_buf] in HL.
  specialize (HL Hb ltac:(lia) (length_zero_padded 512 (P ++ event_bytes (event_of epoch x)) ltac:(rewrite length_app; lia))).
  destruct (flush_sector st d _) as [[rc d'] w']. cbn in HL. subst rc. reflexivity.
Qed.

Lemma append_all_reliable `{!ReliableDevice dev} d0 s epoch base xs F P w d ys :
  0 <= s <= 1 -> appending d0 s epoch base xs F P w d ->
  Z.of_nat (length xs + length ys) <= js_max_events st ->
  (append_all st d (& w) ys).1.1 = JOURNAL_OK.
Proof.
  intros Hs. revert xs F P w d; induction ys as [|y ys IH]; intros xs F P w d A Hl; [reflexivity|].
  cbn [length] in Hl. cbn [append_all]. pose proof (append_appending _ _ _ _ _ _ _ _ _ y Hs A) as H.
  pose proof (append_reliable _ _ _ _ _ _ _ _ _ y Hs A ltac:(lia)) as Hrc.
  destruct (journal_writer_append_len _ _ _ _ _ _ _) as [[rc d1] w1]. cbn in Hrc. subst rc.
  destruct H as [_ H]. destruct (H eq_refl) as (w'' & F' & P' & -> & A').
  cbn [negb Z.eqb JOURNAL_OK]. eapply IH; [exact A'|]. rewrite length_app. cbn [length]. lia.
Qed.

Lemma journal_commit_reliable `{!ReliableDevice dev} d0 s epoch base xs F P w d :
  0 <= s <= 1 -> appending d0 s epoch base xs F P w d ->
  (journal_store_commit st d (& w)).1.1 = JOURNAL_OK.
Proof.
  intros Hs A. pose proof (commit_flush _ _ _ _ _ _ _ _ _ Hs A) as HF.
  destruct (appending_sector _ _ _ _ _ _ _ _ _ A) as [Hn Hes].
  unfold journal_store_commit. rewrite (ap_active _ _ _ _ _ _ _ _ _ A). cbn [negb].
  pose proof (ap_max _ _ _ _ _ _ _ _ _ A) as Hm. pose proof (ap_keeps _ _ _ _ _ _ _ _ _ A) as (Hd & _ & _).
  destruct max_events_sectors as (m & Hm1 & Hm2 & Hm3).
  assert ((if 0 <? jw_buf_events w then flush_sector st d w else (JOURNAL_OK, d, w)).1.1 = JOURNAL_OK) as Hrc.
  { destruct (Z.ltb_spec 0 (jw_buf_events w)) as [Hpos|]; [|reflexivity].
    pose proof (ap_pending _ _ _ _ _ _ _ _ _ A). pose proof (ap_room _ _ _ _ _ _ _ _ _ A).
    apply (flush_reliable d s w Hd Hs (ap_base _ _ _ _ _ _ _ _ _ A)); [lia|].
    rewrite (ap_buf _ _ _ _ _ _ _ _ _ A). apply length_zero_padded. lia. }
  destruct (if 0 <? jw_buf_events w then _ else _) as [[rc d1] w1]. cbn in Hrc. subst rc.
  destruct HF as [Hk HF]. destruct (HF eq_refl) as (_ & _ & -> & _). cbn [negb Z.eqb JOURNAL_OK].
  pose proof Hk as (Hd1 & _ & _).
  match goal with |- context [slot_header_bytes ?h] => pose proof (journal_length_header_sector h) as Hlh end.
  pose proof (journal_dev_write_reliable d1 _ _ Hd1 (journal_range_header s Hs) Hlh) as H1.
  destruct (dev_write_1 d1 _ _ Hd1 (journal_range_header s Hs) Hlh) as (Hd2 & _).
  destruct (dev_write st d1 (slot_lo s) _) as [rc1 d2]. cbn in H1, Hd2. subst rc1.
  cbn [negb Z.eqb JOURNAL_OK].
  match goal with |- context [superblock_bytes ?sb] => pose proof (journal_length_superblock_sector sb) as Hls end.
  pose proof (journal_dev_write_reliable d2 _ _ Hd2 journal_range_superblock Hls) as H2.
  destruct (dev_write st d2 _ _) as [rc2 d3]. exact H2.
Qed.

Lemma record_reliable `{!ReliableDevice dev} d j :
  bd_inv d -> Z.of_nat (length (ej_inputs j)) <= js_max_events st ->
  (record_epoch st d j).1 = JOURNAL_OK.
Proof.
  intros Hd Hl. unfold record_epoch. rewrite begin_ok by assumption. cbn [Z.eqb JOURNAL_OK negb].
  pose proof (journal_inactive_slot_range d) as Hs.
  pose proof (appending_start d (inactive_slot d) (ej_epoch j) (ej_base_lclock j) Hd Hs) as A.
  pose proof (append_all_appending _ _ _ _ _ _ _ _ _ (ej_inputs j) Hs A) as H.
  pose proof (append_all_reliable _ _ _ _ _ _ _ _ _ (ej_inputs j) Hs A Hl) as Hrc.
  destruct (append_all _ _ _ _) as [[rc d1] w1]. cbn in Hrc. subst rc. destruct H as [_ H].
  destruct (H eq_refl) as (w'' & F & P & -> & A'). cbn [negb Z.eqb JOURNAL_OK].
  pose proof (journal_commit_reliable _ _ _ _ _ _ _ _ _ Hs A') as Hc.
  destruct (journal_store_commit _ _ _) as [[rc2 d2] w2]. exact Hc.
Qed.
End proofs.

(** ** The contract: a crash-atomic store *)
#[export] Instance journal_atomic_store {D} (dev : fat_block_device_t D) `{!BlockDevice dev}
    (st : journal_store_t D) (wf : store_wf dev st) :
  AtomicStore (journal_inv (st := st)) journal_ok (record_epoch st) (journal_view st) stored.
Proof.
  split; intros d j Hd Hok; pose proof (record_spec wf d j Hd Hok) as H;
    destruct (record_epoch st d j) as [rc d']; destruct H as (Hd' & Hor & Hrc); cbn.
  - exact Hd'.
  - destruct Hor as [Hk | Hc]; [left | right].
    + apply (journal_view_keeps wf); assumption.
    + apply (journal_view_committed wf _ _ _ (proj1 Hd') Hok Hc).
  - intros ->. apply (journal_view_committed wf _ _ _ (proj1 Hd') Hok (Hrc eq_refl)).
Qed.

Definition example_journal {D} (dev : fat_block_device_t D) : journal_store_t D :=
  {| js_dev := & dev; js_base_sector := 100; js_slot_sectors := 3; js_max_events := 32;
     js_initialized := true |}.
Definition example_inputs (n : nat) : list input :=
  (fun i => {| in_type := JOURNAL_EV_TIMER; in_lclock := i; in_value := i * i; in_len := 0 |})
    <$> seqZ 0 (Z.of_nat n).
Definition example_epoch (n : nat) : epoch_journal :=
  {| ej_epoch := 9; ej_base_lclock := 1; ej_inputs := example_inputs n |}.

Lemma example_journal_wf : store_wf ramdisk_device (example_journal ramdisk_device).
Proof. split; cbn; try reflexivity; unfold RAMDISK_TOTAL_SECTORS; lia. Qed.
Lemma example_cut_journal_wf :
  store_wf (cut_device ramdisk_device) (example_journal (cut_device ramdisk_device)).
Proof. split; cbn; try reflexivity; unfold RAMDISK_TOTAL_SECTORS; lia. Qed.

Lemma example_epoch_ok n : Z.of_nat n <= 32 -> journal_ok (example_epoch n).
Proof.
  intros Hn. split_and!; cbn; unfold fits; [lia..|]. apply Forall_fmap, Forall_forall.
  intros i Hi%elem_of_seqZ. unfold input_ok. cbn. unfold fits, JOURNAL_EV_TIMER. nia.
Qed.

Lemma ramdisk_fresh_sane : journal_inv (st := example_journal ramdisk_device) ramdisk_fresh.
Proof.
  split; [exact ramdisk_fresh_inv|]. unfold sane, disk_superblock.
  change (bd_sector ramdisk_fresh _) with (ramdisk_sector ramdisk_fresh 100).
  rewrite ramdisk_fresh_sector by (unfold RAMDISK_TOTAL_SECTORS; lia). discriminate.
Qed.

Lemma cut_fresh_sane n :
  journal_inv (st := example_journal (cut_device ramdisk_device)) (n, ramdisk_fresh).
Proof.
  split; [exact ramdisk_fresh_inv|]. unfold sane, disk_superblock.
  change (bd_sector (n, ramdisk_fresh) _) with (ramdisk_sector ramdisk_fresh 100).
  rewrite ramdisk_fresh_sector by (unfold RAMDISK_TOTAL_SECTORS; lia). discriminate.
Qed.

(** C23: on a device whose reads succeed (else see [journal_read_error_loses]),
    whichever write fails while an epoch's inputs are recorded (a flush, the
    slot header or the superblock, by an I/O error or a power cut inside it),
    a later load finds either the previous journal or the complete new one,
    and the new one if the session reported success. *)
Theorem record_epoch_atomic {D} (dev : fat_block_device_t D) `{!BlockDevice dev}
    (st : journal_store_t D) (d : D) (j : epoch_journal) :
  store_wf dev st -> journal_inv (st := st) d -> journal_ok j ->
  let '(rc, d') := record_epoch st d j in
  journal_inv (st := st) d' /\
  (journal_view st d' = journal_view st d \/ journal_view st d' = stored j) /\
  (rc = JOURNAL_OK -> journal_view st d' = stored j).
Proof.
  intros wf Hd Hok. pose proof (journal_atomic_store dev st wf) as A.
  pose proof (publish_inv d j Hd Hok) as H0.
  pose proof (publish_atomic d j Hd Hok) as H1. pose proof (publish_durable d j Hd Hok) as H2.
  destruct (record_epoch st d j) as [rc d']. split_and!; assumption.
Qed.

(** Twenty events, and a power cut between the two flushed sectors. *)
Lemma record_epoch_atomic_witness :
  let st := example_journal (cut_device ramdisk_device) in
  let '(rc, d') := record_epoch st (1, ramdisk_fresh) (example_epoch 20) in
  journal_inv (st := st) d' /\
  (journal_view st d' = journal_view st (1, ramdisk_fresh) \/ journal_view st d' = stored (example_epoch 20)) /\
  (rc = JOURNAL_OK -> journal_view st d' = stored (example_epoch 20)).
Proof.
  apply (record_epoch_atomic (cut_device ramdisk_device) (example_journal (cut_device ramdisk_device))
           (1, ramdisk_fresh) (example_epoch 20)).
  - exact example_cut_journal_wf.
  - exact (cut_fresh_sane 1).
  - apply example_epoch_ok. lia.
Defined.

(** C24: on a device without I/O errors every epoch of at most [max_events]
    inputs is recorded and acknowledged, and reading the journal back yields
    its epoch and exactly the recorded events, in order, through the
    sixteen-event sector buffering of both sides. *)
Theorem record_load_roundtrip {D} (dev : fat_block_device_t D) `{!BlockDevice dev, !ReliableDevice dev}
    (st : journal_store_t D) (d : D) (j : epoch_journal) :
  store_wf dev st -> journal_inv (st := st) d -> journal_ok j ->
  Z.of_nat (length (ej_inputs j)) <= js_max_events st ->
  (record_epoch st d j).1 = JOURNAL_OK /\
  journal_view st (record_epoch st d j).2 = inr (ej_epoch j, event_of (ej_epoch j) <$> ej_inputs j).
Proof.
  intros wf Hd Hok Hl. pose proof (record_reliable wf d j (proj1 Hd) Hl) as Hrc.
  pose proof (journal_atomic_store dev st wf) as A. split; [exact Hrc|].
  exact (publish_durable d j Hd Hok Hrc).
Qed.

Lemma record_load_roundtrip_witness :
  let st := example_journal ramdisk_device in
  (record_epoch st ramdisk_fresh (example_epoch 20)).1 = JOURNAL_OK /\
  journal_view st (record_epoch st ramdisk_fresh (example_epoch 20)).2
    = inr (9, event_of 9 <$> example_inputs 20).
Proof.
  apply (record_load_roundtrip ramdisk_device (example_journal ramdisk_device) ramdisk_fresh (example_epoch 20)).
  - exact example_journal_wf.
  - exact ramdisk_fresh_sane.
  - apply example_epoch_ok. lia.
  - vm_compute. discriminate.
Defined.

(** When the superblock cannot be read [journal_store_begin] chooses slot 0,
    the active one here: the first flushed sector destroys the journal. *)
Lemma journal_read_error_loses :
  let st := example_journal flaky_device in
  let d1 := (record_epoch st flaky_fresh (example_epoch 20)).2 in
  let w := (journal_store_begin (& st) (failing d1) 10 1 (& writer_none)).2 in
  journal_view st d1 = stored (example_epoch 20) /\
  journal_view st (append_all st d1 w (reverse (example_inputs 16))).1.2 = inl JOURNAL_ERR_CRC.
Proof. vm_compute. split; reflexivity. Qed.
