(* ===== verification/KeyframeRing.v ===== *)
(** * The keyframe retention ring (kernel/keyframe_ring.c)

    Which of the last N checkpoints are retained, in which region each one
    lives, and how the index is packed with its CRC for the disk. *)
From Stdlib Require Import ZArith Lia.
From S2P Require Import Prelude.
From S2P Require Import Crc32.
Open Scope Z_scope.
Open Scope c_scope.

Definition KEYFRAME_RING_MAX : Z := 64.
Definition KEYFRAME_RING_OK : Z := 0.
Definition KEYFRAME_RING_ERR_PARAM : Z := -1.
Definition KEYFRAME_RING_ERR_CRC : Z := -2.
Definition KEYFRAME_RING_ERR_SIZE : Z := -3.

Record keyframe_slot_t := { ks_epoch : Z; ks_valid : Z; ks_reserved : Z }.

Record keyframe_ring_t := {
  kr_capacity : Z;
  kr_count : Z;
  kr_head : Z;
  kr_reserved : Z;
  kr_reclaimed_valid : Z;
  kr_reserved2 : Z;
  kr_reclaimed_epoch : Z;
  kr_slots : list keyframe_slot_t }.

Definition slot_zero : keyframe_slot_t := {| ks_epoch := 0; ks_valid := 0; ks_reserved := 0 |}.

(** [r->slots[i]] *)
Definition slot_at (r : keyframe_ring_t) (i : Z) : keyframe_slot_t := zget slot_zero (kr_slots r) i.
Definition slot_valid (r : keyframe_ring_t) (i : Z) : bool := negb (ks_valid (slot_at r i) =? 0).

Definition keyframe_ring_init (r : ptr keyframe_ring_t) (capacity : Z) : Z * ptr keyframe_ring_t :=
  match r with
  | NULL => (KEYFRAME_RING_ERR_PARAM, r)
  | Some _ =>
      if (capacity =? 0) || (KEYFRAME_RING_MAX <? capacity) then (KEYFRAME_RING_ERR_PARAM, r)
      else
        (KEYFRAME_RING_OK,
         & {| kr_capacity := capacity; kr_count := 0; kr_head := 0; kr_reserved := 0;
              kr_reclaimed_valid := 0; kr_reserved2 := 0; kr_reclaimed_epoch := 0;
              kr_slots := replicate (Z.to_nat KEYFRAME_RING_MAX) slot_zero |})
  end.

Definition keyframe_ring_advance (r : ptr keyframe_ring_t) (epoch : Z) : Z * ptr keyframe_ring_t :=
  match r with
  | NULL => (0, r)
  | Some k =>
      if kr_capacity k =? 0 then (0, r)
      else
        let slot := kr_head k in
        (slot,
         & {| kr_capacity := kr_capacity k;
              kr_count := if kr_count k <? kr_capacity k then u32 (kr_count k + 1) else kr_count k;
              kr_head := u32 (kr_head k + 1) mod kr_capacity k;
              kr_reserved := kr_reserved k;
              kr_reclaimed_valid := ks_valid (slot_at k slot);
              kr_reserved2 := kr_reserved2 k;
              kr_reclaimed_epoch := if slot_valid k slot then ks_epoch (slot_at k slot) else 0;
              kr_slots := zset slot {| ks_epoch := epoch; ks_valid := 1;
                                       ks_reserved := ks_reserved (slot_at k slot) |} (kr_slots k) |})
  end.

(** The indices the scans visit: [for (i = 0; i < r->capacity; i++)]. *)
Definition ring_indices (r : keyframe_ring_t) : list Z := seqZ 0 (kr_capacity r).

(** [found], [best_slot] and [best] as an option: one iteration of the scan. *)
Definition find_step (r : keyframe_ring_t) (target : Z) (acc : option (Z * Z)) (i : Z) : option (Z * Z) :=
  if negb (slot_valid r i) then acc
  else
    let e := ks_epoch (slot_at r i) in
    if (e <=? target) && match acc with None => true | Some (_, best) => best <? e end
    then Some (i, e) else acc.

(** [true] with [*slot_out] and [*epoch_out] filled is [Some]. *)
Definition keyframe_ring_find (r : ptr keyframe_ring_t) (target : Z) : option (Z * Z) :=
  match r with
  | NULL => None
  | Some k => foldl (find_step k target) None (ring_indices k)
  end.

Definition extreme_step (better : Z -> Z -> bool) (r : keyframe_ring_t) (acc : option Z) (i : Z) : option Z :=
  if negb (slot_valid r i) then acc
  else
    let e := ks_epoch (slot_at r i) in
    match acc with
    | None => Some e
    | Some best => if better e best then Some e else acc
    end.

Definition keyframe_ring_oldest (r : ptr keyframe_ring_t) : option Z :=
  match r with
  | NULL => None
  | Some k =>
      if kr_count k =? 0 then None
      else foldl (extreme_step (fun e best => e <? best) k) None (ring_indices k)
  end.

Definition keyframe_ring_newest (r : ptr keyframe_ring_t) : option Z :=
  match r with
  | NULL => None
  | Some k =>
      if kr_count k =? 0 then None
      else foldl (extreme_step (fun e best => best <? e) k) None (ring_indices k)
  end.

Definition keyframe_ring_reclaimed (r : ptr keyframe_ring_t) : option Z :=
  match r with
  | NULL => None
  | Some k => if kr_reclaimed_valid k =? 0 then None else Some (kr_reclaimed_epoch k)
  end.

Definition keyframe_ring_count (r : ptr keyframe_ring_t) : Z :=
  match r with Some k => kr_count k | NULL => 0 end.

(** ** Persistence: the struct's bytes followed by their CRC *)
Definition ring_header_layout : list nat := [4; 4; 4; 4; 4; 4; 8]%nat.
Definition slot_layout : list nat := [8; 4; 4]%nat.
(** [sizeof(keyframe_ring_t)] *)
Definition ring_sizeof : Z := 32 + KEYFRAME_RING_MAX * 16.

Definition slot_fields (s : keyframe_slot_t) : list Z := [ks_epoch s; ks_valid s; ks_reserved s].
Definition slot_bytes (s : keyframe_slot_t) : list byte := pack slot_layout (slot_fields s).
Definition slot_of_bytes (bs : list byte) : keyframe_slot_t :=
  let f := unpack slot_layout bs in
  {| ks_epoch := field 0 f; ks_valid := field 1 f; ks_reserved := field 2 f |}.

Definition ring_header_fields (r : keyframe_ring_t) : list Z :=
  [kr_capacity r; kr_count r; kr_head r; kr_reserved r; kr_reclaimed_valid r; kr_reserved2 r;
   kr_reclaimed_epoch r].
Definition ring_bytes (r : keyframe_ring_t) : list byte :=
  pack ring_header_layout (ring_header_fields r) ++ mjoin (slot_bytes <$> kr_slots r).
Definition ring_of_bytes (bs : list byte) : keyframe_ring_t :=
  let f := unpack ring_header_layout bs in
  {| kr_capacity := field 0 f; kr_count := field 1 f; kr_head := field 2 f; kr_reserved := field 3 f;
     kr_reclaimed_valid := field 4 f; kr_reserved2 := field 5 f; kr_reclaimed_epoch := field 6 f;
     kr_slots := (fun i => slot_of_bytes (chunk 16 (drop 32 bs) i)) <$> seqZ 0 KEYFRAME_RING_MAX |}.

Definition keyframe_ring_packed_size : Z := ring_sizeof + 4.

(** The packed bytes go to the start of [buf]; [buflen] is its length. *)
Definition keyframe_ring_pack (r : ptr keyframe_ring_t) (buf : ptr (list byte)) (buflen : Z)
  : Z * ptr (list byte) :=
  match r, buf with
  | Some k, Some b =>
      let need := keyframe_ring_packed_size in
      if buflen <? need then (KEYFRAME_RING_ERR_SIZE, buf)
      else
        let crc := keyframe_ring_crc32 0 (ring_bytes k) in
        (need, & (ring_bytes k ++ le_split 4 crc ++ drop (Z.to_nat need) b))
  | _, _ => (KEYFRAME_RING_ERR_PARAM, buf)
  end.

Definition keyframe_ring_unpack (r : ptr keyframe_ring_t) (buf : ptr (list byte)) (buflen : Z)
  : Z * ptr keyframe_ring_t :=
  match r, buf with
  | Some _, Some p =>
      let need := keyframe_ring_packed_size in
      if buflen <? need then (KEYFRAME_RING_ERR_SIZE, r)
      else
        let image := take (Z.to_nat ring_sizeof) p in
        let tmp := ring_of_bytes image in
        let stored := le_combine (take 4 (drop (Z.to_nat ring_sizeof) p)) in
        if negb (keyframe_ring_crc32 0 image =? stored) then (KEYFRAME_RING_ERR_CRC, r)
        else if (kr_capacity tmp =? 0) || (KEYFRAME_RING_MAX <? kr_capacity tmp)
        then (KEYFRAME_RING_ERR_PARAM, r)
        else (KEYFRAME_RING_OK, & tmp)
  | _, _ => (KEYFRAME_RING_ERR_PARAM, r)
  end.
