(* ===== verification/KeyframeRingSpec.v ===== *)
(** * The retention ring is the window of the last N keyframes *)
From Stdlib Require Import ZArith Lia.
From S2P Require Import Prelude.
From S2P Require Import Crc32.
From S2P Require Import KeyframeRing.
Open Scope Z_scope.
Open Scope c_scope.

(** ** The abstract window *)

(** The last [cap] elements of a history of epochs, oldest first. *)
Definition window (cap : nat) (es : list Z) : list Z := drop (length es - cap) es.

Definition held (e : Z) : keyframe_slot_t := {| ks_epoch := e; ks_valid := 1; ks_reserved := 0 |}.

(** The ring after the history [es]: entry [k] of the history, while it is in
    the window, sits in slot [k mod cap]. *)
Record ring_models (r : keyframe_ring_t) (cap : nat) (es : list Z) : Prop := {
  rm_cap : kr_capacity r = Z.of_nat cap;
  rm_cap_range : (1 <= cap <= 64)%nat;
  rm_slots : length (kr_slots r) = 64%nat;
  rm_head : kr_head r = Z.of_nat (length es) mod Z.of_nat cap;
  rm_count : kr_count r = Z.min (Z.of_nat (length es)) (Z.of_nat cap);
  rm_held k e : (length es - cap <= k)%nat -> es !! k = Some e ->
    slot_at r (Z.of_nat k mod Z.of_nat cap) = held e;
  rm_empty i : Z.of_nat (length es) <= i < Z.of_nat cap -> slot_at r i = slot_zero }.

Lemma mod_distinct c k n : 0 < n - k < c -> k mod c <> n mod c.
Proof.
  intros H Heq. assert ((n - k) mod c = 0) as H0.
  { rewrite Zminus_mod, Heq, Z.sub_diag. apply Z.mod_0_l. lia. }
  rewrite Z.mod_small in H0 by lia. lia.
Qed.

(** ** Every slot, read through the model *)
Section model.
Context {r : keyframe_ring_t} {cap : nat} {es : list Z} (M : ring_models r cap es).

Lemma window_held e : e ∈ window cap es -> exists i, 0 <= i < Z.of_nat cap /\ slot_at r i = held e.
Proof.
  intros [k Hk]%list_elem_of_lookup_1. unfold window in Hk. rewrite lookup_drop in Hk.
  exists (Z.of_nat (length es - cap + k) mod Z.of_nat cap). split.
  - apply Z.mod_pos_bound. destruct M. lia.
  - apply (rm_held _ _ _ M); [lia | exact Hk].
Qed.

Lemma slot_index i :
  0 <= i < Z.of_nat cap ->
  slot_at r i = slot_zero \/
  exists k e, (length es - cap <= k)%nat /\ es !! k = Some e /\ Z.of_nat k mod Z.of_nat cap = i /\
    slot_at r i = held e.
Proof.
  intros Hi. destruct (decide (Z.of_nat (length es) <= i)) as [|Hlt].
  { left. apply (rm_empty _ _ _ M). lia. }
  right. remember (Z.of_nat (length es - cap)) as lo eqn:Hlo. pose proof (rm_cap_range _ _ _ M).
  pose proof (Z.mod_pos_bound (i - lo) (Z.of_nat cap) ltac:(lia)) as Hb.
  assert ((lo + (i - lo) mod Z.of_nat cap) mod Z.of_nat cap = i) as Hmod.
  { rewrite Zplus_mod_idemp_r. replace (lo + (i - lo)) with i by lia. apply Z.mod_small. lia. }
  assert (lo + (i - lo) mod Z.of_nat cap < Z.of_nat (length es)) as Hk.
  { destruct (decide (length es <= cap)%nat); [|lia].
    replace lo with 0 in * by lia. rewrite Z.sub_0_r in *. rewrite Z.mod_small by lia. lia. }
  remember (Z.to_nat (lo + (i - lo) mod Z.of_nat cap)) as k eqn:Hkeq.
  replace (lo + (i - lo) mod Z.of_nat cap) with (Z.of_nat k) in Hmod, Hk by lia.
  destruct (lookup_lt_is_Some_2 es k ltac:(lia)) as [e He].
  exists k, e. split_and!; [lia | exact He | exact Hmod |].
  rewrite <- Hmod. apply (rm_held _ _ _ M); [lia | exact He].
Qed.

Lemma slot_cases i :
  0 <= i < Z.of_nat cap ->
  slot_at r i = slot_zero \/ exists e, e ∈ window cap es /\ slot_at r i = held e.
Proof.
  intros Hi. destruct (slot_index i Hi) as [|(k & e & Hk & He & _ & Hs)]; [left; assumption | right].
  exists e. split; [|exact Hs]. apply (list_elem_of_lookup_2 _ (k - (length es - cap))).
  unfold window. rewrite lookup_drop. rewrite <- He. f_equal. lia.
Qed.

Lemma held_valid i e : slot_at r i = held e -> slot_valid r i = true.
Proof. unfold slot_valid. intros ->. reflexivity. Qed.
Lemma zero_valid i : slot_at r i = slot_zero -> slot_valid r i = false.
Proof. unfold slot_valid. intros ->. reflexivity. Qed.

(** What the scan for [target] has established over the visited indices. *)
Definition found_best (target : Z) (l : list Z) (acc : option (Z * Z)) : Prop :=
  match acc with
  | None => forall i e, i ∈ l -> slot_at r i = held e -> target < e
  | Some (i, e) => i ∈ l /\ slot_at r i = held e /\ e <= target /\
      forall i' e', i' ∈ l -> slot_at r i' = held e' -> e' <= target -> e' <= e
  end.

Lemma find_scan target l :
  (forall i, i ∈ l -> 0 <= i < Z.of_nat cap) ->
  found_best target l (foldl (find_step r target) None l).
Proof.
  induction l as [|j l IH] using rev_ind; intros Hl.
  { intros i e []%not_elem_of_nil. }
  assert (0 <= j < Z.of_nat cap) as Hj by (apply Hl; set_solver).
  specialize (IH ltac:(set_solver)). rewrite foldl_app. cbn [foldl].
  set (acc := foldl _ None l) in *. unfold find_step.
  destruct (slot_cases j Hj) as [Hz | (e & He & Hs)].
  - rewrite (zero_valid j Hz). cbn [negb]. destruct acc as [[i b]|]; cbn in *.
    + destruct IH as (H1 & H2 & H3 & H4). split_and!; [set_solver|assumption..|].
      intros i' e' [Hi'| ->%list_elem_of_singleton]%elem_of_app Hh; [eauto|]. rewrite Hz in Hh. discriminate.
    + intros i' e' [Hi'| ->%list_elem_of_singleton]%elem_of_app Hh; [eauto|]. rewrite Hz in Hh. discriminate.
  - rewrite (held_valid j e Hs), Hs. cbn [negb held ks_epoch].
    destruct (Z.leb_spec e target) as [Hle|Hgt]; cbn [andb].
    + destruct acc as [[i b]|]; cbn in *.
      * destruct IH as (H1 & H2 & H3 & H4). destruct (Z.ltb_spec b e) as [Hbe|Hbe].
        -- split_and!; [set_solver|assumption..|].
           intros i' e' [Hi'| ->%list_elem_of_singleton]%elem_of_app Hh Ht.
           ++ specialize (H4 i' e' Hi' Hh Ht). lia.
           ++ rewrite Hs in Hh. injection Hh as ->. lia.
        -- split_and!; [set_solver|assumption..|].
           intros i' e' [Hi'| ->%list_elem_of_singleton]%elem_of_app Hh Ht; [eauto|].
           rewrite Hs in Hh. injection Hh as ->. lia.
      * split_and!; [set_solver|assumption..|].
        intros i' e' [Hi'| ->%list_elem_of_singleton]%elem_of_app Hh Ht.
        -- specialize (IH i' e' Hi' Hh). lia.
        -- rewrite Hs in Hh. injection Hh as ->. lia.
    + destruct acc as [[i b]|]; cbn in *.
      * destruct IH as (H1 & H2 & H3 & H4). split_and!; [set_solver|assumption..|].
        intros i' e' [Hi'| ->%list_elem_of_singleton]%elem_of_app Hh Ht; [eauto|].
        rewrite Hs in Hh. injection Hh as ->. lia.
      * intros i' e' [Hi'| ->%list_elem_of_singleton]%elem_of_app Hh; [eauto|].
        rewrite Hs in Hh. injection Hh as ->. lia.
Qed.

Lemma ring_indices_range i : i ∈ ring_indices r <-> 0 <= i < Z.of_nat cap.
Proof. unfold ring_indices. rewrite elem_of_seqZ, (rm_cap _ _ _ M). lia. Qed.

(** The nearest retained keyframe at or before the target. *)
Lemma find_window target :
  match keyframe_ring_find (& r) target with
  | Some (i, e) => e ∈ window cap es /\ e <= target /\ 0 <= i < Z.of_nat cap /\ slot_at r i = held e /\
      forall e', e' ∈ window cap es -> e' <= target -> e' <= e
  | None => forall e', e' ∈ window cap es -> target < e'
  end.
Proof.
  cbn [keyframe_ring_find].
  pose proof (find_scan target (ring_indices r) (fun i => proj1 (ring_indices_range i))) as H.
  destruct (foldl _ None _) as [[i e]|]; cbn in H.
  - destruct H as (H1 & H2 & H3 & H4). apply ring_indices_range in H1. split_and!; try assumption; try lia.
    + destruct (slot_cases i H1) as [Hz | (e' & He' & Hs)];
        [rewrite Hz in H2; discriminate|].
      rewrite H2 in Hs. injection Hs as ->. exact He'.
    + intros e' He' Ht. destruct (window_held e' He') as (i' & Hi' & Hs').
      apply (H4 i'); [apply ring_indices_range; exact Hi' | exact Hs' | exact Ht].
  - intros e' He'. destruct (window_held e' He') as (i' & Hi' & Hs').
    apply (H i'); [apply ring_indices_range; exact Hi' | exact Hs'].
Qed.

(** The scan for an extreme, for the two strict orders the code uses. *)
Definition extreme_of (better : Z -> Z -> bool) (l : list Z) (acc : option Z) : Prop :=
  match acc with
  | None => forall i e, i ∈ l -> slot_at r i <> held e
  | Some b => (exists i, i ∈ l /\ slot_at r i = held b) /\
      forall i e, i ∈ l -> slot_at r i = held e -> better e b = false
  end.

Lemma extreme_scan better l :
  (forall a, better a a = false) ->
  (forall a b c, better a b = true -> better c b = false -> better c a = false) ->
  (forall i, i ∈ l -> 0 <= i < Z.of_nat cap) ->
  extreme_of better l (foldl (extreme_step better r) None l).
Proof.
  intros Hirr Htr. induction l as [|j l IH] using rev_ind; intros Hl.
  { intros i e []%not_elem_of_nil. }
  assert (0 <= j < Z.of_nat cap) as Hj by (apply Hl; set_solver).
  specialize (IH ltac:(set_solver)). rewrite foldl_app. cbn [foldl].
  set (acc := foldl _ None l) in *. unfold extreme_step.
  destruct (slot_cases j Hj) as [Hz | (e & He & Hs)].
  - rewrite (zero_valid j Hz). cbn [negb]. destruct acc as [b|]; cbn in *.
    + destruct IH as [(i & Hi & Hb) H2]. split; [exists i; set_solver|].
      intros i' e' [Hi'| ->%list_elem_of_singleton]%elem_of_app Hh; [eauto|].
      rewrite Hz in Hh. discriminate.
    + intros i' e' [Hi'| ->%list_elem_of_singleton]%elem_of_app Hh; [eapply IH; eauto|].
      rewrite Hz in Hh. discriminate.
  - rewrite (held_valid j e Hs), Hs. cbn [negb held ks_epoch]. destruct acc as [b|]; cbn in *.
    + destruct IH as [(i & Hi & Hb) H2]. destruct (better e b) eqn:Hbe.
      * split; [exists j; set_solver|].
        intros i' e' [Hi'| ->%list_elem_of_singleton]%elem_of_app Hh; [eauto|].
        rewrite Hs in Hh. injection Hh as ->. apply Hirr.
      * split; [exists i; set_solver|].
        intros i' e' [Hi'| ->%list_elem_of_singleton]%elem_of_app Hh; [eauto|].
        rewrite Hs in Hh. injection Hh as ->. exact Hbe.
    + split; [exists j; set_solver|].
      intros i' e' [Hi'| ->%list_elem_of_singleton]%elem_of_app Hh; [destruct (IH _ _ Hi' Hh)|].
      rewrite Hs in Hh. injection Hh as ->. apply Hirr.
Qed.

Lemma extreme_window better :
  (forall a, better a a = false) ->
  (forall a b c, better a b = true -> better c b = false -> better c a = false) ->
  match foldl (extreme_step better r) None (ring_indices r) with
  | Some b => b ∈ window cap es /\ forall e, e ∈ window cap es -> better e b = false
  | None => window cap es = []
  end.
Proof.
  intros Hirr Htr.
  pose proof (extreme_scan better (ring_indices r) Hirr Htr (fun i => proj1 (ring_indices_range i))) as H.
  destruct (foldl _ None _) as [b|]; cbn in H.
  - destruct H as [(i & Hi & Hb) H2]. apply ring_indices_range in Hi. split.
    + destruct (slot_cases i Hi) as [Hz | (e' & He' & Hs)]; [rewrite Hz in Hb; discriminate|].
      rewrite Hs in Hb. injection Hb as ->. exact He'.
    + intros e He. destruct (window_held e He) as (i' & Hi' & Hs').
      apply (H2 i'); [apply ring_indices_range; exact Hi' | exact Hs'].
  - destruct (window cap es) as [|e l] eqn:Hw; [reflexivity|].
    destruct (window_held e) as (i' & Hi' & Hs'); [rewrite Hw; set_solver|].
    destruct (H i' e); [apply ring_indices_range; exact Hi' | exact Hs'].
Qed.

Lemma count_zero : kr_count r = 0 <-> window cap es = [].
Proof.
  destruct M as [_ Hc _ _ Hn _ _]. rewrite Hn. unfold window. split.
  - intros H. destruct es; [apply drop_nil | cbn [length] in H; lia].
  - intros H%(f_equal length). rewrite length_drop in H. cbn in H. lia.
Qed.

Lemma oldest_window :
  match keyframe_ring_oldest (& r) with
  | Some b => b ∈ window cap es /\ forall e, e ∈ window cap es -> b <= e
  | None => window cap es = []
  end.
Proof.
  cbn [keyframe_ring_oldest]. destruct (Z.eqb_spec (kr_count r) 0) as [Hz|Hnz]; [apply count_zero, Hz|].
  pose proof (extreme_window (fun e best => e <? best)) as H. cbn beta in H.
  specialize (H Z.ltb_irrefl). destruct (foldl _ None _).
  - destruct H as [H1 H2]; [intros a b c Hab Hcb; zbool; apply Z.ltb_ge; lia|].
    split; [exact H1|]. intros e He. specialize (H2 e He). zbool. lia.
  - apply H. intros a b c Hab Hcb; zbool; apply Z.ltb_ge; lia.
Qed.

Lemma newest_window :
  match keyframe_ring_newest (& r) with
  | Some b => b ∈ window cap es /\ forall e, e ∈ window cap es -> e <= b
  | None => window cap es = []
  end.
Proof.
  cbn [keyframe_ring_newest]. destruct (Z.eqb_spec (kr_count r) 0) as [Hz|Hnz]; [apply count_zero, Hz|].
  pose proof (extreme_window (fun e best => best <? e)) as H. cbn beta in H.
  specialize (H Z.ltb_irrefl). destruct (foldl _ None _).
  - destruct H as [H1 H2]; [intros a b c Hab Hcb; zbool; apply Z.ltb_ge; lia|].
    split; [exact H1|]. intros e He. specialize (H2 e He). zbool. lia.
  - apply H. intros a b c Hab Hcb; zbool; apply Z.ltb_ge; lia.
Qed.
End model.

(** ** The operations keep the model *)
Lemma init_models r0 cap :
  (1 <= cap <= 64)%nat ->
  exists r, keyframe_ring_init (& r0) (Z.of_nat cap) = (KEYFRAME_RING_OK, & r) /\ ring_models r cap [].
Proof.
  intros Hc. unfold keyframe_ring_init. rewrite (proj2 (Z.eqb_neq _ 0)) by lia.
  rewrite (proj2 (Z.ltb_ge _ _)) by (unfold KEYFRAME_RING_MAX; lia). cbn [orb].
  eexists. split; [reflexivity|].
  assert (forall i, slot_at {| kr_capacity := Z.of_nat cap; kr_count := 0; kr_head := 0; kr_reserved := 0;
     kr_reclaimed_valid := 0; kr_reserved2 := 0; kr_reclaimed_epoch := 0;
     kr_slots := replicate (Z.to_nat KEYFRAME_RING_MAX) slot_zero |} i = slot_zero) as Hz.
  { intros i. unfold slot_at, zget. cbn [kr_slots]. rewrite nth_lookup.
    destruct (replicate _ _ !! _) eqn:H; [|reflexivity]. apply lookup_replicate in H as [-> _]. reflexivity. }
  split; cbn [kr_capacity kr_count kr_head kr_slots length]; try reflexivity; try lia; auto.
  intros k e _ He. rewrite lookup_nil in He. discriminate.
Qed.

Lemma advance_models r cap es e :
  ring_models r cap es ->
  exists r', keyframe_ring_advance (& r) e = (Z.of_nat (length es) mod Z.of_nat cap, & r') /\
    ring_models r' cap (es ++ [e]) /\
    keyframe_ring_reclaimed (& r') = if decide (cap <= length es)%nat then es !! (length es - cap)%nat else None.
Proof.
  intros M. pose proof M as [Hcap Hr Hsl Hhead Hcount Hheld Hempty].
  set (n := Z.of_nat (length es)) in *. set (c := Z.of_nat cap) in *.
  pose proof (Z.mod_pos_bound n c ltac:(lia)) as Hm.
  unfold keyframe_ring_advance. rewrite Hcap, Hcount, Hhead, (proj2 (Z.eqb_neq c 0)) by lia.
  eexists. split; [reflexivity|].
  assert (forall i, 0 <= i < c -> ks_reserved (slot_at r i) = 0) as Hres.
  { intros i Hi. destruct (slot_cases M i Hi) as [-> | (e' & _ & ->)]; reflexivity. }
  split.
  - assert (forall v i, 0 <= i -> zget slot_zero (zset (n mod c) v (kr_slots r)) i
      = if n mod c =? i then v else slot_at r i) as Hget.
    { intros v i Hi. apply zget_zset; lia. }
    split; cbn [kr_capacity kr_count kr_head kr_slots];
      rewrite ?length_zset, ?length_app; cbn [length]; try assumption; try reflexivity.
    + rewrite u32_id by lia. rewrite Zplus_mod_idemp_l. f_equal. lia.
    + fold c n. destruct (Z.ltb_spec (Z.min n c) c); [rewrite u32_id by lia|]; lia.
    + intros k e' Hk He'. fold c. pose proof (Z.mod_pos_bound (Z.of_nat k) c ltac:(lia)).
      unfold slot_at at 1. cbn [kr_slots].
      rewrite Hget, Hres by lia. apply lookup_snoc_Some in He' as [[Hlt He'] | [-> ->]].
      * rewrite (proj2 (Z.eqb_neq _ _)); [apply Hheld; [lia | exact He']|].
        apply not_eq_sym, mod_distinct. lia.
      * fold n. rewrite Z.eqb_refl. reflexivity.
    + intros i Hi. fold c in Hi. unfold slot_at at 1. cbn [kr_slots]. rewrite Hget by lia. rewrite (proj2 (Z.eqb_neq _ _)).
      * apply Hempty. lia.
      * rewrite Z.mod_small by lia. lia.
  - cbn [keyframe_ring_reclaimed kr_reclaimed_valid kr_reclaimed_epoch]. unfold slot_valid.
    case_decide as Hfull.
    + destruct (lookup_lt_is_Some_2 es (length es - cap)%nat ltac:(lia)) as [old Hold]. rewrite Hold.
      replace (slot_at r (n mod c)) with (held old); [reflexivity|]. symmetry.
      rewrite <- (Hheld _ _ ltac:(reflexivity) Hold). f_equal. fold c.
      replace (Z.of_nat (length es - cap)) with (n + (-1) * c) by lia. rewrite Z.mod_add by lia. reflexivity.
    + rewrite Z.mod_small by lia. rewrite Hempty by lia. reflexivity.
Qed.

(** A history of checkpoints: each claims the ring's next slot. *)
Definition advance_all (r : ptr keyframe_ring_t) (es : list Z) : ptr keyframe_ring_t :=
  foldl (fun r e => (keyframe_ring_advance r e).2) r es.

Lemma advance_all_models r cap es0 es :
  ring_models r cap es0 -> exists r', advance_all (& r) es = & r' /\ ring_models r' cap (es0 ++ es).
Proof.
  revert r es0; induction es as [|e es IH]; intros r es0 M.
  - exists r. rewrite app_nil_r. auto.
  - destruct (advance_models r cap es0 e M) as (r' & Ha & M' & _).
    destruct (IH r' _ M') as (r'' & Hr & M''). exists r''. rewrite <- app_assoc in M''. split; [|exact M''].
    cbn [advance_all foldl]. rewrite Ha. exact Hr.
Qed.

(** ** The packed index *)
Record ring_fits (r : keyframe_ring_t) : Prop := {
  rf_header : Forall2 fits ring_header_layout (ring_header_fields r);
  rf_slots : Forall (fun s => Forall2 fits slot_layout (slot_fields s)) (kr_slots r);
  rf_length : length (kr_slots r) = 64%nat }.

Lemma length_slot_bytes s : length (slot_bytes s) = 16%nat.
Proof. unfold slot_bytes. rewrite length_pack by done. reflexivity. Qed.

Lemma length_ring_bytes r : length (kr_slots r) = 64%nat -> Z.of_nat (length (ring_bytes r)) = ring_sizeof.
Proof.
  intros H. unfold ring_bytes. rewrite length_app, (length_mjoin_const _ 16), H.
  - rewrite length_pack by done. reflexivity.
  - intros. apply length_slot_bytes.
Qed.

(** Slot [i] of the image. *)
Lemma chunk_slots l i s :
  l !! i = Some s -> chunk 16 (mjoin (slot_bytes <$> l)) (Z.of_nat i) = slot_bytes s.
Proof.
  revert i; induction l as [|x l IH]; intros i Hi; [discriminate|].
  rewrite fmap_cons. change (mjoin (slot_bytes x :: (slot_bytes <$> l)))
    with (slot_bytes x ++ mjoin (slot_bytes <$> l)).
  unfold chunk in *. rewrite Nat2Z.id in *. pose proof (length_slot_bytes x) as Hx.
  destruct i as [|i]; cbn [lookup list_lookup] in Hi.
  - injection Hi as ->. rewrite Nat.mul_0_l, drop_0. apply take_app_length'. exact Hx.
  - specialize (IH i Hi). rewrite Nat2Z.id in IH. rewrite <- IH. reflexivity.
Qed.

Lemma slot_roundtrip s : Forall2 fits slot_layout (slot_fields s) -> slot_of_bytes (slot_bytes s) = s.
Proof.
  intros H. unfold slot_of_bytes, slot_bytes.
  rewrite <- (app_nil_r (pack slot_layout (slot_fields s))), unpack_pack by done.
  destruct s; reflexivity.
Qed.

Lemma ring_image_roundtrip r : ring_fits r -> ring_of_bytes (ring_bytes r) = r.
Proof.
  intros [Hh Hs Hl]. unfold ring_of_bytes, ring_bytes.
  rewrite unpack_pack by assumption.
  rewrite drop_app_length' by (rewrite length_pack by done; reflexivity).
  replace ((fun i => slot_of_bytes (chunk 16 (mjoin (slot_bytes <$> kr_slots r)) i)) <$> seqZ 0 KEYFRAME_RING_MAX)
    with (kr_slots r); [destruct r; reflexivity|].
  apply list_eq. intros i. rewrite list_lookup_fmap.
  destruct (decide (i < 64)%nat) as [Hi|Hi].
  - destruct (lookup_lt_is_Some_2 (kr_slots r) i ltac:(lia)) as [s Hsi]. rewrite Hsi.
    rewrite lookup_seqZ_lt by (unfold KEYFRAME_RING_MAX; lia). cbn [fmap option_fmap option_map].
    rewrite Z.add_0_l, (chunk_slots _ _ s Hsi). f_equal. symmetry. apply slot_roundtrip.
    exact (Forall_lookup_1 _ _ _ _ Hs Hsi).
  - rewrite (proj2 (lookup_ge_None _ _)) by lia. rewrite lookup_seqZ_ge by (unfold KEYFRAME_RING_MAX; lia).
    reflexivity.
Qed.

Lemma init_fits r0 cap r :
  keyframe_ring_init (& r0) cap = (KEYFRAME_RING_OK, & r) -> 0 <= cap -> ring_fits r.
Proof.
  unfold keyframe_ring_init. destruct (Z.eqb_spec cap 0), (Z.ltb_spec KEYFRAME_RING_MAX cap); try discriminate.
  cbn [orb]. intros [= <-] Hc. unfold KEYFRAME_RING_MAX in *. split.
  - unfold ring_header_fields. cbn [kr_capacity kr_count kr_head kr_reserved kr_reclaimed_valid
      kr_reserved2 kr_reclaimed_epoch]. fits_fields.
  - cbn [kr_slots]. apply (Forall_replicate _ 64 slot_zero). unfold slot_fields, slot_zero. cbn [ks_epoch ks_valid ks_reserved]. fits_fields.
  - reflexivity.
Qed.

Lemma advance_fits r e :
  ring_fits r -> fits 8 e -> 1 <= kr_capacity r <= 64 -> 0 <= kr_count r <= kr_capacity r ->
  0 <= kr_head r < kr_capacity r ->
  forall s r', keyframe_ring_advance (& r) e = (s, & r') -> ring_fits r'.
Proof.
  intros [Hh Hs Hl] He Hc Hn Hd s r'. unfold keyframe_ring_advance.
  rewrite (proj2 (Z.eqb_neq _ 0)) by lia. intros [= <- <-].
  assert (Forall2 fits slot_layout (slot_fields (slot_at r (kr_head r)))) as Hslot.
  { unfold slot_at, zget. rewrite nth_lookup.
    destruct (kr_slots r !! Z.to_nat (kr_head r)) as [x|] eqn:Hx; cbn [default from_option].
    - exact (Forall_lookup_1 _ _ _ _ Hs Hx).
    - exfalso. apply lookup_ge_None in Hx. lia. }
  unfold slot_fields in Hslot. repeat (apply Forall2_cons in Hslot as [? Hslot]).
  unfold ring_header_fields in Hh. repeat (apply Forall2_cons in Hh as [? Hh]). split.
  - unfold ring_header_fields. cbn [kr_capacity kr_count kr_head kr_reserved kr_reclaimed_valid
      kr_reserved2 kr_reclaimed_epoch].
    rewrite u32_id by lia. pose proof (Z.mod_pos_bound (kr_head r + 1) (kr_capacity r) ltac:(lia)).
    destruct (Z.ltb_spec (kr_count r) (kr_capacity r)), (slot_valid r (kr_head r));
      rewrite ?u32_id by lia; fits_fields.
  - cbn [kr_slots]. apply Forall_insert; [exact Hs|]. unfold slot_fields. cbn [ks_epoch ks_valid ks_reserved].
    fits_fields.
  - cbn [kr_slots]. rewrite length_zset. exact Hl.
Qed.

(** Every ring reached from a fresh one by recording 64-bit epochs. *)
Lemma history_fits r cap es0 es :
  ring_models r cap es0 -> ring_fits r -> Forall (fits 8) es ->
  exists r', advance_all (& r) es = & r' /\ ring_models r' cap (es0 ++ es) /\ ring_fits r'.
Proof.
  revert r es0; induction es as [|e es IH]; intros r es0 M F He.
  - exists r. rewrite app_nil_r. auto.
  - apply Forall_cons in He as [He Hes]. destruct (advance_models r cap es0 e M) as (r' & Ha & M' & _).
    pose proof M as [Hcap Hr Hsl Hhead Hcount _ _].
    pose proof (Z.mod_pos_bound (Z.of_nat (length es0)) (Z.of_nat cap) ltac:(lia)).
    pose proof (advance_fits r e F He ltac:(lia) ltac:(lia) ltac:(lia) _ _ Ha) as F'.
    destruct (IH r' _ M' F' Hes) as (r'' & Hr' & M'' & F''). exists r''. rewrite <- app_assoc in M''.
    split; [|split; assumption]. cbn [advance_all foldl]. rewrite Ha. exact Hr'.
Qed.

Lemma pack_unpack_fits r r1 buf :
  ring_fits r -> 1 <= kr_capacity r <= 64 -> keyframe_ring_packed_size <= Z.of_nat (length buf) ->
  exists buf', keyframe_ring_pack (& r) (& buf) (Z.of_nat (length buf)) = (keyframe_ring_packed_size, & buf') /\
    length buf' = length buf /\
    drop (Z.to_nat keyframe_ring_packed_size) buf' = drop (Z.to_nat keyframe_ring_packed_size) buf /\
    keyframe_ring_unpack (& r1) (& buf') (Z.of_nat (length buf)) = (KEYFRAME_RING_OK, & r).
Proof.
  intros F Hcap Hlen. unfold keyframe_ring_pack. rewrite (proj2 (Z.ltb_ge _ _)) by lia.
  pose proof (length_ring_bytes r (rf_length _ F)) as Hl. eexists. split; [reflexivity|].
  assert (Z.of_nat (length (ring_bytes r ++ le_split 4 (keyframe_ring_crc32 0 (ring_bytes r))))
          = keyframe_ring_packed_size) as Hpk.
  { rewrite length_app, length_le_split. unfold keyframe_ring_packed_size. lia. }
  split; [|split].
  - rewrite app_assoc, length_app, length_drop. lia.
  - rewrite app_assoc, drop_app_length' by lia. reflexivity.
  - unfold keyframe_ring_unpack. rewrite (proj2 (Z.ltb_ge _ _)) by lia.
    rewrite take_app_length', drop_app_length' by lia.
    rewrite take_app_length' by (symmetry; apply length_le_split).
    rewrite le_combine_split. change (2 ^ (Z.of_nat 4 * 8)) with (2 ^ 32).
    rewrite keyframe_ring_crc32_eq, Z.mod_small by apply crc32_range. rewrite Z.eqb_refl. cbn [negb].
    rewrite ring_image_roundtrip by exact F.
    rewrite (proj2 (Z.eqb_neq _ 0)) by lia.
    rewrite (proj2 (Z.ltb_ge _ _)) by (unfold KEYFRAME_RING_MAX; lia). reflexivity.
Qed.

(** ** Properties *)

(** After any history of checkpoints, the ring of capacity N retains
    exactly the last N epochs: the count, the rewind horizon (oldest), the
    newest, and for every target the nearest retained epoch at or before it,
    in the slot that holds it. *)
Theorem ring_retains_window (r0 : keyframe_ring_t) (cap : nat) (es : list Z) (target : Z) :
  (1 <= cap <= 64)%nat ->
  let r := advance_all (keyframe_ring_init (& r0) (Z.of_nat cap)).2 es in
  let w := window cap es in
  keyframe_ring_count r = Z.of_nat (length w) /\
  match keyframe_ring_find r target with
  | Some (i, e) => e ∈ w /\ e <= target /\ (forall e', e' ∈ w -> e' <= target -> e' <= e) /\
      0 <= i < Z.of_nat cap /\ exists k, r = & k /\ slot_at k i = held e
  | None => forall e', e' ∈ w -> target < e'
  end /\
  match keyframe_ring_oldest r with
  | Some b => b ∈ w /\ forall e, e ∈ w -> b <= e
  | None => w = []
  end /\
  match keyframe_ring_newest r with
  | Some b => b ∈ w /\ forall e, e ∈ w -> e <= b
  | None => w = []
  end.
Proof.
  intros Hc. destruct (init_models r0 cap Hc) as (k0 & -> & M0). cbn [snd].
  destruct (advance_all_models k0 cap [] es M0) as (k & -> & M). cbn [app] in M. cbv zeta.
  split; [|split; [|split]].
  - cbn [keyframe_ring_count]. rewrite (rm_count _ _ _ M). unfold window. rewrite length_drop. lia.
  - pose proof (find_window M target) as H. destruct (keyframe_ring_find (& k) target) as [[i e]|]; [|exact H].
    destruct H as (H1 & H2 & H3 & H4 & H5). split_and!; try assumption; try lia. exists k. auto.
  - exact (oldest_window M).
  - exact (newest_window M).
Qed.

Definition example_ring : keyframe_ring_t :=
  {| kr_capacity := 0; kr_count := 0; kr_head := 0; kr_reserved := 0; kr_reclaimed_valid := 0;
     kr_reserved2 := 0; kr_reclaimed_epoch := 0; kr_slots := [] |}.

Lemma ring_retains_window_witness :
  let r := advance_all (keyframe_ring_init (& example_ring) 3).2 [10; 20; 30; 40] in
  keyframe_ring_count r = 3 /\ keyframe_ring_find r 35 = Some (2, 30) /\
  keyframe_ring_oldest r = Some 20.
Proof.
  pose proof (ring_retains_window example_ring 3 [10; 20; 30; 40] 35 ltac:(lia)) as (H1 & _).
  split; [exact H1|]. split; vm_compute; reflexivity.
Defined.

(** Recording one more checkpoint claims the slot after the last one and
    reclaims exactly the epoch that falls out of the window, if it is full. *)
Theorem ring_advance_evicts (r0 : keyframe_ring_t) (cap : nat) (es : list Z) (e : Z) :
  (1 <= cap <= 64)%nat ->
  let r := advance_all (keyframe_ring_init (& r0) (Z.of_nat cap)).2 es in
  let '(slot, r') := keyframe_ring_advance r e in
  slot = Z.of_nat (length es) mod Z.of_nat cap /\
  keyframe_ring_reclaimed r' = (if decide (cap <= length es)%nat then es !! (length es - cap)%nat else None) /\
  exists k, r' = & k /\ slot_at k slot = held e.
Proof.
  intros Hc. destruct (init_models r0 cap Hc) as (k0 & -> & M0). cbn [snd].
  destruct (advance_all_models k0 cap [] es M0) as (k & -> & M). cbn [app] in M. cbv zeta.
  destruct (advance_models k cap es e M) as (k' & -> & M' & Hr). split; [reflexivity|]. split; [exact Hr|].
  exists k'. split; [reflexivity|]. apply (rm_held _ _ _ M'); [rewrite length_app; cbn; lia|].
  apply list_lookup_middle. reflexivity.
Qed.

Lemma ring_advance_evicts_witness :
  let '(slot, r') := keyframe_ring_advance (advance_all (keyframe_ring_init (& example_ring) 3).2 [10; 20; 30]) 40 in
  slot = 0 /\ keyframe_ring_reclaimed r' = Some 10 /\ exists k, r' = & k /\ slot_at k slot = held 40.
Proof. exact (ring_advance_evicts example_ring 3 [10; 20; 30] 40 ltac:(lia)). Defined.

(** A ring index built from any history of 64-bit epochs survives being
    packed into a buffer and unpacked again, unchanged. *)
Theorem ring_pack_unpack (r0 r1 : keyframe_ring_t) (cap : nat) (es : list Z) (buf : list byte) :
  (1 <= cap <= 64)%nat -> Forall (fits 8) es -> keyframe_ring_packed_size <= Z.of_nat (length buf) ->
  let r := advance_all (keyframe_ring_init (& r0) (Z.of_nat cap)).2 es in
  let '(rc, buf') := keyframe_ring_pack r (& buf) (Z.of_nat (length buf)) in
  rc = keyframe_ring_packed_size /\ fmap length buf' = Some (length buf) /\
  keyframe_ring_unpack (& r1) buf' (Z.of_nat (length buf)) = (KEYFRAME_RING_OK, r).
Proof.
  intros Hc He Hlen. destruct (init_models r0 cap Hc) as (k0 & Hi & M0).
  pose proof (init_fits r0 _ k0 Hi ltac:(lia)) as F0. rewrite Hi. cbn [snd].
  destruct (history_fits k0 cap [] es M0 F0 He) as (k & -> & M & F). cbn [app] in M. cbv zeta.
  destruct M as [Hcap Hr _ _ _ _ _].
  destruct (pack_unpack_fits k r1 buf F ltac:(lia) Hlen) as (buf' & -> & Hl & _ & Hu).
  split; [reflexivity|]. split; [cbn; f_equal; exact Hl | exact Hu].
Qed.

Lemma ring_pack_unpack_witness :
  let r := advance_all (keyframe_ring_init (& example_ring) 3).2 [10; 20; 30; 40] in
  let buf := zeros 2048 in
  let '(rc, buf') := keyframe_ring_pack r (& buf) (Z.of_nat (length buf)) in
  rc = keyframe_ring_packed_size /\ fmap length buf' = Some (length buf) /\
  keyframe_ring_unpack (& example_ring) buf' (Z.of_nat (length buf)) = (KEYFRAME_RING_OK, r).
Proof.
  apply (ring_pack_unpack example_ring example_ring 3 [10; 20; 30; 40] (zeros 2048)); [lia| |].
  - repeat apply Forall_cons_2; try apply Forall_nil_2; unfold fits; lia.
  - rewrite length_zeros. vm_compute. discriminate.
Defined.
