(* ===== verification/KeyframeStore.v ===== *)
(** * The keyframe retention store (kernel/keyframe_store.c)

    N independent snapshot-store regions behind a persisted ring index: a
    checkpoint is written to the region the ring will claim next, committed
    there, and only then folded into the ring and the index.  The [region]
    field is the scratch store every operation re-points; a snapshot writer
    keeps a pointer to it, so the functions of [SnapshotStore] are applied to
    the value it has at the time of the call. *)
From Stdlib Require Import ZArith Lia.
From S2P Require Import Prelude.
From S2P Require Import BlockDevice.
From S2P Require Import SnapshotStore.
From S2P Require Import KeyframeRing.
Open Scope Z_scope.
Open Scope c_scope.

Definition KEYFRAME_STORE_INDEX_MAX_SECTORS : Z := 4.
Definition KEYFRAME_STORE_OK : Z := 0.
Definition KEYFRAME_STORE_ERR_PARAM : Z := -1.
Definition KEYFRAME_STORE_ERR_IO : Z := -2.
Definition KEYFRAME_STORE_ERR_CRC : Z := -3.
Definition KEYFRAME_STORE_ERR_NO_KEYFRAME : Z := -4.
Definition KEYFRAME_STORE_ERR_STATE : Z := -5.

Record keyframe_store_t (D : Type) := {
  kf_dev : ptr (fat_block_device_t D);
  kf_base_sector : Z;
  kf_index_sectors : Z;
  kf_capacity : Z;
  kf_region_slot_sectors : Z;
  kf_region_sectors : Z;
  kf_kernel_version : Z;
  kf_ring : keyframe_ring_t;
  kf_region : snapshot_store_t D;
  kf_initialized : bool }.
Arguments kf_dev {D}. Arguments kf_base_sector {D}. Arguments kf_index_sectors {D}.
Arguments kf_capacity {D}. Arguments kf_region_slot_sectors {D}. Arguments kf_region_sectors {D}.
Arguments kf_kernel_version {D}. Arguments kf_ring {D}. Arguments kf_region {D}.
Arguments kf_initialized {D}.

Section keyframes.
Context {D : Type}.
Implicit Types (ks : keyframe_store_t D) (d : D).

Definition set_ring ks (r : keyframe_ring_t) : keyframe_store_t D :=
  {| kf_dev := kf_dev ks; kf_base_sector := kf_base_sector ks; kf_index_sectors := kf_index_sectors ks;
     kf_capacity := kf_capacity ks; kf_region_slot_sectors := kf_region_slot_sectors ks;
     kf_region_sectors := kf_region_sectors ks; kf_kernel_version := kf_kernel_version ks;
     kf_ring := r; kf_region := kf_region ks; kf_initialized := kf_initialized ks |}.
Definition set_region ks (st : snapshot_store_t D) : keyframe_store_t D :=
  {| kf_dev := kf_dev ks; kf_base_sector := kf_base_sector ks; kf_index_sectors := kf_index_sectors ks;
     kf_capacity := kf_capacity ks; kf_region_slot_sectors := kf_region_slot_sectors ks;
     kf_region_sectors := kf_region_sectors ks; kf_kernel_version := kf_kernel_version ks;
     kf_ring := kf_ring ks; kf_region := st; kf_initialized := kf_initialized ks |}.

(** The pointee of a pointer that is not NULL. *)
Definition deref {A} (dflt : A) (p : ptr A) : A := match p with Some x => x | NULL => dflt end.

(** *** Sector I/O for the index *)
Definition idx_read ks d (sector : Z) : Z * list byte :=
  match kf_dev ks with
  | NULL => (KEYFRAME_STORE_ERR_IO, [])
  | Some dv =>
      match read_sectors dv with
      | NULL => (KEYFRAME_STORE_ERR_IO, [])
      | Some rd =>
          let '(rc, buf) := rd d sector 1 in
          ((if rc =? 0 then KEYFRAME_STORE_OK else KEYFRAME_STORE_ERR_IO), buf)
      end
  end.

Definition idx_write ks d (sector : Z) (buf : list byte) : Z * D :=
  match kf_dev ks with
  | NULL => (KEYFRAME_STORE_ERR_IO, d)
  | Some dv =>
      match write_sectors dv with
      | NULL => (KEYFRAME_STORE_ERR_IO, d)
      | Some wr =>
          let '(rc, d') := wr d sector 1 buf in
          ((if rc =? 0 then KEYFRAME_STORE_OK else KEYFRAME_STORE_ERR_IO), d')
      end
  end.

Definition region_base ks (slot : Z) : Z :=
  u32 (kf_base_sector ks + kf_index_sectors ks + u32 (slot * kf_region_sectors ks)).

Definition region_open ks (slot : Z) : Z * keyframe_store_t D :=
  let '(rc, st) := snapshot_store_init (& (kf_region ks)) (kf_dev ks) (region_base ks slot)
                     (kf_region_slot_sectors ks) in
  let ks := set_region ks (deref (kf_region ks) st) in
  if negb (rc =? SNAPSHOT_OK) then (KEYFRAME_STORE_ERR_PARAM, ks)
  else
    let st := snapshot_store_set_version (& (kf_region ks)) (kf_kernel_version ks) in
    (KEYFRAME_STORE_OK, set_region ks (deref (kf_region ks) st)).

(** *** The persisted index *)
Definition index_buffer_size : nat :=
  Z.to_nat (KEYFRAME_STORE_INDEX_MAX_SECTORS * SNAPSHOT_SECTOR_SIZE).

(** The write loop: [n] sectors left, [i] the next one. *)
Fixpoint write_index_sectors ks d (buf : list byte) (n : nat) (i : Z) : Z * D :=
  match n with
  | O => (KEYFRAME_STORE_OK, d)
  | S n =>
      let '(rc, d) := idx_write ks d (u32 (kf_base_sector ks + i)) (chunk 512 buf i) in
      if negb (rc =? KEYFRAME_STORE_OK) then (rc, d)
      else write_index_sectors ks d buf n (u32 (i + 1))
  end.

Definition write_index ks d : Z * D :=
  let buf := zeros index_buffer_size in
  let '(rc, buf') := keyframe_ring_pack (& (kf_ring ks)) (& buf) (Z.of_nat index_buffer_size) in
  if rc <? 0 then (KEYFRAME_STORE_ERR_PARAM, d)
  else write_index_sectors ks d (deref buf buf') (Z.to_nat (kf_index_sectors ks)) 0.

Fixpoint read_index_sectors ks d (buf : list byte) (n : nat) (i : Z) : Z * list byte :=
  match n with
  | O => (KEYFRAME_STORE_OK, buf)
  | S n =>
      let '(rc, sec) := idx_read ks d (u32 (kf_base_sector ks + i)) in
      if negb (rc =? KEYFRAME_STORE_OK) then (rc, buf)
      else
        let off := Z.to_nat (i * SNAPSHOT_SECTOR_SIZE) in
        read_index_sectors ks d (take off buf ++ sec ++ drop (off + length sec) buf) n (u32 (i + 1))
  end.

Definition read_index ks d : Z * keyframe_store_t D :=
  let '(rc, buf) := read_index_sectors ks d (zeros index_buffer_size) (Z.to_nat (kf_index_sectors ks)) 0 in
  if negb (rc =? KEYFRAME_STORE_OK) then (rc, ks)
  else
    let '(rc, tmp) := keyframe_ring_unpack (& (kf_ring ks)) (& buf) (Z.of_nat index_buffer_size) in
    let tmp := deref (kf_ring ks) tmp in
    if negb (rc =? KEYFRAME_RING_OK) then (KEYFRAME_STORE_ERR_CRC, ks)
    else if negb (kr_capacity tmp =? kf_capacity ks) then (KEYFRAME_STORE_ERR_PARAM, ks)
    else (KEYFRAME_STORE_OK, set_ring ks tmp).

(** *** Rebuilding the ring from the regions *)

(** The locals of [rebuild_ring]'s loop. *)
Record rebuild_state := {
  rs_first_empty : Z;
  rs_have_empty : bool;
  rs_oldest : Z;
  rs_oldest_slot : Z;
  rs_any : bool }.

Definition ring_reset ks : keyframe_store_t D :=
  set_ring ks (deref (kf_ring ks) (keyframe_ring_init (& (kf_ring ks)) (kf_capacity ks)).2).

(** [ring.slots[i].epoch = epoch; .valid = 1; ring.count++] *)
Definition ring_mark (r : keyframe_ring_t) (i epoch : Z) : keyframe_ring_t :=
  {| kr_capacity := kr_capacity r; kr_count := u32 (kr_count r + 1); kr_head := kr_head r;
     kr_reserved := kr_reserved r; kr_reclaimed_valid := kr_reclaimed_valid r;
     kr_reserved2 := kr_reserved2 r; kr_reclaimed_epoch := kr_reclaimed_epoch r;
     kr_slots := zset i {| ks_epoch := epoch; ks_valid := 1; ks_reserved := ks_reserved (slot_at r i) |}
                   (kr_slots r) |}.
Definition ring_set_head (r : keyframe_ring_t) (h : Z) : keyframe_ring_t :=
  {| kr_capacity := kr_capacity r; kr_count := kr_count r; kr_head := h;
     kr_reserved := kr_reserved r; kr_reclaimed_valid := kr_reclaimed_valid r;
     kr_reserved2 := kr_reserved2 r; kr_reclaimed_epoch := kr_reclaimed_epoch r;
     kr_slots := kr_slots r |}.

Fixpoint rebuild_regions (kmalloc_ok : bool) ks d (s : rebuild_state) (n : nat) (i : Z)
  : Z * keyframe_store_t D * rebuild_state :=
  match n with
  | O => (KEYFRAME_STORE_OK, ks, s)
  | S n =>
      let '(rc, ks) := region_open ks i in
      if negb (rc =? KEYFRAME_STORE_OK) then (KEYFRAME_STORE_ERR_IO, ks, s)
      else
        let '(rc, rd) := snapshot_store_load kmalloc_ok (& (kf_region ks)) d (& reader_zero) in
        let epoch := r_epoch (deref reader_zero rd) in
        if rc =? SNAPSHOT_OK then
          let ks := set_ring ks (ring_mark (kf_ring ks) i epoch) in
          let s :=
            if negb (rs_any s) || (epoch <? rs_oldest s)
            then {| rs_first_empty := rs_first_empty s; rs_have_empty := rs_have_empty s;
                    rs_oldest := epoch; rs_oldest_slot := i; rs_any := true |}
            else s in
          rebuild_regions kmalloc_ok ks d s n (u32 (i + 1))
        else
          let s :=
            if negb (rs_have_empty s)
            then {| rs_first_empty := i; rs_have_empty := true;
                    rs_oldest := rs_oldest s; rs_oldest_slot := rs_oldest_slot s; rs_any := rs_any s |}
            else s in
          rebuild_regions kmalloc_ok ks d s n (u32 (i + 1))
  end.

Definition rebuild_ring (kmalloc_ok : bool) ks d : Z * keyframe_store_t D * D :=
  let ks := ring_reset ks in
  let s := {| rs_first_empty := kf_capacity ks; rs_have_empty := false; rs_oldest := 0;
              rs_oldest_slot := 0; rs_any := false |} in
  let '(rc, ks, s) := rebuild_regions kmalloc_ok ks d s (Z.to_nat (kf_capacity ks)) 0 in
  if negb (rc =? KEYFRAME_STORE_OK) then (rc, ks, d)
  else
    let head := if rs_have_empty s then rs_first_empty s
                else if rs_any s then rs_oldest_slot s else 0 in
    let ks := set_ring ks (ring_set_head (kf_ring ks) head) in
    let '(rc, d) := write_index ks d in (rc, ks, d).

(** *** Public API *)
Definition keyframe_store_total_sectors (index_sectors capacity region_slot_sectors : Z) : Z :=
  let region_sectors := u32 (1 + u32 (2 * region_slot_sectors)) in
  u32 (index_sectors + u32 (capacity * region_sectors)).

Definition store_zero : snapshot_store_t D :=
  {| st_dev := NULL; st_base_sector := 0; st_slot_sectors := 0; st_max_records := 0;
     st_kernel_version := 0; st_initialized := false |}.
Definition ring_zero : keyframe_ring_t :=
  {| kr_capacity := 0; kr_count := 0; kr_head := 0; kr_reserved := 0; kr_reclaimed_valid := 0;
     kr_reserved2 := 0; kr_reclaimed_epoch := 0;
     kr_slots := replicate (Z.to_nat KEYFRAME_RING_MAX) slot_zero |}.

Definition keyframe_store_init (ks : ptr (keyframe_store_t D)) (dev : ptr (fat_block_device_t D))
    (base_sector index_sectors capacity region_slot_sectors : Z) : Z * ptr (keyframe_store_t D) :=
  match ks, dev with
  | Some _, Some _ =>
      if (capacity =? 0) || (KEYFRAME_RING_MAX <? capacity) then (KEYFRAME_STORE_ERR_PARAM, ks)
      else if region_slot_sectors <? SNAPSHOT_SECTORS_PER_RECORD + 1 then (KEYFRAME_STORE_ERR_PARAM, ks)
      else
        let need := (keyframe_ring_packed_size + SNAPSHOT_SECTOR_SIZE - 1) / SNAPSHOT_SECTOR_SIZE in
        if (index_sectors <? need) || (KEYFRAME_STORE_INDEX_MAX_SECTORS <? index_sectors)
        then (KEYFRAME_STORE_ERR_PARAM, ks)
        else
          (KEYFRAME_STORE_OK,
           & {| kf_dev := dev; kf_base_sector := base_sector; kf_index_sectors := index_sectors;
                kf_capacity := capacity; kf_region_slot_sectors := region_slot_sectors;
                kf_region_sectors := u32 (1 + u32 (2 * region_slot_sectors)); kf_kernel_version := 0;
                kf_ring := deref ring_zero (keyframe_ring_init (& ring_zero) capacity).2;
                kf_region := store_zero; kf_initialized := true |})
  | _, _ => (KEYFRAME_STORE_ERR_PARAM, ks)
  end.

Definition keyframe_store_set_version (ks : ptr (keyframe_store_t D)) (kernel_version : Z)
  : ptr (keyframe_store_t D) :=
  match ks with
  | NULL => NULL
  | Some k =>
      & {| kf_dev := kf_dev k; kf_base_sector := kf_base_sector k; kf_index_sectors := kf_index_sectors k;
           kf_capacity := kf_capacity k; kf_region_slot_sectors := kf_region_slot_sectors k;
           kf_region_sectors := kf_region_sectors k; kf_kernel_version := kernel_version;
           kf_ring := kf_ring k; kf_region := kf_region k; kf_initialized := kf_initialized k |}
  end.

Fixpoint format_regions ks d (n : nat) (i : Z) : Z * keyframe_store_t D * D :=
  match n with
  | O => (KEYFRAME_STORE_OK, ks, d)
  | S n =>
      let '(rc, ks) := region_open ks i in
      if negb (rc =? KEYFRAME_STORE_OK) then (KEYFRAME_STORE_ERR_IO, ks, d)
      else
        let '(rc, d) := snapshot_store_format (& (kf_region ks)) d in
        if negb (rc =? SNAPSHOT_OK) then (KEYFRAME_STORE_ERR_IO, ks, d)
        else format_regions ks d n (u32 (i + 1))
  end.

Definition keyframe_store_format (ks : ptr (keyframe_store_t D)) d : Z * ptr (keyframe_store_t D) * D :=
  match ks with
  | NULL => (KEYFRAME_STORE_ERR_STATE, ks, d)
  | Some k =>
      if negb (kf_initialized k) then (KEYFRAME_STORE_ERR_STATE, ks, d)
      else
        let k := ring_reset k in
        let '(rc, k, d) := format_regions k d (Z.to_nat (kf_capacity k)) 0 in
        if negb (rc =? KEYFRAME_STORE_OK) then (rc, & k, d)
        else let '(rc, d) := write_index k d in (rc, & k, d)
  end.

Definition keyframe_store_load_index (kmalloc_ok : bool) (ks : ptr (keyframe_store_t D)) d
  : Z * ptr (keyframe_store_t D) * D :=
  match ks with
  | NULL => (KEYFRAME_STORE_ERR_STATE, ks, d)
  | Some k =>
      if negb (kf_initialized k) then (KEYFRAME_STORE_ERR_STATE, ks, d)
      else
        let '(rc, k) := read_index k d in
        if rc =? KEYFRAME_STORE_OK then (KEYFRAME_STORE_OK, & k, d)
        else let '(rc, k, d) := rebuild_ring kmalloc_ok k d in (rc, & k, d)
  end.

Definition keyframe_store_begin (ks : ptr (keyframe_store_t D)) d (epoch : Z)
    (writer : ptr snapshot_writer_t) : Z * ptr (keyframe_store_t D) * ptr snapshot_writer_t :=
  match ks, writer with
  | Some k, Some _ =>
      if negb (kf_initialized k) then (KEYFRAME_STORE_ERR_PARAM, ks, writer)
      else
        let slot := kr_head (kf_ring k) in
        let '(rc, k) := region_open k slot in
        if negb (rc =? KEYFRAME_STORE_OK) then (KEYFRAME_STORE_ERR_PARAM, & k, writer)
        else
          let '(rc, writer) := snapshot_store_begin (& (kf_region k)) d epoch writer in
          if negb (rc =? SNAPSHOT_OK) then (KEYFRAME_STORE_ERR_IO, & k, writer)
          else (KEYFRAME_STORE_OK, & k, writer)
  | _, _ => (KEYFRAME_STORE_ERR_PARAM, ks, writer)
  end.

Definition keyframe_store_commit (ks : ptr (keyframe_store_t D)) d (writer : ptr snapshot_writer_t)
    (epoch : Z) : Z * ptr (keyframe_store_t D) * D * ptr snapshot_writer_t :=
  match ks, writer with
  | Some k, Some _ =>
      if negb (kf_initialized k) then (KEYFRAME_STORE_ERR_PARAM, ks, d, writer)
      else
        let '(rc, d, writer) := snapshot_store_commit (kf_region k) d writer in
        if negb (rc =? SNAPSHOT_OK) then (KEYFRAME_STORE_ERR_IO, ks, d, writer)
        else
          let '(_, r) := keyframe_ring_advance (& (kf_ring k)) epoch in
          let k := set_ring k (deref (kf_ring k) r) in
          let '(rc, d) := write_index k d in (rc, & k, d, writer)
  | _, _ => (KEYFRAME_STORE_ERR_PARAM, ks, d, writer)
  end.

(** On success the last component is [*epoch_out]. *)
Definition keyframe_store_load_epoch (kmalloc_ok : bool) (ks : ptr (keyframe_store_t D)) d (target : Z)
    (reader : ptr snapshot_reader_t)
  : Z * ptr (keyframe_store_t D) * ptr snapshot_reader_t * option Z :=
  match ks, reader with
  | Some k, Some _ =>
      if negb (kf_initialized k) then (KEYFRAME_STORE_ERR_PARAM, ks, reader, None)
      else
        match keyframe_ring_find (& (kf_ring k)) target with
        | None => (KEYFRAME_STORE_ERR_NO_KEYFRAME, ks, reader, None)
        | Some (slot, e) =>
            let '(rc, k) := region_open k slot in
            if negb (rc =? KEYFRAME_STORE_OK) then (KEYFRAME_STORE_ERR_PARAM, & k, reader, None)
            else
              let '(rc, reader) := snapshot_store_load kmalloc_ok (& (kf_region k)) d reader in
              if negb (rc =? SNAPSHOT_OK) then (KEYFRAME_STORE_ERR_IO, & k, reader, None)
              else if negb (r_epoch (deref reader_zero reader) =? e)
              then (KEYFRAME_STORE_ERR_CRC, & k, reader, None)
              else (KEYFRAME_STORE_OK, & k, reader, Some e)
        end
  | _, _ => (KEYFRAME_STORE_ERR_PARAM, ks, reader, None)
  end.

Definition keyframe_store_load_latest (kmalloc_ok : bool) (ks : ptr (keyframe_store_t D)) d
    (reader : ptr snapshot_reader_t)
  : Z * ptr (keyframe_store_t D) * ptr snapshot_reader_t * option Z :=
  match ks, reader with
  | Some k, Some _ =>
      if negb (kf_initialized k) then (KEYFRAME_STORE_ERR_PARAM, ks, reader, None)
      else
        match keyframe_ring_newest (& (kf_ring k)) with
        | None => (KEYFRAME_STORE_ERR_NO_KEYFRAME, ks, reader, None)
        | Some newest => keyframe_store_load_epoch kmalloc_ok ks d newest reader
        end
  | _, _ => (KEYFRAME_STORE_ERR_PARAM, ks, reader, None)
  end.

Definition keyframe_store_ring (ks : ptr (keyframe_store_t D)) : ptr keyframe_ring_t :=
  match ks with Some k => & (kf_ring k) | NULL => NULL end.

(** The store returned is the scratch region of the updated [ks]. *)
Definition keyframe_store_region_for (ks : ptr (keyframe_store_t D)) (target : Z)
  : ptr (snapshot_store_t D) * ptr (keyframe_store_t D) * option Z :=
  match ks with
  | NULL => (NULL, ks, None)
  | Some k =>
      if negb (kf_initialized k) then (NULL, ks, None)
      else
        match keyframe_ring_find (& (kf_ring k)) target with
        | None => (NULL, ks, None)
        | Some (slot, e) =>
            let '(rc, k) := region_open k slot in
            if negb (rc =? KEYFRAME_STORE_OK) then (NULL, & k, None)
            else (& (kf_region k), & k, Some e)
        end
  end.
End keyframes.
