(* ===== verification/KeyframeStoreSpec.v ===== *)
(** * The keyframe store keeps the last N checkpoints, through crashes and reboots *)
From Stdlib Require Import ZArith Lia.
From S2P Require Import Prelude.
From S2P Require Import BlockDevice.
From S2P Require Import SnapshotStore.
From S2P Require Import SnapshotStoreSpec.
From S2P Require Import KeyframeRing.
From S2P Require Import KeyframeRingSpec.
From S2P Require Import KeyframeStore.
Open Scope Z_scope.
Open Scope c_scope.

(** ** A checkpoint session through the keyframe store *)
Section session.
Context {D : Type}.
Implicit Types (ks : keyframe_store_t D) (d : D).

(** Begin, stream the pages into the scratch region, commit. *)
Definition keyframe_save ks d (ckpt : Z * list page) : Z * keyframe_store_t D * D :=
  let '(rc, ks', w) := keyframe_store_begin (& ks) d ckpt.1 (& writer_none) in
  let k := deref ks ks' in
  if negb (rc =? KEYFRAME_STORE_OK) then (rc, k, d)
  else
    let '(rc, d, w) := add_pages (kf_region k) d w ckpt.2 in
    if negb (rc =? SNAPSHOT_OK) then (rc, k, d)
    else
      let '(rc, ks', d, w) := keyframe_store_commit (& k) d w ckpt.1 in (rc, deref k ks', d).

(** The store of region [i], as [region_open] builds it. *)
Definition region_store ks (i : Z) : snapshot_store_t D :=
  {| st_dev := kf_dev ks; st_base_sector := region_base ks i;
     st_slot_sectors := kf_region_slot_sectors ks;
     st_max_records := u32 (kf_region_slot_sectors ks - 1) / SNAPSHOT_SECTORS_PER_RECORD;
     st_kernel_version := kf_kernel_version ks; st_initialized := true |}.

Definition region_view ks d (i : Z) : Z + Z * list page := checkpoint_view (region_store ks i) d.
End session.

(** A store laid out within its device. *)
Record ks_wf {D} (dev : fat_block_device_t D) (ks : keyframe_store_t D) : Prop := {
  kw_dev : kf_dev ks = & dev;
  kw_init : kf_initialized ks = true;
  kw_base : 0 <= kf_base_sector ks;
  kw_index : 3 <= kf_index_sectors ks <= 4;
  kw_capacity : 1 <= kf_capacity ks <= 64;
  kw_slot : 10 <= kf_region_slot_sectors ks;
  kw_sectors : kf_region_sectors ks = 1 + 2 * kf_region_slot_sectors ks;
  kw_fit : kf_base_sector ks + kf_index_sectors ks + kf_capacity ks * kf_region_sectors ks
             <= total_sectors dev;
  kw_version : fits 4 (kf_kernel_version ks);
  kw_head : 0 <= kr_head (kf_ring ks) < kf_capacity ks }.

Section proofs.
Context {D : Type} {dev : fat_block_device_t D} `{!BlockDevice dev}.
Implicit Types (ks : keyframe_store_t D) (d : D).

(** ** Regions *)
Definition region_lo ks (i : Z) : Z :=
  kf_base_sector ks + kf_index_sectors ks + i * kf_region_sectors ks.

Lemma region_bounds ks i :
  ks_wf dev ks -> 0 <= i < kf_capacity ks ->
  kf_base_sector ks + kf_index_sectors ks <= region_lo ks i /\
  region_lo ks i + kf_region_sectors ks <= total_sectors dev /\ region_base ks i = region_lo ks i.
Proof.
  intros W Hi. pose proof (bd_total (dev := dev)). destruct W. unfold region_lo, region_base.
  assert (0 <= i * kf_region_sectors ks <= (kf_capacity ks - 1) * kf_region_sectors ks) by nia.
  rewrite (u32_id (_ * _)), u32_id by nia. nia.
Qed.

Lemma region_store_wf ks i : ks_wf dev ks -> 0 <= i < kf_capacity ks -> store_wf dev (region_store ks i).
Proof.
  intros W Hi. destruct (region_bounds ks i W Hi) as (H1 & H2 & H3).
  pose proof (bd_total (dev := dev)). destruct W. split; cbn; try assumption; try reflexivity; try lia.
  rewrite u32_id by lia. reflexivity.
Qed.

Lemma region_open_ok ks i :
  ks_wf dev ks -> 0 <= i < kf_capacity ks ->
  region_open ks i = (KEYFRAME_STORE_OK, set_region ks (region_store ks i)).
Proof.
  intros W Hi. destruct (region_bounds ks i W Hi) as (H1 & H2 & H3).
  pose proof (bd_total (dev := dev)). pose proof W as [Hdev Hin Hb Hix Hc Hsl Hs Hf Hv Hh].
  unfold region_open, snapshot_store_init. rewrite Hdev, H3, bd_sector_size.
  change SNAPSHOT_SECTORS_PER_RECORD with 9. rewrite (proj2 (Z.ltb_ge _ (1 + 9))) by lia.
  change (512 =? SNAPSHOT_SECTOR_SIZE) with true. cbn [negb].
  rewrite (u32_id (2 * _)), (u32_id (1 + _)), u64_id by lia.
  rewrite (proj2 (Z.ltb_ge _ _)) by lia. cbn. unfold region_store. rewrite H3, Hdev. reflexivity.
Qed.

(** A store and its copy with another ring or scratch region have the same regions. *)
Lemma region_store_ring ks r i : region_store (set_ring ks r) i = region_store ks i.
Proof. reflexivity. Qed.
Lemma region_store_region ks st i : region_store (set_region ks st) i = region_store ks i.
Proof. reflexivity. Qed.

Lemma wf_set_region ks st : ks_wf dev ks -> ks_wf dev (set_region ks st).
Proof. intros []. split; assumption. Qed.
Lemma wf_set_ring ks r : ks_wf dev ks -> 0 <= kr_head r < kf_capacity ks -> ks_wf dev (set_ring ks r).
Proof. intros [] H. split; assumption. Qed.

(** Changes that avoid region [i] are not seen there. *)
Lemma region_view_frame ks d d' i :
  ks_wf dev ks -> 0 <= i < kf_capacity ks -> bd_inv d -> bd_inv d' ->
  (forall j, region_lo ks i <= j < region_lo ks i + kf_region_sectors ks -> bd_sector d' j = bd_sector d j) ->
  region_view ks d' i = region_view ks d i.
Proof.
  intros W Hi Hd Hd' H. destruct (region_bounds ks i W Hi) as (H1 & H2 & H3).
  apply (checkpoint_view_region (region_store_wf ks i W Hi)); [assumption..|].
  intros j Hj. apply H. unfold region_end in Hj. cbn [region_store st_base_sector st_slot_sectors] in Hj.
  rewrite H3 in Hj. rewrite (kw_sectors _ _ W). lia.
Qed.

Lemma regions_disjoint ks i j s :
  ks_wf dev ks -> i <> j ->
  region_lo ks i <= s < region_lo ks i + kf_region_sectors ks ->
  ~ (region_lo ks j <= s < region_lo ks j + kf_region_sectors ks).
Proof.
  intros W Hne Hs Hj. pose proof (kw_slot _ _ W). pose proof (kw_sectors _ _ W). unfold region_lo in *.
  assert (i < j \/ j < i) as [|] by lia; nia.
Qed.

(** ** The persisted index *)
Lemma idx_write_ok ks d s bs :
  ks_wf dev ks -> bd_inv d -> in_range dev s 1 -> length bs = 512%nat ->
  let '(rc, d') := idx_write ks d s bs in
  bd_inv d' /\ (forall i, 0 <= i < total_sectors dev -> i <> s -> bd_sector d' i = bd_sector d i) /\
  (rc = KEYFRAME_STORE_OK -> bd_sector d' s = bs).
Proof.
  intros W Hd Hr Hb. unfold idx_write. rewrite (kw_dev _ _ W), bd_write_eq.
  pose proof (bd_write_inv d s 1 bs Hd Hr Hb) as Hi.
  pose proof (bd_write_ok d s 1 bs Hd Hr Hb) as [Hf _ Hw].
  destruct (bd_write d s 1 bs) as [rc d']. cbn in *. split; [assumption|]. split.
  - intros i Hi' Hne. apply Hf; lia.
  - destruct (Z.eqb_spec rc 0) as [->|]; [|discriminate]. intros _. rewrite Hw by lia.
    rewrite Z.sub_diag. apply chunk_0. assumption.
Qed.

Lemma write_index_sectors_ok ks d buf n i :
  ks_wf dev ks -> bd_inv d -> length buf = 2048%nat -> 0 <= i -> i + Z.of_nat n = kf_index_sectors ks ->
  let '(rc, d') := write_index_sectors ks d buf n i in
  bd_inv d' /\
  (forall j, 0 <= j < total_sectors dev ->
    ~ (kf_base_sector ks + i <= j < kf_base_sector ks + kf_index_sectors ks) -> bd_sector d' j = bd_sector d j) /\
  (rc = KEYFRAME_STORE_OK -> forall j, i <= j < kf_index_sectors ks ->
    bd_sector d' (kf_base_sector ks + j) = chunk 512 buf j).
Proof.
  intros W. revert d i; induction n as [|n IH]; intros d i Hd Hbuf Hi Hn.
  { cbn. split_and!; [assumption | reflexivity | lia]. }
  pose proof (bd_total (dev := dev)). pose proof W as [_ _ Hb Hix Hc Hsl Hs Hf _ _].
  assert (in_range dev (kf_base_sector ks + i) 1) as Hr by (unfold in_range; nia).
  cbn [write_index_sectors]. rewrite (u32_id (kf_base_sector ks + i)) by (unfold in_range in Hr; nia).
  pose proof (idx_write_ok ks d _ (chunk 512 buf i) W Hd Hr) as H1.
  specialize (H1 ltac:(apply length_chunk; lia)).
  destruct (idx_write ks d _ _) as [rc d1]. destruct H1 as (Hd1 & Hf1 & Hw1).
  destruct (Z.eqb_spec rc KEYFRAME_STORE_OK) as [->|Hne]; cbn [negb].
  2:{ split_and!; [assumption | intros j Hj Hnj; apply Hf1; lia | contradiction]. }
  rewrite u32_id by lia. specialize (IH d1 (i + 1) Hd1 Hbuf ltac:(lia) ltac:(lia)).
  destruct (write_index_sectors ks d1 buf n (i + 1)) as [rc2 d2]. destruct IH as (Hd2 & Hf2 & Hw2).
  split_and!; [assumption | |].
  - intros j Hj Hnj. rewrite Hf2, Hf1 by lia. reflexivity.
  - intros -> j Hj. destruct (decide (j = i)) as [->|]; [|apply Hw2; [reflexivity|lia]].
    rewrite Hf2 by (unfold in_range in Hr; nia). apply Hw1. reflexivity.
Qed.

(** The packed image of the ring in the index buffer. *)
Lemma write_index_ok ks d :
  ks_wf dev ks -> bd_inv d -> ring_fits (kf_ring ks) -> kr_capacity (kf_ring ks) = kf_capacity ks ->
  exists buf, length buf = 2048%nat /\
  drop (Z.to_nat keyframe_ring_packed_size) buf = drop (Z.to_nat keyframe_ring_packed_size) (zeros 2048) /\
  (forall r1, keyframe_ring_unpack (& r1) (& buf) 2048 = (KEYFRAME_RING_OK, & (kf_ring ks))) /\
  let '(rc, d') := write_index ks d in
  bd_inv d' /\
  (forall j, 0 <= j < total_sectors dev ->
    ~ (kf_base_sector ks <= j < kf_base_sector ks + kf_index_sectors ks) -> bd_sector d' j = bd_sector d j) /\
  (rc = KEYFRAME_STORE_OK -> forall j, 0 <= j < kf_index_sectors ks ->
    bd_sector d' (kf_base_sector ks + j) = chunk 512 buf j).
Proof.
  intros W Hd F Hcap. pose proof (kw_capacity _ _ W). pose proof (kw_index _ _ W).
  assert (index_buffer_size = 2048%nat) as Hsz by (vm_compute; reflexivity).
  destruct (pack_unpack_fits (kf_ring ks) ring_zero (zeros 2048) F ltac:(lia)) as (buf & Hp & Hl & Hdr & Hu).
  { rewrite length_zeros. vm_compute. discriminate. }
  rewrite length_zeros in Hl, Hp, Hu. exists buf. split_and!; [exact Hl | exact Hdr | | ].
  { intros r1. revert Hu. unfold keyframe_ring_unpack. change (Z.of_nat 2048) with 2048.
    destruct (2048 <? keyframe_ring_packed_size); [discriminate|].
    destruct (negb _); [discriminate|]. destruct (_ || _)%bool; [discriminate|]. intros Hu. exact Hu. }
  unfold write_index. rewrite Hsz, Hp. cbn [deref].
  change (keyframe_ring_packed_size <? 0) with false.
  pose proof (write_index_sectors_ok ks d buf (Z.to_nat (kf_index_sectors ks)) 0 W Hd Hl ltac:(lia) ltac:(lia)) as H1.
  destruct (write_index_sectors _ _ _ _ _) as [rc d']. destruct H1 as (H1 & H2 & H3).
  split_and!; [exact H1 | intros j Hj Hnj; apply H2; lia | exact H3].
Qed.

(** ** A session is a session of the head region, then the ring and index *)
Definition after_save ks (epoch : Z) : keyframe_store_t D :=
  set_ring (set_region ks (region_store ks (kr_head (kf_ring ks))))
    (deref (kf_ring ks) (keyframe_ring_advance (& (kf_ring ks)) epoch).2).

Lemma keyframe_save_eq ks d ckpt :
  ks_wf dev ks -> bd_inv d ->
  let st := region_store ks (kr_head (kf_ring ks)) in
  let '(rc, d1) := save st d ckpt in
  if rc =? SNAPSHOT_OK
  then keyframe_save ks d ckpt =
         let '(rc2, d2) := write_index (after_save ks ckpt.1) d1 in (rc2, after_save ks ckpt.1, d2)
  else exists rc2, rc2 <> KEYFRAME_STORE_OK /\ keyframe_save ks d ckpt = (rc2, set_region ks st, d1).
Proof.
  intros W Hd. pose proof (kw_head _ _ W) as Hh. cbv zeta.
  unfold keyframe_save, keyframe_store_begin, save. rewrite (kw_init _ _ W). cbn [negb].
  rewrite region_open_ok by assumption. cbn [negb Z.eqb KEYFRAME_STORE_OK kf_region set_region].
  set (st := region_store ks (kr_head (kf_ring ks))).
  assert (snapshot_store_begin (& st) d ckpt.1 (& writer_none)
    = (SNAPSHOT_OK, (snapshot_store_begin (& st) d ckpt.1 (& writer_none)).2)) as Hbeg.
  { unfold snapshot_store_begin. cbn [st region_store st_initialized negb].
    destruct (read_superblock _ _); reflexivity. }
  destruct (snapshot_store_begin (& st) d ckpt.1 (& writer_none)) as [rc0 w]. injection Hbeg as ->.
  cbn [negb Z.eqb SNAPSHOT_OK KEYFRAME_STORE_OK deref kf_region].
  change (kf_region (set_region ks st)) with st.
  destruct (add_pages st d w ckpt.2) as [[rc1 d1] w1].
  destruct (Z.eqb_spec rc1 SNAPSHOT_OK) as [->|Hne]; cbn [negb].
  2:{ rewrite (proj2 (Z.eqb_neq _ _) Hne). exists rc1. split; [exact Hne | reflexivity]. }
  unfold keyframe_store_commit. destruct w1 as [w1|].
  2:{ cbn [snapshot_store_commit]. change (SNAPSHOT_ERR_STATE =? SNAPSHOT_OK) with false. cbn iota.
      exists KEYFRAME_STORE_ERR_PARAM. split; [discriminate | reflexivity]. }
  change (kf_initialized (set_region ks st)) with (kf_initialized ks).
  change (kf_region (set_region ks st)) with st. rewrite (kw_init _ _ W). cbn [negb].
  destruct (snapshot_store_commit st d1 (& w1)) as [[rc2 d2] w2].
  destruct (Z.eqb_spec rc2 SNAPSHOT_OK) as [->|Hne]; cbn [negb].
  2:{ exists KEYFRAME_STORE_ERR_IO. split; [discriminate | reflexivity]. }
  change (kf_ring (set_region ks st)) with (kf_ring ks). unfold after_save. fold st.
  destruct (keyframe_ring_advance (& (kf_ring ks)) ckpt.1) as [slot r]. cbn [snd].
  destruct (write_index _ d2) as [rc3 d3]. reflexivity.
Qed.

(** What the disk and the ring look like after a session, whatever failed. *)
Lemma keyframe_save_spec ks d ckpt :
  ks_wf dev ks -> bd_inv d -> ring_fits (kf_ring ks) -> kr_capacity (kf_ring ks) = kf_capacity ks ->
  0 <= kr_count (kf_ring ks) <= kf_capacity ks ->
  ckpt_ok (region_store ks (kr_head (kf_ring ks))) ckpt ->
  let h := kr_head (kf_ring ks) in
  let '(rc, ks', d') := keyframe_save ks d ckpt in
  bd_inv d' /\ ks_wf dev ks' /\
  (forall i, 0 <= i < kf_capacity ks -> i <> h -> region_view ks d' i = region_view ks d i) /\
  (kf_ring ks' = kf_ring ks /\
     (region_view ks d' h = region_view ks d h \/ region_view ks d' h = inr ckpt) /\
     rc <> KEYFRAME_STORE_OK
   \/ keyframe_ring_advance (& (kf_ring ks)) ckpt.1 = (h, & (kf_ring ks')) /\
      region_view ks d' h = inr ckpt).
Proof.
  intros W Hd F Hcap Hcnt Hok. pose proof (kw_head _ _ W) as Hh. pose proof (keyframe_save_eq ks d ckpt W Hd) as Heq.
  cbv zeta in *. set (h := kr_head (kf_ring ks)) in *.
  pose proof (region_store_wf ks h W Hh) as Ws. destruct (region_bounds ks h W Hh) as (B1 & B2 & B3).
  pose proof (save_spec Ws d ckpt Hd Hok) as Hs.
  destruct (save (region_store ks h) d ckpt) as [rc d1]. destruct Hs as (Hd1 & Hout & Hor & Hrc).
  assert (forall i, 0 <= i < kf_capacity ks -> i <> h -> region_view ks d1 i = region_view ks d i) as Hother.
  { intros i Hi Hne. apply region_view_frame; try assumption. intros j Hj.
    destruct (region_bounds ks i W Hi) as (C1 & C2 & _).
    apply Hout; [pose proof (kw_base _ _ W); pose proof (kw_index _ _ W); lia|].
    unfold region_end. cbn [region_store st_base_sector st_slot_sectors]. rewrite B3.
    pose proof (regions_disjoint ks i h j W Hne Hj) as Hnd. rewrite (kw_sectors _ _ W) in Hnd. lia. }
  assert (region_view ks d1 h = region_view ks d h \/ region_view ks d1 h = inr ckpt) as Hhead.
  { destruct Hor as [Hk | Hc]; [left; apply (checkpoint_view_keeps Ws); assumption|right].
    destruct ckpt. apply (view_committed Ws _ _ _ _ Hd1 Hok Hc). }
  destruct (Z.eqb_spec rc SNAPSHOT_OK) as [->|Hne].
  2:{ destruct Heq as (rc2 & Hrc2 & ->). split_and!; [assumption | apply wf_set_region; assumption | assumption |].
      left. split_and!; [reflexivity | assumption | assumption]. }
  pose proof (kw_capacity _ _ W) as Hc. rewrite Heq. clear Heq.
  destruct (keyframe_ring_advance (& (kf_ring ks)) ckpt.1) as [slot r] eqn:Ha.
  assert (exists r', r = & r' /\ slot = h /\ 0 <= kr_head r' < kf_capacity ks /\
            kr_capacity r' = kf_capacity ks /\ ring_fits r') as (r' & -> & -> & Hh' & Hcap' & F').
  { unfold keyframe_ring_advance in Ha. rewrite Hcap, (proj2 (Z.eqb_neq _ 0)) in Ha by lia.
    injection Ha as Hsl Hr. exists (deref (kf_ring ks) r). rewrite <- Hr. cbn [deref kr_head kr_capacity].
    split_and!; [reflexivity | symmetry; exact Hsl | apply Z.mod_pos_bound; lia
      | apply Z.mod_pos_bound; lia | reflexivity |].
    eapply (advance_fits (kf_ring ks) ckpt.1 F); [apply Hok | lia | lia | lia |].
    unfold keyframe_ring_advance. rewrite Hcap, (proj2 (Z.eqb_neq _ 0)) by lia. reflexivity. }
  assert (after_save ks ckpt.1 = set_ring (set_region ks (region_store ks h)) r') as ->
    by (unfold after_save; fold h; rewrite Ha; reflexivity).
  assert (ks_wf dev (set_ring (set_region ks (region_store ks h)) r')) as W'
    by (apply wf_set_ring; [apply wf_set_region; assumption | assumption]).
  destruct (write_index_ok _ d1 W' Hd1 F' Hcap') as (buf & _ & _ & _ & Hwi).
  destruct (write_index _ d1) as [rc2 d2]. destruct Hwi as (Hd2 & Hfr & _).
  cbn [set_ring set_region kf_base_sector kf_index_sectors] in Hfr.
  assert (forall i, 0 <= i < kf_capacity ks -> region_view ks d2 i = region_view ks d1 i) as Hidx.
  { intros i Hi. apply region_view_frame; try assumption. intros j Hj.
    destruct (region_bounds ks i W Hi) as (C1 & C2 & _).
    apply Hfr; [pose proof (kw_base _ _ W); pose proof (kw_index _ _ W); lia | lia]. }
  split_and!; [assumption | assumption | |].
  - intros i Hi Hne. rewrite Hidx, Hother by assumption. reflexivity.
  - right. split; [reflexivity|]. rewrite Hidx by assumption.
    destruct ckpt. apply (view_committed Ws _ _ _ _ Hd1 Hok (Hrc eq_refl)).
Qed.

(** ** On a reliable device: the store is the window of the last N checkpoints *)

(** The ring and the regions after the history [cks] of checkpoints. *)
Record retained ks d (cks : list (Z * list page)) : Prop := {
  rt_wf : ks_wf dev ks;
  rt_inv : bd_inv d;
  rt_ring : ring_models (kf_ring ks) (Z.to_nat (kf_capacity ks)) (cks.*1);
  rt_fits : ring_fits (kf_ring ks);
  rt_pages k c : (length cks - Z.to_nat (kf_capacity ks) <= k)%nat -> cks !! k = Some c ->
    region_view ks d (Z.of_nat k mod kf_capacity ks) = inr c }.

Lemma idx_write_reliable `{!ReliableDevice dev} ks d s bs :
  ks_wf dev ks -> bd_inv d -> in_range dev s 1 -> length bs = 512%nat ->
  (idx_write ks d s bs).1 = KEYFRAME_STORE_OK.
Proof.
  intros W Hd Hr Hb. unfold idx_write. rewrite (kw_dev _ _ W), bd_write_eq.
  pose proof (bd_write_zero d s 1 bs Hd Hr Hb) as H. destruct (bd_write d s 1 bs) as [rc d'].
  cbn in *. rewrite H. reflexivity.
Qed.

Lemma write_index_sectors_reliable `{!ReliableDevice dev} ks d buf n i :
  ks_wf dev ks -> bd_inv d -> length buf = 2048%nat -> 0 <= i -> i + Z.of_nat n = kf_index_sectors ks ->
  (write_index_sectors ks d buf n i).1 = KEYFRAME_STORE_OK.
Proof.
  intros W. revert d i; induction n as [|n IH]; intros d i Hd Hbuf Hi Hn; [reflexivity|].
  pose proof (bd_total (dev := dev)). pose proof W as [_ _ Hb Hix Hc Hsl Hs Hf _ _].
  assert (in_range dev (kf_base_sector ks + i) 1) as Hr by (unfold in_range; nia).
  cbn [write_index_sectors]. rewrite (u32_id (kf_base_sector ks + i)) by (unfold in_range in Hr; lia).
  assert (length (chunk 512 buf i) = 512%nat) as Hl by (apply length_chunk; lia).
  pose proof (idx_write_ok ks d _ (chunk 512 buf i) W Hd Hr Hl) as H1.
  pose proof (idx_write_reliable ks d _ (chunk 512 buf i) W Hd Hr Hl) as H2.
  destruct (idx_write ks d _ _) as [rc d1]. cbn in H2. subst rc. destruct H1 as (Hd1 & _).
  cbn [negb Z.eqb KEYFRAME_STORE_OK]. rewrite u32_id by lia. apply IH; lia || assumption.
Qed.

Lemma write_index_reliable `{!ReliableDevice dev} ks d :
  ks_wf dev ks -> bd_inv d -> ring_fits (kf_ring ks) -> kr_capacity (kf_ring ks) = kf_capacity ks ->
  (write_index ks d).1 = KEYFRAME_STORE_OK.
Proof.
  intros W Hd F Hcap. pose proof (kw_capacity _ _ W). pose proof (kw_index _ _ W).
  destruct (pack_unpack_fits (kf_ring ks) ring_zero (zeros 2048) F ltac:(lia)) as (buf & Hp & Hl & _ & _).
  { rewrite length_zeros. vm_compute. discriminate. }
  rewrite length_zeros in Hl, Hp. unfold write_index.
  assert (index_buffer_size = 2048%nat) as -> by (vm_compute; reflexivity). rewrite Hp. cbn [deref].
  change (keyframe_ring_packed_size <? 0) with false.
  apply write_index_sectors_reliable; lia || assumption.
Qed.

Lemma retained_head ks d cks :
  retained ks d cks -> kr_head (kf_ring ks) = Z.of_nat (length cks) mod kf_capacity ks.
Proof.
  intros R. rewrite (rm_head _ _ _ (rt_ring _ _ _ R)), length_fmap.
  pose proof (kw_capacity _ _ (rt_wf _ _ _ R)). rewrite Z2Nat.id by lia. reflexivity.
Qed.

Lemma retained_save `{!ReliableDevice dev} ks d cks c :
  retained ks d cks -> ckpt_ok (region_store ks 0) c ->
  Z.of_nat (length c.2) <= st_max_records (region_store ks 0) ->
  let '(rc, ks', d') := keyframe_save ks d c in
  rc = KEYFRAME_STORE_OK /\ retained ks' d' (cks ++ [c]) /\
  (forall i, region_store ks' i = region_store ks i) /\ kf_capacity ks' = kf_capacity ks.
Proof.
  intros R Hok Hl. pose proof R as [W Hd M F Hp]. pose proof (kw_head _ _ W) as Hh.
  pose proof (retained_head _ _ _ R) as Hhead. pose proof (kw_capacity _ _ W) as Hcap.
  pose proof (rm_cap _ _ _ M) as Hrc. rewrite Z2Nat.id in Hrc by lia.
  assert (0 <= kr_count (kf_ring ks) <= kf_capacity ks) as Hcnt.
  { rewrite (rm_count _ _ _ M). lia. }
  pose proof (keyframe_save_spec ks d c W Hd F Hrc Hcnt Hok) as HS. cbv zeta in HS.
  pose proof (keyframe_save_eq ks d c W Hd) as HE. cbv zeta in HE.
  set (h := kr_head (kf_ring ks)) in *.
  pose proof (save_reliable (region_store_wf ks h W Hh) d c Hd Hok Hl) as Hsr.
  pose proof (save_spec (region_store_wf ks h W Hh) d c Hd Hok) as Hss.
  destruct (save (region_store ks h) d c) as [rc d1]. cbn in Hsr. subst rc. destruct Hss as (Hd1 & _).
  cbn [Z.eqb SNAPSHOT_OK] in HE.
  destruct (advance_models (kf_ring ks) _ _ c.1 M) as (r' & Ha & M' & _).
  rewrite length_fmap, Z2Nat.id, <- Hhead in Ha by lia.
  assert (ring_fits r') as F'.
  { refine (advance_fits (kf_ring ks) c.1 F (proj1 Hok) _ _ _ _ _ Ha); rewrite Hrc; lia. }
  assert (after_save ks c.1 = set_ring (set_region ks (region_store ks h)) r') as HA
    by (unfold after_save; fold h; rewrite Ha; reflexivity).
  rewrite HA in HE. clear HA.
  assert (kr_capacity r' = kf_capacity ks) as Hc'.
  { rewrite (rm_cap _ _ _ M'). lia. }
  assert (0 <= kr_head r' < kf_capacity ks) as Hh'.
  { rewrite (rm_head _ _ _ M'), Z2Nat.id by lia. apply Z.mod_pos_bound. lia. }
  assert (ks_wf dev (set_ring (set_region ks (region_store ks h)) r')) as W'
    by (apply wf_set_ring; [apply wf_set_region; assumption | exact Hh']).
  pose proof (write_index_reliable _ d1 W' Hd1 F' Hc') as Hwr.
  destruct (write_index (set_ring _ r') d1) as [rc2 d2]. cbn in Hwr. subst rc2.
  rewrite HE in *. destruct HS as (Hd2 & _ & Hother & Hhd).
  assert (region_view ks d2 h = inr c) as Hv.
  { destruct Hhd as [(_ & _ & HK) | [_ HV]]; [destruct HK; reflexivity | exact HV]. }
  split; [reflexivity|]. split; [|split; reflexivity].
  split; try assumption.
  - rewrite fmap_app. exact M'.
  - cbn [set_ring set_region kf_capacity]. intros k c' Hk Hc2.
    change (region_view (set_ring (set_region ks (region_store ks h)) r') d2 (Z.of_nat k mod kf_capacity ks))
      with (region_view ks d2 (Z.of_nat k mod kf_capacity ks)).
    rewrite length_app in Hk. cbn [length] in Hk.
    apply lookup_snoc_Some in Hc2 as [[Hlt Hc2] | [-> ->]].
    + rewrite Hother; [apply Hp; [lia | exact Hc2] | apply Z.mod_pos_bound; lia |].
      rewrite Hhead. apply mod_distinct. lia.
    + rewrite <- Hhead. exact Hv.
Qed.

(** What selecting a keyframe returns. *)
Lemma load_epoch_retained ks d cks target :
  retained ks d cks ->
  let w := drop (length cks - Z.to_nat (kf_capacity ks)) cks in
  match keyframe_store_load_epoch true (& ks) d target (& reader_zero) with
  | (rc, Some ks', Some r, Some e) => rc = KEYFRAME_STORE_OK /\ e <= target /\
      (forall c, c ∈ w -> c.1 <= target -> c.1 <= e) /\
      exists ps, (e, ps) ∈ w /\
        read_pages (kf_region ks') d (& r) (Z.to_nat (r_record_count r)) = ps
  | (rc, _, _, _) => rc = KEYFRAME_STORE_ERR_NO_KEYFRAME /\ forall c, c ∈ w -> target < c.1
  end.
Proof.
  intros R w. pose proof R as [W Hd M F Hp]. pose proof (kw_capacity _ _ W) as Hcap.
  unfold keyframe_store_load_epoch. rewrite (kw_init _ _ W). cbn [negb].
  pose proof (find_window M target) as Hfind.
  assert (window (Z.to_nat (kf_capacity ks)) cks.*1 = w.*1) as Hw.
  { unfold window, w. rewrite length_fmap, fmap_drop. reflexivity. }
  rewrite Hw in Hfind. destruct (keyframe_ring_find (& (kf_ring ks)) target) as [[i e]|].
  2:{ split; [reflexivity|]. intros c Hc. apply Hfind. apply list_elem_of_fmap_2. exact Hc. }
  destruct Hfind as (He & Hle & Hi & Hslot & Hbest). rewrite Z2Nat.id in Hi by lia.
  (* the slot holds the checkpoint of that index *)
  assert (exists ps, (e, ps) ∈ w /\ region_view ks d i = inr (e, ps)) as (ps & Hps & Hv).
  { destruct (slot_index M i ltac:(lia)) as [Hz | (k & e' & Hk & Hke & Hmod & Hs)];
      [rewrite Hslot in Hz; discriminate|].
    rewrite Hslot in Hs. injection Hs as <-. rewrite length_fmap in Hk. rewrite Z2Nat.id in Hmod by lia.
    rewrite list_lookup_fmap in Hke. apply fmap_Some in Hke as ([e' ps] & Hc & ->).
    exists ps. split.
    - apply (list_elem_of_lookup_2 _ (k - (length cks - Z.to_nat (kf_capacity ks)))).
      unfold w. cbn [fst]. rewrite lookup_drop, <- Hc. f_equal. lia.
    - rewrite <- Hmod. apply Hp; assumption. }
  rewrite region_open_ok by assumption. cbn [negb Z.eqb KEYFRAME_STORE_OK].
  change (kf_region (set_region ks (region_store ks i))) with (region_store ks i).
  unfold region_view, checkpoint_view in Hv.
  destruct (snapshot_store_load true (& (region_store ks i)) d (& reader_zero)) as [rc [r|]]; [|discriminate].
  destruct (Z.eqb_spec rc SNAPSHOT_OK) as [->|]; [|discriminate]. injection Hv as Hre Hrp.
  cbn [negb Z.eqb SNAPSHOT_OK deref]. rewrite Hre, Z.eqb_refl. cbn [negb].
  split; [reflexivity|]. split; [exact Hle|]. split.
  - intros c Hc. apply Hbest. apply list_elem_of_fmap_2. exact Hc.
  - exists ps. split; [exact Hps | exact Hrp].
Qed.

(** ** Reboot: the persisted index, or the regions themselves *)

Lemma idx_read_ok ks d s :
  ks_wf dev ks -> bd_inv d -> in_range dev s 1 -> idx_read ks d s = (KEYFRAME_STORE_OK, bd_sector d s).
Proof.
  intros W Hd Hr. unfold idx_read. rewrite (kw_dev _ _ W), bd_read_eq, bd_read_ok by assumption.
  rewrite (sector_run_1 dev). reflexivity.
Qed.

Lemma splice_chunk (buf z : list byte) i :
  length buf = 2048%nat -> length z = 2048%nat -> (i < 4)%nat ->
  take (i * 512) (take (i * 512) buf ++ drop (i * 512) z) ++ chunk 512 buf (Z.of_nat i) ++
    drop (i * 512 + 512) (take (i * 512) buf ++ drop (i * 512) z)
  = take (S i * 512) buf ++ drop (S i * 512) z.
Proof.
  intros Hb Hz Hi. rewrite take_app_length' by (rewrite length_take; lia).
  rewrite drop_app_ge by (rewrite length_take; lia). rewrite length_take, drop_drop, app_assoc.
  unfold chunk. rewrite Nat2Z.id. replace (S i * 512)%nat with (i * 512 + 512)%nat by lia.
  rewrite take_take_drop. do 2 f_equal. lia.
Qed.

Lemma read_index_sectors_ok ks d buf n i :
  ks_wf dev ks -> bd_inv d -> length buf = 2048%nat -> Z.of_nat i + Z.of_nat n = kf_index_sectors ks ->
  (forall j, 0 <= j < kf_index_sectors ks -> bd_sector d (kf_base_sector ks + j) = chunk 512 buf j) ->
  let z := zeros 2048 in
  read_index_sectors ks d (take (i * 512) buf ++ drop (i * 512) z) n (Z.of_nat i) =
    (KEYFRAME_STORE_OK,
     take (Z.to_nat (kf_index_sectors ks) * 512) buf ++ drop (Z.to_nat (kf_index_sectors ks) * 512) z).
Proof.
  intros W Hd Hbuf Hn Hdisk z. assert (length z = 2048%nat) as Hz by apply length_zeros.
  clearbody z. revert i Hn; induction n as [|n IH]; intros i Hn; cbn [read_index_sectors].
  { replace (Z.to_nat (kf_index_sectors ks)) with i by lia. reflexivity. }
  pose proof (bd_total (dev := dev)). pose proof W as [_ _ Hb Hix Hc Hsl Hs Hf _ _].
  assert (in_range dev (kf_base_sector ks + Z.of_nat i) 1) as Hr by (unfold in_range; nia).
  rewrite (u32_id (kf_base_sector ks + _)) by (unfold in_range in Hr; lia).
  rewrite idx_read_ok, Hdisk by (assumption || lia). cbn [negb Z.eqb KEYFRAME_STORE_OK].
  rewrite (length_chunk 512) by lia.
  replace (Z.to_nat (Z.of_nat i * SNAPSHOT_SECTOR_SIZE)) with (i * 512)%nat
    by (unfold SNAPSHOT_SECTOR_SIZE; lia).
  rewrite splice_chunk by (assumption || lia). rewrite u32_id by lia.
  replace (Z.of_nat i + 1) with (Z.of_nat (S i)) by lia. apply IH. lia.
Qed.

(** A store with the same geometry, freshly bound after a reboot. *)
Definition same_layout ks ks0 : Prop :=
  kf_dev ks0 = kf_dev ks /\ kf_base_sector ks0 = kf_base_sector ks /\
  kf_index_sectors ks0 = kf_index_sectors ks /\ kf_capacity ks0 = kf_capacity ks /\
  kf_region_slot_sectors ks0 = kf_region_slot_sectors ks /\ kf_region_sectors ks0 = kf_region_sectors ks /\
  kf_kernel_version ks0 = kf_kernel_version ks.

Lemma reload_index ks ks0 d :
  ks_wf dev ks -> ks_wf dev ks0 -> same_layout ks ks0 -> bd_inv d ->
  ring_fits (kf_ring ks) -> kr_capacity (kf_ring ks) = kf_capacity ks ->
  let '(rc, d') := write_index ks d in
  rc = KEYFRAME_STORE_OK ->
  keyframe_store_load_index true (& ks0) d' = (KEYFRAME_STORE_OK, & (set_ring ks0 (kf_ring ks)), d').
Proof.
  intros W W0 (_ & L2 & L3 & L4 & _) Hd F Hcap.
  destruct (write_index_ok ks d W Hd F Hcap) as (buf & Hl & Hz & Hu & Hw).
  destruct (write_index ks d) as [rc d']. destruct Hw as (Hd' & _ & Hw). intros Hrc.
  specialize (Hw Hrc). unfold keyframe_store_load_index. rewrite (kw_init _ _ W0). cbn [negb].
  unfold read_index. assert (index_buffer_size = 2048%nat) as -> by (vm_compute; reflexivity).
  rewrite <- L2, <- L3 in Hw. pose proof (kw_index _ _ W0) as Hix.
  pose proof (read_index_sectors_ok ks0 d' buf (Z.to_nat (kf_index_sectors ks0)) 0 W0 Hd' Hl ltac:(lia) Hw) as Hread.
  cbv zeta in Hread. rewrite Nat.mul_0_l, take_0, drop_0 in Hread. cbn [app] in Hread.
  change (Z.of_nat 0) with 0 in Hread. rewrite Hread. cbn [negb Z.eqb KEYFRAME_STORE_OK].
  assert (take (Z.to_nat (kf_index_sectors ks0) * 512) buf ++ drop (Z.to_nat (kf_index_sectors ks0) * 512) (zeros 2048)
          = buf) as ->.
  { rewrite <- (take_drop (Z.to_nat (kf_index_sectors ks0) * 512) buf) at 2. f_equal.
    assert (Z.to_nat keyframe_ring_packed_size = 1060%nat) as Hp by (vm_compute; reflexivity).
    rewrite Hp in Hz.
    replace (Z.to_nat (kf_index_sectors ks0) * 512)%nat
      with (1060 + (Z.to_nat (kf_index_sectors ks0) * 512 - 1060))%nat by lia.
    rewrite <- !drop_drop. rewrite Hz. reflexivity. }
  change (Z.of_nat 2048) with 2048. rewrite Hu. cbn [deref negb Z.eqb KEYFRAME_RING_OK].
  rewrite Hcap, L4, Z.eqb_refl. reflexivity.
Qed.

(** *** Rebuilding from the regions *)

(** The slot a region's contents call for. *)
Definition slot_for (v : Z + Z * list page) : keyframe_slot_t :=
  match v with inr (e, _) => held e | inl _ => slot_zero end.
Definition loads (v : Z + Z * list page) : bool := match v with inr _ => true | inl _ => false end.

Record rebuilding (cap : Z) (view : Z -> Z + Z * list page) (i : Z) (r : keyframe_ring_t) (s : rebuild_state) : Prop := {
  rb_cap : kr_capacity r = cap;
  rb_slots : length (kr_slots r) = 64%nat;
  rb_head : kr_head r = 0;
  rb_done j : 0 <= j < i -> slot_at r j = slot_for (view j);
  rb_todo j : i <= j -> slot_at r j = slot_zero;
  rb_count : kr_count r = Z.of_nat (length (filter (fun j => loads (view j) = true) (seqZ 0 i)));
  rb_empty : if rs_have_empty s
    then 0 <= rs_first_empty s < i /\ loads (view (rs_first_empty s)) = false /\
      forall j, 0 <= j < rs_first_empty s -> loads (view j) = true
    else forall j, 0 <= j < i -> loads (view j) = true;
  rb_oldest : if rs_any s
    then 0 <= rs_oldest_slot s < i /\ (exists ps, view (rs_oldest_slot s) = inr (rs_oldest s, ps)) /\
      forall j e ps, 0 <= j < i -> view j = inr (e, ps) -> rs_oldest s <= e
    else forall j, 0 <= j < i -> loads (view j) = false }.

(** What [rebuild_regions] sees when it probes a region. *)
Lemma probe_view ks d i :
  let '(rc, rd) := snapshot_store_load true (& (region_store ks i)) d (& reader_zero) in
  match region_view ks d i with
  | inr (e, _) => rc = SNAPSHOT_OK /\ r_epoch (deref reader_zero rd) = e
  | inl _ => rc <> SNAPSHOT_OK
  end.
Proof.
  unfold region_view, checkpoint_view.
  assert (exists r, (snapshot_store_load true (& (region_store ks i)) d (& reader_zero)).2 = & r) as [r Hr].
  { unfold snapshot_store_load. cbn [st_initialized region_store negb].
    repeat split_match; eexists; reflexivity. }
  destruct (snapshot_store_load true (& (region_store ks i)) d (& reader_zero)) as [rc rd]. cbn in Hr. subst rd.
  destruct (Z.eqb_spec rc SNAPSHOT_OK); [split; [assumption | reflexivity] | assumption].
Qed.

Lemma seqZ_snoc i : 0 <= i -> seqZ 0 (i + 1) = seqZ 0 i ++ [i].
Proof. intros. rewrite seqZ_app by lia. reflexivity. Qed.

Lemma rebuilding_step cap view i r s :
  cap <= 64 -> 0 <= i < cap -> rebuilding cap view i r s ->
  match view i with
  | inr (e, _) =>
      rebuilding cap view (i + 1) (ring_mark r i e)
        (if negb (rs_any s) || (e <? rs_oldest s)
         then {| rs_first_empty := rs_first_empty s; rs_have_empty := rs_have_empty s;
                 rs_oldest := e; rs_oldest_slot := i; rs_any := true |}
         else s)
  | inl _ =>
      rebuilding cap view (i + 1) r
        (if negb (rs_have_empty s)
         then {| rs_first_empty := i; rs_have_empty := true; rs_oldest := rs_oldest s;
                 rs_oldest_slot := rs_oldest_slot s; rs_any := rs_any s |}
         else s)
  end.
Proof.
  intros Hmax Hi [Hc Hsl Hh Hdone Htodo Hcnt Hemp Hold].
  assert (Z.of_nat (length (filter (fun j => loads (view j) = true) (seqZ 0 i))) <= i) as Hle.
  { rewrite <- (Z2Nat.id i) at 2 by lia. rewrite <- (length_seqZ 0 i). apply inj_le, length_filter. }
  assert (forall j, 0 <= j < i + 1 -> j < i \/ j = i) as Hlast by lia.
  destruct (view i) as [err|[e ps]] eqn:Hv.
  - split; try assumption.
    + intros j Hj. destruct (Hlast j Hj) as [| ->]; [apply Hdone; lia|]. rewrite Hv. apply Htodo. lia.
    + intros j Hj. apply Htodo. lia.
    + rewrite seqZ_snoc, filter_app, length_app, Hcnt by lia. cbn [filter list_filter].
      rewrite decide_False by (rewrite Hv; discriminate). cbn [length]. lia.
    + destruct (rs_have_empty s) eqn:Hhe; cbn [negb]; rewrite ?Hhe; cbn [rs_have_empty rs_first_empty].
      * destruct Hemp as (E1 & E2 & E3). split_and!; [lia..| assumption | assumption].
      * split_and!; [lia..| rewrite Hv; reflexivity | assumption].
    + assert (forall b : rebuild_state, rs_any b = rs_any s -> rs_oldest b = rs_oldest s ->
        rs_oldest_slot b = rs_oldest_slot s -> if rs_any b
        then 0 <= rs_oldest_slot b < i + 1 /\ (exists ps, view (rs_oldest_slot b) = inr (rs_oldest b, ps)) /\
          forall j e ps, 0 <= j < i + 1 -> view j = inr (e, ps) -> rs_oldest b <= e
        else forall j, 0 <= j < i + 1 -> loads (view j) = false) as Hgen.
      { intros b -> -> ->. destruct (rs_any s).
        - destruct Hold as (O1 & O2 & O3). split_and!; [lia..| assumption |].
          intros j e ps Hj Hvj. destruct (Hlast j Hj) as [| ->]; [apply (O3 j e ps); [lia | exact Hvj]|].
          rewrite Hv in Hvj. discriminate.
        - intros j Hj. destruct (Hlast j Hj) as [| ->]; [apply Hold; lia | rewrite Hv; reflexivity]. }
      destruct (negb (rs_have_empty s)); apply Hgen; reflexivity.
  - assert (forall v j, 0 <= j -> zget slot_zero (zset i v (kr_slots r)) j = if i =? j then v else slot_at r j) as Hget.
    { intros v j Hj. apply zget_zset; lia. }
    assert (ks_reserved (slot_at r i) = 0) as Hres by (rewrite Htodo by lia; reflexivity).
    split; cbn [ring_mark kr_capacity kr_slots kr_head kr_count]; try assumption.
    + rewrite length_zset. assumption.
    + intros j Hj. unfold slot_at at 1, ring_mark. cbn [kr_slots]. rewrite Hget, Hres by lia.
      destruct (Z.eqb_spec i j) as [<-|]; [rewrite Hv; reflexivity|]. apply Hdone. lia.
    + intros j Hj. unfold slot_at at 1, ring_mark. cbn [kr_slots]. rewrite Hget by lia.
      rewrite (proj2 (Z.eqb_neq i j)) by lia. apply Htodo. lia.
    + rewrite seqZ_snoc, filter_app, length_app, Hcnt by lia. cbn [filter list_filter].
      rewrite decide_True by (rewrite Hv; reflexivity). cbn [length]. rewrite u32_id by lia. lia.
    + assert (rs_have_empty (if negb (rs_any s) || (e <? rs_oldest s)
         then {| rs_first_empty := rs_first_empty s; rs_have_empty := rs_have_empty s;
                 rs_oldest := e; rs_oldest_slot := i; rs_any := true |} else s) = rs_have_empty s /\
        rs_first_empty (if negb (rs_any s) || (e <? rs_oldest s)
         then {| rs_first_empty := rs_first_empty s; rs_have_empty := rs_have_empty s;
                 rs_oldest := e; rs_oldest_slot := i; rs_any := true |} else s) = rs_first_empty s) as [-> ->]
        by (destruct (_ || _)%bool; split; reflexivity).
      destruct (rs_have_empty s).
      * destruct Hemp as (E1 & E2 & E3). split_and!; [lia..| assumption | assumption].
      * intros j Hj. destruct (Hlast j Hj) as [| ->]; [apply Hemp; lia | rewrite Hv; reflexivity].
    + destruct (rs_any s) eqn:Hany; cbn [negb orb].
      * destruct Hold as (O1 & O2 & O3). destruct (Z.ltb_spec e (rs_oldest s)); cbn [rs_any rs_oldest rs_oldest_slot].
        -- split_and!; [lia..| exists ps; assumption |].
           intros j e' ps' Hj Hvj. destruct (Hlast j Hj) as [| ->].
           ++ specialize (O3 j e' ps' ltac:(lia) Hvj). lia.
           ++ rewrite Hv in Hvj. injection Hvj as -> _. lia.
        -- rewrite Hany. split_and!; [lia..| assumption |].
           intros j e' ps' Hj Hvj. destruct (Hlast j Hj) as [| ->].
           ++ apply (O3 j e' ps'); [lia | exact Hvj].
           ++ rewrite Hv in Hvj. injection Hvj as -> _. lia.
      * cbn [rs_any rs_oldest rs_oldest_slot]. split_and!; [lia..| exists ps; assumption |].
        intros j e' ps' Hj Hvj. destruct (Hlast j Hj) as [| ->].
        -- specialize (Hold j ltac:(lia)). rewrite Hvj in Hold. discriminate.
        -- rewrite Hv in Hvj. injection Hvj as -> _. lia.
Qed.

Lemma rebuild_regions_ok ks d n i s :
  ks_wf dev ks -> 0 <= i -> i + Z.of_nat n = kf_capacity ks ->
  rebuilding (kf_capacity ks) (region_view ks d) i (kf_ring ks) s ->
  exists ks' s', rebuild_regions true ks d s n i = (KEYFRAME_STORE_OK, ks', s') /\
    same_layout ks ks' /\ kf_initialized ks' = true /\
    rebuilding (kf_capacity ks) (region_view ks d) (kf_capacity ks) (kf_ring ks') s'.
Proof.
  revert ks i s; induction n as [|n IH]; intros ks i s W Hi Hn R.
  { assert (i = kf_capacity ks) as -> by lia. exists ks, s.
    split; [reflexivity|]. split; [repeat split|]. split; [exact (kw_init _ _ W) | exact R]. }
  pose proof (kw_capacity _ _ W) as Hcap. cbn [rebuild_regions].
  rewrite region_open_ok by (assumption || lia). cbn [negb Z.eqb KEYFRAME_STORE_OK].
  change (kf_region (set_region ks (region_store ks i))) with (region_store ks i).
  pose proof (probe_view ks d i) as Hp. pose proof (rebuilding_step (kf_capacity ks) (region_view ks d) i _ _ ltac:(lia) ltac:(lia) R) as HR.
  destruct (snapshot_store_load true (& (region_store ks i)) d (& reader_zero)) as [rc rd].
  change (kf_ring (set_region ks (region_store ks i))) with (kf_ring ks).
  assert (u32 (i + 1) = i + 1) as Hu by (apply u32_id; lia).
  destruct (region_view ks d i) as [err|[e ps]].
  - rewrite (proj2 (Z.eqb_neq _ _) Hp), Hu.
    exact (IH (set_region ks (region_store ks i)) (i + 1) _ (wf_set_region _ _ W) ltac:(lia)
             ltac:(cbn [set_region kf_capacity]; lia) HR).
  - destruct Hp as [-> ->]. cbn [Z.eqb SNAPSHOT_OK]. rewrite Hu.
    refine (IH (set_ring (set_region ks (region_store ks i)) (ring_mark (kf_ring ks) i e)) (i + 1) _ _ ltac:(lia)
             ltac:(cbn [set_ring set_region kf_capacity]; lia) HR).
    apply wf_set_ring; [apply wf_set_region; exact W|]. cbn [ring_mark kr_head]. exact (kw_head _ _ W).
Qed.

Lemma rebuilding_start ks d :
  ks_wf dev ks ->
  kf_capacity (ring_reset ks) = kf_capacity ks /\
  rebuilding (kf_capacity ks) (region_view ks d) 0 (kf_ring (ring_reset ks))
    {| rs_first_empty := kf_capacity ks; rs_have_empty := false; rs_oldest := 0;
       rs_oldest_slot := 0; rs_any := false |}.
Proof.
  intros W. pose proof (kw_capacity _ _ W) as Hc. split; [reflexivity|].
  destruct (init_models (kf_ring ks) (Z.to_nat (kf_capacity ks)) ltac:(lia)) as (r & Hr & M).
  rewrite Z2Nat.id in Hr by lia. unfold ring_reset. cbn [kf_ring set_ring]. rewrite Hr. cbn [snd deref].
  assert (forall j, 0 <= j -> slot_at r j = slot_zero) as Hz.
  { intros j Hj. unfold keyframe_ring_init in Hr.
    destruct ((kf_capacity ks =? 0) || (KEYFRAME_RING_MAX <? kf_capacity ks)); [discriminate|].
    apply (f_equal snd) in Hr. cbn [snd] in Hr.
    assert (r = {| kr_capacity := kf_capacity ks; kr_count := 0; kr_head := 0; kr_reserved := 0;
      kr_reclaimed_valid := 0; kr_reserved2 := 0; kr_reclaimed_epoch := 0;
      kr_slots := replicate (Z.to_nat KEYFRAME_RING_MAX) slot_zero |}) as -> by congruence.
    unfold slot_at, zget. cbn [kr_slots]. rewrite nth_lookup.
    destruct (replicate _ _ !! _) eqn:H; [|reflexivity]. apply lookup_replicate in H as [-> _]. reflexivity. }
  split; cbn [rs_have_empty rs_any].
  - rewrite (rm_cap _ _ _ M). lia.
  - exact (rm_slots _ _ _ M).
  - rewrite (rm_head _ _ _ M). cbn [length]. apply Z.mod_0_l. lia.
  - intros j Hj. lia.
  - exact Hz.
  - rewrite (rm_count _ _ _ M). cbn [length]. rewrite Z.min_l by lia. reflexivity.
  - intros j Hj. lia.
  - intros j Hj. lia.
Qed.

Lemma write_index_inv ks d :
  ks_wf dev ks -> bd_inv d -> length (kr_slots (kf_ring ks)) = 64%nat -> bd_inv (write_index ks d).2.
Proof.
  intros W Hd Hl. pose proof (kw_index _ _ W). unfold write_index, keyframe_ring_pack.
  assert (index_buffer_size = 2048%nat) as -> by (vm_compute; reflexivity).
  change (Z.of_nat 2048 <? keyframe_ring_packed_size) with false. cbn [deref].
  change (keyframe_ring_packed_size <? 0) with false. cbn iota.
  match goal with |- context [write_index_sectors ks d ?buf ?n 0] =>
    pose proof (write_index_sectors_ok ks d buf n 0 W Hd) as H1;
    assert (length buf = 2048%nat) as Hb end.
  { pose proof (length_ring_bytes _ Hl) as Hr. change ring_sizeof with 1056 in Hr.
    change (Z.to_nat keyframe_ring_packed_size) with 1060%nat.
    rewrite !length_app, length_le_split, length_drop, length_zeros. lia. }
  specialize (H1 Hb ltac:(lia) ltac:(lia)).
  destruct (write_index_sectors _ _ _ _ _) as [rc d']. apply H1.
Qed.

Lemma wf_layout ks ks' :
  ks_wf dev ks -> same_layout ks ks' -> kf_initialized ks' = true ->
  0 <= kr_head (kf_ring ks') < kf_capacity ks -> ks_wf dev ks'.
Proof.
  intros [] (L1 & L2 & L3 & L4 & L5 & L6 & L7) Hi Hh.
  split; rewrite ?L1, ?L2, ?L3, ?L4, ?L5, ?L6, ?L7; assumption.
Qed.

(** The ring a rebuild leaves: one slot per region that loads, and the head
    at the first region that does not, or else at the oldest epoch. *)
Lemma rebuild_ring_ok ks d :
  ks_wf dev ks -> bd_inv d ->
  let '(rc, ks', d') := rebuild_ring true ks d in
  let r := kf_ring ks' in
  bd_inv d' /\ same_layout ks ks' /\ kr_capacity r = kf_capacity ks /\
  (forall i, 0 <= i < kf_capacity ks -> slot_at r i = slot_for (region_view ks d i)) /\
  kr_count r = Z.of_nat (length (filter (fun j => loads (region_view ks d j) = true) (seqZ 0 (kf_capacity ks)))) /\
  ((exists i, 0 <= i < kf_capacity ks /\ loads (region_view ks d i) = false) ->
    loads (region_view ks d (kr_head r)) = false /\
    forall j, 0 <= j < kr_head r -> loads (region_view ks d j) = true) /\
  ((forall i, 0 <= i < kf_capacity ks -> loads (region_view ks d i) = true) ->
    exists e ps, region_view ks d (kr_head r) = inr (e, ps) /\
      forall j e' ps', 0 <= j < kf_capacity ks -> region_view ks d j = inr (e', ps') -> e <= e') /\
  0 <= kr_head r < kf_capacity ks.
Proof.
  intros W Hd. pose proof (kw_capacity _ _ W) as Hc. destruct (rebuilding_start ks d W) as [Hcr Hstart].
  assert (ks_wf dev (ring_reset ks)) as W0.
  { apply wf_set_ring; [exact W|]. pose proof (rb_head _ _ _ _ _ Hstart) as Hh. unfold ring_reset in Hh.
    cbn [kf_ring set_ring] in Hh. rewrite Hh. lia. }
  unfold rebuild_ring. rewrite Hcr.
  destruct (rebuild_regions_ok (ring_reset ks) d (Z.to_nat (kf_capacity ks)) 0
    {| rs_first_empty := kf_capacity ks; rs_have_empty := false; rs_oldest := 0;
       rs_oldest_slot := 0; rs_any := false |} W0 ltac:(lia) ltac:(rewrite Hcr; lia) Hstart)
    as (ks' & s & -> & L & Hin & R).
  rewrite Hcr in R. change (region_view (ring_reset ks) d) with (region_view ks d) in R.
  cbn [negb Z.eqb KEYFRAME_STORE_OK].
  set (h := if rs_have_empty s then rs_first_empty s else if rs_any s then rs_oldest_slot s else 0).
  destruct R as [Rc Rs Rh Rd Rt Rn Re Ro].
  assert (0 <= h < kf_capacity ks) as Hh.
  { subst h. destruct (rs_have_empty s); [lia|]. destruct (rs_any s); lia. }
  assert (ks_wf dev (set_ring ks' (ring_set_head (kf_ring ks') h))) as W'.
  { apply (wf_layout ks); try assumption. }
  pose proof (kw_head _ _ W').
  pose proof (write_index_inv _ d W' Hd Rs) as Hd'.
  destruct (write_index _ d) as [rc d'].
  split; [exact Hd'|]. split; [exact L|]. cbn [set_ring kf_ring ring_set_head kr_capacity kr_head kr_count].
  split; [exact Rc|]. split; [exact Rd|]. split; [exact Rn|]. split; [|split; [|exact Hh]].
  - intros (i & Hi & Hl). subst h. destruct (rs_have_empty s); [apply Re|].
    rewrite Re in Hl by exact Hi. discriminate.
  - intros Hall. subst h. destruct (rs_have_empty s).
    + destruct Re as (E1 & E2 & _). rewrite Hall in E2 by lia. discriminate.
    + destruct (rs_any s).
      * destruct Ro as (_ & (ps & Hps) & Hmin). exists (rs_oldest s), ps. split; [exact Hps | exact Hmin].
      * specialize (Hall 0 ltac:(lia)). rewrite Ro in Hall by lia. discriminate.
Qed.
End proofs.

(** ** Properties *)

(** A history of checkpoint sessions. *)
Fixpoint keyframe_save_all {D} (ks : keyframe_store_t D) (d : D) (cks : list (Z * list page))
  : list Z * keyframe_store_t D * D :=
  match cks with
  | [] => ([], ks, d)
  | c :: cks =>
      let '(rc, ks, d) := keyframe_save ks d c in
      let '(rcs, ks, d) := keyframe_save_all ks d cks in (rc :: rcs, ks, d)
  end.

Lemma retained_save_all {D} (dev : fat_block_device_t D) `{!BlockDevice dev, !ReliableDevice dev}
    (ks : keyframe_store_t D) (d : D) (done cks : list (Z * list page)) :
  retained (dev := dev) ks d done ->
  Forall (fun c => ckpt_ok (region_store ks 0) c /\
                   Z.of_nat (length c.2) <= st_max_records (region_store ks 0)) cks ->
  let '(rcs, ks', d') := keyframe_save_all ks d cks in
  Forall (fun rc => rc = KEYFRAME_STORE_OK) rcs /\ retained (dev := dev) ks' d' (done ++ cks) /\
  kf_capacity ks' = kf_capacity ks.
Proof.
  revert ks d done; induction cks as [|c cks IH]; intros ks d done R Hok.
  - cbn. rewrite app_nil_r. split; [constructor | split; [exact R | reflexivity]].
  - apply Forall_cons in Hok as [[Hc Hl] Hok]. cbn [keyframe_save_all].
    pose proof (retained_save ks d done c R Hc Hl) as H.
    destruct (keyframe_save ks d c) as [[rc ks1] d1]. destruct H as (-> & R1 & Hst & Hcap).
    assert (Forall (fun c => ckpt_ok (region_store ks1 0) c /\
      Z.of_nat (length c.2) <= st_max_records (region_store ks1 0)) cks) as Hok1
      by (rewrite Hst; exact Hok).
    specialize (IH ks1 d1 _ R1 Hok1). destruct (keyframe_save_all ks1 d1 cks) as [[rcs ks2] d2].
    destruct IH as (H1 & H2 & H3). rewrite <- app_assoc in H2. cbn [app] in H2.
    split; [constructor; [reflexivity | exact H1] | split; [exact H2 | congruence]].
Qed.

(** A store just bound to a device region that holds it. *)
Lemma keyframe_init_ok {D} (dev : fat_block_device_t D) `{!BlockDevice dev} (ks0 : keyframe_store_t D)
    (base index cap slots : Z) :
  0 <= base -> 3 <= index <= 4 -> 1 <= cap <= 64 -> 10 <= slots ->
  base + index + cap * (1 + 2 * slots) <= total_sectors dev ->
  exists ks, keyframe_store_init (& ks0) (& dev) base index cap slots = (KEYFRAME_STORE_OK, & ks) /\
    ks_wf dev ks /\ ring_models (kf_ring ks) (Z.to_nat cap) [] /\ ring_fits (kf_ring ks) /\
    kf_capacity ks = cap /\ kf_region_slot_sectors ks = slots.
Proof.
  intros Hb Hi Hc Hs Hf. pose proof (bd_total (dev := dev)). unfold keyframe_store_init.
  unfold KEYFRAME_RING_MAX, KEYFRAME_STORE_INDEX_MAX_SECTORS.
  change ((keyframe_ring_packed_size + SNAPSHOT_SECTOR_SIZE - 1) / SNAPSHOT_SECTOR_SIZE) with 3.
  change (SNAPSHOT_SECTORS_PER_RECORD + 1) with 10.
  rewrite (proj2 (Z.eqb_neq cap 0)), (proj2 (Z.ltb_ge 64 cap)), (proj2 (Z.ltb_ge slots 10)),
    (proj2 (Z.ltb_ge index 3)), (proj2 (Z.ltb_ge 4 index)) by lia.
  cbn [orb]. destruct (init_models ring_zero (Z.to_nat cap) ltac:(lia)) as (r & Hr & M).
  rewrite Z2Nat.id in Hr by lia. pose proof (init_fits _ _ _ Hr ltac:(lia)) as F. rewrite Hr. cbn [snd deref].
  eexists. split; [reflexivity|]. cbn [kf_ring kf_capacity kf_region_slot_sectors].
  split; [|split_and!; [exact M | exact F | reflexivity | reflexivity]].
  assert (1 + 2 * slots <= total_sectors dev) by nia.
  split; cbn; try reflexivity; try lia; rewrite ?(u32_id (2 * slots)), ?u32_id by lia; try lia.
  - unfold fits. lia.
  - rewrite (rm_head _ _ _ M). cbn [length]. rewrite Z.mod_0_l by lia. lia.
Qed.

(** C30: a checkpoint session through the retention ring is crash-safe: on a
    device that may fail or lose power at any write, every other retained
    region reads as before; the region being written reads as before or holds
    the complete new checkpoint; and the in-memory ring advances to the new
    epoch only when that region holds it (a session that leaves the ring alone
    does not report success). *)
Theorem keyframe_save_crash_safe {D} (dev : fat_block_device_t D) `{!BlockDevice dev}
    (ks : keyframe_store_t D) (d : D) (ckpt : Z * list page) :
  ks_wf dev ks -> bd_inv d -> ring_fits (kf_ring ks) -> kr_capacity (kf_ring ks) = kf_capacity ks ->
  0 <= kr_count (kf_ring ks) <= kf_capacity ks ->
  ckpt_ok (region_store ks (kr_head (kf_ring ks))) ckpt ->
  let h := kr_head (kf_ring ks) in
  let '(rc, ks', d') := keyframe_save ks d ckpt in
  (forall i, 0 <= i < kf_capacity ks -> i <> h -> region_view ks d' i = region_view ks d i) /\
  (kf_ring ks' = kf_ring ks /\
     (region_view ks d' h = region_view ks d h \/ region_view ks d' h = inr ckpt) /\
     rc <> KEYFRAME_STORE_OK
   \/ keyframe_ring_advance (& (kf_ring ks)) ckpt.1 = (h, & (kf_ring ks')) /\
      region_view ks d' h = inr ckpt).
Proof.
  intros W Hd F Hc Hn Hok h. pose proof (keyframe_save_spec ks d ckpt W Hd F Hc Hn Hok) as H.
  cbv zeta in H. destruct (keyframe_save ks d ckpt) as [[rc ks'] d'].
  destruct H as (_ & _ & H1 & H2). split; assumption.
Qed.

Definition keyframe_none {D} : keyframe_store_t D :=
  {| kf_dev := NULL; kf_base_sector := 0; kf_index_sectors := 0; kf_capacity := 0;
     kf_region_slot_sectors := 0; kf_region_sectors := 0; kf_kernel_version := 0; kf_ring := ring_zero;
     kf_region := store_zero; kf_initialized := false |}.

(** Three regions of two records per slot, at sector 8 of a RAM disk. *)
Definition example_keyframes {D} (dev : fat_block_device_t D) : keyframe_store_t D :=
  deref keyframe_none (keyframe_store_init (& keyframe_none) (& dev) 8 3 3 19).2.

Lemma example_keyframes_ok {D} (dev : fat_block_device_t D) `{!BlockDevice dev} :
  total_sectors dev = 2048 ->
  let ks := example_keyframes dev in
  ks_wf dev ks /\ ring_models (kf_ring ks) 3 [] /\ ring_fits (kf_ring ks) /\ kf_capacity ks = 3 /\
  kf_region_slot_sectors ks = 19.
Proof.
  intros Ht. destruct (keyframe_init_ok dev keyframe_none 8 3 3 19) as (ks & Hi & H); [lia..|].
  unfold example_keyframes. rewrite Hi. exact H.
Qed.

Lemma keyframe_save_crash_safe_witness :
  let ks := example_keyframes (cut_device ramdisk_device) in
  let ckpt := (5, example_page <$> [4096]) in
  let '(rc, ks', d') := keyframe_save ks (7, ramdisk_fresh) ckpt in
  (forall i, 0 <= i < 3 -> i <> 0 -> region_view ks d' i = region_view ks (7, ramdisk_fresh) i) /\
  (kf_ring ks' = kf_ring ks /\
     (region_view ks d' 0 = region_view ks (7, ramdisk_fresh) 0 \/ region_view ks d' 0 = inr ckpt) /\
     rc <> KEYFRAME_STORE_OK
   \/ keyframe_ring_advance (& (kf_ring ks)) 5 = (0, & (kf_ring ks')) /\ region_view ks d' 0 = inr ckpt).
Proof.
  destruct (example_keyframes_ok (cut_device ramdisk_device) eq_refl) as (W & M & F & Hc & Hs).
  pose proof (keyframe_save_crash_safe (cut_device ramdisk_device) (example_keyframes (cut_device ramdisk_device))
    (7, ramdisk_fresh) (5, example_page <$> [4096])) as H.
  cbv zeta in H. rewrite Hc in H. change (kr_head (kf_ring (example_keyframes (cut_device ramdisk_device)))) with 0 in H.
  apply H; try assumption; try reflexivity.
  - exact ramdisk_fresh_inv.
  - change (0 <= 0 <= 3). lia.
  - split; [cbn; unfold fits; lia|]. repeat constructor; cbn; unfold fits; try lia.
Defined.

(** C25: the keyframe store is a window of the last N checkpoints: on a device
    without I/O errors every session of any history succeeds, and selecting a
    target epoch afterwards opens the nearest retained checkpoint at or before
    it, whose pages read back exactly as saved; the selection fails only when
    the target predates the window. *)
Theorem keyframe_store_window {D} (dev : fat_block_device_t D) `{!BlockDevice dev, !ReliableDevice dev}
    (ks0 : keyframe_store_t D) (d : D) (base index cap slots : Z) (cks : list (Z * list page)) (target : Z) :
  0 <= base -> 3 <= index <= 4 -> 1 <= cap <= 64 -> 10 <= slots ->
  base + index + cap * (1 + 2 * slots) <= total_sectors dev -> bd_inv d ->
  Forall (fun c => fits 8 c.1 /\ Forall page_ok c.2 /\ Z.of_nat (length c.2) <= (slots - 1) / 9) cks ->
  let ks := deref ks0 (keyframe_store_init (& ks0) (& dev) base index cap slots).2 in
  let '(rcs, ks', d') := keyframe_save_all ks d cks in
  let w := drop (length cks - Z.to_nat cap) cks in
  Forall (fun rc => rc = KEYFRAME_STORE_OK) rcs /\
  match keyframe_store_load_epoch true (& ks') d' target (& reader_zero) with
  | (rc, Some k, Some r, Some e) => rc = KEYFRAME_STORE_OK /\ e <= target /\
      (forall c, c ∈ w -> c.1 <= target -> c.1 <= e) /\
      exists ps, (e, ps) ∈ w /\ read_pages (kf_region k) d' (& r) (Z.to_nat (r_record_count r)) = ps
  | (rc, _, _, _) => rc = KEYFRAME_STORE_ERR_NO_KEYFRAME /\ forall c, c ∈ w -> target < c.1
  end.
Proof.
  intros Hb Hi Hc Hs Hf Hd Hok.
  destruct (keyframe_init_ok dev ks0 base index cap slots Hb Hi Hc Hs Hf) as (ks & -> & W & M & F & Hcap & Hsl).
  cbn [snd deref].
  assert (retained (dev := dev) ks d []) as R.
  { split; try assumption; [rewrite Hcap; exact M|]. intros k c _ Hk. rewrite lookup_nil in Hk. discriminate. }
  pose proof (retained_save_all dev ks d [] cks R) as H.
  assert (slots - 1 = u32 (kf_region_slot_sectors ks - 1)) as Hu.
  { pose proof (bd_total (dev := dev)). rewrite Hsl, u32_id by nia. reflexivity. }
  assert (Forall (fun c => ckpt_ok (region_store ks 0) c /\
      Z.of_nat (length c.2) <= st_max_records (region_store ks 0)) cks) as Hok'.
  { eapply Forall_impl; [exact Hok|]. intros c (H1 & H2 & H3). split; [split; assumption|].
    cbn [region_store st_max_records]. change SNAPSHOT_SECTORS_PER_RECORD with 9. rewrite <- Hu. exact H3. }
  specialize (H Hok'). destruct (keyframe_save_all ks d cks) as [[rcs ks'] d'].
  destruct H as (Hrcs & R' & Hcap'). cbn [app] in R'. split; [exact Hrcs|].
  pose proof (load_epoch_retained ks' d' cks target R') as HL. cbv zeta in HL.
  rewrite Hcap', Hcap in HL. exact HL.
Qed.

Lemma keyframe_store_window_witness :
  let ks := deref keyframe_none (keyframe_store_init (& keyframe_none) (& ramdisk_device) 8 3 2 19).2 in
  let cks := [(5, example_page <$> [4096]); (6, example_page <$> [8192]); (9, [])] in
  let '(rcs, ks', d') := keyframe_save_all ks ramdisk_fresh cks in
  let w := drop (length cks - 2) cks in
  Forall (fun rc => rc = KEYFRAME_STORE_OK) rcs /\
  match keyframe_store_load_epoch true (& ks') d' 8 (& reader_zero) with
  | (rc, Some k, Some r, Some e) => rc = KEYFRAME_STORE_OK /\ e <= 8 /\
      (forall c, c ∈ w -> c.1 <= 8 -> c.1 <= e) /\
      exists ps, (e, ps) ∈ w /\ read_pages (kf_region k) d' (& r) (Z.to_nat (r_record_count r)) = ps
  | (rc, _, _, _) => rc = KEYFRAME_STORE_ERR_NO_KEYFRAME /\ forall c, c ∈ w -> 8 < c.1
  end.
Proof.
  apply (keyframe_store_window ramdisk_device keyframe_none ramdisk_fresh 8 3 2 19
           [(5, example_page <$> [4096]); (6, example_page <$> [8192]); (9, [])] 8);
    try lia; [cbn; unfold RAMDISK_TOTAL_SECTORS; lia | exact ramdisk_fresh_inv |].
  change ((19 - 1) / 9) with 2.
  repeat apply Forall_cons_2; try apply Forall_nil_2; split_and!; cbn; unfold fits; try lia;
    repeat constructor; cbn; unfold fits; lia.
Defined.

(** Once a session has reported success, a rebooted store bound to the same
    layout reloads the very ring that session left, from the persisted index. *)
Theorem keyframe_store_reload {D} (dev : fat_block_device_t D) `{!BlockDevice dev}
    (ks ks0 : keyframe_store_t D) (d : D) (ckpt : Z * list page) :
  ks_wf dev ks -> ks_wf dev ks0 -> same_layout ks ks0 -> bd_inv d -> ring_fits (kf_ring ks) ->
  kr_capacity (kf_ring ks) = kf_capacity ks -> 0 <= kr_count (kf_ring ks) <= kf_capacity ks ->
  ckpt_ok (region_store ks (kr_head (kf_ring ks))) ckpt ->
  let '(rc, ks', d') := keyframe_save ks d ckpt in
  rc = KEYFRAME_STORE_OK ->
  keyframe_store_load_index true (& ks0) d' = (KEYFRAME_STORE_OK, & (set_ring ks0 (kf_ring ks')), d').
Proof.
  intros W W0 L Hd F Hcap Hcnt Hok. pose proof (kw_head _ _ W) as Hh. pose proof (kw_capacity _ _ W) as Hc.
  pose proof (keyframe_save_eq ks d ckpt W Hd) as HE. cbv zeta in HE.
  pose proof (save_spec (region_store_wf ks _ W Hh) d ckpt Hd Hok) as Hs.
  destruct (save (region_store ks (kr_head (kf_ring ks))) d ckpt) as [rc d1]. destruct Hs as (Hd1 & _).
  destruct (rc =? SNAPSHOT_OK).
  2:{ destruct HE as (rc2 & Hne & ->). intros ->. destruct Hne. reflexivity. }
  assert (kf_ring (after_save ks ckpt.1) = deref (kf_ring ks) (keyframe_ring_advance (& (kf_ring ks)) ckpt.1).2) as HR
    by reflexivity.
  unfold keyframe_ring_advance in HR. rewrite Hcap, (proj2 (Z.eqb_neq _ 0)) in HR by lia. cbn [snd deref] in HR.
  assert (kr_capacity (kf_ring (after_save ks ckpt.1)) = kf_capacity ks) as Hcap' by (rewrite HR; reflexivity).
  assert (ks_wf dev (after_save ks ckpt.1)) as W'.
  { apply wf_set_ring; [apply wf_set_region; exact W|].
    change (0 <= kr_head (kf_ring (after_save ks ckpt.1)) < kf_capacity ks). rewrite HR. cbn [kr_head].
    apply Z.mod_pos_bound. lia. }
  assert (ring_fits (kf_ring (after_save ks ckpt.1))) as F'.
  { refine (advance_fits (kf_ring ks) ckpt.1 F (proj1 Hok) _ _ _ (kr_head (kf_ring ks)) _ _); try lia.
    rewrite HR. unfold keyframe_ring_advance. rewrite Hcap, (proj2 (Z.eqb_neq _ 0)) by lia. reflexivity. }
  pose proof (reload_index (after_save ks ckpt.1) ks0 d1 W' W0 L Hd1 F' Hcap') as HL.
  rewrite HE. destruct (write_index (after_save ks ckpt.1) d1) as [rc2 d2]. exact HL.
Qed.

Lemma keyframe_store_reload_witness :
  let ks := example_keyframes ramdisk_device in
  let '(rc, ks', d') := keyframe_save ks ramdisk_fresh (5, example_page <$> [4096]) in
  rc = KEYFRAME_STORE_OK ->
  keyframe_store_load_index true (& ks) d' = (KEYFRAME_STORE_OK, & (set_ring ks (kf_ring ks')), d').
Proof.
  destruct (example_keyframes_ok ramdisk_device eq_refl) as (W & M & F & Hc & Hs).
  apply (keyframe_store_reload ramdisk_device (example_keyframes ramdisk_device) (example_keyframes ramdisk_device)
           ramdisk_fresh (5, example_page <$> [4096])); try assumption.
  - unfold same_layout; split_and!; reflexivity.
  - exact ramdisk_fresh_inv.
  - change (0 <= 0 <= 3). lia.
  - split; [cbn; unfold fits; lia|]. repeat constructor; cbn; unfold fits; lia.
Defined.

(** When the index is torn or absent, the ring is rebuilt from the regions
    themselves: each slot gets the epoch of its region if that region loads
    and is empty otherwise, the count is the number of regions that load, and
    the next region to claim is the first one that does not load or, when all
    do, the one with the oldest epoch. *)
Theorem rebuild_ring_spec {D} (dev : fat_block_device_t D) `{!BlockDevice dev}
    (ks : keyframe_store_t D) (d : D) :
  ks_wf dev ks -> bd_inv d ->
  let view := region_view ks d in
  let '(rc, ks', d') := rebuild_ring true ks d in
  let r := kf_ring ks' in
  kr_capacity r = kf_capacity ks /\ 0 <= kr_head r < kf_capacity ks /\
  (forall i, 0 <= i < kf_capacity ks -> slot_at r i = slot_for (view i)) /\
  kr_count r = Z.of_nat (length (filter (fun j => loads (view j) = true) (seqZ 0 (kf_capacity ks)))) /\
  ((exists i, 0 <= i < kf_capacity ks /\ loads (view i) = false) ->
    loads (view (kr_head r)) = false /\ forall j, 0 <= j < kr_head r -> loads (view j) = true) /\
  ((forall i, 0 <= i < kf_capacity ks -> loads (view i) = true) ->
    exists e ps, view (kr_head r) = inr (e, ps) /\
      forall j e' ps', 0 <= j < kf_capacity ks -> view j = inr (e', ps') -> e <= e').
Proof.
  intros W Hd view. pose proof (rebuild_ring_ok ks d W Hd) as H.
  destruct (rebuild_ring true ks d) as [[rc ks'] d']. cbv zeta in H.
  destruct H as (_ & _ & H1 & H2 & H3 & H4 & H5 & H6). exact (conj H1 (conj H6 (conj H2 (conj H3 (conj H4 H5))))).
Qed.

Lemma rebuild_ring_spec_witness :
  let ks := example_keyframes ramdisk_device in
  let '(rc, ks', d') := rebuild_ring true ks ramdisk_fresh in
  kr_capacity (kf_ring ks') = 3 /\ 0 <= kr_head (kf_ring ks') < 3.
Proof.
  destruct (example_keyframes_ok ramdisk_device eq_refl) as (W & M & F & Hc & Hs).
  pose proof (rebuild_ring_spec ramdisk_device (example_keyframes ramdisk_device) ramdisk_fresh W ramdisk_fresh_inv) as H.
  cbv zeta in H |- *. destruct (rebuild_ring true (example_keyframes ramdisk_device) ramdisk_fresh) as [[rc ks'] d'].
  destruct H as (H1 & H2 & _). rewrite Hc in H1, H2. split; [exact H1 | exact H2].
Defined.
