(* ===== verification/Recorders.v ===== *)
(** * Recording and replaying nondeterminism
    (kernel/sched_record.c, kernel/time_record.c, kernel/entropy_record.c)

    Three decision cores of the same shape: in RECORD mode they log what the
    live run observed into a caller-provided buffer, in REPLAY mode they give
    the log back and never look at the live source.  The buffer is the list
    [points]/[log] of the struct; the live clock and the entropy source are
    functions over the state [S] of the world they read. *)
From Stdlib Require Import ZArith Lia.
From S2P Require Import Prelude.
Open Scope Z_scope.
Open Scope c_scope.

(** [for (i = 0; i < n; i++) log[i] = vals[i];] *)
Definition copy_into {A} (log vals : list A) (n : Z) : list A :=
  take (Z.to_nat n) vals ++ drop (Z.to_nat n) log.

(** ** Preemption points *)
Module Sched.
Inductive sched_rec_mode_t := SCHED_REC_OFF | SCHED_REC_RECORD | SCHED_REC_REPLAY.
Definition SCHED_REC_OK : Z := 0.
Definition SCHED_REC_ERR_PARAM : Z := -1.

Record sched_record_t := {
  mode : sched_rec_mode_t;
  epoch : Z;
  points : list Z;
  capacity : Z;
  count : Z;
  cursor : Z;
  overflow : Z }.

Definition sched_record_init (r : ptr sched_record_t) (m : sched_rec_mode_t)
    (buf : ptr (list Z)) (cap : Z) : Z * ptr sched_record_t :=
  match r, buf with
  | Some _, Some b =>
      if cap =? 0 then (SCHED_REC_ERR_PARAM, r)
      else (SCHED_REC_OK, & {| mode := m; epoch := 0; points := b; capacity := cap;
                               count := 0; cursor := 0; overflow := 0 |})
  | _, _ => (SCHED_REC_ERR_PARAM, r)
  end.

Definition sched_record_set_mode (r : ptr sched_record_t) (m : sched_rec_mode_t) : ptr sched_record_t :=
  match r with
  | NULL => NULL
  | Some k => & {| mode := m; epoch := epoch k; points := points k; capacity := capacity k;
                   count := count k; cursor := cursor k; overflow := overflow k |}
  end.

Definition sched_record_begin_epoch (r : ptr sched_record_t) (e : Z) : ptr sched_record_t :=
  match r with
  | NULL => NULL
  | Some k => & {| mode := mode k; epoch := e; points := points k; capacity := capacity k;
                   count := 0; cursor := 0; overflow := 0 |}
  end.

Definition sched_record_load (r : ptr sched_record_t) (e : Z) (pts : ptr (list Z)) (n : Z)
  : Z * ptr sched_record_t :=
  match r with
  | NULL => (SCHED_REC_ERR_PARAM, r)
  | Some k =>
      if match pts with NULL => 0 <? n | Some _ => false end then (SCHED_REC_ERR_PARAM, r)
      else if capacity k <? n then (SCHED_REC_ERR_PARAM, r)
      else
        (SCHED_REC_OK,
         & {| mode := mode k; epoch := e;
              points := copy_into (points k) (match pts with Some p => p | NULL => [] end) n;
              capacity := capacity k; count := n; cursor := 0; overflow := 0 |})
  end.

Definition sched_record_decide (r : ptr sched_record_t) (want : bool) (lclock : Z)
  : bool * ptr sched_record_t :=
  match r with
  | NULL => (want, r)
  | Some k =>
      match mode k with
      | SCHED_REC_RECORD =>
          if want then
            if count k <? capacity k then
              (want, & {| mode := mode k; epoch := epoch k; points := zset (count k) lclock (points k);
                          capacity := capacity k; count := u32 (count k + 1); cursor := cursor k;
                          overflow := overflow k |})
            else
              (want, & {| mode := mode k; epoch := epoch k; points := points k; capacity := capacity k;
                          count := count k; cursor := cursor k; overflow := u32 (overflow k + 1) |})
          else (want, r)
      | SCHED_REC_REPLAY =>
          if (cursor k <? count k) && (zget 0 (points k) (cursor k) <=? lclock) then
            (true, & {| mode := mode k; epoch := epoch k; points := points k; capacity := capacity k;
                        count := count k; cursor := u32 (cursor k + 1); overflow := overflow k |})
          else (false, r)
      | SCHED_REC_OFF => (want, r)
      end
  end.

(** The count, with [*out] when [out] is not NULL. *)
Definition sched_record_points (r : ptr sched_record_t) : Z * ptr (list Z) :=
  match r with NULL => (0, NULL) | Some k => (count k, & (points k)) end.

(** *** The scheduler's use of it (kernel/scheduler.c, [scheduler_tick])

    [g_sched_rec] and [g_sched_lclock]; [current] is
    [checkpoint_current_epoch()] at the tick and [want] the policy's own
    decision. *)
Record sched_filter := { g_sched_rec : sched_record_t; g_sched_lclock : Z }.

Definition tick_decide (g : sched_filter) (current : Z) (want : bool) : bool * sched_filter :=
  let rec := g_sched_rec g in
  let '(rec, lclock) :=
    match mode rec with
    | SCHED_REC_OFF => (& rec, g_sched_lclock g)
    | _ =>
        if negb (current =? epoch rec)
        then (sched_record_begin_epoch (& rec) current, 0)
        else (& rec, g_sched_lclock g)
    end in
  let lclock := u64 (lclock + 1) in
  match sched_record_decide rec want lclock with
  | (b, Some rec) => (b, {| g_sched_rec := rec; g_sched_lclock := lclock |})
  | (b, NULL) => (b, {| g_sched_rec := g_sched_rec g; g_sched_lclock := lclock |})
  end.

Definition scheduler_preempt_load (g : sched_filter) (e : Z) (pts : ptr (list Z)) (n : Z)
  : Z * sched_filter :=
  match sched_record_load (& (g_sched_rec g)) e pts n with
  | (rc, Some rec) => (rc, {| g_sched_rec := rec; g_sched_lclock := g_sched_lclock g |})
  | (rc, NULL) => (rc, g)
  end.
End Sched.

(** ** Clock reads *)
Module Time.
Inductive time_rec_mode_t := TIME_REC_OFF | TIME_REC_RECORD | TIME_REC_REPLAY.
Definition TIME_REC_OK : Z := 0.
Definition TIME_REC_ERR_PARAM : Z := -1.

Record time_record_t (S : Type) := {
  mode : time_rec_mode_t;
  source : ptr (S -> Z * S);
  epoch : Z;
  log : list Z;
  capacity : Z;
  count : Z;
  cursor : Z;
  overflow : Z;
  underflow : Z;
  last : Z }.
Arguments mode {S}. Arguments source {S}. Arguments epoch {S}. Arguments log {S}.
Arguments capacity {S}. Arguments count {S}. Arguments cursor {S}. Arguments overflow {S}.
Arguments underflow {S}. Arguments last {S}.

Section ops.
Context {S : Type}.
Implicit Types (tr : ptr (time_record_t S)) (k : time_record_t S) (s : S).

Definition time_record_init tr (m : time_rec_mode_t) (src : ptr (S -> Z * S))
    (buf : ptr (list Z)) (cap : Z) : Z * ptr (time_record_t S) :=
  match tr, buf with
  | Some _, Some b =>
      if cap =? 0 then (TIME_REC_ERR_PARAM, tr)
      else (TIME_REC_OK, & {| mode := m; source := src; epoch := 0; log := b; capacity := cap;
                              count := 0; cursor := 0; overflow := 0; underflow := 0; last := 0 |})
  | _, _ => (TIME_REC_ERR_PARAM, tr)
  end.

Definition time_record_set_mode tr (m : time_rec_mode_t) : ptr (time_record_t S) :=
  match tr with
  | NULL => NULL
  | Some k => & {| mode := m; source := source k; epoch := epoch k; log := log k; capacity := capacity k;
                   count := count k; cursor := cursor k; overflow := overflow k;
                   underflow := underflow k; last := last k |}
  end.

Definition time_record_begin_epoch tr (e : Z) : ptr (time_record_t S) :=
  match tr with
  | NULL => NULL
  | Some k => & {| mode := mode k; source := source k; epoch := e; log := log k; capacity := capacity k;
                   count := 0; cursor := 0; overflow := 0; underflow := 0; last := last k |}
  end.

Definition time_record_load tr (e : Z) (vals : ptr (list Z)) (n : Z) : Z * ptr (time_record_t S) :=
  match tr with
  | NULL => (TIME_REC_ERR_PARAM, tr)
  | Some k =>
      if match vals with NULL => 0 <? n | Some _ => false end then (TIME_REC_ERR_PARAM, tr)
      else if capacity k <? n then (TIME_REC_ERR_PARAM, tr)
      else
        (TIME_REC_OK,
         & {| mode := mode k; source := source k; epoch := e;
              log := copy_into (log k) (match vals with Some v => v | NULL => [] end) n;
              capacity := capacity k; count := n; cursor := 0; overflow := 0; underflow := 0;
              last := last k |})
  end.

Definition read_live k s : Z * S :=
  match source k with NULL => (last k, s) | Some f => f s end.

Definition time_record_read tr s : Z * ptr (time_record_t S) * S :=
  match tr with
  | NULL => (0, tr, s)
  | Some k =>
      match mode k with
      | TIME_REC_RECORD =>
          let '(v, s) := read_live k s in
          let room := count k <? capacity k in
          (v, & {| mode := mode k; source := source k; epoch := epoch k;
                   log := if room then zset (count k) v (log k) else log k;
                   capacity := capacity k;
                   count := if room then u32 (count k + 1) else count k;
                   cursor := cursor k;
                   overflow := if room then overflow k else u32 (overflow k + 1);
                   underflow := underflow k; last := v |}, s)
      | TIME_REC_REPLAY =>
          let more := cursor k <? count k in
          let v := if more then zget 0 (log k) (cursor k) else last k in
          (v, & {| mode := mode k; source := source k; epoch := epoch k; log := log k;
                   capacity := capacity k; count := count k;
                   cursor := if more then u32 (cursor k + 1) else cursor k;
                   overflow := overflow k;
                   underflow := if more then underflow k else u32 (underflow k + 1);
                   last := v |}, s)
      | TIME_REC_OFF =>
          let '(v, s) := read_live k s in
          (v, & {| mode := mode k; source := source k; epoch := epoch k; log := log k;
                   capacity := capacity k; count := count k; cursor := cursor k;
                   overflow := overflow k; underflow := underflow k; last := v |}, s)
      end
  end.

Definition time_record_values tr : Z * ptr (list Z) :=
  match tr with NULL => (0, NULL) | Some k => (count k, & (log k)) end.
End ops.
End Time.

(** ** Entropy draws *)
Module Entropy.
Inductive entropy_rec_mode_t := ENTROPY_REC_OFF | ENTROPY_REC_RECORD | ENTROPY_REC_REPLAY.
Definition ENTROPY_REC_OK : Z := 0.
Definition ENTROPY_REC_ERR_PARAM : Z := -1.
Definition ENTROPY_REC_ERR_SOURCE : Z := -2.

(** The source fills [len] bytes: its result, the bytes, the world after. *)
Definition entropy_source_fn (S : Type) : Type := S -> Z -> Z * list byte * S.

Record entropy_record_t (S : Type) := {
  mode : entropy_rec_mode_t;
  source : ptr (entropy_source_fn S);
  epoch : Z;
  log : list byte;
  capacity : Z;
  count : Z;
  cursor : Z;
  overflow : Z;
  underflow : Z }.
Arguments mode {S}. Arguments source {S}. Arguments epoch {S}. Arguments log {S}.
Arguments capacity {S}. Arguments count {S}. Arguments cursor {S}. Arguments overflow {S}.
Arguments underflow {S}.

Section ops.
Context {S : Type}.
Implicit Types (er : ptr (entropy_record_t S)) (k : entropy_record_t S) (s : S).

Definition entropy_record_init er (m : entropy_rec_mode_t) (src : ptr (entropy_source_fn S))
    (buf : ptr (list byte)) (cap : Z) : Z * ptr (entropy_record_t S) :=
  match er, buf with
  | Some _, Some b =>
      if cap =? 0 then (ENTROPY_REC_ERR_PARAM, er)
      else (ENTROPY_REC_OK, & {| mode := m; source := src; epoch := 0; log := b; capacity := cap;
                                 count := 0; cursor := 0; overflow := 0; underflow := 0 |})
  | _, _ => (ENTROPY_REC_ERR_PARAM, er)
  end.

Definition entropy_record_set_mode er (m : entropy_rec_mode_t) : ptr (entropy_record_t S) :=
  match er with
  | NULL => NULL
  | Some k => & {| mode := m; source := source k; epoch := epoch k; log := log k; capacity := capacity k;
                   count := count k; cursor := cursor k; overflow := overflow k; underflow := underflow k |}
  end.

Definition entropy_record_begin_epoch er (e : Z) : ptr (entropy_record_t S) :=
  match er with
  | NULL => NULL
  | Some k => & {| mode := mode k; source := source k; epoch := e; log := log k; capacity := capacity k;
                   count := 0; cursor := 0; overflow := 0; underflow := 0 |}
  end.

Definition entropy_record_load er (e : Z) (bytes : ptr (list byte)) (n : Z)
  : Z * ptr (entropy_record_t S) :=
  match er with
  | NULL => (ENTROPY_REC_ERR_PARAM, er)
  | Some k =>
      if match bytes with NULL => 0 <? n | Some _ => false end then (ENTROPY_REC_ERR_PARAM, er)
      else if capacity k <? n then (ENTROPY_REC_ERR_PARAM, er)
      else
        (ENTROPY_REC_OK,
         & {| mode := mode k; source := source k; epoch := e;
              log := copy_into (log k) (match bytes with Some b => b | NULL => [] end) n;
              capacity := capacity k; count := n; cursor := 0; overflow := 0; underflow := 0 |})
  end.

(** The filled bytes are the second result. *)
Definition draw_live k s (len : Z) : Z * list byte * S :=
  match source k with
  | NULL => (ENTROPY_REC_OK, zeros (Z.to_nat len), s)
  | Some f =>
      let '(rc, out, s) := f s len in
      ((if rc =? 0 then ENTROPY_REC_OK else ENTROPY_REC_ERR_SOURCE), out, s)
  end.

(** The RECORD loop: one byte of the draw. *)
Definition record_byte k (b : byte) : entropy_record_t S :=
  if count k <? capacity k then
    {| mode := mode k; source := source k; epoch := epoch k; log := zset (count k) b (log k);
       capacity := capacity k; count := u32 (count k + 1); cursor := cursor k;
       overflow := overflow k; underflow := underflow k |}
  else
    {| mode := mode k; source := source k; epoch := epoch k; log := log k; capacity := capacity k;
       count := count k; cursor := cursor k; overflow := u32 (overflow k + 1);
       underflow := underflow k |}.

(** The REPLAY loop: one byte given back. *)
Definition replay_byte k : byte * entropy_record_t S :=
  if cursor k <? count k then
    (zget Byte.x00 (log k) (cursor k),
     {| mode := mode k; source := source k; epoch := epoch k; log := log k; capacity := capacity k;
        count := count k; cursor := u32 (cursor k + 1); overflow := overflow k; underflow := underflow k |})
  else
    (Byte.x00,
     {| mode := mode k; source := source k; epoch := epoch k; log := log k; capacity := capacity k;
        count := count k; cursor := cursor k; overflow := overflow k;
        underflow := u32 (underflow k + 1) |}).

Fixpoint replay_bytes k (n : nat) : list byte * entropy_record_t S :=
  match n with
  | O => ([], k)
  | Datatypes.S n =>
      let '(b, k) := replay_byte k in
      let '(bs, k) := replay_bytes k n in (b :: bs, k)
  end.

(** [out] says whether the output buffer is non-NULL. *)
Definition entropy_record_fill er s (out : bool) (len : Z)
  : Z * list byte * ptr (entropy_record_t S) * S :=
  match er with
  | NULL => (ENTROPY_REC_ERR_PARAM, [], er, s)
  | Some k =>
      if negb out && (0 <? len) then (ENTROPY_REC_ERR_PARAM, [], er, s)
      else
        match mode k with
        | ENTROPY_REC_RECORD =>
            let '(rc, o, s) := draw_live k s len in
            if negb (rc =? ENTROPY_REC_OK) then (rc, o, er, s)
            else (ENTROPY_REC_OK, o, & (foldl record_byte k o), s)
        | ENTROPY_REC_REPLAY =>
            let '(o, k) := replay_bytes k (Z.to_nat len) in (ENTROPY_REC_OK, o, & k, s)
        | ENTROPY_REC_OFF =>
            let '(rc, o, s) := draw_live k s len in (rc, o, er, s)
        end
  end.

Definition entropy_record_bytes er : Z * ptr (list byte) :=
  match er with NULL => (0, NULL) | Some k => (count k, & (log k)) end.
End ops.
End Entropy.
