(* ===== verification/RecordersSpec.v ===== *)
(** * Replaying gives back what recording observed *)
From Stdlib Require Import ZArith Lia Sorted.
From S2P Require Import Prelude.
From S2P Require Import Recorders.
Open Scope Z_scope.
Open Scope c_scope.

Lemma take_copy_into {A} (log vals : list A) n :
  (Z.to_nat n <= length vals)%nat -> take (Z.to_nat n) (copy_into log vals n) = take (Z.to_nat n) vals.
Proof.
  intros H. unfold copy_into. apply take_app_length'. rewrite length_take. lia.
Qed.

(** ** Preemption *)
Module SchedSpec.
Import Sched.

(** The scheduler calls the hook at every tick: what it wanted, at which
    logical clock. *)
Fixpoint run (r : ptr sched_record_t) (ticks : list (bool * Z)) : list bool * ptr sched_record_t :=
  match ticks with
  | [] => ([], r)
  | (want, lclock) :: ticks =>
      let '(b, r) := sched_record_decide r want lclock in
      let '(bs, r) := run r ticks in (b :: bs, r)
  end.

(** The clocks of the ticks that switched. *)
Definition switches (ticks : list (bool * Z)) : list Z := (filter (fun t => t.1 = true) ticks).*2.

Lemma switches_cons w l ticks :
  switches ((w, l) :: ticks) = if w then l :: switches ticks else switches ticks.
Proof. unfold switches. destruct w; reflexivity. Qed.

Lemma record_run k ticks :
  mode k = SCHED_REC_RECORD -> 0 <= count k -> capacity k < 2 ^ 32 ->
  Z.of_nat (length (points k)) = capacity k ->
  count k + Z.of_nat (length (switches ticks)) <= capacity k ->
  exists k', run (& k) ticks = (ticks.*1, & k') /\
    count k' = count k + Z.of_nat (length (switches ticks)) /\
    take (Z.to_nat (count k')) (points k') = take (Z.to_nat (count k)) (points k) ++ switches ticks /\
    length (points k') = length (points k).
Proof.
  revert k; induction ticks as [|[w l] ticks IH]; intros k Hm Hc Hcap Hl Hroom.
  { exists k. cbn. rewrite Z.add_0_r, app_nil_r. auto. }
  cbn [run sched_record_decide]. rewrite Hm, switches_cons in *. destruct w.
  - cbn [length] in *. rewrite (proj2 (Z.ltb_lt _ _)) by lia.
    set (k1 := Build_sched_record_t _ _ _ _ _ _ _).
    assert (u32 (count k + 1) = count k + 1) as Hu by (apply u32_id; lia).
    destruct (IH k1) as (k' & Hr & Hc' & Ht & Hl'); subst k1; cbn [mode count capacity points] in *;
      rewrite ?length_zset, ?Hu in *; try lia; try assumption; try reflexivity.
    exists k'. rewrite Hr. split; [reflexivity|]. split; [lia|]. split; [|assumption].
    rewrite Ht. replace (Z.to_nat (count k + 1)) with (S (Z.to_nat (count k))) by lia.
    rewrite <- (Z2Nat.id (count k)) at 2 by lia. rewrite take_zset_append by lia.
    rewrite <- app_assoc. reflexivity.
  - destruct (IH k Hm Hc Hcap Hl Hroom) as (k' & Hr & H). exists k'. rewrite Hr. split; [reflexivity | exact H].
Qed.

Lemma switches_later ticks l :
  Forall (fun t => l < t.2) ticks -> Forall (fun p => l < p) (switches ticks).
Proof.
  intros H. unfold switches. apply Forall_fmap, Forall_forall.
  intros t [_ Ht]%list_elem_of_filter. exact (proj1 (Forall_forall _ _) H t Ht).
Qed.

Lemma replay_run k ticks wants :
  mode k = SCHED_REC_REPLAY -> 0 <= cursor k -> 0 <= count k < 2 ^ 32 ->
  StronglySorted Z.lt ticks.*2 -> length wants = length ticks ->
  drop (Z.to_nat (cursor k)) (take (Z.to_nat (count k)) (points k)) = switches ticks ->
  (Z.to_nat (count k) <= length (points k))%nat ->
  (run (& k) (zip wants ticks.*2)).1 = ticks.*1.
Proof.
  revert k wants; induction ticks as [|[w l] ticks IH]; intros k wants Hm Hcur Hcnt Hs Hw Hrem Hlen.
  { destruct wants; [reflexivity | discriminate]. }
  destruct wants as [|w' wants]; [discriminate|]. injection Hw as Hw.
  rewrite !fmap_cons in *. cbn [fst snd] in *. inversion Hs as [|? ? Hs' Hlt]; subst.
  cbn [zip zip_with run sched_record_decide]. rewrite Hm. rewrite switches_cons in Hrem.
  assert (Forall (fun p => l < p) (switches ticks)) as Hlater.
  { apply switches_later. apply Forall_forall. intros t Ht.
    exact (proj1 (Forall_forall _ _) Hlt _ (list_elem_of_fmap_2 snd _ _ Ht)). }
  destruct w.
  - (* the recorded switch is due now *)
    assert (take (Z.to_nat (count k)) (points k) !! Z.to_nat (cursor k) = Some l) as Hhd.
    { rewrite <- (Nat.add_0_r (Z.to_nat (cursor k))), <- lookup_drop, Hrem. reflexivity. }
    pose proof (zget_take 0 _ _ _ _ Hhd) as Hg. rewrite Z2Nat.id in Hg by lia.
    assert (cursor k < count k) as Hlt'.
    { apply lookup_lt_Some in Hhd. rewrite length_take in Hhd. lia. }
    rewrite (proj2 (Z.ltb_lt _ _) Hlt'), Hg, Z.leb_refl. cbn [andb].
    set (k1 := Build_sched_record_t _ _ _ _ _ _ _). specialize (IH k1 wants).
    assert (u32 (cursor k + 1) = cursor k + 1) as Hu by (apply u32_id; lia).
    destruct (run (& k1) (zip wants ticks.*2)) as [bs k'] eqn:Hr. cbn [fst] in *. f_equal.
    apply IH; subst k1; cbn [mode cursor count points]; rewrite ?Hu; try assumption; try lia; try reflexivity.
    replace (Z.to_nat (cursor k + 1)) with (Z.to_nat (cursor k) + 1)%nat by lia.
    rewrite <- drop_drop, Hrem. reflexivity.
  - (* no recorded switch is due before a later clock *)
    assert (((cursor k <? count k) && (zget 0 (points k) (cursor k) <=? l)) = false) as ->.
    { destruct (Z.ltb_spec (cursor k) (count k)) as [Hlt'|]; [|reflexivity]. cbn [andb].
      destruct (lookup_lt_is_Some_2 (take (Z.to_nat (count k)) (points k)) (Z.to_nat (cursor k))) as [p Hp].
      { rewrite length_take. lia. }
      pose proof (zget_take 0 _ _ _ _ Hp) as Hg. rewrite Z2Nat.id in Hg by lia. rewrite Hg.
      apply Z.leb_gt. rewrite <- (Nat.add_0_r (Z.to_nat (cursor k))), <- lookup_drop, Hrem in Hp.
      apply (Forall_lookup_1 _ _ _ _ Hlater Hp). }
    destruct (run (& k) (zip wants ticks.*2)) as [bs k'] eqn:Hr. cbn [fst]. f_equal.
    specialize (IH k wants Hm Hcur Hcnt Hs' Hw Hrem Hlen). rewrite Hr in IH. exact IH.
Qed.
End SchedSpec.

(** Deterministic preemption: recording never changes a scheduling
    decision, and replaying the recorded switch points over the same strictly
    increasing clocks reproduces every decision, whatever the replayed time
    slices would have wanted. *)
Theorem sched_replay_same (r0 : Sched.sched_record_t) (buf buf' : list Z) (cap e : Z)
    (ticks : list (bool * Z)) (wants : list bool) :
  0 < cap < 2 ^ 32 -> Z.of_nat (length buf) = cap -> Z.of_nat (length buf') = cap ->
  StronglySorted Z.lt ticks.*2 -> Z.of_nat (length (SchedSpec.switches ticks)) <= cap ->
  length wants = length ticks ->
  let live := Sched.sched_record_begin_epoch
                (Sched.sched_record_init (& r0) Sched.SCHED_REC_RECORD (& buf) cap).2 e in
  let '(decided, r1) := SchedSpec.run live ticks in
  let '(n, pts) := Sched.sched_record_points r1 in
  let replay := Sched.sched_record_load
                  (Sched.sched_record_init (& r0) Sched.SCHED_REC_REPLAY (& buf') cap).2 e pts n in
  decided = ticks.*1 /\ replay.1 = Sched.SCHED_REC_OK /\
  (SchedSpec.run replay.2 (zip wants ticks.*2)).1 = decided.
Proof.
  intros Hcap Hb Hb' Hs Hn Hw. unfold Sched.sched_record_init. rewrite (proj2 (Z.eqb_neq cap 0)) by lia.
  cbn [snd Sched.sched_record_begin_epoch]. set (k := Sched.Build_sched_record_t _ _ _ _ _ _ _).
  destruct (SchedSpec.record_run k ticks) as (k' & Hr & Hc & Ht & Hl);
    subst k; cbn [Sched.mode Sched.count Sched.capacity Sched.points] in *; try lia; try reflexivity.
  rewrite Hr. cbn [Sched.sched_record_points]. unfold Sched.sched_record_load. cbn [Sched.capacity].
  rewrite (proj2 (Z.ltb_ge _ _)) by lia. cbn [fst snd]. split; [reflexivity|]. split; [reflexivity|].
  assert (Z.to_nat (Sched.count k') <= length (Sched.points k'))%nat as Hle by lia.
  apply SchedSpec.replay_run; cbn [Sched.mode Sched.cursor Sched.count Sched.points]; try assumption; try reflexivity; try lia.
  - rewrite drop_0, take_copy_into, Ht by exact Hle. reflexivity.
  - unfold copy_into. rewrite length_app, length_take, length_drop. lia.
Qed.

Lemma sched_replay_same_witness :
  let ticks := [(false, 1); (true, 2); (false, 3); (true, 7)] in
  let live := Sched.sched_record_begin_epoch
                (Sched.sched_record_init (& (Sched.Build_sched_record_t Sched.SCHED_REC_OFF 0 [] 0 0 0 0))
                   Sched.SCHED_REC_RECORD (& [0; 0; 0]) 3).2 5 in
  let '(decided, r1) := SchedSpec.run live ticks in
  let '(n, pts) := Sched.sched_record_points r1 in
  let replay := Sched.sched_record_load
                  (Sched.sched_record_init (& (Sched.Build_sched_record_t Sched.SCHED_REC_OFF 0 [] 0 0 0 0))
                     Sched.SCHED_REC_REPLAY (& [9; 9; 9]) 3).2 5 pts n in
  decided = [false; true; false; true] /\ replay.1 = Sched.SCHED_REC_OK /\
  (SchedSpec.run replay.2 (zip [true; true; true; true] [1; 2; 3; 7])).1 = decided.
Proof.
  apply (sched_replay_same (Sched.Build_sched_record_t Sched.SCHED_REC_OFF 0 [] 0 0 0 0)
           [0; 0; 0] [9; 9; 9] 3 5 [(false, 1); (true, 2); (false, 3); (true, 7)] [true; true; true; true]);
    try (cbn; lia); try reflexivity.
  - repeat constructor.
  - vm_compute. discriminate.
Defined.

(** ** The scheduler's filter *)
Module TickSpec.
Import Sched.

(** Consecutive ticks in the checkpoint epoch [current]. *)
Fixpoint ticks (g : sched_filter) (current : Z) (wants : list bool) : list bool * sched_filter :=
  match wants with
  | [] => ([], g)
  | w :: wants =>
      let '(b, g) := tick_decide g current w in
      let '(bs, g) := ticks g current wants in (b :: bs, g)
  end.

(** The ticks a filter feeds its record: clocks counting up from [c]. *)
Definition clocked (c : Z) (wants : list bool) : list (bool * Z) :=
  zip wants (seqZ (c + 1) (Z.of_nat (length wants))).

Lemma clocked_cons c w wants : clocked c (w :: wants) = (w, c + 1) :: clocked (c + 1) wants.
Proof.
  unfold clocked. cbn [length]. rewrite seqZ_cons by lia. cbn [zip zip_with].
  do 3 f_equal; lia.
Qed.

Lemma decide_keeps k w l :
  exists k', sched_record_decide (& k) w l = ((sched_record_decide (& k) w l).1, & k') /\
    mode k' = mode k /\ epoch k' = epoch k.
Proof.
  cbn [sched_record_decide]. destruct (mode k) eqn:Em; [eauto 6| |].
  - destruct w; [|eauto 6]. destruct (count k <? capacity k); eexists; split; try reflexivity; cbn; auto.
  - destruct (_ && _); eexists; split; try reflexivity; cbn; auto.
Qed.

Lemma ticks_run g current wants :
  epoch (g_sched_rec g) = current -> 0 <= g_sched_lclock g ->
  g_sched_lclock g + Z.of_nat (length wants) < 2 ^ 64 ->
  (ticks g current wants).1 = (SchedSpec.run (& (g_sched_rec g)) (clocked (g_sched_lclock g) wants)).1 /\
  & (g_sched_rec (ticks g current wants).2)
    = (SchedSpec.run (& (g_sched_rec g)) (clocked (g_sched_lclock g) wants)).2.
Proof.
  revert g; induction wants as [|w wants IH]; intros g He Hc Hb; [split; reflexivity|].
  cbn [length] in Hb. rewrite clocked_cons. cbn [ticks SchedSpec.run]. unfold tick_decide.
  assert (forall x : ptr sched_record_t * Z,
    match mode (g_sched_rec g) with
    | SCHED_REC_OFF => (& (g_sched_rec g), g_sched_lclock g)
    | _ => if negb (current =? epoch (g_sched_rec g)) then x else (& (g_sched_rec g), g_sched_lclock g)
    end = (& (g_sched_rec g), g_sched_lclock g)) as ->.
  { intros x. rewrite He, Z.eqb_refl. destruct (mode (g_sched_rec g)); reflexivity. }
  rewrite u64_id by lia.
  destruct (decide_keeps (g_sched_rec g) w (g_sched_lclock g + 1)) as (k' & -> & _ & He').
  set (g' := {| g_sched_rec := k'; g_sched_lclock := g_sched_lclock g + 1 |}).
  destruct (IH g') as [H1 H2]; [cbn; congruence | cbn; lia | cbn; lia|]. cbn [g' g_sched_rec g_sched_lclock] in H1, H2.
  destruct (ticks g' current wants) as [bs g'']. destruct (SchedSpec.run (& k') _) as [bs' r''].
  cbn [fst snd] in *. split; [f_equal; exact H1 | exact H2].
Qed.

(** Nothing left to replay: no switch is forced. *)
Lemma empty_replay k l : mode k = SCHED_REC_REPLAY -> count k = 0 -> 0 <= cursor k ->
  Forall (fun b => b = false) (SchedSpec.run (& k) l).1.
Proof.
  revert k; induction l as [|[w c] l IH]; intros k Hm Hc Hcur; [constructor|].
  cbn [SchedSpec.run sched_record_decide]. rewrite Hm, Hc, (proj2 (Z.ltb_ge _ _)) by lia. cbn [andb].
  specialize (IH k Hm Hc Hcur). destruct (SchedSpec.run (& k) l) as [bs k']. constructor; [reflexivity | exact IH].
Qed.
End TickSpec.

(** The scheduler replays an epoch only while the live checkpoint epoch is
    the loaded one.  When [checkpoint_current_epoch()] differs from the epoch
    whose points were loaded, the first tick starts a new record epoch, which
    discards every loaded point: whatever was loaded and whatever the policy
    wants, no preemption is forced. *)
Theorem tick_discards_loaded (g : Sched.sched_filter) (e current : Z) (pts : list Z) (n : Z) (wants : list bool) :
  Sched.mode (Sched.g_sched_rec g) = Sched.SCHED_REC_REPLAY -> 0 <= n <= Sched.capacity (Sched.g_sched_rec g) ->
  current <> e -> Z.of_nat (length wants) < 2 ^ 64 ->
  let '(rc, g1) := Sched.scheduler_preempt_load g e (& pts) n in
  rc = Sched.SCHED_REC_OK /\ Forall (fun b => b = false) (TickSpec.ticks g1 current wants).1.
Proof.
  intros Hm Hn Hne Hlen. unfold Sched.scheduler_preempt_load, Sched.sched_record_load.
  rewrite (proj2 (Z.ltb_ge _ _)) by lia. split; [reflexivity|].
  destruct wants as [|w wants]; [constructor|]. cbn [TickSpec.ticks length] in *. unfold Sched.tick_decide.
  cbn [Sched.g_sched_rec Sched.mode Sched.epoch]. rewrite Hm, (proj2 (Z.eqb_neq _ _) Hne). cbn [negb].
  cbn [Sched.sched_record_begin_epoch Sched.sched_record_decide Sched.mode Sched.count Sched.cursor Z.ltb Z.compare andb].
  set (k := Sched.Build_sched_record_t _ _ _ _ _ _ _).
  destruct (TickSpec.ticks_run {| Sched.g_sched_rec := k; Sched.g_sched_lclock := u64 (0 + 1) |} current wants)
    as [H1 _]; [reflexivity | discriminate | change (u64 (0 + 1)) with 1; cbn; lia |].
  destruct (TickSpec.ticks _ current wants) as [bs g'']. cbn [fst] in *. constructor; [reflexivity|].
  rewrite H1. apply TickSpec.empty_replay; [reflexivity | reflexivity | discriminate].
Qed.

Definition example_filter : Sched.sched_filter :=
  {| Sched.g_sched_rec := Sched.Build_sched_record_t Sched.SCHED_REC_REPLAY 0 [0; 0; 0] 3 0 0 0;
     Sched.g_sched_lclock := 0 |}.

(** Points 1 and 2 of epoch 5, replayed while the live epoch is 9: lost; in
    epoch 5 itself they force both switches. *)
Lemma tick_discards_loaded_witness :
  (let '(rc, g1) := Sched.scheduler_preempt_load example_filter 5 (& [1; 2]) 2 in
   rc = Sched.SCHED_REC_OK /\ Forall (fun b => b = false) (TickSpec.ticks g1 9 [true; true]).1) /\
  (TickSpec.ticks (Sched.scheduler_preempt_load example_filter 5 (& [1; 2]) 2).2 5 [false; false]).1 = [true; true].
Proof.
  split; [|vm_compute; reflexivity].
  apply (tick_discards_loaded example_filter 5 9 [1; 2] 2 [true; true]); cbn; lia || reflexivity.
Defined.

(** ** Clock reads *)
Module TimeSpec.
Import Time.

Fixpoint reads {S} (tr : ptr (time_record_t S)) (s : S) (n : nat)
  : list Z * ptr (time_record_t S) * S :=
  match n with
  | O => ([], tr, s)
  | Datatypes.S n =>
      let '(v, tr, s) := time_record_read tr s in
      let '(vs, tr, s) := reads tr s n in (v :: vs, tr, s)
  end.

(** The live source read [n] times. *)
Fixpoint live {S} (src : S -> Z * S) (s : S) (n : nat) : list Z * S :=
  match n with
  | O => ([], s)
  | Datatypes.S n => let '(v, s) := src s in let '(vs, s) := live src s n in (v :: vs, s)
  end.

Lemma length_live {S} (src : S -> Z * S) s n : length (live src s n).1 = n.
Proof.
  revert s; induction n as [|n IH]; intros s; [reflexivity|]. cbn. destruct (src s) as [v s1].
  specialize (IH s1). destruct (live src s1 n). cbn in *. f_equal. exact IH.
Qed.

Lemma record_reads {S} (src : S -> Z * S) (k : time_record_t S) s n :
  mode k = TIME_REC_RECORD -> source k = & src -> 0 <= count k -> capacity k < 2 ^ 32 ->
  Z.of_nat (length (log k)) = capacity k -> count k + Z.of_nat n <= capacity k ->
  exists k', reads (& k) s n = ((live src s n).1, & k', (live src s n).2) /\
    count k' = count k + Z.of_nat n /\
    take (Z.to_nat (count k')) (log k') = take (Z.to_nat (count k)) (log k) ++ (live src s n).1 /\
    length (log k') = length (log k).
Proof.
  revert k s; induction n as [|n IH]; intros k s Hm Hs Hc Hcap Hl Hroom.
  { exists k. cbn. rewrite Z.add_0_r, app_nil_r. auto. }
  cbn [reads time_record_read live]. rewrite Hm. unfold read_live. rewrite Hs.
  destruct (src s) as [v s1]. rewrite (proj2 (Z.ltb_lt (count k) (capacity k))) by lia.
  set (k1 := Build_time_record_t _ _ _ _ _ _ _ _ _ _ _).
  assert (u32 (count k + 1) = count k + 1) as Hu by (apply u32_id; lia).
  destruct (IH k1 s1) as (k' & Hr & Hc' & Ht & Hl'); subst k1; cbn [mode source count capacity log] in *;
    rewrite ?length_zset, ?Hu in *; try lia; try assumption; try reflexivity.
  rewrite Hr. destruct (live src s1 n) as [vs s2]. cbn [fst snd] in *. exists k'.
  split; [reflexivity|]. split; [lia|]. split; [|assumption].
  rewrite Ht. replace (Z.to_nat (count k + 1)) with (Datatypes.S (Z.to_nat (count k))) by lia.
  rewrite <- (Z2Nat.id (count k)) at 2 by lia. rewrite take_zset_append by lia.
  rewrite <- app_assoc. reflexivity.
Qed.

Lemma replay_reads {S} (k : time_record_t S) s n vs :
  mode k = TIME_REC_REPLAY -> 0 <= cursor k -> 0 <= count k < 2 ^ 32 ->
  drop (Z.to_nat (cursor k)) (take (Z.to_nat (count k)) (log k)) = vs ->
  (Z.to_nat (count k) <= length (log k))%nat -> 0 <= underflow k ->
  underflow k + Z.of_nat n < 2 ^ 32 -> cursor k <= count k ->
  exists k', reads (& k) s n =
    (take n vs ++ replicate (n - length vs) (default (last k) (list.last vs)), & k', s) /\
    underflow k' = underflow k + Z.of_nat (n - length vs).
Proof.
  revert k vs; induction n as [|n IH]; intros k vs Hm Hcur Hcnt Hrem Hlen Hu0 Hu Hle.
  { exists k. cbn. split; [reflexivity | lia]. }
  cbn [reads time_record_read]. rewrite Hm. destruct vs as [|v vs].
  - assert (count k <= cursor k) as Hend.
    { apply (f_equal length) in Hrem. rewrite length_drop, length_take in Hrem. cbn in Hrem. lia. }
    rewrite (proj2 (Z.ltb_ge _ _) Hend). set (k1 := Build_time_record_t _ _ _ _ _ _ _ _ _ _ _).
    assert (u32 (underflow k + 1) = underflow k + 1) as Hu' by (apply u32_id; lia).
    destruct (IH k1 []) as (k' & Hr & Hun); subst k1; cbn [mode cursor count log underflow last] in *;
      rewrite ?Hu' in *; try assumption; try lia; try reflexivity.
    rewrite Hr. exists k'. cbn [take length list.last default from_option app] in *.
    rewrite !Nat.sub_0_r, ?take_nil in *. split; [reflexivity | lia].
  - assert (take (Z.to_nat (count k)) (log k) !! Z.to_nat (cursor k) = Some v) as Hhd.
    { rewrite <- (Nat.add_0_r (Z.to_nat (cursor k))), <- lookup_drop, Hrem. reflexivity. }
    pose proof (zget_take 0 _ _ _ _ Hhd) as Hg. rewrite Z2Nat.id in Hg by lia.
    assert (cursor k < count k) as Hlt.
    { apply lookup_lt_Some in Hhd. rewrite length_take in Hhd. lia. }
    rewrite (proj2 (Z.ltb_lt _ _) Hlt), Hg. set (k1 := Build_time_record_t _ _ _ _ _ _ _ _ _ _ _).
    assert (u32 (cursor k + 1) = cursor k + 1) as Hu' by (apply u32_id; lia).
    destruct (IH k1 vs) as (k' & Hr & Hun); subst k1; cbn [mode cursor count log underflow last] in *;
      rewrite ?Hu' in *; try assumption; try lia; try reflexivity.
    { replace (Z.to_nat (cursor k + 1)) with (Z.to_nat (cursor k) + 1)%nat by lia.
      rewrite <- drop_drop, Hrem. reflexivity. }
    rewrite Hr. exists k'. cbn [take length]. split; [|cbn [Nat.sub]; exact Hun].
    do 2 f_equal. cbn [app Nat.sub]. f_equal. f_equal. f_equal.
    destruct vs as [|z vs]; [reflexivity|]. rewrite last_cons_cons.
    destruct (list.last (z :: vs)) eqn:Hl; [reflexivity|]. apply last_None in Hl. discriminate.
Qed.
End TimeSpec.

(** Deterministic time: the values a recorded run read from the live
    clock are returned again, in order, by the replayed run, which never reads
    the clock; reads past the recording repeat the last value and are counted
    as underflows. *)
Theorem time_replay_same {S S'} (r0 : Time.time_record_t S) (r0' : Time.time_record_t S')
    (src : S -> Z * S) (src' : ptr (S' -> Z * S')) (buf buf' : list Z) (cap e : Z)
    (s : S) (s' : S') (n m : nat) :
  0 < cap < 2 ^ 32 -> Z.of_nat (length buf) = cap -> Z.of_nat (length buf') = cap ->
  Z.of_nat n <= cap -> Z.of_nat m < 2 ^ 32 ->
  let rec := Time.time_record_begin_epoch
               (Time.time_record_init (& r0) Time.TIME_REC_RECORD (& src) (& buf) cap).2 e in
  let '(vs, r1, _) := TimeSpec.reads rec s n in
  let '(count, vals) := Time.time_record_values r1 in
  let replay := Time.time_record_load
                  (Time.time_record_init (& r0') Time.TIME_REC_REPLAY src' (& buf') cap).2 e vals count in
  let '(vs', r2, world) := TimeSpec.reads replay.2 s' m in
  vs = (TimeSpec.live src s n).1 /\ replay.1 = Time.TIME_REC_OK /\
  vs' = take m vs ++ replicate (m - n) (default 0 (list.last vs)) /\ world = s' /\
  (exists k, r2 = & k /\ Time.underflow k = Z.of_nat (m - n)).
Proof.
  intros Hcap Hb Hb' Hn Hm. unfold Time.time_record_init. rewrite (proj2 (Z.eqb_neq cap 0)) by lia.
  cbn [snd Time.time_record_begin_epoch]. set (k := Time.Build_time_record_t _ _ _ _ _ _ _ _ _ _ _).
  destruct (TimeSpec.record_reads src k s n) as (k' & Hr & Hc & Ht & Hl);
    subst k; cbn [Time.mode Time.source Time.count Time.capacity Time.log] in *; try lia; try reflexivity.
  rewrite Hr. cbn [Time.time_record_values]. unfold Time.time_record_load. cbn [Time.capacity].
  rewrite (proj2 (Z.ltb_ge _ _)) by lia. cbn [fst snd].
  set (vs := (TimeSpec.live src s n).1) in *. assert (length vs = n) as Hlv by apply TimeSpec.length_live.
  assert (Z.to_nat (Time.count k') <= length (Time.log k'))%nat as Hle by lia.
  set (k2 := Time.Build_time_record_t _ _ _ _ _ _ _ _ _ _ _).
  destruct (TimeSpec.replay_reads k2 s' m vs) as (k3 & Hr2 & Hu); subst k2;
    cbn [Time.mode Time.cursor Time.count Time.log Time.underflow Time.last] in *; try lia; try reflexivity.
  - rewrite drop_0, take_copy_into, Ht by exact Hle. reflexivity.
  - unfold copy_into. rewrite length_app, length_take, length_drop. lia.
  - rewrite Hr2, Hlv in *. split; [reflexivity|]. split; [reflexivity|]. split; [reflexivity|].
    split; [reflexivity|]. exists k3. split; [reflexivity|]. lia.
Qed.

Definition time_none {S} : Time.time_record_t S :=
  Time.Build_time_record_t S Time.TIME_REC_OFF NULL 0 [] 0 0 0 0 0 0.

Lemma time_replay_same_witness :
  let src := fun t => (t, t + 10) in
  let rec := Time.time_record_begin_epoch
               (Time.time_record_init (& time_none) Time.TIME_REC_RECORD (& src) (& [0; 0; 0]) 3).2 7 in
  let '(vs, r1, _) := TimeSpec.reads rec 100 2 in
  let '(count, vals) := Time.time_record_values r1 in
  let replay := Time.time_record_load
                  (Time.time_record_init (& time_none) Time.TIME_REC_REPLAY (& src) (& [0; 0; 0]) 3).2 7 vals count in
  let '(vs', r2, world) := TimeSpec.reads replay.2 555 3 in
  vs = [100; 110] /\ replay.1 = Time.TIME_REC_OK /\ vs' = [100; 110; 110] /\ world = 555 /\
  (exists k, r2 = & k /\ Time.underflow k = 1).
Proof.
  apply (time_replay_same time_none time_none (fun t => (t, t + 10)) (& (fun t => (t, t + 10)))
           [0; 0; 0] [0; 0; 0] 3 7 100 555 2 3); (reflexivity || (cbn; lia)).
Defined.

(** ** Entropy draws *)
Module EntropySpec.
Import Entropy.

(** A run of fill requests: the bytes handed out, one buffer per request. *)
Fixpoint fills {S} (er : ptr (entropy_record_t S)) (s : S) (lens : list nat)
  : list Z * list (list byte) * ptr (entropy_record_t S) * S :=
  match lens with
  | [] => ([], [], er, s)
  | n :: lens =>
      let '(rc, o, er, s) := entropy_record_fill er s true (Z.of_nat n) in
      let '(rcs, os, er, s) := fills er s lens in (rc :: rcs, o :: os, er, s)
  end.

(** A live source that always delivers the bytes it was asked for. *)
Definition reliable {S} (src : entropy_source_fn S) : Prop :=
  forall s n, (src s (Z.of_nat n)).1.1 = 0 /\ length (src s (Z.of_nat n)).1.2 = n.

Lemma record_byte_run {S} (k : entropy_record_t S) o :
  0 <= count k -> capacity k < 2 ^ 32 -> Z.of_nat (length (log k)) = capacity k ->
  count k + Z.of_nat (length o) <= capacity k ->
  let k' := foldl record_byte k o in
  mode k' = mode k /\ source k' = source k /\ capacity k' = capacity k /\
  count k' = count k + Z.of_nat (length o) /\ length (log k') = length (log k) /\
  take (Z.to_nat (count k')) (log k') = take (Z.to_nat (count k)) (log k) ++ o.
Proof.
  revert k; induction o as [|b o IH]; intros k Hc Hcap Hl Hroom; cbn [foldl].
  { cbn. rewrite Z.add_0_r, app_nil_r. repeat split. }
  cbn [length] in Hroom.
  assert (record_byte k b = {| mode := mode k; source := source k; epoch := epoch k;
    log := zset (count k) b (log k); capacity := capacity k; count := count k + 1; cursor := cursor k;
    overflow := overflow k; underflow := underflow k |}) as ->.
  { unfold record_byte. rewrite (proj2 (Z.ltb_lt (count k) (capacity k))) by lia.
    rewrite u32_id by lia. reflexivity. }
  specialize (IH (Build_entropy_record_t S (mode k) (source k) (epoch k) (zset (count k) b (log k))
    (capacity k) (count k + 1) (cursor k) (overflow k) (underflow k))).
  cbn [mode source capacity count log] in IH. rewrite length_zset in IH.
  destruct (IH ltac:(lia) Hcap Hl ltac:(lia)) as (H1 & H2 & H3 & H4 & H5 & H6).
  cbn [length]. split_and!; [assumption..| lia | assumption |].
  rewrite H6. replace (Z.to_nat (count k + 1)) with (Datatypes.S (Z.to_nat (count k))) by lia.
  rewrite <- (Z2Nat.id (count k)) at 2 by lia. rewrite take_zset_append by lia.
  rewrite <- app_assoc. reflexivity.
Qed.

Lemma record_fills {S} (src : entropy_source_fn S) (k : entropy_record_t S) s lens :
  reliable src -> mode k = ENTROPY_REC_RECORD -> source k = & src -> 0 <= count k -> capacity k < 2 ^ 32 ->
  Z.of_nat (length (log k)) = capacity k -> count k + Z.of_nat (sum_list lens) <= capacity k ->
  let '(rcs, os, r, _) := fills (& k) s lens in
  Forall (fun rc => rc = ENTROPY_REC_OK) rcs /\ length (mjoin os) = sum_list lens /\
  exists k', r = & k' /\ count k' = count k + Z.of_nat (sum_list lens) /\
    length (log k') = length (log k) /\
    take (Z.to_nat (count k')) (log k') = take (Z.to_nat (count k)) (log k) ++ mjoin os.
Proof.
  intros Hsrc. revert k s; induction lens as [|n lens IH]; intros k s Hm Hs Hc Hcap Hl Hroom.
  { cbn. split; [constructor|]. split; [reflexivity|]. exists k. rewrite Z.add_0_r, app_nil_r. auto. }
  change (sum_list (n :: lens)) with (n + sum_list lens)%nat in *. cbn [fills entropy_record_fill negb andb]. rewrite Hm. unfold draw_live. rewrite Hs.
  destruct (Hsrc s n) as [H0 Hln]. destruct (src s (Z.of_nat n)) as [[rc o] s1]. cbn in H0, Hln. subst rc.
  cbn [Z.eqb ENTROPY_REC_OK negb].
  pose proof (record_byte_run k o Hc Hcap Hl ltac:(lia)) as HB. cbv zeta in HB.
  set (k1 := foldl record_byte k o) in *. destruct HB as (B1 & B2 & B3 & B4 & B5 & B6).
  specialize (IH k1 s1 ltac:(congruence) ltac:(congruence) ltac:(lia) ltac:(lia) ltac:(lia) ltac:(lia)).
  destruct (fills (& k1) s1 lens) as [[[rcs os] r] s2]. destruct IH as (I1 & I2 & k' & -> & I4 & I5 & I6).
  split; [constructor; [reflexivity | exact I1]|]. change (mjoin (o :: os)) with (o ++ mjoin os).
  split; [rewrite length_app; lia|]. exists k'. split; [reflexivity|].
  split; [lia|]. split; [lia|]. rewrite I6, B6, <- app_assoc. reflexivity.
Qed.

Lemma replay_bytes_run {S} (k : entropy_record_t S) n vs :
  0 <= cursor k <= count k -> count k < 2 ^ 32 -> (Z.to_nat (count k) <= length (log k))%nat ->
  drop (Z.to_nat (cursor k)) (take (Z.to_nat (count k)) (log k)) = vs ->
  0 <= underflow k -> underflow k + Z.of_nat n < 2 ^ 32 ->
  let '(o, k') := replay_bytes k n in
  o = take n vs ++ zeros (n - length vs) /\ mode k' = mode k /\ count k' = count k /\ log k' = log k /\
  cursor k' = cursor k + Z.of_nat (Nat.min n (length vs)) /\
  underflow k' = underflow k + Z.of_nat (n - length vs).
Proof.
  revert k vs; induction n as [|n IH]; intros k vs Hcur Hcnt Hlen Hrem Hu0 Hu.
  { cbn. split_and!; try reflexivity; lia. }
  cbn [replay_bytes]. unfold replay_byte. destruct vs as [|v vs].
  - assert (count k <= cursor k) as Hend.
    { apply (f_equal length) in Hrem. rewrite length_drop, length_take in Hrem. cbn in Hrem. lia. }
    rewrite (proj2 (Z.ltb_ge _ _) Hend).
    assert (u32 (underflow k + 1) = underflow k + 1) as Hu' by (apply u32_id; lia).
    match goal with |- context [replay_bytes ?k1 n] => specialize (IH k1 []) end.
    cbn [cursor count log mode underflow] in IH. rewrite Hu' in *.
    specialize (IH Hcur Hcnt Hlen Hrem ltac:(lia) ltac:(lia)).
    destruct (replay_bytes _ n) as [o k']. destruct IH as (-> & H1 & H2 & H3 & H4 & H5).
    cbn [length] in *. rewrite take_nil in *. split_and!; try assumption; try lia.
    rewrite Nat.sub_0_r. reflexivity.
  - assert (take (Z.to_nat (count k)) (log k) !! Z.to_nat (cursor k) = Some v) as Hhd.
    { rewrite <- (Nat.add_0_r (Z.to_nat (cursor k))), <- lookup_drop, Hrem. reflexivity. }
    pose proof (zget_take Byte.x00 _ _ _ _ Hhd) as Hg. rewrite Z2Nat.id in Hg by lia.
    assert (cursor k < count k) as Hlt.
    { apply lookup_lt_Some in Hhd. rewrite length_take in Hhd. lia. }
    rewrite (proj2 (Z.ltb_lt _ _) Hlt), Hg.
    assert (u32 (cursor k + 1) = cursor k + 1) as Hu' by (apply u32_id; lia).
    match goal with |- context [replay_bytes ?k1 n] => specialize (IH k1 vs) end.
    cbn [cursor count log mode underflow] in IH. rewrite Hu' in *.
    assert (drop (Z.to_nat (cursor k + 1)) (take (Z.to_nat (count k)) (log k)) = vs) as Hrem'.
    { replace (Z.to_nat (cursor k + 1)) with (Z.to_nat (cursor k) + 1)%nat by lia.
      rewrite <- drop_drop, Hrem. reflexivity. }
    specialize (IH ltac:(lia) Hcnt Hlen Hrem' ltac:(lia) ltac:(lia)).
    destruct (replay_bytes _ n) as [o k']. destruct IH as (-> & H1 & H2 & H3 & H4 & H5).
    cbn [length Nat.sub Nat.min]. split_and!; try assumption; try lia. reflexivity.
Qed.

Lemma replay_fills {S} (k : entropy_record_t S) s lens vs :
  mode k = ENTROPY_REC_REPLAY -> 0 <= cursor k <= count k -> count k < 2 ^ 32 ->
  (Z.to_nat (count k) <= length (log k))%nat ->
  drop (Z.to_nat (cursor k)) (take (Z.to_nat (count k)) (log k)) = vs ->
  0 <= underflow k -> underflow k + Z.of_nat (sum_list lens) < 2 ^ 32 ->
  let '(rcs, os, r, s') := fills (& k) s lens in
  s' = s /\ Forall (fun rc => rc = ENTROPY_REC_OK) rcs /\
  mjoin os = take (sum_list lens) vs ++ zeros (sum_list lens - length vs) /\
  exists k', r = & k' /\ underflow k' = underflow k + Z.of_nat (sum_list lens - length vs).
Proof.
  revert k vs; induction lens as [|n lens IH]; intros k vs Hm Hcur Hcnt Hlen Hrem Hu0 Hu.
  { cbn. split_and!; try constructor; try reflexivity. exists k. split; [reflexivity | lia]. }
  change (sum_list (n :: lens)) with (n + sum_list lens)%nat in *. cbn [fills entropy_record_fill negb andb]. rewrite Hm, Nat2Z.id.
  pose proof (replay_bytes_run k n vs Hcur Hcnt Hlen Hrem Hu0 ltac:(lia)) as HB.
  destruct (replay_bytes k n) as [o k1]. destruct HB as (-> & B1 & B2 & B3 & B4 & B5).
  assert (Z.to_nat (count k) - Z.to_nat (cursor k) = length vs)%nat as Hlv.
  { rewrite <- Hrem, length_drop, length_take. lia. }
  specialize (IH k1 (drop n vs)).
  rewrite B1, B2, B3 in IH. specialize (IH Hm ltac:(lia) Hcnt Hlen).
  assert (drop (Z.to_nat (cursor k1)) (take (Z.to_nat (count k)) (log k)) = drop n vs) as Hrem'.
  { rewrite B4. replace (Z.to_nat (cursor k + Z.of_nat (n `min` length vs)))
      with (Z.to_nat (cursor k) + n `min` length vs)%nat by lia.
    rewrite <- drop_drop, Hrem. destruct (decide (n <= length vs)%nat).
    - f_equal. lia.
    - rewrite !drop_ge by lia. reflexivity. }
  specialize (IH Hrem' ltac:(lia) ltac:(lia)).
  destruct (fills (& k1) s lens) as [[[rcs os] r] s2]. destruct IH as (-> & I1 & I2 & k' & -> & I3).
  split; [reflexivity|]. split; [constructor; [reflexivity | exact I1]|].
  rewrite length_drop in *. split.
  - change (mjoin ((take n vs ++ zeros (n - length vs)) :: os))
      with ((take n vs ++ zeros (n - length vs)) ++ mjoin os).
    rewrite I2. destruct (decide (n <= length vs)%nat) as [Hle|Hgt].
    + replace (n - length vs)%nat with 0%nat by lia. change (zeros 0) with (@nil byte). rewrite app_nil_r.
      rewrite app_assoc, <- take_take_drop. do 2 f_equal. lia.
    + rewrite (drop_ge vs n) by lia. rewrite take_nil. cbn [app].
      rewrite !(take_ge vs) by lia. rewrite <- app_assoc. f_equal. unfold zeros.
      rewrite <- replicate_add. f_equal. lia.
  - exists k'. split; [reflexivity|]. lia.
Qed.
End EntropySpec.

(** C31: deterministic entropy.  When the live source never fails and the
    bytes a recorded run drew fit the log (the log drops what overflows it),
    the replayed run is handed the same bytes, in order, however it splits its
    requests; it never draws fresh randomness, and bytes past the recording
    are zero and counted as underflows. *)
Theorem entropy_replay_same {S S'} (r0 : Entropy.entropy_record_t S) (r0' : Entropy.entropy_record_t S')
    (src : Entropy.entropy_source_fn S) (src' : ptr (Entropy.entropy_source_fn S'))
    (buf buf' : list byte) (cap e : Z) (s : S) (s' : S') (lens lens' : list nat) :
  EntropySpec.reliable src ->
  0 < cap < 2 ^ 32 -> Z.of_nat (length buf) = cap -> Z.of_nat (length buf') = cap ->
  Z.of_nat (sum_list lens) <= cap -> Z.of_nat (sum_list lens') < 2 ^ 32 ->
  let rec := Entropy.entropy_record_begin_epoch
               (Entropy.entropy_record_init (& r0) Entropy.ENTROPY_REC_RECORD (& src) (& buf) cap).2 e in
  let '(_, os, r1, _) := EntropySpec.fills rec s lens in
  let '(count, bytes) := Entropy.entropy_record_bytes r1 in
  let replay := Entropy.entropy_record_load
                  (Entropy.entropy_record_init (& r0') Entropy.ENTROPY_REC_REPLAY src' (& buf') cap).2
                  e bytes count in
  let '(rcs, os', r2, world) := EntropySpec.fills replay.2 s' lens' in
  let recorded := mjoin os in
  length recorded = sum_list lens /\ replay.1 = Entropy.ENTROPY_REC_OK /\
  Forall (fun rc => rc = Entropy.ENTROPY_REC_OK) rcs /\ world = s' /\
  mjoin os' = take (sum_list lens') recorded ++ zeros (sum_list lens' - length recorded) /\
  (exists k, r2 = & k /\ Entropy.underflow k = Z.of_nat (sum_list lens' - length recorded)).
Proof.
  intros Hsrc Hcap Hb Hb' Hn Hm. unfold Entropy.entropy_record_init. rewrite (proj2 (Z.eqb_neq cap 0)) by lia.
  cbn [snd Entropy.entropy_record_begin_epoch]. set (k := Entropy.Build_entropy_record_t _ _ _ _ _ _ _ _ _ _).
  pose proof (EntropySpec.record_fills src k s lens Hsrc) as HR. subst k.
  cbn [Entropy.mode Entropy.source Entropy.count Entropy.capacity Entropy.log] in HR.
  specialize (HR eq_refl eq_refl ltac:(lia) ltac:(lia) Hb ltac:(lia)).
  destruct (EntropySpec.fills _ s lens) as [[[rcs0 os] r1] s1].
  destruct HR as (_ & Hlen & k' & -> & Hc & Hl & Ht). cbn [take Z.to_nat app] in Ht.
  cbn [Entropy.entropy_record_bytes]. unfold Entropy.entropy_record_load. cbn [Entropy.capacity].
  rewrite (proj2 (Z.ltb_ge _ _)) by lia. cbn [fst snd].
  assert (Z.to_nat (Entropy.count k') <= length (Entropy.log k'))%nat as Hle by lia.
  set (k2 := Entropy.Build_entropy_record_t _ _ _ _ _ _ _ _ _ _).
  pose proof (EntropySpec.replay_fills k2 s' lens' (mjoin os)) as HP. subst k2.
  cbn [Entropy.mode Entropy.cursor Entropy.count Entropy.log Entropy.underflow] in HP.
  assert (Z.to_nat (Entropy.count k') <=
      length (copy_into buf' (Entropy.log k') (Entropy.count k')))%nat as Hle2.
  { unfold copy_into. rewrite length_app, length_take, length_drop. lia. }
  specialize (HP eq_refl ltac:(lia) ltac:(lia) Hle2).
  rewrite drop_0, take_copy_into, Ht in HP by exact Hle.
  specialize (HP eq_refl ltac:(lia) ltac:(lia)).
  destruct (EntropySpec.fills _ s' lens') as [[[rcs os'] r2] s2].
  destruct HP as (P1 & P2 & P3 & k3 & -> & P4).
  split_and!; try assumption; try reflexivity. exists k3. split; [reflexivity | exact P4].
Qed.

Definition entropy_none {S} : Entropy.entropy_record_t S :=
  Entropy.Build_entropy_record_t S Entropy.ENTROPY_REC_OFF NULL 0 [] 0 0 0 0 0.
(** A source that counts the draws and repeats a byte. *)
Definition example_source : Entropy.entropy_source_fn Z :=
  fun s len => (0, replicate (Z.to_nat len) (byte.of_Z s), s + 1).

Lemma entropy_replay_same_witness :
  let rec := Entropy.entropy_record_begin_epoch
    (Entropy.entropy_record_init (& entropy_none) Entropy.ENTROPY_REC_RECORD (& example_source) (& (zeros 8)) 8).2 4 in
  let '(_, os, r1, _) := EntropySpec.fills rec 65 [2; 3]%nat in
  let '(count, bytes) := Entropy.entropy_record_bytes r1 in
  let replay := Entropy.entropy_record_load
    (Entropy.entropy_record_init (& entropy_none) Entropy.ENTROPY_REC_REPLAY (& example_source) (& (zeros 8)) 8).2
    4 bytes count in
  let '(rcs, os', r2, world) := EntropySpec.fills replay.2 1000 [4; 3]%nat in
  let recorded := mjoin os in
  length recorded = 5%nat /\ replay.1 = Entropy.ENTROPY_REC_OK /\
  Forall (fun rc => rc = Entropy.ENTROPY_REC_OK) rcs /\ world = 1000 /\
  mjoin os' = take 7 recorded ++ zeros (7 - length recorded) /\
  (exists k, r2 = & k /\ Entropy.underflow k = Z.of_nat (7 - length recorded)).
Proof.
  apply (entropy_replay_same entropy_none entropy_none example_source (& example_source)
           (zeros 8) (zeros 8) 8 4 65 1000 [2; 3]%nat [4; 3]%nat); try (cbn; lia); try reflexivity.
  intros s n. split; [reflexivity|]. cbn. rewrite length_replicate. lia.
Defined.
