(* ===== verification/JournalCapture.v ===== *)
(** * Capturing an epoch's inputs (kernel/journal_capture.c)

    When a checkpoint commits, the epoch's preemption points, clock reads,
    entropy bytes and divergence sums are written as one journal.  The delta
    sources are functions that read the world [W] in which the recorders live;
    each returns a count and the buffer it points to. *)
From Stdlib Require Import ZArith Lia.
From S2P Require Import Prelude.
From S2P Require Import BlockDevice.
From S2P Require Import CheckpointJournal.
Open Scope Z_scope.
Open Scope c_scope.

Definition JOURNAL_EV_SCHED : Z := 5.
Definition JOURNAL_EV_DIVERGE : Z := 6.

Record journal_capture_sources_t (W : Type) := {
  preempt_points : ptr (W -> Z * ptr (list Z));
  time_values : ptr (W -> Z * ptr (list Z));
  entropy_bytes : ptr (W -> Z * ptr (list byte));
  divergence_sums : ptr (W -> Z * ptr (list Z) * ptr (list Z)) }.
Arguments preempt_points {W}. Arguments time_values {W}.
Arguments entropy_bytes {W}. Arguments divergence_sums {W}.

(** One event of each class: type, lclock, value, len. *)
Definition sched_event (pts : list Z) (i : Z) : Z * Z * Z * Z :=
  (JOURNAL_EV_SCHED, zget 0 pts i, zget 0 pts i, 0).
Definition timer_event (vals : list Z) (i : Z) : Z * Z * Z * Z :=
  (JOURNAL_EV_TIMER, i, zget 0 vals i, 0).
Definition diverge_event (ids sums : list Z) (i : Z) : Z * Z * Z * Z :=
  (JOURNAL_EV_DIVERGE, zget 0 ids i, zget 0 sums i, 0).

(** [for (b = 0; b < chunk; b++) packed |= (uint64_t)bytes[off + b] << (8u * b);]
    with [n] bytes left to pack. *)
Fixpoint pack_entropy (bytes : list byte) (off : Z) (n : nat) (b packed : Z) : Z :=
  match n with
  | O => packed
  | S n =>
      pack_entropy bytes off n (b + 1)
        (Z.lor packed (u64 (Z.shiftl (byte.unsigned (zget Byte.x00 bytes (off + b))) (8 * b))))
  end.

Definition entropy_event (bytes : list byte) (n off : Z) : Z * Z * Z * Z :=
  let chunk := if n - off <? 8 then n - off else 8 in
  (JOURNAL_EV_ENTROPY, off, pack_entropy bytes off (Z.to_nat chunk) 0 0, chunk).

Section capture.
Context {D W : Type}.
Implicit Types (store : journal_store_t D) (d : D).

(** [for (i = 0; i < n; i += step) { append(ev i); if (rc != OK) return rc; }]
    The fuel [n / step + 2] covers every iteration as long as the index does
    not wrap, that is for [n <= 2^32 - step]. *)
Fixpoint append_loop store d (w : ptr journal_writer_t) (ev : Z -> Z * Z * Z * Z)
    (n step : Z) (fuel : nat) (i : Z) : Z * D * ptr journal_writer_t :=
  match fuel with
  | O => (JOURNAL_ERR_FULL, d, w)
  | S fuel =>
      if i <? n then
        let '(type, lclock, value, len) := ev i in
        let '(rc, d, w) := journal_writer_append_len store d w type lclock value len in
        if negb (rc =? JOURNAL_OK) then (rc, d, w)
        else append_loop store d w ev n step fuel (u32 (i + step))
      else (JOURNAL_OK, d, w)
  end.

Definition append_class store d (w : ptr journal_writer_t) (ev : Z -> Z * Z * Z * Z) (n step : Z) :=
  append_loop store d w ev n step (S (S (Z.to_nat (n / step)))) 0.

Definition capture_points store d w (src : journal_capture_sources_t W) (world : W) :=
  match preempt_points src with
  | NULL => (JOURNAL_OK, d, w)
  | Some f =>
      let '(n, pts) := f world in
      match pts with
      | NULL => (JOURNAL_OK, d, w)
      | Some pts => append_class store d w (sched_event pts) n 1
      end
  end.

Definition capture_times store d w (src : journal_capture_sources_t W) (world : W) :=
  match time_values src with
  | NULL => (JOURNAL_OK, d, w)
  | Some f =>
      let '(n, vals) := f world in
      match vals with
      | NULL => (JOURNAL_OK, d, w)
      | Some vals => append_class store d w (timer_event vals) n 1
      end
  end.

Definition capture_entropy store d w (src : journal_capture_sources_t W) (world : W) :=
  match entropy_bytes src with
  | NULL => (JOURNAL_OK, d, w)
  | Some f =>
      let '(n, bytes) := f world in
      match bytes with
      | NULL => (JOURNAL_OK, d, w)
      | Some bytes => append_class store d w (entropy_event bytes n) n 8
      end
  end.

Definition capture_sums store d w (src : journal_capture_sources_t W) (world : W) :=
  match divergence_sums src with
  | NULL => (JOURNAL_OK, d, w)
  | Some f =>
      let '(n, ids, sums) := f world in
      match ids, sums with
      | Some ids, Some sums => append_class store d w (diverge_event ids sums) n 1
      | _, _ => (JOURNAL_OK, d, w)
      end
  end.

(** The writer is a local; [w0] is its uninitialised content. *)
Definition journal_capture_epoch (store : ptr (journal_store_t D)) d (w0 : journal_writer_t)
    (epoch base_lclock : Z) (src : ptr (journal_capture_sources_t W)) (world : W) : Z * D :=
  match store, src with
  | Some st, Some sc =>
      let '(rc, w) := journal_store_begin store d epoch base_lclock (& w0) in
      if negb (rc =? JOURNAL_OK) then (rc, d)
      else
        let '(rc, d, w) := capture_points st d w sc world in
        if negb (rc =? JOURNAL_OK) then (rc, d)
        else
          let '(rc, d, w) := capture_times st d w sc world in
          if negb (rc =? JOURNAL_OK) then (rc, d)
          else
            let '(rc, d, w) := capture_entropy st d w sc world in
            if negb (rc =? JOURNAL_OK) then (rc, d)
            else
              let '(rc, d, w) := capture_sums st d w sc world in
              if negb (rc =? JOURNAL_OK) then (rc, d)
              else let '(rc, d, w) := journal_store_commit st d w in (rc, d)
  | _, _ => (JOURNAL_ERR_PARAM, d)
  end.

(** ** Kernel adapter (kernel/journal_capture_sync.c)

    [g_journal_store] and [g_journal_ready]; arming formats the region only
    when it holds no valid journal. *)
Record capture_globals := {
  g_journal_store : journal_store_t D;
  g_journal_ready : bool }.

Definition journal_capture_init (g : capture_globals) d (dev : ptr (fat_block_device_t D))
    (base_sector slot_sectors : Z) (probe : journal_reader_t) : Z * capture_globals * D :=
  let '(rc, st) := journal_store_init (& (g_journal_store g)) dev base_sector slot_sectors in
  match st with
  | NULL => (JOURNAL_ERR_IO, g, d)
  | Some st =>
      let g := {| g_journal_store := st; g_journal_ready := g_journal_ready g |} in
      if negb (rc =? JOURNAL_OK) then (JOURNAL_ERR_IO, g, d)
      else
        let '(rc, _) := journal_store_load (& st) d (& probe) in
        let '(rc, d) :=
          if negb (rc =? JOURNAL_OK) then journal_store_format (& st) d else (JOURNAL_OK, d) in
        if negb (rc =? JOURNAL_OK) then (JOURNAL_ERR_IO, g, d)
        else (JOURNAL_OK, {| g_journal_store := st; g_journal_ready := true |}, d)
  end.

Definition journal_capture_store (g : capture_globals) : ptr (journal_store_t D) :=
  if g_journal_ready g then & (g_journal_store g) else NULL.

(** [record_sums] is [kdiverge_record_epoch], run before the capture. *)
Definition journal_capture_hook (g : capture_globals) d (w0 : journal_writer_t)
    (live_sources : journal_capture_sources_t W) (record_sums : W -> Z -> W)
    (world : W) (epoch : Z) : Z * D * W :=
  if negb (g_journal_ready g) then (JOURNAL_ERR_STATE, d, world)
  else
    let world := record_sums world epoch in
    let '(rc, d) :=
      journal_capture_epoch (& (g_journal_store g)) d w0 epoch 0 (& live_sources) world in
    (rc, d, world).
End capture.
