(* ===== verification/JournalCaptureSpec.v ===== *)
(** * A captured epoch is one journal session over the recorded inputs *)
From Stdlib Require Import ZArith Lia.
From S2P Require Import Prelude.
From S2P Require Import Crc32.
From S2P Require Import BlockDevice.
From S2P Require Import AtomicStore.
From S2P Require Import CheckpointJournal.
From S2P Require Import CheckpointJournalSpec.
From S2P Require Import JournalCapture.
Open Scope Z_scope.
Open Scope c_scope.

(** ** The inputs an epoch's sources stand for *)

Definition to_input (e : Z * Z * Z * Z) : input :=
  let '(type, lclock, value, len) := e in
  {| in_type := type; in_lclock := lclock; in_value := value; in_len := len |}.

(** The events of a class: one per [step] indices below [n]. *)
Definition class_inputs (ev : Z -> Z * Z * Z * Z) (n step : Z) : list input :=
  (fun j => to_input (ev (step * j))) <$> seqZ 0 ((n + step - 1) / step).

Section inputs.
Context {W : Type}.
Implicit Types (src : journal_capture_sources_t W) (world : W).

Definition points_inputs src world : list input :=
  match preempt_points src with
  | NULL => []
  | Some f => match f world with (n, Some pts) => class_inputs (sched_event pts) n 1 | _ => [] end
  end.
Definition times_inputs src world : list input :=
  match time_values src with
  | NULL => []
  | Some f => match f world with (n, Some vals) => class_inputs (timer_event vals) n 1 | _ => [] end
  end.
Definition entropy_inputs src world : list input :=
  match entropy_bytes src with
  | NULL => []
  | Some f => match f world with (n, Some bs) => class_inputs (entropy_event bs n) n 8 | _ => [] end
  end.
Definition sums_inputs src world : list input :=
  match divergence_sums src with
  | NULL => []
  | Some f =>
      match f world with
      | (n, Some ids, Some sums) => class_inputs (diverge_event ids sums) n 1
      | _ => []
      end
  end.

Definition capture_inputs src world : list input :=
  points_inputs src world ++ times_inputs src world ++ entropy_inputs src world ++ sums_inputs src world.

Definition captured (epoch base : Z) src world : epoch_journal :=
  {| ej_epoch := epoch; ej_base_lclock := base; ej_inputs := capture_inputs src world |}.

(** What the recorders promise of their buffers: the count is what the buffer
    holds, every value fits its C type. *)
Definition u64_buffer (n : Z) (l : list Z) : Prop :=
  0 <= n <= 2 ^ 32 - 8 /\ n <= Z.of_nat (length l) /\ Forall (fits 8) l.
Definition sources_ok src world : Prop :=
  (forall f n pts, preempt_points src = & f -> f world = (n, & pts) -> u64_buffer n pts) /\
  (forall f n vals, time_values src = & f -> f world = (n, & vals) -> u64_buffer n vals) /\
  (forall f n bs, entropy_bytes src = & f -> f world = (n, & bs) ->
     0 <= n <= 2 ^ 32 - 8 /\ n <= Z.of_nat (length bs)) /\
  (forall f n ids sums, divergence_sums src = & f -> f world = (n, & ids, & sums) ->
     u64_buffer n ids /\ u64_buffer n sums).
End inputs.

(** ** The append loops are appends of the class's inputs *)
Section loops.
Context {D : Type}.
Implicit Types (st : journal_store_t D) (d : D).

Lemma append_all_app st d w xs ys :
  append_all st d w (xs ++ ys) =
  let '(rc, d', w') := append_all st d w xs in
  if negb (rc =? JOURNAL_OK) then (rc, d', w') else append_all st d' w' ys.
Proof.
  revert d w; induction xs as [|x xs IH]; intros d w; [reflexivity|].
  cbn [app append_all]. destruct (journal_writer_append_len _ _ _ _ _ _ _) as [[rc d'] w'].
  destruct (negb (rc =? JOURNAL_OK)) eqn:E; [rewrite E; reflexivity|]. apply IH.
Qed.

Lemma append_loop_all st d w ev n step k fuel i :
  0 < step -> 0 <= i -> n <= 2 ^ 32 - step -> n <= i + step * Z.of_nat k ->
  i + step * (Z.of_nat k - 1) < n \/ k = O -> (k < fuel)%nat ->
  append_loop st d w ev n step fuel i
  = append_all st d w ((fun j => to_input (ev (i + step * j))) <$> seqZ 0 (Z.of_nat k)).
Proof.
  revert fuel i d w; induction k as [|k IH]; intros fuel i d w Hs Hi Hn Hhi Hlo Hf;
    (destruct fuel as [|fuel]; [lia|]); cbn [append_loop].
  - rewrite (proj2 (Z.ltb_ge _ _)) by lia. reflexivity.
  - destruct Hlo as [Hlo|]; [|discriminate]. rewrite (proj2 (Z.ltb_lt _ _)) by nia.
    rewrite seqZ_cons, fmap_cons by lia. cbn [append_all]. rewrite Z.mul_0_r, Z.add_0_r.
    destruct (ev i) as [[[type lclock] value] len]. cbn [to_input in_type in_lclock in_value in_len].
    destruct (journal_writer_append_len _ _ _ _ _ _ _) as [[rc d'] w'].
    destruct (negb (rc =? JOURNAL_OK)); [reflexivity|].
    rewrite u32_id by nia. rewrite IH by (first [lia | nia | destruct k; [right; reflexivity | left; nia]]).
    f_equal. replace (seqZ (Z.succ 0) (Z.pred (Z.of_nat (S k)))) with (Z.add 1 <$> seqZ 0 (Z.of_nat k))
        by (rewrite fmap_add_seqZ; f_equal; lia).
      rewrite <- list_fmap_compose. apply list_fmap_ext. intros j y _.
      unfold compose. do 2 f_equal. lia.
Qed.

Lemma append_class_all st d w ev n step :
  0 < step -> 0 <= n <= 2 ^ 32 - step ->
  append_class st d w ev n step = append_all st d w (class_inputs ev n step).
Proof.
  intros Hs Hn. unfold append_class, class_inputs.
  pose proof (Z.div_mod (n + step - 1) step ltac:(lia)) as Hdm.
  pose proof (Z.mod_pos_bound (n + step - 1) step ltac:(lia)) as Hm.
  pose proof (Z.div_pos (n + step - 1) step ltac:(lia) ltac:(lia)) as Hp.
  pose proof (Z.div_pos n step ltac:(lia) ltac:(lia)) as Hp'.
  assert ((n + step - 1) / step <= n / step + 1) as Hle.
  { replace (n / step + 1) with ((n + 1 * step) / step) by (apply Z.div_add; lia).
    apply Z.div_le_mono; lia. }
  rewrite (append_loop_all _ _ _ _ _ _ (Z.to_nat ((n + step - 1) / step))); rewrite ?Z2Nat.id by exact Hp; try lia; try nia.
  reflexivity.
Qed.
End loops.

(** ** The capture is a journal session *)
Section capture.
Context {D W : Type}.
Implicit Types (st : journal_store_t D) (d : D) (src : journal_capture_sources_t W).

Lemma capture_points_all st d w src world :
  sources_ok src world -> capture_points st d w src world = append_all st d w (points_inputs src world).
Proof.
  intros (H & _). unfold capture_points, points_inputs. destruct (preempt_points src) as [f|]; [|reflexivity].
  destruct (f world) as [n [pts|]] eqn:E; [|reflexivity]. destruct (H _ _ _ eq_refl E) as [Hn _].
  apply append_class_all; lia.
Qed.
Lemma capture_times_all st d w src world :
  sources_ok src world -> capture_times st d w src world = append_all st d w (times_inputs src world).
Proof.
  intros (_ & H & _). unfold capture_times, times_inputs. destruct (time_values src) as [f|]; [|reflexivity].
  destruct (f world) as [n [pts|]] eqn:E; [|reflexivity]. destruct (H _ _ _ eq_refl E) as [Hn _].
  apply append_class_all; lia.
Qed.
Lemma capture_entropy_all st d w src world :
  sources_ok src world -> capture_entropy st d w src world = append_all st d w (entropy_inputs src world).
Proof.
  intros (_ & _ & H & _). unfold capture_entropy, entropy_inputs.
  destruct (entropy_bytes src) as [f|]; [|reflexivity].
  destruct (f world) as [n [pts|]] eqn:E; [|reflexivity]. destruct (H _ _ _ eq_refl E) as [Hn _].
  apply append_class_all; lia.
Qed.
Lemma capture_sums_all st d w src world :
  sources_ok src world -> capture_sums st d w src world = append_all st d w (sums_inputs src world).
Proof.
  intros (_ & _ & _ & H). unfold capture_sums, sums_inputs.
  destruct (divergence_sums src) as [f|]; [|reflexivity].
  destruct (f world) as [[n [ids|]] [sums|]] eqn:E; try reflexivity.
  destruct (H _ _ _ _ eq_refl E) as [[Hn _] _]. apply append_class_all; lia.
Qed.

Lemma capture_records st d w0 epoch base src world :
  sources_ok src world ->
  journal_capture_epoch (& st) d w0 epoch base (& src) world
  = record_epoch st d (captured epoch base src world).
Proof.
  intros Hok. unfold journal_capture_epoch, record_epoch, captured. cbn [ej_epoch ej_base_lclock ej_inputs].
  assert (journal_store_begin (& st) d epoch base (& w0) = journal_store_begin (& st) d epoch base (& writer_none)
          \/ journal_store_begin (& st) d epoch base (& w0) = (JOURNAL_ERR_PARAM, & w0)
          /\ journal_store_begin (& st) d epoch base (& writer_none) = (JOURNAL_ERR_PARAM, & writer_none)) as Hb.
  { unfold journal_store_begin. destruct (negb (js_initialized st)); [right; split; reflexivity | left; reflexivity]. }
  destruct Hb as [-> | [-> ->]]; [|reflexivity].
  destruct (journal_store_begin _ _ _ _ _) as [rc w]. destruct (negb (rc =? JOURNAL_OK)); [reflexivity|].
  unfold capture_inputs. rewrite !append_all_app. rewrite capture_points_all by exact Hok.
  destruct (append_all st d w (points_inputs src world)) as [[rc1 d1] w1].
  destruct (negb (rc1 =? JOURNAL_OK)) eqn:E1; [rewrite E1; reflexivity|].
  rewrite append_all_app, capture_times_all by exact Hok.
  destruct (append_all st d1 w1 (times_inputs src world)) as [[rc2 d2] w2].
  destruct (negb (rc2 =? JOURNAL_OK)) eqn:E2; [rewrite E2; reflexivity|].
  rewrite append_all_app, capture_entropy_all by exact Hok.
  destruct (append_all st d2 w2 (entropy_inputs src world)) as [[rc3 d3] w3].
  destruct (negb (rc3 =? JOURNAL_OK)) eqn:E3; [rewrite E3; reflexivity|].
  rewrite capture_sums_all by exact Hok.
  destruct (append_all st d3 w3 (sums_inputs src world)) as [[rc4 d4] w4].
  destruct (negb (rc4 =? JOURNAL_OK)); reflexivity.
Qed.
End capture.

(** ** Every captured input fits its event *)

Lemma fits_le w w' z : (w <= w')%nat -> fits w z -> fits w' z.
Proof.
  unfold fits. intros Hw Hz. split; [lia|]. eapply Z.lt_le_trans; [apply Hz|].
  apply Z.pow_le_mono_r; lia.
Qed.

Lemma zget_fits w l i : Forall (fits w) l -> fits w (zget 0 l i).
Proof.
  intros H. unfold zget. destruct (nth_lookup_or_length l (Z.to_nat i) 0) as [Hl | Hl].
  - eapply Forall_lookup_1; eassumption.
  - rewrite nth_overflow by lia. unfold fits. pose proof (Z.pow_pos_nonneg 2 (Z.of_nat w * 8)). lia.
Qed.

Lemma class_inputs_ok ev n step :
  0 < step -> 0 <= n ->
  (forall i, 0 <= i < n -> input_ok (to_input (ev i))) -> Forall input_ok (class_inputs ev n step).
Proof.
  intros Hs Hn H. unfold class_inputs. apply Forall_fmap, Forall_forall.
  intros j Hj%elem_of_seqZ. apply H.
  pose proof (Z.mul_div_le (n + step - 1) step ltac:(lia)). nia.
Qed.

(** Bits that do not overlap add up. *)
Lemma lor_high a y k : 0 <= k -> 0 <= a < 2 ^ k -> Z.lor a (y * 2 ^ k) = a + y * 2 ^ k.
Proof.
  intros Hk Ha. symmetry. rewrite <- Z.shiftl_mul_pow2 by exact Hk.
  apply Z.add_nocarry_lor. apply Z.bits_inj'. intros i Hi.
  rewrite Z.land_spec, Z.bits_0, Z.shiftl_spec by exact Hi. destruct (Z.ltb_spec i k).
  - rewrite (Z.testbit_neg_r y) by lia. apply andb_false_r.
  - rewrite <- (Z.mod_small a (2 ^ k)), Z.mod_pow2_bits_high by lia. reflexivity.
Qed.

Lemma le_combine_cons x l : le_combine (x :: l) = byte.unsigned x + le_combine l * 256.
Proof.
  change (le_combine (x :: l)) with (Z.lor (byte.unsigned x) (Z.shiftl (le_combine l) 8)).
  rewrite Z.shiftl_mul_pow2 by lia. apply lor_high; [lia|].
  pose proof (byte.unsigned_range x). lia.
Qed.

Lemma pack_entropy_bytes bytes off n b acc :
  0 <= off -> 0 <= b -> b + Z.of_nat n <= 8 -> 0 <= acc < 2 ^ (8 * b) ->
  (Z.to_nat (off + b) + n <= length bytes)%nat ->
  pack_entropy bytes off n b acc
  = acc + le_combine (take n (drop (Z.to_nat (off + b)) bytes)) * 2 ^ (8 * b).
Proof.
  revert b acc; induction n as [|n IH]; intros b acc Ho Hb Hn Hacc Hl.
  { rewrite take_0. cbn [pack_entropy]. change (le_combine []) with 0. lia. }
  destruct (lookup_lt_is_Some_2 bytes (Z.to_nat (off + b)) ltac:(lia)) as [x Hx].
  cbn [pack_entropy]. rewrite (drop_S _ _ _ Hx).
  replace (zget Byte.x00 bytes (off + b)) with x
    by (unfold zget; symmetry; apply nth_lookup_Some; exact Hx).
  pose proof (byte.unsigned_range x) as Hr. cbn [take le_combine].
  rewrite !Z.shiftl_mul_pow2 by lia.
  assert (2 ^ (8 * (b + 1)) = 2 ^ (8 * b) * 256) as Hpow.
  { replace (8 * (b + 1)) with (8 * b + 8) by lia. rewrite Z.pow_add_r by lia. reflexivity. }
  assert (2 ^ (8 * b) * 256 <= 2 ^ 64) as Hp64.
  { rewrite <- Hpow. apply Z.pow_le_mono_r; lia. }
  pose proof (Z.pow_pos_nonneg 2 (8 * b) ltac:(lia) ltac:(lia)) as Hpos.
  rewrite u64_id by (split; [nia|]; apply (Z.lt_le_trans _ (2 ^ (8 * b) * 256)); [nia | exact Hp64]).
  rewrite lor_high by lia.
  rewrite IH; try lia; [|rewrite Hpow; nia].
  - replace (Z.to_nat (off + (b + 1))) with (S (Z.to_nat (off + b))) by lia.
    rewrite le_combine_cons, Hpow. ring.
Qed.

Lemma pack_entropy_combine bytes off n :
  0 <= off -> (n <= 8)%nat -> (Z.to_nat off + n <= length bytes)%nat ->
  pack_entropy bytes off n 0 0 = le_combine (take n (drop (Z.to_nat off) bytes)).
Proof.
  intros Ho Hn Hl. rewrite pack_entropy_bytes by (rewrite ?Z.add_0_r; cbn; lia).
  rewrite Z.add_0_r. cbn. lia.
Qed.

Lemma le_combine_fits n l : (length l <= n)%nat -> fits n (le_combine l).
Proof.
  intros H. apply (fits_le (length l)); [exact H|]. unfold fits.
  rewrite Z.mul_comm. apply le_combine_bound.
Qed.

Lemma entropy_event_ok bytes n i :
  0 <= n <= 2 ^ 32 - 8 -> n <= Z.of_nat (length bytes) -> 0 <= i < n ->
  input_ok (to_input (entropy_event bytes n i)).
Proof.
  intros Hn Hl Hi. unfold entropy_event, to_input. set (chunk := if _ <? _ then _ else _).
  assert (0 < chunk <= 8 /\ chunk <= n - i) as Hc by (subst chunk; destruct (Z.ltb_spec (n - i) 8); lia).
  rewrite pack_entropy_combine by lia.
  assert (fits 8 (le_combine (take (Z.to_nat chunk) (drop (Z.to_nat i) bytes)))) as Hv
    by (apply le_combine_fits; rewrite length_take; lia).
  split_and!; cbn -[le_combine]; [| |exact Hv|]; unfold fits, JOURNAL_EV_ENTROPY; lia.
Qed.

Ltac input_field :=
  first [apply zget_fits; assumption
        | unfold fits, JOURNAL_EV_SCHED, JOURNAL_EV_TIMER, JOURNAL_EV_DIVERGE; lia].

Lemma captured_ok {W} (src : journal_capture_sources_t W) world epoch base :
  fits 8 epoch -> fits 8 base -> sources_ok src world -> journal_ok (captured epoch base src world).
Proof.
  intros He Hb (Hp & Ht & Hen & Hd). split; [exact He|]. split; [exact Hb|]. cbn [ej_inputs captured].
  unfold capture_inputs, points_inputs, times_inputs, entropy_inputs, sums_inputs.
  repeat apply Forall_app_2.
  - destruct (preempt_points src) as [f|]; [|constructor]. destruct (f world) as [n [b|]] eqn:E; [|constructor].
    destruct (Hp _ _ _ eq_refl E) as (Hn & _ & HF). apply class_inputs_ok; [lia..|]. intros i Hi.
    split_and!; cbn; input_field.
  - destruct (time_values src) as [f|]; [|constructor]. destruct (f world) as [n [b|]] eqn:E; [|constructor].
    destruct (Ht _ _ _ eq_refl E) as (Hn & _ & HF). apply class_inputs_ok; [lia..|]. intros i Hi.
    split_and!; cbn; input_field.
  - destruct (entropy_bytes src) as [f|]; [|constructor]. destruct (f world) as [n [b|]] eqn:E; [|constructor].
    destruct (Hen _ _ _ eq_refl E) as (Hn & Hl). apply class_inputs_ok; [lia..|]. intros i Hi.
    apply entropy_event_ok; assumption.
  - destruct (divergence_sums src) as [f|]; [|constructor].
    destruct (f world) as [[n [a|]] [b|]] eqn:E; try constructor.
    destruct (Hd _ _ _ _ eq_refl E) as [(Hn & _ & HFa) (_ & _ & HFb)]. apply class_inputs_ok; [lia..|]. intros i Hi.
    split_and!; cbn; input_field.
Qed.

(** ** Properties *)

(** Capturing an epoch is all or nothing.  Whatever fails on the device
    while the four delta classes are appended, a later load finds the previous
    epoch's journal untouched or the complete capture (every preemption point,
    clock read, entropy chunk and divergence sum in order), and the complete
    capture if the hook reported success. *)
Theorem capture_epoch_atomic {D W} (dev : fat_block_device_t D) `{!BlockDevice dev}
    (st : journal_store_t D) (d : D) (w0 : journal_writer_t) (epoch base : Z)
    (src : journal_capture_sources_t W) (world : W) :
  store_wf dev st -> journal_inv (st := st) d -> fits 8 epoch -> fits 8 base -> sources_ok src world ->
  let '(rc, d') := journal_capture_epoch (& st) d w0 epoch base (& src) world in
  journal_inv (st := st) d' /\
  (journal_view st d' = journal_view st d \/
   journal_view st d' = inr (epoch, event_of epoch <$> capture_inputs src world)) /\
  (rc = JOURNAL_OK -> journal_view st d' = inr (epoch, event_of epoch <$> capture_inputs src world)).
Proof.
  intros wf Hd He Hb Hs. rewrite capture_records by exact Hs.
  pose proof (captured_ok src world epoch base He Hb Hs) as Hok.
  pose proof (journal_atomic_store dev st wf) as A.
  pose proof (publish_inv d _ Hd Hok) as H0. pose proof (publish_atomic d _ Hd Hok) as H1.
  pose proof (publish_durable d _ Hd Hok) as H2.
  destruct (record_epoch st d _) as [rc d']. split_and!; [exact H0 | exact H1 | exact H2].
Qed.

(** Three switches, two clock reads and eleven bytes of entropy. *)
Definition example_sources : journal_capture_sources_t unit :=
  {| preempt_points := & (fun _ => (3, & [2; 5; 9; 0; 0]));
     time_values := & (fun _ => (2, & [1000; 1003]));
     entropy_bytes := & (fun _ => (11, & (byte.of_Z <$> seqZ 7 11)));
     divergence_sums := NULL |}.

Lemma example_sources_ok : sources_ok example_sources tt.
Proof.
  unfold sources_ok, u64_buffer, fits. cbn. split_and!.
  - intros f n pts [= <-] [= <- <-]. cbn. split_and!; [lia.. |]. repeat constructor; lia.
  - intros f n pts [= <-] [= <- <-]. cbn. split_and!; [lia.. |]. repeat constructor; lia.
  - intros f n pts [= <-] [= <- <-]. cbn. split_and!; lia.
  - discriminate.
Qed.

Lemma capture_epoch_atomic_witness :
  let st := example_journal (cut_device ramdisk_device) in
  let '(rc, d') := journal_capture_epoch (& st) (0, ramdisk_fresh) writer_none 4 0 (& example_sources) tt in
  journal_inv (st := st) d' /\
  (journal_view st d' = journal_view st (0, ramdisk_fresh) \/
   journal_view st d' = inr (4, event_of 4 <$> capture_inputs example_sources tt)) /\
  (rc = JOURNAL_OK -> journal_view st d' = inr (4, event_of 4 <$> capture_inputs example_sources tt)).
Proof.
  apply (capture_epoch_atomic (cut_device ramdisk_device)).
  - exact example_cut_journal_wf.
  - exact (cut_fresh_sane 0).
  - unfold fits; lia.
  - unfold fits; lia.
  - exact example_sources_ok.
Defined.
