(* ===== verification/ReplayEngine.v ===== *)
(** * The replay engine (kernel/replay_engine.c)

    Restore a keyframe, then re-drive epoch by epoch to the target.  The hooks
    are functions over the world [W] they act on (their [ctx]); each returns 0
    on success. *)
From Stdlib Require Import ZArith Lia.
From S2P Require Import Prelude.
Open Scope Z_scope.
Open Scope c_scope.

Definition REPLAY_OK : Z := 0.
Definition REPLAY_ERR_PARAM : Z := -1.
Definition REPLAY_ERR_RESTORE : Z := -2.
Definition REPLAY_ERR_LOAD : Z := -3.
Definition REPLAY_ERR_RUN : Z := -4.
Definition REPLAY_WHOLE_EPOCH : Z := 0xFFFFFFFFFFFFFFFF.

Record replay_hooks_t (W : Type) := {
  restore_keyframe : ptr (W -> Z -> Z * W);
  load_epoch : ptr (W -> Z -> Z * W);
  run_epoch : ptr (W -> Z -> Z -> Z * W) }.
Arguments restore_keyframe {W}. Arguments load_epoch {W}. Arguments run_epoch {W}.

Record replay_engine_t (W : Type) := {
  hooks : replay_hooks_t W;
  keyframe_epoch : Z;
  target_epoch : Z;
  target_offset : Z;
  current_epoch : Z;
  epochs_run : Z;
  done : bool }.
Arguments hooks {W}. Arguments keyframe_epoch {W}. Arguments target_epoch {W}.
Arguments target_offset {W}. Arguments current_epoch {W}. Arguments epochs_run {W}.
Arguments done {W}.

Section engine.
Context {W : Type}.
Implicit Types (re : replay_engine_t W) (w : W).

Definition replay_init (re : ptr (replay_engine_t W)) (hk : ptr (replay_hooks_t W))
  : Z * ptr (replay_engine_t W) :=
  match re, hk with
  | Some _, Some h =>
      match restore_keyframe h, load_epoch h, run_epoch h with
      | Some _, Some _, Some _ =>
          (REPLAY_OK, & {| hooks := h; keyframe_epoch := 0; target_epoch := 0; target_offset := 0;
                           current_epoch := 0; epochs_run := 0; done := false |})
      | _, _, _ => (REPLAY_ERR_PARAM, re)
      end
  | _, _ => (REPLAY_ERR_PARAM, re)
  end.

(** Calls through the function pointers [replay_init] has checked; a call
    through NULL is undefined behaviour, shown as a failing hook. *)
Definition hook1 (f : ptr (W -> Z -> Z * W)) w (e : Z) : Z * W :=
  match f with Some f => f w e | NULL => (-1, w) end.
Definition hook2 (f : ptr (W -> Z -> Z -> Z * W)) w (e limit : Z) : Z * W :=
  match f with Some f => f w e limit | NULL => (-1, w) end.

(** [re->current_epoch = c; re->epochs_run += n;] *)
Definition progress re (c n : Z) : replay_engine_t W :=
  {| hooks := hooks re; keyframe_epoch := keyframe_epoch re; target_epoch := target_epoch re;
     target_offset := target_offset re; current_epoch := c;
     epochs_run := u32 (epochs_run re + n); done := done re |}.

(** The whole-epoch loop, from epoch [e] with [n = target_epoch - e] left. *)
Fixpoint run_whole re w (n : nat) (e : Z) : Z * replay_engine_t W * W :=
  match n with
  | O => (REPLAY_OK, re, w)
  | S n =>
      let '(rc, w) := hook1 (load_epoch (hooks re)) w e in
      if negb (rc =? 0) then (REPLAY_ERR_LOAD, re, w)
      else
        let '(rc, w) := hook2 (run_epoch (hooks re)) w e REPLAY_WHOLE_EPOCH in
        if negb (rc =? 0) then (REPLAY_ERR_RUN, re, w)
        else run_whole (progress re (e + 1) 1) w n (e + 1)
  end.

(** The final, partial epoch. *)
Definition run_partial re w (te off : Z) : Z * replay_engine_t W * W :=
  if 0 <? off then
    let '(rc, w) := hook1 (load_epoch (hooks re)) w te in
    if negb (rc =? 0) then (REPLAY_ERR_LOAD, re, w)
    else
      let '(rc, w) := hook2 (run_epoch (hooks re)) w te off in
      if negb (rc =? 0) then (REPLAY_ERR_RUN, re, w)
      else (REPLAY_OK, progress re (current_epoch re) 1, w)
  else (REPLAY_OK, re, w).

Definition replay_run (re : ptr (replay_engine_t W)) w (kf te off : Z)
  : Z * ptr (replay_engine_t W) * W :=
  match re with
  | NULL => (REPLAY_ERR_PARAM, re, w)
  | Some k =>
      if te <? kf then (REPLAY_ERR_PARAM, re, w)
      else
        let k := {| hooks := hooks k; keyframe_epoch := kf; target_epoch := te;
                    target_offset := off; current_epoch := current_epoch k;
                    epochs_run := 0; done := false |} in
        let '(rc, w) := hook1 (restore_keyframe (hooks k)) w kf in
        if negb (rc =? 0) then (REPLAY_ERR_RESTORE, & k, w)
        else
          let '(rc, k, w) := run_whole (progress k kf 0) w (Z.to_nat (te - kf)) kf in
          if negb (rc =? REPLAY_OK) then (rc, & k, w)
          else
            let '(rc, k, w) := run_partial k w te off in
            if negb (rc =? REPLAY_OK) then (rc, & k, w)
            else
              (REPLAY_OK,
               & {| hooks := hooks k; keyframe_epoch := keyframe_epoch k;
                    target_epoch := target_epoch k; target_offset := target_offset k;
                    current_epoch := te; epochs_run := epochs_run k; done := true |}, w)
  end.
End engine.
