(* ===== verification/ReplayEngineSpec.v ===== *)
(** * The replay engine runs exactly its plan *)
From Stdlib Require Import ZArith Lia.
From S2P Require Import Prelude.
From S2P Require Import ReplayEngine.
Open Scope Z_scope.
Open Scope c_scope.

Lemma u32_idemp a : u32 (u32 a) = u32 a.
Proof. apply Z.mod_mod. lia. Qed.
Lemma u32_add_l a b : u32 (u32 a + b) = u32 (a + b).
Proof. apply Z.add_mod_idemp_l. lia. Qed.

(** ** The plan of a replay *)
Inductive replay_op := Restore (e : Z) | Load (e : Z) | Run (e limit : Z).

Definition whole_epochs (kf : Z) (n : nat) : list replay_op :=
  e ← seqZ kf (Z.of_nat n); [Load e; Run e REPLAY_WHOLE_EPOCH].

(** Restore the keyframe, every epoch up to the target whole, then [off] steps
    of the target epoch. *)
Definition plan (kf te off : Z) : list replay_op :=
  Restore kf :: whole_epochs kf (Z.to_nat (te - kf)) ++
  (if 0 <? off then [Load te; Run te off] else []).

Section spec.
Context {W : Type}.
Implicit Types (h : replay_hooks_t W) (w : W) (re : replay_engine_t W).

(** One hook call, and the code the engine reports when it fails. *)
Definition exec_op h (o : replay_op) w : Z * W :=
  match o with
  | Restore e => hook1 (restore_keyframe h) w e
  | Load e => hook1 (load_epoch h) w e
  | Run e limit => hook2 (run_epoch h) w e limit
  end.
Definition op_error (o : replay_op) : Z :=
  match o with
  | Restore _ => REPLAY_ERR_RESTORE
  | Load _ => REPLAY_ERR_LOAD
  | Run _ _ => REPLAY_ERR_RUN
  end.

(** The hooks in order, up to the first failure. *)
Fixpoint exec h (ops : list replay_op) w : Z * W :=
  match ops with
  | [] => (REPLAY_OK, w)
  | o :: ops =>
      let '(rc, w) := exec_op h o w in
      if rc =? 0 then exec h ops w else (op_error o, w)
  end.

Lemma exec_app h ops ops' w :
  exec h (ops ++ ops') w =
  let '(rc, w') := exec h ops w in if rc =? REPLAY_OK then exec h ops' w' else (rc, w').
Proof.
  revert w; induction ops as [|o ops IH]; intros w; [reflexivity|]. cbn [app exec].
  destruct (exec_op h o w) as [rc w']. destruct (rc =? 0); [apply IH|].
  destruct o; reflexivity.
Qed.

Lemma exec_result h ops w : (exec h ops w).1 = REPLAY_OK \/ exists o, o ∈ ops /\ (exec h ops w).1 = op_error o.
Proof.
  revert w; induction ops as [|o ops IH]; intros w; [left; reflexivity|]. cbn [exec].
  destruct (exec_op h o w) as [rc w']. destruct (rc =? 0).
  - destruct (IH w') as [H | (o' & Ho & H)]; [left; exact H | right; exists o'; split; [right; exact Ho | exact H]].
  - right. exists o. split; [left | reflexivity].
Qed.

Lemma run_whole_exec re w n e :
  let '(rc, re', w') := run_whole re w n e in
  (rc, w') = exec (hooks re) (whole_epochs e n) w /\
  hooks re' = hooks re /\ keyframe_epoch re' = keyframe_epoch re /\
  target_epoch re' = target_epoch re /\ target_offset re' = target_offset re /\
  done re' = done re /\
  (rc = REPLAY_OK -> (0 < n)%nat -> current_epoch re' = e + Z.of_nat n) /\
  (rc = REPLAY_OK -> u32 (epochs_run re') = u32 (epochs_run re + Z.of_nat n)).
Proof.
  revert re w e; induction n as [|n IH]; intros re w e.
  { cbn [run_whole]. split_and!; try reflexivity; intros; [lia|]. rewrite Z.add_0_r. reflexivity. }
  unfold whole_epochs. rewrite seqZ_cons by lia.
  replace (Z.pred (Z.of_nat (S n))) with (Z.of_nat n) by lia. change (Z.succ e) with (e + 1).
  cbn [run_whole mbind list_bind app exec exec_op]. fold (whole_epochs (e + 1) n).
  destruct (hook1 (load_epoch (hooks re)) w e) as [rc w1].
  destruct (rc =? 0); cbn [negb]; [|split_and!; reflexivity || discriminate].
  destruct (hook2 (run_epoch (hooks re)) w1 e REPLAY_WHOLE_EPOCH) as [rc1 w2].
  destruct (rc1 =? 0); cbn [negb]; [|split_and!; reflexivity || discriminate].
  specialize (IH (progress re (e + 1) 1) w2 (e + 1)).
  destruct (run_whole (progress re (e + 1) 1) w2 n (e + 1)) as [[rc2 re'] w3] eqn:Hr.
  cbn [progress hooks keyframe_epoch target_epoch target_offset done epochs_run] in IH.
  destruct IH as (H1 & H2 & H3 & H4 & H5 & H6 & H7 & H8). split_and!; try assumption.
  - intros Hok _. destruct n as [|n].
    + cbn in Hr. injection Hr as <- <- <-. reflexivity.
    + rewrite (H7 Hok) by lia. lia.
  - intros Hok. rewrite (H8 Hok). unfold u32. rewrite Z.add_mod_idemp_l by lia. f_equal. lia.
Qed.

Lemma replay_run_exec re w kf te off :
  kf <= te ->
  exists re', replay_run (& re) w kf te off
              = ((exec (hooks re) (plan kf te off) w).1, & re', (exec (hooks re) (plan kf te off) w).2) /\
    hooks re' = hooks re /\ keyframe_epoch re' = kf /\ target_epoch re' = te /\ target_offset re' = off /\
    done re' = ((exec (hooks re) (plan kf te off) w).1 =? REPLAY_OK) /\
    (done re' = true -> current_epoch re' = te /\
       u32 (epochs_run re') = u32 (te - kf + (if 0 <? off then 1 else 0))).
Proof.
  intros Hle. unfold replay_run, plan. rewrite (proj2 (Z.ltb_ge _ _)) by lia.
  set (re0 := Build_replay_engine_t _ _ _ _ _ _ _ _). cbn [exec exec_op hooks re0].
  destruct (hook1 (restore_keyframe (hooks re)) w kf) as [rc w1].
  destruct (rc =? 0) eqn:E0; cbn [negb]; [|eexists; split; [reflexivity|]; split_and!; reflexivity || discriminate].
  pose proof (run_whole_exec (progress re0 kf 0) w1 (Z.to_nat (te - kf)) kf) as H.
  destruct (run_whole (progress re0 kf 0) w1 (Z.to_nat (te - kf)) kf) as [[rc1 re1] w2].
  cbn [progress re0 hooks keyframe_epoch target_epoch target_offset done epochs_run] in H.
  destruct H as (H1 & H2 & H3 & H4 & H5 & H6 & _ & H8). rewrite exec_app, <- H1.
  destruct (rc1 =? REPLAY_OK) eqn:E1; cbn [negb].
  2:{ eexists; split; [reflexivity|]. cbn [fst]. rewrite E1, H6.
      split_and!; try assumption; try reflexivity; discriminate. }
  apply Z.eqb_eq in E1. specialize (H8 E1). unfold run_partial. rewrite H2. destruct (0 <? off).
  - cbn [exec exec_op]. destruct (hook1 (load_epoch (hooks re)) w2 te) as [rc2 w3].
    destruct (rc2 =? 0); cbn [negb].
    2:{ eexists; split; [reflexivity|]. rewrite H6. split_and!; try assumption; reflexivity || discriminate. }
    destruct (hook2 (run_epoch (hooks re)) w3 te off) as [rc3 w4]. destruct (rc3 =? 0); cbn [negb].
    2:{ eexists; split; [reflexivity|]. rewrite H6. split_and!; try assumption; reflexivity || discriminate. }
    eexists; split; [reflexivity|]. cbn. split_and!; try assumption; try reflexivity. intros _. split; [reflexivity|].
    rewrite u32_idemp, <- u32_add_l, H8, !u32_add_l. change (u32 (0 + 0)) with 0. f_equal. lia.
  - cbn [exec negb Z.eqb REPLAY_OK]. eexists; split; [reflexivity|]. cbn.
    split_and!; try assumption; try reflexivity. intros _. split; [reflexivity|].
    rewrite H8, u32_add_l. f_equal. lia.
Qed.
End spec.

(** C32: a replay is its plan.  From any engine and world, [replay_run] calls
    the hooks in exactly the planned order (restore the keyframe, load and
    re-drive whole every epoch up to the target, then [off] steps of the target
    epoch), stops at the first hook that fails with that hook's error code, and
    reports [done] at the target epoch exactly when the whole plan ran. *)
Theorem replay_run_plan {W} (re : replay_engine_t W) (w : W) (kf te off : Z) :
  let '(rc, re', w') := replay_run (& re) w kf te off in
  if te <? kf then rc = REPLAY_ERR_PARAM /\ w' = w /\ re' = & re
  else
    (rc, w') = exec (hooks re) (plan kf te off) w /\
    exists e', re' = & e' /\ done e' = (rc =? REPLAY_OK) /\
      (if done e' then current_epoch e' = te /\ target_offset e' = off else True).
Proof.
  destruct (Z.ltb_spec te kf) as [Hlt|Hge].
  - unfold replay_run. rewrite (proj2 (Z.ltb_lt _ _) Hlt). split_and!; reflexivity.
  - destruct (replay_run_exec re w kf te off Hge) as (re' & -> & _ & _ & _ & Ho & Hd & Hc).
    split; [symmetry; apply surjective_pairing|]. exists re'. split; [reflexivity|]. split; [exact Hd|].
    destruct (done re'); [|exact I]. split; [apply Hc; reflexivity | exact Ho].
Qed.
