(* ===== verification/ReplayDriver.v ===== *)
(** * The replay driver (kernel/replay_driver.c, kernel/replay_driver_sync.c)

    Reads one epoch's events from an event source, splits them by type back
    into the three delta arrays, and wires the engine's hooks over them.  The
    event source and the driver's injected steps are functions over the world
    [W] they act on. *)
From Stdlib Require Import ZArith Lia.
From S2P Require Import Prelude.
From S2P Require Import BlockDevice.
From S2P Require Import CheckpointJournal.
From S2P Require Import JournalCapture.
From S2P Require Import ReplayEngine.
Open Scope Z_scope.
Open Scope c_scope.

Definition REPLAY_EV_TIMER : Z := 3.
Definition REPLAY_EV_ENTROPY : Z := 4.
Definition REPLAY_EV_SCHED : Z := 5.
Definition REPLAY_MAX_PTS : Z := 4096.
Definition REPLAY_MAX_TIMES : Z := 4096.
Definition REPLAY_MAX_ENTROPY : Z := 4096.

Record replay_event_t := { re_type : Z; re_len : Z; re_lclock : Z; re_value : Z }.

(** [next] returns 1 and the event, 0 at the end, negative on error. *)
Record replay_event_source_t (W : Type) := {
  begin_epoch : ptr (W -> Z -> Z * W);
  next : ptr (W -> Z * replay_event_t * W) }.
Arguments begin_epoch {W}. Arguments next {W}.

(** The caller's three arrays and counts. *)
Record replay_deltas := {
  rd_pts : list Z; rd_n_pts : Z;
  rd_times : list Z; rd_n_times : Z;
  rd_entropy : list byte; rd_n_entropy : Z }.

Definition put_pt (x : replay_deltas) (v : Z) : replay_deltas :=
  {| rd_pts := zset (rd_n_pts x) v (rd_pts x); rd_n_pts := u32 (rd_n_pts x + 1);
     rd_times := rd_times x; rd_n_times := rd_n_times x;
     rd_entropy := rd_entropy x; rd_n_entropy := rd_n_entropy x |}.
Definition put_time (x : replay_deltas) (v : Z) : replay_deltas :=
  {| rd_pts := rd_pts x; rd_n_pts := rd_n_pts x;
     rd_times := zset (rd_n_times x) v (rd_times x); rd_n_times := u32 (rd_n_times x + 1);
     rd_entropy := rd_entropy x; rd_n_entropy := rd_n_entropy x |}.
Definition put_byte (x : replay_deltas) (v : byte) : replay_deltas :=
  {| rd_pts := rd_pts x; rd_n_pts := rd_n_pts x;
     rd_times := rd_times x; rd_n_times := rd_n_times x;
     rd_entropy := zset (rd_n_entropy x) v (rd_entropy x); rd_n_entropy := u32 (rd_n_entropy x + 1) |}.
Definition clear_counts (x : replay_deltas) : replay_deltas :=
  {| rd_pts := rd_pts x; rd_n_pts := 0; rd_times := rd_times x; rd_n_times := 0;
     rd_entropy := rd_entropy x; rd_n_entropy := 0 |}.

(** The unpacking loop: [n] bytes of [value] left, [b] the next one. *)
Fixpoint unpack_entropy (x : replay_deltas) (value : Z) (n : nat) (b : Z) : Z * replay_deltas :=
  match n with
  | O => (REPLAY_OK, x)
  | S n =>
      if REPLAY_MAX_ENTROPY <=? rd_n_entropy x then (REPLAY_ERR_LOAD, x)
      else unpack_entropy (put_byte x (byte.of_Z (Z.shiftr value (8 * b)))) value n (b + 1)
  end.

(** The [switch] on the event's type. *)
Definition split_event (x : replay_deltas) (ev : replay_event_t) : Z * replay_deltas :=
  if re_type ev =? REPLAY_EV_SCHED then
    if REPLAY_MAX_PTS <=? rd_n_pts x then (REPLAY_ERR_LOAD, x)
    else (REPLAY_OK, put_pt x (re_value ev))
  else if re_type ev =? REPLAY_EV_TIMER then
    if REPLAY_MAX_TIMES <=? rd_n_times x then (REPLAY_ERR_LOAD, x)
    else (REPLAY_OK, put_time x (re_value ev))
  else if re_type ev =? REPLAY_EV_ENTROPY then
    let nbytes := if re_len ev <=? 8 then re_len ev else 8 in
    unpack_entropy x (re_value ev) (Z.to_nat nbytes) 0
  else (REPLAY_OK, x).

(** The driver's scratch and injected steps.  [d->ctx] and the globals the
    steps reach are the world [W]; the driver itself, which the engine's hooks
    receive as their context, is the pair of its scratch and that world. *)
Record replay_driver_t (W : Type) := {
  drv_restore_step : ptr (W -> Z -> Z * W);
  drv_source : replay_event_source_t W;
  drv_load_subsystems : ptr (W -> Z -> replay_deltas -> Z * W);
  drv_drive_steps : ptr (W -> Z -> Z -> Z * W);
  drv_engine : replay_engine_t (replay_deltas * W) }.
Arguments drv_restore_step {W}. Arguments drv_source {W}. Arguments drv_load_subsystems {W}.
Arguments drv_drive_steps {W}. Arguments drv_engine {W}.

Section driver.
Context {W : Type}.
Implicit Types (w : W) (x : replay_deltas).

(** [for (;;)]: [None] when the fuel runs out before the source ends. *)
Fixpoint split_loop (nx : W -> Z * replay_event_t * W) w x (fuel : nat)
  : option (Z * replay_deltas * W) :=
  match fuel with
  | O => None
  | S fuel =>
      let '(r, ev, w) := nx w in
      if r <? 0 then Some (REPLAY_ERR_LOAD, x, w)
      else if r =? 0 then Some (REPLAY_OK, x, w)
      else
        let '(rc, x) := split_event x ev in
        if negb (rc =? REPLAY_OK) then Some (rc, x, w) else split_loop nx w x fuel
  end.

(** [bufs] says whether the six output pointers are non-NULL. *)
Definition replay_split_epoch (src : ptr (replay_event_source_t W)) w (epoch : Z)
    (bufs : bool) x (fuel : nat) : option (Z * replay_deltas * W) :=
  match src with
  | Some {| begin_epoch := Some be; next := Some nx |} =>
      if negb bufs then Some (REPLAY_ERR_PARAM, x, w)
      else
        let x := clear_counts x in
        let '(rc, w) := be w epoch in
        if negb (rc =? 0) then Some (REPLAY_ERR_LOAD, x, w) else split_loop nx w x fuel
  | _ => Some (REPLAY_ERR_PARAM, x, w)
  end.

Definition drv_restore (restore : W -> Z -> Z * W) (c : replay_deltas * W) (epoch : Z)
  : Z * (replay_deltas * W) :=
  let '(x, w) := c in
  let '(rc, w) := restore w epoch in (rc, (x, w)).

(** Out of fuel (the source does not end) is shown as a failing load. *)
Definition drv_load (src : replay_event_source_t W) (load : W -> Z -> replay_deltas -> Z * W)
    (fuel : nat) (c : replay_deltas * W) (epoch : Z) : Z * (replay_deltas * W) :=
  let '(x, w) := c in
  match replay_split_epoch (& src) w epoch true x fuel with
  | None => (REPLAY_ERR_LOAD, c)
  | Some (rc, x, w) =>
      if negb (rc =? REPLAY_OK) then (rc, (x, w))
      else let '(rc, w) := load w epoch x in (rc, (x, w))
  end.

(** The last recorded switch point: [for (i = 0; i < d->n_pts; i++) ...]. *)
Definition last_switch x : Z :=
  foldl (fun steps p => if steps <? p then p else steps) 0
    (take (Z.to_nat (rd_n_pts x)) (rd_pts x)).

Definition drv_run (drive : W -> Z -> Z -> Z * W) (c : replay_deltas * W) (epoch limit : Z)
  : Z * (replay_deltas * W) :=
  let '(x, w) := c in
  let steps := if limit =? REPLAY_WHOLE_EPOCH then last_switch x else limit in
  let '(rc, w) := drive w epoch steps in (rc, (x, w)).

Definition replay_driver_run (drv : ptr (replay_driver_t W)) (c : replay_deltas * W)
    (kf te off : Z) (fuel : nat) : Z * ptr (replay_driver_t W) * (replay_deltas * W) :=
  match drv with
  | NULL => (REPLAY_ERR_PARAM, drv, c)
  | Some d =>
      match drv_restore_step d, drv_load_subsystems d, drv_drive_steps d,
            begin_epoch (drv_source d), next (drv_source d) with
      | Some restore, Some load, Some drive, Some _, Some _ =>
          let hk := {| restore_keyframe := & (drv_restore restore);
                       load_epoch := & (drv_load (drv_source d) load fuel);
                       run_epoch := & (drv_run drive) |} in
          let d' re := {| drv_restore_step := drv_restore_step d; drv_source := drv_source d;
                          drv_load_subsystems := drv_load_subsystems d;
                          drv_drive_steps := drv_drive_steps d; drv_engine := re |} in
          match replay_init (& (drv_engine d)) (& hk) with
          | (rc, Some re) =>
              if negb (rc =? REPLAY_OK) then (rc, & (d' re), c)
              else
                match replay_run (& re) c kf te off with
                | (rc, Some re, c) => (rc, & (d' re), c)
                | (rc, NULL, c) => (rc, drv, c)
                end
          | (rc, NULL) => (rc, drv, c)
          end
      | _, _, _, _, _ => (REPLAY_ERR_PARAM, drv, c)
      end
  end.
End driver.

(** ** The event source over the input journal (replay_driver_sync.c)

    [g_jreader] and [g_jreader_valid] next to the device; the journal store is
    what [journal_capture_store] returned. *)
Section journal_source.
Context {D : Type}.

Record source_state := {
  g_journal_dev : D;
  g_jreader : journal_reader_t;
  g_jreader_valid : bool }.

Definition src_begin_epoch (js : ptr (journal_store_t D)) (s : source_state) (epoch : Z)
  : Z * source_state :=
  let invalid r := {| g_journal_dev := g_journal_dev s; g_jreader := r; g_jreader_valid := false |} in
  match js with
  | NULL => (-1, invalid (g_jreader s))
  | Some _ =>
      match journal_store_load js (g_journal_dev s) (& (g_jreader s)) with
      | (rc, Some r) =>
          if negb (rc =? JOURNAL_OK) then (-1, invalid r)
          else if negb (jr_epoch r =? epoch) then (-1, invalid r)
          else (0, {| g_journal_dev := g_journal_dev s; g_jreader := r; g_jreader_valid := true |})
      | (rc, NULL) => (-1, invalid (g_jreader s))
      end
  end.

Definition event_none : replay_event_t := {| re_type := 0; re_len := 0; re_lclock := 0; re_value := 0 |}.

(** The reader keeps the store it was loaded from. *)
Definition src_next (store : journal_store_t D) (s : source_state)
  : Z * replay_event_t * source_state :=
  if negb (g_jreader_valid s) then (-1, event_none, s)
  else
    match journal_reader_next store (g_journal_dev s) (& (g_jreader s)) true with
    | (rc, Some r, ev) =>
        let s := {| g_journal_dev := g_journal_dev s; g_jreader := r; g_jreader_valid := true |} in
        if rc =? JOURNAL_ERR_NO_JOURNAL then (0, event_none, s)
        else if negb (rc =? JOURNAL_OK) then (-1, event_none, s)
        else
          match ev with
          | Some ev => (1, {| re_type := ev_type ev; re_len := ev_len ev;
                              re_lclock := ev_lclock ev; re_value := ev_value ev |}, s)
          | NULL => (-1, event_none, s)
          end
    | (_, NULL, _) => (-1, event_none, s)
    end.

Definition journal_event_source (store : journal_store_t D) : replay_event_source_t source_state :=
  {| begin_epoch := & (src_begin_epoch (& store)); next := & (src_next store) |}.
End journal_source.
Arguments source_state D : clear implicits.
