(* ===== verification/ReplayDriverSpec.v ===== *)
(** * Replay loads back exactly what capture recorded *)
From Stdlib Require Import ZArith Lia.
From S2P Require Import Prelude.
From S2P Require Import Crc32.
From S2P Require Import BlockDevice.
From S2P Require Import AtomicStore.
From S2P Require Import CheckpointJournal.
From S2P Require Import CheckpointJournalSpec.
From S2P Require Import JournalCapture.
From S2P Require Import JournalCaptureSpec.
From S2P Require Import ReplayEngine.
From S2P Require Import ReplayEngineSpec.
From S2P Require Import ReplayDriver.
Open Scope Z_scope.
Open Scope c_scope.

(** ** The split loop folds the events *)

Fixpoint split_all (x : replay_deltas) (evs : list replay_event_t) : Z * replay_deltas :=
  match evs with
  | [] => (REPLAY_OK, x)
  | ev :: evs =>
      let '(rc, x) := split_event x ev in
      if negb (rc =? REPLAY_OK) then (rc, x) else split_all x evs
  end.

Definition to_replay (ev : journal_event_t) : replay_event_t :=
  {| re_type := ev_type ev; re_len := ev_len ev; re_lclock := ev_lclock ev; re_value := ev_value ev |}.

Lemma split_all_app x xs ys :
  split_all x (xs ++ ys) =
  let '(rc, x') := split_all x xs in if negb (rc =? REPLAY_OK) then (rc, x') else split_all x' ys.
Proof.
  revert x; induction xs as [|ev xs IH]; intros x; [reflexivity|]. cbn [app split_all].
  destruct (split_event x ev) as [rc x']. destruct (negb (rc =? REPLAY_OK)) eqn:E; [rewrite E; reflexivity|].
  apply IH.
Qed.

Section source.
Context {D : Type}.
Implicit Types (st : journal_store_t D) (d : D).

(** A successful read moves one event forward. *)
Lemma reader_next_advances st d r :
  match journal_reader_next st d (& r) true with
  | (rc, r0, Some ev) =>
      exists r', r0 = & r' /\ rc = JOURNAL_OK /\ jr_next_index r' = u32 (jr_next_index r + 1) /\
      jr_event_count r' = jr_event_count r /\ jr_next_index r < jr_event_count r
  | _ => True
  end.
Proof.
  unfold journal_reader_next. destruct (negb (jr_valid r) || negb true); [exact I|].
  destruct (Z.leb_spec (jr_event_count r) (jr_next_index r)); [exact I|].
  destruct (if negb (jr_buf_sector r =? _) then _ else _) as [[rc bs] buf].
  destruct (negb (rc =? JOURNAL_OK)); [exact I|]. eexists. split_and!; [reflexivity.. | lia].
Qed.

Lemma reader_next_end st d r :
  jr_valid r = true -> jr_next_index r = jr_event_count r ->
  journal_reader_next st d (& r) true = (JOURNAL_ERR_NO_JOURNAL, & r, NULL).
Proof. intros Hv Hn. unfold journal_reader_next. rewrite Hv, Hn, Z.leb_refl. reflexivity. Qed.

(** [valid] is set by the load and never cleared. *)
Lemma reader_next_valid st d r :
  match journal_reader_next st d (& r) true with (_, Some r', _) => jr_valid r' = jr_valid r | _ => True end.
Proof.
  unfold journal_reader_next. destruct (negb (jr_valid r) || negb true); [reflexivity|].
  destruct (jr_event_count r <=? jr_next_index r); [reflexivity|].
  destruct (if negb (jr_buf_sector r =? _) then _ else _) as [[rc bs] buf].
  destruct (negb (rc =? JOURNAL_OK)); reflexivity.
Qed.

Lemma split_reads st d n r x fuel :
  jr_valid r = true -> length (read_events st d (& r) n) = n ->
  0 <= jr_next_index r -> jr_next_index r + Z.of_nat n = jr_event_count r -> jr_event_count r < 2 ^ 32 ->
  (n < fuel)%nat ->
  exists s', split_loop (src_next st) {| g_journal_dev := d; g_jreader := r; g_jreader_valid := true |} x fuel
    = Some (split_all x (to_replay <$> read_events st d (& r) n), s').
Proof.
  revert r x fuel; induction n as [|n IH]; intros r x fuel Hv Hl Hi Hc Hb Hf;
    (destruct fuel as [|fuel]; [lia|]); cbn [split_loop]; unfold src_next;
    cbn [g_jreader_valid g_jreader g_journal_dev negb].
  - rewrite reader_next_end by (first [exact Hv | lia]). eexists. reflexivity.
  - cbn [read_events] in Hl |- *. pose proof (reader_next_advances st d r) as Ha.
    pose proof (reader_next_valid st d r) as Hv'.
    destruct (journal_reader_next st d (& r) true) as [[rc r'] [ev|]]; [|destruct r'; discriminate].
    destruct Ha as (r1 & -> & -> & Hn & Hc' & Hlt). cbn [Z.eqb JOURNAL_OK JOURNAL_ERR_NO_JOURNAL negb length] in *.
    cbn [Z.ltb Z.compare]. rewrite fmap_cons. cbn [split_all]. fold (to_replay ev).
    destruct (split_event x (to_replay ev)) as [rc x']. destruct (negb (rc =? REPLAY_OK)).
    { eexists. reflexivity. }
    rewrite u32_id in Hn by lia.
    destruct (IH r1 x' fuel) as [s' Hs]; [congruence | lia | lia | lia | lia | lia |].
    exists s'. exact Hs.
Qed.

(** The source over a committed journal yields its inputs, whatever reader
    state it starts from. *)
Lemma split_committed (dev : fat_block_device_t D) `{!BlockDevice dev} st (wf : store_wf dev st) d s j r0 v0 x fuel :
  bd_inv d -> journal_ok j -> committed (st := st) d s (ej_epoch j) (ej_base_lclock j) (ej_inputs j) ->
  (length (ej_inputs j) < fuel)%nat ->
  exists s', replay_split_epoch (& (journal_event_source st))
      {| g_journal_dev := d; g_jreader := r0; g_jreader_valid := v0 |} (ej_epoch j) true x fuel
    = Some (split_all (clear_counts x)
              (to_replay <$> (event_of (ej_epoch j) <$> ej_inputs j)), s').
Proof.
  intros Hd Hok Hcm Hf. unfold replay_split_epoch, journal_event_source, src_begin_epoch.
  cbn [begin_epoch next negb g_jreader g_journal_dev].
  rewrite (load_committed wf d s j r0 Hd Hok Hcm). cbn [jr_epoch negb Z.eqb JOURNAL_OK].
  rewrite Z.eqb_refl. cbn [negb Z.eqb].
  pose proof Hcm as [Hs Hm _ _ _]. destruct (max_events_sectors wf) as (m & Hm1 & Hm2 & Hm3).
  destruct Hok as (He & _ & Hin).
  match goal with |- context [@Build_source_state _ _ ?r _] =>
    pose proof (read_events_committed wf d s (ej_epoch j) (ej_base_lclock j) (ej_inputs j)
                  (length (ej_inputs j)) 0 r Hd He Hin Hcm eq_refl eq_refl eq_refl eq_refl eq_refl
                  (or_introl eq_refl)) as Hr;
    destruct (split_reads st d (length (ej_inputs j)) r (clear_counts x) fuel) as [s' Hs']
  end; try reflexivity; cbn [jr_next_index jr_event_count]; try lia.
  - rewrite Hr, length_fmap. reflexivity.
  - exists s'. rewrite Hs', Hr. reflexivity.
Qed.
End source.

(** ** What the three arrays hold *)

Record holds (x : replay_deltas) (P T : list Z) (E : list byte) : Prop := {
  h_pts : take (length P) (rd_pts x) = P; h_n_pts : rd_n_pts x = Z.of_nat (length P);
  h_times : take (length T) (rd_times x) = T; h_n_times : rd_n_times x = Z.of_nat (length T);
  h_entropy : take (length E) (rd_entropy x) = E; h_n_entropy : rd_n_entropy x = Z.of_nat (length E);
  h_sizes : length (rd_pts x) = 4096%nat /\ length (rd_times x) = 4096%nat /\ length (rd_entropy x) = 4096%nat }.

(** Appending one element to a counted prefix of an array of 4096. *)
Lemma counted_append {A} (l P : list A) (v : A) :
  take (length P) l = P -> length l = 4096%nat -> (length P < 4096)%nat ->
  take (length (P ++ [v])) (zset (Z.of_nat (length P)) v l) = P ++ [v] /\
  length (zset (Z.of_nat (length P)) v l) = 4096%nat /\
  u32 (Z.of_nat (length P) + 1) = Z.of_nat (length (P ++ [v])).
Proof.
  intros HP Hl Hlt. rewrite length_zset, length_app. cbn [length]. split_and!; [|exact Hl|].
  - unfold zset. rewrite Nat2Z.id, Nat.add_1_r.
    rewrite (take_S_r _ _ v) by (apply list_lookup_insert_eq; lia).
    rewrite take_insert_ge, HP by lia. reflexivity.
  - rewrite u32_id by lia. lia.
Qed.

Lemma split_sched evs x P T E :
  Forall (fun ev => re_type ev = REPLAY_EV_SCHED) evs -> holds x P T E ->
  (length P + length evs <= 4096)%nat ->
  exists x', split_all x evs = (REPLAY_OK, x') /\ holds x' (P ++ (re_value <$> evs)) T E.
Proof.
  intros HF. revert x P; induction HF as [|ev evs Hev HF IH]; intros x P H Hl.
  { exists x. split; [reflexivity|]. rewrite app_nil_r. exact H. }
  cbn [length] in Hl. pose proof H as [Hp Hnp Ht Hnt He Hne (Hs1 & Hs2 & Hs3)].
  cbn [split_all]. unfold split_event. rewrite Hev. cbn [Z.eqb REPLAY_EV_SCHED Pos.eqb].
  unfold REPLAY_MAX_PTS. rewrite Hnp, (proj2 (Z.leb_gt _ _)) by lia. cbn [negb Z.eqb REPLAY_OK].
  destruct (counted_append _ P (re_value ev) Hp Hs1 ltac:(lia)) as (Ha & Hb & Hc).
  destruct (IH (put_pt x (re_value ev)) (P ++ [re_value ev])) as (x' & Hx & Hh).
  - split; cbn; rewrite ?Hnp; auto.
  - rewrite length_app. cbn. lia.
  - exists x'. split; [exact Hx|]. rewrite <- app_assoc in Hh. exact Hh.
Qed.

Lemma split_timer evs x P T E :
  Forall (fun ev => re_type ev = REPLAY_EV_TIMER) evs -> holds x P T E ->
  (length T + length evs <= 4096)%nat ->
  exists x', split_all x evs = (REPLAY_OK, x') /\ holds x' P (T ++ (re_value <$> evs)) E.
Proof.
  intros HF. revert x T; induction HF as [|ev evs Hev HF IH]; intros x T H Hl.
  { exists x. split; [reflexivity|]. rewrite app_nil_r. exact H. }
  cbn [length] in Hl. pose proof H as [Hp Hnp Ht Hnt He Hne (Hs1 & Hs2 & Hs3)].
  cbn [split_all]. unfold split_event. rewrite Hev. cbn [Z.eqb REPLAY_EV_TIMER REPLAY_EV_SCHED Pos.eqb].
  unfold REPLAY_MAX_TIMES. rewrite Hnt, (proj2 (Z.leb_gt _ _)) by lia. cbn [negb Z.eqb REPLAY_OK].
  destruct (counted_append _ T (re_value ev) Ht Hs2 ltac:(lia)) as (Ha & Hb & Hc).
  destruct (IH (put_time x (re_value ev)) (T ++ [re_value ev])) as (x' & Hx & Hh).
  - split; cbn; rewrite ?Hnt; auto.
  - rewrite length_app. cbn. lia.
  - exists x'. split; [exact Hx|]. rewrite <- app_assoc in Hh. exact Hh.
Qed.

Lemma unpack_holds n value b x P T E :
  holds x P T E -> (length E + n <= 4096)%nat -> 0 <= b ->
  exists x', unpack_entropy x value n b = (REPLAY_OK, x') /\
    holds x' P T (E ++ le_split n (Z.shiftr value (8 * b))).
Proof.
  revert b x E; induction n as [|n IH]; intros b x E H Hl Hb.
  { exists x. split; [reflexivity|]. rewrite app_nil_r. exact H. }
  pose proof H as [Hp Hnp Ht Hnt He Hne (Hs1 & Hs2 & Hs3)].
  cbn [unpack_entropy]. unfold REPLAY_MAX_ENTROPY. rewrite Hne, (proj2 (Z.leb_gt _ _)) by lia.
  set (v := byte.of_Z _).
  destruct (counted_append _ E v He Hs3 ltac:(lia)) as (Ha & Hb' & Hc).
  destruct (IH (b + 1) (put_byte x v) (E ++ [v])) as (x' & Hx & Hh).
  - split; cbn; rewrite ?Hne; auto.
  - rewrite length_app. cbn. lia.
  - lia.
  - exists x'. split; [exact Hx|]. rewrite <- app_assoc in Hh.
    change (le_split (S n) ?w) with (byte.of_Z w :: le_split n (Z.shiftr w 8)).
    rewrite Z.shiftr_shiftr by lia. replace (8 * b + 8) with (8 * (b + 1)) by lia. exact Hh.
Qed.

Definition event_bytes_of (ev : replay_event_t) : list byte := le_split (Z.to_nat (re_len ev)) (re_value ev).

Lemma split_entropy evs x P T E :
  Forall (fun ev => re_type ev = REPLAY_EV_ENTROPY /\ 0 <= re_len ev <= 8) evs -> holds x P T E ->
  (length E + length (mjoin (event_bytes_of <$> evs)) <= 4096)%nat ->
  exists x', split_all x evs = (REPLAY_OK, x') /\ holds x' P T (E ++ mjoin (event_bytes_of <$> evs)).
Proof.
  intros HF. revert x E; induction HF as [|ev evs [Hev Hlen] HF IH]; intros x E H Hl.
  { exists x. split; [reflexivity|]. cbn. rewrite app_nil_r. exact H. }
  rewrite fmap_cons in *.
  change (mjoin (event_bytes_of ev :: ?l)) with (event_bytes_of ev ++ mjoin l) in *.
  rewrite length_app in Hl. unfold event_bytes_of in Hl at 1. rewrite length_le_split in Hl.
  cbn [split_all]. unfold split_event. rewrite Hev.
  cbn [Z.eqb REPLAY_EV_TIMER REPLAY_EV_SCHED REPLAY_EV_ENTROPY Pos.eqb].
  rewrite (proj2 (Z.leb_le _ _)) by lia.
  destruct (unpack_holds (Z.to_nat (re_len ev)) (re_value ev) 0 x P T E H ltac:(lia) ltac:(lia))
    as (x1 & -> & H1). rewrite Z.shiftr_0_r in H1. cbn [negb Z.eqb REPLAY_OK].
  destruct (IH x1 _ H1) as (x' & Hx & Hh).
  - rewrite length_app, length_le_split. lia.
  - exists x'. split; [exact Hx|]. rewrite <- app_assoc in Hh. exact Hh.
Qed.

Lemma split_other evs x :
  Forall (fun ev => re_type ev = JOURNAL_EV_DIVERGE) evs -> split_all x evs = (REPLAY_OK, x).
Proof.
  induction 1 as [|ev evs Hev _ IH]; [reflexivity|]. cbn [split_all]. unfold split_event.
  rewrite Hev. exact IH.
Qed.

(** ** The events of a captured class, as the splitter sees them *)

Definition replay_class (ev : Z -> Z * Z * Z * Z) (epoch n step : Z) : list replay_event_t :=
  to_replay <$> (event_of epoch <$> class_inputs ev n step).

Lemma replay_class_map ev epoch n step :
  replay_class ev epoch n step =
  (fun j => to_replay (event_of epoch (to_input (ev (step * j))))) <$> seqZ 0 ((n + step - 1) / step).
Proof. unfold replay_class, class_inputs. rewrite <- !list_fmap_compose. reflexivity. Qed.

Lemma zget_seqZ {A} (d : A) (l : list A) n :
  0 <= n <= Z.of_nat (length l) -> zget d l <$> seqZ 0 n = take (Z.to_nat n) l.
Proof.
  intros Hn. apply list_eq. intros i. rewrite list_lookup_fmap.
  destruct (decide (i < Z.to_nat n)%nat).
  - rewrite lookup_seqZ_lt, lookup_take_lt by lia. cbn. unfold zget.
    replace (Z.to_nat (0 + Z.of_nat i)) with i by lia.
    destruct (lookup_lt_is_Some_2 l i ltac:(lia)) as [x Hx]. rewrite Hx. f_equal. apply nth_lookup_Some, Hx.
  - rewrite lookup_seqZ_ge, lookup_take_ge by lia. reflexivity.
Qed.

Lemma class_type ev epoch n step ty :
  (forall i, (ev i).1.1.1 = ty) -> Forall (fun e => re_type e = ty) (replay_class ev epoch n step).
Proof.
  intros H. rewrite replay_class_map. apply Forall_fmap, Forall_true. intros j. unfold compose.
  rewrite <- (H (step * j)). destruct (ev (step * j)) as [[[ty' lc] v] len]. reflexivity.
Qed.

Lemma class_values ev epoch n l :
  (forall i, (ev i).1.2 = zget 0 l i) -> 0 <= n <= Z.of_nat (length l) ->
  re_value <$> replay_class ev epoch n 1 = take (Z.to_nat n) l.
Proof.
  intros H Hn. rewrite replay_class_map, <- list_fmap_compose, <- (zget_seqZ 0) by exact Hn.
  replace ((n + 1 - 1) / 1) with n by (rewrite Z.div_1_r; lia).
  apply list_fmap_ext. intros i j _. unfold compose. rewrite <- H, Z.mul_1_l.
  destruct (ev j) as [[[ty lc] v] len]. reflexivity.
Qed.

Lemma mjoin_chunks {A} c (l : list A) k :
  mjoin ((fun j => take c (drop (Z.to_nat j * c) l)) <$> seqZ 0 (Z.of_nat k)) = take (k * c) l.
Proof.
  revert l; induction k as [|k IH]; intros l; [reflexivity|].
  rewrite seqZ_cons, fmap_cons by lia.
  change (mjoin (?o :: ?os)) with (o ++ mjoin os). cbn [Z.to_nat Nat.mul]. rewrite drop_0.
  replace (seqZ (Z.succ 0) (Z.pred (Z.of_nat (S k)))) with (Z.add 1 <$> seqZ 0 (Z.of_nat k))
    by (rewrite fmap_add_seqZ; f_equal; lia).
  rewrite <- list_fmap_compose. change (S k * c)%nat with (c + k * c)%nat.
  replace (take (c + k * c) l) with (take c l ++ take (k * c) (drop c l)).
  2:{ rewrite <- (take_drop c (take (c + k * c) l)), take_take, skipn_firstn_comm. do 2 f_equal; lia. }
  f_equal. rewrite <- IH. f_equal. apply list_fmap_ext. intros i j Hj. unfold compose.
  apply lookup_seqZ in Hj as [-> Hj]. rewrite drop_drop. do 2 f_equal. lia.
Qed.

Lemma entropy_class bytes epoch n :
  0 <= n <= 2 ^ 32 - 8 -> n <= Z.of_nat (length bytes) ->
  Forall (fun ev => re_type ev = REPLAY_EV_ENTROPY /\ 0 <= re_len ev <= 8)
    (replay_class (entropy_event bytes n) epoch n 8) /\
  mjoin (event_bytes_of <$> replay_class (entropy_event bytes n) epoch n 8) = take (Z.to_nat n) bytes.
Proof.
  intros Hn Hl. rewrite replay_class_map.
  pose proof (Z.div_mod (n + 8 - 1) 8 ltac:(lia)). pose proof (Z.mod_pos_bound (n + 8 - 1) 8 ltac:(lia)).
  pose proof (Z.div_pos (n + 8 - 1) 8 ltac:(lia) ltac:(lia)) as Hk. set (k := (n + 8 - 1) / 8) in *. split.
  - apply Forall_fmap, Forall_forall. intros j Hj%elem_of_seqZ. unfold compose, entropy_event.
    cbn. split; [reflexivity|]. destruct (Z.ltb_spec (n - 8 * j) 8); lia.
  - rewrite <- list_fmap_compose.
    replace (take (Z.to_nat n) bytes) with (take (Z.to_nat k * 8) (take (Z.to_nat n) bytes))
      by (apply take_ge; rewrite length_take; lia).
    rewrite <- mjoin_chunks, Z2Nat.id by exact Hk. f_equal. apply list_fmap_ext. intros i j Hj.
    apply lookup_seqZ in Hj as [-> Hj]. unfold compose, event_bytes_of, entropy_event.
    cbn -[pack_entropy le_split Z.mul]. rewrite Z.add_0_l.
    set (chunk := if _ <? _ then _ else _).
    assert (0 < chunk <= 8 /\ chunk <= n - 8 * Z.of_nat i) as Hc
      by (subst chunk; destruct (Z.ltb_spec (n - 8 * Z.of_nat i) 8); lia).
    rewrite pack_entropy_combine by lia. rewrite split_le_combine' by (rewrite length_take, length_drop; lia).
    replace (Z.to_nat (8 * Z.of_nat i)) with (Z.to_nat (Z.of_nat i) * 8)%nat by lia.
    rewrite skipn_firstn_comm, take_take. f_equal.
    subst chunk. destruct (Z.ltb_spec (n - 8 * Z.of_nat i) 8); lia.
Qed.

(** ** Capture, load and split *)

(** The three arrays of the driver: [d->pts], [d->times], [d->entropy]. *)
Definition arrays_ok (x : replay_deltas) : Prop :=
  length (rd_pts x) = 4096%nat /\ length (rd_times x) = 4096%nat /\ length (rd_entropy x) = 4096%nat.

Lemma holds_clear x : arrays_ok x -> holds (clear_counts x) [] [] [].
Proof. intros H. split; cbn; try reflexivity; exact H. Qed.

(** What a source reports: its count and buffer, nothing when it is NULL. *)
Definition reports {W A} (f : ptr (W -> Z * ptr (list A))) (world : W) (l : list A) : Prop :=
  match f with
  | NULL => l = []
  | Some f => match f world with
              | (n, Some b) => 0 <= n /\ n <= Z.of_nat (length b) /\ l = take (Z.to_nat n) b
              | (n, NULL) => l = []
              end
  end.

Lemma split_captured {W} (src : journal_capture_sources_t W) world epoch x pts times bytes :
  sources_ok src world -> arrays_ok x ->
  reports (preempt_points src) world pts -> reports (time_values src) world times ->
  reports (entropy_bytes src) world bytes ->
  (length pts <= 4096)%nat -> (length times <= 4096)%nat -> (length bytes <= 4096)%nat ->
  exists x', split_all (clear_counts x) (to_replay <$> (event_of epoch <$> capture_inputs src world))
               = (REPLAY_OK, x') /\ holds x' pts times bytes.
Proof.
  intros Hok Hx Rp Rt Re Lp Lt Le. unfold capture_inputs. rewrite !fmap_app, split_all_app.
  assert (exists x1, split_all (clear_counts x) (to_replay <$> (event_of epoch <$> points_inputs src world))
            = (REPLAY_OK, x1) /\ holds x1 pts [] []) as (x1 & -> & H1).
  { pose proof (holds_clear x Hx) as H0. unfold points_inputs, reports in *.
    destruct (preempt_points src) as [f|] eqn:Ef; [|subst pts; eauto].
    destruct (f world) as [n [b|]] eqn:E; [|subst pts; eauto]. destruct Rp as (Hn & Hl & ->).
    fold (replay_class (sched_event b) epoch n 1).
    pose proof (class_values (sched_event b) epoch n b (fun _ => eq_refl) ltac:(lia)) as Hv.
    rewrite <- Hv in *. rewrite length_fmap in Lp.
    destruct (split_sched _ _ [] [] [] (class_type (sched_event b) epoch n 1 REPLAY_EV_SCHED (fun _ => eq_refl)) H0 Lp)
      as (x1 & He & Hh). eauto. }
  cbn [negb Z.eqb REPLAY_OK]. rewrite split_all_app.
  assert (exists x2, split_all x1 (to_replay <$> (event_of epoch <$> times_inputs src world))
            = (REPLAY_OK, x2) /\ holds x2 pts times []) as (x2 & -> & H2).
  { unfold times_inputs, reports in *. destruct (time_values src) as [f|]; [|subst times; eauto].
    destruct (f world) as [n [b|]]; [|subst times; eauto]. destruct Rt as (Hn & Hl & ->).
    fold (replay_class (timer_event b) epoch n 1).
    pose proof (class_values (timer_event b) epoch n b (fun _ => eq_refl) ltac:(lia)) as Hv.
    rewrite <- Hv in *. rewrite length_fmap in Lt.
    destruct (split_timer _ _ pts [] [] (class_type (timer_event b) epoch n 1 REPLAY_EV_TIMER (fun _ => eq_refl)) H1 Lt)
      as (x2 & He & Hh). eauto. }
  cbn [negb Z.eqb REPLAY_OK]. rewrite split_all_app.
  assert (exists x3, split_all x2 (to_replay <$> (event_of epoch <$> entropy_inputs src world))
            = (REPLAY_OK, x3) /\ holds x3 pts times bytes) as (x3 & -> & H3).
  { destruct Hok as (_ & _ & Hok & _). unfold entropy_inputs, reports in *.
    destruct (entropy_bytes src) as [f|]; [|subst bytes; eauto].
    destruct (f world) as [n [b|]] eqn:E; [|subst bytes; eauto]. destruct Re as (_ & _ & ->).
    destruct (Hok _ _ _ eq_refl E) as [Hn Hl]. fold (replay_class (entropy_event b n) epoch n 8).
    destruct (entropy_class b epoch n Hn Hl) as [HF Hm]. rewrite <- Hm in *.
    destruct (split_entropy _ _ pts times [] HF H2 Le) as (x3 & He & Hh). eauto. }
  cbn [negb Z.eqb REPLAY_OK]. exists x3. split; [|exact H3]. apply split_other.
  unfold sums_inputs. destruct (divergence_sums src) as [f|]; [|constructor].
  destruct (f world) as [[n [ids|]] [sums|]]; try constructor.
  apply (class_type (diverge_event ids sums) epoch n 1). reflexivity.
Qed.

(** C4: what was recorded is what is replayed.  On a device without I/O errors,
    an epoch whose deltas fit the journal and the driver's arrays is captured
    successfully, and splitting that epoch's journal, from any earlier reader
    state, yields exactly the recorded preemption points, clock reads and
    entropy bytes: through the journal's sector buffering, the 8-byte packing
    of entropy, and the divergence sums interleaved after them.  The split
    reads one event per input, then the end. *)
Theorem capture_replay_roundtrip {D W} (dev : fat_block_device_t D) `{!BlockDevice dev, !ReliableDevice dev}
    (st : journal_store_t D) (d : D) (w0 : journal_writer_t) (epoch base : Z)
    (src : journal_capture_sources_t W) (world : W) (pts times : list Z) (bytes : list byte)
    (r0 : journal_reader_t) (v0 : bool) (x : replay_deltas) (fuel : nat) :
  store_wf dev st -> journal_inv (st := st) d -> fits 8 epoch -> fits 8 base -> sources_ok src world ->
  Z.of_nat (length (capture_inputs src world)) <= js_max_events st -> arrays_ok x ->
  reports (preempt_points src) world pts -> reports (time_values src) world times ->
  reports (entropy_bytes src) world bytes ->
  (length pts <= 4096)%nat -> (length times <= 4096)%nat -> (length bytes <= 4096)%nat ->
  (length (capture_inputs src world) < fuel)%nat ->
  let '(rc, d') := journal_capture_epoch (& st) d w0 epoch base (& src) world in
  rc = JOURNAL_OK /\
  exists x' s', replay_split_epoch (& (journal_event_source st))
      {| g_journal_dev := d'; g_jreader := r0; g_jreader_valid := v0 |} epoch true x fuel
    = Some (REPLAY_OK, x', s') /\
    rd_n_pts x' = Z.of_nat (length pts) /\ take (length pts) (rd_pts x') = pts /\
    rd_n_times x' = Z.of_nat (length times) /\ take (length times) (rd_times x') = times /\
    rd_n_entropy x' = Z.of_nat (length bytes) /\ take (length bytes) (rd_entropy x') = bytes.
Proof.
  intros wf Hd He Hb Hok Hmax Hx Rp Rt Re Lp Lt Le Hf. rewrite capture_records by exact Hok.
  pose proof (captured_ok src world epoch base He Hb Hok) as Hj.
  pose proof (record_reliable wf d (captured epoch base src world) (proj1 Hd) Hmax) as Hrc.
  pose proof (record_spec wf d _ Hd Hj) as Hs. destruct (record_epoch st d _) as [rc d'].
  cbn [fst] in Hrc. subst rc. destruct Hs as ([Hd' _] & _ & Hc). specialize (Hc eq_refl). split; [reflexivity|].
  destruct (split_committed dev st wf d' _ (captured epoch base src world) r0 v0 x fuel Hd' Hj Hc Hf) as [s' Hs].
  cbn [captured ej_epoch ej_inputs] in Hs.
  destruct (split_captured src world epoch x pts times bytes Hok Hx Rp Rt Re Lp Lt Le) as (x' & Hx' & H).
  rewrite Hx' in Hs. exists x', s'. split; [exact Hs|]. destruct H. split_and!; assumption.
Qed.

Definition example_arrays : replay_deltas :=
  {| rd_pts := replicate 4096 0; rd_n_pts := 77; rd_times := replicate 4096 0; rd_n_times := 5;
     rd_entropy := zeros 4096; rd_n_entropy := 0 |}.

Definition example_points : list Z := [2; 5; 9].
Definition example_times : list Z := [1000; 1003].
Definition example_bytes : list byte := byte.of_Z <$> seqZ 7 11.

Lemma capture_replay_roundtrip_witness :
  let '(rc, d') := journal_capture_epoch (& (example_journal ramdisk_device)) ramdisk_fresh writer_none 4 0
                     (& example_sources) tt in
  rc = JOURNAL_OK /\
  exists x' s', replay_split_epoch (& (journal_event_source (example_journal ramdisk_device)))
      {| g_journal_dev := d'; g_jreader := reader_none; g_jreader_valid := false |} 4 true example_arrays 8
    = Some (REPLAY_OK, x', s') /\
    rd_n_pts x' = Z.of_nat (length example_points) /\ take (length example_points) (rd_pts x') = example_points /\
    rd_n_times x' = Z.of_nat (length example_times) /\ take (length example_times) (rd_times x') = example_times /\
    rd_n_entropy x' = Z.of_nat (length example_bytes) /\
    take (length example_bytes) (rd_entropy x') = example_bytes.
Proof.
  apply (capture_replay_roundtrip ramdisk_device (example_journal ramdisk_device) ramdisk_fresh writer_none 4 0
           example_sources tt example_points example_times example_bytes reader_none false example_arrays 8).
  - exact example_journal_wf.
  - exact ramdisk_fresh_sane.
  - unfold fits; lia.
  - unfold fits; lia.
  - exact example_sources_ok.
  - vm_compute. discriminate.
  - split_and!; reflexivity.
  - cbn. split_and!; [lia | lia | reflexivity].
  - cbn. split_and!; [lia | lia | reflexivity].
  - split; [vm_compute; discriminate | split; [vm_compute; discriminate | reflexivity]].
  - vm_compute. lia.
  - vm_compute. lia.
  - vm_compute. lia.
  - vm_compute. lia.
Defined.
