(* ===== verification/Rewind.v ===== *)
(** * Rewind, reverse execution, reverse break- and watchpoints
    (kernel/rewind.c, kernel/reverse.c, kernel/revbreak.c and their adapters)

    Pure composition over the keyframe ring and the replay engine.  The world
    [W] is what the engine's hooks act on; the ring is only read, so it is a
    value in the context.  The unbounded loops take fuel; [None] is out of
    fuel. *)
From Stdlib Require Import ZArith Lia.
From S2P Require Import Prelude.
From S2P Require Import KeyframeRing.
From S2P Require Import ReplayEngine.
Open Scope Z_scope.
Open Scope c_scope.

(** ** The rewind verb *)
Definition REWIND_OK : Z := 0.
Definition REWIND_ERR_PARAM : Z := -1.
Definition REWIND_ERR_OUT_OF_RANGE : Z := -2.
Definition REWIND_ERR_REPLAY : Z := -3.

Record rewind_ctx_t (W : Type) := {
  rw_ring : ptr keyframe_ring_t;
  rw_engine : ptr (replay_engine_t W);
  landed_keyframe : Z;
  landed_epoch : Z;
  landed_offset : Z;
  runnable : bool }.
Arguments rw_ring {W}. Arguments rw_engine {W}. Arguments landed_keyframe {W}.
Arguments landed_epoch {W}. Arguments landed_offset {W}. Arguments runnable {W}.

(** ** Reverse execution *)
Definition REVERSE_OK : Z := 0.
Definition REVERSE_ERR_PARAM : Z := -1.
Definition REVERSE_AT_START : Z := -2.
Definition REVERSE_ERR_REWIND : Z := -3.

Record reverse_pos_t := { epoch : Z; offset : Z }.

(** [epoch_len] reads the journal's step count of an epoch from the world. *)
Record reverse_ctx_t (W : Type) := {
  rv_rw : ptr (rewind_ctx_t W);
  rv_epoch_len : ptr (W -> Z -> Z);
  rv_cur : reverse_pos_t }.
Arguments rv_rw {W}. Arguments rv_epoch_len {W}. Arguments rv_cur {W}.

(** ** Reverse breakpoints *)
Definition REVBREAK_OK : Z := 0.
Definition REVBREAK_NOT_FOUND : Z := -1.
Definition REVBREAK_ERR_PARAM : Z := -2.
Definition REVBREAK_ERR : Z := -3.

Section rewind.
Context {W : Type}.
Implicit Types (w : W) (rw : rewind_ctx_t W) (rv : reverse_ctx_t W) (cur : reverse_pos_t).

Definition rewind_init (rw : ptr (rewind_ctx_t W)) (ring : ptr keyframe_ring_t)
    (engine : ptr (replay_engine_t W)) : Z * ptr (rewind_ctx_t W) :=
  match rw, ring, engine with
  | Some _, Some _, Some _ =>
      (REWIND_OK, & {| rw_ring := ring; rw_engine := engine; landed_keyframe := 0;
                       landed_epoch := 0; landed_offset := 0; runnable := false |})
  | _, _, _ => (REWIND_ERR_PARAM, rw)
  end.

Definition rewind_to (rw : ptr (rewind_ctx_t W)) w (te off : Z)
  : Z * ptr (rewind_ctx_t W) * W :=
  match rw with
  | Some {| rw_ring := Some ring; rw_engine := Some engine; landed_keyframe := lk;
            landed_epoch := le; landed_offset := lo |} =>
      let ctx eng lk le lo run :=
        & {| rw_ring := & ring; rw_engine := eng; landed_keyframe := lk;
             landed_epoch := le; landed_offset := lo; runnable := run |} in
      let out_of_range := (REWIND_ERR_OUT_OF_RANGE, ctx (& engine) lk le lo false, w) in
      match keyframe_ring_newest (& ring) with
      | None => out_of_range
      | Some newest =>
          if newest <? te then out_of_range
          else
            match keyframe_ring_find (& ring) te with
            | None => out_of_range
            | Some (_, keyframe) =>
                let '(rc, eng, w) := replay_run (& engine) w keyframe te off in
                if negb (rc =? REPLAY_OK)
                then (REWIND_ERR_REPLAY, ctx eng lk le lo false, w)
                else (REWIND_OK,
                      ctx eng keyframe te off (match eng with Some e => done e | NULL => false end), w)
            end
      end
  | _ => (REWIND_ERR_PARAM, rw, w)
  end.

Definition reverse_init (rv : ptr (reverse_ctx_t W)) (rw : ptr (rewind_ctx_t W))
    (epoch_len : ptr (W -> Z -> Z)) : Z * ptr (reverse_ctx_t W) :=
  match rv, rw, epoch_len with
  | Some _, Some _, Some _ =>
      (REVERSE_OK, & {| rv_rw := rw; rv_epoch_len := epoch_len; rv_cur := {| epoch := 0; offset := 0 |} |})
  | _, _, _ => (REVERSE_ERR_PARAM, rv)
  end.

(** [rc->cur = pos] *)
Definition set_cur rv (p : reverse_pos_t) : reverse_ctx_t W :=
  {| rv_rw := rv_rw rv; rv_epoch_len := rv_epoch_len rv; rv_cur := p |}.

Definition reverse_set_position (rv : ptr (reverse_ctx_t W)) (e off : Z) : ptr (reverse_ctx_t W) :=
  match rv with NULL => NULL | Some rv => & (set_cur rv {| epoch := e; offset := off |}) end.

Definition reverse_position (rv : ptr (reverse_ctx_t W)) : reverse_pos_t :=
  match rv with Some rv => rv_cur rv | NULL => {| epoch := 0; offset := 0 |} end.

(** The walk over empty epochs.  Each iteration moves to a strictly earlier
    retained keyframe, so one unit of fuel per slot of the ring, plus one,
    always reaches the end. *)
Fixpoint prev_boundary (ring : ptr keyframe_ring_t) (len : Z -> Z) (fuel : nat) (e : Z)
  : option (option reverse_pos_t) :=
  match fuel with
  | O => None
  | S fuel =>
      if 0 <? e then
        match keyframe_ring_find ring (e - 1) with
        | None => Some None
        | Some (_, prev_kf) =>
            if 0 <? len prev_kf
            then Some (Some {| epoch := prev_kf; offset := len prev_kf - 1 |})
            else prev_boundary ring len fuel prev_kf
        end
      else Some None
  end.

Definition boundary_fuel (ring : ptr keyframe_ring_t) : nat :=
  match ring with Some k => S (S (Z.to_nat (kr_capacity k))) | NULL => 1 end.

(** [true] with [*out] filled is [Some]. *)
Definition prev_pos (ring : ptr keyframe_ring_t) (len : Z -> Z) cur : option reverse_pos_t :=
  if 0 <? offset cur then Some {| epoch := epoch cur; offset := offset cur - 1 |}
  else
    match prev_boundary ring len (boundary_fuel ring) (epoch cur) with
    | Some p => p
    | None => None
    end.

(** The ring and the epoch lengths [prev_pos] reads through [rc]. *)
Definition ctx_ring rw : ptr keyframe_ring_t := rw_ring rw.
Definition ctx_len rv w (e : Z) : Z :=
  match rv_epoch_len rv with Some f => f w e | NULL => 0 end.

Definition reverse_step (rv : ptr (reverse_ctx_t W)) w : Z * ptr (reverse_ctx_t W) * W :=
  match rv with
  | NULL => (REVERSE_ERR_PARAM, rv, w)
  | Some k =>
      match rv_rw k with
      | NULL => (REVERSE_ERR_PARAM, rv, w)
      | Some rw =>
          match prev_pos (ctx_ring rw) (ctx_len k w) (rv_cur k) with
          | None => (REVERSE_AT_START, rv, w)
          | Some prev =>
              let '(rc, rw, w) := rewind_to (& rw) w (epoch prev) (offset prev) in
              let k := {| rv_rw := rw; rv_epoch_len := rv_epoch_len k; rv_cur := rv_cur k |} in
              if negb (rc =? REWIND_OK) then (REVERSE_ERR_REWIND, & k, w)
              else (REVERSE_OK, & (set_cur k prev), w)
          end
      end
  end.

(** [for (;;)] of [reverse_continue]; [stop] reads the world at the position. *)
Fixpoint continue_loop (fuel : nat) rv w (stop : ptr (W -> reverse_pos_t -> bool))
  : option (Z * ptr (reverse_ctx_t W) * W) :=
  match fuel with
  | O => None
  | S fuel =>
      match rv_rw rv with
      | NULL => Some (REVERSE_ERR_PARAM, & rv, w)
      | Some rw =>
          match prev_pos (ctx_ring rw) (ctx_len rv w) (rv_cur rv) with
          | None => Some (REVERSE_AT_START, & rv, w)
          | Some prev =>
              let '(rc, rw, w) := rewind_to (& rw) w (epoch prev) (offset prev) in
              let rv := {| rv_rw := rw; rv_epoch_len := rv_epoch_len rv; rv_cur := rv_cur rv |} in
              if negb (rc =? REWIND_OK) then Some (REVERSE_ERR_REWIND, & rv, w)
              else
                let rv := set_cur rv prev in
                if match stop with Some f => f w prev | NULL => false end
                then Some (REVERSE_OK, & rv, w)
                else continue_loop fuel rv w stop
          end
      end
  end.

Definition reverse_continue (fuel : nat) (rv : ptr (reverse_ctx_t W)) w
    (stop : ptr (W -> reverse_pos_t -> bool)) : option (Z * ptr (reverse_ctx_t W) * W) :=
  match rv with
  | NULL => Some (REVERSE_ERR_PARAM, rv, w)
  | Some k => continue_loop fuel k w stop
  end.

(** [bp_adapter]: the position is ignored, the condition reads the state. *)
Definition bp_adapter (cond : W -> bool) w (pos : reverse_pos_t) : bool := cond w.

(** The last component is [*hit]. *)
Definition reverse_breakpoint (fuel : nat) (rv : ptr (reverse_ctx_t W)) w (cond : ptr (W -> bool))
  : option (Z * ptr (reverse_ctx_t W) * W * option reverse_pos_t) :=
  match rv, cond with
  | Some _, Some cond =>
      match reverse_continue fuel rv w (& (bp_adapter cond)) with
      | None => None
      | Some (rc, rv, w) =>
          if rc =? REVERSE_OK then Some (REVBREAK_OK, rv, w, Some (reverse_position rv))
          else if rc =? REVERSE_AT_START then Some (REVBREAK_NOT_FOUND, rv, w, None)
          else Some (REVBREAK_ERR, rv, w, None)
      end
  | _, _ => Some (REVBREAK_ERR_PARAM, rv, w, None)
  end.

(** [for (;;)] of [reverse_watchpoint], with the value [newer] of the current
    position. *)
Fixpoint watch_loop (fuel : nat) (rv : ptr (reverse_ctx_t W)) w (probe : W -> Z) (newer : Z)
  : option (Z * ptr (reverse_ctx_t W) * W * option reverse_pos_t) :=
  match fuel with
  | O => None
  | S fuel =>
      let before := reverse_position rv in
      let '(rc, rv, w) := reverse_step rv w in
      if rc =? REVERSE_AT_START then Some (REVBREAK_NOT_FOUND, rv, w, None)
      else if negb (rc =? REVERSE_OK) then Some (REVBREAK_ERR, rv, w, None)
      else
        let older := probe w in
        if negb (older =? newer) then
          match rv with
          | NULL => Some (REVBREAK_ERR, rv, w, None)
          | Some k =>
              let '(rc, rw, w) := rewind_to (rv_rw k) w (epoch before) (offset before) in
              let k := {| rv_rw := rw; rv_epoch_len := rv_epoch_len k; rv_cur := rv_cur k |} in
              if negb (rc =? REWIND_OK) then Some (REVBREAK_ERR, & k, w, None)
              else Some (REVBREAK_OK, & (set_cur k before), w, Some before)
          end
        else watch_loop fuel rv w probe older
  end.

Definition reverse_watchpoint (fuel : nat) (rv : ptr (reverse_ctx_t W)) w (probe : ptr (W -> Z))
  : option (Z * ptr (reverse_ctx_t W) * W * option reverse_pos_t) :=
  match rv, probe with
  | Some k, Some probe =>
      match rv_rw k with
      | NULL => Some (REVBREAK_ERR_PARAM, rv, w, None)
      | Some _ =>
          let cur := reverse_position rv in
          let '(rc, rw, w) := rewind_to (rv_rw k) w (epoch cur) (offset cur) in
          let k := {| rv_rw := rw; rv_epoch_len := rv_epoch_len k; rv_cur := rv_cur k |} in
          if negb (rc =? REWIND_OK) then Some (REVBREAK_ERR, & k, w, None)
          else watch_loop fuel (& k) w probe (probe w)
      end
  | _, _ => Some (REVBREAK_ERR_PARAM, rv, w, None)
  end.

(** ** Kernel adapters: the bound globals *)
Record rewind_global := { g_rewind : rewind_ctx_t W; g_rewind_bound : bool }.
Definition krewind_bind (g : rewind_global) (ring : ptr keyframe_ring_t)
    (engine : ptr (replay_engine_t W)) : rewind_global :=
  match rewind_init (& (g_rewind g)) ring engine with
  | (rc, Some rw) => {| g_rewind := rw; g_rewind_bound := rc =? REWIND_OK |}
  | (rc, NULL) => {| g_rewind := g_rewind g; g_rewind_bound := rc =? REWIND_OK |}
  end.
Definition krewind_to (g : rewind_global) w (te off : Z) : Z * rewind_global * W :=
  if negb (g_rewind_bound g) then (REWIND_ERR_PARAM, g, w)
  else
    match rewind_to (& (g_rewind g)) w te off with
    | (rc, Some rw, w) => (rc, {| g_rewind := rw; g_rewind_bound := g_rewind_bound g |}, w)
    | (rc, NULL, w) => (rc, g, w)
    end.
Definition krewind_runnable (g : rewind_global) : bool := g_rewind_bound g && runnable (g_rewind g).
Definition krewind_landed_keyframe (g : rewind_global) : Z :=
  if g_rewind_bound g then landed_keyframe (g_rewind g) else 0.

Record reverse_global := { g_reverse : reverse_ctx_t W; g_reverse_bound : bool }.
Definition kreverse_bind (g : reverse_global) (rw : ptr (rewind_ctx_t W))
    (epoch_len : ptr (W -> Z -> Z)) : reverse_global :=
  match reverse_init (& (g_reverse g)) rw epoch_len with
  | (rc, Some rv) => {| g_reverse := rv; g_reverse_bound := rc =? REVERSE_OK |}
  | (rc, NULL) => {| g_reverse := g_reverse g; g_reverse_bound := rc =? REVERSE_OK |}
  end.
Definition kreverse_set_position (g : reverse_global) (e off : Z) : reverse_global :=
  match reverse_set_position (& (g_reverse g)) e off with
  | Some rv => {| g_reverse := rv; g_reverse_bound := g_reverse_bound g |}
  | NULL => g
  end.
Definition kreverse_position (g : reverse_global) : reverse_pos_t :=
  if g_reverse_bound g then reverse_position (& (g_reverse g)) else {| epoch := 0; offset := 0 |}.
Definition kreverse_step (g : reverse_global) w : Z * reverse_global * W :=
  if negb (g_reverse_bound g) then (REVERSE_ERR_PARAM, g, w)
  else
    match reverse_step (& (g_reverse g)) w with
    | (rc, Some rv, w) => (rc, {| g_reverse := rv; g_reverse_bound := g_reverse_bound g |}, w)
    | (rc, NULL, w) => (rc, g, w)
    end.
End rewind.
