(* ===== verification/RewindSpec.v ===== *)
(** * Reverse execution visits the recorded past, newest first, without drift *)
From Stdlib Require Import ZArith Lia.
From S2P Require Import Prelude.
From S2P Require Import Crc32.
From S2P Require Import KeyframeRing.
From S2P Require Import KeyframeRingSpec.
From S2P Require Import ReplayEngine.
From S2P Require Import ReplayEngineSpec.
From S2P Require Import Rewind.
Open Scope Z_scope.
Open Scope c_scope.

(** ** Any ring's retained keyframes *)

Definition slot_epoch (k : keyframe_ring_t) (i : Z) : Z := ks_epoch (slot_at k i).

(** A valid slot the scans visit holds epoch [e]. *)
Definition retained (k : keyframe_ring_t) (e : Z) : Prop :=
  exists i, i ∈ ring_indices k /\ slot_valid k i = true /\ slot_epoch k i = e.

Definition nearest_in (k : keyframe_ring_t) (target : Z) (l : list Z) (acc : option (Z * Z)) : Prop :=
  match acc with
  | Some (i, e) => i ∈ l /\ slot_valid k i = true /\ slot_epoch k i = e /\ e <= target /\
      forall j, j ∈ l -> slot_valid k j = true -> slot_epoch k j <= target -> slot_epoch k j <= e
  | None => forall j, j ∈ l -> slot_valid k j = true -> target < slot_epoch k j
  end.

Lemma find_nearest_in k target l : nearest_in k target l (foldl (find_step k target) None l).
Proof.
  induction l as [|j l IH] using rev_ind; [intros j []%not_elem_of_nil|].
  rewrite foldl_app. cbn [foldl]. set (acc := foldl _ None l) in *. clearbody acc.
  unfold find_step. fold (slot_epoch k j). destruct (slot_valid k j) eqn:Ev; cbn [negb].
  - destruct (Z.leb_spec (slot_epoch k j) target) as [Hle|Hgt]; cbn [andb].
    + assert (nearest_in k target (l ++ [j]) (Some (j, slot_epoch k j)) \/
              exists i b, acc = Some (i, b) /\ slot_epoch k j <= b) as [H|(i & b & -> & Hb)].
      { destruct acc as [[i b]|]; cbn in IH |- *.
        - destruct IH as (H1 & H2 & H3 & H4 & H5). destruct (Z.le_gt_cases (slot_epoch k j) b); [right; eauto|].
          left. split_and!; [set_solver | assumption | reflexivity | lia |].
          intros j' [Hj | ->%list_elem_of_singleton]%elem_of_app Hv Hle'; [|lia].
          specialize (H5 j' Hj Hv Hle'). lia.
        - left. split_and!; [set_solver | assumption | reflexivity | lia |].
          intros j' [Hj | ->%list_elem_of_singleton]%elem_of_app Hv Hle'; [|lia].
          specialize (IH j' Hj Hv). lia. }
      * destruct acc as [[i b]|]; [|exact H]. destruct (Z.ltb_spec b (slot_epoch k j)); [exact H|].
        cbn in IH |- *. destruct IH as (H1 & H2 & H3 & H4 & H5). split_and!; try assumption; [set_solver|].
        intros j' [Hj | ->%list_elem_of_singleton]%elem_of_app Hv Hle'; [eauto | lia].
      * rewrite (proj2 (Z.ltb_ge _ _)) by lia. cbn in IH |- *. destruct IH as (H1 & H2 & H3 & H4 & H5).
        split_and!; try assumption; [set_solver|].
        intros j' [Hj | ->%list_elem_of_singleton]%elem_of_app Hv Hle'; [eauto | lia].
    + destruct acc as [[i b]|]; cbn in IH |- *.
      * destruct IH as (H1 & H2 & H3 & H4 & H5). split_and!; try assumption; [set_solver|].
        intros j' [Hj | ->%list_elem_of_singleton]%elem_of_app Hv Hle'; [eauto | lia].
      * intros j' [Hj | ->%list_elem_of_singleton]%elem_of_app Hv; [eauto | lia].
  - destruct acc as [[i b]|]; cbn in IH |- *.
    + destruct IH as (H1 & H2 & H3 & H4 & H5). split_and!; try assumption; [set_solver|].
      intros j' [Hj | ->%list_elem_of_singleton]%elem_of_app Hv Hle'; [eauto | congruence].
    + intros j' [Hj | ->%list_elem_of_singleton]%elem_of_app Hv; [eauto | congruence].
Qed.

(** The scan for the nearest keyframe, on any ring. *)
Lemma find_nearest k target :
  match keyframe_ring_find (& k) target with
  | Some (_, e) => retained k e /\ e <= target /\ forall e', retained k e' -> e' <= target -> e' <= e
  | None => forall e', retained k e' -> target < e'
  end.
Proof.
  cbn [keyframe_ring_find]. pose proof (find_nearest_in k target (ring_indices k)) as H.
  destruct (foldl _ None _) as [[i e]|]; cbn in H.
  - destruct H as (H1 & H2 & H3 & H4 & H5). split_and!; [exists i; auto | assumption|].
    intros e' (j & Hj & Hv & <-). auto.
  - intros e' (j & Hj & Hv & <-). auto.
Qed.

Lemma newest_in k l :
  match foldl (extreme_step (fun e best => best <? e) k) None l with
  | Some b => forall j, j ∈ l -> slot_valid k j = true -> slot_epoch k j <= b
  | None => forall j, j ∈ l -> slot_valid k j = false
  end.
Proof.
  induction l as [|j l IH] using rev_ind; [intros j []%not_elem_of_nil|].
  rewrite foldl_app. cbn [foldl]. set (acc := foldl _ None l) in *. clearbody acc.
  unfold extreme_step. fold (slot_epoch k j). destruct (slot_valid k j) eqn:Ev; cbn [negb].
  - destruct acc as [b|].
    + destruct (Z.ltb_spec b (slot_epoch k j));
        intros j' [Hj | ->%list_elem_of_singleton]%elem_of_app Hv; try lia; specialize (IH j' Hj Hv); lia.
    + intros j' [Hj | ->%list_elem_of_singleton]%elem_of_app Hv; [rewrite (IH j' Hj) in Hv; discriminate | lia].
  - destruct acc as [b|].
    + intros j' [Hj | ->%list_elem_of_singleton]%elem_of_app Hv; [eauto | congruence].
    + intros j' [Hj | ->%list_elem_of_singleton]%elem_of_app; [eauto | assumption].
Qed.

(** A retained keyframe is not past the newest one. *)
Lemma newest_retained k e :
  kr_count k <> 0 -> retained k e -> exists b, keyframe_ring_newest (& k) = Some b /\ e <= b.
Proof.
  intros Hc (i & Hi & Hv & <-). cbn [keyframe_ring_newest]. rewrite (proj2 (Z.eqb_neq _ _) Hc).
  pose proof (newest_in k (ring_indices k)) as H. destruct (foldl _ None _) as [b|].
  - exists b. split; [reflexivity | auto].
  - rewrite (H i Hi) in Hv. discriminate.
Qed.

(** The number of slots holding an epoch below [e]: what a walk back consumes. *)
Definition below (k : keyframe_ring_t) (e : Z) : nat :=
  length (filter (fun i => slot_valid k i = true /\ slot_epoch k i < e) (ring_indices k)).

Lemma below_bound k e : (below k e <= Z.to_nat (kr_capacity k))%nat.
Proof.
  unfold below. etransitivity; [apply length_filter|]. unfold ring_indices. rewrite length_seqZ. lia.
Qed.

Lemma filter_shrinks {A} (P Q : A -> Prop) `{!forall x, Decision (P x), !forall x, Decision (Q x)} l x :
  (forall y, P y -> Q y) -> x ∈ l -> Q x -> ~ P x ->
  (length (filter P l) < length (filter Q l))%nat.
Proof.
  intros HPQ Hx HQ HP.
  assert (forall l, (length (filter P l) <= length (filter Q l))%nat) as Hle.
  { intros l'. induction l' as [|y l' IH]; [reflexivity|]. rewrite !filter_cons.
    repeat case_decide; cbn [length]; first [lia | exfalso; auto]. }
  induction l as [|y l IH]; [apply not_elem_of_nil in Hx as []|].
  rewrite !filter_cons. apply elem_of_cons in Hx as [<-|Hx].
  - rewrite decide_False, decide_True by assumption. cbn [length]. pose proof (Hle l). lia.
  - specialize (IH Hx). repeat case_decide; cbn [length]; first [lia | exfalso; auto].
Qed.

Lemma below_decreases k e e' : retained k e' -> e' < e -> (below k e' < below k e)%nat.
Proof.
  intros (i & Hi & Hv & He) Hlt. unfold below. apply (filter_shrinks _ _ _ i).
  - intros y [Hy1 Hy2]. split; [assumption | lia].
  - exact Hi.
  - split; [assumption | lia].
  - lia.
Qed.

(** ** Positions, newest first *)

Definition pos_lt (p q : reverse_pos_t) : Prop :=
  epoch p < epoch q \/ (epoch p = epoch q /\ offset p < offset q).
Definition pos_le (p q : reverse_pos_t) : Prop := p = q \/ pos_lt p q.

(** The steps the retained keyframes' journals can reach. *)
Definition in_history (k : keyframe_ring_t) (len : Z -> Z) (p : reverse_pos_t) : Prop :=
  retained k (epoch p) /\ 0 <= offset p < len (epoch p).

Lemma prev_boundary_spec k len fuel e :
  (below k e < fuel)%nat -> (forall e', retained k e' -> 0 <= e') ->
  match prev_boundary (& k) len fuel e with
  | Some (Some p) => retained k (epoch p) /\ epoch p < e /\ 0 < len (epoch p) /\ offset p = len (epoch p) - 1 /\
      forall e', retained k e' -> e' < e -> 0 < len e' -> e' <= epoch p
  | Some None => forall e', retained k e' -> e' < e -> len e' <= 0
  | None => False
  end.
Proof.
  revert e; induction fuel as [|fuel IH]; intros e Hf Hpos; [lia|]. cbn [prev_boundary].
  destruct (Z.ltb_spec 0 e) as [He|He].
  2:{ intros e' Hr Hlt. specialize (Hpos e' Hr). lia. }
  pose proof (find_nearest k (e - 1)) as H. destruct (keyframe_ring_find (& k) (e - 1)) as [[i kf]|].
  2:{ intros e' Hr Hlt. specialize (H e' Hr). lia. }
  destruct H as (Hr & Hle & Hmax). destruct (Z.ltb_spec 0 (len kf)) as [Hl|Hl].
  - cbn. split_and!; try assumption; try lia. intros e' Hr' Hlt _. apply Hmax; [assumption | lia].
  - pose proof (below_decreases k e kf Hr ltac:(lia)). specialize (IH kf ltac:(lia) Hpos).
    destruct (prev_boundary (& k) len fuel kf) as [[p|]|].
    + destruct IH as (H1 & H2 & H3 & H4 & H5). split_and!; try assumption; try lia.
      intros e' Hr' Hlt Hl'. destruct (Z.eq_dec e' kf) as [->|]; [lia|]. apply H5; try assumption.
      specialize (Hmax e' Hr' ltac:(lia)). lia.
    + intros e' Hr' Hlt. destruct (Z.eq_dec e' kf) as [->|]; [lia|]. apply IH; [assumption|].
      specialize (Hmax e' Hr' ltac:(lia)). lia.
    + exact IH.
Qed.

Lemma prev_pos_spec k len cur :
  (forall e, retained k e -> 0 <= e) ->
  retained k (epoch cur) -> 0 <= offset cur <= len (epoch cur) ->
  match prev_pos (& k) len cur with
  | Some p => in_history k len p /\ pos_lt p cur /\
      forall q, in_history k len q -> pos_lt q cur -> pos_le q p
  | None => forall q, in_history k len q -> ~ pos_lt q cur
  end.
Proof.
  intros Hpos Hr Ho. unfold prev_pos, in_history, pos_le, pos_lt.
  destruct (Z.ltb_spec 0 (offset cur)) as [Hoff|Hoff].
  - cbn. split_and!; try assumption; try lia. intros q [Hq1 Hq2] Hlt.
    destruct q as [qe qo]; cbn in *. destruct (Z.eq_dec qe (epoch cur)) as [->|]; [|right; lia].
    destruct (Z.eq_dec qo (offset cur - 1)) as [->|]; [left; reflexivity | right; lia].
  - pose proof (prev_boundary_spec k len (boundary_fuel (& k)) (epoch cur)) as H.
    pose proof (below_bound k (epoch cur)). unfold boundary_fuel in *. specialize (H ltac:(lia) Hpos).
    destruct (prev_boundary _ _ _ _) as [[p|]|]; [| |destruct H].
    + destruct H as (H1 & H2 & H3 & H4 & H5). split_and!; try assumption; try lia.
      intros q [Hq1 Hq2] Hlt. assert (epoch q < epoch cur) as Hlt' by lia.
      specialize (H5 (epoch q) Hq1 Hlt' ltac:(lia)). destruct p as [pe po], q as [qe qo]; cbn in *.
      destruct (Z.eq_dec qe pe) as [->|]; [|right; lia].
      destruct (Z.eq_dec qo po) as [->|]; [left; reflexivity | right; lia].
    + intros q [Hq1 Hq2] Hlt. specialize (H (epoch q) Hq1 ltac:(lia)). lia.
Qed.

Lemma pos_le_lt p q r : pos_le p q -> pos_lt q r -> pos_lt p r.
Proof. unfold pos_le, pos_lt. intros [-> | Hpq] Hqr; lia. Qed.
Lemma pos_lt_le p q r : pos_lt p q -> pos_le q r -> pos_lt p r.
Proof. unfold pos_le, pos_lt. intros Hpq [-> | Hqr]; lia. Qed.
Lemma pos_lt_trans p q r : pos_lt p q -> pos_lt q r -> pos_lt p r.
Proof. unfold pos_lt. lia. Qed.
Lemma pos_lt_irrefl p : ~ pos_lt p p.
Proof. unfold pos_lt. lia. Qed.
Lemma pos_total p q : p = q \/ pos_lt p q \/ pos_lt q p.
Proof.
  destruct p as [pe po], q as [qe qo]. unfold pos_lt. cbn.
  destruct (Z.eq_dec pe qe) as [->|]; [|lia]. destruct (Z.eq_dec po qo) as [->|]; [left; reflexivity | lia].
Qed.

(** Going back cannot go on for ever: positions have no infinite descent. *)
Lemma pos_lt_wf (P : reverse_pos_t -> Prop) :
  (forall p, 0 <= epoch p -> 0 <= offset p ->
     (forall q, pos_lt q p -> 0 <= epoch q -> 0 <= offset q -> P q) -> P p) ->
  forall p, 0 <= epoch p -> 0 <= offset p -> P p.
Proof.
  intros Hstep [e o] He Ho. cbn in He, Ho. revert o Ho. pattern e. revert e He.
  apply Zlt_0_ind. intros e IHe He. apply Zlt_0_ind. intros o IHo Ho.
  apply Hstep; [exact He | exact Ho|]. intros [qe qo] [Hlt | [Heq Hlt]] Hqe Hqo; cbn in *.
  - apply IHe; lia.
  - subst qe. apply IHo. lia.
Qed.

(** ** A recorded history: the ring, the hooks and the journal lengths

    Restoring a keyframe replaces the whole system state, whatever it was;
    every retained epoch re-drives; the journal's lengths are not changed by
    replaying. *)
Record recorded {W} (k : keyframe_ring_t) (hk : replay_hooks_t W) (len : Z -> Z) (el : W -> Z -> Z) : Prop := {
  rec_count : kr_count k <> 0;
  rec_nonneg e : retained k e -> 0 <= e;
  rec_len w e : el w e = len e;
  rec_restore w w' e : hook1 (restore_keyframe hk) w e = hook1 (restore_keyframe hk) w' e;
  rec_replay e o w : retained k e -> 0 <= o <= len e -> (exec hk (plan e e o) w).1 = REPLAY_OK }.

Section history.
Context {W : Type} {k : keyframe_ring_t} {hk : replay_hooks_t W} {len : Z -> Z} {el : W -> Z -> Z}.
Context (H : recorded k hk len el).
Implicit Types (w : W) (p q cur : reverse_pos_t).

(** The state at a past moment: its keyframe restored, [offset] steps on. *)
Definition recall w p : W := (exec hk (plan (epoch p) (epoch p) (offset p)) w).2.

Lemma recall_any w w' p : recall w p = recall w' p.
Proof.
  unfold recall, plan. cbn [exec exec_op]. rewrite (rec_restore _ _ _ _ H w w').
  destruct (hook1 (restore_keyframe hk) w' (epoch p)) as [rc w1] eqn:E.
  destruct (rc =? 0); [reflexivity|].
  (* a failing restore *)
  reflexivity.
Qed.

(** A rewind context over this history, and a reverse context over it. *)
Definition rw_bound (rw : rewind_ctx_t W) : Prop :=
  rw_ring rw = & k /\ exists en, rw_engine rw = & en /\ hooks en = hk.
Definition rv_bound (rv : reverse_ctx_t W) : Prop :=
  (exists rw, rv_rw rv = & rw /\ rw_bound rw) /\ rv_epoch_len rv = & el.

(** Rewinding to a moment of the history lands there, runnable. *)
Lemma rewind_lands rw w e o :
  rw_bound rw -> retained k e -> 0 <= o <= len e ->
  exists rw', rewind_to (& rw) w e o = (REWIND_OK, & rw', recall w {| epoch := e; offset := o |}) /\
    rw_bound rw' /\ landed_keyframe rw' = e /\ landed_epoch rw' = e /\ landed_offset rw' = o /\
    runnable rw' = true.
Proof.
  intros (Hk & en & He & Hhk) Hr Ho. destruct rw as [ring engine lk le lo run]. cbn in Hk, He. subst ring engine.
  unfold rewind_to. destruct (newest_retained k e (rec_count _ _ _ _ H) Hr) as (b & -> & Hb).
  rewrite (proj2 (Z.ltb_ge _ _)) by lia.
  pose proof (find_nearest k e) as Hf. destruct (keyframe_ring_find (& k) e) as [[i kf]|].
  2:{ specialize (Hf e Hr). lia. }
  destruct Hf as (Hkf & Hle & Hmax). assert (kf = e) as -> by (specialize (Hmax e Hr); lia).
  destruct (replay_run_exec en w e e o ltac:(lia)) as (en' & -> & Hh & _ & _ & _ & Hd & _).
  rewrite Hhk in *. rewrite (rec_replay _ _ _ _ H e o w Hr Ho) in *. cbn [negb Z.eqb REPLAY_OK].
  eexists. split; [reflexivity|]. cbn. split_and!; try reflexivity; [|rewrite Hd; reflexivity].
  split; [reflexivity|]. exists en'. auto.
Qed.

Lemma in_history_le p : in_history k len p -> retained k (epoch p) /\ 0 <= offset p <= len (epoch p).
Proof. intros [H1 H2]. split; [exact H1 | lia]. Qed.

(** The predecessor a bound context computes. *)
Definition prev cur : option reverse_pos_t := prev_pos (& k) len cur.

Lemma prev_boundary_ext f g fuel e :
  (forall x, f x = g x) -> prev_boundary (& k) f fuel e = prev_boundary (& k) g fuel e.
Proof.
  intros Hfg. revert e; induction fuel as [|fuel IH]; intros e; [reflexivity|]. cbn [prev_boundary].
  destruct (0 <? e); [|reflexivity]. destruct (keyframe_ring_find (& k) (e - 1)) as [[i kf]|]; [|reflexivity].
  rewrite Hfg. destruct (0 <? g kf); [reflexivity | apply IH].
Qed.

Lemma prev_bound rv rw w cur :
  rv_bound rv -> rw_bound rw -> prev_pos (ctx_ring rw) (ctx_len rv w) cur = prev cur.
Proof.
  intros (_ & Hl) (Hk & _). unfold ctx_ring, prev, prev_pos. rewrite Hk.
  rewrite (prev_boundary_ext (ctx_len rv w) len); [reflexivity|].
  intros x. unfold ctx_len. rewrite Hl. apply (rec_len _ _ _ _ H).
Qed.

(** One step back. *)
Lemma step_back rv w :
  rv_bound rv -> retained k (epoch (rv_cur rv)) -> 0 <= offset (rv_cur rv) <= len (epoch (rv_cur rv)) ->
  match prev (rv_cur rv) with
  | None => reverse_step (& rv) w = (REVERSE_AT_START, & rv, w)
  | Some p => exists rv', reverse_step (& rv) w = (REVERSE_OK, & rv', recall w p) /\
      rv_bound rv' /\ rv_cur rv' = p
  end.
Proof.
  intros Hb Hr Ho. pose proof Hb as ((rw & Erw & Hrw) & Hl). unfold reverse_step. rewrite Erw.
  rewrite (prev_bound rv rw w) by assumption.
  pose proof (prev_pos_spec k len (rv_cur rv) (rec_nonneg _ _ _ _ H) Hr Ho) as Hp. unfold prev in *.
  destruct (prev_pos (& k) len (rv_cur rv)) as [p|]; [|reflexivity].
  destruct Hp as (Hin & _). apply in_history_le in Hin as [Hpr Hpo].
  destruct (rewind_lands rw w (epoch p) (offset p) Hrw Hpr Hpo) as (rw' & -> & Hrw' & _).
  cbn [negb Z.eqb REWIND_OK]. eexists. split; [destruct p; reflexivity|].
  split; [|reflexivity]. split; [exists rw'; auto | exact Hl].
Qed.

(** The walk of [reverse_continue], from any position of the history. *)
Lemma continue_walk (stop : ptr (W -> reverse_pos_t -> bool)) w0 :
  let stops q := match stop with Some f => f (recall w0 q) q | NULL => false end in
  forall cur, 0 <= epoch cur -> 0 <= offset cur -> forall rv w,
  rv_bound rv -> rv_cur rv = cur -> retained k (epoch cur) -> offset cur <= len (epoch cur) ->
  exists n, forall fuel, (n <= fuel)%nat ->
  exists rc rv' w', continue_loop fuel rv w stop = Some (rc, & rv', w') /\ rv_bound rv' /\
    ((rc = REVERSE_OK /\ in_history k len (rv_cur rv') /\ pos_lt (rv_cur rv') cur /\
      w' = recall w0 (rv_cur rv') /\ stops (rv_cur rv') = true /\
      forall q, in_history k len q -> pos_lt (rv_cur rv') q -> pos_lt q cur -> stops q = false) \/
     (rc = REVERSE_AT_START /\ forall q, in_history k len q -> pos_lt q cur -> stops q = false)).
Proof.
  intros stops. apply (pos_lt_wf (fun cur => forall rv w, rv_bound rv -> rv_cur rv = cur -> _ -> _ -> _)).
  intros cur He Ho IH rv w Hb Hcur Hr Hlen.
  pose proof Hb as ((rw & Erw & Hrw) & Hl).
  pose proof (prev_pos_spec k len cur (rec_nonneg _ _ _ _ H) Hr ltac:(lia)) as Hp. fold (prev cur) in Hp.
  destruct (prev cur) as [p|] eqn:Eprev.
  - destruct Hp as (Hin & Hlt & Hmax). pose proof (in_history_le p Hin) as [Hpr Hpo].
    destruct (rewind_lands rw w (epoch p) (offset p) Hrw Hpr Hpo) as (rw' & Erew & Hrw' & _).
    set (rv1 := set_cur {| rv_rw := & rw'; rv_epoch_len := rv_epoch_len rv; rv_cur := rv_cur rv |} p).
    assert (rv_bound rv1) as Hb1 by (split; [exists rw'; auto | exact Hl]).
    assert (recall w {| epoch := epoch p; offset := offset p |} = recall w0 p) as Hrec
      by (destruct p; apply recall_any).
    destruct (stops p) eqn:Estop.
    + exists 1%nat. intros [|fuel] Hf; [lia|]. cbn [continue_loop]. rewrite Erw, (prev_bound rv rw w), Hcur, Eprev by assumption.
      rewrite Erew, Hrec. cbn [negb Z.eqb REWIND_OK]. fold (stops p). rewrite Estop.
      exists REVERSE_OK, rv1, (recall w0 p). split; [reflexivity|]. split; [exact Hb1|]. left.
      split_and!; try reflexivity; try assumption. intros q Hq Hpq Hqc. exfalso.
      apply (pos_lt_irrefl p). eapply pos_lt_le; [exact Hpq | apply Hmax; assumption].
    + destruct (IH p Hlt ltac:(apply (rec_nonneg _ _ _ _ H); exact Hpr) ltac:(lia) rv1 (recall w0 p)
                  Hb1 eq_refl Hpr ltac:(lia)) as [n Hn].
      exists (S n). intros [|fuel] Hf; [lia|]. cbn [continue_loop].
      rewrite Erw, (prev_bound rv rw w), Hcur, Eprev by assumption.
      rewrite Erew, Hrec. cbn [negb Z.eqb REWIND_OK]. fold (stops p). rewrite Estop.
      destruct (Hn fuel ltac:(lia)) as (rc & rv' & w' & Hrun & Hb' & Hres).
      exists rc, rv', w'. split; [exact Hrun|]. split; [exact Hb'|].
      destruct Hres as [(H1 & H2 & H3 & H4 & H5 & H6) | (H1 & H2)].
      * left. split_and!; try assumption; [eapply pos_lt_trans; eassumption|].
        intros q Hq Hq1 Hq2. destruct (Hmax q Hq Hq2) as [-> | Hqp]; [exact Estop | apply H6; assumption].
      * right. split; [exact H1|]. intros q Hq Hq2.
        destruct (Hmax q Hq Hq2) as [-> | Hqp]; [exact Estop | apply H2; assumption].
  - exists 1%nat. intros [|fuel] Hf; [lia|]. cbn [continue_loop].
    rewrite Erw, (prev_bound rv rw w), Hcur, Eprev by assumption.
    exists REVERSE_AT_START, rv, w. split; [reflexivity|]. split; [exact Hb|]. right. split; [reflexivity|].
    intros q Hq Hlt. exfalso. exact (Hp q Hq Hlt).
Qed.

(** The walk of [reverse_watchpoint]: [newer] is the value at the position. *)
Lemma watch_walk (probe : W -> Z) w0 :
  let value q := probe (recall w0 q) in
  forall cur, 0 <= epoch cur -> 0 <= offset cur -> forall rv w,
  rv_bound rv -> rv_cur rv = cur -> in_history k len cur ->
  exists n, forall fuel, (n <= fuel)%nat ->
  exists rc rv' w' hit, watch_loop fuel (& rv) w probe (value cur) = Some (rc, & rv', w', hit) /\
    ((rc = REVBREAK_OK /\ exists p b, hit = Some p /\ rv_cur rv' = p /\ w' = recall w0 p /\
      in_history k len p /\ pos_le p cur /\ in_history k len b /\ pos_lt b p /\
      (forall q, in_history k len q -> pos_lt q p -> pos_le q b) /\ value b <> value p /\
      forall q, in_history k len q -> pos_le p q -> pos_le q cur -> value q = value cur) \/
     (rc = REVBREAK_NOT_FOUND /\ hit = None /\
      forall q, in_history k len q -> pos_le q cur -> value q = value cur)).
Proof.
  intros value. apply (pos_lt_wf (fun cur => forall rv w, rv_bound rv -> rv_cur rv = cur -> _ -> _)).
  intros cur He Ho IH rv w Hb Hcur Hin. pose proof (in_history_le cur Hin) as [Hr Hlen].
  pose proof (prev_pos_spec k len cur (rec_nonneg _ _ _ _ H) Hr Hlen) as Hp. fold (prev cur) in Hp.
  pose proof (step_back rv w Hb) as Hstep. rewrite Hcur in Hstep. specialize (Hstep Hr Hlen).
  destruct (prev cur) as [p|] eqn:Eprev.
  - destruct Hp as (Hpin & Hlt & Hmax). destruct Hstep as (rv1 & Estep & Hb1 & Hcur1).
    pose proof (in_history_le p Hpin) as [Hpr Hpo].
    rewrite (recall_any w w0 p) in Estep.
    destruct (Z.eq_dec (value p) (value cur)) as [Heq|Hne].
    + destruct (IH p Hlt ltac:(apply (rec_nonneg _ _ _ _ H); exact Hpr) ltac:(lia) rv1 (recall w0 p)
                  Hb1 Hcur1 Hpin) as [n Hn].
      exists (S n). intros [|fuel] Hf; [lia|]. destruct (Hn fuel ltac:(lia)) as (rc & rv' & w' & hit & Hrun & Hres).
      cbn [watch_loop]. rewrite Estep. cbn [Z.eqb REVERSE_AT_START REVERSE_OK negb].
      fold (value p). rewrite (proj2 (Z.eqb_eq _ _) Heq). cbn [negb].
      exists rc, rv', w', hit. split; [exact Hrun|]. rewrite Heq in Hres.
      assert (forall q, in_history k len q -> pos_le q cur -> q = cur \/ pos_le q p) as Hbetween.
      { intros q Hq [-> | Hqc]; [left; reflexivity | right; apply Hmax; assumption]. }
      destruct Hres as [(H1 & x & b & H2 & H3 & H4 & H5 & H6 & H7 & H8 & H9 & H10 & H11) | (H1 & H2 & H3)].
      * left. split; [exact H1|]. exists x, b. split_and!; try assumption.
        { right. eapply pos_le_lt; eassumption. }
        intros q Hq Hxq Hqc. destruct (Hbetween q Hq Hqc) as [-> | Hqp]; [reflexivity | apply H11; assumption].
      * right. split_and!; try assumption. intros q Hq Hqc.
        destruct (Hbetween q Hq Hqc) as [-> | Hqp]; [reflexivity | apply H3; assumption].
    + pose proof Hb1 as ((rw1 & Erw1 & Hrw1) & Hl1).
      destruct (rewind_lands rw1 (recall w0 p) (epoch cur) (offset cur) Hrw1 Hr Hlen) as (rw2 & Erew & Hrw2 & _).
      exists 1%nat. intros [|fuel] Hf; [lia|]. cbn [watch_loop]. rewrite Estep.
      cbn [Z.eqb REVERSE_AT_START REVERSE_OK negb].
      fold (value p). rewrite (proj2 (Z.eqb_neq _ _) Hne). cbn [negb reverse_position]. rewrite Hcur, Erw1, Erew.
      cbn [negb Z.eqb REWIND_OK]. do 4 eexists. split; [reflexivity|]. left. split; [reflexivity|].
      exists cur, p. split_and!; try reflexivity; try assumption.
      * destruct cur; apply recall_any.
      * left. reflexivity.
      * intros q Hq Hcq [-> | Hqc]; [reflexivity|]. exfalso. apply (pos_lt_irrefl cur).
        eapply pos_le_lt; eassumption.
  - exists 1%nat. intros [|fuel] Hf; [lia|]. cbn [watch_loop]. rewrite Hstep. cbn [Z.eqb REVERSE_AT_START Pos.eqb].
    do 4 eexists. split; [reflexivity|]. right. split_and!; try reflexivity.
    intros q Hq [-> | Hlt]; [reflexivity|]. exfalso. exact (Hp q Hq Hlt).
Qed.
End history.

(** ** Properties *)

(** C33: reverse-step lands on the immediately preceding recorded moment: the
    latest (epoch, offset) of the retained history strictly before the current
    one, across keyframe boundaries and empty epochs.  The state it leaves is
    the replay of that moment from its keyframe, whatever the state was before,
    so repeated reverse-steps never drift; at the oldest moment nothing
    changes. *)
Theorem reverse_step_predecessor {W} (k : keyframe_ring_t) (hk : replay_hooks_t W) (len : Z -> Z)
    (el : W -> Z -> Z) (rv : reverse_ctx_t W) (w : W) :
  recorded k hk len el -> rv_bound (k := k) (hk := hk) (el := el) rv ->
  retained k (epoch (rv_cur rv)) -> 0 <= offset (rv_cur rv) <= len (epoch (rv_cur rv)) ->
  let '(rc, rv', w') := reverse_step (& rv) w in
  (rc = REVERSE_OK /\ in_history k len (reverse_position rv') /\
   pos_lt (reverse_position rv') (rv_cur rv) /\
   (forall q, in_history k len q -> pos_lt q (rv_cur rv) -> pos_le q (reverse_position rv')) /\
   (forall w0, w' = recall (hk := hk) w0 (reverse_position rv'))) \/
  (rc = REVERSE_AT_START /\ rv' = & rv /\ w' = w /\
   forall q, in_history k len q -> ~ pos_lt q (rv_cur rv)).
Proof.
  intros H Hb Hr Ho. pose proof (step_back H rv w Hb Hr Ho) as Hs.
  pose proof (prev_pos_spec k len (rv_cur rv) (rec_nonneg _ _ _ _ H) Hr Ho) as Hp.
  unfold prev in Hs. destruct (prev_pos (& k) len (rv_cur rv)) as [p|].
  - destruct Hs as (rv' & -> & _ & Hc). destruct Hp as (H1 & H2 & H3). left. cbn [reverse_position].
    rewrite Hc. split_and!; try assumption; [reflexivity|]. intros w0. apply (recall_any H).
  - rewrite Hs. right. auto.
Qed.

(** A debugger's world that is just the moment it shows. *)
Definition example_hooks : replay_hooks_t reverse_pos_t :=
  {| restore_keyframe := & (fun _ e => (0, {| epoch := e; offset := 0 |}));
     load_epoch := & (fun w _ => (0, w));
     run_epoch := & (fun w e n => (0, {| epoch := e; offset := offset w + n |})) |}.
(** Keyframes 20, 30 and 40 retained of five; four steps each, none in 30. *)
Definition example_history : keyframe_ring_t :=
  match advance_all (keyframe_ring_init (& example_ring) 3).2 [1; 10; 20; 30; 40] with
  | Some k => k
  | NULL => example_ring
  end.
Definition example_len (e : Z) : Z := if e =? 30 then 0 else 4.

Lemma example_retained e : retained example_history e <-> e = 20 \/ e = 30 \/ e = 40.
Proof.
  split.
  - intros (i & Hi & _ & <-). change (ring_indices example_history) with (seqZ 0 3) in Hi.
    apply elem_of_seqZ in Hi. assert (i = 0 \/ i = 1 \/ i = 2) as [-> | [-> | ->]] by lia; vm_compute; auto.
  - intros [-> | [-> | ->]]; [exists 2 | exists 0 | exists 1];
      (split; [apply elem_of_seqZ; vm_compute; split; [discriminate | reflexivity] | split; reflexivity]).
Qed.

Lemma example_recorded : recorded example_history example_hooks example_len (fun _ => example_len).
Proof.
  split.
  - discriminate.
  - intros e He%example_retained. lia.
  - reflexivity.
  - reflexivity.
  - intros e o w _ _. unfold plan. rewrite Z.sub_diag. cbn. destruct (0 <? o); reflexivity.
Qed.

Definition example_engine : replay_engine_t reverse_pos_t :=
  {| hooks := example_hooks; keyframe_epoch := 0; target_epoch := 0; target_offset := 0;
     current_epoch := 0; epochs_run := 0; done := false |}.
Definition example_rewind : rewind_ctx_t reverse_pos_t :=
  {| rw_ring := & example_history; rw_engine := & example_engine; landed_keyframe := 0;
     landed_epoch := 0; landed_offset := 0; runnable := false |}.
Definition example_reverse (e o : Z) : reverse_ctx_t reverse_pos_t :=
  {| rv_rw := & example_rewind; rv_epoch_len := & (fun _ => example_len);
     rv_cur := {| epoch := e; offset := o |} |}.

Lemma example_bound e o :
  rv_bound (k := example_history) (hk := example_hooks) (el := fun _ => example_len) (example_reverse e o).
Proof. split; [|reflexivity]. exists example_rewind. split; [reflexivity|]. split; [reflexivity|]. exists example_engine. auto. Qed.

(** From the boundary of 40, over the empty epoch 30, to the last step of 20. *)
Lemma reverse_step_predecessor_witness :
  (reverse_step (& (example_reverse 40 0)) {| epoch := 40; offset := 0 |}).1.1 = REVERSE_OK /\
  reverse_position (reverse_step (& (example_reverse 40 0)) {| epoch := 40; offset := 0 |}).1.2
    = {| epoch := 20; offset := 3 |} /\
  forall w0, {| epoch := 20; offset := 3 |} = recall (hk := example_hooks) w0 {| epoch := 20; offset := 3 |}.
Proof.
  pose proof (reverse_step_predecessor example_history example_hooks example_len (fun _ => example_len)
    (example_reverse 40 0) {| epoch := 40; offset := 0 |} example_recorded (example_bound 40 0)
    (proj2 (example_retained 40) ltac:(auto)) ltac:(cbn; lia)) as HW.
  vm_compute in HW. destruct HW as [(_ & _ & _ & _ & Hw) | (Hrc & _)]; [|discriminate].
  split; [reflexivity|]. split; [reflexivity|]. intros w0. reflexivity.
Defined.

(** C34: a reverse breakpoint terminates at the most recent moment strictly
    before the current one whose state satisfies the condition, having replayed
    that state; it reports NOT_FOUND exactly when no earlier retained moment
    satisfies it. *)
Theorem reverse_breakpoint_latest {W} (k : keyframe_ring_t) (hk : replay_hooks_t W) (len : Z -> Z)
    (el : W -> Z -> Z) (rv : reverse_ctx_t W) (w : W) (cond : W -> bool) :
  recorded k hk len el -> rv_bound (k := k) (hk := hk) (el := el) rv ->
  retained k (epoch (rv_cur rv)) -> 0 <= offset (rv_cur rv) <= len (epoch (rv_cur rv)) ->
  let holds_at q := cond (recall (hk := hk) w q) = true in
  exists n, forall fuel, (n <= fuel)%nat ->
  exists rc rv' w' hit, reverse_breakpoint fuel (& rv) w (& cond) = Some (rc, rv', w', hit) /\
    ((rc = REVBREAK_OK /\ exists p, hit = Some p /\ reverse_position rv' = p /\ w' = recall (hk := hk) w p /\
      in_history k len p /\ pos_lt p (rv_cur rv) /\ holds_at p /\
      forall q, in_history k len q -> pos_lt p q -> pos_lt q (rv_cur rv) -> ~ holds_at q) \/
     (rc = REVBREAK_NOT_FOUND /\ hit = None /\
      forall q, in_history k len q -> pos_lt q (rv_cur rv) -> ~ holds_at q)).
Proof.
  intros H Hb Hr Ho holds_at. pose proof (rec_nonneg _ _ _ _ H _ Hr) as He.
  destruct (continue_walk H (& (bp_adapter cond)) w (rv_cur rv) He ltac:(lia) rv w Hb eq_refl Hr ltac:(lia))
    as [n Hn].
  exists n. intros fuel Hf. destruct (Hn fuel Hf) as (rc & rv' & w' & Hrun & _ & Hres).
  unfold reverse_breakpoint, reverse_continue. rewrite Hrun.
  destruct Hres as [(-> & H2 & H3 & H4 & H5 & H6) | (-> & H2)]; cbn [Z.eqb REVERSE_OK REVERSE_AT_START Pos.eqb].
  - do 4 eexists. split; [reflexivity|]. left. split; [reflexivity|]. exists (rv_cur rv').
    split_and!; try reflexivity; try assumption. intros q Hq H7 H8. unfold holds_at.
    specialize (H6 q Hq H7 H8). unfold bp_adapter in H6. rewrite H6. discriminate.
  - do 4 eexists. split; [reflexivity|]. right. split_and!; try reflexivity.
    intros q Hq H8. unfold holds_at. specialize (H2 q Hq H8). unfold bp_adapter in H2. rewrite H2. discriminate.
Qed.

Lemma reverse_breakpoint_latest_witness :
  exists n, forall fuel, (n <= fuel)%nat ->
  exists rc rv' w' hit,
    reverse_breakpoint fuel (& (example_reverse 40 3)) {| epoch := 40; offset := 3 |} (& (fun w => offset w =? 3))
      = Some (rc, rv', w', hit) /\ (rc = REVBREAK_OK \/ rc = REVBREAK_NOT_FOUND).
Proof.
  destruct (reverse_breakpoint_latest example_history example_hooks example_len (fun _ => example_len)
    (example_reverse 40 3) {| epoch := 40; offset := 3 |} (fun w => offset w =? 3) example_recorded
    (example_bound 40 3) (proj2 (example_retained 40) ltac:(auto)) ltac:(cbn; lia)) as [n Hn].
  exists n. intros fuel Hf. destruct (Hn fuel Hf) as (rc & rv' & w' & hit & Hrun & Hres).
  exists rc, rv', w', hit. split; [exact Hrun|]. destruct Hres as [(Hrc & _) | (Hrc & _)]; [left | right]; exact Hrc.
Defined.

(** C35: a reverse watchpoint terminates at the last write: the most recent
    moment at or before the current one whose value differs from the value one
    step earlier, with the same value at every moment since; it reports
    NOT_FOUND exactly when the value never changed in the retained history. *)
Theorem reverse_watchpoint_last_write {W} (k : keyframe_ring_t) (hk : replay_hooks_t W) (len : Z -> Z)
    (el : W -> Z -> Z) (rv : reverse_ctx_t W) (w : W) (probe : W -> Z) :
  recorded k hk len el -> rv_bound (k := k) (hk := hk) (el := el) rv -> in_history k len (rv_cur rv) ->
  let value q := probe (recall (hk := hk) w q) in
  exists n, forall fuel, (n <= fuel)%nat ->
  exists rc rv' w' hit, reverse_watchpoint fuel (& rv) w (& probe) = Some (rc, & rv', w', hit) /\
    ((rc = REVBREAK_OK /\ exists p b, hit = Some p /\ rv_cur rv' = p /\ w' = recall (hk := hk) w p /\
      in_history k len p /\ pos_le p (rv_cur rv) /\ in_history k len b /\ pos_lt b p /\
      (forall q, in_history k len q -> pos_lt q p -> pos_le q b) /\ value b <> value p /\
      forall q, in_history k len q -> pos_le p q -> pos_le q (rv_cur rv) -> value q = value (rv_cur rv)) \/
     (rc = REVBREAK_NOT_FOUND /\ hit = None /\
      forall q, in_history k len q -> pos_le q (rv_cur rv) -> value q = value (rv_cur rv))).
Proof.
  intros H Hb Hin value. pose proof (in_history_le _ Hin) as [Hr Ho].
  pose proof Hb as ((rw & Erw & Hrw) & Hl).
  destruct (rewind_lands H rw w (epoch (rv_cur rv)) (offset (rv_cur rv)) Hrw Hr Ho) as (rw' & Erew & Hrw' & _).
  set (rv1 := {| rv_rw := & rw'; rv_epoch_len := rv_epoch_len rv; rv_cur := rv_cur rv |}).
  assert (rv_bound (k := k) (hk := hk) (el := el) rv1) as Hb1 by (split; [exists rw'; auto | exact Hl]).
  destruct (watch_walk H probe w (rv_cur rv) ltac:(apply (rec_nonneg _ _ _ _ H); exact Hr) ltac:(lia) rv1
              (recall (hk := hk) w (rv_cur rv)) Hb1 eq_refl Hin) as [n Hn].
  exists n. intros fuel Hf. destruct (Hn fuel Hf) as (rc & rv' & w' & hit & Hrun & Hres).
  exists rc, rv', w', hit. split; [|exact Hres]. unfold reverse_watchpoint. rewrite Erw. cbn [reverse_position].
  rewrite Erew. cbn [negb Z.eqb REWIND_OK]. destruct (rv_cur rv) as [e o].
  exact Hrun.
Qed.

Lemma reverse_watchpoint_last_write_witness :
  exists n, forall fuel, (n <= fuel)%nat ->
  exists rc rv' w' hit,
    reverse_watchpoint fuel (& (example_reverse 40 3)) {| epoch := 40; offset := 3 |} (& (fun w => offset w / 2))
      = Some (rc, & rv', w', hit) /\ (rc = REVBREAK_OK \/ rc = REVBREAK_NOT_FOUND).
Proof.
  destruct (reverse_watchpoint_last_write example_history example_hooks example_len (fun _ => example_len)
    (example_reverse 40 3) {| epoch := 40; offset := 3 |} (fun w => offset w / 2) example_recorded
    (example_bound 40 3) ltac:(split; [apply example_retained; auto | cbn; lia])) as [n Hn].
  exists n. intros fuel Hf. destruct (Hn fuel Hf) as (rc & rv' & w' & hit & Hrun & Hres).
  exists rc, rv', w', hit. split; [exact Hrun|]. destruct Hres as [(Hrc & _) | (Hrc & _)]; [left | right]; exact Hrc.
Defined.

(** "rewind to epoch E" over a ring that has seen the checkpoints [es]
    lands exactly when E lies inside the retained window.  It then restores the
    latest retained keyframe at or before E, replays the plan to (E, offset),
    and is runnable there if the replay succeeded; outside the window it
    reports OUT_OF_RANGE and touches neither the system nor the landing. *)
Theorem rewind_to_window {W} (cap : nat) (es : list Z) (ring : keyframe_ring_t)
    (en : replay_engine_t W) (lk le lo : Z) (run : bool) (w : W) (te off : Z) :
  (1 <= cap <= 64)%nat -> advance_all (keyframe_ring_init (& example_ring) (Z.of_nat cap)).2 es = & ring ->
  let rw := {| rw_ring := & ring; rw_engine := & en; landed_keyframe := lk; landed_epoch := le;
               landed_offset := lo; runnable := run |} in
  match rewind_to (& rw) w te off with
  | (rc, Some rw', w') =>
      ((exists e, e ∈ window cap es /\ e <= te) /\ (exists e, e ∈ window cap es /\ te <= e) /\
       exists kf, kf ∈ window cap es /\ kf <= te /\ (forall e, e ∈ window cap es -> e <= te -> e <= kf) /\
         w' = (exec (hooks en) (plan kf te off) w).2 /\
         if (exec (hooks en) (plan kf te off) w).1 =? REPLAY_OK
         then rc = REWIND_OK /\ landed_keyframe rw' = kf /\ landed_epoch rw' = te /\
              landed_offset rw' = off /\ runnable rw' = true
         else rc = REWIND_ERR_REPLAY /\ runnable rw' = false) \/
      (((forall e, e ∈ window cap es -> te < e) \/ (forall e, e ∈ window cap es -> e < te)) /\
       rc = REWIND_ERR_OUT_OF_RANGE /\ w' = w /\ landed_keyframe rw' = lk /\ landed_epoch rw' = le /\
       landed_offset rw' = lo /\ runnable rw' = false)
  | (_, NULL, _) => False
  end.
Proof.
  intros Hc Hring. destruct (init_models example_ring cap Hc) as (k0 & Hinit & M0).
  rewrite Hinit in Hring. cbn [snd] in Hring.
  destruct (advance_all_models k0 cap [] es M0) as (k' & Hadv & M). rewrite Hadv in Hring.
  injection Hring as ->. cbn [app] in M. cbv zeta. unfold rewind_to.
  pose proof (newest_window M) as Hn. destruct (keyframe_ring_newest (& ring)) as [b|].
  2:{ right. split_and!; try reflexivity. left. rewrite Hn. intros e []%not_elem_of_nil. }
  destruct Hn as [Hbin Hbmax]. destruct (Z.ltb_spec b te) as [Hbt|Hbt].
  { right. split_and!; try reflexivity. right. intros e He. specialize (Hbmax e He). lia. }
  pose proof (find_window M te) as Hf. destruct (keyframe_ring_find (& ring) te) as [[i kf]|].
  2:{ right. split_and!; try reflexivity. left. exact Hf. }
  destruct Hf as (Hkf & Hle & _ & _ & Hmax).
  destruct (replay_run_exec en w kf te off Hle) as (en' & -> & _ & _ & _ & _ & Hd & _).
  cbn [fst snd]. destruct ((exec (hooks en) (plan kf te off) w).1 =? REPLAY_OK) eqn:E; cbn [negb];
    (left; split; [exists kf; auto|]; split; [exists b; auto|]; exists kf; split; [exact Hkf|];
     split; [exact Hle|]; split; [exact Hmax|]; rewrite E; split; [reflexivity|]).
  - cbn. rewrite Hd. split_and!; reflexivity.
  - split; reflexivity.
Qed.

(** Past the newest keyframe, and at a retained one. *)
Lemma rewind_to_window_witness :
  (rewind_to (& example_rewind) {| epoch := 0; offset := 0 |} 41 0).1.1 = REWIND_ERR_OUT_OF_RANGE /\
  (rewind_to (& example_rewind) {| epoch := 0; offset := 0 |} 40 2)
    = (REWIND_OK, (rewind_to (& example_rewind) {| epoch := 0; offset := 0 |} 40 2).1.2, {| epoch := 40; offset := 2 |}) /\
  window 3 [1; 10; 20; 30; 40] = [20; 30; 40].
Proof.
  pose proof (rewind_to_window 3 [1; 10; 20; 30; 40] example_history example_engine 0 0 0 false
    {| epoch := 0; offset := 0 |} 41 0 ltac:(lia) ltac:(vm_compute; reflexivity)) as HW.
  vm_compute in HW. destruct HW as [(_ & (e & He & Hle) & _) | (_ & Hrc & _)].
  - exfalso. repeat (apply elem_of_cons in He as [->|He]; [apply Hle; reflexivity|]).
    apply not_elem_of_nil in He. exact He.
  - split; [exact Hrc|]. split; reflexivity.
Defined.
