(* ===== verification/Divergence.v ===== *)
(** * Divergence detection (kernel/divergence.c, kernel/divergence_scan.c,
    kernel/divergence_scan_sync.c, kernel/divergence_sync.c)

    At every epoch boundary each component's checksum is recorded (RECORD) or
    compared with the recorded one (REPLAY); the first mismatch is kept.  The
    component sources read the world [W]. *)
From Stdlib Require Import ZArith Lia.
From S2P Require Import Prelude.
From S2P Require Import Crc32.
From S2P Require Import BlockDevice.
From S2P Require Import CheckpointJournal.
From S2P Require Import JournalCapture.
Open Scope Z_scope.
Open Scope c_scope.

Inductive diverge_mode_t := DIVERGE_OFF | DIVERGE_RECORD | DIVERGE_REPLAY.
Definition DIVERGE_OK : Z := 0.
Definition DIVERGE_ERR_PARAM : Z := -1.
Definition DIVERGE_MAX_COMPONENTS : Z := 16.

Definition KDIVERGE_PROCTABLE : Z := 0.
Definition KDIVERGE_SCHEDULER : Z := 1.
Definition KDIVERGE_COMPONENT_COUNT : Z := 5.

Record divergence_t := {
  mode : diverge_mode_t;
  epoch : Z;
  sums : list Z;
  present : list bool;
  diverged : bool;
  diverged_epoch : Z;
  diverged_component : Z;
  diverged_expected : Z;
  diverged_actual : Z;
  checks : Z;
  mismatches : Z }.

(** The per-epoch part: [d->epoch], [d->sums] and [d->present]. *)
Definition with_epoch (d : divergence_t) (e : Z) (s : list Z) (p : list bool) : divergence_t :=
  {| mode := mode d; epoch := e; sums := s; present := p; diverged := diverged d;
     diverged_epoch := diverged_epoch d; diverged_component := diverged_component d;
     diverged_expected := diverged_expected d; diverged_actual := diverged_actual d;
     checks := checks d; mismatches := mismatches d |}.

Definition no_sums : list Z := replicate (Z.to_nat DIVERGE_MAX_COMPONENTS) 0.
Definition none_present : list bool := replicate (Z.to_nat DIVERGE_MAX_COMPONENTS) false.

Definition clear_epoch (d : divergence_t) : divergence_t := with_epoch d (epoch d) no_sums none_present.

Definition divergence_init (d : ptr divergence_t) (m : diverge_mode_t) : Z * ptr divergence_t :=
  match d with
  | NULL => (DIVERGE_ERR_PARAM, d)
  | Some _ =>
      (DIVERGE_OK, & {| mode := m; epoch := 0; sums := no_sums; present := none_present;
                        diverged := false; diverged_epoch := 0; diverged_component := 0;
                        diverged_expected := 0; diverged_actual := 0; checks := 0; mismatches := 0 |})
  end.

Definition divergence_set_mode (d : ptr divergence_t) (m : diverge_mode_t) : ptr divergence_t :=
  match d with
  | NULL => NULL
  | Some k => & {| mode := m; epoch := epoch k; sums := sums k; present := present k;
                   diverged := diverged k; diverged_epoch := diverged_epoch k;
                   diverged_component := diverged_component k; diverged_expected := diverged_expected k;
                   diverged_actual := diverged_actual k; checks := checks k; mismatches := mismatches k |}
  end.

Definition divergence_begin_epoch (d : ptr divergence_t) (e : Z) : ptr divergence_t :=
  match d with NULL => NULL | Some k => & (with_epoch k e no_sums none_present) end.

Definition divergence_record (d : ptr divergence_t) (component checksum : Z) : Z * ptr divergence_t :=
  match d with
  | NULL => (DIVERGE_ERR_PARAM, d)
  | Some k =>
      if DIVERGE_MAX_COMPONENTS <=? component then (DIVERGE_ERR_PARAM, d)
      else
        match mode k with
        | DIVERGE_RECORD =>
            (DIVERGE_OK, & (with_epoch k (epoch k) (zset component checksum (sums k))
                              (zset component true (present k))))
        | _ => (DIVERGE_OK, d)
        end
  end.

(** The value and [*present]. *)
Definition divergence_recorded (d : ptr divergence_t) (component : Z) : Z * bool :=
  match d with
  | NULL => (0, false)
  | Some k =>
      if DIVERGE_MAX_COMPONENTS <=? component then (0, false)
      else (zget 0 (sums k) component, zget false (present k) component)
  end.

(** [for (i = 0; i < n; i++)] of [divergence_expect]. *)
Fixpoint install_sums (k : divergence_t) (vals : list Z) (n : nat) (i : Z) : divergence_t :=
  match n with
  | O => k
  | S n =>
      install_sums (with_epoch k (epoch k) (zset i (zget 0 vals i) (sums k)) (zset i true (present k)))
        vals n (i + 1)
  end.

Definition divergence_expect (d : ptr divergence_t) (e : Z) (vals : ptr (list Z)) (n : Z)
  : Z * ptr divergence_t :=
  match d with
  | NULL => (DIVERGE_ERR_PARAM, d)
  | Some k =>
      if (match vals with NULL => 0 <? n | Some _ => false end) || (DIVERGE_MAX_COMPONENTS <? n)
      then (DIVERGE_ERR_PARAM, d)
      else
        let vals := match vals with Some v => v | NULL => [] end in
        (DIVERGE_OK, & (install_sums (with_epoch k e no_sums none_present) vals (Z.to_nat n) 0))
  end.

Definition divergence_check (d : ptr divergence_t) (component checksum : Z) : bool * ptr divergence_t :=
  match d with
  | NULL => (false, d)
  | Some k =>
      if DIVERGE_MAX_COMPONENTS <=? component then (false, d)
      else
        match mode k with
        | DIVERGE_REPLAY =>
            let p := zget false (present k) component in
            let s := zget 0 (sums k) component in
            let ok := p && (s =? checksum) in
            let first := negb ok && negb (diverged k) in
            (ok,
             & {| mode := mode k; epoch := epoch k; sums := sums k; present := present k;
                  diverged := diverged k || negb ok;
                  diverged_epoch := if first then epoch k else diverged_epoch k;
                  diverged_component := if first then component else diverged_component k;
                  diverged_expected := if first then (if p then s else 0) else diverged_expected k;
                  diverged_actual := if first then checksum else diverged_actual k;
                  checks := u32 (checks k + 1);
                  mismatches := if ok then mismatches k else u32 (mismatches k + 1) |})
        | _ => (true, d)
        end
  end.

Definition divergence_has_diverged (d : ptr divergence_t) : bool :=
  match d with Some k => diverged k | NULL => false end.

(** ** The scan over the registered sources (divergence_scan.c) *)
Section scan.
Context {W : Type}.

Record diverge_source_t := { component : Z; source : ptr (W -> Z) }.

(** [count] and the out arrays, with the detector the callback records in. *)
Fixpoint scan_record_loop (world : W) (srcs : list diverge_source_t) (d : ptr divergence_t)
    (cb : bool) (count : Z) (ids vals : list Z) : Z * list Z * list Z * ptr divergence_t :=
  match srcs with
  | [] => (count, ids, vals, d)
  | s :: srcs =>
      match source s with
      | NULL => scan_record_loop world srcs d cb count ids vals
      | Some f =>
          let sum := f world in
          let d := if cb then (divergence_record d (component s) sum).2 else d in
          scan_record_loop world srcs d cb (u32 (count + 1))
            (zset count (component s) ids) (zset count sum vals)
      end
  end.

(** [cb] says whether [record_cb] (here [kdiverge_record]) is non-NULL; [srcs]
    holds the [n] sources. *)
Definition diverge_scan_record (world : W) (srcs : ptr (list diverge_source_t)) (n : Z)
    (d : ptr divergence_t) (cb : bool) (out_ids out_sums : ptr (list Z))
  : Z * ptr (list Z) * ptr (list Z) * ptr divergence_t :=
  match srcs, out_ids, out_sums with
  | Some srcs, Some ids, Some vals =>
      let '(count, ids, vals, d) :=
        scan_record_loop world (take (Z.to_nat n) srcs) d cb 0 ids vals in
      (count, & ids, & vals, d)
  | _, _, _ => (0, out_ids, out_sums, d)
  end.

Fixpoint scan_check_loop (world : W) (srcs : list diverge_source_t) (d : ptr divergence_t)
    (ok : bool) : bool * ptr divergence_t :=
  match srcs with
  | [] => (ok, d)
  | s :: srcs =>
      match source s with
      | NULL => scan_check_loop world srcs d ok
      | Some f =>
          let '(b, d) := divergence_check d (component s) (f world) in
          scan_check_loop world srcs d (if b then ok else false)
      end
  end.

Definition diverge_scan_check (world : W) (srcs : ptr (list diverge_source_t)) (n : Z)
    (d : ptr divergence_t) (cb : bool) : bool * ptr divergence_t :=
  match srcs with
  | NULL => (false, d)
  | Some srcs => if negb cb then (false, d) else scan_check_loop world (take (Z.to_nat n) srcs) d true
  end.

(** ** The kernel adapter: registry, record side, replay side *)
Record kdiverge_state := {
  g_kdiverge : divergence_t;
  g_sources : list diverge_source_t;
  g_nsources : Z;
  g_rec_ids : list Z;
  g_rec_sums : list Z;
  g_rec_count : Z }.

(** Replace the detector. *)
Definition with_detector (g : kdiverge_state) (d : ptr divergence_t) : kdiverge_state :=
  {| g_kdiverge := match d with Some k => k | NULL => g_kdiverge g end; g_sources := g_sources g;
     g_nsources := g_nsources g; g_rec_ids := g_rec_ids g; g_rec_sums := g_rec_sums g;
     g_rec_count := g_rec_count g |}.

Definition kdiverge_reset_sources (g : kdiverge_state) : kdiverge_state :=
  {| g_kdiverge := g_kdiverge g; g_sources := g_sources g; g_nsources := 0;
     g_rec_ids := g_rec_ids g; g_rec_sums := g_rec_sums g; g_rec_count := g_rec_count g |}.

Definition kdiverge_register (g : kdiverge_state) (c : Z) (f : ptr (W -> Z)) : kdiverge_state :=
  match f with
  | NULL => g
  | Some _ =>
      if KDIVERGE_COMPONENT_COUNT <=? g_nsources g then g
      else
        {| g_kdiverge := g_kdiverge g;
           g_sources := zset (g_nsources g) {| component := c; source := f |} (g_sources g);
           g_nsources := u32 (g_nsources g + 1);
           g_rec_ids := g_rec_ids g; g_rec_sums := g_rec_sums g; g_rec_count := g_rec_count g |}
  end.

Definition kdiverge_record_epoch (g : kdiverge_state) (world : W) (e : Z) : kdiverge_state :=
  let d := divergence_begin_epoch (divergence_set_mode (& (g_kdiverge g)) DIVERGE_RECORD) e in
  match diverge_scan_record world (& (g_sources g)) (g_nsources g) d true
          (& (g_rec_ids g)) (& (g_rec_sums g)) with
  | (count, Some ids, Some vals, Some k) =>
      {| g_kdiverge := k; g_sources := g_sources g; g_nsources := g_nsources g;
         g_rec_ids := ids; g_rec_sums := vals; g_rec_count := count |}
  | _ => g
  end.

Definition kdiverge_journal_sums (g : kdiverge_state) : Z * ptr (list Z) * ptr (list Z) :=
  (g_rec_count g, & (g_rec_ids g), & (g_rec_sums g)).

(** The dense array of [kdiverge_expect_pairs]: [n] pairs left, [i] the next. *)
Fixpoint dense_loop (ids vals : list Z) (n : nat) (i : Z) (dense : list Z) (span : Z) : list Z * Z :=
  match n with
  | O => (dense, span)
  | S n =>
      let id := zget 0 ids i in
      if DIVERGE_MAX_COMPONENTS <=? id then dense_loop ids vals n (i + 1) dense span
      else dense_loop ids vals n (i + 1) (zset id (zget 0 vals i) dense)
             (if span <? id + 1 then id + 1 else span)
  end.

Definition kdiverge_expect_pairs (g : kdiverge_state) (e : Z) (ids vals : list Z) (n : Z)
  : Z * kdiverge_state :=
  let '(dense, span) := dense_loop ids vals (Z.to_nat n) 0 no_sums 0 in
  let '(rc, d) := divergence_expect (& (g_kdiverge g)) e (& dense) span in
  (rc, with_detector g d).

Definition kdiverge_check_epoch (g : kdiverge_state) (world : W) : bool * kdiverge_state :=
  let '(ok, d) :=
    diverge_scan_check world (& (g_sources g)) (g_nsources g) (& (g_kdiverge g)) true in
  (ok, with_detector g d).

Definition kdiverge_set_mode (g : kdiverge_state) (m : diverge_mode_t) : kdiverge_state :=
  with_detector g (divergence_set_mode (& (g_kdiverge g)) m).
Definition kdiverge_ok (g : kdiverge_state) : bool := negb (divergence_has_diverged (& (g_kdiverge g))).

(** ** The replay driver's check at an epoch boundary
    (replay_driver_sync.c, [replay_divergence_check])

    The journal's divergence events, up to [KDIVERGE_COMPONENT_COUNT]. *)
Section boundary.
Context {D : Type}.

Fixpoint collect_sums (store : journal_store_t D) (d : D) (r : ptr journal_reader_t)
    (fuel : nat) (ids vals : list Z) (n : Z) : list Z * list Z * Z :=
  match fuel with
  | O => (ids, vals, n)
  | S fuel =>
      let '(rc, r, ev) := journal_reader_next store d r true in
      match ev with
      | NULL => (ids, vals, n)
      | Some ev =>
          if negb (rc =? JOURNAL_OK) then (ids, vals, n)
          else if negb (ev_type ev =? JOURNAL_EV_DIVERGE) then collect_sums store d r fuel ids vals n
          else if KDIVERGE_COMPONENT_COUNT <=? n then (ids, vals, n)
          else collect_sums store d r fuel (zset n (u32 (ev_lclock ev)) ids)
                 (zset n (u32 (ev_value ev)) vals) (u32 (n + 1))
      end
  end.

Definition replay_divergence_check (js : ptr (journal_store_t D)) (d : D) (rd : journal_reader_t)
    (g : kdiverge_state) (world : W) (e : Z) (fuel : nat) : kdiverge_state :=
  match js with
  | NULL => g
  | Some store =>
      match journal_store_load js d (& rd) with
      | (rc, Some r) =>
          if negb (rc =? JOURNAL_OK) then g
          else if negb (jr_epoch r =? e) then g
          else
            let blank := replicate (Z.to_nat KDIVERGE_COMPONENT_COUNT) 0 in
            let '(ids, vals, n) := collect_sums store d (& r) fuel blank blank 0 in
            if n =? 0 then g
            else (kdiverge_check_epoch (kdiverge_expect_pairs g e ids vals n).2 world).2
      | (_, NULL) => g
      end
  end.
End boundary.
End scan.
Arguments diverge_source_t W : clear implicits.
Arguments kdiverge_state W : clear implicits.
