(* ===== verification/DivergenceSpec.v ===== *)
(** * The divergence detector keeps the first mismatch and misses none *)
From Stdlib Require Import ZArith Lia.
From S2P Require Import Prelude.
From S2P Require Import Divergence.
Open Scope Z_scope.
Open Scope c_scope.

(** ** A session of checks *)

(** A component and the checksum recomputed on replay. *)
Fixpoint check_all (d : ptr divergence_t) (l : list (Z * Z)) : bool * ptr divergence_t :=
  match l with
  | [] => (true, d)
  | (c, s) :: l =>
      let '(ok, d) := divergence_check d c s in
      let '(oks, d) := check_all d l in (ok && oks, d)
  end.

(** The recorded value agrees with the recomputed one. *)
Definition matches (k : divergence_t) (x : Z * Z) : bool :=
  zget false (present k) x.1 && (zget 0 (sums k) x.1 =? x.2).

Definition in_components (x : Z * Z) : Prop := 0 <= x.1 < DIVERGE_MAX_COMPONENTS.

Definition first_mismatch (k : divergence_t) (l : list (Z * Z)) : option (Z * Z) :=
  head (filter (fun x => matches k x = false) l).

Lemma check_step k c s :
  mode k = DIVERGE_REPLAY -> in_components (c, s) ->
  exists k', divergence_check (& k) c s = (matches k (c, s), & k') /\
    mode k' = DIVERGE_REPLAY /\ sums k' = sums k /\ present k' = present k /\ epoch k' = epoch k /\
    checks k' = u32 (checks k + 1) /\
    mismatches k' = (if matches k (c, s) then mismatches k else u32 (mismatches k + 1)) /\
    diverged k' = diverged k || negb (matches k (c, s)) /\
    (diverged_epoch k', diverged_component k', diverged_expected k', diverged_actual k') =
    if negb (matches k (c, s)) && negb (diverged k)
    then (epoch k, c, (if zget false (present k) c then zget 0 (sums k) c else 0), s)
    else (diverged_epoch k, diverged_component k, diverged_expected k, diverged_actual k).
Proof.
  intros Hm Hc. unfold in_components in Hc. cbn in Hc. cbn [divergence_check].
  rewrite (proj2 (Z.leb_gt _ _)) by lia. rewrite Hm. unfold matches. cbn [fst snd].
  eexists. split; [reflexivity|]. cbn.
  split_and!; try assumption; try reflexivity. destruct (negb _ && negb _); reflexivity.
Qed.

Lemma check_all_spec k l :
  mode k = DIVERGE_REPLAY -> Forall in_components l ->
  exists k', check_all (& k) l = (forallb (matches k) l, & k') /\
    mode k' = DIVERGE_REPLAY /\ sums k' = sums k /\ present k' = present k /\ epoch k' = epoch k /\
    u32 (checks k') = u32 (checks k + Z.of_nat (length l)) /\
    u32 (mismatches k') = u32 (mismatches k + Z.of_nat (length (filter (fun x => matches k x = false) l))) /\
    diverged k' = diverged k || negb (forallb (matches k) l) /\
    (diverged_epoch k', diverged_component k', diverged_expected k', diverged_actual k') =
    match first_mismatch k l with
    | Some (c, s) =>
        if diverged k then (diverged_epoch k, diverged_component k, diverged_expected k, diverged_actual k)
        else (epoch k, c, (if zget false (present k) c then zget 0 (sums k) c else 0), s)
    | None => (diverged_epoch k, diverged_component k, diverged_expected k, diverged_actual k)
    end.
Proof.
  revert k; induction l as [|[c s] l IH]; intros k Hm Hl.
  { exists k. cbn. rewrite !Z.add_0_r, orb_false_r. auto 10. }
  inversion Hl as [|? ? Hc Hl']; subst.
  destruct (check_step k c s Hm Hc) as (k1 & E1 & Hm1 & Hs1 & Hp1 & He1 & Hck1 & Hmm1 & Hd1 & Hf1).
  destruct (IH k1 Hm1 Hl') as (k2 & E2 & Hm2 & Hs2 & Hp2 & He2 & Hck2 & Hmm2 & Hd2 & Hf2).
  assert (forall x, matches k1 x = matches k x) as Hext by (intros x; unfold matches; rewrite Hs1, Hp1; reflexivity).
  assert (forallb (matches k1) l = forallb (matches k) l) as Hfb.
  { clear -Hext. induction l as [|x l IHl]; [reflexivity|]. cbn. rewrite Hext, IHl. reflexivity. }
  assert (filter (fun x => matches k1 x = false) l = filter (fun x => matches k x = false) l) as Hfl.
  { apply list_filter_iff. intros x. rewrite Hext. reflexivity. }
  exists k2. cbn [check_all]. rewrite E1, E2, Hfb. split; [reflexivity|].
  unfold first_mismatch in *. rewrite Hfl in *. rewrite filter_cons.
  split_and!; try congruence.
  - rewrite Hck2, Hck1. cbn [length]. unfold u32. rewrite Z.add_mod_idemp_l by lia. f_equal. lia.
  - rewrite Hmm2, Hmm1. destruct (matches k (c, s)) eqn:E.
    + rewrite decide_False by discriminate. reflexivity.
    + rewrite decide_True by reflexivity. cbn [length]. unfold u32. rewrite Z.add_mod_idemp_l by lia. f_equal. lia.
  - rewrite Hd2, Hd1, Hfb. cbn [forallb]. destruct (diverged k), (matches k (c, s)); reflexivity.
  - rewrite Hf2, Hd1, He1, Hs1, Hp1. destruct (matches k (c, s)) eqn:E; cbn [negb andb] in Hf1.
    + rewrite decide_False by discriminate. rewrite orb_false_r. injection Hf1 as -> -> -> ->. reflexivity.
    + rewrite decide_True by reflexivity. cbn [head]. rewrite orb_true_r.
      destruct (diverged k); cbn [negb andb] in Hf1; injection Hf1 as -> -> -> ->;
        destruct (head _) as [[c' s']|]; reflexivity.
Qed.

(** The detector is exact and sticky.  After any sequence of replay checks
    it has diverged exactly when some component's recomputed checksum was
    missing or different, and it names the epoch, component, expected and
    actual value of the first such check, whatever came later; every check is
    counted, and every mismatch, modulo the counters' 32 bits. *)
Theorem divergence_first_kept (k : divergence_t) (l : list (Z * Z)) :
  mode k = DIVERGE_REPLAY -> diverged k = false -> Forall in_components l ->
  let '(ok, d') := check_all (& k) l in
  ok = forallb (matches k) l /\ divergence_has_diverged d' = negb ok /\
  exists k', d' = & k' /\
    u32 (checks k') = u32 (checks k + Z.of_nat (length l)) /\
    u32 (mismatches k') = u32 (mismatches k + Z.of_nat (length (filter (fun x => matches k x = false) l))) /\
    match first_mismatch k l with
    | Some (c, s) =>
        diverged_epoch k' = epoch k /\ diverged_component k' = c /\ diverged_actual k' = s /\
        diverged_expected k' = (if zget false (present k) c then zget 0 (sums k) c else 0)
    | None => ok = true
    end.
Proof.
  intros Hm Hd Hl. destruct (check_all_spec k l Hm Hl) as (k' & -> & _ & _ & _ & _ & H1 & H2 & H3 & H4).
  rewrite Hd in *. cbn [orb divergence_has_diverged] in *. split; [reflexivity|]. split; [exact H3|].
  exists k'. split_and!; try assumption; [reflexivity|].
  destruct (first_mismatch k l) as [[c s]|] eqn:E.
  - injection H4 as -> -> -> ->. auto.
  - apply forallb_forall. intros x Hx. destruct (matches k x) eqn:Ex; [reflexivity|]. exfalso.
    unfold first_mismatch in E. destruct (filter _ l) eqn:Ef; [|discriminate].
    apply list_elem_of_In in Hx. apply (not_elem_of_nil x). rewrite <- Ef. apply list_elem_of_filter. auto.
Qed.

Definition example_detector : divergence_t :=
  {| mode := DIVERGE_REPLAY; epoch := 6; sums := [11; 22; 33] ++ replicate 13 0;
     present := [true; true; true] ++ replicate 13 false; diverged := false; diverged_epoch := 0;
     diverged_component := 0; diverged_expected := 0; diverged_actual := 0; checks := 0; mismatches := 0 |}.

(** Component 1 diverges first, component 5 was never recorded. *)
Lemma divergence_first_kept_witness :
  exists k', (check_all (& example_detector) [(0, 11); (1, 23); (5, 0); (2, 33)]).2 = & k' /\
    diverged_epoch k' = 6 /\ diverged_component k' = 1 /\ diverged_actual k' = 23 /\
    diverged_expected k' = 22.
Proof.
  pose proof (divergence_first_kept example_detector [(0, 11); (1, 23); (5, 0); (2, 33)] eq_refl eq_refl
    ltac:(repeat constructor; unfold DIVERGE_MAX_COMPONENTS; cbn; lia)) as H.
  assert (first_mismatch example_detector [(0, 11); (1, 23); (5, 0); (2, 33)] = Some (1, 23)) as E
    by (vm_compute; reflexivity).
  rewrite E in H. destruct (check_all _ _) as [ok d']. cbn [snd].
  destruct H as (_ & _ & k' & H1 & _ & _ & H2 & H3 & H4 & H5).
  exists k'. split_and!; assumption.
Defined.

(** ** Record, journal, compare *)

(** A registered source: its component and checksum function. *)
Definition registered {W} (cf : Z * (W -> Z)) : diverge_source_t W := {| component := cf.1; source := & cf.2 |}.

(** The registry holds exactly [srcs], with distinct valid components. *)
Record registry {W} (g : kdiverge_state W) (srcs : list (Z * (W -> Z))) : Prop := {
  rg_count : g_nsources g = Z.of_nat (length srcs);
  rg_room : (length srcs <= 5)%nat;
  rg_sources : take (length srcs) (g_sources g) = registered <$> srcs;
  rg_range : Forall (fun c => 0 <= c < DIVERGE_MAX_COMPONENTS) srcs.*1;
  rg_distinct : NoDup srcs.*1;
  rg_arrays : length (g_rec_ids g) = 5%nat /\ length (g_rec_sums g) = 5%nat }.

Section scan.
Context {W : Type}.
Implicit Types (world : W) (srcs : list (Z * (W -> Z))) (d : ptr divergence_t).

Lemma scan_record_arrays world srcs d cb n ids vals :
  (n + length srcs <= length ids)%nat -> (n + length srcs <= length vals)%nat -> (length ids < 100)%nat ->
  exists ids' vals' d', scan_record_loop world (registered <$> srcs) d cb (Z.of_nat n) ids vals
    = (Z.of_nat (n + length srcs), ids', vals', d') /\
    take (n + length srcs) ids' = take n ids ++ srcs.*1 /\
    take (n + length srcs) vals' = take n vals ++ ((fun cf => cf.2 world) <$> srcs) /\
    (d <> NULL -> d' <> NULL).
Proof.
  revert d n ids vals; induction srcs as [|[c f] srcs IH]; intros d n ids vals Hi Hv Hb.
  { exists ids, vals, d. cbn. rewrite Nat.add_0_r, !app_nil_r. auto. }
  cbn [length] in Hi, Hv. rewrite fmap_cons.
  cbn [scan_record_loop registered source component fst snd].
  set (d1 := if cb then _ else d).
  rewrite u32_id by lia. replace (Z.of_nat n + 1) with (Z.of_nat (S n)) by lia.
  destruct (IH d1 (S n) (zset (Z.of_nat n) c ids) (zset (Z.of_nat n) (f world) vals))
    as (ids' & vals' & d' & Hr & Hti & Htv & Hd); rewrite ?length_zset; try lia.
  exists ids', vals', d'. cbn [length]. replace (n + S (length srcs))%nat with (S n + length srcs)%nat by lia.
  rewrite Hr, Hti, Htv, !take_zset_append, !fmap_cons, <- !app_assoc by lia. split_and!; try reflexivity.
  intros Hnn. apply Hd. subst d1. destruct cb; [|exact Hnn]. destruct d as [k|]; [|contradiction].
  cbn [divergence_record]. destruct (_ <=? c); [discriminate|]. destruct (mode k); discriminate.
Qed.

Lemma dense_loop_spec ids vals n i dense span :
  length dense = 16%nat -> 0 <= span <= 16 -> 0 <= i -> (Z.to_nat i + n <= length ids)%nat ->
  let js := take n (drop (Z.to_nat i) ids) in
  Forall (fun c => 0 <= c < DIVERGE_MAX_COMPONENTS) js -> NoDup js ->
  let '(dense', span') := dense_loop ids vals n i dense span in
  length dense' = 16%nat /\ span <= span' <= 16 /\
  (forall c, 0 <= c -> c ∉ js -> zget 0 dense' c = zget 0 dense c) /\
  (forall m c, js !! m = Some c -> zget 0 dense' c = zget 0 vals (i + Z.of_nat m) /\ c < span').
Proof.
  revert i dense span; induction n as [|n IH]; intros i dense span Hl Hs Hi Hn js HF HN.
  { cbn. split_and!; auto; try lia. intros m c Hc. subst js. rewrite take_0 in Hc. discriminate. }
  destruct (lookup_lt_is_Some_2 ids (Z.to_nat i) ltac:(lia)) as [id Hid].
  assert (js = id :: take n (drop (Z.to_nat (i + 1)) ids)) as Hjs.
  { subst js. rewrite (drop_S _ _ _ Hid). replace (Z.to_nat (i + 1)) with (S (Z.to_nat i)) by lia. reflexivity. }
  clearbody js. subst js. inversion HF as [|? ? Hc HF']; subst. inversion HN as [|? ? Hnin HN']; subst.
  assert (zget 0 ids i = id) as Hzid
    by (pose proof (zget_lookup 0 _ _ _ Hid) as HH; rewrite Z2Nat.id in HH by lia; exact HH).
  cbn [dense_loop]. rewrite Hzid.
  rewrite (proj2 (Z.leb_gt _ _)) by lia. unfold DIVERGE_MAX_COMPONENTS in Hc.
  set (dense1 := zset id _ dense). set (span1 := if span <? id + 1 then _ else _).
  assert (span <= span1 <= 16 /\ id < span1) as Hspan1 by (subst span1; destruct (Z.ltb_spec span (id + 1)); lia).
  specialize (IH (i + 1) dense1 span1 ltac:(subst dense1; rewrite length_zset; exact Hl) ltac:(lia) ltac:(lia) ltac:(lia) HF' HN').
  destruct (dense_loop ids vals n (i + 1) dense1 span1) as [dense' span'].
  destruct IH as (H1 & H2 & H3 & H4). split_and!; [exact H1 | lia | lia | |].
  - intros c Hc0 Hni. rewrite not_elem_of_cons in Hni. destruct Hni as [Hne Hni].
    rewrite H3 by assumption. subst dense1. rewrite zget_zset by lia.
    destruct (Z.eqb_spec id c); [congruence | reflexivity].
  - intros [|m] c Hm; cbn [lookup list_lookup] in Hm.
    + injection Hm as <-. rewrite Z.add_0_r. rewrite H3 by (assumption || lia). subst dense1.
      rewrite zget_zset, Z.eqb_refl by lia. split; [reflexivity | lia].
    + destruct (H4 m c Hm) as [H5 H6]. rewrite H5. split; [f_equal; lia | exact H6].
Qed.

Lemma install_sums_spec k vals n i :
  length (sums k) = 16%nat -> length (present k) = 16%nat -> 0 <= i -> i + Z.of_nat n <= 16 ->
  let k' := install_sums k vals n i in
  mode k' = mode k /\ epoch k' = epoch k /\ diverged k' = diverged k /\
  forall c, i <= c < i + Z.of_nat n -> zget 0 (sums k') c = zget 0 vals c /\ zget false (present k') c = true.
Proof.
  revert k i; induction n as [|n IH]; intros k i Hs Hp Hi Hn; [cbn; split_and!; try reflexivity; intros; lia|].
  cbn [install_sums].
  set (k1 := with_epoch k _ _ _).
  assert (forall c, 0 <= c < i + 1 -> zget 0 (sums (install_sums k1 vals n (i + 1))) c = zget 0 (sums k1) c /\
            zget false (present (install_sums k1 vals n (i + 1))) c = zget false (present k1) c) as Hlow.
  { assert (forall m j kk c, length (sums kk) = 16%nat -> length (present kk) = 16%nat -> 0 <= c < j ->
              j + Z.of_nat m <= 16 ->
              zget 0 (sums (install_sums kk vals m j)) c = zget 0 (sums kk) c /\
              zget false (present (install_sums kk vals m j)) c = zget false (present kk) c) as Hgen.
    { clear. intros m. induction m as [|m IHm]; intros j kk c H1 H2 Hc Hj; [split; reflexivity|].
      cbn [install_sums].
      destruct (IHm (j + 1) (with_epoch kk (epoch kk) (zset j (zget 0 vals j) (sums kk)) (zset j true (present kk))) c)
        as [E1 E2]; cbn; rewrite ?length_zset; try lia.
      rewrite E1, E2. cbn [with_epoch sums present]. rewrite !zget_zset by lia. rewrite (proj2 (Z.eqb_neq j c)) by lia. split; reflexivity. }
    intros c Hc. apply Hgen; subst k1; cbn; rewrite ?length_zset; try assumption; lia. }
  destruct (IH k1 (i + 1)) as (H1 & H2 & H3 & H4); subst k1; cbn; rewrite ?length_zset; try assumption; try lia.
  split_and!; try assumption. intros c Hc. destruct (Z.eq_dec c i) as [->|].
  - destruct (Hlow i ltac:(lia)) as [E1 E2]. cbn [with_epoch sums present] in E1, E2. rewrite E1, E2, !zget_zset, Z.eqb_refl by lia.
    split; reflexivity.
  - apply H4. lia.
Qed.

Lemma scan_check_all world srcs k ok :
  (scan_check_loop world (registered <$> srcs) (& k) ok) =
  (ok && (check_all (& k) ((fun cf => (cf.1, cf.2 world)) <$> srcs)).1,
   (check_all (& k) ((fun cf => (cf.1, cf.2 world)) <$> srcs)).2).
Proof.
  revert k ok; induction srcs as [|[c f] srcs IH]; intros k ok.
  { cbn. rewrite andb_true_r. reflexivity. }
  rewrite !fmap_cons. cbn [scan_check_loop registered source component fst snd check_all].
  assert (exists b k1, divergence_check (& k) c (f world) = (b, & k1)) as (b & k1 & ->).
  { unfold divergence_check. destruct (_ <=? c); [eauto|]. destruct (mode k); eauto. }
  rewrite IH. destruct (check_all (& k1) _) as [oks d2]. cbn [fst snd]. destruct ok, b; reflexivity.
Qed.
End scan.

(** No leak in a registered component passes.  Record the components at an
    epoch boundary, journal the sums, install them on replay and compare: the
    check passes exactly when every registered component's recomputed checksum
    equals the recorded one, and otherwise the session is marked diverged at
    this epoch. *)
Theorem diverge_detects {W} (g1 g2 : kdiverge_state W) (srcs : list (Z * (W -> Z))) (live replayed : W) (e : Z) :
  registry g1 srcs -> registry g2 srcs -> diverged (g_kdiverge g2) = false ->
  mode (g_kdiverge g2) = DIVERGE_REPLAY ->
  match kdiverge_journal_sums (kdiverge_record_epoch g1 live e) with
  | (n, Some ids, Some vals) =>
      let '(rc, g) := kdiverge_expect_pairs g2 e ids vals n in
      let '(ok, g') := kdiverge_check_epoch g replayed in
      rc = DIVERGE_OK /\ kdiverge_ok g' = ok /\
      (ok = true <-> forall c f, (c, f) ∈ srcs -> f replayed = f live) /\
      (ok = false -> diverged_epoch (g_kdiverge g') = e)
  | _ => False
  end.
Proof.
  intros [Hc1 Hr1 Hs1 HF HN (Ha1 & Ha2)] [Hc2 Hr2 Hs2 _ _ _] Hdv Hmode.
  unfold kdiverge_journal_sums, kdiverge_record_epoch, diverge_scan_record.
  rewrite Hc1, Nat2Z.id, Hs1.
  destruct (scan_record_arrays live srcs (divergence_begin_epoch (divergence_set_mode (& (g_kdiverge g1)) DIVERGE_RECORD) e)
              true 0 (g_rec_ids g1) (g_rec_sums g1) ltac:(lia) ltac:(lia) ltac:(lia))
    as (ids & vals & d' & Hrun & Hids & Hvals & Hnn).
  change (Z.of_nat 0) with 0 in Hrun. rewrite Hrun. cbn [Nat.add] in *. rewrite take_0 in *. cbn [app] in *.
  destruct d' as [k1|]; [|exfalso; apply Hnn; [discriminate | reflexivity]]. cbn [g_rec_count g_rec_ids g_rec_sums].
  unfold kdiverge_expect_pairs. rewrite Nat2Z.id.
  assert (length srcs <= length ids)%nat as Hlen.
  { pose proof (f_equal length Hids) as HH. rewrite length_take, length_fmap in HH. lia. }
  assert (take (length srcs) (drop (Z.to_nat 0) ids) = srcs.*1) as Hjs by exact Hids.
  pose proof (dense_loop_spec ids vals (length srcs) 0 no_sums 0 eq_refl ltac:(lia) ltac:(lia)
                ltac:(cbn; lia)) as HD. cbv zeta in HD. rewrite Hjs in HD. specialize (HD HF HN).
  destruct (dense_loop ids vals (length srcs) 0 no_sums 0) as [dense span].
  destruct HD as (Hd1 & Hd2 & _ & Hd4).
  cbn [divergence_expect orb]. rewrite (proj2 (Z.ltb_ge _ _)) by (unfold DIVERGE_MAX_COMPONENTS; lia).
  set (k2 := install_sums _ dense (Z.to_nat span) 0).
  pose proof (install_sums_spec (with_epoch (g_kdiverge g2) e no_sums none_present) dense (Z.to_nat span) 0
                eq_refl eq_refl ltac:(lia) ltac:(lia)) as HI. cbv zeta in HI. fold k2 in HI.
  destruct HI as (Hm & He & Hdd & Hin). cbn in Hm, He, Hdd.
  unfold kdiverge_check_epoch, diverge_scan_check, with_detector.
  cbn [g_sources g_nsources g_kdiverge negb]. rewrite Hc2, Nat2Z.id, Hs2, scan_check_all.
  set (l := (fun cf => (cf.1, cf.2 replayed)) <$> srcs).
  assert (Forall in_components l) as HFl.
  { apply Forall_fmap. rewrite Forall_fmap in HF. exact HF. }
  destruct (check_all_spec k2 l (eq_trans Hm Hmode) HFl) as (k' & -> & _ & _ & _ & He' & _ & _ & Hdv' & Hfst).
  rewrite Hdd, Hdv in *. cbn [orb] in Hdv'. cbn [fst snd g_kdiverge].
  assert (forall m c f, srcs !! m = Some (c, f) -> matches k2 (c, f replayed) = (f live =? f replayed)) as Hmatch.
  { intros m c f Hmf. unfold matches. cbn [fst snd].
    assert (srcs.*1 !! m = Some c) as Hmc by (rewrite list_lookup_fmap, Hmf; reflexivity).
    destruct (Hd4 m c Hmc) as [Hv Hsp]. rewrite Forall_lookup in HF. pose proof (HF m c Hmc) as Hcr.
    destruct (Hin c ltac:(lia)) as [-> ->]. rewrite Hv. cbn [andb]. f_equal.
    apply (zget_take 0 vals (length srcs)). rewrite Hvals, list_lookup_fmap, Hmf. reflexivity. }
  split; [reflexivity|]. split; [unfold kdiverge_ok; cbn; rewrite Hdv'; apply negb_involutive|]. split.
  - cbn [andb]. rewrite forallb_forall. split.
    + intros Hall c f Hcf. apply list_elem_of_lookup in Hcf as [m Hmf].
      assert (matches k2 (c, f replayed) = true) as Hone.
      { apply Hall, list_elem_of_In, list_elem_of_fmap. exists (c, f). split; [reflexivity|].
        apply list_elem_of_lookup. eauto. }
      rewrite (Hmatch m c f Hmf) in Hone. symmetry. apply Z.eqb_eq. exact Hone.
    + intros Hall x Hx. apply list_elem_of_In, list_elem_of_fmap in Hx as ([c f] & -> & Hcf). cbn [fst snd].
      pose proof (Hall c f Hcf) as Heq. apply list_elem_of_lookup in Hcf as [m Hmf].
      rewrite (Hmatch m c f Hmf), Heq. apply Z.eqb_refl.
  - intros Hbad. destruct (first_mismatch k2 l) as [[c s]|] eqn:E; [injection Hfst as -> _ _ _; exact He|].
    exfalso. unfold first_mismatch in E. apply (f_equal negb) in Hbad. rewrite <- negb_involutive in Hbad.
    destruct (filter (fun x => matches k2 x = false) l) as [|x xs] eqn:Ef; [|discriminate].
    assert (forallb (matches k2) l = true) as Ht.
    { apply forallb_forall. intros x Hx. destruct (matches k2 x) eqn:Ex; [reflexivity|]. exfalso.
      apply list_elem_of_In in Hx. apply (not_elem_of_nil x). rewrite <- Ef. apply list_elem_of_filter. auto. }
    rewrite Ht in Hbad. discriminate.
Qed.

(** Two components over a world of two numbers; the second one leaks. *)
Definition example_registry : kdiverge_state (Z * Z) :=
  let g := {| g_kdiverge := example_detector; g_sources := replicate 5 {| component := 0; source := NULL |};
              g_nsources := 0; g_rec_ids := replicate 5 0; g_rec_sums := replicate 5 0; g_rec_count := 0 |} in
  kdiverge_register (kdiverge_register g KDIVERGE_PROCTABLE (& fst)) KDIVERGE_SCHEDULER (& snd).

Lemma example_registry_ok : registry example_registry [(KDIVERGE_PROCTABLE, fst); (KDIVERGE_SCHEDULER, snd)].
Proof.
  split; try reflexivity.
  - cbn. lia.
  - repeat constructor; vm_compute; discriminate || reflexivity.
  - apply (bool_decide_unpack (NoDup [0; 1])). reflexivity.
  - split; reflexivity.
Qed.

Lemma diverge_detects_witness :
  match kdiverge_journal_sums (kdiverge_record_epoch example_registry (7, 8) 12) with
  | (n, Some ids, Some vals) =>
      let '(rc, g) := kdiverge_expect_pairs example_registry 12 ids vals n in
      let '(ok, g') := kdiverge_check_epoch g (7, 9) in
      rc = DIVERGE_OK /\ ok = false /\ diverged_epoch (g_kdiverge g') = 12
  | _ => False
  end.
Proof.
  pose proof (diverge_detects example_registry example_registry [(KDIVERGE_PROCTABLE, fst); (KDIVERGE_SCHEDULER, snd)]
    (7, 8) (7, 9) 12 example_registry_ok example_registry_ok eq_refl eq_refl) as H.
  destruct (kdiverge_journal_sums _) as [[n [ids|]] [vals|]]; try exact H.
  destruct (kdiverge_expect_pairs _ _ _ _ _) as [rc g]. destruct (kdiverge_check_epoch g (7, 9)) as [ok g'].
  destruct H as (H1 & _ & H2 & H3). split; [exact H1|].
  assert (ok = false) as Hok.
  { destruct ok; [|reflexivity]. exfalso.
    pose proof (proj1 H2 eq_refl KDIVERGE_SCHEDULER snd ltac:(set_solver)) as Hbad. discriminate Hbad. }
  split; [exact Hok | exact (H3 Hok)].
Defined.
