(* ===== verification/GdbStub.v ===== *)
(** * The GDB remote-serial stub (kernel/gdbstub.c, kernel/gdbstub_sync.c,
    kernel/gdb_serial.c)

    Packet framing and dispatch, and the serial handshake around it.  A pointer
    and length pair is the list of its bytes; an output buffer is the bytes
    written at its start; the reverse operations and the byte transport are
    functions over the world [W] they act on.  Reading loops until the stream
    yields a packet, so it takes fuel. *)
From Stdlib Require Import ZArith Lia String Ascii.
From Stdlib Require Import Strings.Byte.
From S2P Require Import Prelude.
Open Scope Z_scope.
Open Scope c_scope.

(** A string literal's bytes, without the NUL, and a character literal. *)
Definition lit (s : string) : list byte := list_byte_of_string s.
Definition ch (a : ascii) : byte := byte_of_ascii a.
Notation "a ==b b" := (Byte.eqb a b) (at level 70).

Fixpoint bytes_eq (a b : list byte) : bool :=
  match a, b with
  | [], [] => true
  | x :: a, y :: b => (x ==b y) && bytes_eq a b
  | _, _ => false
  end.

(** [eq_lit(p, plen, lit)] and [has_prefix(p, plen, lit)]. *)
Definition eq_lit (p : list byte) (s : string) : bool := bytes_eq p (lit s).
Definition has_prefix (p : list byte) (s : string) : bool :=
  if Z.of_nat (length p) <? Z.of_nat (length (lit s)) then false
  else bytes_eq (take (length (lit s)) p) (lit s).

(** The length, or -1 if the literal overflows [out]; with the bytes written. *)
Definition emit (cap : Z) (s : string) : Z * list byte :=
  let n := Z.of_nat (length (lit s)) in
  if cap <? n then (-1, []) else (n, lit s).

Definition hex_digit (v : Z) : byte :=
  byte.of_Z (if v <? 10 then byte.unsigned (ch "0") + v else byte.unsigned (ch "a") + (v - 10)).

Definition hex_val (c : byte) : Z :=
  let c := byte.unsigned c in
  if (byte.unsigned (ch "0") <=? c) && (c <=? byte.unsigned (ch "9")) then c - byte.unsigned (ch "0")
  else if (byte.unsigned (ch "a") <=? c) && (c <=? byte.unsigned (ch "f")) then c - byte.unsigned (ch "a") + 10
  else if (byte.unsigned (ch "A") <=? c) && (c <=? byte.unsigned (ch "F")) then c - byte.unsigned (ch "A") + 10
  else -1.

Definition gdbstub_checksum (data : list byte) : Z :=
  Z.land (foldl (fun sum b => u32 (sum + byte.unsigned b)) 0 data) 0xFF.

Definition gdbstub_frame (payload : list byte) (outcap : Z) : Z * list byte :=
  let plen := Z.of_nat (length payload) in
  let need := u32 (plen + 4) in
  if outcap <? need then (-1, [])
  else
    let c := gdbstub_checksum payload in
    (need, ch "$" :: payload ++ [ch "#"; hex_digit (Z.land (Z.shiftr c 4) 0xF); hex_digit (Z.land c 0xF)]).

(** The scan for the closing ['#'], from index [i] on. *)
Fixpoint find_hash (l : list byte) (i : Z) : option Z :=
  match l with
  | [] => None
  | b :: l => if b ==b ch "#" then Some i else find_hash l (i + 1)
  end.

(** The result, the bytes copied to [out], and [*ok]. *)
Definition gdbstub_unframe (frame : list byte) (outcap : Z) : Z * list byte * bool :=
  let flen := Z.of_nat (length frame) in
  if (flen <? 4) || negb (zget Byte.x00 frame 0 ==b ch "$") then (-1, [], false)
  else
    match find_hash (drop 1 frame) 1 with
    | None => (-1, [], false)
    | Some hash =>
        if flen <=? hash + 2 then (-1, [], false)
        else
          let plen := hash - 1 in
          if outcap <? plen then (-1, [], false)
          else
            let out := take (Z.to_nat plen) (drop 1 frame) in
            let hi := hex_val (zget Byte.x00 frame (hash + 1)) in
            let lo := hex_val (zget Byte.x00 frame (hash + 2)) in
            if (hi <? 0) || (lo <? 0) then (-1, out, false)
            else
              let want := u8 (Z.lor (Z.shiftl hi 4) lo) in
              (plen, out, want =? gdbstub_checksum out)
    end.

Record gdbstub_ops_t (W : Type) := {
  reverse_step : ptr (W -> Z * W);
  reverse_continue : ptr (W -> Z * W) }.
Arguments reverse_step {W}. Arguments reverse_continue {W}.

Section dispatch.
Context {W : Type}.
Implicit Types (w : W).

(** [if (ops && ops->f) ops->f(ops->ctx);] *)
Definition call_op (f : ptr (W -> Z * W)) w : W := match f with Some f => (f w).2 | NULL => w end.

Definition gdbstub_handle (ops : ptr (gdbstub_ops_t W)) w (packet : list byte) (outcap : Z)
  : Z * list byte * W :=
  if has_prefix packet "qSupported" then
    (emit outcap "PacketSize=4000;ReverseStep+;ReverseContinue+", w)
  else if eq_lit packet "?" then (emit outcap "S05", w)
  else if eq_lit packet "bs" then
    (emit outcap "S05", match ops with Some o => call_op (reverse_step o) w | NULL => w end)
  else if eq_lit packet "bc" then
    (emit outcap "S05", match ops with Some o => call_op (reverse_continue o) w | NULL => w end)
  else ((0, []), w).

(** The adapter: unframe, dispatch, frame (both buffers hold 256 bytes). *)
Definition gdbstub_serve (ops : gdbstub_ops_t W) w (frame : list byte) (outcap : Z)
  : Z * list byte * W :=
  let '(plen, payload, ok) := gdbstub_unframe frame 256 in
  if (plen <? 0) || negb ok then (-1, [], w)
  else
    let '(rlen, resp, w) := gdbstub_handle (& ops) w payload 256 in
    if rlen <? 0 then (-1, [], w)
    else
      let '(n, out) := gdbstub_frame resp outcap in (n, out, w).
End dispatch.

(** ** The serial transport *)
Definition GDB_SERIAL_OK : Z := 0.
Definition GDB_SERIAL_CLOSED : Z := -1.
Definition GDB_SERIAL_INTERRUPT : Z := -2.
Definition GDB_SERIAL_ERR : Z := -3.

(** [get_byte] is 0..255, or negative at the end of the stream. *)
Record gdb_serial_ops_t (W : Type) := {
  get_byte : ptr (W -> Z * W);
  put_byte : ptr (W -> byte -> Z * W) }.
Arguments get_byte {W}. Arguments put_byte {W}.

Definition GDB_STOP_FRAME : list byte := lit "$S05#b8".

Section serial.
Context {W : Type}.
Implicit Types (w : W).

(** Skip to a packet start: GDB_SERIAL_OK is the [break] on ['$']. *)
Fixpoint skip_to_packet (get : W -> Z * W) w (fuel : nat) : option (Z * W) :=
  match fuel with
  | O => None
  | S fuel =>
      let '(c, w) := get w in
      if c <? 0 then Some (GDB_SERIAL_CLOSED, w)
      else if c =? 3 then Some (GDB_SERIAL_INTERRUPT, w)
      else if c =? byte.unsigned (ch "$") then Some (GDB_SERIAL_OK, w)
      else skip_to_packet get w fuel
  end.

(** The payload up to and including ['#']; [buf] holds the [n] bytes so far. *)
Fixpoint read_payload (get : W -> Z * W) w (buf : list byte) (cap : Z) (fuel : nat)
  : option (Z * list byte * W) :=
  match fuel with
  | O => None
  | S fuel =>
      let '(c, w) := get w in
      if c <? 0 then Some (GDB_SERIAL_CLOSED, buf, w)
      else if cap <=? Z.of_nat (length buf) + 3 then Some (GDB_SERIAL_ERR, buf, w)
      else
        let buf := buf ++ [byte.of_Z c] in
        if c =? byte.unsigned (ch "#") then Some (GDB_SERIAL_OK, buf, w)
        else read_payload get w buf cap fuel
  end.

(** [buf] says whether the buffer pointer is non-NULL. *)
Definition gdb_serial_read_packet (ops : ptr (gdb_serial_ops_t W)) w (buf : bool) (cap : Z) (fuel : nat)
  : option (Z * list byte * W) :=
  match ops with
  | Some {| get_byte := Some get |} =>
      if negb buf || (cap <? 4) then Some (GDB_SERIAL_ERR, [], w)
      else
        match skip_to_packet get w fuel with
        | None => None
        | Some (rc, w) =>
            if negb (rc =? GDB_SERIAL_OK) then Some (rc, [], w)
            else
              match read_payload get w [ch "$"] cap fuel with
              | None => None
              | Some (rc, b, w) =>
                  if negb (rc =? GDB_SERIAL_OK) then Some (rc, b, w)
                  else
                    let '(h1, w) := get w in
                    let '(h2, w) := get w in
                    if (h1 <? 0) || (h2 <? 0) then Some (GDB_SERIAL_CLOSED, b, w)
                    else
                      let b := b ++ [byte.of_Z h1; byte.of_Z h2] in
                      Some (Z.of_nat (length b), b, w)
              end
        end
  | _ => Some (GDB_SERIAL_ERR, [], w)
  end.

Fixpoint put_all (put : W -> byte -> Z * W) w (frame : list byte) : Z * W :=
  match frame with
  | [] => (GDB_SERIAL_OK, w)
  | b :: frame =>
      let '(rc, w) := put w b in
      if negb (rc =? 0) then (GDB_SERIAL_ERR, w) else put_all put w frame
  end.

(** The attempts left of [for (attempt = 0; attempt < 4; attempt++)]. *)
Fixpoint send_attempts (get : W -> Z * W) (put : W -> byte -> Z * W) w (frame : list byte) (n : nat)
  : Z * W :=
  match n with
  | O => (GDB_SERIAL_ERR, w)
  | S n =>
      let '(rc, w) := put_all put w frame in
      if negb (rc =? GDB_SERIAL_OK) then (rc, w)
      else
        let '(ack, w) := get w in
        if ack <? 0 then (GDB_SERIAL_CLOSED, w)
        else if ack =? byte.unsigned (ch "+") then (GDB_SERIAL_OK, w)
        else send_attempts get put w frame n
  end.

Definition gdb_serial_send_packet (ops : ptr (gdb_serial_ops_t W)) w (frame : ptr (list byte)) : Z * W :=
  match ops, frame with
  | Some {| get_byte := Some get; put_byte := Some put |}, Some frame =>
      send_attempts get put w frame 4
  | _, _ => (GDB_SERIAL_ERR, w)
  end.

(** [serve] is the dispatch step with the reply buffer's capacity. *)
Definition gdb_serial_serve_once (ops : ptr (gdb_serial_ops_t W)) w
    (serve : ptr (W -> list byte -> Z -> Z * list byte * W)) (fuel : nat) : option (Z * W) :=
  match ops, serve with
  | Some o, Some serve =>
      match gdb_serial_read_packet ops w true 300 fuel with
      | None => None
      | Some (flen, frame, w) =>
          if flen =? GDB_SERIAL_CLOSED then Some (GDB_SERIAL_CLOSED, w)
          else if flen =? GDB_SERIAL_INTERRUPT
          then Some (gdb_serial_send_packet ops w (& GDB_STOP_FRAME))
          else if flen <? 0 then Some (GDB_SERIAL_ERR, w)
          else
            match put_byte o with
            | NULL => Some (GDB_SERIAL_ERR, w)
            | Some put =>
                let '(rc, w) := put w (ch "+") in
                if negb (rc =? 0) then Some (GDB_SERIAL_ERR, w)
                else
                  let '(rlen, reply, w) := serve w frame 300 in
                  if rlen <? 0 then Some (GDB_SERIAL_ERR, w)
                  else Some (gdb_serial_send_packet ops w (& reply))
            end
      end
  | _, _ => Some (GDB_SERIAL_ERR, w)
  end.

Fixpoint gdb_serial_loop (ops : ptr (gdb_serial_ops_t W)) w
    (serve : ptr (W -> list byte -> Z -> Z * list byte * W)) (fuel : nat) : option (Z * W) :=
  match fuel with
  | O => None
  | S n =>
      match gdb_serial_serve_once ops w serve fuel with
      | None => None
      | Some (rc, w) => if rc =? GDB_SERIAL_OK then gdb_serial_loop ops w serve n else Some (rc, w)
      end
  end.
End serial.
