(* ===== verification/GdbStubSpec.v ===== *)
(** * The debugger's packets survive the wire *)
From Stdlib Require Import ZArith Lia String Ascii.
From Stdlib Require Import Strings.Byte.
From S2P Require Import Prelude.
From S2P Require Import GdbStub.
Open Scope Z_scope.
Open Scope c_scope.

(** ** Bytes, digits, checksums *)

Lemma byte_eqb_eq (a b : byte) : (a ==b b) = true <-> a = b.
Proof. split; [apply byte_dec_bl | apply byte_dec_lb]. Qed.
Lemma byte_eqb_refl (a : byte) : (a ==b a) = true.
Proof. apply byte_eqb_eq. reflexivity. Qed.
Lemma byte_eqb_neq (a b : byte) : (a ==b b) = false <-> a <> b.
Proof. rewrite <- byte_eqb_eq. destruct (a ==b b); split; congruence. Qed.

(** Two lower-case hex digits of a byte read back as that byte. *)
Lemma hex_roundtrip c :
  0 <= c < 256 ->
  let hi := hex_val (hex_digit (Z.land (Z.shiftr c 4) 0xF)) in
  let lo := hex_val (hex_digit (Z.land c 0xF)) in
  0 <= hi /\ 0 <= lo /\ u8 (Z.lor (Z.shiftl hi 4) lo) = c.
Proof.
  intros Hc.
  assert (forallb (fun c =>
    let hi := hex_val (hex_digit (Z.land (Z.shiftr c 4) 0xF)) in
    let lo := hex_val (hex_digit (Z.land c 0xF)) in
    (0 <=? hi) && (0 <=? lo) && (u8 (Z.lor (Z.shiftl hi 4) lo) =? c)) (seqZ 0 256) = true) as H
    by (vm_compute; reflexivity).
  assert (c ∈ seqZ 0 256) as Hin by (apply elem_of_seqZ; lia).
  rewrite forallb_forall in H. specialize (H c (proj1 (list_elem_of_In _ _) Hin)). cbv zeta in *. zbool. auto.
Qed.

Lemma checksum_range l : 0 <= gdbstub_checksum l < 256.
Proof. unfold gdbstub_checksum. rewrite (Z.land_ones _ 8) by lia. apply Z.mod_pos_bound. lia. Qed.

(** The checksum is the sum of the bytes modulo 256. *)
Definition byte_sum (l : list byte) : Z := foldr (fun b s => byte.unsigned b + s) 0 l.

Lemma checksum_sum l : gdbstub_checksum l = byte_sum l mod 256.
Proof.
  unfold gdbstub_checksum. rewrite (Z.land_ones _ 8) by lia.
  assert (forall s, foldl (fun sum b => u32 (sum + byte.unsigned b)) s l mod 2 ^ 8 = (s + byte_sum l) mod 2 ^ 8) as H.
  { induction l as [|b l IH]; intros s; cbn [foldl byte_sum foldr]; [f_equal; lia|].
    rewrite IH. fold (byte_sum l). unfold u32.
    rewrite <- (Z.add_mod_idemp_l (_ mod _)) by lia.
    rewrite Z.mod_mod_divide by (exists (2 ^ 24); reflexivity).
    rewrite Z.add_mod_idemp_l by lia. f_equal. lia. }
  rewrite H. reflexivity.
Qed.

Lemma byte_sum_app a b : byte_sum (a ++ b) = byte_sum a + byte_sum b.
Proof. unfold byte_sum. induction a as [|x a IH]; cbn; [reflexivity | lia]. Qed.

Lemma unsigned_inj a b : byte.unsigned a = byte.unsigned b -> a = b.
Proof. intros H. rewrite <- (byte.of_Z_unsigned a), <- (byte.of_Z_unsigned b), H. reflexivity. Qed.

(** Replacing one byte always changes the checksum. *)
Lemma checksum_detects pre b b' post :
  b <> b' -> gdbstub_checksum (pre ++ b :: post) <> gdbstub_checksum (pre ++ b' :: post).
Proof.
  rewrite !checksum_sum, !byte_sum_app. cbn [byte_sum foldr]. fold (byte_sum post). intros Hne Heq.
  pose proof (byte.unsigned_range b). pose proof (byte.unsigned_range b').
  apply Hne, unsigned_inj.
  assert ((byte.unsigned b - byte.unsigned b') mod 256 = 0) as Hd.
  { replace (byte.unsigned b - byte.unsigned b') with
      ((byte_sum pre + (byte.unsigned b + byte_sum post)) - (byte_sum pre + (byte.unsigned b' + byte_sum post))) by lia.
    rewrite Zminus_mod, Heq, Z.sub_diag. reflexivity. }
  apply Z.mod_divide in Hd; [|lia]. destruct Hd as [q Hq]. lia.
Qed.

(** ** Frames *)

(** The frame of a payload whose checksum digits are those of [c]. *)
Definition frame_of (payload : list byte) (c : Z) : list byte :=
  ch "$" :: payload ++ [ch "#"; hex_digit (Z.land (Z.shiftr c 4) 0xF); hex_digit (Z.land c 0xF)].

Lemma frame_spec payload cap :
  Z.of_nat (length payload) + 4 <= cap -> cap < 2 ^ 32 ->
  gdbstub_frame payload cap = (Z.of_nat (length (frame_of payload (gdbstub_checksum payload))),
                               frame_of payload (gdbstub_checksum payload)).
Proof.
  intros H Hc. unfold gdbstub_frame. rewrite u32_id by lia. rewrite (proj2 (Z.ltb_ge _ _)) by lia.
  unfold frame_of. cbn [length]. rewrite length_app. cbn [length]. f_equal. lia.
Qed.

Lemma find_hash_first payload rest i :
  Forall (fun b => b <> ch "#") payload ->
  find_hash (payload ++ ch "#" :: rest) i = Some (i + Z.of_nat (length payload)).
Proof.
  revert i; induction payload as [|b payload IH]; intros i H.
  - cbn [app find_hash]. rewrite byte_eqb_refl. f_equal. cbn. lia.
  - inversion H; subst. cbn [app find_hash]. rewrite (proj2 (byte_eqb_neq _ _)) by assumption.
    rewrite IH by assumption. cbn [length]. f_equal. lia.
Qed.

Lemma unframe_spec payload c cap :
  Forall (fun b => b <> ch "#") payload -> Z.of_nat (length payload) <= cap -> 0 <= c < 256 ->
  gdbstub_unframe (frame_of payload c) cap
  = (Z.of_nat (length payload), payload, c =? gdbstub_checksum payload).
Proof.
  intros HF Hcap Hc. unfold gdbstub_unframe.
  assert (length (frame_of payload c) = length payload + 4)%nat as Hl
    by (unfold frame_of; cbn [length]; rewrite length_app; cbn; lia).
  rewrite Hl, (proj2 (Z.ltb_ge _ _)) by lia. cbn [orb].
  change (zget Byte.x00 (frame_of payload c) 0) with (ch "$"). rewrite byte_eqb_refl. cbn [negb].
  change (drop 1 (frame_of payload c)) with
    (payload ++ [ch "#"; hex_digit (Z.land (Z.shiftr c 4) 0xF); hex_digit (Z.land c 0xF)]).
  rewrite find_hash_first by exact HF. rewrite (proj2 (Z.leb_gt _ _)) by lia.
  replace (1 + Z.of_nat (length payload) - 1) with (Z.of_nat (length payload)) by lia.
  rewrite (proj2 (Z.ltb_ge _ _)) by lia. rewrite Nat2Z.id, take_app_length.
  assert (zget Byte.x00 (frame_of payload c) (1 + Z.of_nat (length payload) + 1)
            = hex_digit (Z.land (Z.shiftr c 4) 0xF) /\
          zget Byte.x00 (frame_of payload c) (1 + Z.of_nat (length payload) + 2) = hex_digit (Z.land c 0xF))
    as [-> ->].
  { unfold zget. split; apply nth_lookup_Some; unfold frame_of; rewrite lookup_cons_ne_0 by lia;
      rewrite lookup_app_r by lia.
    - replace (_ - _)%nat with 1%nat by lia. reflexivity.
    - replace (_ - _)%nat with 2%nat by lia. reflexivity. }
  destruct (hex_roundtrip c Hc) as (H1 & H2 & H3). cbv zeta in *.
  rewrite (proj2 (Z.ltb_ge _ _) H1), (proj2 (Z.ltb_ge _ _) H2), H3. reflexivity.
Qed.

(** C36: framing round-trips.  Any payload without a ['#'] that fits its
    buffers, the empty one included, is framed as [$payload#cc] and unframed
    to exactly that payload with a valid checksum; and whichever payload byte
    of the frame is altered on the way (to anything but ['#']), the altered
    payload comes back flagged as corrupt. *)
Theorem frame_unframe_roundtrip (payload : list byte) (cap cap' : Z) :
  Forall (fun x => x <> ch "#") payload ->
  Z.of_nat (length payload) + 4 <= cap < 2 ^ 32 -> Z.of_nat (length payload) <= cap' ->
  let '(n, f) := gdbstub_frame payload cap in
  n = Z.of_nat (length f) /\
  gdbstub_unframe f cap' = (Z.of_nat (length payload), payload, true) /\
  forall pre b post b', payload = pre ++ b :: post -> b' <> b -> b' <> ch "#" ->
    gdbstub_unframe (<[S (length pre) := b']> f) cap' = (Z.of_nat (length payload), pre ++ b' :: post, false).
Proof.
  intros HF Hc Hc'. rewrite frame_spec by lia. split; [reflexivity|].
  pose proof (checksum_range payload) as Hr. split.
  - rewrite unframe_spec by assumption. rewrite Z.eqb_refl. reflexivity.
  - intros pre b post b' Hp Hne Hh.
    assert (<[S (length pre) := b']> (frame_of payload (gdbstub_checksum payload))
            = frame_of (pre ++ b' :: post) (gdbstub_checksum payload)) as ->.
    { subst payload. unfold frame_of.
      change (<[S (length pre) := b']> (?x :: ?l)) with (x :: <[length pre := b']> l). f_equal.
      rewrite <- !app_assoc. cbn [app]. rewrite insert_app_r_alt by lia. rewrite Nat.sub_diag. reflexivity. }
    assert (length (pre ++ b' :: post) = length payload) as Hl by (subst payload; rewrite !length_app; reflexivity).
    rewrite unframe_spec; rewrite ?Hl; try assumption.
    + do 2 f_equal. apply Z.eqb_neq. subst payload. apply checksum_detects. congruence.
    + subst payload. apply Forall_app in HF as [HF1 HF2]. inversion HF2; subst.
      apply Forall_app. split; [assumption | constructor; assumption].
Qed.

Lemma frame_unframe_roundtrip_witness :
  (let '(n, f) := gdbstub_frame (lit "S05") 300 in
   f = lit "$S05#b8" /\ n = Z.of_nat (length f) /\
   gdbstub_unframe f 256 = (3, lit "S05", true) /\
   gdbstub_unframe (<[2%nat := ch "1"]> f) 256 = (3, lit "S15", false)) /\
  gdbstub_frame [] 300 = (4, lit "$#00") /\ gdbstub_unframe (lit "$#00") 256 = (0, [], true).
Proof.
  split.
  - split; [vm_compute; reflexivity|].
    destruct (frame_unframe_roundtrip (lit "S05") 300 256 ltac:(repeat constructor; discriminate) ltac:(cbn; lia) ltac:(cbn; lia))
      as (H1 & H2 & H3).
    split; [exact H1|]. split; [exact H2|].
    apply (H3 (lit "S") (ch "0") (lit "5") (ch "1")); [reflexivity | discriminate | discriminate].
  - split; [vm_compute; reflexivity|].
    destruct (frame_unframe_roundtrip [] 300 256 ltac:(constructor) ltac:(cbn; lia) ltac:(cbn; lia)) as (_ & H & _). exact H.
Defined.

(** ** A session over a scripted line *)

(** The bytes still to come from the host, those sent to it, the target. *)
Record line (W : Type) := { incoming : list byte; outgoing : list byte; target : W }.
Arguments incoming {W}. Arguments outgoing {W}. Arguments target {W}.

Section session.
Context {W : Type}.

Definition line_get (s : line W) : Z * line W :=
  match incoming s with
  | [] => (-1, s)
  | b :: l => (byte.unsigned b, {| incoming := l; outgoing := outgoing s; target := target s |})
  end.
Definition line_put (s : line W) (b : byte) : Z * line W :=
  (0, {| incoming := incoming s; outgoing := outgoing s ++ [b]; target := target s |}).
Definition line_ops : gdb_serial_ops_t (line W) := {| get_byte := & line_get; put_byte := & line_put |}.
Definition line_serve (ops : gdbstub_ops_t W) (s : line W) (frame : list byte) (cap : Z)
  : Z * list byte * line W :=
  let '(n, out, w) := gdbstub_serve ops (target s) frame cap in
  (n, out, {| incoming := incoming s; outgoing := outgoing s; target := w |}).

(** Bytes between packets: neither a packet start nor an interrupt. *)
Definition noise (b : byte) : Prop := b <> ch "$" /\ byte.unsigned b <> 3.

Lemma skip_noise ns rest out (w : W) fuel :
  Forall noise ns -> (length ns < fuel)%nat ->
  skip_to_packet line_get {| incoming := ns ++ ch "$" :: rest; outgoing := out; target := w |} fuel
  = Some (GDB_SERIAL_OK, {| incoming := rest; outgoing := out; target := w |}).
Proof.
  intros HF. revert fuel; induction HF as [|b ns [Hb1 Hb2] _ IH]; intros fuel Hf;
    (destruct fuel as [|fuel]; [cbn in Hf; lia|]); [reflexivity|].
  cbn [app skip_to_packet line_get incoming outgoing target]. pose proof (byte.unsigned_range b).
  rewrite (proj2 (Z.ltb_ge _ _)) by lia. rewrite (proj2 (Z.eqb_neq _ _) Hb2).
  assert (byte.unsigned b <> byte.unsigned (ch "$")) as Hd by (intros Heq; apply Hb1, unsigned_inj, Heq).
  rewrite (proj2 (Z.eqb_neq _ _) Hd). apply IH. cbn in Hf. lia.
Qed.

Lemma read_payload_frame payload rest out (w : W) buf cap fuel :
  Forall (fun b => b <> ch "#") payload -> Z.of_nat (length buf + length payload) + 3 < cap ->
  (length payload < fuel)%nat ->
  read_payload line_get {| incoming := payload ++ ch "#" :: rest; outgoing := out; target := w |} buf cap fuel
  = Some (GDB_SERIAL_OK, buf ++ payload ++ [ch "#"], {| incoming := rest; outgoing := out; target := w |}).
Proof.
  intros HF. revert buf fuel; induction HF as [|b payload Hb _ IH]; intros buf fuel Hc Hf;
    (destruct fuel as [|fuel]; [cbn in Hf; lia|]); cbn [app read_payload line_get incoming outgoing target].
  - cbn [length] in Hc. change (byte.unsigned (ch "#") <? 0) with false.
    rewrite (proj2 (Z.leb_gt _ _)) by lia. reflexivity.
  - cbn [length] in Hc, Hf. pose proof (byte.unsigned_range b). rewrite (proj2 (Z.ltb_ge _ _)) by lia.
    rewrite (proj2 (Z.leb_gt _ _)) by lia. rewrite byte.of_Z_unsigned.
    assert (byte.unsigned b <> byte.unsigned (ch "#")) as Hd by (intros Heq; apply Hb, unsigned_inj, Heq).
    rewrite (proj2 (Z.eqb_neq _ _) Hd). rewrite IH by (rewrite ?length_app; cbn [length]; lia).
    rewrite <- app_assoc. reflexivity.
Qed.

Lemma put_all_line frame inc out (w : W) :
  put_all line_put {| incoming := inc; outgoing := out; target := w |} frame
  = (GDB_SERIAL_OK, {| incoming := inc; outgoing := out ++ frame; target := w |}).
Proof.
  revert out; induction frame as [|b frame IH]; intros out; cbn [put_all]; [rewrite app_nil_r; reflexivity|].
  cbn [line_put incoming outgoing target negb Z.eqb]. rewrite IH, <- app_assoc. reflexivity.
Qed.

(** [naks] bytes that are not ['+'], then the ack. *)
Lemma send_naks naks rest out (w : W) frame n :
  Forall (fun b => b <> ch "+") naks -> (length naks < n)%nat ->
  send_attempts line_get line_put {| incoming := naks ++ ch "+" :: rest; outgoing := out; target := w |} frame n
  = (GDB_SERIAL_OK, {| incoming := rest; outgoing := out ++ mjoin (replicate (S (length naks)) frame); target := w |}).
Proof.
  intros HF. revert out n; induction HF as [|b naks Hb _ IH]; intros out n Hn;
    (destruct n as [|n]; [cbn in Hn; lia|]); cbn [app send_attempts]; rewrite put_all_line;
    cbn [negb Z.eqb GDB_SERIAL_OK line_get incoming outgoing target].
  - change (byte.unsigned (ch "+") <? 0) with false. rewrite Z.eqb_refl.
    cbn [length replicate]. change (mjoin [frame]) with (frame ++ []). rewrite app_nil_r. reflexivity.
  - cbn [length] in Hn. pose proof (byte.unsigned_range b). rewrite (proj2 (Z.ltb_ge _ _)) by lia.
    assert (byte.unsigned b <> byte.unsigned (ch "+")) as Hd by (intros Heq; apply Hb, unsigned_inj, Heq).
    rewrite (proj2 (Z.eqb_neq _ _) Hd). rewrite IH by lia.
    rewrite <- app_assoc. reflexivity.
Qed.

Lemma read_packet_line ns payload c rest out (w : W) fuel :
  Forall noise ns -> Forall (fun b => b <> ch "#") payload -> Z.of_nat (length payload) <= 256 ->
  0 <= c < 256 -> (length ns + length payload < fuel)%nat ->
  gdb_serial_read_packet (& line_ops)
    {| incoming := ns ++ frame_of payload c ++ rest; outgoing := out; target := w |} true 300 fuel
  = Some (Z.of_nat (length payload) + 4, frame_of payload c, {| incoming := rest; outgoing := out; target := w |}).
Proof.
  intros Hns HF Hl Hc Hf. unfold gdb_serial_read_packet, line_ops. cbn [negb orb].
  change (300 <? 4) with false. unfold frame_of. rewrite <- app_comm_cons.
  rewrite skip_noise by first [assumption | lia]. cbn [negb Z.eqb GDB_SERIAL_OK].
  rewrite <- app_assoc. cbn [app].
  rewrite read_payload_frame by first [assumption | cbn [length]; lia].
  cbn [negb Z.eqb GDB_SERIAL_OK line_get incoming outgoing target].
  pose proof (byte.unsigned_range (hex_digit (Z.land (Z.shiftr c 4) 15))).
  pose proof (byte.unsigned_range (hex_digit (Z.land c 15))).
  rewrite !(proj2 (Z.ltb_ge _ _)) by lia. cbn [orb]. rewrite !byte.of_Z_unsigned.
  rewrite <- !app_assoc. cbn [app length]. rewrite length_app. cbn [length]. do 3 f_equal. lia.
Qed.
End session.

(** The reply [gdbstub_handle] makes to a payload, and what it does. *)
Definition reply_of {W} (ops : gdbstub_ops_t W) (w : W) (payload : list byte) : list byte * W :=
  let '(_, resp, w) := gdbstub_handle (& ops) w payload 256 in (resp, w).

Lemma handle_fits {W} (ops : gdbstub_ops_t W) (w : W) payload :
  (gdbstub_handle (& ops) w payload 256).1.1 = Z.of_nat (length (reply_of ops w payload).1) /\
  Z.of_nat (length (reply_of ops w payload).1) <= 60.
Proof.
  unfold reply_of, gdbstub_handle.
  destruct (has_prefix payload "qSupported"); [vm_compute; split; [reflexivity | discriminate]|].
  destruct (eq_lit payload "?"); [vm_compute; split; [reflexivity | discriminate]|].
  destruct (eq_lit payload "bs"); [vm_compute; split; [reflexivity | discriminate]|].
  destruct (eq_lit payload "bc"); vm_compute; (split; [reflexivity | discriminate]).
Qed.

Lemma serve_ok {W} (ops : gdbstub_ops_t W) (w : W) payload :
  Forall (fun b => b <> ch "#") payload -> Z.of_nat (length payload) <= 256 ->
  gdbstub_serve ops w (frame_of payload (gdbstub_checksum payload)) 300 =
  let '(resp, w') := reply_of ops w payload in
  (Z.of_nat (length (frame_of resp (gdbstub_checksum resp))), frame_of resp (gdbstub_checksum resp), w').
Proof.
  intros HF Hl. unfold gdbstub_serve. rewrite unframe_spec by (assumption || apply checksum_range).
  rewrite Z.eqb_refl, (proj2 (Z.ltb_ge _ _)) by lia. cbn [orb negb].
  destruct (handle_fits ops w payload) as [H1 H2]. unfold reply_of in *.
  destruct (gdbstub_handle (& ops) w payload 256) as [[rlen resp] w']. cbn [fst] in *. subst rlen.
  rewrite (proj2 (Z.ltb_ge _ _)) by lia. rewrite frame_spec by lia. reflexivity.
Qed.

(** One request over the serial line.  After any noise between packets, a
    well-formed packet is acknowledged with ['+'], dispatched exactly once to
    the target, and its framed reply is sent; up to three negative
    acknowledgements each cause a retransmission of that same reply, without
    executing the request again. *)
Theorem serve_once_session {W} (ops : gdbstub_ops_t W) (ns payload naks rest out : list byte) (w : W) (fuel : nat) :
  Forall noise ns -> Forall (fun b => b <> ch "#") payload -> Z.of_nat (length payload) <= 256 ->
  Forall (fun b => b <> ch "+") naks -> (length naks <= 3)%nat -> (length ns + length payload < fuel)%nat ->
  gdb_serial_serve_once (& line_ops)
    {| incoming := ns ++ frame_of payload (gdbstub_checksum payload) ++ naks ++ ch "+" :: rest;
       outgoing := out; target := w |} (& (line_serve ops)) fuel
  = let '(resp, w') := reply_of ops w payload in
    Some (GDB_SERIAL_OK,
      {| incoming := rest;
         outgoing := (out ++ [ch "+"]) ++
                       mjoin (replicate (S (length naks)) (frame_of resp (gdbstub_checksum resp)));
         target := w' |}).
Proof.
  intros Hns HF Hl Hnk Hn Hf. unfold gdb_serial_serve_once.
  rewrite read_packet_line by (assumption || apply checksum_range).
  rewrite !(proj2 (Z.eqb_neq _ _)) by (unfold GDB_SERIAL_CLOSED, GDB_SERIAL_INTERRUPT; lia).
  rewrite (proj2 (Z.ltb_ge _ _)) by lia. cbn [line_ops put_byte line_put negb Z.eqb incoming outgoing target].
  unfold line_serve. cbn [incoming outgoing target]. rewrite serve_ok by assumption.
  destruct (reply_of ops w payload) as [resp w']. rewrite (proj2 (Z.ltb_ge _ _)) by lia.
  unfold gdb_serial_send_packet. cbn [line_ops]. rewrite send_naks by (assumption || lia). reflexivity.
Qed.

Definition example_gdb_ops : gdbstub_ops_t Z :=
  {| reverse_step := & (fun w => (0, w - 1)); reverse_continue := NULL |}.

(** A stray ack, "bs", one NAK: the target steps once, the reply goes twice. *)
Lemma serve_once_session_witness :
  gdb_serial_serve_once (& line_ops)
    {| incoming := lit "+" ++ frame_of (lit "bs") (gdbstub_checksum (lit "bs")) ++ lit "-" ++ ch "+" :: lit "$?#3f";
       outgoing := []; target := 10 |} (& (line_serve example_gdb_ops)) 9
  = Some (GDB_SERIAL_OK, {| incoming := lit "$?#3f"; outgoing := lit "+$S05#b8$S05#b8"; target := 9 |}).
Proof.
  rewrite (serve_once_session example_gdb_ops (lit "+") (lit "bs") (lit "-") (lit "$?#3f") [] 10 9);
    first [reflexivity | cbn; lia | repeat constructor; discriminate].
Defined.

(** A packet whose checksum does not match is acknowledged with ['+'] all
    the same, before the checksum is looked at, is not executed, gets no reply,
    and ends the session with an error. *)
Theorem bad_checksum_acked {W} (ops : gdbstub_ops_t W) (ns payload rest out : list byte) (c : Z) (w : W) (fuel : nat) :
  Forall noise ns -> Forall (fun b => b <> ch "#") payload -> Z.of_nat (length payload) <= 256 ->
  0 <= c < 256 -> c <> gdbstub_checksum payload -> (length ns + length payload < fuel)%nat ->
  gdb_serial_serve_once (& line_ops)
    {| incoming := ns ++ frame_of payload c ++ rest; outgoing := out; target := w |} (& (line_serve ops)) fuel
  = Some (GDB_SERIAL_ERR, {| incoming := rest; outgoing := out ++ [ch "+"]; target := w |}).
Proof.
  intros Hns HF Hl Hc Hbad Hf. unfold gdb_serial_serve_once. rewrite read_packet_line by assumption.
  rewrite !(proj2 (Z.eqb_neq _ _)) by (unfold GDB_SERIAL_CLOSED, GDB_SERIAL_INTERRUPT; lia).
  rewrite (proj2 (Z.ltb_ge _ _)) by lia. cbn [line_ops put_byte line_put negb Z.eqb incoming outgoing target].
  unfold line_serve, gdbstub_serve. rewrite unframe_spec by assumption.
  rewrite (proj2 (Z.eqb_neq _ _) Hbad), orb_true_r. reflexivity.
Qed.

Lemma bad_checksum_acked_witness :
  gdb_serial_serve_once (& line_ops)
    {| incoming := [] ++ frame_of (lit "bs") 1 ++ lit "+"; outgoing := []; target := 10 |}
    (& (line_serve example_gdb_ops)) 9
  = Some (GDB_SERIAL_ERR, {| incoming := lit "+"; outgoing := [] ++ [ch "+"]; target := 10 |}).
Proof.
  apply (bad_checksum_acked example_gdb_ops [] (lit "bs") (lit "+") [] 1 10 9);
    first [cbn; lia | vm_compute; discriminate | repeat constructor; discriminate].
Defined.
