(* ===== verification/Mcp.v ===== *)
(** * The MCP time-travel tools (kernel/mcp.c, kernel/mcp_server.c,
    kernel/mcp_sync.c)

    JSON-RPC requests are scanned for the fields of the known tool schema and
    dispatched to the time-travel operations, functions over the world [W].
    A request is the list of its bytes; a string builder is the bytes written
    so far. *)
From Stdlib Require Import ZArith Lia String Ascii.
From Stdlib Require Import Strings.Byte.
From S2P Require Import Prelude.
From S2P Require Import KeyframeRing.
From S2P Require Import Rewind.
From S2P Require Import GdbStub.
Open Scope Z_scope.
Open Scope c_scope.

(** A literal of the source, written here with single for double quotes. *)
Definition quote : byte := Byte.x22.
Definition jlit (s : string) : list byte :=
  (fun b => if b ==b Byte.x27 then quote else b) <$> lit s.

(** ** The string builder *)
Record sb_t := { sb_buf : list byte; sb_cap : Z; sb_ovf : bool }.

Definition sb_init (cap : Z) : sb_t := {| sb_buf := []; sb_cap := cap; sb_ovf := false |}.

Definition sb_putc (s : sb_t) (c : byte) : sb_t :=
  if Z.of_nat (length (sb_buf s)) <? sb_cap s
  then {| sb_buf := sb_buf s ++ [c]; sb_cap := sb_cap s; sb_ovf := sb_ovf s |}
  else {| sb_buf := sb_buf s; sb_cap := sb_cap s; sb_ovf := true |}.

Definition sb_put (s : sb_t) (str : list byte) : sb_t := foldl sb_putc s str.

Definition digit (v : Z) : byte := byte.of_Z (byte.unsigned (ch "0") + v).

(** [tmp], least significant digit first; twenty digits hold any uint64_t. *)
Fixpoint digits_rev (n : nat) (v : Z) : list byte :=
  match n with
  | O => []
  | S n => if v =? 0 then [] else digit (v mod 10) :: digits_rev n (v / 10)
  end.

Definition sb_put_u64 (s : sb_t) (v : Z) : sb_t :=
  if v =? 0 then sb_putc s (ch "0") else foldl sb_putc s (rev (digits_rev 20 v)).

(** ** The JSON scanners *)

(** The index just past the closing quote of ["key"], in the suffix [json] that
    starts at index [i]. *)
Fixpoint find_key (json : list byte) (key : list byte) (i : Z) : option Z :=
  match json with
  | [] => None
  | b :: rest =>
      if Z.of_nat (length key) + 2 <=? Z.of_nat (length json) then
        if bytes_eq (take (length key + 2) json) (quote :: key ++ [quote])
        then Some (i + Z.of_nat (length key) + 2)
        else find_key rest key (i + 1)
      else None
  end.

(** What is left of the request after spaces, tabs and colons. *)
Fixpoint skip_colon (json : list byte) : list byte :=
  match json with
  | b :: rest => if (b ==b ch " ") || (b ==b ch ":") || (b ==b Byte.x09) then skip_colon rest else json
  | [] => []
  end.

Definition is_digit (b : byte) : bool :=
  (byte.unsigned (ch "0") <=? byte.unsigned b) && (byte.unsigned b <=? byte.unsigned (ch "9")).

Fixpoint scan_digits (json : list byte) (v : Z) : Z :=
  match json with
  | b :: rest =>
      if is_digit b then scan_digits rest (u64 (v * 10 + (byte.unsigned b - byte.unsigned (ch "0")))) else v
  | [] => v
  end.

(** [true] with [*out] filled is [Some]. *)
Definition mcp_json_int (json : list byte) (key : string) : option Z :=
  match find_key json (lit key) 0 with
  | None => None
  | Some k =>
      let l := skip_colon (drop (Z.to_nat k) json) in
      match l with
      | b :: _ => if is_digit b then Some (scan_digits l 0) else None
      | [] => None
      end
  end.

(** The characters up to the closing quote; past [outcap - 1] they are dropped. *)
Fixpoint scan_string (json : list byte) (out : list byte) (outcap : Z) : list byte :=
  match json with
  | b :: rest =>
      if b ==b quote then out
      else scan_string rest (if Z.of_nat (length out) + 1 <? outcap then out ++ [b] else out) outcap
  | [] => out
  end.

(** The bytes before the NUL written at [out[o]]. *)
Definition mcp_json_str (json : list byte) (key : string) (outcap : Z) : option (list byte) :=
  match find_key json (lit key) 0 with
  | None => None
  | Some k =>
      match skip_colon (drop (Z.to_nat k) json) with
      | b :: l => if b ==b quote then Some (scan_string l [] outcap) else None
      | [] => None
      end
  end.

(** The C string in a buffer, and its comparison with a literal: [str_eq] on
    the literal's length together with equal lengths. *)
Fixpoint cstr (l : list byte) : list byte :=
  match l with b :: rest => if b ==b Byte.x00 then [] else b :: cstr rest | [] => [] end.
Definition name_is (buf : list byte) (s : string) : bool := bytes_eq (cstr buf) (lit s).

(** ** Responses *)
Definition begin_text_result (s : sb_t) (id : Z) : sb_t :=
  let s := sb_put s (jlit "{'jsonrpc':'2.0','id':") in
  let s := sb_put_u64 s id in
  sb_put s (jlit ",'result':{'content':[{'type':'text','text':'").

Definition end_text_result (s : sb_t) (is_error : bool) : sb_t :=
  let s := sb_put s (jlit "'}]") in
  let s := if is_error then sb_put s (jlit ",'isError':true") else s in
  sb_put s (jlit "}}").

Definition finish (s : sb_t) : Z := if sb_ovf s then -1 else Z.of_nat (length (sb_buf s)).

(** The operations: each returns 0 on success; positions are outputs. *)
Record mcp_ops_t (W : Type) := {
  list_checkpoints : ptr (W -> Z * Z * Z * Z * W);
  rewind_to : ptr (W -> Z -> Z -> Z * W);
  reverse_step : ptr (W -> Z * Z * Z * W);
  watch_last_write : ptr (W -> Z * Z * Z * W) }.
Arguments list_checkpoints {W}. Arguments rewind_to {W}.
Arguments reverse_step {W}. Arguments watch_last_write {W}.

Definition tools_list_response (s : sb_t) (id : Z) : sb_t :=
  let s := sb_put s (jlit "{'jsonrpc':'2.0','id':") in
  let s := sb_put_u64 s id in
  let s := sb_put s (jlit ",'result':{'tools':[") in
  let s := sb_put s (jlit "{'name':'list_checkpoints','description':'Retained keyframe window (rewind horizon).'},") in
  let s := sb_put s (jlit "{'name':'rewind_to','description':'Restore the nearest keyframe and replay to (epoch, offset).'},") in
  let s := sb_put s (jlit "{'name':'reverse_step','description':'Step one unit backward through recorded history.'},") in
  let s := sb_put s (jlit "{'name':'watch_last_write','description':'Find where a watched value last changed.'}") in
  sb_put s (jlit "]}}").

Definition error_result (s : sb_t) (id : Z) (msg : string) : sb_t :=
  end_text_result (sb_put (begin_text_result s id) (lit msg)) true.

(** ["<what> epoch=<e> offset=<o>"] as a text result. *)
Definition position_result (s : sb_t) (id : Z) (what : string) (e o : Z) : sb_t :=
  let s := sb_put (begin_text_result s id) (lit what) in
  let s := sb_put_u64 s e in
  let s := sb_put s (lit " offset=") in
  end_text_result (sb_put_u64 s o) false.

Section dispatch.
Context {W : Type}.
Implicit Types (ops : ptr (mcp_ops_t W)) (w : W) (s : sb_t).

Definition call_list ops w s (id : Z) : sb_t * W :=
  let '(rc, oldest, newest, count, w) :=
    match ops with
    | Some {| list_checkpoints := Some f |} => f w
    | _ => (-1, 0, 0, 0, w)
    end in
  if rc =? 0 then
    let s := sb_put (begin_text_result s id) (lit "checkpoints: count=") in
    let s := sb_put_u64 s count in
    let s := sb_put s (lit " oldest=") in
    let s := sb_put_u64 s oldest in
    let s := sb_put s (lit " newest=") in
    (end_text_result (sb_put_u64 s newest) false, w)
  else (error_result s id "no checkpoints", w).

Definition call_rewind ops w s (id : Z) (request : list byte) : sb_t * W :=
  let epoch := mcp_json_int request "epoch" in
  let offset := default 0 (mcp_json_int request "offset") in
  let '(rc, w) :=
    match epoch, ops with
    | Some e, Some {| rewind_to := Some f |} => f w e offset
    | _, _ => (-1, w)
    end in
  if rc =? 0 then (position_result s id "rewound to epoch=" (default 0 epoch) offset, w)
  else (error_result s id "rewind out of range", w).

Definition call_step ops w s (id : Z) : sb_t * W :=
  let '(rc, e, o, w) :=
    match ops with Some {| reverse_step := Some f |} => f w | _ => (-1, 0, 0, w) end in
  if rc =? 0 then (position_result s id "stepped back to epoch=" e o, w)
  else (error_result s id "at start of history", w).

Definition call_watch ops w s (id : Z) : sb_t * W :=
  let '(rc, e, o, w) :=
    match ops with Some {| watch_last_write := Some f |} => f w | _ => (-1, 0, 0, w) end in
  if rc =? 0 then (position_result s id "last write at epoch=" e o, w)
  else (error_result s id "no write within the retained window", w).

Definition call_tool ops w s (id : Z) (request : list byte) : sb_t * W :=
  match mcp_json_str request "name" 32 with
  | None => (error_result s id "missing tool name", w)
  | Some name =>
      if name_is name "list_checkpoints" then call_list ops w s id
      else if name_is name "rewind_to" then call_rewind ops w s id request
      else if name_is name "reverse_step" then call_step ops w s id
      else if name_is name "watch_last_write" then call_watch ops w s id
      else (error_result s id "unknown tool", w)
  end.

(** The response length or -1, and the response. *)
Definition mcp_handle ops w (request : list byte) (outcap : Z) : Z * list byte * W :=
  let id := default 0 (mcp_json_int request "id") in
  match mcp_json_str request "method" 32 with
  | None => (-1, [], w)
  | Some method =>
      let s := sb_init outcap in
      let '(s, w) :=
        if name_is method "tools/list" then (tools_list_response s id, w)
        else if name_is method "tools/call" then call_tool ops w s id request
        else
          let s := sb_put s (jlit "{'jsonrpc':'2.0','id':") in
          let s := sb_put_u64 s id in
          (sb_put s (jlit ",'error':{'code':-32601,'message':'method not found'}}"), w) in
      (finish s, sb_buf s, w)
  end.
End dispatch.

(** ** The newline-delimited server loop (kernel/mcp_server.c) *)
Definition MCP_SERVER_OK : Z := 0.
Definition MCP_SERVER_CLOSED : Z := -1.
Definition MCP_SERVER_ERR : Z := -2.

(** The transport is that of the serial stub: [get_byte] and [put_byte]. *)
Section server.
Context {W : Type}.
Implicit Types (w : W).

(** [for (;;)] of the reader; [buf] holds the [n] bytes so far. *)
Fixpoint line_loop (get : W -> Z * W) w (buf : list byte) (cap : Z) (fuel : nat)
  : option (Z * list byte * W) :=
  match fuel with
  | O => None
  | S fuel =>
      let '(c, w) := get w in
      if c <? 0 then Some (MCP_SERVER_CLOSED, buf, w)
      else if c =? 10 then
        match buf with
        | [] => line_loop get w [] cap fuel
        | _ =>
            let buf := if List.last buf Byte.x00 ==b Byte.x0d then List.removelast buf else buf in
            match buf with
            | [] => line_loop get w [] cap fuel
            | _ => Some (Z.of_nat (length buf), buf, w)
            end
        end
      else if cap <=? Z.of_nat (length buf) + 1 then Some (MCP_SERVER_ERR, buf, w)
      else line_loop get w (buf ++ [byte.of_Z c]) cap fuel
  end.

Definition mcp_server_read_line (t : ptr (gdb_serial_ops_t W)) w (buf : bool) (cap : Z) (fuel : nat)
  : option (Z * list byte * W) :=
  match t with
  | Some {| get_byte := Some get |} =>
      if negb buf || (cap <? 2) then Some (MCP_SERVER_ERR, [], w) else line_loop get w [] cap fuel
  | _ => Some (MCP_SERVER_ERR, [], w)
  end.

Fixpoint put_response (put : W -> byte -> Z * W) w (resp : list byte) : Z * W :=
  match resp with
  | [] => (MCP_SERVER_OK, w)
  | b :: resp =>
      let '(rc, w) := put w b in
      if negb (rc =? 0) then (MCP_SERVER_ERR, w) else put_response put w resp
  end.

Definition mcp_server_serve_once (t : ptr (gdb_serial_ops_t W)) w
    (handle : ptr (W -> list byte -> Z -> Z * list byte * W)) (fuel : nat) : option (Z * W) :=
  match t, handle with
  | Some o, Some handle =>
      match mcp_server_read_line t w true 1024 fuel with
      | None => None
      | Some (rlen, req, w) =>
          if rlen =? MCP_SERVER_CLOSED then Some (MCP_SERVER_CLOSED, w)
          else if rlen <? 0 then Some (MCP_SERVER_ERR, w)
          else
            let '(n, resp, w) := handle w req 1024 in
            if n <? 0 then Some (MCP_SERVER_ERR, w)
            else
              match put_byte o with
              | NULL => Some (MCP_SERVER_ERR, w)
              | Some put =>
                  let '(rc, w) := put_response put w (take (Z.to_nat n) resp) in
                  if negb (rc =? MCP_SERVER_OK) then Some (rc, w)
                  else
                    let '(rc, w) := put w Byte.x0a in
                    Some ((if negb (rc =? 0) then MCP_SERVER_ERR else MCP_SERVER_OK), w)
              end
      end
  | _, _ => Some (MCP_SERVER_ERR, w)
  end.

Fixpoint mcp_server_loop (t : ptr (gdb_serial_ops_t W)) w
    (handle : ptr (W -> list byte -> Z -> Z * list byte * W)) (fuel : nat) : option (Z * W) :=
  match fuel with
  | O => None
  | S n =>
      match mcp_server_serve_once t w handle fuel with
      | None => None
      | Some (rc, w) => if rc =? MCP_SERVER_OK then mcp_server_loop t w handle n else Some (rc, w)
      end
  end.
End server.

(** ** The kernel's operations (kernel/mcp_sync.c) *)
(** The result and [*oldest], [*newest], [*count]. *)
Definition op_list (g_ring : ptr keyframe_ring_t) : Z * Z * Z * Z :=
  match g_ring with
  | NULL => (-1, 0, 0, 0)
  | Some _ =>
      match keyframe_ring_oldest g_ring with
      | None => (-1, 0, 0, 0)
      | Some oldest => (0, oldest, default 0 (keyframe_ring_newest g_ring), keyframe_ring_count g_ring)
      end
  end.
