(* ===== verification/McpSpec.v ===== *)
(** * An MCP answer is complete or refused, and names its request *)
From Stdlib Require Import ZArith Lia String Ascii.
From Stdlib Require Import Strings.Byte.
From S2P Require Import Prelude.
From S2P Require Import GdbStub.
From S2P Require Import GdbStubSpec.
From S2P Require Import Mcp.
Open Scope Z_scope.
Open Scope c_scope.

(** ** Decimal numbers *)
Definition dec (v : Z) : list byte := if v =? 0 then [ch "0"] else rev (digits_rev 20 v).

Lemma digit_unsigned v : 0 <= v < 10 -> byte.unsigned (digit v) = 48 + v.
Proof. intros H. assert (v ∈ seqZ 0 10) as Hin by (apply elem_of_seqZ; lia).
  assert (forallb (fun v => byte.unsigned (digit v) =? 48 + v) (seqZ 0 10) = true) as HF by (vm_compute; reflexivity).
  rewrite forallb_forall in HF. apply Z.eqb_eq, HF, list_elem_of_In, Hin.
Qed.

Lemma digit_is_digit v : 0 <= v < 10 -> is_digit (digit v) = true.
Proof. intros H. unfold is_digit. rewrite digit_unsigned by exact H. change (byte.unsigned (ch "0")) with 48.
  change (byte.unsigned (ch "9")) with 57. apply andb_true_intro. split; apply Z.leb_le; lia. Qed.

(** Reading the digits of [v] back, most significant first. *)
Lemma scan_digits_rev n v rest :
  0 <= v < 10 ^ Z.of_nat n -> v < 2 ^ 64 ->
  scan_digits (rev (digits_rev n v) ++ rest) 0 = scan_digits rest v.
Proof.
  revert v rest; induction n as [|n IH]; intros v rest Hv H64.
  { change (10 ^ Z.of_nat 0) with 1 in Hv. replace v with 0 by lia. reflexivity. }
  cbn [digits_rev]. destruct (Z.eqb_spec v 0) as [->|Hne]; [reflexivity|].
  pose proof (Z.mod_pos_bound v 10 ltac:(lia)) as Hm. pose proof (Z.div_mod v 10 ltac:(lia)) as Hd.
  cbn [rev]. rewrite <- app_assoc. rewrite IH; [| |nia].
  2:{ rewrite Nat2Z.inj_succ, Z.pow_succ_r in Hv by lia.
      split; [apply Z.div_pos; lia | apply Z.div_lt_upper_bound; lia]. }
  cbn [app scan_digits]. rewrite digit_is_digit, digit_unsigned by exact Hm.
  change (byte.unsigned (ch "0")) with 48. rewrite u64_id by lia. f_equal. lia.
Qed.

Lemma digits_rev_digits n v : 0 <= v -> Forall (fun b => is_digit b = true) (digits_rev n v).
Proof.
  revert v; induction n as [|n IH]; intros v Hv; cbn [digits_rev]; [constructor|].
  destruct (v =? 0); [constructor|]. constructor.
  - apply digit_is_digit. apply Z.mod_pos_bound. lia.
  - apply IH. apply Z.div_pos; lia.
Qed.

Lemma dec_digits v : 0 <= v -> Forall (fun b => is_digit b = true) (dec v).
Proof.
  intros Hv. unfold dec. destruct (v =? 0); [repeat constructor|].
  apply Forall_rev, digits_rev_digits, Hv.
Qed.

Lemma dec_cons v : 0 <= v -> exists d l, dec v = d :: l /\ is_digit d = true.
Proof.
  intros Hv. pose proof (dec_digits v Hv) as HF. destruct (dec v) as [|d l] eqn:E.
  - exfalso. unfold dec in E. destruct (Z.eqb_spec v 0); [discriminate|].
    apply (f_equal (@rev byte)) in E. rewrite rev_involutive in E. cbn [digits_rev] in E.
    destruct (Z.eqb_spec v 0); [lia | discriminate].
  - exists d, l. inversion HF. auto.
Qed.

Lemma scan_dec v rest : 0 <= v < 2 ^ 64 -> scan_digits (dec v ++ rest) 0 = scan_digits rest v.
Proof.
  intros Hv. unfold dec. destruct (Z.eqb_spec v 0) as [->|]; [reflexivity|].
  apply scan_digits_rev; [|lia]. split; [lia|]. apply (Z.lt_trans _ (2 ^ 64)); [lia | reflexivity].
Qed.

Lemma scan_digits_range l v : 0 <= v < 2 ^ 64 -> 0 <= scan_digits l v < 2 ^ 64.
Proof.
  revert v; induction l as [|b l IH]; intros v Hv; cbn [scan_digits]; [exact Hv|].
  destruct (is_digit b); [apply IH, u64_range | exact Hv].
Qed.

(** ** Finding a key *)

(** What follows the first [pat] of a request. *)
Fixpoint after (json pat : list byte) : option (list byte) :=
  match json with
  | [] => None
  | b :: rest =>
      if bytes_eq (take (length pat) json) pat then Some (drop (length pat) json) else after rest pat
  end.

Definition quoted (key : string) : list byte := quote :: lit key ++ [quote].

Lemma bytes_eq_iff a b : bytes_eq a b = true <-> a = b.
Proof.
  revert b; induction a as [|x a IH]; intros [|y b]; cbn; try (split; congruence).
  rewrite andb_true_iff, byte_eqb_eq, IH. split; [intros [-> ->]; reflexivity | intros [= -> ->]; auto].
Qed.

Lemma after_short json pat : (length json < length pat)%nat -> after json pat = None.
Proof.
  induction json as [|b rest IH]; intros H; [reflexivity|]. cbn [after].
  destruct (bytes_eq _ _) eqn:E.
  - apply bytes_eq_iff in E. apply (f_equal length) in E. rewrite length_take in E. lia.
  - apply IH. cbn [length] in H. lia.
Qed.

(** [find_key] finds the first quoted key, wherever it is in the text. *)
Lemma find_key_after json key i :
  match find_key json key i with
  | Some k => i <= k /\ after json (quote :: key ++ [quote]) = Some (drop (Z.to_nat (k - i)) json)
  | None => after json (quote :: key ++ [quote]) = None
  end.
Proof.
  assert (length (quote :: key ++ [quote]) = length key + 2)%nat as Hl
    by (cbn [length]; rewrite length_app; cbn; lia).
  revert i; induction json as [|b rest IH]; intros i; [reflexivity|]. cbn [find_key].
  destruct (Z.leb_spec (Z.of_nat (length key) + 2) (Z.of_nat (length (b :: rest)))) as [Hle|Hgt].
  - cbn [after]. rewrite Hl. destruct (bytes_eq _ _) eqn:E.
    + split; [lia|]. do 2 f_equal. lia.
    + specialize (IH (i + 1)). destruct (find_key rest key (i + 1)) as [k|]; [|exact IH].
      destruct IH as [H1 H2]. split; [lia|]. rewrite H2.
      replace (Z.to_nat (k - i)) with (S (Z.to_nat (k - (i + 1)))) by lia. reflexivity.
  - rewrite after_short; [reflexivity|]. lia.
Qed.

Lemma json_int_after json key :
  mcp_json_int json key =
  match after json (quoted key) with
  | None => None
  | Some l => match skip_colon l with
              | b :: r => if is_digit b then Some (scan_digits (b :: r) 0) else None
              | [] => None
              end
  end.
Proof.
  unfold mcp_json_int, quoted. pose proof (find_key_after json (lit key) 0) as H.
  destruct (find_key json (lit key) 0) as [k|].
  - destruct H as [_ ->]. rewrite Z.sub_0_r. destruct (skip_colon _); reflexivity.
  - rewrite H. reflexivity.
Qed.

Lemma json_str_after json key cap :
  mcp_json_str json key cap =
  match after json (quoted key) with
  | None => None
  | Some l => match skip_colon l with
              | b :: r => if b ==b quote then Some (scan_string r [] cap) else None
              | [] => None
              end
  end.
Proof.
  unfold mcp_json_str, quoted. pose proof (find_key_after json (lit key) 0) as H.
  destruct (find_key json (lit key) 0) as [k|].
  - destruct H as [_ ->]. rewrite Z.sub_0_r. destruct (skip_colon _); reflexivity.
  - rewrite H. reflexivity.
Qed.

(** No occurrence of [pat] starts inside [c], whatever follows. *)
Fixpoint mismatch (s pat : list byte) : bool :=
  match s, pat with
  | x :: s, y :: pat => if x ==b y then mismatch s pat else true
  | _, _ => false
  end.
Fixpoint no_start (c pat : list byte) : bool :=
  match c with [] => true | b :: c' => mismatch c pat && no_start c' pat end.

Lemma mismatch_app s r pat : mismatch s pat = true -> bytes_eq (take (length pat) (s ++ r)) pat = false.
Proof.
  revert pat; induction s as [|x s IH]; intros [|y pat] H; try discriminate. cbn in *.
  destruct (x ==b y); cbn; [apply IH, H | reflexivity].
Qed.

Lemma after_skip c r pat : no_start c pat = true -> after (c ++ r) pat = after r pat.
Proof.
  induction c as [|b c IH]; intros H; [reflexivity|]. cbn [no_start] in H. apply andb_prop in H as [H1 H2].
  rewrite <- app_comm_cons. cbn [after]. rewrite app_comm_cons, (mismatch_app (b :: c) r pat H1).
  apply IH, H2.
Qed.

Lemma after_digits ds r key :
  Forall (fun b => is_digit b = true) ds -> after (ds ++ r) (quoted key) = after r (quoted key).
Proof.
  intros HF. apply after_skip. induction HF as [|b ds Hb _ IH]; [reflexivity|]. cbn [no_start].
  rewrite IH, andb_true_r. unfold quoted. cbn [mismatch].
  destruct (b ==b quote) eqn:E; [|reflexivity]. apply byte_eqb_eq in E. subst b. discriminate.
Qed.

Lemma after_hit key r : after (quoted key ++ r) (quoted key) = Some r.
Proof.
  assert (bytes_eq (take (length (quoted key)) (quoted key ++ r)) (quoted key) = true) as H
    by (rewrite take_app_length; apply bytes_eq_iff; reflexivity).
  unfold quoted in *. cbn [app after] in *. rewrite H. f_equal.
  change (quote :: (lit key ++ [quote]) ++ r) with ((quote :: lit key ++ [quote]) ++ r).
  apply drop_app_length.
Qed.

Lemma skip_colon_digits v r : 0 <= v -> skip_colon (ch ":" :: dec v ++ r) = dec v ++ r.
Proof.
  intros Hv. change (skip_colon (ch ":" :: dec v ++ r)) with (skip_colon (dec v ++ r)).
  destruct (dec_cons v Hv) as (d & l & -> & Hd). cbn [app skip_colon].
  assert ((d ==b ch " ") || (d ==b ch ":") || (d ==b Byte.x09) = false) as ->; [|reflexivity].
  destruct (d ==b ch " ") eqn:E1; [apply byte_eqb_eq in E1; subst; discriminate|].
  destruct (d ==b ch ":") eqn:E2; [apply byte_eqb_eq in E2; subst; discriminate|].
  destruct (d ==b Byte.x09) eqn:E3; [apply byte_eqb_eq in E3; subst; discriminate|]. reflexivity.
Qed.

(** A number written after its key is the number read. *)
Lemma int_after json key v c r :
  after json (quoted key) = Some (ch ":" :: dec v ++ c :: r) -> is_digit c = false -> 0 <= v < 2 ^ 64 ->
  mcp_json_int json key = Some v.
Proof.
  intros H Hc Hv. rewrite json_int_after, H, skip_colon_digits by lia.
  destruct (dec_cons v ltac:(lia)) as (d & l & E & Hd). pose proof (scan_dec v (c :: r) Hv) as Hs.
  rewrite E in *. cbn [app] in *. rewrite Hd, Hs. cbn [scan_digits]. rewrite Hc. reflexivity.
Qed.

(** ** The builder holds the text, or its first [cap] bytes and the flag *)
Record built (cap : Z) (text : list byte) (s : sb_t) : Prop := {
  bt_cap : sb_cap s = cap;
  bt_buf : sb_buf s = take (Z.to_nat cap) text;
  bt_ovf : sb_ovf s = (cap <? Z.of_nat (length text)) }.

Lemma built_init cap : 0 <= cap -> built cap [] (sb_init cap).
Proof. intros H. split; cbn; [reflexivity | destruct (Z.to_nat cap); reflexivity |]. symmetry. apply Z.ltb_ge. lia. Qed.

Lemma built_putc cap text s c : 0 <= cap -> built cap text s -> built cap (text ++ [c]) (sb_putc s c).
Proof.
  intros Hcap [H1 H2 H3]. unfold sb_putc. rewrite H2, H1, length_take.
  destruct (Z.ltb_spec (Z.of_nat (Z.to_nat cap `min` length text)) cap) as [Hlt|Hge]; split; cbn [sb_cap sb_buf sb_ovf].
  - reflexivity.
  - rewrite !take_ge by (rewrite ?length_app; cbn [length]; lia). reflexivity.
  - rewrite H3, length_app. cbn [length]. rewrite !(proj2 (Z.ltb_ge _ _)) by lia. reflexivity.
  - reflexivity.
  - rewrite take_app_le by lia. reflexivity.
  - symmetry. apply Z.ltb_lt. rewrite length_app. cbn [length]. lia.
Qed.

Lemma built_put cap text s l : 0 <= cap -> built cap text s -> built cap (text ++ l) (sb_put s l).
Proof.
  intros Hcap. unfold sb_put. revert text s; induction l as [|c l IH]; intros text s H.
  - rewrite app_nil_r. exact H.
  - cbn [foldl]. rewrite (app_assoc _ [c] l : text ++ c :: l = _). apply IH, built_putc; assumption.
Qed.

Lemma built_u64 cap text s v : 0 <= cap -> built cap text s -> built cap (text ++ dec v) (sb_put_u64 s v).
Proof.
  intros Hcap H. unfold sb_put_u64, dec. destruct (v =? 0); [apply built_putc; assumption|].
  apply (built_put cap text s _ Hcap H).
Qed.

(** ** The response texts *)
Definition envelope (id : Z) : list byte := jlit "{'jsonrpc':'2.0','id':" ++ dec id.
Definition text_result (id : Z) (body : list byte) (is_error : bool) : list byte :=
  envelope id ++ jlit ",'result':{'content':[{'type':'text','text':'" ++ body ++ jlit "'}]" ++
  (if is_error then jlit ",'isError':true" else []) ++ jlit "}}".
Definition position_text (what : string) (e o : Z) : list byte :=
  lit what ++ dec e ++ lit " offset=" ++ dec o.

Ltac build :=
  cbv beta iota zeta;
  repeat first [apply built_u64; [assumption|] | apply built_put; [assumption|]];
  first [eassumption | apply built_init; assumption].

Lemma built_eq cap t t' s : t = t' -> built cap t s -> built cap t' s.
Proof. intros ->. exact id. Qed.

Lemma built_error cap s id msg :
  0 <= cap -> built cap [] s -> built cap (text_result id (lit msg) true) (error_result s id msg).
Proof.
  intros Hc H. unfold error_result, end_text_result, begin_text_result.
  eapply built_eq; [|build]. unfold text_result, envelope. cbn [app]. rewrite <- !app_assoc. reflexivity.
Qed.

Lemma built_position cap s id what e o :
  0 <= cap -> built cap [] s ->
  built cap (text_result id (position_text what e o) false) (position_result s id what e o).
Proof.
  intros Hc H. unfold position_result, end_text_result, begin_text_result.
  eapply built_eq; [|build]. unfold text_result, position_text, envelope. cbn [app].
  rewrite <- !app_assoc. reflexivity.
Qed.

(** What a request is answered with, and the world after it: [None] when the
    request names no method. *)
Section response.
Context {W : Type}.
Implicit Types (ops : ptr (mcp_ops_t W)) (w : W).

(** An operation that is not bound fails. *)
Definition run_list ops w : Z * Z * Z * Z * W :=
  match ops with Some o => match list_checkpoints o with Some f => f w | NULL => (-1, 0, 0, 0, w) end
               | NULL => (-1, 0, 0, 0, w) end.
Definition run_position (f : option (ptr (W -> Z * Z * Z * W))) w : Z * Z * Z * W :=
  match f with Some (Some f) => f w | _ => (-1, 0, 0, w) end.
Definition run_rewind ops w (e : option Z) (o : Z) : Z * W :=
  match e, ops with
  | Some e, Some x => match rewind_to x with Some f => f w e o | NULL => (-1, w) end
  | _, _ => (-1, w)
  end.

Definition list_text (count oldest newest : Z) : list byte :=
  lit "checkpoints: count=" ++ dec count ++ lit " oldest=" ++ dec oldest ++ lit " newest=" ++ dec newest.

(** Success is a plain result, failure an [isError] result. *)
Definition outcome (id rc : Z) (ok : list byte) (bad : string) : list byte :=
  if rc =? 0 then text_result id ok false else text_result id (lit bad) true.

Definition tool_answer ops w (id : Z) (request : list byte) : list byte * W :=
  match mcp_json_str request "name" 32 with
  | None => (text_result id (lit "missing tool name") true, w)
  | Some name =>
      if name_is name "list_checkpoints" then
        let '(rc, oldest, newest, count, w) := run_list ops w in
        (outcome id rc (list_text count oldest newest) "no checkpoints", w)
      else if name_is name "rewind_to" then
        let e := mcp_json_int request "epoch" in
        let o := default 0 (mcp_json_int request "offset") in
        let '(rc, w) := run_rewind ops w e o in
        (outcome id rc (position_text "rewound to epoch=" (default 0 e) o) "rewind out of range", w)
      else if name_is name "reverse_step" then
        let '(rc, e, o, w) := run_position (reverse_step <$> ops) w in
        (outcome id rc (position_text "stepped back to epoch=" e o) "at start of history", w)
      else if name_is name "watch_last_write" then
        let '(rc, e, o, w) := run_position (watch_last_write <$> ops) w in
        (outcome id rc (position_text "last write at epoch=" e o) "no write within the retained window", w)
      else (text_result id (lit "unknown tool") true, w)
  end.

Definition tools_text : list byte :=
  jlit ",'result':{'tools':[" ++
  jlit "{'name':'list_checkpoints','description':'Retained keyframe window (rewind horizon).'}," ++
  jlit "{'name':'rewind_to','description':'Restore the nearest keyframe and replay to (epoch, offset).'}," ++
  jlit "{'name':'reverse_step','description':'Step one unit backward through recorded history.'}," ++
  jlit "{'name':'watch_last_write','description':'Find where a watched value last changed.'}" ++ jlit "]}}".

Definition answer ops w (request : list byte) : option (list byte * W) :=
  let id := default 0 (mcp_json_int request "id") in
  match mcp_json_str request "method" 32 with
  | None => None
  | Some method => Some
      (if name_is method "tools/list" then (envelope id ++ tools_text, w)
       else if name_is method "tools/call" then tool_answer ops w id request
       else (envelope id ++ jlit ",'error':{'code':-32601,'message':'method not found'}}", w))
  end.

Lemma built_outcome cap s id rc ok bad (r : sb_t) :
  0 <= cap -> built cap [] s -> built cap (text_result id ok false) r ->
  built cap (outcome id rc ok bad) (if rc =? 0 then r else error_result s id bad).
Proof. intros. unfold outcome. destruct (rc =? 0); [assumption | apply built_error; assumption]. Qed.

Lemma built_tool ops w cap s id request :
  0 <= cap -> built cap [] s ->
  let '(text, w') := tool_answer ops w id request in
  exists s', call_tool ops w s id request = (s', w') /\ built cap text s'.
Proof.
  intros Hc H. unfold tool_answer, call_tool.
  destruct (mcp_json_str request "name" 32) as [name|]; [|eexists; split; [reflexivity | apply built_error; assumption]].
  destruct (name_is name "list_checkpoints").
  { unfold call_list.
    assert (match ops with Some {| list_checkpoints := Some f |} => f w | _ => (-1, 0, 0, 0, w) end
            = run_list ops w) as -> by (destruct ops as [[[?|] ? ? ?]|]; reflexivity).
    destruct (run_list ops w) as [[[[rc oldest] newest] count] w1].
    unfold outcome. destruct (rc =? 0); [|eexists; split; [reflexivity | apply built_error; assumption]].
    eexists. split; [reflexivity|]. unfold begin_text_result, end_text_result.
    eapply built_eq; [|build]. unfold text_result, list_text, envelope. cbn [app]. rewrite <- !app_assoc. reflexivity. }
  destruct (name_is name "rewind_to").
  { unfold call_rewind. cbv zeta.
    assert (match mcp_json_int request "epoch", ops with
            | Some e, Some {| rewind_to := Some f |} => f w e (default 0 (mcp_json_int request "offset"))
            | _, _ => (-1, w) end
      = run_rewind ops w (mcp_json_int request "epoch") (default 0 (mcp_json_int request "offset"))) as ->
      by (destruct (mcp_json_int request "epoch"), ops as [[? [?|] ? ?]|]; reflexivity).
    destruct (run_rewind _ _ _ _) as [rc w1]. unfold outcome.
    destruct (rc =? 0); eexists; (split; [reflexivity|]); [apply built_position | apply built_error]; assumption. }
  destruct (name_is name "reverse_step").
  { unfold call_step.
    assert (match ops with Some {| reverse_step := Some f |} => f w | _ => (-1, 0, 0, w) end
            = run_position (reverse_step <$> ops) w) as -> by (destruct ops as [[? ? [?|] ?]|]; reflexivity).
    destruct (run_position _ _) as [[[rc e] o] w1]. unfold outcome.
    destruct (rc =? 0); eexists; (split; [reflexivity|]); [apply built_position | apply built_error]; assumption. }
  destruct (name_is name "watch_last_write").
  { unfold call_watch.
    assert (match ops with Some {| watch_last_write := Some f |} => f w | _ => (-1, 0, 0, w) end
            = run_position (watch_last_write <$> ops) w) as -> by (destruct ops as [[? ? ? [?|]]|]; reflexivity).
    destruct (run_position _ _) as [[[rc e] o] w1]. unfold outcome.
    destruct (rc =? 0); eexists; (split; [reflexivity|]); [apply built_position | apply built_error]; assumption. }
  eexists. split; [reflexivity | apply built_error; assumption].
Qed.

Lemma handle_answer ops w request cap :
  0 <= cap ->
  match answer ops w request with
  | None => mcp_handle ops w request cap = (-1, [], w)
  | Some (text, w') =>
      mcp_handle ops w request cap =
      ((if cap <? Z.of_nat (length text) then -1 else Z.of_nat (length text)), take (Z.to_nat cap) text, w')
  end.
Proof.
  intros Hc. unfold answer, mcp_handle. destruct (mcp_json_str request "method" 32) as [method|]; [|reflexivity].
  cbv zeta. set (id := default 0 (mcp_json_int request "id")).
  assert (forall text s w', built cap text s ->
    (finish s, sb_buf s, w') =
    ((if cap <? Z.of_nat (length text) then -1 else Z.of_nat (length text)), take (Z.to_nat cap) text, w')) as Hfin.
  { intros text s w' [_ H2 H3]. unfold finish. rewrite H3, H2. do 2 f_equal.
    destruct (Z.ltb_spec cap (Z.of_nat (length text))); [reflexivity|]. rewrite take_ge by lia. reflexivity. }
  destruct (name_is method "tools/list").
  { apply Hfin. unfold tools_list_response. eapply built_eq; [|build].
    unfold envelope, tools_text. cbn [app]. rewrite <- !app_assoc. reflexivity. }
  destruct (name_is method "tools/call").
  { pose proof (built_tool ops w cap (sb_init cap) id request Hc (built_init cap Hc)) as H.
    destruct (tool_answer ops w id request) as [text w']. destruct H as (s' & -> & Hb). apply Hfin, Hb. }
  apply Hfin. eapply built_eq; [|build]. unfold envelope. cbn [app]. rewrite <- !app_assoc. reflexivity.
Qed.

(** Every answer starts with the envelope of the request's id. *)
Lemma answer_envelope ops w request text w' :
  answer ops w request = Some (text, w') ->
  exists r, text = envelope (default 0 (mcp_json_int request "id")) ++ ch "," :: r.
Proof.
  unfold answer. destruct (mcp_json_str request "method" 32) as [method|]; [|discriminate]. cbv zeta.
  set (id := default 0 (mcp_json_int request "id")).
  assert (forall b e, exists r, text_result id b e = envelope id ++ ch "," :: r) as Ht.
  { intros b e. unfold text_result. eexists. f_equal. }
  intros [= H]. destruct (name_is method "tools/list"); [injection H as <- _; eexists; reflexivity|].
  destruct (name_is method "tools/call"); [|injection H as <- _; eexists; reflexivity].
  unfold tool_answer, outcome in H.
  destruct (mcp_json_str request "name" 32) as [name|]; [|injection H as <- _; apply Ht].
  destruct (name_is name "list_checkpoints").
  { destruct (run_list ops w) as [[[[rc a] b] c] w1]. destruct (rc =? 0); injection H as <- _; apply Ht. }
  destruct (name_is name "rewind_to").
  { destruct (run_rewind _ _ _ _) as [rc w1]. destruct (rc =? 0); injection H as <- _; apply Ht. }
  destruct (name_is name "reverse_step").
  { destruct (run_position _ _) as [[[rc a] b] w1]. destruct (rc =? 0); injection H as <- _; apply Ht. }
  destruct (name_is name "watch_last_write").
  { destruct (run_position _ _) as [[[rc a] b] w1]. destruct (rc =? 0); injection H as <- _; apply Ht. }
  injection H as <- _. apply Ht.
Qed.
End response.

Lemma json_int_range json key : 0 <= default 0 (mcp_json_int json key) < 2 ^ 64.
Proof.
  rewrite json_int_after. destruct (after json (quoted key)) as [l|]; [|cbn; lia].
  destruct (skip_colon l) as [|b r]; [cbn; lia|]. destruct (is_digit b); [|cbn; lia].
  apply scan_digits_range. lia.
Qed.

Lemma envelope_id id c r :
  0 <= id < 2 ^ 64 -> is_digit c = false -> mcp_json_int (envelope id ++ c :: r) "id" = Some id.
Proof.
  intros Hid Hc. apply (int_after _ _ _ c r); try assumption. unfold envelope.
  change (jlit "{'jsonrpc':'2.0','id':") with (jlit "{'jsonrpc':'2.0'," ++ quoted "id" ++ [ch ":"]).
  rewrite <- !app_assoc. rewrite after_skip by (vm_compute; reflexivity). apply after_hit.
Qed.

(** ** A request line through the server *)

(** The [tools/call] request of [rewind_to]. *)
Definition rewind_request (id e o : Z) : list byte :=
  jlit "{'jsonrpc':'2.0'," ++ quoted "id" ++ ch ":" :: dec id ++ ch "," ::
  quoted "method" ++ ch ":" :: quoted "tools/call" ++ ch "," ::
  jlit "'params':{" ++ quoted "name" ++ ch ":" :: quoted "rewind_to" ++ ch "," ::
  jlit "'arguments':{" ++ quoted "epoch" ++ ch ":" :: dec e ++ ch "," ::
  quoted "offset" ++ ch ":" :: dec o ++ ch "}" :: lit "}}".

Ltac skip_chunk := rewrite after_skip by (vm_compute; reflexivity).
(** A quoted word that is not the key. *)
Lemma after_item word r key :
  no_start (quoted word ++ [ch ","]) (quoted key) = true ->
  after (quoted word ++ ch "," :: r) (quoted key) = after r (quoted key).
Proof.
  intros H. replace (quoted word ++ ch "," :: r) with ((quoted word ++ [ch ","]) ++ r)
    by (rewrite <- app_assoc; reflexivity). apply after_skip, H.
Qed.

Lemma after_field word r key :
  no_start (quoted word ++ [ch ":"]) (quoted key) = true ->
  after (quoted word ++ ch ":" :: r) (quoted key) = after r (quoted key).
Proof.
  intros H. replace (quoted word ++ ch ":" :: r) with ((quoted word ++ [ch ":"]) ++ r)
    by (rewrite <- app_assoc; reflexivity). apply after_skip, H.
Qed.

Lemma after_cons c r key : (c ==b quote) = false -> after (c :: r) (quoted key) = after r (quoted key).
Proof. intros H. apply (after_skip [c] r). unfold quoted. cbn. rewrite H. reflexivity. Qed.

Ltac walk :=
  repeat first
    [ rewrite after_hit
    | rewrite after_digits by (apply dec_digits; lia)
    | rewrite after_field by (vm_compute; reflexivity)
    | rewrite after_item by (vm_compute; reflexivity)
    | rewrite after_cons by reflexivity
    | skip_chunk ].

Lemma rewind_request_fields id e o :
  0 <= id < 2 ^ 64 -> 0 <= e < 2 ^ 64 -> 0 <= o < 2 ^ 64 ->
  mcp_json_int (rewind_request id e o) "id" = Some id /\
  mcp_json_int (rewind_request id e o) "epoch" = Some e /\
  mcp_json_int (rewind_request id e o) "offset" = Some o /\
  mcp_json_str (rewind_request id e o) "method" 32 = Some (lit "tools/call") /\
  mcp_json_str (rewind_request id e o) "name" 32 = Some (lit "rewind_to").
Proof.
  intros Hid He Ho. unfold rewind_request. split_and!.
  - eapply int_after; [walk; reflexivity | reflexivity | exact Hid].
  - eapply int_after; [walk; reflexivity | reflexivity | exact He].
  - eapply int_after; [walk; reflexivity | reflexivity | exact Ho].
  - rewrite json_str_after. walk. reflexivity.
  - rewrite json_str_after. walk. reflexivity.
Qed.

Lemma length_dec v : (length (dec v) <= 20)%nat.
Proof.
  unfold dec. destruct (v =? 0); [cbn; lia|]. rewrite length_rev.
  assert (forall n v, (length (digits_rev n v) <= n)%nat) as H.
  { intros n. induction n as [|n IH]; intros x; cbn [digits_rev]; [reflexivity|].
    destruct (x =? 0); cbn [length]; [lia|]. specialize (IH (x / 10)). lia. }
  apply H.
Qed.

Lemma length_rewind_request id e o : (length (rewind_request id e o) <= 400)%nat.
Proof.
  unfold rewind_request. pose proof (length_dec id). pose proof (length_dec e). pose proof (length_dec o).
  repeat (rewrite length_app || cbn [length]).
  repeat match goal with |- context [length (quoted ?k)] =>
    let n := eval vm_compute in (length (quoted k)) in change (length (quoted k)) with n end.
  repeat match goal with |- context [length (jlit ?k)] =>
    let n := eval vm_compute in (length (jlit k)) in change (length (jlit k)) with n end.
  repeat match goal with |- context [length (lit ?k)] =>
    let n := eval vm_compute in (length (lit k)) in change (length (lit k)) with n end.
  lia.
Qed.

Lemma length_outcome id rc e o :
  (length (outcome id rc (position_text "rewound to epoch=" e o) "rewind out of range") <= 400)%nat.
Proof.
  pose proof (length_dec id). pose proof (length_dec e). pose proof (length_dec o).
  unfold outcome, text_result, position_text, envelope. destruct (rc =? 0);
    repeat (rewrite length_app || cbn [length]);
    repeat match goal with |- context [length (jlit ?k)] =>
      let n := eval vm_compute in (length (jlit k)) in change (length (jlit k)) with n end;
    repeat match goal with |- context [length (lit ?k)] =>
      let n := eval vm_compute in (length (lit k)) in change (length (lit k)) with n end; lia.
Qed.

Section served.
Context {W : Type}.

Definition line_handle (ops : mcp_ops_t W) (s : line W) (request : list byte) (cap : Z)
  : Z * list byte * line W :=
  let '(n, out, w) := mcp_handle (& ops) (target s) request cap in
  (n, out, {| incoming := incoming s; outgoing := outgoing s; target := w |}).

Lemma line_loop_read l buf rest out (w : W) cap fuel :
  Forall (fun b => b <> Byte.x0a) l -> Z.of_nat (length buf + length l) < cap -> (length l < fuel)%nat ->
  buf ++ l <> [] -> List.last (buf ++ l) Byte.x00 <> Byte.x0d ->
  line_loop line_get {| incoming := l ++ Byte.x0a :: rest; outgoing := out; target := w |} buf cap fuel
  = Some (Z.of_nat (length (buf ++ l)), buf ++ l, {| incoming := rest; outgoing := out; target := w |}).
Proof.
  intros HF. revert buf fuel; induction HF as [|b l Hb _ IH]; intros buf fuel Hc Hf Hne Hlast;
    (destruct fuel as [|fuel]; [cbn in Hf; lia|]); cbn [app line_loop line_get incoming outgoing target].
  - rewrite app_nil_r in *. change (byte.unsigned Byte.x0a <? 0) with false.
    change (byte.unsigned Byte.x0a =? 10) with true. cbn [andb].
    rewrite (proj2 (byte_eqb_neq _ _) Hlast). destruct buf; [contradiction | reflexivity].
  - cbn [length] in Hc, Hf. pose proof (byte.unsigned_range b). rewrite (proj2 (Z.ltb_ge _ _)) by lia.
    assert (byte.unsigned b <> 10) as Hd by (intros Heq; apply Hb, unsigned_inj; rewrite Heq; reflexivity).
    rewrite (proj2 (Z.eqb_neq _ _) Hd). rewrite (proj2 (Z.leb_gt _ _)) by lia. rewrite byte.of_Z_unsigned.
    rewrite IH.
    + rewrite <- app_assoc. reflexivity.
    + rewrite length_app. cbn [length]. lia.
    + lia.
    + rewrite <- app_assoc. exact Hne.
    + rewrite <- app_assoc. exact Hlast.
Qed.

Lemma put_response_line resp inc out (w : W) :
  put_response line_put {| incoming := inc; outgoing := out; target := w |} resp
  = (MCP_SERVER_OK, {| incoming := inc; outgoing := out ++ resp; target := w |}).
Proof.
  revert out; induction resp as [|b resp IH]; intros out; cbn [put_response]; [rewrite app_nil_r; reflexivity|].
  cbn [line_put incoming outgoing target negb Z.eqb]. rewrite IH, <- app_assoc. reflexivity.
Qed.
End served.

Lemma digit_not_newline b : is_digit b = true -> b <> Byte.x0a.
Proof. intros H ->. discriminate. Qed.

(** All but the closing brace. *)
Definition rewind_prefix (id e o : Z) : list byte :=
  jlit "{'jsonrpc':'2.0'," ++ quoted "id" ++ ch ":" :: dec id ++ ch "," ::
  quoted "method" ++ ch ":" :: quoted "tools/call" ++ ch "," ::
  jlit "'params':{" ++ quoted "name" ++ ch ":" :: quoted "rewind_to" ++ ch "," ::
  jlit "'arguments':{" ++ quoted "epoch" ++ ch ":" :: dec e ++ ch "," ::
  quoted "offset" ++ ch ":" :: dec o ++ ch "}" :: lit "}".

Lemma rewind_request_last id e o : rewind_request id e o = rewind_prefix id e o ++ [ch "}"].
Proof.
  unfold rewind_request, rewind_prefix.
  repeat (rewrite <- app_assoc || rewrite <- app_comm_cons). reflexivity.
Qed.

Lemma rewind_request_line id e o :
  0 <= id -> 0 <= e -> 0 <= o ->
  Forall (fun b => b <> Byte.x0a) (rewind_request id e o) /\
  List.last (rewind_request id e o) Byte.x00 <> Byte.x0d /\ rewind_request id e o <> [].
Proof.
  intros Hid He Ho. split_and!.
  - assert (forall v, 0 <= v -> Forall (fun b => b <> Byte.x0a) (dec v)) as Hd.
    { intros v Hv. eapply Forall_impl; [apply dec_digits, Hv | apply digit_not_newline]. }
    assert (forall l, forallb (fun b => negb (b ==b Byte.x0a)) l = true -> Forall (fun b => b <> Byte.x0a) l) as Hc.
    { intros l H. apply Forall_forall. intros b Hb. rewrite forallb_forall in H.
      specialize (H b (proj1 (list_elem_of_In _ _) Hb)). apply negb_true_iff, byte_eqb_neq in H. exact H. }
    unfold rewind_request.
    repeat first [apply Forall_app_2 | apply Forall_cons_2 | apply Hd; assumption | discriminate
                 | apply Hc; vm_compute; reflexivity].
  - rewrite rewind_request_last, last_last. discriminate.
  - unfold rewind_request. change (jlit "{'jsonrpc':'2.0',") with (ch "{" :: jlit "'jsonrpc':'2.0',"). discriminate.
Qed.

(** ** Properties *)

(** The server never sends a truncated answer.  For every request, set of
    operations and buffer, [mcp_handle] runs the named tool and returns its
    complete JSON-RPC text when that fits the buffer, and -1 exactly when it
    does not fit or the request names no method. *)
Theorem mcp_handle_exact {W} (ops : ptr (mcp_ops_t W)) (w : W) (request : list byte) (cap : Z) :
  0 <= cap ->
  let '(n, out, w') := mcp_handle ops w request cap in
  match answer ops w request with
  | None => n = -1 /\ w' = w
  | Some (text, w1) =>
      w' = w1 /\
      if Z.of_nat (length text) <=? cap then n = Z.of_nat (length text) /\ out = text else n = -1
  end.
Proof.
  intros Hc. pose proof (handle_answer ops w request cap Hc) as H.
  destruct (answer ops w request) as [[text w1]|]; rewrite H; [|split; reflexivity].
  split; [reflexivity|]. rewrite Z.leb_antisym. destruct (Z.ltb_spec cap (Z.of_nat (length text))); cbn [negb].
  - reflexivity.
  - rewrite take_ge by lia. split; reflexivity.
Qed.

Definition example_mcp_ops : mcp_ops_t Z :=
  {| list_checkpoints := NULL; rewind_to := & (fun w e o => ((if e <? 5 then 0 else -1), w + e));
     reverse_step := NULL; watch_last_write := NULL |}.

Lemma mcp_handle_exact_witness :
  (mcp_handle (& example_mcp_ops) 7 (rewind_request 12 3 4) 20).1.1 = -1 /\
  (mcp_handle (& example_mcp_ops) 7 (rewind_request 12 3 4) 200).1.2
    = jlit "{'jsonrpc':'2.0','id':12,'result':{'content':[{'type':'text','text':'rewound to epoch=3 offset=4'}]}}".
Proof.
  pose proof (mcp_handle_exact (& example_mcp_ops) 7 (rewind_request 12 3 4) 20 ltac:(lia)) as H1.
  vm_compute in H1. destruct H1 as [_ H1]. split; vm_compute; reflexivity.
Defined.

(** Every answer that fits names the request it answers: parsing the
    ["id"] of the response gives back the ["id"] parsed from the request (0
    when it has none), for every request and tool. *)
Theorem mcp_id_echo {W} (ops : ptr (mcp_ops_t W)) (w : W) (request : list byte) (cap : Z) :
  0 <= cap ->
  let '(n, out, w') := mcp_handle ops w request cap in
  n <> -1 -> mcp_json_int out "id" = Some (default 0 (mcp_json_int request "id")).
Proof.
  intros Hc. pose proof (handle_answer ops w request cap Hc) as H.
  destruct (answer ops w request) as [[text w1]|] eqn:E; rewrite H; [|contradiction].
  destruct (Z.ltb_spec cap (Z.of_nat (length text))); [contradiction|]. intros _.
  rewrite take_ge by lia. destruct (answer_envelope _ _ _ _ _ E) as [r ->].
  apply envelope_id; [apply json_int_range | reflexivity].
Qed.

Lemma mcp_id_echo_witness :
  mcp_json_int (mcp_handle (& example_mcp_ops) 7 (rewind_request 12 9 4) 200).1.2 "id" = Some 12.
Proof.
  pose proof (mcp_id_echo (& example_mcp_ops) 7 (rewind_request 12 9 4) 200 ltac:(lia)) as H.
  destruct (mcp_handle _ _ _ _) as [[n out] w'] eqn:E. cbn [fst snd].
  rewrite H by (intros ->; apply (f_equal (fun x => x.1.1)) in E; vm_compute in E; discriminate).
  vm_compute. reflexivity.
Defined.

(** C37: a ["tools/call"] line for ["rewind_to"] with any 64-bit id, epoch and
    offset is read from the transport, calls the bound operation exactly once
    with exactly that epoch and offset, and is answered on one line with the
    same id and position (or the out-of-range error), within both 1024-byte
    buffers. *)
Theorem rewind_request_served {W} (ops : mcp_ops_t W) (f : W -> Z -> Z -> Z * W) (id e o : Z) (rest out : list byte)
    (w : W) (fuel : nat) :
  rewind_to ops = & f -> 0 <= id < 2 ^ 64 -> 0 <= e < 2 ^ 64 -> 0 <= o < 2 ^ 64 -> (400 < fuel)%nat ->
  mcp_server_serve_once (& line_ops)
    {| incoming := rewind_request id e o ++ Byte.x0a :: rest; outgoing := out; target := w |}
    (& (line_handle ops)) fuel
  = let '(rc, w') := f w e o in
    Some (MCP_SERVER_OK,
      {| incoming := rest;
         outgoing := (out ++ outcome id rc (position_text "rewound to epoch=" e o) "rewind out of range") ++ [Byte.x0a];
         target := w' |}).
Proof.
  intros Hf Hid He Ho Hfuel. pose proof (length_rewind_request id e o) as Hlen.
  destruct (rewind_request_line id e o ltac:(lia) ltac:(lia) ltac:(lia)) as (HF & Hlast & Hne).
  destruct (rewind_request_fields id e o Hid He Ho) as (F1 & F2 & F3 & F4 & F5).
  unfold mcp_server_serve_once, mcp_server_read_line, line_ops. cbn [negb orb].
  change (1024 <? 2) with false. cbn iota.
  rewrite line_loop_read by first [assumption | cbn [length app]; lia]. cbn [app].
  rewrite (proj2 (Z.eqb_neq _ _)) by (unfold MCP_SERVER_CLOSED; lia). rewrite (proj2 (Z.ltb_ge _ _)) by lia.
  unfold line_handle. cbn [target incoming outgoing].
  pose proof (handle_answer (& ops) w (rewind_request id e o) 1024 ltac:(lia)) as H.
  assert (answer (& ops) w (rewind_request id e o) =
          let '(rc, w') := f w e o in
          Some (outcome id rc (position_text "rewound to epoch=" e o) "rewind out of range", w')) as Ha.
  { unfold answer. rewrite F4, F1. change (name_is (lit "tools/call") "tools/list") with false.
    change (name_is (lit "tools/call") "tools/call") with true. cbn iota.
    unfold tool_answer. rewrite F5. change (name_is (lit "rewind_to") "list_checkpoints") with false.
    change (name_is (lit "rewind_to") "rewind_to") with true. cbn iota. rewrite F2, F3. unfold run_rewind.
    rewrite Hf. cbn [from_option]. unfold Datatypes.id. destruct (f w e o) as [rc w']. reflexivity. }
  rewrite Ha in H. destruct (f w e o) as [rc w']. rewrite H. pose proof (length_outcome id rc e o).
  rewrite (proj2 (Z.ltb_ge 1024 _)) by lia. rewrite (proj2 (Z.ltb_ge _ 0)) by lia.
  rewrite take_ge by (rewrite length_take; lia). rewrite take_ge by lia.
  cbn [put_byte]. rewrite put_response_line. cbn [negb Z.eqb MCP_SERVER_OK line_put incoming outgoing target]. reflexivity.
Qed.

Lemma rewind_request_served_witness :
  mcp_server_serve_once (& line_ops)
    {| incoming := rewind_request 1 3 9 ++ Byte.x0a :: lit "next"; outgoing := []; target := 40 |}
    (& (line_handle example_mcp_ops)) 401
  = Some (MCP_SERVER_OK, {| incoming := lit "next";
      outgoing := jlit "{'jsonrpc':'2.0','id':1,'result':{'content':[{'type':'text','text':'rewound to epoch=3 offset=9'}]}}"
                  ++ [Byte.x0a];
      target := 43 |}).
Proof.
  rewrite (rewind_request_served example_mcp_ops (fun w e o => ((if e <? 5 then 0 else -1), w + e)) 1 3 9
             (lit "next") [] 40 401) by (first [reflexivity | lia]).
  vm_compute. reflexivity.
Defined.
