(* ===== verification/Barrier.v ===== *)
(** * The checkpoint barrier (kernel/checkpoint_barrier.c)

    A checkpoint is armed, every CPU parks at a safe boundary, and only when
    all are parked is the machine quiescent. *)
From Stdlib Require Import ZArith Lia.
From S2P Require Import Prelude.
Open Scope Z_scope.
Open Scope c_scope.

Definition CHECKPOINT_BARRIER_MAX_CPUS : Z := 8.

Inductive checkpoint_barrier_state_t :=
  | CHECKPOINT_BARRIER_IDLE
  | CHECKPOINT_BARRIER_ARMED
  | CHECKPOINT_BARRIER_QUIESCENT.

#[export] Instance barrier_state_eq_dec : EqDecision checkpoint_barrier_state_t.
Proof. solve_decision. Defined.

Record checkpoint_barrier_t := {
  cb_state : checkpoint_barrier_state_t;
  cb_ncpus : Z;
  cb_parked : Z;
  cb_is_parked : list bool }.

Definition state_is (b : checkpoint_barrier_t) (s : checkpoint_barrier_state_t) : bool :=
  bool_decide (cb_state b = s).

(** The loop that clears [b->is_parked]. *)
Definition all_running : list bool := replicate (Z.to_nat CHECKPOINT_BARRIER_MAX_CPUS) false.

Definition checkpoint_barrier_init (b : ptr checkpoint_barrier_t) (ncpus : Z) : ptr checkpoint_barrier_t :=
  match b with
  | NULL => NULL
  | Some _ =>
      let ncpus := if ncpus <? 1 then 1 else ncpus in
      let ncpus := if CHECKPOINT_BARRIER_MAX_CPUS <? ncpus then CHECKPOINT_BARRIER_MAX_CPUS else ncpus in
      & {| cb_state := CHECKPOINT_BARRIER_IDLE; cb_ncpus := ncpus; cb_parked := 0;
           cb_is_parked := all_running |}
  end.

Definition checkpoint_barrier_arm (b : ptr checkpoint_barrier_t) : bool * ptr checkpoint_barrier_t :=
  match b with
  | NULL => (false, b)
  | Some k =>
      if negb (state_is k CHECKPOINT_BARRIER_IDLE) then (false, b)
      else
        (true, & {| cb_state := CHECKPOINT_BARRIER_ARMED; cb_ncpus := cb_ncpus k; cb_parked := 0;
                    cb_is_parked := all_running |})
  end.

Definition checkpoint_barrier_park (b : ptr checkpoint_barrier_t) (cpu : Z) (can_park : bool)
  : bool * ptr checkpoint_barrier_t :=
  match b with
  | NULL => (false, b)
  | Some k =>
      if (cb_ncpus k <=? cpu) || negb (state_is k CHECKPOINT_BARRIER_ARMED) then (false, b)
      else if negb can_park then (false, b)
      else if zget false (cb_is_parked k) cpu then (false, b)
      else
        let is_parked := zset cpu true (cb_is_parked k) in
        let parked := u32 (cb_parked k + 1) in
        if cb_ncpus k <=? parked then
          (true, & {| cb_state := CHECKPOINT_BARRIER_QUIESCENT; cb_ncpus := cb_ncpus k;
                      cb_parked := parked; cb_is_parked := is_parked |})
        else
          (false, & {| cb_state := cb_state k; cb_ncpus := cb_ncpus k;
                       cb_parked := parked; cb_is_parked := is_parked |})
  end.

Definition checkpoint_barrier_unpark (b : ptr checkpoint_barrier_t) (cpu : Z) : ptr checkpoint_barrier_t :=
  match b with
  | NULL => NULL
  | Some k =>
      if cb_ncpus k <=? cpu then b
      else if state_is k CHECKPOINT_BARRIER_IDLE || negb (zget false (cb_is_parked k) cpu) then b
      else
        & {| cb_state := if state_is k CHECKPOINT_BARRIER_QUIESCENT
                         then CHECKPOINT_BARRIER_ARMED else cb_state k;
             cb_ncpus := cb_ncpus k;
             cb_parked := if 0 <? cb_parked k then cb_parked k - 1 else cb_parked k;
             cb_is_parked := zset cpu false (cb_is_parked k) |}
  end.

Definition checkpoint_barrier_is_quiescent (b : ptr checkpoint_barrier_t) : bool :=
  match b with Some k => state_is k CHECKPOINT_BARRIER_QUIESCENT | NULL => false end.

Definition checkpoint_barrier_state (b : ptr checkpoint_barrier_t) : checkpoint_barrier_state_t :=
  match b with Some k => cb_state k | NULL => CHECKPOINT_BARRIER_IDLE end.

Definition checkpoint_barrier_release (b : ptr checkpoint_barrier_t) : ptr checkpoint_barrier_t :=
  match b with
  | NULL => NULL
  | Some k =>
      & {| cb_state := CHECKPOINT_BARRIER_IDLE; cb_ncpus := cb_ncpus k; cb_parked := 0;
           cb_is_parked := all_running |}
  end.
