(* ===== verification/BarrierSpec.v ===== *)
(** * The barrier reaches quiescence exactly when every CPU is parked

    The CPUs' calls are the steps of a transition system; its reachable states
    satisfy an invariant that counts the parked CPUs. *)
From Stdlib Require Import ZArith Lia.
From S2P Require Import Prelude Barrier.
Open Scope Z_scope.
Open Scope c_scope.

(** One call on the barrier by some CPU. *)
Inductive barrier_step : checkpoint_barrier_t -> checkpoint_barrier_t -> Prop :=
  | step_arm b b' : (checkpoint_barrier_arm (& b)).2 = & b' -> barrier_step b b'
  | step_park b b' cpu can_park :
      0 <= cpu -> (checkpoint_barrier_park (& b) cpu can_park).2 = & b' -> barrier_step b b'
  | step_unpark b b' cpu :
      0 <= cpu -> checkpoint_barrier_unpark (& b) cpu = & b' -> barrier_step b b'
  | step_release b b' : checkpoint_barrier_release (& b) = & b' -> barrier_step b b'.

(** The barriers a kernel that initialised one for [n] CPUs can have. *)
Inductive reachable (n : Z) : checkpoint_barrier_t -> Prop :=
  | reach_init b0 b : checkpoint_barrier_init (& b0) n = & b -> reachable n b
  | reach_step b b' : reachable n b -> barrier_step b b' -> reachable n b'.

(** The number of CPUs marked parked. *)
Definition parked_count (l : list bool) : Z :=
  Z.of_nat (sum_list_with (fun p : bool => if p then 1%nat else 0%nat) l).

Record barrier_inv (b : checkpoint_barrier_t) : Prop := {
  inv_ncpus : 1 <= cb_ncpus b <= CHECKPOINT_BARRIER_MAX_CPUS;
  inv_length : length (cb_is_parked b) = Z.to_nat CHECKPOINT_BARRIER_MAX_CPUS;
  inv_count : cb_parked b = parked_count (cb_is_parked b);
  inv_absent : forall i, cb_ncpus b <= i -> zget false (cb_is_parked b) i = false;
  inv_idle : cb_state b = CHECKPOINT_BARRIER_IDLE -> cb_parked b = 0;
  inv_quiescent : cb_state b = CHECKPOINT_BARRIER_QUIESCENT <-> cb_parked b = cb_ncpus b }.

Lemma parked_count_insert (l : list bool) (i : nat) (x : bool) :
  (i < length l)%nat ->
  parked_count (<[i := x]> l) =
  parked_count l - (if nth i l false then 1 else 0) + (if x then 1 else 0).
Proof.
  unfold parked_count. revert i; induction l as [|y l IH]; intros [|i] Hi; simpl in *; [lia|lia| |].
  - destruct x, y; lia.
  - specialize (IH i ltac:(lia)). destruct y; simpl in *; lia.
Qed.

Lemma parked_count_bound l : 0 <= parked_count l <= Z.of_nat (length l).
Proof. unfold parked_count. induction l as [|[] l IH]; simpl in *; lia. Qed.

(** All the parked CPUs are below [n]: the count reaches [n] only if each is. *)
Lemma parked_count_full (l : list bool) (n : nat) :
  (n <= length l)%nat -> (forall i, (n <= i)%nat -> nth i l false = false) ->
  parked_count l <= Z.of_nat n /\
  (parked_count l = Z.of_nat n <-> forall i, (i < n)%nat -> nth i l false = true).
Proof.
  revert n; induction l as [|x l IH]; intros n Hn Habs.
  - simpl in Hn. unfold parked_count; simpl. split; [lia|]. split; [|lia]. intros _ i Hi; lia.
  - destruct n as [|n].
    + specialize (IH 0%nat ltac:(lia) (fun i _ => Habs (S i) ltac:(lia))).
      pose proof (Habs 0%nat ltac:(lia)) as Hx. simpl in Hx. subst x.
      unfold parked_count in *; simpl in *. destruct IH as [IH1 IH2]. split; [lia|].
      split; [intros _ i Hi; lia|]. intros _. apply Z.le_antisymm; [lia|].
      pose proof (parked_count_bound l); unfold parked_count in *; lia.
    + simpl in Hn. specialize (IH n ltac:(lia) (fun i Hi => Habs (S i) ltac:(lia))).
      destruct IH as [IH1 IH2]. unfold parked_count in *; simpl. split; [destruct x; lia|]. split.
      * intros Hc. destruct x; [|lia]. intros [|i] Hi; [done|]. apply IH2; lia.
      * intros Hall. pose proof (Hall 0%nat ltac:(lia)) as Hx; simpl in Hx; subst x.
        assert (forall i, (i < n)%nat -> nth i l false = true) as Hl
          by (intros i Hi; apply (Hall (S i)); lia).
        apply IH2 in Hl. lia.
Qed.

Lemma all_running_absent i : zget false all_running i = false.
Proof.
  unfold zget, all_running. generalize (Z.to_nat i) as k. intros k.
  do 9 (destruct k as [|k]; [reflexivity|]). reflexivity.
Qed.

Lemma zset_absent l i j :
  0 <= i < j -> zget false (zset i true l) j = zget false l j.
Proof.
  intros Hij. unfold zget, zset. rewrite !nth_lookup, list_lookup_insert_ne by lia. done.
Qed.

Lemma barrier_fresh_inv s n :
  1 <= n <= CHECKPOINT_BARRIER_MAX_CPUS -> s <> CHECKPOINT_BARRIER_QUIESCENT ->
  barrier_inv {| cb_state := s; cb_ncpus := n; cb_parked := 0; cb_is_parked := all_running |}.
Proof.
  intros Hn Hs. constructor; cbn [cb_state cb_ncpus cb_parked cb_is_parked];
    [lia | reflexivity | reflexivity | intros; apply all_running_absent | done |].
  split; [done | lia].
Qed.

Lemma park_inv b cpu can_park b' :
  barrier_inv b -> 0 <= cpu -> (checkpoint_barrier_park (& b) cpu can_park).2 = & b' -> barrier_inv b'.
Proof.
  intros [Hn Hlen Hcnt Habs Hidle Hq] Hcpu. unfold checkpoint_barrier_park, state_is.
  destruct (cb_ncpus b <=? cpu) eqn:E1; cbn [orb]; [intros [= <-]; by constructor|].
  case_bool_decide as Hst; cbn [negb]; [|intros [= <-]; by constructor].
  destruct can_park; cbn [negb]; [|intros [= <-]; by constructor].
  destruct (zget false (cb_is_parked b) cpu) eqn:E2; [intros [= <-]; by constructor|].
  zbool. unfold CHECKPOINT_BARRIER_MAX_CPUS in *.
  set (l' := zset cpu true (cb_is_parked b)).
  assert (parked_count l' = cb_parked b + 1) as Hcnt'.
  { unfold l', zset. rewrite parked_count_insert by lia.
    unfold zget in E2. rewrite E2. lia. }
  assert (length l' = 8%nat) as Hlen' by (unfold l'; rewrite length_zset; exact Hlen).
  assert (forall i, cb_ncpus b <= i -> zget false l' i = false) as Habs'
    by (intros i Hi; unfold l'; rewrite zset_absent by lia; apply Habs; exact Hi).
  destruct (parked_count_full l' (Z.to_nat (cb_ncpus b)) ltac:(lia)) as [Hle _].
  { intros i Hi. specialize (Habs' (Z.of_nat i) ltac:(lia)). unfold zget in Habs'.
    rewrite Nat2Z.id in Habs'. exact Habs'. }
  rewrite u32_id by (pose proof (parked_count_bound l'); lia).
  destruct (cb_ncpus b <=? cb_parked b + 1) eqn:E3; intros [= <-]; zbool;
    constructor; cbn [cb_state cb_ncpus cb_parked cb_is_parked];
    unfold CHECKPOINT_BARRIER_MAX_CPUS;
    first [lia | exact Hlen' | exact Habs' | discriminate
          | rewrite Hst; discriminate | idtac].
  - split; [lia | reflexivity].
  - rewrite Hst. split; [discriminate | lia].
Qed.

Lemma unpark_inv b cpu b' :
  barrier_inv b -> 0 <= cpu -> checkpoint_barrier_unpark (& b) cpu = & b' -> barrier_inv b'.
Proof.
  intros [Hn Hlen Hcnt Habs Hidle Hq] Hcpu. unfold checkpoint_barrier_unpark, state_is.
  destruct (cb_ncpus b <=? cpu) eqn:E1; [intros [= <-]; by constructor|].
  case_bool_decide as Hst; cbn [orb]; [intros [= <-]; by constructor|].
  destruct (zget false (cb_is_parked b) cpu) eqn:E2; cbn [negb]; [|intros [= <-]; by constructor].
  zbool. intros [= <-]. unfold CHECKPOINT_BARRIER_MAX_CPUS in *.
  set (l' := zset cpu false (cb_is_parked b)).
  assert (parked_count l' = cb_parked b - 1) as Hcnt'.
  { unfold l', zset. rewrite parked_count_insert by lia. unfold zget in E2. rewrite E2. lia. }
  assert (length l' = 8%nat) as Hlen' by (unfold l'; rewrite length_zset; exact Hlen).
  pose proof (parked_count_bound l'). rewrite (proj2 (Z.ltb_lt 0 (cb_parked b))) by lia.
  destruct (parked_count_full (cb_is_parked b) (Z.to_nat (cb_ncpus b)) ltac:(lia)) as [Hle _].
  { intros i Hi. specialize (Habs (Z.of_nat i) ltac:(lia)). unfold zget in Habs.
    rewrite Nat2Z.id in Habs. exact Habs. }
  constructor; cbn [cb_state cb_ncpus cb_parked cb_is_parked];
    unfold CHECKPOINT_BARRIER_MAX_CPUS; first [lia | exact Hlen' | idtac].
  - intros i Hi. unfold l', zget, zset. rewrite !nth_lookup, list_lookup_insert_ne by lia.
    specialize (Habs i Hi). unfold zget in Habs. rewrite nth_lookup in Habs. exact Habs.
  - case_bool_decide as Hb; [discriminate | intros Hs; contradiction].
  - case_bool_decide as Hb; [split; [discriminate | lia]|]. split; [intros Hs; contradiction | lia].
Qed.

Lemma reachable_inv n b : 0 <= n -> reachable n b -> barrier_inv b.
Proof.
  intros Hn. induction 1 as [b0 b H | b b' _ IH Hs].
  - unfold checkpoint_barrier_init in H. injection H as <-.
    apply barrier_fresh_inv; [|discriminate]. unfold CHECKPOINT_BARRIER_MAX_CPUS.
    destruct (n <? 1) eqn:E; zbool; [simpl; lia|]. destruct (8 <? n) eqn:E'; zbool; lia.
  - destruct Hs as [b b' H | b b' cpu cp H0 H | b b' cpu H0 H | b b' H].
    + unfold checkpoint_barrier_arm in H. destruct (negb _); injection H as <-; [exact IH|].
      apply barrier_fresh_inv; [apply IH | discriminate].
    + exact (park_inv _ _ _ _ IH H0 H).
    + exact (unpark_inv _ _ _ IH H0 H).
    + injection H as <-. apply barrier_fresh_inv; [apply IH | discriminate].
Qed.

(** C38: in every state reachable by any interleaving of the CPUs' calls the
    barrier reports quiescence if and only if every participating CPU is
    parked, and no CPU outside the participating ones ever counts. *)
Theorem barrier_quiescent_iff (n : Z) (b : checkpoint_barrier_t)
    (Hn : 0 <= n) (Hreach : reachable n b) :
  (checkpoint_barrier_is_quiescent (& b) = true <->
   forall cpu, 0 <= cpu < cb_ncpus b -> zget false (cb_is_parked b) cpu = true) /\
  cb_parked b = parked_count (cb_is_parked b) /\
  (forall cpu, cb_ncpus b <= cpu -> zget false (cb_is_parked b) cpu = false).
Proof.
  destruct (reachable_inv n b Hn Hreach) as [Hc Hlen Hcnt Habs _ Hq].
  split; [|split; [exact Hcnt | exact Habs]]. unfold CHECKPOINT_BARRIER_MAX_CPUS in *.
  destruct (parked_count_full (cb_is_parked b) (Z.to_nat (cb_ncpus b)) ltac:(lia)) as [_ Hfull].
  { intros i Hi. specialize (Habs (Z.of_nat i) ltac:(lia)). unfold zget in Habs.
    rewrite Nat2Z.id in Habs. exact Habs. }
  cbn [checkpoint_barrier_is_quiescent]. unfold state_is. rewrite bool_decide_eq_true, Hq, Hcnt.
  rewrite Z2Nat.id in Hfull by lia. rewrite Hfull. unfold zget. split.
  - intros H cpu Hcpu. apply H. lia.
  - intros H i Hi. specialize (H (Z.of_nat i) ltac:(lia)). rewrite Nat2Z.id in H. exact H.
Qed.

(** Two CPUs: armed, both parked, one backs out and parks again. *)
Definition two_cpus : checkpoint_barrier_t :=
  {| cb_state := CHECKPOINT_BARRIER_QUIESCENT; cb_ncpus := 2; cb_parked := 2;
     cb_is_parked := [true; true; false; false; false; false; false; false] |}.


Lemma barrier_quiescent_iff_witness :
  0 <= 2 /\ reachable 2 two_cpus /\
  ((checkpoint_barrier_is_quiescent (& two_cpus) = true <->
    forall cpu, 0 <= cpu < cb_ncpus two_cpus -> zget false (cb_is_parked two_cpus) cpu = true) /\
   cb_parked two_cpus = parked_count (cb_is_parked two_cpus) /\
   (forall cpu, cb_ncpus two_cpus <= cpu -> zget false (cb_is_parked two_cpus) cpu = false)).
Proof.
  assert (0 <= 2) as Hn by lia.
  assert (reachable 2 two_cpus) as Hr.
  { eapply reach_step; [eapply reach_step; [eapply reach_step; [eapply reach_step; [eapply reach_step;
      [eapply (reach_init 2 two_cpus); reflexivity | eapply step_arm; reflexivity]
      | eapply (step_park _ _ 1 true); [lia | reflexivity]]
      | eapply (step_park _ _ 0 true); [lia | reflexivity]]
      | eapply (step_unpark _ _ 1); [lia | reflexivity]]
      | eapply (step_park _ _ 1 true); [lia | reflexivity]]. }
  split; [exact Hn | split; [exact Hr | exact (barrier_quiescent_iff 2 two_cpus Hn Hr)]].
Defined.
