(* ===== verification/ExtState.v ===== *)
(** * External state that cannot be replayed (kernel/checkpoint_extstate.c)

    Sockets, DMA buffers, devices and pipes do not survive a power cycle: on
    restore their handles are severed, and the owner reconnects.  The kind is
    an integer, since it is also read back from three bits of a flags word. *)
From Stdlib Require Import ZArith Lia.
From S2P Require Import Prelude.
Open Scope Z_scope.
Open Scope c_scope.

Definition EXTSTATE_REGULAR_FILE : Z := 0.
Definition EXTSTATE_SOCKET : Z := 1.
Definition EXTSTATE_DMA_BUFFER : Z := 2.
Definition EXTSTATE_DEVICE : Z := 3.
Definition EXTSTATE_PIPE : Z := 4.

Definition EXTSTATE_FLAG_OPEN : Z := 1.
Definition EXTSTATE_FLAG_SEVERED : Z := 2.
Definition EXTSTATE_FLAG_RECONNECTED : Z := 4.

Definition EXTSTATE_OK : Z := 0.
Definition EXTSTATE_SEVERED : Z := -1.

(** [flags & bit] as a condition, [flags |= bits] and [flags &= ~bits]. *)
Definition has_flag (flags bit : Z) : bool := negb (Z.land flags bit =? 0).
Definition set_flags (flags bits : Z) : Z := Z.lor flags bits.
Definition clear_flags (flags bits : Z) : Z := Z.ldiff flags bits.

Definition extstate_survives_checkpoint (kind : Z) : bool :=
  if kind =? EXTSTATE_REGULAR_FILE then true
  else if (kind =? EXTSTATE_SOCKET) || (kind =? EXTSTATE_DMA_BUFFER)
       || (kind =? EXTSTATE_DEVICE) || (kind =? EXTSTATE_PIPE) then false
  else false.

(** ** Handles *)
Record extstate_resource_t := { er_kind : Z; er_flags : Z }.

Definition extstate_sever (res : ptr extstate_resource_t) : bool * ptr extstate_resource_t :=
  match res with
  | NULL => (false, res)
  | Some r =>
      if negb (has_flag (er_flags r) EXTSTATE_FLAG_OPEN) then (false, res)
      else if has_flag (er_flags r) EXTSTATE_FLAG_SEVERED then (false, res)
      else if extstate_survives_checkpoint (er_kind r) then (false, res)
      else (true, & {| er_kind := er_kind r; er_flags := set_flags (er_flags r) EXTSTATE_FLAG_SEVERED |})
  end.

(** [for (i = 0; i < count; i++) if (sever(&a[i])) severed++;] over the first
    [n] elements of the array. *)
Fixpoint sever_loop {A} (sever : ptr A -> bool * ptr A) (l : list A) (n : nat) (severed : Z)
  {struct n} : Z * list A :=
  match n, l with
  | S n, x :: l =>
      let '(b, x') := sever (& x) in
      let '(k, l) := sever_loop sever l n (if b then severed + 1 else severed) in
      (k, from_option id x x' :: l)
  | _, _ => (severed, l)
  end.

Definition extstate_sever_all (resources : ptr (list extstate_resource_t)) (count : Z)
  : Z * ptr (list extstate_resource_t) :=
  match resources with
  | NULL => (0, resources)
  | Some l =>
      if count <=? 0 then (0, resources)
      else let '(k, l) := sever_loop extstate_sever l (Z.to_nat count) 0 in (k, & l)
  end.

Definition extstate_status (res : ptr extstate_resource_t) : Z :=
  match res with
  | Some r => if has_flag (er_flags r) EXTSTATE_FLAG_SEVERED then EXTSTATE_SEVERED else EXTSTATE_OK
  | NULL => EXTSTATE_OK
  end.

(** ** File descriptors: the kind lives in bits 28-30 of the flags word *)
Definition EXTSTATE_FD_KIND_SHIFT : Z := 28.
Definition EXTSTATE_FD_KIND_MASK : Z := Z.shiftl 7 EXTSTATE_FD_KIND_SHIFT.
Definition EXTSTATE_FD_SEVERED : Z := Z.shiftl 1 31.

Definition extstate_fd_set_kind (flags : ptr Z) (kind : Z) : ptr Z :=
  match flags with
  | NULL => NULL
  | Some f =>
      & (Z.lor (clear_flags f EXTSTATE_FD_KIND_MASK)
               (Z.land (u32 (Z.shiftl kind EXTSTATE_FD_KIND_SHIFT)) EXTSTATE_FD_KIND_MASK))
  end.

Definition extstate_kind_from_fd_flags (flags : Z) : Z :=
  Z.shiftr (Z.land flags EXTSTATE_FD_KIND_MASK) EXTSTATE_FD_KIND_SHIFT.

Definition extstate_sever_fd (flags : ptr Z) : bool * ptr Z :=
  match flags with
  | NULL => (false, flags)
  | Some f =>
      if has_flag f EXTSTATE_FD_SEVERED then (false, flags)
      else if extstate_survives_checkpoint (extstate_kind_from_fd_flags f) then (false, flags)
      else (true, & (set_flags f EXTSTATE_FD_SEVERED))
  end.

Definition extstate_fd_is_severed (flags : Z) : bool := has_flag flags EXTSTATE_FD_SEVERED.

(** ** Endpoints and reconnection *)
Record extstate_endpoint_t := { ep_kind : Z; ep_flags : Z; ep_owner : Z; ep_generation : Z }.

Definition with_ep_flags (ep : extstate_endpoint_t) (f : Z) : extstate_endpoint_t :=
  {| ep_kind := ep_kind ep; ep_flags := f; ep_owner := ep_owner ep; ep_generation := ep_generation ep |}.

Definition extstate_endpoint_persistable (ep : ptr extstate_endpoint_t) : bool :=
  match ep with NULL => false | Some e => extstate_survives_checkpoint (ep_kind e) end.

Definition extstate_endpoint_sever (ep : ptr extstate_endpoint_t) : bool * ptr extstate_endpoint_t :=
  match ep with
  | NULL => (false, ep)
  | Some e =>
      if negb (has_flag (ep_flags e) EXTSTATE_FLAG_OPEN) then (false, ep)
      else if has_flag (ep_flags e) EXTSTATE_FLAG_SEVERED then (false, ep)
      else if extstate_survives_checkpoint (ep_kind e) then (false, ep)
      else
        let f := set_flags (ep_flags e) EXTSTATE_FLAG_SEVERED in
        (true, & (with_ep_flags e (clear_flags f EXTSTATE_FLAG_RECONNECTED)))
  end.

Definition extstate_endpoint_sever_all (eps : ptr (list extstate_endpoint_t)) (count : Z)
  : Z * ptr (list extstate_endpoint_t) :=
  match eps with
  | NULL => (0, eps)
  | Some l =>
      if count <=? 0 then (0, eps)
      else let '(k, l) := sever_loop extstate_endpoint_sever l (Z.to_nat count) 0 in (k, & l)
  end.

Definition extstate_endpoint_status (ep : ptr extstate_endpoint_t) : Z :=
  match ep with
  | Some e => if has_flag (ep_flags e) EXTSTATE_FLAG_SEVERED then EXTSTATE_SEVERED else EXTSTATE_OK
  | NULL => EXTSTATE_OK
  end.

Definition extstate_endpoint_needs_reconnect (ep : ptr extstate_endpoint_t) : bool :=
  match ep with Some e => has_flag (ep_flags e) EXTSTATE_FLAG_SEVERED | NULL => false end.

Definition extstate_endpoint_reconnect (ep : ptr extstate_endpoint_t) : bool * ptr extstate_endpoint_t :=
  match ep with
  | NULL => (false, ep)
  | Some e =>
      if negb (has_flag (ep_flags e) EXTSTATE_FLAG_SEVERED) then (false, ep)
      else
        let f := clear_flags (ep_flags e) EXTSTATE_FLAG_SEVERED in
        let f := set_flags f (Z.lor EXTSTATE_FLAG_OPEN EXTSTATE_FLAG_RECONNECTED) in
        (true, & {| ep_kind := ep_kind e; ep_flags := f; ep_owner := ep_owner e;
                    ep_generation := u32 (ep_generation e + 1) |})
  end.
