(* ===== verification/ExtStateSpec.v ===== *)
(** * Severed handles and the reconnection contract

    What the restore-time pass does to every endpoint of an array, and what
    the owner's reconnect does afterwards. *)
From Stdlib Require Import ZArith Lia.
From S2P Require Import Prelude ExtState.
Open Scope Z_scope.
Open Scope c_scope.

(** ** Flags *)
Lemma has_flag_bit f n : 0 <= n -> has_flag f (2 ^ n) = Z.testbit f n.
Proof.
  intros Hn. unfold has_flag. destruct (Z.testbit f n) eqn:E.
  - apply negb_true_iff, Z.eqb_neq. intros H. apply (f_equal (fun z => Z.testbit z n)) in H.
    rewrite Z.land_spec, E, Z.pow2_bits_true, Z.bits_0 in H by lia. discriminate.
  - apply negb_false_iff, Z.eqb_eq. apply Z.bits_inj'. intros m Hm.
    rewrite Z.land_spec, Z.bits_0. destruct (Z.eq_dec m n) as [->|]; [by rewrite E|].
    rewrite (Z.pow2_bits_false n m) by lia. apply andb_false_r.
Qed.

Lemma flag_open f : has_flag f EXTSTATE_FLAG_OPEN = Z.testbit f 0.
Proof. apply (has_flag_bit f 0). lia. Qed.
Lemma flag_severed f : has_flag f EXTSTATE_FLAG_SEVERED = Z.testbit f 1.
Proof. apply (has_flag_bit f 1). lia. Qed.
Lemma flag_reconnected f : has_flag f EXTSTATE_FLAG_RECONNECTED = Z.testbit f 2.
Proof. apply (has_flag_bit f 2). lia. Qed.

(** ** The loop over an array *)
Definition severed_one {A} (sever : ptr A -> bool * ptr A) (x : A) : A :=
  from_option id x (sever (& x)).2.

Lemma sever_loop_spec {A} (sever : ptr A -> bool * ptr A) l n k :
  sever_loop sever l n k =
  (k + Z.of_nat (length (filter (fun x => (sever (& x)).1 = true) (take n l))),
   (severed_one sever <$> take n l) ++ drop n l).
Proof.
  revert l k; induction n as [|n IH]; intros l k; [cbn; rewrite Z.add_0_r; reflexivity|].
  destruct l as [|x l]; [cbn; rewrite Z.add_0_r; reflexivity|]. cbn [sever_loop].
  destruct (sever (& x)) as [b x'] eqn:E. rewrite IH.
  cbn [take drop]. rewrite fmap_cons, filter_cons. unfold severed_one at 2. rewrite E. cbn [fst snd].
  destruct b; [rewrite decide_True by reflexivity | rewrite decide_False by discriminate].
  all: cbn [length app fst]; apply f_equal2; [idtac|reflexivity].
  all: lia.
Qed.

(** An open endpoint to something a power cycle takes away. *)
Definition external (e : extstate_endpoint_t) : bool :=
  has_flag (ep_flags e) EXTSTATE_FLAG_OPEN && negb (extstate_survives_checkpoint (ep_kind e)).

Lemma endpoint_sever_spec e :
  let '(b, e') := extstate_endpoint_sever (& e) in
  b = external e && negb (extstate_endpoint_needs_reconnect (& e)) /\
  exists x, e' = & x /\
    (b = false -> x = e) /\ ep_owner x = ep_owner e /\ ep_generation x = ep_generation e /\
    extstate_endpoint_needs_reconnect (& x) = extstate_endpoint_needs_reconnect (& e) || external e.
Proof.
  unfold extstate_endpoint_sever, external. cbn [extstate_endpoint_needs_reconnect].
  destruct (has_flag (ep_flags e) EXTSTATE_FLAG_OPEN) eqn:Eo; cbn [negb andb].
  2:{ split; [done|]. exists e. repeat split; try done. rewrite orb_false_r. done. }
  destruct (has_flag (ep_flags e) EXTSTATE_FLAG_SEVERED) eqn:Es.
  { rewrite andb_false_r. split; [done|]. exists e. repeat split; done. }
  destruct (extstate_survives_checkpoint (ep_kind e)); cbn [negb andb orb].
  { split; [done|]. exists e. repeat split; done. }
  split; [done|]. eexists. split; [reflexivity|]. split; [discriminate|].
  repeat (split; [reflexivity|]). cbn [with_ep_flags ep_flags].
  rewrite flag_severed. unfold clear_flags, set_flags. rewrite Z.ldiff_spec, Z.lor_spec.
  rewrite orb_true_r. reflexivity.
Qed.

Lemma endpoint_sever_idempotent e :
  extstate_endpoint_sever (& (severed_one extstate_endpoint_sever e)) =
  (false, & (severed_one extstate_endpoint_sever e)).
Proof.
  unfold severed_one. pose proof (endpoint_sever_spec e) as H.
  destruct (extstate_endpoint_sever (& e)) as [b e'] eqn:Ee.
  destruct H as (Hb & x & -> & Hsame & Ho & Hg & Hn). cbn [snd from_option]. unfold Datatypes.id.
  pose proof (endpoint_sever_spec x) as H'. destruct (extstate_endpoint_sever (& x)) as [b' x'].
  destruct H' as (Hb' & y & -> & Hsame' & _). destruct b.
  - assert (b' = false) as ->; [|rewrite Hsame' by reflexivity; reflexivity].
    rewrite Hb', Hn. symmetry in Hb. apply andb_prop in Hb as [Hx _]. rewrite Hx, orb_true_r.
    apply andb_false_r.
  - rewrite Hsame in Hb' by reflexivity. rewrite <- Hb in Hb'. subst b'.
    rewrite Hsame' by reflexivity. reflexivity.
Qed.

Lemma reconnect_spec e :
  extstate_endpoint_needs_reconnect (& e) = true ->
  exists x, extstate_endpoint_reconnect (& e) = (true, & x) /\
    extstate_endpoint_status (& x) = EXTSTATE_OK /\
    has_flag (ep_flags x) EXTSTATE_FLAG_OPEN = true /\
    has_flag (ep_flags x) EXTSTATE_FLAG_RECONNECTED = true /\
    ep_generation x = u32 (ep_generation e + 1) /\
    extstate_endpoint_reconnect (& x) = (false, & x).
Proof.
  cbn [extstate_endpoint_needs_reconnect]. intros Hs. unfold extstate_endpoint_reconnect at 1.
  rewrite Hs. cbn [negb]. eexists. split; [reflexivity|].
  set (f := set_flags _ _).
  assert (has_flag f EXTSTATE_FLAG_SEVERED = false) as Hclr.
  { rewrite flag_severed. unfold f, set_flags, clear_flags. rewrite Z.lor_spec, Z.ldiff_spec.
    change (Z.testbit EXTSTATE_FLAG_SEVERED 1) with true. rewrite andb_false_r. reflexivity. }
  unfold extstate_endpoint_status, extstate_endpoint_reconnect. cbn [ep_flags ep_generation].
  rewrite Hclr. cbn [negb]. repeat split.
  - rewrite flag_open. unfold f, set_flags. rewrite Z.lor_spec. apply orb_true_r.
  - rewrite flag_reconnected. unfold f, set_flags. rewrite Z.lor_spec. apply orb_true_r.
Qed.

(** The restore-time pass severs exactly the open external endpoints.  The
    returned count is the number of endpoints that were open, external and not
    yet severed; afterwards an endpoint needs reconnecting exactly if it did
    before or is open and external, and keeps its owner and generation; a
    second pass severs nothing and changes nothing; and reconnecting a severed
    endpoint clears its status, reopens it and bumps its generation once, a
    second reconnect being a no-op. *)
Theorem endpoint_sever_reconnect (eps : list extstate_endpoint_t) (count : Z)
    (Hcount : count = Z.of_nat (length eps)) :
  exists eps',
    extstate_endpoint_sever_all (& eps) count =
      (Z.of_nat (length (filter (fun e => external e && negb (extstate_endpoint_needs_reconnect (& e)) = true) eps)),
       & eps') /\
    Forall2 (fun e e' =>
      extstate_endpoint_needs_reconnect (& e') = extstate_endpoint_needs_reconnect (& e) || external e /\
      ep_owner e' = ep_owner e /\ ep_generation e' = ep_generation e /\
      (extstate_endpoint_needs_reconnect (& e') = true ->
       exists x, extstate_endpoint_reconnect (& e') = (true, & x) /\
         extstate_endpoint_status (& x) = EXTSTATE_OK /\
         has_flag (ep_flags x) EXTSTATE_FLAG_OPEN = true /\
         has_flag (ep_flags x) EXTSTATE_FLAG_RECONNECTED = true /\
         ep_generation x = u32 (ep_generation e + 1) /\
         extstate_endpoint_reconnect (& x) = (false, & x))) eps eps' /\
    extstate_endpoint_sever_all (& eps') count = (0, & eps').
Proof.
  exists (severed_one extstate_endpoint_sever <$> eps).
  assert (forall l, count = Z.of_nat (length l) ->
    extstate_endpoint_sever_all (& l) count =
    (Z.of_nat (length (filter (fun e => (extstate_endpoint_sever (& e)).1 = true) l)),
     & (severed_one extstate_endpoint_sever <$> l))) as Hall.
  { intros l Hl. unfold extstate_endpoint_sever_all. destruct (count <=? 0) eqn:E; zbool.
    - destruct l; [reflexivity | simpl in Hl; lia].
    - rewrite sever_loop_spec, Hl, Nat2Z.id, firstn_all, skipn_all, app_nil_r.
      f_equal; lia. }
  split; [|split].
  - rewrite Hall by exact Hcount. do 2 f_equal. f_equal. apply list_filter_iff. intros e.
    pose proof (endpoint_sever_spec e) as H. destruct (extstate_endpoint_sever (& e)) as [b e'].
    destruct H as [-> _]. reflexivity.
  - apply Forall2_fmap_r, Forall_Forall2_diag, Forall_forall. intros e _. cbn beta.
    unfold compose, severed_one. pose proof (endpoint_sever_spec e) as H.
    destruct (extstate_endpoint_sever (& e)) as [b e']. destruct H as (_ & x & -> & _ & Ho & Hg & Hn).
    cbn [snd from_option]. unfold Datatypes.id. split; [exact Hn | split; [exact Ho | split; [exact Hg|]]].
    intros Hr. rewrite <- Hg. exact (reconnect_spec x Hr).
  - rewrite Hall by (rewrite length_fmap; exact Hcount). f_equal.
    + enough (filter (fun e => (extstate_endpoint_sever (& e)).1 = true)
                (severed_one extstate_endpoint_sever <$> eps) = []) as -> by reflexivity.
      clear. induction eps as [|e l IH]; [reflexivity|].
      rewrite fmap_cons, filter_cons, endpoint_sever_idempotent.
      rewrite decide_False by discriminate. exact IH.
    + f_equal. rewrite <- list_fmap_compose. apply list_fmap_ext. intros _ e _.
      unfold compose, severed_one at 1. rewrite endpoint_sever_idempotent. reflexivity.
Qed.

(** An open socket, an open file, a closed device and a severed DMA buffer. *)
Definition example_endpoints : list extstate_endpoint_t :=
  [ {| ep_kind := EXTSTATE_SOCKET; ep_flags := 1; ep_owner := 7; ep_generation := 0 |};
    {| ep_kind := EXTSTATE_REGULAR_FILE; ep_flags := 1; ep_owner := 7; ep_generation := 0 |};
    {| ep_kind := EXTSTATE_DEVICE; ep_flags := 0; ep_owner := 8; ep_generation := 2 |};
    {| ep_kind := EXTSTATE_DMA_BUFFER; ep_flags := 3; ep_owner := 8; ep_generation := 4 |} ].

Lemma endpoint_sever_reconnect_witness :
  4 = Z.of_nat (length example_endpoints) /\
  exists eps',
    (extstate_endpoint_sever_all (& example_endpoints) 4).1 = 1 /\
    extstate_endpoint_sever_all (& eps') 4 = (0, & eps').
Proof.
  split; [reflexivity|].
  destruct (endpoint_sever_reconnect example_endpoints 4 eq_refl) as (eps' & H & _ & H').
  exists eps'. rewrite H. split; [reflexivity | exact H'].
Defined.
