(* ===== verification/StateTables.v ===== *)
(** * Kernel tables as portable blobs (kernel/checkpoint_proctable.c,
    kernel/checkpoint_filetable.c, kernel/checkpoint_ipc.c)

    The process table, a process's open files and the IPC channels are written
    as a header followed by arrays of fixed-size records.  A table's arrays are
    lists of their full capacity; the buffer is the list of its bytes, of which
    the caller vouches for the first [bufsize]. *)
From Stdlib Require Import ZArith Lia.
From S2P Require Import Prelude ExtState.
Open Scope Z_scope.
Open Scope c_scope.

(** [memcpy] of the first [n] records of an array, and of [n] records of [k]
    bytes into one. *)
Definition array_bytes {A} (enc : A -> list byte) (l : list A) (n : Z) : list byte :=
  mjoin (enc <$> take (Z.to_nat n) l).
Definition array_of {A} (dec : list byte -> A) (k : nat) (bs : list byte) (n : Z) : list A :=
  (fun i => dec (chunk k bs i)) <$> seqZ 0 n.

(** [for (i = 0; i < n; i++) { if (!p(i)) return false; } return true;] *)
Definition for_all (n : Z) (p : Z -> bool) : bool := forallb p (seqZ 0 n).

(** ** The process table *)
Module ProcTable.
Definition CHECKPOINT_PROCTABLE_MAGIC : Z := 0x494B50524F435431.
Definition CHECKPOINT_PROCTABLE_VERSION : Z := 1.
Definition CHECKPOINT_PROCTABLE_MAX : Z := 256.

Record checkpoint_proc_record_t := {
  pid : Z;
  ppid : Z;
  state : Z;
  priority : Z;
  alarm_time : Z;
  first_child_pid : Z;
  next_sibling_pid : Z;
  on_ready_queue : Z;
  reserved : Z;
  ready_order : Z }.

Record checkpoint_proctable_t := { procs : list checkpoint_proc_record_t; count : Z }.

(** [reserved] is the array of three bytes. *)
Definition proc_layout : list nat := [4; 4; 4; 4; 8; 4; 4; 1; 3; 4]%nat.
Definition proc_fields (r : checkpoint_proc_record_t) : list Z :=
  [pid r; ppid r; state r; priority r; alarm_time r; first_child_pid r; next_sibling_pid r;
   on_ready_queue r; reserved r; ready_order r].
Definition proc_bytes (r : checkpoint_proc_record_t) : list byte := pack proc_layout (proc_fields r).
Definition proc_of_bytes (bs : list byte) : checkpoint_proc_record_t :=
  let f := unpack proc_layout bs in
  {| pid := field 0 f; ppid := field 1 f; state := field 2 f; priority := field 3 f;
     alarm_time := field 4 f; first_child_pid := field 5 f; next_sibling_pid := field 6 f;
     on_ready_queue := field 7 f; reserved := field 8 f; ready_order := field 9 f |}.
Definition proc_null : checkpoint_proc_record_t := proc_of_bytes [].

Definition proctable_header_layout : list nat := [8; 4; 4]%nat.

Definition checkpoint_proctable_blob_size (count : Z) : Z := u32 (16 + u32 (count * 40)).

Definition checkpoint_proctable_serialize (t : ptr checkpoint_proctable_t) (buf : ptr (list byte))
    (bufsize : Z) : Z * ptr (list byte) :=
  match t, buf with
  | Some t, Some b =>
      if CHECKPOINT_PROCTABLE_MAX <? count t then (0, buf)
      else
        let need := checkpoint_proctable_blob_size (count t) in
        if bufsize <? need then (0, buf)
        else
          let h := pack proctable_header_layout
                     [CHECKPOINT_PROCTABLE_MAGIC; CHECKPOINT_PROCTABLE_VERSION; count t] in
          let out := h ++ array_bytes proc_bytes (procs t) (count t) in
          (need, & (out ++ drop (length out) b))
  | _, _ => (0, buf)
  end.

Definition checkpoint_proctable_deserialize (t : ptr checkpoint_proctable_t) (buf : ptr (list byte))
    (size : Z) : bool * ptr checkpoint_proctable_t :=
  match t, buf with
  | Some t0, Some b =>
      if size <? 16 then (false, t)
      else
        let h := unpack proctable_header_layout b in
        let n := field 2 h in
        if negb (field 0 h =? CHECKPOINT_PROCTABLE_MAGIC)
           || negb (field 1 h =? CHECKPOINT_PROCTABLE_VERSION)
           || (CHECKPOINT_PROCTABLE_MAX <? n) then (false, t)
        else if size <? checkpoint_proctable_blob_size n then (false, t)
        else
          (true, & {| procs := array_of proc_of_bytes 40 (drop 16 b) n ++ drop (Z.to_nat n) (procs t0);
                      count := n |})
  | _, _ => (false, t)
  end.

Definition checkpoint_proctable_find (t : ptr checkpoint_proctable_t) (p : Z)
  : ptr checkpoint_proc_record_t :=
  match t with
  | NULL => NULL
  | Some t => find (fun r => pid r =? p) (take (Z.to_nat (count t)) (procs t))
  end.

(** [x && !checkpoint_proctable_find(t, x)] *)
Definition dangling (t : checkpoint_proctable_t) (x : Z) : bool :=
  negb (x =? 0) && match checkpoint_proctable_find (& t) x with NULL => true | Some _ => false end.

Definition checkpoint_proctable_validate (t : ptr checkpoint_proctable_t) : bool :=
  match t with
  | NULL => false
  | Some k =>
      if CHECKPOINT_PROCTABLE_MAX <? count k then false
      else
        for_all (count k) (fun i =>
          let r := zget proc_null (procs k) i in
          if pid r =? 0 then false
          else if negb (for_all (count k - (i + 1)) (fun j =>
                          negb (pid (zget proc_null (procs k) (i + 1 + j)) =? pid r))) then false
          else if dangling k (ppid r) then false
          else if dangling k (first_child_pid r) then false
          else if dangling k (next_sibling_pid r) then false
          else true)
  end.
End ProcTable.

(** ** A process's open files *)
Module FileTable.
Definition CHECKPOINT_FILETABLE_MAGIC : Z := 0x494B46494C455431.
Definition CHECKPOINT_FILETABLE_VERSION : Z := 1.
Definition CHECKPOINT_FILETABLE_MAX : Z := 64.
Definition CHECKPOINT_FILE_PATH_MAX : Z := 128.

Record checkpoint_file_record_t := {
  fd : Z;
  flags : Z;
  offset : Z;
  kind : Z;
  reserved : Z;
  path : list byte }.

Record checkpoint_filetable_t := {
  pid : Z;
  count : Z;
  records : list checkpoint_file_record_t }.

Definition file_layout : list nat := [4; 4; 8; 4; 4]%nat.
Definition file_fields (r : checkpoint_file_record_t) : list Z :=
  [fd r; flags r; offset r; kind r; reserved r].
Definition file_bytes (r : checkpoint_file_record_t) : list byte := pack file_layout (file_fields r) ++ path r.
Definition file_of_bytes (bs : list byte) : checkpoint_file_record_t :=
  let f := unpack file_layout bs in
  {| fd := field 0 f; flags := field 1 f; offset := field 2 f; kind := field 3 f; reserved := field 4 f;
     path := take 128 (drop 24 bs) |}.
Definition file_null : checkpoint_file_record_t := file_of_bytes [].

Definition filetable_header_layout : list nat := [8; 4; 4; 4; 4]%nat.

Definition checkpoint_filetable_blob_size (count : Z) : Z := u32 (24 + u32 (count * 152)).

Definition checkpoint_filetable_serialize (t : ptr checkpoint_filetable_t) (buf : ptr (list byte))
    (bufsize : Z) : Z * ptr (list byte) :=
  match t, buf with
  | Some t, Some b =>
      if CHECKPOINT_FILETABLE_MAX <? count t then (0, buf)
      else
        let need := checkpoint_filetable_blob_size (count t) in
        if bufsize <? need then (0, buf)
        else
          let h := pack filetable_header_layout
                     [CHECKPOINT_FILETABLE_MAGIC; CHECKPOINT_FILETABLE_VERSION; pid t; count t; 0] in
          let out := h ++ array_bytes file_bytes (records t) (count t) in
          (need, & (out ++ drop (length out) b))
  | _, _ => (0, buf)
  end.

Definition checkpoint_filetable_deserialize (t : ptr checkpoint_filetable_t) (buf : ptr (list byte))
    (size : Z) : bool * ptr checkpoint_filetable_t :=
  match t, buf with
  | Some t0, Some b =>
      if size <? 24 then (false, t)
      else
        let h := unpack filetable_header_layout b in
        let n := field 3 h in
        if negb (field 0 h =? CHECKPOINT_FILETABLE_MAGIC)
           || negb (field 1 h =? CHECKPOINT_FILETABLE_VERSION)
           || (CHECKPOINT_FILETABLE_MAX <? n) then (false, t)
        else if size <? checkpoint_filetable_blob_size n then (false, t)
        else
          (true, & {| pid := field 2 h; count := n;
                      records := array_of file_of_bytes 152 (drop 24 b) n ++ drop (Z.to_nat n) (records t0) |})
  | _, _ => (false, t)
  end.

Definition checkpoint_filetable_find (t : ptr checkpoint_filetable_t) (f : Z)
  : ptr checkpoint_file_record_t :=
  match t with
  | NULL => NULL
  | Some t => find (fun r => fd r =? f) (take (Z.to_nat (count t)) (records t))
  end.

Definition path_is_terminated (p : list byte) : bool :=
  existsb (fun i => byte.unsigned (zget Byte.x00 p i) =? 0) (seqZ 0 CHECKPOINT_FILE_PATH_MAX).

Definition checkpoint_file_record_reopenable (r : ptr checkpoint_file_record_t) : bool :=
  match r with
  | NULL => false
  | Some r =>
      extstate_survives_checkpoint (kind r) && negb (byte.unsigned (zget Byte.x00 (path r) 0) =? 0)
  end.

Definition checkpoint_filetable_validate (t : ptr checkpoint_filetable_t) : bool :=
  match t with
  | NULL => false
  | Some k =>
      if CHECKPOINT_FILETABLE_MAX <? count k then false
      else
        for_all (count k) (fun i =>
          let r := zget file_null (records k) i in
          if negb (path_is_terminated (path r)) then false
          else for_all (count k - (i + 1)) (fun j =>
                 negb (fd (zget file_null (records k) (i + 1 + j)) =? fd r)))
  end.
End FileTable.

(** ** IPC channels and their queued messages *)
Module IpcTable.
Definition CHECKPOINT_IPC_MAGIC : Z := 0x494B49504331.
Definition CHECKPOINT_IPC_VERSION : Z := 1.
Definition CHECKPOINT_IPC_MAX_CHANNELS : Z := 32.
Definition CHECKPOINT_IPC_MAX_MESSAGES : Z := 16.
Definition CHECKPOINT_IPC_DATA_MAX : Z := 4096.

Record checkpoint_ipc_channel_t := {
  channel_id : Z;
  owner_pid : Z;
  permissions : Z;
  active : Z;
  ch_reserved : Z }.

Record checkpoint_ipc_message_t := {
  msg_channel_id : Z;
  type : Z;
  src_pid : Z;
  dst_pid : Z;
  message_id : Z;
  data_size : Z;
  msg_flags : Z;
  msg_reserved : Z;
  timestamp : Z;
  data : list byte }.

Record checkpoint_ipc_t := {
  channel_count : Z;
  message_count : Z;
  channels : list checkpoint_ipc_channel_t;
  messages : list checkpoint_ipc_message_t }.

Definition channel_layout : list nat := [4; 4; 4; 1; 3]%nat.
Definition channel_fields (c : checkpoint_ipc_channel_t) : list Z :=
  [channel_id c; owner_pid c; permissions c; active c; ch_reserved c].
Definition channel_bytes (c : checkpoint_ipc_channel_t) : list byte := pack channel_layout (channel_fields c).
Definition channel_of_bytes (bs : list byte) : checkpoint_ipc_channel_t :=
  let f := unpack channel_layout bs in
  {| channel_id := field 0 f; owner_pid := field 1 f; permissions := field 2 f; active := field 3 f;
     ch_reserved := field 4 f |}.
Definition channel_null : checkpoint_ipc_channel_t := channel_of_bytes [].

Definition message_layout : list nat := [4; 4; 4; 4; 4; 4; 4; 4; 8]%nat.
Definition message_fields (m : checkpoint_ipc_message_t) : list Z :=
  [msg_channel_id m; type m; src_pid m; dst_pid m; message_id m; data_size m; msg_flags m;
   msg_reserved m; timestamp m].
Definition message_bytes (m : checkpoint_ipc_message_t) : list byte :=
  pack message_layout (message_fields m) ++ data m.
Definition message_of_bytes (bs : list byte) : checkpoint_ipc_message_t :=
  let f := unpack message_layout bs in
  {| msg_channel_id := field 0 f; type := field 1 f; src_pid := field 2 f; dst_pid := field 3 f;
     message_id := field 4 f; data_size := field 5 f; msg_flags := field 6 f; msg_reserved := field 7 f;
     timestamp := field 8 f; data := take 4096 (drop 40 bs) |}.
Definition message_null : checkpoint_ipc_message_t := message_of_bytes [].

Definition ipc_header_layout : list nat := [8; 4; 4; 4; 4]%nat.

Definition checkpoint_ipc_blob_size (channel_count message_count : Z) : Z :=
  u32 (24 + u32 (channel_count * 16) + u32 (message_count * 4136)).

Definition checkpoint_ipc_serialize (t : ptr checkpoint_ipc_t) (buf : ptr (list byte)) (bufsize : Z)
  : Z * ptr (list byte) :=
  match t, buf with
  | Some t, Some b =>
      if (CHECKPOINT_IPC_MAX_CHANNELS <? channel_count t)
         || (CHECKPOINT_IPC_MAX_MESSAGES <? message_count t) then (0, buf)
      else
        let need := checkpoint_ipc_blob_size (channel_count t) (message_count t) in
        if bufsize <? need then (0, buf)
        else
          let h := pack ipc_header_layout
                     [CHECKPOINT_IPC_MAGIC; CHECKPOINT_IPC_VERSION; channel_count t; message_count t; 0] in
          let out := h ++ array_bytes channel_bytes (channels t) (channel_count t)
                       ++ array_bytes message_bytes (messages t) (message_count t) in
          (need, & (out ++ drop (length out) b))
  | _, _ => (0, buf)
  end.

Definition checkpoint_ipc_deserialize (t : ptr checkpoint_ipc_t) (buf : ptr (list byte)) (size : Z)
  : bool * ptr checkpoint_ipc_t :=
  match t, buf with
  | Some t0, Some b =>
      if size <? 24 then (false, t)
      else
        let h := unpack ipc_header_layout b in
        let nc := field 2 h in
        let nm := field 3 h in
        if negb (field 0 h =? CHECKPOINT_IPC_MAGIC)
           || negb (field 1 h =? CHECKPOINT_IPC_VERSION)
           || (CHECKPOINT_IPC_MAX_CHANNELS <? nc)
           || (CHECKPOINT_IPC_MAX_MESSAGES <? nm) then (false, t)
        else if size <? checkpoint_ipc_blob_size nc nm then (false, t)
        else
          let p := drop 24 b in
          (true,
           & {| channel_count := nc; message_count := nm;
                channels := array_of channel_of_bytes 16 p nc ++ drop (Z.to_nat nc) (channels t0);
                messages := array_of message_of_bytes 4136 (drop (Z.to_nat nc * 16) p) nm
                              ++ drop (Z.to_nat nm) (messages t0) |})
  | _, _ => (false, t)
  end.

Definition checkpoint_ipc_find_channel (t : ptr checkpoint_ipc_t) (c : Z) : ptr checkpoint_ipc_channel_t :=
  match t with
  | NULL => NULL
  | Some t => find (fun x => channel_id x =? c) (take (Z.to_nat (channel_count t)) (channels t))
  end.

Definition channels_ok (k : checkpoint_ipc_t) : bool :=
  for_all (channel_count k) (fun i =>
    if channel_id (zget channel_null (channels k) i) =? 0 then false
    else for_all (channel_count k - (i + 1)) (fun j =>
           negb (channel_id (zget channel_null (channels k) (i + 1 + j))
                 =? channel_id (zget channel_null (channels k) i)))).

Definition messages_ok (k : checkpoint_ipc_t) : bool :=
  for_all (message_count k) (fun i =>
    let m := zget message_null (messages k) i in
    if CHECKPOINT_IPC_DATA_MAX <? data_size m then false
    else match checkpoint_ipc_find_channel (& k) (msg_channel_id m) with NULL => false | Some _ => true end).

Definition checkpoint_ipc_validate (t : ptr checkpoint_ipc_t) : bool :=
  match t with
  | NULL => false
  | Some k =>
      if (CHECKPOINT_IPC_MAX_CHANNELS <? channel_count k)
         || (CHECKPOINT_IPC_MAX_MESSAGES <? message_count k) then false
      else channels_ok k && messages_ok k
  end.
End IpcTable.
