(* ===== verification/StateTablesSpec.v ===== *)
(** * Kernel tables survive being written and read back

    A record type with its byte image is a [RecordCodec]; an array of records
    round-trips because its records do, and each table because its header and
    arrays do. *)
From Stdlib Require Import ZArith Lia.
From S2P Require Import Prelude ExtState StateTables.
Open Scope Z_scope.
Open Scope c_scope.

(** ** Arrays of fixed-size records *)
Class RecordCodec (A : Type) (encode : A -> list byte) (decode : list byte -> A) (size : nat) := {
  codec_wf : A -> Prop;
  codec_length a : codec_wf a -> length (encode a) = size;
  codec_roundtrip a : codec_wf a -> decode (encode a) = a }.

Section arrays.
Context {A : Type} {encode : A -> list byte} {decode : list byte -> A} {size : nat}
  `{C : !RecordCodec A encode decode size}.

Lemma length_array_bytes (l : list A) n :
  0 <= n <= Z.of_nat (length l) -> Forall codec_wf (take (Z.to_nat n) l) ->
  length (array_bytes encode l n) = (Z.to_nat n * size)%nat.
Proof.
  intros Hn Hwf. unfold array_bytes. rewrite (length_mjoin_const encode size).
  - rewrite length_take. f_equal. lia.
  - intros x Hx. apply codec_length. exact (proj1 (Forall_forall _ _) Hwf x Hx).
Qed.

Lemma array_cons (x : A) n rest :
  codec_wf x -> 0 < n ->
  array_of decode size (encode x ++ rest) n = x :: array_of decode size rest (n - 1).
Proof.
  intros Hx Hn. unfold array_of. rewrite seqZ_cons by lia. rewrite fmap_cons. f_equal.
  - unfold chunk. change (Z.to_nat 0 * size)%nat with 0%nat. rewrite drop_0, take_app_length' by (rewrite codec_length; done).
    apply codec_roundtrip, Hx.
  - replace (seqZ (Z.succ 0) (Z.pred n)) with (Z.add 1 <$> seqZ 0 (n - 1))
      by (rewrite fmap_add_seqZ; f_equal; lia).
    rewrite <- list_fmap_compose. apply list_fmap_ext. intros i z Hz.
    apply lookup_seqZ in Hz as [-> Hi]. unfold compose, chunk. f_equal. f_equal.
    replace (Z.to_nat (1 + (0 + Z.of_nat i)) * size)%nat with (size + Z.to_nat (0 + Z.of_nat i) * size)%nat by nia.
    rewrite <- drop_drop. rewrite (drop_app_length' _ _ size) by (symmetry; apply codec_length, Hx). done.
Qed.

(** Reading an array back gives the records that were written. *)
Lemma array_roundtrip (l : list A) n rest :
  0 <= n <= Z.of_nat (length l) -> Forall codec_wf (take (Z.to_nat n) l) ->
  array_of decode size (array_bytes encode l n ++ rest) n = take (Z.to_nat n) l.
Proof.
  intros Hn. assert (exists k, n = Z.of_nat k) as [k ->] by (exists (Z.to_nat n); lia).
  unfold array_bytes. rewrite Nat2Z.id. revert l Hn; induction k as [|k IH]; intros l Hk Hwf; [reflexivity|].
  destruct l as [|x l]; [cbn [length] in Hk; lia|].
  cbn [take] in *. apply Forall_cons in Hwf as [Hx Hwf]. rewrite fmap_cons.
  change (mjoin (encode x :: (encode <$> take k l))) with (encode x ++ mjoin (encode <$> take k l)).
  rewrite <- app_assoc, (array_cons x _ _ Hx) by lia. f_equal.
  replace (Z.of_nat (S k) - 1) with (Z.of_nat k) by lia.
  apply IH; [cbn [length] in Hk; lia | exact Hwf].
Qed.
End arrays.

(** The codecs of the four record types. *)
Definition proc_wf (r : ProcTable.checkpoint_proc_record_t) : Prop :=
  Forall2 fits ProcTable.proc_layout (ProcTable.proc_fields r).
Definition file_wf (r : FileTable.checkpoint_file_record_t) : Prop :=
  Forall2 fits FileTable.file_layout (FileTable.file_fields r) /\ length (FileTable.path r) = 128%nat.
Definition channel_wf (c : IpcTable.checkpoint_ipc_channel_t) : Prop :=
  Forall2 fits IpcTable.channel_layout (IpcTable.channel_fields c).
Definition message_wf (m : IpcTable.checkpoint_ipc_message_t) : Prop :=
  Forall2 fits IpcTable.message_layout (IpcTable.message_fields m) /\ length (IpcTable.data m) = 4096%nat.

Lemma unpack_pack_all ws vs : Forall2 fits ws vs -> unpack ws (pack ws vs) = vs.
Proof. intros H. rewrite <- (app_nil_r (pack ws vs)). apply unpack_pack, H. Qed.

(** A packed header followed by a byte array of known length. *)
Lemma packed_tail {ws vs} (tail : list byte) (n : nat) :
  Forall2 fits ws vs -> sum_list ws = n ->
  drop n (pack ws vs ++ tail) = tail.
Proof.
  intros H Hn. apply drop_app_length'. rewrite length_pack by (eapply Forall2_length, H). symmetry; exact Hn.
Qed.

#[export] Program Instance proc_codec :
  RecordCodec _ ProcTable.proc_bytes ProcTable.proc_of_bytes 40 := {| codec_wf := proc_wf |}.
Next Obligation. intros a _. unfold ProcTable.proc_bytes. rewrite length_pack; reflexivity. Qed.
Next Obligation.
  intros [] H. unfold ProcTable.proc_bytes, ProcTable.proc_of_bytes.
  rewrite unpack_pack_all by exact H. reflexivity.
Qed.

#[export] Program Instance file_codec :
  RecordCodec _ FileTable.file_bytes FileTable.file_of_bytes 152 := {| codec_wf := file_wf |}.
Next Obligation.
  intros a [_ H]. unfold FileTable.file_bytes. rewrite length_app, length_pack, H by reflexivity. reflexivity.
Qed.
Next Obligation.
  intros [] [H Hp]. unfold FileTable.file_bytes, FileTable.file_of_bytes.
  rewrite unpack_pack, (packed_tail _ 24) by first [exact H | reflexivity].
  cbn [FileTable.path] in *. rewrite take_ge by lia. reflexivity.
Qed.

#[export] Program Instance channel_codec :
  RecordCodec _ IpcTable.channel_bytes IpcTable.channel_of_bytes 16 := {| codec_wf := channel_wf |}.
Next Obligation. intros a _. unfold IpcTable.channel_bytes. rewrite length_pack; reflexivity. Qed.
Next Obligation.
  intros [] H. unfold IpcTable.channel_bytes, IpcTable.channel_of_bytes.
  rewrite unpack_pack_all by exact H. reflexivity.
Qed.

#[export] Program Instance message_codec :
  RecordCodec _ IpcTable.message_bytes IpcTable.message_of_bytes 4136 := {| codec_wf := message_wf |}.
Next Obligation.
  intros a [_ H]. unfold IpcTable.message_bytes. rewrite length_app, length_pack, H by reflexivity. reflexivity.
Qed.
Next Obligation.
  intros [] [H Hp]. unfold IpcTable.message_bytes, IpcTable.message_of_bytes.
  rewrite unpack_pack, (packed_tail _ 40) by first [exact H | reflexivity].
  cbn [IpcTable.data] in *. rewrite take_ge by lia. reflexivity.
Qed.

(** ** Loops that check an array *)
Lemma for_all_spec n p : for_all n p = true <-> forall i, 0 <= i < n -> p i = true.
Proof.
  unfold for_all. rewrite forallb_forall. split; intros H i Hi.
  - apply H, list_elem_of_In, elem_of_seqZ. lia.
  - apply list_elem_of_In, elem_of_seqZ in Hi. apply H. lia.
Qed.

Lemma zget_in {A} (d : A) l (n : Z) i :
  0 <= i < n -> n <= Z.of_nat (length l) ->
  take (Z.to_nat n) l !! Z.to_nat i = Some (zget d l i).
Proof.
  intros Hi Hn. rewrite lookup_take_lt by lia.
  destruct (lookup_lt_is_Some_2 l (Z.to_nat i)) as [x Hx]; [lia|].
  rewrite Hx. unfold zget. rewrite (nth_lookup_Some _ _ _ _ Hx). reflexivity.
Qed.

(** The quadratic scan finds a repeated key exactly if there is one. *)
Lemma unique_scan {A} (key : A -> Z) d l n :
  n <= Z.of_nat (length l) ->
  (forall i, 0 <= i < n ->
     for_all (n - (i + 1)) (fun j => negb (key (zget d l (i + 1 + j)) =? key (zget d l i))) = true) <->
  NoDup (key <$> take (Z.to_nat n) l).
Proof.
  intros Hn. rewrite NoDup_alt. split.
  - intros H. assert (forall i j x, (i < j)%nat ->
      (key <$> take (Z.to_nat n) l) !! i = Some x ->
      (key <$> take (Z.to_nat n) l) !! j = Some x -> False) as Hlt.
    { intros i j x Hij Hi Hj.
      apply list_lookup_fmap_Some in Hi as (a & -> & Ha).
      apply list_lookup_fmap_Some in Hj as (b & Hk & Hb).
      pose proof (lookup_lt_Some _ _ _ Hb) as Hjn. rewrite length_take in Hjn.
      specialize (H (Z.of_nat i) ltac:(lia)). rewrite for_all_spec in H.
      specialize (H (Z.of_nat j - Z.of_nat i - 1) ltac:(lia)).
      replace (Z.of_nat i + 1 + (Z.of_nat j - Z.of_nat i - 1)) with (Z.of_nat j) in H by lia.
      rewrite (zget_take d _ _ _ _ Ha), (zget_take d _ _ _ _ Hb), Hk, Z.eqb_refl in H. discriminate. }
    intros i j x Hi Hj. destruct (lt_eq_lt_dec i j) as [[Hij|]|Hij]; [|assumption|];
      exfalso; eauto.
  - intros H i Hi. apply for_all_spec. intros j Hj. apply negb_true_iff, Z.eqb_neq. intros He.
    pose proof (zget_in d l n i Hi Hn) as Ha. pose proof (zget_in d l n (i + 1 + j) ltac:(lia) Hn) as Hb.
    specialize (H (Z.to_nat i) (Z.to_nat (i + 1 + j)) (key (zget d l i))).
    rewrite !list_lookup_fmap, Ha, Hb in H. cbn in H. rewrite He in H.
    specialize (H eq_refl eq_refl). lia.
Qed.

(** Every element of the used prefix. *)
Lemma used_forall {A} (P : A -> Prop) d l n :
  n <= Z.of_nat (length l) ->
  (forall i, 0 <= i < n -> P (zget d l i)) <-> Forall P (take (Z.to_nat n) l).
Proof.
  intros Hn. rewrite Forall_lookup. split.
  - intros H i x Hx. pose proof (lookup_lt_Some _ _ _ Hx) as Hi. rewrite length_take in Hi.
    rewrite <- (zget_take d _ _ _ _ Hx). apply H. lia.
  - intros H i Hi. eapply H, zget_in; [exact Hi | exact Hn].
Qed.

Lemma find_key_spec {A} (key : A -> Z) (l : list A) k :
  (exists x, find (fun r => key r =? k) l = Some x) <-> k ∈ key <$> l.
Proof.
  split.
  - intros [x Hx]. apply find_some in Hx as [Hin Hk]. apply Z.eqb_eq in Hk. subst k.
    apply list_elem_of_fmap_2, list_elem_of_In, Hin.
  - intros (x & -> & Hin)%list_elem_of_fmap.
    destruct (find (fun r => key r =? key x) l) as [y|] eqn:E; [exists y; reflexivity|].
    apply list_elem_of_In in Hin. apply (find_none _ _ E) in Hin. rewrite Z.eqb_refl in Hin. discriminate.
Qed.

(** The end of a destination array that a read leaves alone. *)
Lemma take_app_used {A} (l rest : list A) (n : Z) :
  0 <= n <= Z.of_nat (length l) -> take (Z.to_nat n) (take (Z.to_nat n) l ++ rest) = take (Z.to_nat n) l.
Proof. intros Hn. apply take_app_length'. rewrite length_take. lia. Qed.

Lemma header_read {ws vs} tail i v :
  Forall2 fits ws vs -> nth i vs 0 = v -> field i (unpack ws (pack ws vs ++ tail)) = v.
Proof. intros H Hv. rewrite unpack_pack by exact H. exact Hv. Qed.

(** ** The process table *)
Module ProcTableSpec.
Import ProcTable.

Definition live (t : checkpoint_proctable_t) : list checkpoint_proc_record_t :=
  take (Z.to_nat (count t)) (procs t).

Record table_wf (t : checkpoint_proctable_t) : Prop := {
  wf_count : 0 <= count t <= CHECKPOINT_PROCTABLE_MAX;
  wf_array : length (procs t) = Z.to_nat CHECKPOINT_PROCTABLE_MAX;
  wf_live : Forall proc_wf (live t) }.

(** A link is absent or names a process of the table. *)
Definition link_ok (t : checkpoint_proctable_t) (x : Z) : Prop := x = 0 \/ x ∈ pid <$> live t.

Definition record_ok (t : checkpoint_proctable_t) (r : checkpoint_proc_record_t) : Prop :=
  pid r <> 0 /\ link_ok t (ppid r) /\ link_ok t (first_child_pid r) /\ link_ok t (next_sibling_pid r).

Record consistent (t : checkpoint_proctable_t) : Prop := {
  pids_unique : NoDup (pid <$> live t);
  records_ok : Forall (record_ok t) (live t) }.

Lemma proc_blob_size_eq n : 0 <= n <= CHECKPOINT_PROCTABLE_MAX -> checkpoint_proctable_blob_size n = 16 + n * 40.
Proof. unfold CHECKPOINT_PROCTABLE_MAX, checkpoint_proctable_blob_size. intros.
  rewrite (u32_id (n * 40)) by lia. apply u32_id. lia.
Qed.

Lemma dangling_spec t x : dangling t x = false <-> link_ok t x.
Proof.
  unfold dangling, link_ok. cbn [checkpoint_proctable_find]. fold (live t).
  destruct (Z.eqb_spec x 0) as [->|Hx]; cbn [negb andb]; [tauto|].
  rewrite <- (find_key_spec pid). destruct (find _ _) as [y|]; split; eauto; try discriminate.
  intros [?|[y ?]]; [contradiction | discriminate].
Qed.

Lemma proc_validate_spec t : table_wf t -> checkpoint_proctable_validate (& t) = true <-> consistent t.
Proof.
  intros [Hc Ha _]. unfold checkpoint_proctable_validate.
  rewrite (proj2 (Z.ltb_ge _ _)) by lia. rewrite for_all_spec.
  assert (count t <= Z.of_nat (length (procs t))) as Hn by (rewrite Ha; lia).
  transitivity ((forall i, 0 <= i < count t ->
      for_all (count t - (i + 1)) (fun j =>
        negb (pid (zget proc_null (procs t) (i + 1 + j)) =? pid (zget proc_null (procs t) i))) = true) /\
    (forall i, 0 <= i < count t -> record_ok t (zget proc_null (procs t) i))).
  - split.
    + intros H. split; intros i Hi; specialize (H i Hi); revert H; unfold record_ok; cbv beta zeta;
        destruct (Z.eqb_spec (pid (zget proc_null (procs t) i)) 0); try discriminate;
        destruct (for_all _ _); cbn [negb]; try discriminate; try reflexivity;
        rewrite <- !dangling_spec; repeat (destruct (dangling _ _); try discriminate); tauto.
    + intros [Hu Hr] i Hi. specialize (Hu i Hi). specialize (Hr i Hi). revert Hr. unfold record_ok. cbv beta zeta.
      rewrite Hu, <- !dangling_spec. intros (Hp & -> & -> & ->).
      apply Z.eqb_neq in Hp. rewrite Hp. reflexivity.
  - rewrite (unique_scan pid proc_null) by exact Hn.
    rewrite (used_forall (record_ok t) proc_null) by exact Hn.
    split; [intros []; by constructor | intros []; by split].
Qed.

(** The bytes of a table. *)
Definition image (t : checkpoint_proctable_t) : list byte :=
  pack proctable_header_layout [CHECKPOINT_PROCTABLE_MAGIC; CHECKPOINT_PROCTABLE_VERSION; count t]
    ++ array_bytes proc_bytes (procs t) (count t).

Lemma proc_header_wf t : table_wf t ->
  Forall2 fits proctable_header_layout
    [CHECKPOINT_PROCTABLE_MAGIC; CHECKPOINT_PROCTABLE_VERSION; count t].
Proof. intros [Hc _ _]. unfold CHECKPOINT_PROCTABLE_MAX in Hc. fits_fields. Qed.

Lemma proc_array_room t : table_wf t -> 0 <= count t <= Z.of_nat (length (procs t)).
Proof. intros [Hc Ha _]. rewrite Ha. unfold CHECKPOINT_PROCTABLE_MAX in *. lia. Qed.

Lemma proc_length_image t : table_wf t -> length (image t) = Z.to_nat (16 + count t * 40).
Proof.
  intros Hwf. pose proof (proc_array_room t Hwf). unfold image.
  rewrite length_app, length_array_bytes by first [apply Hwf | lia].
  rewrite length_pack by reflexivity.
  change (sum_list proctable_header_layout) with 16%nat. lia.
Qed.

Lemma proc_serialize_image t buf :
  table_wf t -> 16 + count t * 40 <= Z.of_nat (length buf) ->
  checkpoint_proctable_serialize (& t) (& buf) (Z.of_nat (length buf)) =
  (16 + count t * 40, & (image t ++ drop (length (image t)) buf)).
Proof.
  intros Hwf Hb. pose proof (wf_count t Hwf) as Hc. unfold checkpoint_proctable_serialize.
  rewrite (proj2 (Z.ltb_ge _ _)) by lia. rewrite proc_blob_size_eq by exact Hc.
  rewrite (proj2 (Z.ltb_ge _ _)) by lia. reflexivity.
Qed.

(** What a read of [t]'s image leaves in [t0]. *)
Definition restored (t t0 : checkpoint_proctable_t) : checkpoint_proctable_t :=
  {| procs := live t ++ drop (Z.to_nat (count t)) (procs t0); count := count t |}.

Lemma proc_live_restored t t0 : table_wf t -> live (restored t t0) = live t.
Proof. intros Hwf. apply take_app_used, proc_array_room, Hwf. Qed.

Lemma proc_deserialize_image t t0 rest size :
  table_wf t ->
  checkpoint_proctable_deserialize (& t0) (& (image t ++ rest)) size =
  if size <? 16 + count t * 40 then (false, & t0) else (true, & (restored t t0)).
Proof.
  intros Hwf. pose proof (wf_count t Hwf) as Hc. pose proof (proc_header_wf t Hwf) as Hh.
  unfold checkpoint_proctable_deserialize, image. rewrite <- app_assoc.
  destruct (size <? 16) eqn:E16; zbool; [rewrite (proj2 (Z.ltb_lt _ _)) by lia; reflexivity|].
  rewrite (header_read _ 0 CHECKPOINT_PROCTABLE_MAGIC Hh eq_refl),
    (header_read _ 1 CHECKPOINT_PROCTABLE_VERSION Hh eq_refl), (header_read _ 2 (count t) Hh eq_refl).
  rewrite !Z.eqb_refl, (proj2 (Z.ltb_ge _ _)) by lia. cbn [negb orb].
  rewrite proc_blob_size_eq by exact Hc. destruct (size <? 16 + count t * 40); [reflexivity|].
  rewrite (packed_tail _ 16 Hh eq_refl), array_roundtrip by first [apply Hwf | apply proc_array_room, Hwf].
  reflexivity.
Qed.

Lemma proc_restored_wf t t0 :
  table_wf t -> length (procs t0) = Z.to_nat CHECKPOINT_PROCTABLE_MAX -> table_wf (restored t t0).
Proof.
  intros Hwf Hd. constructor; [apply Hwf | | rewrite proc_live_restored by exact Hwf; apply Hwf].
  pose proof (proc_array_room t Hwf). pose proof (wf_count t Hwf). unfold restored, live. cbn [procs].
  rewrite length_app, length_take, length_drop, Hd. unfold CHECKPOINT_PROCTABLE_MAX in *. lia.
Qed.

(** The process table survives a checkpoint.  A well-formed table of [n]
    processes written into a buffer of at least [16 + 40 n] bytes is read back
    over any other table as exactly the same live records, leaving the rest of
    the destination and of the buffer alone; the result validates if and only
    if the pids of the original are unique and nonzero and every parent, child
    and sibling link names a process of the table; and a blob cut short
    anywhere is refused without touching the destination. *)
Theorem proctable_roundtrip (t t0 : checkpoint_proctable_t) (buf : list byte)
    (Hwf : table_wf t) (Hdst : length (procs t0) = Z.to_nat CHECKPOINT_PROCTABLE_MAX)
    (Hbuf : 16 + count t * 40 <= Z.of_nat (length buf)) :
  exists buf' t',
    checkpoint_proctable_serialize (& t) (& buf) (Z.of_nat (length buf)) = (16 + count t * 40, & buf') /\
    drop (Z.to_nat (16 + count t * 40)) buf' = drop (Z.to_nat (16 + count t * 40)) buf /\
    live t' = live t /\ drop (Z.to_nat (count t)) (procs t') = drop (Z.to_nat (count t)) (procs t0) /\
    (checkpoint_proctable_validate (& t') = true <-> consistent t) /\
    (forall size, checkpoint_proctable_deserialize (& t0) (& buf') size =
       if size <? 16 + count t * 40 then (false, & t0) else (true, & t')).
Proof.
  exists (image t ++ drop (length (image t)) buf), (restored t t0).
  split; [exact (proc_serialize_image t buf Hwf Hbuf)|].
  split; [rewrite <- (proc_length_image t Hwf); apply drop_app_length|].
  split; [exact (proc_live_restored t t0 Hwf)|].
  split; [apply drop_app_length'; pose proof (proc_array_room t Hwf); unfold live; rewrite length_take; lia|].
  split; [|intros size; exact (proc_deserialize_image t t0 _ size Hwf)].
  rewrite proc_validate_spec by exact (proc_restored_wf t t0 Hwf Hdst).
  split; intros [Hp Hr]; constructor; unfold record_ok, link_ok in *;
    rewrite ?(proc_live_restored t t0 Hwf) in *; assumption.
Qed.

(** A shell, its parent and its child. *)
Definition example_procs : checkpoint_proctable_t :=
  let p pid ppid child := {| pid := pid; ppid := ppid; state := 1; priority := 2; alarm_time := 77;
    first_child_pid := child; next_sibling_pid := 0; on_ready_queue := 1; reserved := 0; ready_order := pid |} in
  {| procs := [p 1 0 2; p 2 1 3; p 3 2 0] ++ replicate 253 proc_null; count := 3 |}.
Definition empty_table : checkpoint_proctable_t := {| procs := replicate 256 proc_null; count := 0 |}.

Lemma proctable_roundtrip_witness :
  table_wf example_procs /\ length (procs empty_table) = Z.to_nat CHECKPOINT_PROCTABLE_MAX /\
  16 + count example_procs * 40 <= Z.of_nat (length (zeros 200)) /\
  exists buf' t',
    checkpoint_proctable_serialize (& example_procs) (& (zeros 200)) 200 = (136, & buf') /\
    live t' = live example_procs /\
    checkpoint_proctable_deserialize (& empty_table) (& buf') 136 = (true, & t').
Proof.
  assert (table_wf example_procs) as Hwf.
  { constructor; [split; discriminate | reflexivity|].
    change (live example_procs) with (take 3 (procs example_procs)).
    repeat (apply Forall_cons; split; [unfold proc_wf; fits_fields|]). apply Forall_nil; exact I. }
  assert (length (procs empty_table) = Z.to_nat CHECKPOINT_PROCTABLE_MAX) as Hd by reflexivity.
  assert (16 + count example_procs * 40 <= Z.of_nat (length (zeros 200))) as Hb by (vm_compute; discriminate).
  split; [exact Hwf | split; [exact Hd | split; [exact Hb|]]].
  destruct (proctable_roundtrip example_procs empty_table (zeros 200) Hwf Hd Hb)
    as (buf' & t' & H1 & _ & H3 & _ & _ & H6).
  exists buf', t'. split; [exact H1 | split; [exact H3 | exact (H6 136)]].
Defined.
End ProcTableSpec.

(** ** Open files *)
Module FileTableSpec.
Import FileTable.

Definition live (t : checkpoint_filetable_t) : list checkpoint_file_record_t :=
  take (Z.to_nat (count t)) (records t).

Record table_wf (t : checkpoint_filetable_t) : Prop := {
  wf_pid : fits 4 (pid t);
  wf_count : 0 <= count t <= CHECKPOINT_FILETABLE_MAX;
  wf_array : length (records t) = Z.to_nat CHECKPOINT_FILETABLE_MAX;
  wf_live : Forall file_wf (live t) }.

(** Descriptors are unique and every path is a C string. *)
Definition consistent (t : checkpoint_filetable_t) : Prop :=
  NoDup (fd <$> live t) /\ Forall (fun r => Byte.x00 ∈ path r) (live t).

Lemma path_terminated_spec p :
  length p = 128%nat -> path_is_terminated p = true <-> Byte.x00 ∈ p.
Proof.
  intros Hp. unfold path_is_terminated. rewrite existsb_exists. split.
  - intros (i & Hi & Hz). apply Z.eqb_eq in Hz.
    apply list_elem_of_In, elem_of_seqZ in Hi. unfold CHECKPOINT_FILE_PATH_MAX in Hi.
    destruct (lookup_lt_is_Some_2 p (Z.to_nat i)) as [x Hx]; [lia|].
    unfold zget in Hz. rewrite (nth_lookup_Some _ _ _ _ Hx) in Hz.
    apply (f_equal byte.of_Z) in Hz. rewrite byte.of_Z_unsigned in Hz. cbn in Hz. subst x.
    apply (list_elem_of_lookup_2 _ _ _ Hx).
  - intros [i Hi]%list_elem_of_lookup_1. exists (Z.of_nat i). split.
    + apply list_elem_of_In, elem_of_seqZ. apply lookup_lt_Some in Hi.
      unfold CHECKPOINT_FILE_PATH_MAX. lia.
    + rewrite (zget_lookup _ _ _ _ Hi). reflexivity.
Qed.

Lemma file_array_room t : table_wf t -> 0 <= count t <= Z.of_nat (length (records t)).
Proof. intros [_ Hc Ha _]. rewrite Ha. unfold CHECKPOINT_FILETABLE_MAX in *. lia. Qed.

Lemma file_validate_spec t : table_wf t -> checkpoint_filetable_validate (& t) = true <-> consistent t.
Proof.
  intros Hwf. pose proof (file_array_room t Hwf) as Hn. pose proof (wf_count t Hwf) as Hc.
  unfold checkpoint_filetable_validate. rewrite (proj2 (Z.ltb_ge _ _)) by lia. rewrite for_all_spec.
  unfold consistent, live. rewrite <- (unique_scan fd file_null) by lia.
  rewrite <- (used_forall (fun r => Byte.x00 ∈ path r) file_null) by lia.
  assert (forall i, 0 <= i < count t ->
    path_is_terminated (path (zget file_null (records t) i)) = true <->
    Byte.x00 ∈ path (zget file_null (records t) i)) as Hpath.
  { intros i Hi. apply path_terminated_spec.
    pose proof (proj2 (used_forall file_wf file_null (records t) (count t) ltac:(lia)) (wf_live t Hwf) i Hi) as [_ Hl].
    exact Hl. }
  split.
  - intros H. split; intros i Hi; specialize (H i Hi); cbv zeta in H; specialize (Hpath i Hi);
      destruct (path_is_terminated _); cbn [negb] in H; try discriminate; [exact H | by apply Hpath].
  - intros [Hu Ht] i Hi. cbv zeta. rewrite (proj2 (Hpath i Hi) (Ht i Hi)). exact (Hu i Hi).
Qed.

Definition header (t : checkpoint_filetable_t) : list Z :=
  [CHECKPOINT_FILETABLE_MAGIC; CHECKPOINT_FILETABLE_VERSION; pid t; count t; 0].
Definition image (t : checkpoint_filetable_t) : list byte :=
  pack filetable_header_layout (header t) ++ array_bytes file_bytes (records t) (count t).
Definition restored (t t0 : checkpoint_filetable_t) : checkpoint_filetable_t :=
  {| pid := pid t; count := count t; records := live t ++ drop (Z.to_nat (count t)) (records t0) |}.

Lemma file_header_wf t : table_wf t -> Forall2 fits filetable_header_layout (header t).
Proof. intros [Hp Hc _ _]. unfold header, CHECKPOINT_FILETABLE_MAX in *. fits_fields. Qed.

Lemma file_blob_size_eq n : 0 <= n <= CHECKPOINT_FILETABLE_MAX -> checkpoint_filetable_blob_size n = 24 + n * 152.
Proof.
  unfold CHECKPOINT_FILETABLE_MAX, checkpoint_filetable_blob_size. intros.
  rewrite (u32_id (n * 152)) by lia. apply u32_id. lia.
Qed.

Lemma file_length_image t : table_wf t -> length (image t) = Z.to_nat (24 + count t * 152).
Proof.
  intros Hwf. pose proof (file_array_room t Hwf). unfold image.
  rewrite length_app, length_array_bytes by first [apply Hwf | lia].
  rewrite length_pack by reflexivity.
  change (sum_list filetable_header_layout) with 24%nat. lia.
Qed.

Lemma file_serialize_image t buf :
  table_wf t -> 24 + count t * 152 <= Z.of_nat (length buf) ->
  checkpoint_filetable_serialize (& t) (& buf) (Z.of_nat (length buf)) =
  (24 + count t * 152, & (image t ++ drop (length (image t)) buf)).
Proof.
  intros Hwf Hb. pose proof (wf_count t Hwf) as Hc. unfold checkpoint_filetable_serialize.
  rewrite (proj2 (Z.ltb_ge _ _)) by lia. rewrite file_blob_size_eq by exact Hc.
  rewrite (proj2 (Z.ltb_ge _ _)) by lia. reflexivity.
Qed.

Lemma file_deserialize_image t t0 rest size :
  table_wf t ->
  checkpoint_filetable_deserialize (& t0) (& (image t ++ rest)) size =
  if size <? 24 + count t * 152 then (false, & t0) else (true, & (restored t t0)).
Proof.
  intros Hwf. pose proof (wf_count t Hwf) as Hc. pose proof (file_header_wf t Hwf) as Hh.
  unfold checkpoint_filetable_deserialize, image. rewrite <- app_assoc.
  destruct (size <? 24) eqn:E; zbool; [rewrite (proj2 (Z.ltb_lt _ _)) by lia; reflexivity|].
  rewrite (header_read _ 0 CHECKPOINT_FILETABLE_MAGIC Hh eq_refl),
    (header_read _ 1 CHECKPOINT_FILETABLE_VERSION Hh eq_refl),
    (header_read _ 2 (pid t) Hh eq_refl), (header_read _ 3 (count t) Hh eq_refl).
  rewrite !Z.eqb_refl, (proj2 (Z.ltb_ge _ _)) by lia. cbn [negb orb].
  rewrite file_blob_size_eq by exact Hc. destruct (size <? 24 + count t * 152); [reflexivity|].
  rewrite (packed_tail _ 24 Hh eq_refl), array_roundtrip by first [apply Hwf | apply file_array_room, Hwf].
  reflexivity.
Qed.

Lemma file_live_restored t t0 : table_wf t -> live (restored t t0) = live t.
Proof. intros Hwf. apply take_app_used, file_array_room, Hwf. Qed.

Lemma file_restored_wf t t0 :
  table_wf t -> length (records t0) = Z.to_nat CHECKPOINT_FILETABLE_MAX -> table_wf (restored t t0).
Proof.
  intros Hwf Hd. constructor; [apply Hwf | apply Hwf | | rewrite file_live_restored by exact Hwf; apply Hwf].
  pose proof (file_array_room t Hwf). pose proof (wf_count t Hwf). unfold restored, live. cbn [records].
  rewrite length_app, length_take, length_drop, Hd. unfold CHECKPOINT_FILETABLE_MAX in *. lia.
Qed.

(** A process's open files survive a checkpoint.  A well-formed table of
    [n] descriptors written into a buffer of at least [24 + 152 n] bytes is
    read back with its pid and exactly its live records; the result validates
    if and only if the descriptors are unique and every path is a C string; a
    restored descriptor is reopened exactly if it is a regular file with a
    path; and a blob cut short anywhere is refused. *)
Theorem filetable_roundtrip (t t0 : checkpoint_filetable_t) (buf : list byte)
    (Hwf : table_wf t) (Hdst : length (records t0) = Z.to_nat CHECKPOINT_FILETABLE_MAX)
    (Hbuf : 24 + count t * 152 <= Z.of_nat (length buf)) :
  exists buf' t',
    checkpoint_filetable_serialize (& t) (& buf) (Z.of_nat (length buf)) = (24 + count t * 152, & buf') /\
    pid t' = pid t /\ live t' = live t /\
    (checkpoint_filetable_validate (& t') = true <-> consistent t) /\
    Forall (fun r => checkpoint_file_record_reopenable (& r) = true <->
              kind r = EXTSTATE_REGULAR_FILE /\ zget Byte.x00 (path r) 0 <> Byte.x00) (live t') /\
    (forall size, checkpoint_filetable_deserialize (& t0) (& buf') size =
       if size <? 24 + count t * 152 then (false, & t0) else (true, & t')).
Proof.
  exists (image t ++ drop (length (image t)) buf), (restored t t0).
  split; [exact (file_serialize_image t buf Hwf Hbuf)|]. split; [reflexivity|].
  split; [exact (file_live_restored t t0 Hwf)|].
  split; [|split; [|intros size; exact (file_deserialize_image t t0 _ size Hwf)]].
  - rewrite file_validate_spec by exact (file_restored_wf t t0 Hwf Hdst). unfold consistent.
    rewrite (file_live_restored t t0 Hwf). reflexivity.
  - apply Forall_forall. intros r _. unfold checkpoint_file_record_reopenable.
    rewrite andb_true_iff, negb_true_iff, Z.eqb_neq.
    assert (extstate_survives_checkpoint (kind r) = true <-> kind r = EXTSTATE_REGULAR_FILE) as ->.
    { unfold extstate_survives_checkpoint. destruct (Z.eqb_spec (kind r) EXTSTATE_REGULAR_FILE); [tauto|].
      destruct (_ || _ || _ || _); split; congruence. }
    apply and_iff_compat_l. split; intros H Hz; apply H.
    + rewrite Hz. reflexivity.
    + apply (f_equal byte.of_Z) in Hz. rewrite byte.of_Z_unsigned in Hz. exact Hz.
Qed.

(** A file and a socket of process 5. *)
Definition example_files : checkpoint_filetable_t :=
  let f fd kind path := {| fd := fd; flags := 2; offset := 100; kind := kind; reserved := 0; path := path |} in
  {| pid := 5; count := 2;
     records := [f 3 0 (zero_padded 128 [Byte.x2f; Byte.x61]); f 4 1 (zeros 128)] ++ replicate 62 file_null |}.

Lemma filetable_roundtrip_witness :
  table_wf example_files /\ 24 + count example_files * 152 <= Z.of_nat (length (zeros 400)) /\
  exists buf' t',
    checkpoint_filetable_serialize (& example_files) (& (zeros 400)) 400 = (328, & buf') /\
    live t' = live example_files /\
    checkpoint_filetable_deserialize (& example_files) (& buf') 400 = (true, & t').
Proof.
  assert (table_wf example_files) as Hwf.
  { constructor; [split; reflexivity || discriminate | split; discriminate | reflexivity|].
    change (live example_files) with (take 2 (records example_files)).
    repeat (apply Forall_cons; split; [split; [fits_fields | reflexivity]|]). apply Forall_nil; exact I. }
  assert (24 + count example_files * 152 <= Z.of_nat (length (zeros 400))) as Hb by (vm_compute; discriminate).
  split; [exact Hwf | split; [exact Hb|]].
  destruct (filetable_roundtrip example_files example_files (zeros 400) Hwf eq_refl Hb)
    as (buf' & t' & H1 & _ & H3 & _ & _ & H6).
  exists buf', t'. split; [exact H1 | split; [exact H3 | exact (H6 400)]].
Defined.
End FileTableSpec.

(** ** IPC channels and messages *)
Module IpcTableSpec.
Import IpcTable.

Definition live_channels (t : checkpoint_ipc_t) : list checkpoint_ipc_channel_t :=
  take (Z.to_nat (channel_count t)) (channels t).
Definition queued (t : checkpoint_ipc_t) : list checkpoint_ipc_message_t :=
  take (Z.to_nat (message_count t)) (messages t).

Record table_wf (t : checkpoint_ipc_t) : Prop := {
  wf_nchannels : 0 <= channel_count t <= CHECKPOINT_IPC_MAX_CHANNELS;
  wf_nmessages : 0 <= message_count t <= CHECKPOINT_IPC_MAX_MESSAGES;
  wf_channels : length (channels t) = Z.to_nat CHECKPOINT_IPC_MAX_CHANNELS;
  wf_messages : length (messages t) = Z.to_nat CHECKPOINT_IPC_MAX_MESSAGES;
  wf_live : Forall channel_wf (live_channels t);
  wf_queued : Forall message_wf (queued t) }.

(** Every queued message belongs to a channel of the table. *)
Record consistent (t : checkpoint_ipc_t) : Prop := {
  ids_nonzero : Forall (fun c => channel_id c <> 0) (live_channels t);
  ids_unique : NoDup (channel_id <$> live_channels t);
  queued_ok : Forall (fun m => data_size m <= CHECKPOINT_IPC_DATA_MAX /\
                               msg_channel_id m ∈ channel_id <$> live_channels t) (queued t) }.

Lemma channels_room t : table_wf t -> 0 <= channel_count t <= Z.of_nat (length (channels t)).
Proof. intros [Hc _ Ha _ _ _]. rewrite Ha. unfold CHECKPOINT_IPC_MAX_CHANNELS in *. lia. Qed.
Lemma messages_room t : table_wf t -> 0 <= message_count t <= Z.of_nat (length (messages t)).
Proof. intros [_ Hc _ Ha _ _]. rewrite Ha. unfold CHECKPOINT_IPC_MAX_MESSAGES in *. lia. Qed.

Lemma channels_ok_spec t :
  table_wf t -> channels_ok t = true <->
  Forall (fun c => channel_id c <> 0) (live_channels t) /\ NoDup (channel_id <$> live_channels t).
Proof.
  intros Hwf. pose proof (channels_room t Hwf) as Hn. unfold channels_ok. rewrite for_all_spec.
  unfold live_channels. rewrite <- (unique_scan channel_id channel_null) by lia.
  rewrite <- (used_forall (fun c => channel_id c <> 0) channel_null) by lia. split.
  - intros H. split; intros i Hi; specialize (H i Hi);
      destruct (Z.eqb_spec (channel_id (zget channel_null (channels t) i)) 0); try discriminate; assumption.
  - intros [Hz Hu] i Hi. rewrite (proj2 (Z.eqb_neq _ _) (Hz i Hi)). exact (Hu i Hi).
Qed.

Lemma messages_ok_spec t :
  table_wf t -> messages_ok t = true <->
  Forall (fun m => data_size m <= CHECKPOINT_IPC_DATA_MAX /\
                   msg_channel_id m ∈ channel_id <$> live_channels t) (queued t).
Proof.
  intros Hwf. pose proof (messages_room t Hwf) as Hn. unfold messages_ok, queued. rewrite for_all_spec.
  rewrite <- (used_forall (fun m => data_size m <= CHECKPOINT_IPC_DATA_MAX /\
    msg_channel_id m ∈ channel_id <$> live_channels t) message_null) by lia.
  cbn [checkpoint_ipc_find_channel]. fold (live_channels t).
  enough (forall m, (if CHECKPOINT_IPC_DATA_MAX <? data_size m then false
      else match find (fun x => channel_id x =? msg_channel_id m) (live_channels t) with
           | NULL => false | Some _ => true end) = true <->
      data_size m <= CHECKPOINT_IPC_DATA_MAX /\ msg_channel_id m ∈ channel_id <$> live_channels t) as H
    by (split; intros Hm i Hi; apply H, Hm, Hi).
  intros m. rewrite <- (find_key_spec channel_id).
  destruct (CHECKPOINT_IPC_DATA_MAX <? data_size m) eqn:E; zbool; [split; [discriminate | lia]|].
  destruct (find _ _) as [c|]; split; try discriminate; eauto.
  intros [_ [c ?]]. discriminate.
Qed.

Lemma ipc_validate_spec t : table_wf t -> checkpoint_ipc_validate (& t) = true <-> consistent t.
Proof.
  intros Hwf. unfold checkpoint_ipc_validate.
  rewrite (proj2 (Z.ltb_ge _ _)) by apply Hwf. rewrite (proj2 (Z.ltb_ge _ _)) by apply Hwf. cbn [orb].
  rewrite andb_true_iff, channels_ok_spec, messages_ok_spec by exact Hwf.
  split; [intros [[] ?]; by constructor | intros []; tauto].
Qed.

Definition header (t : checkpoint_ipc_t) : list Z :=
  [CHECKPOINT_IPC_MAGIC; CHECKPOINT_IPC_VERSION; channel_count t; message_count t; 0].
Definition image (t : checkpoint_ipc_t) : list byte :=
  pack ipc_header_layout (header t) ++ array_bytes channel_bytes (channels t) (channel_count t)
    ++ array_bytes message_bytes (messages t) (message_count t).
Definition restored (t t0 : checkpoint_ipc_t) : checkpoint_ipc_t :=
  {| channel_count := channel_count t; message_count := message_count t;
     channels := live_channels t ++ drop (Z.to_nat (channel_count t)) (channels t0);
     messages := queued t ++ drop (Z.to_nat (message_count t)) (messages t0) |}.
(** The bytes a table takes. *)
Definition size_of (t : checkpoint_ipc_t) : Z := 24 + channel_count t * 16 + message_count t * 4136.

Lemma ipc_header_wf t : table_wf t -> Forall2 fits ipc_header_layout (header t).
Proof.
  intros [Hc Hm _ _ _ _].
  unfold header, CHECKPOINT_IPC_MAX_CHANNELS, CHECKPOINT_IPC_MAX_MESSAGES in *. fits_fields.
Qed.

Lemma ipc_blob_size_eq t :
  table_wf t -> checkpoint_ipc_blob_size (channel_count t) (message_count t) = size_of t.
Proof.
  intros [Hc Hm _ _ _ _]. unfold checkpoint_ipc_blob_size, size_of.
  unfold CHECKPOINT_IPC_MAX_CHANNELS, CHECKPOINT_IPC_MAX_MESSAGES in *.
  rewrite (u32_id (_ * 16)), (u32_id (_ * 4136)) by lia. apply u32_id. lia.
Qed.

Lemma ipc_serialize_image t buf :
  table_wf t -> size_of t <= Z.of_nat (length buf) ->
  checkpoint_ipc_serialize (& t) (& buf) (Z.of_nat (length buf)) =
  (size_of t, & (image t ++ drop (length (image t)) buf)).
Proof.
  intros Hwf Hb. unfold checkpoint_ipc_serialize.
  rewrite (proj2 (Z.ltb_ge _ _)) by apply Hwf. rewrite (proj2 (Z.ltb_ge _ _)) by apply Hwf. cbn [orb].
  rewrite ipc_blob_size_eq by exact Hwf. rewrite (proj2 (Z.ltb_ge _ _)) by lia. reflexivity.
Qed.

Lemma ipc_deserialize_image t t0 rest size :
  table_wf t ->
  checkpoint_ipc_deserialize (& t0) (& (image t ++ rest)) size =
  if size <? size_of t then (false, & t0) else (true, & (restored t t0)).
Proof.
  intros Hwf. pose proof (ipc_header_wf t Hwf) as Hh.
  pose proof (channels_room t Hwf) as Hc. pose proof (messages_room t Hwf) as Hm.
  unfold checkpoint_ipc_deserialize, image. rewrite <- !app_assoc.
  destruct (size <? 24) eqn:E; zbool;
    [rewrite (proj2 (Z.ltb_lt _ _)) by (unfold size_of; lia); reflexivity|].
  rewrite (header_read _ 0 CHECKPOINT_IPC_MAGIC Hh eq_refl),
    (header_read _ 1 CHECKPOINT_IPC_VERSION Hh eq_refl),
    (header_read _ 2 (channel_count t) Hh eq_refl), (header_read _ 3 (message_count t) Hh eq_refl).
  rewrite !Z.eqb_refl. cbn [negb orb].
  rewrite (proj2 (Z.ltb_ge _ _)) by apply Hwf. rewrite (proj2 (Z.ltb_ge _ _)) by apply Hwf. cbn [orb].
  rewrite ipc_blob_size_eq by exact Hwf. destruct (size <? size_of t); [reflexivity|].
  rewrite (packed_tail _ 24 Hh eq_refl). unfold restored, live_channels, queued.
  rewrite array_roundtrip by first [apply Hwf | exact Hc].
  rewrite drop_app_length' by (symmetry; apply length_array_bytes; [exact Hc | apply Hwf]).
  rewrite array_roundtrip by first [apply Hwf | exact Hm]. reflexivity.
Qed.

Lemma ipc_live_restored t t0 :
  table_wf t -> live_channels (restored t t0) = live_channels t /\ queued (restored t t0) = queued t.
Proof.
  intros Hwf. split; apply take_app_used; [apply channels_room | apply messages_room]; exact Hwf.
Qed.

Lemma ipc_restored_wf t t0 : table_wf t -> table_wf t0 -> table_wf (restored t t0).
Proof.
  intros Hwf Hwf0. destruct (ipc_live_restored t t0 Hwf) as [Hl Hq].
  pose proof (channels_room t Hwf). pose proof (messages_room t Hwf).
  pose proof (wf_channels t Hwf) as Ec. pose proof (wf_messages t Hwf) as Em.
  constructor; [apply Hwf | apply Hwf | | | rewrite Hl; apply Hwf | rewrite Hq; apply Hwf];
    unfold restored, live_channels, queued; cbn [channels messages];
    rewrite length_app, length_take, length_drop.
  - rewrite (wf_channels t0 Hwf0). lia.
  - rewrite (wf_messages t0 Hwf0). lia.
Qed.

(** IPC survives a checkpoint with no message lost, duplicated or
    reordered.  A well-formed set of channels and queued messages written into
    a large enough buffer is read back as exactly the same channels and the
    same messages in the same order; the result validates if and only if
    channel ids are unique and nonzero and every message fits its buffer and
    belongs to a present channel; and a blob cut short anywhere is refused. *)
Theorem ipc_roundtrip (t t0 : checkpoint_ipc_t) (buf : list byte)
    (Hwf : table_wf t) (Hdst : table_wf t0) (Hbuf : size_of t <= Z.of_nat (length buf)) :
  exists buf' t',
    checkpoint_ipc_serialize (& t) (& buf) (Z.of_nat (length buf)) = (size_of t, & buf') /\
    live_channels t' = live_channels t /\ queued t' = queued t /\
    (checkpoint_ipc_validate (& t') = true <-> consistent t) /\
    (forall size, checkpoint_ipc_deserialize (& t0) (& buf') size =
       if size <? size_of t then (false, & t0) else (true, & t')).
Proof.
  destruct (ipc_live_restored t t0 Hwf) as [Hl Hq].
  exists (image t ++ drop (length (image t)) buf), (restored t t0).
  split; [exact (ipc_serialize_image t buf Hwf Hbuf)|]. split; [exact Hl|]. split; [exact Hq|].
  split; [|intros size; exact (ipc_deserialize_image t t0 _ size Hwf)].
  rewrite ipc_validate_spec by exact (ipc_restored_wf t t0 Hwf Hdst).
  split; intros []; constructor; rewrite ?Hl, ?Hq in *; assumption.
Qed.

(** One channel with one queued message. *)
Definition example_ipc : checkpoint_ipc_t :=
  {| channel_count := 1; message_count := 1;
     channels := {| channel_id := 9; owner_pid := 2; permissions := 3; active := 1; ch_reserved := 0 |}
                   :: replicate 31 channel_null;
     messages := {| msg_channel_id := 9; type := 1; src_pid := 2; dst_pid := 3; message_id := 4;
                    data_size := 2; msg_flags := 0; msg_reserved := 0; timestamp := 50;
                    data := zero_padded 4096 [Byte.x68; Byte.x69] |} :: replicate 15 message_null |}.
Definition empty_ipc : checkpoint_ipc_t :=
  {| channel_count := 0; message_count := 0; channels := replicate 32 channel_null;
     messages := replicate 16 message_null |}.

Lemma example_ipc_wf : table_wf example_ipc.
Proof.
  constructor; [split; discriminate | split; discriminate | reflexivity | reflexivity | |].
  - apply Forall_cons; split; [unfold channel_wf; fits_fields | apply Forall_nil; exact I].
  - apply Forall_cons; split; [|apply Forall_nil; exact I]. split; [fits_fields|].
    apply length_zero_padded. apply Nat.leb_le. reflexivity.
Qed.

Lemma empty_ipc_wf : table_wf empty_ipc.
Proof.
  constructor; [split; discriminate | split; discriminate | reflexivity | reflexivity | |];
    apply Forall_nil; exact I.
Qed.

Lemma ipc_roundtrip_witness :
  table_wf example_ipc /\ table_wf empty_ipc /\ size_of example_ipc <= Z.of_nat (length (zeros 4176)) /\
  exists buf' t',
    checkpoint_ipc_serialize (& example_ipc) (& (zeros 4176)) (Z.of_nat (length (zeros 4176))) =
      (size_of example_ipc, & buf') /\
    queued t' = queued example_ipc /\
    checkpoint_ipc_deserialize (& empty_ipc) (& buf') (size_of example_ipc) =
      (if size_of example_ipc <? size_of example_ipc then (false, & empty_ipc) else (true, & t')).
Proof.
  assert (size_of example_ipc <= Z.of_nat (length (zeros 4176))) as Hb by (vm_compute; discriminate).
  split; [exact example_ipc_wf | split; [exact empty_ipc_wf | split; [exact Hb|]]].
  destruct (ipc_roundtrip example_ipc empty_ipc (zeros 4176) example_ipc_wf empty_ipc_wf Hb)
    as (buf' & t' & H1 & _ & H3 & _ & H5).
  exists buf', t'. split; [exact H1 | split; [exact H3 | exact (H5 (size_of example_ipc))]].
Defined.
End IpcTableSpec.
