(* ===== verification/Vmm.v ===== *)
(** * The part of the virtual memory manager the checkpoint engine works on
    (kernel/vmm.c, kernel/vmm_cow.c, include/vmm.h)

    An address space's page tables are the map from page indices to entries:
    an index has an entry when the tables above it are present.  The four
    levels take nine address bits each, so addresses that differ above bit 47
    share their entry.  Physical memory is the contents of its frames. *)
From Stdlib Require Import ZArith Lia.
From stdpp Require Import gmap.
From S2P Require Import Prelude.
Open Scope Z_scope.
Open Scope c_scope.

Definition PAGE_SIZE : Z := 4096.
Definition PAGE_PRESENT : Z := 0x001.
Definition PAGE_WRITABLE : Z := 0x002.
Definition PAGE_USER : Z := 0x004.
Definition PAGE_SNAPSHOT_COW : Z := 0x200.
Definition VMM_FLAG_WRITE : Z := 0x02.

Definition VMM_SUCCESS : Z := 0.
Definition VMM_ERROR_NOMEM : Z := -1.
Definition VMM_ERROR_INVALID_ADDR : Z := -2.
Definition VMM_ERROR_NOT_FOUND : Z := -4.
Definition VMM_ERROR_EXISTS : Z := -5.

Record vm_region_t := { start_addr : Z; end_addr : Z; region_flags : Z }.

Record vm_space_t := {
  owner_pid : Z;
  regions : list vm_region_t;
  checkpoint_epoch : Z;
  page_tables : gmap Z Z }.

Definition with_tables (sp : vm_space_t) (pt : gmap Z Z) : vm_space_t :=
  {| owner_pid := owner_pid sp; regions := regions sp; checkpoint_epoch := checkpoint_epoch sp;
     page_tables := pt |}.

(** [entry & bit] as a condition. *)
Definition pte_has (entry bit : Z) : bool := negb (Z.land entry bit =? 0).

Definition pte_to_phys (entry : Z) : Z := Z.land entry 0xFFFFFFFFFFFFF000.
Definition phys_to_pte (phys flags : Z) : Z := Z.lor (Z.land phys 0xFFFFFFFFFFFFF000) (Z.land flags 0xFFF).

(** The nine bits of each of the four levels. *)
Definition pte_index (virt_addr : Z) : Z := Z.land (Z.shiftr virt_addr 12) (2 ^ 36 - 1).

(** [vmm_get_page_table(space, virt_addr, PT_LEVEL, false)], dereferenced. *)
Definition vmm_get_page_table (space : ptr vm_space_t) (virt_addr : Z) : ptr Z :=
  match space with NULL => NULL | Some sp => page_tables sp !! pte_index virt_addr end.

Definition vmm_get_physical_addr (space : ptr vm_space_t) (virt_addr : Z) : Z :=
  match vmm_get_page_table space virt_addr with
  | NULL => 0
  | Some pte =>
      if negb (pte_has pte PAGE_PRESENT) then 0
      else pte_to_phys pte + Z.land virt_addr (PAGE_SIZE - 1)
  end.

Definition vmm_align_down (addr alignment : Z) : Z := Z.ldiff addr (alignment - 1).

(** [tables_ok]: the missing page tables, if any, could be allocated; a new
    table is all zeroes. *)
Definition map_page_internal (tables_ok : bool) (sp : vm_space_t) (virt phys flags : Z) : Z * vm_space_t :=
  let virt := vmm_align_down virt PAGE_SIZE in
  let phys := vmm_align_down phys PAGE_SIZE in
  let entry := match page_tables sp !! pte_index virt with
               | Some e => & e
               | NULL => if tables_ok then & 0 else NULL
               end in
  match entry with
  | NULL => (VMM_ERROR_NOMEM, sp)
  | Some pte =>
      if pte_has pte PAGE_PRESENT then (VMM_ERROR_EXISTS, sp)
      else (VMM_SUCCESS, with_tables sp (<[pte_index virt := phys_to_pte phys flags]> (page_tables sp)))
  end.

Definition vmm_map_page (tables_ok : bool) (space : ptr vm_space_t) (virt_addr phys_addr flags : Z)
  : Z * ptr vm_space_t :=
  match space with
  | NULL => (VMM_ERROR_INVALID_ADDR, space)
  | Some sp => let '(rc, sp) := map_page_internal tables_ok sp virt_addr phys_addr flags in (rc, & sp)
  end.

(** The free list holds frame numbers; 0 is out of memory.  [FRAME_ADDR] shifts
    the 32-bit [frame_number]: the address of a frame above 4 GiB wraps. *)
Definition FRAME_ADDR (frame : Z) : Z := u32 (Z.shiftl frame 12).

Definition vmm_alloc_page (free_frames : list Z) : Z * list Z :=
  match free_frames with
  | [] => (0, [])
  | frame :: rest => (FRAME_ADDR frame, rest)
  end.

(** A new space maps nothing below the kernel half; [ok]: its allocations. *)
Definition vmm_create_address_space (ok : bool) (pid : Z) : ptr vm_space_t :=
  if ok then & {| owner_pid := pid; regions := []; checkpoint_epoch := 0; page_tables := ∅ |} else NULL.

(** Sharing a page for [fork]: the source loses its write permission.  The
    frame's reference count is not modelled. *)
Definition vmm_map_cow_page (tables_ok : bool) (dst_space src_space : ptr vm_space_t) (virt_addr flags : Z)
  : Z * ptr vm_space_t * ptr vm_space_t :=
  match dst_space, src_space with
  | Some _, Some src =>
      let page_addr := vmm_align_down virt_addr PAGE_SIZE in
      match vmm_get_page_table src_space page_addr with
      | NULL => (VMM_ERROR_NOT_FOUND, dst_space, src_space)
      | Some pte =>
          if negb (pte_has pte PAGE_PRESENT) then (VMM_ERROR_NOT_FOUND, dst_space, src_space)
          else
            let phys_addr := pte_to_phys pte in
            let src := with_tables src (<[pte_index page_addr := Z.ldiff pte PAGE_WRITABLE]> (page_tables src)) in
            let cow_flags := Z.lor (Z.ldiff flags PAGE_WRITABLE) PAGE_PRESENT in
            let '(result, dst_space) := vmm_map_page tables_ok dst_space page_addr phys_addr cow_flags in
            (result, dst_space, & src)
      end
  | _, _ => (VMM_ERROR_INVALID_ADDR, dst_space, src_space)
  end.

(** ** Physical memory: frames by their address *)
Definition phys_mem : Type := gmap Z (list byte).

(** [memcpy(buf, (const void* )phys, PAGE_SIZE)] *)
Definition frame_at (mem : phys_mem) (phys : Z) : list byte := default (zeros 4096) (mem !! phys).

(** [for (addr = start; addr < end; addr += PAGE_SIZE)]: the addresses visited
    (a region ends below 2^64 - PAGE_SIZE, so [addr] does not wrap). *)
Definition region_pages (r : vm_region_t) : list Z :=
  (fun i => start_addr r + i * PAGE_SIZE) <$>
  seqZ 0 ((end_addr r - start_addr r + (PAGE_SIZE - 1)) / PAGE_SIZE).

Definition region_writable (r : vm_region_t) : bool := negb (Z.land (region_flags r) VMM_FLAG_WRITE =? 0).
