(* ===== verification/VmmSpec.v ===== *)
(** * Page-table entries and frame addresses, bit by bit

    The lemmas on entries, addresses and frames that the theorems about the
    checkpoint engine and about the page tables share. *)
From Stdlib Require Import ZArith Lia.
From stdpp Require Import gmap.
From S2P Require Import Prelude.
From S2P Require Import Vmm.
Open Scope Z_scope.
Open Scope c_scope.

(** ** Bits of a page-table entry *)
Lemma pte_has_bit e n : 0 <= n -> pte_has e (2 ^ n) = Z.testbit e n.
Proof.
  intros Hn. unfold pte_has. destruct (Z.testbit e n) eqn:E.
  - apply negb_true_iff, Z.eqb_neq. intros H. apply (f_equal (fun z => Z.testbit z n)) in H.
    rewrite Z.land_spec, E, Z.pow2_bits_true, Z.bits_0 in H by lia. discriminate.
  - apply negb_false_iff, Z.eqb_eq. apply Z.bits_inj'. intros m Hm.
    rewrite Z.land_spec, Z.bits_0. destruct (Z.eq_dec m n) as [->|]; [by rewrite E|].
    rewrite (Z.pow2_bits_false n m) by lia. apply andb_false_r.
Qed.

Lemma has_present e : pte_has e PAGE_PRESENT = Z.testbit e 0.
Proof. exact (pte_has_bit e 0 ltac:(lia)). Qed.
Lemma has_writable e : pte_has e PAGE_WRITABLE = Z.testbit e 1.
Proof. exact (pte_has_bit e 1 ltac:(lia)). Qed.
Lemma has_cow e : pte_has e PAGE_SNAPSHOT_COW = Z.testbit e 9.
Proof. exact (pte_has_bit e 9 ltac:(lia)). Qed.

(** ** Frames and entries *)
(** A frame below 4 GiB, other than frame 0. *)
Definition frame_ok (f : Z) : Prop := 0 < f < 2 ^ 20.

Lemma phys_mask n : 0 <= n -> Z.testbit 0xFFFFFFFFFFFFF000 n = (12 <=? n) && (n <? 64).
Proof.
  intros Hn. change 0xFFFFFFFFFFFFF000 with (Z.shiftl (Z.ones 52) 12). rewrite Z.shiftl_spec by lia.
  destruct (Z.leb_spec 12 n); cbn [andb]; [|apply Z.testbit_neg_r; lia].
  rewrite Z.testbit_ones by lia. rewrite (proj2 (Z.leb_le 0 _)) by lia. cbn [andb].
  destruct (Z.ltb_spec (n - 12) 52), (Z.ltb_spec n 64); lia.
Qed.

Lemma frame_bit f n : frame_ok f -> 0 <= n -> Z.testbit (Z.shiftl f 12) n = (12 <=? n) && (n <? 64) && Z.testbit f (n - 12).
Proof.
  intros [Hf1 Hf2] Hn. rewrite Z.shiftl_spec by lia. destruct (Z.leb_spec 12 n); cbn [andb]; [|apply Z.testbit_neg_r; lia].
  destruct (Z.ltb_spec n 64); cbn [andb]; [reflexivity|].
  rewrite <- (Z.mod_small f (2 ^ 20)) by lia. apply Z.mod_pow2_bits_high. lia.
Qed.

Lemma mapped_entry f flags n :
  frame_ok f ->
  pte_to_phys (phys_to_pte (Z.shiftl f 12) flags) = Z.shiftl f 12 /\
  (0 <= n < 12 -> pte_has (phys_to_pte (Z.shiftl f 12) flags) (2 ^ n) = Z.testbit flags n).
Proof.
  intros Hf. unfold pte_to_phys, phys_to_pte. change 0xFFF with (Z.ones 12). split.
  - apply Z.bits_inj'. intros m Hm. rewrite Z.land_spec, Z.lor_spec, !Z.land_spec, phys_mask, frame_bit by assumption.
    rewrite Z.testbit_ones by lia. destruct (Z.leb_spec 12 m); cbn [andb].
    + rewrite (proj2 (Z.leb_le 0 m)), (proj2 (Z.ltb_ge m 12)) by lia. cbn [andb]. rewrite andb_false_r, orb_false_r.
      destruct (m <? 64); cbn [andb]; [rewrite !andb_true_r | ]; reflexivity.
    + rewrite andb_false_r. reflexivity.
  - intros Hn. rewrite pte_has_bit by lia. rewrite Z.lor_spec, !Z.land_spec, phys_mask, frame_bit by (assumption || lia).
    rewrite (proj2 (Z.leb_gt 12 n)) by lia. cbn [andb orb]. rewrite Z.testbit_ones by lia.
    rewrite (proj2 (Z.leb_le 0 n)), (proj2 (Z.ltb_lt n 12)) by lia. apply andb_true_r.
Qed.

Lemma align_index v : pte_index (vmm_align_down v PAGE_SIZE) = pte_index v.
Proof.
  unfold pte_index, vmm_align_down. change (PAGE_SIZE - 1) with (Z.ones 12). f_equal.
  apply Z.bits_inj'. intros n Hn. rewrite !Z.shiftr_spec, Z.ldiff_spec, Z.testbit_ones by lia.
  rewrite (proj2 (Z.ltb_ge (n + 12) 12)) by lia. rewrite andb_false_r. apply andb_true_r.
Qed.

Lemma align_frame f : frame_ok f -> vmm_align_down (Z.shiftl f 12) PAGE_SIZE = Z.shiftl f 12.
Proof.
  intros Hf. unfold vmm_align_down. change (PAGE_SIZE - 1) with (Z.ones 12). apply Z.bits_inj'. intros n Hn.
  rewrite Z.ldiff_spec, frame_bit, Z.testbit_ones by (assumption || lia).
  destruct (Z.leb_spec 12 n); [|reflexivity]. rewrite (proj2 (Z.ltb_ge n 12)) by lia. rewrite andb_false_r. apply andb_true_r.
Qed.

Lemma frame_addr f : frame_ok f -> FRAME_ADDR f = Z.shiftl f 12.
Proof. intros [? ?]. unfold FRAME_ADDR. apply u32_id. rewrite Z.shiftl_mul_pow2 by lia. lia. Qed.

Lemma shift_inj f g : Z.shiftl f 12 = Z.shiftl g 12 -> f = g.
Proof. rewrite !Z.shiftl_mul_pow2 by lia. lia. Qed.

Lemma frame_at_insert (mem : phys_mem) phys data : frame_at (<[phys := data]> mem) phys = data.
Proof. unfold frame_at. pose proof (lookup_insert_eq (M := gmap Z) mem phys data) as H. unfold phys_mem in *. rewrite H. reflexivity. Qed.
Lemma frame_at_insert_ne (mem : phys_mem) phys phys' data :
  phys' <> phys -> frame_at (<[phys := data]> mem) phys' = frame_at mem phys'.
Proof.
  intros Hne. unfold frame_at. pose proof (lookup_insert_ne (M := gmap Z) mem phys phys' data (not_eq_sym Hne)) as H.
  unfold phys_mem in *. rewrite H. reflexivity.
Qed.
