(* ===== verification/PageWalk.v ===== *)
(** * Page frames and page tables (kernel/vmm.c, kernel/vmm_cow.c)

    The frame allocator is an array of frame descriptors whose free ones are
    linked; an address space is a four-level radix tree of page tables, each in
    a frame of its own.  [tables] is the memory seen as page tables and
    [contents] as pages of bytes, both by physical address.  The kernel reaches
    a frame at its physical address and at that plus [KERNEL_VIRTUAL_BASE]: a
    table pointer is here the physical address, whichever way the code got it.
    A space is its root table ([pml4_virt]).  [Vmm] is the view of one space
    the checkpoint engine needs, as a map from pages to entries; the names are
    those of the source in both.  The TLB is not modelled. *)
From Stdlib Require Import ZArith Lia.
From stdpp Require Import gmap.
From S2P Require Import Prelude.
From S2P Require Import Vmm.
Open Scope Z_scope.
Open Scope c_scope.

Definition KERNEL_VIRTUAL_BASE : Z := 0xFFFFFFFF80000000.
Definition PML4_LEVEL : Z := 3.
Definition PT_LEVEL : Z := 0.
Definition PAGE_FRAME (addr : Z) : Z := u32 (Z.shiftr addr 12).

(** [flags] and [owner_pid] are 0 from the start. *)
Record page_frame_t := { frame_number : Z; ref_count : Z; frame_next : ptr Z }.

Definition frame_zero : page_frame_t := {| frame_number := 0; ref_count := 0; frame_next := NULL |}.
Definition set_ref (n : Z) (f : page_frame_t) : page_frame_t :=
  {| frame_number := frame_number f; ref_count := n; frame_next := frame_next f |}.
Definition set_frame_next (p : ptr Z) (f : page_frame_t) : page_frame_t :=
  {| frame_number := frame_number f; ref_count := ref_count f; frame_next := p |}.

Record vmm_stats_t := {
  total_pages : Z;
  free_pages : Z;
  allocated_pages : Z;
  page_faults : Z;
  major_faults : Z;
  minor_faults : Z }.

(** The static variables of vmm.c and the memory. *)
Record vmm_t := {
  frame_database : list page_frame_t;
  free_frames : ptr Z;
  free_frame_count : Z;
  statistics : vmm_stats_t;
  kernel_space : ptr Z;
  tables : gmap Z (list Z);
  contents : phys_mem }.

Definition total_frames (v : vmm_t) : Z := Z.of_nat (length (frame_database v)).
Definition frame_of (v : vmm_t) (n : Z) : page_frame_t := zget frame_zero (frame_database v) n.

Definition with_frames (db : list page_frame_t) (free : ptr Z) (count : Z) (st : vmm_stats_t) (v : vmm_t) : vmm_t :=
  {| frame_database := db; free_frames := free; free_frame_count := count; statistics := st;
     kernel_space := kernel_space v; tables := tables v; contents := contents v |}.
Definition with_memory (t : gmap Z (list Z)) (c : phys_mem) (v : vmm_t) : vmm_t :=
  {| frame_database := frame_database v; free_frames := free_frames v; free_frame_count := free_frame_count v;
     statistics := statistics v; kernel_space := kernel_space v; tables := t; contents := c |}.
Definition count_pages (d : Z) (st : vmm_stats_t) : vmm_stats_t :=
  {| total_pages := total_pages st; free_pages := u64 (free_pages st - d);
     allocated_pages := u64 (allocated_pages st + d); page_faults := page_faults st;
     major_faults := major_faults st; minor_faults := minor_faults st |}.
(** [vmm_statistics.allocated_pages += d] *)
Definition count_allocated (d : Z) (st : vmm_stats_t) : vmm_stats_t :=
  {| total_pages := total_pages st; free_pages := free_pages st; allocated_pages := u64 (allocated_pages st + d);
     page_faults := page_faults st; major_faults := major_faults st; minor_faults := minor_faults st |}.

(** ** Frames *)

(** The loop of [vmm_init_physical_memory]: [n] frames left, [i] the next. *)
Fixpoint init_frames (n : nat) (i : Z) (free : ptr Z) (count : Z) : list page_frame_t * ptr Z * Z :=
  match n with
  | O => ([], free, count)
  | S n =>
      let listed := 256 <=? i in
      let f := {| frame_number := u32 i; ref_count := 0; frame_next := if listed then free else NULL |} in
      let '(db, free', count') := init_frames n (i + 1) (if listed then & i else free)
                                    (if listed then count + 1 else count) in
      (f :: db, free', count')
  end.

(** [alloc]: the database could be allocated. *)
Definition vmm_init_physical_memory (alloc : bool) (memory_size : Z) (v : vmm_t) : Z * vmm_t :=
  if negb alloc then (VMM_ERROR_NOMEM, v)
  else
    let n := memory_size / PAGE_SIZE in
    let '(db, free, count) := init_frames (Z.to_nat n) 0 (free_frames v) (free_frame_count v) in
    (VMM_SUCCESS,
     with_frames db free count
       {| total_pages := n; free_pages := count; allocated_pages := allocated_pages (statistics v);
          page_faults := page_faults (statistics v); major_faults := major_faults (statistics v);
          minor_faults := minor_faults (statistics v) |} v).

Definition vmm_alloc_page (v : vmm_t) : Z * vmm_t :=
  match free_frames v with
  | NULL => (0, v)
  | Some f =>
      if free_frame_count v =? 0 then (0, v)
      else
        let frame := frame_of v f in
        let free := frame_next frame in
        let frame := set_frame_next NULL (set_ref 1 frame) in
        (FRAME_ADDR (frame_number frame),
         with_frames (zset f frame (frame_database v)) free (u64 (free_frame_count v - 1))
           (count_pages 1 (statistics v)) v)
  end.

Definition vmm_free_page (v : vmm_t) (phys_addr : Z) : vmm_t :=
  if phys_addr =? 0 then v
  else
    let n := PAGE_FRAME phys_addr in
    if total_frames v <=? n then v
    else
      let frame := frame_of v n in
      let frame := if 0 <? ref_count frame then set_ref (ref_count frame - 1) frame else frame in
      if ref_count frame =? 0 then
        with_frames (zset n (set_frame_next (free_frames v) frame) (frame_database v)) (& n)
          (u64 (free_frame_count v + 1)) (count_pages (-1) (statistics v)) v
      else with_frames (zset n frame (frame_database v)) (free_frames v) (free_frame_count v) (statistics v) v.

(** ** Tables *)
Definition zero_table : list Z := replicate 512 0.

Definition allocate_page_table (v : vmm_t) : ptr Z * vmm_t :=
  let '(phys, v) := vmm_alloc_page v in
  if phys =? 0 then (NULL, v)
  else (& phys, with_memory (<[phys := zero_table]> (tables v)) (contents v) v).

Definition free_page_table (v : vmm_t) (table : ptr Z) : vmm_t :=
  match table with NULL => v | Some phys => vmm_free_page v phys end.

(** [table[index]] *)
Definition entry_at (v : vmm_t) (table index : Z) : Z :=
  match tables v !! table with Some es => zget 0 es index | None => 0 end.
Definition set_entry (v : vmm_t) (table index entry : Z) : vmm_t :=
  with_memory (alter (zset index entry) table (tables v)) (contents v) v.

Definition level_shift (level : Z) : Z := 12 + level * 9.
Definition table_index (addr level : Z) : Z := Z.land (Z.shiftr addr (level_shift level)) 0x1FF.

(** The loop of [vmm_get_page_table]: [n] levels above [level] are left.
    [phys_of] is [vmm_get_physical_addr(kernel_space, _)], which walks with
    [create] false itself and is called only when [create] is true. *)
Fixpoint walk (phys_of : vmm_t -> Z -> Z) (n : nat) (v : vmm_t) (table virt_addr level : Z) (create : bool)
  : ptr Z * vmm_t :=
  match n with
  | O => (& table, v)
  | S n =>
      let index := table_index virt_addr (level + Z.of_nat (S n)) in
      let entry := entry_at v table index in
      if pte_has entry PAGE_PRESENT then walk phys_of n v (pte_to_phys entry) virt_addr level create
      else if negb create then (NULL, v)
      else
        match allocate_page_table v with
        | (NULL, v) => (NULL, v)
        | (Some new_table, v) =>
            let phys := phys_of v (u64 (new_table + KERNEL_VIRTUAL_BASE)) in
            let entry := phys_to_pte phys (Z.lor (Z.lor PAGE_PRESENT PAGE_WRITABLE) PAGE_USER) in
            walk phys_of n (set_entry v table index entry) (pte_to_phys entry) virt_addr level create
        end
  end.

(** A pointer to an entry is its table and index. *)
Definition page_table_walk (phys_of : vmm_t -> Z -> Z) (v : vmm_t) (space : ptr Z) (virt_addr level : Z) (create : bool)
  : ptr (Z * Z) * vmm_t :=
  match space with
  | NULL => (NULL, v)
  | Some root =>
      match walk phys_of (Z.to_nat (PML4_LEVEL - level)) v root virt_addr level create with
      | (NULL, v) => (NULL, v)
      | (Some table, v) => (& (table, table_index virt_addr level), v)
      end
  end.

Definition vmm_get_physical_addr (v : vmm_t) (space : ptr Z) (virt_addr : Z) : Z :=
  match page_table_walk (fun _ _ => 0) v space virt_addr PT_LEVEL false with
  | (NULL, _) => 0
  | (Some (t, i), _) =>
      let pte := entry_at v t i in
      if negb (pte_has pte PAGE_PRESENT) then 0
      else u64 (pte_to_phys pte + Z.land virt_addr (PAGE_SIZE - 1))
  end.

Definition vmm_get_page_table : vmm_t -> ptr Z -> Z -> Z -> bool -> ptr (Z * Z) * vmm_t :=
  page_table_walk (fun v => vmm_get_physical_addr v (kernel_space v)).

Definition map_page_internal (v : vmm_t) (space : ptr Z) (virt phys flags : Z) : Z * vmm_t :=
  let virt := vmm_align_down virt PAGE_SIZE in
  let phys := vmm_align_down phys PAGE_SIZE in
  match vmm_get_page_table v space virt PT_LEVEL true with
  | (NULL, v) => (VMM_ERROR_NOMEM, v)
  | (Some (t, i), v) =>
      if pte_has (entry_at v t i) PAGE_PRESENT then (VMM_ERROR_EXISTS, v)
      else (VMM_SUCCESS, set_entry v t i (phys_to_pte phys flags))
  end.

Definition vmm_map_page (v : vmm_t) (space : ptr Z) (virt_addr phys_addr flags : Z) : Z * vmm_t :=
  match space with
  | NULL => (VMM_ERROR_INVALID_ADDR, v)
  | Some _ => map_page_internal v space virt_addr phys_addr flags
  end.

Definition vmm_unmap_page (v : vmm_t) (space : ptr Z) (virt_addr : Z) : Z * vmm_t :=
  match space with
  | NULL => (VMM_ERROR_INVALID_ADDR, v)
  | Some _ =>
      let virt_addr := vmm_align_down virt_addr PAGE_SIZE in
      match vmm_get_page_table v space virt_addr PT_LEVEL false with
      | (NULL, v) => (VMM_ERROR_NOT_FOUND, v)
      | (Some (t, i), v) =>
          let pte := entry_at v t i in
          if negb (pte_has pte PAGE_PRESENT) then (VMM_ERROR_NOT_FOUND, v)
          else (VMM_SUCCESS, set_entry (vmm_free_page v (pte_to_phys pte)) t i 0)
      end
  end.

(** The root table of a new space: a user space shares the kernel's upper
    half.  [alloc]: the space structure could be allocated. *)
Definition vmm_create_address_space (alloc : bool) (pid : Z) (v : vmm_t) : ptr Z * vmm_t :=
  if negb alloc then (NULL, v)
  else
    match allocate_page_table v with
    | (NULL, v) => (NULL, v)
    | (Some root, v) =>
        let v := match kernel_space v with
                 | Some k =>
                     if pid =? 0 then v
                     else
                       let upper := (fun i => entry_at v k i) <$> seqZ 256 256 in
                       with_memory (alter (fun es => take 256 es ++ upper) root (tables v)) (contents v) v
                 | NULL => v
                 end in
        (& root, with_frames (frame_database v) (free_frames v) (free_frame_count v) (count_allocated 1 (statistics v)) v)
    end.

(** ** Copy on write (kernel/vmm_cow.c) *)
Definition vmm_handle_cow_fault (v : vmm_t) (space : ptr Z) (fault_addr : Z) : Z * vmm_t :=
  match space with
  | NULL => (VMM_ERROR_INVALID_ADDR, v)
  | Some _ =>
      let page_addr := vmm_align_down fault_addr PAGE_SIZE in
      match vmm_get_page_table v space page_addr PT_LEVEL false with
      | (NULL, v) => (VMM_ERROR_NOT_FOUND, v)
      | (Some (t, i), v) =>
          let pte := entry_at v t i in
          if negb (pte_has pte PAGE_PRESENT) then (VMM_ERROR_NOT_FOUND, v)
          else
            let old_phys := pte_to_phys pte in
            let n := PAGE_FRAME old_phys in
            if total_frames v <=? n then (VMM_ERROR_INVALID_ADDR, v)
            else if ref_count (frame_of v n) =? 1 then
              (VMM_SUCCESS, set_entry v t i (Z.lor pte PAGE_WRITABLE))
            else
              let '(new_phys, v) := vmm_alloc_page v in
              if new_phys =? 0 then (VMM_ERROR_NOMEM, v)
              else
                let v := with_memory (tables v) (<[new_phys := frame_at (contents v) old_phys]> (contents v)) v in
                let flags := Z.lor (Z.land pte 0xFFF) PAGE_WRITABLE in
                let v := set_entry v t i (phys_to_pte new_phys flags) in
                let frame := frame_of v n in
                (VMM_SUCCESS,
                 with_frames (zset n (set_ref (u32 (ref_count frame - 1)) frame) (frame_database v))
                   (free_frames v) (free_frame_count v) (statistics v) v)
      end
  end.

Definition vmm_map_cow_page (v : vmm_t) (dst_space src_space : ptr Z) (virt_addr flags : Z) : Z * vmm_t :=
  match dst_space, src_space with
  | Some _, Some _ =>
      let page_addr := vmm_align_down virt_addr PAGE_SIZE in
      match vmm_get_page_table v src_space page_addr PT_LEVEL false with
      | (NULL, v) => (VMM_ERROR_NOT_FOUND, v)
      | (Some (t, i), v) =>
          let pte := entry_at v t i in
          if negb (pte_has pte PAGE_PRESENT) then (VMM_ERROR_NOT_FOUND, v)
          else
            let phys_addr := pte_to_phys pte in
            let v := set_entry v t i (Z.ldiff pte PAGE_WRITABLE) in
            let cow_flags := Z.lor (Z.ldiff flags PAGE_WRITABLE) PAGE_PRESENT in
            let '(result, v) := vmm_map_page v dst_space page_addr phys_addr cow_flags in
            if negb (result =? VMM_SUCCESS) then (result, v)
            else
              let n := PAGE_FRAME phys_addr in
              let frame := frame_of v n in
              (VMM_SUCCESS,
               with_frames (zset n (set_ref (u32 (ref_count frame + 1)) frame) (frame_database v))
                 (free_frames v) (free_frame_count v) (statistics v) v)
      end
  | _, _ => (VMM_ERROR_INVALID_ADDR, v)
  end.
