(* ===== verification/PageTreeSpec.v ===== *)
(** * The four-level page tables as trees

    What the walk reads for a page ([read]); a leaf entry is one page's, and
    hanging an empty table below an absent entry changes no page. *)
From Stdlib Require Import ZArith Lia.
From stdpp Require Import gmap.
From S2P Require Import Prelude.
From S2P Require Import Vmm VmmSpec PageWalk.
Open Scope Z_scope.
Open Scope c_scope.

(** ** Pages and their path through the levels *)

(** The index of page [k] in its table of level [L], and what is left of the
    page number above that table. *)
Definition tix (k L : Z) : Z := Z.land (Z.shiftr k (9 * L)) 511.
Definition prefix (k L : Z) : Z := Z.shiftr k (9 * (L + 1)).
(** The pages of the lower half, which belong to the process. *)
Definition user_page (k : Z) : Prop := 0 <= k < 2 ^ 35.

Lemma land_511 z : Z.land z 511 = z mod 512.
Proof. exact (Z.land_ones z 9 ltac:(lia)). Qed.

Lemma tix_range k L : 0 <= tix k L < 512.
Proof. unfold tix. rewrite land_511. apply Z.mod_pos_bound. lia. Qed.

Lemma prefix_child k L : 0 <= L -> prefix k (L - 1) = prefix k L * 512 + tix k L.
Proof.
  intros HL. unfold prefix, tix. rewrite land_511. replace (9 * (L - 1 + 1)) with (9 * L) by lia.
  replace (9 * (L + 1)) with (9 * L + 9) by lia. rewrite <- Z.shiftr_shiftr by lia.
  rewrite (Z.shiftr_div_pow2 _ 9) by lia. change (2 ^ 9) with 512.
  pose proof (Z.div_mod (Z.shiftr k (9 * L)) 512). lia.
Qed.

Lemma page_of_slot k : prefix k 0 * 512 + tix k 0 = k.
Proof. rewrite <- prefix_child by lia. unfold prefix. apply Z.shiftr_0_r. Qed.

Lemma prefix_root k : user_page k -> prefix k 3 = 0.
Proof. intros [? ?]. unfold prefix. rewrite Z.shiftr_div_pow2 by lia. apply Z.div_small. lia. Qed.

Lemma tix_root k : user_page k -> tix k 3 < 256.
Proof.
  intros [? ?]. unfold tix. rewrite land_511, Z.shiftr_div_pow2 by lia.
  rewrite Z.mod_small; [apply Z.div_lt_upper_bound; lia|].
  split; [apply Z.div_pos; lia | apply Z.div_lt_upper_bound; lia].
Qed.

Lemma table_index_page virt L : 0 <= L <= 3 -> table_index virt L = tix (pte_index virt) L.
Proof.
  intros HL. unfold table_index, tix, pte_index, level_shift. apply Z.bits_inj'. intros n Hn.
  change 0x1FF with (Z.ones 9). change 511 with (Z.ones 9). change (2 ^ 36 - 1) with (Z.ones 36).
  rewrite !Z.land_spec, !Z.shiftr_spec, Z.land_spec, Z.shiftr_spec, !Z.testbit_ones by lia.
  rewrite (proj2 (Z.leb_le 0 n)), (proj2 (Z.leb_le 0 (n + 9 * L))) by lia. cbn [andb].
  destruct (Z.ltb_spec n 9); [|rewrite !andb_false_r; reflexivity].
  rewrite (proj2 (Z.ltb_lt (n + 9 * L) 36)) by lia. rewrite !andb_true_r. f_equal. lia.
Qed.

(** ** Reading through the levels *)
Fixpoint read (n : nat) (v : vmm_t) (t k : Z) : option Z :=
  let e := entry_at v t (tix k (Z.of_nat n)) in
  if pte_has e PAGE_PRESENT then
    match n with O => Some e | S m => read m v (pte_to_phys e) k end
  else None.

(** The table that holds the entry of [k], when the tables above it exist. *)
Fixpoint leaf_table (n : nat) (v : vmm_t) (t k : Z) : option Z :=
  match n with
  | O => Some t
  | S m =>
      let e := entry_at v t (tix k (Z.of_nat n)) in
      if pte_has e PAGE_PRESENT then leaf_table m v (pte_to_phys e) k else None
  end.

Lemma read_leaf n v t k :
  read n v t k = match leaf_table n v t k with
                 | Some t' => let e := entry_at v t' (tix k 0) in if pte_has e PAGE_PRESENT then Some e else None
                 | None => None
                 end.
Proof.
  revert t; induction n as [|n IH]; intros t; [reflexivity|]. cbn [read leaf_table].
  destruct (pte_has _ _); [apply IH | reflexivity].
Qed.

Lemma walk_find phys_of n v t virt :
  (n <= 3)%nat -> walk phys_of n v t virt 0 false = (leaf_table n v t (pte_index virt), v).
Proof.
  revert t; induction n as [|n IH]; intros t Hn; [reflexivity|]. cbn [walk leaf_table].
  rewrite table_index_page by lia. rewrite Z.add_0_l. destruct (pte_has _ _); [apply IH; lia | reflexivity].
Qed.

Lemma page_table_found phys_of v root virt :
  page_table_walk phys_of v (& root) virt PT_LEVEL false =
  ((fun t => (t, tix (pte_index virt) 0)) <$> leaf_table 3 v root (pte_index virt), v).
Proof.
  unfold page_table_walk, PT_LEVEL, PML4_LEVEL. change (Z.to_nat (3 - 0)) with 3%nat. rewrite walk_find by lia.
  destruct (leaf_table _ _ _ _); [|reflexivity]. rewrite table_index_page by lia. reflexivity.
Qed.

Lemma physical_read v root virt :
  vmm_get_physical_addr v (& root) virt =
  match read 3 v root (pte_index virt) with
  | Some e => u64 (pte_to_phys e + Z.land virt (PAGE_SIZE - 1))
  | None => 0
  end.
Proof.
  unfold vmm_get_physical_addr. rewrite page_table_found, read_leaf.
  destruct (leaf_table _ _ _ _); [|reflexivity]. cbn. destruct (pte_has _ _); reflexivity.
Qed.

Lemma entry_ext v v' t i : tables v' = tables v -> entry_at v' t i = entry_at v t i.
Proof. intros H. unfold entry_at. rewrite H. reflexivity. Qed.

Lemma leaf_table_ext n v v' t k : tables v' = tables v -> leaf_table n v' t k = leaf_table n v t k.
Proof.
  intros H. revert t; induction n as [|n IH]; intros t; [reflexivity|]. cbn [leaf_table].
  rewrite (entry_ext v v') by exact H. destruct (pte_has _ _); [apply IH | reflexivity].
Qed.

Lemma read_ext n v v' t k : tables v' = tables v -> read n v' t k = read n v t k.
Proof.
  intros H. rewrite !read_leaf, (leaf_table_ext n v v') by exact H. destruct (leaf_table _ _ _ _); [|reflexivity].
  rewrite (entry_ext v v') by exact H. reflexivity.
Qed.

(** ** Trees of tables

    [own] says for every table which space it belongs to, its level and the
    pages it covers. *)
Abbreviation ownership := (gmap Z (Z * Z * Z)).

Definition user_slots (L : Z) : Z := if L =? 3 then 256 else 512.

Record tree_ok (own : ownership) (v : vmm_t) : Prop := {
  tr_table : forall t r L p, own !! t = Some (r, L, p) -> exists es, tables v !! t = Some es /\ length es = 512%nat;
  tr_child : forall t r L p i, own !! t = Some (r, L, p) -> 0 < L -> 0 <= i < user_slots L ->
    pte_has (entry_at v t i) PAGE_PRESENT = true ->
    own !! pte_to_phys (entry_at v t i) = Some (r, L - 1, p * 512 + i);
  tr_level : forall t r L p, own !! t = Some (r, L, p) -> L <= 3 }.

(** The table of level [n] on the way to page [k] of space [r]. *)
Definition on_path (own : ownership) (r k : Z) (n : nat) (t : Z) : Prop :=
  own !! t = Some (r, Z.of_nat n, prefix k (Z.of_nat n)).

Lemma user_tix k n : user_page k -> 0 <= tix k n < user_slots n.
Proof.
  intros Hk. pose proof (tix_range k n). pose proof (tix_root k Hk). unfold user_slots.
  destruct (Z.eqb_spec n 3) as [->|]; lia.
Qed.

Lemma path_child own v r k n t :
  tree_ok own v -> user_page k -> on_path own r k (S n) t ->
  pte_has (entry_at v t (tix k (Z.of_nat (S n)))) PAGE_PRESENT = true ->
  on_path own r k n (pte_to_phys (entry_at v t (tix k (Z.of_nat (S n))))).
Proof.
  intros Ht Hk Hp He. unfold on_path in *.
  pose proof (tr_child _ _ Ht _ _ _ _ _ Hp ltac:(lia) (user_tix k _ Hk) He) as H. rewrite H.
  replace (Z.of_nat (S n) - 1) with (Z.of_nat n) by lia. do 2 f_equal.
  rewrite <- prefix_child by lia. f_equal. lia.
Qed.

Lemma leaf_owned own v r k n t t' :
  tree_ok own v -> user_page k -> on_path own r k n t -> leaf_table n v t k = Some t' ->
  own !! t' = Some (r, 0, prefix k 0).
Proof.
  intros Ht Hk. revert t; induction n as [|n IH]; intros t Hp; cbn [leaf_table].
  - intros [= <-]. exact Hp.
  - destruct (pte_has _ _) eqn:E; [|discriminate]. apply IH, (path_child _ v); assumption.
Qed.

Lemma read_owned own v v' r k n t :
  tree_ok own v -> user_page k ->
  (forall t x i, own !! t = Some x -> 0 <= i < 512 -> entry_at v' t i = entry_at v t i) ->
  on_path own r k n t -> read n v' t k = read n v t k.
Proof.
  intros Ht Hk He. revert t; induction n as [|n IH]; intros t Hp; cbn [read];
    rewrite (He _ _ _ Hp) by apply tix_range; [reflexivity|].
  destruct (pte_has _ _) eqn:E; [|reflexivity]. apply IH, (path_child _ v); assumption.
Qed.

Lemma walk_present phys_of n v t virt t' :
  (n <= 3)%nat -> leaf_table n v t (pte_index virt) = Some t' -> walk phys_of n v t virt 0 true = (Some t', v).
Proof.
  revert t; induction n as [|n IH]; intros t Hn; cbn [walk leaf_table]; [intros [= ->]; reflexivity|].
  rewrite Z.add_0_l, table_index_page by lia. destruct (pte_has _ _); [apply IH; lia | discriminate].
Qed.

(** *** A leaf entry changes *)
Lemma entry_set v t i e t' i' es :
  tables v !! t = Some es -> length es = 512%nat -> 0 <= i < 512 -> 0 <= i' ->
  entry_at (set_entry v t i e) t' i' = if (t =? t') && (i =? i') then e else entry_at v t' i'.
Proof.
  intros Hes Hl Hi Hi'. unfold entry_at, set_entry. cbn [tables with_memory].
  destruct (Z.eqb_spec t t') as [->|Hne]; cbn [andb].
  - rewrite lookup_alter_eq, Hes. cbn. apply zget_zset; lia.
  - rewrite lookup_alter_ne by exact Hne. reflexivity.
Qed.

Section leaf.
Variables (own : ownership) (v : vmm_t) (t0 r0 k0 e : Z).
Hypothesis (Htree : tree_ok own v) (Hown : on_path own r0 k0 0 t0).

Let v' := set_entry v t0 (tix k0 0) e.

Lemma leaf_entry t i : 0 <= i -> entry_at v' t i = if (t0 =? t) && (tix k0 0 =? i) then e else entry_at v t i.
Proof.
  intros Hi. destruct (tr_table _ _ Htree _ _ _ _ Hown) as (es & H1 & H2).
  apply (entry_set _ _ _ _ _ _ es); auto using tix_range.
Qed.

Lemma leaf_inner r L p t i : own !! t = Some (r, L, p) -> 0 < L -> 0 <= i -> entry_at v' t i = entry_at v t i.
Proof.
  intros Ht HL Hi. rewrite leaf_entry by exact Hi. destruct (Z.eqb_spec t0 t) as [<-|]; [|reflexivity].
  unfold on_path in Hown. rewrite Ht in Hown. injection Hown as -> -> ->. lia.
Qed.

Lemma leaf_tree : tree_ok own v'.
Proof.
  split.
  - intros t r L p Ht. destruct (tr_table _ _ Htree _ _ _ _ Ht) as (es & H1 & H2). unfold v', set_entry. cbn [tables with_memory].
    destruct (Z.eq_dec t t0) as [->|Hne].
    + rewrite lookup_alter_eq, H1. eexists. split; [reflexivity|]. rewrite length_zset. exact H2.
    + rewrite lookup_alter_ne by congruence. eauto.
  - intros t r L p i Ht HL Hi. rewrite (leaf_inner r L p) by (assumption || lia). apply (tr_child _ _ Htree); assumption.
  - apply (tr_level _ _ Htree).
Qed.

Lemma leaf_leaf r k n t : user_page k -> on_path own r k n t -> leaf_table n v' t k = leaf_table n v t k.
Proof.
  intros Hk. revert t; induction n as [|n IH]; intros t Hp; [reflexivity|]. cbn [leaf_table].
  rewrite (leaf_inner _ _ _ _ _ Hp) by (pose proof (tix_range k (Z.of_nat (S n))); lia).
  destruct (pte_has _ _) eqn:E; [|reflexivity]. apply IH, (path_child _ v); assumption.
Qed.

Lemma leaf_read r k t :
  leaf_table 3 v r0 k0 = Some t0 -> user_page k -> on_path own r k 3 t -> (r = r0 -> t = r0) ->
  read 3 v' t k = if (r =? r0) && (k =? k0) then (if pte_has e PAGE_PRESENT then Some e else None) else read 3 v t k.
Proof.
  intros Hl Hk Hp Hroot. rewrite !read_leaf, (leaf_leaf r) by assumption.
  destruct (Z.eqb_spec r r0) as [->|Hr]; [destruct (Z.eqb_spec k k0) as [->|Hkk]|]; cbn [andb].
  - rewrite (Hroot eq_refl), Hl. cbn zeta. rewrite leaf_entry by apply tix_range. rewrite !Z.eqb_refl. reflexivity.
  - destruct (leaf_table 3 v t k) as [t'|] eqn:E; [|reflexivity]. cbn zeta. rewrite leaf_entry by apply tix_range.
    destruct (Z.eqb_spec t0 t') as [<-|]; [|reflexivity]. destruct (Z.eqb_spec (tix k0 0) (tix k 0)) as [Hi|]; [|reflexivity].
    pose proof (leaf_owned own v _ _ _ _ _ Htree Hk Hp E) as Ho. unfold on_path in Hown. rewrite Ho in Hown.
    injection Hown as Hpre. change (Z.of_nat 0) with 0 in Hpre.
    pose proof (page_of_slot k). pose proof (page_of_slot k0). exfalso. lia.
  - destruct (leaf_table 3 v t k) as [t'|] eqn:E; [|reflexivity]. cbn zeta. rewrite leaf_entry by apply tix_range.
    destruct (Z.eqb_spec t0 t') as [<-|]; [|reflexivity].
    pose proof (leaf_owned own v _ _ _ _ _ Htree Hk Hp E) as Ho. unfold on_path in Hown. rewrite Ho in Hown.
    injection Hown as Hr0 _. congruence.
Qed.
End leaf.

(** *** A new, empty table is hung below an absent entry *)
Lemma has_zero : pte_has 0 PAGE_PRESENT = false.
Proof. reflexivity. Qed.

Lemma zero_entry v c i : tables v !! c = Some zero_table -> entry_at v c i = 0.
Proof.
  intros H. unfold entry_at. rewrite H. unfold zget, zero_table.
  destruct (nth_in_or_default (Z.to_nat i) (replicate 512 0) 0) as [Hin| ->]; [|reflexivity].
  apply list_elem_of_In, elem_of_replicate in Hin. tauto.
Qed.

Lemma read_zero n v c k : tables v !! c = Some zero_table -> read n v c k = None.
Proof. intros H. destruct n; cbn [read]; rewrite (zero_entry _ _ _ H); reflexivity. Qed.

Section insert.
Variables (own : ownership) (v v1 : vmm_t) (t r k c e : Z) (n : nat).
Hypothesis (Htree : tree_ok own v) (Hn : (n < 3)%nat) (Hpath : on_path own r k (S n) t).
Hypothesis (Habsent : pte_has (entry_at v t (tix k (Z.of_nat (S n)))) PAGE_PRESENT = false).
Hypothesis (Hfresh : own !! c = None) (Hv1 : tables v1 = <[c := zero_table]> (tables v)).
Hypothesis (He : pte_has e PAGE_PRESENT = true) (Hphys : pte_to_phys e = c).

Let i0 := tix k (Z.of_nat (S n)).
Let v2 := set_entry v1 t i0 e.
Let own2 : ownership := <[c := (r, Z.of_nat n, prefix k (Z.of_nat n))]> own.

Lemma insert_owned t' x : own !! t' = Some x -> t' <> c.
Proof. intros H ->. congruence. Qed.

Lemma insert_entry t' i x :
  own !! t' = Some x -> 0 <= i -> entry_at v2 t' i = if (t =? t') && (i0 =? i) then e else entry_at v t' i.
Proof.
  intros Ho Hi. destruct (tr_table _ _ Htree _ _ _ _ Hpath) as (es & H1 & H2).
  pose proof (insert_owned _ _ Hpath) as Htc. pose proof (insert_owned _ _ Ho) as Htc'.
  unfold v2. rewrite (entry_set v1 _ _ _ _ _ es); auto; [|rewrite Hv1, lookup_insert_ne; congruence | apply tix_range].
  destruct ((t =? t') && (i0 =? i)); [reflexivity|].
  unfold entry_at. rewrite Hv1, lookup_insert_ne by congruence. reflexivity.
Qed.

Lemma insert_zero : tables v2 !! c = Some zero_table.
Proof.
  pose proof (insert_owned _ _ Hpath). unfold v2, set_entry. cbn [tables with_memory].
  rewrite lookup_alter_ne, Hv1, lookup_insert_eq by congruence. reflexivity.
Qed.

Lemma insert_keeps t' i x :
  own !! t' = Some x -> 0 <= i -> pte_has (entry_at v t' i) PAGE_PRESENT = true -> entry_at v2 t' i = entry_at v t' i.
Proof.
  intros Ho Hi Hp. rewrite (insert_entry _ _ _ Ho Hi).
  destruct (Z.eqb_spec t t') as [<-|]; [|reflexivity]. destruct (Z.eqb_spec i0 i) as [<-|]; [|reflexivity].
  unfold i0 in Hp. rewrite Habsent in Hp. discriminate.
Qed.

Lemma insert_path r' k' m t' : on_path own r' k' m t' -> on_path own2 r' k' m t'.
Proof.
  unfold on_path, own2. intros H. pose proof (insert_owned _ _ H). rewrite lookup_insert_ne by congruence. exact H.
Qed.

Lemma insert_tree : tree_ok own2 v2.
Proof.
  split.
  - intros t' r' L p. unfold own2. destruct (Z.eq_dec t' c) as [->|Hne].
    + intros _. exists zero_table. split; [apply insert_zero | reflexivity].
    + rewrite lookup_insert_ne by congruence. intros Ho. destruct (tr_table _ _ Htree _ _ _ _ Ho) as (es & H1 & H2).
      unfold v2, set_entry. cbn [tables with_memory]. rewrite Hv1. destruct (Z.eq_dec t' t) as [->|].
      * rewrite lookup_alter_eq, lookup_insert_ne, H1 by congruence. eexists. split; [reflexivity|]. rewrite length_zset. exact H2.
      * rewrite lookup_alter_ne, lookup_insert_ne by congruence. eauto.
  - intros t' r' L p i. unfold own2 at 1. destruct (Z.eq_dec t' c) as [->|Hne].
    + intros _ _ _. rewrite (zero_entry _ _ _ insert_zero). discriminate.
    + rewrite lookup_insert_ne by congruence. intros Ho HL Hi. rewrite (insert_entry _ _ _ Ho) by lia.
      destruct (Z.eqb_spec t t') as [<-|]; [destruct (Z.eqb_spec i0 i) as [<-|]|]; cbn [andb]; intros Hp.
      * rewrite Hphys. unfold own2. rewrite lookup_insert_eq. unfold on_path in Hpath. rewrite Ho in Hpath.
        injection Hpath as -> -> ->. unfold i0. rewrite <- prefix_child by lia.
        replace (Z.of_nat (S n) - 1) with (Z.of_nat n) by lia. reflexivity.
      * pose proof (tr_child _ _ Htree _ _ _ _ _ Ho HL Hi Hp) as Hc. pose proof (insert_owned _ _ Hc).
        unfold own2. rewrite lookup_insert_ne by congruence. exact Hc.
      * pose proof (tr_child _ _ Htree _ _ _ _ _ Ho HL Hi Hp) as Hc. pose proof (insert_owned _ _ Hc).
        unfold own2. rewrite lookup_insert_ne by congruence. exact Hc.
  - intros t' r' L p [[<- [= <- <- <-]]|[Hne Ho]]%lookup_insert_Some; [lia | apply (tr_level _ _ Htree _ _ _ _ Ho)].
Qed.

(** No page is mapped or unmapped by it. *)
Lemma insert_read r' k' m t' : user_page k' -> on_path own r' k' m t' -> read m v2 t' k' = read m v t' k'.
Proof.
  intros Hk'. revert t'; induction m as [|m IH]; intros t' Hp; cbn [read].
  - rewrite (insert_entry _ _ _ Hp) by apply tix_range. destruct (Z.eqb_spec t t') as [<-|]; [|reflexivity].
    unfold on_path in Hp, Hpath. rewrite Hp in Hpath. injection Hpath. lia.
  - rewrite (insert_entry _ _ _ Hp) by apply tix_range.
    destruct (Z.eqb_spec t t') as [<-|]; [destruct (Z.eqb_spec i0 (tix k' (Z.of_nat (S m)))) as [Hi|]|]; cbn [andb].
    + rewrite He, Hphys, (read_zero _ _ _ _ insert_zero).
      unfold on_path in Hp, Hpath. rewrite Hp in Hpath. injection Hpath as _ Hm _.
      assert (m = n) as -> by lia. rewrite <- Hi. unfold i0. rewrite Habsent. reflexivity.
    + destruct (pte_has (entry_at v t (tix k' _)) _) eqn:E; [|reflexivity]. apply IH, (path_child _ v); assumption.
    + destruct (pte_has (entry_at v t' _) _) eqn:E; [|reflexivity]. apply IH, (path_child _ v); assumption.
Qed.
End insert.
