(* ===== verification/FrameSpec.v ===== *)
(** * The frame allocator

    The linked free list holds exactly the managed frames without a reference,
    and every operation keeps the reference counts it is told to keep. *)
From Stdlib Require Import ZArith Lia.
From stdpp Require Import gmap.
From S2P Require Import Prelude.
From S2P Require Import Vmm VmmSpec PageWalk.
Open Scope Z_scope.
Open Scope c_scope.

(** The frames above the first megabyte are the allocator's. *)
Definition managed (v : vmm_t) (f : Z) : Prop := 256 <= f < total_frames v.
Definition frame_addr_of (f : Z) : Z := Z.shiftl f 12.

Fixpoint chain (db : list page_frame_t) (p : ptr Z) (fl : list Z) : Prop :=
  match fl with
  | [] => p = NULL
  | f :: fl => p = & f /\ chain db (frame_next (zget frame_zero db f)) fl
  end.

(** [count f] references are held to frame [f]. *)
Record frames_ok (count : Z -> Z) (v : vmm_t) : Prop := {
  fr_total : total_frames v <= 2 ^ 19;
  fr_number : forall f, 0 <= f < total_frames v -> frame_number (frame_of v f) = f;
  fr_refs : forall f, managed v f -> ref_count (frame_of v f) = count f /\ 0 <= count f < 2 ^ 32;
  fr_list : exists fl, chain (frame_database v) (free_frames v) fl /\ NoDup fl /\ free_frame_count v = Z.of_nat (length fl) /\
    forall f, f ∈ fl <-> managed v f /\ count f = 0 }.

(** Everything but the frame database. *)
Definition same_memory (v v' : vmm_t) : Prop :=
  tables v' = tables v /\ contents v' = contents v /\ kernel_space v' = kernel_space v /\
  total_frames v' = total_frames v.

#[global] Instance same_memory_preorder : PreOrder same_memory.
Proof. unfold same_memory. split; [intros v; split_and!; reflexivity|]. intros v1 v2 v3 (?&?&?&?) (?&?&?&?). split_and!; congruence. Qed.

Definition count_set (count : Z -> Z) (f n : Z) : Z -> Z := fun g => if g =? f then n else count g.

Lemma managed_frame v f : total_frames v <= 2 ^ 19 -> managed v f -> frame_ok f.
Proof. unfold managed, frame_ok. lia. Qed.

Lemma frames_ok_db c v v' :
  frame_database v' = frame_database v -> free_frames v' = free_frames v -> free_frame_count v' = free_frame_count v ->
  frames_ok c v -> frames_ok c v'.
Proof.
  intros H1 H2 H3 [Ht Hn Hr Hl]. constructor; unfold managed, total_frames, frame_of in *; rewrite ?H1, ?H2, ?H3; assumption.
Qed.

Lemma frames_ok_ext c c' v : (forall f, managed v f -> c' f = c f) -> frames_ok c v -> frames_ok c' v.
Proof.
  intros H [Ht Hn Hr (fl & H1 & H2 & H3 & H4)]. constructor; [assumption | assumption | |].
  - intros f Hf. rewrite (H f Hf). auto.
  - exists fl. split_and!; try assumption. intros f. rewrite H4. split; intros [Hf Hc]; split; auto; rewrite ?(H f Hf) in *; auto.
Qed.

Lemma frame_of_set f x free n st v g :
  0 <= f < total_frames v -> 0 <= g ->
  frame_of (with_frames (zset f x (frame_database v)) free n st v) g = if f =? g then x else frame_of v g.
Proof. intros Hf Hg. unfold frame_of, total_frames in *. cbn [frame_database with_frames]. apply zget_zset; assumption. Qed.

Lemma total_set f x free n st v :
  total_frames (with_frames (zset f x (frame_database v)) free n st v) = total_frames v.
Proof. unfold total_frames. cbn [frame_database with_frames]. rewrite length_zset. reflexivity. Qed.

Lemma chain_set f x db p fl :
  0 <= f < Z.of_nat (length db) -> f ∉ fl -> Forall (fun g => 0 <= g) fl -> chain db p fl -> chain (zset f x db) p fl.
Proof.
  intros Hf. revert p; induction fl as [|g fl IH]; intros p Hin Hpos; cbn [chain]; [auto|].
  inversion Hpos; subst. intros [-> H]. split; [reflexivity|]. rewrite zget_zset by assumption.
  destruct (Z.eqb_spec f g) as [->|]; [set_solver|]. apply IH; [set_solver | assumption..].
Qed.

Lemma free_list_pos v c fl : (forall f, f ∈ fl <-> managed v f /\ c f = 0) -> Forall (fun g => 0 <= g) fl.
Proof. intros H. apply Forall_forall. intros f [Hf _]%H. unfold managed in Hf. lia. Qed.

Lemma set_same f x free n st v : same_memory v (with_frames (zset f x (frame_database v)) free n st v).
Proof. unfold same_memory. split_and!; try reflexivity. apply total_set. Qed.

(** Counters of the free list never reach 2^64. *)
Lemma free_list_length v c fl :
  total_frames v <= 2 ^ 19 -> NoDup fl -> (forall f, f ∈ fl <-> managed v f /\ c f = 0) -> Z.of_nat (length fl) <= 2 ^ 19.
Proof.
  intros Ht Hnd Hfl. assert (fl ⊆+ seqZ 0 (2 ^ 19)) as H%submseteq_length.
  { apply NoDup_submseteq; [exact Hnd|]. intros f [Hf _]%Hfl. apply elem_of_seqZ. unfold managed in Hf. lia. }
  rewrite length_seqZ in H. lia.
Qed.

(** ** Allocation *)
Lemma alloc_page_frames c v :
  frames_ok c v ->
  (vmm_alloc_page v = (0, v) /\ forall f, managed v f -> c f <> 0) \/
  exists f v', vmm_alloc_page v = (frame_addr_of f, v') /\ managed v f /\ c f = 0 /\
    same_memory v v' /\ frames_ok (count_set c f 1) v'.
Proof.
  intros [Ht Hn Hr (fl & Hch & Hnd & Hcount & Hfl)]. destruct fl as [|f fl]; cbn [chain] in Hch.
  - left. unfold vmm_alloc_page. rewrite Hch. split; [reflexivity|]. intros f Hf Hc.
    pose proof (proj2 (Hfl f) (conj Hf Hc)). set_solver.
  - right. destruct Hch as [Hfree Hch]. destruct (proj1 (Hfl f)) as [Hf Hc]; [left|]. exists f.
    apply NoDup_cons in Hnd as [Hin Hnd].
    assert (0 <= f < total_frames v) as Hrange by (unfold managed in Hf; lia).
    pose proof (managed_frame _ _ Ht Hf) as Hok.
    pose proof (free_list_length _ _ (f :: fl) Ht ltac:(constructor; assumption) Hfl) as Hlen. cbn [length] in *.
    unfold vmm_alloc_page. rewrite Hfree, Hcount. rewrite (proj2 (Z.eqb_neq _ _)) by lia.
    eexists. split; [|split_and!; [exact Hf | exact Hc | apply set_same|]].
    { cbn [frame_number set_frame_next set_ref]. rewrite Hn, frame_addr by assumption. reflexivity. }
    constructor.
    + rewrite total_set. exact Ht.
    + rewrite total_set. intros g Hg. rewrite frame_of_set by lia. destruct (Z.eqb_spec f g) as [<-|]; [|auto]. cbn. auto.
    + intros g. unfold managed, count_set. rewrite total_set. intros Hg. rewrite frame_of_set by lia.
      destruct (Z.eqb_spec f g) as [<-|]; [rewrite Z.eqb_refl; cbn; lia|].
      rewrite (proj2 (Z.eqb_neq g f)) by congruence. apply Hr, Hg.
    + exists fl. split_and!.
      * apply chain_set; try assumption. eapply Forall_inv_tail, free_list_pos, Hfl.
      * exact Hnd.
      * cbn [free_frame_count with_frames]. rewrite u64_id by lia. lia.
      * intros g. unfold managed, count_set. rewrite total_set. specialize (Hfl g). rewrite elem_of_cons in Hfl.
        unfold managed in Hfl. destruct (Z.eqb_spec g f) as [->|]; [split; [contradiction | lia] | naive_solver].
Qed.

(** ** A reference is dropped *)
Lemma page_frame_addr f : frame_ok f -> PAGE_FRAME (frame_addr_of f) = f.
Proof.
  intros [? ?]. unfold PAGE_FRAME, frame_addr_of. rewrite Z.shiftr_shiftl_l, Z.sub_diag, Z.shiftl_0_r by lia. apply u32_id. lia.
Qed.

Lemma frame_addr_pos f : frame_ok f -> 0 < frame_addr_of f < 2 ^ 32.
Proof. intros [? ?]. unfold frame_addr_of. rewrite Z.shiftl_mul_pow2 by lia. lia. Qed.

Lemma set_ref_frames c v f n x :
  frames_ok c v -> managed v f -> c f <> 0 -> 0 < n < 2 ^ 32 -> frame_number x = f -> ref_count x = n ->
  frames_ok (count_set c f n) (with_frames (zset f x (frame_database v)) (free_frames v) (free_frame_count v) (statistics v) v).
Proof.
  intros [Ht Hn Hr (fl & Hch & Hnd & Hcount & Hfl)] Hf Hc Hnpos Hnum Href.
  assert (0 <= f < total_frames v) as Hrange by (unfold managed in Hf; lia). constructor.
  - rewrite total_set. exact Ht.
  - rewrite total_set. intros g Hg. rewrite frame_of_set by lia. destruct (Z.eqb_spec f g) as [<-|]; auto.
  - intros g. unfold managed, count_set. rewrite total_set. intros Hg. rewrite frame_of_set by lia.
    destruct (Z.eqb_spec f g) as [<-|]; [rewrite Z.eqb_refl; lia|].
    rewrite (proj2 (Z.eqb_neq g f)) by congruence. apply Hr, Hg.
  - exists fl. split_and!; try assumption.
    + apply chain_set; try assumption; [|eapply free_list_pos, Hfl]. intros [_ ?]%Hfl. contradiction.
    + intros g. unfold managed, count_set. rewrite total_set. specialize (Hfl g). unfold managed in Hfl.
      destruct (Z.eqb_spec g f) as [->|]; [|exact Hfl]. rewrite Hfl. split; [intros [_ ?]; contradiction | lia].
Qed.

Lemma free_page_frames c v f :
  frames_ok c v -> managed v f -> 0 < c f ->
  same_memory v (vmm_free_page v (frame_addr_of f)) /\
  frames_ok (count_set c f (c f - 1)) (vmm_free_page v (frame_addr_of f)).
Proof.
  intros Hok Hf Hc. pose proof Hok as [Ht Hn Hr (fl & Hch & Hnd & Hcount & Hfl)].
  pose proof (managed_frame _ _ Ht Hf) as Hfok. assert (0 <= f < total_frames v) as Hrange by (unfold managed in Hf; lia).
  destruct (Hr f Hf) as [Href Hbound].
  unfold vmm_free_page. pose proof (frame_addr_pos f Hfok). rewrite (proj2 (Z.eqb_neq _ _)) by lia.
  rewrite page_frame_addr by exact Hfok. cbv zeta. rewrite (proj2 (Z.leb_gt _ _)) by lia.
  rewrite Href, (proj2 (Z.ltb_lt 0 _)) by lia. cbn [ref_count set_ref].
  destruct (Z.eqb_spec (c f - 1) 0) as [Hlast|Hmore]; (split; [apply set_same|]).
  2:{ apply set_ref_frames; cbn; auto; lia. }
  assert (f ∉ fl) as Hnew by (intros [_ ?]%Hfl; lia).
  pose proof (free_list_length _ _ _ Ht Hnd Hfl) as Hlen. constructor.
  - rewrite total_set. exact Ht.
  - rewrite total_set. intros g Hg. rewrite frame_of_set by lia. destruct (Z.eqb_spec f g) as [<-|]; cbn; auto.
  - intros g. unfold managed, count_set. rewrite total_set. intros Hg. rewrite frame_of_set by lia.
    destruct (Z.eqb_spec f g) as [<-|]; [rewrite Z.eqb_refl; cbn; lia|].
    rewrite (proj2 (Z.eqb_neq g f)) by congruence. apply Hr, Hg.
  - exists (f :: fl). split_and!.
    + split; [reflexivity|]. cbn [frame_database with_frames]. rewrite zget_zset, Z.eqb_refl by (exact Hrange || apply Hrange). cbn [frame_next set_frame_next].
      apply chain_set; try assumption. eapply free_list_pos, Hfl.
    + constructor; assumption.
    + cbn [free_frame_count with_frames length]. rewrite Hcount, u64_id by lia. lia.
    + intros g. unfold managed, count_set. rewrite total_set, elem_of_cons. specialize (Hfl g). unfold managed in *.
      destruct (Z.eqb_spec g f) as [->|]; [split; [intros; lia | auto] | naive_solver].
Qed.

(** ** Initialisation *)

(** The frames from [i] on that go on the list, the last one first. *)
Definition listed_frames (i n : Z) : list Z := rev (filter (fun f => 256 <= f) (seqZ i n)).

Lemma listed_frames_cons i n :
  listed_frames i (Z.of_nat (S n)) = listed_frames (i + 1) (Z.of_nat n) ++ (if 256 <=? i then [i] else []).
Proof.
  unfold listed_frames. rewrite seqZ_cons by lia. replace (Z.succ i) with (i + 1) by lia.
  replace (Z.pred (Z.of_nat (S n))) with (Z.of_nat n) by lia. rewrite filter_cons.
  destruct (Z.leb_spec 256 i); case_decide; try lia; [reflexivity | rewrite app_nil_r; reflexivity].
Qed.

Lemma listed_frames_elem i n f : f ∈ listed_frames i n <-> 256 <= f /\ i <= f < i + n.
Proof. unfold listed_frames. rewrite list_elem_of_In, <- in_rev, <- list_elem_of_In, list_elem_of_filter, elem_of_seqZ. lia. Qed.

Lemma init_frames_spec n : forall i free count db free' count',
  0 <= i -> i + Z.of_nat n <= 2 ^ 32 ->
  init_frames n i free count = (db, free', count') ->
  length db = n /\
  (forall j x, db !! j = Some x -> frame_number x = i + Z.of_nat j /\ ref_count x = 0) /\
  count' = count + Z.of_nat (length (listed_frames i (Z.of_nat n))) /\
  forall all fl, (forall j x, db !! j = Some x -> zget frame_zero all (i + Z.of_nat j) = x) ->
    chain all free fl -> chain all free' (listed_frames i (Z.of_nat n) ++ fl).
Proof.
  induction n as [|n IH]; intros i free count db free' count' Hi Hb; cbn [init_frames].
  - intros [= <- <- <-]. change (listed_frames i (Z.of_nat 0)) with (@nil Z).
    split_and!; [reflexivity | intros j x; rewrite lookup_nil; discriminate | cbn; lia | auto].
  - destruct (init_frames n (i + 1) _ _) as [[db0 free0] count0] eqn:E. intros [= <- <- <-].
    destruct (IH (i + 1) _ _ _ _ _ ltac:(lia) ltac:(lia) E) as (H1 & H2 & H3 & H4). split_and!.
    + cbn. congruence.
    + intros [|j] x; cbn [lookup list_lookup].
      * intros [= <-]. cbn. rewrite u32_id by lia. lia.
      * intros Hj. destruct (H2 _ _ Hj). lia.
    + rewrite H3, listed_frames_cons, length_app. destruct (256 <=? i); cbn [length]; lia.
    + intros all fl Hdb Hch. rewrite listed_frames_cons, <- app_assoc. apply H4.
      * intros j x Hj. rewrite <- (Hdb (S j) x Hj). f_equal. lia.
      * specialize (Hdb O _ eq_refl). rewrite Z.add_0_r in Hdb.
        destruct (256 <=? i); cbn [app]; [|exact Hch]. split; [reflexivity|]. rewrite Hdb. exact Hch.
Qed.

(** At boot every frame above the first megabyte is free. *)
Lemma init_physical_frames memory_size v :
  0 <= memory_size <= 2 ^ 31 -> free_frames v = NULL -> free_frame_count v = 0 ->
  exists v', vmm_init_physical_memory true memory_size v = (VMM_SUCCESS, v') /\
    frames_ok (fun _ => 0) v' /\ total_frames v' = memory_size / PAGE_SIZE /\
    tables v' = tables v /\ contents v' = contents v /\ kernel_space v' = kernel_space v.
Proof.
  intros Hm Hfree Hcount. unfold vmm_init_physical_memory. cbn [negb]. rewrite Hfree, Hcount.
  assert (0 <= memory_size / PAGE_SIZE <= 2 ^ 19) as Hn.
  { unfold PAGE_SIZE. split; [apply Z.div_pos; lia|]. change (2 ^ 31) with (2 ^ 19 * 4096) in Hm.
    apply Z.div_le_upper_bound; lia. }
  destruct (init_frames _ _ _ _) as [[db free] count] eqn:E.
  destruct (init_frames_spec (Z.to_nat (memory_size / PAGE_SIZE)) 0 _ _ _ _ _ ltac:(lia) ltac:(lia) E) as (H1 & H2 & H3 & H4).
  rewrite Z2Nat.id in H3, H4 by lia. eexists. split; [reflexivity|]. split_and!; try reflexivity.
  2:{ unfold total_frames. cbn [frame_database with_frames]. rewrite H1. lia. }
  assert (forall st, total_frames (with_frames db free count st v) = memory_size / PAGE_SIZE) as Ht.
  { intros st. unfold total_frames. cbn [frame_database with_frames]. lia. }
  assert (forall st f, 0 <= f < memory_size / PAGE_SIZE -> exists x, db !! Z.to_nat f = Some x /\
    frame_of (with_frames db free count st v) f = x) as Hof.
  { intros st f Hf. destruct (lookup_lt_is_Some_2 db (Z.to_nat f)) as [x Hx]; [lia|]. exists x. split; [exact Hx|].
    unfold frame_of, zget. cbn [frame_database with_frames]. apply nth_lookup_Some, Hx. }
  constructor.
  - rewrite Ht. lia.
  - rewrite Ht. intros f Hf. destruct (Hof (statistics v) f Hf) as (x & Hx & _).
    eapply proj1 in H2; [|exact Hx]. edestruct Hof as (y & Hy & ->); [exact Hf|]. rewrite Hx in Hy. injection Hy as <-. lia.
  - intros f. unfold managed. rewrite Ht. intros Hf. edestruct Hof as (x & Hx & ->); [lia|].
    rewrite (proj2 (H2 _ _ Hx)). lia.
  - exists (listed_frames 0 (memory_size / PAGE_SIZE)). split_and!.
    + rewrite <- (app_nil_r (listed_frames _ _)). apply H4; [|reflexivity]. intros j x Hj. rewrite Z.add_0_l.
      apply zget_lookup, Hj.
    + unfold listed_frames. apply NoDup_ListNoDup, NoDup_rev, NoDup_ListNoDup, NoDup_filter, NoDup_seqZ.
    + cbn [free_frame_count with_frames]. exact H3.
    + intros f. rewrite listed_frames_elem. unfold managed. rewrite Ht. lia.
Qed.
