(* ===== verification/PageWalkSpec.v ===== *)
(** * The memory manager refines one map of pages per process

    [vm_abs] is what the memory manager promises: which page of which space
    has which entry, which frames its clients hold, what the frames contain.
    [rep] relates it to the frame list and the trees of tables; every
    operation keeps it. *)
From Stdlib Require Import ZArith Lia.
From stdpp Require Import gmap.
From S2P Require Import Prelude.
From S2P Require Import Vmm VmmSpec PageWalk PageTreeSpec FrameSpec.
Open Scope Z_scope.
Open Scope c_scope.

(** ** The abstract memory manager *)
Record vm_abs := {
  a_maps : gmap (Z * Z) Z;   (* the present entry of page k of the space with root r *)
  a_roots : gset Z;          (* the spaces, by their root table *)
  a_held : gset Z;           (* frames allocated and not given to a mapping *)
  a_pages : phys_mem }.      (* the contents of the frames *)

Definition with_maps (m : gmap (Z * Z) Z) (A : vm_abs) : vm_abs :=
  {| a_maps := m; a_roots := a_roots A; a_held := a_held A; a_pages := a_pages A |}.
Definition with_held (h : gset Z) (A : vm_abs) : vm_abs :=
  {| a_maps := a_maps A; a_roots := a_roots A; a_held := h; a_pages := a_pages A |}.
Definition with_roots (r : gset Z) (A : vm_abs) : vm_abs :=
  {| a_maps := a_maps A; a_roots := r; a_held := a_held A; a_pages := a_pages A |}.
Definition with_pages (p : phys_mem) (A : vm_abs) : vm_abs :=
  {| a_maps := a_maps A; a_roots := a_roots A; a_held := a_held A; a_pages := p |}.

(** How many pages map frame [f]. *)
Definition mappings (m : gmap (Z * Z) Z) (f : Z) : Z :=
  Z.of_nat (size (filter (fun ke => pte_to_phys ke.2 = frame_addr_of f) m)).
Definition refs (A : vm_abs) (f : Z) : Z := mappings (a_maps A) f + (if decide (f ∈ a_held A) then 1 else 0).

Lemma mappings_pos m f : 0 <= mappings m f.
Proof. unfold mappings. lia. Qed.

Lemma refs_pos A f : 0 <= refs A f.
Proof. unfold refs. pose proof (mappings_pos (a_maps A) f). case_decide; lia. Qed.

Lemma mappings_insert m key e f :
  m !! key = None ->
  mappings (<[key := e]> m) f = mappings m f + (if decide (pte_to_phys e = frame_addr_of f) then 1 else 0).
Proof.
  intros Hm. unfold mappings. case_decide as He.
  - rewrite map_filter_insert_True by exact He. rewrite map_size_insert_None; [lia|].
    apply map_lookup_filter_None. left. exact Hm.
  - rewrite map_filter_insert_False by exact He. rewrite delete_id by exact Hm. lia.
Qed.

Lemma mappings_delete m key e f :
  m !! key = Some e ->
  mappings (delete key m) f = mappings m f - (if decide (pte_to_phys e = frame_addr_of f) then 1 else 0).
Proof.
  intros Hm. rewrite <- (insert_delete_id m key e Hm) at 2. rewrite mappings_insert by apply lookup_delete_eq. lia.
Qed.

Lemma mappings_replace m key e e' f :
  m !! key = Some e ->
  mappings (<[key := e']> m) f = mappings m f - (if decide (pte_to_phys e = frame_addr_of f) then 1 else 0)
    + (if decide (pte_to_phys e' = frame_addr_of f) then 1 else 0).
Proof.
  intros Hm. rewrite <- insert_delete_eq, mappings_insert by apply lookup_delete_eq.
  rewrite (mappings_delete _ _ _ _ Hm). reflexivity.
Qed.

Lemma mapped_refs m key e f : m !! key = Some e -> pte_to_phys e = frame_addr_of f -> 1 <= mappings m f.
Proof.
  intros Hm He. pose proof (mappings_delete m key e f Hm) as H. rewrite decide_True in H by exact He.
  pose proof (mappings_pos (delete key m) f). lia.
Qed.

Lemma frame_addr_inj f g : frame_addr_of f = frame_addr_of g -> f = g.
Proof. apply shift_inj. Qed.

(** ** Entries *)
Lemma new_entry f flags :
  frame_ok f -> pte_to_phys (phys_to_pte (frame_addr_of f) flags) = frame_addr_of f /\
  pte_has (phys_to_pte (frame_addr_of f) flags) PAGE_PRESENT = Z.testbit flags 0.
Proof.
  intros Hf. destruct (mapped_entry f flags 0 Hf) as [H1 H2]. split; [exact H1|]. exact (H2 ltac:(lia)).
Qed.

Lemma frame_addr_ok f : frame_ok f -> vmm_align_down (frame_addr_of f) PAGE_SIZE = frame_addr_of f.
Proof. apply align_frame. Qed.

(** ** The relation *)

(** The references to [f]: its users', and that of the tree if it is a table. *)
Definition users (own : ownership) (A : vm_abs) (f : Z) : Z :=
  refs A f + (match own !! frame_addr_of f with Some _ => 1 | None => 0 end).

(** The kernel space maps every managed frame at [KERNEL_VIRTUAL_BASE], with
    tables outside the allocator's frames. *)
Definition kernel_direct (v : vmm_t) : Prop :=
  exists kt : gset Z, (forall t f, t ∈ kt -> managed v f -> t <> frame_addr_of f) /\
    forall v', kernel_space v' = kernel_space v -> (forall t, t ∈ kt -> tables v' !! t = tables v !! t) ->
      forall f, managed v f -> vmm_get_physical_addr v' (kernel_space v) (u64 (frame_addr_of f + KERNEL_VIRTUAL_BASE)) = frame_addr_of f.

Record shape_ok (own : ownership) (A : vm_abs) (v : vmm_t) : Prop := {
  sh_tree : tree_ok own v;
  sh_roots : forall r, r ∈ a_roots A -> own !! r = Some (r, 3, 0);
  sh_own : forall t x, own !! t = Some x -> exists f, managed v f /\ t = frame_addr_of f /\ refs A f = 0;
  sh_maps : forall r k e, a_maps A !! (r, k) = Some e ->
    r ∈ a_roots A /\ user_page k /\ pte_has e PAGE_PRESENT = true /\ exists f, managed v f /\ pte_to_phys e = frame_addr_of f;
  sh_held : forall f, f ∈ a_held A -> managed v f;
  sh_read : forall r k, r ∈ a_roots A -> user_page k -> read 3 v r k = a_maps A !! (r, k);
  sh_pages : contents v = a_pages A;
  sh_kernel : kernel_direct v }.

Definition rep (own : ownership) (A : vm_abs) (v : vmm_t) : Prop := frames_ok (users own A) v /\ shape_ok own A v.

Lemma kernel_direct_step v v' :
  kernel_direct v -> kernel_space v' = kernel_space v -> total_frames v' = total_frames v ->
  (forall t, (forall f, managed v f -> t <> frame_addr_of f) -> tables v' !! t = tables v !! t) -> kernel_direct v'.
Proof.
  intros (kt & H1 & H2) Hk Ht Hm. exists kt. unfold managed in *. rewrite Ht, Hk. split; [exact H1|].
  intros w Hw Ha. apply H2; [exact Hw|]. intros t Hin. rewrite Ha by exact Hin. apply Hm. intros f. apply H1, Hin.
Qed.

Lemma kernel_direct_addr v f :
  kernel_direct v -> managed v f ->
  vmm_get_physical_addr v (kernel_space v) (u64 (frame_addr_of f + KERNEL_VIRTUAL_BASE)) = frame_addr_of f.
Proof. intros (kt & _ & H) Hf. apply H; auto. Qed.

Lemma shape_same own A v v' : same_memory v v' -> shape_ok own A v -> shape_ok own A v'.
Proof.
  intros (Ht & Hc & Hk & Hn) [H1 H2 H3 H4 H5 H6 H7 H8].
  assert (forall t i, entry_at v' t i = entry_at v t i) as He by (intros; unfold entry_at; rewrite Ht; reflexivity).
  assert (forall f, managed v' f <-> managed v f) as Hm by (intros f; unfold managed; rewrite Hn; reflexivity).
  constructor; try assumption.
  - split; [rewrite Ht; apply (tr_table _ _ H1) | | apply (tr_level _ _ H1)]. intros t r L p i. rewrite He. apply (tr_child _ _ H1).
  - intros t x Hx. destruct (H3 t x Hx) as (f & ?). exists f. rewrite Hm. assumption.
  - intros r k e He'. destruct (H4 r k e He') as (? & ? & ? & f & ?). split_and!; try assumption. exists f. rewrite Hm. assumption.
  - intros f Hf. apply Hm, H5, Hf.
  - intros r k Hr Hk'. rewrite (read_ext _ v v') by exact Ht. apply H6; assumption.
  - congruence.
  - apply (kernel_direct_step v); try assumption. intros. rewrite Ht. reflexivity.
Qed.

Lemma rep_frame_ok own A v f : rep own A v -> managed v f -> frame_ok f.
Proof. intros [[Ht _ _ _] _]. apply managed_frame, Ht. Qed.

(** A frame in use has no table on it; a table is no one's page. *)
Lemma used_no_table own A v f : rep own A v -> refs A f <> 0 -> own !! frame_addr_of f = None.
Proof.
  intros [_ Hs] Hf. destruct (own !! frame_addr_of f) as [x|] eqn:E; [|reflexivity].
  destruct (sh_own _ _ _ Hs _ _ E) as (g & _ & Hg & Hz). apply frame_addr_inj in Hg. congruence.
Qed.

Lemma users_used own A v f : rep own A v -> refs A f <> 0 -> users own A f = refs A f.
Proof. intros Hr Hf. unfold users. rewrite (used_no_table _ _ _ _ Hr Hf). lia. Qed.

Lemma root_path own A v r k : rep own A v -> r ∈ a_roots A -> user_page k -> on_path own r k 3 r.
Proof.
  intros [_ Hs] Hr Hk. unfold on_path. change (Z.of_nat 3) with 3. rewrite (prefix_root k Hk). apply (sh_roots _ _ _ Hs), Hr.
Qed.

(** ** Allocating a page *)
Definition hold (f : Z) (A : vm_abs) : vm_abs := with_held ({[f]} ∪ a_held A) A.

Lemma refs_hold A f g : f ∉ a_held A -> refs (hold f A) g = refs A g + (if decide (g = f) then 1 else 0).
Proof. intros Hf. unfold refs, hold. cbn [a_maps a_held with_held]. repeat case_decide; try lia; set_solver. Qed.

Lemma alloc_page_rep own A v :
  rep own A v ->
  (vmm_alloc_page v = (0, v) /\ forall f, managed v f -> users own A f <> 0) \/
  exists f v', vmm_alloc_page v = (frame_addr_of f, v') /\ managed v f /\ users own A f = 0 /\
    same_memory v v' /\ rep own (hold f A) v'.
Proof.
  intros [Hf Hs]. destruct (alloc_page_frames _ _ Hf) as [H|(f & v' & Ha & Hm & Hu & Hsame & Hf')]; [left; exact H|].
  right. exists f, v'. split_and!; try assumption.
  assert (refs A f = 0 /\ own !! frame_addr_of f = None) as [Hr Hown].
  { unfold users in Hu. pose proof (refs_pos A f). destruct (own !! frame_addr_of f); [lia|]. split; [lia | reflexivity]. }
  assert (f ∉ a_held A) as Hnh.
  { intros Hin. unfold refs in Hr. rewrite decide_True in Hr by exact Hin. pose proof (mappings_pos (a_maps A) f). lia. }
  split.
  - eapply frames_ok_ext; [|exact Hf']. intros g _. unfold users, count_set. rewrite refs_hold by exact Hnh.
    destruct (Z.eqb_spec g f) as [->|]; [rewrite Hown, decide_True, Hr by reflexivity; lia | rewrite decide_False by assumption; lia].
  - apply (shape_same _ _ v); [exact Hsame|]. destruct Hs as [H1 H2 H3 H4 H5 H6 H7 H8]. constructor; try assumption.
    + intros t x Hx. destruct (H3 t x Hx) as (g & Hg & -> & Hz). exists g. rewrite refs_hold by exact Hnh.
      rewrite decide_False by congruence. split_and!; [exact Hg | reflexivity | lia].
    + intros g. cbn. intros [->%elem_of_singleton|?]%elem_of_union; auto.
Qed.

(** ** The walk that creates tables *)
Definition kernel_phys (v : vmm_t) : Z -> Z := vmm_get_physical_addr v (kernel_space v).

(** What the walk leaves alone. *)
Definition keeps_entries (own : ownership) (v v' : vmm_t) : Prop :=
  forall t x i, own !! t = Some x -> 0 <= i -> pte_has (entry_at v t i) PAGE_PRESENT = true ->
    entry_at v' t i = entry_at v t i.

(** The tables that [own'] has and [own] does not are in use: each is the root
    of a space, or the entry of a table one level up leads to it. *)
Definition grown (roots : gset Z) (own own' : ownership) (v' : vmm_t) : Prop :=
  forall t r L p, own' !! t = Some (r, L, p) -> own !! t = None ->
    (L = 3 /\ t = r /\ r ∈ roots) \/
    0 <= L /\ exists parent p' i, own' !! parent = Some (r, L + 1, p') /\ 0 <= i < 512 /\
      pte_has (entry_at v' parent i) PAGE_PRESENT = true /\ pte_to_phys (entry_at v' parent i) = t.

Lemma grown_refl roots own v : grown roots own own v.
Proof. intros t r L p H1 H2. congruence. Qed.

Lemma grown_tables roots own own' v v' : tables v' = tables v -> grown roots own own' v -> grown roots own own' v'.
Proof.
  intros Ht H t r L p H1 H2. destruct (H t r L p H1 H2) as [?|(HL & q & p' & i & ? & ? & ? & ?)]; [by left|].
  right. split; [done|]. exists q, p', i. by rewrite !(entry_ext v v').
Qed.

(** Writing a leaf entry hides no table. *)
Lemma grown_leaf roots own own' v t r p i e :
  own' !! t = Some (r, 0, p) -> grown roots own own' v -> grown roots own own' (set_entry v t i e).
Proof.
  intros Ho H t1 r1 L p1 H1 H2. destruct (H t1 r1 L p1 H1 H2) as [?|(HL & q & p' & j & Hq & Hj & Hp & Hphys)]; [by left|].
  right. split; [done|]. exists q, p', j. destruct (decide (q = t)) as [->|Hne].
  - exfalso. rewrite Ho in Hq. injection Hq as _ HL' _. lia.
  - assert (entry_at (set_entry v t i e) q j = entry_at v q j) as ->; [|done].
    unfold entry_at, set_entry. cbn [tables with_memory]. by rewrite lookup_alter_ne by congruence.
Qed.

Definition table_flags : Z := Z.lor (Z.lor PAGE_PRESENT PAGE_WRITABLE) PAGE_USER.

(** A held frame becomes the table of an absent entry. *)
Lemma rep_new_table own A v f r k n t :
  rep own (hold f A) v -> f ∉ a_held A -> refs A f = 0 -> managed v f -> user_page k -> (n < 3)%nat ->
  on_path own r k (S n) t -> pte_has (entry_at v t (tix k (Z.of_nat (S n)))) PAGE_PRESENT = false ->
  let c := frame_addr_of f in
  let v1 := with_memory (<[c := zero_table]> (tables v)) (contents v) v in
  let e := phys_to_pte (kernel_phys v1 (u64 (c + KERNEL_VIRTUAL_BASE))) table_flags in
  let v2 := set_entry v1 t (tix k (Z.of_nat (S n))) e in
  let own2 := <[c := (r, Z.of_nat n, prefix k (Z.of_nat n))]> own in
  rep own2 A v2 /\ on_path own2 r k n c /\ pte_to_phys e = c /\ pte_has e PAGE_PRESENT = true /\
  entry_at v2 t (tix k (Z.of_nat (S n))) = e /\ own ⊆ own2 /\ keeps_entries own v v2.
Proof.
  intros Hrep Hnh Hr0 Hf Hk Hn Hpath Habs c v1 e v2 own2. pose proof Hrep as [Hfr Hs].
  pose proof (rep_frame_ok _ _ _ _ Hrep Hf) as Hok.
  assert (own !! c = None) as Hfresh.
  { apply (used_no_table _ _ _ _ Hrep). rewrite refs_hold, decide_True by auto. pose proof (refs_pos A f). lia. }
  assert (kernel_direct v1) as Hk1.
  { apply (kernel_direct_step v); try reflexivity; [apply (sh_kernel _ _ _ Hs)|]. intros t' Ht'. cbn [v1 tables with_memory].
    apply lookup_insert_ne. intros <-. exact (Ht' f Hf eq_refl). }
  assert (kernel_phys v1 (u64 (c + KERNEL_VIRTUAL_BASE)) = c) as Hphys by exact (kernel_direct_addr v1 f Hk1 Hf).
  destruct (new_entry f table_flags Hok) as [He1 He2]. fold c in He1, He2.
  assert (e = phys_to_pte c table_flags) as Hee by (unfold e; rewrite Hphys; reflexivity). rewrite <- Hee in He1, He2.
  change (Z.testbit table_flags 0) with true in He2.
  assert (tables v1 = <[c := zero_table]> (tables v)) as Hv1 by reflexivity.
  pose proof (sh_tree _ _ _ Hs) as Htree.
  assert (own ⊆ own2) as Hsub by (apply insert_subseteq, Hfresh).
  split_and!; try assumption.
  2:{ unfold on_path, own2. apply lookup_insert_eq. }
  2:{ unfold v2. rewrite (insert_entry own v v1 t r k c e n Htree Hpath Hfresh Hv1 _ _ _ Hpath) by apply tix_range.
      rewrite !Z.eqb_refl. reflexivity. }
  2:{ intros t' x i Ho Hi Hp. exact (insert_keeps own v v1 t r k c e n Htree Hpath Habs Hfresh Hv1 _ _ _ Ho Hi Hp). }
  split.
  - apply (frames_ok_ext (users own (hold f A))); [|apply (frames_ok_db _ v); [reflexivity..|exact Hfr]]. intros g _. unfold users. rewrite refs_hold by exact Hnh. unfold own2.
    destruct (decide (g = f)) as [->|Hne].
    + fold c. rewrite lookup_insert_eq, Hfresh. lia.
    + rewrite lookup_insert_ne by (intros ?%frame_addr_inj; congruence). lia.
  - destruct Hs as [H1 H2 H3 H4 H5 H6 H7 H8]. constructor; try assumption.
    + exact (insert_tree own v v1 t r k c e n Htree Hn Hpath Hfresh Hv1 He1).
    + intros r' Hr'. apply (lookup_weaken own); auto.
    + intros t' x. unfold own2. intros [[<- _]|[Hne Ho]]%lookup_insert_Some; [exists f; auto|].
      destruct (H3 _ _ Ho) as (g & Hg & -> & Hz). exists g. rewrite refs_hold in Hz by exact Hnh. pose proof (refs_pos A g).
      split_and!; [exact Hg | reflexivity | case_decide; lia].
    + intros g Hg. apply H5. cbn. set_solver.
    + intros r' k' Hr' Hk'. etransitivity; [|apply (H6 r' k' Hr' Hk')].
      apply (insert_read own v v1 t r k c e n Htree Hn Hpath Habs Hfresh Hv1 He2 He1 r'); [exact Hk'|].
      apply (root_path own (hold f A) v); assumption.
    + apply (kernel_direct_step v1); try reflexivity; [exact Hk1|]. intros t' Ht'. unfold v2, set_entry. cbn [tables with_memory].
      apply lookup_alter_ne. intros ->. destruct (H3 _ _ Hpath) as (g & Hg & -> & _). exact (Ht' g Hg eq_refl).
Qed.

Lemma table_index_tix virt n : (n <= 3)%nat -> table_index virt (0 + Z.of_nat n) = tix (pte_index virt) (Z.of_nat n).
Proof. intros Hn. rewrite Z.add_0_l. apply table_index_page. lia. Qed.

(** The walk reaches the page's leaf table, creating what is missing, or runs
    out of frames; either way no page of any space changes. *)
Lemma walk_create n : forall own A v r virt t,
  rep own A v -> user_page (pte_index virt) -> (n <= 3)%nat -> on_path own r (pte_index virt) n t ->
  let '(res, v') := walk kernel_phys n v t virt 0 true in
  exists own', rep own' A v' /\ own ⊆ own' /\ keeps_entries own v v' /\ total_frames v' = total_frames v /\
    grown (a_roots A) own own' v' /\
    match res with
    | Some t' => leaf_table n v' t (pte_index virt) = Some t'
    | None => forall f, managed v' f -> users own' A f <> 0
    end.
Proof.
  induction n as [|n IH]; intros own A v r virt t Hrep Hk Hn Hpath; cbn [walk].
  { exists own. split_and!; try done. apply grown_refl. }
  rewrite table_index_tix by exact Hn. set (k := pte_index virt) in *. set (i := tix k (Z.of_nat (S n))).
  destruct (pte_has (entry_at v t i) PAGE_PRESENT) eqn:Hp.
  - pose proof Hrep as [_ Hs].
    pose proof (path_child _ _ _ _ _ _ (sh_tree _ _ _ Hs) Hk Hpath Hp) as Hc. fold i in Hc.
    specialize (IH own A v r virt _ Hrep Hk ltac:(lia) Hc). destruct (walk _ _ _ _ _ _ _) as [res v'].
    destruct IH as (own' & H1 & H2 & H3 & H4 & Hgr & H5). exists own'. split_and!; try assumption.
    destruct res as [t'|]; [|exact H5]. cbn [leaf_table]. fold i.
    rewrite (H3 _ _ i Hpath) by (exact Hp || apply tix_range). rewrite Hp. exact H5.
  - cbn [negb]. unfold allocate_page_table.
    destruct (alloc_page_rep own A v Hrep) as [[-> Hnone]|(f & v0 & -> & Hf & Hu & Hsame & Hrep0)].
    { cbn [Z.eqb]. exists own. split_and!; try done. apply grown_refl. }
    pose proof (frame_addr_pos f (rep_frame_ok _ _ _ _ Hrep Hf)) as Hpos. rewrite (proj2 (Z.eqb_neq _ _)) by lia.
    assert (managed v0 f) as Hf0 by (destruct Hsame as (_ & _ & _ & Ht); unfold managed in *; lia).
    assert (refs A f = 0) as Hr0.
    { unfold users in Hu. pose proof (refs_pos A f). destruct (own !! frame_addr_of f); lia. }
    assert (f ∉ a_held A) as Hnh.
    { intros Hin. unfold refs in Hr0. rewrite decide_True in Hr0 by exact Hin. pose proof (mappings_pos (a_maps A) f). lia. }
    assert (forall t i, entry_at v0 t i = entry_at v t i) as He0.
    { intros. unfold entry_at. destruct Hsame as (-> & _). reflexivity. }
    unfold i in Hp. rewrite <- He0 in Hp.
    destruct (rep_new_table own A v0 f r k n t Hrep0 Hnh Hr0 Hf0 Hk ltac:(lia) Hpath Hp) as (H1 & H2 & H3 & H4 & H5 & H6 & H7).
    fold i in H1, H5, H7 |- *.
    match type of H1 with rep ?o A ?w => set (own2 := o) in *; set (v2 := w) in * end.
    cbn zeta in H3, H4, H5 |- *. fold table_flags. fold v2.
    rewrite H3.
    specialize (IH own2 A v2 r virt _ H1 Hk ltac:(lia) H2). destruct (walk _ _ _ _ _ _ _) as [res v'].
    destruct IH as (own' & G1 & G2 & G3 & G4 & Hgr & G5). exists own'.
    assert (total_frames v2 = total_frames v) as Htot by (destruct Hsame as (_ & _ & _ & Ht); exact Ht).
    split_and!; [exact G1 | etransitivity; eassumption | | congruence | |].
    + intros t' x j Ho Hj Hpr. rewrite <- He0 in Hpr |- *. pose proof (H7 t' x j Ho Hj Hpr) as Hv2.
      rewrite <- Hv2. apply (G3 t' x); [apply (lookup_weaken own), H6; exact Ho | exact Hj | rewrite Hv2; exact Hpr].
    + intros t1 r1 L p1 Ho1 Hn1. destruct (own2 !! t1) as [x|] eqn:E2; [|by apply (Hgr t1 r1 L p1)]. right.
      rewrite (lookup_weaken _ _ _ _ E2 G2) in Ho1. injection Ho1 as ->.
      unfold own2 in E2. apply lookup_insert_Some in E2 as [[<- [= <- <- <-]]|[_ E2]]; [|congruence]. split; [lia|].
      assert (own2 !! t = Some (r, Z.of_nat (S n), prefix k (Z.of_nat (S n)))) as Ht2 by (apply (lookup_weaken own); assumption).
      exists t, (prefix k (Z.of_nat (S n))), i. replace (Z.of_nat n + 1) with (Z.of_nat (S n)) by lia.
      pose proof (tix_range k (Z.of_nat (S n))) as Hti. fold i in Hti.
      rewrite (G3 t _ i Ht2) by (lia || rewrite H5; exact H4). rewrite H5.
      split_and!; [exact (lookup_weaken _ _ _ _ Ht2 G2) | lia | lia | exact H4 | exact H3].
    + destruct res as [t'|]; [|exact G5]. cbn [leaf_table]. fold i.
      rewrite (G3 t _ i (lookup_weaken _ _ _ _ Hpath H6)) by (apply tix_range || rewrite H5; exact H4).
      rewrite H5, H4, H3. exact G5.
Qed.

(** ** Changing one page *)
Definition set_map (key : Z * Z) (e : Z) (m : gmap (Z * Z) Z) : gmap (Z * Z) Z :=
  if pte_has e PAGE_PRESENT then <[key := e]> m else delete key m.

Definition set_page (r k e : Z) (held : gset Z) (A : vm_abs) : vm_abs :=
  with_held held (with_maps (set_map (r, k) e (a_maps A)) A).

Lemma set_map_lookup r k e m r' k' :
  set_map (r, k) e m !! (r', k') =
  if (r' =? r) && (k' =? k) then (if pte_has e PAGE_PRESENT then Some e else None) else m !! (r', k').
Proof.
  unfold set_map. destruct (Z.eqb_spec r' r) as [->|Hr]; [destruct (Z.eqb_spec k' k) as [->|Hk]|]; cbn [andb];
    destruct (pte_has e PAGE_PRESENT);
    rewrite ?lookup_insert_eq, ?lookup_delete_eq, ?lookup_insert_ne, ?lookup_delete_ne by congruence; reflexivity.
Qed.

Definition maps_frame (e f : Z) : Z := if decide (pte_to_phys e = frame_addr_of f) then 1 else 0.

Lemma mappings_set_map m key e f :
  mappings (set_map key e m) f =
  mappings m f - from_option (fun e0 => maps_frame e0 f) 0 (m !! key) + (if pte_has e PAGE_PRESENT then maps_frame e f else 0).
Proof.
  unfold set_map, maps_frame. destruct (m !! key) as [e0|] eqn:Hm; cbn [from_option]; destruct (pte_has e PAGE_PRESENT).
  - apply mappings_replace, Hm.
  - rewrite (mappings_delete _ _ _ _ Hm). lia.
  - rewrite (mappings_insert _ _ _ _ Hm). lia.
  - rewrite delete_id by exact Hm. lia.
Qed.

Lemma refs_set_page r k e held A f :
  refs (set_page r k e held A) f =
  mappings (a_maps A) f - from_option (fun e0 => maps_frame e0 f) 0 (a_maps A !! (r, k))
    + (if pte_has e PAGE_PRESENT then maps_frame e f else 0) + (if decide (f ∈ held) then 1 else 0).
Proof. unfold refs. cbn [a_maps a_held set_page with_held with_maps]. rewrite mappings_set_map. reflexivity. Qed.

Lemma maps_frame_eq e f : pte_to_phys e = frame_addr_of f -> forall g, maps_frame e g = if decide (g = f) then 1 else 0.
Proof.
  intros He g. unfold maps_frame. rewrite He. repeat case_decide; try reflexivity; try congruence.
  exfalso. apply frame_addr_inj in H. congruence.
Qed.

Lemma shape_leaf own A v r k t e held :
  shape_ok own A v -> r ∈ a_roots A -> user_page k -> leaf_table 3 v r k = Some t ->
  (pte_has e PAGE_PRESENT = true -> exists f, managed v f /\ pte_to_phys e = frame_addr_of f) ->
  (forall f, f ∈ held -> managed v f) ->
  (forall f, managed v f -> own !! frame_addr_of f <> None -> refs (set_page r k e held A) f = 0) ->
  shape_ok own (set_page r k e held A) (set_entry v t (tix k 0) e).
Proof.
  intros [H1 H2 H3 H4 H5 H6 H7 H8] Hr Hk Hl He Hheld Htab.
  assert (forall r k, r ∈ a_roots A -> user_page k -> on_path own r k 3 r) as Hroot.
  { intros r' k' Hr' Hk'. unfold on_path. change (Z.of_nat 3) with 3. rewrite (prefix_root _ Hk'). apply H2, Hr'. }
  pose proof (leaf_owned own v r k 3 r t H1 Hk (Hroot _ _ Hr Hk) Hl) as Hown.
  constructor; try assumption.
  - exact (leaf_tree own v t r k e H1 Hown).
  - intros t' x Hx. destruct (H3 t' x Hx) as (f & Hf & -> & _). exists f. split_and!; [exact Hf | reflexivity|].
    apply Htab; [exact Hf | congruence].
  - intros r' k' e'. cbn [a_maps a_roots with_held with_maps set_page]. rewrite set_map_lookup.
    destruct (Z.eqb_spec r' r) as [->|]; [destruct (Z.eqb_spec k' k) as [->|]|]; cbn [andb]; try apply H4.
    destruct (pte_has e PAGE_PRESENT) eqn:Hp; [intros [= <-]; auto | discriminate].
  - intros r' k' Hr' Hk'. cbn [a_maps with_held with_maps set_page]. rewrite set_map_lookup.
    rewrite (leaf_read own v t r k e H1 Hown r') by auto. rewrite (H6 _ _ Hr' Hk'). reflexivity.
  - apply (kernel_direct_step v); try reflexivity; [exact H8|]. intros t' Ht'. cbn. apply lookup_alter_ne. intros ->.
    destruct (H3 _ _ Hown) as (f & Hf & -> & _). exact (Ht' f Hf eq_refl).
Qed.

Lemma tables_refs own A v f : rep own A v -> own !! frame_addr_of f <> None -> refs A f = 0.
Proof.
  intros [_ Hs] Hf. destruct (own !! frame_addr_of f) as [x|] eqn:E; [|contradiction].
  destruct (sh_own _ _ _ Hs _ _ E) as (g & _ & ->%frame_addr_inj & H). exact H.
Qed.

Lemma frames_set_entry c v t i e : frames_ok c v -> frames_ok c (set_entry v t i e).
Proof. apply frames_ok_db; reflexivity. Qed.

Lemma managed_set_entry v t i e f : managed (set_entry v t i e) f <-> managed v f.
Proof. reflexivity. Qed.

(** The leaf of a mapped page. *)
Lemma mapped_leaf own A v r k e :
  rep own A v -> a_maps A !! (r, k) = Some e ->
  r ∈ a_roots A /\ user_page k /\ exists t f, leaf_table 3 v r k = Some t /\ entry_at v t (tix k 0) = e /\
    pte_has e PAGE_PRESENT = true /\ managed v f /\ pte_to_phys e = frame_addr_of f /\ 1 <= refs A f.
Proof.
  intros [_ Hs] Hm. destruct (sh_maps _ _ _ Hs _ _ _ Hm) as (Hr & Hk & Hp & f & Hf & He).
  split_and!; try assumption. pose proof (sh_read _ _ _ Hs _ _ Hr Hk) as Hread. rewrite Hm, read_leaf in Hread.
  destruct (leaf_table 3 v r k) as [t|]; [|discriminate]. cbv zeta in Hread.
  destruct (pte_has (entry_at v t (tix k 0)) PAGE_PRESENT) eqn:E; [|discriminate]. injection Hread as He'.
  exists t, f. split_and!; try assumption; [reflexivity|]. unfold refs. pose proof (mapped_refs _ _ _ _ Hm He). case_decide; lia.
Qed.

Lemma found own A v r virt :
  rep own A v -> r ∈ a_roots A -> user_page (pte_index virt) ->
  match a_maps A !! (r, pte_index virt) with
  | Some e => exists t, vmm_get_page_table v (& r) virt PT_LEVEL false = (& (t, tix (pte_index virt) 0), v) /\
      entry_at v t (tix (pte_index virt) 0) = e /\ leaf_table 3 v r (pte_index virt) = Some t
  | None => vmm_get_page_table v (& r) virt PT_LEVEL false = (NULL, v) \/
      exists t i, vmm_get_page_table v (& r) virt PT_LEVEL false = (& (t, i), v) /\ pte_has (entry_at v t i) PAGE_PRESENT = false
  end.
Proof.
  intros Hrep Hr Hk. pose proof Hrep as [_ Hs]. unfold vmm_get_page_table. rewrite page_table_found.
  pose proof (sh_read _ _ _ Hs _ _ Hr Hk) as Hread. rewrite read_leaf in Hread.
  destruct (a_maps A !! _) as [e|] eqn:Hm.
  - destruct (mapped_leaf _ _ _ _ _ _ Hrep Hm) as (_ & _ & t & f & Ht & He & _). exists t. rewrite Ht. auto.
  - destruct (leaf_table _ _ _ _) as [t|]; [|left; reflexivity]. right. cbv zeta in Hread.
    destruct (pte_has _ _) eqn:E; [discriminate|]. eexists _, _. split; [reflexivity | exact E].
Qed.
