(* ===== verification/PageOpsSpec.v ===== *)
(** * Every operation of the memory manager refines its abstract step

    The operations a client may call, what each promises on the map of pages,
    and that the code keeps the promise. *)
From Stdlib Require Import ZArith Lia.
From stdpp Require Import gmap.
From S2P Require Import Prelude.
From S2P Require Import Vmm VmmSpec PageWalk PageTreeSpec FrameSpec PageWalkSpec.
Open Scope Z_scope.
Open Scope c_scope.

Inductive vm_op :=
  | AllocPage
  | FreePage (f : Z)
  | CreateSpace (pid : Z)
  | MapPage (r virt f flags : Z)
  | UnmapPage (r virt : Z)
  | CowFault (r virt : Z)
  | MapCow (dst src virt flags : Z).

Definition run (op : vm_op) (v : vmm_t) : Z * vmm_t :=
  match op with
  | AllocPage => vmm_alloc_page v
  | FreePage f => (0, vmm_free_page v (frame_addr_of f))
  | CreateSpace pid => let '(root, v) := vmm_create_address_space true pid v in (default 0 root, v)
  | MapPage r virt f flags => vmm_map_page v (& r) virt (frame_addr_of f) flags
  | UnmapPage r virt => vmm_unmap_page v (& r) virt
  | CowFault r virt => vmm_handle_cow_fault v (& r) virt
  | MapCow dst src virt flags => vmm_map_cow_page v (& dst) (& src) virt flags
  end.

(** Clients map frames they hold, at user addresses of existing spaces. *)
Definition allowed (op : vm_op) (A : vm_abs) : Prop :=
  match op with
  | AllocPage | CreateSpace _ => True
  | FreePage f => f ∈ a_held A
  | MapPage r virt f _ => r ∈ a_roots A /\ user_page (pte_index virt) /\ f ∈ a_held A
  | UnmapPage r virt | CowFault r virt => r ∈ a_roots A /\ user_page (pte_index virt)
  | MapCow dst src virt _ => dst ∈ a_roots A /\ src ∈ a_roots A /\ user_page (pte_index virt)
  end.

Definition writable (e : Z) : Z := Z.lor e PAGE_WRITABLE.
Definition read_only (e : Z) : Z := Z.ldiff e PAGE_WRITABLE.
Definition cow_flags (flags : Z) : Z := Z.lor (Z.ldiff flags PAGE_WRITABLE) PAGE_PRESENT.

Definition page_at (A : vm_abs) (r virt : Z) : option Z := a_maps A !! (r, pte_index virt).
Definition set_at (r virt e : Z) (A : vm_abs) : vm_abs := set_page r (pte_index virt) e (a_held A) A.

(** ** What each operation promises *)
Inductive abs_step : vm_op -> vm_abs -> Z -> vm_abs -> Prop :=
  | step_alloc A f : frame_ok f -> refs A f = 0 -> abs_step AllocPage A (frame_addr_of f) (hold f A)
  | step_alloc_fail A : abs_step AllocPage A 0 A
  | step_free A f : abs_step (FreePage f) A 0 (with_held (a_held A ∖ {[f]}) A)
  | step_create A pid r : r ∉ a_roots A -> abs_step (CreateSpace pid) A r (with_roots ({[r]} ∪ a_roots A) A)
  | step_create_fail A pid : abs_step (CreateSpace pid) A 0 A
  | step_map A r virt f flags : page_at A r virt = None ->
      abs_step (MapPage r virt f flags) A VMM_SUCCESS
        (set_page r (pte_index virt) (phys_to_pte (frame_addr_of f) flags)
           (if Z.testbit flags 0 then a_held A ∖ {[f]} else a_held A) A)
  | step_map_exists A r virt f flags e : page_at A r virt = Some e ->
      abs_step (MapPage r virt f flags) A VMM_ERROR_EXISTS A
  | step_map_fail A r virt f flags : page_at A r virt = None ->
      abs_step (MapPage r virt f flags) A VMM_ERROR_NOMEM A
  | step_unmap A r virt e : page_at A r virt = Some e ->
      abs_step (UnmapPage r virt) A VMM_SUCCESS (set_at r virt 0 A)
  | step_unmap_none A r virt : page_at A r virt = None -> abs_step (UnmapPage r virt) A VMM_ERROR_NOT_FOUND A
  | step_cow_last A r virt e f : page_at A r virt = Some e -> pte_to_phys e = frame_addr_of f -> refs A f = 1 ->
      abs_step (CowFault r virt) A VMM_SUCCESS (set_at r virt (writable e) A)
  | step_cow_copy A r virt e f f' : page_at A r virt = Some e -> pte_to_phys e = frame_addr_of f ->
      1 < refs A f -> frame_ok f' -> refs A f' = 0 ->
      abs_step (CowFault r virt) A VMM_SUCCESS
        (with_pages (<[frame_addr_of f' := frame_at (a_pages A) (frame_addr_of f)]> (a_pages A))
           (set_at r virt (phys_to_pte (frame_addr_of f') (writable (Z.land e 0xFFF))) A))
  | step_cow_fail A r virt e f : page_at A r virt = Some e -> pte_to_phys e = frame_addr_of f -> 1 < refs A f ->
      abs_step (CowFault r virt) A VMM_ERROR_NOMEM A
  | step_cow_none A r virt : page_at A r virt = None -> abs_step (CowFault r virt) A VMM_ERROR_NOT_FOUND A
  | step_share A dst src virt flags e :
      page_at A src virt = Some e -> page_at (set_at src virt (read_only e) A) dst virt = None ->
      abs_step (MapCow dst src virt flags) A VMM_SUCCESS
        (set_at dst virt (phys_to_pte (pte_to_phys e) (cow_flags flags)) (set_at src virt (read_only e) A))
  | step_share_exists A dst src virt flags e e' :
      page_at A src virt = Some e -> page_at (set_at src virt (read_only e) A) dst virt = Some e' ->
      abs_step (MapCow dst src virt flags) A VMM_ERROR_EXISTS (set_at src virt (read_only e) A)
  | step_share_fail A dst src virt flags e :
      page_at A src virt = Some e -> page_at (set_at src virt (read_only e) A) dst virt = None ->
      abs_step (MapCow dst src virt flags) A VMM_ERROR_NOMEM (set_at src virt (read_only e) A)
  | step_share_none A dst src virt flags : page_at A src virt = None ->
      abs_step (MapCow dst src virt flags) A VMM_ERROR_NOT_FOUND A.

(** The results that mean no frame was left. *)
Definition out_of_memory (op : vm_op) (rc : Z) : bool :=
  match op with AllocPage | CreateSpace _ => rc =? 0 | _ => rc =? VMM_ERROR_NOMEM end.

Definition refined (own : ownership) (A : vm_abs) (op : vm_op) (out : Z * vmm_t) : Prop :=
  exists own' A', own ⊆ own' /\ rep own' A' out.2 /\ abs_step op A out.1 A' /\
    (out_of_memory op out.1 = true -> forall f, managed out.2 f -> users own' A' f <> 0) /\
    grown (a_roots A') own own' out.2.

(** ** Allocation and freeing *)
Lemma alloc_refined own A v : rep own A v -> refined own A AllocPage (vmm_alloc_page v).
Proof.
  intros H. destruct (alloc_page_rep own A v H) as [[-> Hn]|(f & v' & -> & Hf & Hu & _ & H')].
  - exists own, A. split_and!; [reflexivity | exact H | constructor | auto | apply grown_refl].
  - exists own, (hold f A). split_and!; [reflexivity | exact H' | constructor; [exact (rep_frame_ok _ _ _ _ H Hf)|] | | apply grown_refl].
    + unfold users in Hu. pose proof (refs_pos A f). destruct (own !! frame_addr_of f); lia.
    + cbn [fst out_of_memory]. pose proof (frame_addr_pos f (rep_frame_ok _ _ _ _ H Hf)). intros ?%Z.eqb_eq. lia.
Qed.

Lemma held_refs A f : f ∈ a_held A -> 1 <= refs A f.
Proof. intros Hf. unfold refs. rewrite decide_True by exact Hf. pose proof (mappings_pos (a_maps A) f). lia. Qed.

Lemma users_pos own A f : 0 <= users own A f.
Proof. unfold users. pose proof (refs_pos A f). destruct (own !! _); lia. Qed.

(** Changing who uses the frames changes nothing else. *)
Lemma shape_held own A v h :
  shape_ok own A v -> (forall f, f ∈ h -> f ∈ a_held A) -> shape_ok own (with_held h A) v.
Proof.
  intros [H1 H2 H3 H4 H5 H6 H7 H8] Hh. constructor; try assumption; [|intros f Hf; apply H5, Hh, Hf].
  intros t x Hx. destruct (H3 t x Hx) as (f & Hf & -> & Hz). exists f. split_and!; [exact Hf | reflexivity|].
  unfold refs in *. cbn. pose proof (mappings_pos (a_maps A) f). specialize (Hh f). repeat case_decide; try lia. tauto.
Qed.

Lemma free_refined own A v f :
  rep own A v -> f ∈ a_held A -> refined own A (FreePage f) (0, vmm_free_page v (frame_addr_of f)).
Proof.
  intros H Hf. pose proof H as [Hfr Hs]. pose proof (held_refs A f Hf) as Hr.
  pose proof (users_used own A v f H ltac:(lia)) as Hu.
  destruct (free_page_frames _ _ _ Hfr (sh_held _ _ _ Hs _ Hf) ltac:(lia)) as [Hsame Hfr'].
  exists own, (with_held (a_held A ∖ {[f]}) A). split_and!; [reflexivity | | constructor | discriminate | apply grown_refl]. split.
  - eapply frames_ok_ext; [|exact Hfr']. intros g _. unfold count_set.
    destruct (Z.eqb_spec g f) as [->|Hne]; unfold users, refs in *; cbn [a_maps a_held with_held] in *.
    + repeat case_decide; try contradiction; try lia. set_solver.
    + repeat case_decide; try lia; set_solver.
  - apply (shape_same _ _ v); [exact Hsame|]. apply shape_held; [exact Hs | set_solver].
Qed.

(** ** Mapping *)
Lemma align_page virt : pte_index (vmm_align_down virt PAGE_SIZE) = pte_index virt.
Proof. apply align_index. Qed.

(** [vmm_get_page_table(space, virt, PT_LEVEL, true)] *)
Lemma created own A v r virt :
  rep own A v -> r ∈ a_roots A -> user_page (pte_index virt) ->
  let k := pte_index virt in
  let '(res, v') := vmm_get_page_table v (& r) virt PT_LEVEL true in
  exists own', rep own' A v' /\ own ⊆ own' /\ total_frames v' = total_frames v /\ grown (a_roots A) own own' v' /\
    match res with
    | Some (t, i) => leaf_table 3 v' r k = Some t /\ i = tix k 0
    | None => a_maps A !! (r, k) = None /\ forall f, managed v' f -> users own' A f <> 0
    end.
Proof.
  intros Hrep Hr Hk k. pose proof (walk_create 3 own A v r virt r Hrep Hk (le_n 3) (root_path _ _ _ _ _ Hrep Hr Hk)) as H.
  unfold vmm_get_page_table, page_table_walk, PT_LEVEL, PML4_LEVEL. change (Z.to_nat (3 - 0)) with 3%nat. fold kernel_phys.
  destruct (a_maps A !! (r, k)) as [e|] eqn:Hm.
  - destruct (mapped_leaf _ _ _ _ _ _ Hrep Hm) as (_ & _ & t & f & Ht & _).
    rewrite (walk_present kernel_phys 3 v r virt t (le_n 3) Ht). exists own. rewrite table_index_page by lia.
    pose proof (grown_refl (a_roots A) own v). auto 6.
  - destruct (walk _ _ _ _ _ _ _) as [[t|] v'].
    + destruct H as (own' & H1 & H2 & _ & H4 & Hg & H5). exists own'. rewrite table_index_page by lia. auto 6.
    + destruct H as (own' & H1 & H2 & _ & H4 & Hg & H5). exists own'. auto 6.
Qed.

(** What the found or created entry holds. *)
Lemma leaf_entry_map own A v r k t :
  rep own A v -> r ∈ a_roots A -> user_page k -> leaf_table 3 v r k = Some t ->
  a_maps A !! (r, k) = (if pte_has (entry_at v t (tix k 0)) PAGE_PRESENT then Some (entry_at v t (tix k 0)) else None).
Proof. intros [_ Hs] Hr Hk Ht. rewrite <- (sh_read _ _ _ Hs _ _ Hr Hk), read_leaf, Ht. reflexivity. Qed.

Lemma set_map_absent key e m : pte_has e PAGE_PRESENT = false -> m !! key = None -> set_map key e m = m.
Proof. intros He Hm. unfold set_map. rewrite He. apply delete_id, Hm. Qed.

(** One entry is written and the users of the frames change to match. *)
Lemma rep_set_page own A v r k t e held c :
  rep own A v -> r ∈ a_roots A -> user_page k -> leaf_table 3 v r k = Some t ->
  (pte_has e PAGE_PRESENT = true -> exists f, managed v f /\ pte_to_phys e = frame_addr_of f /\ own !! frame_addr_of f = None) ->
  (forall f, f ∈ held -> f ∈ a_held A) ->
  forall v', same_memory v v' -> frames_ok c v' ->
  (forall f, managed v f -> c f = users own (set_page r k e held A) f) ->
  rep own (set_page r k e held A) (set_entry v' t (tix k 0) e).
Proof.
  intros Hrep Hr Hk Ht He Hh v' Hsame Hfr Hc. pose proof Hrep as [_ Hs].
  assert (forall f, managed v' f <-> managed v f) as Hm by (intros f; destruct Hsame as (_ & _ & _ & Hn); unfold managed; rewrite Hn; reflexivity).
  split.
  - apply frames_set_entry. eapply frames_ok_ext; [|exact Hfr]. intros f Hf. symmetry. apply Hc, Hm, Hf.
  - apply shape_leaf; try assumption.
    + apply (shape_same _ _ v); assumption.
    + rewrite (leaf_table_ext 3 v) by apply Hsame. exact Ht.
    + intros Hp. destruct (He Hp) as (f & Hf & H & _). exists f. rewrite Hm. auto.
    + intros f Hf. apply Hm, (sh_held _ _ _ Hs), Hh, Hf.
    + intros f Hf Ho. pose proof (tables_refs _ _ _ _ Hrep Ho) as Hz. unfold refs in Hz.
      rewrite refs_set_page. pose proof (mappings_pos (a_maps A) f) as Hmp. specialize (Hh f).
      assert (mappings (a_maps A) f = 0 /\ f ∉ a_held A) as [Hm0 Hnh] by (case_decide; split; lia || assumption).
      rewrite decide_False by auto.
      assert (from_option (fun e0 => maps_frame e0 f) 0 (a_maps A !! (r, k)) = 0) as ->.
      { destruct (a_maps A !! (r, k)) as [e0|] eqn:E; [|reflexivity]. cbn. unfold maps_frame.
        destruct (decide (pte_to_phys e0 = frame_addr_of f)) as [Hd|]; [|reflexivity].
        pose proof (mapped_refs _ _ _ _ E Hd). lia. }
      destruct (pte_has e PAGE_PRESENT) eqn:Hp; [|lia]. destruct (He eq_refl) as (g & Hg & Hge & Hgo).
      rewrite (maps_frame_eq e g Hge). rewrite decide_False by congruence. lia.
Qed.

(** [vmm_map_page] up to the write of the entry. *)
Lemma map_page_cases own A v r virt phys flags :
  rep own A v -> r ∈ a_roots A -> user_page (pte_index virt) ->
  let k := pte_index virt in
  let out := vmm_map_page v (& r) virt phys flags in
  exists own' v1, rep own' A v1 /\ own ⊆ own' /\ total_frames v1 = total_frames v /\ grown (a_roots A) own own' v1 /\
    match a_maps A !! (r, k) with
    | Some _ => out = (VMM_ERROR_EXISTS, v1)
    | None => (out = (VMM_ERROR_NOMEM, v1) /\ forall f, managed v1 f -> users own' A f <> 0) \/
        exists t, leaf_table 3 v1 r k = Some t /\
          out = (VMM_SUCCESS, set_entry v1 t (tix k 0) (phys_to_pte (vmm_align_down phys PAGE_SIZE) flags))
    end.
Proof.
  intros Hrep Hr Hk k out. pose proof (created own A v r (vmm_align_down virt PAGE_SIZE) Hrep Hr) as H.
  rewrite align_page in H. specialize (H Hk). cbv zeta in H. fold k in H.
  unfold out, vmm_map_page, map_page_internal. cbv zeta.
  destruct (vmm_get_page_table _ _ _ _ _) as [[[t i]|] v1]; destruct H as (own' & H1 & H2 & H3 & Hgr & H4); exists own', v1.
  - destruct H4 as [H4 ->]. rewrite (leaf_entry_map own' A v1 r k t H1 Hr Hk H4).
    split_and!; try assumption. destruct (pte_has _ _); [reflexivity|]. right. eauto.
  - destruct H4 as [-> H4]. split_and!; auto.
Qed.

Lemma users_held_none own A v f : rep own A v -> 1 <= refs A f -> own !! frame_addr_of f = None.
Proof. intros H Hf. apply (used_no_table _ _ _ _ H). lia. Qed.

Lemma user_sub own A v f : rep own A v -> 1 <= refs A f -> users own A f = refs A f.
Proof. intros H Hf. apply (users_used _ _ _ _ H). lia. Qed.

#[local] Ltac frame_cases :=
  unfold maps_frame, refs in *; repeat case_decide; try lia; try congruence;
  try (exfalso; set_solver).

Lemma map_refined own A v r virt f flags :
  rep own A v -> r ∈ a_roots A -> user_page (pte_index virt) -> f ∈ a_held A ->
  refined own A (MapPage r virt f flags) (vmm_map_page v (& r) virt (frame_addr_of f) flags).
Proof.
  intros Hrep Hr Hk Hf. destruct (map_page_cases own A v r virt (frame_addr_of f) flags Hrep Hr Hk) as (own' & v1 & H1 & H2 & H3 & Hgr & H4).
  assert (managed v1 f) as Hm by (apply (sh_held _ _ _ (proj2 H1)), Hf).
  pose proof (rep_frame_ok _ _ _ _ H1 Hm) as Hok. rewrite (frame_addr_ok f Hok) in H4.
  destruct (a_maps A !! _) as [e|] eqn:Em.
  { rewrite H4. exists own', A. split_and!; [exact H2 | exact H1 | exact (step_map_exists A r virt f flags e Em) | discriminate | exact Hgr]. }
  destruct H4 as [[-> H4]|(t & Ht & ->)].
  { exists own', A. split_and!; [exact H2 | exact H1 | exact (step_map_fail A r virt f flags Em) | auto | exact Hgr]. }
  set (k := pte_index virt) in *. set (e := phys_to_pte (frame_addr_of f) flags).
  destruct (new_entry f flags Hok) as [He1 He2]. fold e in He1, He2.
  eexists own', _. split_and!; [exact H2 | | exact (step_map A r virt f flags Em) | discriminate |].
  2:{ cbn [snd]. eapply grown_leaf; [exact (leaf_owned own' v1 r k 3 r t (sh_tree _ _ _ (proj2 H1)) Hk (root_path _ _ _ _ _ H1 Hr Hk) Ht) | exact Hgr]. }
  cbn [snd]. fold k e.
  apply (rep_set_page own' A v1 r k t e _ (users own' A)); try assumption.
  - intros _. exists f. split_and!; [exact Hm | exact He1 | apply (users_held_none _ A v1); [exact H1 | apply held_refs, Hf]].
  - intros g. destruct (Z.testbit flags 0); set_solver.
  - reflexivity.
  - apply H1.
  - intros g Hg. unfold users. f_equal. rewrite refs_set_page, Em, He2, (maps_frame_eq e f He1). cbn [from_option].
    unfold refs. destruct (Z.testbit flags 0); repeat case_decide; try lia; exfalso; set_solver.
Qed.

Lemma unmap_refined own A v r virt :
  rep own A v -> r ∈ a_roots A -> user_page (pte_index virt) ->
  refined own A (UnmapPage r virt) (vmm_unmap_page v (& r) virt).
Proof.
  intros Hrep Hr Hk. pose proof (found own A v r (vmm_align_down virt PAGE_SIZE) Hrep Hr) as H.
  rewrite align_page in H. specialize (H Hk). set (k := pte_index virt) in *.
  unfold vmm_unmap_page. cbv zeta. destruct (a_maps A !! (r, k)) as [e|] eqn:Em.
  - destruct H as (t & -> & He & Ht). cbv iota zeta. rewrite He.
    destruct (mapped_leaf _ _ _ _ _ _ Hrep Em) as (_ & _ & _ & f & _ & _ & Hp & Hm & Hphys & Hrefs).
    rewrite Hp, Hphys. cbn [negb]. pose proof (user_sub _ _ _ _ Hrep Hrefs) as Hu.
    destruct (free_page_frames _ _ f (proj1 Hrep) Hm ltac:(lia)) as [Hsame Hfr].
    eexists own, _. split_and!; [reflexivity | | exact (step_unmap A r virt e Em) | discriminate | apply grown_refl].
    cbn [snd]. unfold set_at. fold k.
    eapply (rep_set_page own A v r k t 0); try eassumption; [discriminate | auto|].
    intros g Hg. unfold count_set, users. rewrite refs_set_page, Em. cbn [from_option]. rewrite has_zero, (maps_frame_eq e f Hphys).
    destruct (Z.eqb_spec g f) as [->|Hne]; unfold users, refs in *; repeat case_decide; try lia; contradiction.
  - exists own, A. split_and!; [reflexivity | | | |apply grown_refl].
    + destruct H as [-> | (t & i & -> & Hn)]; [exact Hrep|]. rewrite Hn. exact Hrep.
    + destruct H as [-> | (t & i & -> & Hn)]; [|rewrite Hn]; exact (step_unmap_none A r virt Em).
    + destruct H as [-> | (t & i & -> & Hn)]; [|rewrite Hn]; discriminate.
Qed.

(** ** Copy on write *)
Lemma writable_entry e : pte_to_phys (writable e) = pte_to_phys e /\ pte_has (writable e) PAGE_PRESENT = pte_has e PAGE_PRESENT.
Proof.
  unfold writable, pte_to_phys, pte_has. rewrite !Z.land_lor_distr_l.
  change (Z.land PAGE_WRITABLE 0xFFFFFFFFFFFFF000) with 0. change (Z.land PAGE_WRITABLE PAGE_PRESENT) with 0.
  rewrite !Z.lor_0_r. auto.
Qed.

Lemma read_only_entry e : pte_to_phys (read_only e) = pte_to_phys e /\ pte_has (read_only e) PAGE_PRESENT = pte_has e PAGE_PRESENT.
Proof.
  rewrite !has_present. unfold read_only, pte_to_phys. change PAGE_WRITABLE with (2 ^ 1). split.
  - apply Z.bits_inj'. intros n Hn. rewrite !Z.land_spec, Z.ldiff_spec, phys_mask, Z.pow2_bits_eqb by lia.
    destruct (Z.leb_spec 12 n); [|rewrite !andb_false_r; reflexivity]. rewrite (proj2 (Z.eqb_neq 1 n)) by lia.
    rewrite andb_true_r. reflexivity.
  - rewrite Z.ldiff_spec, Z.pow2_bits_eqb by lia. apply andb_true_r.
Qed.

Lemma copied_entry e f :
  frame_ok f -> pte_has e PAGE_PRESENT = true ->
  pte_to_phys (phys_to_pte (frame_addr_of f) (writable (Z.land e 0xFFF))) = frame_addr_of f /\
  pte_has (phys_to_pte (frame_addr_of f) (writable (Z.land e 0xFFF))) PAGE_PRESENT = true.
Proof.
  intros Hf He. destruct (new_entry f (writable (Z.land e 0xFFF)) Hf) as [H1 H2]. split; [exact H1|].
  rewrite H2. rewrite has_present in He. unfold writable. rewrite Z.lor_spec, Z.land_spec, He. reflexivity.
Qed.

Lemma cow_flags_present flags : Z.testbit (cow_flags flags) 0 = true.
Proof. unfold cow_flags. rewrite Z.lor_spec. change (Z.testbit PAGE_PRESENT 0) with true. apply orb_true_r. Qed.

(** A page's entry keeps its frame. *)
Lemma rep_same_frame own A v r virt t e e' :
  rep own A v -> r ∈ a_roots A -> user_page (pte_index virt) -> a_maps A !! (r, pte_index virt) = Some e ->
  leaf_table 3 v r (pte_index virt) = Some t -> pte_to_phys e' = pte_to_phys e -> pte_has e' PAGE_PRESENT = true ->
  rep own (set_at r virt e' A) (set_entry v t (tix (pte_index virt) 0) e').
Proof.
  intros Hrep Hr Hk Hm Ht Hphys Hp. destruct (mapped_leaf _ _ _ _ _ _ Hrep Hm) as (_ & _ & _ & f & _ & _ & _ & Hf & He & Hrefs).
  apply (rep_set_page own A v r (pte_index virt) t e' _ (users own A)); try assumption.
  - intros _. exists f. split_and!; [exact Hf | congruence | exact (users_held_none _ _ _ _ Hrep Hrefs)].
  - auto.
  - reflexivity.
  - apply Hrep.
  - intros g _. unfold users. f_equal. rewrite refs_set_page, Hm, Hp. cbn [from_option].
    rewrite (maps_frame_eq e f He), (maps_frame_eq e' f) by congruence. unfold refs. lia.
Qed.

Lemma frame_refs own A v f : rep own A v -> managed v f -> 1 <= refs A f -> ref_count (frame_of v f) = refs A f.
Proof. intros H Hf Hr. rewrite <- (user_sub _ _ _ _ H Hr). apply (fr_refs _ _ (proj1 H) f Hf). Qed.

Lemma rep_contents own A v p : rep own A v -> rep own (with_pages p A) (with_memory (tables v) p v).
Proof.
  intros [Hfr [H1 H2 H3 H4 H5 H6 H7 H8]]. split.
  - apply (frames_ok_db _ v); [reflexivity..|]. exact Hfr.
  - constructor; try assumption; try reflexivity. split; [apply (tr_table _ _ H1) | apply (tr_child _ _ H1) | apply (tr_level _ _ H1)].
Qed.

Lemma cow_refined own A v r virt :
  rep own A v -> r ∈ a_roots A -> user_page (pte_index virt) ->
  refined own A (CowFault r virt) (vmm_handle_cow_fault v (& r) virt).
Proof.
  intros Hrep Hr Hk. pose proof (found own A v r (vmm_align_down virt PAGE_SIZE) Hrep Hr) as H.
  rewrite align_page in H. specialize (H Hk). set (k := pte_index virt) in *.
  unfold vmm_handle_cow_fault. cbv zeta. destruct (a_maps A !! (r, k)) as [e|] eqn:Em.
  2:{ exists own, A. destruct H as [-> | (t & i & -> & Hn)]; [|rewrite Hn];
        (split_and!; [reflexivity | exact Hrep | exact (step_cow_none A r virt Em) | discriminate | apply grown_refl]). }
  destruct H as (t & -> & He & Ht). cbv iota zeta. rewrite He.
  destruct (mapped_leaf _ _ _ _ _ _ Hrep Em) as (_ & _ & _ & f & _ & _ & Hp & Hf & Hphys & Hrefs).
  pose proof (rep_frame_ok _ _ _ _ Hrep Hf) as Hok.
  rewrite Hp, Hphys, (page_frame_addr f Hok), (frame_refs _ _ _ _ Hrep Hf Hrefs). cbn [negb].
  rewrite (proj2 (Z.leb_gt _ _)) by (unfold managed in Hf; lia).
  destruct (Z.eqb_spec (refs A f) 1) as [Hone|Hmore].
  { destruct (writable_entry e) as [Hw1 Hw2]. exists own, (set_at r virt (writable e) A). split_and!; [reflexivity | | | discriminate | apply grown_refl].
    - exact (rep_same_frame own A v r virt t e (writable e) Hrep Hr Hk Em Ht Hw1 (eq_trans Hw2 Hp)).
    - exact (step_cow_last A r virt e f Em Hphys Hone). }
  destruct (alloc_page_rep own A v Hrep) as [[-> Hnone]|(g & v1 & -> & Hg & Hu & Hsame & Hrep1)].
  { cbn [Z.eqb]. exists own, A. split_and!; [reflexivity | exact Hrep | apply (step_cow_fail A r virt e f Em Hphys); lia | auto | apply grown_refl]. }
  pose proof (rep_frame_ok _ _ _ _ Hrep Hg) as Hgok. pose proof (frame_addr_pos g Hgok).
  rewrite (proj2 (Z.eqb_neq _ _)) by lia.
  assert (refs A g = 0 /\ own !! frame_addr_of g = None) as [Hr0 Hgo].
  { unfold users in Hu. pose proof (refs_pos A g). destruct (own !! frame_addr_of g); [lia|]. split; [lia | reflexivity]. }
  assert (g ∉ a_held A) as Hnh by (intros Hin%held_refs; lia).
  destruct (copied_entry e g Hgok Hp) as [Hc1 Hc2]. fold (writable (Z.land e 0xFFF)).
  set (e' := phys_to_pte (frame_addr_of g) (writable (Z.land e 0xFFF))) in *.
  assert (contents v1 = a_pages A) as Hpages by (rewrite <- (sh_pages _ _ _ (proj2 Hrep)); apply Hsame).
  rewrite Hpages. set (p := <[frame_addr_of g := frame_at (a_pages A) (frame_addr_of f)]> (a_pages A)).
  pose proof (rep_contents _ _ _ p Hrep1) as Hrep2. set (v2 := with_memory (tables v1) p v1) in *.
  assert (managed v2 f) as Hf2 by (destruct Hsame as (_ & _ & _ & Hn); unfold managed, total_frames in *; cbn; lia).
  assert (frame_of v2 f = frame_of v1 f) as Hfo by reflexivity.
  assert (f <> g) as Hne by (intros ->; lia).
  assert (refs (hold g A) f = refs A f) as Hrh by (rewrite refs_hold, decide_False by assumption; lia).
  assert (users own (hold g A) f = refs A f) as Huf.
  { rewrite (user_sub _ _ _ _ Hrep1) by lia. exact Hrh. }
  destruct (fr_refs _ _ (proj1 Hrep2) f Hf2) as [Hrc Hrb]. change (users own (with_pages p (hold g A)) f) with (users own (hold g A) f) in *.
  eexists own, _. split_and!; [reflexivity | | | discriminate | apply grown_refl].
  2:{ apply (step_cow_copy A r virt e f g Em Hphys); [lia | exact Hgok | exact Hr0]. }
  cbn [snd]. fold e' p k.
  change (frame_of (set_entry v2 t (tix k 0) e') f) with (frame_of v2 f).
  rewrite Hrc, Huf, u32_id by lia.
  apply (rep_set_page own (with_pages p (hold g A)) v2 r k t e' (a_held A) (count_set (users own (hold g A)) f (refs A f - 1))) with
    (v' := with_frames (zset f (set_ref (refs A f - 1) (frame_of v2 f)) (frame_database v2)) (free_frames v2) (free_frame_count v2) (statistics v2) v2);
    try assumption.
  - rewrite (leaf_table_ext 3 v) by apply Hsame. exact Ht.
  - intros _. exists g. split_and!; [|exact Hc1 | exact Hgo].
    destruct Hsame as (_ & _ & _ & Hn). unfold managed, total_frames in *. cbn. lia.
  - cbn. set_solver.
  - apply set_same.
  - apply set_ref_frames; [apply Hrep2 | exact Hf2 | lia | lia | | reflexivity].
    cbn. apply (fr_number _ _ (proj1 Hrep2)). unfold managed in Hf2. lia.
  - intros x _. unfold count_set, users. rewrite refs_set_page. cbn [a_maps a_held hold with_held with_pages].
    rewrite Em, Hc2. cbn [from_option]. rewrite (maps_frame_eq e f Hphys), (maps_frame_eq e' g Hc1).
    destruct (Z.eqb_spec x f) as [->|Hx].
    + rewrite (users_held_none _ _ _ _ Hrep Hrefs), decide_True, (decide_False (P := f = g)) by auto.
      unfold refs. lia.
    + rewrite (decide_False (P := x = f)) by exact Hx. rewrite refs_hold by exact Hnh. unfold refs.
      repeat case_decide; lia.
Qed.

(** ** Reference counts do not overflow

    Every mapping has a leaf entry of its own, and there are at most 2^28. *)
Definition slot_of (v : vmm_t) (rk : Z * Z) : Z :=
  match leaf_table 3 v rk.1 rk.2 with Some t => Z.shiftr t 12 * 512 + tix rk.2 0 | None => 0 end.

Lemma mapped_slot own A v r k e :
  rep own A v -> a_maps A !! (r, k) = Some e ->
  exists f, slot_of v (r, k) = f * 512 + tix k 0 /\ 0 <= f < 2 ^ 19 /\ own !! frame_addr_of f = Some (r, 0, prefix k 0).
Proof.
  intros Hrep Hm. destruct (mapped_leaf _ _ _ _ _ _ Hrep Hm) as (Hr & Hk & t & _ & Ht & _).
  pose proof (leaf_owned own v r k 3 r t (sh_tree _ _ _ (proj2 Hrep)) Hk (root_path _ _ _ _ _ Hrep Hr Hk) Ht) as Ho.
  destruct (sh_own _ _ _ (proj2 Hrep) _ _ Ho) as (f & Hf & -> & _). exists f.
  unfold slot_of. cbn [fst snd]. rewrite Ht. unfold frame_addr_of at 1. rewrite Z.shiftr_shiftl_l, Z.sub_diag, Z.shiftl_0_r by lia.
  pose proof (fr_total _ _ (proj1 Hrep)). unfold managed in Hf. split_and!; [reflexivity | lia | lia | exact Ho].
Qed.

Lemma maps_bound own A v : rep own A v -> Z.of_nat (size (a_maps A)) <= 2 ^ 28.
Proof.
  intros Hrep. rewrite <- length_map_to_list. rewrite <- (length_fmap (fun ke => slot_of v ke.1)).
  assert (forall ke, ke ∈ map_to_list (a_maps A) -> exists f, slot_of v ke.1 = f * 512 + tix ke.1.2 0 /\ 0 <= f < 2 ^ 19 /\
    own !! frame_addr_of f = Some (ke.1.1, 0, prefix ke.1.2 0)) as H.
  { intros [[r k] e] Hin%elem_of_map_to_list. exact (mapped_slot own A v r k e Hrep Hin). }
  assert (((fun ke => slot_of v ke.1) <$> map_to_list (a_maps A)) ⊆+ seqZ 0 (2 ^ 28)) as Hsub%submseteq_length.
  2:{ rewrite length_seqZ in Hsub. lia. }
  apply NoDup_submseteq.
  - apply NoDup_fmap_2_strong; [|apply NoDup_map_to_list]. intros [[r1 k1] e1] [[r2 k2] e2] H1 H2 Heq.
    destruct (H _ H1) as (f1 & G1 & _ & O1), (H _ H2) as (f2 & G2 & _ & O2). cbn [fst snd] in *.
    pose proof (tix_range k1 0). pose proof (tix_range k2 0). assert (f1 = f2 /\ tix k1 0 = tix k2 0) as [-> Ht] by lia.
    rewrite O1 in O2. injection O2 as -> Hpre. pose proof (page_of_slot k1). pose proof (page_of_slot k2).
    assert (k1 = k2) as -> by lia. apply elem_of_map_to_list in H1, H2. congruence.
  - intros x (ke & -> & Hke)%list_elem_of_fmap. destruct (H _ Hke) as (f & -> & Hf & _). apply elem_of_seqZ.
    pose proof (tix_range ke.1.2 0). lia.
Qed.

Lemma refs_bound own A v f : rep own A v -> refs A f <= 2 ^ 28 + 1.
Proof.
  intros H. pose proof (maps_bound _ _ _ H). unfold refs, mappings.
  pose proof (map_size_filter (fun ke : Z * Z * Z => pte_to_phys ke.2 = frame_addr_of f) (a_maps A)). case_decide; lia.
Qed.

(** ** Sharing a page *)
Lemma share_refined own A v dst src virt flags :
  rep own A v -> dst ∈ a_roots A -> src ∈ a_roots A -> user_page (pte_index virt) ->
  refined own A (MapCow dst src virt flags) (vmm_map_cow_page v (& dst) (& src) virt flags).
Proof.
  intros Hrep Hd Hs Hk. pose proof (found own A v src (vmm_align_down virt PAGE_SIZE) Hrep Hs) as H.
  rewrite align_page in H. specialize (H Hk). set (k := pte_index virt) in *.
  unfold vmm_map_cow_page. cbv zeta. destruct (a_maps A !! (src, k)) as [e|] eqn:Em.
  2:{ exists own, A. destruct H as [-> | (t & i & -> & Hn)]; [|rewrite Hn];
        (split_and!; [reflexivity | exact Hrep | exact (step_share_none A dst src virt flags Em) | discriminate | apply grown_refl]). }
  destruct H as (t & -> & He & Ht). cbv iota zeta. rewrite He.
  destruct (mapped_leaf _ _ _ _ _ _ Hrep Em) as (_ & _ & _ & f & _ & _ & Hp & Hf & Hphys & Hrefs).
  rewrite Hp. cbn [negb]. fold (read_only e) (cow_flags flags).
  destruct (read_only_entry e) as [Hw1 Hw2].
  pose proof (rep_same_frame own A v src virt t e (read_only e) Hrep Hs Hk Em Ht Hw1 (eq_trans Hw2 Hp)) as Hrep1. fold k in Hrep1.
  set (A1 := set_at src virt (read_only e) A) in *. set (v1 := set_entry v t (tix k 0) (read_only e)) in *.
  assert (refs A1 f = refs A f) as Hr1.
  { unfold A1, set_at. rewrite refs_set_page. fold k. rewrite Em, Hw2, Hp. cbn [from_option].
    rewrite (maps_frame_eq e f Hphys), (maps_frame_eq (read_only e) f) by congruence. unfold refs. lia. }
  pose proof (map_page_cases own A1 v1 dst (vmm_align_down virt PAGE_SIZE) (pte_to_phys e) (cow_flags flags) Hrep1 Hd) as H.
  rewrite align_page in H. specialize (H Hk). cbv zeta in H. fold k in H. destruct H as (own' & v2 & H1 & H2 & H3 & Hgr & H4).
  assert (managed v2 f) as Hf2 by (unfold managed in *; rewrite H3; exact Hf).
  pose proof (rep_frame_ok _ _ _ _ H1 Hf2) as Hok. rewrite Hphys in *. rewrite (frame_addr_ok f Hok) in H4.
  destruct (a_maps A1 !! (dst, k)) as [e1|] eqn:Em1.
  { rewrite H4. exists own', A1. split_and!; [exact H2 | exact H1 | exact (step_share_exists A dst src virt flags e e1 Em Em1) | discriminate | exact Hgr]. }
  destruct H4 as [[-> H4]|(t2 & Ht2 & ->)].
  { exists own', A1. split_and!; [exact H2 | exact H1 | exact (step_share_fail A dst src virt flags e Em Em1) | auto | exact Hgr]. }
  cbn [negb Z.eqb VMM_SUCCESS]. rewrite (page_frame_addr f Hok).
  set (e2 := phys_to_pte (frame_addr_of f) (cow_flags flags)).
  destruct (new_entry f (cow_flags flags) Hok) as [Hc1 Hc2]. fold e2 in Hc1, Hc2. rewrite cow_flags_present in Hc2.
  change (frame_of (set_entry v2 t2 (tix k 0) e2) f) with (frame_of v2 f).
  rewrite (frame_refs own' A1 v2 f H1 Hf2) by lia. pose proof (refs_bound own A v f Hrep). rewrite Hr1, u32_id by lia.
  exists own', (set_at dst virt e2 A1). split_and!; [exact H2 | | | discriminate |].
  3:{ cbn [snd]. apply (grown_tables _ _ _ (set_entry v2 t2 (tix k 0) e2)); [reflexivity|].
      eapply grown_leaf; [exact (leaf_owned own' v2 dst k 3 dst t2 (sh_tree _ _ _ (proj2 H1)) Hk (root_path _ _ _ _ _ H1 Hd Hk) Ht2) | exact Hgr]. }
  2:{ pose proof (step_share A dst src virt flags e Em Em1) as Hstep. rewrite Hphys in Hstep. exact Hstep. }
  cbn [snd]. pose proof (user_sub own' A1 v2 f H1 ltac:(lia)) as Hu.
  apply (rep_set_page own' A1 v2 dst k t2 e2 (a_held A1) (count_set (users own' A1) f (refs A f + 1))) with
    (v' := with_frames (zset f (set_ref (refs A f + 1) (frame_of v2 f)) (frame_database v2)) (free_frames v2) (free_frame_count v2) (statistics v2) v2);
    try assumption.
  - intros _. exists f. split_and!; [exact Hf2 | exact Hc1 | apply (users_held_none own' A1 v2); [exact H1 | lia]].
  - auto.
  - apply set_same.
  - apply set_ref_frames; [apply H1 | exact Hf2 | lia | lia | | reflexivity].
    cbn. apply (fr_number _ _ (proj1 H1)). unfold managed in Hf2. lia.
  - intros x _. unfold count_set. destruct (Z.eqb_spec x f) as [->|Hx]; unfold users; rewrite refs_set_page, Em1, Hc2; cbn [from_option];
      rewrite (maps_frame_eq e2 f Hc1).
    + rewrite (users_held_none own' A1 v2) by (exact H1 || lia). rewrite (decide_True (P := f = f)) by reflexivity.
      unfold refs in *. lia.
    + rewrite (decide_False (P := x = f)) by exact Hx. unfold refs. lia.
Qed.

(** ** A new space *)
Lemma rep_new_root own A v v2 f es :
  rep own (hold f A) v -> f ∉ a_held A -> refs A f = 0 -> managed v f ->
  frame_database v2 = frame_database v -> free_frames v2 = free_frames v -> free_frame_count v2 = free_frame_count v ->
  contents v2 = contents v -> kernel_space v2 = kernel_space v ->
  tables v2 !! frame_addr_of f = Some es -> length es = 512%nat -> (forall i, 0 <= i < 256 -> zget 0 es i = 0) ->
  (forall t, t <> frame_addr_of f -> tables v2 !! t = tables v !! t) ->
  let root := frame_addr_of f in
  rep (<[root := (root, 3, 0)]> own) (with_roots ({[root]} ∪ a_roots A) A) v2 /\ own ⊆ <[root := (root, 3, 0)]> own /\
  root ∉ a_roots A.
Proof.
  intros Hrep Hnh Hr0 Hf Hdb Hfree Hcount Hcont Hker Hes Hlen Hzero Hother root. pose proof Hrep as [Hfr Hs].
  assert (own !! root = None) as Hfresh.
  { apply (used_no_table _ _ _ _ Hrep). rewrite refs_hold, decide_True by auto. pose proof (refs_pos A f). lia. }
  assert (forall t x i, own !! t = Some x -> entry_at v2 t i = entry_at v t i) as Hent.
  { intros t x i Ho. unfold entry_at. rewrite Hother by (intros ->; unfold root in Hfresh; congruence). reflexivity. }
  assert (forall i, 0 <= i < 256 -> entry_at v2 root i = 0) as Hroot.
  { intros i Hi. unfold entry_at, root. rewrite Hes. apply Hzero, Hi. }
  assert (total_frames v2 = total_frames v) as Htot by (unfold total_frames; congruence).
  assert (root ∉ a_roots A) as Hnr by (intros Hin; pose proof (sh_roots _ _ _ Hs root Hin); congruence).
  split_and!; [split | apply insert_subseteq, Hfresh | exact Hnr].
  - apply (frames_ok_ext (users own (hold f A))); [|apply (frames_ok_db _ v); assumption].
    intros g _. unfold users. rewrite refs_hold by exact Hnh. change (refs (with_roots _ A) g) with (refs A g).
    destruct (decide (g = f)) as [->|Hne].
    + fold root. rewrite lookup_insert_eq, Hfresh. lia.
    + rewrite lookup_insert_ne by (intros ?%frame_addr_inj; congruence). lia.
  - destruct Hs as [H1 H2 H3 H4 H5 H6 H7 H8]. constructor.
    + split.
      * intros t r L p [[<- _]|[Hne Ho]]%lookup_insert_Some; [eauto|]. destruct (tr_table _ _ H1 _ _ _ _ Ho) as (es' & ? & ?).
        exists es'. rewrite Hother by (fold root; congruence). auto.
      * intros t r L p i [[<- [= <- <- <-]]|[Hne Ho]]%lookup_insert_Some HL Hi Hp.
        { rewrite Hroot in Hp by exact Hi. discriminate. }
        rewrite (Hent _ _ _ Ho) in Hp |- *. pose proof (tr_child _ _ H1 _ _ _ _ _ Ho HL Hi Hp) as Hc.
        rewrite lookup_insert_ne by congruence. exact Hc.
      * intros t r L p [[<- [= <- <- <-]]|[Hne Ho]]%lookup_insert_Some; [lia | apply (tr_level _ _ H1 _ _ _ _ Ho)].
    + intros r [->%elem_of_singleton|Hr]%elem_of_union; [apply lookup_insert_eq|].
      rewrite lookup_insert_ne by set_solver. apply H2, Hr.
    + intros t x [[<- _]|[Hne Ho]]%lookup_insert_Some.
      * exists f. unfold managed. rewrite Htot. auto.
      * destruct (H3 t x Ho) as (g & Hg & -> & Hz). exists g. rewrite refs_hold in Hz by exact Hnh. pose proof (refs_pos A g).
        unfold managed. rewrite Htot. split_and!; [apply Hg | apply Hg | reflexivity|].
        change (refs (with_roots _ A) g) with (refs A g). case_decide; lia.
    + intros r k e He. destruct (H4 r k e He) as (? & ? & ? & g & Hg & ?). unfold managed. rewrite Htot.
      split_and!; [set_solver | assumption.. | exists g; auto].
    + intros g Hg. unfold managed. rewrite Htot. apply H5. set_solver.
    + intros r k Hr Hk. cbn [a_maps with_roots]. destruct (decide (r = root)) as [->|Hne].
      * transitivity (@None Z).
        { cbn [read]. rewrite Hroot; [reflexivity|]. change (Z.of_nat 3) with 3. pose proof (tix_root k Hk). pose proof (tix_range k 3). lia. }
        symmetry. apply eq_None_not_Some. intros [e He]. apply Hnr. apply (H4 _ _ _ He).
      * assert (r ∈ a_roots A) as Hr' by set_solver. etransitivity; [|apply (H6 r k Hr' Hk)].
        apply (read_owned own v v2 r); [exact H1 | exact Hk | intros t x i Ho _; apply (Hent t x i Ho) | apply (root_path _ _ _ _ _ Hrep Hr' Hk)].
    + rewrite Hcont. exact H7.
    + apply (kernel_direct_step v); [exact H8 | exact Hker | exact Htot|]. intros t Ht. apply Hother, Ht, Hf.
Qed.

Lemma create_refined own A v pid : rep own A v -> refined own A (CreateSpace pid) (run (CreateSpace pid) v).
Proof.
  intros Hrep. cbn [run]. unfold vmm_create_address_space, allocate_page_table. cbn [negb].
  destruct (alloc_page_rep own A v Hrep) as [[-> Hnone]|(f & v1 & -> & Hf & Hu & Hsame & Hrep1)].
  { cbn [Z.eqb]. exists own, A. split_and!; [reflexivity | exact Hrep | constructor | auto | apply grown_refl]. }
  pose proof (frame_addr_pos f (rep_frame_ok _ _ _ _ Hrep Hf)) as Hpos. rewrite (proj2 (Z.eqb_neq _ _)) by lia.
  assert (refs A f = 0) as Hr0.
  { unfold users in Hu. pose proof (refs_pos A f). destruct (own !! frame_addr_of f); lia. }
  assert (f ∉ a_held A) as Hnh by (intros ?%held_refs; lia).
  assert (managed v1 f) as Hf1 by (destruct Hsame as (_ & _ & _ & Hn); unfold managed in *; lia).
  set (root := frame_addr_of f) in *. set (v2 := with_memory (<[root := zero_table]> (tables v1)) (contents v1) v1).
  match goal with |- context [with_frames _ _ _ _ ?w] => set (v3 := w) end.
  assert (exists es, tables v3 !! root = Some es /\ length es = 512%nat /\ (forall i, 0 <= i < 256 -> zget 0 es i = 0)) as (es & H1 & H2 & H3).
  { assert (tables v2 !! root = Some zero_table) as Hz by apply lookup_insert_eq.
    assert (forall i, 0 <= i < 256 -> zget 0 zero_table i = 0) as Hz0.
    { intros i Hi. unfold zget, zero_table. rewrite nth_lookup, lookup_replicate_2 by lia. reflexivity. }
    unfold v3. destruct (kernel_space _) as [kr|]; [destruct (pid =? 0)|]; try (exists zero_table; auto; fail).
    exists (take 256 zero_table ++ ((fun i => entry_at v2 kr i) <$> seqZ 256 256)). cbn [tables with_memory].
    rewrite lookup_alter_eq. fold v2. rewrite Hz. split_and!; [reflexivity | rewrite length_app, length_fmap, length_seqZ; reflexivity|].
    intros i Hi. unfold zget. rewrite app_nth1 by (change (length (take 256 zero_table)) with 256%nat; lia).
    rewrite nth_lookup, lookup_take_lt by lia. unfold zero_table. rewrite lookup_replicate_2 by lia. reflexivity. }
  assert (forall t, t <> root -> tables v3 !! t = tables v1 !! t) as H4.
  { intros t Ht. assert (tables v2 !! t = tables v1 !! t) as <- by (apply lookup_insert_ne; congruence).
    unfold v3. destruct (kernel_space _) as [kr|]; [destruct (pid =? 0)|]; [reflexivity | | reflexivity].
    apply lookup_alter_ne. congruence. }
  assert (frame_database v3 = frame_database v1 /\ free_frames v3 = free_frames v1 /\ free_frame_count v3 = free_frame_count v1 /\
    contents v3 = contents v1 /\ kernel_space v3 = kernel_space v1) as (G1 & G2 & G3 & G4 & G5).
  { unfold v3. destruct (kernel_space v2) as [kr|] eqn:Hkr; [destruct (pid =? 0)|]; split_and!; first [reflexivity | exact (eq_sym Hkr)]. }
  match goal with |- context [with_frames ?a ?b ?c ?d v3] =>
    destruct (rep_new_root own A v1 (with_frames a b c d v3) f es Hrep1 Hnh Hr0 Hf1 G1 G2 G3 G4 G5 H1 H2 H3 H4) as (R1 & R2 & R3) end.
  eexists _, _. split_and!; [exact R2 | exact R1 | apply step_create, R3 | |].
  2:{ intros t r L p [[<- [= <- <- <-]]|[_ Ho]]%lookup_insert_Some Hn; [|congruence]. left. split_and!; [reflexivity..|]. cbn. set_solver. }
  cbn [fst default out_of_memory]. intros ?%Z.eqb_eq. cbn in *. lia.
Qed.

(** Every operation keeps its promise. *)
Lemma run_refined own A v op : rep own A v -> allowed op A -> refined own A op (run op v).
Proof.
  intros Hrep Hop. destruct op; cbn [allowed] in Hop.
  - apply alloc_refined, Hrep.
  - apply free_refined; assumption.
  - apply create_refined, Hrep.
  - apply map_refined; tauto.
  - apply unmap_refined; tauto.
  - apply cow_refined; tauto.
  - apply share_refined; tauto.
Qed.
