(* ===== verification/PageBootSpec.v ===== *)
(** * What the memory manager guarantees a process

    From boot on: free frames are used by nobody, a copy-on-write fault gives
    the writer a page of its own, and the map of entries the checkpoint engine
    is modelled on ([Vmm]) is what the page tables hold. *)
From Stdlib Require Import ZArith Lia.
From stdpp Require Import gmap.
From S2P Require Import Prelude.
From S2P Require Import Vmm VmmSpec PageWalk PageTreeSpec FrameSpec PageWalkSpec PageOpsSpec.
Open Scope Z_scope.
Open Scope c_scope.

(** ** Boot *)

(** The tables read for page [k], all in [kt]. *)
Fixpoint path_in (kt : list Z) (n : nat) (v : vmm_t) (t k : Z) : bool :=
  bool_decide (t ∈ kt) &&
  match n with
  | O => true
  | S m => pte_has (entry_at v t (tix k (Z.of_nat n))) PAGE_PRESENT &&
           path_in kt m v (pte_to_phys (entry_at v t (tix k (Z.of_nat n)))) k
  end.

Lemma path_agree kt n v v' t k :
  path_in kt n v t k = true -> (forall t, t ∈ kt -> tables v' !! t = tables v !! t) -> read n v' t k = read n v t k.
Proof.
  intros H Ha. revert t H; induction n as [|n IH]; intros t; cbn [path_in read]; intros [Ht H]%andb_prop;
    apply bool_decide_eq_true in Ht;
    assert (forall i, entry_at v' t i = entry_at v t i) as -> by (intros i; unfold entry_at; rewrite (Ha t Ht); reflexivity);
    [reflexivity|]. apply andb_prop in H as [-> H]. apply IH, H.
Qed.

Definition kernel_address (f : Z) : Z := u64 (frame_addr_of f + KERNEL_VIRTUAL_BASE).

(** A boot loader's direct map, checked. *)
Definition direct_map_check (kt : list Z) (v : vmm_t) : bool :=
  match kernel_space v with
  | Some root =>
      forallb (fun t => t <? 2 ^ 20) kt &&
      forallb (fun f => path_in kt 3 v root (pte_index (kernel_address f)) &&
                        (vmm_get_physical_addr v (& root) (kernel_address f) =? frame_addr_of f))
        (seqZ 256 (total_frames v - 256))
  | NULL => false
  end.

Lemma direct_map_checked kt v : direct_map_check kt v = true -> kernel_direct v.
Proof.
  unfold direct_map_check. destruct (kernel_space v) as [root|] eqn:Hroot; [|discriminate].
  intros [Hlow Hall]%andb_prop. rewrite forallb_forall in Hlow, Hall. exists (list_to_set kt). split.
  - intros t f Ht Hf ->. apply elem_of_list_to_set, list_elem_of_In, Hlow, Z.ltb_lt in Ht.
    unfold frame_addr_of in Ht. rewrite Z.shiftl_mul_pow2 in Ht by lia. unfold managed in Hf. lia.
  - intros v' _ Ha f Hf. specialize (Hall f).
    assert (In f (seqZ 256 (total_frames v - 256))) as Hin.
    { apply list_elem_of_In, elem_of_seqZ. unfold managed in Hf. lia. }
    apply andb_prop in Hall as [Hp He]; [|exact Hin]. apply Z.eqb_eq in He. rewrite Hroot. fold (kernel_address f). rewrite <- He.
    rewrite !physical_read. rewrite (path_agree kt 3 v v'); [reflexivity | exact Hp|].
    intros t Ht. apply Ha, elem_of_list_to_set, Ht.
Qed.

(** Nothing is mapped or held yet. *)
Definition boot_abs (v : vmm_t) : vm_abs := {| a_maps := ∅; a_roots := ∅; a_held := ∅; a_pages := contents v |}.

Lemma boot_rep_frames v : frames_ok (fun _ => 0) v -> kernel_direct v -> rep ∅ (boot_abs v) v.
Proof.
  intros Hfr Hk. split.
  - eapply frames_ok_ext; [|exact Hfr]. intros f _. unfold users, refs, mappings. cbn. rewrite map_filter_empty, lookup_empty.
    reflexivity.
  - constructor; cbn; try set_solver; try exact Hk. split; intros *; rewrite lookup_empty; discriminate.
Qed.

(** Initialising the frame allocator establishes the memory manager's
    contract, with every frame above the first megabyte free, provided the
    boot loader's tables map the frames at KERNEL_VIRTUAL_BASE. *)
Theorem boot_rep memory_size v v' :
  0 <= memory_size <= 2 ^ 31 -> free_frames v = NULL -> free_frame_count v = 0 ->
  vmm_init_physical_memory true memory_size v = (VMM_SUCCESS, v') -> kernel_direct v' ->
  rep ∅ (boot_abs v') v' /\ free_frame_count v' = Z.max 0 (memory_size / PAGE_SIZE - 256).
Proof.
  intros Hm Hf Hc Hinit Hk. destruct (init_physical_frames memory_size v Hm Hf Hc) as (v1 & H1 & Hfr & Htot & _).
  rewrite Hinit in H1. injection H1 as <-. split.
  - apply boot_rep_frames; assumption.
  - destruct Hfr as [_ _ _ (fl & _ & Hnd & -> & Hfl)].
    assert (fl ≡ₚ seqZ 256 (memory_size / PAGE_SIZE - 256)) as ->.
    2:{ rewrite length_seqZ. lia. }
    apply NoDup_Permutation; [exact Hnd | apply NoDup_seqZ|]. intros f. rewrite Hfl, elem_of_seqZ. unfold managed. rewrite Htot. lia.
Qed.

(** *** A machine with sixteen frames above the first megabyte *)
Definition example_tables : gmap Z (list Z) :=
  <[0x1000 := zset 511 0x2003 zero_table]> (<[0x2000 := zset 510 0x3003 zero_table]>
  (<[0x3000 := zset 0 0x4003 zero_table]> {[0x4000 := (fun f => Z.lor (frame_addr_of f) 3) <$> seqZ 0 512]})).

Definition stats_zero : vmm_stats_t :=
  {| total_pages := 0; free_pages := 0; allocated_pages := 0; page_faults := 0; major_faults := 0; minor_faults := 0 |}.

Definition example_start : vmm_t :=
  {| frame_database := []; free_frames := NULL; free_frame_count := 0; statistics := stats_zero;
     kernel_space := & 0x1000; tables := example_tables; contents := ∅ |}.

Definition example_boot : vmm_t := (vmm_init_physical_memory true (272 * 4096) example_start).2.

Lemma example_direct : kernel_direct example_boot.
Proof. apply (direct_map_checked [0x1000; 0x2000; 0x3000; 0x4000]). vm_compute. reflexivity. Qed.

Lemma boot_rep_witness :
  vmm_init_physical_memory true (272 * 4096) example_start = (VMM_SUCCESS, example_boot) /\
  rep ∅ (boot_abs example_boot) example_boot /\ free_frame_count example_boot = 16.
Proof.
  split; [vm_compute; reflexivity|].
  apply (boot_rep (272 * 4096) example_start example_boot); [lia | reflexivity | reflexivity | vm_compute; reflexivity | exact example_direct].
Defined.

(** ** The contract *)

(** C6: the memory manager keeps one map of pages per space: whatever client
    operation runs (allocating, freeing, mapping, unmapping, sharing
    copy-on-write, a write fault, a new space), reading the page tables and
    the reference counts afterwards gives exactly the abstract step's outcome,
    no other page of any space changes, and memory runs out only when no
    frame is free. *)
Theorem vm_refines own A v op :
  rep own A v -> allowed op A ->
  exists own' A', own ⊆ own' /\ rep own' A' (run op v).2 /\ abs_step op A (run op v).1 A' /\
    (out_of_memory op (run op v).1 = true -> forall f, managed (run op v).2 f -> users own' A' f <> 0).
Proof.
  intros Hrep Hop. destruct (run_refined own A v op Hrep Hop) as (own' & A' & H1 & H2 & H3 & H4 & _). exists own', A'. auto.
Qed.

Lemma example_rep : rep ∅ (boot_abs example_boot) example_boot.
Proof.
  apply boot_rep_frames; [|exact example_direct].
  destruct (init_physical_frames (272 * 4096) example_start ltac:(lia) eq_refl eq_refl) as (v1 & H1 & Hfr & _).
  assert (example_boot = v1) as -> by (unfold example_boot; rewrite H1; reflexivity). exact Hfr.
Qed.

Lemma vm_refines_witness :
  exists own' A', rep own' A' (run (CreateSpace 1) example_boot).2 /\
    abs_step (CreateSpace 1) (boot_abs example_boot) 0x10F000 A' /\
    read 3 (run (CreateSpace 1) example_boot).2 0x10F000 1024 = None.
Proof.
  destruct (vm_refines ∅ (boot_abs example_boot) example_boot (CreateSpace 1) example_rep I) as (own' & A' & _ & H1 & H2 & _).
  exists own', A'. assert ((run (CreateSpace 1) example_boot).1 = 0x10F000) as Hr by (vm_compute; reflexivity).
  rewrite Hr in H2. split; [exact H1|]. split; [exact H2|]. vm_compute. reflexivity.
Defined.

(** C8: after any operation the free list holds, once each, exactly the managed
    frames that hold no page table, are held by no client and are mapped by
    no page of any space.  The clients' frames and the pages are those the
    abstract step gives, and every table the operation made is the root of
    the new space or hangs in the table above it, so no frame is lost or
    handed out twice. *)
Theorem free_frames_unused own A v op :
  rep own A v -> allowed op A ->
  exists own' A' fl, rep own' A' (run op v).2 /\ abs_step op A (run op v).1 A' /\
    own ⊆ own' /\ grown (a_roots A') own own' (run op v).2 /\
    chain (frame_database (run op v).2) (free_frames (run op v).2) fl /\ NoDup fl /\
    forall f, managed (run op v).2 f ->
      (f ∈ fl <-> own' !! frame_addr_of f = None /\ f ∉ a_held A' /\
        forall r k e, r ∈ a_roots A' -> user_page k -> read 3 (run op v).2 r k = Some e -> pte_to_phys e <> frame_addr_of f).
Proof.
  intros Hrep Hop. destruct (run_refined own A v op Hrep Hop) as (own' & A' & H0 & H1 & H2 & _ & Hgr).
  destruct (fr_list _ _ (proj1 H1)) as (fl & Hch & Hnd & _ & Hfl). exists own', A', fl.
  split_and!; [exact H1 | exact H2 | exact H0 | exact Hgr | exact Hch | exact Hnd|].
  intros f Hf. rewrite Hfl. unfold users, refs. pose proof (mappings_pos (a_maps A') f) as Hpos. split.
  - intros [_ H]. destruct (own' !! frame_addr_of f); destruct (decide (f ∈ a_held A')) as [|Hh]; try lia.
    split_and!; [reflexivity | exact Hh|]. intros r k e Hr Hk Hread He.
    rewrite (sh_read _ _ _ (proj2 H1) r k Hr Hk) in Hread. pose proof (mapped_refs _ _ _ _ Hread He). lia.
  - intros (-> & Hh & Hmap). split; [exact Hf|]. rewrite decide_False by exact Hh. unfold mappings.
    assert (filter (fun ke : Z * Z * Z => pte_to_phys ke.2 = frame_addr_of f) (a_maps A') = ∅) as ->; [|reflexivity].
    apply map_empty. intros [r k]. apply map_lookup_filter_None. right. intros e He Hphys.
    destruct (sh_maps _ _ _ (proj2 H1) _ _ _ He) as (Hr & Hk & _). apply (Hmap r k e Hr Hk); [|exact Hphys].
    rewrite (sh_read _ _ _ (proj2 H1) r k Hr Hk). exact He.
Qed.

(** The first allocation takes the head of the list, and nothing else leaves it. *)
Lemma free_frames_unused_witness :
  exists own' A' fl, abs_step AllocPage (boot_abs example_boot) (frame_addr_of 271) A' /\
    rep own' A' (run AllocPage example_boot).2 /\ grown (a_roots A') ∅ own' (run AllocPage example_boot).2 /\
    chain (frame_database (run AllocPage example_boot).2) (free_frames (run AllocPage example_boot).2) fl /\
    (270 ∈ fl <-> own' !! frame_addr_of 270 = None /\ 270 ∉ a_held A' /\
      forall r k e, r ∈ a_roots A' -> user_page k -> read 3 (run AllocPage example_boot).2 r k = Some e ->
        pte_to_phys e <> frame_addr_of 270).
Proof.
  destruct (free_frames_unused ∅ (boot_abs example_boot) example_boot AllocPage example_rep I)
    as (own' & A' & fl & H1 & H2 & _ & H3 & H4 & _ & H5).
  assert ((run AllocPage example_boot).1 = frame_addr_of 271) as Hr by (vm_compute; reflexivity). rewrite Hr in H2.
  exists own', A', fl. split; [exact H2|]. split; [exact H1|]. split; [exact H3|]. split; [exact H4|]. apply H5. unfold managed.
  assert (total_frames (run AllocPage example_boot).2 = 272) as -> by (vm_compute; reflexivity). lia.
Defined.

(** ** Copy on write gives the writer its own page *)
Lemma two_mappings m key key' e e' f :
  m !! key = Some e -> m !! key' = Some e' -> key <> key' -> pte_to_phys e = frame_addr_of f ->
  pte_to_phys e' = frame_addr_of f -> 2 <= mappings m f.
Proof.
  intros H H' Hne He He'. pose proof (mappings_delete m key e f H) as Hd. rewrite decide_True in Hd by exact He.
  assert (delete key m !! key' = Some e') as Hk by (rewrite lookup_delete_ne; assumption).
  pose proof (mapped_refs _ _ _ _ Hk He'). lia.
Qed.

Lemma writable_bit e : pte_has (writable e) PAGE_WRITABLE = true.
Proof. rewrite has_writable. unfold writable. rewrite Z.lor_spec. apply orb_true_r. Qed.

Lemma copied_writable f e : frame_ok f -> pte_has (phys_to_pte (frame_addr_of f) (writable (Z.land e 0xFFF))) PAGE_WRITABLE = true.
Proof.
  intros Hf. rewrite (proj2 (mapped_entry f _ 1 Hf)) by lia. unfold writable. rewrite Z.lor_spec. apply orb_true_r.
Qed.

(** The outcome of a write fault on the map of pages: the page is writable,
    keeps its contents, and no other page has its frame. *)
Lemma cow_step_private own v A A' r virt :
  rep own A v -> abs_step (CowFault r virt) A VMM_SUCCESS A' ->
  exists e e', page_at A r virt = Some e /\ page_at A' r virt = Some e' /\ pte_has e' PAGE_WRITABLE = true /\
    frame_at (a_pages A') (pte_to_phys e') = frame_at (a_pages A) (pte_to_phys e) /\
    forall r' k', (r', k') <> (r, pte_index virt) -> a_maps A' !! (r', k') = a_maps A !! (r', k') /\
      forall e'', a_maps A !! (r', k') = Some e'' -> pte_to_phys e'' <> pte_to_phys e' /\
        frame_at (a_pages A') (pte_to_phys e'') = frame_at (a_pages A) (pte_to_phys e'').
Proof.
  intros Hrep Hstep.
  assert (forall e' r' k', page_at (set_at r virt e' A) r virt = (if pte_has e' PAGE_PRESENT then Some e' else None) /\
    ((r', k') <> (r, pte_index virt) -> a_maps (set_at r virt e' A) !! (r', k') = a_maps A !! (r', k'))) as Hset.
  { intros e' r' k'. unfold page_at, set_at. cbn [a_maps set_page with_held with_maps]. rewrite !set_map_lookup, !Z.eqb_refl.
    split; [reflexivity|]. intros Hne. destruct (Z.eqb_spec r' r) as [->|]; [|reflexivity].
    destruct (Z.eqb_spec k' (pte_index virt)) as [->|]; [contradiction | reflexivity]. }
  inversion Hstep as [ | | | | | | | | | |? ? ? e f Hm He Hone|? ? ? e f g Hm He Hmore Hok Hg| | | | | | ]; subst;
    destruct (mapped_leaf _ _ _ _ _ _ Hrep Hm) as (_ & _ & _ & _ & _ & _ & Hp & _).
  - destruct (writable_entry e) as [Hw1 Hw2]. exists e, (writable e). destruct (Hset (writable e) 0 0) as [Hv _].
    rewrite Hv, Hw2, Hp, Hw1. split_and!; try reflexivity; [exact Hm | apply writable_bit|].
    intros r' k' Hne. split; [apply (Hset (writable e)), Hne|]. intros e'' He''. split; [|reflexivity]. intros Heq.
    rewrite He in Heq. pose proof (two_mappings _ _ _ _ _ _ Hm He'' ltac:(congruence) He Heq). unfold refs in Hone.
    case_decide; lia.
  - destruct (copied_entry e g Hok Hp) as [Hc1 Hc2]. pose proof (copied_writable g e Hok) as Hc3.
    set (e' := phys_to_pte (frame_addr_of g) (writable (Z.land e 0xFFF))) in *. exists e, e'.
    destruct (Hset e' 0 0) as [Hv _]. change (page_at (with_pages ?p ?B) r virt) with (page_at B r virt).
    rewrite Hv, Hc2, Hc1, He. cbn [a_pages with_pages]. split_and!; try reflexivity; [exact Hm | exact Hc3 | |].
    + apply frame_at_insert.
    + intros r' k' Hne. split; [apply (Hset e'), Hne|]. intros e'' He''.
      assert (pte_to_phys e'' <> frame_addr_of g) as Hneq.
      { intros Heq. pose proof (mapped_refs _ _ _ _ He'' Heq). unfold refs in Hg. case_decide; lia. }
      split; [exact Hneq|]. apply frame_at_insert_ne. congruence.
Qed.

(** C7: a copy-on-write fault isolates the writer: the faulting page becomes
    writable with the contents it had, on a frame no other page of any space
    maps, and every other page keeps its entry and contents. *)
Theorem cow_fault_private own A v r virt v' :
  rep own A v -> r ∈ a_roots A -> user_page (pte_index virt) ->
  vmm_handle_cow_fault v (& r) virt = (VMM_SUCCESS, v') ->
  exists e e', read 3 v r (pte_index virt) = Some e /\ read 3 v' r (pte_index virt) = Some e' /\
    pte_has e' PAGE_WRITABLE = true /\ frame_at (contents v') (pte_to_phys e') = frame_at (contents v) (pte_to_phys e) /\
    forall r' k', r' ∈ a_roots A -> user_page k' -> (r', k') <> (r, pte_index virt) -> read 3 v' r' k' = read 3 v r' k' /\
      forall e'', read 3 v r' k' = Some e'' -> pte_to_phys e'' <> pte_to_phys e' /\
        frame_at (contents v') (pte_to_phys e'') = frame_at (contents v) (pte_to_phys e'').
Proof.
  intros Hrep Hr Hk Hrun. destruct (cow_refined own A v r virt Hrep Hr Hk) as (own' & A' & _ & Hrep' & Hstep & _).
  rewrite Hrun in Hrep', Hstep. cbn [fst snd] in *.
  destruct (cow_step_private own v A A' r virt Hrep Hstep) as (e & e' & H1 & H2 & H3 & H4 & H5).
  assert (a_roots A' = a_roots A) as Hroots by (inversion Hstep; reflexivity).
  rewrite (sh_pages _ _ _ (proj2 Hrep)), (sh_pages _ _ _ (proj2 Hrep')).
  assert (forall r k, r ∈ a_roots A -> user_page k -> read 3 v r k = a_maps A !! (r, k) /\ read 3 v' r k = a_maps A' !! (r, k)) as Hread.
  { intros r0 k0 Hr0 Hk0. split; [apply (sh_read _ _ _ (proj2 Hrep)); assumption|].
    apply (sh_read _ _ _ (proj2 Hrep')); [rewrite Hroots|]; assumption. }
  destruct (Hread r _ Hr Hk) as [-> ->]. exists e, e'. split_and!; [exact H1 | exact H2 | exact H3 | exact H4|].
  intros r' k' Hr' Hk' Hne. destruct (Hread r' k' Hr' Hk') as [-> ->]. exact (H5 r' k' Hne).
Qed.

(** The flags [process.c] maps a stack page with are region flags, without
    PAGE_PRESENT: the call succeeds, but the page is not mapped. *)
Definition VMM_FLAG_USER : Z := 0x08.

Theorem stack_page_absent own A v r virt f v' :
  rep own A v -> r ∈ a_roots A -> user_page (pte_index virt) -> f ∈ a_held A ->
  vmm_map_page v (& r) virt (frame_addr_of f) (Z.lor VMM_FLAG_USER VMM_FLAG_WRITE) = (VMM_SUCCESS, v') ->
  read 3 v' r (pte_index virt) = None.
Proof.
  intros Hrep Hr Hk Hf Hrun.
  destruct (map_refined own A v r virt f (Z.lor VMM_FLAG_USER VMM_FLAG_WRITE) Hrep Hr Hk Hf) as (own' & A' & _ & H1 & H2 & _).
  rewrite Hrun in H1, H2. cbn [fst snd] in *. pose proof (rep_frame_ok _ _ _ _ Hrep (sh_held _ _ _ (proj2 Hrep) _ Hf)) as Hok.
  assert (a_roots A' = a_roots A) as Hroots by (inversion H2; reflexivity).
  rewrite (sh_read _ _ _ (proj2 H1)) by (rewrite ?Hroots; assumption). inversion H2; subst.
  cbn [a_maps set_page with_held with_maps]. rewrite set_map_lookup, !Z.eqb_refl, (proj2 (new_entry f _ Hok)). reflexivity.
Qed.

(** ** The checkpoint engine's view *)

(** The map of entries [Vmm] keeps for a space is what its tables hold. *)
Definition view (A : vm_abs) (r : Z) (sp : vm_space_t) : Prop :=
  forall k, user_page k -> page_tables sp !! k = a_maps A !! (r, k).

Lemma view_insert A r sp k e held :
  view A r sp -> user_page k -> pte_has e PAGE_PRESENT = true ->
  view (set_page r k e held A) r (with_tables sp (<[k := e]> (page_tables sp))).
Proof.
  intros Hv Hk He k' Hk'. cbn [page_tables with_tables a_maps set_page with_held with_maps]. rewrite set_map_lookup, Z.eqb_refl, He.
  destruct (Z.eqb_spec k' k) as [->|Hne]; [apply lookup_insert_eq|]. rewrite lookup_insert_ne by congruence. apply Hv, Hk'.
Qed.

Lemma view_other A r r' sp k e held : view A r sp -> r <> r' -> view (set_page r' k e held A) r sp.
Proof.
  intros Hv Hne k' Hk'. cbn [a_maps set_page with_held with_maps]. rewrite set_map_lookup.
  rewrite (proj2 (Z.eqb_neq r r')) by exact Hne. apply Hv, Hk'.
Qed.

(** Translation in the two models. *)
Lemma view_physical own A v r sp virt :
  rep own A v -> r ∈ a_roots A -> user_page (pte_index virt) -> view A r sp ->
  Vmm.vmm_get_physical_addr (& sp) virt = vmm_get_physical_addr v (& r) virt.
Proof.
  intros Hrep Hr Hk Hv. rewrite physical_read, (sh_read _ _ _ (proj2 Hrep) _ _ Hr Hk), <- (Hv _ Hk).
  unfold Vmm.vmm_get_physical_addr, Vmm.vmm_get_page_table. destruct (page_tables sp !! _) as [e|] eqn:E; [|reflexivity].
  rewrite (Hv _ Hk) in E. destruct (sh_maps _ _ _ (proj2 Hrep) _ _ _ E) as (_ & _ & -> & f & Hf & ->). cbn [negb].
  pose proof (frame_addr_pos f (rep_frame_ok _ _ _ _ Hrep Hf)). symmetry. apply u64_id.
  change (PAGE_SIZE - 1) with (Z.ones 12). rewrite Z.land_ones by lia. pose proof (Z.mod_pos_bound virt (2 ^ 12)). lia.
Qed.

(** [Vmm]'s mapping, on the map of pages. *)
Lemma view_map ok A r sp virt f flags :
  view A r sp -> user_page (pte_index virt) -> frame_ok f ->
  (forall e, page_at A r virt = Some e -> pte_has e PAGE_PRESENT = true) ->
  Vmm.map_page_internal ok sp virt (frame_addr_of f) flags =
  match page_at A r virt with
  | Some _ => (VMM_ERROR_EXISTS, sp)
  | None => if ok then (VMM_SUCCESS, with_tables sp (<[pte_index virt := phys_to_pte (frame_addr_of f) flags]> (page_tables sp)))
            else (VMM_ERROR_NOMEM, sp)
  end.
Proof.
  intros Hv Hk Hf Hp. unfold Vmm.map_page_internal. cbv zeta. rewrite align_page, (frame_addr_ok f Hf), (Hv _ Hk).
  unfold page_at in *. destruct (a_maps A !! _) as [e|]; [rewrite (Hp e eq_refl); reflexivity | destruct ok; reflexivity].
Qed.

(** C9: the map of entries the checkpoint engine works on is the page tables:
    translating an address and sharing a page copy-on-write give in both the
    same results, and leave maps that agree again. *)
Theorem engine_view_agrees own A v dst src sp_dst sp_src virt flags :
  rep own A v -> dst ∈ a_roots A -> src ∈ a_roots A -> dst <> src -> user_page (pte_index virt) ->
  view A dst sp_dst -> view A src sp_src ->
  let '(rc, v') := vmm_map_cow_page v (& dst) (& src) virt flags in
  Vmm.vmm_get_physical_addr (& sp_src) virt = vmm_get_physical_addr v (& src) virt /\
  exists own' A' sp_dst' sp_src', rep own' A' v' /\ view A' dst sp_dst' /\ view A' src sp_src' /\
    Vmm.vmm_map_cow_page (negb (rc =? VMM_ERROR_NOMEM)) (& sp_dst) (& sp_src) virt flags = (rc, & sp_dst', & sp_src').
Proof.
  intros Hrep Hd Hs Hne Hk Hvd Hvs. pose proof (view_physical own A v src sp_src virt Hrep Hs Hk Hvs) as Hphys.
  pose proof (share_refined own A v dst src virt flags Hrep Hd Hs Hk) as (own' & A' & _ & H1 & H2 & _).
  destruct (vmm_map_cow_page _ _ _ _ _) as [rc v']. cbn [fst snd] in *. split; [exact Hphys|]. exists own', A'.
  unfold Vmm.vmm_map_cow_page. cbv zeta. unfold Vmm.vmm_get_page_table at 1. rewrite align_page, (Hvs _ Hk).
  change (a_maps A !! (src, pte_index virt)) with (page_at A src virt).
  destruct (page_at A src virt) as [e|] eqn:Em.
  2:{ inversion H2; subst; try congruence. eauto 6. }
  destruct (mapped_leaf _ _ _ _ _ _ Hrep Em) as (_ & _ & _ & f & _ & _ & Hp & Hf & Hphys' & _).
  pose proof (rep_frame_ok _ _ _ _ Hrep Hf) as Hok. rewrite Hp, Hphys'. cbn [negb]. fold (read_only e) (cow_flags flags).
  unfold Vmm.vmm_map_page. set (A1 := set_at src virt (read_only e) A) in *.
  pose proof (proj2 (read_only_entry e)) as Hro. rewrite Hp in Hro.
  assert (view A1 src (with_tables sp_src (<[pte_index virt := read_only e]> (page_tables sp_src)))) as Hvs1
    by (apply view_insert; assumption).
  assert (view A1 dst sp_dst) as Hvd1 by (apply view_other; assumption).
  rewrite (view_map _ A1 dst sp_dst (vmm_align_down virt PAGE_SIZE) f (cow_flags flags) Hvd1);
    [|rewrite align_page; exact Hk | exact Hok|].
  2:{ unfold page_at. rewrite align_page. intros e1 He1. unfold A1, set_at in He1.
      cbn [a_maps set_page with_held with_maps] in He1. rewrite set_map_lookup, (proj2 (Z.eqb_neq dst src)) in He1 by exact Hne.
      exact (proj1 (proj2 (proj2 (sh_maps _ _ _ (proj2 Hrep) _ _ _ He1)))). }
  unfold page_at at 1. rewrite align_page. change (a_maps A1 !! (dst, pte_index virt)) with (page_at A1 dst virt).
  inversion H2 as [| | | | | | | | | | | | | |? ? ? ? ? e0 Hm0 Hm1|? ? ? ? ? e0 e1 Hm0 Hm1|? ? ? ? ? e0 Hm0 Hm1|? ? ? ? ? Hm0]; subst;
    [| | |congruence];
    assert (e0 = e) as -> by congruence; fold A1 in Hm1; rewrite Hm1; eexists _, _; (split; [exact H1|]).
  - rewrite Hphys'. split; [|split; [|reflexivity]].
    + apply view_insert; [exact Hvd1 | exact Hk|]. rewrite (proj2 (new_entry f _ Hok)). apply cow_flags_present.
    + apply view_other; [exact Hvs1 | congruence].
  - split; [exact Hvd1|]. split; [exact Hvs1 | reflexivity].
  - split; [exact Hvd1|]. split; [exact Hvs1 | reflexivity].
Qed.

(** ** Two processes share a page *)
Fixpoint run_all (ops : list vm_op) (v : vmm_t) : list Z * vmm_t :=
  match ops with
  | [] => ([], v)
  | op :: ops => let '(rc, v) := run op v in let '(rcs, v) := run_all ops v in (rc :: rcs, v)
  end.

Definition example_ops : list vm_op := [CreateSpace 1; AllocPage; MapPage 0x10F000 0x400000 270 7; CreateSpace 2].
Definition share_op : vm_op := MapCow 0x10A000 0x10F000 0x400000 7.
Definition example_mapped : vmm_t := (run_all example_ops example_boot).2.
Definition example_shared : vmm_t := (run share_op example_mapped).2.

Lemma example_results : (run_all example_ops example_boot).1 = [0x10F000; frame_addr_of 270; VMM_SUCCESS; 0x10A000].
Proof. vm_compute. reflexivity. Qed.

(** One operation with the result it had. *)
Lemma step_rep own A v op rc rcs ops :
  rep own A v -> allowed op A -> (run_all (op :: ops) v).1 = rc :: rcs ->
  exists own' A' v', rep own' A' v' /\ abs_step op A rc A' /\ (run_all ops v').1 = rcs /\
    (run_all (op :: ops) v).2 = (run_all ops v').2.
Proof.
  intros Hrep Hop Hrun. destruct (run_refined own A v op Hrep Hop) as (own' & A' & _ & H1 & H2 & _).
  cbn [run_all] in *. destruct (run op v) as [rc' v'] eqn:E. cbn [fst snd] in *.
  destruct (run_all ops v') as [rcs' v''] eqn:E'. cbn [fst snd] in *. injection Hrun as -> ->.
  exists own', A', v'. rewrite E'. auto.
Qed.

(** The second space maps nothing, the first one page. *)
Definition example_entry : Z := phys_to_pte (frame_addr_of 270) 7.
Definition example_dst : vm_space_t := {| owner_pid := 2; regions := []; checkpoint_epoch := 0; page_tables := ∅ |}.
Definition example_src : vm_space_t :=
  {| owner_pid := 1; regions := []; checkpoint_epoch := 0; page_tables := {[1024 := example_entry]} |}.

Lemma example_mapped_rep :
  exists own A, rep own A example_mapped /\ 0x10A000 ∈ a_roots A /\ 0x10F000 ∈ a_roots A /\
    view A 0x10A000 example_dst /\ view A 0x10F000 example_src.
Proof.
  unfold example_mapped. pose proof example_results as Hres. unfold example_ops in *. pose proof example_rep as H0. revert Hres H0.
  generalize example_boot as v0. generalize (∅ : ownership) as own0. intros own0 v0 Hres H0.
  assert (pte_index 0x400000 = 1024) as Hk by (vm_compute; reflexivity).
  destruct (step_rep own0 (boot_abs v0) v0 (CreateSpace 1) _ _ _ H0 I Hres) as (own1 & A1 & v1 & R1 & S1 & Hres1 & ->).
  inversion S1; subst A1.
  destruct (step_rep _ _ _ AllocPage _ _ _ R1 I Hres1) as (own2 & A2 & v2 & R2 & S2 & Hres2 & ->).
  inversion S2 as [? f| | | | | | | | | | | | | | | | |].
  match goal with H : frame_addr_of f = _ |- _ => apply frame_addr_inj in H end. subst f A2.
  assert (user_page (pte_index 0x400000)) as Hu by (rewrite Hk; unfold user_page; lia).
  destruct (step_rep _ _ _ (MapPage 0x10F000 0x400000 270 7) _ _ _ R2 ltac:(cbn; set_solver) Hres2) as (own3 & A3 & v3 & R3 & S3 & Hres3 & ->).
  inversion S3; subst A3.
  destruct (step_rep _ _ _ (CreateSpace 2) _ _ _ R3 I Hres3) as (own4 & A4 & v4 & R4 & S4 & _ & ->).
  inversion S4; subst A4. rewrite Hk in *.
  eexists own4, _. split; [exact R4|]. split; [cbn; set_solver|]. split; [cbn; set_solver|].
  split; intros k' _; cbn [a_maps with_roots set_page with_held with_maps]; rewrite set_map_lookup.
  - reflexivity.
  - cbn [Z.eqb andb]. change (0x10F000 =? 0x10F000) with true. cbn [andb page_tables example_src].
    destruct (Z.eqb_spec k' 1024) as [->|Hne]; [vm_compute; reflexivity|]. rewrite lookup_singleton_ne by congruence. reflexivity.
Qed.

Lemma engine_view_agrees_witness :
  exists v' sp_dst' sp_src', vmm_map_cow_page example_mapped (& 0x10A000) (& 0x10F000) 0x400000 7 = (VMM_SUCCESS, v') /\
    Vmm.vmm_get_physical_addr (& example_src) 0x400000 = vmm_get_physical_addr example_mapped (& 0x10F000) 0x400000 /\
    Vmm.vmm_map_cow_page true (& example_dst) (& example_src) 0x400000 7 = (VMM_SUCCESS, & sp_dst', & sp_src').
Proof.
  destruct example_mapped_rep as (own & A & Hrep & Hd & Hs & Hvd & Hvs).
  assert (user_page (pte_index 0x400000)) as Hk by (vm_compute; split; [discriminate | reflexivity]).
  pose proof (engine_view_agrees own A example_mapped 0x10A000 0x10F000 example_dst example_src 0x400000 7 Hrep Hd Hs
    ltac:(discriminate) Hk Hvd Hvs) as H.
  destruct (vmm_map_cow_page example_mapped _ _ _ _) as [rc v'] eqn:E.
  assert (rc = VMM_SUCCESS) as ->.
  { change rc with ((rc, v').1). rewrite <- E. vm_compute. reflexivity. }
  destruct H as (H1 & _ & _ & sp_dst' & sp_src' & _ & _ & _ & H2). exists v', sp_dst', sp_src'. auto.
Defined.

Lemma example_shared_rep : exists own A, rep own A example_shared /\ 0x10F000 ∈ a_roots A /\ 0x10A000 ∈ a_roots A.
Proof.
  destruct example_mapped_rep as (own & A & Hrep & Hd & Hs & _).
  assert (user_page (pte_index 0x400000)) as Hk by (vm_compute; split; [discriminate | reflexivity]).
  destruct (run_refined own A example_mapped share_op Hrep ltac:(cbn; auto)) as (own' & A' & _ & H1 & H2 & _).
  exists own', A'. split; [exact H1|]. clear H1. revert H2. generalize (run share_op example_mapped).1. intros rc H2.
  inversion H2; subst; auto.
Qed.

Lemma cow_fault_private_witness :
  exists v' e e', vmm_handle_cow_fault example_shared (& 0x10A000) 0x400123 = (VMM_SUCCESS, v') /\
    read 3 example_shared 0x10A000 1024 = Some e /\ read 3 v' 0x10A000 1024 = Some e' /\
    pte_has e' PAGE_WRITABLE = true /\ frame_at (contents v') (pte_to_phys e') = frame_at (contents example_shared) (pte_to_phys e) /\
    read 3 v' 0x10F000 1024 = read 3 example_shared 0x10F000 1024.
Proof.
  destruct example_shared_rep as (own & A & Hrep & Hr1 & Hr2).
  destruct (vmm_handle_cow_fault example_shared (& 0x10A000) 0x400123) as [rc v'] eqn:E.
  assert (rc = VMM_SUCCESS) as ->.
  { change rc with ((rc, v').1). rewrite <- E. vm_compute. reflexivity. }
  assert (pte_index 0x400123 = 1024) as Hk by (vm_compute; reflexivity).
  destruct (cow_fault_private own A example_shared 0x10A000 0x400123 v' Hrep Hr2 ltac:(rewrite Hk; unfold user_page; lia) E)
    as (e & e' & H1 & H2 & H3 & H4 & H5). rewrite Hk in *.
  exists v', e, e'. split_and!; [reflexivity | exact H1 | exact H2 | exact H3 | exact H4|].
  apply H5; [exact Hr1 | unfold user_page; lia | discriminate].
Defined.

