(* ===== verification/Checkpoint.v ===== *)
(** * The checkpoint engine (kernel/checkpoint.c)

    Taking a checkpoint marks every writable page copy-on-write; the page-fault
    hook preserves a page before its first write; writeback streams the
    preserved pages and the still-clean ones to the snapshot store.  The
    capture list is a list, head first.  Each allocation's outcome is an
    argument.  The journal hook is a function over the world [W]. *)
From Stdlib Require Import ZArith Lia.
From stdpp Require Import gmap.
From S2P Require Import Prelude.
From S2P Require Import BlockDevice.
From S2P Require Import SnapshotStore.
From S2P Require Import Barrier.
From S2P Require Import Vmm.
Open Scope Z_scope.
Open Scope c_scope.

Definition CHECKPOINT_OK : Z := 0.
Definition CHECKPOINT_ERR_PARAM : Z := -1.
Definition CHECKPOINT_ERR_STATE : Z := -2.
Definition CHECKPOINT_ERR_IO : Z := -3.
Definition CHECKPOINT_ERR_NO_CHECKPOINT : Z := -4.

Definition CHECKPOINT_REC_CONTEXT : Z := 1.
Definition CHECKPOINT_REC_READONLY : Z := 2.
Definition CHECKPOINT_REC_KERNEL : Z := 4.
Definition CHECKPOINT_CONTEXT_VADDR : Z := 0xFFFFFFFFFFFFF000.
Definition CHECKPOINT_DEFAULT_INTERVAL_TICKS : Z := 1000.
Definition PM_MAX_PROCESSES : Z := 256.

Inductive checkpoint_page_action_t :=
  | CHECKPOINT_PAGE_SKIP | CHECKPOINT_PAGE_PERSIST_RW | CHECKPOINT_PAGE_PERSIST_RO.

#[export] Instance page_action_eq_dec : EqDecision checkpoint_page_action_t.
Proof. solve_decision. Defined.

Record checkpoint_state_t := {
  current_epoch : Z;
  spaces_marked : Z;
  pages_marked : Z;
  total_takes : Z;
  epoch_open : bool }.

Record checkpoint_capture_t := {
  c_epoch : Z;
  c_pid : Z;
  c_flags : Z;
  c_virt_addr : Z;
  c_data : list byte }.

(** The engine's globals. *)
Record engine_t := {
  g_checkpoint : checkpoint_state_t;
  g_captures : list checkpoint_capture_t;
  g_capture_count : Z;
  g_timer_enabled : bool;
  g_timer_interval : Z;
  g_timer_ticks : Z;
  g_barrier : checkpoint_barrier_t }.

Definition with_state (g : engine_t) (s : checkpoint_state_t) : engine_t :=
  {| g_checkpoint := s; g_captures := g_captures g; g_capture_count := g_capture_count g;
     g_timer_enabled := g_timer_enabled g; g_timer_interval := g_timer_interval g;
     g_timer_ticks := g_timer_ticks g; g_barrier := g_barrier g |}.
Definition with_captures (g : engine_t) (l : list checkpoint_capture_t) (n : Z) : engine_t :=
  {| g_checkpoint := g_checkpoint g; g_captures := l; g_capture_count := n;
     g_timer_enabled := g_timer_enabled g; g_timer_interval := g_timer_interval g;
     g_timer_ticks := g_timer_ticks g; g_barrier := g_barrier g |}.
Definition with_ticks (g : engine_t) (n : Z) : engine_t :=
  {| g_checkpoint := g_checkpoint g; g_captures := g_captures g; g_capture_count := g_capture_count g;
     g_timer_enabled := g_timer_enabled g; g_timer_interval := g_timer_interval g;
     g_timer_ticks := n; g_barrier := g_barrier g |}.
Definition with_barrier (g : engine_t) (b : ptr checkpoint_barrier_t) : engine_t :=
  match b with
  | NULL => g
  | Some b =>
      {| g_checkpoint := g_checkpoint g; g_captures := g_captures g; g_capture_count := g_capture_count g;
         g_timer_enabled := g_timer_enabled g; g_timer_interval := g_timer_interval g;
         g_timer_ticks := g_timer_ticks g; g_barrier := b |}
  end.

Definition checkpoint_clear_captures (g : engine_t) : engine_t := with_captures g [] 0.

Definition checkpoint_init (g : engine_t) : engine_t :=
  let g := with_state g {| current_epoch := 0; spaces_marked := 0; pages_marked := 0; total_takes := 0;
                           epoch_open := false |} in
  let g := with_ticks g 0 in
  let g := with_barrier g (checkpoint_barrier_init (& (g_barrier g)) 1) in
  checkpoint_clear_captures g.

Definition checkpoint_current_epoch (g : engine_t) : Z := current_epoch (g_checkpoint g).

(** ** Page-table entries *)
Definition checkpoint_mark_pte (pte : ptr Z) : bool * ptr Z :=
  match pte with
  | NULL => (false, pte)
  | Some entry =>
      if negb (pte_has entry PAGE_PRESENT) || negb (pte_has entry PAGE_WRITABLE) then (false, pte)
      else (true, & (Z.lor (Z.ldiff entry PAGE_WRITABLE) PAGE_SNAPSHOT_COW))
  end.

Definition checkpoint_page_action (region_writable : bool) (pte : Z) : checkpoint_page_action_t :=
  if negb (pte_has pte PAGE_PRESENT) then CHECKPOINT_PAGE_SKIP
  else if region_writable then
    if pte_has pte PAGE_SNAPSHOT_COW then CHECKPOINT_PAGE_PERSIST_RW else CHECKPOINT_PAGE_SKIP
  else CHECKPOINT_PAGE_PERSIST_RO.

Definition checkpoint_resolve_pte (pte : ptr Z) : bool * ptr Z :=
  match pte with
  | NULL => (false, pte)
  | Some entry =>
      if negb (pte_has entry PAGE_SNAPSHOT_COW) then (false, pte)
      else (true, & (Z.lor (Z.ldiff entry PAGE_SNAPSHOT_COW) PAGE_WRITABLE))
  end.

(** ** Marking one address space *)
Definition mark_page (acc : Z * gmap Z Z) (addr : Z) : Z * gmap Z Z :=
  let '(marked, pt) := acc in
  match pt !! pte_index addr with
  | NULL => (marked, pt)
  | Some pte =>
      match checkpoint_mark_pte (& pte) with
      | (true, Some pte) => (marked + 1, <[pte_index addr := pte]> pt)
      | _ => (marked, pt)
      end
  end.

Definition mark_region (acc : Z * gmap Z Z) (region : vm_region_t) : Z * gmap Z Z :=
  if negb (region_writable region) then acc else foldl mark_page acc (region_pages region).

Definition checkpoint_mark_space (space : ptr vm_space_t) (epoch : Z) : Z * ptr vm_space_t :=
  match space with
  | NULL => (CHECKPOINT_ERR_PARAM, space)
  | Some sp =>
      let '(marked, pt) := foldl mark_region (0, page_tables sp) (regions sp) in
      (marked, & {| owner_pid := owner_pid sp; regions := regions sp; checkpoint_epoch := epoch;
                    page_tables := pt |})
  end.

(** ** Captures *)

(** A record at the head of the list. *)
Definition push_capture (g : engine_t) (pid flags virt_addr : Z) (data : list byte) : engine_t :=
  with_captures g ({| c_epoch := current_epoch (g_checkpoint g); c_pid := pid; c_flags := flags;
                      c_virt_addr := virt_addr; c_data := data |} :: g_captures g)
                  (u64 (g_capture_count g + 1)).

(** [alloc]: the record and its page could both be allocated. *)
Definition checkpoint_capture_page (alloc : bool) (g : engine_t) (pid virt_addr : Z)
    (page_contents : ptr (list byte)) (pte : ptr Z) : Z * engine_t * ptr Z :=
  match pte, page_contents with
  | Some entry, Some contents =>
      if negb (pte_has entry PAGE_SNAPSHOT_COW) then (CHECKPOINT_ERR_STATE, g, pte)
      else if negb alloc then (CHECKPOINT_ERR_PARAM, g, pte)
      else (CHECKPOINT_OK, push_capture g pid 0 virt_addr (take 4096 contents),
            (checkpoint_resolve_pte pte).2)
  | _, _ => (CHECKPOINT_ERR_PARAM, g, pte)
  end.

Definition checkpoint_capture_context (alloc : bool) (g : engine_t) (pid : Z) (ctx : ptr (list byte))
    (ctx_size : Z) : Z * engine_t :=
  match ctx with
  | NULL => (CHECKPOINT_ERR_PARAM, g)
  | Some c =>
      if (ctx_size =? 0) || (PAGE_SIZE <? ctx_size) then (CHECKPOINT_ERR_PARAM, g)
      else if negb alloc then (CHECKPOINT_ERR_PARAM, g)
      else (CHECKPOINT_OK, push_capture g pid CHECKPOINT_REC_CONTEXT CHECKPOINT_CONTEXT_VADDR
                             (zero_padded 4096 (take (Z.to_nat ctx_size) c)))
  end.

(** The chunks from [i] on, [n] of them; [alloc i]: chunk [i]'s allocations. *)
Fixpoint capture_chunks (alloc : Z -> bool) (g : engine_t) (tag : Z) (data : list byte) (size : Z)
    (n : nat) (i : Z) : Z * engine_t :=
  match n with
  | O => (CHECKPOINT_OK, g)
  | S n =>
      if negb (alloc i) then (CHECKPOINT_ERR_PARAM, g)
      else
        let off := u32 (i * PAGE_SIZE) in
        let len := if u32 (size - off) <? PAGE_SIZE then u32 (size - off) else PAGE_SIZE in
        let page := zero_padded 4096 (take (Z.to_nat len) (drop (Z.to_nat off) data)) in
        let g := push_capture g tag CHECKPOINT_REC_KERNEL (Z.lor (u64 (Z.shiftl size 32)) i) page in
        capture_chunks alloc g tag data size n (u32 (i + 1))
  end.

Definition checkpoint_capture_kernel_blob (alloc : Z -> bool) (g : engine_t) (tag : Z)
    (data : ptr (list byte)) (size : Z) : Z * engine_t :=
  match data with
  | NULL => (CHECKPOINT_ERR_PARAM, g)
  | Some p =>
      if size =? 0 then (CHECKPOINT_ERR_PARAM, g)
      else
        let chunks := u32 (size + PAGE_SIZE - 1) / PAGE_SIZE in
        capture_chunks alloc g tag p size (Z.to_nat chunks) 0
  end.

(** The faulting page is mapped in the current space, so its contents are
    those of its frame. *)
Definition checkpoint_handle_write_fault (alloc : bool) (g : engine_t) (mem : phys_mem)
    (space : ptr vm_space_t) (fault_addr : Z) : bool * engine_t * ptr vm_space_t :=
  match space with
  | NULL => (false, g, space)
  | Some sp =>
      let page_addr := Z.ldiff fault_addr (PAGE_SIZE - 1) in
      match vmm_get_page_table space page_addr with
      | NULL => (false, g, space)
      | Some pte =>
          if negb (pte_has pte PAGE_PRESENT) || negb (pte_has pte PAGE_SNAPSHOT_COW) then (false, g, space)
          else
            match checkpoint_capture_page alloc g (owner_pid sp) page_addr
                    (& (frame_at mem (pte_to_phys pte))) (& pte) with
            | (rc, g, Some pte) =>
                if negb (rc =? CHECKPOINT_OK) then (false, g, space)
                else (true, g, & (with_tables sp (<[pte_index page_addr := pte]> (page_tables sp))))
            | (_, g, NULL) => (false, g, space)
            end
      end
  end.

(** ** The processes *)
Record process_t := { p_pid : Z; p_context : list byte; p_space : ptr vm_space_t }.

(** [s_pm_ready] is [g_pm_initialized]; the table holds the active processes
    in table order. *)
Record system_t := {
  s_engine : engine_t;
  s_pm_ready : bool;
  s_procs : list process_t;
  s_mem : phys_mem }.

Definition with_engine (s : system_t) (g : engine_t) : system_t :=
  {| s_engine := g; s_pm_ready := s_pm_ready s; s_procs := s_procs s; s_mem := s_mem s |}.
Definition with_procs (s : system_t) (l : list process_t) : system_t :=
  {| s_engine := s_engine s; s_pm_ready := s_pm_ready s; s_procs := l; s_mem := s_mem s |}.

Definition pm_get_process_list (s : system_t) : option (list Z) :=
  if s_pm_ready s then Some (take (Z.to_nat PM_MAX_PROCESSES) (p_pid <$> s_procs s)) else None.

Definition pm_get_process (s : system_t) (pid : Z) : ptr process_t :=
  if negb (s_pm_ready s) || (pid =? 0) then NULL else find (fun p => p_pid p =? pid) (s_procs s).

(** A write to the [address_space] of the process with this pid. *)
Fixpoint set_space (pid : Z) (sp : ptr vm_space_t) (l : list process_t) : list process_t :=
  match l with
  | [] => []
  | p :: l =>
      if p_pid p =? pid then {| p_pid := p_pid p; p_context := p_context p; p_space := sp |} :: l
      else p :: set_space pid sp l
  end.

(** ** Taking a checkpoint *)

(** One process of the list; [alloc pid]: its context record's allocations. *)
Definition take_process (alloc : Z -> bool) (epoch : Z) (acc : system_t * Z * Z) (pid : Z)
  : system_t * Z * Z :=
  let '(s, spaces, pages) := acc in
  match pm_get_process s pid with
  | NULL => acc
  | Some proc =>
      match p_space proc with
      | NULL => acc
      | Some _ =>
          let '(marked, sp) := checkpoint_mark_space (p_space proc) epoch in
          let s := with_procs s (set_space pid sp (s_procs s)) in
          if marked <? 0 then (s, spaces, pages)
          else
            let '(_, g) := checkpoint_capture_context (alloc pid) (s_engine s) (p_pid proc)
                             (& (p_context proc)) (Z.of_nat (length (p_context proc))) in
            (with_engine s g, u64 (spaces + 1), u64 (pages + marked))
      end
  end.

Definition checkpoint_take (alloc : Z -> bool) (s : system_t) : Z * system_t :=
  let c := g_checkpoint (s_engine s) in
  let epoch := u64 (current_epoch c + 1) in
  match pm_get_process_list s with
  | None => (0, s)
  | Some pids =>
      let '(s, spaces, pages) := foldl (take_process alloc epoch) (s, 0, 0) pids in
      (epoch,
       with_engine s (with_state (s_engine s)
         {| current_epoch := epoch; spaces_marked := spaces; pages_marked := pages;
            total_takes := u64 (total_takes c + 1); epoch_open := true |}))
  end.

(** ** The periodic trigger *)
Definition checkpoint_timer_configure (g : engine_t) (enabled : bool) (interval_ticks : Z) : engine_t :=
  {| g_checkpoint := g_checkpoint g; g_captures := g_captures g; g_capture_count := g_capture_count g;
     g_timer_enabled := enabled;
     g_timer_interval := if interval_ticks =? 0 then 1 else interval_ticks;
     g_timer_ticks := 0; g_barrier := g_barrier g |}.

Definition checkpoint_tick (alloc : Z -> bool) (s : system_t) : bool * system_t :=
  let g := s_engine s in
  if negb (g_timer_enabled g) then (false, s)
  else
    let g := with_ticks g (u64 (g_timer_ticks g + 1)) in
    if g_timer_ticks g <? g_timer_interval g then (false, with_engine s g)
    else if epoch_open (g_checkpoint g) then (false, with_engine s g)
    else
      let g := with_ticks g 0 in
      let '(_, b) := checkpoint_barrier_arm (& (g_barrier g)) in
      let '(quiescent, b) := checkpoint_barrier_park b 0 true in
      let s := with_engine s (with_barrier g b) in
      if quiescent then
        let '(epoch, s) := checkpoint_take alloc s in
        let s := with_engine s (with_barrier (s_engine s)
                   (checkpoint_barrier_release (& (g_barrier (s_engine s))))) in
        (negb (epoch =? 0), s)
      else (false, s).

(** ** Writeback *)
Section writeback.
Context {D W : Type}.
Implicit Types (store : snapshot_store_t D) (d : D) (w : ptr snapshot_writer_t).

Fixpoint stream_captures store d w (l : list checkpoint_capture_t) : Z * D * ptr snapshot_writer_t :=
  match l with
  | [] => (CHECKPOINT_OK, d, w)
  | c :: l =>
      let '(rc, d, w) := snapshot_writer_add_page store d w (c_pid c) (c_virt_addr c) (c_flags c)
                           (& (c_data c)) in
      if negb (rc =? SNAPSHOT_OK) then (CHECKPOINT_ERR_IO, d, w) else stream_captures store d w l
  end.

(** The pages of one region. *)
Fixpoint write_pages store d w (mem : phys_mem) (sp : vm_space_t) (writable : bool) (addrs : list Z)
  : Z * D * ptr snapshot_writer_t :=
  match addrs with
  | [] => (CHECKPOINT_OK, d, w)
  | addr :: addrs =>
      match vmm_get_page_table (& sp) addr with
      | NULL => write_pages store d w mem sp writable addrs
      | Some pte =>
          let action := checkpoint_page_action writable pte in
          if decide (action = CHECKPOINT_PAGE_SKIP) then write_pages store d w mem sp writable addrs
          else
            let phys := vmm_get_physical_addr (& sp) addr in
            if phys =? 0 then write_pages store d w mem sp writable addrs
            else
              let flags := if decide (action = CHECKPOINT_PAGE_PERSIST_RO) then CHECKPOINT_REC_READONLY else 0 in
              let '(rc, d, w) := snapshot_writer_add_page store d w (owner_pid sp) addr flags
                                   (& (frame_at mem phys)) in
              if negb (rc =? SNAPSHOT_OK) then (CHECKPOINT_ERR_IO, d, w)
              else write_pages store d w mem sp writable addrs
      end
  end.

Fixpoint write_regions store d w (mem : phys_mem) (sp : vm_space_t) (rs : list vm_region_t)
  : Z * D * ptr snapshot_writer_t :=
  match rs with
  | [] => (CHECKPOINT_OK, d, w)
  | r :: rs =>
      let '(rc, d, w) := write_pages store d w mem sp (region_writable r) (region_pages r) in
      if negb (rc =? CHECKPOINT_OK) then (rc, d, w) else write_regions store d w mem sp rs
  end.

Fixpoint write_spaces store d w (s : system_t) (pids : list Z) : Z * D * ptr snapshot_writer_t :=
  match pids with
  | [] => (CHECKPOINT_OK, d, w)
  | pid :: pids =>
      match pm_get_process s pid with
      | Some {| p_space := Some sp |} =>
          let '(rc, d, w) := write_regions store d w (s_mem s) sp (regions sp) in
          if negb (rc =? CHECKPOINT_OK) then (rc, d, w) else write_spaces store d w s pids
      | _ => write_spaces store d w s pids
      end
  end.

(** [alloc]: the bounce buffer could be allocated. *)
Definition writeback_clean_pages (alloc : bool) store d w (s : system_t) : Z * D * ptr snapshot_writer_t :=
  match pm_get_process_list s with
  | None => (CHECKPOINT_OK, d, w)
  | Some pids =>
      if negb alloc then (CHECKPOINT_ERR_PARAM, d, w) else write_spaces store d w s pids
  end.

Definition checkpoint_stream_pages (alloc : bool) store d w (s : system_t) : Z * D * ptr snapshot_writer_t :=
  match w with
  | NULL => (CHECKPOINT_ERR_PARAM, d, w)
  | Some _ =>
      let '(rc, d, w) := stream_captures store d w (g_captures (s_engine s)) in
      if negb (rc =? CHECKPOINT_OK) then (rc, d, w) else writeback_clean_pages alloc store d w s
  end.

Definition checkpoint_after_commit (hook : ptr (Z -> W -> Z * W)) (world : W) (s : system_t) (epoch : Z)
  : W * system_t :=
  let world := match hook with Some h => (h epoch world).2 | NULL => world end in
  let g := checkpoint_clear_captures (s_engine s) in
  let c := g_checkpoint g in
  (world, with_engine s (with_state g
     {| current_epoch := current_epoch c; spaces_marked := spaces_marked c; pages_marked := pages_marked c;
        total_takes := total_takes c; epoch_open := false |})).

(** [w0] is the local writer's uninitialised content. *)
Definition checkpoint_writeback (alloc : bool) (hook : ptr (Z -> W -> Z * W)) (store : ptr (snapshot_store_t D))
    d (w0 : snapshot_writer_t) (world : W) (s : system_t) : Z * D * W * system_t :=
  match store with
  | NULL => (CHECKPOINT_ERR_PARAM, d, world, s)
  | Some st =>
      let '(rc, w) := snapshot_store_begin store d (current_epoch (g_checkpoint (s_engine s))) (& w0) in
      if negb (rc =? SNAPSHOT_OK) then (CHECKPOINT_ERR_IO, d, world, s)
      else
        let '(rc, d, w) := checkpoint_stream_pages alloc st d w s in
        if negb (rc =? CHECKPOINT_OK) then (rc, d, world, s)
        else
          let '(rc, d, w) := snapshot_store_commit st d w in
          if negb (rc =? SNAPSHOT_OK) then (CHECKPOINT_ERR_IO, d, world, s)
          else
            let '(world, s) := checkpoint_after_commit hook world s (current_epoch (g_checkpoint (s_engine s))) in
            (CHECKPOINT_OK, d, world, s)
  end.
End writeback.
