(* ===== verification/CheckpointSpec.v ===== *)
(** * A checkpoint is the memory of one instant

    The records a checkpoint streams to disk, whenever writeback runs, are the
    pages as they were when it was taken.  The records of a system are those of
    its captures and those of its still-clean pages; a user's stores and write
    faults move records from the second group to the first and change none. *)
From Stdlib Require Import ZArith Lia Permutation.
From stdpp Require Import gmap.
From S2P Require Import Prelude.
From S2P Require Import BlockDevice SnapshotStore SnapshotStoreSpec Barrier Vmm VmmSpec Checkpoint.
Open Scope Z_scope.
Open Scope c_scope.

(** ** The snapshot tag of an entry

    Swapping the write bit and the tag keeps everything else. *)
Definition marked_entry (e : Z) : Z := Z.lor (Z.ldiff e PAGE_WRITABLE) PAGE_SNAPSHOT_COW.
Definition resolved_entry (e : Z) : Z := Z.lor (Z.ldiff e PAGE_SNAPSHOT_COW) PAGE_WRITABLE.

Lemma testbit_flip e a b n :
  0 <= a -> 0 <= b -> 0 <= n ->
  Z.testbit (Z.lor (Z.ldiff e (2 ^ a)) (2 ^ b)) n = (Z.testbit e n && negb (n =? a)) || (n =? b).
Proof.
  intros. rewrite Z.lor_spec, Z.ldiff_spec, !Z.pow2_bits_eqb by lia.
  rewrite (Z.eqb_sym n a), (Z.eqb_sym n b). reflexivity.
Qed.

Lemma marked_bits e :
  pte_has (marked_entry e) PAGE_PRESENT = pte_has e PAGE_PRESENT /\
  pte_has (marked_entry e) PAGE_WRITABLE = false /\ pte_has (marked_entry e) PAGE_SNAPSHOT_COW = true.
Proof.
  rewrite !has_present, has_writable, has_cow. unfold marked_entry.
  change PAGE_WRITABLE with (2 ^ 1). change PAGE_SNAPSHOT_COW with (2 ^ 9).
  rewrite !testbit_flip by lia. cbn. rewrite andb_true_r, orb_false_r, andb_false_r, orb_true_r. auto.
Qed.

Lemma resolved_bits e :
  pte_has (resolved_entry e) PAGE_PRESENT = pte_has e PAGE_PRESENT /\
  pte_has (resolved_entry e) PAGE_WRITABLE = true /\ pte_has (resolved_entry e) PAGE_SNAPSHOT_COW = false.
Proof.
  rewrite !has_present, has_writable, has_cow. unfold resolved_entry.
  change PAGE_WRITABLE with (2 ^ 1). change PAGE_SNAPSHOT_COW with (2 ^ 9).
  rewrite !testbit_flip by lia. cbn. rewrite andb_true_r, orb_false_r, andb_false_r, orb_true_r. auto.
Qed.

Lemma phys_flip e a b :
  0 <= a < 12 -> 0 <= b < 12 -> pte_to_phys (Z.lor (Z.ldiff e (2 ^ a)) (2 ^ b)) = pte_to_phys e.
Proof.
  intros Ha Hb. unfold pte_to_phys. apply Z.bits_inj'. intros n Hn.
  rewrite !Z.land_spec, testbit_flip by lia.
  destruct (Z.ltb_spec n 12).
  - assert (Z.testbit 0xFFFFFFFFFFFFF000 n = false) as ->; [|rewrite !andb_false_r; reflexivity].
    change 0xFFFFFFFFFFFFF000 with (Z.shiftl 0xFFFFFFFFFFFFF 12). rewrite Z.shiftl_spec_low by lia. reflexivity.
  - rewrite (proj2 (Z.eqb_neq n a)), (proj2 (Z.eqb_neq n b)) by lia.
    cbn. rewrite andb_true_r, orb_false_r. reflexivity.
Qed.

Lemma marked_phys e : pte_to_phys (marked_entry e) = pte_to_phys e.
Proof. apply (phys_flip e 1 9); lia. Qed.
Lemma resolved_phys e : pte_to_phys (resolved_entry e) = pte_to_phys e.
Proof. apply (phys_flip e 9 1); lia. Qed.

(** Marking then resolving gives a present writable untagged entry back. *)
Lemma resolve_mark e :
  pte_has e PAGE_WRITABLE = true -> pte_has e PAGE_SNAPSHOT_COW = false ->
  resolved_entry (marked_entry e) = e.
Proof.
  rewrite has_writable, has_cow. intros Hw Hc. apply Z.bits_inj'. intros n Hn.
  unfold resolved_entry, marked_entry.
  change PAGE_WRITABLE with (2 ^ 1). change PAGE_SNAPSHOT_COW with (2 ^ 9).
  rewrite !testbit_flip by lia.
  destruct (Z.eqb_spec n 1) as [->|]; [rewrite Hw; reflexivity|].
  destruct (Z.eqb_spec n 9) as [->|]; [rewrite Hc; reflexivity|].
  cbn. rewrite !andb_true_r, !orb_false_r. reflexivity.
Qed.

(** ** The records of a system *)

(** The pages a walk of the space's regions visits, with their region's
    write permission. *)
Definition space_pages (sp : vm_space_t) : list (bool * Z) :=
  mjoin ((fun r => (fun a => (region_writable r, a)) <$> region_pages r) <$> regions sp).

Definition record_flags (act : checkpoint_page_action_t) : Z :=
  if decide (act = CHECKPOINT_PAGE_PERSIST_RO) then CHECKPOINT_REC_READONLY else 0.

(** The record writeback streams for a page, if any. *)
Definition page_record (mem : phys_mem) (sp : vm_space_t) (wa : bool * Z) : option page :=
  match vmm_get_page_table (& sp) wa.2 with
  | NULL => None
  | Some pte =>
      let act := checkpoint_page_action wa.1 pte in
      if decide (act = CHECKPOINT_PAGE_SKIP) then None
      else
        let phys := vmm_get_physical_addr (& sp) wa.2 in
        if phys =? 0 then None
        else Some {| pg_pid := owner_pid sp; pg_virt_addr := wa.2; pg_flags := record_flags act;
                     pg_data := frame_at mem phys |}
  end.

Definition clean_space (mem : phys_mem) (sp : vm_space_t) : list page :=
  omap (page_record mem sp) (space_pages sp).
Definition clean_process (mem : phys_mem) (p : process_t) : list page :=
  match p_space p with Some sp => clean_space mem sp | NULL => [] end.
Definition clean (s : system_t) : list page := mjoin (clean_process (s_mem s) <$> s_procs s).

Definition capture_record (c : checkpoint_capture_t) : page :=
  {| pg_pid := c_pid c; pg_virt_addr := c_virt_addr c; pg_flags := c_flags c; pg_data := c_data c |}.

(** Everything [checkpoint_stream_pages] writes, in order. *)
Definition stream_records (s : system_t) : list page :=
  (capture_record <$> g_captures (s_engine s)) ++ clean s.

(** ** Well-formed systems *)

(** The index belongs to a page of a region with this write permission. *)
Definition in_region (sp : vm_space_t) (writable : bool) (k : Z) : Prop :=
  exists a, (writable, a) ∈ space_pages sp /\ pte_index a = k.

(** What the engine relies on for a present entry: writable regions hold
    writable or tagged pages, read-only ones hold neither. *)
Record entry_wf (sp : vm_space_t) (k e : Z) : Prop := {
  ent_phys : pte_to_phys e <> 0;
  ent_exclusive : pte_has e PAGE_WRITABLE = true -> pte_has e PAGE_SNAPSHOT_COW = false;
  ent_tagged : pte_has e PAGE_SNAPSHOT_COW = true -> in_region sp true k;
  ent_rw : in_region sp true k -> pte_has e PAGE_WRITABLE = true \/ pte_has e PAGE_SNAPSHOT_COW = true;
  ent_ro : in_region sp false k -> pte_has e PAGE_WRITABLE = false }.

Record space_wf (pid : Z) (sp : vm_space_t) : Prop := {
  sp_owner : owner_pid sp = pid;
  sp_user : Forall (fun wa => 0 <= wa.2 < 2 ^ 47 /\ Z.land wa.2 (PAGE_SIZE - 1) = 0) (space_pages sp);
  sp_disjoint : NoDup ((fun wa => pte_index wa.2) <$> space_pages sp);
  sp_entries : forall k e, page_tables sp !! k = Some e -> pte_has e PAGE_PRESENT = true -> entry_wf sp k e }.

(** No two user pages share a frame; entries from 2^35 on are the kernel's
    half, which all spaces share. *)
Definition frames_private (procs : list process_t) : Prop :=
  forall p1 p2 sp1 sp2 k1 k2 e1 e2,
    p1 ∈ procs -> p2 ∈ procs -> p_space p1 = Some sp1 -> p_space p2 = Some sp2 ->
    page_tables sp1 !! k1 = Some e1 -> page_tables sp2 !! k2 = Some e2 ->
    pte_has e1 PAGE_PRESENT = true -> pte_has e2 PAGE_PRESENT = true ->
    k1 < 2 ^ 35 -> pte_to_phys e1 = pte_to_phys e2 -> p_pid p1 = p_pid p2 /\ k1 = k2.

Record system_wf (s : system_t) : Prop := {
  wf_ready : s_pm_ready s = true;
  wf_room : (length (s_procs s) <= Z.to_nat PM_MAX_PROCESSES)%nat;
  wf_pids : NoDup (p_pid <$> s_procs s);
  wf_users : Forall (fun p => 0 < p_pid p < 2 ^ 32) (s_procs s);
  wf_spaces : forall p sp, p ∈ s_procs s -> p_space p = Some sp -> space_wf (p_pid p) sp;
  wf_frames : frames_private (s_procs s) }.

(** ** Streaming is adding the records *)
Section streaming.
Context {D : Type}.
Implicit Types (store : snapshot_store_t D) (d : D) (w : ptr snapshot_writer_t).

(** A streaming function adds [ps], with the engine's error code. *)
Definition streams store d w (ps : list page) (out : Z * D * ptr snapshot_writer_t) : Prop :=
  out = let '(rc, d', w') := add_pages store d w ps in
        ((if rc =? SNAPSHOT_OK then CHECKPOINT_OK else CHECKPOINT_ERR_IO), d', w').

Lemma streams_nil store d w : streams store d w [] (CHECKPOINT_OK, d, w).
Proof. reflexivity. Qed.

Lemma add_pages_app_pages store d w ps qs :
  add_pages store d w (ps ++ qs) =
  let '(rc, d', w') := add_pages store d w ps in
  if negb (rc =? SNAPSHOT_OK) then (rc, d', w') else add_pages store d' w' qs.
Proof.
  revert d w; induction ps as [|p ps IH]; intros d w; [reflexivity|]. cbn [app add_pages].
  destruct (snapshot_writer_add_page _ _ _ _ _ _ _) as [[rc d1] w1].
  destruct (rc =? SNAPSHOT_OK) eqn:E; cbn [negb]; [apply IH | rewrite E; reflexivity].
Qed.

(** One record, then the rest. *)
Lemma streams_cons store d w p ps out :
  (let '(rc, d1, w1) := snapshot_writer_add_page store d w (pg_pid p) (pg_virt_addr p) (pg_flags p) (& (pg_data p)) in
   if negb (rc =? SNAPSHOT_OK) then out = (CHECKPOINT_ERR_IO, d1, w1) else streams store d1 w1 ps out) ->
  streams store d w (p :: ps) out.
Proof.
  unfold streams. cbn [add_pages]. destruct (snapshot_writer_add_page _ _ _ _ _ _ _) as [[rc d1] w1].
  destruct (rc =? SNAPSHOT_OK) eqn:E; cbn [negb]; [auto|]. intros ->. rewrite E. reflexivity.
Qed.

(** One group of records, then the rest. *)
Lemma streams_app store d w ps qs out1 (next : D -> ptr snapshot_writer_t -> Z * D * ptr snapshot_writer_t) :
  streams store d w ps out1 -> (forall d' w', streams store d' w' qs (next d' w')) ->
  streams store d w (ps ++ qs)
    (let '(rc, d', w') := out1 in if negb (rc =? CHECKPOINT_OK) then (rc, d', w') else next d' w').
Proof.
  unfold streams. intros -> Hn. rewrite add_pages_app_pages.
  destruct (add_pages store d w ps) as [[rc d1] w1]. destruct (rc =? SNAPSHOT_OK) eqn:E; cbn.
  - rewrite Hn. destruct (add_pages store d1 w1 qs) as [[rc2 d2] w2]. reflexivity.
  - rewrite E. reflexivity.
Qed.

Lemma stream_captures_adds store d w l :
  streams store d w (capture_record <$> l) (stream_captures store d w l).
Proof.
  revert d w; induction l as [|c l IH]; intros d w; [apply streams_nil|].
  rewrite fmap_cons. apply streams_cons. cbn [stream_captures capture_record pg_pid pg_virt_addr pg_flags pg_data].
  destruct (snapshot_writer_add_page _ _ _ _ _ _ _) as [[rc d1] w1].
  destruct (negb (rc =? SNAPSHOT_OK)); [reflexivity | apply IH].
Qed.

Lemma write_pages_adds store d w mem sp b addrs :
  streams store d w (omap (page_record mem sp) ((fun a => (b, a)) <$> addrs))
    (write_pages store d w mem sp b addrs).
Proof.
  revert d w; induction addrs as [|a addrs IH]; intros d w; [apply streams_nil|].
  rewrite fmap_cons. cbn [omap list_omap write_pages]. unfold page_record at 1. cbn [fst snd].
  destruct (vmm_get_page_table (& sp) a) as [pte|]; [|apply IH].
  destruct (decide (checkpoint_page_action b pte = CHECKPOINT_PAGE_SKIP)); [apply IH|].
  destruct (vmm_get_physical_addr (& sp) a =? 0); [apply IH|].
  apply streams_cons. cbn [pg_pid pg_virt_addr pg_flags pg_data]. unfold record_flags.
  destruct (snapshot_writer_add_page _ _ _ _ _ _ _) as [[rc d1] w1].
  destruct (negb (rc =? SNAPSHOT_OK)); [reflexivity | apply IH].
Qed.

Lemma write_regions_adds store d w mem sp rs :
  streams store d w
    (omap (page_record mem sp) (mjoin ((fun r => (fun a => (region_writable r, a)) <$> region_pages r) <$> rs)))
    (write_regions store d w mem sp rs).
Proof.
  revert d w; induction rs as [|r rs IH]; intros d w; [apply streams_nil|].
  rewrite fmap_cons.
  change (mjoin (?x :: ?l)) with (x ++ mjoin l). rewrite omap_app. cbn [write_regions].
  apply (streams_app _ _ _ _ _ _ (fun d w => write_regions store d w mem sp rs));
    [apply write_pages_adds | exact IH].
Qed.

(** The still-clean pages of a list of processes. *)
Definition clean_pids (s : system_t) (pids : list Z) : list page :=
  mjoin ((fun pid => from_option (clean_process (s_mem s)) [] (pm_get_process s pid)) <$> pids).

Lemma write_spaces_adds store d w s pids :
  streams store d w (clean_pids s pids) (write_spaces store d w s pids).
Proof.
  revert d w; induction pids as [|pid pids IH]; intros d w; [apply streams_nil|].
  unfold clean_pids. rewrite fmap_cons. change (mjoin (?x :: ?l)) with (x ++ mjoin l).
  fold (clean_pids s pids). cbn [write_spaces].
  destruct (pm_get_process s pid) as [[ppid pctx [sp|]]|]; cbn [from_option]; [|apply IH..].
  apply (streams_app _ _ _ _ _ _ (fun d w => write_spaces store d w s pids));
    [apply write_regions_adds | exact IH].
Qed.
End streaming.

(** Under well-formedness the process list is the table. *)
Lemma find_pid (l : list process_t) p :
  NoDup (p_pid <$> l) -> p ∈ l -> find (fun q => p_pid q =? p_pid p) l = Some p.
Proof.
  induction l as [|q l IH]; intros Hnd Hp; [set_solver|].
  rewrite fmap_cons, NoDup_cons in Hnd. destruct Hnd as [Hq Hnd]. cbn [find].
  destruct (Z.eqb_spec (p_pid q) (p_pid p)) as [E|E].
  - apply elem_of_cons in Hp as [->|Hp]; [reflexivity|].
    exfalso. apply Hq. rewrite E. apply list_elem_of_fmap_2, Hp.
  - apply elem_of_cons in Hp as [->|Hp]; [contradiction | apply IH; assumption].
Qed.

Lemma get_process_wf s p : system_wf s -> p ∈ s_procs s -> pm_get_process s (p_pid p) = & p.
Proof.
  intros [Hr _ Hnd Hu _ _] Hp. unfold pm_get_process. rewrite Hr. cbn [negb orb].
  pose proof (proj1 (Forall_forall _ _) Hu p Hp) as H0. cbn in H0.
  rewrite (proj2 (Z.eqb_neq _ _)) by lia.
  apply find_pid; assumption.
Qed.

Lemma process_list_wf s : system_wf s -> pm_get_process_list s = Some (p_pid <$> s_procs s).
Proof.
  intros [Hr Hl _ _ _ _]. unfold pm_get_process_list. rewrite Hr, take_ge; [reflexivity|].
  rewrite length_fmap. exact Hl.
Qed.

Lemma clean_pids_wf s : system_wf s -> clean_pids s (p_pid <$> s_procs s) = clean s.
Proof.
  intros Hwf. unfold clean_pids, clean. f_equal. rewrite <- list_fmap_compose.
  apply list_fmap_ext. intros i p Hp. unfold compose.
  rewrite (get_process_wf s p Hwf) by exact (list_elem_of_lookup_2 _ _ _ Hp). reflexivity.
Qed.

Lemma stream_pages_adds {D} (store : snapshot_store_t D) d w s :
  system_wf s -> streams store d (& w) (stream_records s) (checkpoint_stream_pages true store d (& w) s).
Proof.
  intros Hwf. unfold checkpoint_stream_pages, stream_records.
  apply (streams_app _ _ _ _ _ _ (fun d w => writeback_clean_pages true store d w s)); [apply stream_captures_adds|].
  intros d' w'. unfold writeback_clean_pages. rewrite process_list_wf by exact Hwf. cbn [negb].
  rewrite <- clean_pids_wf by exact Hwf. apply write_spaces_adds.
Qed.

(** ** What happens between a checkpoint and its writeback: a store to a
    writable page, a write fault, a context switch that saves registers *)
Inductive user_step (s s' : system_t) : Prop :=
  | user_store p sp addr e data :
      p ∈ s_procs s -> p_space p = & sp -> 0 <= addr < 2 ^ 47 ->
      vmm_get_page_table (& sp) addr = & e -> pte_has e PAGE_PRESENT = true ->
      pte_has e PAGE_WRITABLE = true ->
      s' = {| s_engine := s_engine s; s_pm_ready := s_pm_ready s; s_procs := s_procs s;
              s_mem := <[pte_to_phys e := data]> (s_mem s) |} -> user_step s s'
  | user_fault alloc p sp addr ok g sp' :
      p ∈ s_procs s -> p_space p = & sp -> 0 <= addr < 2 ^ 47 ->
      checkpoint_handle_write_fault alloc (s_engine s) (s_mem s) (& sp) addr = (ok, g, sp') ->
      s' = {| s_engine := g; s_pm_ready := s_pm_ready s; s_procs := set_space (p_pid p) sp' (s_procs s);
              s_mem := s_mem s |} -> user_step s s'
  | user_switch p ctx l1 l2 :
      s_procs s = l1 ++ p :: l2 ->
      s' = {| s_engine := s_engine s; s_pm_ready := s_pm_ready s;
              s_procs := l1 ++ {| p_pid := p_pid p; p_context := ctx; p_space := p_space p |} :: l2;
              s_mem := s_mem s |} -> user_step s s'.

(** *** Addresses and indices *)
Lemma pte_index_user a : 0 <= a < 2 ^ 47 -> pte_index a = a / 4096.
Proof.
  intros Ha. unfold pte_index. change (2 ^ 36 - 1) with (Z.ones 36).
  rewrite Z.land_ones, Z.shiftr_div_pow2 by lia. change (2 ^ 12) with 4096.
  apply Z.mod_small. split; [apply Z.div_pos; lia | apply Z.div_lt_upper_bound; lia].
Qed.

Lemma page_offset a : Z.land a (PAGE_SIZE - 1) = a mod 4096.
Proof. change (PAGE_SIZE - 1) with (Z.ones 12). rewrite Z.land_ones by lia. reflexivity. Qed.

Lemma page_base a : 0 <= a -> Z.ldiff a (PAGE_SIZE - 1) = a / 4096 * 4096.
Proof.
  intros Ha. change (PAGE_SIZE - 1) with (Z.ones 12).
  rewrite Z.ldiff_ones_r, Z.shiftr_div_pow2, Z.shiftl_mul_pow2 by lia. reflexivity.
Qed.

Lemma index_inj a b :
  0 <= a < 2 ^ 47 -> 0 <= b < 2 ^ 47 -> Z.land a (PAGE_SIZE - 1) = 0 -> Z.land b (PAGE_SIZE - 1) = 0 ->
  pte_index a = pte_index b -> a = b.
Proof.
  intros Ha Hb Hza Hzb. rewrite page_offset in Hza, Hzb. rewrite !pte_index_user by assumption.
  intros E. rewrite (Z.div_mod a 4096), (Z.div_mod b 4096) by lia. rewrite E. lia.
Qed.

Lemma physical_addr sp a e :
  Z.land a (PAGE_SIZE - 1) = 0 -> page_tables sp !! pte_index a = & e -> pte_has e PAGE_PRESENT = true ->
  vmm_get_physical_addr (& sp) a = pte_to_phys e.
Proof.
  intros Ha He Hp. unfold vmm_get_physical_addr, vmm_get_page_table. rewrite He, Hp, Ha. cbn [negb]. lia.
Qed.

(** *** Spaces whose entries change but not the frames they map *)
Definition same_frames (sp sp' : vm_space_t) : Prop :=
  forall k e', page_tables sp' !! k = & e' ->
    exists e, page_tables sp !! k = & e /\ pte_to_phys e' = pte_to_phys e /\
              pte_has e' PAGE_PRESENT = pte_has e PAGE_PRESENT.

Definition retagged (p p' : process_t) : Prop :=
  p_pid p' = p_pid p /\
  match p_space p, p_space p' with
  | Some sp, Some sp' => same_frames sp sp' /\ space_pages sp' = space_pages sp
  | NULL, NULL => True
  | _, _ => False
  end.

Lemma retagged_refl p : retagged p p.
Proof.
  split; [reflexivity|]. destruct (p_space p) as [sp|]; [|exact I].
  split; [|reflexivity]. intros k e He. exists e. auto.
Qed.

Lemma frames_retagged l l' : Forall2 retagged l l' -> frames_private l -> frames_private l'.
Proof.
  intros HF H p1 p2 sp1 sp2 k1 k2 e1 e2 Hp1 Hp2 Hs1 Hs2 He1 He2 Hpr1 Hpr2 Hk Heq.
  assert (forall p' sp' k e', p' ∈ l' -> p_space p' = & sp' -> page_tables sp' !! k = & e' ->
    exists p sp e, p ∈ l /\ p_pid p' = p_pid p /\ p_space p = & sp /\ page_tables sp !! k = & e /\
      pte_to_phys e' = pte_to_phys e /\ pte_has e' PAGE_PRESENT = pte_has e PAGE_PRESENT) as Hback.
  { intros p' sp' k e' Hp' Hs' He'. apply list_elem_of_lookup_1 in Hp' as [i Hi].
    destruct (Forall2_lookup_r _ _ _ _ _ HF Hi) as (p & Hp & Hid & Hsp). rewrite Hs' in Hsp.
    destruct (p_space p) as [sp|] eqn:Es; [|contradiction]. destruct Hsp as [Hsp _].
    destruct (Hsp k e' He') as (e & He & Hphys & Hpres).
    exists p, sp, e. pose proof (list_elem_of_lookup_2 _ _ _ Hp). auto 10. }
  destruct (Hback p1 sp1 k1 e1) as (q1 & t1 & f1 & Hq1 & E1 & Ht1 & Hf1 & Hph1 & Hb1); [assumption..|].
  destruct (Hback p2 sp2 k2 e2) as (q2 & t2 & f2 & Hq2 & E2 & Ht2 & Hf2 & Hph2 & Hb2); [assumption..|].
  rewrite E1, E2. apply (H q1 q2 t1 t2 k1 k2 f1 f2); congruence.
Qed.

(** *** Splitting the table at a process *)
Definition with_space (p : process_t) (sp : ptr vm_space_t) : process_t :=
  {| p_pid := p_pid p; p_context := p_context p; p_space := sp |}.

Lemma set_space_split l p :
  NoDup (p_pid <$> l) -> p ∈ l ->
  exists l1 l2, l = l1 ++ p :: l2 /\ forall sp, set_space (p_pid p) sp l = l1 ++ with_space p sp :: l2.
Proof.
  induction l as [|q l IH]; intros Hnd Hp; [set_solver|].
  rewrite fmap_cons, NoDup_cons in Hnd. destruct Hnd as [Hq Hnd].
  destruct (Z.eqb_spec (p_pid q) (p_pid p)) as [E|E].
  - apply elem_of_cons in Hp as [->|Hp].
    + exists [], l. split; [reflexivity|]. intros sp. cbn [set_space]. rewrite Z.eqb_refl. reflexivity.
    + exfalso. apply Hq. rewrite E. apply list_elem_of_fmap_2, Hp.
  - apply elem_of_cons in Hp as [->|Hp]; [contradiction|].
    destruct (IH Hnd Hp) as (l1 & l2 & -> & Hs). exists (q :: l1), l2. split; [reflexivity|].
    intros sp. cbn [set_space app]. rewrite (proj2 (Z.eqb_neq _ _) E), Hs. reflexivity.
Qed.

Lemma clean_split mem l1 p l2 :
  mjoin (clean_process mem <$> l1 ++ p :: l2) =
  mjoin (clean_process mem <$> l1) ++ clean_process mem p ++ mjoin (clean_process mem <$> l2).
Proof. rewrite fmap_app, join_app. reflexivity. Qed.

(** A well-formed system whose entries are retagged. *)
Lemma retagged_wf s procs g m :
  system_wf s -> Forall2 retagged (s_procs s) procs ->
  (forall p sp, p ∈ procs -> p_space p = & sp -> space_wf (p_pid p) sp) ->
  system_wf {| s_engine := g; s_pm_ready := s_pm_ready s; s_procs := procs; s_mem := m |}.
Proof.
  intros [Hr Hl Hnd Hu _ Hf] HF Hsp.
  assert (p_pid <$> procs = p_pid <$> s_procs s) as Epid.
  { clear -HF. induction HF as [|p q l l' (Hpq & _) _ IH]; [reflexivity|]. rewrite !fmap_cons, IH, Hpq. reflexivity. }
  constructor; cbn [s_pm_ready s_procs].
  - exact Hr.
  - rewrite <- (Forall2_length _ _ _ HF). exact Hl.
  - rewrite Epid. exact Hnd.
  - rewrite <- (Forall_fmap p_pid (fun x => 0 < x < 2 ^ 32)), Epid, Forall_fmap. exact Hu.
  - exact Hsp.
  - exact (frames_retagged _ _ HF Hf).
Qed.

Lemma retagged_all l : Forall2 retagged l l.
Proof. apply Forall_Forall2_diag, Forall_forall. intros; apply retagged_refl. Qed.

(** ... with one space replaced. *)
Lemma replace_space_wf s p sp sp' l1 l2 g m :
  system_wf s -> s_procs s = l1 ++ p :: l2 -> p_space p = & sp ->
  same_frames sp sp' -> space_pages sp' = space_pages sp -> space_wf (p_pid p) sp' ->
  system_wf {| s_engine := g; s_pm_ready := s_pm_ready s; s_procs := l1 ++ with_space p (& sp') :: l2;
               s_mem := m |}.
Proof.
  intros Hwf El Hp Hsf Hpages Hwf'. apply retagged_wf; [exact Hwf| |].
  - rewrite El. apply Forall2_app; [apply retagged_all|]. apply Forall2_cons. split; [|apply retagged_all].
    split; [reflexivity|]. rewrite Hp. cbn [p_space with_space]. split; assumption.
  - intros q sq Hq Hs. apply elem_of_app in Hq as [Hq|Hq]; [|apply elem_of_cons in Hq as [->|Hq]].
    + apply (wf_spaces s Hwf q sq); [rewrite El; set_solver | exact Hs].
    + cbn [with_space p_space p_pid] in *. injection Hs as <-. exact Hwf'.
    + apply (wf_spaces s Hwf q sq); [rewrite El; set_solver | exact Hs].
Qed.

(** ... or with other saved registers. *)
Definition with_context (p : process_t) (ctx : list byte) : process_t :=
  {| p_pid := p_pid p; p_context := ctx; p_space := p_space p |}.

Lemma replace_context_wf s p ctx l1 l2 g m :
  system_wf s -> s_procs s = l1 ++ p :: l2 ->
  system_wf {| s_engine := g; s_pm_ready := s_pm_ready s; s_procs := l1 ++ with_context p ctx :: l2;
               s_mem := m |}.
Proof.
  intros Hwf El. apply retagged_wf; [exact Hwf| |].
  - rewrite El. apply Forall2_app; [apply retagged_all|]. apply Forall2_cons. split; [|apply retagged_all].
    exact (retagged_refl p).
  - intros q sq Hq Hs. apply elem_of_app in Hq as [Hq|Hq]; [|apply elem_of_cons in Hq as [->|Hq]].
    + apply (wf_spaces s Hwf q sq); [rewrite El; set_solver | exact Hs].
    + apply (wf_spaces s Hwf p sq); [rewrite El; set_solver | exact Hs].
    + apply (wf_spaces s Hwf q sq); [rewrite El; set_solver | exact Hs].
Qed.

(** *** A store does not touch a clean page *)
Lemma page_record_entry mem sp wa r :
  page_record mem sp wa = Some r ->
  exists e, page_tables sp !! pte_index wa.2 = & e /\ pte_has e PAGE_PRESENT = true /\
    (if wa.1 then pte_has e PAGE_SNAPSHOT_COW = true else True).
Proof.
  unfold page_record, vmm_get_page_table, checkpoint_page_action.
  destruct (page_tables sp !! pte_index wa.2) as [e|]; [|discriminate].
  intros H. exists e. split; [reflexivity|]. destruct (pte_has e PAGE_PRESENT); [|discriminate].
  split; [reflexivity|]. destruct (wa.1); [|exact I].
  destruct (pte_has e PAGE_SNAPSHOT_COW); [reflexivity | discriminate].
Qed.

Lemma page_record_frame mem mem' sp (wa : bool * Z) :
  Z.land wa.2 (PAGE_SIZE - 1) = 0 ->
  (forall e, page_tables sp !! pte_index wa.2 = & e -> pte_has e PAGE_PRESENT = true ->
     (if wa.1 then pte_has e PAGE_SNAPSHOT_COW = true else True) ->
     mem' !! pte_to_phys e = mem !! pte_to_phys e) ->
  page_record mem' sp wa = page_record mem sp wa.
Proof.
  intros Ha Hm. destruct (page_record mem' sp wa) as [r|] eqn:E.
  - destruct (page_record_entry _ _ _ _ E) as (e & He & Hp & Hc). revert E.
    unfold page_record, vmm_get_page_table. rewrite He, (physical_addr sp _ e Ha He Hp).
    unfold frame_at. rewrite (Hm e He Hp Hc). intros <-. reflexivity.
  - revert E. unfold page_record. destruct (vmm_get_page_table _ _); [|reflexivity].
    destruct (decide _); [reflexivity|]. destruct (_ =? 0); [reflexivity | discriminate].
Qed.

Lemma store_clean s p sp k e data :
  system_wf s -> p ∈ s_procs s -> p_space p = & sp -> page_tables sp !! k = & e -> k < 2 ^ 35 ->
  pte_has e PAGE_PRESENT = true -> pte_has e PAGE_WRITABLE = true ->
  mjoin (clean_process (<[pte_to_phys e := data]> (s_mem s)) <$> s_procs s) =
  mjoin (clean_process (s_mem s) <$> s_procs s).
Proof.
  intros Hwf Hp Hsp He Hk Hpres Hw. f_equal. apply list_fmap_ext. intros i q Hq.
  apply list_elem_of_lookup_2 in Hq. unfold clean_process. destruct (p_space q) as [sq|] eqn:Eq; [|reflexivity].
  pose proof (wf_spaces s Hwf q sq Hq Eq) as Hsq. pose proof (wf_spaces s Hwf p sp Hp Hsp) as Hspw.
  unfold clean_space. apply list_omap_ext, Forall_Forall2_diag, Forall_forall. intros wa Hwa.
  destruct (proj1 (Forall_forall _ _) (sp_user _ _ Hsq) wa Hwa) as [_ Hal].
  apply page_record_frame; [exact Hal|]. intros f Hf Hfp Hc.
  apply lookup_insert_ne. intros Heq.
  destruct (wf_frames s Hwf p q sp sq k (pte_index wa.2) e f) as [Epid Ek]; [assumption..|].
  assert (p = q) as <-.
  { pose proof (find_pid _ _ (wf_pids s Hwf) Hp) as F1. pose proof (find_pid _ _ (wf_pids s Hwf) Hq) as F2.
    rewrite Epid, F2 in F1. congruence. }
  rewrite Hsp in Eq. injection Eq as <-. rewrite <- Ek, He in Hf. injection Hf as <-.
  pose proof (sp_entries _ _ Hspw k e He Hpres) as He'. destruct wa as [[] a]; cbn [fst snd] in *.
  - rewrite (ent_exclusive _ _ _ He' Hw) in Hc. discriminate.
  - rewrite (ent_ro _ _ _ He') in Hw; [discriminate|]. exists a. split; [exact Hwa | symmetry; exact Ek].
Qed.

(** *** Resolving an entry removes exactly its record *)
Lemma omap_remove_one {A B K} (f g : A -> option B) (key : A -> K) (l : list A) x y :
  NoDup (key <$> l) -> x ∈ l -> f x = Some y -> g x = None ->
  (forall z, z ∈ l -> key z <> key x -> g z = f z) -> omap f l ≡ₚ y :: omap g l.
Proof.
  intros Hnd Hx Hf Hg Hsame. apply list_elem_of_split in Hx as (l1 & l2 & ->).
  rewrite fmap_app, fmap_cons in Hnd. apply NoDup_app in Hnd as (Hnd1 & Hnd2 & Hnd3).
  rewrite NoDup_cons in Hnd3. destruct Hnd3 as [Hx2 _].
  assert (forall l : list A, (forall z, z ∈ l -> z ∈ l1 ++ x :: l2 /\ key z <> key x) -> omap g l = omap f l) as Heq.
  { intros l Hl. induction l as [|z l IH]; [reflexivity|]. cbn [omap list_omap].
    destruct (Hl z) as [Hz Hk]; [left|]. rewrite (Hsame z Hz Hk).
    rewrite IH by (intros u Hu; apply Hl; right; exact Hu). reflexivity. }
  rewrite !omap_app. cbn [omap list_omap]. rewrite Hf, Hg.
  rewrite (Heq l1), (Heq l2).
  - symmetry. apply Permutation_middle.
  - intros z Hz. split; [set_solver|]. intros E. apply Hx2. rewrite <- E. apply list_elem_of_fmap_2, Hz.
  - intros z Hz. split; [set_solver|]. intros E. apply (Hnd2 (key z)); [apply list_elem_of_fmap_2, Hz|].
    rewrite E. left.
Qed.

Lemma page_record_ext mem sp sp' wa :
  owner_pid sp' = owner_pid sp -> page_tables sp' !! pte_index wa.2 = page_tables sp !! pte_index wa.2 ->
  page_record mem sp' wa = page_record mem sp wa.
Proof.
  intros Ho Hpt. unfold page_record, vmm_get_physical_addr, vmm_get_page_table. rewrite Ho, Hpt. reflexivity.
Qed.

(** The space after a write fault on a tagged page. *)
Definition resolve_space (sp : vm_space_t) (k e : Z) : vm_space_t :=
  with_tables sp (<[k := resolved_entry e]> (page_tables sp)).

Lemma resolve_clean mem pid sp a e :
  space_wf pid sp -> (true, a) ∈ space_pages sp -> page_tables sp !! pte_index a = & e ->
  pte_has e PAGE_PRESENT = true -> pte_has e PAGE_SNAPSHOT_COW = true ->
  clean_space mem sp ≡ₚ
    {| pg_pid := owner_pid sp; pg_virt_addr := a; pg_flags := 0; pg_data := frame_at mem (pte_to_phys e) |}
    :: clean_space mem (resolve_space sp (pte_index a) e).
Proof.
  intros Hwf Ha He Hp Hc. unfold clean_space.
  change (space_pages (resolve_space sp (pte_index a) e)) with (space_pages sp).
  destruct (proj1 (Forall_forall _ _) (sp_user _ _ Hwf) _ Ha) as [_ Hal].
  pose proof (sp_entries _ _ Hwf _ e He Hp) as Hent. destruct (resolved_bits e) as (R1 & R2 & R3).
  apply (omap_remove_one _ _ (fun wa => pte_index wa.2) _ (true, a)).
  - exact (sp_disjoint _ _ Hwf).
  - exact Ha.
  - unfold page_record. cbn [snd fst]. rewrite (physical_addr sp a e Hal He Hp). unfold vmm_get_page_table.
    rewrite He. unfold checkpoint_page_action. rewrite Hp, Hc. cbn.
    rewrite (proj2 (Z.eqb_neq _ _) (ent_phys _ _ _ Hent)). reflexivity.
  - unfold page_record, vmm_get_page_table, resolve_space, with_tables. cbn [snd fst page_tables].
    rewrite lookup_insert_eq. unfold checkpoint_page_action. rewrite R1, Hp, R3. reflexivity.
  - intros z _ Hz. cbn [snd] in Hz. apply page_record_ext; [reflexivity|].
    unfold resolve_space, with_tables. cbn [page_tables]. apply lookup_insert_ne. congruence.
Qed.

Lemma resolve_wf pid sp a e :
  space_wf pid sp -> (true, a) ∈ space_pages sp -> page_tables sp !! pte_index a = & e ->
  pte_has e PAGE_PRESENT = true ->
  space_wf pid (resolve_space sp (pte_index a) e) /\ same_frames sp (resolve_space sp (pte_index a) e).
Proof.
  intros Hwf Ha He Hp. destruct (resolved_bits e) as (R1 & R2 & R3). split.
  - constructor; [apply Hwf | apply Hwf | apply Hwf|]. intros k f. cbn [resolve_space with_tables page_tables].
    destruct (Z.eq_dec k (pte_index a)) as [->|Hk].
    + rewrite lookup_insert_eq. intros [= <-] _. pose proof (sp_entries _ _ Hwf _ e He Hp) as Hent.
      constructor; rewrite ?resolved_phys.
      * apply Hent.
      * auto.
      * rewrite R3. discriminate.
      * auto.
      * intros (b & Hb & Hbk). exfalso.
        assert ((false, b) = (true, a)) as E; [|discriminate].
        apply list_elem_of_lookup_1 in Hb as [i Hi]. apply list_elem_of_lookup_1 in Ha as [j Hj].
        assert (i = j) as ->; [|change (space_pages (resolve_space sp (pte_index a) e)) with (space_pages sp) in Hi; congruence].
        apply (proj1 (NoDup_alt _) (sp_disjoint _ _ Hwf) i j (pte_index a)); rewrite list_lookup_fmap.
        -- change (space_pages (resolve_space sp (pte_index a) e)) with (space_pages sp) in Hi. rewrite Hi. cbn. congruence.
        -- rewrite Hj. reflexivity.
    + rewrite lookup_insert_ne by congruence. intros Hf Hfp. destruct (sp_entries _ _ Hwf k f Hf Hfp).
      constructor; assumption.
  - intros k f. cbn [resolve_space with_tables page_tables]. destruct (Z.eq_dec k (pte_index a)) as [->|Hk].
    + rewrite lookup_insert_eq. intros [= <-]. exists e. rewrite resolved_phys. auto.
    + rewrite lookup_insert_ne by congruence. intros Hf. exists f. auto.
Qed.

(** *** Each step keeps the records *)
Lemma fault_records s p sp addr alloc ok g sp' :
  system_wf s -> p ∈ s_procs s -> p_space p = & sp -> 0 <= addr < 2 ^ 47 ->
  checkpoint_handle_write_fault alloc (s_engine s) (s_mem s) (& sp) addr = (ok, g, sp') ->
  (forall p sp k f, p ∈ s_procs s -> p_space p = & sp -> page_tables sp !! k = & f ->
     length (frame_at (s_mem s) (pte_to_phys f)) = 4096%nat) ->
  let s' := {| s_engine := g; s_pm_ready := s_pm_ready s;
               s_procs := set_space (p_pid p) sp' (s_procs s); s_mem := s_mem s |} in
  system_wf s' /\ stream_records s ≡ₚ stream_records s' /\ g_checkpoint g = g_checkpoint (s_engine s).
Proof.
  intros Hwf Hp Hsp Haddr Hf Hlen.
  destruct (set_space_split (s_procs s) p (wf_pids s Hwf) Hp) as (l1 & l2 & El & Hset).
  assert (with_space p (& sp) = p) as Hid by (unfold with_space; rewrite <- Hsp; destruct p; reflexivity).
  assert (forall b, (b, s_engine s, & sp) = (ok, g, sp') ->
    let s' := {| s_engine := g; s_pm_ready := s_pm_ready s;
                 s_procs := set_space (p_pid p) sp' (s_procs s); s_mem := s_mem s |} in
    system_wf s' /\ stream_records s ≡ₚ stream_records s' /\ g_checkpoint g = g_checkpoint (s_engine s)) as Hnop.
  { intros b [= _ <- <-]. rewrite Hset, Hid, <- El. destruct s. auto. }
  unfold checkpoint_handle_write_fault in Hf. rewrite page_base in Hf by lia.
  set (a := addr / 4096 * 4096) in *.
  pose proof (Z.mod_pos_bound addr 4096 ltac:(lia)) as Hmod. pose proof (Z.div_mod addr 4096 ltac:(lia)) as Hdm.
  assert (0 <= a < 2 ^ 47) as Ha by (unfold a; lia).
  assert (Z.land a (PAGE_SIZE - 1) = 0) as Hal by (rewrite page_offset; apply Z.mod_mul; lia).
  cbn [vmm_get_page_table] in Hf. destruct (page_tables sp !! pte_index a) as [e|] eqn:He; [|eauto].
  destruct (pte_has e PAGE_PRESENT) eqn:Hpres; cbn [negb orb] in Hf; [|eauto].
  destruct (pte_has e PAGE_SNAPSHOT_COW) eqn:Hcow; cbn [negb] in Hf; [|eauto].
  unfold checkpoint_capture_page in Hf. rewrite Hcow in Hf. cbn [negb] in Hf.
  destruct alloc; [|exact (Hnop _ Hf)].
  cbn [negb checkpoint_resolve_pte] in Hf. rewrite Hcow in Hf. injection Hf as _ <- <-.
  pose proof (wf_spaces s Hwf p sp Hp Hsp) as Hspw.
  destruct (ent_tagged _ _ _ (sp_entries _ _ Hspw _ e He Hpres) Hcow) as (b & Hb & Hbk).
  destruct (proj1 (Forall_forall _ _) (sp_user _ _ Hspw) _ Hb) as [Hbr Hbal]. cbn [snd] in Hbr, Hbal.
  assert (b = a) as -> by (apply index_inj; assumption).
  fold (resolved_entry e). fold (resolve_space sp (pte_index a) e).
  destruct (resolve_wf _ sp a e Hspw Hb He Hpres) as [Hspw' Hsf].
  cbv zeta. rewrite Hset. split; [|split; [|reflexivity]].
  - exact (replace_space_wf s p sp _ l1 l2 _ _ Hwf El Hsp Hsf eq_refl Hspw').
  - unfold stream_records, clean. cbn [s_engine s_procs s_mem push_capture with_captures g_captures].
    rewrite fmap_cons. rewrite El, !clean_split. unfold capture_record at 2. cbn [c_pid c_virt_addr c_flags c_data].
    rewrite take_ge by (rewrite (Hlen p sp _ e Hp Hsp He); lia).
    unfold clean_process at 2 5. cbn [with_space p_space]. rewrite Hsp.
    rewrite (resolve_clean (s_mem s) _ sp a e Hspw Hb He Hpres Hcow).
    cbn [app]. rewrite <- !Permutation_middle. reflexivity.
Qed.

(** Frames hold whole pages. *)
Definition pages_whole (s : system_t) : Prop :=
  map_Forall (fun _ data => length data = 4096%nat) (s_mem s).

Lemma frame_whole s f : pages_whole s -> length (frame_at (s_mem s) f) = 4096%nat.
Proof.
  intros H. unfold frame_at. destruct (s_mem s !! f) as [data|] eqn:E; [exact (H f data E)|].
  apply length_zeros.
Qed.

Inductive user_run : system_t -> system_t -> Prop :=
  | run_done s : user_run s s
  | run_step s s1 s2 : user_step s s1 -> pages_whole s1 -> user_run s1 s2 -> user_run s s2.

Lemma step_records s s' :
  system_wf s -> pages_whole s -> user_step s s' ->
  system_wf s' /\ stream_records s ≡ₚ stream_records s' /\
  g_checkpoint (s_engine s') = g_checkpoint (s_engine s).
Proof.
  intros Hwf Hw [p sp addr e data Hp Hsp Haddr He Hpres Hwr -> | alloc p sp addr ok g sp' Hp Hsp Haddr Hf ->
                | p ctx l1 l2 El ->].
  - split; [destruct Hwf; constructor; assumption|]. split; [|reflexivity].
    unfold stream_records, clean. cbn [s_engine s_procs s_mem].
    rewrite (store_clean s p sp (pte_index addr) e data); try assumption; [reflexivity|].
    rewrite pte_index_user by exact Haddr. apply Z.div_lt_upper_bound; lia.
  - apply (fault_records s p sp addr alloc ok g sp'); try assumption.
    intros. apply frame_whole, Hw.
  - split; [exact (replace_context_wf s p ctx l1 l2 _ _ Hwf El)|]. split; [|reflexivity].
    unfold stream_records, clean. cbn [s_engine s_procs s_mem]. rewrite El, !clean_split. reflexivity.
Qed.

Lemma run_records s s' :
  user_run s s' -> system_wf s -> pages_whole s ->
  system_wf s' /\ stream_records s ≡ₚ stream_records s' /\
  g_checkpoint (s_engine s') = g_checkpoint (s_engine s) /\ pages_whole s'.
Proof.
  induction 1 as [s | s s1 s2 Hs Hw1 _ IH]; intros Hwf Hw; [auto|].
  destruct (step_records s s1 Hwf Hw Hs) as (Hwf1 & Hp1 & Hg1).
  destruct (IH Hwf1 Hw1) as (Hwf2 & Hp2 & Hg2 & Hw2). split; [exact Hwf2|].
  split; [etransitivity; eassumption|]. split; [congruence | exact Hw2].
Qed.
