(* ===== verification/CheckpointTakeSpec.v ===== *)
(** * What a checkpoint contains

    Marking at [checkpoint_take] turns every present page of a writable region
    into a clean one, so right after a take the records are the contexts and
    every mapped page; by CheckpointSpec they still are when writeback runs. *)
From Stdlib Require Import ZArith Lia Permutation.
From stdpp Require Import gmap.
From S2P Require Import Prelude.
From S2P Require Import BlockDevice AtomicStore SnapshotStore SnapshotStoreSpec Barrier Vmm VmmSpec Checkpoint CheckpointSpec.
Open Scope Z_scope.
Open Scope c_scope.

(** ** Taking a checkpoint *)

(** What marking does to the entries of writable regions. *)
Definition mark_entry (e : Z) : Z :=
  if pte_has e PAGE_PRESENT && pte_has e PAGE_WRITABLE then marked_entry e else e.

Lemma mark_entry_idempotent e : mark_entry (mark_entry e) = mark_entry e.
Proof.
  unfold mark_entry. destruct (pte_has e PAGE_PRESENT && pte_has e PAGE_WRITABLE) eqn:E; [|rewrite E; reflexivity].
  destruct (marked_bits e) as (_ & -> & _). rewrite andb_false_r. reflexivity.
Qed.

Lemma mark_page_lookup m pt a k :
  (mark_page (m, pt) a).2 !! k = (if decide (k = pte_index a) then mark_entry <$> pt !! k else pt !! k).
Proof.
  unfold mark_page. destruct (pt !! pte_index a) as [e|] eqn:He.
  2:{ case_decide as Hk; [|reflexivity]. subst k. cbn [snd]. rewrite He. reflexivity. }
  cbn [checkpoint_mark_pte]. unfold mark_entry.
  case_decide as Hk; [subst k; rewrite He|].
  - destruct (pte_has e PAGE_PRESENT) eqn:Ep, (pte_has e PAGE_WRITABLE) eqn:Ew; cbn; rewrite ?Ep, ?Ew; cbn;
      [apply lookup_insert_eq | exact He..].
  - destruct (negb _ || negb _); cbn [snd]; [reflexivity | apply lookup_insert_ne; congruence].
Qed.

Lemma mark_page_count m pt a : m <= (mark_page (m, pt) a).1.
Proof.
  unfold mark_page. destruct (pt !! pte_index a) as [e|]; [|reflexivity]. cbn [checkpoint_mark_pte].
  destruct (negb _ || negb _); cbn [fst]; lia.
Qed.

Lemma mark_pages_lookup l m pt k :
  (foldl mark_page (m, pt) l).2 !! k =
    (if decide (k ∈ pte_index <$> l) then mark_entry <$> pt !! k else pt !! k) /\
  m <= (foldl mark_page (m, pt) l).1.
Proof.
  revert m pt; induction l as [|a l IH]; intros m pt; [split; [reflexivity | cbn; lia]|].
  cbn [foldl]. pose proof (mark_page_lookup m pt a k) as Hl. pose proof (mark_page_count m pt a) as Hc.
  destruct (mark_page (m, pt) a) as [m1 pt1]. cbn [fst snd] in *.
  destruct (IH m1 pt1) as [IH1 IH2]. split; [|lia]. rewrite IH1, Hl, fmap_cons.
  destruct (decide (k ∈ pte_index <$> l)) as [Hin|Hin], (decide (k = pte_index a)) as [Hk|Hk].
  - rewrite decide_True by (right; exact Hin). destruct (pt !! k); cbn; [rewrite mark_entry_idempotent|]; reflexivity.
  - rewrite decide_True by (right; exact Hin). reflexivity.
  - subst k. rewrite decide_True by left. reflexivity.
  - rewrite decide_False by (intros [?|?]%elem_of_cons; contradiction). reflexivity.
Qed.

(** The indices of the pages of writable regions. *)
Definition rw_indices (rs : list vm_region_t) : list Z :=
  mjoin ((fun r => if region_writable r then pte_index <$> region_pages r else []) <$> rs).

Lemma rw_in_region sp k : k ∈ rw_indices (regions sp) <-> in_region sp true k.
Proof.
  unfold rw_indices, in_region, space_pages. induction (regions sp) as [|r rs IH]; [set_solver|].
  rewrite !fmap_cons. change (mjoin (?x :: ?l)) with (x ++ mjoin l). change (mjoin (?x :: ?l)) with (x ++ mjoin l).
  rewrite elem_of_app, IH. split.
  - intros [Hk | (a & Ha & E)]; [|exists a; split; [apply elem_of_app; right; exact Ha | exact E]].
    destruct (region_writable r) eqn:Er; [|set_solver].
    apply list_elem_of_fmap in Hk as (a & -> & Ha). exists a. split; [|reflexivity].
    apply elem_of_app; left. apply list_elem_of_fmap. exists a. auto.
  - intros (a & [Ha|Ha]%elem_of_app & E); [left | right; exists a; auto].
    apply list_elem_of_fmap in Ha as (b & [= E2 ->] & Hb). rewrite <- E2, <- E.
    apply list_elem_of_fmap. exists b. auto.
Qed.

Lemma mark_regions_lookup rs m pt k :
  (foldl mark_region (m, pt) rs).2 !! k =
    (if decide (k ∈ rw_indices rs) then mark_entry <$> pt !! k else pt !! k) /\
  m <= (foldl mark_region (m, pt) rs).1.
Proof.
  revert m pt; induction rs as [|r rs IH]; intros m pt; [split; [reflexivity | cbn; lia]|].
  cbn [foldl]. unfold rw_indices. rewrite fmap_cons. change (mjoin (?x :: ?l)) with (x ++ mjoin l).
  fold (rw_indices rs). unfold mark_region at 2 4. destruct (region_writable r) eqn:Er; cbn [negb]; [|apply IH].
  destruct (mark_pages_lookup (region_pages r) m pt k) as [H1 H2].
  destruct (foldl mark_page (m, pt) (region_pages r)) as [m1 pt1]. cbn [fst snd] in *.
  destruct (IH m1 pt1) as [IH1 IH2]. split; [|lia]. rewrite IH1, H1.
  destruct (decide (k ∈ rw_indices rs)) as [Hin|Hin], (decide (k ∈ pte_index <$> region_pages r)) as [Hk|Hk].
  - rewrite decide_True by (apply elem_of_app; left; exact Hk).
    destruct (pt !! k); cbn; [rewrite mark_entry_idempotent|]; reflexivity.
  - rewrite decide_True by (apply elem_of_app; right; exact Hin). reflexivity.
  - rewrite decide_True by (apply elem_of_app; left; exact Hk). reflexivity.
  - rewrite decide_False by (intros [?|?]%elem_of_app; contradiction). reflexivity.
Qed.

Lemma mark_space_spec sp epoch :
  exists m sp', checkpoint_mark_space (& sp) epoch = (m, & sp') /\ 0 <= m /\
    owner_pid sp' = owner_pid sp /\ regions sp' = regions sp /\
    forall k, page_tables sp' !! k =
      (if decide (k ∈ rw_indices (regions sp)) then mark_entry <$> page_tables sp !! k else page_tables sp !! k).
Proof.
  cbn [checkpoint_mark_space].
  pose proof (fun k => mark_regions_lookup (regions sp) 0 (page_tables sp) k) as H.
  destruct (foldl mark_region (0, page_tables sp) (regions sp)) as [m pt]. cbn [fst snd] in H.
  eexists m, _. split; [reflexivity|]. cbn [owner_pid regions page_tables].
  split; [exact (proj2 (H 0))|]. repeat (split; [reflexivity|]). intros k. exact (proj1 (H k)).
Qed.

(** ** The records of a marked space are its mapped pages *)
Definition expected_record (mem : phys_mem) (sp : vm_space_t) (wa : bool * Z) : option page :=
  match page_tables sp !! pte_index wa.2 with
  | Some e =>
      if pte_has e PAGE_PRESENT
      then Some {| pg_pid := owner_pid sp; pg_virt_addr := wa.2;
                   pg_flags := if wa.1 then 0 else CHECKPOINT_REC_READONLY;
                   pg_data := frame_at mem (pte_to_phys e) |}
      else None
  | NULL => None
  end.

(** Every mapped page of the process's regions, as memory stands. *)
Definition mapped_pages (mem : phys_mem) (p : process_t) : list page :=
  match p_space p with
  | Some sp => omap (expected_record mem sp) (space_pages sp)
  | NULL => []
  end.

Lemma marked_same e : pte_to_phys (mark_entry e) = pte_to_phys e /\
  pte_has (mark_entry e) PAGE_PRESENT = pte_has e PAGE_PRESENT.
Proof.
  unfold mark_entry. destruct (pte_has e PAGE_PRESENT && pte_has e PAGE_WRITABLE); [|auto].
  rewrite marked_phys. split; [reflexivity | apply marked_bits].
Qed.

(** An entry of a writable region is tagged afterwards. *)
Lemma mark_tags sp k e :
  entry_wf sp k e -> pte_has e PAGE_PRESENT = true -> in_region sp true k ->
  pte_has (mark_entry e) PAGE_WRITABLE = false /\ pte_has (mark_entry e) PAGE_SNAPSHOT_COW = true.
Proof.
  intros He Hp Hin. unfold mark_entry. rewrite Hp. cbn [andb].
  destruct (pte_has e PAGE_WRITABLE) eqn:Ew; [apply marked_bits|].
  destruct (ent_rw _ _ _ He Hin) as [E|E]; [congruence | auto].
Qed.

Section marked_space.
Context (sp sp' : vm_space_t) (pid : Z).
Hypothesis (Hwf : space_wf pid sp) (Ho : owner_pid sp' = owner_pid sp) (Hr : regions sp' = regions sp).
Hypothesis Hpt : forall k, page_tables sp' !! k =
  (if decide (k ∈ rw_indices (regions sp)) then mark_entry <$> page_tables sp !! k else page_tables sp !! k).

Lemma marked_frames : same_frames sp sp' /\ space_pages sp' = space_pages sp.
Proof using Hpt Hr.
  split; [|unfold space_pages; rewrite Hr; reflexivity]. intros k e. rewrite Hpt.
  destruct (decide _); [|intros H; exists e; auto]. destruct (page_tables sp !! k) as [f|]; [|discriminate].
  intros [= <-]. exists f. destruct (marked_same f). auto.
Qed.

Lemma marked_region b k : in_region sp' b k <-> in_region sp b k.
Proof using Hpt Hr. unfold in_region. rewrite (proj2 marked_frames). reflexivity. Qed.

Lemma marked_wf : space_wf pid sp'.
Proof using All.
  constructor.
  - rewrite Ho. apply Hwf.
  - rewrite (proj2 marked_frames). apply Hwf.
  - rewrite (proj2 marked_frames). apply Hwf.
  - intros k e. rewrite Hpt. destruct (decide _) as [Hin|Hin].
    + apply rw_in_region in Hin. destruct (page_tables sp !! k) as [f|] eqn:Hf; [|discriminate].
      intros [= <-] Hp. destruct (marked_same f) as [E1 E2]. rewrite E2 in Hp.
      pose proof (sp_entries _ _ Hwf k f Hf Hp) as He. destruct (mark_tags sp k f He Hp Hin) as [M1 M2].
      constructor; rewrite ?marked_region, ?M1, ?M2, ?E1; [apply He | discriminate | auto..].
    + intros Hf Hp. destruct (sp_entries _ _ Hwf k e Hf Hp). constructor; rewrite ?marked_region; auto.
Qed.

Lemma marked_records mem : clean_space mem sp' = omap (expected_record mem sp) (space_pages sp).
Proof using All.
  unfold clean_space. rewrite (proj2 marked_frames). apply list_omap_ext, Forall_Forall2_diag, Forall_forall.
  intros [b a] Hwa. destruct (proj1 (Forall_forall _ _) (sp_user _ _ Hwf) _ Hwa) as [_ Hal]. cbn [snd] in Hal.
  assert (in_region sp b (pte_index a)) as Hin by (exists a; auto).
  unfold expected_record, page_record. cbn [fst snd]. unfold vmm_get_page_table. rewrite Ho.
  assert (forall e e', page_tables sp !! pte_index a = & e -> page_tables sp' !! pte_index a = & e' ->
    pte_has e PAGE_PRESENT = true -> pte_to_phys e' = pte_to_phys e -> pte_has e' PAGE_PRESENT = true ->
    vmm_get_physical_addr (& sp') a = pte_to_phys e) as Hphys.
  { intros e e' _ He' _ <- Hp'. apply physical_addr; assumption. }
  destruct b.
  - specialize (Hpt (pte_index a)). rewrite (decide_True _ _ (proj2 (rw_in_region sp _) Hin)) in Hpt.
    destruct (page_tables sp !! pte_index a) as [e|] eqn:He; cbn in Hpt; rewrite Hpt; [|reflexivity].
    destruct (marked_same e) as [E1 E2]. unfold checkpoint_page_action. rewrite E2.
    destruct (pte_has e PAGE_PRESENT) eqn:Hp; cbn [negb]; [|reflexivity].
    pose proof (sp_entries _ _ Hwf _ e He Hp) as Hent. destruct (mark_tags sp _ e Hent Hp Hin) as [_ ->].
    rewrite (Hphys e _ eq_refl Hpt Hp E1 E2). rewrite (proj2 (Z.eqb_neq _ _) (ent_phys _ _ _ Hent)). reflexivity.
  - assert (page_tables sp' !! pte_index a = page_tables sp !! pte_index a) as E.
    { rewrite Hpt. destruct (decide _) as [Hrw|]; [|reflexivity]. apply rw_in_region in Hrw as (c & Hc & Hck).
      exfalso. destruct (proj1 (Forall_forall _ _) (sp_user _ _ Hwf) _ Hc) as [Hcr Hca].
      destruct (proj1 (Forall_forall _ _) (sp_user _ _ Hwf) _ Hwa) as [Har _]. cbn [snd] in *.
      assert (c = a) as -> by (apply index_inj; assumption).
      apply list_elem_of_lookup_1 in Hc as [i Hi]. apply list_elem_of_lookup_1 in Hwa as [j Hj].
      assert (i = j) as ->; [|congruence].
      apply (proj1 (NoDup_alt _) (sp_disjoint _ _ Hwf) i j (pte_index a)); rewrite list_lookup_fmap.
      - rewrite Hi. reflexivity.
      - rewrite Hj. reflexivity. }
    rewrite E. destruct (page_tables sp !! pte_index a) as [e|] eqn:He; [|reflexivity].
    unfold checkpoint_page_action. destruct (pte_has e PAGE_PRESENT) eqn:Hp; cbn [negb]; [|reflexivity].
    pose proof (sp_entries _ _ Hwf _ e He Hp) as Hent.
    rewrite (Hphys e e eq_refl E Hp eq_refl Hp).
    rewrite (proj2 (Z.eqb_neq _ _) (ent_phys _ _ _ Hent)). reflexivity.
Qed.
End marked_space.

(** ** The pass over the processes *)
Definition mark_process (epoch : Z) (p : process_t) : process_t :=
  with_space p (checkpoint_mark_space (p_space p) epoch).2.

(** The register record a take adds for a process: [alloc pid] is whether it
    could be allocated. *)
Definition context_captures (alloc : Z -> bool) (epoch : Z) (p : process_t) : list checkpoint_capture_t :=
  let n := Z.of_nat (length (p_context p)) in
  match p_space p with
  | Some _ =>
      if negb ((n =? 0) || (PAGE_SIZE <? n)) && alloc (p_pid p)
      then [ {| c_epoch := epoch; c_pid := p_pid p; c_flags := CHECKPOINT_REC_CONTEXT;
                c_virt_addr := CHECKPOINT_CONTEXT_VADDR; c_data := zero_padded 4096 (p_context p) |} ]
      else []
  | NULL => []
  end.

Lemma set_space_at pid sp l1 p l2 :
  p_pid p = pid -> pid ∉ p_pid <$> l1 -> set_space pid sp (l1 ++ p :: l2) = l1 ++ with_space p sp :: l2.
Proof.
  intros Hp. induction l1 as [|q l1 IH]; cbn [app set_space]; intros Hn.
  - rewrite Hp, Z.eqb_refl. unfold with_space. rewrite Hp. reflexivity.
  - rewrite fmap_cons, not_elem_of_cons in Hn. destruct Hn as [Hq Hn].
    rewrite (proj2 (Z.eqb_neq _ _)) by congruence. rewrite IH by exact Hn. reflexivity.
Qed.

Lemma capture_context_spec alloc epoch g p sp :
  p_space p = & sp -> current_epoch (g_checkpoint g) = epoch ->
  exists rc cnt,
    checkpoint_capture_context (alloc (p_pid p)) g (p_pid p) (& (p_context p)) (Z.of_nat (length (p_context p))) =
    (rc, with_captures g (context_captures alloc epoch p ++ g_captures g) cnt).
Proof.
  intros Hsp He. unfold checkpoint_capture_context, context_captures. rewrite Hsp.
  assert (g = with_captures g ([] ++ g_captures g) (g_capture_count g)) as Eg by (destruct g; reflexivity).
  destruct ((_ =? 0) || (_ <? _)); cbn [negb andb]; [do 2 eexists; f_equal; exact Eg|].
  destruct (alloc (p_pid p)); cbn [negb]; [|do 2 eexists; f_equal; exact Eg].
  unfold push_capture. rewrite He, take_ge by lia. do 2 eexists. reflexivity.
Qed.

Lemma take_fold alloc epoch old rest : forall done s spaces pages,
  s_pm_ready s = true -> s_procs s = done ++ rest -> NoDup (p_pid <$> done ++ rest) ->
  Forall (fun p => 0 < p_pid p < 2 ^ 32) rest -> current_epoch (g_checkpoint (s_engine s)) = old ->
  exists n m cnt,
    foldl (take_process alloc epoch) (s, spaces, pages) (p_pid <$> rest) =
    ({| s_engine := with_captures (s_engine s)
          (mjoin (context_captures alloc old <$> reverse rest) ++ g_captures (s_engine s)) cnt;
        s_pm_ready := true; s_procs := done ++ (mark_process epoch <$> rest); s_mem := s_mem s |}, n, m).
Proof.
  induction rest as [|p rest IH]; intros done s spaces pages Hr El Hnd Hu He.
  { exists spaces, pages, (g_capture_count (s_engine s)). cbn. destruct s as [[] ? ? ?]; cbn in *. subst. reflexivity. }
  apply Forall_cons in Hu as [Hp Hu]. rewrite fmap_cons. cbn [foldl].
  assert (p_pid p ∉ p_pid <$> done) as Hfresh.
  { rewrite fmap_app, fmap_cons in Hnd. apply NoDup_app in Hnd as (_ & Hd & _). intros Hin.
    apply (Hd _ Hin). left. }
  assert (pm_get_process s (p_pid p) = & p) as Hget.
  { unfold pm_get_process. rewrite Hr, (proj2 (Z.eqb_neq _ _)) by lia. cbn [negb orb].
    apply find_pid; rewrite El; [exact Hnd|]. apply elem_of_app; right; left. }
  assert (forall q, p_pid q = p_pid p -> NoDup (p_pid <$> (done ++ [q]) ++ rest)) as Hnd'.
  { intros q Hq. rewrite !fmap_app, fmap_cons, fmap_nil, Hq. rewrite <- app_assoc. cbn [app].
    rewrite fmap_app, fmap_cons in Hnd. exact Hnd. }
  rewrite reverse_cons, fmap_app, join_app. unfold take_process at 2. rewrite Hget.
  destruct (p_space p) as [sp|] eqn:Hsp.
  - destruct (mark_space_spec sp epoch) as (m & sp' & Hmark & Hm & _). rewrite Hmark.
    rewrite (proj2 (Z.ltb_ge m 0)) by lia. cbn [with_procs s_engine].
    destruct (capture_context_spec alloc old (s_engine s) p sp Hsp He) as (rc & cnt & ->).
    destruct (IH (done ++ [with_space p (& sp')])
                (with_engine (with_procs s (set_space (p_pid p) (& sp') (s_procs s)))
                   (with_captures (s_engine s) (context_captures alloc old p ++ g_captures (s_engine s)) cnt))
                (u64 (spaces + 1)) (u64 (pages + m))) as (n' & m' & cnt' & ->).
    + exact Hr.
    + cbn [with_engine with_procs s_procs]. rewrite El, set_space_at by auto. rewrite <- app_assoc. reflexivity.
    + apply Hnd'. reflexivity.
    + exact Hu.
    + exact He.
    + exists n', m', cnt'. cbn [with_engine with_procs s_engine s_mem with_captures g_captures].
      rewrite <- !app_assoc. rewrite list_fmap_singleton, fmap_cons.
      assert (mark_process epoch p = with_space p (& sp')) as ->
        by (unfold mark_process; rewrite Hsp, Hmark; reflexivity).
      change (mjoin [?x]) with (x ++ []). rewrite app_nil_r. reflexivity.
  - destruct (IH (done ++ [p]) s spaces pages) as (n' & m' & cnt' & ->); try assumption.
    + rewrite El, <- app_assoc. reflexivity.
    + apply Hnd'. reflexivity.
    + exists n', m', cnt'. rewrite list_fmap_singleton, fmap_cons.
      assert (mark_process epoch p = p) as ->
        by (unfold mark_process; rewrite Hsp; unfold with_space; cbn; rewrite <- Hsp; destruct p; reflexivity).
      assert (context_captures alloc old p = []) as -> by (unfold context_captures; rewrite Hsp; reflexivity).
      change (mjoin [[]]) with (@nil checkpoint_capture_t). rewrite app_nil_r, <- app_assoc. reflexivity.
Qed.

(** The two halves of a checkpoint: the registers and the memory. *)
Definition context_pages (alloc : Z -> bool) (s : system_t) : list page :=
  capture_record <$>
    mjoin (context_captures alloc (current_epoch (g_checkpoint (s_engine s))) <$> reverse (s_procs s)).
Definition memory_pages (s : system_t) : list page := mjoin (mapped_pages (s_mem s) <$> s_procs s).

Lemma mark_process_spec s epoch p :
  system_wf s -> p ∈ s_procs s ->
  retagged p (mark_process epoch p) /\
  (forall sp, p_space (mark_process epoch p) = & sp -> space_wf (p_pid p) sp) /\
  clean_process (s_mem s) (mark_process epoch p) = mapped_pages (s_mem s) p.
Proof.
  intros Hwf Hp. unfold retagged, mark_process, clean_process, mapped_pages. destruct (p_space p) as [sp|] eqn:Hsp.
  - destruct (mark_space_spec sp epoch) as (m & sp' & -> & _ & Ho & Hr & Hpt). cbn [snd with_space p_space p_pid].
    pose proof (wf_spaces s Hwf p sp Hp Hsp) as Hspw. split; [split; [reflexivity|]|split].
    + exact (marked_frames sp sp' Hr Hpt).
    + intros ? [= <-]. exact (marked_wf sp sp' _ Hspw Ho Hr Hpt).
    + exact (marked_records sp sp' _ Hspw Ho Hr Hpt (s_mem s)).
  - cbn. split_and!; [reflexivity | exact I | discriminate | reflexivity].
Qed.

Lemma take_spec alloc s epoch s1 :
  system_wf s -> checkpoint_take alloc s = (epoch, s1) ->
  system_wf s1 /\ s_mem s1 = s_mem s /\ current_epoch (g_checkpoint (s_engine s1)) = epoch /\
  epoch = u64 (current_epoch (g_checkpoint (s_engine s)) + 1) /\
  epoch_open (g_checkpoint (s_engine s1)) = true /\ g_barrier (s_engine s1) = g_barrier (s_engine s) /\
  stream_records s1 = context_pages alloc s ++ (capture_record <$> g_captures (s_engine s)) ++ memory_pages s.
Proof.
  intros Hwf. unfold checkpoint_take. rewrite process_list_wf by exact Hwf.
  destruct (take_fold alloc (u64 (current_epoch (g_checkpoint (s_engine s)) + 1)) _ (s_procs s) [] s 0 0
              (wf_ready s Hwf) eq_refl (wf_pids s Hwf) (wf_users s Hwf) eq_refl) as (n & m & cnt & ->).
  intros [= <- <-]. cbn [app].
  assert (forall p, p ∈ s_procs s -> _) as Hmark by (intros p Hp; exact (mark_process_spec s (u64 (current_epoch (g_checkpoint (s_engine s)) + 1)) p Hwf Hp)).
  split_and!; try reflexivity.
  - rewrite <- (wf_ready s Hwf). apply (retagged_wf s); [exact Hwf| |].
    + apply Forall2_fmap_r, Forall_Forall2_diag, Forall_forall. intros p Hp. apply Hmark, Hp.
    + intros q sp (p & -> & Hp)%list_elem_of_fmap Hsp. exact (proj1 (proj2 (Hmark p Hp)) sp Hsp).
  - unfold stream_records, clean, context_pages, memory_pages.
    cbn [with_engine with_state with_captures s_engine s_procs s_mem g_captures].
    rewrite fmap_app, <- app_assoc. do 2 f_equal. f_equal. rewrite <- list_fmap_compose.
    apply list_fmap_ext. intros i p Hp%list_elem_of_lookup_2. apply Hmark, Hp.
Qed.

(** ** Every record fits the store *)
Lemma context_pages_ok alloc s : system_wf s -> Forall page_ok (context_pages alloc s).
Proof.
  intros Hwf. apply Forall_fmap, Forall_forall. intros c Hc.
  apply list_elem_of_join in Hc as (l & Hc & (p & -> & Hp)%list_elem_of_fmap).
  apply elem_of_reverse in Hp; rewrite reverse_involutive in Hp. pose proof (proj1 (Forall_forall _ _) (wf_users s Hwf) p Hp) as Hpid. cbn in Hpid.
  revert Hc. unfold context_captures. destruct (p_space p); [|set_solver].
  destruct (negb _ && _) eqn:E; [|set_solver]. intros ->%list_elem_of_singleton. zbool.
  unfold compose, capture_record, page_ok, fits.
  cbn [pg_pid pg_virt_addr pg_flags pg_data c_pid c_virt_addr c_flags c_data].
  unfold CHECKPOINT_CONTEXT_VADDR, CHECKPOINT_REC_CONTEXT.
  split_and!; try lia. unfold zero_padded. rewrite length_app, length_zeros. unfold PAGE_SIZE in *. lia.
Qed.

Lemma memory_pages_ok s : system_wf s -> pages_whole s -> Forall page_ok (memory_pages s).
Proof.
  intros Hwf Hw. apply Forall_forall. intros r Hr.
  apply list_elem_of_join in Hr as (l & Hr & (p & -> & Hp)%list_elem_of_fmap).
  pose proof (proj1 (Forall_forall _ _) (wf_users s Hwf) p Hp) as Hpid. cbn in Hpid.
  revert Hr. unfold mapped_pages. destruct (p_space p) as [sp|] eqn:Hsp; [|set_solver].
  pose proof (wf_spaces s Hwf p sp Hp Hsp) as Hspw.
  intros (wa & Hwa & Hr)%list_elem_of_omap. destruct (proj1 (Forall_forall _ _) (sp_user _ _ Hspw) _ Hwa) as [Ha _].
  revert Hr. unfold expected_record. destruct (page_tables sp !! _) as [e|]; [|discriminate].
  destruct (pte_has e PAGE_PRESENT); [|discriminate]. intros [= <-].
  unfold page_ok, fits. cbn [pg_pid pg_virt_addr pg_flags pg_data]. rewrite (sp_owner _ _ Hspw).
  unfold CHECKPOINT_REC_READONLY. pose proof (Z.pow_le_mono_r 2 47 64 ltac:(lia) ltac:(lia)).
  split_and!; try (destruct (wa.1); lia). apply frame_whole, Hw.
Qed.

(** ** Writeback is a store session *)
Lemma writeback_save {D W} (st : snapshot_store_t D) hook d w0 (world : W) s :
  system_wf s ->
  let '(rc, d') := save st d (current_epoch (g_checkpoint (s_engine s)), stream_records s) in
  exists rc' world' s',
    checkpoint_writeback true hook (& st) d w0 world s = (rc', d', world', s') /\
    (rc' = CHECKPOINT_OK <-> rc = SNAPSHOT_OK) /\
    (if rc =? SNAPSHOT_OK then g_captures (s_engine s') = [] /\ epoch_open (g_checkpoint (s_engine s')) = false
     else s' = s /\ world' = world).
Proof.
  intros Hwf. unfold save, checkpoint_writeback. cbn [fst snd].
  unfold snapshot_store_begin. destruct (st_initialized st); cbn [negb].
  2:{ eexists _, _, _. split; [reflexivity|]. split; [split; discriminate | cbn; auto]. }
  destruct (read_superblock st d) as [rc0 sb]. cbn [negb Z.eqb SNAPSHOT_OK].
  rewrite (stream_pages_adds st d _ s Hwf). destruct (add_pages st d _ _) as [[rc d1] w1].
  destruct (Z.eqb_spec rc SNAPSHOT_OK) as [->|Hrc]; cbn [negb].
  2:{ rewrite (proj2 (Z.eqb_neq rc _) Hrc). eexists _, _, _. split; [reflexivity|].
      split; [split; [discriminate | contradiction] | auto]. }
  cbn [Z.eqb CHECKPOINT_OK negb]. destruct (snapshot_store_commit st d1 w1) as [[rc d2] w2].
  destruct (Z.eqb_spec rc SNAPSHOT_OK) as [->|Hrc]; cbn [negb].
  2:{ rewrite ?(proj2 (Z.eqb_neq rc _) Hrc). eexists _, _, _. split; [reflexivity|].
      split; [split; [discriminate | contradiction] | auto]. }
  eexists _, _, _. split; [reflexivity|]. split; [split; reflexivity | cbn; auto].
Qed.

(** From an engine without captures: what writeback will write. *)
Lemma take_run alloc s epoch s1 s2 :
  system_wf s -> pages_whole s -> g_captures (s_engine s) = [] ->
  checkpoint_take alloc s = (epoch, s1) -> user_run s1 s2 ->
  system_wf s2 /\ current_epoch (g_checkpoint (s_engine s2)) = epoch /\
  stream_records s2 ≡ₚ context_pages alloc s ++ memory_pages s /\
  forall D (st : snapshot_store_t D), ckpt_ok st (epoch, stream_records s2).
Proof.
  intros Hwf Hw Hcap Htake Hrun.
  destruct (take_spec alloc s epoch s1 Hwf Htake) as (Hwf1 & Hm & He & Hepoch & _ & _ & Hrec).
  rewrite Hcap in Hrec. cbn [fmap list_fmap app] in Hrec.
  assert (pages_whole s1) as Hw1 by (unfold pages_whole; rewrite Hm; exact Hw).
  destruct (run_records s1 s2 Hrun Hwf1 Hw1) as (Hwf2 & Hperm & Hg & _).
  split_and!; [exact Hwf2 | rewrite Hg; exact He | rewrite <- Hperm, Hrec; reflexivity|].
  intros D st. split; [rewrite Hepoch; apply u64_range|]. cbn [snd]. rewrite <- Hperm, Hrec. apply Forall_app. split.
  - apply context_pages_ok, Hwf.
  - apply memory_pages_ok; assumption.
Qed.

(** ** The theorems *)

(** A store with one page of memory, one process and room for two records. *)
Definition example_space : vm_space_t :=
  {| owner_pid := 3; regions := [ {| start_addr := 4096; end_addr := 8192; region_flags := VMM_FLAG_WRITE |} ];
     checkpoint_epoch := 0; page_tables := {[ 1 := 0x10003 ]} |}.
Definition example_engine : engine_t :=
  {| g_checkpoint := {| current_epoch := 4; spaces_marked := 0; pages_marked := 0; total_takes := 0;
                        epoch_open := false |};
     g_captures := []; g_capture_count := 0; g_timer_enabled := true; g_timer_interval := 1; g_timer_ticks := 0;
     g_barrier := {| cb_state := CHECKPOINT_BARRIER_IDLE; cb_ncpus := 1; cb_parked := 0; cb_is_parked := all_running |} |}.
Definition example_system : system_t :=
  {| s_engine := example_engine; s_pm_ready := true;
     s_procs := [ {| p_pid := 3; p_context := [Byte.x07; Byte.x09]; p_space := & example_space |} ];
     s_mem := ∅ |}.

Lemma example_pages : space_pages example_space = [(true, 4096)].
Proof. reflexivity. Qed.

Lemma example_wf : system_wf example_system.
Proof.
  constructor; [reflexivity | vm_compute; lia | repeat constructor; set_solver | repeat constructor; cbn; lia | |].
  - intros p sp ->%list_elem_of_singleton [= <-]. constructor; [reflexivity | | |].
    + rewrite example_pages. repeat constructor; cbn; lia.
    + rewrite example_pages. apply NoDup_singleton.
    + intros k e. cbn [page_tables example_space]. intros [<- <-]%lookup_singleton_Some _.
      assert (in_region example_space true 1) as Hin by (exists 4096; rewrite example_pages; split; [left | reflexivity]).
      constructor; [vm_compute; discriminate | reflexivity | intros _; exact Hin | left; reflexivity |].
      intros (a & Ha & _). rewrite example_pages in Ha. apply list_elem_of_singleton in Ha. discriminate.
  - intros p1 p2 sp1 sp2 k1 k2 e1 e2 ->%list_elem_of_singleton ->%list_elem_of_singleton [= <-] [= <-].
    cbn [page_tables example_space]. intros [<- <-]%lookup_singleton_Some [<- <-]%lookup_singleton_Some. auto.
Qed.

(** C2: a checkpoint is the memory and the registers of one instant.  The
    processes have no page shared or left read-only by a fork and no capture
    of an earlier epoch waits; between [checkpoint_take] and writeback they
    store to pages, take write faults and have registers switched (nothing is
    mapped, unmapped or forked).  On a device whose reads succeed, whichever
    write of the writeback fails, the disk afterwards holds the checkpoint it
    held before or one whose records are exactly the saved contexts and the
    mapped pages as they were at the take; an acknowledged writeback leaves
    the new one, with the epoch closed, and a failed one the engine as it was. *)
Theorem checkpoint_consistent {D W} (dev : fat_block_device_t D) `{!BlockDevice dev} (st : snapshot_store_t D)
    (d : D) (hook : ptr (Z -> W -> Z * W)) (w0 : snapshot_writer_t) (world : W)
    (alloc : Z -> bool) (s s1 s2 : system_t) (epoch : Z) :
  store_wf dev st -> bd_inv d -> system_wf s -> pages_whole s -> g_captures (s_engine s) = [] ->
  checkpoint_take alloc s = (epoch, s1) -> user_run s1 s2 ->
  let '(rc, d', _, s3) := checkpoint_writeback true hook (& st) d w0 world s2 in
  exists recs, recs ≡ₚ context_pages alloc s ++ memory_pages s /\
    (checkpoint_view st d' = checkpoint_view st d \/ checkpoint_view st d' = inr (epoch, recs)) /\
    (if rc =? CHECKPOINT_OK
     then checkpoint_view st d' = inr (epoch, recs) /\ g_captures (s_engine s3) = [] /\
          epoch_open (g_checkpoint (s_engine s3)) = false
     else s3 = s2).
Proof.
  intros Hst Hd Hwf Hw Hcap Htake Hrun.
  destruct (take_run alloc s epoch s1 s2 Hwf Hw Hcap Htake Hrun) as (Hwf2 & He & Hrec & Hok). specialize (Hok D st).
  pose proof (writeback_save st hook d w0 world s2 Hwf2) as Hsave. rewrite He in Hsave.
  pose proof (snapshot_atomic_store dev st Hst) as A.
  pose proof (publish_atomic d _ Hd Hok) as Hat. pose proof (publish_durable d _ Hd Hok) as Hdur.
  destruct (save st d _) as [rc d']. destruct Hsave as (rc' & world' & s' & -> & Hrc & Hs').
  exists (stream_records s2). split; [exact Hrec|]. split; [exact Hat|].
  destruct (Z.eqb_spec rc' CHECKPOINT_OK) as [E|E].
  - apply Hrc in E. subst rc. split; [apply Hdur; reflexivity | exact Hs'].
  - destruct (Z.eqb_spec rc SNAPSHOT_OK) as [E2|]; [apply Hrc in E2; contradiction | apply Hs'].
Qed.

(** The process writes to its page after the take: a fault, then the store. *)
Definition example_taken : system_t := (checkpoint_take (fun _ => true) example_system).2.
Definition example_faulted : system_t :=
  let sp := p_space <$> head (s_procs example_taken) in
  let '(_, g, sp) := checkpoint_handle_write_fault true (s_engine example_taken) (s_mem example_taken) (mjoin sp) 4100 in
  {| s_engine := g; s_pm_ready := true; s_procs := set_space 3 sp (s_procs example_taken); s_mem := s_mem example_taken |}.
Definition example_written : system_t :=
  {| s_engine := s_engine example_faulted; s_pm_ready := true; s_procs := s_procs example_faulted;
     s_mem := <[0x10000 := replicate 4096 Byte.x41]> (s_mem example_faulted) |}.

Lemma example_run : user_run example_taken example_written.
Proof.
  apply (run_step _ example_faulted); [|intros k e H; destruct (lookup_empty_Some k e H) |].
  - set (sp := {| owner_pid := 3; regions := regions example_space; checkpoint_epoch := 5;
                  page_tables := {[ 1 := 0x10201 ]} |}).
    eapply (user_fault _ _ true {| p_pid := 3; p_context := [Byte.x07; Byte.x09]; p_space := & sp |} sp 4100).
    + left.
    + reflexivity.
    + lia.
    + reflexivity.
    + reflexivity.
  - apply (run_step _ example_written); [| |constructor].
    + set (sp := {| owner_pid := 3; regions := regions example_space; checkpoint_epoch := 5;
                    page_tables := {[ 1 := 0x10003 ]} |}).
      apply (user_store _ _ {| p_pid := 3; p_context := [Byte.x07; Byte.x09]; p_space := & sp |} sp 4100 0x10003
               (replicate 4096 Byte.x41)); try reflexivity; [left | lia].
    + intros k e H0. change (<[0x10000 := replicate 4096 Byte.x41]> (s_mem example_faulted) !! k = & e) in H0.
      revert H0. intros [[_ <-] | [_ H]]%lookup_insert_Some; [apply length_replicate | destruct (lookup_empty_Some k e H)].
Qed.

Lemma checkpoint_consistent_witness :
  let '(rc, d', _, s3) := checkpoint_writeback true (& (fun e w => (0, e :: w))) (& (example_store (cut_device ramdisk_device)))
                            (3, ramdisk_fresh) writer_none [] example_written in
  exists recs, recs ≡ₚ context_pages (fun _ => true) example_system ++ memory_pages example_system /\
    (checkpoint_view (example_store (cut_device ramdisk_device)) d' =
       checkpoint_view (example_store (cut_device ramdisk_device)) (3, ramdisk_fresh) \/
     checkpoint_view (example_store (cut_device ramdisk_device)) d' = inr (5, recs)) /\
    (if rc =? CHECKPOINT_OK
     then checkpoint_view (example_store (cut_device ramdisk_device)) d' = inr (5, recs) /\
          g_captures (s_engine s3) = [] /\ epoch_open (g_checkpoint (s_engine s3)) = false
     else s3 = example_written).
Proof.
  apply (checkpoint_consistent (cut_device ramdisk_device) (example_store (cut_device ramdisk_device))
           (3, ramdisk_fresh) (& (fun e w => (0, e :: w))) writer_none [] (fun _ => true)
           example_system example_taken example_written 5).
  - exact example_cut_wf.
  - exact ramdisk_fresh_inv.
  - exact example_wf.
  - intros k e H. destruct (lookup_empty_Some k e H).
  - reflexivity.
  - reflexivity.
  - exact example_run.
Defined.

(** C28: on a device without I/O errors, a checkpoint that fits the slot is
    written back and acknowledged, however many pages were written to since
    (same processes and same steps as in [checkpoint_consistent]). *)
Theorem checkpoint_durable {D W} (dev : fat_block_device_t D) `{!BlockDevice dev, !ReliableDevice dev}
    (st : snapshot_store_t D) (d : D) (hook : ptr (Z -> W -> Z * W)) (w0 : snapshot_writer_t) (world : W)
    (alloc : Z -> bool) (s s1 s2 : system_t) (epoch : Z) :
  store_wf dev st -> bd_inv d -> system_wf s -> pages_whole s -> g_captures (s_engine s) = [] ->
  checkpoint_take alloc s = (epoch, s1) -> user_run s1 s2 ->
  Z.of_nat (length (context_pages alloc s ++ memory_pages s)) <= st_max_records st ->
  exists d' world' s3, checkpoint_writeback true hook (& st) d w0 world s2 = (CHECKPOINT_OK, d', world', s3).
Proof.
  intros Hst Hd Hwf Hw Hcap Htake Hrun Hlen.
  destruct (take_run alloc s epoch s1 s2 Hwf Hw Hcap Htake Hrun) as (Hwf2 & He & Hrec & Hok). specialize (Hok D st).
  pose proof (writeback_save st hook d w0 world s2 Hwf2) as Hsave. rewrite He in Hsave.
  assert ((save st d (epoch, stream_records s2)).1 = SNAPSHOT_OK) as Hrc.
  { apply (save_reliable Hst); [exact Hd | exact Hok|]. cbn [snd]. rewrite Hrec. exact Hlen. }
  destruct (save st d _) as [rc d']. destruct Hsave as (rc' & world' & s' & -> & Hrc' & _).
  apply Hrc' in Hrc. subst rc'. eauto.
Qed.

Lemma checkpoint_durable_witness :
  exists d' world' s3,
    checkpoint_writeback true NULL (& (example_store ramdisk_device)) ramdisk_fresh writer_none tt example_written =
    (CHECKPOINT_OK, d', world', s3).
Proof.
  apply (checkpoint_durable ramdisk_device (example_store ramdisk_device) ramdisk_fresh NULL writer_none tt
           (fun _ => true) example_system example_taken example_written 5).
  - exact example_store_wf.
  - exact ramdisk_fresh_inv.
  - exact example_wf.
  - intros k e H. destruct (lookup_empty_Some k e H).
  - reflexivity.
  - reflexivity.
  - exact example_run.
  - vm_compute. discriminate.
Defined.
