(* ===== verification/CheckpointRestore.v ===== *)
(** * Restoring a checkpoint (kernel/checkpoint.c, second half)

    The restore loop replays the records of the loaded checkpoint through a
    callback; the kernel's callback rebuilds one address space per pid and
    stashes the saved contexts, and the registrar puts the processes back.
    The process table itself ([process_get_by_pid], [pm_table_add_process]) is
    not in the repository: it is a parameter. *)
From Stdlib Require Import ZArith Lia String.
From stdpp Require Import gmap.
From S2P Require Import Prelude.
From S2P Require Import BlockDevice SnapshotStore Barrier Vmm Checkpoint ExtState.
Open Scope Z_scope.
Open Scope c_scope.

Definition CHECKPOINT_CONTEXT_MAX : Z := 256.
Definition CHECKPOINT_RESTORE_MAX_PROCS : Z := 64.
Definition CHECKPOINT_STORE_BASE_SECTOR : Z := 0.
Definition CHECKPOINT_STORE_SLOT_SECTORS : Z := 256.

(** ** The restore loop *)
Section restore.
Context {D A : Type}.
Variable apply : A -> snapshot_page_record_t -> Z * A.

(** [while (snapshot_reader_next(&reader, &rec) == SNAPSHOT_OK)]: the error
    code or [CHECKPOINT_OK], and the records applied; [None] is out of fuel. *)
Fixpoint restore_loop (store : snapshot_store_t D) (d : D) (reader : ptr snapshot_reader_t) (ctx : A)
    (restored : Z) (fuel : nat) : option (Z * Z * A) :=
  match fuel with
  | O => None
  | S fuel =>
      match snapshot_reader_next store d reader true with
      | (_, reader, Some rec) =>
          let '(rc, ctx) := apply ctx rec in
          if negb (rc =? CHECKPOINT_OK) then Some (rc, restored, ctx)
          else restore_loop store d reader ctx (restored + 1) fuel
      | (_, _, NULL) => Some (CHECKPOINT_OK, restored, ctx)
      end
  end.

Definition resume_at (g : engine_t) (epoch : Z) : engine_t :=
  let c := g_checkpoint g in
  with_state g {| current_epoch := epoch; spaces_marked := spaces_marked c; pages_marked := pages_marked c;
                  total_takes := total_takes c; epoch_open := false |}.

(** [crc_ok]: the load's CRC buffer; [alloc]: the page buffer. *)
Definition checkpoint_restore (crc_ok alloc : bool) (store : ptr (snapshot_store_t D)) (d : D) (ctx : A)
    (g : engine_t) (fuel : nat) : option (Z * A * engine_t) :=
  match store with
  | NULL => Some (CHECKPOINT_ERR_PARAM, ctx, g)
  | Some st =>
      match snapshot_store_load crc_ok store d (& reader_zero) with
      | (rc, reader) =>
          if negb (rc =? SNAPSHOT_OK) then Some (CHECKPOINT_ERR_NO_CHECKPOINT, ctx, g)
          else if negb alloc then Some (CHECKPOINT_ERR_PARAM, ctx, g)
          else
            match restore_loop st d reader ctx 0 fuel with
            | None => None
            | Some (rc, restored, ctx) =>
                if negb (rc =? CHECKPOINT_OK) then Some (rc, ctx, g)
                else Some (restored, ctx, resume_at g (match reader with Some r => r_epoch r | NULL => 0 end))
            end
      end
  end.
End restore.

(** ** Rebuilding the processes *)
Record checkpoint_restored_process_t := {
  rp_pid : Z;
  rp_space : ptr vm_space_t;
  rp_context : list byte;
  rp_context_size : Z;
  rp_has_context : bool }.

(** [checkpoint_restore_ctx_t]: the entries in use. *)
Abbreviation checkpoint_restore_ctx_t := (list checkpoint_restored_process_t) (only parsing).

(** The first entry with this pid from index [i] on. *)
Fixpoint entry_index (procs : checkpoint_restore_ctx_t) (pid : Z) (i : nat) : option nat :=
  match procs with
  | [] => None
  | e :: procs => if rp_pid e =? pid then Some i else entry_index procs pid (S i)
  end.

(** The entry's index.  The context bytes of a new entry are not set: they
    are read only once [rp_has_context] is. *)
Definition restore_entry_for (c : checkpoint_restore_ctx_t) (pid : Z)
  : option nat * checkpoint_restore_ctx_t :=
  match entry_index c pid 0 with
  | Some i => (Some i, c)
  | None =>
      if CHECKPOINT_RESTORE_MAX_PROCS <=? Z.of_nat (length c) then (None, c)
      else (Some (length c),
            c ++ [ {| rp_pid := pid; rp_space := NULL; rp_context := zeros (Z.to_nat CHECKPOINT_CONTEXT_MAX);
                      rp_context_size := 0; rp_has_context := false |} ])
  end.

(** The frames the allocator can still hand out, and memory. *)
Record restore_world_t := { rw_frames : list Z; rw_mem : phys_mem }.

(** [create pid]: the address space could be created; [tables addr]: the page
    tables [addr] needs could be allocated. *)
Definition checkpoint_restore_apply_kernel (create tables : Z -> bool)
    (ctx : checkpoint_restore_ctx_t * restore_world_t) (rec : snapshot_page_record_t)
  : Z * (checkpoint_restore_ctx_t * restore_world_t) :=
  let '(c, w) := ctx in
  match restore_entry_for c (pr_pid rec) with
  | (None, c) => (CHECKPOINT_ERR_PARAM, (c, w))
  | (Some i, c) =>
      match c !! i with
      | None => (CHECKPOINT_ERR_PARAM, (c, w))
      | Some e =>
          if has_flag (pr_flags rec) CHECKPOINT_REC_CONTEXT then
            (CHECKPOINT_OK,
             (<[i := {| rp_pid := rp_pid e; rp_space := rp_space e;
                        rp_context := take (Z.to_nat CHECKPOINT_CONTEXT_MAX) (pr_page_data rec);
                        rp_context_size := CHECKPOINT_CONTEXT_MAX; rp_has_context := true |}]> c, w))
          else if has_flag (pr_flags rec) CHECKPOINT_REC_KERNEL then (CHECKPOINT_OK, (c, w))
          else
            let space := match rp_space e with
                         | Some sp => & sp
                         | NULL => vmm_create_address_space (create (pr_pid rec)) (pr_pid rec)
                         end in
            let set sp := <[i := {| rp_pid := rp_pid e; rp_space := sp; rp_context := rp_context e;
                                    rp_context_size := rp_context_size e;
                                    rp_has_context := rp_has_context e |}]> c in
            match space with
            | NULL => (CHECKPOINT_ERR_PARAM, (c, w))
            | Some _ =>
                let '(phys, frames) := vmm_alloc_page (rw_frames w) in
                if phys =? 0 then (CHECKPOINT_ERR_PARAM, (set space, {| rw_frames := frames; rw_mem := rw_mem w |}))
                else
                  let w := {| rw_frames := frames; rw_mem := <[phys := pr_page_data rec]> (rw_mem w) |} in
                  let page_flags := Z.lor (Z.lor PAGE_PRESENT PAGE_USER)
                    (if has_flag (pr_flags rec) CHECKPOINT_REC_READONLY then 0 else PAGE_WRITABLE) in
                  let '(rc, space) := vmm_map_page (tables (pr_virt_addr rec)) space (pr_virt_addr rec) phys page_flags in
                  (if negb (rc =? 0) then CHECKPOINT_ERR_PARAM else CHECKPOINT_OK, (set space, w))
            end
      end
  end.

(** ** Registering the processes *)
Section finalize.
Context {R : Type}.
Variable reg : R -> checkpoint_restored_process_t -> Z * R.

Fixpoint finalize_loop (procs : list checkpoint_restored_process_t) (ctx : R) (registered : Z) : Z * R :=
  match procs with
  | [] => (registered, ctx)
  | p :: procs =>
      let '(r, ctx) := reg ctx p in
      if negb (r =? CHECKPOINT_OK) then (r, ctx) else finalize_loop procs ctx (registered + 1)
  end.

(** [procs] with its count is the list of the first [count] entries. *)
Definition checkpoint_finalize_restore (procs : ptr (list checkpoint_restored_process_t)) (ctx : R) : Z * R :=
  match procs with
  | NULL => (CHECKPOINT_ERR_PARAM, ctx)
  | Some procs => finalize_loop procs ctx 0
  end.
End finalize.

(** The fields of [process_t] the registrar writes; an open descriptor is its
    [flags], a closed one ([fd < 0]) is [None]. *)
Inductive process_state_t :=
  | PROCESS_STATE_NEW | PROCESS_STATE_READY | PROCESS_STATE_RUNNING | PROCESS_STATE_BLOCKED
  | PROCESS_STATE_STOPPING | PROCESS_STATE_STOPPED | PROCESS_STATE_TERMINATING
  | PROCESS_STATE_ZOMBIE | PROCESS_STATE_TERMINATED.

Definition SIZEOF_PROCESS_CONTEXT : Z := 168.

Record kprocess_t := {
  kp_pid : Z;
  kp_space : ptr vm_space_t;
  kp_context : list byte;
  kp_fds : list (option Z);
  kp_state : process_state_t }.

(** kernel/process.c: creation by path is not supported, it always fails. *)
Definition process_create (name path : ptr string) : ptr kprocess_t := NULL.

Section registrar.
Context {T : Type}.
(** The process table: lookup by pid, and writing an entry (a new one goes
    through [pm_table_add_process]). *)
Variable process_get_by_pid : T -> Z -> ptr kprocess_t.
Variable write_process : T -> kprocess_t -> T.
Variable scheduler_add_process : T -> Z -> T.

Definition sever_fd (f : option Z) : option Z :=
  match f with Some flags => (extstate_sever_fd (& flags)).2 | None => None end.

Definition checkpoint_register_kernel (t : T) (rp : checkpoint_restored_process_t) : Z * T :=
  let proc := match process_get_by_pid t (rp_pid rp) with
              | Some p => & p
              | NULL =>
                  match process_create (& "restored"%string) (& ""%string) with
                  | NULL => NULL
                  | Some p => & {| kp_pid := rp_pid rp; kp_space := kp_space p; kp_context := kp_context p;
                                   kp_fds := kp_fds p; kp_state := kp_state p |}
                  end
              end in
  match proc with
  | NULL => (CHECKPOINT_ERR_PARAM, t)
  | Some p =>
      let space := match rp_space rp with Some sp => & sp | NULL => kp_space p end in
      let context :=
        if rp_has_context rp then
          let n := if rp_context_size rp <? SIZEOF_PROCESS_CONTEXT then rp_context_size rp
                   else SIZEOF_PROCESS_CONTEXT in
          take (Z.to_nat n) (rp_context rp) ++ drop (Z.to_nat n) (kp_context p)
        else kp_context p in
      let p := {| kp_pid := kp_pid p; kp_space := space; kp_context := context;
                  kp_fds := sever_fd <$> kp_fds p; kp_state := PROCESS_STATE_READY |} in
      (CHECKPOINT_OK, scheduler_add_process (write_process t p) (kp_pid p))
  end.

(** The registrar's result is not looked at. *)
Definition checkpoint_restore_boot {D} (crc_ok alloc : bool) (create tables : Z -> bool)
    (store : ptr (snapshot_store_t D)) (d : D) (w : restore_world_t) (g : engine_t) (t : T) (fuel : nat)
  : option (Z * restore_world_t * engine_t * T) :=
  match checkpoint_restore (checkpoint_restore_apply_kernel create tables) crc_ok alloc store d ([], w) g fuel with
  | None => None
  | Some (restored, (c, w), g) =>
      if restored <? 0 then Some (restored, w, g, t)
      else
        let '(_, t) := checkpoint_finalize_restore checkpoint_register_kernel (& c) t in
        Some (restored, w, g, t)
  end.
End registrar.

(** ** Boot wiring *)

(** The format and the timer: [crc_ok] is the load's buffer. *)
Definition checkpoint_persistence_init {D} (crc_ok : bool) (store : ptr (snapshot_store_t D))
    (dev : ptr (fat_block_device_t D)) (d : D) (base_sector slot_sectors interval_ticks : Z)
    (g : engine_t) (boot_store : ptr (snapshot_store_t D))
  : Z * ptr (snapshot_store_t D) * D * engine_t * ptr (snapshot_store_t D) :=
  match store, dev with
  | Some _, Some _ =>
      let '(rc, store) := snapshot_store_init store dev base_sector slot_sectors in
      if negb (rc =? SNAPSHOT_OK) then (CHECKPOINT_ERR_IO, store, d, g, boot_store)
      else
        let '(rc, _) := snapshot_store_load crc_ok store d (& reader_zero) in
        let '(rc, d) := if negb (rc =? SNAPSHOT_OK) then snapshot_store_format store d else (SNAPSHOT_OK, d) in
        if negb (rc =? SNAPSHOT_OK) then (CHECKPOINT_ERR_IO, store, d, g, boot_store)
        else (CHECKPOINT_OK, store, d, checkpoint_timer_configure g true interval_ticks, store)
  | _, _ => (CHECKPOINT_ERR_PARAM, store, d, g, boot_store)
  end.
