(* ===== verification/CheckpointRestoreSpec.v ===== *)
(** * A restored checkpoint is the machine as it was taken

    Replaying the records of a checkpoint gives every process the pages and
    the registers it had at [checkpoint_take]; together with
    CheckpointTakeSpec, a process survives the power cut unchanged. *)
From Stdlib Require Import ZArith Lia Permutation.
From stdpp Require Import gmap.
From S2P Require Import Prelude.
From S2P Require Import BlockDevice AtomicStore SnapshotStore SnapshotStoreSpec Barrier Vmm VmmSpec Checkpoint ExtState.
From S2P Require Import CheckpointRestore CheckpointSpec CheckpointTakeSpec.
Open Scope Z_scope.
Open Scope c_scope.

(** ** The loop applies the pages a reader finds *)
Section loop.
Context {D A : Type} (apply : A -> snapshot_page_record_t -> Z * A).
Implicit Types (store : snapshot_store_t D) (d : D).

(** The record a page is read back as; only the epoch is not the page's. *)
Definition page_rec (epoch : Z) (p : page) : snapshot_page_record_t :=
  {| pr_epoch := epoch; pr_pid := pg_pid p; pr_flags := pg_flags p; pr_virt_addr := pg_virt_addr p;
     pr_page_data := pg_data p |}.

Fixpoint apply_pages (ps : list page) (ctx : A) (restored : Z) : Z * Z * A :=
  match ps with
  | [] => (CHECKPOINT_OK, restored, ctx)
  | p :: ps =>
      let '(rc, ctx) := apply ctx (page_rec 0 p) in
      if negb (rc =? CHECKPOINT_OK) then (rc, restored, ctx) else apply_pages ps ctx (restored + 1)
  end.

Hypothesis apply_epoch : forall ctx e p, apply ctx (page_rec e p) = apply ctx (page_rec 0 p).

Lemma restore_loop_pages store d n : forall fuel r ctx restored,
  (n < fuel)%nat ->
  0 <= r_next_index r -> r_next_index r + Z.of_nat n = r_record_count r -> r_record_count r < 2 ^ 32 ->
  restore_loop apply store d (& r) ctx restored fuel =
  Some (apply_pages (read_pages store d (& r) n) ctx restored).
Proof using apply_epoch.
  induction n as [|n IH]; intros [|fuel] r ctx restored Hf Hn Hc Hm; try lia.
  { cbn [restore_loop read_pages apply_pages snapshot_reader_next].
    destruct (negb (r_valid r) || negb true); [reflexivity|].
    rewrite (proj2 (Z.leb_le _ _)) by lia. reflexivity. }
  cbn [restore_loop read_pages snapshot_reader_next].
  destruct (negb (r_valid r) || negb true); [reflexivity|].
  rewrite (proj2 (Z.leb_gt _ _)) by lia. destruct (dev_read _ _ _ _) as [rc m].
  destruct (negb (rc =? SNAPSHOT_OK)); [reflexivity|]. destruct (dev_read _ _ _ _) as [rc2 pg].
  destruct (negb (rc2 =? SNAPSHOT_OK)); [reflexivity|].
  cbn [apply_pages pr_pid pr_virt_addr pr_flags pr_page_data].
  match goal with |- context [apply ctx ?rec] =>
    change rec with (page_rec (rh_epoch (record_header_of_bytes m))
      {| pg_pid := rh_pid (record_header_of_bytes m); pg_virt_addr := rh_virt_addr (record_header_of_bytes m);
         pg_flags := rh_flags (record_header_of_bytes m); pg_data := pg |}) at 1 end.
  rewrite apply_epoch. destruct (apply ctx _) as [rc3 ctx']. destruct (negb (rc3 =? CHECKPOINT_OK)); [reflexivity|].
  apply IH; cbn; rewrite ?u32_id by lia; lia.
Qed.

(** A reader's record count fits its field. *)
Lemma record_count_range bs : 0 <= sh_record_count (slot_header_of_bytes bs) < 2 ^ 32.
Proof. apply (field_fits slot_header_layout bs 2 4). reflexivity. Qed.

(** What a successful load says about the reader. *)
Lemma load_reader store d r :
  snapshot_store_load true (& store) d (& reader_zero) = (SNAPSHOT_OK, & r) ->
  r_next_index r = 0 /\ 0 <= r_record_count r < 2 ^ 32 /\ r_record_count r <= st_max_records store.
Proof.
  unfold snapshot_store_load. destruct (st_initialized store); cbn [negb]; [|discriminate].
  destruct (read_superblock store d) as [rc sb].
  destruct (negb (rc =? SNAPSHOT_OK)) eqn:E1; [intros [= ->]; discriminate|].
  destruct (superblock_valid sb); cbn [negb]; [|discriminate].
  destruct (sb_kernel_version sb =? st_kernel_version store); cbn [negb]; [|discriminate].
  destruct (1 <? sb_active_slot sb); [discriminate|]. destruct (dev_read _ _ _ _) as [rc2 sec].
  destruct (negb (rc2 =? SNAPSHOT_OK)) eqn:E2; [intros [= ->]; discriminate|].
  destruct (sh_magic _ =? _); cbn [negb]; [|discriminate]. destruct (sh_epoch _ =? _); cbn [negb]; [|discriminate].
  destruct (sh_slot_crc _ =? _); cbn [negb]; [|discriminate].
  destruct (_ <? sh_record_count _) eqn:Hmax; [discriminate|].
  cbv zeta. generalize (validate_slot true store d (slot_base_sector store (sb_active_slot sb)) (slot_header_of_bytes sec)).
  intros v. destruct (negb (v =? SNAPSHOT_OK)) eqn:E3; [intros [= ->]; discriminate|].
  intros [= <-]. cbn. pose proof (record_count_range sec). apply Z.ltb_ge in Hmax. auto.
Qed.

Lemma restore_view store d g epoch ps ctx fuel :
  checkpoint_view store d = inr (epoch, ps) -> (Z.to_nat (st_max_records store) < fuel)%nat ->
  checkpoint_restore apply true true (& store) d ctx g fuel =
    Some (let '(rc, restored, ctx) := apply_pages ps ctx 0 in
          if negb (rc =? CHECKPOINT_OK) then (rc, ctx, g) else (restored, ctx, resume_at g epoch)).
Proof using apply_epoch.
  unfold checkpoint_view, checkpoint_restore.
  destruct (snapshot_store_load true (& store) d (& reader_zero)) as [rc [r|]] eqn:Hload; [|discriminate].
  destruct (Z.eqb_spec rc SNAPSHOT_OK) as [->|]; [|discriminate]. intros [= <- <-] Hf. cbn [negb].
  destruct (load_reader store d r Hload) as (Hn & Hc & Hm).
  rewrite (restore_loop_pages store d (Z.to_nat (r_record_count r))) by lia.
  destruct (apply_pages _ _ _) as [[rc restored] ctx']. destruct (negb (rc =? CHECKPOINT_OK)); reflexivity.
Qed.
End loop.

(** ** What the rebuilt processes look like *)
Definition find_entry (c : checkpoint_restore_ctx_t) (pid : Z) : option checkpoint_restored_process_t :=
  find (fun e => rp_pid e =? pid) c.

(** The page a rebuilt process has at an index: contents and permission. *)
Definition entry_page (mem : phys_mem) (e : checkpoint_restored_process_t) (k : Z) : option (list byte * bool) :=
  match rp_space e with
  | Some sp => (fun pte => (frame_at mem (pte_to_phys pte), pte_has pte PAGE_WRITABLE)) <$> page_tables sp !! k
  | NULL => None
  end.
Definition restored_page (x : checkpoint_restore_ctx_t * restore_world_t) (pid k : Z) : option (list byte * bool) :=
  match find_entry x.1 pid with Some e => entry_page (rw_mem x.2) e k | None => None end.
Definition restored_context (x : checkpoint_restore_ctx_t * restore_world_t) (pid : Z) : option (list byte) :=
  match find_entry x.1 pid with
  | Some e => if rp_has_context e then Some (rp_context e) else None
  | None => None
  end.

(** *** Entries *)
Lemma entry_index_shift c pid i : entry_index c pid (S i) = S <$> entry_index c pid i.
Proof. revert i; induction c as [|e c IH]; intros i; cbn; [reflexivity|]. destruct (rp_pid e =? pid); [reflexivity | apply IH]. Qed.

Lemma entry_index_spec c pid :
  match entry_index c pid 0 with
  | Some i => exists e, c !! i = Some e /\ rp_pid e = pid /\ find_entry c pid = Some e /\
      forall e', rp_pid e' = pid ->
        forall q, find_entry (<[i := e']> c) q = if q =? pid then Some e' else find_entry c q
  | None => find_entry c pid = None
  end.
Proof.
  unfold find_entry. induction c as [|e c IH]; [reflexivity|]. cbn [entry_index find].
  destruct (Z.eqb_spec (rp_pid e) pid) as [E|E].
  - exists e. split_and!; [reflexivity | exact E | reflexivity|]. intros e' He' q. cbn.
    rewrite He', E, (Z.eqb_sym q). destruct (pid =? q); reflexivity.
  - rewrite entry_index_shift. destruct (entry_index c pid 0) as [i|]; [|exact IH].
    destruct IH as (f & H1 & H2 & H3 & H4). exists f. split_and!; [exact H1 | exact H2 | exact H3|].
    intros e' He' q. cbn. rewrite H4 by exact He'. destruct (Z.eqb_spec (rp_pid e) q) as [<-|]; [|reflexivity].
    rewrite (proj2 (Z.eqb_neq _ _) E). reflexivity.
Qed.

Lemma find_entry_app c e q :
  find_entry (c ++ [e]) q = match find_entry c q with Some f => Some f | None => if rp_pid e =? q then Some e else None end.
Proof.
  unfold find_entry. induction c as [|f c IH]; cbn; [reflexivity|]. destruct (rp_pid f =? q); [reflexivity | exact IH].
Qed.

Definition fresh_entry (pid : Z) : checkpoint_restored_process_t :=
  {| rp_pid := pid; rp_space := NULL; rp_context := zeros (Z.to_nat CHECKPOINT_CONTEXT_MAX);
     rp_context_size := 0; rp_has_context := false |}.

(** The entry a record goes to, and what replacing it changes. *)
Lemma restore_entry_spec c pid :
  (find_entry c pid <> None \/ Z.of_nat (length c) < CHECKPOINT_RESTORE_MAX_PROCS) ->
  exists i c' e, restore_entry_for c pid = (Some i, c') /\ c' !! i = Some e /\ rp_pid e = pid /\
    e = default (fresh_entry pid) (find_entry c pid) /\
    (rp_pid <$> c') = (rp_pid <$> c) ++ (match find_entry c pid with Some _ => [] | None => [pid] end) /\
    forall e', rp_pid e' = pid -> (rp_pid <$> <[i := e']> c') = rp_pid <$> c' /\
      forall q, find_entry (<[i := e']> c') q = if q =? pid then Some e' else find_entry c q.
Proof.
  intros Hroom. unfold restore_entry_for. pose proof (entry_index_spec c pid) as H.
  assert (forall (c : list checkpoint_restored_process_t) i e e', c !! i = Some e -> rp_pid e = rp_pid e' ->
    rp_pid <$> <[i := e']> c = rp_pid <$> c) as Hpids.
  { intros c0 i e e' Hi He. rewrite list_fmap_insert. apply list_insert_id. rewrite list_lookup_fmap, Hi. cbn. congruence. }
  destruct (entry_index c pid 0) as [i|].
  - destruct H as (e & H1 & H2 & H3 & H4). exists i, c, e. rewrite H3. cbn. rewrite app_nil_r. split_and!; auto.
    intros e' He'. split; [apply (Hpids _ _ e); [exact H1 | congruence] | auto].
  - destruct Hroom as [Hroom|Hroom]; [contradiction|].
    rewrite (proj2 (Z.leb_gt _ _)) by lia. rewrite H. exists (length c), (c ++ [fresh_entry pid]), (fresh_entry pid).
    assert ((c ++ [fresh_entry pid]) !! length c = Some (fresh_entry pid)) as Hl by (apply list_lookup_middle; reflexivity).
    split_and!; try reflexivity; [exact Hl | rewrite fmap_app; reflexivity|].
    intros e' He'. split; [apply (Hpids _ _ (fresh_entry pid)); [exact Hl | symmetry; exact He']|]. intros q.
    rewrite insert_app_r_alt, Nat.sub_diag by lia. cbn [insert list_insert]. rewrite find_entry_app, He', Z.eqb_sym.
    destruct (Z.eqb_spec q pid) as [->|]; [rewrite H; reflexivity | destruct (find_entry c q); reflexivity].
Qed.

(** ** What the records say, by process and page *)
Definition is_memory (p : page) : bool :=
  negb (has_flag (pg_flags p) CHECKPOINT_REC_CONTEXT) && negb (has_flag (pg_flags p) CHECKPOINT_REC_KERNEL).
Definition memory_at (q k : Z) (p : page) : bool :=
  is_memory p && (pg_pid p =? q) && (pte_index (pg_virt_addr p) =? k).
Definition context_of (q : Z) (p : page) : bool :=
  has_flag (pg_flags p) CHECKPOINT_REC_CONTEXT && (pg_pid p =? q).

Definition stored_page (ps : list page) (q k : Z) : option (list byte * bool) :=
  (fun p => (pg_data p, negb (has_flag (pg_flags p) CHECKPOINT_REC_READONLY))) <$> find (memory_at q k) ps.
Definition stored_context (ps : list page) (q : Z) : option (list byte) :=
  (fun p => take (Z.to_nat CHECKPOINT_CONTEXT_MAX) (pg_data p)) <$> find (context_of q) ps.

Lemma find_snoc {A} (f : A -> bool) l x :
  find f (l ++ [x]) = match find f l with Some y => Some y | None => if f x then Some x else None end.
Proof. induction l as [|y l IH]; cbn; [reflexivity|]. destruct (f y); [reflexivity | exact IH]. Qed.

(** ** The state after some records *)
Record rebuilt (ps : list page) (x : checkpoint_restore_ctx_t * restore_world_t) : Prop := {
  rb_pids : NoDup (rp_pid <$> x.1);
  rb_known : forall q, q ∈ rp_pid <$> x.1 -> q ∈ pg_pid <$> ps;
  rb_frames : NoDup (rw_frames x.2) /\ Forall frame_ok (rw_frames x.2);
  rb_used : forall q e sp k pte, find_entry x.1 q = Some e -> rp_space e = & sp -> page_tables sp !! k = & pte ->
    forall f, f ∈ rw_frames x.2 -> pte_to_phys pte <> Z.shiftl f 12;
  rb_page : forall q k, restored_page x q k = stored_page ps q k;
  rb_context : forall q, restored_context x q = stored_context ps q }.

Lemma rebuilt_nil frames mem :
  NoDup frames -> Forall frame_ok frames -> rebuilt [] ([], {| rw_frames := frames; rw_mem := mem |}).
Proof. intros Hnd Hf. constructor; cbn; [constructor | set_solver | auto | discriminate | reflexivity | reflexivity]. Qed.

Lemma find_entry_pid c q : find_entry c q <> None <-> q ∈ rp_pid <$> c.
Proof.
  unfold find_entry. induction c as [|e c IH]; cbn; [set_solver|].
  destruct (Z.eqb_spec (rp_pid e) q) as [<-|E].
  - split; [intros _; left | discriminate].
  - rewrite IH. set_solver.
Qed.

(** The entry for the next record exists or fits. *)
Lemma rebuilt_room ps p x pids :
  rebuilt ps x -> pg_pid p ∈ pids -> (forall q, q ∈ pg_pid <$> ps -> q ∈ pids) ->
  Z.of_nat (length pids) <= CHECKPOINT_RESTORE_MAX_PROCS ->
  find_entry x.1 (pg_pid p) <> None \/ Z.of_nat (length x.1) < CHECKPOINT_RESTORE_MAX_PROCS.
Proof.
  intros Hr Hp Hps Hl. destruct (find_entry x.1 (pg_pid p)) eqn:E; [left; discriminate | right].
  assert (NoDup (pg_pid p :: (rp_pid <$> x.1))) as Hnd.
  { constructor; [rewrite <- find_entry_pid, E; auto | apply Hr]. }
  assert (length (pg_pid p :: (rp_pid <$> x.1)) <= length pids)%nat as Hle.
  { apply submseteq_length, NoDup_submseteq; [exact Hnd|]. intros q [->|Hq]%elem_of_cons; [exact Hp|].
    apply Hps, (rb_known _ _ Hr), Hq. }
  cbn [length] in Hle. rewrite length_fmap in Hle. lia.
Qed.

Lemma rebuilt_pids ps p c' i e e' c w frames mem :
  rebuilt ps (c, w) -> (rp_pid <$> c') = (rp_pid <$> c) ++ match find_entry c (pg_pid p) with Some _ => [] | None => [pg_pid p] end ->
  c' !! i = Some e -> (rp_pid <$> <[i := e']> c') = rp_pid <$> c' ->
  let x' := (<[i := e']> c', {| rw_frames := frames; rw_mem := mem |}) in
  NoDup (rp_pid <$> x'.1) /\ (forall q, q ∈ rp_pid <$> x'.1 -> q ∈ pg_pid <$> (ps ++ [p])).
Proof.
  intros Hr Hpids Hi Heq. cbn [fst]. rewrite Heq, Hpids. pose proof (rb_pids _ _ Hr) as Hnd. cbn [fst] in Hnd.
  pose proof (rb_known _ _ Hr) as Hk. cbn [fst] in Hk. rewrite fmap_app.
  destruct (find_entry c (pg_pid p)) eqn:E.
  - rewrite app_nil_r. split; [exact Hnd|]. intros q Hq. apply elem_of_app; left. apply Hk, Hq.
  - split.
    + apply NoDup_app. split_and!; [exact Hnd | | apply NoDup_singleton].
      intros q Hq ->%list_elem_of_singleton. apply find_entry_pid in Hq. contradiction.
    + intros q [Hq|Hq]%elem_of_app; apply elem_of_app; [left; apply Hk, Hq | right; exact Hq].
Qed.

(** Records that are not memory leave memory alone. *)
Lemma apply_other create tables ps x p pids :
  rebuilt ps x -> is_memory p = false ->
  pg_pid p ∈ pids -> (forall q, q ∈ pg_pid <$> ps -> q ∈ pids) ->
  Z.of_nat (length pids) <= CHECKPOINT_RESTORE_MAX_PROCS ->
  (has_flag (pg_flags p) CHECKPOINT_REC_CONTEXT = true -> stored_context ps (pg_pid p) = None) ->
  exists x', checkpoint_restore_apply_kernel create tables x (page_rec 0 p) = (CHECKPOINT_OK, x') /\
    rebuilt (ps ++ [p]) x' /\ rw_frames x'.2 = rw_frames x.2.
Proof.
  intros Hr Hmem Hp Hps Hl Hctx. pose proof (rebuilt_room _ _ _ _ Hr Hp Hps Hl) as Hroom. destruct x as [c [frames mem]].
  destruct (restore_entry_spec c (pg_pid p) Hroom) as (i & c' & e & Hent & Hi & He & Hdef & Hpids & Hins).
  unfold checkpoint_restore_apply_kernel. cbn [page_rec pr_pid]. rewrite Hent, Hi. cbn [page_rec pr_flags pr_page_data].
  set (e' := if has_flag (pg_flags p) CHECKPOINT_REC_CONTEXT
             then {| rp_pid := rp_pid e; rp_space := rp_space e;
                     rp_context := take (Z.to_nat CHECKPOINT_CONTEXT_MAX) (pg_data p);
                     rp_context_size := CHECKPOINT_CONTEXT_MAX; rp_has_context := true |} else e).
  assert (rp_pid e' = pg_pid p) as He' by (unfold e'; destruct (has_flag _ _); exact He).
  destruct (Hins e' He') as [Hins1 Hins2].
  exists (<[i := e']> c', {| rw_frames := frames; rw_mem := mem |}). split; [|split; [|reflexivity]].
  { unfold e'. unfold is_memory in Hmem. destruct (has_flag (pg_flags p) CHECKPOINT_REC_CONTEXT); [reflexivity|].
    cbn [negb andb] in Hmem. apply negb_false_iff in Hmem. rewrite Hmem.
    rewrite list_insert_id by exact Hi. reflexivity. }
  destruct (rebuilt_pids ps p c' i e e' c _ frames mem Hr Hpids Hi Hins1) as [Hnd Hk].
  assert (rp_space e' = match find_entry c (pg_pid p) with Some f => rp_space f | None => NULL end) as Hspace.
  { unfold e'. destruct (has_flag _ _); cbn; rewrite Hdef; destruct (find_entry c (pg_pid p)); reflexivity. }
  constructor; cbn [fst snd rw_frames rw_mem]; [exact Hnd | exact Hk | apply (rb_frames _ _ Hr) | | |].
  - intros q f sp k pte. rewrite Hins2. destruct (Z.eqb_spec q (pg_pid p)) as [->|]; [|apply (rb_used _ _ Hr)].
    intros [= <-]. rewrite Hspace. destruct (find_entry c (pg_pid p)) as [f|] eqn:Ef; [|discriminate].
    apply (rb_used _ _ Hr (pg_pid p) f). exact Ef.
  - intros q k. unfold stored_page. rewrite find_snoc. unfold memory_at at 2. rewrite Hmem. cbn [andb].
    transitivity (stored_page ps q k); [rewrite <- (rb_page _ _ Hr)|unfold stored_page; destruct (find _ ps); reflexivity].
    unfold restored_page, entry_page. cbn [fst snd rw_mem]. rewrite Hins2.
    destruct (Z.eqb_spec q (pg_pid p)) as [->|]; [|reflexivity]. rewrite Hspace.
    destruct (find_entry c (pg_pid p)); reflexivity.
  - intros q. unfold stored_context. rewrite find_snoc. pose proof (rb_context _ _ Hr q) as Hq.
    unfold restored_context in *. cbn [fst] in *. rewrite Hins2. unfold stored_context in Hq, Hctx. unfold context_of at 2.
    destruct (Z.eqb_spec q (pg_pid p)) as [->|Hne].
    + rewrite Z.eqb_refl, andb_true_r. unfold e'. destruct (has_flag (pg_flags p) CHECKPOINT_REC_CONTEXT) eqn:Hc.
      * specialize (Hctx eq_refl). destruct (find (context_of (pg_pid p)) ps); [discriminate|]. reflexivity.
      * destruct (find (context_of (pg_pid p)) ps); cbn [fmap option_fmap option_map] in *; rewrite Hdef;
          destruct (find_entry c (pg_pid p)); cbn; assumption || discriminate || reflexivity.
    + rewrite (proj2 (Z.eqb_neq (pg_pid p) q)) by congruence. rewrite andb_false_r, Hq.
      destruct (find (context_of q) ps); reflexivity.
Qed.

(** The entry a new page is mapped with. *)
Definition page_entry (p : page) (f : Z) : Z :=
  phys_to_pte (Z.shiftl f 12)
    (Z.lor (Z.lor PAGE_PRESENT PAGE_USER) (if has_flag (pg_flags p) CHECKPOINT_REC_READONLY then 0 else PAGE_WRITABLE)).

Lemma page_entry_spec p f :
  frame_ok f -> pte_to_phys (page_entry p f) = Z.shiftl f 12 /\
  pte_has (page_entry p f) PAGE_WRITABLE = negb (has_flag (pg_flags p) CHECKPOINT_REC_READONLY).
Proof.
  intros Hf. unfold page_entry.
  destruct (mapped_entry f (Z.lor (Z.lor PAGE_PRESENT PAGE_USER)
    (if has_flag (pg_flags p) CHECKPOINT_REC_READONLY then 0 else PAGE_WRITABLE)) 1 Hf) as [H1 H2].
  split; [exact H1|]. change PAGE_WRITABLE with (2 ^ 1) at 2. rewrite H2 by lia.
  destruct (has_flag _ _); reflexivity.
Qed.

(** Mapping a page that the space does not have. *)
Lemma map_fresh sp a f flags :
  frame_ok f -> page_tables sp !! pte_index a = None ->
  vmm_map_page true (& sp) a (Z.shiftl f 12) flags =
  (VMM_SUCCESS, & (with_tables sp (<[pte_index a := phys_to_pte (Z.shiftl f 12) flags]> (page_tables sp)))).
Proof.
  intros Hf Hn. unfold vmm_map_page, map_page_internal. rewrite align_index, Hn, align_frame by exact Hf. reflexivity.
Qed.

Lemma entry_page_frame mem e k phys data :
  (forall sp pte, rp_space e = & sp -> page_tables sp !! k = & pte -> pte_to_phys pte <> phys) ->
  entry_page (<[phys := data]> mem) e k = entry_page mem e k.
Proof.
  intros H. unfold entry_page. destruct (rp_space e) as [sp|]; [|reflexivity].
  destruct (page_tables sp !! k) as [pte|] eqn:Hk; [|reflexivity]. cbn.
  rewrite frame_at_insert_ne by exact (H sp pte eq_refl Hk). reflexivity.
Qed.

Lemma apply_memory ps c f frames mem p pids :
  rebuilt ps (c, {| rw_frames := f :: frames; rw_mem := mem |}) -> is_memory p = true ->
  pg_pid p ∈ pids -> (forall q, q ∈ pg_pid <$> ps -> q ∈ pids) ->
  Z.of_nat (length pids) <= CHECKPOINT_RESTORE_MAX_PROCS ->
  stored_page ps (pg_pid p) (pte_index (pg_virt_addr p)) = None ->
  exists x', checkpoint_restore_apply_kernel (fun _ => true) (fun _ => true)
      (c, {| rw_frames := f :: frames; rw_mem := mem |}) (page_rec 0 p) = (CHECKPOINT_OK, x') /\
    rebuilt (ps ++ [p]) x' /\ rw_frames x'.2 = frames.
Proof.
  intros Hr Hmem Hp Hps Hl Hnew. pose proof (rebuilt_room _ _ _ _ Hr Hp Hps Hl) as Hroom.
  destruct (restore_entry_spec c (pg_pid p) Hroom) as (i & c' & e & Hent & Hi & He & Hdef & Hpids & Hins).
  destruct (rb_frames _ _ Hr) as [Hfn Hfo]. cbn [snd rw_frames] in Hfn, Hfo.
  apply NoDup_cons in Hfn as [Hffresh Hfn]. apply Forall_cons in Hfo as [Hf Hfo].
  set (sp := match rp_space e with Some sp => sp
             | NULL => {| owner_pid := pg_pid p; regions := []; checkpoint_epoch := 0; page_tables := ∅ |} end).
  set (k := pte_index (pg_virt_addr p)) in *.
  assert (forall q, restored_page (c, {| rw_frames := f :: frames; rw_mem := mem |}) (pg_pid p) q = entry_page mem e q) as Hold.
  { intros q. unfold restored_page. cbn [fst snd rw_mem]. rewrite Hdef. destruct (find_entry c (pg_pid p)); reflexivity. }
  assert (page_tables sp !! k = None) as Hnone.
  { rewrite <- (rb_page _ _ Hr), Hold in Hnew. unfold entry_page in Hnew. unfold sp.
    destruct (rp_space e) as [t|]; [|reflexivity]. destruct (page_tables t !! k); [discriminate | reflexivity]. }
  set (sp' := with_tables sp (<[k := page_entry p f]> (page_tables sp))).
  set (e' := {| rp_pid := rp_pid e; rp_space := & sp'; rp_context := rp_context e;
                rp_context_size := rp_context_size e; rp_has_context := rp_has_context e |}).
  destruct (Hins e' He) as [Hins1 Hins2]. destruct (page_entry_spec p f Hf) as [Hphys Hwr].
  set (mem' := <[Z.shiftl f 12 := pg_data p]> mem).
  exists (<[i := e']> c', {| rw_frames := frames; rw_mem := mem' |}). split; [|split; [|reflexivity]].
  { unfold checkpoint_restore_apply_kernel. cbn [page_rec pr_pid]. rewrite Hent, Hi. cbn [page_rec pr_flags].
    unfold is_memory in Hmem. apply andb_prop in Hmem as [H1 H2]. apply negb_true_iff in H1, H2. rewrite H1, H2.
    cbn [page_rec pr_pid pr_virt_addr pr_page_data rw_frames rw_mem vmm_alloc_page vmm_create_address_space].
    replace (match rp_space e with Some sp0 => & sp0 | NULL => _ end) with (& sp) by (unfold sp; destruct (rp_space e); reflexivity).
    rewrite frame_addr by exact Hf.
    rewrite (proj2 (Z.eqb_neq _ 0)) by (rewrite Z.shiftl_mul_pow2 by lia; unfold frame_ok in Hf; lia).
    rewrite map_fresh by assumption. reflexivity. }
  assert (forall q g t k' pte, find_entry c q = Some g -> rp_space g = & t -> page_tables t !! k' = & pte ->
    pte_to_phys pte <> Z.shiftl f 12) as Hunused.
  { intros q g t k' pte Hg Ht Hk'. apply (rb_used _ _ Hr q g t k' pte Hg Ht Hk'). left. }
  assert (forall t, rp_space e = & t -> find_entry c (pg_pid p) = Some e) as Hfound.
  { intros t Ht. rewrite Hdef in Ht |- *. destruct (find_entry c (pg_pid p)); [reflexivity | discriminate]. }
  destruct (rebuilt_pids ps p c' i e e' c _ frames mem' Hr Hpids Hi Hins1) as [Hnd Hk].
  constructor; cbn [fst snd rw_frames rw_mem]; [exact Hnd | exact Hk | split; assumption | | |].
  - intros q g t k' pte. rewrite Hins2. destruct (Z.eqb_spec q (pg_pid p)) as [->|].
    + intros [= <-] [= <-]. unfold sp'. cbn [with_tables page_tables]. intros [[<- <-]|[Hne Hk']]%lookup_insert_Some f' Hf'.
      * rewrite Hphys. intros E%shift_inj. congruence.
      * unfold sp in Hk'. destruct (rp_space e) as [t|] eqn:Et; [|discriminate].
        apply (rb_used _ _ Hr (pg_pid p) e t k' pte (Hfound t eq_refl) Et Hk'). right. exact Hf'.
    + intros Hg Ht Hk' f' Hf'. apply (rb_used _ _ Hr q g t k' pte Hg Ht Hk'). right. exact Hf'.
  - intros q k'. unfold stored_page. rewrite find_snoc. unfold memory_at at 2. rewrite Hmem. cbn [andb].
    unfold restored_page. cbn [fst snd rw_mem]. rewrite Hins2. fold k. rewrite (Z.eqb_sym (pg_pid p)).
    pose proof (rb_page _ _ Hr q k') as Hq.
    destruct (Z.eqb_spec q (pg_pid p)) as [->|Hne]; cbn [andb].
    + rewrite Hold in Hq. destruct (Z.eqb_spec k k') as [<-|Hk'].
      * unfold stored_page in Hnew. destruct (find (memory_at (pg_pid p) k) ps); [discriminate|].
        unfold entry_page, e', sp'. cbn. rewrite lookup_insert_eq. cbn. rewrite Hphys, Hwr. unfold mem'.
        rewrite frame_at_insert. reflexivity.
      * transitivity (stored_page ps (pg_pid p) k'); [|unfold stored_page; destruct (find _ ps); reflexivity].
        rewrite <- Hq. unfold mem'. rewrite entry_page_frame.
        -- unfold entry_page, e', sp', sp. cbn. rewrite lookup_insert_ne by exact Hk'. destruct (rp_space e); reflexivity.
        -- unfold e', sp', sp. cbn. intros t pte [= <-]. cbn. rewrite lookup_insert_ne by exact Hk'.
           destruct (rp_space e) as [t|] eqn:Et; [|discriminate]. intros Hpte. exact (Hunused _ e t k' pte (Hfound t eq_refl) Et Hpte).
    + transitivity (stored_page ps q k'); [|unfold stored_page; destruct (find _ ps); reflexivity].
      rewrite <- Hq. unfold restored_page. cbn [fst snd rw_mem]. destruct (find_entry c q) as [g|] eqn:Eg; [|reflexivity].
      apply entry_page_frame. intros t pte Ht Hpte. exact (Hunused q g t k' pte Eg Ht Hpte).
  - intros q. unfold stored_context. rewrite find_snoc. unfold context_of at 2. unfold is_memory in Hmem.
    apply andb_prop in Hmem as [H1 _]. apply negb_true_iff in H1. rewrite H1. cbn [andb].
    transitivity (stored_context ps q); [rewrite <- (rb_context _ _ Hr) | unfold stored_context; destruct (find _ ps); reflexivity].
    unfold restored_context. cbn [fst]. rewrite Hins2. destruct (Z.eqb_spec q (pg_pid p)) as [->|]; [|reflexivity].
    cbn. rewrite Hdef. destruct (find_entry c (pg_pid p)); reflexivity.
Qed.

(** ** Replaying a whole checkpoint *)

(** What a record restores: one page, or the registers; blob chunks nothing. *)
Definition record_key (p : page) : list (Z * option Z) :=
  if has_flag (pg_flags p) CHECKPOINT_REC_CONTEXT then [(pg_pid p, None)]
  else if has_flag (pg_flags p) CHECKPOINT_REC_KERNEL then []
  else [(pg_pid p, Some (pte_index (pg_virt_addr p)))].

Lemma find_false {A} (f : A -> bool) l : (forall x, x ∈ l -> f x = false) -> find f l = None.
Proof.
  induction l as [|x l IH]; intros H; cbn; [reflexivity|]. rewrite (H x) by left. apply IH. intros; apply H; right; assumption.
Qed.

Lemma find_unique {A} (f : A -> bool) l x :
  x ∈ l -> f x = true -> (forall y, y ∈ l -> f y = true -> y = x) -> find f l = Some x.
Proof.
  induction l as [|y l IH]; intros Hx Hf Hu; [set_solver|]. cbn. destruct (f y) eqn:E.
  - f_equal. apply Hu; [left | exact E].
  - apply IH; [apply elem_of_cons in Hx as [->|]; [congruence | assumption] | exact Hf|].
    intros z Hz. apply Hu. right. exact Hz.
Qed.

Lemma memory_key p : is_memory p = true -> record_key p = [(pg_pid p, Some (pte_index (pg_virt_addr p)))].
Proof. unfold is_memory, record_key. destruct (has_flag _ CHECKPOINT_REC_CONTEXT), (has_flag _ CHECKPOINT_REC_KERNEL); easy. Qed.

Lemma memory_at_key q k p : memory_at q k p = true -> record_key p = [(q, Some k)].
Proof.
  unfold memory_at. intros [[H E1%Z.eqb_eq]%andb_prop E2%Z.eqb_eq]%andb_prop. rewrite memory_key by exact H. congruence.
Qed.

Lemma context_of_key q p : context_of q p = true -> record_key p = [(q, None)].
Proof. unfold context_of, record_key. intros [-> E%Z.eqb_eq]%andb_prop. congruence. Qed.

(** Nothing before a record restores what it restores. *)
Lemma key_fresh (done rest : list page) p x :
  NoDup ((done ++ p :: rest) ≫= record_key) -> x ∈ record_key p ->
  forall r, r ∈ done -> x ∉ record_key r.
Proof.
  intros Hnd Hx r Hr Hxr. rewrite bind_app in Hnd. apply NoDup_app in Hnd as (_ & Hd & _). apply (Hd x).
  - apply list_elem_of_bind. exists r. auto.
  - apply list_elem_of_bind. exists p. split; [exact Hx | left].
Qed.

Lemma apply_all pids rest : forall done x n,
  rebuilt done x -> NoDup ((done ++ rest) ≫= record_key) ->
  (forall q, q ∈ pg_pid <$> (done ++ rest) -> q ∈ pids) -> Z.of_nat (length pids) <= CHECKPOINT_RESTORE_MAX_PROCS ->
  (length (List.filter is_memory rest) <= length (rw_frames x.2))%nat ->
  exists x', apply_pages (checkpoint_restore_apply_kernel (fun _ => true) (fun _ => true)) rest x n =
    (CHECKPOINT_OK, n + Z.of_nat (length rest), x') /\ rebuilt (done ++ rest) x'.
Proof.
  induction rest as [|p rest IH]; intros done x n Hr Hnd Hq Hl Hf.
  { exists x. rewrite app_nil_r. split; [cbn; f_equal; f_equal; lia | exact Hr]. }
  assert (pg_pid p ∈ pids) as Hp by (apply Hq; rewrite fmap_app; set_solver).
  assert (forall q, q ∈ pg_pid <$> done -> q ∈ pids) as Hd by (intros q Hqd; apply Hq; rewrite fmap_app; set_solver).
  assert (forall x', rebuilt (done ++ [p]) x' -> (length (List.filter is_memory rest) <= length (rw_frames x'.2))%nat ->
    checkpoint_restore_apply_kernel (fun _ => true) (fun _ => true) x (page_rec 0 p) = (CHECKPOINT_OK, x') ->
    exists x', apply_pages (checkpoint_restore_apply_kernel (fun _ => true) (fun _ => true)) (p :: rest) x n =
      (CHECKPOINT_OK, n + Z.of_nat (length (p :: rest)), x') /\ rebuilt (done ++ p :: rest) x') as Hstep.
  { intros x' Hr' Hf' Happ. cbn [apply_pages]. rewrite Happ. cbn [negb Z.eqb CHECKPOINT_OK].
    destruct (IH (done ++ [p]) x' (n + 1) Hr') as (x'' & -> & Hr''); rewrite <- ?app_assoc; try assumption.
    exists x''. split; [f_equal; f_equal; cbn [length]; lia|]. rewrite <- app_assoc in Hr''. exact Hr''. }
  cbn [List.filter] in Hf. destruct (is_memory p) eqn:Hmem.
  - destruct x as [c [[|f frames] mem]]; cbn [snd rw_frames length] in Hf; [lia|].
    destruct (apply_memory done c f frames mem p pids Hr Hmem Hp Hd Hl) as (x' & Happ & Hr' & Hfr).
    + unfold stored_page. rewrite find_false; [reflexivity|]. intros r Hrd. destruct (memory_at _ _ r) eqn:E; [|reflexivity].
      exfalso. apply memory_at_key in E. apply (key_fresh done rest p _ Hnd ltac:(rewrite memory_key by exact Hmem; left) r Hrd).
      rewrite E. left.
    + apply (Hstep x' Hr'); [rewrite Hfr; lia | exact Happ].
  - destruct (apply_other (fun _ => true) (fun _ => true) done x p pids Hr Hmem Hp Hd Hl) as (x' & Happ & Hr' & Hfr).
    + intros Hc. unfold stored_context. rewrite find_false; [reflexivity|]. intros r Hrd.
      destruct (context_of _ r) eqn:E; [|reflexivity]. exfalso. apply context_of_key in E.
      apply (key_fresh done rest p (pg_pid p, None) Hnd) in Hrd; [apply Hrd; rewrite E; left|].
      unfold record_key. rewrite Hc. left.
    + apply (Hstep x' Hr'); [rewrite Hfr; exact Hf | exact Happ].
Qed.

Lemma key_unique (ps : list page) x p r :
  NoDup (ps ≫= record_key) -> p ∈ ps -> r ∈ ps -> x ∈ record_key p -> x ∈ record_key r -> r = p.
Proof.
  intros Hnd Hp Hr Hxp Hxr. apply list_elem_of_split in Hp as (l1 & l2 & ->).
  apply elem_of_app in Hr as [Hr|Hr].
  - exfalso. exact (key_fresh l1 l2 p x Hnd Hxp r Hr Hxr).
  - apply elem_of_cons in Hr as [->|Hr]; [reflexivity|]. exfalso.
    apply list_elem_of_split in Hr as (l3 & l4 & ->).
    apply (key_fresh (l1 ++ p :: l3) l4 r x) with p; [|exact Hxr | set_solver | exact Hxp].
    rewrite <- app_assoc. exact Hnd.
Qed.

Lemma stored_page_spec ps q k v :
  NoDup (ps ≫= record_key) ->
  stored_page ps q k = Some v <->
  exists p, p ∈ ps /\ memory_at q k p = true /\ v = (pg_data p, negb (has_flag (pg_flags p) CHECKPOINT_REC_READONLY)).
Proof.
  intros Hnd. unfold stored_page. split.
  - destruct (find (memory_at q k) ps) as [p|] eqn:E; [|discriminate]. intros [= <-].
    apply find_some in E as [H1 H2]. exists p. rewrite <- list_elem_of_In in H1. auto.
  - intros (p & Hp & Hm & ->). rewrite (find_unique _ _ p Hp Hm); [reflexivity|].
    intros r Hr Hm'. apply (key_unique ps (q, Some k)); try assumption;
      [rewrite (memory_at_key q k p Hm) | rewrite (memory_at_key q k r Hm')]; left.
Qed.

Lemma stored_context_spec ps q v :
  NoDup (ps ≫= record_key) ->
  stored_context ps q = Some v <->
  exists p, p ∈ ps /\ context_of q p = true /\ v = take (Z.to_nat CHECKPOINT_CONTEXT_MAX) (pg_data p).
Proof.
  intros Hnd. unfold stored_context. split.
  - destruct (find (context_of q) ps) as [p|] eqn:E; [|discriminate]. intros [= <-].
    apply find_some in E as [H1 H2]. exists p. rewrite <- list_elem_of_In in H1. auto.
  - intros (p & Hp & Hm & ->). rewrite (find_unique _ _ p Hp Hm); [reflexivity|].
    intros r Hr Hm'. apply (key_unique ps (q, None)); try assumption;
      [rewrite (context_of_key q p Hm) | rewrite (context_of_key q r Hm')]; left.
Qed.

(** ** The records of a checkpoint restore different things *)
Lemma NoDup_owned {K} (F : process_t -> list (Z * K)) (l : list process_t) :
  NoDup (p_pid <$> l) -> (forall p, p ∈ l -> NoDup (F p) /\ forall x, x ∈ F p -> x.1 = p_pid p) -> NoDup (l ≫= F).
Proof.
  induction l as [|p l IH]; intros Hnd HF; [constructor|]. rewrite fmap_cons, NoDup_cons in Hnd. destruct Hnd as [Hp Hnd].
  cbn. apply NoDup_app. split_and!.
  - apply HF. left.
  - intros x Hx (r & Hr & Hin)%list_elem_of_bind. apply Hp. apply list_elem_of_fmap. exists r. split; [|exact Hin].
    rewrite <- (proj2 (HF p ltac:(left)) x Hx). apply (proj2 (HF r ltac:(right; exact Hin)) x Hr).
  - apply IH; [exact Hnd|]. intros r Hr. apply HF. right. exact Hr.
Qed.

Lemma context_keys alloc epoch p :
  (capture_record <$> context_captures alloc epoch p) ≫= record_key = [] \/
  (capture_record <$> context_captures alloc epoch p) ≫= record_key = [(p_pid p, None)].
Proof. unfold context_captures. destruct (p_space p); [|auto]. destruct (negb _ && _); auto. Qed.

Lemma memory_flags b : is_memory {| pg_pid := 0; pg_virt_addr := 0; pg_flags := if b : bool then 0 else CHECKPOINT_REC_READONLY; pg_data := [] |} = true.
Proof. destruct b; reflexivity. Qed.

Lemma expected_key mem sp wa r :
  expected_record mem sp wa = Some r ->
  record_key r = [(owner_pid sp, Some (pte_index wa.2))] /\ is_memory r = true /\
  has_flag (pg_flags r) CHECKPOINT_REC_READONLY = negb wa.1.
Proof.
  unfold expected_record. destruct (page_tables sp !! _) as [e|]; [|discriminate].
  destruct (pte_has e PAGE_PRESENT); [|discriminate]. intros [= <-]. destruct (wa.1); auto.
Qed.

Lemma mapped_keys_nodup mem sp (l : list (bool * Z)) :
  NoDup ((fun wa => pte_index wa.2) <$> l) ->
  NoDup (omap (expected_record mem sp) l ≫= record_key) /\
  forall x, x ∈ omap (expected_record mem sp) l ≫= record_key -> exists wa, wa ∈ l /\ x = (owner_pid sp, Some (pte_index wa.2)).
Proof.
  intros Hnd. assert (forall l x, x ∈ omap (expected_record mem sp) l ≫= record_key ->
    exists wa, wa ∈ l /\ x = (owner_pid sp, Some (pte_index wa.2))) as Hin.
  { intros l' x (r & Hx & (wa & Hwa & Hr)%list_elem_of_omap)%list_elem_of_bind. exists wa. split; [exact Hwa|].
    destruct (expected_key _ _ _ _ Hr) as [Hk _]. rewrite Hk in Hx. apply list_elem_of_singleton, Hx. }
  split; [|apply Hin]. induction l as [|wa l IH]; [constructor|].
  rewrite fmap_cons, NoDup_cons in Hnd. destruct Hnd as [Hwa Hnd]. cbn [omap list_omap].
  destruct (expected_record mem sp wa) as [r|] eqn:Er; [|apply IH, Hnd]. destruct (expected_key _ _ _ _ Er) as [Hk _].
  cbn. rewrite Hk. constructor; [|apply IH, Hnd]. intros (wb & Hb & [= E])%Hin.
  apply Hwa. rewrite E. apply (list_elem_of_fmap_2 (fun wa : bool * Z => pte_index wa.2)), Hb.
Qed.

Lemma checkpoint_keys alloc s :
  system_wf s -> NoDup ((context_pages alloc s ++ memory_pages s) ≫= record_key).
Proof.
  intros Hwf. rewrite bind_app. apply NoDup_app. unfold context_pages, memory_pages.
  set (ctx := fun p => (capture_record <$> context_captures alloc (current_epoch (g_checkpoint (s_engine s))) p) ≫= record_key).
  set (mem := fun p => mapped_pages (s_mem s) p ≫= record_key).
  assert ((capture_record <$> mjoin (context_captures alloc (current_epoch (g_checkpoint (s_engine s))) <$> reverse (s_procs s)))
            ≫= record_key = reverse (s_procs s) ≫= ctx) as ->.
  { induction (reverse (s_procs s)) as [|p l IH]; [reflexivity|]. rewrite fmap_cons. change (mjoin (?x :: ?l)) with (x ++ mjoin l).
    rewrite fmap_app, bind_app, IH. reflexivity. }
  assert (mjoin (mapped_pages (s_mem s) <$> s_procs s) ≫= record_key = s_procs s ≫= mem) as ->.
  { clear. induction (s_procs s) as [|p l IH]; [reflexivity|]. rewrite fmap_cons. change (mjoin (?x :: ?l)) with (x ++ mjoin l).
    rewrite bind_app, IH. reflexivity. }
  assert (forall p x, x ∈ ctx p -> x = (p_pid p, None)) as Hctx.
  { intros p x. unfold ctx. destruct (context_keys alloc (current_epoch (g_checkpoint (s_engine s))) p) as [-> | ->]; set_solver. }
  assert (forall p, p ∈ s_procs s -> NoDup (mem p) /\ forall x, x ∈ mem p -> exists k, x = (p_pid p, Some k)) as Hmem.
  { intros p Hp. unfold mem, mapped_pages. destruct (p_space p) as [sp|] eqn:Hsp; [|split; [constructor | set_solver]].
    pose proof (wf_spaces s Hwf p sp Hp Hsp) as Hspw.
    destruct (mapped_keys_nodup (s_mem s) sp (space_pages sp) (sp_disjoint _ _ Hspw)) as [H1 H2]. split; [exact H1|].
    intros x (wa & _ & ->)%H2. rewrite (sp_owner _ _ Hspw). eauto. }
  split_and!.
  - apply NoDup_owned.
    + rewrite (reverse_Permutation (s_procs s)). apply Hwf.
    + intros p _. split; [|intros x ->%Hctx; reflexivity]. unfold ctx.
      destruct (context_keys alloc (current_epoch (g_checkpoint (s_engine s))) p) as [-> | ->]; [constructor | apply NoDup_singleton].
  - intros x (p & ->%Hctx & _)%list_elem_of_bind (r & Hx & Hr)%list_elem_of_bind. apply Hmem in Hx as [k Hk]; [discriminate | exact Hr].
  - apply NoDup_owned; [apply Hwf|]. intros p Hp. split; [apply Hmem, Hp|]. intros x Hx. apply Hmem in Hx as [k ->]; [reflexivity | exact Hp].
Qed.

(** ** The machine that was taken *)
Definition had_page (s : system_t) (q k : Z) (data : list byte) (writable : bool) : Prop :=
  exists p sp e, p ∈ s_procs s /\ p_pid p = q /\ p_space p = & sp /\ in_region sp writable k /\
    page_tables sp !! k = & e /\ pte_has e PAGE_PRESENT = true /\ data = frame_at (s_mem s) (pte_to_phys e).
Definition had_context (alloc : Z -> bool) (s : system_t) (q : Z) (ctx : list byte) : Prop :=
  exists p, p ∈ s_procs s /\ p_pid p = q /\ p_space p <> NULL /\ 0 < Z.of_nat (length (p_context p)) <= PAGE_SIZE /\
    alloc q = true /\ ctx = take (Z.to_nat CHECKPOINT_CONTEXT_MAX) (zero_padded 4096 (p_context p)).

Lemma context_page_in alloc s r :
  r ∈ context_pages alloc s <->
  exists p, p ∈ s_procs s /\ p_space p <> NULL /\ 0 < Z.of_nat (length (p_context p)) <= PAGE_SIZE /\ alloc (p_pid p) = true /\
    r = {| pg_pid := p_pid p; pg_virt_addr := CHECKPOINT_CONTEXT_VADDR; pg_flags := CHECKPOINT_REC_CONTEXT;
           pg_data := zero_padded 4096 (p_context p) |}.
Proof.
  unfold context_pages. rewrite list_elem_of_fmap. split.
  - intros (c & -> & Hc). apply list_elem_of_join in Hc as (l & Hc & (p & -> & Hp)%list_elem_of_fmap).
    rewrite (reverse_Permutation (s_procs s)) in Hp. exists p. revert Hc. unfold context_captures.
    destruct (p_space p); [|set_solver]. destruct (negb _ && _) eqn:E; [|set_solver].
    intros ->%list_elem_of_singleton. zbool. split_and!; try assumption; [discriminate | lia | reflexivity].
  - intros (p & Hp & Hsp & Hlen & Ha & ->).
    exists {| c_epoch := current_epoch (g_checkpoint (s_engine s)); c_pid := p_pid p; c_flags := CHECKPOINT_REC_CONTEXT;
              c_virt_addr := CHECKPOINT_CONTEXT_VADDR; c_data := zero_padded 4096 (p_context p) |}.
    split; [reflexivity|]. apply list_elem_of_join.
    exists (context_captures alloc (current_epoch (g_checkpoint (s_engine s))) p). split.
    + unfold context_captures. destruct (p_space p); [|contradiction].
      rewrite (proj2 (Z.eqb_neq _ 0)), (proj2 (Z.ltb_ge PAGE_SIZE _)), Ha by lia. left.
    + apply (list_elem_of_fmap_2 (context_captures alloc (current_epoch (g_checkpoint (s_engine s))))).
      rewrite (reverse_Permutation (s_procs s)). exact Hp.
Qed.

Lemma memory_page_in s r :
  r ∈ memory_pages s <->
  exists p sp wa, p ∈ s_procs s /\ p_space p = & sp /\ wa ∈ space_pages sp /\ expected_record (s_mem s) sp wa = Some r.
Proof.
  unfold memory_pages. rewrite list_elem_of_join. split.
  - intros (l & Hr & (p & -> & Hp)%list_elem_of_fmap). revert Hr. unfold mapped_pages.
    destruct (p_space p) as [sp|] eqn:Hsp; [|set_solver]. intros (wa & Hwa & Hr)%list_elem_of_omap. exists p, sp, wa. auto.
  - intros (p & sp & wa & Hp & Hsp & Hwa & Hr). exists (mapped_pages (s_mem s) p). split.
    + unfold mapped_pages. rewrite Hsp. apply list_elem_of_omap. eauto.
    + apply (list_elem_of_fmap_2 (mapped_pages (s_mem s))), Hp.
Qed.

Lemma checkpoint_stored alloc s recs :
  system_wf s -> recs ≡ₚ context_pages alloc s ++ memory_pages s ->
  (forall q k data w, stored_page recs q k = Some (data, w) <-> had_page s q k data w) /\
  (forall q ctx, stored_context recs q = Some ctx <-> had_context alloc s q ctx).
Proof.
  intros Hwf Hrecs. assert (NoDup (recs ≫= record_key)) as Hnd by (rewrite Hrecs; apply checkpoint_keys, Hwf). split.
  - intros q k data w. rewrite stored_page_spec by exact Hnd. split.
    + intros (r & Hr & Hm & [= -> ->]). rewrite Hrecs in Hr. apply elem_of_app in Hr as [Hr|Hr].
      * apply context_page_in in Hr as (p & _ & _ & _ & _ & ->). discriminate Hm.
      * apply memory_page_in in Hr as (p & sp & wa & Hp & Hsp & Hwa & Hr). pose proof (wf_spaces s Hwf p sp Hp Hsp) as Hspw.
        pose proof (memory_at_key _ _ _ Hm) as Hk. destruct (expected_key _ _ _ _ Hr) as (Hk' & _ & Hro).
        rewrite Hk' in Hk. injection Hk as Hq Hidx. rewrite (sp_owner _ _ Hspw) in Hq. rewrite Hro, negb_involutive.
        revert Hr. unfold expected_record. rewrite Hidx. destruct (page_tables sp !! k) as [e|] eqn:He; [|discriminate].
        destruct (pte_has e PAGE_PRESENT) eqn:Hpres; [|discriminate]. intros [= <-].
        exists p, sp, e. split_and!; try assumption; [|reflexivity]. exists wa.2. split; [destruct wa; exact Hwa | exact Hidx].
    + intros (p & sp & e & Hp & Hq & Hsp & (a & Ha & Hidx) & He & Hpres & ->).
      pose proof (wf_spaces s Hwf p sp Hp Hsp) as Hspw.
      assert (exists r, expected_record (s_mem s) sp (w, a) = Some r) as [r Hr]
        by (unfold expected_record; cbn [snd]; rewrite Hidx, He, Hpres; eauto).
      exists r. split; [rewrite Hrecs; apply elem_of_app; right; apply memory_page_in; exists p, sp, (w, a); auto|].
      destruct (expected_key _ _ _ _ Hr) as (_ & Hm & Hro). rewrite Hro. unfold memory_at. rewrite Hm.
      revert Hr. unfold expected_record. cbn [fst snd]. rewrite Hidx, He, Hpres. intros [= <-]. cbn.
      rewrite (sp_owner _ _ Hspw), Hq, Z.eqb_refl, Hidx, Z.eqb_refl, negb_involutive. auto.
  - intros q ctx. rewrite stored_context_spec by exact Hnd. split.
    + intros (r & Hr & Hc & ->). rewrite Hrecs in Hr. apply elem_of_app in Hr as [Hr|Hr].
      * apply context_page_in in Hr as (p & Hp & Hsp & Hlen & Ha & ->). apply andb_prop in Hc as [_ Hq%Z.eqb_eq]. cbn in Hq.
        exists p. rewrite Hq in *. auto 10.
      * apply memory_page_in in Hr as (p & sp & wa & Hp & Hsp & Hwa & Hr). destruct (expected_key _ _ _ _ Hr) as (_ & Hm & _).
        unfold is_memory in Hm. unfold context_of in Hc. apply andb_prop in Hc as [Hc _]. rewrite Hc in Hm. discriminate.
    + intros (p & Hp & Hq & Hsp & Hlen & Ha & ->).
      eexists. split; [rewrite Hrecs; apply elem_of_app; left; apply context_page_in; exists p; rewrite Hq; split_and!; try eassumption; try reflexivity; lia|].
      split; [|reflexivity]. unfold context_of. cbn. rewrite Z.eqb_refl. reflexivity.
Qed.

(** Only memory records take a frame. *)
#[export] Instance filter_memory_perm : Proper (Permutation ==> Permutation) (List.filter is_memory).
Proof.
  intros l l' H. induction H as [|x l l' _ IH|x y l|]; cbn; [constructor | | |etransitivity; eassumption].
  - destruct (is_memory x); [constructor|]; exact IH.
  - destruct (is_memory x), (is_memory y); try reflexivity. constructor.
Qed.

Lemma memory_count alloc s :
  length (List.filter is_memory (context_pages alloc s ++ memory_pages s)) = length (memory_pages s).
Proof.
  rewrite List.filter_app, length_app. assert (List.filter is_memory (context_pages alloc s) = []) as ->.
  { assert (forall r, r ∈ context_pages alloc s -> is_memory r = false) as H.
    { intros r (p & _ & _ & _ & _ & ->)%context_page_in. reflexivity. }
    induction (context_pages alloc s) as [|r l IH]; [reflexivity|]. cbn. rewrite (H r) by left.
    apply IH. intros; apply H; right; assumption. }
  assert (forall r, r ∈ memory_pages s -> is_memory r = true) as H.
  { intros r (p & sp & wa & _ & _ & _ & Hr)%memory_page_in. apply (expected_key _ _ _ _ Hr). }
  cbn [length Nat.add]. induction (memory_pages s) as [|r l IH]; [reflexivity|]. cbn. rewrite (H r) by left.
  cbn [length]. f_equal. apply IH. intros; apply H; right; assumption.
Qed.

(** C1: a process survives a power cut.  Take a checkpoint of processes none of
    whose pages is shared or left read-only by a fork ([forked_page_lost] shows
    what happens to those), with no capture of an earlier epoch waiting.  Let
    the processes then store to pages, take write faults and have registers
    switched, but map, unmap, fork and exit nothing ([unmapped_page_lost]).
    When writeback to a device whose reads succeed is acknowledged, restoring
    from it into fresh memory (at most CHECKPOINT_RESTORE_MAX_PROCS processes,
    enough free frames below 4 GiB) rebuilds exactly the pages (contents and
    write permission) and the saved registers that every process had at the
    take, and nothing else. *)
Theorem checkpoint_survives {D W} (dev : fat_block_device_t D) `{!BlockDevice dev} (st : snapshot_store_t D)
    (d : D) (hook : ptr (Z -> W -> Z * W)) (w0 : snapshot_writer_t) (world : W) (alloc : Z -> bool)
    (s s1 s2 : system_t) (epoch : Z) (frames : list Z) (mem : phys_mem) (g : engine_t) (fuel : nat) :
  store_wf dev st -> bd_inv d -> system_wf s -> pages_whole s -> g_captures (s_engine s) = [] ->
  checkpoint_take alloc s = (epoch, s1) -> user_run s1 s2 ->
  Z.of_nat (length (s_procs s)) <= CHECKPOINT_RESTORE_MAX_PROCS ->
  NoDup frames -> Forall frame_ok frames -> (length (memory_pages s) <= length frames)%nat ->
  (Z.to_nat (st_max_records st) < fuel)%nat ->
  let '(rc, d', _, _) := checkpoint_writeback true hook (& st) d w0 world s2 in
  rc = CHECKPOINT_OK ->
  exists x, checkpoint_restore (checkpoint_restore_apply_kernel (fun _ => true) (fun _ => true)) true true (& st) d'
              ([], {| rw_frames := frames; rw_mem := mem |}) g fuel =
            Some (Z.of_nat (length (context_pages alloc s ++ memory_pages s)), x, resume_at g epoch) /\
    (forall q k data w, restored_page x q k = Some (data, w) <-> had_page s q k data w) /\
    (forall q ctx, restored_context x q = Some ctx <-> had_context alloc s q ctx).
Proof.
  intros Hst Hd Hwf Hw Hcap Htake Hrun Hprocs Hfn Hfo Hframes Hfuel.
  destruct (take_run alloc s epoch s1 s2 Hwf Hw Hcap Htake Hrun) as (Hwf2 & He & Hrec & Hok). specialize (Hok D st).
  pose proof (writeback_save st hook d w0 world s2 Hwf2) as Hsave. rewrite He in Hsave.
  pose proof (snapshot_atomic_store dev st Hst) as A. pose proof (publish_durable d _ Hd Hok) as Hdur.
  destruct (save st d _) as [rc d']. destruct Hsave as (rc' & world' & s' & -> & Hrc & _). intros E.
  specialize (Hdur (proj1 Hrc E)). cbn [snd] in Hdur.
  rewrite (restore_view (checkpoint_restore_apply_kernel (fun _ => true) (fun _ => true)) ltac:(reflexivity) st d' g _ _ _ fuel Hdur Hfuel).
  destruct (apply_all (p_pid <$> s_procs s) (stream_records s2) [] _ 0 (rebuilt_nil frames mem Hfn Hfo)) as (x & -> & Hx).
  - rewrite Hrec. apply checkpoint_keys, Hwf.
  - intros q Hq. cbn [app] in Hq. rewrite Hrec in Hq. apply list_elem_of_fmap in Hq as (r & -> & [Hr|Hr]%elem_of_app).
    + apply context_page_in in Hr as (p & Hp & _ & _ & _ & ->). apply (list_elem_of_fmap_2 p_pid), Hp.
    + apply memory_page_in in Hr as (p & sp & wa & Hp & Hsp & _ & Hr). apply list_elem_of_fmap. exists p. split; [|exact Hp].
      rewrite <- (sp_owner _ _ (wf_spaces s Hwf p sp Hp Hsp)). destruct (expected_key _ _ _ _ Hr) as (Hk & Hm & _).
      rewrite memory_key in Hk by exact Hm. congruence.
  - rewrite length_fmap. exact Hprocs.
  - etransitivity; [|exact Hframes]. rewrite <- (memory_count alloc s), Hrec. reflexivity.
  - exists x. cbn [negb Z.eqb CHECKPOINT_OK app]. rewrite Hrec. split; [reflexivity|].
    destruct (checkpoint_stored alloc s (stream_records s2) Hwf Hrec) as [H1 H2]. split.
    + intros q k data w. rewrite (rb_page _ _ Hx). apply H1.
    + intros q ctx. rewrite (rb_context _ _ Hx). apply H2.
Qed.

Lemma checkpoint_survives_witness :
  let '(rc, d', _, _) := checkpoint_writeback true NULL (& (example_store ramdisk_device)) ramdisk_fresh writer_none tt example_written in
  rc = CHECKPOINT_OK ->
  exists x, checkpoint_restore (checkpoint_restore_apply_kernel (fun _ => true) (fun _ => true)) true true
              (& (example_store ramdisk_device)) d' ([], {| rw_frames := [32; 33]; rw_mem := ∅ |}) example_engine 3 =
            Some (Z.of_nat (length (context_pages (fun _ => true) example_system ++ memory_pages example_system)), x,
                  resume_at example_engine 5) /\
    (forall q k data w, restored_page x q k = Some (data, w) <-> had_page example_system q k data w) /\
    (forall q ctx, restored_context x q = Some ctx <-> had_context (fun _ => true) example_system q ctx).
Proof.
  apply (checkpoint_survives ramdisk_device (example_store ramdisk_device) ramdisk_fresh NULL writer_none tt (fun _ => true)
           example_system example_taken example_written 5 [32; 33] ∅ example_engine 3).
  - exact example_store_wf.
  - exact ramdisk_fresh_inv.
  - exact example_wf.
  - intros k e H. destruct (lookup_empty_Some k e H).
  - reflexivity.
  - reflexivity.
  - exact example_run.
  - vm_compute. discriminate.
  - repeat constructor; set_solver.
  - repeat constructor; lia.
  - vm_compute. lia.
  - vm_compute. lia.
Defined.
