(* ===== verification/CheckpointTickSpec.v ===== *)
(** * The periodic trigger, and what a page fault after the commit leaves behind *)
From Stdlib Require Import ZArith Lia Permutation.
From stdpp Require Import gmap.
From S2P Require Import Prelude.
From S2P Require Import BlockDevice SnapshotStore SnapshotStoreSpec Barrier Vmm VmmSpec Checkpoint ExtState BarrierSpec.
From S2P Require Import CheckpointRestore CheckpointSpec CheckpointTakeSpec CheckpointRestoreSpec.
Open Scope Z_scope.
Open Scope c_scope.

(** The barrier of [checkpoint_init]: one CPU, idle. *)
Definition single_cpu (b : checkpoint_barrier_t) : Prop :=
  cb_state b = CHECKPOINT_BARRIER_IDLE /\ cb_ncpus b = 1.

Definition with_timer (s : system_t) (ticks : Z) (b : checkpoint_barrier_t) : system_t :=
  with_engine s (with_barrier (with_ticks (s_engine s) ticks) (& b)).

(** A tick that arms the barrier parks the only CPU, takes, and releases. *)
Lemma tick_fires alloc s :
  single_cpu (g_barrier (s_engine s)) -> g_timer_enabled (s_engine s) = true ->
  epoch_open (g_checkpoint (s_engine s)) = false ->
  g_timer_interval (s_engine s) <= u64 (g_timer_ticks (s_engine s) + 1) ->
  exists b, cb_ncpus b = 1 /\ let '(epoch, s1) := checkpoint_take alloc (with_timer s 0 b) in
    checkpoint_tick alloc s =
      (negb (epoch =? 0),
       with_engine s1 (with_barrier (s_engine s1) (checkpoint_barrier_release (& (g_barrier (s_engine s1)))))).
Proof.
  intros [Hidle Hn] He Hopen Ht. unfold checkpoint_tick. rewrite He. cbn [negb with_ticks g_timer_ticks g_timer_interval g_checkpoint].
  rewrite (proj2 (Z.ltb_ge _ _)) by exact Ht. rewrite Hopen.
  cbn [with_ticks g_barrier checkpoint_barrier_arm]. unfold state_is at 1. rewrite Hidle. cbn [bool_decide negb].
  rewrite bool_decide_true by reflexivity. cbn [negb].
  cbn [checkpoint_barrier_park cb_ncpus cb_is_parked cb_parked]. rewrite Hn. unfold state_is. cbn [cb_state].
  rewrite bool_decide_true by reflexivity. cbn [negb orb Z.leb Z.compare].
  rewrite all_running_absent.
  exists {| cb_state := CHECKPOINT_BARRIER_QUIESCENT; cb_ncpus := 1; cb_parked := u32 (0 + 1);
            cb_is_parked := zset 0 true all_running |}. split; [reflexivity|].
  change (1 <=? u32 (0 + 1)) with true. cbv iota. unfold with_timer.
  change (with_ticks (with_ticks ?g _) ?t) with (with_ticks g t).
  match goal with |- context [checkpoint_take alloc ?x] => destruct (checkpoint_take alloc x) end. reflexivity.
Qed.

(** Otherwise only the counter moves. *)
Lemma tick_waits alloc s :
  g_timer_enabled (s_engine s) = false \/ epoch_open (g_checkpoint (s_engine s)) = true \/
  u64 (g_timer_ticks (s_engine s) + 1) < g_timer_interval (s_engine s) ->
  exists n, checkpoint_tick alloc s = (false, with_engine s (with_ticks (s_engine s) n)) /\
    (g_timer_enabled (s_engine s) = true -> n = u64 (g_timer_ticks (s_engine s) + 1)).
Proof.
  intros H. unfold checkpoint_tick. destruct (g_timer_enabled (s_engine s)) eqn:He; cbn [negb].
  2:{ exists (g_timer_ticks (s_engine s)). split; [destruct s as [[] ? ? ?]; reflexivity | discriminate]. }
  exists (u64 (g_timer_ticks (s_engine s) + 1)). split; [|reflexivity].
  cbn [with_ticks g_timer_ticks g_timer_interval g_checkpoint].
  destruct (Z.ltb_spec (u64 (g_timer_ticks (s_engine s) + 1)) (g_timer_interval (s_engine s))); [reflexivity|].
  destruct H as [H|[H|H]]; [discriminate | rewrite H; reflexivity | lia].
Qed.

(** C27: one timer tick, on one CPU and below the last epoch number, of
    processes none of whose pages is shared or left read-only by a fork
    ([forked_page_lost]).  A checkpoint is taken only when none is waiting for
    writeback; it records, under the next epoch number, the saved contexts,
    the captures still pending and the memory as it is at the tick; the
    processes stay well formed and the barrier is idle again; a tick that
    takes none changes nothing but the tick counter. *)
Theorem tick_spec (alloc : Z -> bool) (s : system_t) :
  system_wf s -> single_cpu (g_barrier (s_engine s)) ->
  0 <= current_epoch (g_checkpoint (s_engine s)) < 2 ^ 64 - 1 ->
  let '(taken, s') := checkpoint_tick alloc s in
  system_wf s' /\ single_cpu (g_barrier (s_engine s')) /\ s_mem s' = s_mem s /\
  (if taken
   then epoch_open (g_checkpoint (s_engine s)) = false /\ epoch_open (g_checkpoint (s_engine s')) = true /\
        current_epoch (g_checkpoint (s_engine s')) = current_epoch (g_checkpoint (s_engine s)) + 1 /\
        stream_records s' = context_pages alloc s ++ (capture_record <$> g_captures (s_engine s)) ++ memory_pages s
   else exists n, s' = with_engine s (with_ticks (s_engine s) n)).
Proof.
  intros Hwf Hb He.
  destruct (g_timer_enabled (s_engine s)) eqn:Hen, (epoch_open (g_checkpoint (s_engine s))) eqn:Hopen.
  2: destruct (Z.ltb_spec (u64 (g_timer_ticks (s_engine s) + 1)) (g_timer_interval (s_engine s))) as [Hlt|Hge].
  2, 1, 4, 5: destruct (tick_waits alloc s) as (n & -> & _); [auto..|];
    (split; [destruct Hwf; constructor; assumption | split; [exact Hb | split; [reflexivity | exists n; reflexivity]]]).
  destruct (tick_fires alloc s Hb Hen Hopen Hge) as (b & Hn & H).
  destruct (checkpoint_take alloc (with_timer s 0 b)) as [epoch s1] eqn:Htake. rewrite H.
  assert (system_wf (with_timer s 0 b)) as Hwf0 by (destruct Hwf; constructor; assumption).
  destruct (take_spec alloc _ epoch s1 Hwf0 Htake) as (Hwf1 & Hm & Hep & Hepoch & Ho & Hbar & Hrec).
  change (u64 (current_epoch (g_checkpoint (s_engine (with_timer s 0 b))) + 1))
    with (u64 (current_epoch (g_checkpoint (s_engine s)) + 1)) in Hepoch.
  rewrite u64_id in Hepoch by lia. rewrite (proj2 (Z.eqb_neq epoch 0)) by lia. cbn [negb].
  split; [destruct Hwf1; constructor; assumption|].
  split; [split; [reflexivity|]; cbn; rewrite Hbar; exact Hn|].
  split; [exact Hm|]. split; [reflexivity|]. split; [exact Ho|].
  split; [exact (eq_trans Hep Hepoch) | exact Hrec].
Qed.

Lemma tick_spec_witness :
  let '(taken, s') := checkpoint_tick (fun _ => true) example_system in
  system_wf s' /\ single_cpu (g_barrier (s_engine s')) /\ s_mem s' = s_mem example_system /\
  (if taken
   then epoch_open (g_checkpoint (s_engine example_system)) = false /\ epoch_open (g_checkpoint (s_engine s')) = true /\
        current_epoch (g_checkpoint (s_engine s')) = current_epoch (g_checkpoint (s_engine example_system)) + 1 /\
        stream_records s' = context_pages (fun _ => true) example_system ++
          (capture_record <$> g_captures (s_engine example_system)) ++ memory_pages example_system
   else exists n, s' = with_engine example_system (with_ticks (s_engine example_system) n)).
Proof.
  apply (tick_spec (fun _ => true) example_system).
  - exact example_wf.
  - split; reflexivity.
  - cbn. lia.
Defined.

(** Ticks until one takes a checkpoint, at most [n]. *)
Fixpoint ticks (alloc : Z -> bool) (n : nat) (s : system_t) : bool * system_t :=
  match n with
  | O => (false, s)
  | S n => let '(taken, s) := checkpoint_tick alloc s in if taken then (true, s) else ticks alloc n s
  end.

(** The trigger fires: when it is enabled and no checkpoint is waiting for
    writeback, one is taken after the remaining ticks of the interval, and the
    trigger never fires before. *)
Theorem tick_fires_in_time (alloc : Z -> bool) (s : system_t) (n : nat) :
  system_wf s -> single_cpu (g_barrier (s_engine s)) ->
  0 <= current_epoch (g_checkpoint (s_engine s)) < 2 ^ 64 - 1 ->
  g_timer_enabled (s_engine s) = true -> epoch_open (g_checkpoint (s_engine s)) = false ->
  0 <= g_timer_ticks (s_engine s) -> g_timer_interval (s_engine s) < 2 ^ 64 ->
  g_timer_ticks (s_engine s) < g_timer_interval (s_engine s) ->
  (ticks alloc n s).1 = (g_timer_interval (s_engine s) - g_timer_ticks (s_engine s) <=? Z.of_nat n).
Proof.
  intros Hwf Hb He Hen Hopen Ht Hi. revert s Hwf Hb He Hen Hopen Ht Hi; induction n as [|n IH]; intros s Hwf Hb He Hen Hopen Ht Hi Hlt.
  { cbn. symmetry. apply Z.leb_gt. lia. }
  cbn [ticks]. destruct (Z.ltb_spec (g_timer_ticks (s_engine s) + 1) (g_timer_interval (s_engine s))) as [Hw|Hf].
  - destruct (tick_waits alloc s) as (m & -> & Hm); [rewrite u64_id by lia; auto|]. rewrite (Hm Hen), u64_id by lia.
    rewrite IH; cbn [with_engine with_ticks s_engine g_barrier g_checkpoint g_timer_enabled g_timer_ticks g_timer_interval];
      try assumption; try lia; [|destruct Hwf; constructor; assumption].
    destruct (Z.leb_spec (g_timer_interval (s_engine s) - (g_timer_ticks (s_engine s) + 1)) (Z.of_nat n));
      symmetry; [apply Z.leb_le | apply Z.leb_gt]; lia.
  - destruct (tick_fires alloc s Hb Hen Hopen) as (b & _ & H); [rewrite u64_id by lia; lia|].
    destruct (checkpoint_take alloc (with_timer s 0 b)) as [epoch s1] eqn:Htake. rewrite H.
    assert (system_wf (with_timer s 0 b)) as Hwf0 by (destruct Hwf; constructor; assumption).
    destruct (take_spec alloc _ epoch s1 Hwf0 Htake) as (_ & _ & _ & Hepoch & _).
    change (u64 (current_epoch (g_checkpoint (s_engine (with_timer s 0 b))) + 1))
      with (u64 (current_epoch (g_checkpoint (s_engine s)) + 1)) in Hepoch.
    rewrite u64_id in Hepoch by lia. rewrite (proj2 (Z.eqb_neq epoch 0)) by lia. cbn [negb fst].
    symmetry. apply Z.leb_le. lia.
Qed.

Lemma tick_fires_in_time_witness :
  (ticks (fun _ => true) 3 example_system).1 = (1 - 0 <=? Z.of_nat 3).
Proof.
  apply (tick_fires_in_time (fun _ => true) example_system 3); try reflexivity.
  - exact example_wf.
  - split; reflexivity.
  - cbn. lia.
Defined.

(** ** What goes wrong *)

(** A page that was still tagged at the commit is captured by its next write
    fault, although no epoch is open, and the capture stays for the next
    checkpoint, whose take tags the page again: that checkpoint holds the page
    twice, and restoring it fails. *)
Definition after_commit (s : system_t) : system_t := (checkpoint_after_commit (NULL : ptr (Z -> unit -> Z * unit)) tt s 5).2.
Definition fault_at (s : system_t) (addr : Z) : system_t :=
  let sp := p_space <$> head (s_procs s) in
  let '(_, g, sp) := checkpoint_handle_write_fault true (s_engine s) (s_mem s) (mjoin sp) addr in
  {| s_engine := g; s_pm_ready := true; s_procs := set_space 3 sp (s_procs s); s_mem := s_mem s |}.

Example stale_capture_unrestorable :
  let s := (checkpoint_take (fun _ => true) (fault_at (after_commit example_taken) 4096)).2 in
  epoch_open (g_checkpoint (s_engine (after_commit example_taken))) = false /\
  (pg_pid <$> stream_records s) = [3; 3; 3] /\ (pg_virt_addr <$> stream_records s) = [CHECKPOINT_CONTEXT_VADDR; 4096; 4096] /\
  (apply_pages (checkpoint_restore_apply_kernel (fun _ => true) (fun _ => true)) (stream_records s)
     ([], {| rw_frames := [32; 33; 34]; rw_mem := ∅ |}) 0).1 = (CHECKPOINT_ERR_PARAM, 2).
Proof. vm_compute. auto. Qed.

(** A page shared by [fork] lost its write permission without being tagged:
    neither a take nor writeback sees it, so it is in no checkpoint. *)
Definition forked_system : system_t :=
  let '(_, _, src) := vmm_map_cow_page true (vmm_create_address_space true 4) (& example_space) 4096
                        (Z.lor PAGE_PRESENT PAGE_WRITABLE) in
  with_procs example_system [ {| p_pid := 3; p_context := [Byte.x07; Byte.x09]; p_space := src |} ].

Example forked_page_lost :
  (length (memory_pages example_system), length (memory_pages forked_system)) = (1%nat, 1%nat) /\
  clean (checkpoint_take (fun _ => true) forked_system).2 = [] /\
  length (stream_records (checkpoint_take (fun _ => true) forked_system).2) = 1%nat.
Proof. vm_compute. auto. Qed.

(** A page unmapped between the take and writeback, as [vmm_unmap_page] does
    without asking the engine, is in no checkpoint although it was tagged. *)
Definition unmap_first (s : system_t) (k : Z) : system_t :=
  with_procs s (set_space 3
    ((fun sp => {| owner_pid := owner_pid sp; regions := regions sp; checkpoint_epoch := checkpoint_epoch sp;
                   page_tables := delete k (page_tables sp) |}) <$> mjoin (p_space <$> head (s_procs s))) (s_procs s)).

Example unmapped_page_lost :
  (pg_virt_addr <$> memory_pages example_system) = [4096] /\
  (pg_virt_addr <$> stream_records example_taken) = [CHECKPOINT_CONTEXT_VADDR; 4096] /\
  (pg_virt_addr <$> stream_records (unmap_first example_taken 1)) = [CHECKPOINT_CONTEXT_VADDR].
Proof. vm_compute. auto. Qed.

(** A chunk of kernel state makes the restore invent a process with its tag. *)
Example kernel_record_process c w p :
  has_flag (pg_flags p) CHECKPOINT_REC_CONTEXT = false -> has_flag (pg_flags p) CHECKPOINT_REC_KERNEL = true ->
  find_entry c (pg_pid p) = None -> Z.of_nat (length c) < CHECKPOINT_RESTORE_MAX_PROCS ->
  checkpoint_restore_apply_kernel (fun _ => true) (fun _ => true) (c, w) (page_rec 0 p) =
  (CHECKPOINT_OK, (c ++ [fresh_entry (pg_pid p)], w)).
Proof.
  intros H1 H2 Hn Hl. unfold checkpoint_restore_apply_kernel, restore_entry_for. cbn [page_rec pr_pid pr_flags].
  pose proof (entry_index_spec c (pg_pid p)) as He. destruct (entry_index c (pg_pid p) 0).
  { destruct He as (e & _ & _ & He & _). congruence. }
  rewrite (proj2 (Z.leb_gt _ _)) by lia. rewrite list_lookup_middle by reflexivity. rewrite H1, H2. reflexivity.
Qed.

(** A restored process that the table does not already have is never
    registered, because [process_create] always fails, and the boot path does
    not notice. *)
Lemma restored_process_dropped {T} (get : T -> Z -> ptr kprocess_t) write sched (t : T) rp rest :
  get t (rp_pid rp) = NULL ->
  checkpoint_finalize_restore (checkpoint_register_kernel get write sched) (& (rp :: rest)) t = (CHECKPOINT_ERR_PARAM, t).
Proof. intros H. cbn. unfold checkpoint_register_kernel. rewrite H. reflexivity. Qed.
