(* ===== verification/DriverReattach.v ===== *)
(** * Quiescing and re-attaching drivers (kernel/checkpoint_driver.c,
    kernel/checkpoint_disk.c, kernel/checkpoint_fb.c)

    A driver's callbacks take its device and act on the hardware, the world
    [W]; they are not in the model.  [Dev] is the opaque device pointer. *)
From Stdlib Require Import ZArith Lia.
From S2P Require Import Prelude.
Open Scope Z_scope.
Open Scope c_scope.

Definition CHECKPOINT_DRIVER_MAX : Z := 32.
Definition CHECKPOINT_DRIVER_ABORTED : Z := -1.

Inductive checkpoint_reattach_mode_t := CHECKPOINT_REATTACH_ABORT | CHECKPOINT_REATTACH_CONTINUE.

Section drivers.
Context {Dev W : Type}.

Record checkpoint_persist_ops_t := {
  quiesce : ptr (Dev -> W -> Z * W);
  reattach : ptr (Dev -> W -> Z * W);
  persistable : bool }.

Record checkpoint_driver_entry_t := {
  de_dev : Dev;
  de_ops : checkpoint_persist_ops_t;
  de_severed : bool }.

(** The registry is the list of its entries below [count], in registration
    order. *)
Definition checkpoint_driver_registry_init (r : ptr (list checkpoint_driver_entry_t)) : ptr (list checkpoint_driver_entry_t) :=
  match r with NULL => NULL | Some _ => & [] end.

Definition checkpoint_driver_register (r : ptr (list checkpoint_driver_entry_t)) (dev : Dev)
    (ops : ptr checkpoint_persist_ops_t) : Z * ptr (list checkpoint_driver_entry_t) :=
  match r, ops with
  | Some l, Some ops =>
      if CHECKPOINT_DRIVER_MAX <=? Z.of_nat (length l) then (-1, r)
      else (0, & (l ++ [ {| de_dev := dev; de_ops := ops; de_severed := false |} ]))
  | _, _ => (-1, r)
  end.

Definition checkpoint_driver_count (r : ptr (list checkpoint_driver_entry_t)) : Z :=
  match r with Some l => Z.of_nat (length l) | NULL => 0 end.

Fixpoint quiesce_loop (l : list checkpoint_driver_entry_t) (w : W) (ok : Z) : Z * W :=
  match l with
  | [] => (ok, w)
  | e :: l =>
      match quiesce (de_ops e) with
      | NULL => quiesce_loop l w (ok + 1)
      | Some q =>
          let '(rc, w) := q (de_dev e) w in quiesce_loop l w (if rc =? 0 then ok + 1 else ok)
      end
  end.

Definition checkpoint_driver_quiesce_all (r : ptr (list checkpoint_driver_entry_t)) (w : W) : Z * W :=
  match r with NULL => (0, w) | Some l => quiesce_loop l w 0 end.

(** An entry after its reattach attempt. *)
Definition reattached_entry (e : checkpoint_driver_entry_t) (severed : bool) : checkpoint_driver_entry_t :=
  {| de_dev := de_dev e;
     de_ops := {| quiesce := quiesce (de_ops e); reattach := reattach (de_ops e);
                  persistable := if severed then false else persistable (de_ops e) |};
     de_severed := severed |}.

(** The entries from here on: the result, the entries, the world. *)
Fixpoint reattach_loop (mode : checkpoint_reattach_mode_t) (l : list checkpoint_driver_entry_t) (w : W)
    (reattached : Z) : Z * list checkpoint_driver_entry_t * W :=
  match l with
  | [] => (reattached, [], w)
  | e :: l =>
      let '(rc, w) := match reattach (de_ops e) with Some f => f (de_dev e) w | NULL => (0, w) end in
      if rc =? 0 then
        let '(r, l, w) := reattach_loop mode l w (reattached + 1) in (r, reattached_entry e false :: l, w)
      else
        match mode with
        | CHECKPOINT_REATTACH_ABORT => (CHECKPOINT_DRIVER_ABORTED, reattached_entry e false :: l, w)
        | CHECKPOINT_REATTACH_CONTINUE =>
            let '(r, l, w) := reattach_loop mode l w reattached in (r, reattached_entry e true :: l, w)
        end
  end.

Definition checkpoint_driver_reattach_all (r : ptr (list checkpoint_driver_entry_t)) (mode : checkpoint_reattach_mode_t)
    (w : W) : Z * ptr (list checkpoint_driver_entry_t) * W :=
  match r with
  | NULL => (0, r, w)
  | Some l => let '(n, l, w) := reattach_loop mode l w 0 in (n, & l, w)
  end.

Definition checkpoint_driver_is_severed (r : ptr (list checkpoint_driver_entry_t)) (index : Z) : bool :=
  match r with
  | NULL => false
  | Some l => if Z.of_nat (length l) <=? index then false
              else match l !! Z.to_nat index with Some e => de_severed e | None => false end
  end.
End drivers.
#[global] Arguments checkpoint_persist_ops_t : clear implicits.
#[global] Arguments checkpoint_driver_entry_t : clear implicits.

(** ** The disk *)
Definition CHECKPOINT_DISK_SB_MAGIC : Z := 0x494B4F53534E4250.
Definition CHECKPOINT_DISK_OK : Z := 0.
Definition CHECKPOINT_DISK_ERR_PARAM : Z := -1.
Definition CHECKPOINT_DISK_ERR_FLUSH : Z := -2.
Definition CHECKPOINT_DISK_ERR_REPROBE : Z := -3.
Definition CHECKPOINT_DISK_ERR_READ : Z := -4.
Definition CHECKPOINT_DISK_ERR_MAGIC : Z := -5.

(** [for (i = 7; i >= 0; i--)]: the bytes from the last to the first. *)
Fixpoint magic_loop (i : nat) (b : list byte) (m : Z) : Z :=
  match i with
  | O => m
  | S i => magic_loop i b (Z.lor (u64 (Z.shiftl m 8)) (byte.unsigned (nth i b Byte.x00)))
  end.
Definition checkpoint_disk_read_magic (buf512 : list byte) : Z := magic_loop 8 buf512 0.

Section disk.
Context {W : Type}.

Record checkpoint_disk_ops_t := {
  flush : ptr (W -> Z * W);
  reprobe : ptr (W -> Z * W);
  read_sector : ptr (W -> Z -> Z * list byte * W);
  store_lba : Z }.

Definition checkpoint_disk_quiesce (ops : ptr checkpoint_disk_ops_t) (w : W) : Z * W :=
  match ops with
  | NULL => (CHECKPOINT_DISK_ERR_PARAM, w)
  | Some o =>
      match flush o with
      | Some f => let '(rc, w) := f w in ((if negb (rc =? 0) then CHECKPOINT_DISK_ERR_FLUSH else CHECKPOINT_DISK_OK), w)
      | NULL => (CHECKPOINT_DISK_OK, w)
      end
  end.

Definition checkpoint_disk_reattach (ops : ptr checkpoint_disk_ops_t) (w : W) : Z * W :=
  match ops with
  | Some {| reprobe := probe; read_sector := Some read; store_lba := lba |} =>
      let '(rc, w) := match probe with Some f => f w | NULL => (0, w) end in
      if negb (rc =? 0) then (CHECKPOINT_DISK_ERR_REPROBE, w)
      else
        let '(rc, sector, w) := read w lba in
        if negb (rc =? 0) then (CHECKPOINT_DISK_ERR_READ, w)
        else if negb (checkpoint_disk_read_magic sector =? CHECKPOINT_DISK_SB_MAGIC)
             then (CHECKPOINT_DISK_ERR_MAGIC, w)
             else (CHECKPOINT_DISK_OK, w)
  | _ => (CHECKPOINT_DISK_ERR_PARAM, w)
  end.
End disk.
#[global] Arguments checkpoint_disk_ops_t : clear implicits.

(** ** The framebuffer *)
Definition CHECKPOINT_FB_OK : Z := 0.
Definition CHECKPOINT_FB_ERR_PARAM : Z := -1.
Definition CHECKPOINT_FB_ERR_STATE : Z := -2.
Definition CHECKPOINT_FB_ERR_MODE : Z := -3.
Definition CHECKPOINT_FB_ERR_BLIT : Z := -4.

Record checkpoint_fb_state_t := {
  fb_width : Z;
  fb_height : Z;
  fb_bpp : Z;
  fb_pitch : Z;
  fb_size : Z;
  fb_mode : Z;
  fb_valid : Z;
  fb_reserved : Z }.

Definition checkpoint_fb_validate (st : ptr checkpoint_fb_state_t) : Z :=
  match st with
  | NULL => CHECKPOINT_FB_ERR_PARAM
  | Some s =>
      if fb_valid s =? 0 then CHECKPOINT_FB_OK
      else if (fb_width s =? 0) || (fb_height s =? 0) || (fb_bpp s =? 0) || (fb_pitch s =? 0) || (fb_size s =? 0)
           then CHECKPOINT_FB_ERR_STATE
      else if negb (fb_size s =? u32 (fb_pitch s * fb_height s)) then CHECKPOINT_FB_ERR_STATE
      else CHECKPOINT_FB_OK
  end.

Definition checkpoint_fb_capture_state (st : ptr checkpoint_fb_state_t) (mode width height bpp pitch size : Z)
  : Z * ptr checkpoint_fb_state_t :=
  match st with
  | NULL => (CHECKPOINT_FB_ERR_PARAM, st)
  | Some _ =>
      let st := & {| fb_width := width; fb_height := height; fb_bpp := bpp; fb_pitch := pitch; fb_size := size;
                     fb_mode := mode; fb_valid := 1; fb_reserved := 0 |} in
      (checkpoint_fb_validate st, st)
  end.

Definition checkpoint_fb_quiesce : Z := CHECKPOINT_FB_OK.

Section fb.
Context {W : Type}.

Record checkpoint_fb_ops_t := {
  set_mode : ptr (W -> Z -> Z -> Z -> Z -> Z * W);
  blit : ptr (W -> list byte -> Z -> Z * W) }.

Definition checkpoint_fb_reattach (st : ptr checkpoint_fb_state_t) (shadow : ptr (list byte))
    (ops : ptr checkpoint_fb_ops_t) (w : W) : Z * W :=
  match st, ops with
  | Some s, Some {| set_mode := Some set_mode; blit := Some blit |} =>
      if fb_valid s =? 0 then (CHECKPOINT_FB_OK, w)
      else
        let vc := checkpoint_fb_validate st in
        if negb (vc =? CHECKPOINT_FB_OK) then (vc, w)
        else
          match shadow with
          | NULL => (CHECKPOINT_FB_ERR_PARAM, w)
          | Some pixels =>
              let '(rc, w) := set_mode w (fb_mode s) (fb_width s) (fb_height s) (fb_bpp s) in
              if negb (rc =? 0) then (CHECKPOINT_FB_ERR_MODE, w)
              else
                let '(rc, w) := blit w pixels (fb_size s) in
                if negb (rc =? 0) then (CHECKPOINT_FB_ERR_BLIT, w) else (CHECKPOINT_FB_OK, w)
          end
  | _, _ => (CHECKPOINT_FB_ERR_PARAM, w)
  end.
End fb.
#[global] Arguments checkpoint_fb_ops_t : clear implicits.
