(* ===== verification/DriverReattachSpec.v ===== *)
(** * Re-attaching devices *)
From Stdlib Require Import ZArith Lia.
From S2P Require Import Prelude.
From S2P Require Import BlockDevice SnapshotStore DriverReattach.
Open Scope Z_scope.
Open Scope c_scope.

Section drivers.
Context {Dev W : Type}.
Implicit Types (l : list (checkpoint_driver_entry_t Dev W)) (w : W).

(** One attempt, and all of them in registration order. *)
Definition attempt (e : checkpoint_driver_entry_t Dev W) (w : W) : Z * W :=
  match reattach (de_ops e) with Some f => f (de_dev e) w | NULL => (0, w) end.
Fixpoint attempts l w : list Z * W :=
  match l with
  | [] => ([], w)
  | e :: l => let '(rc, w) := attempt e w in let '(rcs, w) := attempts l w in (rc :: rcs, w)
  end.

Definition ok_count (rcs : list Z) : Z := Z.of_nat (length (List.filter (fun rc => rc =? 0) rcs)).

Lemma reattach_continue l w n :
  reattach_loop CHECKPOINT_REATTACH_CONTINUE l w n =
  let '(rcs, w') := attempts l w in
  (n + ok_count rcs, zip_with (fun e rc => reattached_entry e (negb (rc =? 0))) l rcs, w').
Proof.
  revert w n; induction l as [|e l IH]; intros w n; [cbn; rewrite Z.add_0_r; reflexivity|].
  cbn [reattach_loop attempts]. fold (attempt e w). destruct (attempt e w) as [rc w1].
  destruct (rc =? 0) eqn:E; rewrite IH; destruct (attempts l w1) as [rcs w2]; unfold ok_count; cbn [List.filter zip_with];
    rewrite E; cbn [negb]; [|reflexivity]. f_equal. f_equal. cbn [length]. lia.
Qed.

Lemma length_attempts l w : length (attempts l w).1 = length l.
Proof.
  revert w; induction l as [|e l IH]; intros w; [reflexivity|]. cbn. destruct (attempt e w) as [rc w1].
  specialize (IH w1). destruct (attempts l w1). cbn in *. congruence.
Qed.
End drivers.

(** Whatever the drivers do, in [CONTINUE] mode every device is attempted
    once, in registration order; exactly the devices whose attempt failed are
    severed and lose their persistence, and the result counts the others. *)
Theorem reattach_all_continue {Dev W} (l : list (checkpoint_driver_entry_t Dev W)) (w : W) :
  let '(rcs, w') := attempts l w in
  let '(n, r, w'') := checkpoint_driver_reattach_all (& l) CHECKPOINT_REATTACH_CONTINUE w in
  w'' = w' /\ length rcs = length l /\ n = ok_count rcs /\ checkpoint_driver_count r = Z.of_nat (length l) /\
  forall i e rc, l !! i = Some e -> rcs !! i = Some rc ->
    checkpoint_driver_is_severed r (Z.of_nat i) = negb (rc =? 0) /\
    (default [] r) !! i = Some {| de_dev := de_dev e;
      de_ops := {| quiesce := quiesce (de_ops e); reattach := reattach (de_ops e);
                   persistable := (rc =? 0) && persistable (de_ops e) |};
      de_severed := negb (rc =? 0) |}.
Proof.
  pose proof (length_attempts l w) as Hlen. unfold checkpoint_driver_reattach_all. rewrite reattach_continue.
  destruct (attempts l w) as [rcs w']. cbn [fst] in Hlen.
  assert (length (zip_with (fun e rc => reattached_entry e (negb (rc =? 0))) l rcs) = length l) as Hz
    by (rewrite length_zip_with, Hlen, Nat.min_id; reflexivity).
  split; [reflexivity|]. split; [exact Hlen|]. split; [reflexivity|]. cbn. rewrite Hz. split; [reflexivity|].
  intros i e rc He Hrc.
  assert (zip_with (fun e rc => reattached_entry e (negb (rc =? 0))) l rcs !! i = Some (reattached_entry e (negb (rc =? 0)))) as Hi
    by (apply lookup_zip_with_Some; eauto).
  rewrite Nat2Z.id, Hi. pose proof (lookup_lt_Some _ _ _ He). rewrite (proj2 (Z.leb_gt _ _)) by lia.
  split; [reflexivity|]. unfold reattached_entry. destruct (rc =? 0); reflexivity.
Qed.

(** In [ABORT] mode the first device that fails ends the restore: the
    devices before it were re-attached, none after it is touched. *)
Theorem reattach_all_abort {Dev W} (l1 l2 : list (checkpoint_driver_entry_t Dev W)) (e : checkpoint_driver_entry_t Dev W)
    (w w1 w2 : W) (rc : Z) :
  attempts l1 w = (replicate (length l1) 0, w1) -> attempt e w1 = (rc, w2) -> rc <> 0 ->
  checkpoint_driver_reattach_all (& (l1 ++ e :: l2)) CHECKPOINT_REATTACH_ABORT w =
  (CHECKPOINT_DRIVER_ABORTED, & (((fun e => reattached_entry e false) <$> l1) ++ reattached_entry e false :: l2), w2).
Proof.
  intros H1 He Hrc. unfold checkpoint_driver_reattach_all. generalize 0 at 1 as n.
  assert (forall n w, attempts l1 w = (replicate (length l1) 0, w1) ->
    reattach_loop CHECKPOINT_REATTACH_ABORT (l1 ++ e :: l2) w n =
    (CHECKPOINT_DRIVER_ABORTED, ((fun e => reattached_entry e false) <$> l1) ++ reattached_entry e false :: l2, w2)) as H.
  { clear H1 w. induction l1 as [|f l1 IH]; intros n w H1.
    - injection H1 as <-. cbn. fold (attempt e w). rewrite He, (proj2 (Z.eqb_neq _ _) Hrc). reflexivity.
    - cbn [attempts] in H1. cbn [app reattach_loop]. fold (attempt f w). destruct (attempt f w) as [rf wf].
      destruct (attempts l1 wf) as [rcs wr] eqn:Ea. injection H1 as -> -> ->. cbn [Z.eqb].
      rewrite (IH (n + 1) wf Ea). reflexivity. }
  intros n. rewrite (H _ _ H1). reflexivity.
Qed.

Lemma reattach_all_abort_witness :
  let dev f := {| de_dev := tt; de_ops := {| quiesce := NULL; reattach := f; persistable := true |}; de_severed := false |} in
  checkpoint_driver_reattach_all (& ([dev (& (fun _ w => (0, 1 :: w)))] ++ dev (& (fun _ w => (-5, 2 :: w))) :: [dev (& (fun _ w => (0, 3 :: w)))]))
    CHECKPOINT_REATTACH_ABORT [] =
  (CHECKPOINT_DRIVER_ABORTED,
   & (((fun e => reattached_entry e false) <$> [dev (& (fun _ w => (0, 1 :: w)))]) ++
      reattached_entry (dev (& (fun _ w => (-5, 2 :: w)))) false :: [dev (& (fun _ w => (0, 3 :: w)))]), [2; 1]).
Proof.
  intros dev. apply (reattach_all_abort [dev (& (fun _ w => (0, 1 :: w)))] [dev (& (fun _ w => (0, 3 :: w)))]
    (dev (& (fun _ w => (-5, 2 :: w)))) [] [1] [2; 1] (-5)); [reflexivity | reflexivity | discriminate].
Defined.

(** ** The disk is the one that was checkpointed on *)
Lemma lor_bound a b k : 0 <= k -> 0 <= a < 2 ^ k -> 0 <= b < 2 ^ k -> 0 <= Z.lor a b < 2 ^ k.
Proof.
  intros Hk Ha Hb. assert (Z.lor a b = Z.lor a b mod 2 ^ k) as ->; [|apply Z.mod_pos_bound; lia].
  apply Z.bits_inj'. intros n Hn. destruct (Z.ltb_spec n k).
  - rewrite Z.mod_pow2_bits_low by lia. reflexivity.
  - rewrite Z.mod_pow2_bits_high by lia. rewrite Z.lor_spec.
    rewrite <- (Z.mod_small a (2 ^ k)), <- (Z.mod_small b (2 ^ k)) by lia. rewrite !Z.mod_pow2_bits_high by lia. reflexivity.
Qed.

Lemma magic_loop_combine (l : list byte) : forall (m : Z) (rest : list byte),
  (length l <= 8)%nat -> 0 <= m < 2 ^ (64 - 8 * Z.of_nat (length l)) ->
  magic_loop (length l) (l ++ rest) m = Z.lor (Z.shiftl m (8 * Z.of_nat (length l))) (le_combine l).
Proof.
  induction l as [|b l IH] using rev_ind; intros m rest Hl Hm.
  { cbn. rewrite Z.lor_0_r, Z.shiftl_0_r. reflexivity. }
  rewrite length_app in *. cbn [length] in *. rewrite Nat.add_1_r in *. cbn [magic_loop].
  assert (nth (length l) ((l ++ [b]) ++ rest) Byte.x00 = b) as ->.
  { rewrite <- app_assoc. cbn [app]. apply nth_middle. }
  pose proof (byte.unsigned_range b) as Hb.
  assert (2 ^ (64 - 8 * Z.of_nat (length l)) = 2 ^ (64 - 8 * Z.of_nat (S (length l))) * 2 ^ 8) as Hp
    by (rewrite <- Z.pow_add_r by lia; f_equal; lia).
  assert (2 ^ (64 - 8 * Z.of_nat (length l)) <= 2 ^ 64) as Hle by (apply Z.pow_le_mono_r; lia).
  assert (2 ^ 8 <= 2 ^ (64 - 8 * Z.of_nat (length l))) as Hge by (apply Z.pow_le_mono_r; lia).
  assert (0 <= Z.shiftl m 8 < 2 ^ (64 - 8 * Z.of_nat (length l))) as Hs.
  { rewrite Z.shiftl_mul_pow2 by lia. rewrite Hp. nia. }
  rewrite u64_id by lia. rewrite <- app_assoc, IH; [|lia | apply lor_bound; lia].
  rewrite le_combine_app, Z.shiftl_lor, Z.shiftl_shiftl by lia.
  change (le_combine [b]) with (Z.lor (byte.unsigned b) 0). rewrite Z.lor_0_r. replace (8 + 8 * Z.of_nat (length l)) with (8 * Z.of_nat (S (length l))) by lia.
  replace (8 * Z.of_nat (length l)) with (Z.of_nat (length l) * 8) by lia.
  rewrite <- Z.lor_assoc. f_equal. apply Z.lor_comm.
Qed.

(** After a power cut the disk is accepted exactly when the drive answers,
    the store's first sector can be read, and it parses as a superblock with
    the snapshot store's magic; a failed re-identification is never followed
    by a read. *)
Theorem disk_reattach_spec {W} (probe : W -> Z * W) (read : W -> Z -> Z * list byte * W) (lba : Z) (f : ptr (W -> Z * W)) (w : W) :
  (forall w, length (read w lba).1.2 = 512%nat) ->
  let '(rc1, w1) := probe w in
  let '(rc2, sector, w2) := read w1 lba in
  let '(rc, w') := checkpoint_disk_reattach (& {| flush := f; reprobe := & probe; read_sector := & read; store_lba := lba |}) w in
  (rc = CHECKPOINT_DISK_OK <-> rc1 = 0 /\ rc2 = 0 /\ sb_magic (superblock_of_bytes sector) = SNAPSHOT_SB_MAGIC) /\
  w' = (if rc1 =? 0 then w2 else w1).
Proof.
  intros Hlen. unfold checkpoint_disk_reattach. destruct (probe w) as [rc1 w1]. pose proof (Hlen w1) as Hl.
  destruct (read w1 lba) as [[rc2 sector] w2]. cbn [fst snd] in Hl.
  assert (checkpoint_disk_read_magic sector = sb_magic (superblock_of_bytes sector)) as Hmagic.
  { unfold checkpoint_disk_read_magic. rewrite <- (take_drop 8 sector) at 1.
    assert (length (take 8 sector) = 8%nat) as H8 by (rewrite length_take; lia).
    rewrite <- H8 at 1. rewrite magic_loop_combine by (rewrite H8; cbn; lia). rewrite Z.shiftl_0_l. reflexivity. }
  destruct (Z.eqb_spec rc1 0) as [->|H1]; cbn [negb]; [|split; [split; [discriminate | intros [? _]; contradiction] | reflexivity]].
  destruct (Z.eqb_spec rc2 0) as [->|H2]; cbn [negb]; [|split; [split; [discriminate | intros (_ & ? & _); contradiction] | reflexivity]].
  rewrite Hmagic. change CHECKPOINT_DISK_SB_MAGIC with SNAPSHOT_SB_MAGIC.
  destruct (Z.eqb_spec (sb_magic (superblock_of_bytes sector)) SNAPSHOT_SB_MAGIC) as [E|E]; cbn [negb]; split; try reflexivity.
  - split; auto.
  - split; [discriminate | intros (_ & _ & ?); contradiction].
Qed.

Lemma disk_reattach_spec_witness :
  let probe := fun w : nat => (0, S w) in
  let read := fun (w : nat) (lba : Z) => (0, zeros 512, S w) in
  let '(rc1, w1) := probe 0%nat in
  let '(rc2, sector, w2) := read w1 0 in
  let '(rc, w') := checkpoint_disk_reattach (& {| flush := NULL; reprobe := & probe; read_sector := & read; store_lba := 0 |}) 0%nat in
  (rc = CHECKPOINT_DISK_OK <-> rc1 = 0 /\ rc2 = 0 /\ sb_magic (superblock_of_bytes sector) = SNAPSHOT_SB_MAGIC) /\
  w' = (if rc1 =? 0 then w2 else w1).
Proof.
  intros probe read. apply (disk_reattach_spec probe read 0 NULL 0%nat). intros w. apply length_zeros.
Defined.

(** ** The framebuffer *)

(** A captured framebuffer repaints: the size that capture accepted is the
    scanline length times the height (as the machine multiplies), and
    re-attaching sets the captured mode and then blits the pixel shadow with
    that size, stopping at the first step that fails. *)
Theorem fb_capture_reattach {W} (st0 : checkpoint_fb_state_t) (mode width height bpp pitch size : Z)
    (sm : W -> Z -> Z -> Z -> Z -> Z * W) (bl : W -> list byte -> Z -> Z * W) (shadow : list byte) (w : W) :
  let '(rc, st) := checkpoint_fb_capture_state (& st0) mode width height bpp pitch size in
  (rc = CHECKPOINT_FB_OK <->
     width <> 0 /\ height <> 0 /\ bpp <> 0 /\ pitch <> 0 /\ size <> 0 /\ size = u32 (pitch * height)) /\
  (rc = CHECKPOINT_FB_OK ->
     checkpoint_fb_reattach st (& shadow) (& {| set_mode := & sm; blit := & bl |}) w =
     let '(rc1, w1) := sm w mode width height bpp in
     if negb (rc1 =? 0) then (CHECKPOINT_FB_ERR_MODE, w1)
     else let '(rc2, w2) := bl w1 shadow size in
          ((if rc2 =? 0 then CHECKPOINT_FB_OK else CHECKPOINT_FB_ERR_BLIT), w2)).
Proof.
  unfold checkpoint_fb_capture_state.
  set (st := {| fb_width := width |}). split.
  - unfold checkpoint_fb_validate, st. cbn [fb_valid fb_width fb_height fb_bpp fb_pitch fb_size Z.eqb].
    destruct (Z.eqb_spec width 0), (Z.eqb_spec height 0), (Z.eqb_spec bpp 0), (Z.eqb_spec pitch 0), (Z.eqb_spec size 0);
      cbn [orb]; try (split; [discriminate | intuition contradiction]).
    destruct (Z.eqb_spec size (u32 (pitch * height))) as [E|E]; cbn [negb].
    + split; [intros _; auto 10 | reflexivity].
    + split; [discriminate | intros (_ & _ & _ & _ & _ & ?); contradiction].
  - intros Hrc. unfold checkpoint_fb_reattach. cbn [fb_valid st Z.eqb]. rewrite Hrc. cbn [Z.eqb CHECKPOINT_FB_OK negb].
    cbn [fb_mode fb_width fb_height fb_bpp fb_size st]. destruct (sm w mode width height bpp) as [rc1 w1].
    destruct (negb (rc1 =? 0)); [reflexivity|]. destruct (bl w1 shadow size) as [rc2 w2].
    destruct (rc2 =? 0); reflexivity.
Qed.

(** The product wraps: 64 KiB are accepted as the size of a 4 GiB shadow. *)
Example fb_size_wraps st0 :
  (checkpoint_fb_capture_state (& st0) 0 1024 0x10000 32 0x10001 0x10000).1 = CHECKPOINT_FB_OK.
Proof. reflexivity. Qed.
