(* ===== verification/RestoreSeq.v ===== *)
(** * Bringing the whole machine back (kernel/checkpoint_restore_seq.c,
    kernel/checkpoint_boot_v2.c)

    The sequencer runs the injected steps in order and falls back to a cold
    boot; kernel-state blobs are put back together from their page-sized
    chunks.  The steps' context is the state [C] they thread. *)
From Stdlib Require Import ZArith Lia.
From S2P Require Import Prelude.
From S2P Require Import BlockDevice SnapshotStore Barrier Vmm Checkpoint ExtState CheckpointRestore DriverReattach.
Open Scope Z_scope.
Open Scope c_scope.

(** ** The sequencer *)
Inductive checkpoint_restore_outcome_t := CHECKPOINT_RESTORE_COLD_BOOT | CHECKPOINT_RESTORE_RESUMED.
Inductive checkpoint_restore_phase_t :=
  | CHECKPOINT_PHASE_NONE | CHECKPOINT_PHASE_KERNEL_STATE | CHECKPOINT_PHASE_DRIVER_REATTACH
  | CHECKPOINT_PHASE_USER_RESTORE | CHECKPOINT_PHASE_DONE.

Record checkpoint_restore_result_t := {
  rr_outcome : checkpoint_restore_outcome_t;
  rr_reached : checkpoint_restore_phase_t;
  rr_fell_back : Z }.

Definition cold (reached : checkpoint_restore_phase_t) (fell_back : Z) : checkpoint_restore_result_t :=
  {| rr_outcome := CHECKPOINT_RESTORE_COLD_BOOT; rr_reached := reached; rr_fell_back := fell_back |}.

Section sequence.
Context {C : Type}.

Record checkpoint_restore_steps_t := {
  has_checkpoint : ptr (C -> Z * C);
  restore_kernel_state : ptr (C -> Z * C);
  reattach_drivers : ptr (C -> Z * C);
  restore_user : ptr (C -> Z * C) }.

Definition checkpoint_restore_sequence (steps : ptr checkpoint_restore_steps_t) (ctx : C)
  : checkpoint_restore_result_t * C :=
  match steps with
  | Some {| has_checkpoint := Some has; restore_kernel_state := Some kernel;
            reattach_drivers := Some drivers; restore_user := Some user |} =>
      let '(r, ctx) := has ctx in
      if r =? 0 then (cold CHECKPOINT_PHASE_NONE 0, ctx)
      else
        let '(r, ctx) := kernel ctx in
        if negb (r =? 0) then (cold CHECKPOINT_PHASE_KERNEL_STATE 1, ctx)
        else
          let '(r, ctx) := drivers ctx in
          if negb (r =? 0) then (cold CHECKPOINT_PHASE_DRIVER_REATTACH 1, ctx)
          else
            let '(r, ctx) := user ctx in
            if negb (r =? 0) then (cold CHECKPOINT_PHASE_USER_RESTORE 1, ctx)
            else
              ({| rr_outcome := CHECKPOINT_RESTORE_RESUMED; rr_reached := CHECKPOINT_PHASE_DONE;
                  rr_fell_back := 0 |}, ctx)
  | _ => (cold CHECKPOINT_PHASE_NONE 1, ctx)
  end.
End sequence.
#[global] Arguments checkpoint_restore_steps_t : clear implicits.

(** ** Reassembling a blob *)
Definition CHECKPOINT_BLOB_CHUNK : Z := 4096.
Definition CHECKPOINT_BLOB_OK : Z := 0.
Definition CHECKPOINT_BLOB_ERR : Z := -1.
Definition CHECKPOINT_BLOB_COMPLETE : Z := 1.

Definition checkpoint_blob_total (virt_addr : Z) : Z := u32 (Z.shiftr virt_addr 32).
Definition checkpoint_blob_index (virt_addr : Z) : Z := u32 (Z.land virt_addr 0xFFFFFFFF).

(** [buf[off .. off + n)] overwritten with the first [n] bytes of [src]. *)
Definition copy_at (buf : list byte) (off n : Z) (src : list byte) : list byte :=
  take (Z.to_nat off) buf ++ take (Z.to_nat n) src ++ drop (Z.to_nat (off + n)) buf.

Definition checkpoint_blob_place (buf : ptr (list byte)) (cap total index : Z) (chunk : ptr (list byte))
    (received : ptr Z) : Z * ptr (list byte) * ptr Z :=
  match buf, chunk, received with
  | Some b, Some src, Some got =>
      if (total =? 0) || (cap <? total) then (CHECKPOINT_BLOB_ERR, buf, received)
      else
        let off := u32 (index * CHECKPOINT_BLOB_CHUNK) in
        if total <=? off then (CHECKPOINT_BLOB_ERR, buf, received)
        else
          let n := total - off in
          let n := if CHECKPOINT_BLOB_CHUNK <? n then CHECKPOINT_BLOB_CHUNK else n in
          let got := u32 (got + n) in
          ((if total <=? got then CHECKPOINT_BLOB_COMPLETE else CHECKPOINT_BLOB_OK),
           & (copy_at b off n src), & got)
  | _, _, _ => (CHECKPOINT_BLOB_ERR, buf, received)
  end.

(** ** The boot adapter *)
Definition CHECKPOINT_TAG_PROCTABLE : Z := 1.
Definition CHECKPOINT_TAG_FILETABLE : Z := 2.
Definition CHECKPOINT_TAG_IPC : Z := 3.
Definition CHECKPOINT_TAG_FRAMEBUFFER : Z := 4.
Definition CHECKPOINT_TAG_FRAMEBUFFER_PIXELS : Z := 5.
Definition BOOT_V2_MAX_BLOBS : Z := 6.

Record blob_slot_t := {
  bs_tag : Z;
  bs_buf : ptr (list byte);
  bs_total : Z;
  bs_received : Z;
  bs_in_use : bool;
  bs_complete : bool }.

Definition empty_slot : blob_slot_t :=
  {| bs_tag := 0; bs_buf := NULL; bs_total := 0; bs_received := 0; bs_in_use := false; bs_complete := false |}.

Fixpoint find_slot (f : blob_slot_t -> bool) (slots : list blob_slot_t) (i : nat) : option nat :=
  match slots with
  | [] => None
  | s :: slots => if f s then Some i else find_slot f slots (S i)
  end.

(** The slot's index; [alloc tag]: the buffer could be allocated.  Its bytes
    are not set: all of them are written before the blob is dispatched. *)
Definition slot_for_tag (alloc : Z -> bool) (slots : list blob_slot_t) (tag total : Z)
  : option nat * list blob_slot_t :=
  match find_slot (fun s => bs_in_use s && (bs_tag s =? tag)) slots 0 with
  | Some i => (Some i, slots)
  | None =>
      match find_slot (fun s => negb (bs_in_use s)) slots 0 with
      | Some i =>
          let buf := if alloc tag then & (zeros (Z.to_nat (if total =? 0 then 1 else total))) else NULL in
          let s := {| bs_tag := tag; bs_buf := buf; bs_total := total; bs_received := 0;
                      bs_in_use := alloc tag; bs_complete := false |} in
          ((if alloc tag then Some i else None), <[i := s]> slots)
      | None => (None, slots)
      end
  end.

(** The subsystems' restorers, over the kernel state [K] they rebuild. *)
Record restorers_t {K : Type} := {
  restore_proctable : list byte -> Z -> K -> Z * K;
  restore_filetable : list byte -> Z -> K -> Z * K;
  restore_ipc : list byte -> Z -> K -> Z * K;
  restore_fb_state : list byte -> Z -> K -> Z * K;
  restore_fb_pixels : list byte -> Z -> K -> Z * K }.
#[global] Arguments restorers_t : clear implicits.

Section boot.
Context {D K : Type}.
Variable restorers : restorers_t K.
Variable alloc : Z -> bool.

Definition dispatch_blob (s : blob_slot_t) (k : K) : Z * K :=
  let buf := default [] (bs_buf s) in
  if bs_tag s =? CHECKPOINT_TAG_PROCTABLE then restore_proctable restorers buf (bs_total s) k
  else if bs_tag s =? CHECKPOINT_TAG_FILETABLE then restore_filetable restorers buf (bs_total s) k
  else if bs_tag s =? CHECKPOINT_TAG_IPC then restore_ipc restorers buf (bs_total s) k
  else if bs_tag s =? CHECKPOINT_TAG_FRAMEBUFFER then restore_fb_state restorers buf (bs_total s) k
  else if bs_tag s =? CHECKPOINT_TAG_FRAMEBUFFER_PIXELS then restore_fb_pixels restorers buf (bs_total s) k
  else (0, k).

Definition boot_has_checkpoint (crc_ok : bool) (store : snapshot_store_t D) (d : D) : Z :=
  if (snapshot_store_load crc_ok (& store) d (& reader_zero)).1 =? SNAPSHOT_OK then 1 else 0.

(** One record of the loop: the [break] is an error code other than 0. *)
Definition boot_record (x : list blob_slot_t * K) (rec : snapshot_page_record_t)
  : Z * (list blob_slot_t * K) :=
  let '(slots, k) := x in
  if negb (has_flag (pr_flags rec) CHECKPOINT_REC_KERNEL) then (0, x)
  else
    let total := checkpoint_blob_total (pr_virt_addr rec) in
    let index := checkpoint_blob_index (pr_virt_addr rec) in
    match slot_for_tag alloc slots (pr_pid rec) total with
    | (None, slots) => (-1, (slots, k))
    | (Some i, slots) =>
        match slots !! i with
        | None => (-1, (slots, k))
        | Some s =>
            let '(pr, buf, received) := checkpoint_blob_place (bs_buf s) (bs_total s) total index
                                          (& (pr_page_data rec)) (& (bs_received s)) in
            let set c := {| bs_tag := bs_tag s; bs_buf := buf; bs_total := bs_total s;
                            bs_received := default 0 received; bs_in_use := bs_in_use s; bs_complete := c |} in
            if pr =? CHECKPOINT_BLOB_ERR then (-1, (<[i := set (bs_complete s)]> slots, k))
            else if (pr =? CHECKPOINT_BLOB_COMPLETE) && negb (bs_complete s) then
              let '(rc, k) := dispatch_blob (set true) k in
              ((if negb (rc =? 0) then -1 else 0), (<[i := set true]> slots, k))
            else (0, (<[i := set (bs_complete s)]> slots, k))
        end
    end.

(** The loop stops at the first record that cannot be read or fails. *)
Definition boot_restore_kernel_state (crc_ok : bool) (store : snapshot_store_t D) (d : D) (k : K) (fuel : nat)
  : option (Z * K) :=
  match snapshot_store_load crc_ok (& store) d (& reader_zero) with
  | (rc, reader) =>
      if negb (rc =? SNAPSHOT_OK) then Some (-1, k)
      else
        match restore_loop boot_record store d reader (replicate (Z.to_nat BOOT_V2_MAX_BLOBS) empty_slot, k) 0 fuel with
        | None => None
        | Some (rc, _, (_, k)) => Some (rc, k)
        end
  end.
End boot.

(** ** The steps bound to the subsystems

    [K] is the kernel state the restorers rebuild, the process table in it
    included; the hardware is [W].  The loops get [st_max_records + 1] fuel,
    which they never use up (RestoreSeqSpec). *)
Section boot_v2.
Context {D K Dev W : Type}.
Variable restorers : restorers_t K.
Variable process_get_by_pid : K -> Z -> ptr kprocess_t.
Variable write_process : K -> kprocess_t -> K.
Variable scheduler_add_process : K -> Z -> K.

Record boot_state_t := {
  b_kernel : K;
  b_mem : restore_world_t;
  b_engine : engine_t;
  b_drivers : list (checkpoint_driver_entry_t Dev W);
  b_hw : W }.

Definition boot_fuel (store : snapshot_store_t D) : nat := S (Z.to_nat (st_max_records store)).

Definition boot_step_kernel (store : snapshot_store_t D) (d : D) (b : boot_state_t) : Z * boot_state_t :=
  match boot_restore_kernel_state restorers (fun _ => true) true store d (b_kernel b) (boot_fuel store) with
  | Some (rc, k) => (rc, {| b_kernel := k; b_mem := b_mem b; b_engine := b_engine b; b_drivers := b_drivers b;
                            b_hw := b_hw b |})
  | None => (-1, b)
  end.

Definition boot_reattach_drivers (b : boot_state_t) : Z * boot_state_t :=
  let '(_, r, w) := checkpoint_driver_reattach_all (& (b_drivers b)) CHECKPOINT_REATTACH_CONTINUE (b_hw b) in
  (0, {| b_kernel := b_kernel b; b_mem := b_mem b; b_engine := b_engine b; b_drivers := default [] r; b_hw := w |}).

Definition boot_restore_user (store : snapshot_store_t D) (d : D) (b : boot_state_t) : Z * boot_state_t :=
  match checkpoint_restore_boot process_get_by_pid write_process scheduler_add_process true true
          (fun _ => true) (fun _ => true) (& store) d (b_mem b) (b_engine b) (b_kernel b) (boot_fuel store) with
  | Some (restored, mem, g, k) =>
      ((if restored <? 0 then -1 else 0),
       {| b_kernel := k; b_mem := mem; b_engine := g; b_drivers := b_drivers b; b_hw := b_hw b |})
  | None => (-1, b)
  end.

Definition checkpoint_boot_v2 (store : ptr (snapshot_store_t D)) (d : D) (b : boot_state_t) : Z * boot_state_t :=
  match store with
  | NULL => (CHECKPOINT_ERR_NO_CHECKPOINT, b)
  | Some st =>
      let steps := {| has_checkpoint := & (fun b => (boot_has_checkpoint true st d, b));
                      restore_kernel_state := & (boot_step_kernel st d);
                      reattach_drivers := & boot_reattach_drivers;
                      restore_user := & (boot_restore_user st d) |} in
      let '(r, b) := checkpoint_restore_sequence (& steps) b in
      (match rr_outcome r with
       | CHECKPOINT_RESTORE_RESUMED => CHECKPOINT_OK
       | CHECKPOINT_RESTORE_COLD_BOOT => CHECKPOINT_ERR_NO_CHECKPOINT
       end, b)
  end.
End boot_v2.
#[global] Arguments boot_state_t : clear implicits.
