(* ===== verification/RestoreSeqSpec.v ===== *)
(** * Kernel-state blobs come back as they were captured

    A blob is cut into chunk records when it is captured, and the records
    reach the restore path in whatever order the slot holds them; the boot
    loop dispatches each blob once, complete and byte for byte. *)
From Stdlib Require Import ZArith Lia Permutation.
From stdpp Require Import gmap.
From S2P Require Import Prelude.
From S2P Require Import BlockDevice SnapshotStore SnapshotStoreSpec Barrier Vmm Checkpoint ExtState.
From S2P Require Import CheckpointRestore DriverReattach RestoreSeq CheckpointSpec CheckpointTakeSpec CheckpointRestoreSpec.
Open Scope Z_scope.
Open Scope c_scope.

(** ** The chunks of a blob *)
Definition blob_ok (data : list byte) : Prop := 0 < Z.of_nat (length data) < 2 ^ 32 - 4095.
Definition blob_chunks (data : list byte) : Z := (Z.of_nat (length data) + 4095) / 4096.
(** The bytes chunk [i] holds. *)
Definition chunk_len (data : list byte) (i : Z) : Z := Z.min 4096 (Z.of_nat (length data) - 4096 * i).
Definition chunk_data (data : list byte) (i : Z) : list byte :=
  zero_padded 4096 (take (Z.to_nat (chunk_len data i)) (drop (Z.to_nat (4096 * i)) data)).
Definition chunk_vaddr (data : list byte) (i : Z) : Z := Z.lor (u64 (Z.shiftl (Z.of_nat (length data)) 32)) i.
Definition chunk_capture (epoch tag : Z) (data : list byte) (i : Z) : checkpoint_capture_t :=
  {| c_epoch := epoch; c_pid := tag; c_flags := CHECKPOINT_REC_KERNEL; c_virt_addr := chunk_vaddr data i;
     c_data := chunk_data data i |}.

Lemma chunk_range data i : blob_ok data -> 0 <= i < blob_chunks data <-> 0 <= i /\ 4096 * i < Z.of_nat (length data).
Proof.
  intros H. unfold blob_chunks, blob_ok in *. pose proof (Z.div_mod (Z.of_nat (length data) + 4095) 4096 ltac:(lia)).
  pose proof (Z.mod_pos_bound (Z.of_nat (length data) + 4095) 4096 ltac:(lia)). split; intros; split; lia.
Qed.

Lemma chunks_bound data : blob_ok data -> 0 < blob_chunks data < 2 ^ 20.
Proof.
  intros H. unfold blob_chunks, blob_ok in *. split; [apply Z.div_str_pos; lia | apply Z.div_lt_upper_bound; lia].
Qed.

Lemma vaddr_sum size i :
  0 <= size < 2 ^ 32 -> 0 <= i < 2 ^ 32 -> Z.lor (u64 (Z.shiftl size 32)) i = size * 2 ^ 32 + i.
Proof.
  intros Hs Hi. rewrite u64_id by (rewrite Z.shiftl_mul_pow2 by lia; lia).
  rewrite Z.shiftl_mul_pow2 by lia. symmetry. rewrite Z.add_nocarry_lxor, <- Z.lxor_lor; [reflexivity|..].
  all: apply Z.bits_inj'; intros n Hn; rewrite Z.land_spec, Z.bits_0; destruct (Z.ltb_spec n 32).
  all: first [rewrite Z.mul_pow2_bits_low by lia; reflexivity
             | rewrite <- (Z.mod_small i (2 ^ 32)) by lia; rewrite (Z.mod_pow2_bits_high i) by lia; apply andb_false_r].
Qed.

Lemma vaddr_fields size i :
  0 <= size < 2 ^ 32 -> 0 <= i < 2 ^ 32 ->
  checkpoint_blob_total (Z.lor (u64 (Z.shiftl size 32)) i) = size /\
  checkpoint_blob_index (Z.lor (u64 (Z.shiftl size 32)) i) = i.
Proof.
  intros Hs Hi. rewrite vaddr_sum by assumption.
  unfold checkpoint_blob_total, checkpoint_blob_index. change 0xFFFFFFFF with (Z.ones 32).
  rewrite Z.shiftr_div_pow2, Z.land_ones by lia.
  rewrite Z.add_comm, Z.div_add, Z.mod_add, Z.div_small, Z.mod_small by lia. cbn [Z.add].
  split; apply u32_id; lia.
Qed.

(** ** Capturing *)
Lemma capture_chunks_spec data epoch tag n : forall g i,
  blob_ok data -> 0 <= i -> i + Z.of_nat n = blob_chunks data -> current_epoch (g_checkpoint g) = epoch ->
  exists cnt, capture_chunks (fun _ => true) g tag data (Z.of_nat (length data)) n i =
    (CHECKPOINT_OK, with_captures g (reverse (chunk_capture epoch tag data <$> seqZ i (Z.of_nat n)) ++ g_captures g) cnt).
Proof.
  induction n as [|n IH]; intros g i Hb Hi Hn He.
  { exists (g_capture_count g). destruct g. reflexivity. }
  pose proof (chunks_bound data Hb) as Hc. pose proof (proj1 (chunk_range data i Hb) ltac:(lia)) as [_ Hr]. unfold blob_ok in Hb.
  cbn [capture_chunks negb]. unfold PAGE_SIZE. rewrite (u32_id (i * 4096)), u32_id by lia.
  destruct (IH (push_capture g tag CHECKPOINT_REC_KERNEL (chunk_vaddr data i) (chunk_data data i)) (i + 1)) as [cnt H];
    [assumption | lia | lia | exact He|].
  exists cnt. rewrite (u32_id (i + 1)) by lia.
  assert ((if Z.of_nat (length data) - i * 4096 <? 4096 then Z.of_nat (length data) - i * 4096 else 4096) = chunk_len data i) as ->
    by (unfold chunk_len; destruct (Z.ltb_spec (Z.of_nat (length data) - i * 4096) 4096); lia).
  unfold chunk_data, chunk_vaddr in H. replace (4096 * i) with (i * 4096) in H by lia.
  rewrite H. f_equal. unfold push_capture. cbn [with_captures g_captures]. rewrite He.
  replace (seqZ i (Z.of_nat (S n))) with (i :: seqZ (i + 1) (Z.of_nat n)).
  2:{ rewrite (seqZ_cons i) by lia. f_equal. f_equal; lia. }
  rewrite fmap_cons, reverse_cons, <- app_assoc.
  unfold chunk_capture, chunk_data, chunk_vaddr. replace (4096 * i) with (i * 4096) by lia. reflexivity.
Qed.

Lemma capture_blob_spec data g tag :
  blob_ok data ->
  exists cnt, checkpoint_capture_kernel_blob (fun _ => true) g tag (& data) (Z.of_nat (length data)) =
    (CHECKPOINT_OK,
     with_captures g (reverse (chunk_capture (current_epoch (g_checkpoint g)) tag data <$> seqZ 0 (blob_chunks data)) ++ g_captures g) cnt).
Proof.
  intros Hb. pose proof (chunks_bound data Hb) as Hc. pose proof Hb as Hb'. unfold blob_ok in Hb'.
  unfold checkpoint_capture_kernel_blob. rewrite (proj2 (Z.eqb_neq _ 0)) by lia. unfold PAGE_SIZE.
  rewrite u32_id by lia. replace (Z.of_nat (length data) + 4096 - 1) with (Z.of_nat (length data) + 4095) by lia.
  destruct (capture_chunks_spec data (current_epoch (g_checkpoint g)) tag (Z.to_nat (blob_chunks data)) g 0) as [cnt H];
    [assumption | lia | lia | reflexivity|].
  exists cnt. fold (blob_chunks data). rewrite H. rewrite Z2Nat.id by lia. reflexivity.
Qed.

(** ** Placing *)
Definition blob_bytes (data : list byte) (idx : list Z) : Z := foldr (fun i n => chunk_len data i + n) 0 idx.

Lemma blob_bytes_cons data i idx : blob_bytes data (i :: idx) = chunk_len data i + blob_bytes data idx.
Proof. reflexivity. Qed.

#[export] Instance blob_bytes_perm data : Proper (Permutation ==> eq) (blob_bytes data).
Proof. intros l l' H. unfold blob_bytes. induction H; cbn [foldr]; lia. Qed.

Lemma blob_bytes_app data l l' : blob_bytes data (l ++ l') = blob_bytes data l + blob_bytes data l'.
Proof. unfold blob_bytes. induction l as [|i l IH]; cbn [app foldr]; lia. Qed.

(** The chunks below [n] are the first [4096 * n] bytes. *)
Lemma blob_bytes_prefix data n :
  blob_ok data -> Z.of_nat n <= blob_chunks data ->
  blob_bytes data (seqZ 0 (Z.of_nat n)) = Z.min (4096 * Z.of_nat n) (Z.of_nat (length data)).
Proof.
  intros Hb. induction n as [|n IH]; intros Hn.
  { change (0 = Z.min 0 (Z.of_nat (length data))). lia. }
  rewrite Nat2Z.inj_succ, <- Z.add_1_r, seqZ_app by lia. rewrite blob_bytes_app, IH by lia.
  change (blob_bytes data (seqZ (0 + Z.of_nat n) 1)) with (chunk_len data (Z.of_nat n) + 0).
  pose proof (proj1 (chunk_range data (Z.of_nat n) Hb) ltac:(lia)). unfold chunk_len. lia.
Qed.

Lemma blob_bytes_pos data idx :
  blob_ok data -> Forall (fun i => 0 <= i < blob_chunks data) idx -> Z.of_nat (length idx) <= blob_bytes data idx.
Proof.
  intros Hb. induction 1 as [|i idx Hi _ IH]; [reflexivity|]. pose proof (proj1 (chunk_range data i Hb) Hi).
  rewrite blob_bytes_cons. cbn [length]. unfold chunk_len. lia.
Qed.

(** All chunks, each once, are the whole blob; fewer are less. *)
Lemma blob_bytes_complete data idx :
  blob_ok data -> NoDup idx -> Forall (fun i => 0 <= i < blob_chunks data) idx ->
  blob_bytes data idx <= Z.of_nat (length data) /\
  (Z.of_nat (length data) <= blob_bytes data idx <-> blob_chunks data <= Z.of_nat (length idx)).
Proof.
  intros Hb Hnd Hi. pose proof (chunks_bound data Hb) as Hc.
  assert (idx ⊆+ seqZ 0 (blob_chunks data)) as [rest Hperm]%submseteq_Permutation.
  { apply NoDup_submseteq; [exact Hnd|]. intros i Hin. apply elem_of_seqZ. rewrite Z.add_0_l. exact (proj1 (Forall_forall _ _) Hi i Hin). }
  assert (Forall (fun i => 0 <= i < blob_chunks data) rest) as Hrest.
  { apply Forall_forall. intros i Hin. assert (i ∈ seqZ 0 (blob_chunks data)) as H%elem_of_seqZ; [|lia].
    rewrite Hperm. apply elem_of_app. right. exact Hin. }
  pose proof (blob_bytes_prefix data (Z.to_nat (blob_chunks data)) Hb ltac:(lia)) as Htot. rewrite Z2Nat.id in Htot by lia.
  rewrite Hperm, blob_bytes_app in Htot. apply Permutation_length in Hperm. rewrite length_app, length_seqZ in Hperm.
  pose proof (blob_bytes_pos data rest Hb Hrest) as Hpos.
  assert (Z.of_nat (length data) <= 4096 * blob_chunks data) as Hmax.
  { unfold blob_chunks. pose proof (Z.div_mod (Z.of_nat (length data) + 4095) 4096 ltac:(lia)).
    pose proof (Z.mod_pos_bound (Z.of_nat (length data) + 4095) 4096 ltac:(lia)). lia. }
  assert (length rest = 0%nat -> blob_bytes data rest = 0) as Hz by (destruct rest; [reflexivity | discriminate]).
  split; [lia|]. split; intros; lia.
Qed.

Record placed (data : list byte) (idx : list Z) (buf : list byte) (received : Z) : Prop := {
  pl_length : length buf = length data;
  pl_nodup : NoDup idx;
  pl_range : Forall (fun i => 0 <= i < blob_chunks data) idx;
  pl_received : received = blob_bytes data idx;
  pl_bytes : forall i, i ∈ idx -> forall j, 4096 * i <= Z.of_nat j < 4096 * (i + 1) -> buf !! j = data !! j }.

Lemma placed_nil data buf : length buf = length data -> placed data [] buf 0.
Proof. intros H. constructor; [exact H | constructor | constructor | reflexivity | set_solver]. Qed.

Lemma placed_full data idx buf received :
  blob_ok data -> placed data idx buf received -> blob_chunks data <= Z.of_nat (length idx) -> buf = data.
Proof.
  intros Hb [Hl Hnd Hi _ Hbytes] Hfull. apply list_eq. intros j.
  destruct (Nat.lt_ge_cases j (length data)) as [Hj|Hj].
  2:{ rewrite !lookup_ge_None_2 by lia. reflexivity. }
  pose proof (Z.div_mod (Z.of_nat j) 4096 ltac:(lia)). pose proof (Z.mod_pos_bound (Z.of_nat j) 4096 ltac:(lia)).
  pose proof (chunks_bound data Hb) as Hc.
  apply (Hbytes (Z.of_nat j / 4096)); [|lia].
  assert (seqZ 0 (blob_chunks data) ≡ₚ idx) as Hperm.
  { symmetry. apply submseteq_length_Permutation; [|rewrite length_seqZ; lia].
    apply NoDup_submseteq; [exact Hnd|]. intros i Hin. apply elem_of_seqZ. rewrite Z.add_0_l. exact (proj1 (Forall_forall _ _) Hi i Hin). }
  rewrite <- Hperm. apply elem_of_seqZ. rewrite Z.add_0_l. apply chunk_range; [exact Hb|].
  split; [apply Z.div_pos; lia | lia].
Qed.

(** The bytes of the blob under a chunk. *)
Lemma chunk_lookup data i k :
  blob_ok data -> 0 <= i < blob_chunks data -> Z.of_nat k < chunk_len data i ->
  take (Z.to_nat (chunk_len data i)) (chunk_data data i) !! k = data !! (Z.to_nat (4096 * i) + k)%nat.
Proof.
  intros Hb Hi Hk. pose proof (proj1 (chunk_range data i Hb) Hi) as Hr. unfold chunk_data, zero_padded, chunk_len in *.
  rewrite lookup_take_lt by lia. rewrite lookup_app_l.
  2:{ rewrite length_take, length_drop. lia. }
  rewrite lookup_take_lt by lia. apply lookup_drop.
Qed.

Lemma place_step data idx buf received i :
  blob_ok data -> placed data idx buf received -> i ∉ idx -> 0 <= i < blob_chunks data ->
  exists buf',
    checkpoint_blob_place (& buf) (Z.of_nat (length data)) (Z.of_nat (length data)) i (& (chunk_data data i)) (& received) =
      (if blob_chunks data <=? Z.of_nat (length (i :: idx)) then CHECKPOINT_BLOB_COMPLETE else CHECKPOINT_BLOB_OK,
       & buf', & (blob_bytes data (i :: idx))) /\
    placed data (i :: idx) buf' (blob_bytes data (i :: idx)).
Proof.
  intros Hb Hpl Hfresh Hi. pose proof (chunks_bound data Hb) as Hc. pose proof (proj1 (chunk_range data i Hb) Hi) as [_ Hr].
  destruct Hpl as [Hl Hnd Hrange Hrec Hbytes]. pose proof Hb as Hb'. unfold blob_ok in Hb'.
  assert (NoDup (i :: idx)) as Hnd' by (constructor; assumption).
  assert (Forall (fun i => 0 <= i < blob_chunks data) (i :: idx)) as Hrange' by (constructor; assumption).
  destruct (blob_bytes_complete data (i :: idx) Hb Hnd' Hrange') as [Hle Hiff].
  pose proof (blob_bytes_pos data (i :: idx) Hb Hrange') as Hpos.
  set (buf' := copy_at buf (4096 * i) (chunk_len data i) (chunk_data data i)). exists buf'.
  assert (length (take (Z.to_nat (chunk_len data i)) (chunk_data data i)) = Z.to_nat (chunk_len data i)) as Hcl.
  { unfold chunk_data, zero_padded. rewrite length_take, length_app, length_zeros, length_take, length_drop.
    unfold chunk_len. lia. }
  split.
  - unfold checkpoint_blob_place. unfold CHECKPOINT_BLOB_CHUNK. rewrite (proj2 (Z.eqb_neq _ 0)), (proj2 (Z.ltb_ge _ _)) by lia.
    cbn [orb]. rewrite u32_id by lia. rewrite (proj2 (Z.leb_gt _ _)) by lia.
    replace (i * 4096) with (4096 * i) by lia.
    assert ((if 4096 <? Z.of_nat (length data) - 4096 * i then 4096 else Z.of_nat (length data) - 4096 * i) = chunk_len data i) as ->
      by (unfold chunk_len; destruct (Z.ltb_spec 4096 (Z.of_nat (length data) - 4096 * i)); lia).
    subst received. replace (blob_bytes data idx + chunk_len data i) with (blob_bytes data (i :: idx)) by (rewrite blob_bytes_cons; lia).
    rewrite u32_id by (cbn [length] in Hpos; lia).
    destruct (Z.leb_spec (Z.of_nat (length data)) (blob_bytes data (i :: idx))),
      (Z.leb_spec (blob_chunks data) (Z.of_nat (length (i :: idx)))); try reflexivity; lia.
  - constructor; [|exact Hnd' | exact Hrange' | reflexivity|].
    + unfold buf', copy_at. rewrite !length_app, Hcl, length_take, length_drop. unfold chunk_len. lia.
    + intros k Hk j Hj. unfold buf', copy_at. destruct (Z.eq_dec k i) as [->|Hne].
      * destruct (Z.lt_ge_cases (Z.of_nat j) (Z.of_nat (length data))) as [Hjl|Hjl].
        -- rewrite lookup_app_r by (rewrite length_take; lia). rewrite length_take, Nat.min_l by lia.
           rewrite lookup_app_l by (rewrite Hcl; unfold chunk_len; lia).
           rewrite chunk_lookup by (try assumption; unfold chunk_len; lia). f_equal. lia.
        -- rewrite !lookup_ge_None_2; [reflexivity | lia|].
           rewrite !length_app, Hcl, length_take, length_drop. unfold chunk_len. lia.
      * assert (k ∈ idx) as Hin by (apply elem_of_cons in Hk as [->|]; [contradiction | assumption]).
        rewrite <- (Hbytes k Hin j Hj). destruct (Z.lt_ge_cases k i) as [Hlt|Hgt].
        -- rewrite lookup_app_l by (rewrite length_take; lia). apply lookup_take_lt. lia.
        -- rewrite lookup_app_r by (rewrite length_take; lia). rewrite length_take, Nat.min_l by lia.
           rewrite lookup_app_r by (rewrite Hcl; unfold chunk_len; lia). rewrite Hcl, lookup_drop. f_equal.
           unfold chunk_len. lia.
Qed.

(** ** One blob, in any order *)

(** Place the chunk records one after the other: the codes, the buffer, the
    bytes received. *)
Fixpoint place_records (cap : Z) (buf : list byte) (received : Z) (cs : list checkpoint_capture_t)
  : list Z * list byte * Z :=
  match cs with
  | [] => ([], buf, received)
  | c :: cs =>
      let '(rc, b, r) := checkpoint_blob_place (& buf) cap (checkpoint_blob_total (c_virt_addr c))
                           (checkpoint_blob_index (c_virt_addr c)) (& (c_data c)) (& received) in
      let '(codes, buf, received) := place_records cap (default [] b) (default 0 r) cs in
      (rc :: codes, buf, received)
  end.

Lemma chunk_fields data i :
  blob_ok data -> 0 <= i < blob_chunks data ->
  checkpoint_blob_total (chunk_vaddr data i) = Z.of_nat (length data) /\ checkpoint_blob_index (chunk_vaddr data i) = i.
Proof.
  intros Hb Hi. pose proof (chunks_bound data Hb). unfold blob_ok in Hb. apply vaddr_fields; lia.
Qed.

Lemma place_all data epoch tag rest : forall idx buf received,
  blob_ok data -> placed data idx buf received -> idx ++ rest ≡ₚ seqZ 0 (blob_chunks data) -> rest <> [] ->
  place_records (Z.of_nat (length data)) buf received (chunk_capture epoch tag data <$> rest) =
  (replicate (length rest - 1) CHECKPOINT_BLOB_OK ++ [CHECKPOINT_BLOB_COMPLETE], data, Z.of_nat (length data)).
Proof.
  induction rest as [|i rest IH]; intros idx buf received Hb Hpl Hperm Hne; [contradiction|].
  assert (NoDup (idx ++ i :: rest)) as Hnd by (rewrite Hperm; apply NoDup_seqZ).
  assert (0 <= i < blob_chunks data) as Hi.
  { assert (i ∈ seqZ 0 (blob_chunks data)) as H%elem_of_seqZ; [|lia]. rewrite <- Hperm. set_solver. }
  assert (i ∉ idx) as Hfresh by (intros Hin; apply NoDup_app in Hnd as (_ & Hd & _); apply (Hd i Hin); left).
  destruct (chunk_fields data i Hb Hi) as [Ht Hx].
  rewrite fmap_cons. cbn [place_records chunk_capture c_virt_addr c_data]. rewrite Ht, Hx.
  destruct (place_step data idx buf received i Hb Hpl Hfresh Hi) as (buf' & -> & Hpl').
  change (default ?d (& ?x)) with x. change (default ?d (& ?x)) with x.
  pose proof (Permutation_length Hperm) as Hlen. rewrite length_app, length_seqZ in Hlen. cbn [length] in Hlen |- *.
  destruct rest as [|i' rest].
  - rewrite (proj2 (Z.leb_le _ _)) by (cbn [length] in Hlen; lia). cbn.
    rewrite (placed_full _ _ _ _ Hb Hpl') by (cbn [length] in *; lia).
    destruct (blob_bytes_complete data (i :: idx) Hb (pl_nodup _ _ _ _ Hpl') (pl_range _ _ _ _ Hpl')) as [H1 H2].
    f_equal. apply Z.le_antisymm; [exact H1 | apply H2; cbn [length] in *; lia].
  - rewrite (proj2 (Z.leb_gt _ _)) by (cbn [length] in Hlen; lia).
    rewrite (IH (i :: idx) buf' _ Hb Hpl'); [|rewrite <- Hperm; apply Permutation_middle | discriminate].
    cbn [length Nat.sub]. rewrite !Nat.sub_0_r. reflexivity.
Qed.

(** A kernel-state blob survives its chunking: captured as page records,
    and its records placed in any order into a buffer of its size, the last
    one (and no earlier one) reports completion, and the buffer is the blob. *)
Theorem blob_roundtrip (data : list byte) (g : engine_t) (tag : Z) :
  blob_ok data -> g_captures g = [] ->
  let '(rc, g') := checkpoint_capture_kernel_blob (fun _ => true) g tag (& data) (Z.of_nat (length data)) in
  rc = CHECKPOINT_OK /\
  forall cs buf, cs ≡ₚ g_captures g' -> length buf = length data ->
    place_records (Z.of_nat (length data)) buf 0 cs =
    (replicate (length cs - 1) CHECKPOINT_BLOB_OK ++ [CHECKPOINT_BLOB_COMPLETE], data, Z.of_nat (length data)).
Proof.
  intros Hb Hg. destruct (capture_blob_spec data g tag Hb) as [cnt ->]. split; [reflexivity|].
  intros cs buf Hcs Hl. cbn [with_captures g_captures] in Hcs. rewrite Hg, app_nil_r in Hcs.
  rewrite (reverse_Permutation (chunk_capture _ tag data <$> _)) in Hcs.
  destruct (Permutation_map_inv _ _ Hcs) as (idx & -> & Hidx).
  change (map ?f idx) with (f <$> idx). rewrite length_fmap. pose proof (chunks_bound data Hb) as Hc.
  apply (place_all data _ tag idx [] buf 0 Hb (placed_nil data buf Hl)); [symmetry; exact Hidx|].
  intros ->. apply Permutation_length in Hidx. rewrite length_seqZ in Hidx. cbn [length] in Hidx. lia.
Qed.

Lemma blob_roundtrip_witness :
  let '(rc, g') := checkpoint_capture_kernel_blob (fun _ => true) example_engine 2 (& (replicate 5000 Byte.x41)) (Z.of_nat (length (replicate 5000 Byte.x41))) in
  rc = CHECKPOINT_OK /\
  forall cs buf, cs ≡ₚ g_captures g' -> length buf = length (replicate 5000 Byte.x41) ->
    place_records (Z.of_nat (length (replicate 5000 Byte.x41))) buf 0 cs =
    (replicate (length cs - 1) CHECKPOINT_BLOB_OK ++ [CHECKPOINT_BLOB_COMPLETE], replicate 5000 Byte.x41,
     Z.of_nat (length (replicate 5000 Byte.x41))).
Proof.
  apply (blob_roundtrip (replicate 5000 Byte.x41) example_engine 2).
  - unfold blob_ok. rewrite length_replicate. lia.
  - reflexivity.
Defined.

(** ** The order of the restore *)
Definition traced {C} (ph : checkpoint_restore_phase_t) (f : C -> Z * C) (x : C * list checkpoint_restore_phase_t)
  : Z * (C * list checkpoint_restore_phase_t) :=
  let '(rc, c) := f x.1 in (rc, (c, x.2 ++ [ph])).
Definition restore_order : list checkpoint_restore_phase_t :=
  [CHECKPOINT_PHASE_NONE; CHECKPOINT_PHASE_KERNEL_STATE; CHECKPOINT_PHASE_DRIVER_REATTACH; CHECKPOINT_PHASE_USER_RESTORE].

(** C29: the machine comes back in order or not at all: whatever the steps do,
    the ones that ran are the first ones of check, kernel state, drivers,
    users; the machine is resumed exactly when all four ran and succeeded; and
    otherwise the boot is cold, no later step ran, and the result names the
    step that stopped it, a missing checkpoint not counting as a fallback. *)
Theorem restore_sequence_order {C} (has kernel drivers user : C -> Z * C) (c : C) :
  let steps := {| has_checkpoint := & (traced CHECKPOINT_PHASE_NONE has);
                  restore_kernel_state := & (traced CHECKPOINT_PHASE_KERNEL_STATE kernel);
                  reattach_drivers := & (traced CHECKPOINT_PHASE_DRIVER_REATTACH drivers);
                  restore_user := & (traced CHECKPOINT_PHASE_USER_RESTORE user) |} in
  let '(r, (c', trace)) := checkpoint_restore_sequence (& steps) (c, []) in
  trace = take (length trace) restore_order /\
  (rr_outcome r = CHECKPOINT_RESTORE_RESUMED <->
     trace = restore_order /\ exists r0 c1 c2 c3,
       has c = (r0, c1) /\ r0 <> 0 /\ kernel c1 = (0, c2) /\ drivers c2 = (0, c3) /\ user c3 = (0, c')) /\
  (rr_outcome r = CHECKPOINT_RESTORE_COLD_BOOT ->
     last trace = Some (rr_reached r) /\
     rr_fell_back r = (if bool_decide (length trace = 1%nat) then 0 else 1)).
Proof.
  cbv zeta. unfold checkpoint_restore_sequence, traced. cbn [fst snd].
  destruct (has c) as [r0 c1]. destruct (Z.eqb_spec r0 0) as [->|H0].
  { cbn. split; [reflexivity|]. split; [split; [discriminate | intros (? & _); discriminate] | auto]. }
  cbn [fst snd]. destruct (kernel c1) as [r1 c2] eqn:E1. destruct (Z.eqb_spec r1 0) as [->|H1]; cbn [negb].
  2:{ cbn. split; [reflexivity|]. split; [split; [discriminate | intros (? & _); discriminate] | auto]. }
  cbn [fst snd]. destruct (drivers c2) as [r2 c3] eqn:E2. destruct (Z.eqb_spec r2 0) as [->|H2]; cbn [negb].
  2:{ cbn. split; [reflexivity|]. split; [split; [discriminate | intros (? & _); discriminate] | auto]. }
  cbn [fst snd]. destruct (user c3) as [r3 c4] eqn:E3. destruct (Z.eqb_spec r3 0) as [->|H3]; cbn [negb].
  - cbn. split; [reflexivity|]. split; [|discriminate]. split; [|reflexivity]. intros _. split; [reflexivity|].
    exists r0, c1, c2, c3. auto 10.
  - cbn. split; [reflexivity|]. split; [|auto]. split; [discriminate|].
    intros (_ & r0' & c1' & c2' & c3' & [= <- <-] & _ & E1' & E2' & E3'). congruence.
Qed.
