(* ===== verification/BootRestoreSpec.v ===== *)
(** * The boot loop rebuilds every kernel-state blob

    The records of a checkpoint may interleave the chunks of several blobs with
    memory pages and contexts; the loop hands each blob to its restorer once,
    whole. *)
From Stdlib Require Import ZArith Lia Permutation.
From stdpp Require Import gmap.
From S2P Require Import Prelude.
From S2P Require Import BlockDevice AtomicStore SnapshotStore SnapshotStoreSpec Barrier Vmm Checkpoint ExtState.
From S2P Require Import CheckpointRestore DriverReattach RestoreSeq CheckpointSpec CheckpointTakeSpec CheckpointRestoreSpec RestoreSeqSpec.
Open Scope Z_scope.
Open Scope c_scope.

(** ** Slots *)
Lemma find_slot_shift f slots i : find_slot f slots (S i) = S <$> find_slot f slots i.
Proof. revert i; induction slots as [|s l IH]; intros i; cbn; [reflexivity|]. destruct (f s); [reflexivity | apply IH]. Qed.

Lemma find_slot_none f slots i : Forall (fun s => f s = false) slots -> find_slot f slots i = None.
Proof. intros H. revert i. induction H as [|s l Hs _ IH]; intros i; cbn; [reflexivity|]. rewrite Hs. apply IH. Qed.

Lemma find_slot_app f used s rest :
  Forall (fun s => f s = false) used -> f s = true -> find_slot f (used ++ s :: rest) 0 = Some (length used).
Proof.
  intros H Hs. induction H as [|u l Hu _ IH]; cbn [app find_slot length]; [rewrite Hs; reflexivity|].
  rewrite Hu, find_slot_shift, IH. reflexivity.
Qed.

(** The slots in use come first. *)
Definition slots_of (used : list blob_slot_t) : list blob_slot_t :=
  used ++ replicate (Z.to_nat BOOT_V2_MAX_BLOBS - length used) empty_slot.

Lemma slot_for_old tag total used1 s used2 :
  Forall (fun u => bs_tag u <> tag) used1 -> bs_in_use s = true -> bs_tag s = tag ->
  slot_for_tag (fun _ => true) (slots_of (used1 ++ s :: used2)) tag total = (Some (length used1), slots_of (used1 ++ s :: used2)).
Proof.
  intros H1 Hs Ht. unfold slot_for_tag, slots_of. rewrite <- app_assoc. cbn [app].
  rewrite find_slot_app; [reflexivity | | rewrite Hs, Ht; apply Z.eqb_refl].
  eapply Forall_impl; [exact H1|]. intros u Hu. cbn in Hu. rewrite (proj2 (Z.eqb_neq _ _) Hu). apply andb_false_r.
Qed.

Lemma slot_for_new tag total used :
  Forall (fun u => bs_tag u <> tag /\ bs_in_use u = true) used -> (length used < 6)%nat -> total <> 0 ->
  slot_for_tag (fun _ => true) (slots_of used) tag total =
  (Some (length used), slots_of (used ++ [ {| bs_tag := tag; bs_buf := & (zeros (Z.to_nat total)); bs_total := total;
     bs_received := 0; bs_in_use := true; bs_complete := false |} ])).
Proof.
  intros Hu Hl Ht. unfold slot_for_tag, slots_of. rewrite find_slot_none.
  2:{ apply Forall_app. split; [|apply Forall_replicate; reflexivity].
      eapply Forall_impl; [exact Hu|]. intros u [H _]. cbn in H. rewrite (proj2 (Z.eqb_neq _ _) H). apply andb_false_r. }
  change (Z.to_nat BOOT_V2_MAX_BLOBS) with 6%nat. rewrite length_app. cbn [length].
  destruct (6 - length used)%nat as [|n] eqn:En; [lia|]. cbn [replicate].
  rewrite find_slot_app; [|eapply Forall_impl; [exact Hu|]; intros u [_ H]; cbn in H; rewrite H; reflexivity | reflexivity].
  rewrite (proj2 (Z.eqb_neq _ _) Ht). f_equal. replace (6 - (length used + 1))%nat with n by lia.
  rewrite insert_app_r_alt, Nat.sub_diag by lia. cbn. rewrite <- app_assoc. reflexivity.
Qed.

Lemma slots_update used1 s used2 s' :
  <[length used1 := s']> (slots_of (used1 ++ s :: used2)) = slots_of (used1 ++ s' :: used2).
Proof.
  unfold slots_of. rewrite <- !app_assoc. cbn [app]. rewrite insert_app_r_alt, Nat.sub_diag by lia.
  rewrite !length_app. reflexivity.
Qed.

Lemma slots_lookup used1 s used2 : slots_of (used1 ++ s :: used2) !! length used1 = Some s.
Proof. unfold slots_of. rewrite <- app_assoc. apply list_lookup_middle. reflexivity. Qed.

(** ** A log of what the restorers were given *)
Definition log_t : Type := list (Z * list byte * Z).
Definition log_call (tag : Z) (buf : list byte) (total : Z) (k : log_t) : Z * log_t := (0, k ++ [(tag, buf, total)]).
Definition log_restorers : restorers_t log_t :=
  {| restore_proctable := log_call CHECKPOINT_TAG_PROCTABLE; restore_filetable := log_call CHECKPOINT_TAG_FILETABLE;
     restore_ipc := log_call CHECKPOINT_TAG_IPC; restore_fb_state := log_call CHECKPOINT_TAG_FRAMEBUFFER;
     restore_fb_pixels := log_call CHECKPOINT_TAG_FRAMEBUFFER_PIXELS |}.

Definition known_tag (t : Z) : bool := (1 <=? t) && (t <=? 5).

Lemma dispatch_log s k :
  dispatch_blob log_restorers s k =
  (0, k ++ (if known_tag (bs_tag s) then [(bs_tag s, default [] (bs_buf s), bs_total s)] else [])).
Proof.
  unfold dispatch_blob, CHECKPOINT_TAG_PROCTABLE, CHECKPOINT_TAG_FILETABLE, CHECKPOINT_TAG_IPC,
    CHECKPOINT_TAG_FRAMEBUFFER, CHECKPOINT_TAG_FRAMEBUFFER_PIXELS, known_tag.
  destruct (Z.eqb_spec (bs_tag s) 1) as [->|]; [reflexivity|]. destruct (Z.eqb_spec (bs_tag s) 2) as [->|]; [reflexivity|].
  destruct (Z.eqb_spec (bs_tag s) 3) as [->|]; [reflexivity|]. destruct (Z.eqb_spec (bs_tag s) 4) as [->|]; [reflexivity|].
  destruct (Z.eqb_spec (bs_tag s) 5) as [->|]; [reflexivity|].
  destruct (Z.leb_spec 1 (bs_tag s)), (Z.leb_spec (bs_tag s) 5); cbn [andb]; try lia; rewrite app_nil_r; reflexivity.
Qed.

(** ** The loop's invariant *)

(** The chunks of blob [t] among the [(tag, index)] pairs seen so far. *)
Definition idx_of (t : Z) (done : list (Z * Z)) : list Z :=
  omap (fun x => if x.1 =? t then Some x.2 else None) done.

Lemma idx_of_cons t t' i done : idx_of t ((t', i) :: done) = (if t' =? t then [i] else []) ++ idx_of t done.
Proof. unfold idx_of. cbn. destruct (t' =? t); reflexivity. Qed.

Inductive slot_ok (blobs : list (Z * list byte)) (done : list (Z * Z)) (s : blob_slot_t) : Prop :=
  | slot_holds data buf :
      (bs_tag s, data) ∈ blobs -> bs_in_use s = true -> bs_buf s = & buf -> bs_total s = Z.of_nat (length data) ->
      placed data (idx_of (bs_tag s) done) buf (bs_received s) ->
      bs_complete s = (blob_chunks data <=? Z.of_nat (length (idx_of (bs_tag s) done))) -> slot_ok blobs done s.

Record boot_inv (blobs : list (Z * list byte)) (done : list (Z * Z)) (used : list blob_slot_t) (log : log_t) : Prop := {
  bi_slots : Forall (slot_ok blobs done) used;
  bi_tags : NoDup (bs_tag <$> used);
  bi_seen : forall t, t ∈ bs_tag <$> used <-> idx_of t done <> [];
  bi_nodup : NoDup log;
  bi_log : forall x, x ∈ log <-> exists t data, (t, data) ∈ blobs /\ known_tag t = true /\
    blob_chunks data <= Z.of_nat (length (idx_of t done)) /\ x = (t, data, Z.of_nat (length data)) }.

(** A missing chunk: the blob is not complete. *)
Lemma missing_chunk data idx buf received i :
  blob_ok data -> placed data idx buf received -> i ∉ idx -> 0 <= i < blob_chunks data ->
  Z.of_nat (length idx) < blob_chunks data.
Proof.
  intros Hb Hpl Hfresh Hi. pose proof (chunks_bound data Hb) as Hc.
  assert (length (i :: idx) <= length (seqZ 0 (blob_chunks data)))%nat as H.
  { apply submseteq_length, NoDup_submseteq; [constructor; [exact Hfresh | apply Hpl]|].
    intros k Hk. apply elem_of_seqZ. rewrite Z.add_0_l. apply elem_of_cons in Hk as [->|Hk]; [exact Hi|].
    exact (proj1 (Forall_forall _ _) (pl_range _ _ _ _ Hpl) k Hk). }
  rewrite length_seqZ in H. cbn [length] in H. lia.
Qed.

Definition chunk_page (t : Z) (data : list byte) (i : Z) : page := capture_record (chunk_capture 0 t data i).

(** One chunk into its slot. *)
Lemma record_step t data i idx buf log slots used1 s used2 :
  blob_ok data -> 0 <= i < blob_chunks data -> i ∉ idx ->
  slot_for_tag (fun _ => true) slots t (Z.of_nat (length data)) = (Some (length used1), slots_of (used1 ++ s :: used2)) ->
  bs_tag s = t -> bs_in_use s = true -> bs_buf s = & buf -> bs_total s = Z.of_nat (length data) ->
  placed data idx buf (bs_received s) -> bs_complete s = (blob_chunks data <=? Z.of_nat (length idx)) ->
  exists s', boot_record log_restorers (fun _ => true) (slots, log) (page_rec 0 (chunk_page t data i)) =
    (0, (slots_of (used1 ++ s' :: used2),
         log ++ (if (blob_chunks data <=? Z.of_nat (length (i :: idx))) && known_tag t
                 then [(t, data, Z.of_nat (length data))] else []))) /\
    bs_tag s' = t /\ bs_in_use s' = true /\ bs_total s' = Z.of_nat (length data) /\
    bs_complete s' = (blob_chunks data <=? Z.of_nat (length (i :: idx))) /\
    exists buf', bs_buf s' = & buf' /\ placed data (i :: idx) buf' (bs_received s').
Proof.
  intros Hb Hi Hfresh Hslot Htag Huse Hbuf Htot Hpl Hcomp.
  pose proof (missing_chunk data idx buf _ i Hb Hpl Hfresh Hi) as Hmiss.
  rewrite (proj2 (Z.leb_gt _ _)) in Hcomp by exact Hmiss.
  unfold boot_record, chunk_page, page_rec. cbn [pr_flags pr_virt_addr pr_pid pr_page_data capture_record pg_flags
    pg_virt_addr pg_pid pg_data chunk_capture c_flags c_virt_addr c_pid c_data].
  change (has_flag CHECKPOINT_REC_KERNEL CHECKPOINT_REC_KERNEL) with true. cbn [negb].
  destruct (chunk_fields data i Hb Hi) as [-> ->]. rewrite Hslot, slots_lookup, Hbuf, Htot, Hcomp.
  destruct (place_step data idx buf (bs_received s) i Hb Hpl Hfresh Hi) as (buf' & -> & Hpl'). cbn [negb].
  destruct (blob_chunks data <=? Z.of_nat (length (i :: idx))) eqn:E.
  - change (CHECKPOINT_BLOB_COMPLETE =? CHECKPOINT_BLOB_ERR) with false.
    change (CHECKPOINT_BLOB_COMPLETE =? CHECKPOINT_BLOB_COMPLETE) with true. cbn [andb]. rewrite dispatch_log.
    cbn [bs_tag bs_buf bs_total negb Z.eqb]. rewrite slots_update, Htag.
    apply Z.leb_le in E. pose proof (placed_full _ _ _ _ Hb Hpl' E) as ->.
    eexists. split; [reflexivity|]. cbn. split_and!; auto. exists data. split; [reflexivity | exact Hpl'].
  - change (CHECKPOINT_BLOB_OK =? CHECKPOINT_BLOB_ERR) with false.
    change (CHECKPOINT_BLOB_OK =? CHECKPOINT_BLOB_COMPLETE) with false. cbn [andb]. rewrite slots_update, app_nil_r.
    eexists. split; [reflexivity|]. cbn. split_and!; auto. exists buf'. split; [reflexivity | exact Hpl'].
Qed.

Section boot.
Context (blobs : list (Z * list byte)).
Hypothesis (Htags : NoDup blobs.*1) (Hblobs : Forall (fun b => blob_ok b.2) blobs) (Hroom : (length blobs <= 6)%nat).

Lemma blob_unique t d1 d2 : (t, d1) ∈ blobs -> (t, d2) ∈ blobs -> d1 = d2.
Proof using Htags.
  intros H1 H2. apply list_elem_of_lookup_1 in H1 as [i Hi], H2 as [j Hj].
  assert (i = j) as ->; [|congruence]. apply (proj1 (NoDup_alt _) Htags i j t); rewrite list_lookup_fmap; [rewrite Hi | rewrite Hj]; reflexivity.
Qed.

(** The chunk's slot: the blob's, or a free one. *)
Lemma slot_available t data done used log :
  boot_inv blobs done used log -> (t, data) ∈ blobs -> blob_ok data ->
  exists used1 s used2 buf,
    slot_for_tag (fun _ => true) (slots_of used) t (Z.of_nat (length data)) = (Some (length used1), slots_of (used1 ++ s :: used2)) /\
    bs_tag s = t /\ bs_in_use s = true /\ bs_buf s = & buf /\ bs_total s = Z.of_nat (length data) /\
    placed data (idx_of t done) buf (bs_received s) /\
    bs_complete s = (blob_chunks data <=? Z.of_nat (length (idx_of t done))) /\
    NoDup (bs_tag <$> used1 ++ s :: used2) /\
    (forall u, u ∈ used1 ++ used2 -> slot_ok blobs done u) /\
    (forall q, q ∈ bs_tag <$> used1 ++ used2 <-> q <> t /\ idx_of q done <> []).
Proof using All.
  intros Hinv Hin Hb. pose proof (chunks_bound data Hb) as Hc. unfold blob_ok in Hb.
  pose proof (bi_slots _ _ _ _ Hinv) as Hslots. pose proof (bi_tags _ _ _ _ Hinv) as Hnd.
  pose proof (bi_seen _ _ _ _ Hinv) as Hseen.
  destruct (decide (t ∈ bs_tag <$> used)) as [Ht|Ht].
  - apply list_elem_of_fmap in Ht as (s & Es & Hs). pose proof (proj1 (Forall_forall _ _) Hslots s Hs) as Hok.
    apply list_elem_of_split in Hs as (used1 & used2 & ->).
    assert (Forall (fun u => bs_tag u <> t) used1 /\ Forall (fun u => bs_tag u <> t) used2) as [H1 H2].
    { rewrite fmap_app, fmap_cons in Hnd. apply NoDup_app in Hnd as (_ & Hd & Hnd2). apply NoDup_cons in Hnd2 as [Hd2 _].
      split; apply Forall_forall; intros u Hu E; [apply (Hd (bs_tag u)) | apply Hd2].
      - apply list_elem_of_fmap_2, Hu.
      - rewrite E, Es. left.
      - rewrite <- Es, <- E. apply list_elem_of_fmap_2, Hu. }
    destruct Hok as [d b Hd Huse Hbuf Htot Hpl Hcomp]. rewrite <- Es in *.
    pose proof (blob_unique _ _ _ Hd Hin) as ->.
    exists used1, s, used2, b. split_and!; try assumption; [apply slot_for_old; auto | symmetry; exact Es | |].
    + intros u Hu. apply (proj1 (Forall_forall _ _) Hslots). set_solver.
    + intros q. specialize (Hseen q). rewrite fmap_app, fmap_cons, elem_of_app, elem_of_cons in Hseen.
      rewrite fmap_app, elem_of_app. split.
      * intros Hq. split; [|apply Hseen; tauto]. intros ->. destruct Hq as [Hq|Hq];
          apply list_elem_of_fmap in Hq as (u & Eu & Hu); [rewrite Forall_forall in H1; apply (H1 u Hu) | rewrite Forall_forall in H2; apply (H2 u Hu)]; congruence.
      * intros [Hne Hq]. apply Hseen in Hq as [?|[E|?]]; [tauto | congruence | tauto].
  - assert (idx_of t done = []) as Hnil.
    { destruct (idx_of t done) eqn:E; [reflexivity|]. exfalso. apply Ht, Hseen. rewrite E. discriminate. }
    assert (length used < 6)%nat as Hl.
    { assert (length (t :: (bs_tag <$> used)) <= length blobs.*1)%nat as H.
      { apply submseteq_length, NoDup_submseteq; [constructor; assumption|].
        intros q [->|Hq]%elem_of_cons; [apply (list_elem_of_fmap_2 fst _ _ Hin)|].
        apply list_elem_of_fmap in Hq as (u & -> & Hu). destruct (proj1 (Forall_forall _ _) Hslots u Hu) as [d b Hd].
        apply (list_elem_of_fmap_2 fst _ _ Hd). }
      cbn [length] in H. rewrite !length_fmap in H. lia. }
    eexists used, _, [], _. split.
    { apply slot_for_new; [|exact Hl | lia]. apply Forall_forall. intros u Hu. split.
      - intros <-. apply Ht, list_elem_of_fmap_2, Hu.
      - destruct (proj1 (Forall_forall _ _) Hslots u Hu). assumption. }
    cbn. rewrite Hnil, app_nil_r. split_and!; try reflexivity.
    + apply placed_nil. rewrite length_zeros. lia.
    + symmetry. apply Z.leb_gt. cbn. lia.
    + rewrite fmap_app, NoDup_app. split_and!; [exact Hnd | | apply NoDup_singleton].
      intros q Hq ->%list_elem_of_singleton. contradiction.
    + apply Forall_forall, Hslots.
    + intros q. rewrite Hseen. split; [|tauto]. intros Hq. split; [|exact Hq]. intros ->. contradiction.
Qed.

Lemma inv_step t data i done used log :
  boot_inv blobs done used log -> (t, data) ∈ blobs -> 0 <= i < blob_chunks data -> i ∉ idx_of t done ->
  exists used' log',
    boot_record log_restorers (fun _ => true) (slots_of used, log) (page_rec 0 (chunk_page t data i)) =
      (0, (slots_of used', log')) /\ boot_inv blobs ((t, i) :: done) used' log'.
Proof using All.
  intros Hinv Hin Hi Hfresh. pose proof (proj1 (Forall_forall _ _) Hblobs _ Hin) as Hb. cbn in Hb.
  assert (exists used1 s used2 buf,
    slot_for_tag (fun _ => true) (slots_of used) t (Z.of_nat (length data)) = (Some (length used1), slots_of (used1 ++ s :: used2)) /\
    bs_tag s = t /\ bs_in_use s = true /\ bs_buf s = & buf /\ bs_total s = Z.of_nat (length data) /\
    placed data (idx_of t done) buf (bs_received s) /\
    bs_complete s = (blob_chunks data <=? Z.of_nat (length (idx_of t done))) /\
    NoDup (bs_tag <$> used1 ++ s :: used2) /\
    (forall u, u ∈ used1 ++ used2 -> slot_ok blobs done u) /\
    (forall q, q ∈ bs_tag <$> used1 ++ used2 <-> q <> t /\ idx_of q done <> []))
    as (used1 & s & used2 & buf & Hslot & Htag & Huse & Hbuf & Htot & Hpl & Hcomp & Hnd & Hok & Hseen).
  { exact (slot_available t data done used log Hinv Hin Hb). }
  pose proof (missing_chunk data _ buf _ i Hb Hpl Hfresh Hi) as Hmiss.
  destruct (record_step t data i (idx_of t done) buf log (slots_of used) used1 s used2)
    as (s' & Hrec & Htag' & Huse' & Htot' & Hcomp' & buf' & Hbuf' & Hpl'); try assumption.
  eexists _, _. split; [exact Hrec|].
  assert (forall q, idx_of q ((t, i) :: done) = if t =? q then i :: idx_of q done else idx_of q done) as Hidx.
  { intros q. rewrite idx_of_cons. destruct (t =? q); reflexivity. }
  constructor.
  - apply Forall_forall. intros u Hu. assert (u = s' \/ u ∈ used1 ++ used2) as [->|Hu'] by set_solver.
    + apply (slot_holds _ _ _ data buf'); rewrite ?Htag', ?Hidx, ?Z.eqb_refl; assumption.
    + assert (bs_tag u <> t) as Hne.
      { apply (proj1 (proj1 (Hseen (bs_tag u)) (list_elem_of_fmap_2 _ _ _ Hu'))). }
      destruct (Hok u Hu') as [d b H1 H2 H3 H4 H5 H6]. apply (slot_holds _ _ _ d b); rewrite ?Hidx, ?(proj2 (Z.eqb_neq t (bs_tag u))) by congruence; assumption.
  - rewrite fmap_app, fmap_cons, Htag'. rewrite fmap_app, fmap_cons, Htag in Hnd. exact Hnd.
  - intros q. rewrite Hidx, fmap_app, fmap_cons, Htag'. rewrite fmap_app in Hseen. specialize (Hseen q).
    destruct (Z.eqb_spec t q) as [->|Hne]; [split; [discriminate | set_solver]|].
    rewrite elem_of_app, elem_of_cons. rewrite elem_of_app in Hseen. intuition congruence.
  - apply NoDup_app. split_and!; [apply Hinv | | destruct (_ && _); [apply NoDup_singleton | constructor]].
    intros x Hx Hx'. destruct (_ && _); [|set_solver]. apply list_elem_of_singleton in Hx' as ->.
    apply (bi_log _ _ _ _ Hinv) in Hx as (t' & d & Hd & _ & Hle & [= <- <- _]). lia.
  - intros x. rewrite elem_of_app, (bi_log _ _ _ _ Hinv). split.
    + intros [(q & d & Hd & Hk & Hle & ->) | Hx].
      * exists q, d. split_and!; try assumption; [|reflexivity]. rewrite Hidx. destruct (t =? q); cbn [length]; lia.
      * destruct (_ && _) eqn:E; [|set_solver]. apply list_elem_of_singleton in Hx as ->. apply andb_prop in E as [E1 E2].
        exists t, data. rewrite Hidx, Z.eqb_refl. apply Z.leb_le in E1. auto.
    + intros (q & d & Hd & Hk & Hle & ->). rewrite Hidx in Hle. destruct (Z.eqb_spec t q) as [<-|Hne].
      * right. pose proof (blob_unique t d data Hd Hin) as ->. rewrite (proj2 (Z.leb_le _ _)), Hk by exact Hle. left.
      * left. exists q, d. auto.
Qed.

(** ** Any interleaving *)
Definition is_kernel (p : page) : bool := has_flag (pg_flags p) CHECKPOINT_REC_KERNEL.
Definition pkey (p : page) : Z * Z := (pg_pid p, checkpoint_blob_index (pg_virt_addr p)).
Definition blob_pages (b : Z * list byte) : list page := chunk_page b.1 b.2 <$> seqZ 0 (blob_chunks b.2).

Lemma idx_of_in t i done : i ∈ idx_of t done <-> (t, i) ∈ done.
Proof using Type.
  unfold idx_of. rewrite list_elem_of_omap. split.
  - intros ([t' i'] & Hin & H). cbn in H. destruct (Z.eqb_spec t' t) as [->|]; [|discriminate]. congruence.
  - intros H. exists (t, i). cbn. rewrite Z.eqb_refl. auto.
Qed.

Lemma boot_loop ps : forall done used log n,
  boot_inv blobs done used log -> (forall p, p ∈ List.filter is_kernel ps -> p ∈ blobs ≫= blob_pages) ->
  NoDup ((pkey <$> List.filter is_kernel ps) ++ done) ->
  exists used' log', apply_pages (boot_record log_restorers (fun _ => true)) ps (slots_of used, log) n =
      (CHECKPOINT_OK, n + Z.of_nat (length ps), (slots_of used', log')) /\
    boot_inv blobs (reverse (pkey <$> List.filter is_kernel ps) ++ done) used' log'.
Proof using All.
  induction ps as [|p ps IH]; intros done used log n Hinv Hps Hnd.
  { exists used, log. split; [cbn; f_equal; f_equal; lia | exact Hinv]. }
  cbn [apply_pages List.filter] in *. destruct (is_kernel p) eqn:Hk.
  - destruct (proj1 (list_elem_of_bind _ _ _) (Hps p ltac:(left))) as ([t data] & Hp & Hin).
    apply list_elem_of_fmap in Hp as (i & -> & Hi%elem_of_seqZ). cbn [fst snd] in *. rewrite Z.add_0_l in Hi.
    pose proof (proj1 (Forall_forall _ _) Hblobs _ Hin) as Hb. cbn in Hb.
    assert (pkey (chunk_page t data i) = (t, i)) as Hkey.
    { unfold pkey. cbn. f_equal. apply chunk_fields; assumption. }
    rewrite fmap_cons, Hkey in Hnd |- *. cbn [app] in Hnd. apply NoDup_cons in Hnd as [Hfresh Hnd].
    destruct (inv_step t data i done used log Hinv Hin Hi) as (used1 & log1 & Hrec & Hinv1).
    { rewrite idx_of_in. intros H. apply Hfresh, elem_of_app. right. exact H. }
    rewrite Hrec. cbn [negb Z.eqb CHECKPOINT_OK].
    destruct (IH ((t, i) :: done) used1 log1 (n + 1) Hinv1) as (used2 & log2 & -> & Hinv2).
    + intros q Hq. apply Hps. right. exact Hq.
    + rewrite <- Permutation_middle. constructor; assumption.
    + exists used2, log2. split; [f_equal; f_equal; cbn [length]; lia|].
      rewrite reverse_cons, <- app_assoc. exact Hinv2.
  - assert (boot_record log_restorers (fun _ => true) (slots_of used, log) (page_rec 0 p) = (0, (slots_of used, log))) as ->.
    { unfold boot_record. cbn [page_rec pr_flags]. unfold is_kernel in Hk. rewrite Hk. reflexivity. }
    cbn [negb Z.eqb CHECKPOINT_OK].
    destruct (IH done used log (n + 1) Hinv Hps Hnd) as (used2 & log2 & -> & Hinv2).
    exists used2, log2. split; [f_equal; f_equal; cbn [length]; lia | exact Hinv2].
Qed.

Lemma boot_inv_nil : boot_inv blobs [] [] [].
Proof using Hblobs.
  clear Htags Hroom. constructor; [constructor | constructor | | constructor |].
  - intros t. split; [set_solver | intros H; contradiction].
  - intros x. split; [set_solver|]. intros (t & data & Hin & _ & Hle & _). exfalso.
    pose proof (chunks_bound data (proj1 (Forall_forall _ _) Hblobs _ Hin)). cbn in Hle. lia.
Qed.

Lemma blob_pages_nodup : NoDup (pkey <$> (blobs ≫= blob_pages)).
Proof using Htags Hblobs.
  clear Hroom. induction blobs as [|[t data] l IH]; [constructor|].
  rewrite fmap_cons, NoDup_cons in Htags. destruct Htags as [Ht Htl]. apply Forall_cons in Hblobs as [Hb Hbl].
  cbn [mbind list_bind]. fold (mbind (M := list) blob_pages l). rewrite fmap_app. apply NoDup_app.
  assert (pkey <$> blob_pages (t, data) = (fun i => (t, i)) <$> seqZ 0 (blob_chunks data)) as ->.
  { unfold blob_pages. cbn [fst snd] in *. rewrite <- list_fmap_compose. apply list_fmap_ext. intros k i Hk.
    apply list_elem_of_lookup_2, elem_of_seqZ in Hk. unfold compose, pkey. cbn. f_equal. apply chunk_fields; [exact Hb | lia]. }
  split_and!.
  - apply NoDup_fmap_2; [intros a b [= ->]; reflexivity | apply NoDup_seqZ].
  - intros x (i & -> & _)%list_elem_of_fmap (p & Hp & Hin)%list_elem_of_fmap.
    apply list_elem_of_bind in Hin as ([t' d'] & Hin & Hl). apply list_elem_of_fmap in Hin as (j & -> & _).
    injection Hp as -> _. apply Ht. exact (list_elem_of_fmap_2 fst _ _ Hl).
  - apply IH; assumption.
Qed.
End boot.

(** Every chunk of a blob has been seen. *)
Lemma all_seen blobs t data idx ps :
  blob_ok data -> (t, data) ∈ blobs -> (forall p, p ∈ blobs ≫= blob_pages -> p ∈ ps) ->
  idx = idx_of t (reverse (pkey <$> ps)) -> blob_chunks data <= Z.of_nat (length idx).
Proof.
  intros Hb Hin Hps ->. pose proof (chunks_bound data Hb) as Hc.
  assert (length (seqZ 0 (blob_chunks data)) <= length (idx_of t (reverse (pkey <$> ps))))%nat as H.
  2:{ rewrite length_seqZ in H. lia. }
  apply submseteq_length, NoDup_submseteq; [apply NoDup_seqZ|]. intros i Hi%elem_of_seqZ.
  apply idx_of_in. rewrite (reverse_Permutation (pkey <$> ps)). apply list_elem_of_fmap. exists (chunk_page t data i). split.
  - unfold pkey. cbn. f_equal. symmetry. apply chunk_fields; [exact Hb | lia].
  - apply Hps. apply list_elem_of_bind. exists (t, data). split; [|exact Hin]. apply list_elem_of_fmap.
    exists i. split; [reflexivity | apply elem_of_seqZ; exact Hi].
Qed.

(** C26: at boot, whatever the order in which a checkpoint holds the chunks of
    its kernel-state blobs (at most six, as many as the loop has slots for),
    mixed with pages and contexts, and when the allocations and the restorers
    succeed, the boot loop succeeds and hands each blob with a known tag to
    its subsystem's restorer exactly once, with exactly the bytes that were
    captured. *)
Theorem boot_restores_blobs {D} (st : snapshot_store_t D) (d : D) (epoch : Z) (ps : list page)
    (blobs : list (Z * list byte)) (fuel : nat) :
  checkpoint_view st d = inr (epoch, ps) ->
  NoDup blobs.*1 -> Forall (fun b => blob_ok b.2) blobs -> (length blobs <= 6)%nat ->
  List.filter is_kernel ps ≡ₚ blobs ≫= blob_pages -> (Z.to_nat (st_max_records st) < fuel)%nat ->
  exists log, boot_restore_kernel_state log_restorers (fun _ => true) true st d [] fuel = Some (0, log) /\
    log ≡ₚ (fun b => (b.1, b.2, Z.of_nat (length b.2))) <$> List.filter (fun b => known_tag b.1) blobs.
Proof.
  intros Hview Htags Hblobs Hroom Hps Hfuel.
  destruct (boot_loop blobs Htags Hblobs Hroom ps [] [] [] 0 (boot_inv_nil blobs Hblobs)) as (used & log & Hloop & Hinv).
  - intros p Hp. rewrite <- Hps. exact Hp.
  - rewrite app_nil_r, Hps. apply blob_pages_nodup; assumption.
  - exists log. split.
    + unfold boot_restore_kernel_state, checkpoint_view in *.
      destruct (snapshot_store_load true (& st) d (& reader_zero)) as [rc [r|]] eqn:Hload; [|discriminate].
      destruct (Z.eqb_spec rc SNAPSHOT_OK) as [->|]; [|discriminate]. injection Hview as <- <-. cbn [negb].
      destruct (load_reader st d r Hload) as (Hn & Hc & Hm).
      rewrite (restore_loop_pages (boot_record log_restorers (fun _ => true)) ltac:(reflexivity) st d (Z.to_nat (r_record_count r))) by lia.
      change (replicate (Z.to_nat BOOT_V2_MAX_BLOBS) empty_slot) with (slots_of []). rewrite Hloop. reflexivity.
    + rewrite app_nil_r in Hinv. apply NoDup_Permutation; [apply Hinv | |].
      * apply (NoDup_fmap_1 (fun x => x.1.1)). rewrite <- list_fmap_compose.
        clear -Htags. induction blobs as [|[t data] l IH]; [constructor|].
        rewrite fmap_cons, NoDup_cons in Htags. destruct Htags as [Ht Htl]. cbn [List.filter].
        destruct (known_tag _); [|apply IH, Htl]. cbn. constructor; [|apply IH, Htl].
        intros ([t' d'] & E & Hin)%list_elem_of_fmap. cbn in E. subst t'. apply Ht.
        apply list_elem_of_In, filter_In in Hin as [Hin _]. apply list_elem_of_In in Hin. exact (list_elem_of_fmap_2 fst _ _ Hin).
      * intros x. rewrite (bi_log _ _ _ _ Hinv). rewrite list_elem_of_fmap. split.
        -- intros (t & data & Hin & Hk & _ & ->). exists (t, data). split; [reflexivity|].
           apply list_elem_of_In, filter_In. rewrite <- list_elem_of_In. auto.
        -- intros ([t data] & -> & Hin). apply list_elem_of_In, filter_In in Hin as [Hin Hk]. apply list_elem_of_In in Hin.
           exists t, data. split_and!; try assumption; [|reflexivity].
           apply (all_seen blobs t data _ (List.filter is_kernel ps)); try assumption; [|intros p; rewrite Hps; auto | reflexivity].
           exact (proj1 (Forall_forall _ _) Hblobs _ Hin).
Qed.

Lemma chunk_page_ok t data i :
  0 <= t < 2 ^ 32 -> blob_ok data -> 0 <= i < blob_chunks data -> page_ok (chunk_page t data i).
Proof.
  intros Ht Hb Hi. pose proof (chunks_bound data Hb). pose proof (proj1 (chunk_range data i Hb) Hi). unfold blob_ok in Hb.
  unfold page_ok, fits. cbn [chunk_page capture_record pg_pid pg_virt_addr pg_flags pg_data chunk_capture c_pid c_virt_addr c_flags c_data].
  unfold chunk_vaddr. rewrite vaddr_sum by lia. unfold CHECKPOINT_REC_KERNEL. split_and!; try lia.
  unfold chunk_data, zero_padded. rewrite length_app, length_zeros, length_take, length_drop. unfold chunk_len. lia.
Qed.

(** A file table of 5000 bytes in the two records of a slot. *)
Definition example_blobs : list (Z * list byte) := [(CHECKPOINT_TAG_FILETABLE, replicate 5000 Byte.x41)].
Definition example_blob_disk : ramdisk_t :=
  (save (example_store ramdisk_device) ramdisk_fresh (7, example_blobs ≫= blob_pages)).2.

Lemma example_blob_view :
  checkpoint_view (example_store ramdisk_device) example_blob_disk = inr (7, example_blobs ≫= blob_pages).
Proof.
  assert (ckpt_ok (example_store ramdisk_device) (7, example_blobs ≫= blob_pages)) as Hok.
  { split; [unfold fits; cbn; lia|]. cbn [snd]. apply Forall_forall.
    intros p ([t data] & Hp & Hin%list_elem_of_singleton)%list_elem_of_bind. injection Hin as -> ->.
    apply list_elem_of_fmap in Hp as (i & -> & Hi%elem_of_seqZ). cbn [fst snd] in *.
    apply chunk_page_ok; [vm_compute; split; [discriminate | reflexivity] | | lia].
    split; vm_compute; reflexivity. }
  pose proof (snapshot_atomic_store ramdisk_device _ example_store_wf) as A.
  apply (publish_durable ramdisk_fresh _ ramdisk_fresh_inv Hok).
  apply (save_reliable example_store_wf); [exact ramdisk_fresh_inv | exact Hok | vm_compute; discriminate].
Qed.

Lemma boot_restores_blobs_witness :
  exists log, boot_restore_kernel_state log_restorers (fun _ => true) true (example_store ramdisk_device) example_blob_disk [] 3 = Some (0, log) /\
    log ≡ₚ (fun b => (b.1, b.2, Z.of_nat (length b.2))) <$> List.filter (fun b => known_tag b.1) example_blobs.
Proof.
  apply (boot_restores_blobs (example_store ramdisk_device) example_blob_disk 7 (example_blobs ≫= blob_pages) example_blobs 3).
  - exact example_blob_view.
  - repeat constructor; set_solver.
  - repeat constructor; vm_compute; reflexivity.
  - vm_compute. lia.
  - reflexivity.
  - vm_compute. lia.
Defined.
