(* ===== verification/Scheduler.v ===== *)
(** * The preemptive scheduler (kernel/scheduler.c, include/scheduler.h)

    Tasks live in a heap of task structures addressed by pointers; the ready
    queues are doubly linked through them, circular for round robin and
    NULL-terminated per priority.  Every function is a computation over the
    scheduler's static variables and that heap which fails ([None]) where the
    code would follow a pointer that points to no task.  The functions the
    scheduler calls outside its file are a record [kernel_ops] over the world
    [W] they act on. *)
From Stdlib Require Import ZArith Lia.
From stdpp Require Import gmap.
From S2P Require Import Prelude.
From S2P Require Import Recorders.
Open Scope Z_scope.
Open Scope c_scope.

Inductive task_state_t := TASK_RUNNING | TASK_READY | TASK_BLOCKED | TASK_TERMINATED.
Inductive sched_policy_t := SCHED_ROUND_ROBIN | SCHED_PRIORITY | SCHED_FIFO.

#[export] Instance task_state_eq_dec : EqDecision task_state_t.
Proof. solve_decision. Defined.
#[export] Instance sched_policy_eq_dec : EqDecision sched_policy_t.
Proof. solve_decision. Defined.

Definition PRIORITY_HIGHEST : Z := 0.
Definition PRIORITY_LOWEST : Z := 255.
Definition MAX_TASKS : Z := 64.
Definition TIMER_FREQUENCY : Z := 1000.
Definition SCHED_REC_MAX_POINTS : Z := 256.

(** The registers the scheduler sets; the general ones and [cr3] start as 0. *)
Record context_t := {
  rip : Z; rsp : Z; rflags : Z;
  cs : Z; ds : Z; es : Z; fs : Z; gs : Z; ss : Z }.

Definition context_zero : context_t :=
  {| rip := 0; rsp := 0; rflags := 0; cs := 0; ds := 0; es := 0; fs := 0; gs := 0; ss := 0 |}.

(** A pointer to a task is its address; [heap_base], [heap_size] and
    [start_time] are never read or written and stay 0. *)
Record task_t := {
  pid : Z;
  name : list byte;
  state : task_state_t;
  priority : Z;
  time_slice : Z;
  quantum : Z;
  context : context_t;
  stack_base : Z;
  stack_size : Z;
  cpu_time : Z;
  switches : Z;
  next : ptr Z;
  prev : ptr Z }.

Record scheduler_stats_t := {
  total_switches : Z;
  total_interrupts : Z;
  active_tasks : Z;
  ready_tasks : Z;
  st_policy : sched_policy_t;
  st_time_slice : Z }.

Definition set_state (x : task_state_t) (t : task_t) : task_t :=
  {| pid := pid t; name := name t; state := x; priority := priority t; time_slice := time_slice t;
     quantum := quantum t; context := context t; stack_base := stack_base t; stack_size := stack_size t;
     cpu_time := cpu_time t; switches := switches t; next := next t; prev := prev t |}.
Definition set_slice (x : Z) (t : task_t) : task_t :=
  {| pid := pid t; name := name t; state := state t; priority := priority t; time_slice := x;
     quantum := quantum t; context := context t; stack_base := stack_base t; stack_size := stack_size t;
     cpu_time := cpu_time t; switches := switches t; next := next t; prev := prev t |}.
Definition set_cpu_time (x : Z) (t : task_t) : task_t :=
  {| pid := pid t; name := name t; state := state t; priority := priority t; time_slice := time_slice t;
     quantum := quantum t; context := context t; stack_base := stack_base t; stack_size := stack_size t;
     cpu_time := x; switches := switches t; next := next t; prev := prev t |}.
Definition set_switches (x : Z) (t : task_t) : task_t :=
  {| pid := pid t; name := name t; state := state t; priority := priority t; time_slice := time_slice t;
     quantum := quantum t; context := context t; stack_base := stack_base t; stack_size := stack_size t;
     cpu_time := cpu_time t; switches := x; next := next t; prev := prev t |}.
Definition set_context (x : context_t) (t : task_t) : task_t :=
  {| pid := pid t; name := name t; state := state t; priority := priority t; time_slice := time_slice t;
     quantum := quantum t; context := x; stack_base := stack_base t; stack_size := stack_size t;
     cpu_time := cpu_time t; switches := switches t; next := next t; prev := prev t |}.
Definition set_stack (base size : Z) (t : task_t) : task_t :=
  {| pid := pid t; name := name t; state := state t; priority := priority t; time_slice := time_slice t;
     quantum := quantum t; context := context t; stack_base := base; stack_size := size;
     cpu_time := cpu_time t; switches := switches t; next := next t; prev := prev t |}.
Definition set_links (n p : ptr Z) (t : task_t) : task_t :=
  {| pid := pid t; name := name t; state := state t; priority := priority t; time_slice := time_slice t;
     quantum := quantum t; context := context t; stack_base := stack_base t; stack_size := stack_size t;
     cpu_time := cpu_time t; switches := switches t; next := n; prev := p |}.
Definition set_next (n : ptr Z) (t : task_t) : task_t := set_links n (prev t) t.
Definition set_prev (p : ptr Z) (t : task_t) : task_t := set_links (next t) p t.

(** The static variables, the task structures and the rest of the world. *)
Record sched_t (W : Type) := {
  tasks : gmap Z task_t;
  current_task : ptr Z;
  idle_task : ptr Z;
  task_list : list (ptr Z);
  next_pid : Z;
  scheduler_enabled : bool;
  stats : scheduler_stats_t;
  ready_queues : list (ptr Z);
  round_robin_queue : ptr Z;
  current_policy : sched_policy_t;
  default_time_slice : Z;
  recorder : Sched.sched_filter;
  world : W }.
#[global] Arguments tasks {W}. #[global] Arguments current_task {W}. #[global] Arguments idle_task {W}.
#[global] Arguments task_list {W}. #[global] Arguments next_pid {W}. #[global] Arguments scheduler_enabled {W}.
#[global] Arguments stats {W}. #[global] Arguments ready_queues {W}. #[global] Arguments round_robin_queue {W}.
#[global] Arguments current_policy {W}. #[global] Arguments default_time_slice {W}.
#[global] Arguments recorder {W}. #[global] Arguments world {W}.

(** What the scheduler calls outside its file: the checkpoint's timer and
    epoch, the stack of a task (only declared in the repository; the result
    is a return code and the stack's base and size), and the hardware. *)
Record kernel_ops (W : Type) := {
  checkpoint_tick : W -> bool * W;
  checkpoint_current_epoch : W -> Z;
  task_setup_memory : Z -> W -> Z * Z * Z * W;
  task_free_stack : Z -> Z -> W -> W;
  setup_timer_interrupt : Z -> W -> W;
  enable_interrupts : W -> W;
  disable_interrupts : W -> W }.
#[global] Arguments checkpoint_tick {W}. #[global] Arguments checkpoint_current_epoch {W}.
#[global] Arguments task_setup_memory {W}. #[global] Arguments task_free_stack {W}.
#[global] Arguments setup_timer_interrupt {W}. #[global] Arguments enable_interrupts {W}.
#[global] Arguments disable_interrupts {W}.

Section sched.
Context {W : Type}.
Implicit Types s : sched_t W.

Definition with_tasks (h : gmap Z task_t) s : sched_t W :=
  {| tasks := h; current_task := current_task s; idle_task := idle_task s; task_list := task_list s;
     next_pid := next_pid s; scheduler_enabled := scheduler_enabled s; stats := stats s;
     ready_queues := ready_queues s; round_robin_queue := round_robin_queue s; current_policy := current_policy s;
     default_time_slice := default_time_slice s; recorder := recorder s; world := world s |}.
Definition with_current (p : ptr Z) s : sched_t W :=
  {| tasks := tasks s; current_task := p; idle_task := idle_task s; task_list := task_list s;
     next_pid := next_pid s; scheduler_enabled := scheduler_enabled s; stats := stats s;
     ready_queues := ready_queues s; round_robin_queue := round_robin_queue s; current_policy := current_policy s;
     default_time_slice := default_time_slice s; recorder := recorder s; world := world s |}.
Definition with_list (l : list (ptr Z)) s : sched_t W :=
  {| tasks := tasks s; current_task := current_task s; idle_task := idle_task s; task_list := l;
     next_pid := next_pid s; scheduler_enabled := scheduler_enabled s; stats := stats s;
     ready_queues := ready_queues s; round_robin_queue := round_robin_queue s; current_policy := current_policy s;
     default_time_slice := default_time_slice s; recorder := recorder s; world := world s |}.
Definition with_next_pid (n : Z) s : sched_t W :=
  {| tasks := tasks s; current_task := current_task s; idle_task := idle_task s; task_list := task_list s;
     next_pid := n; scheduler_enabled := scheduler_enabled s; stats := stats s;
     ready_queues := ready_queues s; round_robin_queue := round_robin_queue s; current_policy := current_policy s;
     default_time_slice := default_time_slice s; recorder := recorder s; world := world s |}.
Definition with_enabled (b : bool) s : sched_t W :=
  {| tasks := tasks s; current_task := current_task s; idle_task := idle_task s; task_list := task_list s;
     next_pid := next_pid s; scheduler_enabled := b; stats := stats s;
     ready_queues := ready_queues s; round_robin_queue := round_robin_queue s; current_policy := current_policy s;
     default_time_slice := default_time_slice s; recorder := recorder s; world := world s |}.
Definition with_stats (x : scheduler_stats_t) s : sched_t W :=
  {| tasks := tasks s; current_task := current_task s; idle_task := idle_task s; task_list := task_list s;
     next_pid := next_pid s; scheduler_enabled := scheduler_enabled s; stats := x;
     ready_queues := ready_queues s; round_robin_queue := round_robin_queue s; current_policy := current_policy s;
     default_time_slice := default_time_slice s; recorder := recorder s; world := world s |}.
Definition with_queues (q : list (ptr Z)) s : sched_t W :=
  {| tasks := tasks s; current_task := current_task s; idle_task := idle_task s; task_list := task_list s;
     next_pid := next_pid s; scheduler_enabled := scheduler_enabled s; stats := stats s;
     ready_queues := q; round_robin_queue := round_robin_queue s; current_policy := current_policy s;
     default_time_slice := default_time_slice s; recorder := recorder s; world := world s |}.
Definition with_rr (p : ptr Z) s : sched_t W :=
  {| tasks := tasks s; current_task := current_task s; idle_task := idle_task s; task_list := task_list s;
     next_pid := next_pid s; scheduler_enabled := scheduler_enabled s; stats := stats s;
     ready_queues := ready_queues s; round_robin_queue := p; current_policy := current_policy s;
     default_time_slice := default_time_slice s; recorder := recorder s; world := world s |}.
Definition with_filter (f : Sched.sched_filter) s : sched_t W :=
  {| tasks := tasks s; current_task := current_task s; idle_task := idle_task s; task_list := task_list s;
     next_pid := next_pid s; scheduler_enabled := scheduler_enabled s; stats := stats s;
     ready_queues := ready_queues s; round_robin_queue := round_robin_queue s; current_policy := current_policy s;
     default_time_slice := default_time_slice s; recorder := f; world := world s |}.
Definition with_world (w : W) s : sched_t W :=
  {| tasks := tasks s; current_task := current_task s; idle_task := idle_task s; task_list := task_list s;
     next_pid := next_pid s; scheduler_enabled := scheduler_enabled s; stats := stats s;
     ready_queues := ready_queues s; round_robin_queue := round_robin_queue s; current_policy := current_policy s;
     default_time_slice := default_time_slice s; recorder := recorder s; world := w |}.

Definition with_ready (f : Z -> Z) s : sched_t W :=
  with_stats {| total_switches := total_switches (stats s); total_interrupts := total_interrupts (stats s);
                active_tasks := active_tasks (stats s); ready_tasks := u32 (f (ready_tasks (stats s)));
                st_policy := st_policy (stats s); st_time_slice := st_time_slice (stats s) |} s.
Definition with_active (f : Z -> Z) s : sched_t W :=
  with_stats {| total_switches := total_switches (stats s); total_interrupts := total_interrupts (stats s);
                active_tasks := u32 (f (active_tasks (stats s))); ready_tasks := ready_tasks (stats s);
                st_policy := st_policy (stats s); st_time_slice := st_time_slice (stats s) |} s.
Definition count_interrupt s : sched_t W :=
  with_stats {| total_switches := total_switches (stats s); total_interrupts := u64 (total_interrupts (stats s) + 1);
                active_tasks := active_tasks (stats s); ready_tasks := ready_tasks (stats s);
                st_policy := st_policy (stats s); st_time_slice := st_time_slice (stats s) |} s.
Definition count_switch s : sched_t W :=
  with_stats {| total_switches := u64 (total_switches (stats s) + 1); total_interrupts := total_interrupts (stats s);
                active_tasks := active_tasks (stats s); ready_tasks := ready_tasks (stats s);
                st_policy := st_policy (stats s); st_time_slice := st_time_slice (stats s) |} s.

(** ** Computations *)
Definition M (A : Type) : Type := sched_t W -> option (A * sched_t W).
Definition ret {A} (x : A) : M A := fun s => Some (x, s).
Definition bind {A B} (m : M A) (k : A -> M B) : M B :=
  fun s => match m s with Some (x, s) => k x s | None => None end.
Definition gets {A} (f : sched_t W -> A) : M A := fun s => Some (f s, s).
Definition modify (f : sched_t W -> sched_t W) : M unit := fun s => Some (tt, f s).
(** [*p] *)
Definition load (p : ptr Z) : M task_t :=
  fun s => match p with
           | NULL => None
           | Some a => match tasks s !! a with Some t => Some (t, s) | None => None end
           end.
(** [p->field = ...] *)
Definition update (p : ptr Z) (f : task_t -> task_t) : M unit :=
  fun s => match p with
           | NULL => None
           | Some a => match tasks s !! a with
                       | Some t => Some (tt, with_tasks (<[a := f t]> (tasks s)) s)
                       | None => None
                       end
           end.
End sched.
#[global] Arguments M : clear implicits.

Declare Scope sched_scope.
Delimit Scope sched_scope with sched.
Notation "x <- m ;; k" := (bind m (fun x => k)) (at level 100, m at next level, right associativity) : sched_scope.
Notation "m ;; k" := (bind m (fun _ => k)) (at level 100, right associativity) : sched_scope.
Open Scope sched_scope.

Definition is_null (p : ptr Z) : bool := match p with NULL => true | Some _ => false end.
Definition ptr_eq (p q : ptr Z) : bool := bool_decide (p = q).

Section ops.
Context {W : Type}.
Variable ops : kernel_ops W.

(** ** Queues *)
Definition is_priority : M W bool := gets (fun s => bool_decide (current_policy s = SCHED_PRIORITY)).

Definition ready_queue_add (task : ptr Z) : M W unit :=
  if is_null task then ret tt
  else
    t <- load task;;
    if negb (bool_decide (state t = TASK_READY)) then ret tt
    else
      prio <- is_priority;;
      (if prio : bool then
         let p := priority t in
         head <- gets (fun s => zget NULL (ready_queues s) p);;
         update task (set_next head);;
         (if is_null head then ret tt else update head (set_prev task));;
         modify (fun s => with_queues (zset p task (ready_queues s)) s);;
         update task (set_prev NULL)
       else
         rr <- gets round_robin_queue;;
         if is_null rr then
           modify (with_rr task);;
           update task (set_links task task)
         else
           update task (set_next rr);;
           h <- load rr;;
           update task (set_prev (prev h));;
           h <- load rr;;
           update (prev h) (set_next task);;
           update rr (set_prev task));;
      modify (with_ready (fun n => n + 1)).

Definition ready_queue_remove (task : ptr Z) : M W unit :=
  if is_null task then ret tt
  else
    prio <- is_priority;;
    (if prio : bool then
       t <- load task;;
       let p := priority t in
       head <- gets (fun s => zget NULL (ready_queues s) p);;
       (if ptr_eq head task then modify (fun s => with_queues (zset p (next t) (ready_queues s)) s) else ret tt);;
       (if is_null (prev t) then ret tt else update (prev t) (set_next (next t)));;
       t <- load task;;
       (if is_null (next t) then ret tt else update (next t) (set_prev (prev t)))
     else
       t <- load task;;
       if ptr_eq (next t) task then modify (with_rr NULL)
       else
         update (prev t) (set_next (next t));;
         t <- load task;;
         update (next t) (set_prev (prev t));;
         rr <- gets round_robin_queue;;
         t <- load task;;
         if ptr_eq rr task then modify (with_rr (next t)) else ret tt);;
    update task (set_links NULL NULL);;
    modify (with_ready (fun n => n - 1)).

(** The loop of [priority_pick_next] over the levels that are left. *)
Fixpoint pick_level (levels : list (ptr Z)) : M W (ptr Z) :=
  match levels with
  | [] => ret NULL
  | task :: levels =>
      if is_null task then pick_level levels
      else ready_queue_remove task;; ret task
  end.

Definition priority_pick_next : M W (ptr Z) :=
  levels <- gets ready_queues;; pick_level levels.

Definition ready_queue_next : M W (ptr Z) :=
  prio <- is_priority;;
  if prio : bool then priority_pick_next
  else
    task <- gets round_robin_queue;;
    if is_null task then ret NULL
    else ready_queue_remove task;; ret task.

Definition rr_pick_next : M W (ptr Z) := ready_queue_next.

Definition scheduler_pick_next : M W (ptr Z) :=
  policy <- gets current_policy;;
  next_task <- (match policy with
                | SCHED_ROUND_ROBIN => rr_pick_next
                | SCHED_PRIORITY => priority_pick_next
                | SCHED_FIFO => rr_pick_next
                end);;
  if is_null next_task then gets idle_task else ret next_task.

(** ** Switching *)

(** Both are empty in the source: placeholders for assembly. *)
Definition save_context (task : ptr Z) : M W unit := ret tt.
Definition restore_context (task : ptr Z) : M W unit := ret tt.

Definition context_switch (prev_task next_task : ptr Z) : M W unit :=
  if ptr_eq prev_task next_task then ret tt
  else
    modify count_switch;;
    (if is_null prev_task then ret tt
     else
       p <- load prev_task;;
       if bool_decide (state p = TASK_RUNNING) then
         save_context prev_task;;
         update prev_task (set_state TASK_READY);;
         update prev_task (fun t => set_switches (u32 (switches t + 1)) t)
       else ret tt);;
    modify (with_current next_task);;
    update next_task (set_state TASK_RUNNING);;
    update next_task (fun t => set_switches (u32 (switches t + 1)) t);;
    restore_context next_task.

Definition schedule : M W unit :=
  enabled <- gets scheduler_enabled;;
  if negb enabled then ret tt
  else
    prev_task <- gets current_task;;
    next_task <- scheduler_pick_next;;
    if ptr_eq next_task prev_task then ret tt else context_switch prev_task next_task.

(** What the tick does when the filter decides to preempt. *)
Definition preempt (cur : ptr Z) : M W unit :=
  update cur (fun t => set_slice (quantum t) t);;
  t <- load cur;;
  (if bool_decide (state t = TASK_RUNNING) then
     update cur (set_state TASK_READY);;
     ready_queue_add cur
   else ret tt);;
  schedule.

Definition scheduler_tick : M W unit :=
  modify count_interrupt;;
  modify (fun s => with_world (checkpoint_tick ops (world s)).2 s);;
  enabled <- gets scheduler_enabled;;
  cur <- gets current_task;;
  if negb enabled || is_null cur then ret tt
  else
    update cur (fun t => set_cpu_time (u64 (cpu_time t + 1)) t);;
    update cur (fun t => if 0 <? time_slice t then set_slice (time_slice t - 1) t else t);;
    t <- load cur;;
    policy <- gets current_policy;;
    let want := bool_decide (policy = SCHED_ROUND_ROBIN) && (time_slice t =? 0) in
    epoch <- gets (fun s => checkpoint_current_epoch ops (world s));;
    f <- gets recorder;;
    let '(b, f) := Sched.tick_decide f epoch want in
    modify (with_filter f);;
    if b : bool then preempt cur else ret tt.

(** The write to the interrupt controller is not part of the state. *)
Definition timer_interrupt_handler : M W unit := scheduler_tick.

Definition scheduler_start : M W unit :=
  modify (with_enabled true);; modify (fun s => with_world (enable_interrupts ops (world s)) s).
Definition scheduler_stop : M W unit :=
  modify (with_enabled false);; modify (fun s => with_world (disable_interrupts ops (world s)) s).

Definition sys_yield : M W unit :=
  cur <- gets current_task;;
  idle <- gets idle_task;;
  if negb (is_null cur) && negb (ptr_eq cur idle) then
    update cur (set_state TASK_READY);;
    ready_queue_add cur;;
    schedule
  else ret tt.

(** ** Tasks *)
Definition task_get_current : M W (ptr Z) := gets current_task.

Fixpoint find_task (h : gmap Z task_t) (l : list (ptr Z)) (p : Z) : option (ptr Z) :=
  match l with
  | [] => Some NULL
  | NULL :: l => find_task h l p
  | Some a :: l =>
      match h !! a with
      | None => None
      | Some t => if pid t =? p then Some (& a) else find_task h l p
      end
  end.

Definition task_get_by_pid (p : Z) : M W (ptr Z) :=
  fun s => match find_task (tasks s) (task_list s) p with
           | Some r => Some (r, s)
           | None => None
           end.

(** The context of a task about to start at [entry]. *)
Definition start_context (entry stack_base stack_size : Z) : context_t :=
  {| rip := entry; rsp := u64 (stack_base + stack_size - 8); rflags := 0x202; cs := 0x18;
     ds := 0x20; es := 0x20; fs := 0x20; gs := 0x20; ss := 0x20 |}.

(** [strncpy(task->name, name, 31)] into zeroed memory; the argument is the
    string without its terminator. *)
Definition copy_name (s : list byte) : list byte := zero_padded 32 (take 31 s).

Definition free_slot (l : list (ptr Z)) : option nat :=
  fst <$> list_find (fun p => is_null p = true) l.

Definition insert_task (a : Z) (t : task_t) : M W unit := modify (fun s => with_tasks (<[a := t]> (tasks s)) s).
Definition kfree (a : Z) : M W unit := modify (fun s => with_tasks (delete a (tasks s)) s).

(** [alloc] is what [kmalloc] returns. *)
Definition task_create (alloc : ptr Z) (nm : list byte) (entry_point prio stack : Z) : M W (ptr Z) :=
  l <- gets task_list;;
  match free_slot l, alloc with
  | None, _ => ret NULL
  | _, NULL => ret NULL
  | Some slot, Some a =>
      n <- gets next_pid;;
      slice <- gets default_time_slice;;
      modify (with_next_pid (u32 (n + 1)));;
      w <- gets world;;
      let '(rc, base, size, w) := task_setup_memory ops stack w in
      modify (with_world w);;
      if negb (rc =? 0) then ret NULL
      else
        insert_task a {| pid := n; name := copy_name nm; state := TASK_READY; priority := prio;
                         time_slice := slice; quantum := slice; context := start_context entry_point base size;
                         stack_base := base; stack_size := size; cpu_time := 0; switches := 0;
                         next := NULL; prev := NULL |};;
        modify (with_list (<[slot := & a]> l));;
        modify (with_active (fun n => n + 1));;
        ready_queue_add (& a);;
        ret (& a)
  end.

(** The first entry of the list that is [a] is cleared. *)
Fixpoint clear_entry (a : Z) (l : list (ptr Z)) : list (ptr Z) :=
  match l with
  | [] => []
  | p :: l => if ptr_eq p (& a) then NULL :: l else p :: clear_entry a l
  end.

Definition task_destroy (p : Z) : M W Z :=
  task <- task_get_by_pid p;;
  idle <- gets idle_task;;
  match task with
  | NULL => ret (-1)
  | Some a =>
      if ptr_eq task idle then ret (-1)
      else
        ready_queue_remove task;;
        t <- load task;;
        modify (fun s => with_world (task_free_stack ops (stack_base t) (stack_size t) (world s)) s);;
        modify (fun s => with_list (clear_entry a (task_list s)) s);;
        cur <- gets current_task;;
        (if ptr_eq task cur then update task (set_state TASK_TERMINATED);; schedule else ret tt);;
        kfree a;;
        modify (with_active (fun n => n - 1));;
        ret 0
  end.

(** ** Initialisation: [task_alloc] and [stack_alloc] are what the two
    [kmalloc]s return, [idle_entry] is the address of [idle_task_func]. *)
Definition create_idle_task (task_alloc stack_alloc : ptr Z) (idle_entry : Z) : M W (ptr Z) :=
  match task_alloc, stack_alloc with
  | Some a, Some base =>
      insert_task a {| pid := 0; name := copy_name [Byte.x69; Byte.x64; Byte.x6c; Byte.x65];
                       state := TASK_RUNNING; priority := PRIORITY_LOWEST; time_slice := 1; quantum := 1;
                       context := start_context idle_entry base 4096; stack_base := base; stack_size := 4096;
                       cpu_time := 0; switches := 0; next := NULL; prev := NULL |};;
      ret (& a)
  | _, _ => ret NULL
  end.

Definition scheduler_init (task_alloc stack_alloc : ptr Z) (idle_entry : Z) (policy : sched_policy_t) (slice : Z)
  : M W Z :=
  modify (with_stats {| total_switches := 0; total_interrupts := 0; active_tasks := 0; ready_tasks := 0;
                        st_policy := policy; st_time_slice := slice |});;
  modify (with_list (replicate (Z.to_nat MAX_TASKS) NULL));;
  modify (with_queues (replicate 256 NULL));;
  modify (fun s =>
    {| tasks := tasks s; current_task := current_task s; idle_task := idle_task s; task_list := task_list s;
       next_pid := next_pid s; scheduler_enabled := scheduler_enabled s; stats := stats s;
       ready_queues := ready_queues s; round_robin_queue := round_robin_queue s; current_policy := policy;
       default_time_slice := slice;
       recorder := {| Sched.g_sched_rec :=
                      match (Sched.sched_record_init (& (Sched.g_sched_rec (recorder s))) Sched.SCHED_REC_OFF
                               (& (Sched.points (Sched.g_sched_rec (recorder s)))) SCHED_REC_MAX_POINTS).2 with
                      | Some r => r
                      | NULL => Sched.g_sched_rec (recorder s)
                      end;
                    Sched.g_sched_lclock := 0 |};
       world := world s |});;
  idle <- create_idle_task task_alloc stack_alloc idle_entry;;
  modify (fun s =>
    {| tasks := tasks s; current_task := current_task s; idle_task := idle; task_list := task_list s;
       next_pid := next_pid s; scheduler_enabled := scheduler_enabled s; stats := stats s;
       ready_queues := ready_queues s; round_robin_queue := round_robin_queue s; current_policy := current_policy s;
       default_time_slice := default_time_slice s; recorder := recorder s; world := world s |});;
  if is_null idle then ret (-1)
  else
    modify (with_current idle);;
    modify (with_enabled false);;
    modify (fun s => with_world (setup_timer_interrupt ops TIMER_FREQUENCY (world s)) s);;
    ret 0.

(** The filter's controls over the scheduler's own record. *)
Definition scheduler_preempt_set_mode (m : Sched.sched_rec_mode_t) : M W unit :=
  modify (fun s => with_filter {| Sched.g_sched_rec :=
                                    match Sched.sched_record_set_mode (& (Sched.g_sched_rec (recorder s))) m with
                                    | Some r => r
                                    | NULL => Sched.g_sched_rec (recorder s)
                                    end;
                                  Sched.g_sched_lclock := Sched.g_sched_lclock (recorder s) |} s).
Definition scheduler_preempt_points : M W (Z * ptr (list Z)) :=
  gets (fun s => Sched.sched_record_points (& (Sched.g_sched_rec (recorder s)))).
Definition preempt_load (e : Z) (pts : ptr (list Z)) (n : Z) : M W Z :=
  f <- gets recorder;;
  let '(rc, f) := Sched.scheduler_preempt_load f e pts n in
  modify (with_filter f);; ret rc.
End ops.
