(* ===== verification/SchedulerSpec.v ===== *)
(** * The ready queues are the lists they represent

    The round-robin queue is a ring of doubly linked tasks; the operations on
    it are those of a FIFO list that can also lose an element in the middle.
    A priority level is a NULL-terminated chain, used as a stack. *)
From Stdlib Require Import ZArith Lia.
From stdpp Require Import gmap.
From S2P Require Import Prelude.
From S2P Require Import Recorders Scheduler.
Open Scope Z_scope.
Open Scope c_scope.
Open Scope sched_scope.

(** ** Linked tasks *)

(** [a], [xs]: consecutive tasks, each linked to the next and back. *)
Fixpoint links (h : gmap Z task_t) (a : Z) (xs : list Z) : Prop :=
  match xs with
  | [] => True
  | b :: xs => next <$> h !! a = Some (& b) /\ prev <$> h !! b = Some (& a) /\ links h b xs
  end.

Definition cyclic (h : gmap Z task_t) (l : list Z) : Prop :=
  match l with [] => True | a :: l => links h a (l ++ [a]) end.

(** [unlink <$> h]: the tasks without their queue pointers. *)
Definition unlink (t : task_t) : task_t := set_links NULL NULL t.

Lemma links_app h a xs b ys : links h a (xs ++ b :: ys) <-> links h a (xs ++ [b]) /\ links h b ys.
Proof. revert a; induction xs as [|x xs IH]; intros a; cbn; [tauto|]. rewrite IH. tauto. Qed.

(** Only the [next] of the first tasks and the [prev] of the last ones count. *)
Lemma links_ext h h' a xs z :
  (forall x, x ∈ a :: xs -> next <$> h' !! x = next <$> h !! x) ->
  (forall x, x ∈ xs ++ [z] -> prev <$> h' !! x = prev <$> h !! x) ->
  links h a (xs ++ [z]) -> links h' a (xs ++ [z]).
Proof.
  revert a; induction xs as [|x xs IH]; intros a Hn Hp; cbn [app links].
  - rewrite Hn, Hp by set_solver. tauto.
  - rewrite Hn, Hp by set_solver. intros (? & ? & ?). split_and!; [done..|].
    apply IH; [set_solver..|done].
Qed.

Lemma cyclic_ext h h' l :
  (forall x, x ∈ l -> h' !! x = h !! x) -> cyclic h l -> cyclic h' l.
Proof.
  destruct l as [|a l]; [done|]. intros H. apply links_ext; intros x Hx; rewrite H; set_solver.
Qed.

Lemma cyclic_rotate h l1 l2 : cyclic h (l1 ++ l2) -> cyclic h (l2 ++ l1).
Proof.
  destruct l1 as [|a l1]; [by rewrite app_nil_r|]. destruct l2 as [|b l2]; [by rewrite app_nil_r|].
  cbn [app cyclic]. rewrite <- !app_assoc. cbn [app].
  rewrite (links_app h a l1 b (l2 ++ [a])), (links_app h b l2 a (l1 ++ [b])). tauto.
Qed.

Lemma links_in h a xs x : links h a xs -> x ∈ xs -> is_Some (h !! x).
Proof.
  revert a; induction xs as [|y xs IH]; intros a; cbn; [set_solver|].
  intros (_ & Hy & Hl) [->|Hx]%elem_of_cons; [|eauto].
  destruct (h !! y); [eauto|discriminate].
Qed.

Lemma cyclic_in h l x : cyclic h l -> x ∈ l -> is_Some (h !! x).
Proof.
  destruct l as [|a l]; [set_solver|]. cbn. intros H Hx. eapply links_in; [exact H|set_solver].
Qed.

Definition last_of (a : Z) (l : list Z) : Z := default a (last l).

Lemma last_of_app a m z : last_of a (m ++ [z]) = z.
Proof. unfold last_of. by rewrite last_snoc. Qed.

(** The head of a ring knows its last task, and conversely. *)
Lemma cyclic_ends h a l :
  cyclic h (a :: l) ->
  prev <$> h !! a = Some (& (last_of a l)) /\ next <$> h !! last_of a l = Some (& a).
Proof.
  cbn. destruct l as [|z m] using rev_ind; [cbn; tauto|].
  rewrite last_of_app, <- app_assoc. cbn [app]. rewrite links_app. cbn. tauto.
Qed.

Lemma last_of_cons a b l : last_of a (b :: l) = last_of b l.
Proof. unfold last_of. destruct l as [|c l]; [done|]. cbn [last]. by destruct (last (c :: l)) eqn:E; [|apply last_None in E]. Qed.

Lemma last_of_in a l : last_of a l ∈ a :: l.
Proof.
  destruct l as [|z m _] using rev_ind; [set_solver|]. rewrite last_of_app. set_solver.
Qed.

(** [a] put at the end of a ring that starts at [b]. *)
Definition enqueued (h : gmap Z task_t) (a b : Z) (l : list Z) : gmap Z task_t :=
  alter (set_prev (& a)) b (alter (set_next (& a)) (last_of b l)
    (alter (set_links (& b) (& (last_of b l))) a h)).

Lemma alter_alter f g a (h : gmap Z task_t) : alter f a (alter g a h) = alter (fun t => f (g t)) a h.
Proof.
  apply map_eq; intros x. destruct (decide (a = x)) as [->|]; [|by rewrite !lookup_alter_ne].
  rewrite !lookup_alter_eq. by destruct (h !! x).
Qed.

Ltac alters :=
  repeat first [rewrite lookup_alter_eq | rewrite lookup_alter_ne by congruence].

Lemma alter_next_prev p a x (h : gmap Z task_t) :
  next <$> alter (set_prev p) a h !! x = next <$> h !! x.
Proof. destruct (decide (a = x)) as [->|]; [rewrite lookup_alter_eq|by rewrite lookup_alter_ne]. by destruct (h !! x). Qed.
Lemma alter_prev_next p a x (h : gmap Z task_t) :
  prev <$> alter (set_next p) a h !! x = prev <$> h !! x.
Proof. destruct (decide (a = x)) as [->|]; [rewrite lookup_alter_eq|by rewrite lookup_alter_ne]. by destruct (h !! x). Qed.

Lemma enqueued_ring h a b l :
  NoDup (b :: l) -> a ∉ b :: l -> is_Some (h !! a) -> cyclic h (b :: l) ->
  cyclic (enqueued h a b l) (b :: l ++ [a]).
Proof.
  intros Hnd Ha [t Ht] Hc. pose proof (cyclic_in _ _ b Hc ltac:(set_solver)) as [tb Htb].
  apply not_elem_of_cons in Ha as [Hab Hal]. apply NoDup_cons in Hnd as [Hbl Hnd].
  unfold enqueued. cbn [cyclic] in *. destruct l as [|z m _] using rev_ind.
  - cbn. alters. by rewrite Ht, Htb.
  - rewrite last_of_app, <- !app_assoc in *. cbn [app] in *.
    rewrite links_app in Hc. destruct Hc as [Hm Hz].
    assert (z <> b) by (intros ->; apply Hbl; set_solver). assert (z <> a) by (intros ->; apply Hal; set_solver).
    rewrite links_app. split.
    + revert Hm. apply links_ext; intros x Hx.
      * rewrite alter_next_prev, !lookup_alter_ne; [done|..].
        -- intros ->; apply Hal. set_solver.
        -- intros ->. apply NoDup_app in Hnd as (_ & Hd & _). set_solver.
      * rewrite lookup_alter_ne by set_solver. rewrite alter_prev_next, lookup_alter_ne; [done|]. set_solver.
    + cbn in Hz. destruct (h !! z) as [tz|] eqn:Ez; [|by destruct Hz].
      cbn. alters. by rewrite Ez, Ht, Htb.
Qed.

(** [a], the first task of a ring, taken out. *)
Definition unlinked (h : gmap Z task_t) (a b : Z) (l : list Z) : gmap Z task_t :=
  alter (set_links NULL NULL) a
    (alter (set_prev (& (last_of b l))) b (alter (set_next (& b)) (last_of b l) h)).

Lemma unlinked_ring h a b l :
  NoDup (a :: b :: l) -> cyclic h (a :: b :: l) -> cyclic (unlinked h a b l) (b :: l).
Proof.
  intros Hnd Hc. apply NoDup_cons in Hnd as [Ha Hnd]. apply not_elem_of_cons in Ha as [Hab Hal].
  pose proof (cyclic_in _ _ b Hc ltac:(set_solver)) as [tb Htb].
  apply NoDup_cons in Hnd as [Hbl Hnd]. unfold unlinked. cbn [cyclic app links] in *.
  destruct Hc as (_ & _ & Hc). destruct l as [|z m _] using rev_ind.
  - cbn. alters. by rewrite Htb.
  - rewrite last_of_app, <- !app_assoc in *. cbn [app] in *. rewrite links_app in Hc. destruct Hc as [Hm Hz].
    assert (z <> b) by (intros ->; apply Hbl; set_solver). assert (z <> a) by (intros ->; apply Hal; set_solver).
    assert (z ∉ m) by (apply NoDup_app in Hnd as (_ & Hd & _); set_solver).
    rewrite links_app. split.
    + revert Hm. apply links_ext; intros x Hx.
      * rewrite lookup_alter_ne by set_solver. by rewrite alter_next_prev, lookup_alter_ne by set_solver.
      * rewrite lookup_alter_ne by set_solver. rewrite lookup_alter_ne by set_solver. by rewrite alter_prev_next.
    + cbn in Hz. destruct (h !! z) as [tz|] eqn:Ez; [|by destruct Hz].
      cbn. alters. by rewrite Ez, Htb.
Qed.

(** Only queue pointers change, and only those of tasks of the ring. *)
Lemma unlink_alter f a (h : gmap Z task_t) :
  (forall t, unlink (f t) = unlink t) -> unlink <$> alter f a h = unlink <$> h.
Proof.
  intros Hf. apply map_eq; intros x. rewrite !lookup_fmap. destruct (decide (a = x)) as [->|].
  - rewrite lookup_alter_eq. destruct (h !! x); [cbn; by rewrite Hf|done].
  - by rewrite lookup_alter_ne.
Qed.

Lemma unlink_enqueued h a b l : unlink <$> enqueued h a b l = unlink <$> h.
Proof. unfold enqueued. by rewrite !unlink_alter by (intros []; reflexivity). Qed.
Lemma unlink_unlinked h a b l : unlink <$> unlinked h a b l = unlink <$> h.
Proof. unfold unlinked. by rewrite !unlink_alter by (intros []; reflexivity). Qed.

(** ** Executing a computation step by step *)
Section steps.
Context {W : Type}.
Implicit Types s : sched_t W.

Lemma step_load a t s : tasks s !! a = Some t -> load (& a) s = Some (t, s).
Proof. intros H. unfold load. by rewrite H. Qed.
Lemma step_update a f t s :
  tasks s !! a = Some t -> update (& a) f s = Some (tt, with_tasks (alter f a (tasks s)) s).
Proof.
  intros H. unfold update. rewrite H. do 3 f_equal. apply map_eq; intros x.
  destruct (decide (a = x)) as [->|]; [by rewrite lookup_alter_eq, lookup_insert_eq, H|].
  by rewrite lookup_alter_ne, lookup_insert_ne.
Qed.
Lemma bind_done {A B} (m : M W A) (k : A -> M W B) s x s' : m s = Some (x, s') -> bind m k s = k x s'.
Proof. intros H. unfold bind. by rewrite H. Qed.
Lemma bind_load {B} a t (k : task_t -> M W B) s :
  tasks s !! a = Some t -> bind (load (& a)) k s = k t s.
Proof. intros H. by apply bind_done, step_load. Qed.
Lemma bind_update {B} a f t (k : unit -> M W B) s :
  tasks s !! a = Some t -> bind (update (& a) f) k s = k tt (with_tasks (alter f a (tasks s)) s).
Proof. intros H. eapply bind_done, step_update, H. Qed.
Lemma bind_gets {A B} (f : sched_t W -> A) (k : A -> M W B) s : bind (gets f) k s = k (f s) s.
Proof. reflexivity. Qed.
Lemma bind_modify {B} f (k : unit -> M W B) s : bind (modify f) k s = k tt (f s).
Proof. reflexivity. Qed.
Lemma bind_value {A B} (x : A) (k : A -> M W B) s : bind (ret x) k s = k x s.
Proof. reflexivity. Qed.
Lemma bind_bind {A B C} (m : M W A) (f : A -> M W B) (k : B -> M W C) s :
  bind (bind m f) k s = bind m (fun x => bind (f x) k) s.
Proof. unfold bind. destruct (m s) as [[]|]; reflexivity. Qed.
End steps.

(** Fields of an updated state. *)
Ltac sproj :=
  cbn [tasks current_task idle_task task_list next_pid scheduler_enabled stats ready_queues round_robin_queue
       current_policy default_time_slice recorder world with_tasks with_current with_list with_next_pid
       with_enabled with_stats with_queues with_rr with_filter with_world with_ready with_active
       count_interrupt count_switch] in *.
Ltac steps := repeat first [rewrite bind_bind | rewrite bind_gets | rewrite bind_modify | rewrite bind_value].

(** ** The round-robin queue *)
Section rr.
Context {W : Type}.
Implicit Types s : sched_t W.

(** The ring [round_robin_queue] points to is [l]. *)
Definition rr_ring s (l : list Z) : Prop :=
  round_robin_queue s = head l /\ NoDup l /\ cyclic (tasks s) l.

Definition with_ring (h : gmap Z task_t) (l : list Z) s : sched_t W := with_rr (head l) (with_tasks h s).

Lemma ring_same h l s : round_robin_queue s = head l -> with_ring h l s = with_tasks h s.
Proof. destruct s. cbn. intros ->. reflexivity. Qed.

Lemma rr_add s a t l :
  current_policy s <> SCHED_PRIORITY -> tasks s !! a = Some t -> state t = TASK_READY ->
  rr_ring s l -> a ∉ l ->
  exists h, ready_queue_add (& a) s = Some (tt, with_ready (fun n => n + 1) (with_ring h (l ++ [a]) s)) /\
    cyclic h (l ++ [a]) /\ unlink <$> h = unlink <$> tasks s /\ (forall x, x ∉ l ++ [a] -> h !! x = tasks s !! x).
Proof.
  intros Hp Ht Hst (Hq & Hnd & Hc) Ha. unfold ready_queue_add, is_priority. cbn [is_null].
  rewrite (bind_load _ t) by done. rewrite bool_decide_true by done. cbn [negb]. steps.
  rewrite bool_decide_false by done. steps. destruct l as [|b l]; cbn in Hq; rewrite Hq; cbn [is_null]; steps.
  - rewrite (bind_update _ _ t) by exact Ht. exists (alter (set_links (& a) (& a)) a (tasks s)).
    split; [reflexivity|]. cbn [app cyclic links]. split_and!.
    + alters. by rewrite Ht.
    + alters. by rewrite Ht.
    + done.
    + by apply unlink_alter.
    + intros x Hx. rewrite lookup_alter_ne; [done|set_solver].
  - apply not_elem_of_cons in Ha as [Hab Hal].
    pose proof (cyclic_ends _ _ _ Hc) as [Hpb Hnz].
    destruct (tasks s !! b) as [tb|] eqn:Eb; [|discriminate].
    destruct (tasks s !! last_of b l) as [tz|] eqn:Ez; [|discriminate].
    injection Hpb as Hpb. assert (Hza : last_of b l <> a) by (pose proof (last_of_in b l); set_solver).
    exists (enqueued (tasks s) a b l). cbn [app]. split; [|split; [|split]].
    + rewrite (bind_update _ _ t) by exact Ht. steps.
      rewrite (bind_load _ tb) by (cbn; by alters). steps.
      rewrite (bind_update _ _ (set_next (& b) t)) by (cbn; alters; by rewrite Ht). steps.
      rewrite (bind_load _ tb) by (cbn; by alters). steps. rewrite Hpb.
      rewrite (bind_update _ _ tz) by (cbn; by alters). steps.
      rewrite (bind_update _ _ (if decide (last_of b l = b) then set_next (& a) tb else tb)); cycle 1.
      { cbn. case_decide as E; [rewrite E; alters; by rewrite Eb|by alters]. }
      rewrite ring_same by exact Hq. unfold modify, enqueued. do 3 f_equal. 
      transitivity (with_tasks (alter (set_prev (& a)) b (alter (set_next (& a)) (last_of b l)
        (alter (set_prev (& (last_of b l))) a (alter (set_next (& b)) a (tasks s))))) s); [reflexivity|].
      by rewrite (alter_alter (set_prev _) (set_next _)).
    + apply enqueued_ring; [done|set_solver|rewrite Ht; eauto|done].
    + apply unlink_enqueued.
    + intros x Hx. unfold enqueued. pose proof (last_of_in b l).
      rewrite !lookup_alter_ne; [done|intros E; apply Hx; rewrite <- E; set_solver..].
Qed.
Lemma unlinked_at h a b l t :
  NoDup (a :: b :: l) -> h !! a = & t -> unlinked h a b l !! a = & (unlink t).
Proof.
  intros Hnd Ht. apply NoDup_cons in Hnd as [Ha _]. unfold unlinked. rewrite lookup_alter_eq.
  pose proof (last_of_in b l). rewrite !lookup_alter_ne, Ht by (intros <-; set_solver). done.
Qed.

Lemma rr_remove s l1 a l2 :
  current_policy s <> SCHED_PRIORITY -> rr_ring s (l1 ++ a :: l2) ->
  exists h, ready_queue_remove (& a) s = Some (tt, with_ready (fun n => n - 1) (with_ring h (l1 ++ l2) s)) /\
    cyclic h (l1 ++ l2) /\ unlink <$> h = unlink <$> tasks s /\ h !! a = unlink <$> tasks s !! a /\
    (forall x, x ∉ l1 ++ a :: l2 -> h !! x = tasks s !! x).
Proof.
  intros Hp (Hq & Hnd & Hc). unfold ready_queue_remove, is_priority. cbn [is_null]. steps.
  rewrite bool_decide_false by done. steps.
  destruct (cyclic_in _ _ a Hc ltac:(set_solver)) as [t Ht]. rewrite (bind_load _ t) by done.
  apply cyclic_rotate in Hc. cbn [app] in Hc.
  assert (Hperm : Permutation (l1 ++ a :: l2) (a :: l2 ++ l1)) by (rewrite (Permutation_app_comm l1); done).
  rewrite Hperm in Hnd. destruct (l2 ++ l1) as [|b m] eqn:Em.
  - apply app_nil in Em as [-> ->]. destruct Hc as (Hn & _). rewrite Ht in Hn. injection Hn as Hn. rewrite Hn.
    unfold ptr_eq. rewrite bool_decide_true by done. steps.
    exists (alter (set_links NULL NULL) a (tasks s)). split_and!.
    + rewrite (bind_update _ _ t) by done. reflexivity.
    + done.
    + by apply unlink_alter.
    + by rewrite lookup_alter_eq.
    + intros x Hx. rewrite lookup_alter_ne; [done|set_solver].
  - pose proof (cyclic_ends _ _ _ Hc) as [Hpa Hnz]. rewrite last_of_cons in Hpa, Hnz.
    pose proof Hc as Hlk. cbn in Hlk. destruct Hlk as (Hna & Hpb & _). rewrite Ht in Hpa, Hna.
    injection Hpa as Hpa. injection Hna as Hna.
    pose proof Hnd as [Ha Hnb]%NoDup_cons. pose proof (last_of_in b m) as Hl. set (z := last_of b m) in *.
    assert (a <> z) by (intros ->; done). apply not_elem_of_cons in Ha as [Hab Ham].
    destruct (tasks s !! z) as [tz|] eqn:Ez; [|discriminate]. destruct (tasks s !! b) as [tb|] eqn:Eb; [|discriminate].
    unfold ptr_eq at 1. rewrite Hna, bool_decide_false by congruence. steps. rewrite Hpa.
    rewrite (bind_update _ _ tz) by done. steps. rewrite (bind_load _ t) by (cbn; by alters). steps.
    rewrite Hna, Hpa. rewrite (bind_update _ _ (if decide (z = b) then set_next (& b) tb else tb)); cycle 1.
    { cbn. case_decide as E; [rewrite E; alters; by rewrite Eb|by alters]. }
    steps. rewrite (bind_load _ t) by (cbn; by alters). steps.
    exists (unlinked (tasks s) a b m).
    assert (Hring : cyclic (unlinked (tasks s) a b m) (l1 ++ l2)).
    { apply cyclic_rotate. rewrite Em. by apply unlinked_ring. }
    split; [|split; [done|split; [apply unlink_unlinked|split; [by rewrite Ht; apply unlinked_at|]]]].
    + unfold ptr_eq. cbn [round_robin_queue with_tasks]. rewrite Hq.
      destruct l1 as [|c l1]; cbn [head app] in *.
      * rewrite bool_decide_true by done. steps. rewrite app_nil_r in Em. subst l2.
        rewrite (bind_update _ _ t) by (cbn; by alters). rewrite Hna. reflexivity.
      * rewrite bool_decide_false; cycle 1.
        { intros [= ->]. apply Ham. assert (a ∈ l2 ++ a :: l1) as Hin by set_solver. rewrite Em in Hin. set_solver. }
        steps. rewrite (bind_update _ _ t) by (cbn; by alters). rewrite ring_same by done. reflexivity.
    + intros x Hx. rewrite Hperm in Hx. unfold unlinked. fold z.
      rewrite !lookup_alter_ne; [done|intros <-; set_solver..].
Qed.

Lemma rr_next s a l :
  current_policy s <> SCHED_PRIORITY -> rr_ring s (a :: l) ->
  exists h, ready_queue_next s = Some (& a, with_ready (fun n => n - 1) (with_ring h l s)) /\
    cyclic h l /\ unlink <$> h = unlink <$> tasks s /\ h !! a = unlink <$> tasks s !! a /\
    (forall x, x ∉ a :: l -> h !! x = tasks s !! x).
Proof.
  intros Hp Hr. destruct (rr_remove s [] a l Hp Hr) as (h & Hrem & H). exists h. split; [|exact H].
  unfold ready_queue_next, is_priority. steps. rewrite bool_decide_false by done. steps.
  destruct Hr as (-> & _). cbn [head is_null]. by rewrite (bind_done _ _ _ _ _ Hrem).
Qed.

Lemma rr_next_empty s :
  current_policy s <> SCHED_PRIORITY -> rr_ring s [] -> ready_queue_next s = Some (NULL, s).
Proof.
  intros Hp (Hq & _). unfold ready_queue_next, is_priority. steps. rewrite bool_decide_false by done. steps.
  by rewrite Hq.
Qed.
(** *** Histories of queue operations *)
Definition ready s (a : Z) : Prop := state <$> tasks s !! a = Some TASK_READY.

Lemma state_unlink (h h' : gmap Z task_t) a : unlink <$> h = unlink <$> h' -> state <$> h !! a = state <$> h' !! a.
Proof.
  intros H. apply (f_equal (fun m => m !! a)) in H. rewrite !lookup_fmap in H.
  destruct (h !! a) as [t|], (h' !! a) as [t'|]; try discriminate H; [|done]. injection H. cbn. congruence.
Qed.

Lemma add_step s a l :
  current_policy s <> SCHED_PRIORITY -> rr_ring s l -> ready s a -> a ∉ l ->
  exists h, ready_queue_add (& a) s = Some (tt, with_ready (fun n => n + 1) (with_ring h (l ++ [a]) s)) /\
    rr_ring (with_ready (fun n => n + 1) (with_ring h (l ++ [a]) s)) (l ++ [a]) /\
    unlink <$> h = unlink <$> tasks s /\ (forall x, x ∉ l ++ [a] -> h !! x = tasks s !! x).
Proof.
  intros Hp Hr Ha Hin. unfold ready in Ha. destruct (tasks s !! a) as [t|] eqn:Et; [|discriminate]. injection Ha as Ha.
  destruct (rr_add s a t l Hp Et Ha Hr Hin) as (h & Hadd & Hc & Hu & Hf). exists h. split; [done|]. split; [|done].
  split; [done|]. split; [|done]. destruct Hr as (_ & Hnd & _). apply NoDup_app. split_and!; [done|set_solver|apply NoDup_singleton].
Qed.

Lemma remove_step s l1 a l2 :
  current_policy s <> SCHED_PRIORITY -> rr_ring s (l1 ++ a :: l2) ->
  exists h, ready_queue_remove (& a) s = Some (tt, with_ready (fun n => n - 1) (with_ring h (l1 ++ l2) s)) /\
    rr_ring (with_ready (fun n => n - 1) (with_ring h (l1 ++ l2) s)) (l1 ++ l2) /\
    unlink <$> h = unlink <$> tasks s /\ h !! a = unlink <$> tasks s !! a /\
    (forall x, x ∉ l1 ++ a :: l2 -> h !! x = tasks s !! x).
Proof.
  intros Hp Hr. destruct (rr_remove s l1 a l2 Hp Hr) as (h & Hrem & Hc & Hu & Ha & Hf). exists h.
  split; [done|]. split; [|done]. split; [done|]. split; [|done]. destruct Hr as (_ & Hnd & _).
  apply NoDup_app in Hnd as (? & ? & [_ ?]%NoDup_cons). apply NoDup_app. split_and!; [done|set_solver|done].
Qed.
End rr.

Inductive queue_op := QAdd (a : Z) | QRemove (a : Z) | QNext.

Definition queue_exec {W} (o : queue_op) : M W (ptr Z) :=
  match o with
  | QAdd a => ready_queue_add (& a);; ret NULL
  | QRemove a => ready_queue_remove (& a);; ret NULL
  | QNext => ready_queue_next
  end.

(** The same operations on a list; [None] where the caller breaks the contract. *)
Definition fifo_exec (o : queue_op) (l : list Z) : option (ptr Z * list Z) :=
  match o with
  | QAdd a => if bool_decide (a ∈ l) then None else Some (NULL, l ++ [a])
  | QRemove a => if bool_decide (a ∈ l) then Some (NULL, filter (fun x => x <> a) l) else None
  | QNext => Some (head l, tail l)
  end.

Fixpoint queue_run {W} (os : list queue_op) : M W (list (ptr Z)) :=
  match os with
  | [] => ret []
  | o :: os => r <- queue_exec o;; rs <- queue_run os;; ret (r :: rs)
  end.

Fixpoint spec_run {Q} (exec : queue_op -> Q -> option (ptr Z * Q)) (os : list queue_op) (q : Q)
  : option (list (ptr Z) * Q) :=
  match os with
  | [] => Some ([], q)
  | o :: os =>
      match exec o q with
      | Some (r, q) =>
          match spec_run exec os q with Some (rs, q) => Some (r :: rs, q) | None => None end
      | None => None
      end
  end.

(** Every task that is added is ready. *)
Definition adds_ready {W} (s : sched_t W) (o : queue_op) : Prop :=
  match o with QAdd a => ready s a | _ => True end.

Lemma filter_split (l1 l2 : list Z) a : NoDup (l1 ++ a :: l2) -> filter (fun x => x <> a) (l1 ++ a :: l2) = l1 ++ l2.
Proof.
  intros Hnd. assert (forall l : list Z, a ∉ l -> filter (fun x => x <> a) l = l) as Hid.
  { induction l as [|x l IH]; intros Hl; [done|]. rewrite filter_cons_True, IH by set_solver. done. }
  apply NoDup_app in Hnd as (_ & H1 & [H2 _]%NoDup_cons). rewrite filter_app, filter_cons_False by tauto.
  rewrite !Hid; [done|done|]. intros H. apply (H1 a H). set_solver.
Qed.

(** What every queue operation leaves alone. *)
Definition same_tasks {W} (s s' : sched_t W) : Prop :=
  unlink <$> tasks s' = unlink <$> tasks s /\ current_policy s' = current_policy s /\
  current_task s' = current_task s /\ idle_task s' = idle_task s.

(** A simulation of the single operations is one of their histories. *)
Lemma queue_simulation {W Q} (R : sched_t W -> Q -> Prop) (exec : queue_op -> Q -> option (ptr Z * Q)) :
  (forall s o q r q', R s q -> adds_ready s o -> exec o q = Some (r, q') ->
     exists s', queue_exec o s = Some (r, s') /\ R s' q' /\ same_tasks s s') ->
  forall os s q rs q', R s q -> Forall (adds_ready s) os -> spec_run exec os q = Some (rs, q') ->
  exists s', queue_run os s = Some (rs, s') /\ R s' q' /\ same_tasks s s'.
Proof.
  intros Hstep os. induction os as [|o os IH]; intros s q rs q' Hr Hready Hs; cbn in Hs |- *.
  - injection Hs as <- <-. by exists s.
  - destruct (exec o q) as [[r q1]|] eqn:Eo; [|discriminate].
    destruct (spec_run exec os q1) as [[rs' q2]|] eqn:Er; [|discriminate]. injection Hs as <- <-.
    apply Forall_cons in Hready as [Ho Hos]. destruct (Hstep s o q r q1 Hr Ho Eo) as (s1 & He & Hr1 & Hsame).
    rewrite (bind_done _ _ _ _ _ He). pose proof Hsame as (Hu & Hpol & Hcur & Hidle).
    destruct (IH s1 q1 rs' q2 Hr1) as (s2 & Hrun & Hr2 & Hsame2); [|done|].
    + eapply Forall_impl; [exact Hos|]. intros []; cbn; [|done..]. unfold ready. by rewrite (state_unlink _ _ _ Hu).
    + exists s2. rewrite (bind_done _ _ _ _ _ Hrun). split_and!; [done..|].
      destruct Hsame2 as (? & ? & ? & ?). repeat split; congruence.
Qed.

(** The scheduler's queue is [l], and [ready_tasks] exceeds its length by [c]. *)
Definition fifo_queue {W} (c : Z) (s : sched_t W) (l : list Z) : Prop :=
  current_policy s <> SCHED_PRIORITY /\ rr_ring s l /\ u32 (ready_tasks (stats s) - Z.of_nat (length l)) = c.

Lemma count_step n k d c : u32 (n - k) = c -> u32 (u32 (n + d) - (k + d)) = c.
Proof. intros <-. unfold u32. rewrite Zminus_mod_idemp_l. f_equal. lia. Qed.

Lemma count_pred n k c : u32 (n - Z.of_nat (S k)) = c -> u32 (u32 (n - 1) - Z.of_nat k) = c.
Proof. intros <-. unfold u32. rewrite Zminus_mod_idemp_l. f_equal. lia. Qed.

Lemma fifo_step {W} c (s : sched_t W) o l r l' :
  fifo_queue c s l -> adds_ready s o -> fifo_exec o l = Some (r, l') ->
  exists s', queue_exec o s = Some (r, s') /\ fifo_queue c s' l' /\ same_tasks s s'.
Proof.
  intros (Hp & Hr & Hn) Hready Hf. destruct o as [a|a|]; cbn [fifo_exec queue_exec adds_ready] in *.
  - case_bool_decide; [discriminate|]. injection Hf as <- <-.
    destruct (add_step s a l Hp Hr Hready H) as (h & Hadd & Hr' & Hu & _).
    eexists. rewrite (bind_done _ _ _ _ _ Hadd). split; [reflexivity|]. split; [split_and!; [done..|]|done].
    apply (count_step _ _ 1) in Hn. rewrite length_app. cbn. by rewrite Nat2Z.inj_add.
  - case_bool_decide as Hin; [|discriminate]. injection Hf as <- <-.
    apply list_elem_of_split in Hin as (l1 & l2 & ->). destruct (remove_step s l1 a l2 Hp Hr) as (h & Hrem & Hr' & Hu & _).
    rewrite filter_split by apply Hr. eexists. rewrite (bind_done _ _ _ _ _ Hrem). split; [reflexivity|].
    split; [split_and!; [done..|]|done]. cbn [stats with_ready with_stats ready_tasks]. apply count_pred. rewrite <- Hn. do 3 f_equal.
    rewrite !length_app. cbn [length]. lia.
  - injection Hf as <- <-. destruct l as [|a l].
    + exists s. by rewrite rr_next_empty.
    + destruct (rr_next s a l Hp Hr) as (h & Hnext & Hc & Hu & _ ). eexists. split; [exact Hnext|].
      destruct Hr as (_ & [_ ?]%NoDup_cons & _). split; [split_and!; [done..|]|done].
      by apply count_pred.
Qed.

Definition example_task (a : Z) : task_t :=
  {| pid := a; name := []; state := TASK_READY; priority := 0; time_slice := 2; quantum := 2;
     context := context_zero; stack_base := 0; stack_size := 0; cpu_time := 0; switches := 0;
     next := NULL; prev := NULL |}.

(** A scheduler with the given policy, six ready tasks and empty queues. *)
Definition example_sched (p : sched_policy_t) : sched_t unit :=
  {| tasks := list_to_map ((fun a => (a, example_task a)) <$> [1; 2; 3; 4; 5; 6]); current_task := NULL;
     idle_task := NULL; task_list := []; next_pid := 7; scheduler_enabled := true;
     stats := {| total_switches := 0; total_interrupts := 0; active_tasks := 0; ready_tasks := 0; st_policy := p;
                 st_time_slice := 2 |};
     ready_queues := replicate 256 NULL; round_robin_queue := NULL; current_policy := p; default_time_slice := 2;
     recorder := {| Sched.g_sched_rec := Sched.Build_sched_record_t Sched.SCHED_REC_OFF 0 [] 0 0 0 0;
                    Sched.g_sched_lclock := 0 |};
     world := tt |}.

(** C20: Round robin: whatever sequence of additions, removals and picks a
    scheduler performs on ready tasks that are in the queue at most once, the
    doubly linked ring behaves exactly as a FIFO list: no operation follows a
    dangling pointer, every pick returns the task at the list's head, the
    ring's tasks are the list's, the counter of ready tasks follows its length,
    and nothing of a task but its queue links changes. *)
Theorem ready_queue_refines_fifo {W} (s : sched_t W) (l : list Z) (os : list queue_op) (rs : list (ptr Z)) (l' : list Z) :
  current_policy s <> SCHED_PRIORITY -> rr_ring s l -> Forall (adds_ready s) os ->
  spec_run fifo_exec os l = Some (rs, l') ->
  exists s', queue_run os s = Some (rs, s') /\ rr_ring s' l' /\ same_tasks s s' /\
    u32 (ready_tasks (stats s') - Z.of_nat (length l')) = u32 (ready_tasks (stats s) - Z.of_nat (length l)).
Proof.
  intros Hp Hr Hready Hs.
  destruct (queue_simulation _ _ (fun s o q r q' => fifo_step _ s o q r q') os s l rs l'
              (conj Hp (conj Hr eq_refl)) Hready Hs) as (s' & Hrun & (_ & Hr' & Hn) & Hsame).
  by exists s'.
Qed.

Lemma ready_queue_refines_fifo_witness :
  exists s', queue_run [QAdd 3; QAdd 1; QAdd 4; QRemove 1; QNext; QAdd 3; QNext; QNext; QNext] (example_sched SCHED_FIFO)
             = Some ([NULL; NULL; NULL; NULL; & 3; NULL; & 4; & 3; NULL], s') /\
    rr_ring s' [] /\ same_tasks (example_sched SCHED_FIFO) s' /\
    u32 (ready_tasks (stats s') - Z.of_nat 0) = u32 (0 - Z.of_nat 0).
Proof.
  apply (ready_queue_refines_fifo (example_sched SCHED_FIFO) []); [discriminate|split_and!; [reflexivity|constructor|exact I]| |reflexivity].
  repeat constructor.
Defined.
