(* ===== verification/SchedulerPrioSpec.v ===== *)
(** * The priority queues are one stack per level

    A level's queue is a chain of tasks ended by NULL on both sides; adding
    pushes at its head, picking takes the head of the first level that has a
    task, and a task can be taken out in the middle. *)
From Stdlib Require Import ZArith Lia.
From stdpp Require Import gmap.
From S2P Require Import Prelude.
From S2P Require Import Recorders Scheduler SchedulerSpec.
Open Scope Z_scope.
Open Scope c_scope.
Open Scope sched_scope.

(** ** Chains between two pointers *)
Definition por (p q : ptr Z) : ptr Z := match p with Some _ => p | NULL => q end.

Fixpoint seg (h : gmap Z task_t) (p : ptr Z) (l : list Z) (n : ptr Z) : Prop :=
  match l with
  | [] => True
  | a :: l => prev <$> h !! a = Some p /\ next <$> h !! a = Some (por (head l) n) /\ seg h (& a) l n
  end.

Lemma seg_app h p l1 l2 n :
  seg h p (l1 ++ l2) n <-> seg h p l1 (por (head l2) n) /\ seg h (por (last l1) p) l2 n.
Proof.
  revert p; induction l1 as [|a l1 IH]; intros p; cbn [app seg]; [cbn; tauto|]. rewrite IH.
  replace (por (head (l1 ++ l2)) n) with (por (head l1) (por (head l2) n)) by (by destruct l1).
  replace (por (last (a :: l1)) p) with (por (last l1) (& a)); [tauto|].
  destruct l1; [done|]. cbn. destruct (last _) eqn:E; [done|]. by apply last_None in E.
Qed.

Lemma seg_ext h h' p l n : (forall x, x ∈ l -> h' !! x = h !! x) -> seg h p l n -> seg h' p l n.
Proof.
  revert p; induction l as [|a l IH]; intros p He; [done|]. cbn. rewrite He by set_solver.
  intros (? & ? & ?). split_and!; [done..|]. apply IH; [set_solver|done].
Qed.

Lemma seg_next h p l z n n' :
  z ∉ l -> seg h p (l ++ [z]) n -> seg (alter (set_next n') z h) p (l ++ [z]) n'.
Proof.
  rewrite !seg_app. cbn. intros Hz (Hl & Hp & Hn & _). split_and!; [|by rewrite alter_prev_next|..|done].
  - revert Hl. apply seg_ext. intros x Hx. rewrite lookup_alter_ne; [done|set_solver].
  - rewrite lookup_alter_eq. by destruct (h !! z).
Qed.

Lemma seg_prev h p b l n p' :
  b ∉ l -> seg h p (b :: l) n -> seg (alter (set_prev p') b h) p' (b :: l) n.
Proof.
  cbn. intros Hb (Hp & Hn & Hl). split_and!; [|by rewrite alter_next_prev|].
  - rewrite lookup_alter_eq. by destruct (h !! b).
  - revert Hl. apply seg_ext. intros x Hx. rewrite lookup_alter_ne; [done|set_solver].
Qed.

Lemma seg_in h p l n x : seg h p l n -> x ∈ l -> is_Some (h !! x).
Proof.
  revert p; induction l as [|a l IH]; intros p; [set_solver|]. cbn. intros (Hp & _ & Hl) [->|Hx]%elem_of_cons; [|eauto].
  destruct (h !! a); [eauto|discriminate].
Qed.

(** ** Levels *)
Definition level_ok (h : gmap Z task_t) (i : Z) (l : list Z) : Prop :=
  seg h NULL l NULL /\ Forall (fun a => priority <$> h !! a = Some i) l.

Fixpoint levels_ok (h : gmap Z task_t) (i : Z) (L : list (list Z)) : Prop :=
  match L with [] => True | l :: L => level_ok h i l /\ levels_ok h (i + 1) L end.

Lemma levels_app h i La l Lb :
  levels_ok h i (La ++ l :: Lb) <->
  levels_ok h i La /\ level_ok h (i + Z.of_nat (length La)) l /\ levels_ok h (i + Z.of_nat (length La) + 1) Lb.
Proof.
  revert i; induction La as [|x La IH]; intros i; cbn [app levels_ok length].
  - replace (i + Z.of_nat 0) with i by lia. tauto.
  - rewrite IH. replace (i + Z.of_nat (S (length La))) with (i + 1 + Z.of_nat (length La)) by lia. tauto.
Qed.

Lemma level_ext h h' i l : (forall x, x ∈ l -> h' !! x = h !! x) -> level_ok h i l -> level_ok h' i l.
Proof.
  intros He [Hs Hf]. split; [by eapply seg_ext|]. rewrite Forall_forall in *. intros x Hx. rewrite He by done. auto.
Qed.

Lemma levels_ext h h' i L : (forall x, x ∈ concat L -> h' !! x = h !! x) -> levels_ok h i L -> levels_ok h' i L.
Proof.
  revert i; induction L as [|l L IH]; intros i He; [done|]. cbn in *. intros [Hl HL].
  split; [eapply level_ext, Hl; set_solver|apply IH; [set_solver|done]].
Qed.

Lemma priority_unlink (h h' : gmap Z task_t) a :
  unlink <$> h = unlink <$> h' -> priority <$> h !! a = priority <$> h' !! a.
Proof.
  intros H. apply (f_equal (fun m => priority <$> m !! a)) in H. rewrite !lookup_fmap in H.
  destruct (h !! a), (h' !! a); try discriminate H; done.
Qed.

Section prio.
Context {W : Type}.
Implicit Types s : sched_t W.

Definition prio_queues s (L : list (list Z)) : Prop :=
  ready_queues s = head <$> L /\ NoDup (concat L) /\ levels_ok (tasks s) 0 L.

Lemma queues_at La l Lb : zget NULL (head <$> La ++ l :: Lb : list (ptr Z)) (Z.of_nat (length La)) = head l.
Proof. unfold zget. rewrite Nat2Z.id, fmap_app, app_nth2; rewrite length_fmap; [|lia]. by rewrite Nat.sub_diag. Qed.
Lemma queues_set La l l' Lb :
  zset (Z.of_nat (length La)) (head l') (head <$> La ++ l :: Lb : list (ptr Z)) = head <$> La ++ l' :: Lb.
Proof.
  unfold zset. rewrite Nat2Z.id, !fmap_app. replace (length La) with (length (head <$> La) + 0)%nat by (rewrite length_fmap; lia).
  by rewrite insert_app_r.
Qed.

Definition with_levels (h : gmap Z task_t) (L : list (list Z)) s : sched_t W :=
  with_queues (head <$> L) (with_tasks h s).

Lemma prio_add s a t La l Lb :
  current_policy s = SCHED_PRIORITY -> tasks s !! a = Some t -> state t = TASK_READY ->
  priority t = Z.of_nat (length La) -> prio_queues s (La ++ l :: Lb) -> a ∉ concat (La ++ l :: Lb) ->
  exists h, ready_queue_add (& a) s
            = Some (tt, with_ready (fun n => n + 1) (with_levels h (La ++ (a :: l) :: Lb) s)) /\
    prio_queues (with_levels h (La ++ (a :: l) :: Lb) s) (La ++ (a :: l) :: Lb) /\
    unlink <$> h = unlink <$> tasks s.
Proof.
  intros Hp Ht Hst Hpr (Hq & Hnd & Hl) Ha. unfold ready_queue_add, is_priority. cbn [is_null].
  rewrite (bind_load _ t) by done. rewrite bool_decide_true by done. cbn [negb]. steps.
  rewrite bool_decide_true by done. steps. rewrite Hpr, Hq, queues_at. steps.
  rewrite (bind_update _ _ t) by exact Ht. steps.
  apply levels_app in Hl as (HLa & [Hs Hf] & HLb). rewrite Z.add_0_l in *.
  rewrite concat_app in Hnd, Ha. cbn [concat] in Hnd, Ha. apply NoDup_app in Hnd as (Hna & Hda & Hnd).
  pose proof Hnd as (Hnl & Hdl & Hnb)%NoDup_app.
  set (h1 := alter (set_next (head l)) a (tasks s)).
  set (h := alter (set_prev NULL) a (match head l with Some b => alter (set_prev (& a)) b h1 | NULL => h1 end)).
  assert (Hother : forall x, x <> a -> (forall b, head l = Some b -> x <> b) -> h !! x = tasks s !! x).
  { intros x Hxa Hxb. unfold h, h1. destruct (head l) as [b|]; [specialize (Hxb b eq_refl)|]; by alters. }
  assert (Hu : unlink <$> h = unlink <$> tasks s).
  { unfold h, h1. destruct (head l); by rewrite !unlink_alter by (intros []; reflexivity). }
  assert (Hpri := fun x => priority_unlink _ _ x Hu).
  exists h. split; [|split; [|done]].
  - destruct l as [|b l]; cbn [head is_null]; steps.
    + rewrite (bind_update _ _ (set_next NULL t)) by (cbn; unfold h1; alters; by rewrite Ht).
      unfold modify. do 3 f_equal. unfold with_levels. cbn [ready_queues with_tasks]. rewrite Hq.
      replace (& a) with (head [a]) by done. rewrite (queues_set La [] [a] Lb). reflexivity.
    + destruct (seg_in _ _ _ _ b Hs ltac:(set_solver)) as [tb Htb]. assert (b <> a) by set_solver.
      rewrite (bind_update _ _ tb) by (cbn; unfold h1; by alters). steps.
      rewrite (bind_update _ _ (set_next (& b) t)) by (cbn; unfold h1; alters; by rewrite Ht).
      unfold modify. do 3 f_equal. unfold with_levels. cbn [ready_queues with_tasks]. rewrite Hq.
      replace (& a) with (head (a :: b :: l)) by done. rewrite (queues_set La (b :: l) (a :: b :: l) Lb). reflexivity.
  - split; [done|]. split.
    + rewrite concat_app. cbn [concat app]. apply NoDup_app. split_and!; [done|set_solver|].
      apply NoDup_cons. split; [set_solver|done].
    + apply levels_app. rewrite Z.add_0_l. cbn [tasks with_levels with_queues with_tasks]. split_and!.
      * revert HLa. apply levels_ext. intros x Hx. apply Hother; [set_solver|].
        intros b Hb ->. apply (Hda b Hx). destruct l; [done|]. injection Hb as ->. set_solver.
      * split; [|constructor; [by rewrite Hpri, Ht; cbn; rewrite Hpr|]; eapply Forall_impl; [exact Hf|]; cbn; intros ? <-; apply Hpri].
        cbn [seg]. unfold h, h1. split_and!.
        -- alters. by destruct (head l) as [b|] eqn:E; alters;
             [rewrite lookup_alter_ne; [alters; rewrite Ht|intros ->; destruct l; set_solver]|rewrite Ht].
        -- rewrite alter_next_prev. destruct (head l) as [b|]; rewrite ?alter_next_prev; alters; by rewrite Ht.
        -- destruct l as [|b l]; [done|]. cbn [head]. apply (seg_ext (alter (set_prev (& a)) b (tasks s))).
           { intros x Hx. assert (x <> a) by set_solver. unfold h, h1.
             destruct (decide (x = b)) as [->|]; alters; done. }
           apply NoDup_cons in Hnl as [Hbl _]. by eapply seg_prev.
      * revert HLb. apply levels_ext. intros x Hx. apply Hother; [set_solver|].
        intros b Hb ->. apply (Hdl b); [destruct l; [done|]; injection Hb as ->; set_solver|done].
Qed.
(** [l1 ++ a :: l2] without [a]: at most two neighbours change. *)
Definition alter_ptr (f : task_t -> task_t) (p : ptr Z) (h : gmap Z task_t) : gmap Z task_t :=
  match p with Some a => alter f a h | NULL => h end.

Lemma alter_ptr_ne f p h x : p <> Some x -> alter_ptr f p h !! x = h !! x.
Proof. intros H. destruct p as [a|]; [|done]. cbn. rewrite lookup_alter_ne; [done|congruence]. Qed.

Lemma unlink_alter_ptr f p h :
  (forall t, unlink (f t) = unlink t) -> unlink <$> alter_ptr f p h = unlink <$> h.
Proof. intros Hf. destruct p; [by apply unlink_alter|done]. Qed.

Definition cut_out (h : gmap Z task_t) (a : Z) (p n : ptr Z) : gmap Z task_t :=
  alter (set_links NULL NULL) a (alter_ptr (set_prev p) n (alter_ptr (set_next n) p h)).

Lemma por_null (p : ptr Z) : por p NULL = p.
Proof. by destruct p. Qed.

Lemma cut_out_seg h l1 a l2 :
  NoDup (l1 ++ a :: l2) -> seg h NULL (l1 ++ a :: l2) NULL ->
  seg (cut_out h a (last l1) (head l2)) NULL (l1 ++ l2) NULL.
Proof.
  intros Hnd Hs. apply seg_app in Hs as [H1 (_ & _ & H2)]. rewrite !por_null in *. cbn [head por] in H1.
  apply NoDup_app in Hnd as (Hn1 & Hd & [Ha Hn2]%NoDup_cons). apply seg_app. rewrite !por_null. unfold cut_out. split.
  - apply (seg_ext (alter_ptr (set_next (head l2)) (last l1) h)).
    { intros x Hx. rewrite lookup_alter_ne by (intros <-; apply (Hd a Hx); set_solver).
      apply alter_ptr_ne. intros Hh. apply (Hd x Hx). destruct l2; [done|]. injection Hh as ->. set_solver. }
    destruct l1 as [|z l _] using rev_ind; [done|]. rewrite last_snoc. cbn [alter_ptr].
    apply NoDup_app in Hn1 as (_ & Hz & _). eapply seg_next; [set_solver|exact H1].
  - apply (seg_ext (alter_ptr (set_prev (last l1)) (head l2) h)).
    { intros x Hx. rewrite lookup_alter_ne by (intros <-; done).
      destruct (head l2) as [b|] eqn:Eb; cbn [alter_ptr].
      - destruct (decide (b = x)) as [->|]; [rewrite !lookup_alter_eq|rewrite !lookup_alter_ne by done];
          rewrite alter_ptr_ne; try done; intros Hl; apply last_Some_elem_of in Hl; eapply (Hd x Hl); set_solver.
      - apply alter_ptr_ne. intros Hl. apply last_Some_elem_of in Hl. eapply (Hd x Hl); set_solver. }
    destruct l2 as [|b l2]; [done|]. cbn [head alter_ptr]. apply NoDup_cons in Hn2 as [Hb _]. eapply seg_prev; [done|exact H2].
Qed.

Lemma prio_remove s La l1 a l2 Lb :
  current_policy s = SCHED_PRIORITY -> prio_queues s (La ++ (l1 ++ a :: l2) :: Lb) ->
  exists h, ready_queue_remove (& a) s
            = Some (tt, with_ready (fun n => n - 1) (with_levels h (La ++ (l1 ++ l2) :: Lb) s)) /\
    prio_queues (with_levels h (La ++ (l1 ++ l2) :: Lb) s) (La ++ (l1 ++ l2) :: Lb) /\
    unlink <$> h = unlink <$> tasks s.
Proof.
  intros Hp (Hq & Hnd & Hl). apply levels_app in Hl as (HLa & [Hs Hf] & HLb). rewrite Z.add_0_l in *.
  rewrite concat_app in Hnd. cbn [concat] in Hnd. apply NoDup_app in Hnd as (Hna & Hda & Hnd).
  pose proof Hnd as (Hnl & Hdl & Hnb)%NoDup_app.
  destruct (seg_in _ _ _ _ a Hs ltac:(set_solver)) as [t Ht].
  pose proof Hs as [_ (Hpt & Hnt & _)]%seg_app. rewrite !por_null, Ht in *.
  cbn [fmap option_fmap option_map] in Hpt, Hnt. injection Hpt as Hpt. injection Hnt as Hnt.
  assert (Hpri : priority t = Z.of_nat (length La)).
  { rewrite Forall_forall in Hf. specialize (Hf a ltac:(set_solver)). rewrite Ht in Hf. by injection Hf. }
  set (h := cut_out (tasks s) a (last l1) (head l2)).
  assert (Hother : forall x, x ∉ l1 ++ a :: l2 -> h !! x = tasks s !! x).
  { intros x Hx. unfold h, cut_out. rewrite lookup_alter_ne by set_solver.
    rewrite !alter_ptr_ne; [done|intros E..].
    - apply last_Some_elem_of in E. set_solver.
    - destruct l2; [done|]. injection E as ->. set_solver. }
  assert (Hu : unlink <$> h = unlink <$> tasks s).
  { unfold h, cut_out. rewrite unlink_alter, !unlink_alter_ptr by (intros []; reflexivity). done. }
  assert (Hpr := fun x => priority_unlink _ _ x Hu).
  pose proof Hnl as (Hn1 & Hd1 & [Ha2 Hn2]%NoDup_cons)%NoDup_app.
  assert (Hlast : last l1 <> Some a) by (intros E%last_Some_elem_of; apply (Hd1 a E); set_solver).
  assert (Hhead : head l2 <> Some a) by (destruct l2; [done|]; intros [= ->]; apply Ha2; set_solver).
  exists h. split; [|split; [|done]].
  - unfold ready_queue_remove, is_priority. cbn [is_null]. steps. rewrite bool_decide_true by done. steps.
    rewrite (bind_load _ t) by done. steps. rewrite Hpri, Hq, queues_at.
    set (s1 := with_queues (head <$> La ++ (l1 ++ l2) :: Lb) s).
    assert (Hhd : forall B (k : unit -> M W B),
      bind (if ptr_eq (head (l1 ++ a :: l2)) (& a)
            then modify (fun s => with_queues (zset (Z.of_nat (length La)) (next t) (ready_queues s)) s) else ret tt) k s
      = k tt s1).
    { intros B k. unfold ptr_eq, s1. destruct l1 as [|c l1]; cbn [head app].
      - rewrite bool_decide_true by done. steps. rewrite Hnt, Hq.
        by rewrite (queues_set La ([] ++ a :: l2) l2 Lb).
      - rewrite bool_decide_false by (intros [= ->]; apply (Hd1 a); set_solver). steps. f_equal.
        destruct s. cbn in *. subst. unfold with_queues. cbn. by rewrite !fmap_app. }
    rewrite Hhd. steps. rewrite Hpt.
    assert (H1 : forall B (k : unit -> M W B),
      bind (if is_null (last l1) then ret tt else update (last l1) (set_next (next t))) k s1
      = k tt (with_tasks (alter_ptr (set_next (head l2)) (last l1) (tasks s)) s1)).
    { intros B k. rewrite Hnt. destruct (last l1) as [z|] eqn:Ez; cbn [is_null alter_ptr]; [|by destruct s].
      destruct (seg_in _ _ _ _ z Hs) as [tz Hz]; [apply last_Some_elem_of in Ez; set_solver|].
      by rewrite (bind_update _ _ tz). }
    rewrite H1. steps. rewrite (bind_load _ t) by (cbn; by rewrite alter_ptr_ne). steps. rewrite Hpt, Hnt.
    assert (H2 : forall B (k : unit -> M W B),
      bind (if is_null (head l2) then ret tt else update (head l2) (set_prev (last l1))) k
        (with_tasks (alter_ptr (set_next (head l2)) (last l1) (tasks s)) s1)
      = k tt (with_tasks (alter_ptr (set_prev (last l1)) (head l2)
                (alter_ptr (set_next (head l2)) (last l1) (tasks s))) s1)).
    { intros B k. destruct (head l2) as [b|] eqn:Eb; cbn [is_null alter_ptr]; [|done].
      destruct (seg_in _ _ _ _ b Hs) as [tb Hb]; [destruct l2; [done|]; injection Eb as ->; set_solver|].
      rewrite (bind_update _ _ tb); [done|]. cbn. rewrite alter_ptr_ne; [done|].
      intros E%last_Some_elem_of. apply (Hd1 b E). destruct l2; [done|]. injection Eb as ->. set_solver. }
    rewrite H2. rewrite (bind_update _ _ t) by (cbn; by rewrite !alter_ptr_ne). reflexivity.
  - split; [done|]. split.
    + rewrite concat_app. cbn [concat]. apply NoDup_app. split_and!; [done|set_solver|].
      apply NoDup_app. split_and!; [|set_solver|done]. apply NoDup_app. split_and!; [done|set_solver|done].
    + apply levels_app. rewrite Z.add_0_l. cbn [tasks with_levels with_queues with_tasks]. split_and!.
      * revert HLa. apply levels_ext. intros x Hx. apply Hother. set_solver.
      * split; [by apply cut_out_seg|]. rewrite Forall_app, Forall_cons in Hf. destruct Hf as (? & _ & ?).
        apply Forall_app; split; (eapply Forall_impl; [eassumption|]); cbn; intros ? <-; apply Hpr.
      * revert HLb. apply levels_ext. intros x Hx. apply Hother. set_solver.
Qed.
End prio.

(** ** Histories *)
Fixpoint pop (L : list (list Z)) : ptr Z * list (list Z) :=
  match L with
  | [] => (NULL, [])
  | [] :: L => let '(r, L) := pop L in (r, [] :: L)
  | (a :: l) :: L => (& a, l :: L)
  end.

(** The operations on one list per level; [pr a] is the level of task [a]. *)
Definition levels_exec (pr : Z -> nat) (o : queue_op) (L : list (list Z)) : option (ptr Z * list (list Z)) :=
  match o with
  | QAdd a => if bool_decide (a ∈ concat L) then None
              else match L !! pr a with Some l => Some (NULL, <[pr a := a :: l]> L) | None => None end
  | QRemove a => if bool_decide (a ∈ concat L) then Some (NULL, filter (fun x => x <> a) <$> L) else None
  | QNext => Some (pop L)
  end.

Lemma pop_spec L :
  (pop L = (NULL, L) /\ concat L = []) \/
  exists La a l Lb, L = La ++ (a :: l) :: Lb /\ concat La = [] /\ pop L = (& a, La ++ l :: Lb).
Proof.
  induction L as [|[|a l] L IH]; [by left|..].
  - cbn. destruct IH as [[-> H]|(La & a & l & Lb & -> & H & ->)]; [by left|right]. by exists ([] :: La), a, l, Lb.
  - right. by exists [], a, l, L.
Qed.

Lemma pick_empty {W} L (s : sched_t W) : concat L = [] -> pick_level (head <$> L) s = Some (NULL, s).
Proof. induction L as [|[|a l] L IH]; [done| |discriminate]. exact IH. Qed.

Lemma pick_first {W} La a l Lb (s : sched_t W) :
  concat La = [] ->
  pick_level (head <$> La ++ (a :: l) :: Lb) s = (ready_queue_remove (& a);; ret (& a)) s.
Proof. induction La as [|[|b m] La IH]; [done| |discriminate]. exact IH. Qed.

Lemma filter_absent (l : list Z) a : a ∉ l -> filter (fun x => x <> a) l = l.
Proof. induction l as [|x l IH]; intros Hl; [done|]. rewrite filter_cons_True, IH by set_solver. done. Qed.

Lemma filter_levels L a : a ∉ concat L -> (fun l : list Z => filter (fun x => x <> a) l) <$> L = L.
Proof.
  induction L as [|l L IH]; intros Ha; [done|]. cbn in *. by rewrite filter_absent, IH by set_solver.
Qed.

Definition prio_queue {W} (pr : Z -> nat) (s : sched_t W) (L : list (list Z)) : Prop :=
  current_policy s = SCHED_PRIORITY /\ prio_queues s L /\
  (forall a t, tasks s !! a = Some t -> priority t = Z.of_nat (pr a)).

Lemma prio_of_unlink {W} (s s' : sched_t W) (pr : Z -> nat) :
  unlink <$> tasks s' = unlink <$> tasks s ->
  (forall a t, tasks s !! a = Some t -> priority t = Z.of_nat (pr a)) ->
  forall a t, tasks s' !! a = Some t -> priority t = Z.of_nat (pr a).
Proof.
  intros Hu Hpr a t Ht. pose proof (priority_unlink _ _ a Hu) as H. rewrite Ht in H.
  destruct (tasks s !! a) as [t0|] eqn:E; [|discriminate]. injection H as ->. eauto.
Qed.

Lemma level_step {W} pr (s : sched_t W) o L r L' :
  prio_queue pr s L -> adds_ready s o -> levels_exec pr o L = Some (r, L') ->
  exists s', queue_exec o s = Some (r, s') /\ prio_queue pr s' L' /\ same_tasks s s'.
Proof.
  intros (Hp & Hq & Hpr) Hready Hf. destruct o as [a|a|]; cbn [levels_exec queue_exec adds_ready] in *.
  - case_bool_decide as Hin; [discriminate|]. destruct (L !! pr a) as [l|] eqn:El; [|discriminate]. injection Hf as <- <-.
    unfold ready in Hready. destruct (tasks s !! a) as [t|] eqn:Et; [|discriminate]. injection Hready as Hst.
    pose proof (list_elem_of_split_length _ _ _ El) as (La & Lb & -> & Hlen).
    destruct (prio_add s a t La l Lb Hp Et Hst ltac:(rewrite (Hpr a t Et); lia) Hq Hin) as (h & Hadd & Hq' & Hu).
    eexists. rewrite (bind_done _ _ _ _ _ Hadd). split; [reflexivity|]. rewrite Hlen.
    replace (length La) with (length La + 0)%nat by lia. rewrite insert_app_r. cbn [list_insert insert].
    split; [|done]. split_and!; [done..|]. by apply (prio_of_unlink s).
  - case_bool_decide as Hin; [|discriminate]. injection Hf as <- <-.
    apply list_elem_of_In, in_concat in Hin as (l & Hl%list_elem_of_In & Hal%list_elem_of_In).
    apply list_elem_of_split in Hl as (La & Lb & ->).
    apply list_elem_of_split in Hal as (l1 & l2 & ->).
    destruct (prio_remove s La l1 a l2 Lb Hp Hq) as (h & Hrem & Hq' & Hu).
    eexists. rewrite (bind_done _ _ _ _ _ Hrem). split; [reflexivity|].
    destruct Hq as (_ & Hnd & _). rewrite concat_app in Hnd. cbn [concat] in Hnd.
    apply NoDup_app in Hnd as (_ & Hd & (Hnl & Hd2 & _)%NoDup_app).
    rewrite fmap_app, fmap_cons, filter_split, !filter_levels; [|apply Hd2; set_solver|intros H; eapply (Hd a H); set_solver|done].
    split; [|done]. split_and!; [done..|]. by apply (prio_of_unlink s).
  - injection Hf as Hf. unfold ready_queue_next, is_priority, priority_pick_next. steps.
    rewrite bool_decide_true by done. steps. pose proof Hq as (Hqs & _). rewrite Hqs.
    destruct (pop_spec L) as [[Hpop He]|(La & a & l & Lb & -> & He & Hpop)]; rewrite Hpop in Hf; injection Hf as <- <-.
    + exists s. by rewrite pick_empty.
    + destruct (prio_remove s La [] a l Lb Hp Hq) as (h & Hrem & Hq' & Hu). rewrite pick_first by done.
      rewrite (bind_done _ _ _ _ _ Hrem). eexists. split; [reflexivity|]. split; [|done]. split_and!; [done..|].
      by apply (prio_of_unlink s).
Qed.

(** C21: priority scheduling as the code has it: whatever sequence of
    additions, removals and picks is performed, the 256 chains of tasks behave
    as 256 stacks, so every pick returns the task most recently made ready
    among those of the highest non-empty level, no dangling pointer is
    followed, and nothing of a task but its queue links changes.  Within a
    level this is last in, first out, where SCHEDULER_IMPLEMENTATION.md
    promises round robin ([equal_priority_starves]). *)
Theorem priority_queues_refine_stacks {W} (pr : Z -> nat) (s : sched_t W) (L : list (list Z)) (os : list queue_op)
    (rs : list (ptr Z)) (L' : list (list Z)) :
  current_policy s = SCHED_PRIORITY -> prio_queues s L ->
  (forall a t, tasks s !! a = Some t -> priority t = Z.of_nat (pr a)) ->
  Forall (adds_ready s) os -> spec_run (levels_exec pr) os L = Some (rs, L') ->
  exists s', queue_run os s = Some (rs, s') /\ prio_queues s' L' /\ same_tasks s s'.
Proof.
  intros Hp Hq Hpr Hready Hs.
  destruct (queue_simulation _ _ (level_step pr) os s L rs L' (conj Hp (conj Hq Hpr)) Hready Hs)
    as (s' & Hrun & (_ & Hq' & _) & Hsame).
  by exists s'.
Qed.

(** Tasks 1 to 3 on level 7, the others on level 2. *)
Definition example_level (a : Z) : nat := if a <=? 3 then 7 else 2.

Definition example_prio : sched_t unit :=
  with_tasks (map_imap (fun a t => Some {| pid := pid t; name := name t; state := state t;
      priority := Z.of_nat (example_level a); time_slice := time_slice t; quantum := quantum t;
      context := context t; stack_base := 0; stack_size := 0; cpu_time := 0; switches := 0; next := NULL;
      prev := NULL |}) (tasks (example_sched SCHED_PRIORITY))) (example_sched SCHED_PRIORITY).

Lemma example_prio_level a t : tasks example_prio !! a = Some t -> priority t = Z.of_nat (example_level a).
Proof.
  cbn [example_prio with_tasks tasks]. rewrite map_lookup_imap. destruct (_ !! a); [|discriminate]. by intros [= <-].
Qed.

Lemma levels_empty h i n : levels_ok h i (replicate n []).
Proof. revert i; induction n as [|n IH]; intros i; [exact I|]. split; [split; [exact I|constructor]|apply IH]. Qed.

Lemma priority_queues_refine_stacks_witness :
  exists s', queue_run [QAdd 1; QAdd 2; QAdd 5; QAdd 3; QRemove 2; QNext; QNext; QNext; QNext] example_prio
             = Some ([NULL; NULL; NULL; NULL; NULL; & 5; & 3; & 1; NULL], s') /\
    prio_queues s' (replicate 256 []) /\ same_tasks example_prio s'.
Proof.
  apply (priority_queues_refine_stacks example_level example_prio (replicate 256 [])).
  - reflexivity.
  - split; [reflexivity|]. split; [constructor|]. apply levels_empty.
  - exact example_prio_level.
  - repeat constructor.
  - vm_compute. reflexivity.
Defined.

(** Two tasks of equal priority do not take turns: the one that is preempted is
    put back in front, and picked again, as long as it stays runnable. *)
Definition preempted_rounds (n : nat) (a : Z) : list queue_op := mjoin (replicate n [QNext; QAdd a]).

Lemma equal_priority_starves :
  priority <$> tasks example_prio !! 1 = Some 7 /\ priority <$> tasks example_prio !! 2 = Some 7 /\
  fst <$> queue_run ([QAdd 1; QAdd 2] ++ preempted_rounds 20 2) example_prio =
  Some ([NULL; NULL] ++ mjoin (replicate 20 [& 2; NULL])).
Proof. vm_compute. auto. Qed.
