(* ===== verification/SchedulerTickSpec.v ===== *)
(** * What the timer tick does to the running task

    A tick charges the running task and, when its slice is used up, moves it
    to the end of the ring and switches to the task at its head.  Round robin
    is fair as long as another task is ready; a task that runs alone is lost. *)
From Stdlib Require Import ZArith Lia.
From stdpp Require Import gmap.
From S2P Require Import Prelude.
From S2P Require Import Recorders Scheduler SchedulerSpec.
Open Scope Z_scope.
Open Scope c_scope.
Open Scope sched_scope.

Section tick.
Context {W : Type}.
Variable ops : kernel_ops W.
Implicit Types s : sched_t W.

(** ** One tick, up to the decision to preempt *)
Definition charge (t : task_t) : task_t :=
  let t := set_cpu_time (u64 (cpu_time t + 1)) t in
  if 0 <? time_slice t then set_slice (time_slice t - 1) t else t.

Definition tick_world s : W := (checkpoint_tick ops (world s)).2.

Definition tick_want s (t : task_t) : bool :=
  bool_decide (current_policy s = SCHED_ROUND_ROBIN) && (time_slice (charge t) =? 0).

Definition tick_filter s (t : task_t) : bool * Sched.sched_filter :=
  Sched.tick_decide (recorder s) (checkpoint_current_epoch ops (tick_world s)) (tick_want s t).

Definition ticked (c : Z) (t : task_t) s : sched_t W :=
  with_filter (tick_filter s t).2
    (with_tasks (alter charge c (tasks s)) (with_world (tick_world s) (count_interrupt s))).

Lemma tick_running s c t :
  scheduler_enabled s = true -> current_task s = & c -> tasks s !! c = & t ->
  scheduler_tick ops s = (if (tick_filter s t).1 then preempt (& c) else ret tt) (ticked c t s).
Proof.
  intros He Hc Ht. unfold scheduler_tick. steps. cbn [scheduler_enabled current_task with_world count_interrupt with_stats].
  rewrite He, Hc. cbn [negb is_null orb].
  rewrite (bind_update _ _ t) by done.
  rewrite (bind_update _ _ (set_cpu_time (u64 (cpu_time t + 1)) t)) by (sproj; alters; by rewrite Ht).
  rewrite (bind_load _ (charge t)) by (sproj; alters; by rewrite Ht). steps.
  sproj. rewrite alter_alter. unfold ticked.
  fold (tick_world s).
  fold (tick_want s t). fold (tick_filter s t). destruct (tick_filter s t) as [b f]. reflexivity.
Qed.

Lemma tick_idle s :
  scheduler_enabled s = false \/ current_task s = NULL ->
  scheduler_tick ops s = Some (tt, with_world (tick_world s) (count_interrupt s)).
Proof.
  intros H. unfold scheduler_tick. steps. cbn [scheduler_enabled current_task with_world count_interrupt with_stats].
  destruct H as [->| ->]; [done|]. by rewrite orb_true_r.
Qed.

(** ** Picking the next task *)
Definition switched_in (t : task_t) : task_t := set_switches (u32 (switches t + 1)) (set_state TASK_RUNNING t).

Lemma schedule_same s :
  scheduler_enabled s = true -> current_policy s = SCHED_ROUND_ROBIN -> rr_ring s [] ->
  current_task s = idle_task s -> schedule s = Some (tt, s).
Proof.
  intros He Hp Hr Hc. unfold schedule. steps. rewrite He. cbn [negb]. steps.
  unfold scheduler_pick_next. steps. rewrite Hp. unfold rr_pick_next.
  rewrite (bind_done _ _ _ _ _ (rr_next_empty s ltac:(congruence) Hr)). cbn [is_null]. steps.
  unfold ptr_eq. by rewrite bool_decide_true.
Qed.

(** A switch away from a task whose state is no longer RUNNING. *)
Lemma switch_ready s c t n tn :
  tasks s !! c = & t -> state t <> TASK_RUNNING -> tasks s !! n = & tn -> c <> n ->
  context_switch (& c) (& n) s
  = Some (tt, with_tasks (alter switched_in n (tasks s)) (with_current (& n) (count_switch s))).
Proof.
  intros Ht Hst Hn Hcn. unfold context_switch. unfold ptr_eq. rewrite bool_decide_false by congruence. steps.
  cbn [is_null]. steps. rewrite (bind_load _ t) by done. rewrite bool_decide_false by done. steps.
  rewrite (bind_update _ _ tn) by done. steps.
  rewrite (bind_update _ _ (set_state TASK_RUNNING tn)) by (sproj; alters; by rewrite Hn).
  cbn [tasks with_tasks with_current count_switch with_stats]. rewrite alter_alter. reflexivity.
Qed.

(** The head of a non-empty ring is switched in. *)
Lemma schedule_head s c t n l :
  scheduler_enabled s = true -> current_policy s = SCHED_ROUND_ROBIN -> current_task s = & c ->
  tasks s !! c = & t -> state t <> TASK_RUNNING -> rr_ring s (n :: l) -> c <> n ->
  exists s', schedule s = Some (tt, s') /\ current_task s' = & n /\ rr_ring s' l /\
    unlink <$> tasks s' = alter switched_in n (unlink <$> tasks s) /\
    current_policy s' = current_policy s /\ scheduler_enabled s' = true /\ recorder s' = recorder s /\
    idle_task s' = idle_task s.
Proof.
  intros He Hp Hc Ht Hst Hr Hcn. pose proof Hr as (_ & Hnd & _).
  destruct (rr_next s n l ltac:(congruence) Hr) as (h & Hnext & Hring & Hu & Hn & Hf).
  destruct (cyclic_in _ _ n (proj2 (proj2 Hr)) ltac:(set_solver)) as [tn Htn]. rewrite Htn in Hn.
  pose proof (state_unlink _ _ c Hu) as Hcs. rewrite Ht in Hcs. destruct (h !! c) as [t'|] eqn:Ht'; [|discriminate].
  injection Hcs as Hcs.
  unfold schedule. steps. rewrite He. cbn [negb]. steps. unfold scheduler_pick_next. steps. rewrite Hp.
  unfold rr_pick_next. rewrite (bind_done _ _ _ _ _ Hnext). cbn [is_null]. steps.
  unfold ptr_eq. rewrite Hc, bool_decide_false by congruence.
  rewrite (switch_ready _ c t' n (unlink tn)); [|done|by rewrite Hcs|exact Hn|done].
  eexists. split; [reflexivity|]. cbn [current_task with_tasks with_current]. split; [done|].
  apply NoDup_cons in Hnd as [Hnl Hnd]. split; [|split_and!; try done].
  - split_and!; [done..|]. cbn [tasks with_tasks]. revert Hring. apply cyclic_ext. intros x Hx.
    rewrite lookup_alter_ne; [done|]. intros <-. done.
  - cbn [tasks with_tasks]. rewrite <- Hu. apply map_eq; intros x. rewrite lookup_fmap.
    destruct (decide (n = x)) as [<-|]; [|by rewrite !lookup_alter_ne, lookup_fmap by done].
    rewrite !lookup_alter_eq, lookup_fmap. cbn [tasks with_current count_switch with_stats with_ready with_ring with_rr with_tasks].
    by destruct (h !! n).
Qed.

Definition expired (t : task_t) : task_t := set_state TASK_READY (set_slice (quantum t) t).

Lemma unlink_alter_comm f a (h : gmap Z task_t) :
  (forall t, unlink (f t) = f (unlink t)) -> unlink <$> alter f a h = alter f a (unlink <$> h).
Proof.
  intros Hf. apply map_eq; intros x. rewrite lookup_fmap. destruct (decide (a = x)) as [->|].
  - rewrite !lookup_alter_eq, lookup_fmap. destruct (h !! x); [cbn; by rewrite Hf|done].
  - by rewrite !lookup_alter_ne, lookup_fmap by done.
Qed.

(** The start of [preempt]: a running task goes to the end of the ring. *)
Lemma preempt_running s c t l :
  current_policy s = SCHED_ROUND_ROBIN -> tasks s !! c = & t -> state t = TASK_RUNNING ->
  rr_ring s l -> c ∉ l ->
  exists s', preempt (& c) s = schedule s' /\ rr_ring s' (l ++ [c]) /\
    unlink <$> tasks s' = alter expired c (unlink <$> tasks s) /\
    current_policy s' = current_policy s /\ scheduler_enabled s' = scheduler_enabled s /\
    recorder s' = recorder s /\ idle_task s' = idle_task s /\ current_task s' = current_task s.
Proof.
  intros Hp Ht Hst Hr Hc. unfold preempt. rewrite (bind_update _ _ t) by done.
  rewrite (bind_load _ (set_slice (quantum t) t)) by (sproj; alters; by rewrite Ht).
  rewrite bool_decide_true by done. steps.
  rewrite (bind_update _ _ (set_slice (quantum t) t)) by (sproj; alters; by rewrite Ht).
  cbn [tasks with_tasks]. rewrite alter_alter.
  change (fun t => set_state TASK_READY (set_slice (quantum t) t)) with expired.
  set (s1 := with_tasks (alter expired c (tasks s)) (with_tasks _ s)).
  assert (Hr1 : rr_ring s1 l).
  { destruct Hr as (? & ? & Hcy). split_and!; [done..|]. cbn [tasks with_tasks s1]. revert Hcy. apply cyclic_ext.
    intros x Hx. rewrite lookup_alter_ne; [done|]. intros <-. done. }
  assert (Hready : ready s1 c) by (unfold ready; cbn [tasks with_tasks s1]; alters; by rewrite Ht).
  destruct (add_step s1 c l ltac:(cbn; congruence) Hr1 Hready Hc) as (h & Hadd & Hr2 & Hu & _).
  rewrite (bind_done _ _ _ _ _ Hadd). eexists. split; [reflexivity|]. split; [done|].
  split; [|done]. cbn [tasks with_ready with_stats with_ring with_rr with_tasks]. rewrite Hu.
  apply unlink_alter_comm. by intros [].
Qed.
(** ** Round robin in turns *)

(** [c] runs with [k] ticks left, the tasks of [l] wait with full slices, and
    the preemption filter is off. *)
Record rr_turn s (c : Z) (l : list Z) (k : Z) : Prop := {
  rt_enabled : scheduler_enabled s = true;
  rt_policy : current_policy s = SCHED_ROUND_ROBIN;
  rt_off : Sched.mode (Sched.g_sched_rec (recorder s)) = Sched.SCHED_REC_OFF;
  rt_current : current_task s = & c;
  rt_fresh : c ∉ l;
  rt_ring : rr_ring s l;
  rt_run : exists t, tasks s !! c = & t /\ state t = TASK_RUNNING /\ time_slice t = k;
  rt_wait : forall a, a ∈ l -> exists t, tasks s !! a = & t /\ state t = TASK_READY /\ time_slice t = quantum t }.

(** Every task has been charged [f] more ticks and kept its quantum. *)
Definition charged s s' (f : Z -> Z) : Prop :=
  forall a t, tasks s !! a = & t -> exists t', tasks s' !! a = & t' /\ quantum t' = quantum t /\
    u64 (cpu_time t') = u64 (cpu_time t + f a).

Lemma charged_refl s : charged s s (fun _ => 0).
Proof. intros a t Ht. exists t. by rewrite Z.add_0_r. Qed.

Lemma charged_trans s1 s2 s3 f g :
  charged s1 s2 f -> charged s2 s3 g -> charged s1 s3 (fun a => f a + g a).
Proof.
  intros H1 H2 a t Ht. destruct (H1 a t Ht) as (t2 & Ht2 & Hq2 & Hc2).
  destruct (H2 a t2 Ht2) as (t3 & Ht3 & Hq3 & Hc3). exists t3. split_and!; [done|congruence|].
  rewrite Hc3. unfold u64 in *. rewrite Z.add_mod, Hc2, <- Z.add_mod by lia. f_equal. lia.
Qed.

Lemma charged_ext s s' f g : (forall a, f a = g a) -> charged s s' f -> charged s s' g.
Proof. intros He H a t Ht. rewrite <- He. by apply H. Qed.

Definition one (c a : Z) : Z := if bool_decide (a = c) then 1 else 0.

Lemma filter_off s t :
  Sched.mode (Sched.g_sched_rec (recorder s)) = Sched.SCHED_REC_OFF ->
  (tick_filter s t).1 = tick_want s t /\
  Sched.g_sched_rec (tick_filter s t).2 = Sched.g_sched_rec (recorder s).
Proof.
  intros H. unfold tick_filter, Sched.tick_decide. rewrite H.
  unfold Sched.sched_record_decide. rewrite H. done.
Qed.

Lemma charge_mid t k :
  time_slice t = k -> 1 <= k ->
  charge t = set_slice (k - 1) (set_cpu_time (u64 (cpu_time t + 1)) t).
Proof.
  intros Hs Hk. unfold charge. replace (time_slice (set_cpu_time _ t)) with k by done.
  by rewrite (proj2 (Z.ltb_lt 0 k)) by lia.
Qed.

Lemma u64_mod x : u64 (u64 x) = u64 x.
Proof. unfold u64. apply Z.mod_mod. lia. Qed.

Lemma tick_mid s c l k :
  rr_turn s c l k -> 2 <= k ->
  exists s', scheduler_tick ops s = Some (tt, s') /\ rr_turn s' c l (k - 1) /\ charged s s' (one c).
Proof.
  intros [He Hp Ho Hc Hf Hr (t & Ht & Hst & Hsl) Hw] Hk.
  rewrite (tick_running s c t) by done. destruct (filter_off s t Ho) as [-> Hrec].
  pose proof (charge_mid t k Hsl ltac:(lia)) as Hch.
  unfold tick_want. rewrite Hch. cbn [time_slice set_slice set_cpu_time].
  rewrite (proj2 (Z.eqb_neq (k - 1) 0)) by lia. rewrite andb_false_r. eexists. split; [reflexivity|].
  split; [split; unfold ticked; sproj; try done|].
  - by rewrite Hrec.
  - destruct Hr as (? & ? & Hcy). split_and!; [done..|]. sproj. revert Hcy. apply cyclic_ext.
    intros x Hx. rewrite lookup_alter_ne; [done|]. intros <-. done.
  - exists (charge t). alters. rewrite Ht. cbn [fmap option_fmap option_map]. by rewrite Hch.
  - intros a Ha. destruct (Hw a Ha) as (ta & Hta & ?). exists ta. rewrite lookup_alter_ne by (intros <-; done). done.
  - intros a ta Hta. unfold ticked, one. sproj. destruct (decide (c = a)) as [<-|].
    + rewrite bool_decide_true by done. exists (charge t). alters. assert (ta = t) as -> by congruence.
      rewrite Ht. cbn [fmap option_fmap option_map]. rewrite Hch. split_and!; [done..|]. apply u64_mod.
    + rewrite bool_decide_false by congruence. exists ta. alters. by rewrite Z.add_0_r.
Qed.

Lemma view_unlink (h h' : gmap Z task_t) a t :
  unlink <$> h' = h -> h !! a = & t -> exists t', h' !! a = & t' /\ unlink t' = t.
Proof.
  intros <- H. rewrite lookup_fmap in H. destruct (h' !! a) as [t'|]; [|discriminate].
  exists t'. by injection H.
Qed.

Lemma tick_last s c n l :
  rr_turn s c (n :: l) 1 ->
  exists s', scheduler_tick ops s = Some (tt, s') /\ charged s s' (one c) /\
    exists tn, tasks s !! n = & tn /\ rr_turn s' n (l ++ [c]) (quantum tn).
Proof.
  intros [He Hp Ho Hc Hf Hr (t & Ht & Hst & Hsl) Hw].
  rewrite (tick_running s c t) by done. destruct (filter_off s t Ho) as [-> Hrec].
  pose proof (charge_mid t 1 Hsl ltac:(lia)) as Hch.
  unfold tick_want. rewrite Hp, bool_decide_true by done. rewrite Hch. cbn [andb time_slice set_slice].
  change (1 - 1 =? 0) with true. cbn iota.
  set (s1 := ticked c t s).
  assert (Ht1 : tasks s1 !! c = & (charge t)) by (unfold s1, ticked; sproj; alters; by rewrite Ht).
  assert (Hr1 : rr_ring s1 (n :: l)).
  { destruct Hr as (? & ? & Hcy). split_and!; [done..|]. unfold s1, ticked. sproj. revert Hcy. apply cyclic_ext.
    intros x Hx. rewrite lookup_alter_ne; [done|]. intros <-. done. }
  destruct (preempt_running s1 c (charge t) (n :: l) Hp Ht1 ltac:(by rewrite Hch) Hr1 Hf)
    as (s2 & -> & Hr2 & Hu2 & Hp2 & He2 & Hrec2 & Hi2 & Hc2).
  assert (Hcn : c <> n) by (intros ->; apply Hf; set_solver).
  destruct (view_unlink _ _ c (unlink (expired (charge t))) Hu2) as (t2 & Ht2 & Eu2).
  { rewrite lookup_alter_eq, lookup_fmap, Ht1. done. }
  assert (Hst2 : state t2 <> TASK_RUNNING).
  { apply (f_equal state) in Eu2. cbn in Eu2. by rewrite Eu2. }
  cbn [app] in Hr2.
  destruct (schedule_head s2 c t2 n (l ++ [c]) ltac:(by rewrite He2) ltac:(by rewrite Hp2) ltac:(by rewrite Hc2) Ht2 Hst2 Hr2 Hcn)
    as (s3 & Hs3 & Hc3 & Hr3 & Hu3 & Hp3 & He3 & Hrec3 & Hi3).
  rewrite Hu2 in Hu3. exists s3. split; [done|].
  assert (Hview : forall a ta, tasks s !! a = & ta -> exists ta', tasks s3 !! a = & ta' /\
    unlink ta' = unlink (if bool_decide (a = c) then expired (charge ta) else
                         if bool_decide (a = n) then switched_in ta else ta)).
  { intros a ta Hta. eapply view_unlink; [exact Hu3|]. unfold s1, ticked. sproj.
    destruct (decide (a = c)) as [->|]; [rewrite bool_decide_true by done|rewrite bool_decide_false by done].
    - alters. rewrite lookup_fmap. alters. by rewrite Hta.
    - destruct (decide (a = n)) as [->|]; [rewrite bool_decide_true by done|rewrite bool_decide_false by done].
      + alters. rewrite lookup_fmap. alters. by rewrite Hta.
      + alters. rewrite lookup_fmap. alters. by rewrite Hta. }
  split.
  - intros a ta Hta. destruct (Hview a ta Hta) as (ta' & -> & Eu). exists ta'. split; [done|].
    pose proof (f_equal quantum Eu) as Eq. pose proof (f_equal cpu_time Eu) as Ec. cbn in Eq, Ec. rewrite Eq, Ec. unfold one.
    destruct (decide (a = c)) as [->|]; [rewrite !bool_decide_true by done|rewrite !(bool_decide_false (a = c)) by done].
    + assert (ta = t) as -> by congruence. rewrite Hch. split; [done|]. apply u64_mod.
    + rewrite Z.add_0_r. by destruct (bool_decide (a = n)).
  - destruct (Hw n ltac:(set_solver)) as (tn & Htn & Hstn & Hsln). exists tn. split; [done|].
    pose proof Hr as (_ & [Hnl Hnd]%NoDup_cons & _).
    split; [done|by rewrite Hp3, Hp2| |done|set_solver|done|..].
    + rewrite Hrec3, Hrec2. unfold s1, ticked. sproj. by rewrite Hrec.
    + destruct (Hview n tn Htn) as (t' & -> & Eu). rewrite bool_decide_false, bool_decide_true in Eu by congruence.
      exists t'. pose proof (f_equal state Eu) as E1. pose proof (f_equal time_slice Eu) as E2. cbn in E1, E2.
      split_and!; congruence.
    + intros a [Ha| ->%list_elem_of_singleton]%elem_of_app.
      * destruct (Hw a ltac:(set_solver)) as (ta & Hta & ? & ?). destruct (Hview a ta Hta) as (t' & -> & Eu).
        rewrite !bool_decide_false in Eu by (intros ->; set_solver). exists t'.
        pose proof (f_equal state Eu) as E1. pose proof (f_equal time_slice Eu) as E2. pose proof (f_equal quantum Eu) as E3.
        cbn in E1, E2, E3. split_and!; congruence.
      * destruct (Hview c t Ht) as (t' & -> & Eu). rewrite bool_decide_true in Eu by done. exists t'.
        pose proof (f_equal state Eu) as E1. pose proof (f_equal time_slice Eu) as E2. pose proof (f_equal quantum Eu) as E3.
        cbn in E1, E2, E3. split_and!; congruence.
Qed.
(** [n] ticks, and the task that was running at each of them. *)
Fixpoint run_ticks (n : nat) : M W (list (ptr Z)) :=
  match n with
  | O => ret []
  | S n => cur <- gets current_task;; scheduler_tick ops;; rest <- run_ticks n;; ret (cur :: rest)
  end.

Lemma run_ticks_cons n s s1 l s2 :
  scheduler_tick ops s = Some (tt, s1) -> run_ticks n s1 = Some (l, s2) ->
  run_ticks (S n) s = Some (current_task s :: l, s2).
Proof.
  intros H1 H2. cbn [run_ticks]. steps. by rewrite (bind_done _ _ _ _ _ H1), (bind_done _ _ _ _ _ H2).
Qed.

Lemma run_ticks_app n m s s1 s2 l1 l2 :
  run_ticks n s = Some (l1, s1) -> run_ticks m s1 = Some (l2, s2) ->
  run_ticks (n + m) s = Some (l1 ++ l2, s2).
Proof.
  revert s l1; induction n as [|n IH]; intros s l1 H1 H2.
  - injection H1 as <- <-. done.
  - cbn [run_ticks Nat.add] in H1 |- *. revert H1. steps. unfold bind.
    destruct (scheduler_tick ops s) as [[[] s']|]; [|discriminate].
    destruct (run_ticks n s') as [[l s3]|] eqn:E; [|discriminate]. intros [= <- <-].
    by rewrite (IH _ _ E H2).
Qed.

Lemma turn_run s c n l k :
  rr_turn s c (n :: l) (Z.of_nat (S k)) ->
  exists s' tn, run_ticks (S k) s = Some (replicate (S k) (& c), s') /\ tasks s !! n = & tn /\
    rr_turn s' n (l ++ [c]) (quantum tn) /\ charged s s' (fun a => Z.of_nat (S k) * one c a).
Proof.
  revert s; induction k as [|k IH]; intros s Ht; pose proof (rt_current _ _ _ _ Ht) as Hc.
  - destruct (tick_last s c n l Ht) as (s' & Hs & Hch & tn & Htn & Ht'). exists s', tn.
    rewrite (run_ticks_cons 0 s s' [] s' Hs eq_refl), Hc. split_and!; [done..|].
    revert Hch. apply charged_ext. intros a. lia.
  - destruct (tick_mid s c (n :: l) _ Ht ltac:(lia)) as (s1 & Hs & Ht1 & Hch1).
    replace (Z.of_nat (S (S k)) - 1) with (Z.of_nat (S k)) in Ht1 by lia.
    destruct (rt_wait _ _ _ _ Ht n ltac:(set_solver)) as (tn0 & Htn0 & _).
    destruct (IH s1 Ht1) as (s' & tn & Hrun & Htn & Ht' & Hch). exists s', tn0.
    rewrite (run_ticks_cons _ _ _ _ _ Hs Hrun), Hc. split_and!; [done..| |].
    + destruct (Hch1 n tn0 Htn0) as (t1 & Ht1n & Hq & _). by replace (quantum tn0) with (quantum tn) by congruence.
    + eapply charged_ext; [|exact (charged_trans _ _ _ _ _ Hch1 Hch)]. intros a. cbn beta. lia.
Qed.

(** The tasks [o] share the processor: the first runs with a full slice. *)
Definition rr_fresh s (o : list Z) : Prop :=
  match o with
  | [] => False
  | c :: l => exists t, tasks s !! c = & t /\ rr_turn s c l (quantum t)
  end.

Definition quanta s (q : Z -> nat) (o : list Z) : Prop :=
  forall a, a ∈ o -> (1 <= q a)%nat /\ exists t, tasks s !! a = & t /\ quantum t = Z.of_nat (q a).

Lemma quanta_charged s s' q o f : quanta s q o -> charged s s' f -> quanta s' q o.
Proof.
  intros Hq Hc a Ha. destruct (Hq a Ha) as (? & t & Ht & ?). destruct (Hc a t Ht) as (t' & ? & ? & _).
  split; [done|]. exists t'. split; [done|congruence].
Qed.

Definition turns (q : Z -> nat) (o : list Z) : list (ptr Z) := concat ((fun a => replicate (q a) (& a)) <$> o).

Lemma rotate_run q xs ys s :
  (2 <= length (xs ++ ys))%nat -> rr_fresh s (xs ++ ys) -> quanta s q (xs ++ ys) ->
  exists s', run_ticks (sum_list_with q xs) s = Some (turns q xs, s') /\ rr_fresh s' (ys ++ xs) /\
    charged s s' (fun a => Z.of_nat (sum_list_with (fun x => q x * if bool_decide (a = x) then 1 else 0)%nat xs)).
Proof.
  revert ys s; induction xs as [|x xs IH]; intros ys s Hlen Hf Hq.
  - exists s. rewrite app_nil_r. split_and!; [done..|]. apply charged_refl.
  - destruct (xs ++ ys) as [|n l] eqn:El; [cbn in Hlen; rewrite El in Hlen; cbn in Hlen; lia|].
    cbn [app] in *. rewrite El in *. destruct Hf as (t & Ht & Hturn).
    destruct (Hq x ltac:(set_solver)) as (Hqx & t' & Ht' & Hqt). assert (t' = t) as -> by congruence.
    rewrite Hqt in Hturn. destruct (q x) as [|k] eqn:Ek; [lia|].
    destruct (turn_run s x n l k Hturn) as (s1 & tn & Hrun & Htn & Hturn1 & Hch1).
    assert (Eo : xs ++ (ys ++ [x]) = n :: l ++ [x]) by (by rewrite app_assoc, El).
    destruct (IH (ys ++ [x]) s1) as (s' & Hrun' & Hf' & Hch').
    + rewrite Eo. cbn [length] in *. rewrite length_app. cbn. lia.
    + rewrite Eo. destruct (Hch1 n tn Htn) as (tn1 & Htn1 & Hqn & _). exists tn1. split; [done|]. by rewrite Hqn.
    + rewrite Eo. eapply quanta_charged; [|exact Hch1]. intros a Ha. apply Hq. set_solver.
    + exists s'. cbn [sum_list_with turns]. unfold turns. rewrite fmap_cons. cbn [concat]. rewrite Ek.
      rewrite (run_ticks_app _ _ _ _ _ _ _ Hrun Hrun'). split; [done|].
      rewrite <- app_assoc in Hf'. split; [done|].
      eapply charged_ext; [|exact (charged_trans _ _ _ _ _ Hch1 Hch')]. intros a. cbn beta.
      unfold one. case_bool_decide; rewrite Nat2Z.inj_add; lia.
Qed.

Lemma rr_fresh_nodup s o : rr_fresh s o -> NoDup o.
Proof.
  destruct o as [|c l]; [done|]. intros (t & _ & [? ? ? ? ? (_ & ? & _) ? ?]). by apply NoDup_cons.
Qed.

Lemma sum_single q (o : list Z) a :
  NoDup o ->
  sum_list_with (fun x => q x * if bool_decide (a = x) then 1 else 0)%nat o = if bool_decide (a ∈ o) then q a else O.
Proof.
  induction 1 as [|x o Hx Hnd IH]; [done|]. cbn. rewrite IH. destruct (decide (a = x)) as [->|E].
  - rewrite (bool_decide_true (x = x)), (bool_decide_false (x ∈ o)), bool_decide_true by set_solver. lia.
  - rewrite (bool_decide_false (a = x)), Nat.mul_0_r by done. rewrite (bool_decide_ext (a ∈ x :: o) (a ∈ o)) by set_solver. lia.
Qed.

Lemma rounds_run q o s n :
  (2 <= length o)%nat -> rr_fresh s o -> quanta s q o ->
  exists s', run_ticks (n * sum_list_with q o) s = Some (concat (replicate n (turns q o)), s') /\ rr_fresh s' o /\
    charged s s' (fun a => Z.of_nat (n * if bool_decide (a ∈ o) then q a else 0)).
Proof.
  intros Hlen. revert s; induction n as [|n IH]; intros s Hf Hq.
  - exists s. split_and!; [done..|]. apply charged_refl.
  - destruct (rotate_run q o [] s) as (s1 & Hr1 & Hf1 & Hc1); [by rewrite app_nil_r..|].
    destruct (IH s1 Hf1 (quanta_charged _ _ _ _ _ Hq Hc1)) as (s' & Hr & Hf' & Hc). exists s'.
    cbn [Nat.mul replicate concat]. rewrite (run_ticks_app _ _ _ _ _ _ _ Hr1 Hr). split_and!; [done..|].
    eapply charged_ext; [|exact (charged_trans _ _ _ _ _ Hc1 Hc)]. intros a. cbn beta.
    rewrite sum_single by (by eapply rr_fresh_nodup). lia.
Qed.
(** ** A task that runs alone *)

(** [c] runs, no other task is ready, [i] is the idle task. *)
Record alone s (c i : Z) (st : task_state_t) (k q : Z) : Prop := {
  al_enabled : scheduler_enabled s = true;
  al_policy : current_policy s = SCHED_ROUND_ROBIN;
  al_off : Sched.mode (Sched.g_sched_rec (recorder s)) = Sched.SCHED_REC_OFF;
  al_current : current_task s = & c;
  al_idle : idle_task s = & i;
  al_ring : rr_ring s [];
  al_there : is_Some (tasks s !! i);
  al_task : exists t, tasks s !! c = & t /\ state t = st /\ time_slice t = k /\ quantum t = q }.

Lemma ticked_alone s c i st k q t :
  alone s c i st k q -> tasks s !! c = & t ->
  alone (ticked c t s) c i st (time_slice (charge t)) q.
Proof.
  intros [He Hp Ho Hc Hi Hr Hth (t' & Ht' & Hst & Hsl & Hq)] Ht. assert (t' = t) as -> by congruence.
  split; unfold ticked; sproj; try done.
  - by rewrite (proj2 (filter_off s t Ho)).
  - destruct (decide (c = i)) as [<-|]; [rewrite lookup_alter_eq, Ht; eauto|by rewrite lookup_alter_ne].
  - exists (charge t). rewrite lookup_alter_eq, Ht. split; [done|]. unfold charge.
    destruct (0 <? _); done.
Qed.

Lemma tick_alone s c i st k q :
  alone s c i st k q ->
  exists t, tasks s !! c = & t /\
  scheduler_tick ops s = (if time_slice (charge t) =? 0 then preempt (& c) else ret tt) (ticked c t s) /\
  alone (ticked c t s) c i st (time_slice (charge t)) q /\
  time_slice (charge t) = if 0 <? k then k - 1 else k.
Proof.
  intros Ha. pose proof Ha as [He Hp Ho Hc _ _ _ (t & Ht & Hst & Hsl & Hq)]. exists t. split; [done|].
  rewrite (tick_running s c t) by done. rewrite (proj1 (filter_off s t Ho)). unfold tick_want.
  rewrite Hp, bool_decide_true by done. split; [done|]. split; [by eapply ticked_alone|].
  unfold charge. cbn [time_slice set_cpu_time]. rewrite Hsl. destruct (0 <? k); [done|exact Hsl].
Qed.

(** The running task is queued, picked again, and left READY. *)
Lemma preempt_alone_running s c i k q :
  alone s c i TASK_RUNNING k q ->
  exists s', preempt (& c) s = Some (tt, s') /\ alone s' c i TASK_READY q q.
Proof.
  intros [He Hp Ho Hc Hi Hr [ti Hti] (t & Ht & Hst & Hsl & Hq)].
  destruct (preempt_running s c t [] Hp Ht Hst Hr ltac:(set_solver))
    as (s1 & -> & Hr1 & Hu1 & Hp1 & He1 & Hrec1 & Hi1 & Hc1).
  destruct (rr_next s1 c [] ltac:(congruence) Hr1) as (h & Hnext & Hring & Hu & Hn & _).
  exists (with_ready (fun n => n - 1) (with_ring h [] s1)). split.
  - unfold schedule. steps. rewrite He1, He. cbn [negb]. steps. unfold scheduler_pick_next. steps. rewrite Hp1, Hp.
    unfold rr_pick_next. rewrite (bind_done _ _ _ _ _ Hnext). cbn [is_null]. steps.
    unfold ptr_eq. by rewrite Hc1, bool_decide_true.
  - rewrite Hu1 in Hu. split; unfold with_ring; sproj; try congruence.
    + split_and!; [done|constructor|done].
    + destruct (decide (c = i)) as [->|Hne].
      * destruct (view_unlink _ _ i (expired (unlink t)) Hu) as (t' & Ht' & _); [by rewrite lookup_alter_eq, lookup_fmap, Ht|eauto].
      * destruct (view_unlink _ _ i (unlink ti) Hu) as (t' & Ht' & _); [by rewrite lookup_alter_ne, lookup_fmap, Hti|eauto].
    + destruct (view_unlink _ _ c (expired (unlink t)) Hu) as (t' & Ht' & Eu).
      { by rewrite lookup_alter_eq, lookup_fmap, Ht. }
      exists t'. pose proof (f_equal state Eu) as E1. pose proof (f_equal time_slice Eu) as E2.
      pose proof (f_equal quantum Eu) as E3. cbn in E1, E2, E3. split_and!; congruence.
Qed.

(** A task that is not RUNNING is not queued: the idle task takes over. *)
Lemma preempt_alone_other s c i st k q :
  alone s c i st k q -> st <> TASK_RUNNING ->
  exists s' st' k' q', preempt (& c) s = Some (tt, s') /\ alone s' i i st' k' q' /\
    (c = i -> st' = st) .
Proof.
  intros [He Hp Ho Hc Hi Hr [ti Hti] (t & Ht & Hst & Hsl & Hq)] Hne. unfold preempt.
  rewrite (bind_update _ _ t) by done.
  rewrite (bind_load _ (set_slice (quantum t) t)) by (sproj; by rewrite lookup_alter_eq, Ht).
  rewrite bool_decide_false by (cbn; congruence). steps.
  set (s1 := with_tasks _ s). assert (Hr1 : rr_ring s1 []) by (destruct Hr as (? & ? & ?); done).
  destruct (decide (c = i)) as [->|Hci].
  - exists s1, st, q, q. rewrite schedule_same by (try done; unfold s1; sproj; congruence). split; [done|]. split; [|done].
    split; try done; unfold s1; sproj.
    + rewrite lookup_alter_eq, Ht. eauto.
    + exists (set_slice (quantum t) t). rewrite lookup_alter_eq, Ht. split_and!; done.
  - unfold schedule. steps. change (scheduler_enabled s1) with (scheduler_enabled s). rewrite He. cbn [negb]. steps.
    unfold scheduler_pick_next. steps. change (current_policy s1) with (current_policy s). rewrite Hp. unfold rr_pick_next.
    rewrite (bind_done _ _ _ _ _ (rr_next_empty s1 ltac:(unfold s1; sproj; congruence) Hr1)). cbn [is_null]. steps.
    change (idle_task s1) with (idle_task s). change (current_task s1) with (current_task s). rewrite Hi, Hc.
    unfold ptr_eq. rewrite bool_decide_false by congruence.
    rewrite (switch_ready s1 c (set_slice (quantum t) t) i ti); [|unfold s1; sproj; by rewrite lookup_alter_eq, Ht|cbn; congruence|unfold s1; sproj; by rewrite lookup_alter_ne|done].
    exists (with_tasks (alter switched_in i (tasks s1)) (with_current (& i) (count_switch s1))), TASK_RUNNING, (time_slice ti), (quantum ti).
    split; [done|]. split; [|done]. split; try done; unfold s1; sproj.
    + rewrite lookup_alter_eq, lookup_alter_ne, Hti by done. eauto.
    + exists (switched_in ti). rewrite lookup_alter_eq, lookup_alter_ne, Hti by done. done.
Qed.

(** Once the idle task runs and nothing is ready, that is for good. *)
Lemma idle_forever n s i st k q :
  alone s i i st k q -> exists s' tr st' k' q', run_ticks n s = Some (tr, s') /\ alone s' i i st' k' q'.
Proof.
  revert s st k q; induction n as [|n IH]; intros s st k q Ha; [by exists s, [], st, k, q|].
  assert (exists s' st' k' q', scheduler_tick ops s = Some (tt, s') /\ alone s' i i st' k' q') as (s1 & ? & ? & ? & Hs & Ha1).
  { destruct (tick_alone _ _ _ _ _ _ Ha) as (t & Ht & -> & Ha1 & _).
    destruct (time_slice (charge t) =? 0); [|by eexists _, st, _, q].
    destruct (decide (st = TASK_RUNNING)) as [->|Hne].
    - destruct (preempt_alone_running _ _ _ _ _ Ha1) as (s' & -> & Ha'). eauto 6.
    - destruct (preempt_alone_other _ _ _ _ _ _ Ha1 Hne) as (s' & st' & k' & q' & -> & Ha' & _). eauto 6. }
  destruct (IH _ _ _ _ Ha1) as (s' & tr & st' & k' & q' & Hrun & Ha').
  exists s', (current_task s :: tr), st', k', q'. by rewrite (run_ticks_cons _ _ _ _ _ Hs Hrun).
Qed.

(** The last tick of the slice, and the ones before. *)
Lemma slice_run s c i st k q :
  alone s c i st (Z.of_nat (S k)) q ->
  exists s' tr, run_ticks k s = Some (tr, s') /\ alone s' c i st 1 q.
Proof.
  revert s; induction k as [|k IH]; intros s Ha; [by exists s, []|].
  destruct (tick_alone _ _ _ _ _ _ Ha) as (t & Ht & Hs & Ha1 & Hk).
  replace (if 0 <? Z.of_nat (S (S k)) then _ else _) with (Z.of_nat (S k)) in Hk by (destruct (Z.ltb_spec 0 (Z.of_nat (S (S k)))); lia).
  rewrite Hk in *. rewrite (proj2 (Z.eqb_neq (Z.of_nat (S k)) 0)) in Hs by lia.
  destruct (IH _ Ha1) as (s' & tr & Hrun & Ha'). exists s', (current_task s :: tr).
  by rewrite (run_ticks_cons _ _ _ _ _ Hs Hrun).
Qed.

Lemma slice_end s c i st q :
  alone s c i st 1 q ->
  exists t, tasks s !! c = & t /\ scheduler_tick ops s = preempt (& c) (ticked c t s) /\ alone (ticked c t s) c i st 0 q.
Proof.
  intros Ha. destruct (tick_alone _ _ _ _ _ _ Ha) as (t & Ht & Hs & Ha1 & Hk). cbn in Hk. rewrite Hk in *. by exists t.
Qed.
End tick.

(** ** Examples: a scheduler as [scheduler_init] and [task_create] leave it *)
Definition example_ops : kernel_ops unit :=
  {| checkpoint_tick := fun w => (false, w); checkpoint_current_epoch := fun _ => 1;
     task_setup_memory := fun size w => (0, 0x10000, size, w); task_free_stack := fun _ _ w => w;
     setup_timer_interrupt := fun _ w => w; enable_interrupts := fun w => w; disable_interrupts := fun w => w |}.

(** Before [scheduler_init]: every static variable is zero. *)
Definition no_sched (W : Type) (w : W) : sched_t W :=
  {| tasks := ∅; current_task := NULL; idle_task := NULL; task_list := replicate 64 NULL; next_pid := 1;
     scheduler_enabled := false;
     stats := {| total_switches := 0; total_interrupts := 0; active_tasks := 0; ready_tasks := 0;
                 st_policy := SCHED_ROUND_ROBIN; st_time_slice := 0 |};
     ready_queues := replicate 256 NULL; round_robin_queue := NULL; current_policy := SCHED_ROUND_ROBIN;
     default_time_slice := 10;
     recorder := {| Sched.g_sched_rec := Sched.Build_sched_record_t Sched.SCHED_REC_OFF 0 (replicate 256 0) 0 0 0 0;
                    Sched.g_sched_lclock := 0 |};
     world := w |}.

(** Three tasks with slices of two ticks, started, and one tick of the idle task. *)
Definition example_boot : M unit unit :=
  scheduler_init example_ops (& 100) (& 0x9000) 0x500 SCHED_ROUND_ROBIN 2;;
  task_create example_ops (& 1) [] 0x1000 128 4096;;
  task_create example_ops (& 2) [] 0x1000 128 4096;;
  task_create example_ops (& 3) [] 0x1000 128 4096;;
  scheduler_start example_ops;;
  scheduler_tick example_ops.

Definition example_running : sched_t unit :=
  match example_boot (no_sched unit tt) with Some (_, s) => s | None => no_sched unit tt end.

Definition example_quantum (a : Z) : nat := if a =? 100 then 1 else 2.

Lemma example_fresh : rr_fresh example_running [1; 2; 3; 100].
Proof.
  eexists. split; [vm_compute; reflexivity|]. split; try (vm_compute; reflexivity).
  - set_solver.
  - split; [vm_compute; reflexivity|]. split; [repeat constructor; set_solver|].
    vm_compute. repeat split.
  - eexists. split; [vm_compute; reflexivity|]. split; reflexivity.
  - intros a Ha. repeat (apply elem_of_cons in Ha as [->|Ha]); [..|by apply elem_of_nil in Ha];
      (eexists; split; [vm_compute; reflexivity|]; split; reflexivity).
Qed.

Lemma example_quanta : quanta example_running example_quantum [1; 2; 3; 100].
Proof.
  intros a Ha. repeat (apply elem_of_cons in Ha as [->|Ha]); [..|by apply elem_of_nil in Ha];
    (split; [cbn; lia|]; eexists; split; [vm_compute; reflexivity|reflexivity]).
Qed.

(** C19: Round robin is fair: from a state in which the first of at least two
    tasks runs with a full slice and the others are queued behind it, [n]
    rounds of timer ticks succeed, give every task exactly its quantum in
    every round, in queue order, and lead back to the same queue; each task
    has then been charged [n] times its quantum. *)
Theorem round_robin_fair {W} (ops : kernel_ops W) (s : sched_t W) (q : Z -> nat) (o : list Z) (n : nat) :
  (2 <= length o)%nat -> rr_fresh s o -> quanta s q o ->
  exists s', run_ticks ops (n * sum_list_with q o) s = Some (concat (replicate n (turns q o)), s') /\
    rr_fresh s' o /\
    forall a t, a ∈ o -> tasks s !! a = & t ->
      exists t', tasks s' !! a = & t' /\ quantum t' = quantum t /\
        u64 (cpu_time t') = u64 (cpu_time t + Z.of_nat n * quantum t).
Proof.
  intros Hlen Hf Hq. destruct (rounds_run ops q o s n Hlen Hf Hq) as (s' & Hrun & Hf' & Hc). exists s'.
  split; [done|]. split; [done|]. intros a t Ha Ht. destruct (Hc a t Ht) as (t' & Ht' & Hqt & Hcpu).
  destruct (Hq a Ha) as (_ & t0 & Ht0 & Hq0). assert (t0 = t) as -> by congruence.
  exists t'. split_and!; [done..|]. rewrite Hcpu, bool_decide_true by done. f_equal. rewrite Hq0. lia.
Qed.

Lemma round_robin_fair_witness :
  exists s', run_ticks example_ops (2 * 7) example_running
             = Some ([& 1; & 1; & 2; & 2; & 3; & 3; & 100; & 1; & 1; & 2; & 2; & 3; & 3; & 100], s') /\
    rr_fresh s' [1; 2; 3; 100] /\
    forall a t, a ∈ [1; 2; 3; 100] -> tasks example_running !! a = & t ->
      exists t', tasks s' !! a = & t' /\ quantum t' = quantum t /\
        u64 (cpu_time t') = u64 (cpu_time t + Z.of_nat 2 * quantum t).
Proof.
  exact (round_robin_fair example_ops example_running example_quantum [1; 2; 3; 100] 2
           ltac:(cbn; lia) example_fresh example_quanta).
Defined.

(** A task that runs while nothing else is ready is lost.  When its slice
    expires it is queued and picked again, but a switch from a task to itself
    is skipped and leaves its state READY; when the slice expires once more
    it is not RUNNING, so it is not queued, and the idle task runs from then
    on, however many ticks follow, although the task is READY. *)
Theorem lone_task_lost {W} (ops : kernel_ops W) (s : sched_t W) (c i : Z) (k q n : nat) :
  alone s c i TASK_RUNNING (Z.of_nat k) (Z.of_nat q) -> c <> i -> (1 <= k)%nat -> (1 <= q)%nat -> (k + q <= n)%nat ->
  exists s' tr, run_ticks ops n s = Some (tr, s') /\ current_task s' = & i /\ round_robin_queue s' = NULL.
Proof.
  intros Ha Hci Hk Hq Hn. destruct k as [|k]; [lia|]. destruct q as [|q]; [lia|].
  destruct (slice_run ops s c i _ k _ Ha) as (s1 & tr1 & H1 & Ha1).
  destruct (slice_end ops _ _ _ _ _ Ha1) as (t1 & Ht1 & Hs1 & Ha1').
  destruct (preempt_alone_running _ _ _ _ _ Ha1') as (s2 & Hp2 & Ha2). rewrite Hp2 in Hs1.
  destruct (slice_run ops s2 c i _ q _ Ha2) as (s3 & tr3 & H3 & Ha3).
  destruct (slice_end ops _ _ _ _ _ Ha3) as (t3 & Ht3 & Hs3 & Ha3').
  destruct (preempt_alone_other _ _ _ _ _ _ Ha3' ltac:(discriminate)) as (s4 & st & k' & q' & Hp4 & Ha4 & _).
  rewrite Hp4 in Hs3.
  destruct (idle_forever ops (n - (S k + S q)) s4 i st k' q' Ha4) as (s5 & tr5 & st5 & k5 & q5 & H5 & Ha5).
  exists s5. replace n with (k + S (q + S (n - (S k + S q))))%nat by lia.
  eexists. split.
  - eapply run_ticks_app; [exact H1|]. eapply run_ticks_cons; [exact Hs1|].
    eapply run_ticks_app; [exact H3|]. eapply run_ticks_cons; [exact Hs3|exact H5].
  - destruct Ha5 as [? ? ? ? ? (? & ? & ?) ? ?]. done.
Qed.

(** One task, created after the idle task has run for two ticks. *)
Definition example_lone : sched_t unit :=
  match (scheduler_init example_ops (& 100) (& 0x9000) 0x500 SCHED_ROUND_ROBIN 3;;
         scheduler_start example_ops;; scheduler_tick example_ops;; scheduler_tick example_ops;;
         task_create example_ops (& 1) [] 0x1000 128 4096;; scheduler_tick example_ops) (no_sched unit tt) with
  | Some (_, s) => s
  | None => no_sched unit tt
  end.

Lemma lone_task_lost_witness :
  exists s' tr, run_ticks example_ops 50 example_lone = Some (tr, s') /\ current_task s' = & 100 /\
    round_robin_queue s' = NULL.
Proof.
  apply (lone_task_lost example_ops example_lone 1 100 3 3 50); [|lia..].
  split; try (vm_compute; reflexivity).
  - split; [vm_compute; reflexivity|]. split; [constructor|exact I].
  - eexists. vm_compute. reflexivity.
  - eexists. split; [vm_compute; reflexivity|]. repeat split.
Defined.

(** Destroying the running task under round robin faults:
    [ready_queue_remove] is applied to a task that is in no queue, whose links
    are NULL, and follows its [prev] pointer. *)
Theorem task_destroy_running_faults {W} (ops : kernel_ops W) (s : sched_t W) (p a : Z) (t : task_t) :
  current_policy s <> SCHED_PRIORITY -> find_task (tasks s) (task_list s) p = Some (& a) -> tasks s !! a = & t ->
  next t = NULL -> prev t = NULL -> idle_task s <> & a ->
  task_destroy ops p s = None.
Proof.
  intros Hp Hf Ht Hn Hpr Hi. unfold task_destroy, task_get_by_pid, bind at 1. rewrite Hf. steps.
  unfold ptr_eq at 1. rewrite bool_decide_false by congruence. unfold ready_queue_remove, is_priority. cbn [is_null]. steps.
  rewrite bool_decide_false by done. steps. rewrite (bind_load _ t) by done. rewrite Hn.
  unfold ptr_eq at 1. rewrite bool_decide_false by done. rewrite Hpr. reflexivity.
Qed.

Lemma task_destroy_running_faults_witness : task_destroy example_ops 1 example_running = None.
Proof.
  eapply (task_destroy_running_faults example_ops example_running 1 1); try (vm_compute; reflexivity); vm_compute; discriminate.
Defined.
