(* ===== verification/SchedulerReplaySpec.v ===== *)
(** * A replayed epoch schedules the same tasks

    The tick's preemption decisions are the only thing that reaches the
    scheduler from the time slices; replaying the recorded decisions from the
    same tasks therefore runs the same tasks, whatever the slices say. *)
From Stdlib Require Import ZArith Lia Sorted.
From stdpp Require Import gmap.
From S2P Require Import Prelude.
From S2P Require Import Recorders RecordersSpec Scheduler SchedulerSpec SchedulerTickSpec.
Open Scope Z_scope.
Open Scope c_scope.
Open Scope sched_scope.

(** ** What does not depend on the slices *)
Section erase.
Context {W : Type}.
Variable ops : kernel_ops W.
Implicit Types s : sched_t W.

Definition no_recorder : Sched.sched_filter :=
  {| Sched.g_sched_rec := Sched.Build_sched_record_t Sched.SCHED_REC_OFF 0 [] 0 0 0 0; Sched.g_sched_lclock := 0 |}.

(** Everything but the slices left and the recorder. *)
Definition no_slices s : sched_t W := with_filter no_recorder (with_tasks (set_slice 0 <$> tasks s) s).

Definition erased {A} (r : option (A * sched_t W)) : option (A * sched_t W) :=
  (fun x => (x.1, no_slices x.2)) <$> r.

(** [m'] does to the erased state what [m] does to the full one. *)
Definition erases {A} (m m' : M W A) : Prop := forall s, m' (no_slices s) = erased (m s).

Lemma erases_ret {A} (x : A) : erases (ret x) (ret x).
Proof. done. Qed.
Lemma erases_bind {A B} (m m' : M W A) (k k' : A -> M W B) :
  erases m m' -> (forall x, erases (k x) (k' x)) -> erases (bind m k) (bind m' k').
Proof. intros Hm Hk s. unfold bind. rewrite Hm. destruct (m s) as [[x s']|]; [apply Hk|done]. Qed.
Lemma erases_gets {A} (f : sched_t W -> A) : (forall s, f (no_slices s) = f s) -> erases (gets f) (gets f).
Proof. intros Hf s. unfold gets. by rewrite Hf. Qed.
Lemma erases_modify f : (forall s, f (no_slices s) = no_slices (f s)) -> erases (modify f) (modify f).
Proof. intros Hf s. unfold modify. by rewrite Hf. Qed.
Lemma erases_load {B} p (k k' : task_t -> M W B) :
  (forall t, erases (k t) (k' (set_slice 0 t))) -> erases (bind (load p) k) (bind (load p) k').
Proof.
  intros Hk s. unfold bind, load. destruct p as [a|]; [|done].
  cbn [no_slices tasks with_filter with_tasks]. rewrite lookup_fmap. destruct (tasks s !! a) as [t|]; [apply Hk|done].
Qed.
Lemma erases_update p f f' :
  (forall t, f' (set_slice 0 t) = set_slice 0 (f t)) -> erases (update p f) (update p f').
Proof.
  intros Hf s. unfold update. destruct p as [a|]; [|done].
  cbn [no_slices tasks with_filter with_tasks]. rewrite lookup_fmap. destruct (tasks s !! a) as [t|]; [|done].
  unfold erased. cbn. rewrite Hf. unfold no_slices. sproj. rewrite fmap_insert. reflexivity.
Qed.
Lemma erases_if {A} (b : bool) (m1 m1' m2 m2' : M W A) :
  erases m1 m1' -> erases m2 m2' -> erases (if b then m1 else m2) (if b then m1' else m2').
Proof. by destruct b. Qed.
End erase.

(** The operations are built from these. *)
Ltac erase :=
  repeat first
    [ apply erases_load; intros ?; cbn [state priority next prev quantum set_slice]
    | apply erases_bind; [|intros ?]
    | apply erases_ret
    | apply erases_if
    | apply erases_gets; intros ?; reflexivity
    | apply erases_modify; intros ?; reflexivity
    | apply erases_update; intros ?; reflexivity ].

Section erased_ops.
Context {W : Type}.
Implicit Types s : sched_t W.

Lemma erases_add p : erases (W := W) (ready_queue_add p) (ready_queue_add p).
Proof. unfold ready_queue_add, is_priority. erase. Qed.
Lemma erases_remove p : erases (W := W) (ready_queue_remove p) (ready_queue_remove p).
Proof. unfold ready_queue_remove, is_priority. erase. Qed.
Lemma erases_pick_level l : erases (W := W) (pick_level l) (pick_level l).
Proof.
  induction l as [|p l IH]; cbn [pick_level]; [erase|]. apply erases_if; [done|].
  apply erases_bind; [apply erases_remove|intros ?; erase].
Qed.
Lemma erases_pick : erases (W := W) scheduler_pick_next scheduler_pick_next.
Proof.
  assert (Hp : erases (W := W) priority_pick_next priority_pick_next).
  { apply erases_bind; [erase|intros ?; apply erases_pick_level]. }
  assert (Hn : erases (W := W) ready_queue_next ready_queue_next).
  { apply erases_bind; [unfold is_priority; erase|intros ?]. apply erases_if; [done|].
    apply erases_bind; [erase|intros ?]. apply erases_if; [erase|].
    apply erases_bind; [apply erases_remove|intros ?; erase]. }
  apply erases_bind; [erase|intros policy]. apply erases_bind; [by destruct policy|intros ?; erase].
Qed.
Lemma erases_schedule : erases (W := W) schedule schedule.
Proof.
  unfold schedule. apply erases_bind; [erase|intros ?]. apply erases_if; [erase|].
  apply erases_bind; [erase|intros ?]. apply erases_bind; [apply erases_pick|intros ?].
  apply erases_if; [erase|]. unfold context_switch, save_context, restore_context. erase.
Qed.

(** What a preemption does to the erased state; the slice is reset on both
    sides. *)
Definition preempt_body (cur : ptr Z) : M W unit :=
  t <- load cur;;
  (if bool_decide (state t = TASK_RUNNING) then
     update cur (set_state TASK_READY);; ready_queue_add cur
   else ret tt);;
  schedule.

Lemma erases_preempt_body p : erases (preempt_body p) (preempt_body p).
Proof.
  unfold preempt_body. apply erases_load. intros t. cbn [state set_slice].
  apply erases_bind; [|intros ?; apply erases_schedule].
  apply erases_if; [|erase]. apply erases_bind; [erase|intros ?; apply erases_add].
Qed.

Lemma erases_preempt p : erases (preempt p) (update p (fun t => t);; preempt_body p).
Proof.
  unfold preempt. apply erases_bind; [apply erases_update; by intros []|intros ?; apply erases_preempt_body].
Qed.
End erased_ops.

(** ** What the queue and switch operations leave alone *)
Section keeps.
Context {W : Type}.
Implicit Types s : sched_t W.

Definition kept s s' : Prop :=
  recorder s' = recorder s /\ world s' = world s /\ scheduler_enabled s' = scheduler_enabled s /\
  current_policy s' = current_policy s /\ (is_Some (current_task s) -> is_Some (current_task s')).

Definition keeps {A} (m : M W A) : Prop := forall s x s', m s = Some (x, s') -> kept s s'.

Lemma kept_refl s : kept s s.
Proof. done. Qed.
Lemma kept_trans s1 s2 s3 : kept s1 s2 -> kept s2 s3 -> kept s1 s3.
Proof. intros (? & ? & ? & ? & Ha) (? & ? & ? & ? & Hb). repeat split; try congruence. auto. Qed.

Lemma keeps_ret {A} (x : A) : keeps (ret x).
Proof. intros s y s' [= <- <-]. done. Qed.
Lemma keeps_bind {A B} (m : M W A) (k : A -> M W B) : keeps m -> (forall x, keeps (k x)) -> keeps (bind m k).
Proof.
  intros Hm Hk s y s'. unfold bind. destruct (m s) as [[x s1]|] eqn:E; [|discriminate].
  intros H. eapply kept_trans; [by eapply Hm|by eapply Hk].
Qed.
Lemma keeps_gets {A} (f : sched_t W -> A) : keeps (gets f).
Proof. intros s y s' [= <- <-]. done. Qed.
Lemma keeps_modify f : (forall s, kept s (f s)) -> keeps (modify f).
Proof. intros Hf s y s' [= <- <-]. apply Hf. Qed.
Lemma keeps_load p : keeps (load p).
Proof. intros s y s'. unfold load. destruct p; [|done]. destruct (_ !! _); [|done]. by intros [= <- <-]. Qed.
Lemma keeps_update p f : keeps (update p f).
Proof. intros s y s'. unfold update. destruct p; [|done]. destruct (_ !! _); [|done]. by intros [= <- <-]. Qed.
Lemma keeps_if {A} (b : bool) (m1 m2 : M W A) : keeps m1 -> keeps m2 -> keeps (if b then m1 else m2).
Proof. by destruct b. Qed.
End keeps.

Ltac keep :=
  repeat first
    [ apply keeps_bind; [|intros ?] | apply keeps_ret | apply keeps_if | apply keeps_gets
    | apply keeps_load | apply keeps_update | apply keeps_modify; intros ?; repeat split; by intros ].

Section kept_ops.
Context {W : Type}.
Implicit Types s : sched_t W.

Lemma keeps_add p : keeps (W := W) (ready_queue_add p).
Proof. unfold ready_queue_add, is_priority. keep. Qed.
Lemma keeps_remove p : keeps (W := W) (ready_queue_remove p).
Proof. unfold ready_queue_remove, is_priority. keep. Qed.
Lemma keeps_pick_level l : keeps (W := W) (pick_level l).
Proof.
  induction l as [|p l IH]; cbn [pick_level]; [keep|]. apply keeps_if; [done|].
  apply keeps_bind; [apply keeps_remove|intros ?; keep].
Qed.
Lemma keeps_pick : keeps (W := W) scheduler_pick_next.
Proof.
  assert (Hp : keeps (W := W) priority_pick_next) by (apply keeps_bind; [keep|intros ?; apply keeps_pick_level]).
  assert (Hn : keeps (W := W) ready_queue_next).
  { apply keeps_bind; [unfold is_priority; keep|intros ?]. apply keeps_if; [done|].
    apply keeps_bind; [keep|intros ?]. apply keeps_if; [keep|]. apply keeps_bind; [apply keeps_remove|intros ?; keep]. }
  apply keeps_bind; [keep|intros policy]. apply keeps_bind; [by destruct policy|intros ?; keep].
Qed.
(** A switch makes its target, which it follows, the current task. *)
Lemma keeps_switch p q : keeps (W := W) (context_switch p q).
Proof.
  unfold context_switch, save_context, restore_context. apply keeps_if; [keep|]. apply keeps_bind; [keep|intros _].
  apply keeps_bind; [keep|intros _]. destruct q as [a|]; [keep; repeat split; eauto|].
  intros s x s'. discriminate.
Qed.
Lemma keeps_preempt p : keeps (W := W) (preempt p).
Proof.
  unfold preempt. do 2 (apply keeps_bind; [keep|intros ?]). apply keeps_bind; [|intros _].
  - apply keeps_if; [|keep]. apply keeps_bind; [keep|intros _; apply keeps_add].
  - unfold schedule. apply keeps_bind; [keep|intros ?]. apply keeps_if; [keep|]. apply keeps_bind; [keep|intros ?].
    apply keeps_bind; [apply keeps_pick|intros ?]. apply keeps_if; [keep|apply keeps_switch].
Qed.
End kept_ops.

(** ** The replay of a run *)
Section replay.
Context {W : Type}.
Variable ops : kernel_ops W.
Implicit Types s : sched_t W.

Lemma no_slices_parts s s' :
  no_slices s = no_slices s' ->
  set_slice 0 <$> tasks s = set_slice 0 <$> tasks s' /\ current_task s = current_task s' /\
  scheduler_enabled s = scheduler_enabled s' /\ world s = world s' /\ current_policy s = current_policy s'.
Proof. intros H. unfold no_slices in H. destruct s, s'. cbn in *. by injection H. Qed.

Lemma ticked_same s s' c t t' :
  no_slices s = no_slices s' -> tasks s !! c = & t -> tasks s' !! c = & t' ->
  no_slices (ticked ops c t s) = no_slices (ticked ops c t' s').
Proof.
  intros H Ht Ht'. assert (Hc : forall h : gmap Z task_t,
    set_slice 0 <$> alter charge c h = alter charge c (set_slice 0 <$> h)).
  { intros h. apply map_eq; intros x. rewrite lookup_fmap. destruct (decide (c = x)) as [->|].
    - rewrite !lookup_alter_eq, lookup_fmap. destruct (h !! x) as [u|]; [|done]. cbn. f_equal.
      unfold charge. cbn [time_slice set_slice set_cpu_time]. by destruct (0 <? _).
    - by rewrite !lookup_alter_ne, lookup_fmap by done. }
  destruct (no_slices_parts _ _ H) as (Htasks & _ & _ & Hw & _).
  unfold ticked, no_slices, tick_world. sproj. rewrite !Hc, Htasks, Hw.
  unfold no_slices in H. destruct s, s'. cbn in *. injection H as ???????????. subst. reflexivity.
Qed.

Lemma tick_erased s c t b :
  scheduler_enabled s = true -> current_task s = & c -> tasks s !! c = & t -> (tick_filter ops s t).1 = b ->
  erased (scheduler_tick ops s)
  = (if b then update (& c) (fun t => t);; preempt_body (& c) else ret tt) (no_slices (ticked ops c t s)).
Proof.
  intros He Hc Ht Hb. rewrite (tick_running ops s c t) by done. rewrite Hb.
  destruct b; [symmetry; apply erases_preempt|done].
Qed.

Lemma tick_same s s' c t t' s1 :
  no_slices s = no_slices s' -> scheduler_enabled s = true -> current_task s = & c ->
  tasks s !! c = & t -> tasks s' !! c = & t' -> (tick_filter ops s' t').1 = (tick_filter ops s t).1 ->
  scheduler_tick ops s = Some (tt, s1) ->
  exists s1', scheduler_tick ops s' = Some (tt, s1') /\ no_slices s1 = no_slices s1'.
Proof.
  intros H He Hc Ht Ht' Hb Hs. destruct (no_slices_parts _ _ H) as (_ & Hc' & He' & _ & _).
  pose proof (tick_erased s c t _ He Hc Ht eq_refl) as E. rewrite Hs in E.
  pose proof (tick_erased s' c t' _ ltac:(congruence) ltac:(congruence) Ht' Hb) as E'.
  rewrite <- (ticked_same s s' c t t' H Ht Ht'), <- E in E'.
  destruct (scheduler_tick ops s') as [[[] s1']|]; [|discriminate]. exists s1'. split; [done|].
  by apply (f_equal (fun r => default (no_slices s1) (snd <$> r))) in E'.
Qed.

Lemma tick_kept s c t s1 :
  scheduler_enabled s = true -> current_task s = & c -> tasks s !! c = & t -> scheduler_tick ops s = Some (tt, s1) ->
  recorder s1 = (tick_filter ops s t).2 /\ world s1 = tick_world ops s /\ scheduler_enabled s1 = true /\
  is_Some (current_task s1).
Proof.
  intros He Hc Ht Hs. rewrite (tick_running ops s c t) in Hs by done.
  assert (kept (ticked ops c t s) s1) as (Hr & Hw & Hen & _ & Hcur).
  { destruct (tick_filter ops s t).1; [by eapply keeps_preempt|]. injection Hs as <-. apply kept_refl. }
  rewrite Hr, Hw, Hen. split_and!; try done. apply Hcur. unfold ticked. sproj. rewrite Hc. eauto.
Qed.
(** *** Decisions of a whole run *)
Lemma tick_decide_replay g e w w' :
  Sched.mode (Sched.g_sched_rec g) = Sched.SCHED_REC_REPLAY -> Sched.tick_decide g e w = Sched.tick_decide g e w'.
Proof.
  intros Hm. unfold Sched.tick_decide. rewrite Hm. destruct (negb _).
  - cbn [Sched.sched_record_begin_epoch Sched.sched_record_decide Sched.mode]. by rewrite Hm.
  - cbn [Sched.sched_record_decide]. by rewrite Hm.
Qed.

Lemma tick_decide_mode g e w : Sched.mode (Sched.g_sched_rec (Sched.tick_decide g e w).2) = Sched.mode (Sched.g_sched_rec g).
Proof.
  unfold Sched.tick_decide. destruct (Sched.mode (Sched.g_sched_rec g)) eqn:Hm; [|destruct (negb _)..];
    cbn [Sched.sched_record_begin_epoch Sched.sched_record_decide Sched.mode]; rewrite Hm;
    repeat match goal with |- context [if ?b then _ else _] => destruct b end; done.
Qed.

(** The epoch is [e] during the next [n] ticks. *)
Definition same_epoch s (e : Z) (n : nat) : Prop :=
  forall k, (1 <= k <= n)%nat ->
    checkpoint_current_epoch ops (Nat.iter k (fun w => (checkpoint_tick ops w).2) (world s)) = e.

Lemma same_epoch_next s s1 e n :
  same_epoch s e (S n) -> world s1 = tick_world ops s -> same_epoch s1 e n.
Proof. intros H Hw k Hk. rewrite Hw. unfold tick_world.
  specialize (H (S k) ltac:(lia)). rewrite Nat.iter_succ_r in H. exact H.
Qed.

Lemma bind_inv {A B} (m : M W A) (k : A -> M W B) s r :
  bind m k s = Some r -> exists x s1, m s = Some (x, s1) /\ k x s1 = Some r.
Proof. unfold bind. destruct (m s) as [[x s1]|]; [eauto|discriminate]. Qed.

(** The decisions of a run are those of its recorder; a replay with the same
    decisions is the same run. *)
Lemma run_decided n s e tr s1 :
  scheduler_enabled s = true -> is_Some (current_task s) -> same_epoch s e n -> run_ticks ops n s = Some (tr, s1) ->
  exists ws, length ws = n /\ recorder s1 = (TickSpec.ticks (recorder s) e ws).2 /\
    forall s', no_slices s = no_slices s' ->
      Sched.mode (Sched.g_sched_rec (recorder s')) = Sched.SCHED_REC_REPLAY ->
      (TickSpec.ticks (recorder s') e ws).1 = (TickSpec.ticks (recorder s) e ws).1 ->
      exists s1', run_ticks ops n s' = Some (tr, s1') /\ no_slices s1 = no_slices s1'.
Proof.
  revert s tr; induction n as [|n IH]; intros s tr He [c Hc] Hep Hrun.
  - injection Hrun as <- <-. exists []. split_and!; [done..|]. intros s' H _ _. by exists s'.
  - apply bind_inv in Hrun as (cur & s0 & [= <- <-] & Hrun). apply bind_inv in Hrun as ([] & s2 & Hs & Hrun).
    apply bind_inv in Hrun as (rest & s3 & Hrest & [= <- <-]).
    assert (is_Some (tasks s !! c)) as [t Ht].
    { unfold scheduler_tick in Hs. revert Hs. steps. sproj. rewrite He, Hc. cbn [negb is_null orb].
      intros Hs. apply bind_inv in Hs as (x & sx & Hx & _). unfold update in Hx. sproj.
      destruct (tasks s !! c); [eauto|discriminate]. }
    destruct (tick_kept s c t s2 He Hc Ht Hs) as (Hr2 & Hw2 & He2 & Hc2).
    destruct (IH s2 rest He2 Hc2 (same_epoch_next _ _ _ _ Hep Hw2) Hrest) as (ws & Hlen & Hrec & Hsim).
    assert (Heq : checkpoint_current_epoch ops (tick_world ops s) = e) by (apply (Hep 1%nat); lia).
    exists (tick_want s t :: ws). unfold tick_filter in Hr2. rewrite Heq in Hr2.
    cbn [length TickSpec.ticks]. destruct (Sched.tick_decide (recorder s) e (tick_want s t)) as [b g] eqn:Ed.
    cbn [snd] in Hr2. subst g. destruct (TickSpec.ticks (recorder s2) e ws) as [bs g2] eqn:Et. cbn [fst snd] in *.
    split; [by rewrite Hlen|]. split; [done|]. intros s' Hsame Hm Hdec.
    destruct (no_slices_parts _ _ Hsame) as (Hts & Hcur & _ & Hworld & _).
    assert (exists t', tasks s' !! c = & t') as [t' Ht'].
    { apply (f_equal (fun h => h !! c)) in Hts. rewrite !lookup_fmap, Ht in Hts.
      destruct (tasks s' !! c); [eauto|discriminate]. }
    destruct (Sched.tick_decide (recorder s') e (tick_want s t)) as [b' g'] eqn:Ed'.
    destruct (TickSpec.ticks g' e ws) as [bs' g2'] eqn:Et'. cbn [fst] in Hdec. injection Hdec as -> ->.
    assert (Hf : tick_filter ops s' t' = (b, g')).
    { unfold tick_filter, tick_world. rewrite <- Hworld. fold (tick_world ops s). rewrite Heq.
      by rewrite (tick_decide_replay _ _ _ (tick_want s t) Hm). }
    assert (Hf0 : (tick_filter ops s t).1 = b) by (unfold tick_filter; by rewrite Heq, Ed).
    destruct (tick_same s s' c t t' s2 Hsame He Hc Ht Ht' ltac:(by rewrite Hf, Hf0) Hs) as (s2' & Hs' & Hsame2).
    destruct (tick_kept s' c t' s2') as (Hr2' & _); [|congruence|done|done|].
    { by rewrite <- (proj1 (proj2 (proj2 (no_slices_parts _ _ Hsame)))). }
    rewrite Hf in Hr2'. cbn [snd] in Hr2'.
    destruct (Hsim s2' Hsame2) as (s3' & Hrun' & Hsame3).
    + rewrite Hr2'. pose proof (tick_decide_mode (recorder s') e (tick_want s t)) as Hm'. by rewrite Ed', Hm in Hm'.
    + rewrite Hr2', Et'. done.
    + exists s3'. split; [|done]. cbn [run_ticks]. steps. rewrite <- Hcur.
      by rewrite (bind_done _ _ _ _ _ Hs'), (bind_done _ _ _ _ _ Hrun').
Qed.
End replay.

(** ** The recorded points of a run that did not overflow its buffer *)
Lemma record_overflow k l k' :
  Sched.mode k = Sched.SCHED_REC_RECORD -> 0 <= Sched.count k <= Sched.capacity k -> Sched.capacity k < 2 ^ 32 ->
  0 <= Sched.overflow k -> Sched.overflow k + Z.of_nat (length l) < 2 ^ 32 ->
  (SchedSpec.run (& k) l).2 = & k' ->
  Sched.overflow k <= Sched.overflow k' /\
  (Sched.overflow k' = Sched.overflow k ->
   Sched.count k + Z.of_nat (length (SchedSpec.switches l)) <= Sched.capacity k).
Proof.
  revert k; induction l as [|[w c] l IH]; intros k Hm Hc Hcap Ho Hb Hr.
  - injection Hr as <-. cbn. lia.
  - cbn [SchedSpec.run Sched.sched_record_decide length] in *. rewrite Hm, SchedSpec.switches_cons in *. destruct w.
    + destruct (Z.ltb_spec (Sched.count k) (Sched.capacity k)) as [Hlt|Hge].
      * destruct (SchedSpec.run (& _) l) as [bs r] eqn:E. cbn [snd] in Hr. subst r.
        match type of E with SchedSpec.run (& ?k1) l = _ => destruct (IH k1) as [H1 H2] end;
          cbn [Sched.mode Sched.count Sched.capacity Sched.overflow] in *; rewrite ?(u32_id (Sched.count k + 1)) in * by lia;
          try lia; try done; try (by rewrite E). cbn [length]. split; [lia|]. intros H. specialize (H2 H). lia.
      * destruct (SchedSpec.run (& _) l) as [bs r] eqn:E. cbn [snd] in Hr. subst r.
        match type of E with SchedSpec.run (& ?k1) l = _ => destruct (IH k1) as [H1 H2] end;
          cbn [Sched.mode Sched.count Sched.capacity Sched.overflow] in *; rewrite ?(u32_id (Sched.overflow k + 1)) in * by lia;
          try lia; try done; try (by rewrite E).
    + destruct (SchedSpec.run (& k) l) as [bs r] eqn:E. cbn [snd] in Hr. subst r. apply (IH k); try done; [lia|by rewrite E].
Qed.

Lemma clocked_fst c ws : (TickSpec.clocked c ws).*1 = ws.
Proof. unfold TickSpec.clocked. apply fst_zip. rewrite length_seqZ. lia. Qed.
Lemma clocked_snd c ws : (TickSpec.clocked c ws).*2 = seqZ (c + 1) (Z.of_nat (length ws)).
Proof. unfold TickSpec.clocked. apply snd_zip. rewrite length_seqZ. lia. Qed.

Lemma seqZ_sorted a n : StronglySorted Z.lt (seqZ a (Z.of_nat n)).
Proof.
  revert a; induction n as [|n IH]; intros a; [constructor|]. rewrite seqZ_cons by lia.
  replace (Z.pred (Z.of_nat (S n))) with (Z.of_nat n) by lia. constructor; [apply IH|].
  apply Forall_forall. intros x Hx%elem_of_seqZ. lia.
Qed.

(** The recorder at the start of an epoch: no point yet, clock [c]. *)
Record epoch_start (g : Sched.sched_filter) (e cap c : Z) : Prop := {
  es_mode : Sched.mode (Sched.g_sched_rec g) = Sched.SCHED_REC_RECORD;
  es_epoch : Sched.epoch (Sched.g_sched_rec g) = e;
  es_count : Sched.count (Sched.g_sched_rec g) = 0;
  es_overflow : Sched.overflow (Sched.g_sched_rec g) = 0;
  es_capacity : Sched.capacity (Sched.g_sched_rec g) = cap;
  es_points : Z.of_nat (length (Sched.points (Sched.g_sched_rec g))) = cap;
  es_clock : Sched.g_sched_lclock g = c }.

(** The recorder a replay loads the points into. *)
Record replay_start (g : Sched.sched_filter) (cap c : Z) : Prop := {
  rs_mode : Sched.mode (Sched.g_sched_rec g) = Sched.SCHED_REC_REPLAY;
  rs_capacity : Sched.capacity (Sched.g_sched_rec g) = cap;
  rs_points : Z.of_nat (length (Sched.points (Sched.g_sched_rec g))) = cap;
  rs_clock : Sched.g_sched_lclock g = c }.

(** The points a recording made drive the same decisions. *)
Lemma recorded_decisions g g1 g' e cap c ws :
  0 < cap < 2 ^ 32 -> epoch_start g e cap c -> replay_start g' cap c -> 0 <= c ->
  c + Z.of_nat (length ws) < 2 ^ 64 -> Z.of_nat (length ws) < 2 ^ 32 ->
  g1 = (TickSpec.ticks g e ws).2 -> Sched.overflow (Sched.g_sched_rec g1) = 0 ->
  let '(n, pts) := Sched.sched_record_points (& (Sched.g_sched_rec g1)) in
  let '(rc, g2) := Sched.scheduler_preempt_load g' e pts n in
  rc = Sched.SCHED_REC_OK /\ Sched.mode (Sched.g_sched_rec g2) = Sched.SCHED_REC_REPLAY /\
  (TickSpec.ticks g2 e ws).1 = (TickSpec.ticks g e ws).1.
Proof.
  intros Hcap [Hm He Hcnt Ho Hcp Hpl Hcl] [Hm' Hcp' Hpl' Hcl'] Hc Hb Hb32 Hg1 Hov.
  destruct (TickSpec.ticks_run g e ws He ltac:(lia) ltac:(lia)) as [Hd Hr]. rewrite Hcl in Hd, Hr.
  rewrite <- Hg1 in Hr. symmetry in Hr.
  assert (Hlen : length (TickSpec.clocked c ws) = length ws).
  { rewrite <- (clocked_fst c ws) at 2. by rewrite length_fmap. }
  destruct (record_overflow (Sched.g_sched_rec g) _ _ Hm ltac:(lia) ltac:(lia) ltac:(lia) ltac:(rewrite Hlen; lia) Hr) as [_ Hroom].
  specialize (Hroom ltac:(lia)).
  destruct (SchedSpec.record_run (Sched.g_sched_rec g) (TickSpec.clocked c ws) Hm ltac:(lia) ltac:(lia) ltac:(lia) Hroom)
    as (k' & Hrun & Hk & Htake & Hl).
  rewrite Hrun in Hd, Hr. cbn [fst snd] in Hd, Hr. injection Hr as <-. rewrite Hd, clocked_fst.
  cbn [Sched.sched_record_points]. unfold Sched.scheduler_preempt_load, Sched.sched_record_load.
  rewrite (proj2 (Z.ltb_ge _ _)) by lia. split; [done|]. split; [done|].
  assert (Hle : (Z.to_nat (Sched.count k') <= length (Sched.points k'))%nat) by lia.
  set (g2 := {| Sched.g_sched_rec := _; Sched.g_sched_lclock := _ |}).
  destruct (TickSpec.ticks_run g2 e ws eq_refl ltac:(cbn; lia) ltac:(cbn; lia)) as [-> _].
  unfold g2. cbn [Sched.g_sched_rec Sched.g_sched_lclock]. rewrite Hcl'.
  pose proof (clocked_fst c ws) as E1. rewrite <- E1 at 2.
  replace (TickSpec.clocked c ws) with (zip ws (TickSpec.clocked c ws).*2) at 1 by (by rewrite clocked_snd).
  apply SchedSpec.replay_run; cbn [Sched.mode Sched.cursor Sched.count Sched.points]; try done; try lia.
  - rewrite clocked_snd. apply seqZ_sorted.
  - rewrite drop_0, take_copy_into, Htake, Hcnt by exact Hle. done.
  - unfold copy_into. rewrite length_app, length_take, length_drop. lia.
Qed.

(** C18: The schedule of a recorded epoch is replayed exactly.  Take a running
    scheduler whose recorder starts an epoch, let [n] ticks run, and take the
    recorded preemption points, the buffer not having overflowed.  Load them
    into any scheduler that has the same tasks and queues but arbitrary time
    slices, in REPLAY mode with the same clock: its next [n] ticks run the
    same tasks, tick by tick, and end with the same tasks, queues and
    statistics. *)
Theorem replay_same_schedule {W} (ops : kernel_ops W) (s s' s1 : sched_t W) (n : nat) (tr : list (ptr Z)) (e cap c : Z) :
  scheduler_enabled s = true -> is_Some (current_task s) -> same_epoch ops s e n ->
  0 < cap < 2 ^ 32 -> 0 <= c -> c + Z.of_nat n < 2 ^ 64 -> Z.of_nat n < 2 ^ 32 ->
  epoch_start (recorder s) e cap c -> run_ticks ops n s = Some (tr, s1) ->
  Sched.overflow (Sched.g_sched_rec (recorder s1)) = 0 ->
  no_slices s = no_slices s' -> replay_start (recorder s') cap c ->
  exists cnt pts s2 s3, scheduler_preempt_points s1 = Some ((cnt, pts), s1) /\
    preempt_load e pts cnt s' = Some (Sched.SCHED_REC_OK, s2) /\
    run_ticks ops n s2 = Some (tr, s3) /\ no_slices s1 = no_slices s3.
Proof.
  intros He Hc Hep Hcap Hc0 Hb Hb32 Hes Hrun Hov Hsame Hrs.
  destruct (run_decided ops n s e tr s1 He Hc Hep Hrun) as (ws & Hlen & Hrec & Hsim).
  pose proof (recorded_decisions (recorder s) (recorder s1) (recorder s') e cap c ws Hcap Hes Hrs Hc0
                ltac:(lia) ltac:(lia) Hrec Hov) as Hd.
  unfold scheduler_preempt_points, gets.
  destruct (Sched.sched_record_points _) as [cnt pts].
  destruct (Sched.scheduler_preempt_load (recorder s') e pts cnt) as [rc g2] eqn:El. destruct Hd as (-> & Hm & Hdec).
  destruct (Hsim (with_filter g2 s')) as (s3 & Hrun3 & Hsame3); [by rewrite Hsame|exact Hm|exact Hdec|].
  exists cnt, pts, (with_filter g2 s'), s3. split_and!; [done| |done|done].
  unfold preempt_load. steps. by rewrite El.
Qed.

(** The example scheduler of SchedulerTickSpec, recording epoch 1; and its
    replay, in which the tasks have other slices left. *)
Definition with_mode (m : Sched.sched_rec_mode_t) (s : sched_t unit) : sched_t unit :=
  with_filter {| Sched.g_sched_rec := Sched.Build_sched_record_t m 1 (replicate 256 0) 256 0 0 0;
                 Sched.g_sched_lclock := 0 |} s.

Definition example_replayed : sched_t unit :=
  with_tasks (set_slice 1 <$> tasks example_running) (with_mode Sched.SCHED_REC_REPLAY example_running).

Definition example_recorded : sched_t unit :=
  match run_ticks example_ops 9 (with_mode Sched.SCHED_REC_RECORD example_running) with
  | Some (_, s) => s
  | None => example_running
  end.

Lemma same_slices m m' s :
  no_slices (with_mode m s) = no_slices (with_tasks (set_slice 1 <$> tasks s) (with_mode m' s)).
Proof.
  destruct s as [h]. unfold no_slices, with_mode, with_filter, with_tasks. cbn [tasks]. f_equal.
  rewrite <- map_fmap_compose. apply map_fmap_ext. intros i x _. reflexivity.
Qed.

Lemma replay_same_schedule_witness :
  exists cnt pts s2 s3, scheduler_preempt_points example_recorded = Some ((cnt, pts), example_recorded) /\
    preempt_load 1 pts cnt example_replayed = Some (Sched.SCHED_REC_OK, s2) /\
    run_ticks example_ops 9 s2 = Some ([& 1; & 1; & 2; & 2; & 3; & 3; & 100; & 1; & 1], s3) /\
    no_slices example_recorded = no_slices s3.
Proof.
  apply (replay_same_schedule example_ops (with_mode Sched.SCHED_REC_RECORD example_running) example_replayed
           example_recorded 9 _ 1 256 0).
  - vm_compute. reflexivity.
  - eexists. vm_compute. reflexivity.
  - intros k _. reflexivity.
  - lia.
  - lia.
  - lia.
  - lia.
  - split; reflexivity.
  - vm_compute. reflexivity.
  - vm_compute. reflexivity.
  - apply same_slices.
  - split; reflexivity.
Defined.
