(* ===== verification/Memory.v ===== *)
(** * Byte-addressed memory

    The heap allocator keeps its headers and free lists inside the memory it
    hands out, so its model works on bytes: a map from addresses to bytes,
    little-endian loads and stores of [w]-byte fields, and the lemmas that
    say which loads a store leaves alone. *)
From Stdlib Require Import ZArith Lia.
From stdpp Require Import gmap.
From S2P Require Import Prelude.
Open Scope Z_scope.

Abbreviation memory := (gmap Z byte) (only parsing).

(** The byte at an address; memory never written reads as zero, and nothing
    below depends on which value it reads as. *)
Definition byte_at (m : memory) (a : Z) : byte := default Byte.x00 (m !! a).

Definition mread (m : memory) (a : Z) (n : nat) : list byte :=
  (fun i => byte_at m (a + i)) <$> seqZ 0 (Z.of_nat n).

Fixpoint mwrite (m : memory) (a : Z) (bs : list byte) : memory :=
  match bs with
  | [] => m
  | b :: bs' => mwrite (<[a := b]> m) (a + 1) bs'
  end.

(** A field of [w] bytes. *)
Definition mload (w : nat) (m : memory) (a : Z) : Z := le_combine (mread m a w).
Definition mstore (w : nat) (m : memory) (a v : Z) : memory := mwrite m a (le_split w v).

(** Two memories with the same bytes in [[a, a + n)]. *)
Definition same_bytes (a n : Z) (m m' : memory) : Prop :=
  forall x, a <= x < a + n -> byte_at m' x = byte_at m x.

Lemma same_bytes_refl a n m : same_bytes a n m m.
Proof. done. Qed.
Lemma same_bytes_trans a n m1 m2 m3 :
  same_bytes a n m1 m2 -> same_bytes a n m2 m3 -> same_bytes a n m1 m3.
Proof. intros H1 H2 x Hx. rewrite H2, H1; done. Qed.
Lemma same_bytes_sub a n b k m m' :
  same_bytes a n m m' -> a <= b -> b + k <= a + n -> same_bytes b k m m'.
Proof. intros H ? ? x Hx. apply H. lia. Qed.

Lemma length_mread m a n : length (mread m a n) = n.
Proof. unfold mread. rewrite length_fmap, length_seqZ. lia. Qed.

Lemma mread_lookup m a n i :
  (i < n)%nat -> mread m a n !! i = Some (byte_at m (a + Z.of_nat i)).
Proof. intros Hi. unfold mread. rewrite list_lookup_fmap, lookup_seqZ_lt by lia. done. Qed.

Lemma mread_ext m m' a n :
  same_bytes a (Z.of_nat n) m m' -> mread m' a n = mread m a n.
Proof.
  intros H. apply list_eq. intros i. destruct (decide (i < n)%nat).
  - rewrite !mread_lookup by done. f_equal. apply H. lia.
  - rewrite !lookup_ge_None_2 by (rewrite length_mread; lia). done.
Qed.

Lemma mload_ext w m m' a :
  same_bytes a (Z.of_nat w) m m' -> mload w m' a = mload w m a.
Proof. intros H. unfold mload. rewrite (mread_ext _ _ _ _ H). done. Qed.

Lemma byte_at_mwrite_out m a bs x :
  x < a \/ a + Z.of_nat (length bs) <= x -> byte_at (mwrite m a bs) x = byte_at m x.
Proof.
  revert m a; induction bs as [|b bs IH]; intros m a Hx; cbn [mwrite length] in *; [done|].
  rewrite IH by lia. unfold byte_at. rewrite lookup_insert_ne by lia. done.
Qed.

Lemma byte_at_mwrite_in m a bs i b :
  bs !! i = Some b -> byte_at (mwrite m a bs) (a + Z.of_nat i) = b.
Proof.
  revert m a i; induction bs as [|c bs IH]; intros m a i Hi; [done|]. cbn [mwrite].
  destruct i as [|i].
  - injection Hi as ->. rewrite byte_at_mwrite_out by lia.
    unfold byte_at. rewrite Z.add_0_r, lookup_insert_eq. done.
  - replace (a + Z.of_nat (S i)) with (a + 1 + Z.of_nat i) by lia. apply IH, Hi.
Qed.

(** A write leaves every byte outside its range alone. *)
Lemma same_bytes_mwrite a n m b bs :
  a + n <= b \/ b + Z.of_nat (length bs) <= a -> same_bytes a n m (mwrite m b bs).
Proof. intros H x Hx. apply byte_at_mwrite_out. lia. Qed.

Lemma same_bytes_mstore a n w m b v :
  a + n <= b \/ b + Z.of_nat w <= a -> same_bytes a n m (mstore w m b v).
Proof. intros H. apply same_bytes_mwrite. rewrite length_le_split. done. Qed.

Lemma mread_mwrite m a bs : mread (mwrite m a bs) a (length bs) = bs.
Proof.
  apply list_eq. intros i. destruct (bs !! i) as [b|] eqn:Hi.
  - rewrite mread_lookup by (by apply lookup_lt_Some in Hi).
    f_equal. by apply byte_at_mwrite_in.
  - apply lookup_ge_None in Hi. apply lookup_ge_None_2. rewrite length_mread. done.
Qed.

(** A write into the middle of a range splices it. *)
Lemma mread_splice m a n off bs :
  (off + length bs <= n)%nat ->
  mread (mwrite m (a + Z.of_nat off) bs) a n =
  take off (mread m a n) ++ bs ++ drop (off + length bs) (mread m a n).
Proof.
  intros Hn. apply list_eq. intros i.
  destruct (decide (i < n)%nat) as [Hi|Hi].
  2:{ rewrite !lookup_ge_None_2; [done| |]; autorewrite with len; rewrite !length_mread; lia. }
  rewrite mread_lookup by done. destruct (decide (i < off)%nat) as [Hlo|Hlo].
  - rewrite lookup_app_l, lookup_take_lt, mread_lookup by (autorewrite with len; rewrite ?length_mread; lia).
    f_equal. apply byte_at_mwrite_out. lia.
  - rewrite lookup_app_r by (autorewrite with len; rewrite length_mread; lia).
    autorewrite with len. rewrite length_mread.
    replace (i - off `min` n)%nat with (i - off)%nat by lia.
    destruct (decide (i < off + length bs)%nat) as [Hm|Hm].
    + rewrite lookup_app_l by lia. destruct (lookup_lt_is_Some_2 bs (i - off)) as [b Hb]; [lia|].
      rewrite Hb. f_equal. rewrite <- (byte_at_mwrite_in m (a + Z.of_nat off) _ _ _ Hb). f_equal. lia.
    + rewrite lookup_app_r, lookup_drop by lia.
      replace (off + length bs + (i - off - length bs))%nat with i by lia.
      rewrite mread_lookup by done. f_equal. apply byte_at_mwrite_out. lia.
Qed.

Lemma mload_fits w m a : fits w (mload w m a).
Proof.
  unfold fits, mload. pose proof (le_combine_bound (mread m a w)) as H.
  rewrite length_mread in H. replace (Z.of_nat w * 8) with (8 * Z.of_nat w) by lia. done.
Qed.

Lemma mload_mstore w m a v : fits w v -> mload w (mstore w m a v) a = v.
Proof.
  intros Hv. unfold mload, mstore.
  pose proof (mread_mwrite m a (le_split w v)) as E. rewrite length_le_split in E.
  rewrite E, le_combine_split.
  apply Z.mod_small. apply Hv.
Qed.

Lemma mload_mstore_ne w m a w' b v :
  a + Z.of_nat w <= b \/ b + Z.of_nat w' <= a -> mload w (mstore w' m b v) a = mload w m a.
Proof. intros H. apply mload_ext, same_bytes_mstore. done. Qed.

#[global] Arguments mwrite : simpl never.
#[global] Arguments mread : simpl never.
#[global] Opaque mload mstore.
