(* ===== verification/Kalloc.v ===== *)
(** * The kernel heap allocator (kernel/kalloc.c, include/kalloc.h)

    A heap of blocks with headers, the free ones on a doubly linked list, and
    one slab cache per power of two from 8 to 4096 bytes whose slabs thread
    their free objects through the objects themselves.  Headers, slab
    descriptors and free lists are fields in the same bytes the allocator
    hands out, so every function is a computation over the static variables
    and the bytes of the heap.  [None] is a loop that does not end: a walk
    along a list longer than the heap has room for, or the spin on a lock
    that is held. *)
From Stdlib Require Import ZArith Lia.
From stdpp Require Import gmap.
From coqutil Require Import Byte.
From S2P Require Import Prelude.
From S2P Require Import Memory.
Open Scope Z_scope.
Open Scope c_scope.

Definition KALLOC_ZERO : Z := 0x02.
Definition KALLOC_ALIGN_8 : Z := 8.
Definition KALLOC_ALIGN_PAGE : Z := 4096.
Definition KALLOC_MAX_SIZE : Z := 4096.
Definition KALLOC_NUM_CACHES : Z := 10.
Definition KALLOC_SUCCESS : Z := 0.
Definition KALLOC_ERROR_INVALID : Z := -2.
Definition KALLOC_SLAB_MAGIC : Z := 0xDEADBEEF.
Definition KALLOC_BLOCK_MAGIC : Z := 0xCAFEBABE.
Definition KALLOC_FREE_MAGIC : Z := 0xFEEDFACE.

(** On 64-bit values. *)
Definition KALLOC_ROUND_UP (size align : Z) : Z :=
  Z.land (u64 (size + align - 1)) (u64 (Z.lnot (align - 1))).

(** ** The structures in the heap: offsets of their fields *)
Module Block.
Definition size : Z := 0.
Definition next : Z := 8.
Definition prev : Z := 16.
Definition magic : Z := 24.
Definition sizeof_kalloc_block_t : Z := 32.
End Block.

Module Slab.
Definition memory : Z := 0.
Definition free_objects : Z := 8.
Definition first_free : Z := 12.
Definition next : Z := 16.
Definition cache : Z := 24.
Definition magic : Z := 32.
Definition sizeof_kalloc_slab_t : Z := 40.
End Slab.
Definition sizeof_block : Z := Block.sizeof_kalloc_block_t.
Definition sizeof_slab : Z := Slab.sizeof_kalloc_slab_t.

(** ** The static variables *)
Record kalloc_cache_t := {
  object_size : Z;
  align : Z;
  objects_per_slab : Z;
  slab_size : Z;
  full_slabs : Z;
  partial_slabs : Z;
  empty_slabs : Z;
  total_slabs : Z;
  active_objects : Z;
  total_objects : Z;
  cache_name : list byte }.

Record kalloc_stats_t := {
  total_allocated : Z;
  total_freed : Z;
  current_usage : Z;
  peak_usage : Z;
  allocation_count : Z;
  free_count : Z;
  slab_count : Z;
  cache_hits : Z;
  cache_misses : Z;
  fragmentation : Z }.

(** [size_caches_at] is the address of the array of caches, which is outside
    the heap; a pointer into the array is an address. *)
Record kalloc_t := {
  kalloc_initialized : bool;
  heap_base : Z;
  heap_size : Z;
  allocator_stats : kalloc_stats_t;
  size_caches : list kalloc_cache_t;
  large_free_list : Z;
  heap_lock : Z;
  size_caches_at : Z;
  mem : gmap Z byte }.

Definition with_caches (c : list kalloc_cache_t) (s : kalloc_t) : kalloc_t :=
  {| kalloc_initialized := kalloc_initialized s; heap_base := heap_base s; heap_size := heap_size s;
     allocator_stats := allocator_stats s; size_caches := c; large_free_list := large_free_list s;
     heap_lock := heap_lock s; size_caches_at := size_caches_at s; mem := mem s |}.
Definition with_large (p : Z) (s : kalloc_t) : kalloc_t :=
  {| kalloc_initialized := kalloc_initialized s; heap_base := heap_base s; heap_size := heap_size s;
     allocator_stats := allocator_stats s; size_caches := size_caches s; large_free_list := p;
     heap_lock := heap_lock s; size_caches_at := size_caches_at s; mem := mem s |}.
Definition with_lock (l : Z) (s : kalloc_t) : kalloc_t :=
  {| kalloc_initialized := kalloc_initialized s; heap_base := heap_base s; heap_size := heap_size s;
     allocator_stats := allocator_stats s; size_caches := size_caches s; large_free_list := large_free_list s;
     heap_lock := l; size_caches_at := size_caches_at s; mem := mem s |}.
Definition with_mem (m : gmap Z byte) (s : kalloc_t) : kalloc_t :=
  {| kalloc_initialized := kalloc_initialized s; heap_base := heap_base s; heap_size := heap_size s;
     allocator_stats := allocator_stats s; size_caches := size_caches s; large_free_list := large_free_list s;
     heap_lock := heap_lock s; size_caches_at := size_caches_at s; mem := m |}.
Definition with_initialized (b : bool) (s : kalloc_t) : kalloc_t :=
  {| kalloc_initialized := b; heap_base := heap_base s; heap_size := heap_size s;
     allocator_stats := allocator_stats s; size_caches := size_caches s; large_free_list := large_free_list s;
     heap_lock := heap_lock s; size_caches_at := size_caches_at s; mem := mem s |}.
Definition with_stats (x : kalloc_stats_t) (s : kalloc_t) : kalloc_t :=
  {| kalloc_initialized := kalloc_initialized s; heap_base := heap_base s; heap_size := heap_size s;
     allocator_stats := x; size_caches := size_caches s; large_free_list := large_free_list s;
     heap_lock := heap_lock s; size_caches_at := size_caches_at s; mem := mem s |}.

Definition set_lists (full partial empty : Z) (c : kalloc_cache_t) : kalloc_cache_t :=
  {| object_size := object_size c; align := align c; objects_per_slab := objects_per_slab c;
     slab_size := slab_size c; full_slabs := full; partial_slabs := partial; empty_slabs := empty;
     total_slabs := total_slabs c; active_objects := active_objects c; total_objects := total_objects c;
     cache_name := cache_name c |}.
Definition set_full (p : Z) (c : kalloc_cache_t) : kalloc_cache_t :=
  set_lists p (partial_slabs c) (empty_slabs c) c.
Definition set_partial (p : Z) (c : kalloc_cache_t) : kalloc_cache_t :=
  set_lists (full_slabs c) p (empty_slabs c) c.
Definition set_empty (p : Z) (c : kalloc_cache_t) : kalloc_cache_t :=
  set_lists (full_slabs c) (partial_slabs c) p c.
Definition count_objects (slabs active total : Z) (c : kalloc_cache_t) : kalloc_cache_t :=
  {| object_size := object_size c; align := align c; objects_per_slab := objects_per_slab c;
     slab_size := slab_size c; full_slabs := full_slabs c; partial_slabs := partial_slabs c;
     empty_slabs := empty_slabs c; total_slabs := u32 (total_slabs c + slabs);
     active_objects := u32 (active_objects c + active); total_objects := u32 (total_objects c + total);
     cache_name := cache_name c |}.

Definition stats_zero : kalloc_stats_t :=
  {| total_allocated := 0; total_freed := 0; current_usage := 0; peak_usage := 0; allocation_count := 0;
     free_count := 0; slab_count := 0; cache_hits := 0; cache_misses := 0; fragmentation := 0 |}.
Definition count_slabs (d : Z) (x : kalloc_stats_t) : kalloc_stats_t :=
  {| total_allocated := total_allocated x; total_freed := total_freed x; current_usage := current_usage x;
     peak_usage := peak_usage x; allocation_count := allocation_count x; free_count := free_count x;
     slab_count := u32 (slab_count x + d); cache_hits := cache_hits x; cache_misses := cache_misses x;
     fragmentation := fragmentation x |}.
Definition count_lookup (hits misses : Z) (x : kalloc_stats_t) : kalloc_stats_t :=
  {| total_allocated := total_allocated x; total_freed := total_freed x; current_usage := current_usage x;
     peak_usage := peak_usage x; allocation_count := allocation_count x; free_count := free_count x;
     slab_count := slab_count x; cache_hits := u32 (cache_hits x + hits);
     cache_misses := u32 (cache_misses x + misses); fragmentation := fragmentation x |}.
Definition count_alloc (size : Z) (x : kalloc_stats_t) : kalloc_stats_t :=
  let usage := u64 (current_usage x + size) in
  {| total_allocated := u64 (total_allocated x + size); total_freed := total_freed x; current_usage := usage;
     peak_usage := if peak_usage x <? usage then usage else peak_usage x;
     allocation_count := u32 (allocation_count x + 1); free_count := free_count x;
     slab_count := slab_count x; cache_hits := cache_hits x; cache_misses := cache_misses x;
     fragmentation := fragmentation x |}.
Definition count_free (x : kalloc_stats_t) : kalloc_stats_t :=
  {| total_allocated := total_allocated x; total_freed := total_freed x; current_usage := current_usage x;
     peak_usage := peak_usage x; allocation_count := allocation_count x; free_count := u32 (free_count x + 1);
     slab_count := slab_count x; cache_hits := cache_hits x; cache_misses := cache_misses x;
     fragmentation := fragmentation x |}.
Definition count_freed (size : Z) (x : kalloc_stats_t) : kalloc_stats_t :=
  {| total_allocated := total_allocated x; total_freed := u64 (total_freed x + size);
     current_usage := u64 (current_usage x - size); peak_usage := peak_usage x;
     allocation_count := allocation_count x; free_count := free_count x; slab_count := slab_count x;
     cache_hits := cache_hits x; cache_misses := cache_misses x; fragmentation := fragmentation x |}.

(** ** Computations *)
Definition M (A : Type) : Type := kalloc_t -> option (A * kalloc_t).
Definition ret {A} (x : A) : M A := fun s => Some (x, s).
Definition bind {A B} (e : M A) (f : A -> M B) : M B :=
  fun s => match e s with Some (x, s') => f x s' | None => None end.
Definition get {A} (f : kalloc_t -> A) : M A := fun s => Some (f s, s).
Definition modify (f : kalloc_t -> kalloc_t) : M unit := fun s => Some (tt, f s).
Definition diverge {A} : M A := fun _ => None.

Declare Scope kalloc_scope.
Delimit Scope kalloc_scope with kalloc.
Notation "x <- e ;; f" := (bind e (fun x => f))
  (at level 100, e at next level, right associativity, only parsing) : kalloc_scope.
Notation "e ;; f" := (bind e (fun _ => f))
  (at level 100, right associativity, only parsing) : kalloc_scope.
Open Scope kalloc_scope.

Definition load64 (a : Z) : M Z := get (fun s => mload 8 (mem s) a).
Definition load32 (a : Z) : M Z := get (fun s => mload 4 (mem s) a).
Definition store64 (a v : Z) : M unit := modify (fun s => with_mem (mstore 8 (mem s) a v) s).
Definition store32 (a v : Z) : M unit := modify (fun s => with_mem (mstore 4 (mem s) a v) s).
(** [memset(ptr, 0, size)] *)
Definition memset_zero (ptr size : Z) : M unit :=
  modify (fun s => with_mem (mwrite (mem s) ptr (zeros (Z.to_nat size))) s).

(** More steps than a list of blocks inside the heap can have. *)
Definition list_fuel (s : kalloc_t) : nat := S (Z.to_nat (heap_size s / 32)).

(** The static array of caches. *)
Definition sizeof_cache : Z := 96.
Definition cache_ptr (s : kalloc_t) (i : Z) : Z := size_caches_at s + i * sizeof_cache.
Definition cache_index (s : kalloc_t) (p : Z) : Z := (p - size_caches_at s) / sizeof_cache.
Definition cache_default : kalloc_cache_t :=
  {| object_size := 0; align := 0; objects_per_slab := 0; slab_size := 0; full_slabs := 0;
     partial_slabs := 0; empty_slabs := 0; total_slabs := 0; active_objects := 0; total_objects := 0;
     cache_name := [] |}.
Definition cache_at (s : kalloc_t) (p : Z) : kalloc_cache_t :=
  zget cache_default (size_caches s) (cache_index s p).
Definition load_cache (p : Z) : M kalloc_cache_t := get (fun s => cache_at s p).
Definition update_cache (p : Z) (f : kalloc_cache_t -> kalloc_cache_t) : M unit :=
  modify (fun s => with_caches (zset (cache_index s p) (f (cache_at s p)) (size_caches s)) s).
Definition update_stats (f : kalloc_stats_t -> kalloc_stats_t) : M unit :=
  modify (fun s => with_stats (f (allocator_stats s)) s).

Definition lock_heap : M unit :=
  l <- get heap_lock;;
  if l =? 0 then modify (with_lock 1) else diverge.
Definition unlock_heap : M unit := modify (with_lock 0).

(** ** Initialisation *)
Definition cache_sizes : list Z := [8; 16; 32; 64; 128; 256; 512; 1024; 2048; 4096].

(** The cache's name: the prefix and the digits the code writes. *)
Definition digit (d : Z) : list byte := [byte.of_Z (48 + d)].
Definition name_of_size (size : Z) : list byte :=
  let '(l1, size) := if 1000 <=? size then (digit (size / 1000), size mod 1000) else ([], size) in
  let '(l2, size) := if 100 <=? size then (digit (size / 100), size mod 100) else ([], size) in
  let '(l3, size) := if 10 <=? size then (digit (size / 10), size mod 10) else ([], size) in
  map byte.of_Z [115; 105; 122; 101; 45] ++ l1 ++ l2 ++ l3 ++ digit size.

Definition cache_init (sz : Z) : kalloc_cache_t :=
  {| object_size := sz;
     align := if 64 <=? sz then 64 else sz;
     objects_per_slab := KALLOC_ALIGN_PAGE / sz;
     slab_size := KALLOC_ALIGN_PAGE;
     full_slabs := 0; partial_slabs := 0; empty_slabs := 0;
     total_slabs := 0; active_objects := 0; total_objects := 0;
     cache_name := name_of_size sz |}.

Definition kalloc_init (heap_start heap_sz : Z) : M Z :=
  init <- get kalloc_initialized;;
  if init : bool then ret KALLOC_ERROR_INVALID
  else
    let base := KALLOC_ROUND_UP heap_start KALLOC_ALIGN_PAGE in
    let hs := u64 (heap_sz - u64 (base - heap_start)) in
    modify (fun s =>
      {| kalloc_initialized := false; heap_base := base; heap_size := hs; allocator_stats := stats_zero;
         size_caches := map cache_init cache_sizes; large_free_list := base; heap_lock := heap_lock s;
         size_caches_at := size_caches_at s; mem := mem s |});;
    store64 (base + Block.size) (u64 (hs - sizeof_block));;
    store64 (base + Block.next) 0;;
    store64 (base + Block.prev) 0;;
    store32 (base + Block.magic) KALLOC_BLOCK_MAGIC;;
    modify (with_initialized true);;
    ret KALLOC_SUCCESS.

(** ** Large blocks *)

(** [split_block(block, size)] *)
Definition split_block (block size : Z) : M Z :=
  bsize <- load64 (block + Block.size);;
  if bsize <=? u64 (size + sizeof_block) then ret 0
  else
    let new_block := block + size in
    store64 (new_block + Block.size) (u64 (bsize - size));;
    store32 (new_block + Block.magic) KALLOC_BLOCK_MAGIC;;
    bnext <- load64 (block + Block.next);;
    store64 (new_block + Block.next) bnext;;
    store64 (new_block + Block.prev) block;;
    (if bnext =? 0 then ret tt else store64 (bnext + Block.prev) new_block);;
    store64 (block + Block.next) new_block;;
    store64 (block + Block.size) size;;
    ret new_block.

(** The search for the best fit; [None] when a free block has lost its magic. *)
Fixpoint find_best (fuel : nat) (total current best : Z) : M (option Z) :=
  if current =? 0 then ret (Some best)
  else
    match fuel with
    | O => diverge
    | S fuel' =>
        magic <- load32 (current + Block.magic);;
        if negb (magic =? KALLOC_BLOCK_MAGIC) then ret None
        else
          size <- load64 (current + Block.size);;
          best' <- (if total <=? size then
                      if best =? 0 then ret current
                      else
                        bsize <- load64 (best + Block.size);;
                        ret (if size <? bsize then current else best)
                    else ret best);;
          next <- load64 (current + Block.next);;
          find_best fuel' total next best'
    end.

(** Taking a block off the list of free blocks. *)
Definition unlink_block (block : Z) : M unit :=
  prev <- load64 (block + Block.prev);;
  next <- load64 (block + Block.next);;
  (if prev =? 0 then modify (with_large next) else store64 (prev + Block.next) next);;
  next <- load64 (block + Block.next);;
  (if next =? 0 then ret tt
   else
     prev <- load64 (block + Block.prev);;
     store64 (next + Block.prev) prev).

Definition kalloc_large (size : Z) : M Z :=
  let total_size := KALLOC_ROUND_UP (u64 (size + sizeof_block)) KALLOC_ALIGN_8 in
  current <- get large_free_list;;
  fuel <- get list_fuel;;
  best <- find_best fuel total_size current 0;;
  match best with
  | None => ret 0
  | Some best_block =>
      if best_block =? 0 then ret 0
      else
        bsize <- load64 (best_block + Block.size);;
        (if u64 (total_size + sizeof_block + 64) <=? bsize
         then split_block best_block total_size;; ret tt else ret tt);;
        unlink_block best_block;;
        store32 (best_block + Block.magic) KALLOC_FREE_MAGIC;;
        ret (best_block + sizeof_block)
  end.

Fixpoint merge_from (fuel : nat) (current : Z) : M unit :=
  if current =? 0 then ret tt
  else
    next <- load64 (current + Block.next);;
    if next =? 0 then ret tt
    else
      match fuel with
      | O => diverge
      | S fuel' =>
          size <- load64 (current + Block.size);;
          if u64 (current + size + sizeof_block) =? next then
            nsize <- load64 (next + Block.size);;
            store64 (current + Block.size) (u64 (size + u64 (nsize + sizeof_block)));;
            nnext <- load64 (next + Block.next);;
            store64 (current + Block.next) nnext;;
            (if nnext =? 0 then ret tt else store64 (nnext + Block.prev) current);;
            merge_from fuel' current
          else merge_from fuel' next
      end.

Definition merge_free_blocks : M unit :=
  current <- get large_free_list;;
  fuel <- get list_fuel;;
  merge_from fuel current.

Definition kfree_large (ptr size : Z) : M unit :=
  if ptr =? 0 then ret tt
  else
    let block := ptr - sizeof_block in
    magic <- load32 (block + Block.magic);;
    if negb (magic =? KALLOC_FREE_MAGIC) then ret tt
    else
      store32 (block + Block.magic) KALLOC_BLOCK_MAGIC;;
      head <- get large_free_list;;
      store64 (block + Block.next) head;;
      store64 (block + Block.prev) 0;;
      (if head =? 0 then ret tt else store64 (head + Block.prev) block);;
      modify (with_large block);;
      merge_free_blocks;;
      bsize <- load64 (block + Block.size);;
      update_stats (count_freed bsize).

(** ** Slabs *)

(** The word that links a free object to the next one. *)
Definition free_link (memory os idx : Z) : Z := memory + 4 * (u64 (idx * os) / 4).

Fixpoint link_objects (n : nat) (memory os i : Z) : M unit :=
  match n with
  | O => ret tt
  | S n' =>
      store32 (free_link memory os i) (u32 (i + 1));;
      link_objects n' memory os (i + 1)
  end.

(** The descriptor of a new slab and its free list. *)
Definition init_slab (slab cache : Z) (c : kalloc_cache_t) : M unit :=
  let memory := slab + sizeof_slab in
  store64 (slab + Slab.memory) memory;;
  store32 (slab + Slab.free_objects) (objects_per_slab c);;
  store32 (slab + Slab.first_free) 0;;
  store64 (slab + Slab.next) 0;;
  store64 (slab + Slab.cache) cache;;
  store32 (slab + Slab.magic) KALLOC_SLAB_MAGIC;;
  link_objects (Z.to_nat (u32 (objects_per_slab c - 1))) memory (object_size c) 0;;
  store32 (free_link memory (object_size c) (u32 (objects_per_slab c - 1))) 0xFFFFFFFF.

Definition create_slab (cache : Z) : M Z :=
  c <- load_cache cache;;
  slab <- kalloc_large (sizeof_slab + slab_size c);;
  if slab =? 0 then ret 0
  else
    init_slab slab cache c;;
    update_cache cache (count_objects 1 0 (objects_per_slab c));;
    update_stats (count_slabs 1);;
    ret slab.

Definition destroy_slab (slab : Z) : M unit :=
  if slab =? 0 then ret tt
  else
    kfree_large slab 0;;
    update_stats (count_slabs (-1)).

Definition slab_alloc_object (slab : Z) : M Z :=
  if slab =? 0 then ret 0
  else
    free_objects <- load32 (slab + Slab.free_objects);;
    if free_objects =? 0 then ret 0
    else
      obj_index <- load32 (slab + Slab.first_free);;
      memory <- load64 (slab + Slab.memory);;
      cache <- load64 (slab + Slab.cache);;
      c <- load_cache cache;;
      link <- load32 (free_link memory (object_size c) obj_index);;
      store32 (slab + Slab.first_free) link;;
      store32 (slab + Slab.free_objects) (u32 (free_objects - 1));;
      update_cache cache (count_objects 0 1 0);;
      ret (memory + u64 (obj_index * object_size c)).

Definition slab_free_object (slab ptr : Z) : M unit :=
  if (slab =? 0) || (ptr =? 0) then ret tt
  else
    memory <- load64 (slab + Slab.memory);;
    cache <- load64 (slab + Slab.cache);;
    c <- load_cache cache;;
    let obj_offset := ptr - memory in
    let obj_index := u32 (obj_offset / object_size c) in
    first <- load32 (slab + Slab.first_free);;
    store32 (free_link memory (object_size c) obj_index) first;;
    store32 (slab + Slab.first_free) obj_index;;
    free_objects <- load32 (slab + Slab.free_objects);;
    store32 (slab + Slab.free_objects) (u32 (free_objects + 1));;
    update_cache cache (count_objects 0 (-1) 0).

Fixpoint find_cache_from (sizes : list Z) (i size : Z) : ptr Z :=
  match sizes with
  | [] => NULL
  | sz :: sizes' => if size <=? sz then & i else find_cache_from sizes' (i + 1) size
  end.
Definition find_cache (s : kalloc_t) (size : Z) : Z :=
  match find_cache_from cache_sizes 0 size with & i => cache_ptr s i | NULL => 0 end.

(** The predecessor of a slab in a list, 0 when there is none. *)
Fixpoint slab_before (fuel : nat) (prev slab : Z) : M Z :=
  if prev =? 0 then ret 0
  else
    match fuel with
    | O => diverge
    | S fuel' =>
        next <- load64 (prev + Slab.next);;
        if next =? slab then ret prev else slab_before fuel' next slab
    end.

(** The slab an object is taken from: a partial one, an empty one that
    becomes partial, or a new one; 0 when none can be made. *)
Definition pick_slab (cache : Z) : M Z :=
  c <- load_cache cache;;
  if negb (partial_slabs c =? 0) then ret (partial_slabs c)
  else if negb (empty_slabs c =? 0) then
    let slab := empty_slabs c in
    next <- load64 (slab + Slab.next);;
    update_cache cache (set_empty next);;
    store64 (slab + Slab.next) (partial_slabs c);;
    update_cache cache (set_partial slab);;
    ret slab
  else
    slab <- create_slab cache;;
    if slab =? 0 then ret 0
    else
      c <- load_cache cache;;
      store64 (slab + Slab.next) (partial_slabs c);;
      update_cache cache (set_partial slab);;
      ret slab.

(** A slab that has become full moves from the partial to the full list. *)
Definition retire_slab (cache slab : Z) : M unit :=
  c <- load_cache cache;;
  next <- load64 (slab + Slab.next);;
  (if partial_slabs c =? slab then update_cache cache (set_partial next)
   else
     fuel <- get list_fuel;;
     prev <- slab_before fuel (partial_slabs c) slab;;
     if prev =? 0 then ret tt else store64 (prev + Slab.next) next);;
  c <- load_cache cache;;
  store64 (slab + Slab.next) (full_slabs c);;
  update_cache cache (set_full slab).

Definition kalloc_cache_alloc (cache : Z) : M Z :=
  if cache =? 0 then ret 0
  else
    slab <- pick_slab cache;;
    if slab =? 0 then ret 0
    else
      ptr <- slab_alloc_object slab;;
      free_objects <- load32 (slab + Slab.free_objects);;
      (if free_objects =? 0 then retire_slab cache slab else ret tt);;
      ret ptr.

Definition kalloc_cache_free (cache ptr : Z) : M unit := ret tt.

(** ** The interface *)
(** The caches for small sizes, a large block when they have none. *)
Definition kalloc_any (size : Z) : M Z :=
  ptr <- (if size <=? KALLOC_MAX_SIZE then
            cache <- get (fun s => find_cache s size);;
            if negb (cache =? 0) then
              ptr <- kalloc_cache_alloc cache;;
              update_stats (count_lookup 1 0);;
              ret ptr
            else update_stats (count_lookup 0 1);; ret 0
          else ret 0);;
  if ptr =? 0 then kalloc_large size else ret ptr.

Definition kalloc_flags (size flags : Z) : M Z :=
  init <- get kalloc_initialized;;
  if negb init || (size =? 0) then ret 0
  else
    lock_heap;;
    ptr <- kalloc_any size;;
    (if negb (ptr =? 0) then
       (if negb (Z.land flags KALLOC_ZERO =? 0) then memset_zero ptr size else ret tt);;
       update_stats (count_alloc size)
     else ret tt);;
    unlock_heap;;
    ret ptr.

Definition kalloc (size : Z) : M Z := kalloc_flags size 0.

Definition kalloc_aligned (size align_ : Z) : M Z :=
  init <- get kalloc_initialized;;
  if negb init || (size =? 0) || negb (Z.land align_ (u64 (align_ - 1)) =? 0) then ret 0
  else
    let large :=
      let total_size := u64 (size + align_ - 1 + sizeof_block) in
      raw_ptr <- kalloc_large total_size;;
      if raw_ptr =? 0 then ret 0
      else ret (KALLOC_ROUND_UP (u64 (raw_ptr + sizeof_block)) align_) in
    if (size <=? KALLOC_MAX_SIZE) && (align_ <=? 64) then
      cache <- get (fun s => find_cache s size);;
      c <- load_cache cache;;
      if negb (cache =? 0) && (align_ <=? align c) then kalloc_cache_alloc cache else large
    else large.

(** The slab of a list whose memory holds [ptr], 0 when none does. *)
Fixpoint slab_holding (fuel : nat) (slab ssize ptr : Z) : M Z :=
  if slab =? 0 then ret 0
  else
    match fuel with
    | O => diverge
    | S fuel' =>
        memory <- load64 (slab + Slab.memory);;
        if (memory <=? ptr) && (ptr <? memory + ssize) then ret slab
        else
          next <- load64 (slab + Slab.next);;
          slab_holding fuel' next ssize ptr
    end.

(** The search of [kfree] and [kalloc_usable_size] through the full and the
    partial slabs of every cache. *)
Fixpoint find_slab (ncaches : nat) (i ptr : Z) : M (option (Z * Z)) :=
  match ncaches with
  | O => ret NULL
  | S n' =>
      cache <- get (fun s => cache_ptr s i);;
      c <- load_cache cache;;
      fuel <- get list_fuel;;
      slab <- slab_holding fuel (full_slabs c) (slab_size c) ptr;;
      slab <- (if slab =? 0 then slab_holding fuel (partial_slabs c) (slab_size c) ptr else ret slab);;
      if slab =? 0 then find_slab n' (i + 1) ptr else ret (& (cache, slab))
  end.

Definition kfree (ptr : Z) : M unit :=
  init <- get kalloc_initialized;;
  if (ptr =? 0) || negb init then ret tt
  else
    lock_heap;;
    slab <- find_slab (Z.to_nat KALLOC_NUM_CACHES) 0 ptr;;
    match slab with
    | & (_, slab) => slab_free_object slab ptr
    | NULL =>
        let block := ptr - sizeof_block in
        magic <- load32 (block + Block.magic);;
        if magic =? KALLOC_BLOCK_MAGIC then kfree_large ptr 0 else ret tt
    end;;
    update_stats count_free;;
    unlock_heap.

Definition kalloc_kfree (ptr : Z) : M unit := kfree ptr.

Fixpoint first_cache (n : nat) (i object_size_ align_ : Z) : M Z :=
  match n with
  | O => ret 0
  | S n' =>
      cache <- get (fun s => cache_ptr s i);;
      c <- load_cache cache;;
      if (object_size_ <=? object_size c) && (align_ <=? align c) then ret cache
      else first_cache n' (i + 1) object_size_ align_
  end.

Definition kalloc_cache_create (name : list byte) (object_size_ align_ : Z) : M Z :=
  init <- get kalloc_initialized;;
  if negb init || (object_size_ =? 0) || negb (Z.land align_ (u64 (align_ - 1)) =? 0) then ret 0
  else first_cache (Z.to_nat KALLOC_NUM_CACHES) 0 object_size_ align_.

Fixpoint destroy_slabs (fuel : nat) (slab : Z) : M unit :=
  if slab =? 0 then ret tt
  else
    match fuel with
    | O => diverge
    | S fuel' =>
        next <- load64 (slab + Slab.next);;
        destroy_slab slab;;
        destroy_slabs fuel' next
    end.

Definition kalloc_cache_destroy (cache : Z) : M unit :=
  if cache =? 0 then ret tt
  else
    c <- load_cache cache;;
    fuel <- get list_fuel;;
    destroy_slabs fuel (full_slabs c);;
    c <- load_cache cache;;
    destroy_slabs fuel (partial_slabs c);;
    c <- load_cache cache;;
    destroy_slabs fuel (empty_slabs c).

(** ** Statistics and checks *)
Definition kalloc_get_stats : M kalloc_stats_t :=
  update_stats (fun x =>
    if 0 <? total_allocated x then
      {| total_allocated := total_allocated x; total_freed := total_freed x; current_usage := current_usage x;
         peak_usage := peak_usage x; allocation_count := allocation_count x; free_count := free_count x;
         slab_count := slab_count x; cache_hits := cache_hits x; cache_misses := cache_misses x;
         fragmentation := u32 (u64 (current_usage x * 100) / total_allocated x) |}
    else x);;
  get allocator_stats.

Definition kalloc_shutdown : M unit :=
  init <- get kalloc_initialized;;
  if negb init then ret tt else kalloc_get_stats;; modify (with_initialized false).

Fixpoint corrupt_from (fuel : nat) (current : Z) : M bool :=
  if current =? 0 then ret false
  else
    match fuel with
    | O => diverge
    | S fuel' =>
        magic <- load32 (current + Block.magic);;
        if negb (magic =? KALLOC_BLOCK_MAGIC) then ret true
        else
          next <- load64 (current + Block.next);;
          corrupt_from fuel' next
    end.

Definition kalloc_check_corruption : M bool :=
  current <- get large_free_list;;
  fuel <- get list_fuel;;
  corrupt_from fuel current.

Definition kalloc_usable_size (ptr : Z) : M Z :=
  if ptr =? 0 then ret 0
  else
    slab <- find_slab (Z.to_nat KALLOC_NUM_CACHES) 0 ptr;;
    match slab with
    | & (cache, _) => c <- load_cache cache;; ret (object_size c)
    | NULL =>
        let block := ptr - sizeof_block in
        magic <- load32 (block + Block.magic);;
        if magic =? KALLOC_FREE_MAGIC then
          size <- load64 (block + Block.size);;
          ret (u64 (size - sizeof_block))
        else ret 0
    end.

Definition kalloc_is_valid_pointer (ptr : Z) : M bool :=
  base <- get heap_base;;
  size <- get heap_size;;
  if (ptr =? 0) || (ptr <? base) || (base + size <=? ptr) then ret false
  else
    usable <- kalloc_usable_size ptr;;
    ret (0 <? usable).
