(* ===== verification/KallocHeap.v ===== *)
(** * The heap as a set of blocks

    What kalloc.c keeps in the bytes of the heap, seen as a map from the
    address of each block to its size and what it is: a free block with its
    links, a large allocation, or a slab with the list of its free objects.
    [layout] says the blocks tile the heap, [rep] that the bytes hold them,
    [free_list] and [slab_list] that the links make lists; [object] is the
    memory handed out. *)
From Stdlib Require Import ZArith Lia Znumtheory.
From stdpp Require Import gmap.
From S2P Require Import Prelude.
From S2P Require Import Memory.
From S2P Require Import Kalloc.
Open Scope Z_scope.

Inductive block_t :=
| Free (next prev : Z)
| Large
| SlabOf (cache : Z) (next : Z) (free : list Z).

Abbreviation heap_t := (gmap Z (Z * block_t)) (only parsing).

(** Size and number of the objects of the [c]-th cache. *)
Definition osize (c : Z) : Z := zget 0 cache_sizes c.
Definition ocount (c : Z) : Z := 4096 / osize c.
Definition NO_OBJECT : Z := 0xFFFFFFFF.

(** ** The blocks tile the heap *)
Definition valid (sz : Z) (k : block_t) : Prop :=
  40 <= sz /\
  match k with
  | SlabOf c _ fr => 4168 <= sz /\ 0 <= c < 10 /\ NoDup fr /\ (forall i, i ∈ fr -> 0 <= i < ocount c)
  | _ => True
  end.

Record layout (base lim : Z) (H : heap_t) : Prop := {
  l_valid b sz k : H !! b = Some (sz, k) -> valid sz k;
  l_range b sz k : H !! b = Some (sz, k) -> base <= b /\ b + sz <= lim;
  l_align b sz k : H !! b = Some (sz, k) -> (8 | b);
  l_disj b sz k b' sz' k' :
    H !! b = Some (sz, k) -> H !! b' = Some (sz', k') -> b < b' -> b + sz <= b';
  l_tile b sz k : H !! b = Some (sz, k) -> b + sz = lim \/ is_Some (H !! (b + sz)) }.

(** ** The bytes hold the blocks *)
Fixpoint chain (m : gmap Z byte) (memory os : Z) (fr : list Z) : Prop :=
  match fr with
  | [] => True
  | i :: fr' => mload 4 m (memory + i * os) = hd NO_OBJECT fr' /\ chain m memory os fr'
  end.

Section rep.
Context (caches : Z).

Definition slab_at (m : gmap Z byte) (s c next : Z) (fr : list Z) : Prop :=
  mload 8 m (s + Slab.memory) = s + sizeof_slab /\
  mload 4 m (s + Slab.free_objects) = Z.of_nat (length fr) /\
  mload 4 m (s + Slab.first_free) = hd NO_OBJECT fr /\
  mload 8 m (s + Slab.next) = next /\
  mload 8 m (s + Slab.cache) = caches + c * sizeof_cache /\
  chain m (s + sizeof_slab) (osize c) fr.

Definition block_at (m : gmap Z byte) (b sz : Z) (k : block_t) : Prop :=
  mload 8 m (b + Block.size) = sz /\
  match k with
  | Free n p =>
      mload 8 m (b + Block.next) = n /\ mload 8 m (b + Block.prev) = p /\
      mload 4 m (b + Block.magic) = KALLOC_BLOCK_MAGIC
  | Large => mload 4 m (b + Block.magic) = KALLOC_FREE_MAGIC
  | SlabOf c n fr =>
      mload 4 m (b + Block.magic) = KALLOC_FREE_MAGIC /\ slab_at m (b + sizeof_block) c n fr
  end.

Definition rep (m : gmap Z byte) (H : heap_t) : Prop :=
  forall b sz k, H !! b = Some (sz, k) -> block_at m b sz k.
End rep.

(** ** The lists *)
(** A segment of the doubly linked list, between [prev] and [next]. *)
Fixpoint dll (H : heap_t) (prev : Z) (l : list Z) (next : Z) : Prop :=
  match l with
  | [] => True
  | b :: l' => (exists sz, H !! b = Some (sz, Free (hd next l') prev)) /\ dll H b l' next
  end.

Fixpoint last_or (p : Z) (l : list Z) : Z :=
  match l with [] => p | b :: l' => last_or b l' end.

Definition free_list (H : heap_t) (l : list Z) : Prop :=
  dll H 0 l 0 /\ NoDup l /\ forall b sz n p, H !! b = Some (sz, Free n p) -> b ∈ l.

(** A slab is addressed by its descriptor, after the header of its block. *)
Fixpoint slab_list (H : heap_t) (c : Z) (l : list Z) : Prop :=
  match l with
  | [] => True
  | s :: l' => (exists sz fr, H !! (s - sizeof_block) = Some (sz, SlabOf c (hd 0 l') fr)) /\ slab_list H c l'
  end.

(** ** The memory handed out *)
Definition object (H : heap_t) (p cap : Z) : Prop :=
  (exists b sz, H !! b = Some (sz, Large) /\ p = b + sizeof_block /\ cap = sz - sizeof_block) \/
  (exists b sz c n fr i, H !! b = Some (sz, SlabOf c n fr) /\ 0 <= i < ocount c /\ (i ∉ fr) /\
     p = b + sizeof_block + sizeof_slab + i * osize c /\ cap = osize c).

(** What every operation leaves alone: the objects handed out and their bytes. *)
Definition keeps (m : gmap Z byte) (H : heap_t) (m' : gmap Z byte) (H' : heap_t) : Prop :=
  forall p cap, object H p cap -> object H' p cap /\ same_bytes p cap m m'.

(** Blocks that are not slabs may change, slabs do not. *)
Definition slabs_kept (H H' : heap_t) : Prop :=
  forall b sz c n fr, H !! b = Some (sz, SlabOf c n fr) <-> H' !! b = Some (sz, SlabOf c n fr).

(** ** Cache geometry *)
Lemma osize_div8 c : 0 <= c < 10 -> (8 | osize c).
Proof.
  intros Hc. exists (2 ^ c).
  assert (c = 0 \/ c = 1 \/ c = 2 \/ c = 3 \/ c = 4 \/ c = 5 \/ c = 6 \/ c = 7 \/ c = 8 \/ c = 9) as Hcase by lia.
  repeat destruct Hcase as [->|Hcase]; try subst c; reflexivity.
Qed.

Lemma osize_bounds c : 0 <= c < 10 -> 8 <= osize c <= 4096 /\ 1 <= ocount c <= 512 /\ ocount c * osize c = 4096.
Proof.
  intros Hc. unfold ocount.
  assert (c = 0 \/ c = 1 \/ c = 2 \/ c = 3 \/ c = 4 \/ c = 5 \/ c = 6 \/ c = 7 \/ c = 8 \/ c = 9) as Hcase by lia.
  repeat destruct Hcase as [->|Hcase]; try subst c; vm_compute; intuition discriminate.
Qed.

(** An object index stays inside the slab's memory. *)
Lemma object_in_slab c i :
  0 <= c < 10 -> 0 <= i < ocount c -> 0 <= i * osize c /\ i * osize c + osize c <= 4096.
Proof. intros Hc Hi. destruct (osize_bounds c Hc) as (? & ? & ?). nia. Qed.

Lemma free_link_eq memory c i :
  0 <= c < 10 -> 0 <= i < ocount c -> free_link memory (osize c) i = memory + i * osize c.
Proof.
  intros Hc Hi. pose proof (object_in_slab c i Hc Hi). pose proof (osize_bounds c Hc). unfold free_link.
  rewrite u64_id by lia. destruct (osize_div8 c Hc) as [q Hq].
  replace (i * osize c) with (i * q * 2 * 4) by lia. rewrite Z.div_mul by lia. lia.
Qed.

(** Distinct objects of a slab are apart. *)
Lemma objects_apart c i j :
  0 <= c < 10 -> i <> j -> i * osize c + osize c <= j * osize c \/ j * osize c + osize c <= i * osize c.
Proof. intros Hc Hij. destruct (osize_bounds c Hc) as (? & ? & ?). nia. Qed.

(** ** Offsets are unfolded for arithmetic *)
Ltac offs :=
  cbv delta [sizeof_block sizeof_slab Block.sizeof_kalloc_block_t Slab.sizeof_kalloc_slab_t
    Block.size Block.next Block.prev Block.magic
    Slab.memory Slab.free_objects Slab.first_free Slab.next Slab.cache Slab.magic] in *.
Ltac zoffs := offs; cbn [Z.of_nat Pos.of_succ_nat Pos.succ] in *; lia.

(** ** Frames *)
Section frames.
Context {caches base lim : Z}.
Implicit Types H : heap_t.

Lemma chain_ext m m' memory os fr n :
  same_bytes memory n m m' ->
  (forall i, i ∈ fr -> 0 <= i * os /\ i * os + 4 <= n) ->
  chain m memory os fr -> chain m' memory os fr.
Proof.
  intros Hs. induction fr as [|i fr IH]; intros Hin Hc; [done|]. destruct Hc as [Hi Hc].
  pose proof (Hin i ltac:(set_solver)). split.
  - rewrite <- Hi. apply mload_ext. eapply same_bytes_sub; [exact Hs| |]; zoffs.
  - apply IH; [set_solver|done].
Qed.

Lemma free_word_in c (fr : list Z) :
  0 <= c < 10 -> (forall i, i ∈ fr -> 0 <= i < ocount c) ->
  forall i, i ∈ fr -> 0 <= i * osize c /\ i * osize c + 4 <= 4096.
Proof.
  intros Hc Hfr i Hi. pose proof (object_in_slab c i Hc (Hfr i Hi)).
  pose proof (osize_bounds c Hc). lia.
Qed.

(** The free list does not run through an object that is handed out. *)
Lemma chain_other m m' memory c i fr :
  0 <= c < 10 -> i ∉ fr -> (forall j, j ∈ fr -> 0 <= j < ocount c) ->
  (forall x, memory <= x < memory + 4096 ->
     x < memory + i * osize c \/ memory + i * osize c + osize c <= x -> byte_at m' x = byte_at m x) ->
  chain m memory (osize c) fr -> chain m' memory (osize c) fr.
Proof.
  intros Hc Hni Hfr Hs. pose proof (osize_bounds c Hc).
  induction fr as [|j fr IH]; intros A; [done|]. destruct A as [Hj A].
  pose proof (object_in_slab c j Hc (Hfr j ltac:(set_solver))). split.
  - rewrite <- Hj. apply mload_ext. intros x Hx. apply Hs; [lia|].
    destruct (objects_apart c i j Hc); [set_solver|lia|lia].
  - apply IH; [set_solver|set_solver|done].
Qed.

Lemma slab_at_ext m m' s c n fr :
  0 <= c < 10 -> (forall i, i ∈ fr -> 0 <= i < ocount c) ->
  same_bytes s 4136 m m' -> slab_at caches m s c n fr -> slab_at caches m' s c n fr.
Proof.
  intros Hc Hfr Hs (H1 & H2 & H3 & H4 & H5 & H6). repeat split.
  1-5: etransitivity; [apply mload_ext; eapply same_bytes_sub; [exact Hs|zoffs|zoffs] | eassumption].
  eapply (chain_ext m); [eapply same_bytes_sub; [exact Hs| |] | |done].
  3: apply (free_word_in c fr Hc Hfr).
  all: zoffs.
Qed.

(** A block is held by its own bytes. *)
Lemma block_at_ext m m' b sz k :
  valid sz k -> same_bytes b sz m m' -> block_at caches m b sz k -> block_at caches m' b sz k.
Proof.
  intros [Hsz Hk] Hs [H0 Hb].
  assert (forall w o, 0 <= o -> o + Z.of_nat w <= 32 -> mload w m' (b + o) = mload w m (b + o)) as Hl.
  { intros w o Ho Hw. apply mload_ext. eapply same_bytes_sub; [exact Hs| |]; lia. }
  split; [rewrite Hl by zoffs; done|]. destruct k as [n p| |c n fr].
  - destruct Hb as (? & ? & ?). rewrite !Hl by zoffs. done.
  - rewrite Hl by zoffs. done.
  - destruct Hb as [Hm Ha], Hk as (? & Hc & Hnd & Hfr). split; [rewrite Hl by zoffs; done|].
    eapply slab_at_ext; [done|done| |done]. eapply same_bytes_sub; [exact Hs| |]; zoffs.
Qed.

(** Two blocks do not overlap. *)
Lemma blocks_apart H b sz k b' sz' k' :
  layout base lim H -> H !! b = Some (sz, k) -> H !! b' = Some (sz', k') -> b <> b' ->
  b + sz <= b' \/ b' + sz' <= b.
Proof.
  intros HL Hb Hb' Hne. destruct (Z.lt_total b b') as [?|[?|?]]; [left|done|right].
  - eapply l_disj; eauto.
  - eapply l_disj; eauto.
Qed.

(** Changing the bytes and the description of one block. *)
Lemma rep_update H m m' b sz k k' :
  layout base lim H -> rep caches m H -> H !! b = Some (sz, k) ->
  (forall x, x < b \/ b + sz <= x -> byte_at m' x = byte_at m x) ->
  block_at caches m' b sz k' ->
  rep caches m' (<[b := (sz, k')]> H).
Proof.
  intros HL Hr Hb Hs Hat b2 sz2 k2 H2. destruct (decide (b2 = b)) as [->|Hne].
  - rewrite lookup_insert_eq in H2. by injection H2 as <- <-.
  - rewrite lookup_insert_ne in H2 by done. apply (block_at_ext m); [eapply l_valid; eauto| |auto].
    intros x Hx. apply Hs. destruct (blocks_apart H _ _ _ _ _ _ HL Hb H2); [done|lia|lia].
Qed.

Lemma layout_update H b sz k k' :
  layout base lim H -> H !! b = Some (sz, k) -> valid sz k' -> layout base lim (<[b := (sz, k')]> H).
Proof.
  intros HL Hb Hv.
  assert (forall b2 sz2 k2, <[b := (sz, k')]> H !! b2 = Some (sz2, k2) -> exists k3, H !! b2 = Some (sz2, k3)) as Hold.
  { intros b2 sz2 k2 H2. destruct (decide (b2 = b)) as [->|Hne].
    - rewrite lookup_insert_eq in H2. injection H2 as <- <-. eauto.
    - rewrite lookup_insert_ne in H2 by done. eauto. }
  split.
  - intros b2 sz2 k2 H2. destruct (decide (b2 = b)) as [->|Hne].
    + rewrite lookup_insert_eq in H2. by injection H2 as <- <-.
    + rewrite lookup_insert_ne in H2 by done. eapply l_valid; eauto.
  - intros b2 sz2 k2 [k3 H2]%Hold. eapply l_range; eauto.
  - intros b2 sz2 k2 [k3 H2]%Hold. eapply l_align; eauto.
  - intros b2 sz2 k2 b3 sz3 k3 [? H2]%Hold [? H3]%Hold. eapply l_disj; eauto.
  - intros b2 sz2 k2 [k3 H2]%Hold. destruct (l_tile _ _ _ HL _ _ _ H2) as [?|[y Hy]]; [by left|right].
    destruct (decide (b2 + sz2 = b)) as [->|]; [rewrite lookup_insert_eq|rewrite lookup_insert_ne by done]; eauto.
Qed.

(** ** Lists and updates *)
Lemma dll_ext H H' p l nx :
  (forall b sz n q, b ∈ l -> H !! b = Some (sz, Free n q) -> exists sz', H' !! b = Some (sz', Free n q)) ->
  dll H p l nx -> dll H' p l nx.
Proof.
  revert p; induction l as [|b l IH]; intros p He; [done|]. intros [[sz Hb] Hd]. split.
  - destruct (He b sz _ _ ltac:(set_solver) Hb) as [sz' ?]. eauto.
  - apply IH; [|done]. intros. eapply He; [set_solver|done].
Qed.

Lemma dll_insert_ne H p l nx b x : b ∉ l -> dll H p l nx -> dll (<[b := x]> H) p l nx.
Proof.
  intros Hb. apply dll_ext. intros b' sz n q Hin Hl. exists sz.
  rewrite lookup_insert_ne by (intros ->; done). done.
Qed.

Lemma dll_app H p l1 l2 nx :
  dll H p (l1 ++ l2) nx <-> dll H p l1 (hd nx l2) /\ dll H (last_or p l1) l2 nx.
Proof.
  revert p; induction l1 as [|b l1 IH]; intros p; cbn [app dll last_or]; [tauto|].
  rewrite IH. replace (hd nx (l1 ++ l2)) with (hd (hd nx l2) l1) by (by destruct l1). tauto.
Qed.

Lemma dll_lookup H p l nx b :
  dll H p l nx -> b ∈ l -> exists sz n q, H !! b = Some (sz, Free n q).
Proof.
  revert p; induction l as [|b' l IH]; intros p Hd Hin; [set_solver|]. destruct Hd as [[sz Hb] Hd].
  apply elem_of_cons in Hin as [->|Hin]; eauto.
Qed.

Lemma last_or_app p l x : last_or p (l ++ [x]) = x.
Proof. revert p; induction l as [|y l IH]; intros p; [done|apply IH]. Qed.

(** Redirecting the end of a segment, and its beginning. *)
Lemma dll_set_last H p l a nx nx' sz q :
  NoDup (l ++ [a]) -> dll H p (l ++ [a]) nx -> H !! a = Some (sz, Free nx q) ->
  dll (<[a := (sz, Free nx' q)]> H) p (l ++ [a]) nx'.
Proof.
  intros (_ & Ha & _)%NoDup_app [Hl Hd]%dll_app Hq. apply dll_app. split.
  - apply dll_insert_ne; [set_solver|done].
  - destruct Hd as [[sz' Hd] _]. split; [|done]. rewrite Hq in Hd. injection Hd as <- <-.
    exists sz. rewrite lookup_insert_eq. done.
Qed.

Lemma dll_set_first H p p' l a nx sz n :
  NoDup (a :: l) -> dll H p (a :: l) nx -> H !! a = Some (sz, Free n p) ->
  dll (<[a := (sz, Free n p')]> H) p' (a :: l) nx.
Proof.
  intros [Ha _]%NoDup_cons [[sz' Hd] Hl] Hq. rewrite Hq in Hd. injection Hd as <- ->. split.
  - exists sz. rewrite lookup_insert_eq. done.
  - apply dll_insert_ne; done.
Qed.

Lemma slab_list_ext H H' c l :
  (forall s sz n fr, s ∈ l -> H !! (s - sizeof_block) = Some (sz, SlabOf c n fr) ->
     exists sz' fr', H' !! (s - sizeof_block) = Some (sz', SlabOf c n fr')) ->
  slab_list H c l -> slab_list H' c l.
Proof.
  induction l as [|s l IH]; intros He; [done|]. intros [(sz & fr & Hs) Hd]. split.
  - eapply He; [set_solver|done].
  - apply IH; [|done]. intros. eapply He; [set_solver|done].
Qed.

Lemma slab_list_lookup H c l s :
  slab_list H c l -> s ∈ l -> exists sz n fr, H !! (s - sizeof_block) = Some (sz, SlabOf c n fr).
Proof.
  induction l as [|s' l IH]; intros Hd Hin; [set_solver|]. destruct Hd as [(sz & fr & Hb) Hd].
  apply elem_of_cons in Hin as [->|Hin]; eauto.
Qed.

(** A list of blocks is shorter than the fuel of the loops. *)
Lemma blocks_fuel H l :
  layout base lim H -> NoDup l -> (forall b, b ∈ l -> is_Some (H !! b)) ->
  Z.of_nat (length l) <= Z.max 0 ((lim - base) / 32).
Proof.
  intros HL Hnd Hin. set (f := fun b => (b - base) / 32).
  assert (NoDup (f <$> l)) as Hf.
  { apply NoDup_fmap_2_strong; [|done]. intros b b' Hb Hb' Heq.
    destruct (Hin b Hb) as [[sz k] Hk], (Hin b' Hb') as [[sz' k'] Hk'].
    destruct (decide (b = b')) as [|Hne]; [done|exfalso].
    destruct (l_valid _ _ _ HL _ _ _ Hk) as [? _], (l_valid _ _ _ HL _ _ _ Hk') as [? _].
    unfold f in Heq. pose proof (Z.div_mod (b - base) 32). pose proof (Z.div_mod (b' - base) 32).
    pose proof (Z.mod_pos_bound (b - base) 32). pose proof (Z.mod_pos_bound (b' - base) 32).
    destruct (blocks_apart H _ _ _ _ _ _ HL Hk Hk' Hne); lia. }
  assert (f <$> l ⊆+ seqZ 0 ((lim - base) / 32)) as Hsub.
  { apply NoDup_submseteq; [done|]. intros x (b & -> & Hb)%list_elem_of_fmap.
    destruct (Hin b Hb) as [[sz k] Hk]. pose proof (l_range _ _ _ HL _ _ _ Hk).
    destruct (l_valid _ _ _ HL _ _ _ Hk) as [? _]. apply elem_of_seqZ. unfold f. split.
    - apply Z.div_pos; lia.
    - apply Z.div_lt_upper_bound; [lia|]. pose proof (Z.div_mod (lim - base) 32).
      pose proof (Z.mod_pos_bound (lim - base) 32). lia. }
  apply submseteq_length in Hsub. rewrite length_fmap, length_seqZ in Hsub. lia.
Qed.

(** ** Objects *)
Lemma object_in_block H p cap :
  layout base lim H -> object H p cap ->
  exists b sz k, H !! b = Some (sz, k) /\ b + 32 <= p /\ p + cap <= b + sz /\ 8 <= cap /\ (8 | p) /\
    match k with Free _ _ => False | Large => p = b + 32 | SlabOf _ _ _ => b + 72 <= p end.
Proof.
  intros HL [(b & sz & Hb & -> & ->)|(b & sz & c & n & fr & i & Hb & Hi & Hn & -> & ->)].
  - destruct (l_valid _ _ _ HL _ _ _ Hb) as [? _]. pose proof (l_align _ _ _ HL _ _ _ Hb) as [q Hq].
    exists b, sz, Large. split_and!; try done; try zoffs. exists (q + 4). zoffs.
  - destruct (l_valid _ _ _ HL _ _ _ Hb) as [_ (? & Hc & _)]. pose proof (l_align _ _ _ HL _ _ _ Hb) as [q Hq].
    pose proof (object_in_slab c i Hc Hi). pose proof (osize_bounds c Hc).
    destruct (osize_div8 c Hc) as [r Hr].
    exists b, sz, (SlabOf c n fr). split_and!; try done; try zoffs. exists (q + 9 + i * r). zoffs.
Qed.

Lemma objects_disjoint H p cap q cap' :
  layout base lim H -> object H p cap -> object H q cap' -> p <> q ->
  p + cap <= q \/ q + cap' <= p.
Proof.
  intros HL Hp Hq Hne.
  destruct (object_in_block H p cap HL Hp) as (b & sz & k & Hb & ? & ? & ? & _ & Hk).
  destruct (object_in_block H q cap' HL Hq) as (b' & sz' & k' & Hb' & ? & ? & ? & _ & Hk').
  destruct (decide (b = b')) as [<-|Hbb].
  2:{ destruct (blocks_apart H _ _ _ _ _ _ HL Hb Hb' Hbb); lia. }
  rewrite Hb in Hb'. injection Hb' as <- <-.
  destruct k as [| |c n fr]; [done|lia|].
  assert (forall p cap, object H p cap -> b + 32 <= p -> p + cap <= b + sz -> 8 <= cap ->
    exists i, p = b + 72 + i * osize c /\ cap = osize c) as Hidx.
  { intros p0 cap0 [(b1 & sz1 & Hb1 & -> & ->)|(b1 & sz1 & c1 & n1 & fr1 & i & Hb1 & Hi & Hn & -> & ->)] ? ? ?.
    - exfalso. destruct (decide (b = b1)) as [<-|Hbb]; [congruence|].
      destruct (blocks_apart H _ _ _ _ _ _ HL Hb Hb1 Hbb); zoffs.
    - destruct (decide (b = b1)) as [<-|Hbb].
      + rewrite Hb in Hb1. injection Hb1 as <- <- <- <-. exists i. split; [zoffs|done].
      + exfalso. destruct (l_valid _ _ _ HL _ _ _ Hb1) as [_ (? & Hc & _)].
        pose proof (object_in_slab c1 i Hc Hi).
        destruct (blocks_apart H _ _ _ _ _ _ HL Hb Hb1 Hbb); zoffs. }
  destruct (Hidx p cap Hp) as (i & -> & ->); [done..|]. destruct (Hidx q cap' Hq) as (j & -> & ->); [done..|].
  destruct (l_valid _ _ _ HL _ _ _ Hb) as [_ (_ & Hc & _)].
  destruct (objects_apart c i j Hc); [congruence|lia|lia].
Qed.

(** An object belongs to one block only and has one size. *)
Lemma object_cap_unique H p cap cap' :
  layout base lim H -> object H p cap -> object H p cap' -> cap = cap'.
Proof.
  intros HL Hp Hq.
  destruct (object_in_block H p cap HL Hp) as (b & sz & k & Hb & ? & ? & ? & _ & Hk).
  destruct Hp as [(b1 & sz1 & Hb1 & E1 & ->)|(b1 & sz1 & c1 & n1 & fr1 & i & Hb1 & Hi & Hn & E1 & ->)];
  destruct Hq as [(b2 & sz2 & Hb2 & E2 & ->)|(b2 & sz2 & c2 & n2 & fr2 & j & Hb2 & Hj & Hn2 & E2 & ->)].
  all: destruct (decide (b1 = b2)) as [<-|Hbb]; [rewrite Hb1 in Hb2; by simplify_eq|exfalso].
  all: destruct (l_valid _ _ _ HL _ _ _ Hb1) as [? Hv1], (l_valid _ _ _ HL _ _ _ Hb2) as [? Hv2].
  all: try (destruct Hv1 as (? & Hc1 & _); pose proof (object_in_slab c1 i Hc1 Hi); pose proof (osize_bounds c1 Hc1)).
  all: try (destruct Hv2 as (? & Hc2 & _); pose proof (object_in_slab c2 j Hc2 Hj); pose proof (osize_bounds c2 Hc2)).
  all: destruct (blocks_apart H _ _ _ _ _ _ HL Hb1 Hb2 Hbb); zoffs.
Qed.

(** Writing into an object leaves the allocator's data alone. *)
Lemma object_write H m p cap bs off :
  layout base lim H -> rep caches m H -> object H p cap ->
  p <= off -> off + Z.of_nat (length bs) <= p + cap ->
  rep caches (mwrite m off bs) H.
Proof.
  intros HL Hr Ho Hlo Hhi.
  destruct (object_in_block H p cap HL Ho) as (b & sz & k & Hb & Hp & Hpc & _ & _ & Hk).
  rewrite <- (insert_id H b (sz, k)) by done. eapply rep_update; [done|done|done| |].
  { intros x Hx. apply byte_at_mwrite_out. lia. }
  destruct (Hr _ _ _ Hb) as [H0 Hat]. destruct k as [|  |c n fr]; [done| |].
  - split; rewrite mload_ext with (m := m) by (apply same_bytes_mwrite; zoffs); done.
  - destruct Ho as [(b1 & sz1 & Hb1 & -> & ->)|(b1 & sz1 & c1 & n1 & fr1 & i & Hb1 & Hi & Hn & -> & ->)].
    { exfalso. destruct (decide (b = b1)) as [<-|Hbb]; [congruence|].
      destruct (l_valid _ _ _ HL _ _ _ Hb1).
      destruct (blocks_apart H _ _ _ _ _ _ HL Hb Hb1 Hbb); zoffs. }
    destruct (l_valid _ _ _ HL _ _ _ Hb1) as [_ (? & Hc1 & _)]. pose proof (object_in_slab c1 i Hc1 Hi).
    pose proof (osize_bounds c1 Hc1).
    destruct (decide (b = b1)) as [<-|Hbb].
    2:{ exfalso. destruct (blocks_apart H _ _ _ _ _ _ HL Hb Hb1 Hbb); zoffs. }
    rewrite Hb in Hb1. injection Hb1 as <- <- <- <-. clear Hk.
    destruct Hat as (Hm & A1 & A2 & A3 & A4 & A5 & A6).
    split; [|split; [|repeat split]].
    1-7: rewrite mload_ext with (m := m) by (apply same_bytes_mwrite; zoffs); done.
    destruct (l_valid _ _ _ HL _ _ _ Hb) as [_ (_ & _ & _ & Hfr)].
    eapply (chain_other m); [done|exact Hn|exact Hfr| |done].
    intros x Hx Hx2. apply byte_at_mwrite_out. zoffs.
Qed.

Lemma heap_keeps_refl m H : keeps m H m H.
Proof. intros p cap Hp. split; [done|apply same_bytes_refl]. Qed.
Lemma heap_keeps_trans m1 H1 m2 H2 m3 H3 : keeps m1 H1 m2 H2 -> keeps m2 H2 m3 H3 -> keeps m1 H1 m3 H3.
Proof.
  intros A B p cap Hp. destruct (A p cap Hp) as [Hp' Hs]. destruct (B p cap Hp') as [Hp'' Hs'].
  split; [done|]. eapply same_bytes_trans; eauto.
Qed.
End frames.
