(* ===== verification/KallocLarge.v ===== *)
(** * Large blocks: best fit, split, unlink, free (kernel/kalloc.c)

    The functions that keep the list of free blocks, specified by what they
    do to the map of blocks.  [wp e Q s]: the computation [e] ends from [s]
    with a result and state that satisfy [Q]. *)
From Stdlib Require Import ZArith Lia Znumtheory.
From stdpp Require Import gmap.
From S2P Require Import Prelude.
From S2P Require Import Memory.
From S2P Require Import Kalloc.
From S2P Require Import KallocHeap.
Open Scope Z_scope.

(** ** Computations *)
Definition wp {A} (e : M A) (Q : A -> kalloc_t -> Prop) (s : kalloc_t) : Prop :=
  match e s with Some (x, s') => Q x s' | None => False end.

Lemma wp_bind {A B} (e : M A) (f : A -> M B) Q s : wp e (fun x => wp (f x) Q) s -> wp (bind e f) Q s.
Proof. unfold wp, bind. destruct (e s) as [[x s']|]; done. Qed.
Lemma wp_mono {A} (e : M A) (Q Q' : A -> kalloc_t -> Prop) s :
  (forall x s', Q x s' -> Q' x s') -> wp e Q s -> wp e Q' s.
Proof. unfold wp. destruct (e s) as [[x s']|]; auto. Qed.
Lemma wp_ret {A} (x : A) Q s : Q x s -> wp (ret x) Q s.
Proof. done. Qed.
Lemma wp_get {A} (f : kalloc_t -> A) Q s : Q (f s) s -> wp (get f) Q s.
Proof. done. Qed.
Lemma wp_modify f Q s : Q tt (f s) -> wp (modify f) Q s.
Proof. done. Qed.
Lemma wp_load64 a Q s : Q (mload 8 (mem s) a) s -> wp (load64 a) Q s.
Proof. done. Qed.
Lemma wp_load32 a Q s : Q (mload 4 (mem s) a) s -> wp (load32 a) Q s.
Proof. done. Qed.
Lemma wp_store64 a v Q s : Q tt (with_mem (mstore 8 (mem s) a v) s) -> wp (store64 a v) Q s.
Proof. done. Qed.
Lemma wp_store32 a v Q s : Q tt (with_mem (mstore 4 (mem s) a v) s) -> wp (store32 a v) Q s.
Proof. done. Qed.
Lemma wp_elim {A} (e : M A) Q s : wp e Q s -> exists x s', e s = Some (x, s') /\ Q x s'.
Proof. unfold wp. destruct (e s) as [[x s']|]; [eauto|done]. Qed.

(** Run the computation up to the next loop, conditional or call. *)
Ltac wp_step :=
  lazymatch goal with
  | |- wp (bind _ _) _ _ => apply wp_bind
  | |- wp (get _) _ _ => apply wp_get
  | |- wp (modify _) _ _ => apply wp_modify
  | |- wp (load64 _) _ _ => apply wp_load64
  | |- wp (load32 _) _ _ => apply wp_load32
  | |- wp (store64 _ _) _ _ => apply wp_store64
  | |- wp (store32 _ _) _ _ => apply wp_store32
  | |- wp (ret _) _ _ => apply wp_ret
  end.
Ltac wp_go := repeat (wp_step; cbv beta).

Lemma with_mem_mem m s : mem (with_mem m s) = m.
Proof. done. Qed.
Lemma with_mem_twice m m' s : with_mem m (with_mem m' s) = with_mem m s.
Proof. done. Qed.
Lemma with_mem_id s : with_mem (mem s) s = s.
Proof. by destruct s. Qed.

(** ** The bytes and the map of blocks *)
Record held (base lim caches : Z) (m : gmap Z byte) (H : gmap Z (Z * block_t)) : Prop := {
  h_base : 0 < base;
  h_lim : lim + 32 <= 2 ^ 64;
  h_layout : layout base lim H;
  h_rep : rep caches m H }.

Definition is_free (k : block_t) : Prop := match k with Free _ _ => True | _ => False end.

(** Only free blocks change. *)
Definition frees_only (m : gmap Z byte) (H : gmap Z (Z * block_t)) (m' : gmap Z byte) (H' : gmap Z (Z * block_t)) : Prop :=
  forall b sz k, ~ is_free k ->
    (H !! b = Some (sz, k) <-> H' !! b = Some (sz, k)) /\
    (H !! b = Some (sz, k) -> same_bytes b sz m m').

Lemma frees_only_refl m H : frees_only m H m H.
Proof. intros b sz k Hk. split; [done|]. intros _. apply same_bytes_refl. Qed.
Lemma frees_only_trans m1 H1 m2 H2 m3 H3 :
  frees_only m1 H1 m2 H2 -> frees_only m2 H2 m3 H3 -> frees_only m1 H1 m3 H3.
Proof.
  intros A B b sz k Hk. destruct (A b sz k Hk) as [A1 A2], (B b sz k Hk) as [B1 B2]. split; [by rewrite A1|].
  intros Hb. eapply same_bytes_trans; [auto|]. apply B2, A1, Hb.
Qed.

Lemma frees_only_slabs m H m' H' : frees_only m H m' H' -> slabs_kept H H'.
Proof. intros A b sz c n fr. apply A. cbn. tauto. Qed.

Lemma frees_only_objects m H m' H' p cap : frees_only m H m' H' -> object H p cap <-> object H' p cap.
Proof.
  intros A. unfold object.
  assert (forall b sz, H !! b = Some (sz, Large) <-> H' !! b = Some (sz, Large)) as HL.
  { intros. apply A. cbn. tauto. }
  assert (forall b sz c n fr, H !! b = Some (sz, SlabOf c n fr) <-> H' !! b = Some (sz, SlabOf c n fr)) as HS.
  { intros. apply A. cbn. tauto. }
  setoid_rewrite HL. setoid_rewrite HS. done.
Qed.

Lemma frees_only_keeps base lim m H m' H' :
  layout base lim H -> frees_only m H m' H' -> keeps m H m' H'.
Proof.
  intros HL A p cap Ho. split; [by apply (frees_only_objects m H m' H')|].
  destruct (object_in_block H p cap HL Ho) as (b & sz & k & Hb & ? & ? & _ & _ & Hk).
  eapply (same_bytes_sub b sz); [|lia|lia]. apply (A b sz k); [|done]. destruct k; cbn; tauto.
Qed.

(** A load from stores of constant-offset fields. *)
Ltac ldst :=
  repeat first
    [ rewrite mload_mstore by assumption
    | rewrite mload_mstore_ne by zoffs ].

Section held.
Context {base lim caches : Z}.
Implicit Types H : gmap Z (Z * block_t).
Abbreviation held := (held base lim caches) (only parsing).

Lemma held_addr m H b sz k :
  held m H -> H !! b = Some (sz, k) -> 0 < b /\ 40 <= sz /\ b + sz + 32 <= 2 ^ 64 /\ b + sz <= lim /\ base <= b.
Proof.
  intros [Hb Hl HL Hr] Hk. pose proof (l_range _ _ _ HL _ _ _ Hk).
  destruct (l_valid _ _ _ HL _ _ _ Hk) as [? _]. lia.
Qed.

Lemma fits_addr a : 0 <= a < 2 ^ 64 -> fits 8 a.
Proof. done. Qed.

(** Changing the bytes of a free block, and with them its links. *)
Lemma free_change m m' H b sz n p n' p' :
  held m H -> H !! b = Some (sz, Free n p) ->
  (forall x, x < b \/ b + sz <= x -> byte_at m' x = byte_at m x) ->
  block_at caches m' b sz (Free n' p') ->
  held m' (<[b := (sz, Free n' p')]> H) /\ frees_only m H m' (<[b := (sz, Free n' p')]> H).
Proof.
  intros Hh Hb Hs Hat. destruct Hh as [? ? HL Hr]. split.
  - split; [done|done| |].
    + eapply layout_update; [done|done|]. by destruct (l_valid _ _ _ HL _ _ _ Hb).
    + eapply rep_update; done.
  - intros b2 sz2 k2 Hk. split.
    + destruct (decide (b2 = b)) as [->|]; [|by rewrite lookup_insert_ne].
      rewrite Hb, lookup_insert_eq. split; intros [= <- <-]; cbn in Hk; tauto.
    + intros H4 x Hx. apply Hs.
      assert (b2 <> b) as Hne by (intros ->; rewrite Hb in H4; injection H4 as <- <-; cbn in Hk; tauto).
      destruct (blocks_apart H _ _ _ _ _ _ HL H4 Hb Hne); lia.
Qed.

Ltac one_store := let x := fresh "x" in intros x ?; apply (same_bytes_mstore x 1); zoffs.

Lemma set_next m H b sz n n' p :
  held m H -> H !! b = Some (sz, Free n p) -> fits 8 n' ->
  held (mstore 8 m (b + Block.next) n') (<[b := (sz, Free n' p)]> H) /\
  frees_only m H (mstore 8 m (b + Block.next) n') (<[b := (sz, Free n' p)]> H).
Proof.
  intros Hh Hb Hn. pose proof (held_addr _ _ _ _ _ Hh Hb). destruct (h_rep _ _ _ _ _ Hh _ _ _ Hb) as (F0 & F1 & F2 & F3).
  eapply free_change; [done|done|one_store|]. repeat split; ldst; done.
Qed.

Lemma set_prev m H b sz n p p' :
  held m H -> H !! b = Some (sz, Free n p) -> fits 8 p' ->
  held (mstore 8 m (b + Block.prev) p') (<[b := (sz, Free n p')]> H) /\
  frees_only m H (mstore 8 m (b + Block.prev) p') (<[b := (sz, Free n p')]> H).
Proof.
  intros Hh Hb Hn. pose proof (held_addr _ _ _ _ _ Hh Hb). destruct (h_rep _ _ _ _ _ Hh _ _ _ Hb) as (F0 & F1 & F2 & F3).
  eapply free_change; [done|done|one_store|]. repeat split; ldst; done.
Qed.

(** Writing behind the header of a free block. *)
Lemma set_inside m H b sz n p w a v :
  held m H -> H !! b = Some (sz, Free n p) -> b + 32 <= a -> a + Z.of_nat w <= b + sz ->
  held (mstore w m a v) H /\ frees_only m H (mstore w m a v) H.
Proof.
  intros Hh Hb Hlo Hhi. destruct (h_rep _ _ _ _ _ Hh _ _ _ Hb) as (F0 & F1 & F2 & F3).
  enough (held (mstore w m a v) (<[b := (sz, Free n p)]> H) /\
    frees_only m H (mstore w m a v) (<[b := (sz, Free n p)]> H)) as E by by rewrite insert_id in E.
  eapply free_change; [done|done|one_store|]. repeat split; ldst; done.
Qed.

(** Cutting a free block in two: the second half has its header already. *)
Section cut.
Variables (H : gmap Z (Z * block_t)) (b sz n p total n2 p2 : Z).
Hypotheses (HL : layout base lim H) (Hb : H !! b = Some (sz, Free n p)).
Hypotheses (Hdiv : (8 | total)) (Ht : 40 <= total) (Hsz : total + 40 <= sz).
Let H' := <[b + total := (sz - total, Free n2 p2)]> (<[b := (total, Free n p)]> H).

Lemma cut_apart b2 sz2 k2 :
  H !! b2 = Some (sz2, k2) -> b2 <> b -> 40 <= sz2 /\ (b2 + sz2 <= b \/ b + sz <= b2).
Proof.
  intros Hb2 Hne. destruct (l_valid _ _ _ HL _ _ _ Hb2).
  destruct (blocks_apart H _ _ _ _ _ _ HL Hb2 Hb Hne); lia.
Qed.

Lemma cut_cases b2 sz2 k2 :
  H' !! b2 = Some (sz2, k2) ->
  (b2 = b + total /\ sz2 = sz - total /\ k2 = Free n2 p2) \/
  (b2 = b /\ sz2 = total /\ k2 = Free n p) \/
  (b2 <> b /\ b2 <> b + total /\ H !! b2 = Some (sz2, k2) /\ 40 <= sz2 /\ (b2 + sz2 <= b \/ b + sz <= b2)).
Proof.
  intros Hb2. unfold H' in Hb2. destruct (decide (b2 = b + total)) as [->|Hn1].
  { rewrite lookup_insert_eq in Hb2. injection Hb2 as <- <-. auto. }
  rewrite lookup_insert_ne in Hb2 by done. destruct (decide (b2 = b)) as [->|Hn2].
  { rewrite lookup_insert_eq in Hb2. injection Hb2 as <- <-. auto. }
  rewrite lookup_insert_ne in Hb2 by done. pose proof (cut_apart _ _ _ Hb2 Hn2). auto 6.
Qed.

Lemma cut_fresh : H !! (b + total) = None.
Proof.
  destruct (H !! (b + total)) as [[sz2 k2]|] eqn:E; [exfalso|done].
  destruct (cut_apart _ _ _ E); lia.
Qed.

Lemma cut_layout : layout base lim H'.
Proof.
  destruct Hdiv as [q Hq]. pose proof (l_align _ _ _ HL _ _ _ Hb) as [r Hr8].
  pose proof (l_range _ _ _ HL _ _ _ Hb) as Hrg. split.
  - intros b2 sz2 k2 [(-> & -> & ->)|[(-> & -> & ->)|(? & ? & Hb2 & _)]]%cut_cases; [split; [lia|done]..|].
    eapply l_valid; eauto.
  - intros b2 sz2 k2 [(-> & -> & ->)|[(-> & -> & ->)|(? & ? & Hb2 & _)]]%cut_cases; [lia..|].
    eapply l_range; eauto.
  - intros b2 sz2 k2 [(-> & -> & ->)|[(-> & -> & ->)|(? & ? & Hb2 & _)]]%cut_cases.
    + exists (r + q). lia.
    + exists r. done.
    + eapply l_align; eauto.
  - intros b2 sz2 k2 b3 sz3 k3 C2%cut_cases C3%cut_cases Hlt.
    destruct C2 as [(-> & -> & ->)|[(-> & -> & ->)|(? & ? & Hb2 & ? & ?)]];
      destruct C3 as [(-> & -> & ->)|[(-> & -> & ->)|(? & ? & Hb3 & ? & ?)]]; try lia.
    eapply l_disj; eauto.
  - assert (forall x, is_Some (H !! x) -> is_Some (H' !! x)) as Hsome.
    { intros x [y Hx]. unfold H'. destruct (decide (x = b + total)) as [->|]; [rewrite lookup_insert_eq; eauto|].
      rewrite lookup_insert_ne by done. destruct (decide (x = b)) as [->|]; [rewrite lookup_insert_eq; eauto|].
      rewrite lookup_insert_ne by done. eauto. }
    intros b2 sz2 k2 [(-> & -> & ->)|[(-> & -> & ->)|(? & ? & Hb2 & _)]]%cut_cases.
    + replace (b + total + (sz - total)) with (b + sz) by lia.
      destruct (l_tile _ _ _ HL _ _ _ Hb); auto.
    + right. unfold H'. rewrite lookup_insert_eq. eauto.
    + destruct (l_tile _ _ _ HL _ _ _ Hb2); auto.
Qed.

Lemma cut_held m :
  held m H -> block_at caches m (b + total) (sz - total) (Free n2 p2) ->
  held (mstore 8 m (b + Block.size) total) H' /\ frees_only m H (mstore 8 m (b + Block.size) total) H'.
Proof.
  intros Hh Hat. pose proof (held_addr _ _ _ _ _ Hh Hb). destruct Hh as [? ? _ Hr].
  destruct (Hr _ _ _ Hb) as (F0 & F1 & F2 & F3).
  split; [split; [done|done|apply cut_layout|]|].
  - intros b2 sz2 k2 [(-> & -> & ->)|[(-> & -> & ->)|(? & ? & Hb2 & ? & ?)]]%cut_cases.
    + eapply block_at_ext; [split; [lia|done]| |done]. apply same_bytes_mstore. zoffs.
    + repeat split; ldst; try done. rewrite mload_mstore; [done|split; zoffs].
    + eapply block_at_ext; [eapply l_valid; eauto| |eauto]. apply same_bytes_mstore. zoffs.
  - intros b2 sz2 k2 Hk. split.
    + split.
      * intros Hb2. unfold H'. pose proof cut_fresh. rewrite lookup_insert_ne by congruence.
        rewrite lookup_insert_ne; [done|]. intros ->. rewrite Hb in Hb2. injection Hb2 as <- <-. cbn in Hk. tauto.
      * intros [(-> & -> & ->)|[(-> & -> & ->)|(? & ? & Hb2 & _)]]%cut_cases; [cbn in Hk; tauto..|done].
    + intros Hb2. assert (b2 <> b) as Hne by (intros ->; rewrite Hb in Hb2; injection Hb2 as <- <-; cbn in Hk; tauto).
      apply same_bytes_mstore. destruct (cut_apart _ _ _ Hb2 Hne); zoffs.
Qed.
End cut.

(** A free block taken off the list and marked becomes a large allocation. *)
Lemma mark_large m H b sz n p :
  held m H -> H !! b = Some (sz, Free n p) ->
  let m' := mstore 4 m (b + Block.magic) KALLOC_FREE_MAGIC in
  let H' := <[b := (sz, Large)]> H in
  held m' H' /\ keeps m H m' H' /\ slabs_kept H H' /\
  object H' (b + sizeof_block) (sz - sizeof_block) /\ (forall cap, ~ object H (b + sizeof_block) cap).
Proof.
  intros Hh Hb m' H'. pose proof (held_addr _ _ _ _ _ Hh Hb). destruct Hh as [? ? HL Hr].
  destruct (Hr _ _ _ Hb) as (F0 & F1 & F2 & F3).
  assert (forall b2 sz2 k2, ~ is_free k2 -> H !! b2 = Some (sz2, k2) -> H' !! b2 = Some (sz2, k2)) as Hold.
  { intros b2 sz2 k2 Hk H2. unfold H'. rewrite lookup_insert_ne; [done|]. intros ->. rewrite Hb in H2.
    injection H2 as <- <-. cbn in Hk. tauto. }
  assert (layout base lim H') as HL'.
  { eapply layout_update; [done|done|]. by destruct (l_valid _ _ _ HL _ _ _ Hb). }
  split_and!.
  - split; [done|done|done|]. eapply rep_update; [done|done|done|unfold m'; one_store|].
    split; unfold m'; ldst; [done|]. apply mload_mstore. by split; vm_compute.
  - intros q cap Ho. destruct (object_in_block H q cap HL Ho) as (b2 & sz2 & k2 & H2 & ? & ? & _ & _ & Hk2). split.
    + destruct Ho as [(b1 & sz1 & Hb1 & -> & ->)|(b1 & sz1 & c1 & n1 & fr1 & i & Hb1 & Hi)].
      * left. exists b1, sz1. split; [|done]. apply Hold; [cbn; tauto|done].
      * right. exists b1, sz1, c1, n1, fr1, i. split; [|done]. apply Hold; [cbn; tauto|done].
    + apply same_bytes_mstore. assert (b <> b2) as Hne by (intros <-; rewrite Hb in H2; by injection H2 as <- <-).
      destruct (blocks_apart H _ _ _ _ _ _ HL Hb H2 Hne); zoffs.
  - intros b2 sz2 c2 n2 fr2. split; [apply Hold; cbn; tauto|]. unfold H'.
    destruct (decide (b = b2)) as [<-|]; [by rewrite lookup_insert_eq|by rewrite lookup_insert_ne].
  - left. exists b, sz. unfold H'. rewrite lookup_insert_eq. done.
  - intros cap Ho. destruct (object_in_block H _ cap HL Ho) as (b2 & sz2 & k2 & H2 & ? & ? & ? & _ & Hk2).
    destruct (decide (b = b2)) as [<-|Hne]; [rewrite Hb in H2; by injection H2 as <- <-|].
    destruct (blocks_apart H _ _ _ _ _ _ HL Hb H2 Hne); zoffs.
Qed.

(** ** Best fit *)
Definition bsize H (b : Z) : Z := match H !! b with Some (sz, _) => sz | None => 0 end.
Definition better H (total best b : Z) : Z :=
  if total <=? bsize H b then
    if best =? 0 then b else if bsize H b <? bsize H best then b else best
  else best.

(** The best fit among the free blocks: large enough and no larger than any
    other that is, or nothing when none is large enough. *)
Definition best_fit H (total : Z) (l : list Z) (r : Z) : Prop :=
  (r = 0 /\ forall b, b ∈ l -> bsize H b < total) \/
  (r ∈ l /\ total <= bsize H r /\ forall b, b ∈ l -> total <= bsize H b -> bsize H r <= bsize H b).

Lemma fold_best_fit H total l :
  0 ∉ l -> best_fit H total l (fold_left (better H total) l 0).
Proof.
  enough (forall l2 l1 r, 0 ∉ l1 ++ l2 -> best_fit H total l1 r ->
    best_fit H total (l1 ++ l2) (fold_left (better H total) l2 r)) as Hg.
  { intros H0. apply (Hg l [] 0 H0). left. split; [done|set_solver]. }
  induction l2 as [|b l2 IH]; intros l1 r H0 Hr; [by rewrite app_nil_r|].
  cbn [fold_left]. rewrite cons_middle, app_assoc in *. apply IH; [done|].
  assert (b <> 0) by (intros ->; set_solver). unfold better.
  destruct (Z.leb_spec total (bsize H b)) as [Hfit|Hgt].
  2:{ destruct Hr as [[-> Hn]|(Hin & Ht & Hmin)]; [left|right].
      - split; [done|]. intros b' [Hx| ->%list_elem_of_singleton]%elem_of_app; auto.
      - split_and!; [set_solver|done|].
        intros b' [Hx| ->%list_elem_of_singleton]%elem_of_app Hle; [auto|lia]. }
  destruct (Z.eqb_spec r 0) as [->|Hr0].
  - right. destruct Hr as [[_ Hn]|(Hin & _)]; [|exfalso; set_solver].
    split_and!; [set_solver|done|]. intros b' [Hb'| ->%list_elem_of_singleton]%elem_of_app Hle; [|done].
    specialize (Hn b' Hb'). lia.
  - destruct Hr as [[-> _]|(Hin & Ht & Hmin)]; [done|]. right.
    destruct (Z.ltb_spec (bsize H b) (bsize H r)).
    + split_and!; [set_solver|done|]. intros b' [Hb'| ->%list_elem_of_singleton]%elem_of_app Hle; [|done].
      specialize (Hmin b' Hb'). lia.
    + split_and!; [set_solver|done|]. intros b' [Hb'| ->%list_elem_of_singleton]%elem_of_app Hle; [auto|lia].
Qed.

Lemma free_addr m H b sz k : held m H -> H !! b = Some (sz, k) -> (b =? 0) = false.
Proof. intros Hh Hb. pose proof (held_addr _ _ _ _ _ Hh Hb). apply Z.eqb_neq. lia. Qed.

Lemma hd_eqb m H p l nx : held m H -> dll H p l nx -> (hd 0 l =? 0) = match l with [] => true | _ => false end.
Proof. intros Hh Hd. destruct l as [|b l]; [done|]. destruct Hd as [[sz Hb] _]. eapply free_addr; eauto. Qed.

Lemma wp_find_best H total s p l fuel best :
  held (mem s) H -> dll H p l 0 -> (length l <= fuel)%nat -> (best = 0 \/ is_Some (H !! best)) ->
  wp (find_best fuel total (hd 0 l) best) (fun r s' => r = Some (fold_left (better H total) l best) /\ s' = s) s.
Proof.
  intros Hh. revert fuel p best. induction l as [|b l IH]; intros fuel p best Hd Hf Hbest.
  { destruct fuel; done. }
  destruct fuel as [|fuel]; cbn [length] in Hf; [lia|]. pose proof (hd_eqb _ _ _ _ _ Hh Hd) as E0.
  destruct Hd as [[sz Hb] Hd]. destruct (h_rep _ _ _ _ _ Hh _ _ _ Hb) as (F0 & F1 & F2 & F3).
  cbn [find_best fold_left hd] in *. rewrite E0. wp_go. rewrite F3, Z.eqb_refl. cbn [negb]. wp_go. rewrite F0.
  set (best' := better H total best b).
  assert (wp (if total <=? sz then if best =? 0 then ret b else
    bsize <- load64 (best + Block.size);; ret (if sz <? bsize then b else best) else ret best)%kalloc
    (fun r s' => r = best' /\ s' = s) s) as Hif.
  { unfold best', better, bsize at 1. rewrite Hb. destruct (total <=? sz); [|done].
    destruct (Z.eqb_spec best 0) as [->|Hne]; [done|]. destruct Hbest as [|[[szb kb] Hbb]]; [done|].
    wp_go. destruct (h_rep _ _ _ _ _ Hh _ _ _ Hbb) as [G0 _]. unfold bsize. rewrite G0, Hb, Hbb. done. }
  eapply wp_mono; [|exact Hif]. intros r s' [-> ->]. wp_go. rewrite F1. apply (IH fuel b); [done|lia|].
  unfold best', better. repeat case_match; try done; right; eauto.
Qed.

(** ** Splitting and unlinking *)
Definition on_list H (l : list Z) (s : kalloc_t) : Prop :=
  held (mem s) H /\ dll H 0 l 0 /\ NoDup l /\ large_free_list s = hd 0 l.

Lemma dll_middle H p l1 b l2 nx :
  dll H p (l1 ++ b :: l2) nx -> exists sz, H !! b = Some (sz, Free (hd nx l2) (last_or p l1)).
Proof. intros [_ [Hb _]]%dll_app. done. Qed.

Lemma dll_bounds m H p l nx :
  held m H -> fits 8 p -> dll H p l nx -> fits 8 (last_or p l) /\ fits 8 (hd 0 l).
Proof.
  intros Hh Hp Hd. split.
  - destruct l as [|b l _] using rev_ind; [done|]. rewrite last_or_app.
    apply dll_app in Hd as [_ [[sz Hb] _]]. pose proof (held_addr _ _ _ _ _ Hh Hb). split; lia.
  - destruct l as [|b l]; [done|]. destruct Hd as [[sz Hb] _].
    pose proof (held_addr _ _ _ _ _ Hh Hb). split; cbn [hd]; lia.
Qed.

(** No block appears. *)
Definition no_new H H' : Prop := forall x, is_Some (H' !! x) -> is_Some (H !! x).
Definition free_at H (x : Z) : Prop := exists sz n p, H !! x = Some (sz, Free n p).

Lemma no_new_refl H : no_new H H.
Proof. by intros x Hx. Qed.
Lemma no_new_trans H1 H2 H3 : no_new H1 H2 -> no_new H2 H3 -> no_new H1 H3.
Proof. intros A B x Hx. auto. Qed.
Lemma no_new_insert H b x : is_Some (H !! b) -> no_new H (<[b := x]> H).
Proof.
  intros Hb y. destruct (decide (y = b)) as [->|]; [done|]. by rewrite lookup_insert_ne.
Qed.

Lemma free_at_back m H m' H' x : frees_only m H m' H' -> no_new H H' -> free_at H' x -> free_at H x.
Proof.
  intros Hf Hn (sz & n & p & Hx). destruct (Hn x) as [[sz2 k] Hk]; [eauto|].
  destruct k as [n2 p2| |c n2 fr]; [repeat eexists; eauto| |].
  - destruct (Hf x sz2 Large) as [[Hf1 _] _]; [cbn; tauto|]. rewrite Hx in Hf1. by specialize (Hf1 Hk).
  - destruct (Hf x sz2 (SlabOf c n2 fr)) as [[Hf1 _] _]; [cbn; tauto|]. rewrite Hx in Hf1. by specialize (Hf1 Hk).
Qed.

(** The next block's back pointer is redirected to [p']. *)
Lemma relink_next m H l x p' :
  held m H -> fits 8 p' -> dll H x l 0 -> NoDup l ->
  let m' := if hd 0 l =? 0 then m else mstore 8 m (hd 0 l + Block.prev) p' in
  exists H',
    held m' H' /\ frees_only m H m' H' /\ no_new H H' /\ dll H' p' l 0 /\
    (forall b, b ∉ l -> H' !! b = H !! b) /\
    (forall b sz k, H !! b = Some (sz, k) -> b ∉ l -> same_bytes b sz m m').
Proof.
  intros Hh Hp Hd Hnd m'. pose proof (hd_eqb _ _ _ _ _ Hh Hd) as E. unfold m'. rewrite E. destruct l as [|n l].
  { exists H. split; [done|]. split; [apply frees_only_refl|]. split; [apply no_new_refl|]. split; [done|]. split; [done|].
    intros. apply same_bytes_refl. }
  destruct Hd as [[sz Hn] Hd]. cbn [hd] in *.
  destruct (set_prev m H n sz _ _ p' Hh Hn Hp) as [Hh' Hf].
  eexists. split_and!; [done|done|apply no_new_insert; eauto| | |].
  - eapply (dll_set_first _ x); [done|by split; [eauto|]|done].
  - intros b Hb. rewrite lookup_insert_ne; [done|]. intros ->. set_solver.
  - intros b sz2 k Hb Hnl. pose proof (held_addr _ _ _ _ _ Hh Hn). assert (b <> n) as Hne by set_solver.
    apply same_bytes_mstore. destruct (blocks_apart H _ _ _ _ _ _ (h_layout _ _ _ _ _ Hh) Hb Hn Hne); zoffs.
Qed.

(** The previous block, or the head of the list, is redirected to [n']. *)
Lemma relink_prev s H l x n' :
  held (mem s) H -> fits 8 n' -> dll H 0 l x -> NoDup l ->
  let s' := if last_or 0 l =? 0 then with_large n' s
            else with_mem (mstore 8 (mem s) (last_or 0 l + Block.next) n') s in
  exists H',
    s' = with_mem (mem s') (with_large (match l with [] => n' | _ => large_free_list s end) s) /\
    held (mem s') H' /\ frees_only (mem s) H (mem s') H' /\ no_new H H' /\ dll H' 0 l n' /\
    (forall b, b ∉ l -> H' !! b = H !! b).
Proof.
  intros Hh Hn Hd Hnd s'. destruct l as [|b l _] using rev_ind.
  { exists H. unfold s'. cbn [last_or Z.eqb].
    split; [done|]. split; [done|]. split; [apply frees_only_refl|]. split; [apply no_new_refl|]. done. }
  pose proof Hd as [_ [[sz Hb] _]]%dll_app. cbn [hd] in Hb.
  unfold s'. rewrite last_or_app, (free_addr _ _ _ _ _ Hh Hb).
  destruct (set_next (mem s) H b sz _ n' _ Hh Hb Hn) as [Hh' Hf].
  exists (<[b := (sz, Free n' (last_or 0 l))]> H).
  split_and!; [ |done|done|apply no_new_insert; eauto| |].
  - destruct (l ++ [b]) as [|? ?] eqn:E; [by destruct l|]. destruct s; done.
  - eapply dll_set_last; eauto.
  - intros c Hc. rewrite lookup_insert_ne; [done|]. intros ->. set_solver.
Qed.

Lemma hd_app_or l1 l2 : hd 0 (l1 ++ l2) = match l1 with [] => hd 0 l2 | a :: _ => a end.
Proof. by destruct l1. Qed.

Lemma wp_unlink s H l1 b l2 sz n p :
  on_list H (l1 ++ b :: l2) s -> H !! b = Some (sz, Free n p) ->
  wp (unlink_block b) (fun _ s' => exists H',
    on_list H' (l1 ++ l2) s' /\ H' !! b = Some (sz, Free n p) /\
    frees_only (mem s) H (mem s') H' /\ no_new H H' /\
    s' = with_mem (mem s') (with_large (hd 0 (l1 ++ l2)) s)) s.
Proof.
  intros (Hh & Hd & Hnd & Hhead) Hb.
  pose proof (dll_middle _ _ _ _ _ _ Hd) as [sz' Hb']. rewrite Hb in Hb'. injection Hb' as <- -> ->.
  apply dll_app in Hd as [Hd1 [_ Hd2]]. cbn [hd] in Hd1.
  apply NoDup_app in Hnd as (Hn1 & Hn12 & [Hbn Hn2]%NoDup_cons).
  assert (b ∉ l1) as Hb1 by (intros ?; eapply Hn12; [done|set_solver]).
  destruct (h_rep _ _ _ _ _ Hh _ _ _ Hb) as (F0 & F1 & F2 & F3).
  assert (fits 8 0) as H00 by (by split).
  assert (fits 8 (last_or 0 l1) /\ fits 8 (hd 0 l2)) as [Hf1 Hf2].
  { split; [apply (dll_bounds _ _ _ _ _ Hh H00 Hd1)|].
    apply (dll_bounds _ _ b _ 0 Hh); [|done]. pose proof (held_addr _ _ _ _ _ Hh Hb). split; lia. }
  unfold unlink_block. wp_go. rewrite F1, F2.
  destruct (relink_prev s H l1 b (hd 0 l2) Hh Hf2 Hd1 Hn1) as (H1 & Hs1 & Hh1 & Hfo1 & Hnn1 & Hdl1 & Hot1).
  set (s1 := if last_or 0 l1 =? 0 then _ else _) in *.
  assert (forall Q, Q tt s1 -> wp (if last_or 0 l1 =? 0 then modify (with_large (hd 0 l2))
    else store64 (last_or 0 l1 + Block.next) (hd 0 l2)) Q s) as Hw.
  { intros Q HQ. unfold s1 in HQ. destruct (last_or 0 l1 =? 0); wp_go; done. }
  apply Hw. wp_go. assert (H1 !! b = Some (sz, Free (hd 0 l2) (last_or 0 l1))) as Hb2 by (by rewrite Hot1).
  destruct (h_rep _ _ _ _ _ Hh1 _ _ _ Hb2) as (G0 & G1 & G2 & G3). rewrite G1.
  assert (dll H1 b l2 0) as Hd2'.
  { eapply dll_ext; [|exact Hd2]. intros x szx nx px Hx Hl. exists szx. rewrite Hot1; [done|].
    intros ?. eapply Hn12; [done|set_solver]. }
  destruct (relink_next (mem s1) H1 l2 b (last_or 0 l1) Hh1 Hf1 Hd2' Hn2) as (H2 & Hh2 & Hfo2 & Hnn2 & Hdl2 & Hot2 & _).
  set (m2 := if hd 0 l2 =? 0 then _ else _) in *.
  assert (forall Q, Q tt (with_mem m2 s1) -> wp (if hd 0 l2 =? 0 then ret tt
    else bind (load64 (b + Block.prev)) (fun prev => store64 (hd 0 l2 + Block.prev) prev)) Q s1) as Hw2.
  { intros Q HQ. unfold m2 in HQ. destruct (hd 0 l2 =? 0); wp_go; [by rewrite with_mem_id in HQ|by rewrite G2]. }
  apply Hw2. exists H2. rewrite with_mem_mem.
  split; [split_and!|split_and!].
  - done.
  - apply dll_app. split; [|done]. eapply dll_ext; [|exact Hdl1]. intros x szx nx px Hx Hl. exists szx.
    rewrite Hot2; [done|]. intros ?. eapply Hn12; [done|set_solver].
  - apply NoDup_app. split_and!; [done| |done]. intros x Hx Hx2. eapply Hn12; [done|set_solver].
  - rewrite Hs1, hd_app_or. cbn [large_free_list with_mem with_large]. destruct l1 as [|a l1]; [done|].
    rewrite Hhead. done.
  - rewrite Hot2; done.
  - eapply frees_only_trans; eauto.
  - intros x Hx. auto.
  - rewrite Hs1, hd_app_or. destruct l1; [done|]. by rewrite Hhead.
Qed.

(** The header of the second half, written inside the block. *)
Lemma split_header m H b sz n p total n2 :
  held m H -> H !! b = Some (sz, Free n p) -> 40 <= total -> total + 96 <= sz -> fits 8 n2 ->
  let nb := b + total in
  let m1 := mstore 4 (mstore 8 m (nb + Block.size) (u64 (sz - total))) (nb + Block.magic) KALLOC_BLOCK_MAGIC in
  let m2 := mstore 8 (mstore 8 m1 (nb + Block.next) n2) (nb + Block.prev) b in
  held m1 H /\ held m2 H /\ frees_only m H m2 H /\ block_at caches m2 nb (sz - total) (Free n2 b).
Proof.
  intros Hh Hb Ht Hsz Hn2 nb m1 m2. pose proof (held_addr _ _ _ _ _ Hh Hb).
  destruct (set_inside m H b sz n p 8 (nb + Block.size) (u64 (sz - total)) Hh Hb) as [Hh1 Hf1]; [zoffs..|].
  destruct (set_inside _ H b sz n p 4 (nb + Block.magic) KALLOC_BLOCK_MAGIC Hh1 Hb) as [Hh2 Hf2]; [zoffs..|].
  destruct (set_inside _ H b sz n p 8 (nb + Block.next) n2 Hh2 Hb) as [Hh3 Hf3]; [zoffs..|].
  destruct (set_inside _ H b sz n p 8 (nb + Block.prev) b Hh3 Hb) as [Hh4 Hf4]; [zoffs..|].
  split; [done|]. split; [done|]. split; [repeat (eapply frees_only_trans; [eassumption|]); done|].
  assert (fits 8 (u64 (sz - total))) as Hu by (apply u64_range).
  assert (fits 4 KALLOC_BLOCK_MAGIC) as Hm by (by split; vm_compute).
  assert (fits 8 b) as Hfb by (split; lia).
  unfold m2, m1. repeat split; ldst; try done. apply u64_id. lia.
Qed.

(** The second half comes right after the first on the list. *)
Lemma cut_list H H' l1 b l2 nb x y :
  dll H 0 l1 b -> dll H nb l2 0 -> NoDup (l1 ++ b :: l2) -> H !! nb = None -> b <> nb ->
  H' !! b = Some (x, Free nb (last_or 0 l1)) -> H' !! nb = Some (y, Free (hd 0 l2) b) ->
  (forall z, z <> b -> z <> nb -> H' !! z = H !! z) ->
  dll H' 0 (l1 ++ b :: nb :: l2) 0 /\ NoDup (l1 ++ b :: nb :: l2).
Proof.
  intros Hd1 Hd2 (Hn1 & Hn12 & [Hbn Hn2]%NoDup_cons)%NoDup_app Hnone Hne Hb Hnb Hother.
  assert (forall z l q nx, dll H q l nx -> z ∈ l -> z <> nb) as Hnl.
  { intros z l q nx Hd Hz ->. destruct (dll_lookup _ _ _ _ _ Hd Hz) as (? & ? & ? & ?). congruence. }
  assert (forall q l nx, b ∉ l -> dll H q l nx -> dll H' q l nx) as Hdl.
  { intros q l nx Hbl Hd. eapply dll_ext; [|exact Hd]. intros z szx nx0 px Hz Hl. exists szx.
    rewrite Hother; [done|by intros ->|eauto]. }
  assert (b ∉ l1) by (intros ?; eapply Hn12; [done|set_solver]). split.
  - apply dll_app. split; [auto|]. cbn [dll hd]. split_and!; [eauto|eauto|auto].
  - apply NoDup_app. split_and!; [done| |].
    + intros z Hz. pose proof (Hn12 z Hz). pose proof (Hnl z _ _ _ Hd1 Hz). set_solver.
    + apply NoDup_cons. split; [set_solver|]. apply NoDup_cons. split; [|done].
      intros Hz. by apply (Hnl nb _ _ _ Hd2 Hz).
Qed.

Lemma wp_split s H l1 b l2 sz n p total :
  on_list H (l1 ++ b :: l2) s -> H !! b = Some (sz, Free n p) ->
  (8 | total) -> 40 <= total -> total + 96 <= sz ->
  wp (split_block b total) (fun _ s' => exists H',
    on_list H' (l1 ++ b :: b + total :: l2) s' /\ H' !! b = Some (total, Free (b + total) p) /\
    frees_only (mem s) H (mem s') H' /\
    (forall x, free_at H' x -> free_at H x \/ x = b + total) /\
    s' = with_mem (mem s') s) s.
Proof.
  intros (Hh & Hd & Hnd & Hhead) Hb Hdiv Ht Hsz. pose proof (held_addr _ _ _ _ _ Hh Hb).
  pose proof (dll_middle _ _ _ _ _ _ Hd) as [sz' Hb']. rewrite Hb in Hb'. injection Hb' as <- -> ->.
  apply dll_app in Hd as [Hd1 [_ Hd2]]. cbn [hd] in Hd1.
  pose proof Hnd as (Hn1 & Hn12 & [Hbn Hn2]%NoDup_cons)%NoDup_app.
  destruct (h_rep _ _ _ _ _ Hh _ _ _ Hb) as (F0 & F1 & F2 & F3).
  assert (fits 8 (hd 0 l2)) as Hf2.
  { apply (dll_bounds _ _ b _ 0 Hh); [split; lia|done]. }
  set (nb := b + total). assert (fits 8 nb) as Hfnb by (unfold nb; split; lia).
  destruct (split_header (mem s) H b sz _ _ total (hd 0 l2) Hh Hb Ht Hsz Hf2) as (Hh1 & Hh2 & Hfo2 & Hat).
  fold nb in Hh1, Hh2, Hfo2, Hat.
  unfold split_block. wp_go. rewrite F0, u64_id by zoffs.
  replace (sz <=? total + sizeof_block) with false by (symmetry; apply Z.leb_gt; zoffs).
  fold nb. wp_go. cbn [mem with_mem] in *.
  destruct (h_rep _ _ _ _ _ Hh1 _ _ _ Hb) as (_ & G1 & _ & _). rewrite G1.
  set (m2 := mstore 8 (mstore 8 _ (nb + Block.next) (hd 0 l2)) (nb + Block.prev) b) in *.
  destruct (relink_next m2 H l2 b nb Hh2 Hfnb Hd2 Hn2) as (H3 & Hh3 & Hfo3 & Hnn3 & Hdl3 & Hot3 & Hsb3).
  set (m3 := if hd 0 l2 =? 0 then m2 else _) in *.
  match goal with |- wp (if _ then _ else _) _ ?s2 =>
    assert (forall Q, Q tt (with_mem m3 s) -> wp (if hd 0 l2 =? 0 then ret tt
      else store64 (hd 0 l2 + Block.prev) nb) Q s2) as Hw end.
  { intros Q HQ. unfold m3 in HQ. destruct (hd 0 l2 =? 0); wp_go; done. }
  apply Hw. wp_go. cbn [mem with_mem].
  assert (H3 !! b = Some (sz, Free (hd 0 l2) (last_or 0 l1))) as Hb3 by (by rewrite Hot3).
  destruct (set_next m3 H3 b sz _ nb _ Hh3 Hb3 Hfnb) as [Hh4 Hfo4].
  set (H4 := <[b := _]> H3) in *. set (m4 := mstore 8 m3 _ nb) in *.
  assert (H4 !! b = Some (sz, Free nb (last_or 0 l1))) as Hb4 by apply lookup_insert_eq.
  assert (block_at caches m4 nb (sz - total) (Free (hd 0 l2) b)) as Hat4.
  { eapply block_at_ext; [split; [lia|done]| |exact Hat]. eapply same_bytes_trans.
    - eapply (same_bytes_sub b sz); [apply (Hsb3 _ _ _ Hb Hbn)|unfold nb; lia|unfold nb; lia].
    - apply same_bytes_mstore. unfold nb. zoffs. }
  destruct (cut_held H4 b sz nb _ total _ _ (h_layout _ _ _ _ _ Hh4) Hb4 Hdiv Ht ltac:(lia) m4 Hh4 Hat4) as [Hh5 Hfo5].
  fold nb in Hh5, Hfo5. set (H5 := <[nb := _]> (<[b := _]> H4)) in *.
  pose proof (cut_fresh H4 b sz nb _ total (h_layout _ _ _ _ _ Hh4) Hb4 Ht ltac:(lia)) as Hfresh. fold nb in Hfresh.
  assert (forall x, x <> b -> x <> nb -> H5 !! x = H3 !! x) as Hother.
  { intros x ? ?. unfold H5, H4. by rewrite !lookup_insert_ne. }
  assert (H3 !! nb = None) as Hnone.
  { unfold H4 in Hfresh. rewrite lookup_insert_ne in Hfresh by (unfold nb; lia). done. }
  assert (H5 !! b = Some (total, Free nb (last_or 0 l1))) as Hb5.
  { unfold H5. rewrite lookup_insert_ne by (unfold nb; lia). apply lookup_insert_eq. }
  assert (dll H3 0 l1 b) as Hdl1.
  { eapply dll_ext; [|exact Hd1]. intros x szx nx px Hx Hl. exists szx. rewrite Hot3; [done|].
    intros ?. eapply Hn12; [done|set_solver]. }
  destruct (cut_list H3 H5 l1 b l2 nb total (sz - total)) as [Hdl5 Hnd5];
    [done|done|done|done|unfold nb; lia|done|apply lookup_insert_eq|done|].
  exists H5. split; [split_and!|split_and!]; cbn [mem with_mem]; try done.
  - rewrite hd_app_or. rewrite hd_app_or in Hhead. destruct l1; done.
  - eapply frees_only_trans; [exact Hfo2|]. eapply frees_only_trans; [exact Hfo3|].
    eapply frees_only_trans; [exact Hfo4|]. exact Hfo5.
  - intros x Hx. destruct (decide (x = nb)) as [|Hne]; [by right|left].
    destruct (decide (x = b)) as [->|Hneb]; [repeat eexists; exact Hb|].
    eapply free_at_back; [exact Hfo3|exact Hnn3|]. destruct Hx as (? & ? & ? & Hx). rewrite Hother in Hx by done.
    repeat eexists; exact Hx.
Qed.

(** ** Allocating a large block *)
Record large_inv H (l : list Z) (s : kalloc_t) : Prop := {
  li_list : on_list H l s;
  li_free x : free_at H x -> x ∈ l;
  li_base : heap_base s = base;
  li_size : heap_size s = lim + 32 - base;
  li_caches : size_caches_at s = caches }.

Lemma large_inv_fuel H l s : large_inv H l s -> (length l <= list_fuel s)%nat.
Proof.
  intros [(Hh & Hd & Hnd & _) _ _ Hsz _].
  pose proof (blocks_fuel H l (h_layout _ _ _ _ _ Hh) Hnd) as Hf. unfold list_fuel. rewrite Hsz.
  assert ((lim - base) / 32 <= (lim + 32 - base) / 32) by (apply Z.div_le_mono; lia).
  enough (Z.of_nat (length l) <= Z.max 0 ((lim - base) / 32)) by lia.
  apply Hf. intros b Hb. destruct (dll_lookup _ _ _ _ _ Hd Hb) as (? & ? & ? & ?). eauto.
Qed.

(** What a change of the memory and of the head of the list keeps. *)
Lemma large_inv_change H H' l l' s m p :
  large_inv H l s -> on_list H' l' (with_mem m (with_large p s)) -> (forall x, free_at H' x -> x ∈ l') ->
  large_inv H' l' (with_mem m (with_large p s)).
Proof. intros [_ _ ? ? ?] Hl Hf. by split. Qed.

Definition total_of (size : Z) : Z := KALLOC_ROUND_UP (u64 (size + sizeof_block)) KALLOC_ALIGN_8.

Lemma round_up_pow2 x k :
  0 <= k < 64 -> 0 <= x -> x + 2 ^ k - 1 < 2 ^ 64 ->
  KALLOC_ROUND_UP x (2 ^ k) = 2 ^ k * ((x + 2 ^ k - 1) / 2 ^ k).
Proof.
  intros Hk Hx Hlt. assert (0 < 2 ^ k) by lia. unfold KALLOC_ROUND_UP. rewrite (u64_id (x + 2 ^ k - 1)) by lia.
  replace (u64 (Z.lnot (2 ^ k - 1))) with (Z.land (Z.lnot (Z.ones k)) (Z.ones 64)).
  2:{ rewrite Z.land_ones by lia. unfold u64. by rewrite Z.ones_equiv, <- Z.sub_1_r. }
  rewrite (Z.land_comm (Z.lnot _)), Z.land_assoc, Z.land_ones, Z.mod_small by lia.
  rewrite <- Z.ldiff_land, Z.ldiff_ones_r, Z.shiftl_mul_pow2, Z.shiftr_div_pow2 by lia. lia.
Qed.

Lemma total_of_spec size :
  0 <= size -> size + 136 <= 2 ^ 64 -> (8 | total_of size) /\ size + 32 <= total_of size <= size + 39.
Proof.
  intros Hs Hlt. unfold total_of, KALLOC_ALIGN_8. rewrite u64_id by zoffs.
  pose proof (round_up_pow2 (size + sizeof_block) 3) as E. change (2 ^ 3) with 8 in E. rewrite E by zoffs.
  pose proof (Z.div_mod (size + sizeof_block + 8 - 1) 8). pose proof (Z.mod_pos_bound (size + sizeof_block + 8 - 1) 8).
  split; [eexists; apply Z.mul_comm|zoffs].
Qed.

Lemma bsize_lookup H b sz k : H !! b = Some (sz, k) -> bsize H b = sz.
Proof. intros Hb. unfold bsize. by rewrite Hb. Qed.

(** Best fit from the list of free blocks, split when the rest is worth it:
    the block returned is new, and every object keeps its place and bytes. *)
Lemma wp_kalloc_large H l s size :
  large_inv H l s -> 0 < size -> size + 136 <= 2 ^ 64 ->
  wp (kalloc_large size) (fun r s' =>
    (r = 0 /\ s' = s /\ forall x, x ∈ l -> bsize H x < total_of size) \/
    (exists H' l' b sz m p,
       r = b + sizeof_block /\ 0 < b /\ H' !! b = Some (sz, Large) /\ size + 32 <= sz /\
       s' = with_mem m (with_large p s) /\ large_inv H' l' s' /\
       keeps (mem s) H m H' /\ slabs_kept H H' /\ (forall cap, ~ object H r cap))) s.
Proof.
  intros Hi Hpos Hlt. destruct (total_of_spec size) as (Hdiv & Ht1 & Ht2); [lia|lia|].
  assert (40 <= total_of size) as Ht40 by (destruct Hdiv as [q Hq]; lia).
  pose proof (large_inv_fuel _ _ _ Hi) as Hfuel.
  pose proof (li_list _ _ _ Hi) as (Hh & Hd & Hnd & Hhead).
  unfold kalloc_large. fold (total_of size). set (total := total_of size) in *. wp_go. rewrite Hhead.
  eapply wp_mono; [|eapply (wp_find_best H total s 0 l); [done|done|exact Hfuel|by left]].
  intros r s0 [-> ->].
  assert (0 ∉ l) as H0l.
  { intros H0. destruct (dll_lookup _ _ _ _ _ Hd H0) as (? & ? & ? & Hb). pose proof (held_addr _ _ _ _ _ Hh Hb). lia. }
  destruct (fold_best_fit H total l H0l) as [[-> Hnone]|(Hin & Hfit & _)].
  { cbn [Z.eqb]. apply wp_ret. left. done. }
  set (b := fold_left _ _ _) in *.
  destruct (dll_lookup _ _ _ _ _ Hd Hin) as (sz & n & p & Hb). rewrite (bsize_lookup _ _ _ _ Hb) in Hfit.
  rewrite (free_addr _ _ _ _ _ Hh Hb). pose proof (held_addr _ _ _ _ _ Hh Hb) as Haddr.
  destruct (h_rep _ _ _ _ _ Hh _ _ _ Hb) as (F0 & _). wp_go. rewrite F0, u64_id by zoffs.
  apply list_elem_of_split in Hin as (l1 & l2 & El).
  assert (exists H1 l2' sz1 n1, total <= sz1 /\
    wp (if total + sizeof_block + 64 <=? sz then split_block b total;; ret tt else ret tt)%kalloc (fun _ s1 =>
      on_list H1 (l1 ++ b :: l2') s1 /\ H1 !! b = Some (sz1, Free n1 p) /\
      frees_only (mem s) H (mem s1) H1 /\ (forall x, free_at H1 x -> x ∈ l1 ++ b :: l2') /\
      s1 = with_mem (mem s1) s) s) as (H1 & l2' & sz1 & n1 & Hsz1 & Hw).
  { destruct (Z.leb_spec (total + sizeof_block + 64) sz) as [Hle|Hgt].
    - pose proof (li_list _ _ _ Hi) as Hol. rewrite El in Hol.
      pose proof (wp_split s H l1 b l2 sz n p total Hol Hb Hdiv ltac:(lia) ltac:(zoffs)) as Hw.
      destruct (wp_elim _ _ _ Hw) as (x & s1 & Hrun & H1 & Hol1 & Hb1 & Hfo1 & Hfr1 & Hs1).
      exists H1, (b + total :: l2), total, (b + total). split; [lia|].
      unfold wp, bind. rewrite Hrun. unfold ret. split_and!; try done.
      intros y Hy. destruct (Hfr1 y Hy) as [Hy1%(li_free _ _ _ Hi)| ->]; rewrite ?El in *; set_solver.
    - exists H, l2, sz, n. split; [lia|]. apply wp_ret. rewrite <- El.
      split; [by apply Hi|]. split; [done|]. split; [apply frees_only_refl|].
      split; [intros y Hy; by apply (li_free _ _ _ Hi)|]. by rewrite with_mem_id. }
  eapply wp_mono; [|exact Hw]. clear Hw. intros _ s1 (Hol1 & Hb1 & Hfo1 & Hfr1 & Hs1).
  wp_go. eapply wp_mono; [|eapply wp_unlink; eauto].
  intros _ s2 (H2 & (Hh2 & Hd2 & Hnd2 & Hhd2) & Hb2 & Hfo2 & Hnn2 & Hs2). wp_go.
  destruct (mark_large (mem s2) H2 b sz1 n1 p Hh2 Hb2) as (Hh3 & Hk3 & Hsk3 & Hobj & Hnobj).
  assert (b ∉ l1 ++ l2') as Hbl.
  { destruct Hol1 as (_ & _ & Hnd1 & _). apply NoDup_app in Hnd1 as (_ & Hn & [Hn2 _]%NoDup_cons).
    intros [Hx|Hx]%elem_of_app; [|done]. eapply Hn; [done|set_solver]. }
  assert (forall M, with_mem M s2 = with_mem M (with_large (hd 0 (l1 ++ l2')) s)) as Es.
  { intros M. rewrite Hs2, Hs1. done. }
  right. eexists (<[b := (sz1, Large)]> H2), (l1 ++ l2'), b, sz1, _, (hd 0 (l1 ++ l2')).
  split; [done|]. split; [lia|]. split; [apply lookup_insert_eq|]. split; [lia|].
  assert (frees_only (mem s) H (mem s2) H2) as Hfo by (eapply frees_only_trans; eauto).
  split; [apply Es|]. split; [|split; [|split]].
  - rewrite Es.
    eapply large_inv_change; [done| |].
    + split_and!; [done| |done|done]. apply dll_insert_ne; done.
    + intros x (? & ? & ? & Hx). assert (x <> b) as Hne.
      { intros ->. by rewrite lookup_insert_eq in Hx. }
      rewrite lookup_insert_ne in Hx by done.
      assert (x ∈ l1 ++ b :: l2') as Hin; [|set_solver].
      apply Hfr1. eapply free_at_back; [exact Hfo2|exact Hnn2|]. repeat eexists; exact Hx.
  - eapply heap_keeps_trans; [|exact Hk3]. eapply frees_only_keeps; [apply Hh|done].
  - intros b' sz' c' n' fr'. rewrite (frees_only_slabs _ _ _ _ Hfo b' sz' c' n' fr'). apply Hsk3.
  - intros cap Ho. apply (Hnobj cap). by apply (frees_only_objects _ _ _ _ _ _ Hfo).
Qed.

(** ** Freeing a large block *)

(** No free block ends 32 bytes before another begins: the merge of adjacent
    free blocks, which looks for that, never merges. *)
Lemma never_adjacent m H b sz k b' sz' k' :
  held m H -> H !! b = Some (sz, k) -> H !! b' = Some (sz', k') -> u64 (b + sz + sizeof_block) <> b'.
Proof.
  intros Hh Hb Hb' E. pose proof (held_addr _ _ _ _ _ Hh Hb). pose proof (held_addr _ _ _ _ _ Hh Hb') as Ha'.
  pose proof (h_lim _ _ _ _ _ Hh). destruct Hh as [? ? HL _].
  assert (b + sz + 32 = b') as E'.
  { destruct (decide (b + sz + 32 = 2 ^ 64)) as [E2|].
    - exfalso. replace (b + sz + sizeof_block) with (2 ^ 64) in E by zoffs. change (u64 (2 ^ 64)) with 0 in E. lia.
    - rewrite u64_id in E by zoffs. zoffs. }
  destruct (l_tile _ _ _ HL _ _ _ Hb) as [?|[[sz2 k2] H2]]; [lia|].
  destruct (l_valid _ _ _ HL _ _ _ H2) as [? _].
  destruct (blocks_apart H _ _ _ _ _ _ HL H2 Hb'); lia.
Qed.

Lemma wp_merge H s p l fuel :
  held (mem s) H -> dll H p l 0 -> (length l <= fuel)%nat ->
  wp (merge_from fuel (hd 0 l)) (fun _ s' => s' = s) s.
Proof.
  intros Hh. revert p l. induction fuel as [|fuel IH]; intros p l Hd Hf.
  { destruct l; [done|cbn in Hf; lia]. }
  destruct l as [|b l]; [done|]. cbn [length] in Hf.
  pose proof (hd_eqb _ _ _ _ _ Hh Hd) as E0. destruct Hd as [[sz Hb] Hd]. cbn [merge_from hd] in *. rewrite E0.
  destruct (h_rep _ _ _ _ _ Hh _ _ _ Hb) as (F0 & F1 & _). wp_go. rewrite F1.
  rewrite (hd_eqb _ _ _ _ _ Hh Hd). destruct l as [|b2 l]; [by apply wp_ret|]. cbn [hd]. wp_go. rewrite F0.
  pose proof Hd as [[sz2 Hb2] _].
  pose proof (never_adjacent _ _ _ _ _ _ _ _ Hh Hb Hb2) as Hna. apply Z.eqb_neq in Hna. rewrite Hna.
  apply (IH b (b2 :: l)); [done|lia].
Qed.

(** The objects after a large allocation has become a free block. *)
Lemma freed_objects m H m' H2 b sz n p :
  layout base lim H -> layout base lim H2 -> H !! b = Some (sz, Large) -> H2 !! b = Some (sz, Free n p) ->
  (forall b2 sz2 k2, b2 <> b -> ~ is_free k2 -> (H !! b2 = Some (sz2, k2) <-> H2 !! b2 = Some (sz2, k2)) /\
    (H !! b2 = Some (sz2, k2) -> same_bytes b2 sz2 m m')) ->
  slabs_kept H H2 /\
  (forall p cap, object H p cap -> p <> b + sizeof_block -> object H2 p cap /\ same_bytes p cap m m') /\
  (forall p cap, object H2 p cap -> object H p cap /\ p <> b + sizeof_block).
Proof.
  intros HL HL2 Hb Hb2 Hk. destruct (l_valid _ _ _ HL _ _ _ Hb) as [Hsz _]. split; [|split].
  - intros b2 sz2 c n0 fr. destruct (decide (b2 = b)) as [->|Hne]; [rewrite Hb, Hb2; done|].
    apply (Hk b2 sz2 (SlabOf c n0 fr) Hne). cbn. tauto.
  - intros q cap Ho Hq. destruct (object_in_block H q cap HL Ho) as (b2 & sz2 & k2 & Hq2 & ? & ? & _ & _ & Hk2).
    assert (b2 <> b) as Hne by (intros ->; rewrite Hb in Hq2; injection Hq2 as <- <-; zoffs). split.
    + destruct Ho as [(b1 & sz1 & Hb1 & -> & ->)|(b1 & sz1 & c1 & n1 & fr1 & i & Hb1 & Hi1)].
      * left. exists b1, sz1. split; [|done]. apply (Hk b1 sz1 Large); [zoffs|cbn; tauto|done].
      * right. exists b1, sz1, c1, n1, fr1, i. split; [|done]. apply (Hk b1 sz1 (SlabOf c1 n1 fr1)); [congruence|cbn; tauto|done].
    + eapply (same_bytes_sub b2 sz2); [apply (Hk b2 sz2 k2 Hne); [destruct k2; cbn; tauto|done]|lia|lia].
  - intros q cap [(b1 & sz1 & Hb1 & -> & ->)|(b1 & sz1 & c1 & n1 & fr1 & i & Hb1 & Hi1)].
    + assert (b1 <> b) as Hne by congruence. split; [|zoffs]. left. exists b1, sz1. split; [|done].
      apply (Hk b1 sz1 Large); [done|cbn; tauto|done].
    + assert (b1 <> b) as Hne by congruence. split.
      * right. exists b1, sz1, c1, n1, fr1, i. split; [|done]. apply (Hk b1 sz1 (SlabOf c1 n1 fr1)); [done|cbn; tauto|done].
      * assert (object H2 q cap) as Ho by (right; exists b1, sz1, c1, n1, fr1, i; done).
        destruct (object_in_block H2 q cap HL2 Ho) as (b3 & sz3 & k3 & Hq3 & ? & ? & ? & _ & Hk3).
        intros ->. destruct (decide (b3 = b)) as [->|Hn3]; [rewrite Hb2 in Hq3; by injection Hq3 as <- <-|].
        destruct (blocks_apart H2 _ _ _ _ _ _ HL2 Hq3 Hb2 Hn3); zoffs.
Qed.

(** A large allocation becomes the first free block. *)
Lemma wp_kfree_large H l s b sz size :
  large_inv H l s -> H !! b = Some (sz, Large) ->
  wp (kfree_large (b + sizeof_block) size) (fun _ s' => exists H' m,
    s' = with_stats (count_freed sz (allocator_stats s)) (with_mem m (with_large b s)) /\
    large_inv H' (b :: l) s' /\ slabs_kept H H' /\
    (forall p cap, object H p cap -> p <> b + sizeof_block -> object H' p cap /\ same_bytes p cap (mem s) m) /\
    (forall p cap, object H' p cap -> object H p cap /\ p <> b + sizeof_block)) s.
Proof.
  intros Hi Hb. pose proof (li_list _ _ _ Hi) as (Hh & Hd & Hnd & Hhead).
  pose proof (held_addr _ _ _ _ _ Hh Hb) as Ha. destruct (h_rep _ _ _ _ _ Hh _ _ _ Hb) as (F0 & F1).
  assert (b ∉ l) as Hbl.
  { intros Hin. destruct (dll_lookup _ _ _ _ _ Hd Hin) as (? & ? & ? & ?). congruence. }
  unfold kfree_large. replace (b + sizeof_block =? 0) with false by (symmetry; apply Z.eqb_neq; zoffs).
  replace (b + sizeof_block - sizeof_block) with b by lia. wp_go. rewrite F1, Z.eqb_refl. cbn [negb]. wp_go.
  cbn [mem with_mem large_free_list]. rewrite Hhead.
  set (m1 := mstore 8 (mstore 8 (mstore 4 (mem s) (b + Block.magic) KALLOC_BLOCK_MAGIC) (b + Block.next) (hd 0 l)) (b + Block.prev) 0).
  set (H1 := <[b := (sz, Free (hd 0 l) 0)]> H).
  assert (fits 8 0 /\ fits 4 KALLOC_BLOCK_MAGIC) as [Hz Hm] by (by repeat split; vm_compute).
  assert (fits 8 b) as Hfb by (split; lia).
  destruct (dll_bounds _ _ 0 _ _ Hh Hz Hd) as [_ Hfh].
  assert (forall x, x < b \/ b + sz <= x -> byte_at m1 x = byte_at (mem s) x) as Hs1.
  { intros x Hx. unfold m1.
    rewrite (same_bytes_mstore x 1), (same_bytes_mstore x 1), (same_bytes_mstore x 1) by zoffs. done. }
  assert (held m1 H1) as Hh1.
  { destruct Hh as [? ? HL Hr]. split; [done|done| |].
    - eapply layout_update; [done|done|]. by destruct (l_valid _ _ _ HL _ _ _ Hb).
    - eapply rep_update; [done|done|done|done|]. unfold m1. repeat split; ldst; done. }
  assert (dll H1 0 l 0) as Hd1 by (apply dll_insert_ne; done).
  destruct (relink_next m1 H1 l 0 b Hh1 Hfb Hd1 Hnd) as (H2 & Hh2 & Hfo & Hnn & Hdl & Hot & _).
  set (m2 := if hd 0 l =? 0 then m1 else _) in *.
  match goal with |- wp (if _ then _ else _) _ ?s2 =>
    assert (forall Q, Q tt (with_mem m2 s) -> wp (if hd 0 l =? 0 then ret tt
      else store64 (hd 0 l + Block.prev) b) Q s2) as Hw end.
  { intros Q HQ. unfold m2 in HQ. destruct (hd 0 l =? 0); wp_go; done. }
  apply Hw. wp_go. unfold merge_free_blocks. wp_go. cbn [large_free_list with_large].
  assert (H2 !! b = Some (sz, Free (hd 0 l) 0)) as Hb2 by (rewrite Hot by done; apply lookup_insert_eq).
  assert (dll H2 0 (b :: l) 0) as Hd2 by (split; [eauto|done]).
  assert (large_inv H2 (b :: l) (with_mem m2 (with_large b s))) as Hi2.
  { eapply large_inv_change; [exact Hi| |].
    - split_and!; [done|exact Hd2|by apply NoDup_cons|done].
    - intros x Hx. destruct (decide (x = b)) as [->|Hne]; [set_solver|].
      destruct (free_at_back _ _ _ _ x Hfo Hnn Hx) as (? & ? & ? & Hx1). unfold H1 in Hx1.
      rewrite lookup_insert_ne in Hx1 by done. apply elem_of_cons. right. apply (li_free _ _ _ Hi). repeat eexists; exact Hx1. }
  eapply wp_mono; [|apply (wp_merge H2 _ 0 (b :: l)); [exact Hh2|exact Hd2|]].
  2:{ apply (large_inv_fuel _ _ _ Hi2). }
  intros _ s3 ->. wp_go. destruct (h_rep _ _ _ _ _ Hh2 _ _ _ Hb2) as (G0 & _). cbn [mem with_mem with_large].
  rewrite G0. unfold update_stats. wp_go.
  assert (forall b2 sz2 k2, b2 <> b -> ~ is_free k2 -> (H !! b2 = Some (sz2, k2) <-> H2 !! b2 = Some (sz2, k2)) /\
    (H !! b2 = Some (sz2, k2) -> same_bytes b2 sz2 (mem s) m2)) as Hk.
  { intros b2 sz2 k2 Hne Hf2. destruct (Hfo b2 sz2 k2 Hf2) as [Hiff Hsb]. unfold H1 in Hiff, Hsb.
    rewrite lookup_insert_ne in Hiff, Hsb by done. split; [done|]. intros H2b. eapply same_bytes_trans; [|auto].
    intros x Hx. apply Hs1. destruct (blocks_apart H _ _ _ _ _ _ (h_layout _ _ _ _ _ Hh) H2b Hb Hne); lia. }
  exists H2, m2. split; [done|]. split; [destruct Hi2; by split|].
  by apply (freed_objects _ _ _ _ b sz _ _ (h_layout _ _ _ _ _ Hh) (h_layout _ _ _ _ _ Hh2) Hb Hb2 Hk).
Qed.
End held.
