(* ===== verification/KallocSlab.v ===== *)
(** * Slabs and caches (kernel/kalloc.c)

    The slab caches over the heap of blocks: creating a slab, taking an
    object from it and giving one back, moving slabs between the partial and
    the full list, and finding the slab a pointer belongs to. *)
From Stdlib Require Import ZArith Lia Znumtheory.
From stdpp Require Import gmap.
From S2P Require Import Prelude.
From S2P Require Import Memory.
From S2P Require Import Kalloc.
From S2P Require Import KallocHeap.
From S2P Require Import KallocLarge.
Open Scope Z_scope.

(** ** The caches and their lists *)
Definition cache_of (cs : list kalloc_cache_t) (c : Z) : kalloc_cache_t := zget cache_default cs c.

Record cache_static (c : Z) (x : kalloc_cache_t) : Prop := {
  cs_size : object_size x = osize c;
  cs_align : align x = (if 64 <=? osize c then 64 else osize c);
  cs_count : objects_per_slab x = ocount c;
  cs_slab : slab_size x = 4096 }.

Record cache_ok (H : gmap Z (Z * block_t)) (c : Z) (x : kalloc_cache_t) (lf lp : list Z) : Prop := {
  co_static : cache_static c x;
  co_full : full_slabs x = hd 0 lf;
  co_partial : partial_slabs x = hd 0 lp;
  co_empty : empty_slabs x = 0;
  co_lf : slab_list H c lf;
  co_lp : slab_list H c lp;
  co_nodup : NoDup (lf ++ lp);
  co_all b sz n fr : H !! b = Some (sz, SlabOf c n fr) -> b + sizeof_block ∈ lf ++ lp;
  co_some s sz n fr : s ∈ lp -> H !! (s - sizeof_block) = Some (sz, SlabOf c n fr) -> fr <> [] }.

Record caches_ok (H : gmap Z (Z * block_t)) (cs : list kalloc_cache_t) : Prop := {
  cks_length : length cs = 10%nat;
  cks_cache c : 0 <= c < 10 -> exists lf lp, cache_ok H c (cache_of cs c) lf lp }.

(** The invariant of the allocator, and what only the interface changes. *)
Record kalloc_inv (base lim caches : Z) (H : gmap Z (Z * block_t)) (s : kalloc_t) : Prop := {
  ki_large : exists l, large_inv (base := base) (lim := lim) (caches := caches) H l s;
  ki_caches : caches_ok H (size_caches s);
  ki_at : 0 < caches /\ caches + 960 <= 2 ^ 64 }.

Definition same_control (s s' : kalloc_t) : Prop :=
  kalloc_initialized s' = kalloc_initialized s /\ heap_lock s' = heap_lock s.

Lemma slab_list_kept H H' c l : slabs_kept H H' -> slab_list H c l -> slab_list H' c l.
Proof. intros Hk. apply slab_list_ext. intros s sz n fr _ Hs. apply Hk in Hs. eauto. Qed.

Lemma cache_ok_kept H H' c x lf lp : slabs_kept H H' -> cache_ok H c x lf lp -> cache_ok H' c x lf lp.
Proof.
  intros Hk [? ? ? ? ? ? ? Ha Hs]. split; try done; try by eapply slab_list_kept.
  - intros b sz n fr Hb. apply Hk in Hb. eauto.
  - intros s sz n fr Hin Hb. apply Hk in Hb. eauto.
Qed.

Lemma caches_ok_kept H H' cs : slabs_kept H H' -> caches_ok H cs -> caches_ok H' cs.
Proof.
  intros Hk [Hl Hc]. split; [done|]. intros c Hr. destruct (Hc c Hr) as (lf & lp & Hok).
  exists lf, lp. by eapply cache_ok_kept.
Qed.

(** Changing one cache. *)
Lemma caches_ok_set H H' cs c x lf lp :
  caches_ok H cs -> 0 <= c < 10 -> cache_ok H' c x lf lp ->
  (forall c' x' lf' lp', c' <> c -> cache_ok H c' x' lf' lp' -> cache_ok H' c' x' lf' lp') ->
  caches_ok H' (zset c x cs).
Proof.
  intros [Hl Hc] Hr Hok Hother. split; [by rewrite length_zset|]. intros c' Hr'. unfold cache_of.
  rewrite zget_zset by (rewrite ?Hl; lia). destruct (Z.eqb_spec c c') as [<-|Hne]; [eauto|].
  destruct (Hc c' Hr') as (lf' & lp' & Hok'). exists lf', lp'. apply Hother; [done|exact Hok'].
Qed.

Section slab.
Context {base lim caches : Z}.
Implicit Types H : gmap Z (Z * block_t).
Abbreviation held := (held base lim caches) (only parsing).

Lemma cache_ptr_index s c : size_caches_at s = caches -> 0 <= c -> cache_index s (caches + c * sizeof_cache) = c.
Proof.
  intros Hs Hc. unfold cache_index. rewrite Hs.
  replace (caches + c * sizeof_cache - caches) with (c * sizeof_cache) by lia. by apply Z.div_mul.
Qed.

Lemma cache_at_ptr s c : size_caches_at s = caches -> 0 <= c -> cache_at s (caches + c * sizeof_cache) = cache_of (size_caches s) c.
Proof. intros Hs Hc. unfold cache_at, cache_of. by rewrite cache_ptr_index. Qed.

(** ** Changing a slab *)
Lemma slab_change m m' H b sz c n fr n' fr' :
  held m H -> H !! b = Some (sz, SlabOf c n fr) ->
  NoDup fr' -> (forall i, i ∈ fr' -> 0 <= i < ocount c) ->
  (forall x, x < b \/ b + sz <= x -> byte_at m' x = byte_at m x) ->
  block_at caches m' b sz (SlabOf c n' fr') ->
  held m' (<[b := (sz, SlabOf c n' fr')]> H).
Proof.
  intros [? ? HL Hr] Hb Hnd Hfr Hs Hat. destruct (l_valid _ _ _ HL _ _ _ Hb) as [Hsz (Hsz2 & Hc & _)].
  split; [done|done| |]; [eapply layout_update; done|eapply rep_update; done].
Qed.

(** Only the slab's descriptor is written. *)
Lemma keeps_slab m m' H b sz c n fr n' fr' :
  held m H -> H !! b = Some (sz, SlabOf c n fr) ->
  (forall i, i ∈ fr' -> i ∈ fr) ->
  (forall x, x < b + 32 \/ b + 72 <= x -> byte_at m' x = byte_at m x) ->
  keeps m H m' (<[b := (sz, SlabOf c n' fr')]> H).
Proof.
  intros Hh Hb Hsub Hs q cap Ho. pose proof (h_layout _ _ _ _ _ Hh) as HL. split.
  - destruct Ho as [(b1 & sz1 & Hb1 & -> & ->)|(b1 & sz1 & c1 & n1 & fr1 & i & Hb1 & Hi & Hn & -> & ->)].
    + left. exists b1, sz1. rewrite lookup_insert_ne by congruence. done.
    + right. destruct (decide (b1 = b)) as [->|Hne].
      * rewrite Hb in Hb1. injection Hb1 as <- <- <- <-.
        exists b, sz, c, n', fr', i. rewrite lookup_insert_eq. split_and!; try done; try lia. auto.
      * exists b1, sz1, c1, n1, fr1, i. rewrite lookup_insert_ne by done. done.
  - destruct (object_in_block H q cap HL Ho) as (b2 & sz2 & k2 & Hb2 & ? & ? & _ & _ & Hk).
    intros x Hx. apply Hs. destruct (decide (b2 = b)) as [->|Hne].
    + rewrite Hb in Hb2. injection Hb2 as <- <-. lia.
    + destruct (l_valid _ _ _ HL _ _ _ Hb) as [_ (? & _)].
      destruct (blocks_apart H _ _ _ _ _ _ HL Hb2 Hb Hne); lia.
Qed.

(** The object at index [i] of a slab. *)
Definition object_addr (b c i : Z) : Z := b + sizeof_block + sizeof_slab + i * osize c.

Lemma slab_object H b sz c n fr i :
  layout base lim H -> H !! b = Some (sz, SlabOf c n fr) -> 0 <= i < ocount c ->
  (object H (object_addr b c i) (osize c) <-> i ∉ fr) /\
  (forall cap, object H (object_addr b c i) cap -> cap = osize c /\ i ∉ fr).
Proof.
  intros HL Hb Hi. destruct (l_valid _ _ _ HL _ _ _ Hb) as [_ (Hsz & Hc & _)].
  pose proof (object_in_slab c i Hc Hi). pose proof (osize_bounds c Hc).
  assert (forall cap, object H (object_addr b c i) cap -> cap = osize c /\ i ∉ fr) as Hg.
  { intros cap Ho. unfold object_addr in Ho.
    destruct (object_in_block H _ cap HL Ho) as (b2 & sz2 & k2 & Hb2 & ? & ? & ? & _ & Hk).
    destruct (decide (b2 = b)) as [->|Hne].
    2:{ exfalso. destruct (blocks_apart H _ _ _ _ _ _ HL Hb2 Hb Hne); zoffs. }
    destruct Ho as [(b1 & sz1 & Hb1 & E & ->)|(b1 & sz1 & c1 & n1 & fr1 & j & Hb1 & Hj & Hn & E & ->)].
    - exfalso. destruct (decide (b1 = b)) as [->|Hne]; [congruence|].
      destruct (l_valid _ _ _ HL _ _ _ Hb1). destruct (blocks_apart H _ _ _ _ _ _ HL Hb1 Hb Hne); zoffs.
    - destruct (decide (b1 = b)) as [->|Hne].
      + rewrite Hb in Hb1. injection Hb1 as <- <- <- <-. split; [done|].
        replace i with j; [done|]. nia.
      + exfalso. destruct (l_valid _ _ _ HL _ _ _ Hb1) as [_ (? & Hc1 & _)].
        pose proof (object_in_slab c1 j Hc1 Hj).
        destruct (blocks_apart H _ _ _ _ _ _ HL Hb1 Hb Hne); zoffs. }
  split; [|exact Hg]. split; [intros Ho; apply (Hg _ Ho)|]. intros Hn. right. exists b, sz, c, n, fr, i. done.
Qed.

Lemma free_short c (fr : list Z) :
  0 <= c < 10 -> NoDup fr -> (forall i, i ∈ fr -> 0 <= i < ocount c) -> Z.of_nat (length fr) <= 512.
Proof.
  intros Hc Hnd Hfr. pose proof (osize_bounds c Hc).
  assert (fr ⊆+ seqZ 0 (ocount c)) as Hsub%submseteq_length.
  { apply NoDup_submseteq; [done|]. intros x Hx. apply elem_of_seqZ. specialize (Hfr x Hx). lia. }
  rewrite length_seqZ in Hsub. lia.
Qed.

Lemma head_fits c (fr : list Z) :
  0 <= c < 10 -> (forall i, i ∈ fr -> 0 <= i < ocount c) -> fits 4 (hd NO_OBJECT fr).
Proof.
  intros Hc Hfr. pose proof (osize_bounds c Hc). destruct fr as [|i fr]; [by split; vm_compute|].
  specialize (Hfr i ltac:(set_solver)). cbn [hd]. split; lia.
Qed.

(** ** Taking an object from a slab *)
Lemma wp_slab_alloc_object H s b sz c n i fr :
  held (mem s) H -> size_caches_at s = caches -> object_size (cache_of (size_caches s) c) = osize c ->
  H !! b = Some (sz, SlabOf c n (i :: fr)) ->
  wp (slab_alloc_object (b + sizeof_block)) (fun r s' => exists m,
    r = object_addr b c i /\
    s' = with_caches (zset c (count_objects 0 1 0 (cache_of (size_caches s) c)) (size_caches s)) (with_mem m s) /\
    held m (<[b := (sz, SlabOf c n fr)]> H) /\
    keeps (mem s) H m (<[b := (sz, SlabOf c n fr)]> H)) s.
Proof.
  intros Hh Hsc Hos Hb. pose proof (held_addr _ _ _ _ _ Hh Hb) as Ha. pose proof (h_layout _ _ _ _ _ Hh) as HL.
  destruct (l_valid _ _ _ HL _ _ _ Hb) as [_ (Hsz & Hc & Hnd & Hfr)].
  destruct (h_rep _ _ _ _ _ Hh _ _ _ Hb) as (F0 & F1 & A1 & A2 & A3 & A4 & A5 & A6 & A7).
  pose proof (osize_bounds c Hc) as Hosb.
  pose proof (free_short c (i :: fr) Hc Hnd Hfr) as Hlen.
  pose proof (Hfr i ltac:(set_solver)) as Hir.
  unfold slab_alloc_object. replace (b + sizeof_block =? 0) with false by (symmetry; apply Z.eqb_neq; zoffs).
  wp_go. rewrite A2. replace (Z.of_nat (length (i :: fr)) =? 0) with false by (symmetry; apply Z.eqb_neq; cbn; lia).
  wp_go. rewrite A1, A3, A5. unfold load_cache. wp_go. rewrite cache_at_ptr, Hos by (done || lia).
  cbn [hd] in *. rewrite free_link_eq by done. wp_go. rewrite A6. unfold update_cache. wp_go.
  cbn [mem with_mem]. set (m1 := mstore 4 (mem s) _ _). set (m2 := mstore 4 m1 _ _).
  exists m2. pose proof (object_in_slab c i Hc Hir).
  split; [unfold object_addr; rewrite u64_id by lia; zoffs|]. split.
  { rewrite cache_ptr_index, cache_at_ptr by (done || lia). done. }
  assert (forall x, x < b + 32 \/ b + 72 <= x -> byte_at m2 x = byte_at (mem s) x) as Hs.
  { intros x Hx. unfold m2, m1. rewrite (same_bytes_mstore x 1), (same_bytes_mstore x 1) by zoffs. done. }
  assert (NoDup fr /\ i ∉ fr) as [Hnd' Hni] by (apply NoDup_cons in Hnd; tauto).
  split.
  - eapply slab_change; [done|done|done|set_solver| |].
    { intros x Hx. apply Hs. lia. }
    assert (fits 4 (hd NO_OBJECT fr)) as Hf1.
    { rewrite <- A6. apply mload_fits. }
    assert (fits 4 (u32 (Z.of_nat (length (i :: fr)) - 1))) as Hf2 by apply u32_range.
    repeat split; unfold m2, m1; ldst; try done.
    + cbn [length] in *. rewrite u32_id; lia.
    + eapply (chain_ext (mem s) _ _ _ _ 4096); [|apply free_word_in; [done|set_solver]|done].
      intros x Hx. apply Hs. zoffs.
  - eapply keeps_slab; [done|done|set_solver|done].
Qed.

(** ** Giving an object back *)
Definition loses (m : gmap Z byte) H (p : Z) (m' : gmap Z byte) H' : Prop :=
  (forall q cap, object H q cap -> q <> p -> object H' q cap /\ same_bytes q cap m m') /\
  (forall q cap, object H' q cap -> object H q cap /\ q <> p).

Lemma loses_slab m m' H b sz c n fr i :
  held m H -> H !! b = Some (sz, SlabOf c n fr) -> 0 <= i < ocount c -> i ∉ fr ->
  (forall x, x < b + 32 \/ b + 72 <= x ->
     x < object_addr b c i \/ object_addr b c i + osize c <= x -> byte_at m' x = byte_at m x) ->
  loses m H (object_addr b c i) m' (<[b := (sz, SlabOf c n (i :: fr))]> H).
Proof.
  intros Hh Hb Hi Hni Hs. pose proof (h_layout _ _ _ _ _ Hh) as HL.
  destruct (l_valid _ _ _ HL _ _ _ Hb) as [_ (Hsz & Hc & _)].
  pose proof (object_in_slab c i Hc Hi). pose proof (osize_bounds c Hc).
  assert (object H (object_addr b c i) (osize c)) as Hoi by (by eapply slab_object).
  split.
  - intros q cap Ho Hq. split.
    + destruct Ho as [(b1 & sz1 & Hb1 & -> & ->)|(b1 & sz1 & c1 & n1 & fr1 & j & Hb1 & Hj & Hn & -> & ->)].
      * left. exists b1, sz1. rewrite lookup_insert_ne by congruence. done.
      * right. destruct (decide (b1 = b)) as [->|Hne].
        -- rewrite Hb in Hb1. injection Hb1 as <- <- <- <-. exists b, sz, c, n, (i :: fr), j.
           rewrite lookup_insert_eq. split_and!; try done; try lia.
           assert (j <> i) by (intros ->; apply Hq; unfold object_addr; done). set_solver.
        -- exists b1, sz1, c1, n1, fr1, j. rewrite lookup_insert_ne by done. done.
    + intros x Hx. destruct (objects_disjoint H q cap (object_addr b c i) (osize c) HL Ho Hoi Hq) as [?|?].
      all: destruct (object_in_block H q cap HL Ho) as (b2 & sz2 & k2 & Hb2 & ? & ? & _ & _ & Hk).
      all: apply Hs; [|lia]; destruct (decide (b2 = b)) as [->|Hne];
        [rewrite Hb in Hb2; injection Hb2 as <- <-; lia|].
      all: destruct (blocks_apart H _ _ _ _ _ _ HL Hb2 Hb Hne); lia.
  - intros q cap [(b1 & sz1 & Hb1 & -> & ->)|(b1 & sz1 & c1 & n1 & fr1 & j & Hb1 & Hj & Hn & -> & ->)].
    + destruct (decide (b1 = b)) as [->|Hne]; [by rewrite lookup_insert_eq in Hb1|].
      rewrite lookup_insert_ne in Hb1 by done. split; [left; eauto|].
      intros E. destruct (l_valid _ _ _ HL _ _ _ Hb1). unfold object_addr in E.
      destruct (blocks_apart H _ _ _ _ _ _ HL Hb1 Hb Hne); zoffs.
    + destruct (decide (b1 = b)) as [->|Hne].
      * rewrite lookup_insert_eq in Hb1. injection Hb1 as <- <- <- <-. split.
        -- right. exists b, sz, c, n, fr, j. split_and!; try done; try lia. set_solver.
        -- unfold object_addr. intros E. assert (j = i) as -> by nia. set_solver.
      * rewrite lookup_insert_ne in Hb1 by done. split; [right; exists b1, sz1, c1, n1, fr1, j; done|].
        intros E. destruct (l_valid _ _ _ HL _ _ _ Hb1) as [_ (? & Hc1 & _)].
        pose proof (object_in_slab c1 j Hc1 Hj). pose proof (osize_bounds c1 Hc1). unfold object_addr in E.
        destruct (blocks_apart H _ _ _ _ _ _ HL Hb1 Hb Hne); zoffs.
Qed.

Lemma wp_slab_free_object H s b sz c n fr i p :
  held (mem s) H -> size_caches_at s = caches -> object_size (cache_of (size_caches s) c) = osize c ->
  H !! b = Some (sz, SlabOf c n fr) -> 0 <= i < ocount c -> i ∉ fr ->
  object_addr b c i <= p < object_addr b c i + osize c ->
  wp (slab_free_object (b + sizeof_block) p) (fun _ s' => exists m,
    s' = with_caches (zset c (count_objects 0 (-1) 0 (cache_of (size_caches s) c)) (size_caches s)) (with_mem m s) /\
    held m (<[b := (sz, SlabOf c n (i :: fr))]> H) /\
    loses (mem s) H (object_addr b c i) m (<[b := (sz, SlabOf c n (i :: fr))]> H)) s.
Proof.
  intros Hh Hsc Hos Hb Hi Hni Hp. pose proof (held_addr _ _ _ _ _ Hh Hb) as Ha. pose proof (h_layout _ _ _ _ _ Hh) as HL.
  destruct (l_valid _ _ _ HL _ _ _ Hb) as [_ (Hsz & Hc & Hnd & Hfr)].
  destruct (h_rep _ _ _ _ _ Hh _ _ _ Hb) as (F0 & F1 & A1 & A2 & A3 & A4 & A5 & A6).
  pose proof (osize_bounds c Hc) as Hosb. pose proof (object_in_slab c i Hc Hi) as Hin.
  unfold slab_free_object.
  replace ((b + sizeof_block =? 0) || (p =? 0))%bool with false
    by (symmetry; apply orb_false_intro; apply Z.eqb_neq; unfold object_addr in Hp; zoffs).
  wp_go. rewrite A1, A5. unfold load_cache. wp_go. rewrite cache_at_ptr, Hos by (done || lia).
  replace ((p - (b + sizeof_block + sizeof_slab)) / osize c) with i
    by (apply Z.div_unique with (p - object_addr b c i); unfold object_addr in *; lia).
  rewrite (u32_id i), free_link_eq, A3 by (done || lia). wp_go.
  unfold update_cache. wp_go. cbn [mem with_mem].
  set (m1 := mstore 4 (mem s) _ _). set (m2 := mstore 4 m1 _ _).
  assert (mload 4 m2 (b + sizeof_block + Slab.free_objects) = Z.of_nat (length fr)) as E.
  { unfold m2, m1. ldst. done. }
  rewrite E. set (m3 := mstore 4 m2 _ _). exists m3. split.
  { rewrite cache_ptr_index, cache_at_ptr by (done || lia). done. }
  assert (forall x, x < b + 32 \/ b + 72 <= x -> x < object_addr b c i \/ object_addr b c i + osize c <= x ->
    byte_at m3 x = byte_at (mem s) x) as Hs.
  { unfold object_addr. intros x Hx Hx2. unfold m3, m2, m1.
    rewrite (same_bytes_mstore x 1), (same_bytes_mstore x 1), (same_bytes_mstore x 1) by zoffs. done. }
  pose proof (free_short c fr Hc Hnd Hfr) as Hlen. pose proof (head_fits c fr Hc Hfr) as Hfh.
  split; [|by apply loses_slab].
  assert (forall j, j ∈ i :: fr -> 0 <= j < ocount c) as Hfr' by set_solver.
  eapply slab_change; [done|done|by apply NoDup_cons|exact Hfr'| |].
  { intros x Hx. apply Hs; unfold object_addr; zoffs. }
  assert (fits 4 (u32 (Z.of_nat (length fr) + 1))) as Hf2 by apply u32_range.
  assert (fits 4 i) as Hf3 by (split; lia).
  split; [unfold m3, m2, m1; ldst; done|]. split; [unfold m3, m2, m1; ldst; done|].
  repeat split; try (unfold m3, m2, m1; ldst; done).
  - unfold m3. ldst. cbn [length]. rewrite u32_id; lia.
  - eapply (chain_other (mem s)); [done|exact Hni|exact Hfr| |done].
    intros x Hx Hx2. apply Hs; unfold object_addr; zoffs.
Qed.

(** ** Creating a slab *)
Lemma wp_link_objects s c memory n i :
  0 <= c < 10 -> 0 <= i -> i + Z.of_nat n < ocount c ->
  wp (link_objects n memory (osize c) i) (fun _ s' => exists m,
    s' = with_mem m s /\
    (forall j, i <= j < i + Z.of_nat n -> mload 4 m (memory + j * osize c) = j + 1) /\
    (forall x, x < memory + i * osize c \/ memory + (i + Z.of_nat n) * osize c <= x ->
       byte_at m x = byte_at (mem s) x)) s.
Proof.
  intros Hc. pose proof (osize_bounds c Hc). revert s i. induction n as [|n IH]; intros s i Hi Hn.
  { apply wp_ret. exists (mem s). rewrite with_mem_id. split_and!; [done|lia|done]. }
  cbn [link_objects]. rewrite free_link_eq, u32_id by lia. wp_go.
  eapply wp_mono; [|apply (IH _ (i + 1)); lia].
  intros _ s' (m & -> & Hl & Ho). exists m. split_and!; [done| |]; cbn [mem with_mem] in *.
  - intros j Hj. destruct (decide (j = i)) as [->|Hne]; [|apply Hl; lia].
    rewrite (mload_ext 4 (mstore 4 (mem s) (memory + i * osize c) (i + 1)) m).
    + apply mload_mstore. split; lia.
    + intros x Hx. apply Ho. lia.
  - intros x Hx. rewrite Ho by lia. apply (same_bytes_mstore x 1); lia.
Qed.

Lemma chain_seqZ m memory os i k n :
  (forall j, i <= j < n - 1 -> mload 4 m (memory + j * os) = j + 1) ->
  mload 4 m (memory + (n - 1) * os) = NO_OBJECT -> n = i + Z.of_nat k ->
  chain m memory os (seqZ i (Z.of_nat k)).
Proof.
  revert i. induction k as [|k IH]; intros i Hl Hn E; [done|].
  rewrite seqZ_cons by lia. replace (Z.pred (Z.of_nat (S k))) with (Z.of_nat k) by lia.
  cbn [chain]. split; [|apply IH; [intros; apply Hl; lia|done|lia]].
  destruct k as [|k]; [replace i with (n - 1) by lia; exact Hn|].
  rewrite seqZ_cons by lia. cbn [hd]. rewrite Hl by lia. done.
Qed.

(** A large allocation turned into a slab. *)
Lemma make_slab m m' H b sz c n fr :
  held m H -> H !! b = Some (sz, Large) -> valid sz (SlabOf c n fr) ->
  (forall x, x < b + 32 \/ b + sz <= x -> byte_at m' x = byte_at m x) ->
  slab_at caches m' (b + sizeof_block) c n fr ->
  let H' := <[b := (sz, SlabOf c n fr)]> H in
  held m' H' /\
  (forall q cap, object H q cap -> q <> b + sizeof_block -> object H' q cap /\ same_bytes q cap m m').
Proof.
  intros Hh Hb Hv Hs Hat H'. pose proof (held_addr _ _ _ _ _ Hh Hb). destruct Hh as [? ? HL Hr].
  destruct (Hr _ _ _ Hb) as (F0 & F1). split.
  - split; [done|done|eapply layout_update; done|]. eapply rep_update; [done|done|done| |].
    + intros x Hx. apply Hs. lia.
    + split; [|split; [|done]].
      * rewrite <- F0. apply mload_ext. intros x Hx. apply Hs. zoffs.
      * rewrite <- F1. apply mload_ext. intros x Hx. apply Hs. zoffs.
  - intros q cap Ho Hq. destruct (object_in_block H q cap HL Ho) as (b2 & sz2 & k2 & H2 & ? & ? & _ & _ & Hk2).
    assert (b2 <> b) as Hne by (intros ->; rewrite Hb in H2; injection H2 as <- <-; zoffs). split.
    + destruct Ho as [(b1 & sz1 & Hb1 & -> & ->)|(b1 & sz1 & c1 & n1 & fr1 & i & Hb1 & Hi1)].
      * left. exists b1, sz1. unfold H'. rewrite lookup_insert_ne; [done|]. zoffs.
      * right. exists b1, sz1, c1, n1, fr1, i. unfold H'. rewrite lookup_insert_ne; [done|congruence].
    + intros x Hx. apply Hs. destruct (blocks_apart H _ _ _ _ _ _ HL H2 Hb Hne); lia.
Qed.

(** The descriptor and the free list [create_slab] writes. *)
Lemma wp_init_slab s b c ca :
  0 <= c < 10 -> 0 < b -> b + 4200 <= 2 ^ 64 -> fits 8 (caches + c * sizeof_cache) -> cache_static c ca ->
  let slab := b + sizeof_block in let memory := slab + sizeof_slab in
  wp (init_slab slab (caches + c * sizeof_cache) ca)
    (fun _ s' => exists m, s' = with_mem m s /\
      (forall x, x < b + 32 \/ b + 4168 <= x -> byte_at m x = byte_at (mem s) x) /\
      slab_at caches m slab c 0 (seqZ 0 (ocount c))) s.
Proof.
  intros Hc Hb Hlt Hfc [Exs _ Exc _] slab memory. pose proof (osize_bounds c Hc) as Hos.
  unfold init_slab. rewrite Exs, Exc. fold memory. wp_go.
  rewrite u32_id by lia. rewrite free_link_eq by lia.
  eapply wp_mono; [|apply (wp_link_objects _ c); lia].
  intros _ s1 (m & -> & Hl & Ho). wp_go. cbn [mem with_mem] in *. rewrite Z2Nat.id, Z.add_0_l in * by lia.
  set (m6 := mstore 4 (mstore 8 _ (slab + Slab.cache) _) _ _) in *.
  set (m7 := mstore 4 m _ _). exists m7. split; [done|].
  pose proof (object_in_slab c (ocount c - 1) Hc ltac:(lia)) as Hlast.
  assert (forall x, x < memory \/ memory + 4096 <= x -> byte_at m7 x = byte_at m6 x) as H7.
  { intros x Hx. unfold m7. rewrite (same_bytes_mstore x 1) by zoffs. apply Ho. lia. }
  assert (forall x, x < b + 32 \/ b + 72 <= x -> byte_at m6 x = byte_at (mem s) x) as H6.
  { intros x Hx. unfold m6, slab. do 6 (rewrite (same_bytes_mstore x 1) by zoffs). done. }
  assert (forall w a, b + 32 <= a -> a + Z.of_nat w <= b + 72 -> mload w m7 a = mload w m6 a) as Hld.
  { intros w a ? ?. apply mload_ext. intros x Hx. apply H7. unfold memory, slab. zoffs. }
  split; [intros x Hx; rewrite H7 by (unfold memory, slab; zoffs); apply H6; lia|].
  assert (fits 8 memory) as Hfm by (unfold memory, slab; split; zoffs).
  assert (fits 4 (ocount c)) as Hfo by (split; lia).
  assert (fits 8 0 /\ fits 4 0) as [Hf8 Hf4] by (by repeat split; vm_compute).
  unfold slab_at. rewrite !Hld by (unfold slab; zoffs). unfold m6, slab.
  split; [ldst; done|]. split; [ldst; rewrite length_seqZ; lia|].
  split; [ldst; rewrite seqZ_cons by lia; done|]. split; [ldst; done|]. split; [ldst; done|].
  fold slab memory. rewrite <- (Z2Nat.id (ocount c)) by lia.
  apply (chain_seqZ _ _ _ _ _ (ocount c)); [| |lia].
  - intros j Hj. pose proof (objects_apart c j (ocount c - 1) Hc ltac:(lia)). unfold m7.
    rewrite mload_mstore_ne by zoffs. apply Hl. lia.
  - apply mload_mstore. by split; vm_compute.
Qed.

(** What changes when a slab with all its objects free joins the slabs of
    cache [c]. *)
Definition slab_added H b sz c n fr H' : Prop :=
  H' !! b = Some (sz, SlabOf c n fr) /\
  (forall b2 sz2 c2 n2 fr2, b2 <> b -> (H !! b2 = Some (sz2, SlabOf c2 n2 fr2) <-> H' !! b2 = Some (sz2, SlabOf c2 n2 fr2))) /\
  (forall sz2 c2 n2 fr2, H !! b <> Some (sz2, SlabOf c2 n2 fr2)).

(** No free block holds a new slab. *)
Definition no_slab (H : gmap Z (Z * block_t)) (s : kalloc_t) : Prop :=
  exists l, large_inv (base := base) (lim := lim) (caches := caches) H l s /\ forall x, x ∈ l -> bsize H x < total_of (sizeof_slab + KALLOC_ALIGN_PAGE).

Lemma wp_create_slab H s c :
  kalloc_inv base lim caches H s -> 0 <= c < 10 ->
  wp (create_slab (caches + c * sizeof_cache)) (fun r s' =>
    (r = 0 /\ s' = s /\ no_slab H s) \/
    (exists H' b sz,
       r = b + sizeof_block /\ 0 < b /\ slab_added H b sz c 0 (seqZ 0 (ocount c)) H' /\
       (exists l, large_inv (base := base) (lim := lim) (caches := caches) H' l s') /\
       size_caches s' = zset c (count_objects 1 0 (ocount c) (cache_of (size_caches s) c)) (size_caches s) /\
       same_control s s' /\ keeps (mem s) H (mem s') H')) s.
Proof.
  intros [[l Hi] [Hcl Hck] Hat] Hc. destruct (Hck c Hc) as (lf & lp & Hok). pose proof (co_static _ _ _ _ _ Hok) as Hst.
  pose proof (li_caches _ _ _ Hi) as Hsc. pose proof (osize_bounds c Hc) as Hos.
  unfold create_slab, load_cache. wp_go. rewrite cache_at_ptr by (done || lia). rewrite (cs_slab _ _ Hst).
  eapply wp_mono; [|apply (wp_kalloc_large H l s _ Hi); zoffs].
  intros r s1 [(-> & -> & Hsmall)|(H1 & l1 & b & sz & m1 & p & -> & Hb0 & Hb & Hsz & -> & Hi1 & Hk1 & Hsk & Hnew)].
  { cbn [Z.eqb]. apply wp_ret. left. split; [done|]. split; [done|]. by exists l. }
  replace (b + sizeof_block =? 0) with false by (symmetry; apply Z.eqb_neq; zoffs).
  destruct (li_list _ _ _ Hi1) as (Hh1 & Hd1 & Hnd1 & Hhd1). pose proof (held_addr _ _ _ _ _ Hh1 Hb) as Ha.
  assert (fits 8 (caches + c * sizeof_cache)) as Hfc by (unfold sizeof_cache; split; lia).
  wp_go. eapply wp_mono; [|apply (wp_init_slab _ b c); [done|done|zoffs|done|done]].
  intros _ s2 (m2 & -> & Hm2 & Hslab). cbn [mem with_mem with_large] in *.
  unfold update_cache, update_stats. wp_go. rewrite (cs_count _ _ Hst).
  rewrite cache_ptr_index, cache_at_ptr by (done || lia). right.
  assert (valid sz (SlabOf c 0 (seqZ 0 (ocount c)))) as Hv.
  { split; [zoffs|]. split_and!; [zoffs|lia|lia|apply NoDup_seqZ|]. intros i Hin%elem_of_seqZ. lia. }
  destruct (make_slab m1 m2 H1 b sz c 0 (seqZ 0 (ocount c)) Hh1 Hb Hv) as [Hh2 Hk2];
    [intros x Hx; apply Hm2; zoffs|done|].
  set (H2 := <[b := _]> H1) in *. exists H2, b, sz. split; [done|]. split; [done|].
  split; [|split; [|split; [|split]]].
  - split; [apply lookup_insert_eq|]. split.
    + intros b2 sz2 c2 n2 fr2 Hne. unfold H2. rewrite lookup_insert_ne by done. apply Hsk.
    + intros sz2 c2 n2 fr2 Hbs%Hsk. congruence.
  - exists l1. assert (b ∉ l1) as Hbl.
    { intros Hin. destruct (dll_lookup _ _ _ _ _ Hd1 Hin) as (? & ? & ? & ?). congruence. }
    split; try (by destruct Hi1).
    + split_and!; [done|by apply dll_insert_ne|done|done].
    + intros x (? & ? & ? & Hx). apply (li_free _ _ _ Hi1). destruct (decide (x = b)) as [->|Hne].
      * unfold H2 in Hx. by rewrite lookup_insert_eq in Hx.
      * unfold H2 in Hx. rewrite lookup_insert_ne in Hx by done. repeat eexists; exact Hx.
  - done.
  - done.
  - intros q cap Ho. destruct (Hk1 q cap Ho) as [Ho1 Hs1].
    destruct (Hk2 q cap Ho1) as [Ho2 Hs2]; [intros ->; by apply (Hnew cap)|].
    split; [done|]. by eapply same_bytes_trans.
Qed.

(** ** Taking an object from a cache *)
Lemma held_next m H b sz c n fr n' :
  held m H -> H !! b = Some (sz, SlabOf c n fr) -> fits 8 n' ->
  let m' := mstore 8 m (b + sizeof_block + Slab.next) n' in
  let H' := <[b := (sz, SlabOf c n' fr)]> H in
  held m' H' /\ keeps m H m' H'.
Proof.
  intros Hh Hb Hn m' H'. destruct (l_valid _ _ _ (h_layout _ _ _ _ _ Hh) _ _ _ Hb) as [_ (Hsz & Hc & Hnd & Hfr)].
  destruct (h_rep _ _ _ _ _ Hh _ _ _ Hb) as (F0 & F1 & A1 & A2 & A3 & A4 & A5 & A6).
  assert (forall x, x < b + 32 \/ b + 72 <= x -> byte_at m' x = byte_at m x) as Hs.
  { intros x Hx. apply (same_bytes_mstore x 1); zoffs. }
  split.
  - eapply slab_change; [done|done|done|exact Hfr|intros x Hx; apply Hs; lia|].
    repeat split; unfold m'; try (ldst; done).
    eapply (chain_ext m _ _ _ _ 4096); [|by apply free_word_in|done]. intros x Hx. apply Hs. zoffs.
  - eapply keeps_slab; [done|done|done|done].
Qed.

(** A change of one slab of cache [c], seen from the lists of free blocks
    and of the other caches. *)
Lemma large_inv_slab H l s b sz c n fr n' fr' m cs :
  large_inv (base := base) (lim := lim) (caches := caches) H l s -> H !! b = Some (sz, SlabOf c n fr) ->
  held m (<[b := (sz, SlabOf c n' fr')]> H) ->
  large_inv (base := base) (lim := lim) (caches := caches) (<[b := (sz, SlabOf c n' fr')]> H) l
    (with_caches cs (with_mem m s)).
Proof.
  intros [(Hh & Hd & Hnd & Hhd) Hf ? ? ?] Hb Hm.
  assert (b ∉ l) as Hbl.
  { intros Hin. destruct (dll_lookup _ _ _ _ _ Hd Hin) as (? & ? & ? & ?). congruence. }
  split; try done.
  - split_and!; [done|by apply dll_insert_ne|done|done].
  - intros x (? & ? & ? & Hx). apply Hf. destruct (decide (x = b)) as [->|Hne].
    + by rewrite lookup_insert_eq in Hx.
    + rewrite lookup_insert_ne in Hx by done. repeat eexists; exact Hx.
Qed.

Lemma cache_ok_other H b sz c n fr n' fr' c' x lf lp :
  H !! b = Some (sz, SlabOf c n fr) -> c' <> c -> cache_ok H c' x lf lp ->
  cache_ok (<[b := (sz, SlabOf c n' fr')]> H) c' x lf lp.
Proof.
  intros Hb Hne [? ? ? ? Hlf Hlp ? Ha Hs].
  assert (forall y sz2 n2 fr2, <[b := (sz, SlabOf c n' fr')]> H !! y = Some (sz2, SlabOf c' n2 fr2) ->
    H !! y = Some (sz2, SlabOf c' n2 fr2)) as Hback.
  { intros y sz2 n2 fr2 Hy. destruct (decide (y = b)) as [->|]; [rewrite lookup_insert_eq in Hy; congruence|].
    by rewrite lookup_insert_ne in Hy. }
  assert (forall l, slab_list H c' l -> slab_list (<[b := (sz, SlabOf c n' fr')]> H) c' l) as Hl.
  { intros l. apply slab_list_ext. intros y sz2 n2 fr2 _ Hy. exists sz2, fr2.
    rewrite lookup_insert_ne; [done|]. intros ->. congruence. }
  split; try done; eauto.
Qed.

Lemma slab_added_other H b sz c n fr H' c' x lf lp :
  slab_added H b sz c n fr H' -> c' <> c -> cache_ok H c' x lf lp -> cache_ok H' c' x lf lp.
Proof.
  intros (Hb & Hiff & Hno) Hne [? ? ? ? Hlf Hlp ? Ha Hs].
  assert (forall y sz2 n2 fr2, H' !! y = Some (sz2, SlabOf c' n2 fr2) <-> H !! y = Some (sz2, SlabOf c' n2 fr2)) as Hback.
  { intros y sz2 n2 fr2. destruct (decide (y = b)) as [->|]; [|by rewrite Hiff]. rewrite Hb.
    split; [congruence|]. intros Hy. by destruct (Hno _ _ _ _ Hy). }
  assert (forall l, slab_list H c' l -> slab_list H' c' l) as Hl.
  { intros l. apply slab_list_ext. intros y sz2 n2 fr2 _ Hy. exists sz2, fr2. by apply Hback. }
  split; try done; eauto.
  - intros b2 sz2 n2 fr2 Hy%Hback. eauto.
  - intros s2 sz2 n2 fr2 Hin Hy%Hback. eauto.
Qed.
End slab.
