(* ===== verification/KallocCache.v ===== *)
(** * Allocation and release through the caches (kernel/kalloc.c)

    [kalloc_cache_alloc] keeps the invariant and hands out a new object of
    the cache's size; the search of [kfree] finds the slab of an object and
    no other; giving the object back keeps the invariant. *)
From Stdlib Require Import ZArith Lia Znumtheory.
From stdpp Require Import gmap.
From S2P Require Import Prelude.
From S2P Require Import Memory.
From S2P Require Import Kalloc.
From S2P Require Import KallocHeap.
From S2P Require Import KallocLarge.
From S2P Require Import KallocSlab.
Open Scope Z_scope.

Section cache.
Context {base lim caches : Z}.
Implicit Types H : gmap Z (Z * block_t).
Abbreviation held := (held base lim caches) (only parsing).
Abbreviation inv := (kalloc_inv base lim caches) (only parsing).
Abbreviation large := (large_inv (base := base) (lim := lim) (caches := caches)) (only parsing).

(** The slab comes first on the partial list and has a free object. *)
Definition picked (s : kalloc_t) H c (r : Z) (s' : kalloc_t) H' : Prop :=
  exists b sz n i fr lf lp,
    r = b + sizeof_block /\ 0 < b /\ H' !! b = Some (sz, SlabOf c n (i :: fr)) /\
    inv H' s' /\ cache_ok H' c (cache_of (size_caches s') c) lf (r :: lp) /\
    same_control s s' /\ keeps (mem s) H (mem s') H'.

Lemma same_control_refl s : same_control s s.
Proof. done. Qed.
Lemma same_control_trans s1 s2 s3 : same_control s1 s2 -> same_control s2 s3 -> same_control s1 s3.
Proof. intros [A B] [C D]. split; congruence. Qed.

Lemma large_update H l s cs m : large H l (with_mem m s) -> large H l (with_caches cs (with_mem m s)).
Proof. intros [? ? ? ? ?]. by split. Qed.

Lemma zset_zset {A} i (x y : A) l : zset i x (zset i y l) = zset i x l.
Proof. apply list_insert_insert_eq. Qed.

Lemma cache_of_zset cs c x : length cs = 10%nat -> 0 <= c < 10 -> cache_of (zset c x cs) c = x.
Proof. intros Hl Hc. unfold cache_of. rewrite zget_zset by lia. by rewrite Z.eqb_refl. Qed.

(** A new slab joins the caches as the only partial slab of its cache. *)
Lemma cache_ok_added H b sz c fr H' x x' lf :
  slab_added H b sz c 0 fr H' -> fr <> [] -> cache_ok H c x lf [] ->
  cache_static c x' -> full_slabs x' = full_slabs x -> empty_slabs x' = empty_slabs x ->
  partial_slabs x' = b + sizeof_block ->
  cache_ok H' c x' lf [b + sizeof_block].
Proof.
  intros (Hb & Hiff & Hno) Hfr [? Hfull ? Hempty Hlf ? Hnd Ha Hs] Hst Ef Ee Ep.
  rewrite app_nil_r in Hnd.
  assert (forall y, y ∈ lf -> y <> b + sizeof_block) as Hnb.
  { intros y Hy ->. destruct (slab_list_lookup _ _ _ _ Hlf Hy) as (? & ? & ? & E).
    replace (b + sizeof_block - sizeof_block) with b in E by lia. by apply Hno in E. }
  split; cbn [hd]; try congruence.
  - eapply slab_list_ext; [|exact Hlf]. intros y sz2 n2 fr2 Hy E. exists sz2, fr2. apply Hiff; [|done].
    pose proof (Hnb y Hy). lia.
  - split; [|done]. replace (b + sizeof_block - sizeof_block) with b by lia. eauto.
  - apply NoDup_app. split_and!; [done|set_solver|apply NoDup_singleton].
  - intros b2 sz2 n2 fr2 E. destruct (decide (b2 = b)) as [->|Hne]; [set_solver|].
    apply Hiff in E; [|done]. apply Ha in E. set_solver.
  - intros y sz2 n2 fr2 ->%list_elem_of_singleton E.
    replace (b + sizeof_block - sizeof_block) with b in E by lia. congruence.
Qed.

Lemma wp_pick_slab H s c :
  inv H s -> 0 <= c < 10 ->
  wp (pick_slab (caches + c * sizeof_cache)) (fun r s' =>
    (r = 0 /\ s' = s /\ no_slab (base := base) (lim := lim) (caches := caches) H s) \/ exists H', picked s H c r s' H') s.
Proof.
  intros Hinv Hc. pose proof Hinv as [[l Hi] [Hcl Hck] Hat]. destruct (Hck c Hc) as (lf & lp & Hok).
  pose proof (li_caches _ _ _ Hi) as Hsc. destruct (li_list _ _ _ Hi) as (Hh & _).
  unfold pick_slab, load_cache. wp_go. rewrite cache_at_ptr, (co_partial _ _ _ _ _ Hok), (co_empty _ _ _ _ _ Hok) by (done || lia).
  destruct lp as [|r lp]; cbn [hd].
  - cbn [Z.eqb negb]. wp_go. eapply wp_mono; [|apply (wp_create_slab H s c Hinv Hc)].
    intros r s1 [(-> & -> & Hfull)|(H1 & b & sz & -> & Hb0 & Hadd & [l1 Hi1] & Ecs & Hctl & Hkeep)].
    { cbn [Z.eqb]. apply wp_ret. by left. }
    replace (b + sizeof_block =? 0) with false by (symmetry; apply Z.eqb_neq; zoffs).
    pose proof (li_caches _ _ _ Hi1) as Hsc1. pose proof (osize_bounds c Hc) as Hos.
    unfold update_cache. wp_go. rewrite cache_ptr_index, !cache_at_ptr by (done || lia).
    cbn [size_caches with_mem]. rewrite Ecs, cache_of_zset, zset_zset by done.
    set (x1 := count_objects 1 0 (ocount c) (cache_of (size_caches s) c)).
    replace (partial_slabs x1) with 0 by (symmetry; apply (co_partial _ _ _ _ _ Hok)).
    destruct (li_list _ _ _ Hi1) as (Hh1 & _). destruct Hadd as (Hb & Hiff & Hno).
    destruct (held_next (mem s1) H1 b sz c 0 _ 0 Hh1 Hb) as [Hh2 Hk2]; [by split|].
    rewrite insert_id in Hh2, Hk2 by done. right. exists H1.
    assert (seqZ 0 (ocount c) = 0 :: seqZ 1 (ocount c - 1)) as Eseq by (rewrite seqZ_cons by lia; f_equal; f_equal; lia).
    assert (cache_ok H1 c (set_partial (b + sizeof_block) x1) lf [b + sizeof_block]) as Hok1.
    { destruct (co_static _ _ _ _ _ Hok).
      eapply (cache_ok_added H b sz c _ H1 (cache_of (size_caches s) c)); [done|by rewrite Eseq|done|by split|done..]. }
    exists b, sz, 0, 0, (seqZ 1 (ocount c - 1)), lf, []. rewrite <- Eseq. split; [done|]. split; [done|]. split; [done|].
    split; [|split; [|split; [exact Hctl|]]].
    + split; [|cbn [size_caches with_caches]|done].
      * exists l1. apply large_update. rewrite <- (insert_id H1 b (sz, SlabOf c 0 (seqZ 0 (ocount c)))) in Hh2 by done.
        pose proof (large_inv_slab H1 l1 s1 b sz c 0 _ 0 _ _ (size_caches s1) Hi1 Hb Hh2) as HI.
        rewrite insert_id in HI by done. destruct HI. by split.
      * eapply caches_ok_set; [by split|done|exact Hok1|]. intros. by eapply slab_added_other.
    + cbn [size_caches with_caches]. rewrite cache_of_zset by done. exact Hok1.
    + cbn [mem with_caches with_mem]. eapply heap_keeps_trans; [exact Hkeep|exact Hk2].
  - destruct (co_lp _ _ _ _ _ Hok) as [(sz & fr & Hb) _]. pose proof (held_addr _ _ _ _ _ Hh Hb) as Ha.
    replace (r =? 0) with false by (symmetry; apply Z.eqb_neq; zoffs). cbn [negb]. apply wp_ret. right.
    pose proof (co_some _ _ _ _ _ Hok r _ _ _ ltac:(set_solver) Hb) as Hne. destruct fr as [|i fr]; [done|].
    exists H, (r - sizeof_block), sz, (hd 0 lp), i, fr, lf, lp.
    split; [lia|]. split; [lia|]. split; [done|]. split; [done|]. split; [done|].
    split; [apply same_control_refl|apply heap_keeps_refl].
Qed.

(** An object of a slab of the cache was taken or given back. *)
Lemma cache_ok_objects H b sz c n fr fr' x x' lf lp :
  H !! b = Some (sz, SlabOf c n fr) -> cache_ok H c x lf lp -> cache_static c x' ->
  full_slabs x' = full_slabs x -> partial_slabs x' = partial_slabs x -> empty_slabs x' = empty_slabs x ->
  (b + sizeof_block ∈ lp -> fr' <> []) ->
  cache_ok (<[b := (sz, SlabOf c n fr')]> H) c x' lf lp.
Proof.
  intros Hb [? ? ? ? Hlf Hlp ? Ha Hs] Hst Ef Ep Ee Hfr.
  assert (forall l, slab_list H c l -> slab_list (<[b := (sz, SlabOf c n fr')]> H) c l) as Hl.
  { intros l. apply slab_list_ext. intros y sz2 n2 fr2 _ Hy. destruct (decide (y - sizeof_block = b)) as [E|].
    - exists sz, fr'. rewrite E, lookup_insert_eq. rewrite E, Hb in Hy. by injection Hy as <- <- <-.
    - exists sz2, fr2. by rewrite lookup_insert_ne. }
  split; try congruence; eauto.
  - intros b2 sz2 n2 fr2 E. destruct (decide (b2 = b)) as [->|Hne]; [eauto|].
    rewrite lookup_insert_ne in E by done. eauto.
  - intros y sz2 n2 fr2 Hy E. destruct (decide (y - sizeof_block = b)) as [Ey|Hne].
    + rewrite Ey, lookup_insert_eq in E. injection E as <- <- <-. apply Hfr.
      replace (b + sizeof_block) with y by lia. done.
    + rewrite lookup_insert_ne in E by done. eauto.
Qed.

(** A full slab moved to the front of the full list. *)
Lemma cache_ok_retired H b sz c n x lf lp :
  H !! b = Some (sz, SlabOf c n []) ->
  cache_static c x -> full_slabs x = b + sizeof_block -> partial_slabs x = hd 0 lp -> empty_slabs x = 0 ->
  slab_list H c lf -> slab_list H c lp -> NoDup (lf ++ (b + sizeof_block) :: lp) ->
  (forall b2 sz2 n2 fr2, H !! b2 = Some (sz2, SlabOf c n2 fr2) -> b2 + sizeof_block ∈ lf ++ (b + sizeof_block) :: lp) ->
  (forall y sz2 n2 fr2, y ∈ lp -> H !! (y - sizeof_block) = Some (sz2, SlabOf c n2 fr2) -> fr2 <> []) ->
  cache_ok (<[b := (sz, SlabOf c (hd 0 lf) [])]> H) c x ((b + sizeof_block) :: lf) lp.
Proof.
  intros Hb Hst Ef Ep Ee Hlf Hlp Hnd Ha Hs.
  assert (forall l, b + sizeof_block ∉ l -> slab_list H c l -> slab_list (<[b := (sz, SlabOf c (hd 0 lf) [])]> H) c l) as Hl.
  { intros l Hbl. apply slab_list_ext. intros y sz2 n2 fr2 Hy E. exists sz2, fr2. rewrite lookup_insert_ne; [done|].
    intros ->. apply Hbl. replace (y - sizeof_block + sizeof_block) with y by lia. done. }
  assert (b + sizeof_block ∉ lf ++ lp /\ NoDup (lf ++ lp)) as [Hni Hnd'].
  { rewrite <- NoDup_cons, Permutation_middle. done. }
  split; try done.
  - split; [|apply Hl; [set_solver|done]]. replace (b + sizeof_block - sizeof_block) with b by lia.
    exists sz, []. apply lookup_insert_eq.
  - apply Hl; [set_solver|done].
  - by apply NoDup_cons.
  - intros b2 sz2 n2 fr2 E. destruct (decide (b2 = b)) as [->|Hne]; [set_solver|].
    rewrite lookup_insert_ne in E by done. apply Ha in E. set_solver.
  - intros y sz2 n2 fr2 Hy E. assert (y - sizeof_block <> b) as Hne.
    { intros <-. apply Hni. replace (y - sizeof_block + sizeof_block) with y by lia. set_solver. }
    rewrite lookup_insert_ne in E by done. eauto.
Qed.

Lemma slab_addr m H c l : held m H -> slab_list H c l -> fits 8 (hd 0 l).
Proof.
  intros Hh Hl. destruct l as [|y l]; [by split|]. destruct Hl as [(sz & fr & Hb) _].
  pose proof (held_addr _ _ _ _ _ Hh Hb). split; cbn [hd]; zoffs.
Qed.

Lemma wp_retire_slab H s b sz c n lf lp l :
  large H l s -> length (size_caches s) = 10%nat -> 0 <= c < 10 ->
  H !! b = Some (sz, SlabOf c n []) ->
  let r := b + sizeof_block in
  let x := cache_of (size_caches s) c in
  cache_static c x -> full_slabs x = hd 0 lf -> partial_slabs x = r -> empty_slabs x = 0 ->
  slab_list H c lf -> slab_list H c (r :: lp) ->
  wp (retire_slab (caches + c * sizeof_cache) r) (fun _ s' => exists m,
    s' = with_caches (zset c (set_full r (set_partial (hd 0 lp) x)) (size_caches s)) (with_mem m s) /\
    large (<[b := (sz, SlabOf c (hd 0 lf) [])]> H) l s' /\
    keeps (mem s) H m (<[b := (sz, SlabOf c (hd 0 lf) [])]> H)) s.
Proof.
  intros Hi Hcl Hc Hb r x Hst Ef Ep Ee Hlf [(sz' & fr' & Hb') Hlp].
  pose proof (li_caches _ _ _ Hi) as Hsc. destruct (li_list _ _ _ Hi) as (Hh & _).
  replace (r - sizeof_block) with b in Hb' by (unfold r; lia). rewrite Hb in Hb'. injection Hb' as <- -> <-.
  destruct (h_rep _ _ _ _ _ Hh _ _ _ Hb) as (F0 & F1 & A1 & A2 & A3 & A4 & A5 & A6).
  unfold retire_slab, load_cache, update_cache. wp_go. fold r in A4. rewrite A4, cache_at_ptr by (done || lia).
  fold x. rewrite Ep, Z.eqb_refl. wp_go.
  rewrite !cache_ptr_index, !cache_at_ptr by (done || lia). cbn [size_caches with_caches with_mem mem].
  fold x. rewrite cache_of_zset, zset_zset by done.
  replace (full_slabs (set_partial (hd 0 lp) x)) with (hd 0 lf) by (symmetry; apply Ef).
  destruct (held_next (mem s) H b sz c _ _ (hd 0 lf) Hh Hb) as [Hh2 Hk2]; [by eapply slab_addr|]. fold r in Hh2, Hk2.
  eexists. split; [reflexivity|]. split; [|exact Hk2].
  exact (large_inv_slab _ _ _ _ _ _ _ _ _ _ _ _ Hi Hb Hh2).
Qed.

(** The caches after the last free object of a slab was taken. *)
Lemma caches_retired H cs b sz c n i x lf lp x' :
  H !! b = Some (sz, SlabOf c n [i]) -> cache_ok H c x lf (b + sizeof_block :: lp) -> caches_ok H cs -> 0 <= c < 10 ->
  cache_static c x' -> full_slabs x' = b + sizeof_block -> partial_slabs x' = hd 0 lp -> empty_slabs x' = 0 ->
  caches_ok (<[b := (sz, SlabOf c (hd 0 lf) [])]> (<[b := (sz, SlabOf c n [])]> H)) (zset c x' cs).
Proof.
  intros Hb Hok Hcks Hc Hst Ef Ep Ee. set (H2 := <[b := (sz, SlabOf c n [])]> H).
  assert (H2 !! b = Some (sz, SlabOf c n [])) as Hb2 by apply lookup_insert_eq.
  assert (forall lf', slab_list H c lf' -> slab_list H2 c lf') as Hl2.
  { intros lf'. apply slab_list_ext. intros y sz2 n2 fr2 _ Hy. destruct (decide (y - sizeof_block = b)) as [E|].
    - exists sz, []. rewrite E, Hb2. rewrite E, Hb in Hy. by injection Hy as <- <- <-.
    - exists sz2, fr2. unfold H2. by rewrite lookup_insert_ne. }
  eapply caches_ok_set; [exact Hcks|done|eapply (cache_ok_retired H2 b sz c n x' lf lp Hb2 Hst Ef Ep Ee)|].
  - apply Hl2, Hok.
  - apply Hl2, (co_lp _ _ _ _ _ Hok).
  - apply Hok.
  - intros b2 sz2 n2 fr2 E. destruct (decide (b2 = b)) as [->|Hne]; [set_solver|].
    unfold H2 in E. rewrite lookup_insert_ne in E by done. eapply co_all; [exact Hok|exact E].
  - intros y sz2 n2 fr2 Hy E. pose proof (co_nodup _ _ _ _ _ Hok) as (_ & _ & [Hny _]%NoDup_cons)%NoDup_app.
    assert (y - sizeof_block <> b) as Hne.
    { intros <-. apply Hny. replace (y - sizeof_block + sizeof_block) with y by lia. done. }
    unfold H2 in E. rewrite lookup_insert_ne in E by done.
    eapply (co_some _ _ _ _ _ Hok y); [set_solver|exact E].
  - intros c' x2 lf' lp' Hne Hok'. eapply cache_ok_other; [exact Hb2|done|].
    eapply cache_ok_other; [exact Hb|done|exact Hok'].
Qed.

(** An object of the cache's size, new to the heap; nothing else moves. *)
Lemma wp_kalloc_cache_alloc H s c :
  inv H s -> 0 <= c < 10 ->
  wp (kalloc_cache_alloc (caches + c * sizeof_cache)) (fun r s' =>
    (r = 0 /\ s' = s /\ no_slab (base := base) (lim := lim) (caches := caches) H s) \/
    (exists H', 0 < r /\ inv H' s' /\ same_control s s' /\ keeps (mem s) H (mem s') H' /\
       object H' r (osize c) /\ (forall cap, ~ object H r cap))) s.
Proof.
  intros Hinv Hc. unfold kalloc_cache_alloc. pose proof (ki_at _ _ _ _ _ Hinv) as Hat.
  replace (caches + c * sizeof_cache =? 0) with false by (symmetry; apply Z.eqb_neq; unfold sizeof_cache; lia).
  wp_go. eapply wp_mono; [|apply (wp_pick_slab H s c Hinv Hc)].
  intros r s1 [(-> & -> & Hfull)|(H1 & b & sz & n & i & fr & lf & lp & -> & Hb0 & Hb & Hinv1 & Hok & Hctl & Hkeep)].
  { cbn [Z.eqb]. apply wp_ret. by left. }
  replace (b + sizeof_block =? 0) with false by (symmetry; apply Z.eqb_neq; zoffs).
  destruct Hinv1 as [[l Hi1] Hcks1 _]. pose proof (li_caches _ _ _ Hi1) as Hsc1. destruct (li_list _ _ _ Hi1) as (Hh1 & _).
  set (x := cache_of (size_caches s1) c) in *. pose proof (co_static _ _ _ _ _ Hok) as Hst.
  pose proof (h_layout _ _ _ _ _ Hh1) as HL1.
  destruct (l_valid _ _ _ HL1 _ _ _ Hb) as [_ (Hsz & _ & Hnd & Hfr)].
  pose proof (Hfr i ltac:(set_solver)) as Hir. apply NoDup_cons in Hnd as [Hni Hnd].
  assert (forall cap, ~ object H (object_addr b c i) cap) as Hnew.
  { intros cap Ho. destruct (Hkeep _ _ Ho) as [Ho1 _].
    apply (slab_object H1 b sz c n (i :: fr) i HL1 Hb Hir) in Ho1 as [_ Hn]. set_solver. }
  wp_go. eapply wp_mono; [|apply (wp_slab_alloc_object H1 s1 b sz c n i fr Hh1 Hsc1 (cs_size _ _ Hst) Hb)].
  intros r s2 (m & -> & -> & Hh2 & Hk2). fold x. set (x2 := count_objects 0 1 0 x).
  set (H2 := <[b := (sz, SlabOf c n fr)]> H1) in *.
  assert (H2 !! b = Some (sz, SlabOf c n fr)) as Hb2 by apply lookup_insert_eq.
  pose proof (large_inv_slab H1 l s1 b sz c n _ n fr m (zset c x2 (size_caches s1)) Hi1 Hb Hh2) as Hi2. fold H2 in Hi2.
  assert (cache_static c x2) as Hst2 by (destruct Hst; by split).
  assert (0 < object_addr b c i) as Hpos.
  { pose proof (object_in_slab c i Hc Hir). unfold object_addr. zoffs. }
  destruct (h_rep _ _ _ _ _ Hh2 _ _ _ Hb2) as (_ & _ & _ & A2 & _). wp_go. cbn [mem with_caches with_mem].
  rewrite A2. pose proof (cks_length _ _ Hcks1) as Hcl1.
  assert (forall n', object (<[b := (sz, SlabOf c n' fr)]> H1) (object_addr b c i) (osize c)) as Hobj.
  { intros n'. right. exists b, sz, c, n', fr, i. rewrite lookup_insert_eq. done. }
  destruct fr as [|j fr].
  - cbn [length Z.of_nat Z.eqb]. destruct (co_lp _ _ _ _ _ Hok) as [Hr Hlp].
    assert (forall lf', slab_list H1 c lf' -> slab_list H2 c lf') as Hl2.
    { intros lf'. apply slab_list_ext. intros y sz2 n2 fr2 _ Hy. destruct (decide (y - sizeof_block = b)) as [E|].
      - exists sz, []. rewrite E, Hb2. rewrite E, Hb in Hy. by injection Hy as <- <- <-.
      - exists sz2, fr2. unfold H2. by rewrite lookup_insert_ne. }
    eapply wp_mono; [|eapply (wp_retire_slab H2 _ b sz c n lf lp l Hi2)]; cbn [size_caches with_caches with_mem];
      rewrite ?cache_of_zset by done; try done.
    + intros _ s3 (m3 & -> & Hi3 & Hk3). wp_go. right.
      cbn [size_caches with_caches with_mem mem] in *. rewrite zset_zset in *.
      set (x3 := set_full _ _) in *.
      exists (<[b := (sz, SlabOf c (hd 0 lf) [])]> H2). split; [done|]. split; [|split; [exact Hctl|split; [|split; [|done]]]].
      * split; [by exists l|cbn [size_caches with_caches]|done].
        apply (caches_retired H1 _ b sz c n i x lf lp x3 Hb Hok Hcks1 Hc); [destruct Hst2; by split|done..|].
        apply (co_empty _ _ _ _ _ Hok).
      * eapply heap_keeps_trans; [exact Hkeep|]. eapply heap_keeps_trans; [exact Hk2|exact Hk3].
      * unfold H2. rewrite insert_insert_eq. apply Hobj.
    + by rewrite length_zset.
    + apply (co_full _ _ _ _ _ Hok).
    + apply (co_partial _ _ _ _ _ Hok).
    + apply (co_empty _ _ _ _ _ Hok).
    + apply Hl2, Hok.
    + apply Hl2, Hok.
  - replace (Z.of_nat (length (j :: fr)) =? 0) with false by (symmetry; apply Z.eqb_neq; cbn; lia).
    wp_go. right. exists H2. split; [done|]. split; [|split; [exact Hctl|split; [|split; [apply Hobj|done]]]].
    + split; [by exists l|cbn [size_caches with_caches]|done].
      eapply caches_ok_set; [exact Hcks1|done|eapply (cache_ok_objects H1 b sz c n (i :: j :: fr)); [done|exact Hok|done..]|].
      intros c' x' lf' lp' Hne Hok'. eapply cache_ok_other; [exact Hb|done|exact Hok'].
    + eapply heap_keeps_trans; [exact Hkeep|exact Hk2].
Qed.
End cache.
