(* ===== verification/KallocSpec.v ===== *)
(** * The heap allocator implements a heap of byte arrays

    [kalloc], [kalloc_aligned] and [kfree] over the blocks and slabs, against
    the abstract heap a client sees: a map from pointers to the bytes stored
    there.  Whatever a client does with memory it holds, it never reaches the
    allocator's data or another object. *)
From Stdlib Require Import ZArith Lia Znumtheory.
From stdpp Require Import gmap.
From S2P Require Import Prelude.
From S2P Require Import Memory.
From S2P Require Import Kalloc.
From S2P Require Import KallocHeap.
From S2P Require Import KallocLarge.
From S2P Require Import KallocSlab.
From S2P Require Import KallocCache.
Open Scope Z_scope.

Section interface.
Context {base lim caches : Z}.
Implicit Types H : gmap Z (Z * block_t).
Abbreviation held := (held base lim caches) (only parsing).
Abbreviation inv := (kalloc_inv base lim caches) (only parsing).
Abbreviation large := (large_inv (base := base) (lim := lim) (caches := caches)) (only parsing).

(** ** What the invariant depends on *)
Lemma inv_ext H s s' :
  mem s' = mem s -> size_caches s' = size_caches s -> large_free_list s' = large_free_list s ->
  heap_base s' = heap_base s -> heap_size s' = heap_size s -> size_caches_at s' = size_caches_at s ->
  inv H s -> inv H s'.
Proof.
  intros E1 E2 E3 E4 E5 E6 [[l [(Hh & Hd & Hn & Hhd) Hf ? ? ?]] Hc ?].
  split; [exists l; split|by rewrite E2|done]; try congruence; [|done]. unfold on_list. by rewrite E1, E3.
Qed.

Lemma inv_held H s : inv H s -> held (mem s) H.
Proof. intros [[l Hi] _ _]. apply (li_list _ _ _ Hi). Qed.

Lemma inv_caches_at H s : inv H s -> size_caches_at s = caches.
Proof. intros [[l Hi] _ _]. apply (li_caches _ _ _ Hi). Qed.

(** A client's write into memory it holds. *)
Lemma inv_write H s p cap off bs :
  inv H s -> object H p cap -> p <= off -> off + Z.of_nat (length bs) <= p + cap ->
  inv H (with_mem (mwrite (mem s) off bs) s).
Proof.
  intros [[l [(Hh & Hd & Hn & Hhd) Hf ? ? ?]] Hc ?] Ho Hlo Hhi. split; [exists l; split|done|done]; try done.
  split; [|done]. destruct Hh as [? ? HL Hr]. split; [done|done|done|]. eapply object_write; eauto.
Qed.

(** ** Finding the slab of a pointer *)
Definition slab_holds (b p : Z) : Prop := b + 72 <= p < b + 4168.

Lemma slab_list_fuel H s c l :
  inv H s -> slab_list H c l -> NoDup l -> (length l <= list_fuel s)%nat.
Proof.
  intros Hinv Hl Hnd. pose proof (inv_held _ _ Hinv) as Hh. destruct Hinv as [[l0 Hi] _ _].
  pose proof (blocks_fuel H ((fun y => y - sizeof_block) <$> l) (h_layout _ _ _ _ _ Hh)) as Hf.
  rewrite length_fmap in Hf. unfold list_fuel. rewrite (li_size _ _ _ Hi).
  assert ((lim - base) / 32 <= (lim + 32 - base) / 32) by (apply Z.div_le_mono; lia).
  enough (Z.of_nat (length l) <= Z.max 0 ((lim - base) / 32)) by lia. apply Hf.
  - apply NoDup_fmap_2; [|done]. intros x y E. lia.
  - intros b (y & -> & Hy)%list_elem_of_fmap. destruct (slab_list_lookup _ _ _ _ Hl Hy) as (? & ? & ? & ?). eauto.
Qed.

Lemma wp_slab_holding H s c l p fuel :
  held (mem s) H -> slab_list H c l -> (length l <= fuel)%nat ->
  wp (slab_holding fuel (hd 0 l) 4096 p) (fun r s' => s' = s /\
    ((r = 0 /\ forall y, y ∈ l -> ~ slab_holds (y - sizeof_block) p) \/
     (0 < r /\ r ∈ l /\ slab_holds (r - sizeof_block) p))) s.
Proof.
  intros Hh. revert l. induction fuel as [|fuel IH]; intros l Hl Hf.
  { destruct l; [|cbn in Hf; lia]. apply wp_ret. split; [done|]. left. split; [done|set_solver]. }
  destruct l as [|y l]; [apply wp_ret; split; [done|]; left; split; [done|set_solver]|].
  cbn [length] in Hf. destruct Hl as [(sz & fr & Hb) Hl]. pose proof (held_addr _ _ _ _ _ Hh Hb) as Ha.
  destruct (h_rep _ _ _ _ _ Hh _ _ _ Hb) as (_ & _ & A1 & _ & _ & A4 & _).
  replace (y - sizeof_block + sizeof_block) with y in A1, A4 by lia.
  cbn [slab_holding hd]. replace (y =? 0) with false by (symmetry; apply Z.eqb_neq; zoffs).
  wp_go. rewrite A1.
  destruct ((y + sizeof_slab <=? p) && (p <? y + sizeof_slab + 4096))%bool eqn:E.
  - zbool. apply wp_ret. split; [done|]. right. split; [zoffs|]. split; [set_solver|]. unfold slab_holds. zoffs.
  - wp_go. rewrite A4. eapply wp_mono; [|apply IH; [done|lia]].
    intros r s' [-> [[-> Hn]|(Hr & Hin & Hp)]]; (split; [done|]); [left|right].
    + split; [done|]. intros z [->|Hz]%elem_of_cons; [|auto]. intros Hs. unfold slab_holds in Hs.
      apply andb_false_iff in E as [E|E]; zbool; zoffs.
    + split; [done|]. split; [set_solver|done].
Qed.

Lemma wp_find_slab H s p n i :
  inv H s -> 0 <= i -> i + Z.of_nat n = 10 ->
  wp (find_slab n i p) (fun o s' => s' = s /\
    match o with
    | None => forall b sz c nx fr, H !! b = Some (sz, SlabOf c nx fr) -> i <= c -> ~ slab_holds b p
    | Some (ca, slab) => exists b sz c nx fr,
        ca = caches + c * sizeof_cache /\ slab = b + sizeof_block /\
        H !! b = Some (sz, SlabOf c nx fr) /\ slab_holds b p
    end) s.
Proof.
  intros Hinv. pose proof (inv_held _ _ Hinv) as Hh. pose proof (inv_caches_at _ _ Hinv) as Hsc.
  revert i. induction n as [|n IH]; intros i Hi Hn.
  { apply wp_ret. split; [done|]. intros b sz c nx fr Hb Hc.
    destruct (l_valid _ _ _ (h_layout _ _ _ _ _ Hh) _ _ _ Hb) as [_ (_ & ? & _)]. lia. }
  cbn [find_slab]. unfold load_cache. wp_go. unfold cache_ptr. rewrite Hsc, cache_at_ptr by (done || lia).
  destruct (ki_caches _ _ _ _ _ Hinv) as [_ Hck]. destruct (Hck i ltac:(lia)) as (lf & lp & Hok).
  rewrite (co_full _ _ _ _ _ Hok), (co_partial _ _ _ _ _ Hok), (cs_slab _ _ (co_static _ _ _ _ _ Hok)).
  pose proof (co_nodup _ _ _ _ _ Hok) as (Hnf & _ & Hnp)%NoDup_app.
  pose proof (co_lf _ _ _ _ _ Hok) as Hlf. pose proof (co_lp _ _ _ _ _ Hok) as Hlp.
  assert (forall l r, slab_list H i l -> r ∈ l -> slab_holds (r - sizeof_block) p -> exists b sz c nx fr,
    caches + i * sizeof_cache = caches + c * sizeof_cache /\ r = b + sizeof_block /\
    H !! b = Some (sz, SlabOf c nx fr) /\ slab_holds b p) as Hfound.
  { intros l r Hl Hr Hp. destruct (slab_list_lookup _ _ _ _ Hl Hr) as (sz & nx & fr & Hb).
    exists (r - sizeof_block), sz, i, nx, fr. split_and!; [done|lia|done|done]. }
  eapply wp_mono; [|eapply (wp_slab_holding H s i lf p); [done|done|by eapply slab_list_fuel]].
  intros r s' [-> [[-> Hnf']|(Hr & Hin & Hp)]].
  2:{ replace (r =? 0) with false by (symmetry; apply Z.eqb_neq; lia). wp_go.
      replace (r =? 0) with false by (symmetry; apply Z.eqb_neq; lia). wp_go. split; [done|]. eauto. }
  cbn [Z.eqb]. wp_go. eapply wp_mono; [|eapply (wp_slab_holding H s i lp p); [done|done|by eapply slab_list_fuel]].
  intros r s' [-> [[-> Hnp']|(Hr & Hin & Hp)]].
  2:{ replace (r =? 0) with false by (symmetry; apply Z.eqb_neq; lia). wp_go. split; [done|]. eauto. }
  cbn [Z.eqb]. eapply wp_mono; [|apply IH; lia]. intros o s' [-> Ho]. split; [done|].
  destruct o as [[ca slab]|]; [done|]. intros b sz c nx fr Hb Hc. destruct (decide (c = i)) as [->|]; [|eapply Ho; [done|lia]].
  pose proof (co_all _ _ _ _ _ Hok _ _ _ _ Hb) as [Hin|Hin]%elem_of_app; intros Hp.
  - apply (Hnf' _ Hin). replace (b + sizeof_block - sizeof_block) with b by lia. done.
  - apply (Hnp' _ Hin). replace (b + sizeof_block - sizeof_block) with b by lia. done.
Qed.

(** ** kfree *)
Definition idle (s : kalloc_t) : Prop := kalloc_initialized s = true /\ heap_lock s = 0.

(** A pointer into a large allocation: nothing is freed. *)
Lemma wp_kfree_large_object H s b sz p :
  inv H s -> idle s -> H !! b = Some (sz, Large) -> b + sizeof_block <= p < b + sz ->
  wp (kfree p) (fun _ s' => s' = with_stats (count_free (allocator_stats s)) s) s.
Proof.
  intros Hinv [Hin Hlk] Hb Hp. pose proof (inv_held _ _ Hinv) as Hh. pose proof (held_addr _ _ _ _ _ Hh Hb) as Ha.
  unfold kfree. wp_go. rewrite Hin. replace (p =? 0) with false by (symmetry; apply Z.eqb_neq; zoffs). cbn [negb orb].
  unfold lock_heap. wp_go. rewrite Hlk. cbn [Z.eqb]. wp_go.
  set (s1 := with_lock 1 s). assert (inv H s1) as Hinv1 by (eapply inv_ext; [..|exact Hinv]; done).
  eapply wp_mono; [|apply (wp_find_slab H s1 p _ 0 Hinv1); [lia|done]]. intros o s2 [-> Ho].
  destruct o as [[ca slab]|].
  { exfalso. destruct Ho as (b2 & sz2 & c & nx & fr & _ & _ & Hb2 & Hp2). unfold slab_holds in Hp2.
    destruct (l_valid _ _ _ (h_layout _ _ _ _ _ Hh) _ _ _ Hb2) as [_ (? & _)].
    assert (b2 <> b) as Hne by congruence.
    destruct (blocks_apart H _ _ _ _ _ _ (h_layout _ _ _ _ _ Hh) Hb2 Hb Hne); zoffs. }
  wp_go. set (magic := mload 4 _ _).
  assert (forall Q, Q tt s1 -> wp (if magic =? KALLOC_BLOCK_MAGIC then kfree_large p 0 else ret tt) Q s1) as Hw.
  { intros Q HQ. destruct (Z.eqb_spec magic KALLOC_BLOCK_MAGIC) as [E|_]; [|by wp_go].
    unfold kfree_large. replace (p =? 0) with false by (symmetry; apply Z.eqb_neq; zoffs). wp_go.
    fold magic. rewrite E. cbn. by wp_go. }
  apply Hw. unfold update_stats, unlock_heap. wp_go. unfold s1. destruct s; cbn in *. by subst.
Qed.

(** An object of a slab: it is free again, nothing else moves. *)
Lemma wp_kfree_object H s b sz c nx fr i p :
  inv H s -> idle s -> H !! b = Some (sz, SlabOf c nx fr) -> 0 <= i < ocount c -> i ∉ fr ->
  object_addr b c i <= p < object_addr b c i + osize c ->
  wp (kfree p) (fun _ s' => exists H',
    inv H' s' /\ idle s' /\ loses (mem s) H (object_addr b c i) (mem s') H') s.
Proof.
  intros Hinv [Hin Hlk] Hb Hi Hni Hp. pose proof (inv_held _ _ Hinv) as Hh. pose proof (held_addr _ _ _ _ _ Hh Hb) as Ha.
  pose proof (h_layout _ _ _ _ _ Hh) as HL. destruct (l_valid _ _ _ HL _ _ _ Hb) as [_ (Hsz & Hc & Hnd & Hfr)].
  pose proof (object_in_slab c i Hc Hi) as Hio. pose proof (osize_bounds c Hc) as Hos.
  unfold kfree. wp_go. rewrite Hin.
  replace (p =? 0) with false by (symmetry; apply Z.eqb_neq; unfold object_addr in Hp; zoffs). cbn [negb orb].
  unfold lock_heap. wp_go. rewrite Hlk. cbn [Z.eqb]. wp_go.
  set (s1 := with_lock 1 s). assert (inv H s1) as Hinv1 by (eapply inv_ext; [..|exact Hinv]; done).
  eapply wp_mono; [|apply (wp_find_slab H s1 p _ 0 Hinv1); [lia|done]]. intros o s2 [-> Ho].
  destruct o as [[ca slab]|].
  2:{ exfalso. apply (Ho _ _ _ _ _ Hb); [lia|]. unfold slab_holds, object_addr in *. zoffs. }
  destruct Ho as (b2 & sz2 & c2 & nx2 & fr2 & -> & -> & Hb2 & Hp2).
  assert (b2 = b) as ->.
  { destruct (decide (b2 = b)) as [|Hne]; [done|exfalso].
    destruct (l_valid _ _ _ HL _ _ _ Hb2) as [_ (? & _)]. unfold slab_holds, object_addr in *.
    destruct (blocks_apart H _ _ _ _ _ _ HL Hb2 Hb Hne); zoffs. }
  clear Hp2. rewrite Hb in Hb2. injection Hb2 as <- <- <- <-.
  destruct Hinv1 as [[l Hi1] Hck1 Hat]. destruct (cks_cache _ _ Hck1 c Hc) as (lf & lp & Hok).
  pose proof (co_static _ _ _ _ _ Hok) as Hst. destruct (li_list _ _ _ Hi1) as (Hh1 & _).
  wp_step. eapply wp_mono; [|apply (wp_slab_free_object H s1 b sz c nx fr i p Hh1 (li_caches _ _ _ Hi1) (cs_size _ _ Hst) Hb Hi Hni Hp)].
  intros _ s2 (m & -> & Hh2 & Hlose). unfold update_stats, unlock_heap. wp_go.
  exists (<[b := (sz, SlabOf c nx (i :: fr))]> H). split; [|split; [done|exact Hlose]].
  eapply (inv_ext _ (with_caches (zset c (count_objects 0 (-1) 0 (cache_of (size_caches s1) c)) (size_caches s1)) (with_mem m s1)));
    [done..|]. split; [exists l; by eapply large_inv_slab| |done].
  eapply caches_ok_set; [exact Hck1|done|eapply (cache_ok_objects H b sz c nx fr); [done|exact Hok|destruct Hst; by split|done..]|].
  intros c' x' lf' lp' Hne Hok'. eapply cache_ok_other; [exact Hb|done|exact Hok'].
Qed.

(** A pointer into an object: only that object can be lost. *)
Lemma wp_kfree H s q cap p :
  inv H s -> idle s -> object H q cap -> q <= p < q + cap ->
  wp (kfree p) (fun _ s' => exists H', inv H' s' /\ idle s' /\
    forall q' cap', object H q' cap' -> q' <> q -> object H' q' cap' /\ same_bytes q' cap' (mem s) (mem s')) s.
Proof.
  intros Hinv Hidle [(b & sz & Hb & -> & ->)|(b & sz & c & n & fr & i & Hb & Hi & Hn & -> & ->)] Hp.
  - eapply wp_mono; [|apply (wp_kfree_large_object H s b sz p Hinv Hidle Hb); zoffs].
    intros _ s' ->. exists H. split; [eapply inv_ext; [..|exact Hinv]; done|]. split; [done|].
    intros q' cap' Ho _. split; [done|apply same_bytes_refl].
  - eapply wp_mono; [|apply (wp_kfree_object H s b sz c n fr i p Hinv Hidle Hb Hi Hn Hp)].
    intros _ s' (H' & Hinv' & Hidle' & Hk & _). exists H'. done.
Qed.

(** ** kalloc *)
Lemma find_cache_from_spec sizes i size :
  (exists n, n ∈ sizes /\ size <= n) ->
  exists j, find_cache_from sizes i size = Some (i + Z.of_nat j) /\ (j < length sizes)%nat /\ size <= nth j sizes 0.
Proof.
  revert i. induction sizes as [|n sizes IH]; intros i (m & Hm & Hle); [set_solver|]. cbn [find_cache_from].
  destruct (Z.leb_spec size n) as [Hn|Hn].
  - exists 0%nat. rewrite Z.add_0_r. split; [done|]. cbn. split; [lia|done].
  - destruct (IH (i + 1)) as (j & E & Hj & Hs).
    { apply elem_of_cons in Hm as [->|Hm]; [lia|]. eauto. }
    exists (S j). rewrite E. split; [f_equal; lia|]. cbn [length nth]. split; [lia|done].
Qed.

Lemma find_cache_spec s size :
  0 < size <= 4096 -> size_caches_at s = caches ->
  exists c, 0 <= c < 10 /\ find_cache s size = caches + c * sizeof_cache /\ size <= osize c.
Proof.
  intros Hs Hat. destruct (find_cache_from_spec cache_sizes 0 size) as (j & E & Hj & Hle).
  { exists 4096. split; [unfold cache_sizes; set_solver|lia]. }
  exists (Z.of_nat j). cbn in Hj. split; [lia|]. unfold find_cache. rewrite E. unfold cache_ptr, osize, zget.
  rewrite Hat, Nat2Z.id. done.
Qed.

(** The result of an allocation: nothing, or a new object with room. *)
Definition allocated H (s : kalloc_t) (size r : Z) (s' : kalloc_t) : Prop :=
  exists H', inv H' s' /\ keeps (mem s) H (mem s') H' /\
    (r = 0 \/ exists q cap, 0 < r /\ q <= r /\ r + size <= q + cap /\ object H' q cap /\ (8 | r) /\
       (forall cap, ~ object H q cap)).

Lemma large_object H l s size :
  large H l s -> caches_ok H (size_caches s) -> 0 < caches /\ caches + 960 <= 2 ^ 64 ->
  0 < size -> size + 136 <= 2 ^ 64 ->
  wp (kalloc_large size) (fun r s' => same_control s s' /\ size_caches s' = size_caches s /\
    exists H', inv H' s' /\ keeps (mem s) H (mem s') H' /\
      (r = 0 \/ exists cap, 0 < r /\ r + cap <= 2 ^ 64 /\ size <= cap /\ object H' r cap /\
        (exists b sz, r = b + sizeof_block /\ cap = sz - sizeof_block /\ H' !! b = Some (sz, Large)) /\
        (forall cap, ~ object H r cap))) s.
Proof.
  intros Hi Hck Hat Hpos Hlt. eapply wp_mono; [|apply (wp_kalloc_large H l s size Hi Hpos Hlt)].
  intros r s' [(-> & -> & _)|(H' & l' & b & sz & m & p & -> & Hb0 & Hb & Hsz & -> & Hi' & Hk & Hsk & Hnew)].
  - split; [done|]. split; [done|]. exists H. split; [split; [by exists l|done|done]|]. split; [apply heap_keeps_refl|by left].
  - split; [done|]. split; [done|]. exists H'. split; [split; [by exists l'|by eapply caches_ok_kept|done]|].
    split; [done|]. right. destruct (li_list _ _ _ Hi') as (Hh' & _). pose proof (held_addr _ _ _ _ _ Hh' Hb).
    exists (sz - sizeof_block). split; [zoffs|]. split; [zoffs|]. split; [zoffs|].
    split; [left; by exists b, sz|]. split; [by exists b, sz|done].
Qed.

Lemma object_align H s p cap : inv H s -> object H p cap -> (8 | p) /\ 0 < p.
Proof.
  intros Hinv Ho. pose proof (inv_held _ _ Hinv) as Hh.
  destruct (object_in_block H p cap (h_layout _ _ _ _ _ Hh) Ho) as (b & sz & k & Hb & ? & _ & _ & ? & _).
  pose proof (held_addr _ _ _ _ _ Hh Hb). split; [done|lia].
Qed.

(** The search in the caches and the fall back to a large block. *)
Lemma wp_kalloc_any H s size :
  inv H s -> 0 < size -> size + 136 <= 2 ^ 64 ->
  wp (kalloc_any size)
    (fun r s' => same_control s s' /\ allocated H s size r s') s.
Proof.
  intros Hinv Hpos Hlt. pose proof (ki_at _ _ _ _ _ Hinv) as Hat.
  assert (forall s1, inv H s1 -> mem s1 = mem s -> same_control s s1 -> wp (kalloc_large size) (fun r s' => same_control s s' /\ allocated H s size r s') s1) as Hlarge.
  { intros s1 [[l Hi] Hck _] Em Hctl. eapply wp_mono; [|apply (large_object H l s1 size Hi Hck Hat Hpos Hlt)].
    rewrite Em. intros r s' (Hctl' & _ & H' & Hinv' & Hk & [->|(cap & Hr & _ & Hcap & Ho & _ & Hnew)]).
    - split; [by eapply same_control_trans|]. exists H'; auto.
    - split; [by eapply same_control_trans|].
      exists H'. split; [done|]. split; [done|]. right. exists r, cap. destruct (object_align _ _ _ _ Hinv' Ho) as [? _].
      split_and!; try done; lia. }
  unfold kalloc_any. wp_go. destruct (Z.leb_spec size KALLOC_MAX_SIZE) as [Hle|Hgt].
  2:{ wp_go. cbn [Z.eqb]. apply Hlarge; done. }
  wp_go. unfold KALLOC_MAX_SIZE in Hle. destruct (find_cache_spec s size ltac:(lia) (inv_caches_at _ _ Hinv)) as (c & Hc & Ec & Hfit).
  rewrite Ec. replace (caches + c * sizeof_cache =? 0) with false by (symmetry; apply Z.eqb_neq; unfold sizeof_cache; lia).
  cbn [negb]. wp_go. eapply wp_mono; [|apply (wp_kalloc_cache_alloc H s c Hinv Hc)].
  intros r s1 [(-> & -> & _)|(H' & Hr & Hinv' & Hctl & Hk & Ho & Hnew)]; unfold update_stats; wp_go.
  - cbn [Z.eqb]. apply Hlarge; [eapply inv_ext; [..|exact Hinv]; done|done|done].
  - replace (r =? 0) with false by (symmetry; apply Z.eqb_neq; lia). wp_go.
    assert (inv H' (with_stats (count_lookup 1 0 (allocator_stats s1)) s1)) as Hinv2 by (eapply inv_ext; [..|exact Hinv']; done).
    split; [done|]. exists H'. split; [done|]. split; [done|]. right. exists r, (osize c).
    destruct (object_align _ _ _ _ Hinv' Ho) as [? _]. split_and!; try done; lia.
Qed.

Lemma allocated_room H s size r H' s' :
  inv H' s' -> keeps (mem s) H (mem s') H' ->
  (r = 0 \/ exists q cap, 0 < r /\ q <= r /\ r + size <= q + cap /\ object H' q cap /\ (8 | r) /\
     (forall cap, ~ object H q cap)) ->
  allocated H s size r s'.
Proof. intros. exists H'. done. Qed.

Lemma wp_kalloc_flags H s size flags :
  inv H s -> idle s -> 0 <= size -> size + 136 <= 2 ^ 64 ->
  wp (kalloc_flags size flags) (fun r s' => idle s' /\ allocated H s size r s' /\ (r <> 0 -> 0 < size) /\
    (r <> 0 -> Z.land flags KALLOC_ZERO <> 0 -> mread (mem s') r (Z.to_nat size) = zeros (Z.to_nat size))) s.
Proof.
  intros Hinv [Hin Hlk] Hpos Hlt. unfold kalloc_flags. wp_go. rewrite Hin. cbn [negb orb].
  destruct (Z.eqb_spec size 0) as [->|Hne].
  { wp_go. split; [done|]. split; [|done]. eapply allocated_room; [exact Hinv|apply heap_keeps_refl|by left]. }
  unfold lock_heap. wp_go. rewrite Hlk. cbn [Z.eqb]. wp_go. set (s1 := with_lock 1 s).
  assert (inv H s1) as Hinv1 by (eapply inv_ext; [..|exact Hinv]; done).
  eapply wp_mono; [|apply (wp_kalloc_any H s1 size Hinv1); lia].
  intros r s2 ([Hi2 Hl2] & H' & Hinv2 & Hk & Hr). cbn [mem with_lock] in Hk.
  destruct (Z.eqb_spec r 0) as [->|Hr0]; cbn [negb].
  { unfold unlock_heap. wp_go. split; [split; [exact (eq_trans Hi2 Hin)|done]|]. split; [|done].
    eapply allocated_room; [eapply inv_ext; [..|exact Hinv2]; done|exact Hk|by left]. }
  destruct Hr as [?|(q & cap & Hr & Hqr & Hroom & Ho & H8 & Hnew)]; [done|].
  set (zero := negb (Z.land flags KALLOC_ZERO =? 0)).
  set (m3 := if zero then mwrite (mem s2) r (zeros (Z.to_nat size)) else mem s2).
  assert (forall Q, Q tt (with_mem m3 s2) -> wp (if zero then memset_zero r size else ret tt) Q s2) as Hw.
  { intros Q HQ. unfold m3 in HQ. destruct zero; unfold memset_zero; wp_go; [done|]. by rewrite with_mem_id in HQ. }
  wp_step. wp_step. apply Hw. unfold update_stats, unlock_heap. wp_go. cbn [mem with_mem with_lock with_stats].
  assert (inv H' (with_mem m3 s2)) as Hinv3.
  { unfold m3. destruct zero; [|by rewrite with_mem_id].
    eapply (inv_write _ _ _ _ _ _ Hinv2 Ho); rewrite ?length_zeros; lia. }
  pose proof (h_layout _ _ _ _ _ (inv_held _ _ Hinv2)) as HL2.
  split; [split; [exact (eq_trans Hi2 Hin)|done]|]. split; [|split; [lia|]].
  - eapply (allocated_room _ _ _ _ H'); [eapply inv_ext; [..|exact Hinv3]; done| |right; exists q, cap; done].
    intros p0 cap0 Ho0. destruct (Hk p0 cap0 Ho0) as [Ho1 Hs1]. split; [done|].
    cbn [mem with_mem with_lock with_stats]. unfold m3. destruct zero; [|done].
    eapply same_bytes_trans; [exact Hs1|]. apply same_bytes_mwrite. rewrite length_zeros.
    assert (p0 <> q) as Hpq by (intros ->; by apply (Hnew cap0)).
    destruct (objects_disjoint H' p0 cap0 q cap HL2 Ho1 Ho Hpq); lia.
  - intros _ Hz. unfold m3, zero. apply Z.eqb_neq in Hz. rewrite Hz. cbn [negb].
    rewrite <- (length_zeros (Z.to_nat size)) at 2. apply mread_mwrite.
Qed.

(** ** kalloc_aligned *)
Lemma land_pow2 k : 0 <= k < 64 -> Z.land (2 ^ k) (u64 (2 ^ k - 1)) = 0.
Proof.
  intros Hk. rewrite u64_id by (pose proof (Z.pow_le_mono_r 2 k 63); lia).
  replace (2 ^ k - 1) with (Z.ones k) by (rewrite Z.ones_equiv; lia).
  rewrite Z.land_ones by lia. apply Z_mod_same_full.
Qed.

Lemma wp_aligned_large H s size k :
  inv H s -> idle s -> 0 < size < 2 ^ 62 -> 0 <= k < 62 ->
  wp (raw_ptr <- kalloc_large (u64 (size + 2 ^ k - 1 + sizeof_block));;
      if raw_ptr =? 0 then ret 0
      else ret (KALLOC_ROUND_UP (u64 (raw_ptr + sizeof_block)) (2 ^ k)))%kalloc
    (fun r s' => idle s' /\ allocated H s size r s' /\ (2 ^ k | r)) s.
Proof.
  intros [[l Hi] Hck Hat] [Hin Hlk] Hs Hk. pose proof (Z.pow_le_mono_r 2 k 61) as Hpow.
  assert (0 < 2 ^ k) by lia. wp_go. rewrite u64_id by zoffs.
  eapply wp_mono; [|apply (large_object H l s _ Hi Hck Hat); zoffs].
  intros r s' ([Hin' Hlk'] & _ & H' & Hinv' & Hkeep & Hr).
  assert (idle s') as Hidle by (split; congruence).
  destruct Hr as [->|(cap & Hr & Hlim & Hcap & Ho & _ & Hnew)].
  { cbn [Z.eqb]. wp_go. split; [done|]. split; [|apply Z.divide_0_r]. eapply allocated_room; [done|done|by left]. }
  replace (r =? 0) with false by (symmetry; apply Z.eqb_neq; lia). wp_go. rewrite (u64_id (r + _)) by zoffs.
  rewrite round_up_pow2 by zoffs. set (a := 2 ^ k) in *.
  pose proof (Z.div_mod (r + sizeof_block + a - 1) a ltac:(lia)) as Ediv.
  pose proof (Z.mod_pos_bound (r + sizeof_block + a - 1) a ltac:(lia)) as Hmod.
  set (d := (r + sizeof_block + a - 1) / a) in *. set (e := (r + sizeof_block + a - 1) mod a) in *.
  destruct (object_align _ _ _ _ Hinv' Ho) as [Hr8 _].
  split; [done|]. split; [|exists d; lia].
  eapply allocated_room; [done|done|]. right. exists r, cap. split_and!; try done; try zoffs.
  destruct (decide (3 <= k)) as [Hk3|Hk3].
  - apply Z.divide_mul_l. exists (2 ^ (k - 3)). unfold a. change 8 with (2 ^ 3). rewrite <- Z.pow_add_r by lia. f_equal. lia.
  - (* the header's address is a multiple of 8 already *)
    assert (a * d = r + sizeof_block) as ->.
    { assert (a | r + sizeof_block) as [t Ht].
      { transitivity 8; [|by apply Z.divide_add_r; [|exists 4]].
        exists (2 ^ (3 - k)). unfold a. rewrite <- Z.pow_add_r by lia. replace (3 - k + k) with 3 by lia. done. }
      assert (d = t) as ->; [|lia]. symmetry. apply Z.div_unique with (a - 1); lia. }
    apply Z.divide_add_r; [done|by exists 4].
Qed.

Lemma wp_kalloc_aligned H s size k :
  inv H s -> idle s -> 0 <= size < 2 ^ 62 -> 0 <= k < 62 ->
  wp (kalloc_aligned size (2 ^ k)) (fun r s' => idle s' /\ allocated H s size r s' /\ (r <> 0 -> 0 < size) /\
    (64 < 2 ^ k \/ 4096 < size -> (2 ^ k | r))) s.
Proof.
  intros Hinv Hidle Hs Hk. pose proof Hidle as [Hin Hlk]. unfold kalloc_aligned. wp_go. rewrite Hin, land_pow2 by lia.
  cbn [negb orb Z.eqb]. rewrite orb_false_r. destruct (Z.eqb_spec size 0) as [->|Hne].
  { wp_go. split; [done|]. split; [|split; [done|intros _; apply Z.divide_0_r]].
    eapply allocated_room; [exact Hinv|apply heap_keeps_refl|by left]. }
  assert (wp (raw_ptr <- kalloc_large (u64 (size + 2 ^ k - 1 + sizeof_block));;
      if raw_ptr =? 0 then ret 0
      else ret (KALLOC_ROUND_UP (u64 (raw_ptr + sizeof_block)) (2 ^ k)))%kalloc
    (fun r s' => idle s' /\ allocated H s size r s' /\ (r <> 0 -> 0 < size) /\ (64 < 2 ^ k \/ 4096 < size -> (2 ^ k | r))) s) as Hlarge.
  { eapply wp_mono; [|apply (wp_aligned_large H s size k Hinv Hidle); lia].
    intros r s' (A & B & C). split; [done|]. split; [done|]. split; [lia|done]. }
  destruct (Z.leb_spec size KALLOC_MAX_SIZE) as [Hle|Hgt]; cbn [andb]; [|exact Hlarge].
  destruct (Z.leb_spec (2 ^ k) 64) as [Hal|Hal]; [|exact Hlarge].
  unfold KALLOC_MAX_SIZE in Hle.
  destruct (find_cache_spec s size ltac:(lia) (inv_caches_at _ _ Hinv)) as (c & Hc & Ec & Hfit).
  unfold load_cache. wp_go. rewrite Ec. destruct (negb _ && _)%bool; [|exact Hlarge].
  eapply wp_mono; [|apply (wp_kalloc_cache_alloc H s c Hinv Hc)].
  intros r s' [(-> & -> & _)|(H' & Hr & Hinv' & [Hin' Hlk'] & Hkeep & Ho & Hnew)].
  - split; [done|]. split; [|split; [lia|intros _; apply Z.divide_0_r]].
    eapply allocated_room; [exact Hinv|apply heap_keeps_refl|by left].
  - destruct (object_align _ _ _ _ Hinv' Ho) as [Hr8 _]. split; [split; congruence|].
    split; [|split; [lia|lia]]. eapply allocated_room; [done|done|]. right. exists r, (osize c).
    split_and!; try done; lia.
Qed.
End interface.
