(* ===== verification/KallocClientSpec.v ===== *)
(** * What a client of the heap allocator can rely on

    From [kalloc_init] on, whatever sequence of allocations, releases and
    writes into the memory it holds a client makes: every call returns, a
    result is new memory of the size asked for, apart from everything else
    the client holds, what was written stays, and [kalloc] fails only when no
    free block is large enough.  The last lemmas run the allocator where it
    does not do what it means to. *)
From Stdlib Require Import ZArith Lia Znumtheory.
From stdpp Require Import gmap relations.
From S2P Require Import Prelude.
From S2P Require Import Memory.
From S2P Require Import Kalloc.
From S2P Require Import KallocHeap.
From S2P Require Import KallocLarge.
From S2P Require Import KallocSlab.
From S2P Require Import KallocCache.
From S2P Require Import KallocSpec.
Open Scope Z_scope.

(** ** The client *)
Inductive op :=
| Kalloc (size flags : Z)
| KallocAligned (size align_ : Z)
| Kfree (p : Z)
| Store (p off : Z) (bs : list byte).

Definition exec (o : op) : M Z :=
  match o with
  | Kalloc size flags => kalloc_flags size flags
  | KallocAligned size al => kalloc_aligned size al
  | Kfree p => bind (kfree p) (fun _ => ret 0)
  | Store p off bs => bind (modify (fun s => with_mem (mwrite (mem s) (p + off) bs) s)) (fun _ => ret 0)
  end.

(** The memory a client holds, by pointer, with what it last saw there. *)
Abbreviation arrays := (gmap Z (list byte)) (only parsing).

(** It frees what it holds (or NULL) and writes inside what it holds. *)
Definition allowed (a : gmap Z (list byte)) (o : op) : Prop :=
  match o with
  | Kalloc size _ => 0 <= size < 2 ^ 62
  | KallocAligned size al => 0 <= size < 2 ^ 62 /\ exists k, 0 <= k < 62 /\ al = 2 ^ k
  | Kfree p => p = 0 \/ is_Some (a !! p)
  | Store p off bs => exists old, a !! p = Some old /\ 0 <= off /\ off + Z.of_nat (length bs) <= Z.of_nat (length old)
  end.

Definition splice (off : Z) (bs old : list byte) : list byte :=
  take (Z.to_nat off) old ++ bs ++ drop (Z.to_nat off + length bs) old.

Definition track (a : gmap Z (list byte)) (o : op) (r : Z) (m : gmap Z byte) : gmap Z (list byte) :=
  match o with
  | Kalloc size _ | KallocAligned size _ => if r =? 0 then a else <[r := mread m r (Z.to_nat size)]> a
  | Kfree p => delete p a
  | Store p off bs => alter (splice off bs) p a
  end.

Inductive client : kalloc_t * gmap Z (list byte) -> kalloc_t * gmap Z (list byte) -> Prop :=
| client_op s a o r s' :
    allowed a o -> exec o s = Some (r, s') -> client (s, a) (s', track a o r (mem s')).

(** The free blocks with their sizes, read from the heap. *)
Fixpoint walk (fuel : nat) (m : gmap Z byte) (b : Z) : list (Z * Z) :=
  match fuel with
  | O => []
  | S fuel' =>
      if b =? 0 then []
      else (b, mload 8 m (b + Block.size)) :: walk fuel' m (mload 8 m (b + Block.next))
  end.
Definition free_blocks (s : kalloc_t) : list (Z * Z) := walk (S (list_fuel s)) (mem s) (large_free_list s).

(** A kernel that has not initialised its heap yet. *)
Record before_init (s : kalloc_t) (start size : Z) : Prop := {
  bi_init : kalloc_initialized s = false;
  bi_lock : heap_lock s = 0;
  bi_caches : 0 < size_caches_at s /\ size_caches_at s + 960 <= 2 ^ 64;
  bi_start : 0 < start /\ 8192 <= size /\ start + size <= 2 ^ 64 }.

(** ** The invariant of a client *)
Section serves.
Context {base lim caches : Z}.

Record serves (s : kalloc_t) (a : gmap Z (list byte)) (H : gmap Z (Z * block_t)) (own : gmap Z Z) : Prop := {
  sv_inv : kalloc_inv base lim caches H s;
  sv_idle : idle s;
  sv_held p bs : a !! p = Some bs -> exists q cap,
    own !! p = Some q /\ object H q cap /\ q <= p /\ p + Z.of_nat (length bs) <= q + cap /\
    mread (mem s) p (length bs) = bs /\ bs <> [] /\ (8 | p);
  sv_own p p' bs bs' q : a !! p = Some bs -> a !! p' = Some bs' -> own !! p = Some q -> own !! p' = Some q -> p = p' }.

(** The held arrays are apart. *)
Lemma serves_apart s a H own p bs p' bs' :
  serves s a H own -> a !! p = Some bs -> a !! p' = Some bs' -> p <> p' ->
  p + Z.of_nat (length bs) <= p' \/ p' + Z.of_nat (length bs') <= p.
Proof.
  intros Hs Hp Hp' Hne. destruct (sv_held _ _ _ _ Hs _ _ Hp) as (q & cap & Hq & Ho & ? & ? & _).
  destruct (sv_held _ _ _ _ Hs _ _ Hp') as (q' & cap' & Hq' & Ho' & ? & ? & _).
  assert (q <> q') as Hqq by (intros ->; by apply Hne, (sv_own _ _ _ _ Hs p p' bs bs' q')).
  pose proof (h_layout _ _ _ _ _ (inv_held _ _ (sv_inv _ _ _ _ Hs))) as HL.
  destruct (objects_disjoint H q cap q' cap' HL Ho Ho' Hqq); lia.
Qed.

Lemma mread_keeps (m m' : gmap Z byte) q cap p n :
  same_bytes q cap m m' -> q <= p -> p + Z.of_nat n <= q + cap -> mread m' p n = mread m p n.
Proof. intros Hs Hlo Hhi. apply mread_ext. eapply same_bytes_sub; [exact Hs|lia|lia]. Qed.

(** An allocation. *)
Lemma serves_alloc s a H own s' r size :
  serves s a H own -> idle s' -> allocated (base := base) (lim := lim) (caches := caches) H s size r s' ->
  (r <> 0 -> 0 < size) ->
  (r <> 0 -> a !! r = None /\ (8 | r) /\ base <= r /\ r + size <= lim) /\
  exists H' own', serves s' (if r =? 0 then a else <[r := mread (mem s') r (Z.to_nat size)]> a) H' own'.
Proof.
  intros Hs Hidle (H' & Hinv' & Hk & Hr) Hsz.
  assert (forall p bs, a !! p = Some bs -> exists q cap, own !! p = Some q /\ object H q cap /\ object H' q cap /\ q <= p /\
    p + Z.of_nat (length bs) <= q + cap /\ mread (mem s') p (length bs) = bs /\ bs <> [] /\ (8 | p)) as Hold.
  { intros p bs Hp. destruct (sv_held _ _ _ _ Hs _ _ Hp) as (q & cap & Hq & Ho & Hqp & Hroom & Hrd & Hn & H8).
    destruct (Hk _ _ Ho) as [Ho' Hsb]. exists q, cap. split_and!; try done.
    rewrite <- Hrd at 2. by eapply mread_keeps. }
  destruct (Z.eqb_spec r 0) as [->|Hr0].
  { split; [done|]. exists H', own. split; [done|done| |].
    - intros p bs Hp. destruct (Hold p bs Hp) as (q & cap & ? & _ & ? & ? & ? & ? & ? & ?). exists q, cap. done.
    - apply Hs. }
  destruct Hr as [?|(q & cap & Hr & Hqr & Hroom & Ho & H8 & Hnew)]; [done|]. specialize (Hsz Hr0).
  pose proof (inv_held _ _ Hinv') as Hh'.
  assert (a !! r = None) as Hfresh.
  { destruct (a !! r) as [bs|] eqn:E; [exfalso|done].
    destruct (Hold r bs E) as (q' & cap' & _ & Ho0 & Ho' & ? & Hrm & _ & Hn & _).
    assert (q <> q') as Hne by (intros ->; by apply (Hnew cap')).
    destruct bs; [done|]. cbn [length] in Hrm.
    destruct (objects_disjoint H' q cap q' cap' (h_layout _ _ _ _ _ Hh') Ho Ho' Hne); lia. }
  split.
  { intros _. split; [done|]. split; [done|].
    destruct (object_in_block H' q cap (h_layout _ _ _ _ _ Hh') Ho) as (b & sz & k & Hb & ? & ? & _).
    pose proof (held_addr _ _ _ _ _ Hh' Hb). lia. }
  exists H', (<[r := q]> own). split; [done|done| |].
  - intros p bs. destruct (decide (p = r)) as [->|Hne].
    + rewrite !lookup_insert_eq. intros [= <-]. exists q, cap. rewrite length_mread. split_and!; try done; try lia.
      destruct (Z.to_nat size) as [|n] eqn:E; [lia|]. intros Hnil. apply (f_equal length) in Hnil.
      by rewrite length_mread in Hnil.
    + rewrite !lookup_insert_ne by done. intros Hp.
      destruct (Hold p bs Hp) as (q' & cap' & ? & _ & ? & ? & ? & ? & ? & ?). exists q', cap'. done.
  - intros p p' bs bs' q'. destruct (decide (p = r)) as [->|Hne], (decide (p' = r)) as [->|Hne'];
      rewrite ?lookup_insert_eq, ?lookup_insert_ne by done; try done.
    + intros _ Hp' [= <-] Hq'. destruct (Hold p' bs' Hp') as (q2 & cap2 & Hq2 & Ho2 & _). exfalso.
      apply (Hnew cap2). congruence.
    + intros Hp _ Hq [= <-]. destruct (Hold p bs Hp) as (q2 & cap2 & Hq2 & Ho2 & _). exfalso.
      apply (Hnew cap2). congruence.
    + apply Hs.
Qed.

Lemma serves_free s a H own p :
  serves s a H own -> p = 0 \/ is_Some (a !! p) ->
  wp (kfree p) (fun _ s' => exists H' own', serves s' (delete p a) H' own') s.
Proof.
  intros Hs Hp. pose proof (sv_inv _ _ _ _ Hs) as Hinv. pose proof (sv_idle _ _ _ _ Hs) as Hidle.
  destruct (a !! p) as [bs|] eqn:E.
  - destruct (sv_held _ _ _ _ Hs _ _ E) as (q & cap & Hq & Ho & Hqp & Hroom & _ & Hn & _).
    assert (q <= p < q + cap) as Hpq by (destruct bs; [done|cbn in Hroom; lia]).
    eapply wp_mono; [|apply (wp_kfree H s q cap p Hinv Hidle Ho Hpq)].
    intros _ s' (H' & Hinv' & Hidle' & Hk). exists H', own. split; [done|done| |].
    + intros p' bs' [Hne Hp']%lookup_delete_Some.
      destruct (sv_held _ _ _ _ Hs _ _ Hp') as (q' & cap' & Hq' & Ho' & Hqp' & Hroom' & Hrd & Hn' & H8).
      assert (q' <> q) as Hqq by (intros ->; by apply Hne, (sv_own _ _ _ _ Hs p p' bs bs' q)).
      destruct (Hk q' cap' Ho' Hqq) as [Ho2 Hsb]. exists q', cap'. split_and!; try done.
      rewrite <- Hrd at 2. by eapply mread_keeps.
    + intros p1 p2 bs1 bs2 q' [_ H1]%lookup_delete_Some [_ H2]%lookup_delete_Some. by eapply Hs.
  - destruct Hp as [->|[? ?]]; [|congruence]. unfold kfree. wp_go. cbn [Z.eqb orb]. wp_go.
    exists H, own. rewrite delete_id by done. done.
Qed.

Lemma serves_store s a H own p off bs old :
  serves s a H own -> a !! p = Some old -> 0 <= off -> off + Z.of_nat (length bs) <= Z.of_nat (length old) ->
  serves (with_mem (mwrite (mem s) (p + off) bs) s) (alter (splice off bs) p a) H own.
Proof.
  intros Hs Hp Hoff Hfit. destruct (sv_held _ _ _ _ Hs _ _ Hp) as (q & cap & Hq & Ho & Hqp & Hroom & Hrd & Hn & H8).
  assert (length (splice off bs old) = length old) as Hlen.
  { unfold splice. rewrite !length_app, length_take, length_drop. lia. }
  split.
  - eapply inv_write; [apply Hs|exact Ho|lia|lia].
  - apply Hs.
  - intros p' bs' Hp'. destruct (decide (p' = p)) as [->|Hne].
    + rewrite lookup_alter_eq, Hp in Hp'. injection Hp' as <-. exists q, cap. rewrite Hlen.
      split_and!; try done.
      * cbn [mem with_mem]. rewrite <- (Z2Nat.id off) by done. rewrite mread_splice by lia. rewrite Hrd. unfold splice. by rewrite Nat2Z.id.
      * intros Hnil. apply Hn. apply (f_equal length) in Hnil. rewrite Hlen in Hnil. by destruct old.
    + rewrite lookup_alter_ne in Hp' by done.
      destruct (sv_held _ _ _ _ Hs _ _ Hp') as (q' & cap' & Hq' & Ho' & Hqp' & Hroom' & Hrd' & Hn' & H8').
      exists q', cap'. split_and!; try done. rewrite <- Hrd' at 2. apply mread_ext, same_bytes_mwrite.
      destruct (serves_apart _ _ _ _ _ _ _ _ Hs Hp Hp' (not_eq_sym Hne)); lia.
  - intros p1 p2 bs1 bs2 q'. intros H1 H2. 
    assert (is_Some (a !! p1) /\ is_Some (a !! p2)) as [[b1 E1] [b2 E2]].
    { split; [destruct (decide (p1 = p)) as [->|]; [eauto|rewrite lookup_alter_ne in H1 by done; eauto]|].
      destruct (decide (p2 = p)) as [->|]; [eauto|rewrite lookup_alter_ne in H2 by done; eauto]. }
    by eapply (sv_own _ _ _ _ Hs).
Qed.

(** One call: it returns, its result is what the client may expect, and the
    client is served on. *)
Definition answers (s : kalloc_t) (a : gmap Z (list byte)) (o : op) (r : Z) (s' : kalloc_t) : Prop :=
  match o with
  | Kalloc size flags =>
      (r <> 0 -> 0 < size /\ a !! r = None /\ (8 | r) /\ base <= r /\ r + size <= lim) /\
      (r <> 0 -> Z.land flags KALLOC_ZERO <> 0 -> mread (mem s') r (Z.to_nat size) = zeros (Z.to_nat size))
  | KallocAligned size al =>
      (r <> 0 -> 0 < size /\ a !! r = None /\ (8 | r) /\ base <= r /\ r + size <= lim) /\
      (64 < al \/ 4096 < size -> (al | r))
  | Kfree _ | Store _ _ _ => r = 0
  end.

Lemma serves_step s a H own o :
  serves s a H own -> allowed a o ->
  exists r s', exec o s = Some (r, s') /\ answers s a o r s' /\
    exists H' own', serves s' (track a o r (mem s')) H' own'.
Proof.
  intros Hs Hal. pose proof (sv_inv _ _ _ _ Hs) as Hinv. pose proof (sv_idle _ _ _ _ Hs) as Hidle.
  destruct o as [size flags|size al|p|p off bs]; cbn [exec allowed answers track] in *.
  - destruct (wp_elim _ _ _ (wp_kalloc_flags H s size flags Hinv Hidle ltac:(lia) ltac:(lia)))
      as (r & s' & Hrun & Hidle' & Hall & Hsz & Hz).
    destruct (serves_alloc _ _ _ _ _ _ _ Hs Hidle' Hall Hsz) as [Hr Hsv].
    exists r, s'. split; [done|]. split; [|done]. split; [|done]. intros Hr0. split; [auto|auto].
  - destruct Hal as (Hsize & k & Hk & ->).
    destruct (wp_elim _ _ _ (wp_kalloc_aligned H s size k Hinv Hidle Hsize Hk)) as (r & s' & Hrun & Hidle' & Hall & Hsz & Hdiv).
    destruct (serves_alloc _ _ _ _ _ _ _ Hs Hidle' Hall Hsz) as [Hr Hsv].
    exists r, s'. split; [done|]. split; [|done]. split; [|done]. intros Hr0. split; [auto|auto].
  - destruct (wp_elim _ _ _ (serves_free s a H own p Hs Hal)) as (x & s' & Hrun & Hsv).
    exists 0, s'. unfold bind. rewrite Hrun. done.
  - destruct Hal as (old & Hp & Hoff & Hfit). exists 0. eexists. split; [reflexivity|]. split; [done|].
    exists H, own. by eapply serves_store.
Qed.

(** ** Failure *)
Lemma walk_free H m p l fuel :
  held base lim caches m H -> dll H p l 0 -> (length l < fuel)%nat ->
  walk fuel m (hd 0 l) = (fun b => (b, bsize H b)) <$> l.
Proof.
  intros Hh. revert p fuel. induction l as [|b l IH]; intros p [|fuel] Hd Hf; cbn [length] in Hf; try lia; [done|].
  pose proof (hd_eqb _ _ _ _ _ Hh Hd) as E0. destruct Hd as [[sz Hb] Hd]. cbn [walk hd] in *. rewrite E0.
  destruct (h_rep _ _ _ _ _ Hh _ _ _ Hb) as (F0 & F1 & _). rewrite F0, F1, (IH b fuel Hd) by lia.
  cbn. by rewrite (bsize_lookup _ _ _ _ Hb).
Qed.

(** What the list of free blocks shows is what the invariant's list holds. *)
Lemma free_blocks_of s H l n :
  large_inv (base := base) (lim := lim) (caches := caches) H l s -> (forall x, x ∈ l -> bsize H x < n) ->
  Forall (fun b => b.2 < n) (free_blocks s).
Proof.
  intros Hi Hl. destruct (li_list _ _ _ Hi) as (Hh & Hd & _ & Hhd).
  unfold free_blocks. rewrite Hhd, (walk_free H _ 0 l) by (done || (pose proof (large_inv_fuel _ _ _ Hi); lia)).
  apply Forall_fmap, Forall_forall. intros b Hb. by apply Hl.
Qed.

(** A large block is refused only when no free block holds it. *)
Lemma large_refused s H size s' :
  kalloc_inv base lim caches H s -> 0 < size -> size + 136 <= 2 ^ 64 -> kalloc_large size s = Some (0, s') ->
  Forall (fun b => b.2 < total_of size) (free_blocks s).
Proof.
  intros [[l Hi] _ _] Hpos Hlt Hrun.
  pose proof (wp_kalloc_large H l s size Hi ltac:(lia) ltac:(lia)) as Hw. unfold wp in Hw. rewrite Hrun in Hw.
  destruct Hw as [(_ & _ & Hnone)|(H' & l' & b & sz & m & p & E & Hb0 & _)]; [|zoffs].
  by eapply free_blocks_of.
Qed.

(** A cache refuses an object only when it can make no slab. *)
Lemma cache_alloc_refused s H c s' :
  kalloc_inv base lim caches H s -> 0 <= c < 10 ->
  kalloc_cache_alloc (caches + c * sizeof_cache) s = Some (0, s') ->
  s' = s /\ Forall (fun b => b.2 < total_of (sizeof_slab + KALLOC_ALIGN_PAGE)) (free_blocks s).
Proof.
  intros Hinv Hc Hrun. pose proof (wp_kalloc_cache_alloc H s c Hinv Hc) as Hw. unfold wp in Hw. rewrite Hrun in Hw.
  destruct Hw as [(_ & -> & l & Hi & Hl)|(H' & Hr & _)]; [|lia]. split; [done|]. by eapply free_blocks_of.
Qed.

Lemma refused s a H own size flags s' :
  serves s a H own -> 0 < size < 2 ^ 62 -> kalloc_flags size flags s = Some (0, s') ->
  Forall (fun b => b.2 < total_of size) (free_blocks s).
Proof.
  intros Hs Hsz Hrun. pose proof (sv_inv _ _ _ _ Hs) as Hinv. destruct (sv_idle _ _ _ _ Hs) as [Hin Hlk].
  set (s1 := with_lock 1 s). assert (kalloc_inv base lim caches H s1) as Hinv1 by (eapply inv_ext; [..|exact Hinv]; done).
  assert (exists s2, kalloc_any size s1 = Some (0, s2)) as [s2 Hany].
  { unfold kalloc_flags, lock_heap, bind at 1, get at 1 in Hrun. rewrite Hin in Hrun.
    replace (size =? 0) with false in Hrun by (symmetry; apply Z.eqb_neq; lia). cbn [negb orb] in Hrun.
    unfold bind at 1 in Hrun. unfold bind at 1, get in Hrun. rewrite Hlk in Hrun. cbn [Z.eqb] in Hrun. unfold modify at 1 in Hrun.
    fold s1 in Hrun. unfold bind at 1 in Hrun.
    destruct (kalloc_any size s1) as [[r s2]|]; [|done]. exists s2. do 2 f_equal.
    destruct (Z.eqb_spec r 0) as [|Hne]; [done|exfalso]. cbn [negb] in Hrun.
    destruct (negb _); unfold bind, modify, update_stats, memset_zero, unlock_heap, ret in Hrun; cbn in Hrun; congruence. }
  unfold kalloc_any, bind in Hany. destruct (Z.leb_spec size KALLOC_MAX_SIZE) as [Hle|Hgt].
  - unfold KALLOC_MAX_SIZE in Hle. unfold get in Hany.
    destruct (find_cache_spec s1 size ltac:(lia) (inv_caches_at _ _ Hinv1)) as (c & Hc & Ec & _). rewrite Ec in Hany.
    pose proof (ki_at _ _ _ _ _ Hinv) as Hat.
    replace (caches + c * sizeof_cache =? 0) with false in Hany by (symmetry; apply Z.eqb_neq; unfold sizeof_cache; lia).
    cbn [negb] in Hany. destruct (kalloc_cache_alloc _ s1) as [[r s3]|] eqn:Ea; [|done].
    unfold update_stats, modify, ret in Hany. destruct (Z.eqb_spec r 0) as [->|Hr]; [|congruence].
    apply (cache_alloc_refused s1 H c s3 Hinv1 Hc) in Ea as [-> _].
    eapply (large_refused (with_stats _ s1) H) in Hany; [exact Hany|eapply inv_ext; [..|exact Hinv1]; done|lia|lia].
  - unfold ret in Hany. cbn [Z.eqb] in Hany.
    eapply (large_refused s1 H) in Hany; [exact Hany|done|lia|lia].
Qed.

(** An aligned request goes to a cache when it is small and its alignment is
    at most 64, and to the large blocks otherwise. *)
Lemma aligned_refused s a H own size k s' :
  serves s a H own -> 0 < size < 2 ^ 62 -> 0 <= k < 62 -> kalloc_aligned size (2 ^ k) s = Some (0, s') ->
  Forall (fun b => b.2 < total_of (size + 2 ^ k - 1 + sizeof_block)) (free_blocks s) \/
  (size <= 4096 /\ 2 ^ k <= 64 /\ Forall (fun b => b.2 < total_of (sizeof_slab + KALLOC_ALIGN_PAGE)) (free_blocks s)).
Proof.
  intros Hs Hsz Hk Hrun. pose proof (sv_inv _ _ _ _ Hs) as Hinv. destruct (sv_idle _ _ _ _ Hs) as [Hin Hlk].
  pose proof (Z.pow_le_mono_r 2 k 61) as Hpow. assert (0 < 2 ^ k) by lia.
  assert ((raw_ptr <- kalloc_large (u64 (size + 2 ^ k - 1 + sizeof_block));;
      if raw_ptr =? 0 then ret 0
      else ret (KALLOC_ROUND_UP (u64 (raw_ptr + sizeof_block)) (2 ^ k)))%kalloc s = Some (0, s') ->
    Forall (fun b => b.2 < total_of (size + 2 ^ k - 1 + sizeof_block)) (free_blocks s)) as Hlarge.
  { clear Hrun. unfold bind. rewrite u64_id by zoffs. destruct (kalloc_large _ s) as [[r s1]|] eqn:El; [|done].
    destruct (Z.eqb_spec r 0) as [->|Hr]; intros Hrun.
    - eapply (large_refused s H); [exact Hinv|zoffs|zoffs|exact El].
    - exfalso. destruct Hinv as [[l Hi] Hck Hat].
      pose proof (large_object H l s (size + 2 ^ k - 1 + sizeof_block) Hi Hck Hat ltac:(zoffs) ltac:(zoffs)) as Hw.
      unfold wp in Hw. rewrite El in Hw. destruct Hw as (_ & _ & H' & _ & _ & [?|(cap & Hr0 & Hlim & Hcap & _)]); [done|].
      unfold ret in Hrun. apply (f_equal (fun x => from_option fst 0 x)) in Hrun. cbn in Hrun.
      rewrite (u64_id (r + _)), round_up_pow2 in Hrun by zoffs.
      pose proof (Z.div_mod (r + sizeof_block + 2 ^ k - 1) (2 ^ k) ltac:(lia)) as Ediv.
      pose proof (Z.mod_pos_bound (r + sizeof_block + 2 ^ k - 1) (2 ^ k) ltac:(lia)). zoffs. }
  unfold kalloc_aligned, bind, get in Hrun. rewrite Hin, land_pow2 in Hrun by lia.
  replace (size =? 0) with false in Hrun by (symmetry; apply Z.eqb_neq; lia). cbn [negb orb Z.eqb] in Hrun.
  destruct (Z.leb_spec size KALLOC_MAX_SIZE) as [Hle|Hgt]; cbn [andb] in Hrun; [|left; by apply Hlarge].
  destruct (Z.leb_spec (2 ^ k) 64) as [Hal|Hal]; [|left; by apply Hlarge]. unfold KALLOC_MAX_SIZE in Hle.
  destruct (find_cache_spec s size ltac:(lia) (inv_caches_at _ _ Hinv)) as (c & Hc & Ec & _).
  unfold load_cache, get in Hrun. rewrite Ec in Hrun.
  destruct (negb _ && _)%bool; [|left; by apply Hlarge].
  apply (cache_alloc_refused s H c s' Hinv Hc) in Hrun as [_ Hf]. by right.
Qed.
End serves.

(** ** Initialisation *)
Lemma cache_static_init c : 0 <= c < 10 -> cache_static c (cache_of (map cache_init cache_sizes) c).
Proof.
  intros Hc. assert (c = 0 \/ c = 1 \/ c = 2 \/ c = 3 \/ c = 4 \/ c = 5 \/ c = 6 \/ c = 7 \/ c = 8 \/ c = 9) as Hcase by lia.
  repeat destruct Hcase as [->|Hcase]; try subst c; by split.
Qed.

Lemma cache_of_init c :
  0 <= c < 10 -> full_slabs (cache_of (map cache_init cache_sizes) c) = 0 /\
  partial_slabs (cache_of (map cache_init cache_sizes) c) = 0 /\ empty_slabs (cache_of (map cache_init cache_sizes) c) = 0.
Proof.
  intros Hc. assert (c = 0 \/ c = 1 \/ c = 2 \/ c = 3 \/ c = 4 \/ c = 5 \/ c = 6 \/ c = 7 \/ c = 8 \/ c = 9) as Hcase by lia.
  repeat destruct Hcase as [->|Hcase]; try subst c; by split.
Qed.

Definition initial (base lim : Z) : gmap Z (Z * block_t) := {[ base := (lim - base, Free 0 0) ]}.

Lemma initial_lookup base lim b sz k :
  initial base lim !! b = Some (sz, k) -> b = base /\ sz = lim - base /\ k = Free 0 0.
Proof. unfold initial. by intros [<- [= <- <-]]%lookup_singleton_Some. Qed.

Lemma initial_layout base lim : (8 | base) -> base + 40 <= lim -> layout base lim (initial base lim).
Proof.
  intros H8 Hlim. pose proof (initial_lookup base lim) as Hi.
  split.
  - intros b sz k (-> & -> & ->)%Hi. split; [lia|done].
  - intros b sz k (-> & -> & ->)%Hi. lia.
  - intros b sz k (-> & _)%Hi. done.
  - intros b sz k b' sz' k' (-> & _)%Hi (-> & _)%Hi. lia.
  - intros b sz k (-> & -> & _)%Hi. left. lia.
Qed.

Lemma initial_caches base lim : caches_ok (initial base lim) (map cache_init cache_sizes).
Proof.
  split; [done|]. intros c Hc. destruct (cache_of_init c Hc) as (E1 & E2 & E3).
  exists [], []. split; try done; try by apply cache_static_init. 
  - apply NoDup_nil_2.
  - intros b sz n fr (_ & _ & ?)%initial_lookup. done.
  - set_solver.
Qed.

Lemma base_of start size :
  0 < start -> 8192 <= size -> start + size <= 2 ^ 64 ->
  let base := KALLOC_ROUND_UP start KALLOC_ALIGN_PAGE in
  (4096 | base) /\ start <= base < start + 4096 /\ u64 (size - u64 (base - start)) = size - (base - start).
Proof.
  intros Hs Hz Hl base. unfold base, KALLOC_ALIGN_PAGE.
  pose proof (round_up_pow2 start 12) as E. change (2 ^ 12) with 4096 in E. rewrite E by lia.
  pose proof (Z.div_mod (start + 4096 - 1) 4096). pose proof (Z.mod_pos_bound (start + 4096 - 1) 4096).
  split; [eexists; apply Z.mul_comm|]. split; [lia|]. rewrite (u64_id (_ - start)) by lia. rewrite u64_id; lia.
Qed.

Lemma boot_serves s start size :
  before_init s start size ->
  let base := KALLOC_ROUND_UP start KALLOC_ALIGN_PAGE in
  let lim := start + size - sizeof_block in
  exists s', kalloc_init start size s = Some (KALLOC_SUCCESS, s') /\
    serves (base := base) (lim := lim) (caches := size_caches_at s) s' ∅ (initial base lim) ∅ /\
    heap_base s' = base /\ heap_size s' = start + size - base /\
    free_blocks s' = [(base, start + size - base - sizeof_block)].
Proof.
  intros [Hin Hlk Hat (Hs & Hz & Hl)] base lim.
  destruct (base_of start size Hs Hz Hl) as ([q Hq] & Hb & Ehs). fold base in Hq, Hb, Ehs.
  assert ((8 | base)) as H8 by (exists (q * 512); lia).
  unfold kalloc_init, bind, get, modify, store64, store32, ret. rewrite Hin.
  fold base. rewrite Ehs. cbn [mem with_mem with_initialized].
  set (hs := size - (base - start)). rewrite u64_id by (unfold hs; zoffs).
  eexists. split; [reflexivity|]. cbv beta. cbn [mem with_mem].
  set (m := mstore 4 _ _ _). set (s' := with_initialized true _).
  assert (fits 8 (hs - sizeof_block) /\ fits 8 0 /\ fits 4 KALLOC_BLOCK_MAGIC) as (Hf1 & Hf2 & Hf3).
  { split; [unfold hs; split; zoffs|by repeat split; vm_compute]. }
  assert (block_at (size_caches_at s) m base (lim - base) (Free 0 0)) as Hblk.
  { unfold m. repeat split; ldst; try done. unfold hs, lim. zoffs. }
  assert (held base lim (size_caches_at s) m (initial base lim)) as Hh.
  { split; [lia|unfold lim; zoffs|apply initial_layout; [done|unfold lim; zoffs]|].
    intros b sz k (-> & -> & ->)%initial_lookup. exact Hblk. }
  assert (dll (initial base lim) 0 [base] 0) as Hd.
  { split; [|done]. exists (lim - base). apply lookup_singleton_eq. }
  split; [|split; [done|split; [unfold hs; cbn; lia|]]].
  - split; [|by split|intros p bs E; by rewrite lookup_empty in E|intros p p' bs bs' q' E; by rewrite lookup_empty in E].
    split; [|apply initial_caches|done].
    exists [base]. split; [split_and!; [exact Hh|exact Hd|apply NoDup_singleton|done]| |done|unfold hs, lim; cbn; zoffs|done].
    intros x (sz & n & p & (-> & _)%initial_lookup). set_solver.
  - unfold free_blocks. change (large_free_list s') with (hd 0 [base]). change (mem s') with m.
    rewrite (walk_free (initial base lim) m 0 [base] _ Hh Hd) by (unfold list_fuel; cbn [length]; lia).
    cbn [fmap list_fmap]. rewrite (bsize_lookup _ base (lim - base) (Free 0 0)) by apply lookup_singleton_eq.
    unfold lim. do 2 f_equal. lia.
Qed.

(** A client's history from the initialisation on. *)
Definition runs (s0 : kalloc_t) (start size : Z) (s : kalloc_t) (a : gmap Z (list byte)) : Prop :=
  exists s1, kalloc_init start size s0 = Some (KALLOC_SUCCESS, s1) /\ rtc client (s1, ∅) (s, a).

Lemma runs_serves s0 start size s a :
  before_init s0 start size -> runs s0 start size s a ->
  exists H own, serves (base := KALLOC_ROUND_UP start KALLOC_ALIGN_PAGE) (lim := start + size - sizeof_block)
    (caches := size_caches_at s0) s a H own.
Proof.
  intros Hbi (s1 & Hrun & Hsteps). destruct (boot_serves _ _ _ Hbi) as (s1' & Hrun' & Hsv & _).
  rewrite Hrun in Hrun'. injection Hrun' as <-.
  enough (forall x y, rtc client x y ->
    (exists H own, serves (base := KALLOC_ROUND_UP start KALLOC_ALIGN_PAGE) (lim := start + size - sizeof_block)
       (caches := size_caches_at s0) x.1 x.2 H own) ->
    exists H own, serves (base := KALLOC_ROUND_UP start KALLOC_ALIGN_PAGE) (lim := start + size - sizeof_block)
       (caches := size_caches_at s0) y.1 y.2 H own) as Hgen.
  { apply (Hgen _ _ Hsteps). eexists _, _. exact Hsv. }
  clear. intros x y Hsteps. induction Hsteps as [x|x y z Hstep _ IH]; [done|]. intros (H & own & Hsv). apply IH.
  destruct Hstep as [s2 a2 o r s3 Hal Hex]. cbn [fst snd] in *.
  destruct (serves_step s2 a2 H own o Hsv Hal) as (r' & s3' & Hex' & _ & H' & own' & Hsv').
  rewrite Hex in Hex'. injection Hex' as <- <-. eauto.
Qed.

(** C16: whatever sequence of calls a client makes, with requests below 2^62
    bytes ([size_wraps] shows what a larger one does), alignments that are
    powers of two, and frees and writes only of what it holds, the arrays it
    holds are inside the heap, aligned to 8 bytes and apart from each other,
    and hold what it last wrote there: neither the allocator nor another
    array's owner touches them. *)
Theorem kalloc_safe s0 start size s a :
  before_init s0 start size -> runs s0 start size s a ->
  (forall p bs, a !! p = Some bs ->
     mread (mem s) p (length bs) = bs /\ (8 | p) /\ start <= p /\ p + Z.of_nat (length bs) <= start + size) /\
  (forall p q bs bs', a !! p = Some bs -> a !! q = Some bs' -> p <> q ->
     p + Z.of_nat (length bs) <= q \/ q + Z.of_nat (length bs') <= p).
Proof.
  intros Hbi Hrun. destruct (runs_serves _ _ _ _ _ Hbi Hrun) as (H & own & Hsv). split.
  - intros p bs Hp. destruct (sv_held _ _ _ _ Hsv _ _ Hp) as (q & cap & Hq & Ho & ? & ? & ? & Hn & ?).
    destruct Hbi as [_ _ _ (Hs & Hz & Hl)]. destruct (base_of start size Hs Hz Hl) as (_ & Hb & _).
    pose proof (inv_held _ _ (sv_inv _ _ _ _ Hsv)) as Hh.
    destruct (object_in_block H q cap (h_layout _ _ _ _ _ Hh) Ho) as (b & sz & k & Hbk & ? & ? & _).
    pose proof (held_addr _ _ _ _ _ Hh Hbk). split; [done|]. split; [done|]. zoffs.
  - intros p q bs bs' Hp Hq Hne. by eapply serves_apart.
Qed.

(** C17: every call a client may make (requests below 2^62 bytes, alignments
    that are powers of two) returns.  [kalloc] refuses a request only when it
    is empty or no free block of the heap is large enough for it, and
    [kalloc_aligned] only when it is empty, no free block holds the padded
    request or, for a small request that goes to a cache, no free block
    holds a new slab; otherwise the result is new memory of the size asked
    for inside the heap, zeroed when [kalloc_flags] was asked to and aligned
    when [kalloc_aligned] served it from the large blocks. *)
Theorem kalloc_returns s0 start size s a o :
  before_init s0 start size -> runs s0 start size s a -> allowed a o ->
  exists r s', exec o s = Some (r, s') /\
    match o with
    | Kalloc n flags =>
        (r = 0 /\ (0 < n -> Forall (fun b => b.2 < total_of n) (free_blocks s))) \/
        (0 < n /\ a !! r = None /\ start <= r /\ r + n <= start + size /\
         (Z.land flags KALLOC_ZERO <> 0 -> mread (mem s') r (Z.to_nat n) = zeros (Z.to_nat n)))
    | KallocAligned n al =>
        (r = 0 /\ (0 < n ->
           Forall (fun b => b.2 < total_of (n + al - 1 + sizeof_block)) (free_blocks s) \/
           (n <= 4096 /\ al <= 64 /\
            Forall (fun b => b.2 < total_of (sizeof_slab + KALLOC_ALIGN_PAGE)) (free_blocks s)))) \/
        (0 < n /\ a !! r = None /\ start <= r /\ r + n <= start + size /\ (64 < al \/ 4096 < n -> (al | r)))
    | _ => r = 0
    end.
Proof.
  intros Hbi Hrun Hal. destruct (runs_serves _ _ _ _ _ Hbi Hrun) as (H & own & Hsv).
  destruct (serves_step s a H own o Hsv Hal) as (r & s' & Hex & Hans & _). exists r, s'. split; [done|].
  destruct Hbi as [_ _ _ (Hs & Hz & Hl)]. destruct (base_of start size Hs Hz Hl) as (_ & Hb & _).
  destruct o as [n flags|n al|p|p off bs]; cbn [exec answers allowed] in *; [|..|done|done].
  - destruct Hans as [Hr Hzero]. destruct (decide (r = 0)) as [->|Hne]; [left|right].
    + split; [done|]. intros Hn. eapply (refused s a H own n flags s'); [exact Hsv|lia|exact Hex].
    + destruct (Hr Hne) as (? & ? & ? & ? & ?). split_and!; try done; [lia|zoffs|auto].
  - destruct Hans as [Hr Hdiv], Hal as (Hn & k & Hk & ->). destruct (decide (r = 0)) as [->|Hne]; [left|right].
    + split; [done|]. intros Hn0. by eapply (aligned_refused s a H own n k s'); [exact Hsv|lia|..].
    + destruct (Hr Hne) as (? & ? & ? & ? & ?). split_and!; try done; [lia|zoffs].
Qed.

(** ** Runs *)
Definition after {A} (e : M A) (d : A) (s : kalloc_t) : A * kalloc_t :=
  match e s with Some x => x | None => (d, s) end.
Definition returns {A} (e : M A) (s : kalloc_t) : bool := match e s with Some _ => true | None => false end.

Lemma after_returns {A} (e : M A) d s : returns e s = true -> e s = Some ((after e d s).1, (after e d s).2).
Proof. unfold returns, after. by destruct (e s) as [[x s']|]. Qed.

Definition demo0 : kalloc_t :=
  {| kalloc_initialized := false; heap_base := 0; heap_size := 0; allocator_stats := stats_zero;
     size_caches := []; large_free_list := 0; heap_lock := 0; size_caches_at := 0x200000; mem := ∅ |}.
Definition demo1 : kalloc_t := (after (kalloc_init 0x400001 0x10000) 0 demo0).2.
Definition demo2 : Z * kalloc_t := after (exec (Kalloc 5 0)) 0 demo1.
Definition hello : list byte := map byte.of_Z [104; 101; 108; 108; 111].
Definition demo3 : Z * kalloc_t := after (exec (Store demo2.1 0 hello)) 0 demo2.2.
Definition demo4 : Z * kalloc_t := after (exec (Kalloc 200 KALLOC_ZERO)) 0 demo3.2.
Definition held2 : gmap Z (list byte) := track ∅ (Kalloc 5 0) demo2.1 (mem demo2.2).
Definition held3 : gmap Z (list byte) := track held2 (Store demo2.1 0 hello) demo3.1 (mem demo3.2).
Definition held4 : gmap Z (list byte) := track held3 (Kalloc 200 KALLOC_ZERO) demo4.1 (mem demo4.2).

Lemma demo_before : before_init demo0 0x400001 0x10000.
Proof. split; [done|done|cbn; lia|lia]. Qed.

Lemma demo_runs : runs demo0 0x400001 0x10000 demo4.2 held4.
Proof.
  exists demo1. split.
  { unfold demo1. rewrite (after_returns _ 0) by (vm_compute; reflexivity). by rewrite (eq_refl : (after (kalloc_init 0x400001 0x10000) 0 demo0).1 = KALLOC_SUCCESS). }
  eapply rtc_l; [apply (client_op demo1 ∅ (Kalloc 5 0) demo2.1 demo2.2)|].
  { cbn; lia. } { refine (after_returns (exec (Kalloc 5 0)) 0 demo1 _). vm_compute. reflexivity. }
  eapply rtc_l; [apply (client_op demo2.2 held2 (Store demo2.1 0 hello) demo3.1 demo3.2)|].
  { exists (mread (mem demo2.2) demo2.1 5). split; [vm_compute; reflexivity|]. rewrite length_mread. cbn. lia. }
  { refine (after_returns (exec (Store demo2.1 0 hello)) 0 demo2.2 _). vm_compute. reflexivity. }
  eapply rtc_l; [apply (client_op demo3.2 held3 (Kalloc 200 KALLOC_ZERO) demo4.1 demo4.2)|].
  { cbn; lia. } { refine (after_returns (exec (Kalloc 200 KALLOC_ZERO)) 0 demo3.2 _). vm_compute. reflexivity. }
  apply rtc_refl.
Qed.

Lemma kalloc_safe_witness :
  mread (mem demo4.2) demo2.1 5 = hello /\
  (demo2.1 + 5 <= demo4.1 \/ demo4.1 + 200 <= demo2.1).
Proof.
  destruct (kalloc_safe demo0 0x400001 0x10000 demo4.2 held4 demo_before demo_runs) as [Hread Hapart].
  split.
  - apply (Hread demo2.1 hello). vm_compute. reflexivity.
  - apply (Hapart demo2.1 demo4.1 hello (zeros 200)); [vm_compute; reflexivity..|vm_compute; discriminate].
Defined.

Lemma kalloc_returns_witness :
  exists r s', kalloc_flags 4000 KALLOC_ZERO demo4.2 = Some (r, s') /\
    ((r = 0 /\ (0 < 4000 -> Forall (fun b => b.2 < total_of 4000) (free_blocks demo4.2))) \/
     (0 < 4000 /\ held4 !! r = None /\ 0x400001 <= r /\ r + 4000 <= 0x400001 + 0x10000 /\
      (Z.land KALLOC_ZERO KALLOC_ZERO <> 0 -> mread (mem s') r 4000 = zeros 4000))).
Proof.
  apply (kalloc_returns demo0 0x400001 0x10000 demo4.2 held4 (Kalloc 4000 KALLOC_ZERO) demo_before demo_runs).
  cbn. lia.
Defined.

(** ** Where the allocator does not do what it means to *)

(** A large block is never freed: [kfree] asks for the magic of a free block
    in the header of one that is in use.  A heap of 64 KB serves a block of
    30000 bytes twice, freed or not, and then never again. *)
Definition give_back (n : Z) : M Z := bind (kalloc n) (fun p => bind (kfree p) (fun _ => ret p)).

Lemma large_never_freed :
  (after (bind (give_back 30000) (fun _ => bind (give_back 30000) (fun _ => kalloc 30000))) 1 demo1).1 = 0.
Proof. vm_compute. reflexivity. Qed.

(** An object freed in a full slab is never handed out again: a slab that was
    full stays on the list of full slabs. *)
Lemma full_slab_lost :
  (after (bind (give_back 4096) (fun p => bind (give_back 4096) (fun q => ret (p =? q)%Z))) true demo1).1 = false /\
  (after (bind (give_back 2048) (fun p => bind (give_back 2048) (fun q => ret (p =? q)%Z))) false demo1).1 = true.
Proof. split; vm_compute; reflexivity. Qed.

(** The size computation wraps: a request for almost 2^64 bytes is granted a
    block of 32 bytes, header included. *)
Lemma size_wraps :
  let '(p, s) := after (kalloc (2 ^ 64 - 8)) 0 demo1 in
  p <> 0 /\ mload 8 (mem s) (p - sizeof_block + Block.size) = 24.
Proof. vm_compute. split; [discriminate|reflexivity]. Qed.

(** The cache path of [kalloc_aligned] trusts the cache's alignment, which
    nothing gives the objects: a request for 64-byte alignment is answered
    with an address that is not. *)
Lemma aligned_not_aligned :
  (after (kalloc_aligned 64 64) 0 demo1).1 mod 64 = 8.
Proof. vm_compute. reflexivity. Qed.

(** The name of a cache loses the zeros inside its size. *)
Lemma cache_name_digits :
  name_of_size 1024 = map byte.of_Z [115; 105; 122; 101; 45; 49; 50; 52].
Proof. vm_compute. reflexivity. Qed.
