(* ===== verification/StateMonad.v ===== *)
(** * Computations on a state that may fail

    C code over a state [S] as a function that returns a value and the new
    state, or nothing where the C has no meaning (a dangling pointer) or runs
    longer than a stated bound.  [wp e Q s] says that [e] does return from [s]
    and that [Q] holds of what it returns. *)
From Stdlib Require Import ZArith.
From stdpp Require Import base tactics.

Definition prog (S A : Type) : Type := S -> option (A * S).

Section prog.
Context {S : Type}.

#[local] Set Default Proof Using "Type".

Definition pret {A} (x : A) : prog S A := fun s => Some (x, s).
Definition pbind {A B} (e : prog S A) (f : A -> prog S B) : prog S B :=
  fun s => match e s with Some (x, s') => f x s' | None => None end.
Definition pget {A} (f : S -> A) : prog S A := fun s => Some (f s, s).
Definition pmodify (f : S -> S) : prog S unit := fun s => Some (tt, f s).
Definition pfail {A} : prog S A := fun _ => None.
(** [p] must not dangle. *)
Definition pdefined {A} (o : S -> option A) : prog S A :=
  fun s => match o s with Some x => Some (x, s) | None => None end.
(** A function that returns its result and the new state. *)
Definition pcall {A} (f : S -> A * S) : prog S A := fun s => Some (f s).

Definition wp {A} (e : prog S A) (Q : A -> S -> Prop) (s : S) : Prop :=
  match e s with Some (x, s') => Q x s' | None => False end.

Lemma wp_pbind {A B} (e : prog S A) (f : A -> prog S B) Q s :
  wp e (fun x => wp (f x) Q) s -> wp (pbind e f) Q s.
Proof. unfold wp, pbind. destruct (e s) as [[x s']|]; done. Qed.
Lemma wp_pbind_inv {A B} (e : prog S A) (f : A -> prog S B) Q s :
  wp (pbind e f) Q s -> wp e (fun x => wp (f x) Q) s.
Proof. unfold wp, pbind. destruct (e s) as [[x s']|]; done. Qed.
Lemma wp_weaken {A} (e : prog S A) (Q Q' : A -> S -> Prop) s :
  wp e Q s -> (forall x s', Q x s' -> Q' x s') -> wp e Q' s.
Proof. unfold wp. destruct (e s) as [[x s']|]; auto. Qed.
Lemma wp_pret {A} (x : A) Q s : Q x s -> wp (pret x) Q s.
Proof. done. Qed.
Lemma wp_pget {A} (f : S -> A) Q s : Q (f s) s -> wp (pget f) Q s.
Proof. done. Qed.
Lemma wp_pmodify f Q s : Q tt (f s) -> wp (pmodify f) Q s.
Proof. done. Qed.
Lemma wp_pcall {A} (f : S -> A * S) (Q : A -> S -> Prop) s : Q (f s).1 (f s).2 -> wp (pcall f) Q s.
Proof. unfold wp, pcall. destruct (f s); done. Qed.
Lemma wp_pdefined {A} (o : S -> option A) x Q s : o s = Some x -> Q x s -> wp (pdefined o) Q s.
Proof. unfold wp, pdefined. intros ->. done. Qed.
Lemma wp_returns {A} (e : prog S A) Q s : wp e Q s -> exists x s', e s = Some (x, s') /\ Q x s'.
Proof. unfold wp. destruct (e s) as [[x s']|]; [eauto|done]. Qed.
Lemma wp_run {A} (e : prog S A) Q s x s' : wp e Q s -> e s = Some (x, s') -> Q x s'.
Proof. unfold wp. intros H E. rewrite E in H. exact H. Qed.
End prog.

Declare Scope prog_scope.
Delimit Scope prog_scope with prog.
Notation "x <- e ;; f" := (pbind e (fun x => f))
  (at level 100, e at next level, right associativity, only parsing) : prog_scope.
Notation "e ;; f" := (pbind e (fun _ => f))
  (at level 100, right associativity, only parsing) : prog_scope.

(** Run a computation up to the next loop, conditional or call. *)
Ltac wp_step :=
  lazymatch goal with
  | |- wp (pbind _ _) _ _ => apply wp_pbind
  | |- wp (pget _) _ _ => apply wp_pget
  | |- wp (pmodify _) _ _ => apply wp_pmodify
  | |- wp (pcall _) _ _ => apply wp_pcall
  | |- wp (pret _) _ _ => apply wp_pret
  end.
Ltac wp_go := repeat (wp_step; cbv beta).
