(* ===== verification/KernelHeap.v ===== *)
(** * What the kernel's components expect of its heap

    [kmalloc] gives an address no live object has, or NULL; [kfree] gives one
    back.  The objects themselves are kept by type in the components that
    allocate them. *)
From Stdlib Require Import ZArith.
From stdpp Require Import gmap.
From S2P Require Import Prelude.
Open Scope Z_scope.
Open Scope c_scope.

Class KernelHeap (H : Type) := {
  kmalloc : Z -> H -> ptr Z * H;
  kfree : Z -> H -> H;
  (** the addresses of the live objects *)
  live : H -> gset Z }.

Class KernelHeapLaws (H : Type) `{KernelHeap H} := {
  kmalloc_live : forall n h p h', kmalloc n h = (Some p, h') -> p ∉ live h /\ live h' = {[p]} ∪ live h;
  kmalloc_full : forall n h h', kmalloc n h = (None, h') -> live h' = live h;
  kfree_live : forall p h, p ∈ live h -> live (kfree p h) = live h ∖ {[p]} }.

(** The smallest heap: room for [room] objects at the addresses of an arena. *)
Record arena := { room : nat; arena_live : gset Z }.

#[export] Instance arena_heap : KernelHeap arena := {
  kmalloc n h :=
    match room h with
    | O => (None, h)
    | S r => let p := fresh ({[0]} ∪ arena_live h) in (Some p, {| room := r; arena_live := {[p]} ∪ arena_live h |})
    end;
  kfree p h := {| room := S (room h); arena_live := arena_live h ∖ {[p]} |};
  live := arena_live }.

#[export] Instance arena_laws : KernelHeapLaws arena.
Proof.
  split.
  - intros n [[|r] L] p h' [= <- <-]. split; [|reflexivity]. intros Hin.
    by apply (is_fresh ({[0]} ∪ L)), elem_of_union_r.
  - intros n [[|r] L] h' [=]. subst. reflexivity.
  - reflexivity.
Qed.
