(* ===== verification/VmmRegions.v ===== *)
(** * Address spaces and their regions (vmm.c, vmm_regions.c, vmm_cow.c)

    An address space is an object with a list of region objects linked both
    ways, sorted by address.  The spaces are objects at the addresses of
    [space_at], each with the region objects its list reaches; the objects come from
    the kernel heap.  The page tables and frames are those of [PageWalk], where
    a space is its root table.  A computation fails where the code would follow
    a pointer to no object.  Left out of a region are [file_offset] (always 0)
    and the name; of a space, the fields of the checkpoint engine ([Vmm]), the
    [page_count] nothing reads and [pml4_phys], the operand of CR3. *)
From Stdlib Require Import ZArith Lia.
From stdpp Require Import gmap.
From Stdlib Require Import ZArith.
From S2P Require Import Prelude Vmm PageWalk StateMonad KernelHeap.
Open Scope Z_scope.
Open Scope c_scope.
Open Scope prog_scope.

Definition USER_VIRTUAL_BASE : Z := 0x400000.
Definition USER_VIRTUAL_END : Z := 0x00007FFFFFFFFFFF.
Definition USER_STACK_TOP : Z := 0x00007FFFFFFFEFFF.
Definition USER_HEAP_BASE : Z := 0x800000.

Definition PAGE_NX : Z := 0x8000000000000000.
Definition VMM_FLAG_READ : Z := 0x01.
Definition VMM_FLAG_EXEC : Z := 0x04.
Definition VMM_FLAG_USER : Z := 0x08.
Definition VMM_FLAG_COW : Z := 0x20.
Definition VMM_FLAG_LAZY : Z := 0x40.
Definition VMM_PROT_READ : Z := 0x1.
Definition VMM_PROT_WRITE : Z := 0x2.
Definition VMM_PROT_EXEC : Z := 0x4.
Definition VMM_MMAP_FIXED : Z := 0x10.
Definition VMM_MMAP_LAZY : Z := 0x20.
Definition VMM_ERROR_PERM_DENIED : Z := -3.
Definition VMM_ERROR_FAULT : Z := -6.

Inductive vmm_region_type_t :=
  | VMM_REGION_CODE | VMM_REGION_DATA | VMM_REGION_HEAP | VMM_REGION_STACK
  | VMM_REGION_MMAP | VMM_REGION_SHARED | VMM_REGION_KERNEL.

#[export] Instance region_type_dec : EqDecision vmm_region_type_t.
Proof. solve_decision. Defined.

Record vm_region_t := {
  start_addr : Z;
  end_addr : Z;
  flags : Z;
  type : vmm_region_type_t;
  next : ptr Z;
  prev : ptr Z }.

Record vm_space_t := {
  pml4_virt : Z;
  regions : ptr Z;
  region_at : gmap Z vm_region_t;
  heap_start : Z;
  heap_end : Z;
  stack_start : Z;
  mmap_start : Z;
  region_count : Z;
  owner_pid : Z }.

(** ** Fields *)
Definition set_start (z : Z) (r : vm_region_t) : vm_region_t :=
  {| start_addr := z; end_addr := end_addr r; flags := flags r; type := type r; next := next r; prev := prev r |}.
Definition set_end (z : Z) (r : vm_region_t) : vm_region_t :=
  {| start_addr := start_addr r; end_addr := z; flags := flags r; type := type r; next := next r; prev := prev r |}.
Definition set_flags (z : Z) (r : vm_region_t) : vm_region_t :=
  {| start_addr := start_addr r; end_addr := end_addr r; flags := z; type := type r; next := next r; prev := prev r |}.
Definition set_next (p : ptr Z) (r : vm_region_t) : vm_region_t :=
  {| start_addr := start_addr r; end_addr := end_addr r; flags := flags r; type := type r; next := p; prev := prev r |}.
Definition set_prev (p : ptr Z) (r : vm_region_t) : vm_region_t :=
  {| start_addr := start_addr r; end_addr := end_addr r; flags := flags r; type := type r; next := next r; prev := p |}.

Definition set_region_at (m : gmap Z vm_region_t) (s : vm_space_t) : vm_space_t :=
  {| pml4_virt := pml4_virt s; regions := regions s; region_at := m; heap_start := heap_start s;
     heap_end := heap_end s; stack_start := stack_start s; mmap_start := mmap_start s;
     region_count := region_count s; owner_pid := owner_pid s |}.
Definition set_regions (p : ptr Z) (s : vm_space_t) : vm_space_t :=
  {| pml4_virt := pml4_virt s; regions := p; region_at := region_at s; heap_start := heap_start s;
     heap_end := heap_end s; stack_start := stack_start s; mmap_start := mmap_start s;
     region_count := region_count s; owner_pid := owner_pid s |}.
Definition set_heap_end (z : Z) (s : vm_space_t) : vm_space_t :=
  {| pml4_virt := pml4_virt s; regions := regions s; region_at := region_at s; heap_start := heap_start s;
     heap_end := z; stack_start := stack_start s; mmap_start := mmap_start s;
     region_count := region_count s; owner_pid := owner_pid s |}.
Definition set_mmap_start (z : Z) (s : vm_space_t) : vm_space_t :=
  {| pml4_virt := pml4_virt s; regions := regions s; region_at := region_at s; heap_start := heap_start s;
     heap_end := heap_end s; stack_start := stack_start s; mmap_start := z;
     region_count := region_count s; owner_pid := owner_pid s |}.
(** [region_count += d] *)
Definition count_regions (d : Z) (s : vm_space_t) : vm_space_t :=
  {| pml4_virt := pml4_virt s; regions := regions s; region_at := region_at s; heap_start := heap_start s;
     heap_end := heap_end s; stack_start := stack_start s; mmap_start := mmap_start s;
     region_count := u32 (region_count s + d); owner_pid := owner_pid s |}.

(** ** The list of regions of one space *)
Definition region (p : Z) : prog vm_space_t vm_region_t := pdefined (fun s => region_at s !! p).
(** An assignment to a field of the object at [p]. *)
Definition update_region (p : Z) (f : vm_region_t -> vm_region_t) : prog vm_space_t unit :=
  r <- region p;; pmodify (fun s => set_region_at (<[p := f r]> (region_at s)) s).
(** The same where the code tests the pointer first. *)
Definition update_if (p : ptr Z) (f : vm_region_t -> vm_region_t) : prog vm_space_t unit :=
  match p with NULL => pret tt | Some q => update_region q f end.

(** A list inside the objects has no more regions than there are. *)
Definition list_fuel (s : vm_space_t) : nat := S (size (region_at s)).

Fixpoint find_from (n : nat) (region_p : ptr Z) (addr : Z) : prog vm_space_t (ptr Z) :=
  match region_p with
  | NULL => pret NULL
  | Some p =>
      match n with
      | O => pfail
      | S n =>
          r <- region p;;
          if (start_addr r <=? addr) && (addr <? end_addr r) then pret (& p) else find_from n (next r) addr
      end
  end.

Definition find_region (addr : Z) : prog vm_space_t (ptr Z) :=
  n <- pget list_fuel;;
  p <- pget regions;;
  find_from n p addr.

(** [while (current->next && current->next->start_addr < start)] *)
Fixpoint insert_after (n : nat) (current start : Z) : prog vm_space_t Z :=
  c <- region current;;
  match next c with
  | NULL => pret current
  | Some p =>
      match n with
      | O => pfail
      | S n => r <- region p;; if start_addr r <? start then insert_after n p start else pret current
      end
  end.

(** The new object [p] into the sorted list. *)
Definition insert_region (p start : Z) : prog vm_space_t unit :=
  head <- pget regions;;
  first <- (match head with
            | NULL => pret true
            | Some h => r <- region h;; pret (start <? start_addr r)
            end);;
  (if first : bool then
     update_region p (set_next head);;
     update_if head (set_prev (& p));;
     pmodify (set_regions (& p))
   else
     match head with
     | NULL => pfail
     | Some h =>
         n <- pget list_fuel;;
         current <- insert_after n h start;;
         c <- region current;;
         update_region p (fun r => set_prev (& current) (set_next (next c) r));;
         update_if (next c) (set_prev (& p));;
         update_region current (set_next (& p))
     end);;
  pmodify (count_regions 1).

(** Out of the list, and its object gone. *)
Definition unlink_region (p : Z) : prog vm_space_t unit :=
  r <- region p;;
  (match prev r with
   | Some q => update_region q (set_next (next r))
   | NULL => pmodify (set_regions (next r))
   end);;
  update_if (next r) (set_prev (prev r));;
  pmodify (count_regions (-1)).

Definition delete_region (p : Z) (s : vm_space_t) : vm_space_t := set_region_at (delete p (region_at s)) s.

(** [*upper_region = *region] and the links around it. *)
Definition split_at (p upper split_addr : Z) : prog vm_space_t unit :=
  r <- region p;;
  pmodify (fun s => set_region_at (<[upper := set_start split_addr r]> (region_at s)) s);;
  update_region p (set_end split_addr);;
  r <- region p;;
  update_region upper (fun u => set_prev (& p) (set_next (next r) u));;
  update_if (next r) (set_prev (& upper));;
  update_region p (set_next (& upper));;
  pmodify (count_regions 1).

(** ** The memory manager and its address spaces *)
Section mm.
Context {Heap : Type} {HK : KernelHeap Heap}.

Record mm_t := {
  vm : vmm_t;
  heap : Heap;
  space_at : gmap Z vm_space_t;
  kernel_vm_space : ptr Z;      (* [kernel_space]; its table is [PageWalk.kernel_space] *)
  current_space : ptr Z;
  vmm_initialized : bool }.

Definition set_vm (v : vmm_t) (m : mm_t) : mm_t :=
  {| vm := v; heap := heap m; space_at := space_at m; kernel_vm_space := kernel_vm_space m;
     current_space := current_space m; vmm_initialized := vmm_initialized m |}.
Definition set_heap (h : Heap) (m : mm_t) : mm_t :=
  {| vm := vm m; heap := h; space_at := space_at m; kernel_vm_space := kernel_vm_space m;
     current_space := current_space m; vmm_initialized := vmm_initialized m |}.
Definition set_spaces (s : gmap Z vm_space_t) (m : mm_t) : mm_t :=
  {| vm := vm m; heap := heap m; space_at := s; kernel_vm_space := kernel_vm_space m;
     current_space := current_space m; vmm_initialized := vmm_initialized m |}.
Definition set_globals (k c : ptr Z) (b : bool) (m : mm_t) : mm_t :=
  {| vm := vm m; heap := heap m; space_at := space_at m; kernel_vm_space := k; current_space := c;
     vmm_initialized := b |}.

Abbreviation MM := (prog mm_t).

(** [e] run on the space object at [s]. *)
Definition in_space {A} (s : Z) (e : prog vm_space_t A) : MM A :=
  fun m =>
    match space_at m !! s with
    | Some sp => match e sp with Some (x, sp') => Some (x, set_spaces (<[s := sp']> (space_at m)) m) | None => None end
    | None => None
    end.
Definition in_vm {A} (f : vmm_t -> A * vmm_t) : MM A := pcall (fun m => let '(x, v) := f (vm m) in (x, set_vm v m)).
Definition in_heap {A} (f : Heap -> A * Heap) : MM A := pcall (fun m => let '(x, h) := f (heap m) in (x, set_heap h m)).
Definition malloc (size : Z) : MM (ptr Z) := in_heap (kmalloc size).
Definition free (p : Z) : MM unit := in_heap (fun h => (tt, kfree p h)).
(** [kfree(region)] of a region of the space at [s]. *)
Definition free_region (s p : Z) : MM unit :=
  in_space s (pmodify (delete_region p));;
  free p.

Definition count_faults (faults major minor : Z) : MM unit :=
  in_vm (fun v =>
    let st := statistics v in
    (tt, with_frames (frame_database v) (free_frames v) (free_frame_count v)
           {| total_pages := total_pages st; free_pages := free_pages st; allocated_pages := allocated_pages st;
              page_faults := u64 (page_faults st + faults); major_faults := u64 (major_faults st + major);
              minor_faults := u64 (minor_faults st + minor) |} v)).

Definition sizeof_region : Z := 80.
Definition sizeof_space : Z := 88.
Definition vmm_align_up (addr alignment : Z) : Z := Z.ldiff (u64 (addr + alignment - 1)) (alignment - 1).

(** The page operations on the space object at [s]. *)
Definition map_page (s virt phys fl : Z) : MM Z :=
  root <- in_space s (pget pml4_virt);;
  in_vm (fun v => vmm_map_page v (& root) virt phys fl).
Definition unmap_page (s virt : Z) : MM Z :=
  root <- in_space s (pget pml4_virt);;
  in_vm (fun v => vmm_unmap_page v (& root) virt).
Definition alloc_page : MM Z := in_vm vmm_alloc_page.
Definition free_page (phys : Z) : MM unit := in_vm (fun v => (tt, vmm_free_page v phys)).

(** [for (a = addr; a < last; a += PAGE_SIZE)], left when [body] returns. *)
Fixpoint page_loop {R} (n : nat) (addr last : Z) (body : Z -> MM (option R)) : MM (option R) :=
  if addr <? last then
    match n with
    | O => pfail
    | S n =>
        r <- body addr;;
        match r with
        | Some x => pret (Some x)
        | None => page_loop n (u64 (addr + PAGE_SIZE)) last body
        end
    end
  else pret None.
(** The pages that start in the range; the loop's bound. *)
Definition page_steps (addr last : Z) : nat := Z.to_nat ((last - addr + PAGE_SIZE - 1) / PAGE_SIZE).
Definition for_pages {R} (addr last : Z) (body : Z -> MM (option R)) : MM (option R) :=
  page_loop (page_steps addr last) addr last body.
(** The loop that only unmaps. *)
Definition unmap_pages (s addr last : Z) : MM (option unit) :=
  for_pages addr last (fun a => _ <- unmap_page s a;; pret None).

(** *** Regions *)
Definition vmm_find_region (space : ptr Z) (addr : Z) : MM (ptr Z) :=
  match space with NULL => pret NULL | Some s => in_space s (find_region addr) end.

Definition vmm_create_region (space : ptr Z) (start size fl : Z) (ty : vmm_region_type_t) : MM (ptr Z) :=
  match space with
  | NULL => pret NULL
  | Some s =>
      if size =? 0 then pret NULL
      else
        let end_ := vmm_align_up (u64 (vmm_align_down start PAGE_SIZE + size)) PAGE_SIZE in
        let start := vmm_align_down start PAGE_SIZE in
        existing <- vmm_find_region space start;;
        overlap <- (match existing with
                    | NULL => pret false
                    | Some p => r <- in_space s (region p);; pret (start <? end_addr r)
                    end);;
        if overlap : bool then pret NULL
        else
          p <- malloc sizeof_region;;
          match p with
          | NULL => pret NULL
          | Some p =>
              let r := {| start_addr := start; end_addr := end_; flags := fl; type := ty; next := NULL; prev := NULL |} in
              in_space s (pmodify (fun sp => set_region_at (<[p := r]> (region_at sp)) sp));;
              in_space s (insert_region p start);;
              pret (& p)
          end
  end.

Definition vmm_destroy_region (space : ptr Z) (addr : Z) : MM Z :=
  match space with
  | NULL => pret VMM_ERROR_INVALID_ADDR
  | Some s =>
      region_p <- vmm_find_region space addr;;
      match region_p with
      | NULL => pret VMM_ERROR_NOT_FOUND
      | Some p =>
          r <- in_space s (region p);;
          unmap_pages s (start_addr r) (end_addr r);;
          in_space s (unlink_region p);;
          free_region s p;;
          pret VMM_SUCCESS
      end
  end.

Definition vmm_split_region (space : ptr Z) (split_addr : Z) : MM Z :=
  match space with
  | NULL => pret VMM_ERROR_INVALID_ADDR
  | Some s =>
      region_p <- vmm_find_region space split_addr;;
      match region_p with
      | NULL => pret VMM_ERROR_NOT_FOUND
      | Some p =>
          r <- in_space s (region p);;
          if (split_addr <=? start_addr r) || (end_addr r <=? split_addr) then pret VMM_ERROR_NOT_FOUND
          else
            let split_addr := vmm_align_up split_addr PAGE_SIZE in
            upper <- malloc sizeof_region;;
            match upper with
            | NULL => pret VMM_ERROR_NOMEM
            | Some u => in_space s (split_at p u split_addr);; pret VMM_SUCCESS
            end
      end
  end.

Definition vmm_merge_regions (space region1 region2 : ptr Z) : MM Z :=
  match space, region1, region2 with
  | Some s, Some p1, Some p2 =>
      r1 <- in_space s (region p1);;
      r2 <- in_space s (region p2);;
      if negb (end_addr r1 =? start_addr r2) || negb (flags r1 =? flags r2) || bool_decide (type r1 <> type r2) then
        pret VMM_ERROR_INVALID_ADDR
      else
        in_space s (
          update_region p1 (set_end (end_addr r2));;
          r2 <- region p2;;
          update_if (prev r2) (set_next (next r2));;
          update_if (next r2) (set_prev (prev r2));;
          pmodify (count_regions (-1)));;
        free_region s p2;;
        pret VMM_SUCCESS
  | _, _, _ => pret VMM_ERROR_INVALID_ADDR
  end.

(** *** Protection *)
Definition protect_flags (new_flags : Z) : Z :=
  let f := PAGE_PRESENT in
  let f := if pte_has new_flags VMM_FLAG_WRITE then Z.lor f PAGE_WRITABLE else f in
  let f := if pte_has new_flags VMM_FLAG_USER then Z.lor f PAGE_USER else f in
  if pte_has new_flags VMM_FLAG_EXEC then f else u32 (Z.lor f PAGE_NX).

(** One page of the loop over the entries. *)
Definition protect_page (root new_flags page_addr : Z) (v : vmm_t) : vmm_t :=
  match vmm_get_page_table v (& root) page_addr PT_LEVEL false with
  | (NULL, v) => v
  | (Some (t, i), v) =>
      let pte := entry_at v t i in
      if pte_has pte PAGE_PRESENT
      then set_entry v t i (Z.lor (Z.land pte 0xFFFFFFFFFFFFF000) (protect_flags new_flags))
      else v
  end.

(** Region [p] cut down to [region_start, region_end): its pointer, or an
    error.  The region found again after the first split is not tested. *)
Definition protect_cut (s p : Z) (r : vm_region_t) (region_start region_end : Z) : MM (Z + Z) :=
  low <- (if start_addr r <? region_start then
            rc <- vmm_split_region (& s) region_start;;
            if negb (rc =? VMM_SUCCESS) then pret (inr rc)
            else
              q <- vmm_find_region (& s) region_start;;
              match q with NULL => pfail | Some q => pret (inl q) end
          else pret (inl p));;
  match low with
  | inr rc => pret (inr rc)
  | inl p =>
      r <- in_space s (region p);;
      if region_end <? end_addr r then
        rc <- vmm_split_region (& s) region_end;;
        pret (if negb (rc =? VMM_SUCCESS) then inr rc else inl p)
      else pret (inl p)
  end.

Fixpoint protect_from (n : nat) (s current_addr last new_flags : Z) : MM Z :=
  if current_addr <? last then
    match n with
    | O => pfail
    | S n =>
        region_p <- vmm_find_region (& s) current_addr;;
        match region_p with
        | NULL => pret VMM_ERROR_NOT_FOUND
        | Some p =>
            r <- in_space s (region p);;
            let region_start := if start_addr r <? current_addr then current_addr else start_addr r in
            let region_end := if last <? end_addr r then last else end_addr r in
            cut <- protect_cut s p r region_start region_end;;
            match cut with
            | inr rc => pret rc
            | inl p =>
                in_space s (update_region p (set_flags new_flags));;
                root <- in_space s (pget pml4_virt);;
                for_pages (R := unit) region_start region_end (fun a =>
                  in_vm (fun v => (tt, protect_page root new_flags a v));; pret None);;
                protect_from n s region_end last new_flags
            end
        end
    end
  else pret VMM_SUCCESS.

Definition vmm_protect_region (space : ptr Z) (addr size new_flags : Z) : MM Z :=
  match space with
  | NULL => pret VMM_ERROR_INVALID_ADDR
  | Some s =>
      if size =? 0 then pret VMM_ERROR_INVALID_ADDR
      else
        let first := vmm_align_down addr PAGE_SIZE in
        let last := vmm_align_up (u64 (addr + size)) PAGE_SIZE in
        protect_from (page_steps first last) s first last new_flags
  end.

(** *** Mappings *)

(** One frame for the page; [& rc]: the reason there is none. *)
Definition populate (s page_flags a : Z) : MM (option Z) :=
  phys <- alloc_page;;
  if phys =? 0 then pret (Some VMM_ERROR_NOMEM)
  else
    rc <- map_page s a phys page_flags;;
    if negb (rc =? VMM_SUCCESS) then free_page phys;; pret (Some rc) else pret None.

Definition MAP_FAILED : Z := 2 ^ 64 - 1.

(** Is a page of the range in a region? *)
Definition range_taken (s first last : Z) : MM (option unit) :=
  for_pages first last (fun a => p <- vmm_find_region (& s) a;; pret (match p with NULL => None | Some _ => Some tt end)).

Definition mmap_limit : Z := USER_STACK_TOP - 0x10000.

(** The first address from [start] on where the range is free. *)
Fixpoint mmap_search (n : nat) (s start size : Z) : MM Z :=
  if u64 (start + size) <? mmap_limit then
    match n with
    | O => pfail
    | S n =>
        taken <- range_taken s start (u64 (start + size));;
        match taken with
        | None => pret start
        | Some _ => mmap_search n s (u64 (start + PAGE_SIZE)) size
        end
    end
  else pret start.

Definition prot_flags (prot : Z) : Z :=
  let f := 0 in
  let f := if pte_has prot VMM_PROT_READ then Z.lor f VMM_FLAG_READ else f in
  let f := if pte_has prot VMM_PROT_WRITE then Z.lor f VMM_FLAG_WRITE else f in
  let f := if pte_has prot VMM_PROT_EXEC then Z.lor f VMM_FLAG_EXEC else f in
  Z.lor f VMM_FLAG_USER.

(** The flags of the entries of a region. *)
Definition page_flags_of (region_flags : Z) : Z :=
  let f := PAGE_PRESENT in
  let f := if pte_has region_flags VMM_FLAG_WRITE then Z.lor f PAGE_WRITABLE else f in
  if pte_has region_flags VMM_FLAG_USER then Z.lor f PAGE_USER else f.

(** The address a hint is taken for: [inr tt] fails, [inl 0] means any. *)
Definition mmap_hint (s addr size fl : Z) : MM (Z + unit) :=
  let start := vmm_align_down addr PAGE_SIZE in
  taken <- range_taken s start (u64 (start + size));;
  match taken with
  | None => pret (inl start)
  | Some _ => if negb (pte_has fl VMM_MMAP_FIXED) then pret (inl 0) else pret (inr tt)
  end.

(** [addr]: 0 is the null pointer. *)
Definition mmap_start_addr (s addr size fl : Z) : MM (option Z) :=
  hint <- (if addr =? 0 then pret (inl 0) else mmap_hint s addr size fl);;
  match hint with
  | inr _ => pret None
  | inl start =>
      if start =? 0 then
        from <- in_space s (pget mmap_start);;
        start <- mmap_search (page_steps from mmap_limit) s from size;;
        if mmap_limit <=? u64 (start + size) then pret None else pret (Some start)
      else pret (Some start)
  end.

(** The region and the pages of a mapping at [start]. *)
Definition mmap_at (s start size region_flags fl : Z) : MM Z :=
  region_p <- vmm_create_region (& s) start size region_flags VMM_REGION_MMAP;;
  match region_p with
  | NULL => pret MAP_FAILED
  | Some _ =>
      failed <- (if negb (pte_has fl VMM_MMAP_LAZY)
                 then for_pages start (u64 (start + size)) (populate s (page_flags_of region_flags))
                 else pret None);;
      match failed with
      | Some _ => vmm_destroy_region (& s) start;; pret MAP_FAILED
      | None => in_space s (pmodify (set_mmap_start (u64 (start + size))));; pret start
      end
  end.

Definition vmm_mmap (space : ptr Z) (addr size prot fl : Z) : MM Z :=
  match space with
  | NULL => pret MAP_FAILED
  | Some s =>
      if size =? 0 then pret MAP_FAILED
      else
        let size := vmm_align_up size PAGE_SIZE in
        start <- mmap_start_addr s addr size fl;;
        match start with
        | None => pret MAP_FAILED
        | Some start => mmap_at s start size (prot_flags prot) fl
        end
  end.

(** The part [region_start, region_end) of the region [p]. *)
Definition munmap_part (s p : Z) (r : vm_region_t) (current_addr region_start region_end : Z) : MM unit :=
  unmap_pages s region_start region_end;;
  if (region_start =? start_addr r) && (region_end =? end_addr r) then
    vmm_destroy_region (& s) current_addr;; pret tt
  else if region_start =? start_addr r then in_space s (update_region p (set_start region_end))
  else if region_end =? end_addr r then in_space s (update_region p (set_end region_start))
  else
    vmm_split_region (& s) region_end;;
    in_space s (update_region p (set_end region_start)).

Fixpoint munmap_from (n : nat) (s current_addr last : Z) : MM Z :=
  if current_addr <? last then
    match n with
    | O => pfail
    | S n =>
        region_p <- vmm_find_region (& s) current_addr;;
        match region_p with
        | NULL => munmap_from n s (u64 (current_addr + PAGE_SIZE)) last
        | Some p =>
            r <- in_space s (region p);;
            let region_start := if start_addr r <? current_addr then current_addr else start_addr r in
            let region_end := if last <? end_addr r then last else end_addr r in
            munmap_part s p r current_addr region_start region_end;;
            munmap_from n s region_end last
        end
    end
  else pret VMM_SUCCESS.

Definition vmm_munmap (space : ptr Z) (addr size : Z) : MM Z :=
  match space with
  | NULL => pret VMM_ERROR_INVALID_ADDR
  | Some s =>
      if (addr =? 0) || (size =? 0) then pret VMM_ERROR_INVALID_ADDR
      else
        let first := vmm_align_down addr PAGE_SIZE in
        let last := vmm_align_up (u64 (addr + size)) PAGE_SIZE in
        munmap_from (page_steps first last) s first last
  end.

(** *** The heap of a process *)

(** [region->type == VMM_REGION_HEAP] and [old_heap_end] in or at its end *)
Fixpoint find_heap (n : nat) (region_p : ptr Z) (old_heap_end : Z) : prog vm_space_t (ptr Z) :=
  match region_p with
  | NULL => pret NULL
  | Some p =>
      match n with
      | O => pfail
      | S n =>
          r <- region p;;
          if bool_decide (type r = VMM_REGION_HEAP) && (start_addr r <=? old_heap_end) && (old_heap_end <=? end_addr r)
          then pret (& p)
          else find_heap n (next r) old_heap_end
      end
  end.

(** [increment] is signed. *)
Definition vmm_expand_heap (space : ptr Z) (increment : Z) : MM Z :=
  match space with
  | NULL => pret MAP_FAILED
  | Some s =>
      old_heap_end <- in_space s (pget heap_end);;
      let new_heap_end := u64 (old_heap_end + increment) in
      if (0 <? increment) && (new_heap_end <? old_heap_end) then pret MAP_FAILED
      else if (increment <? 0) && (old_heap_end <? new_heap_end) then pret MAP_FAILED
      else
        heap_region <- in_space s (n <- pget list_fuel;; p <- pget regions;; find_heap n p old_heap_end);;
        let old_top := vmm_align_up old_heap_end PAGE_SIZE in
        let new_top := vmm_align_up new_heap_end PAGE_SIZE in
        failed <- (
          if 0 <? increment then
            if 0 <? u64 (new_top - old_top) then
              match heap_region with
              | Some p =>
                  r <- in_space s (region p);;
                  if new_heap_end <=? end_addr r then
                    failed <- for_pages old_top new_top
                      (populate s (Z.lor (Z.lor PAGE_PRESENT PAGE_WRITABLE)
                                     (if pte_has (flags r) VMM_FLAG_USER then PAGE_USER else 0)));;
                    pret (match failed with Some _ => true | None => false end)
                  else
                    in_space s (update_region p (set_end new_top));; pret false
              | NULL =>
                  from <- in_space s (pget heap_start);;
                  p <- vmm_create_region (& s) from (u64 (new_heap_end - from))
                         (Z.lor (Z.lor VMM_FLAG_READ VMM_FLAG_WRITE) VMM_FLAG_USER) VMM_REGION_HEAP;;
                  pret (match p with NULL => true | Some _ => false end)
              end
            else pret false
          else if increment <? 0 then
            if 0 <? u64 (old_top - new_top) then
              unmap_pages s new_top old_top;;
              match heap_region with
              | Some p =>
                  r <- in_space s (region p);;
                  if new_top <? end_addr r then in_space s (update_region p (set_end new_top));; pret false
                  else pret false
              | NULL => pret false
              end
            else pret false
          else pret false);;
        if failed : bool then pret MAP_FAILED
        else in_space s (pmodify (set_heap_end new_heap_end));; pret old_heap_end
  end.

(** *** Virtual memory *)
Definition vmm_free_virtual (space : ptr Z) (addr size : Z) : MM unit :=
  match space with
  | NULL => pret tt
  | Some s =>
      if (addr =? 0) || (size =? 0) then pret tt
      else
        let start := vmm_align_down addr PAGE_SIZE in
        let last := vmm_align_up (u64 (start + size)) PAGE_SIZE in
        unmap_pages s start last;;
        vmm_destroy_region (& s) start;;
        pret tt
  end.

(** The end of the last region. *)
Fixpoint last_end (n : nat) (p : Z) : prog vm_space_t Z :=
  r <- region p;;
  match next r with
  | NULL => pret (end_addr r)
  | Some q => match n with O => pfail | S n => last_end n q end
  end.

(** The pages of [vmm_alloc_virtual]: a failure carries the address it was at. *)
Definition populate_at (s page_flags a : Z) : MM (option Z) :=
  failed <- populate s page_flags a;;
  pret (match failed with Some _ => Some a | None => None end).

Definition vmm_alloc_virtual (space : ptr Z) (size fl : Z) : MM (ptr Z) :=
  match space with
  | NULL => pret NULL
  | Some s =>
      if size =? 0 then pret NULL
      else
        let size := vmm_align_up size PAGE_SIZE in
        head <- in_space s (pget regions);;
        start_addr <- (match head with
                       | NULL => pret USER_VIRTUAL_BASE
                       | Some h =>
                           e <- in_space s (n <- pget list_fuel;; last_end n h);;
                           pret (vmm_align_up e PAGE_SIZE)
                       end);;
        region_p <- vmm_create_region (& s) start_addr size fl VMM_REGION_HEAP;;
        match region_p with
        | NULL => pret NULL
        | Some _ =>
            failed <- (if negb (pte_has fl VMM_FLAG_LAZY) then
                         for_pages start_addr (u64 (start_addr + size))
                           (populate_at s (Z.lor (Z.lor PAGE_PRESENT PAGE_WRITABLE)
                                             (if pte_has fl VMM_FLAG_USER then PAGE_USER else 0)))
                       else pret None);;
            match failed with
            | Some a => vmm_free_virtual (& s) start_addr (u64 (a - start_addr));; pret NULL
            | None => pret (& start_addr)
            end
        end
  end.

(** *** Page faults *)
Record page_fault_info_t := {
  fault_addr : Z;
  error_code : Z;
  is_write : bool;
  is_user : bool;
  is_present : bool;
  is_instruction_fetch : bool }.

Definition vmm_handle_page_fault (fault_info : ptr page_fault_info_t) : MM Z :=
  match fault_info with
  | NULL => pret VMM_ERROR_FAULT
  | Some f =>
      count_faults 1 0 0;;
      space <- pget current_space;;
      match space with
      | NULL => pret VMM_ERROR_FAULT
      | Some s =>
          region_p <- vmm_find_region (& s) (fault_addr f);;
          match region_p with
          | NULL => count_faults 0 1 0;; pret VMM_ERROR_NOT_FOUND
          | Some p =>
              r <- in_space s (region p);;
              if is_write f && negb (pte_has (flags r) VMM_FLAG_WRITE) then pret VMM_ERROR_PERM_DENIED
              else if is_instruction_fetch f && negb (pte_has (flags r) VMM_FLAG_EXEC) then pret VMM_ERROR_PERM_DENIED
              else if is_write f && pte_has (flags r) VMM_FLAG_COW then
                root <- in_space s (pget pml4_virt);;
                in_vm (fun v => vmm_handle_cow_fault v (& root) (fault_addr f))
              else if pte_has (flags r) VMM_FLAG_LAZY then
                let page_addr := vmm_align_down (fault_addr f) PAGE_SIZE in
                failed <- populate s (page_flags_of (flags r)) page_addr;;
                match failed with
                | Some rc => pret rc
                | None => count_faults 0 0 1;; pret VMM_SUCCESS
                end
              else count_faults 0 1 0;; pret VMM_ERROR_FAULT
          end
      end
  end.

(** The result of the handler is dropped. *)
Definition vmm_page_fault_handler (fault_addr error_code : Z) : MM unit :=
  vmm_handle_page_fault (&
    {| fault_addr := fault_addr; error_code := error_code; is_write := pte_has error_code 0x2;
       is_user := pte_has error_code 0x4; is_present := pte_has error_code 0x1;
       is_instruction_fetch := pte_has error_code 0x10 |});;
  pret tt.

(** *** Address spaces *)
Definition vmm_create_address_space (pid : Z) : MM (ptr Z) :=
  p <- malloc sizeof_space;;
  match p with
  | NULL => pret NULL
  | Some p =>
      root <- in_vm (PageWalk.vmm_create_address_space true pid);;
      match root with
      | NULL => free p;; pret NULL
      | Some root =>
          let sp := {| pml4_virt := root; regions := NULL; region_at := ∅; heap_start := USER_HEAP_BASE;
                       heap_end := USER_HEAP_BASE; stack_start := USER_STACK_TOP;
                       mmap_start := USER_STACK_TOP - 0x40000000; region_count := 0; owner_pid := pid |} in
          pmodify (fun m => set_spaces (<[p := sp]> (space_at m)) m);;
          pret (& p)
      end
  end.

Fixpoint destroy_regions (n : nat) (s : Z) (region_p : ptr Z) : MM unit :=
  match region_p with
  | NULL => pret tt
  | Some p =>
      match n with
      | O => pfail
      | S n =>
          r <- in_space s (region p);;
          unmap_pages s (start_addr r) (end_addr r);;
          free_region s p;;
          destroy_regions n s (next r)
      end
  end.

(** Only the root of the page tables is freed; the code leaves the rest. *)
Definition vmm_destroy_address_space (space : ptr Z) : MM unit :=
  kernel <- pget kernel_vm_space;;
  match space with
  | NULL => pret tt
  | Some s =>
      if bool_decide (Some s = kernel) then pret tt
      else
        head <- in_space s (pget regions);;
        n <- in_space s (pget list_fuel);;
        destroy_regions n s head;;
        root <- in_space s (pget pml4_virt);;
        in_vm (fun v => (tt, free_page_table v (& root)));;
        pmodify (fun m => set_spaces (delete s (space_at m)) m);;
        free s;;
        in_vm (fun v => (tt, with_frames (frame_database v) (free_frames v) (free_frame_count v)
                               (count_allocated (-1) (statistics v)) v))
  end.

(** CR3 is not modelled. *)
Definition vmm_switch_address_space (space : ptr Z) : MM Z :=
  match space with
  | NULL => pret VMM_ERROR_INVALID_ADDR
  | Some _ => pmodify (fun m => set_globals (kernel_vm_space m) space (vmm_initialized m) m);; pret VMM_SUCCESS
  end.

Definition vmm_get_current_space : MM (ptr Z) := pget current_space.

(** *** Start *)

(** [boot_pml4]: the root table the boot loader built, [&kernel_pml4_table].
    The table the kernel space was created with is dropped. *)
Definition setup_kernel_mappings (boot_pml4 : Z) : MM Z :=
  kernel <- pget kernel_vm_space;;
  match kernel with
  | NULL => pfail
  | Some k =>
      in_space k (pmodify (fun sp =>
        {| pml4_virt := boot_pml4; regions := regions sp; region_at := region_at sp; heap_start := heap_start sp;
           heap_end := heap_end sp; stack_start := stack_start sp; mmap_start := mmap_start sp;
           region_count := region_count sp; owner_pid := owner_pid sp |}));;
      in_vm (fun v => (tt, {| frame_database := frame_database v; free_frames := free_frames v;
                              free_frame_count := free_frame_count v; statistics := statistics v;
                              kernel_space := & boot_pml4; tables := tables v; contents := contents v |}));;
      vmm_create_region (& k) KERNEL_VIRTUAL_BASE 0x200000
        (Z.lor (Z.lor VMM_FLAG_READ VMM_FLAG_WRITE) VMM_FLAG_EXEC) VMM_REGION_KERNEL;;
      pret VMM_SUCCESS
  end.

Definition vmm_init (boot_pml4 memory_size : Z) : MM Z :=
  initialized <- pget vmm_initialized;;
  if initialized : bool then pret VMM_SUCCESS
  else
    in_vm (fun v => (tt, with_frames (frame_database v) (free_frames v) (free_frame_count v)
      {| total_pages := 0; free_pages := 0; allocated_pages := 0; page_faults := 0; major_faults := 0;
         minor_faults := 0 |} v));;
    db <- malloc (u64 (memory_size / PAGE_SIZE * 24));;
    rc <- in_vm (vmm_init_physical_memory (match db with Some _ => true | NULL => false end) memory_size);;
    if negb (rc =? VMM_SUCCESS) then pret VMM_ERROR_NOMEM
    else
      k <- vmm_create_address_space 0;;
      pmodify (fun m => set_globals k (current_space m) (vmm_initialized m) m);;
      match k with
      | NULL => pret VMM_ERROR_NOMEM
      | Some _ =>
          rc <- setup_kernel_mappings boot_pml4;;
          if negb (rc =? VMM_SUCCESS) then pret VMM_ERROR_FAULT
          else pmodify (fun m => set_globals (kernel_vm_space m) k true m);; pret VMM_SUCCESS
      end.

Definition vmm_shutdown : MM unit :=
  initialized <- pget vmm_initialized;;
  if initialized : bool then pmodify (fun m => set_globals (kernel_vm_space m) (current_space m) false m)
  else pret tt.

Definition vmm_is_user_addr (addr : Z) : bool := (USER_VIRTUAL_BASE <=? addr) && (addr <? USER_VIRTUAL_END).
Definition vmm_is_kernel_addr (addr : Z) : bool := KERNEL_VIRTUAL_BASE <=? addr.
End mm.

(** ** Copying an address space (vmm_cow.c)

    [vmm_copy_address_space], the memory half of fork: the child gets the
    parent's regions, and shares the parent's pages copy-on-write. *)

Section fork.
Context {Heap : Type} {HK : KernelHeap Heap}.
Abbreviation MM := (prog (@mm_t Heap)).

(** One page; the result of the mapping is dropped. *)
Definition share_page (src dst fl addr : Z) : MM (option unit) :=
  root <- in_space src (pget pml4_virt);;
  phys <- in_vm (fun v => (vmm_get_physical_addr v (& root) addr, v));;
  if negb (phys =? 0) then
    dst_root <- in_space dst (pget pml4_virt);;
    in_vm (fun v => vmm_map_cow_page v (& dst_root) (& root) addr fl);;
    pret None
  else pret None.

(** The loop over the parent's regions; false when a region could not be had. *)
Fixpoint copy_regions (n : nat) (src dst : Z) (region_p : ptr Z) : MM bool :=
  match region_p with
  | NULL => pret true
  | Some p =>
      match n with
      | O => pfail
      | S n =>
          r <- in_space src (region p);;
          new_region <- vmm_create_region (& dst) (start_addr r) (u64 (end_addr r - start_addr r))
                          (Z.lor (flags r) VMM_FLAG_COW) (type r);;
          match new_region with
          | NULL => pret false
          | Some _ =>
              for_pages (start_addr r) (end_addr r) (share_page src dst (flags r));;
              copy_regions n src dst (next r)
          end
      end
  end.

Definition copy_layout (from to : vm_space_t) : vm_space_t :=
  {| pml4_virt := pml4_virt to; regions := regions to; region_at := region_at to; heap_start := heap_start from;
     heap_end := heap_end from; stack_start := stack_start from; mmap_start := mmap_start from;
     region_count := region_count to; owner_pid := owner_pid to |}.

Definition vmm_copy_address_space (src_space : ptr Z) (new_pid : Z) : MM (ptr Z) :=
  match src_space with
  | NULL => pret NULL
  | Some src =>
      dst_space <- vmm_create_address_space new_pid;;
      match dst_space with
      | NULL => pret NULL
      | Some dst =>
          head <- in_space src (pget regions);;
          n <- in_space src (pget list_fuel);;
          ok <- copy_regions n src dst head;;
          if negb ok then
            vmm_destroy_address_space (& dst);;
            pret NULL
          else
            from <- in_space src (pget id);;
            in_space dst (pmodify (copy_layout from));;
            pret (& dst)
      end
  end.
End fork.
