(* ===== verification/RegionListSpec.v ===== *)
(** * The linked list of regions of one space

    [seg] describes a doubly linked segment of region objects by the list of
    their addresses and contents ([area]); the operations of [VmmRegions] on
    the links are specified as operations on that list. *)
From Stdlib Require Import ZArith Lia Sorted.
From stdpp Require Import gmap sorting.
From S2P Require Import Prelude.
From S2P Require Import StateMonad.
From S2P Require Import VmmRegions.
Open Scope Z_scope.
Open Scope c_scope.
Open Scope prog_scope.

Record area := { lo : Z; hi : Z; fl : Z; ty : vmm_region_type_t }.
Abbreviation node := (Z * area)%type.

(** The object that holds [a] between two neighbours. *)
Definition object (a : area) (nx pv : ptr Z) : vm_region_t :=
  {| start_addr := lo a; end_addr := hi a; flags := fl a; type := ty a; next := nx; prev := pv |}.

Definition first (l : list node) (nx : ptr Z) : ptr Z := match l with [] => nx | (q, _) :: _ => Some q end.
Fixpoint final (pv : ptr Z) (l : list node) : ptr Z := match l with [] => pv | (q, _) :: l => final (Some q) l end.

(** The segment [l] of objects of [m], after [pv] and before [nx]. *)
Fixpoint seg (m : gmap Z vm_region_t) (pv : ptr Z) (l : list node) (nx : ptr Z) : Prop :=
  match l with
  | [] => True
  | (q, a) :: l => m !! q = Some (object a (first l nx) pv) /\ seg m (Some q) l nx
  end.

Lemma first_app l1 l2 nx : first (l1 ++ l2) nx = first l1 (first l2 nx).
Proof. by destruct l1 as [|[]]. Qed.

Lemma final_app pv l1 l2 : final pv (l1 ++ l2) = final (final pv l1) l2.
Proof. revert pv. induction l1 as [|[q a] l1 IH]; intros pv; [done|]. apply IH. Qed.

Lemma region_seg_app m pv l1 l2 nx : seg m pv (l1 ++ l2) nx <-> seg m pv l1 (first l2 nx) /\ seg m (final pv l1) l2 nx.
Proof.
  revert pv. induction l1 as [|[q a] l1 IH]; intros pv; [cbn; tauto|]. cbn [seg app final]. rewrite IH, first_app. tauto.
Qed.

Lemma region_seg_ext m m' pv l nx : (forall q, q ∈ l.*1 -> m' !! q = m !! q) -> seg m pv l nx -> seg m' pv l nx.
Proof.
  revert pv. induction l as [|[q a] l IH]; intros pv Hm; [done|]. cbn [seg]. intros [H1 H2]. split.
  - rewrite Hm by (cbn; set_solver). done.
  - apply IH; [|done]. intros q' Hq'. apply Hm. cbn. set_solver.
Qed.

Lemma seg_lookup m pv l nx q a : seg m pv l nx -> (q, a) ∈ l -> exists nx' pv', m !! q = Some (object a nx' pv').
Proof.
  revert pv. induction l as [|[q' a'] l IH]; intros pv; [intros _ []%elem_of_nil|]. intros [H1 H2] [[= <- <-]|Hin]%elem_of_cons; eauto.
Qed.

Lemma seg_dom m pv l nx q : seg m pv l nx -> q ∈ l.*1 -> is_Some (m !! q).
Proof.
  intros Hs ([q' a] & -> & Hin)%list_elem_of_fmap. destruct (seg_lookup _ _ _ _ _ _ Hs Hin) as (x & x0 & H). exists (object a x x0). exact H.
Qed.

Lemma final_cases pv l : (l = [] /\ final pv l = pv) \/ exists l' q a, l = l' ++ [(q, a)] /\ final pv l = Some q.
Proof.
  destruct l as [|[q a] l' _] using rev_ind; [auto|]. right. exists l', q, a. by rewrite final_app.
Qed.

Lemma first_in l nx q : first l nx = Some q -> nx = Some q \/ q ∈ l.*1.
Proof. destruct l as [|[]]; cbn; [auto|]. intros [= ->]. right. constructor. Qed.

Lemma final_in pv l q : final pv l = Some q -> pv = Some q \/ q ∈ l.*1.
Proof.
  destruct (final_cases pv l) as [[-> ->]|(l' & q' & a & -> & ->)]; [auto|]. intros [= ->]. right. rewrite fmap_app. set_solver.
Qed.

(** ** Assignments to fields *)
Definition upd (p : ptr Z) (f : vm_region_t -> vm_region_t) (m : gmap Z vm_region_t) : gmap Z vm_region_t :=
  match p with NULL => m | Some q => alter f q m end.

Lemma upd_other p f m q : p <> Some q -> upd p f m !! q = m !! q.
Proof. destruct p; [|done]. cbn. intros. rewrite lookup_alter_ne; congruence. Qed.

Lemma upd_is_Some p f m q : is_Some (m !! q) -> is_Some (upd p f m !! q).
Proof. destruct p; cbn; [|done]. rewrite lookup_alter_is_Some. done. Qed.

Lemma seg_upd_other p f m pv l nx : (forall q, p = Some q -> q ∉ l.*1) -> seg m pv l nx -> seg (upd p f m) pv l nx.
Proof. intros Hp. apply region_seg_ext. intros q Hq. apply upd_other. intros ->. by apply (Hp q). Qed.

Lemma seg_set_prev m pv pv' l nx :
  NoDup l.*1 -> seg m pv l nx -> seg (upd (first l NULL) (set_prev pv') m) pv' l nx.
Proof.
  destruct l as [|[q a] l]; [done|]. cbn [fmap list_fmap fst]. intros [Hq Hnd]%NoDup_cons [H1 H2]. split.
  - cbn. rewrite lookup_alter, decide_True, H1 by done. done.
  - apply (seg_upd_other (Some q)); [|done]. by intros q' [= <-].
Qed.

Lemma seg_set_next m pv l nx nx' :
  NoDup l.*1 -> seg m pv l nx -> seg (upd (final NULL l) (set_next nx') m) pv l nx'.
Proof.
  destruct (final_cases NULL l) as [[-> ->]|(l' & q & a & -> & ->)]; [done|]. rewrite fmap_app. intros Hnd [H1 H2]%region_seg_app.
  apply region_seg_app. cbn in *. assert (q ∉ l'.*1) as Hq by (intros H; eapply NoDup_app; [exact Hnd|exact H|constructor]). split.
  - apply (seg_upd_other (Some q)); [|done]. by intros q' [= <-].
  - destruct H2 as [H2 _]. rewrite lookup_alter, decide_True, H2 by done. done.
Qed.

(** An assignment to the contents of one region. *)
Lemma seg_set_area m pv l1 q a l2 nx f a' :
  NoDup (l1 ++ (q, a) :: l2).*1 -> (forall n p, f (object a n p) = object a' n p) ->
  seg m pv (l1 ++ (q, a) :: l2) nx -> seg (alter f q m) pv (l1 ++ (q, a') :: l2) nx.
Proof.
  rewrite fmap_app. cbn. intros (Hnd & Hd & [Hq Hnd']%NoDup_cons)%NoDup_app Hf. rewrite !region_seg_app. cbn. intros (H1 & H2 & H3).
  split; [|split].
  - apply (seg_upd_other (Some q)); [|done]. intros q' [= <-] Hin. apply (Hd q Hin). constructor.
  - rewrite lookup_alter, decide_True, H2 by done. cbn. by rewrite Hf.
  - apply (seg_upd_other (Some q)); [|done]. by intros q' [= <-].
Qed.

(** ** A space and its regions *)
Record list_ok (sp : vm_space_t) (l : list node) : Prop := {
  lk_head : regions sp = first l NULL;
  lk_seg : seg (region_at sp) NULL l NULL;
  lk_nodup : NoDup l.*1 }.

Lemma list_ok_in sp l q a : list_ok sp l -> (q, a) ∈ l -> exists nx pv, region_at sp !! q = Some (object a nx pv).
Proof. intros [_ Hs _]. apply (seg_lookup _ _ _ _ _ _ Hs). Qed.

Lemma list_ok_fuel sp l : list_ok sp l -> (length l <= size (region_at sp))%nat.
Proof.
  intros [_ Hs Hnd]. rewrite <- size_dom. transitivity (length l.*1); [by rewrite length_fmap|].
  rewrite <- (size_list_to_set (C := gset Z)) by done.
  apply subseteq_size. intros q. rewrite elem_of_list_to_set. intros Hq. apply elem_of_dom. by apply (seg_dom _ _ _ _ _ Hs).
Qed.

(** The region that covers an address: the first one. *)
Definition covers (a : area) (x : Z) : bool := (lo a <=? x) && (x <? hi a).
Fixpoint area_at (l : list node) (x : Z) : option node :=
  match l with [] => None | n :: l => if covers n.2 x then Some n else area_at l x end.

Lemma area_at_in l x n : area_at l x = Some n -> n ∈ l /\ lo n.2 <= x < hi n.2.
Proof.
  induction l as [|n' l IH]; cbn; [done|]. unfold covers. split_match; intros H.
  - injection H as ->. zbool. split; [constructor|lia].
  - destruct (IH H). split; [by constructor|done].
Qed.

Lemma region_run q sp r Q : region_at sp !! q = Some r -> Q r sp -> wp (region q) Q sp.
Proof. intros Hr. apply wp_pdefined. done. Qed.

Lemma update_region_run q f sp Q :
  is_Some (region_at sp !! q) -> Q tt (set_region_at (upd (Some q) f (region_at sp)) sp) -> wp (update_region q f) Q sp.
Proof.
  intros [r Hr] HQ. unfold update_region. wp_step. eapply region_run; [exact Hr|]. wp_go.
  replace (<[q := f r]> (region_at sp)) with (upd (Some q) f (region_at sp)); [exact HQ|].
  apply map_eq. intros q'. cbn. destruct (decide (q' = q)) as [->|].
  - by rewrite lookup_alter, decide_True, Hr, lookup_insert_eq by done.
  - by rewrite lookup_alter_ne, lookup_insert_ne by done.
Qed.

Lemma update_if_run p f sp Q :
  (forall q, p = Some q -> is_Some (region_at sp !! q)) -> Q tt (set_region_at (upd p f (region_at sp)) sp) ->
  wp (update_if p f) Q sp.
Proof.
  destruct p as [q|]; cbn [update_if]; intros Hp HQ.
  - apply update_region_run; auto.
  - wp_go. by destruct sp.
Qed.

Lemma find_from_run n sp pv l addr Q :
  seg (region_at sp) pv l NULL -> (length l <= n)%nat -> Q (fst <$> area_at l addr) sp ->
  wp (find_from n (first l NULL) addr) Q sp.
Proof.
  revert n pv. induction l as [|[q a] l IH]; intros [|n] pv Hs Hn HQ; cbn in Hn; try lia; try (apply wp_pret; exact HQ).
  destruct Hs as [Hq Hs]. cbn [first find_from]. wp_step. eapply region_run; [exact Hq|]. cbn in HQ. unfold covers in HQ. cbn.
  destruct ((lo a <=? addr) && (addr <? hi a)); [by wp_go|]. apply (IH n (Some q)); [exact Hs|lia|exact HQ].
Qed.

Lemma find_region_run sp l addr Q :
  list_ok sp l -> Q (fst <$> area_at l addr) sp -> wp (find_region addr) Q sp.
Proof.
  intros Hok HQ. unfold find_region. wp_go. rewrite (lk_head _ _ Hok).
  eapply find_from_run; [apply Hok| |exact HQ]. unfold list_fuel. pose proof (list_ok_fuel _ _ Hok). lia.
Qed.

Lemma first_dom m pv l q : seg m pv l NULL -> first l NULL = Some q -> is_Some (m !! q).
Proof. intros Hs Hq. destruct (first_in _ _ _ Hq) as [|Hin]; [done|]. by apply (seg_dom _ _ _ _ _ Hs). Qed.
Lemma final_dom m l nx q : seg m NULL l nx -> final NULL l = Some q -> is_Some (m !! q).
Proof. intros Hs Hq. destruct (final_in _ _ _ Hq) as [|Hin]; [done|]. by apply (seg_dom _ _ _ _ _ Hs). Qed.

(** The same objects, for the freshness of new ones. *)
Lemma upd_dom p f m : dom (upd p f m) = dom m.
Proof. destruct p; [apply dom_alter_L|done]. Qed.

(** ** A new object between two neighbours *)
Lemma seg_link m l1 p a l2 :
  NoDup (l1 ++ l2).*1 -> p ∉ (l1 ++ l2).*1 ->
  seg m NULL l1 (first l2 NULL) -> seg m (final NULL l1) l2 NULL ->
  m !! p = Some (object a (first l2 NULL) (final NULL l1)) ->
  seg (upd (final NULL l1) (set_next (Some p)) (upd (first l2 NULL) (set_prev (Some p)) m)) NULL (l1 ++ (p, a) :: l2) NULL.
Proof.
  rewrite fmap_app. intros (Hn1 & Hd & Hn2)%NoDup_app Hp H1 H2 Ho.
  assert (forall q, first l2 NULL = Some q -> q ∈ l2.*1) as Hfirst by (intros q [|]%first_in; done).
  assert (forall q, final NULL l1 = Some q -> q ∈ l1.*1) as Hfinal by (intros q [|]%final_in; done).
  apply region_seg_app. cbn [seg first]. split; [|split].
  - eapply seg_set_next; [exact Hn1|]. eapply seg_upd_other; [|exact H1]. intros q Hq Hin. apply (Hd q Hin), Hfirst, Hq.
  - rewrite !upd_other; [exact Ho| |]; intros Hq; apply Hp, elem_of_app; [right; by apply Hfirst|left; by apply Hfinal].
  - eapply seg_upd_other; [|eapply seg_set_prev; [exact Hn2|exact H2]]. intros q Hq Hin. by apply (Hd q); [apply Hfinal|].
Qed.

Lemma NoDup_link (l1 : list node) p a l2 :
  NoDup (l1 ++ l2).*1 -> p ∉ (l1 ++ l2).*1 -> NoDup (l1 ++ (p, a) :: l2).*1.
Proof.
  intros Hnd Hp. assert ((l1 ++ (p, a) :: l2).*1 ≡ₚ p :: (l1 ++ l2).*1) as ->.
  { rewrite !fmap_app. cbn. by rewrite Permutation_middle. }
  by constructor.
Qed.

(** ** Unlinking *)
Lemma seg_unlink m l1 p a l2 :
  NoDup (l1 ++ (p, a) :: l2).*1 -> seg m NULL (l1 ++ (p, a) :: l2) NULL ->
  seg (upd (first l2 NULL) (set_prev (final NULL l1)) (upd (final NULL l1) (set_next (first l2 NULL)) m)) NULL (l1 ++ l2) NULL.
Proof.
  rewrite fmap_app. cbn. intros (Hn1 & Hd & [Hp Hn2]%NoDup_cons)%NoDup_app. rewrite !region_seg_app. cbn. intros (H1 & Ho & H2).
  assert (forall q, first l2 NULL = Some q -> q ∈ l2.*1) as Hfirst by (intros q [|]%first_in; done).
  assert (forall q, final NULL l1 = Some q -> q ∈ l1.*1) as Hfinal by (intros q [|]%final_in; done).
  split.
  - eapply seg_upd_other; [|eapply seg_set_next; [exact Hn1|exact H1]]. intros q Hq Hin. apply (Hd q Hin). constructor.
    by apply Hfirst.
  - eapply seg_set_prev; [exact Hn2|]. eapply seg_upd_other; [|exact H2]. intros q Hq Hin. apply (Hd q); [by apply Hfinal|].
    by constructor.
Qed.

(** ** The operations on the links *)

(** What the list operations leave alone. *)
Definition same_space (sp sp' : vm_space_t) : Prop :=
  pml4_virt sp' = pml4_virt sp /\ heap_start sp' = heap_start sp /\ heap_end sp' = heap_end sp /\
  stack_start sp' = stack_start sp /\ mmap_start sp' = mmap_start sp /\ owner_pid sp' = owner_pid sp.

Lemma same_space_refl sp : same_space sp sp.
Proof. done. Qed.
Lemma same_space_trans sp1 sp2 sp3 : same_space sp1 sp2 -> same_space sp2 sp3 -> same_space sp1 sp3.
Proof. unfold same_space. intuition congruence. Qed.

Definition below (n n' : node) : Prop := lo n.2 <= lo n'.2.

Lemma sorted_app_below l1 n l2 : StronglySorted below (l1 ++ n :: l2) -> Forall (fun m => below m n) l1 /\ Forall (below n) l2.
Proof.
  induction l1 as [|m l1 IH]; cbn; intros [Hs Hm]%StronglySorted_inv; [done|]. destruct (IH Hs) as [H1 H2]. split; [|done].
  constructor; [|done]. rewrite Forall_app, Forall_cons in Hm. apply Hm.
Qed.

Lemma insert_after_run n sp l1 c b l2 start Q :
  seg (region_at sp) NULL (l1 ++ (c, b) :: l2) NULL -> (length l2 <= n)%nat -> lo b <= start ->
  (forall k1 q b' k2, l1 ++ (c, b) :: l2 = k1 ++ (q, b') :: k2 -> lo b' <= start ->
     (forall m, head k2 = Some m -> start <= lo m.2) -> Q q sp) ->
  wp (insert_after n c start) Q sp.
Proof.
  revert n l1 c b. induction l2 as [|[c' b2] l2 IH]; intros n l1 c b Hs Hn Hb HQ;
    pose proof Hs as (_ & Hc & Hs')%region_seg_app; cbn in Hn.
  - destruct n; cbn [insert_after]; wp_step; (eapply region_run; [exact Hc|]); cbn; wp_go; by apply (HQ l1 c b []).
  - destruct n; [lia|]. cbn [insert_after]. wp_step. eapply region_run; [exact Hc|]. cbn [object first next].
    destruct Hs' as [Hc' _]. wp_step. eapply region_run; [exact Hc'|]. cbn [object start_addr].
    destruct (Z.ltb_spec (lo b2) start).
    + apply (IH n (l1 ++ [(c, b)]) c' b2); rewrite <- ?app_assoc; [exact Hs|lia|lia|]. intros k1 q b' k2 E. exact (HQ k1 q b' k2 E).
    + apply wp_pret. apply (HQ l1 c b ((c', b2) :: l2)); [done|done|]. intros m [= <-]. done.
Qed.

(** The links a new object gets, whatever the order of the assignments. *)
Definition link (m : gmap Z vm_region_t) (l1 : list node) (p : Z) (l2 : list node) : gmap Z vm_region_t :=
  upd (final NULL l1) (set_next (Some p)) (upd (first l2 NULL) (set_prev (Some p))
    (upd (Some p) (fun r => set_prev (final NULL l1) (set_next (first l2 NULL) r)) m)).

Lemma list_ok_link sp l1 l2 p a o sp' :
  list_ok sp (l1 ++ l2) -> p ∉ (l1 ++ l2).*1 -> region_at sp !! p = Some o ->
  (forall nx pv, set_prev pv (set_next nx o) = object a nx pv) ->
  regions sp' = first (l1 ++ (p, a) :: l2) NULL -> region_at sp' = link (region_at sp) l1 p l2 ->
  list_ok sp' (l1 ++ (p, a) :: l2) /\ dom (region_at sp') = dom (region_at sp).
Proof.
  intros [_ Hs Hnd] Hp Ho Ha Hhead Hm. unfold link in Hm. split; [|by rewrite Hm, !upd_dom]. apply region_seg_app in Hs as [H1 H2].
  assert ((p ∉ l1.*1) /\ (p ∉ l2.*1)) as [Hp1 Hp2] by (rewrite fmap_app in Hp; set_solver).
  split; [done| |by apply NoDup_link]. rewrite Hm. apply seg_link; [done|done| | |].
  - eapply seg_upd_other; [|exact H1]. by intros q [= <-].
  - eapply seg_upd_other; [|exact H2]. by intros q [= <-].
  - cbn. rewrite lookup_alter, decide_True, Ho by done. cbn. by rewrite Ha.
Qed.

Lemma sorted_split l1 n l2 start :
  StronglySorted below (l1 ++ n :: l2) -> lo n.2 <= start -> (forall m, head l2 = Some m -> start <= lo m.2) ->
  Forall (fun n => lo n.2 <= start) (l1 ++ [n]) /\ Forall (fun n => start <= lo n.2) l2.
Proof.
  intros Hs Hn Hm. split.
  - apply sorted_app_below in Hs as [Hb _]. apply Forall_app. split; [|by constructor].
    eapply Forall_impl; [exact Hb|]. unfold below. lia.
  - destruct l2 as [|m l2]; [constructor|]. specialize (Hm m eq_refl). constructor; [done|].
    replace (l1 ++ n :: m :: l2) with ((l1 ++ [n]) ++ m :: l2) in Hs by by rewrite <- app_assoc.
    apply sorted_app_below in Hs as [_ Hb]. eapply Forall_impl; [exact Hb|]. unfold below. lia.
Qed.

(** Where a new region goes. *)
Definition inserted (sp : vm_space_t) (l : list node) (p : Z) (a : area) (sp' : vm_space_t) : Prop :=
  exists l1 l2, l = l1 ++ l2 /\ list_ok sp' (l1 ++ (p, a) :: l2) /\
    Forall (fun n => lo n.2 <= lo a) l1 /\ Forall (fun n => lo a <= lo n.2) l2 /\
    dom (region_at sp') = dom (region_at sp) /\ same_space sp sp'.

Lemma inserted_link sp l1 l2 p a o sp' :
  list_ok sp (l1 ++ l2) -> p ∉ (l1 ++ l2).*1 -> region_at sp !! p = Some o ->
  (forall nx pv, set_prev pv (set_next nx o) = object a nx pv) ->
  Forall (fun n => lo n.2 <= lo a) l1 /\ Forall (fun n => lo a <= lo n.2) l2 ->
  regions sp' = first (l1 ++ (p, a) :: l2) NULL -> region_at sp' = link (region_at sp) l1 p l2 -> same_space sp sp' ->
  inserted sp (l1 ++ l2) p a sp'.
Proof.
  intros Hok Hp Ho Ha [H1 H2] Hr Hm Hsame. exists l1, l2.
  destruct (list_ok_link sp l1 l2 p a o sp' Hok Hp Ho Ha Hr Hm) as [H3 H4]. auto 10.
Qed.

Lemma first_head (l : list node) n l2 : first (l ++ n :: l2) NULL = first (l ++ [n]) NULL.
Proof. rewrite !first_app. by destruct n. Qed.

Lemma insert_region_run sp l p a :
  list_ok sp l -> StronglySorted below l -> p ∉ l.*1 -> region_at sp !! p = Some (object a NULL NULL) ->
  wp (insert_region p (lo a)) (fun _ sp' => inserted sp l p a sp') sp.
Proof.
  intros Hok Hsort Hp Ho. unfold insert_region. wp_step. wp_step. wp_step. pose proof Hok as [Hh Hs Hnd]. rewrite Hh.
  assert (is_Some (region_at sp !! p)) as Hip by eauto.
  destruct l as [|[h b] l]; cbn [first].
  - wp_go. apply update_region_run; [done|]. wp_step. cbn [update_if]. wp_go.
    apply (inserted_link sp [] [] p a (object a NULL NULL)); try done.
    cbn. apply map_eq. intros q. rewrite !lookup_alter. case_decide; [subst; rewrite Ho; done|done].
  - pose proof Hs as [Hhd _]. wp_step. eapply region_run; [exact Hhd|]. cbn [object start_addr]. wp_go.
    destruct (Z.ltb_spec (lo a) (lo b)) as [Hlt|Hge].
    + wp_go. apply update_region_run; [done|]. wp_step. apply update_if_run.
      { intros q [= <-]. cbn. apply lookup_alter_is_Some. eauto. }
      wp_go. apply (inserted_link sp [] ((h, b) :: l) p a (object a NULL NULL)); try done.
      * split; [constructor|]. apply (sorted_app_below [] _ _) in Hsort as [_ Hb]. constructor; [cbn; lia|].
        eapply Forall_impl; [exact Hb|]. unfold below. cbn. lia.
      * cbn. f_equal. apply map_eq. intros q. rewrite !lookup_alter. case_decide; [subst; rewrite Ho; done|done].
    + wp_step. wp_step. wp_step. eapply (insert_after_run _ sp [] h b l); [exact Hs| |lia|].
      { pose proof (list_ok_fuel sp _ Hok). cbn in *. unfold list_fuel. lia. }
      intros k1 q b' k2 E Hb' Hm. rewrite app_nil_l in E. rewrite E in *.
      pose proof Hs as (_ & Hq & Hs2)%region_seg_app. wp_step. eapply region_run; [exact Hq|]. cbn [object next]. wp_step.
      apply update_region_run; [done|]. wp_step. apply update_if_run.
      { intros q' Hq'. cbn [region_at set_region_at]. apply upd_is_Some. eapply first_dom; [apply Hs2|exact Hq']. }
      apply update_region_run; [cbn [region_at set_region_at]; do 2 apply upd_is_Some; eauto|]. wp_go.
      replace (k1 ++ (q, b') :: k2) with ((k1 ++ [(q, b')]) ++ k2) in * by by rewrite <- app_assoc.
      apply (inserted_link sp (k1 ++ [(q, b')]) k2 p a (object a NULL NULL)); try done.
      * apply sorted_split; [by rewrite <- app_assoc in Hsort|done|done].
      * cbn [regions count_regions set_region_at]. rewrite Hh, <- !app_assoc, !first_app. cbn. by destruct k1 as [|[]].
      * unfold link. rewrite final_app. done.
Qed.

(** What the other list operations do to a space. *)
Definition relisted (sp : vm_space_t) (l : list node) (sp' : vm_space_t) : Prop :=
  list_ok sp' l /\ dom (region_at sp') = dom (region_at sp) /\ same_space sp sp'.

Lemma list_ok_node sp l1 p a l2 :
  list_ok sp (l1 ++ (p, a) :: l2) -> region_at sp !! p = Some (object a (first l2 NULL) (final NULL l1)).
Proof. intros [_ (_ & H & _)%region_seg_app _]. exact H. Qed.

Lemma list_ok_set sp l1 p a l2 f a' :
  list_ok sp (l1 ++ (p, a) :: l2) -> (forall n pv, f (object a n pv) = object a' n pv) ->
  list_ok (set_region_at (upd (Some p) f (region_at sp)) sp) (l1 ++ (p, a') :: l2).
Proof.
  intros [Hh Hs Hnd] Hf. split.
  - cbn [regions set_region_at]. rewrite Hh. by destruct l1 as [|[]].
  - cbn [region_at set_region_at upd]. by apply (seg_set_area _ _ l1 p a l2 NULL f a').
  - rewrite fmap_app in *. exact Hnd.
Qed.

Lemma update_area_run sp l1 p a l2 f a' :
  list_ok sp (l1 ++ (p, a) :: l2) -> (forall n pv, f (object a n pv) = object a' n pv) ->
  wp (update_region p f) (fun _ sp' => relisted sp (l1 ++ (p, a') :: l2) sp') sp.
Proof.
  intros Hok Hf. apply update_region_run; [by rewrite (list_ok_node _ _ _ _ _ Hok)|].
  split; [by apply (list_ok_set _ l1 p a)|split; [apply upd_dom|done]].
Qed.

Lemma unlink_region_run sp l1 p a l2 :
  list_ok sp (l1 ++ (p, a) :: l2) -> wp (unlink_region p) (fun _ sp' => relisted sp (l1 ++ l2) sp') sp.
Proof.
  intros Hok. pose proof (list_ok_node _ _ _ _ _ Hok) as Ho. destruct Hok as [Hh Hs Hnd].
  unfold unlink_region. wp_step. eapply region_run; [exact Ho|]. cbn [prev next object].
  assert (NoDup (l1 ++ l2).*1) as Hnd'.
  { rewrite fmap_app in *. cbn in Hnd. apply NoDup_app in Hnd as (H1 & H2 & [_ H3]%NoDup_cons). apply NoDup_app.
    split; [done|]. split; [|done]. intros q Hq Hq2. apply (H2 q Hq). by constructor. }
  pose proof Hs as (Hs1 & _ & Hs2)%region_seg_app. pose proof (seg_unlink _ _ _ _ _ Hnd Hs) as Hs'. wp_step.
  destruct (final_cases NULL l1) as [[-> Hf]|(l' & q & b & E & Hf)]; cbn [first] in Hs1; rewrite Hf in *.
  - wp_go. apply update_if_run; [intros q; apply (first_dom _ _ _ _ Hs2)|]. wp_go. split; [|split; [apply upd_dom|done]]. by split.
  - apply update_region_run; [by apply (final_dom _ _ _ _ Hs1)|]. wp_step. apply update_if_run.
    { intros q' Hq'. apply upd_is_Some. apply (first_dom _ _ _ _ Hs2 Hq'). }
    wp_go. split; [|split; [cbn [region_at count_regions set_region_at]; by rewrite !upd_dom|done]]. split; [|done|done].
    cbn [regions count_regions set_region_at]. rewrite Hh, E, <- !app_assoc. by destruct l' as [|[]].
Qed.

Lemma list_ok_ext sp sp' l :
  (forall q, q ∈ l.*1 -> region_at sp' !! q = region_at sp !! q) -> regions sp' = regions sp -> list_ok sp l -> list_ok sp' l.
Proof. intros Hm Hr [H1 H2 H3]. split; [congruence|by apply (region_seg_ext (region_at sp))|done]. Qed.

Lemma list_ok_delete sp p l : p ∉ l.*1 -> list_ok sp l -> list_ok (delete_region p sp) l.
Proof. intros Hp. apply list_ok_ext; [|done]. intros q Hq. apply lookup_delete_ne. congruence. Qed.

Lemma list_ok_insert sp p o l : p ∉ l.*1 -> list_ok sp l -> list_ok (set_region_at (<[p := o]> (region_at sp)) sp) l.
Proof. intros Hp. apply list_ok_ext; [|done]. intros q Hq. apply lookup_insert_ne. congruence. Qed.

Definition with_lo (z : Z) (a : area) : area := {| lo := z; hi := hi a; fl := fl a; ty := ty a |}.
Definition with_hi (z : Z) (a : area) : area := {| lo := lo a; hi := z; fl := fl a; ty := ty a |}.
Definition with_fl (z : Z) (a : area) : area := {| lo := lo a; hi := hi a; fl := z; ty := ty a |}.

Lemma split_at_run sp l1 p a l2 u z :
  list_ok sp (l1 ++ (p, a) :: l2) -> u ∉ dom (region_at sp) ->
  wp (split_at p u z) (fun _ sp' => list_ok sp' (l1 ++ (p, with_hi z a) :: (u, with_lo z a) :: l2) /\
    dom (region_at sp') = {[u]} ∪ dom (region_at sp) /\ same_space sp sp') sp.
Proof.
  intros Hok Hu. pose proof (list_ok_node _ _ _ _ _ Hok) as Ho. unfold split_at. wp_step. eapply region_run; [exact Ho|]. wp_go.
  set (o := set_start z (object a (first l2 NULL) (final NULL l1))).
  assert (u ∉ (l1 ++ (p, a) :: l2).*1) as Hul.
  { intros Hin. apply Hu, elem_of_dom. apply (seg_dom _ _ _ _ _ (lk_seg _ _ Hok) Hin). }
  assert (u <> p) as Hup by (intros ->; apply Hul; rewrite fmap_app; set_solver).
  set (sp1 := set_region_at _ sp). assert (list_ok sp1 (l1 ++ (p, a) :: l2)) as Hok1 by by apply list_ok_insert.
  assert (region_at sp1 !! u = Some o) as Huo by apply lookup_insert_eq.
  apply update_region_run; [exists (object a (first l2 NULL) (final NULL l1)); cbn; by rewrite lookup_insert_ne|].
  set (sp2 := set_region_at _ sp1). assert (list_ok sp2 (l1 ++ (p, with_hi z a) :: l2)) as Hok2 by by apply (list_ok_set _ l1 p a).
  assert (region_at sp2 !! u = Some o) as Huo2 by (cbn [region_at sp2 set_region_at]; rewrite upd_other by congruence; exact Huo).
  pose proof (list_ok_node _ _ _ _ _ Hok2) as Ho2. wp_step. eapply region_run; [exact Ho2|]. cbn [next object].
  wp_step. apply update_region_run; [eauto|]. wp_step. apply update_if_run.
  { intros q Hq. apply upd_is_Some. pose proof (lk_seg _ _ Hok2) as (_ & _ & Hs2)%region_seg_app. apply (first_dom _ _ _ _ Hs2 Hq). }
  wp_step. apply update_region_run; [do 2 apply upd_is_Some; eauto|]. wp_go.
  set (sp3 := count_regions 1 _). replace (l1 ++ (p, with_hi z a) :: l2) with ((l1 ++ [(p, with_hi z a)]) ++ l2) in Hok2
    by by rewrite <- app_assoc.
  destruct (list_ok_link sp2 (l1 ++ [(p, with_hi z a)]) l2 u (with_lo z a) o sp3) as [H1 H2]; try done.
  - rewrite <- app_assoc. rewrite fmap_app in *. exact Hul.
  - cbn [regions sp3 sp2 sp1 count_regions set_region_at]. rewrite (lk_head _ _ Hok), <- !app_assoc. by destruct l1 as [|[]].
  - unfold link. rewrite final_app. done.
  - rewrite <- app_assoc in H1. split; [exact H1|]. split; [|done]. rewrite H2.
    cbn [region_at sp2 sp1 set_region_at]. by rewrite upd_dom, dom_insert_L.
Qed.
