(* ===== verification/RegionPagesSpec.v ===== *)
(** * Ranges of pages, and areas as a map from addresses to attributes

    The loops over the pages of an address range, specified by what they do to
    the abstract map of pages ([PageWalkSpec.vm_abs]); then lists of disjoint
    areas, which give every address at most one pair of flags and type
    ([attr_at]). *)
From Stdlib Require Import ZArith Lia.
From stdpp Require Import gmap.
From Stdlib Require Import ZArith Lia Sorted.
From stdpp Require Import gmap sorting.
From S2P Require Import Prelude Vmm VmmSpec PageWalk PageTreeSpec FrameSpec.
From S2P Require Import PageWalkSpec PageOpsSpec StateMonad KernelHeap VmmRegions RegionListSpec.
Open Scope Z_scope.
Open Scope c_scope.
Open Scope prog_scope.

(** ** Alignment *)
Definition aligned (z : Z) : Prop := z mod 4096 = 0.

Lemma align_down_eq z : vmm_align_down z PAGE_SIZE = z - z mod 4096.
Proof.
  unfold vmm_align_down. change (PAGE_SIZE - 1) with (Z.ones 12). rewrite Z.ldiff_ones_r, Z.shiftl_mul_pow2, Z.shiftr_div_pow2 by lia.
  change (2 ^ 12) with 4096. pose proof (Z.div_mod z 4096). lia.
Qed.

Lemma align_down_aligned z : aligned (vmm_align_down z PAGE_SIZE).
Proof. rewrite align_down_eq. unfold aligned. rewrite Zminus_mod_idemp_r, Z.sub_diag. reflexivity. Qed.

Lemma align_down_id z : aligned z -> vmm_align_down z PAGE_SIZE = z.
Proof. rewrite align_down_eq. unfold aligned. lia. Qed.

Lemma align_up_eq z : 0 <= z <= 2 ^ 64 - 4096 -> vmm_align_up z PAGE_SIZE = z + 4095 - (z + 4095) mod 4096.
Proof.
  intros Hz. unfold vmm_align_up. change (Z.ldiff ?x (PAGE_SIZE - 1)) with (vmm_align_down x PAGE_SIZE).
  rewrite align_down_eq. change (z + PAGE_SIZE - 1) with (z + 4096 - 1). rewrite u64_id by lia. do 2 f_equal; lia.
Qed.

Lemma align_up_aligned z : 0 <= z <= 2 ^ 64 - 4096 -> aligned (vmm_align_up z PAGE_SIZE).
Proof. intros Hz. rewrite align_up_eq by exact Hz. unfold aligned. rewrite Zminus_mod_idemp_r, Z.sub_diag. reflexivity. Qed.

Lemma align_up_range z : 0 <= z <= 2 ^ 64 - 4096 -> z <= vmm_align_up z PAGE_SIZE < z + 4096.
Proof. intros Hz. rewrite align_up_eq by exact Hz. pose proof (Z.mod_pos_bound (z + 4095) 4096). lia. Qed.

Lemma align_up_id z : 0 <= z <= 2 ^ 64 - 4096 -> aligned z -> vmm_align_up z PAGE_SIZE = z.
Proof.
  intros Hz Ha. rewrite align_up_eq by exact Hz. unfold aligned in Ha. rewrite Z.add_mod, Ha by lia.
  change ((0 + 4095 mod 4096) mod 4096) with 4095. lia.
Qed.

Lemma aligned_add x y : aligned x -> aligned y -> aligned (x + y).
Proof. unfold aligned. intros Hx Hy. rewrite Z.add_mod, Hx, Hy by lia. reflexivity. Qed.

(** Two aligned addresses, one below the other, are a page apart. *)
Lemma aligned_lt x y : aligned x -> aligned y -> x < y -> x + 4096 <= y.
Proof.
  unfold aligned. intros Hx Hy Hlt. pose proof (Z.div_mod x 4096). pose proof (Z.div_mod y 4096).
  assert (x / 4096 < y / 4096) by lia. lia.
Qed.

Lemma page_index x : 0 <= x < 2 ^ 47 -> pte_index x = x / 4096.
Proof.
  intros Hx. unfold pte_index. change (2 ^ 36 - 1) with (Z.ones 36). rewrite Z.land_ones, Z.shiftr_div_pow2 by lia.
  change (2 ^ 12) with 4096. apply Z.mod_small. split; [apply Z.div_pos; lia|]. apply Z.div_lt_upper_bound; lia.
Qed.

Lemma page_user x : 0 <= x < 2 ^ 47 -> user_page (pte_index x).
Proof.
  intros Hx. rewrite page_index by exact Hx. split; [apply Z.div_pos; lia|]. apply Z.div_lt_upper_bound; lia.
Qed.

(** The page [k] starts in the range. *)
Definition in_range (a b k : Z) : Prop := a <= k * 4096 < b.
#[export] Instance in_range_dec a b k : Decision (in_range a b k).
Proof. unfold in_range. apply _. Defined.

Lemma in_range_first a b k : aligned a -> 0 <= a < 2 ^ 47 -> in_range a b k <-> (k = pte_index a /\ a < b) \/ in_range (a + 4096) b k.
Proof.
  intros Ha Hr. rewrite page_index by exact Hr. unfold in_range, aligned in *. pose proof (Z.div_mod a 4096).
  assert (a = a / 4096 * 4096) by lia. split; [|lia]. intros [H1 H2]. destruct (Z.eq_dec k (a / 4096)); [lia|]. right. lia.
Qed.

(** ** What the loops do to the map of pages *)

(** Without the pages of the range. *)
Definition maps_cut (r a b : Z) (m : gmap (Z * Z) Z) : gmap (Z * Z) Z :=
  filter (fun ke => ~ (ke.1.1 = r /\ in_range a b ke.1.2)) m.
(** With the entries of the range changed. *)
Definition maps_change (r a b : Z) (g : Z -> Z) (m : gmap (Z * Z) Z) : gmap (Z * Z) Z :=
  map_imap (fun key e => Some (if decide (key.1 = r /\ in_range a b key.2) then g e else e)) m.

Lemma maps_cut_lookup r a b m r' k :
  maps_cut r a b m !! (r', k) = if decide (r' = r /\ in_range a b k) then None else m !! (r', k).
Proof.
  unfold maps_cut. rewrite map_lookup_filter. cbn.
  destruct (m !! (r', k)) as [e|]; cbn; destruct (decide (r' = r /\ in_range a b k)); try done; case_guard; cbn; solve [done|tauto].
Qed.

Lemma maps_change_lookup r a b g m r' k :
  maps_change r a b g m !! (r', k) = if decide (r' = r /\ in_range a b k) then g <$> m !! (r', k) else m !! (r', k).
Proof.
  unfold maps_change. rewrite map_lookup_imap. cbn.
  destruct (m !! (r', k)) as [e|]; cbn; destruct (decide (r' = r /\ in_range a b k)); done.
Qed.

Lemma in_range_empty a k : ~ in_range a a k.
Proof. unfold in_range. lia. Qed.

Lemma in_range_last a x k : aligned x -> 0 <= x < 2 ^ 47 -> a <= x -> in_range a (x + 4096) k <-> in_range a x k \/ k = pte_index x.
Proof.
  intros Hx Hr Ha. rewrite page_index by exact Hr. unfold in_range, aligned in *. pose proof (Z.div_mod x 4096). split; [|lia].
  destruct (Z.eq_dec k (x / 4096)); lia.
Qed.

Lemma maps_cut_empty r a m : maps_cut r a a m = m.
Proof.
  apply map_eq. intros [r' k]. rewrite maps_cut_lookup, decide_False; [done|]. intros [_ []%in_range_empty].
Qed.
Lemma maps_change_empty r a g m : maps_change r a a g m = m.
Proof.
  apply map_eq. intros [r' k]. rewrite maps_change_lookup, decide_False; [done|]. intros [_ []%in_range_empty].
Qed.

Lemma maps_cut_step r a x m :
  aligned x -> 0 <= x < 2 ^ 47 -> a <= x -> delete (r, pte_index x) (maps_cut r a x m) = maps_cut r a (x + 4096) m.
Proof.
  intros Hx Hr Ha. apply map_eq. intros [r' k]. rewrite lookup_delete, !maps_cut_lookup.
  pose proof (in_range_last a x k Hx Hr Ha) as Hi. repeat case_decide; try done; simplify_eq; exfalso; intuition congruence.
Qed.

Lemma maps_change_step r a x g m e :
  aligned x -> 0 <= x < 2 ^ 47 -> a <= x -> m !! (r, pte_index x) = Some e ->
  <[(r, pte_index x) := g e]> (maps_change r a x g m) = maps_change r a (x + 4096) g m.
Proof.
  intros Hx Hr Ha He. apply map_eq. intros [r' k]. rewrite lookup_insert, !maps_change_lookup.
  pose proof (in_range_last a x k Hx Hr Ha) as Hi.
  repeat case_decide; simplify_eq; try done; try (rewrite He; done); exfalso; intuition congruence.
Qed.

Lemma maps_change_skip r a x g m :
  aligned x -> 0 <= x < 2 ^ 47 -> a <= x -> m !! (r, pte_index x) = None ->
  maps_change r a x g m = maps_change r a (x + 4096) g m.
Proof.
  intros Hx Hr Ha He. apply map_eq. intros [r' k]. rewrite !maps_change_lookup.
  pose proof (in_range_last a x k Hx Hr Ha) as Hi.
  repeat case_decide; try done; try (exfalso; tauto).
  assert (r' = r /\ k = pte_index x) as [-> ->] by tauto. by rewrite He.
Qed.

(** New frames for every page of the range, no one else's. *)
Definition filled (r a b fl : Z) (A A' : vm_abs) : Prop :=
  a_roots A' = a_roots A /\ a_held A' = a_held A /\ a_pages A' = a_pages A /\ a_maps A ⊆ a_maps A' /\
  (forall r' k, ~ (r' = r /\ in_range a b k) -> a_maps A' !! (r', k) = a_maps A !! (r', k)) /\
  (forall k, in_range a b k -> exists f, a_maps A' !! (r, k) = Some (phys_to_pte (frame_addr_of f) fl) /\
    frame_ok f /\ refs A f = 0 /\ refs A' f = 1).

Lemma filled_empty r a fl A : filled r a a fl A A.
Proof. do 5 (split; [done|]). intros k []%in_range_empty. Qed.

Definition map_at (r x e : Z) (A : vm_abs) : vm_abs := with_maps (<[(r, pte_index x) := e]> (a_maps A)) A.

Lemma refs_map_at r x e A f :
  a_maps A !! (r, pte_index x) = None -> refs (map_at r x e A) f = refs A f + maps_frame e f.
Proof. intros Hm. unfold refs, map_at, maps_frame. cbn [a_maps a_held with_maps]. rewrite mappings_insert by exact Hm. lia. Qed.

Lemma refs_mono A A' f : a_maps A ⊆ a_maps A' -> a_held A' = a_held A -> refs A f <= refs A' f.
Proof.
  intros Hm Hh. unfold refs, mappings. rewrite Hh.
  assert (size (filter (fun ke : Z * Z * Z => pte_to_phys ke.2 = frame_addr_of f) (a_maps A)) <=
          size (filter (fun ke : Z * Z * Z => pte_to_phys ke.2 = frame_addr_of f) (a_maps A')))%nat; [|lia].
  rewrite <- !size_dom. apply subseteq_size, subseteq_dom, map_subseteq_spec. intros key e.
  rewrite !map_lookup_filter_Some. intros [He ?]. split; [|done]. eapply lookup_weaken; [exact He|exact Hm].
Qed.

Lemma filled_step r a x fl A A' f :
  aligned x -> 0 <= x < 2 ^ 47 -> a <= x -> filled r a x fl A A' -> frame_ok f -> refs A' f = 0 ->
  Z.testbit fl 0 = true -> a_maps A' !! (r, pte_index x) = None ->
  filled r a (x + 4096) fl A (map_at r x (phys_to_pte (frame_addr_of f) fl) A').
Proof.
  intros Hx Hr Ha (H1 & H2 & H3 & Hsub & H4 & H5) Hf Hz Hp Hm. do 3 (split; [done|]).
  destruct (new_entry f fl Hf) as [He _]. split; [|split].
  - etrans; [exact Hsub|]. by apply insert_subseteq.
  - intros r' k Hk. cbn [a_maps map_at with_maps]. rewrite lookup_insert_ne.
    + apply H4. intros [-> Hin]. apply Hk. split; [done|]. apply in_range_last; auto.
    + intros [= <- <-]. apply Hk. split; [done|]. apply in_range_last; auto.
  - intros k Hk. destruct (decide (k = pte_index x)) as [->|Hne].
    + exists f. split; [apply lookup_insert_eq|]. split; [done|]. rewrite refs_map_at by exact Hm.
      rewrite (maps_frame_eq _ f He), decide_True by done. split; [|lia].
      pose proof (refs_mono A A' f Hsub H2). pose proof (refs_pos A f). lia.
    + apply in_range_last in Hk as [Hk|]; [|done..]. destruct (H5 k Hk) as (g & G1 & G2 & G3 & G4). exists g.
      cbn [a_maps map_at with_maps]. rewrite lookup_insert_ne by congruence. do 3 (split; [done|]).
      rewrite refs_map_at by exact Hm. rewrite (maps_frame_eq _ f He), decide_False; [lia|]. intros ->. lia.
Qed.

Section pages.
Context {Heap : Type} {HK : KernelHeap Heap}.
Abbreviation mm := (@mm_t Heap).

(** ** Running one part of the state *)
Lemma in_space_run {A} s sp (e : prog vm_space_t A) (Q : A -> mm -> Prop) m :
  space_at m !! s = Some sp -> wp e (fun x sp' => Q x (set_spaces (<[s := sp']> (space_at m)) m)) sp -> wp (in_space s e) Q m.
Proof. intros Hs. unfold wp, in_space. rewrite Hs. destruct (e sp) as [[x sp']|]; done. Qed.

Lemma set_spaces_same s sp (m : mm) : space_at m !! s = Some sp -> set_spaces (<[s := sp]> (space_at m)) m = m.
Proof. intros Hs. rewrite insert_id by exact Hs. by destruct m. Qed.

(** A computation that only reads the space. *)
Lemma read_space_run {A} s sp (e : prog vm_space_t A) (Q : A -> mm -> Prop) m x :
  space_at m !! s = Some sp -> wp e (fun y sp' => y = x /\ sp' = sp) sp -> Q x m -> wp (in_space s e) Q m.
Proof.
  intros Hs He HQ. eapply in_space_run; [exact Hs|]. eapply wp_weaken; [exact He|]. intros y sp' [-> ->].
  rewrite set_spaces_same by exact Hs. exact HQ.
Qed.

Lemma in_vm_run {A} (f : vmm_t -> A * vmm_t) (Q : A -> mm -> Prop) m :
  Q (f (vm m)).1 (set_vm (f (vm m)).2 m) -> wp (in_vm f) Q m.
Proof. unfold wp, in_vm, pcall. destruct (f (vm m)). done. Qed.

Lemma page_call_run {A} s sp (f : Z -> vmm_t -> A * vmm_t) (Q : A -> mm -> Prop) m :
  space_at m !! s = Some sp -> Q (f (pml4_virt sp) (vm m)).1 (set_vm (f (pml4_virt sp) (vm m)).2 m) ->
  wp (root <- in_space s (pget pml4_virt);; in_vm (f root)) Q m.
Proof.
  intros Hs HQ. wp_step. eapply read_space_run; [exact Hs|by apply wp_pget|]. by apply in_vm_run.
Qed.

(** ** Loops over pages *)
Lemma for_pages_run {R} (I : Z -> mm -> Prop) (Q : option R -> mm -> Prop) a b body m :
  (4096 | b - a) -> 0 <= a <= b -> b < 2 ^ 64 -> I a m ->
  (forall x m, (4096 | x - a) -> a <= x -> x + 4096 <= b -> I x m ->
     wp (body x) (fun r m' => match r with None => I (x + 4096) m' | Some y => Q (Some y) m' end) m) ->
  (forall m, I b m -> Q None m) -> wp (for_pages a b body) Q m.
Proof.
  intros [n Hn] Ha Hb HI Hbody Hend. unfold for_pages. assert (page_steps a b = Z.to_nat n) as ->.
  { unfold page_steps. change PAGE_SIZE with 4096. replace (b - a + 4096 - 1) with (4095 + n * 4096) by lia.
    rewrite Z.div_add by lia. reflexivity. }
  assert (forall i x m, Z.of_nat i * 4096 = b - x -> (4096 | x - a) -> a <= x -> I x m -> wp (page_loop i x b body) Q m) as Hloop.
  { clear m HI. induction i as [|i IH]; intros x m Hx Hd Hax HI; cbn [page_loop].
    - destruct (Z.ltb_spec x b); [lia|]. apply wp_pret, Hend. by replace b with x by lia.
    - destruct (Z.ltb_spec x b) as [Hlt|Hge]; [|lia]. wp_step.
      eapply wp_weaken; [apply Hbody; [done|done|lia|exact HI]|]. intros [y|] m' Hm'; [by apply wp_pret|].
      change PAGE_SIZE with 4096. rewrite u64_id by lia. apply IH; [lia| |lia|exact Hm'].
      destruct Hd as [d Hd]. exists (d + 1). lia. }
  apply Hloop; [lia|exists 0; lia|lia|exact HI].
Qed.

(** The state whose memory part is [v']. *)
Definition vm_became (own : ownership) (A : vm_abs) (m : mm) (own' : ownership) (A' : vm_abs) (m' : mm) : Prop :=
  own ⊆ own' /\ m' = set_vm (vm m') m /\ rep own' A' (vm m').

Lemma set_vm_twice v v' (m : mm) : set_vm v (set_vm v' m) = set_vm v m.
Proof. done. Qed.

Lemma vm_became_trans own A m own1 A1 m1 own2 A2 m2 :
  vm_became own A m own1 A1 m1 -> vm_became own1 A1 m1 own2 A2 m2 -> vm_became own A m own2 A2 m2.
Proof.
  intros (H1 & H2 & H3) (G1 & G2 & G3). split; [by transitivity own1|]. split; [|done]. rewrite G2, H2. done.
Qed.

Lemma vm_became_refl own A (m : mm) : rep own A (vm m) -> vm_became own A m own A m.
Proof. intros Hr. split; [done|]. split; [by destruct m|done]. Qed.

Lemma vm_became_space own A m own' A' m' : vm_became own A m own' A' m' -> space_at m' = space_at m.
Proof. intros (_ & -> & _). done. Qed.

Definition user_range (a b : Z) : Prop := aligned a /\ aligned b /\ 0 <= a <= b /\ b <= 2 ^ 47.

Lemma user_range_div a b : user_range a b -> (4096 | b - a).
Proof.
  intros (Ha & Hb & _). apply Z.mod_divide; [lia|]. unfold aligned in *. rewrite Zminus_mod, Ha, Hb. reflexivity.
Qed.

Lemma user_range_step a b x : user_range a b -> (4096 | x - a) -> a <= x -> x + 4096 <= b -> aligned x /\ 0 <= x < 2 ^ 47.
Proof.
  intros (Ha & Hb & Hr & Hl) [d Hd] Hx Hlt. split; [|lia]. unfold aligned in *. replace x with (a + d * 4096) by lia.
  by rewrite Z_mod_plus_full.
Qed.

Lemma unmap_pages_run own A s sp a b m :
  rep own A (vm m) -> space_at m !! s = Some sp -> pml4_virt sp ∈ a_roots A -> user_range a b ->
  wp (unmap_pages s a b) (fun _ m' => exists own',
    vm_became own A m own' (with_maps (maps_cut (pml4_virt sp) a b (a_maps A)) A) m') m.
Proof.
  intros Hrep Hs Hroot Hr. unfold unmap_pages. set (r := pml4_virt sp) in *.
  eapply (for_pages_run (fun x m' => exists own', vm_became own A m own' (with_maps (maps_cut r a x (a_maps A)) A) m')).
  - by apply user_range_div.
  - apply Hr.
  - destruct Hr as (_ & _ & _ & Hb). lia.
  - exists own. rewrite maps_cut_empty. apply vm_became_refl. by destruct A.
  - intros x m1 Hd Hx Hlt (own1 & Hm1). destruct (user_range_step _ _ _ Hr Hd Hx Hlt) as [Hal Hu].
    wp_step. unfold unmap_page. eapply page_call_run; [rewrite (vm_became_space _ _ _ _ _ _ Hm1); exact Hs|]. fold r. wp_go.
    destruct (unmap_refined own1 _ (vm m1) r x (proj2 (proj2 Hm1)) Hroot (page_user x Hu)) as (own2 & A2 & H1 & H2 & H3 & _).
    cbn [fst snd] in *. exists own2. eapply vm_became_trans; [exact Hm1|]. split; [exact H1|]. split; [done|].
    cbn [vm set_vm]. replace (with_maps (maps_cut r a (x + 4096) (a_maps A)) A) with A2; [exact H2|].
    rewrite <- (maps_cut_step r a x) by done. inversion H3; subst; unfold set_at, set_page, set_map; cbn; [done|].
    unfold page_at in *. cbn in *. rewrite delete_id by done. done.
  - intros m1 H1. exact H1.
Qed.

Lemma managed_free v p g : managed (vmm_free_page v p) g <-> managed v g.
Proof.
  unfold managed, vmm_free_page, total_frames. repeat case_match; try done; cbn [frame_database with_frames]; unfold zset;
    by rewrite length_insert.
Qed.

Lemma users_grow own own' A f : own ⊆ own' -> users own A f <> 0 -> users own' A f <> 0.
Proof.
  unfold users. intros Hsub. pose proof (refs_pos A f). destruct (own !! frame_addr_of f) eqn:E.
  - rewrite (lookup_weaken _ _ _ _ E Hsub). lia.
  - destruct (own' !! frame_addr_of f); lia.
Qed.

(** At most one frame is free. *)
Definition scarce (own : ownership) (A : vm_abs) (v : vmm_t) : Prop :=
  exists f, forall g, managed v g -> g <> f -> users own A g <> 0.

Lemma populate_run own A s sp fl x m :
  rep own A (vm m) -> space_at m !! s = Some sp -> pml4_virt sp ∈ a_roots A -> 0 <= x < 2 ^ 47 ->
  a_maps A !! (pml4_virt sp, pte_index x) = None -> Z.testbit fl 0 = true ->
  wp (populate s fl x) (fun r m' => exists own',
    match r with
    | None => exists f, frame_ok f /\ refs A f = 0 /\
        vm_became own A m own' (map_at (pml4_virt sp) x (phys_to_pte (frame_addr_of f) fl) A) m'
    | Some rc => rc = VMM_ERROR_NOMEM /\ vm_became own A m own' A m' /\ scarce own' A (vm m')
    end) m.
Proof.
  intros Hrep Hs Hroot Hx Hm Hp. unfold populate, alloc_page. wp_step. apply in_vm_run. set (r := pml4_virt sp) in *.
  destruct (alloc_page_rep own A (vm m) Hrep) as [[-> Hn]|(f & v1 & -> & Hf & Hu & _ & Hrep1)]; cbn [fst snd].
  { rewrite Z.eqb_refl. apply wp_pret. exists own. split; [done|]. split.
    - split; [done|]. split; [by destruct m|]. exact Hrep.
    - exists 0. intros g Hg _. by apply Hn. }
  pose proof (rep_frame_ok _ _ _ _ Hrep Hf) as Hok. pose proof (frame_addr_pos f Hok) as Hpos.
  rewrite (proj2 (Z.eqb_neq _ 0)) by lia. wp_step. unfold map_page. eapply page_call_run; [exact Hs|]. fold r. cbn [vm set_vm].
  assert (refs A f = 0) as Hrefs.
  { unfold users in Hu. pose proof (refs_pos A f). destruct (own !! frame_addr_of f); lia. }
  assert (f ∉ a_held A) as Hnh by (intros Hin; pose proof (held_refs A f Hin); lia).
  assert (f ∈ a_held (hold f A)) as Hin by (cbn; set_solver).
  destruct (map_refined own (hold f A) v1 r x f fl Hrep1 Hroot (page_user x Hx) Hin) as (own2 & A2 & H1 & H2 & H3 & H4 & _).
  assert ((a_held (hold f A) ∖ {[f]}) = a_held A) as Hheld by (cbn; set_solver).
  destruct (vmm_map_page v1 (& r) x (frame_addr_of f) fl) as [rc v2]. cbn [fst snd] in *.
  inversion H3; subst; [| by unfold page_at in *; cbn in *; congruence |].
  - change (negb (VMM_SUCCESS =? VMM_SUCCESS)) with false. cbv iota. apply wp_pret. exists own2, f. split; [done|]. split; [done|]. split; [done|]. split; [done|]. cbn [vm set_vm].
    replace (map_at _ _ _ _) with (set_page r (pte_index x) (phys_to_pte (frame_addr_of f) fl)
      (if Z.testbit fl 0 then a_held (hold f A) ∖ {[f]} else a_held (hold f A)) (hold f A)); [exact H2|].
    rewrite Hp, Hheld. unfold set_page, set_map, map_at. rewrite (proj2 (new_entry f fl Hok)), Hp. done.
  - change (negb (VMM_ERROR_NOMEM =? VMM_SUCCESS)) with true. cbv iota. wp_step. unfold free_page. apply in_vm_run. cbn [fst snd vm set_vm]. apply wp_pret.
    destruct (free_refined own2 (hold f A) v2 f H2 Hin) as (own3 & A3 & G1 & G2 & G3 & _). cbn [fst snd] in *.
    inversion G3; subst. rewrite Hheld in G2. exists own3. split; [done|]. split.
    + split; [by transitivity own2|]. split; [done|]. cbn [vm set_vm]. by destruct A.
    + exists f. cbn [vm set_vm]. intros g Hg Hne. rewrite managed_free in Hg. specialize (H4 eq_refl g Hg).
      apply (users_grow own2 own3); [done|]. unfold users in *. rewrite refs_hold, decide_False in H4 by done. by rewrite Z.add_0_r in H4.
Qed.

Lemma in_range_pages a b x : user_range a b -> (4096 | x - a) -> a <= x -> x + 4096 <= b -> in_range a b (pte_index x).
Proof.
  intros Hr Hd Hx Hlt. destruct (user_range_step _ _ _ Hr Hd Hx Hlt) as [Hal Hu]. rewrite page_index by exact Hu.
  unfold in_range, aligned in *. pose proof (Z.div_mod x 4096). lia.
Qed.

Lemma populate_pages_run own A s sp fl a b m :
  rep own A (vm m) -> space_at m !! s = Some sp -> pml4_virt sp ∈ a_roots A -> user_range a b ->
  (forall k, in_range a b k -> a_maps A !! (pml4_virt sp, k) = None) -> Z.testbit fl 0 = true ->
  wp (for_pages a b (populate s fl)) (fun r m' => exists own' A',
    vm_became own A m own' A' m' /\
    match r with
    | None => filled (pml4_virt sp) a b fl A A'
    | Some rc => exists x, rc = VMM_ERROR_NOMEM /\ aligned x /\ a <= x < b /\ filled (pml4_virt sp) a x fl A A' /\
        scarce own' A' (vm m')
    end) m.
Proof.
  intros Hrep Hs Hroot Hr Hnone Hp. set (r := pml4_virt sp) in *.
  eapply (for_pages_run (fun x m' => exists own' A', vm_became own A m own' A' m' /\ filled r a x fl A A')).
  - by apply user_range_div.
  - apply Hr.
  - destruct Hr as (_ & _ & _ & Hb). lia.
  - exists own, A. split; [by apply vm_became_refl|apply filled_empty].
  - intros x m1 Hd Hx Hlt (own1 & A1 & Hm1 & Hfill). destruct (user_range_step _ _ _ Hr Hd Hx Hlt) as [Hal Hu].
    pose proof Hfill as (F1 & F2 & F3 & F4 & F5 & F6).
    assert (a_maps A1 !! (r, pte_index x) = None) as Hx1.
    { rewrite F5; [by apply Hnone, in_range_pages|]. intros [_ Hin]. rewrite page_index in Hin by done.
      unfold in_range, aligned in *. pose proof (Z.div_mod x 4096). lia. }
    eapply wp_weaken; [apply (populate_run own1 A1 s sp fl x m1)|].
    + apply Hm1.
    + by rewrite (vm_became_space _ _ _ _ _ _ Hm1).
    + by rewrite F1.
    + exact Hu.
    + exact Hx1.
    + exact Hp.
    + intros [rc|] m2 (own2 & Hm2).
      * destruct Hm2 as (-> & Hm2 & Hsc). exists own2, A1. split; [eapply vm_became_trans; eassumption|]. exists x.
        split; [done|]. split; [done|]. split; [lia|]. split; done.
      * destruct Hm2 as (f & Hok & Hf & Hm2). eexists own2, _. split; [eapply vm_became_trans; eassumption|].
        by apply filled_step.
  - intros m1 (own1 & A1 & Hm1). by exists own1, A1.
Qed.

(** *** Protection *)
Definition protected (new_flags e : Z) : Z := Z.lor (Z.land e 0xFFFFFFFFFFFFF000) (protect_flags new_flags).

(** The bit that would forbid execution is above the 32 kept. *)
Lemma protect_flags_small new_flags :
  protect_flags new_flags = page_flags_of new_flags /\ 0 <= page_flags_of new_flags < 8 /\ Z.testbit (page_flags_of new_flags) 0 = true.
Proof.
  unfold protect_flags, page_flags_of. destruct (pte_has new_flags VMM_FLAG_WRITE), (pte_has new_flags VMM_FLAG_USER),
    (pte_has new_flags VMM_FLAG_EXEC); vm_compute; repeat split; discriminate.
Qed.

Lemma protected_entry new_flags e :
  pte_to_phys (protected new_flags e) = pte_to_phys e /\ pte_has (protected new_flags e) PAGE_PRESENT = true.
Proof.
  destruct (protect_flags_small new_flags) as (Hf & Hb & Hp). unfold protected. rewrite Hf.
  set (f := page_flags_of new_flags) in *. split.
  - unfold pte_to_phys. rewrite Z.land_lor_distr_l, <- Z.land_assoc. change (Z.land 0xFFFFFFFFFFFFF000 0xFFFFFFFFFFFFF000) with 0xFFFFFFFFFFFFF000.
    replace (Z.land f 0xFFFFFFFFFFFFF000) with 0; [by rewrite Z.lor_0_r|].
    assert (f = 0 \/ f = 1 \/ f = 2 \/ f = 3 \/ f = 4 \/ f = 5 \/ f = 6 \/ f = 7) as Hcases by lia.
    by repeat destruct Hcases as [->|Hcases]; [..|subst f; rewrite Hcases].
  - rewrite has_present, Z.lor_spec, Hp. apply orb_true_r.
Qed.

Lemma protect_page_run own A v r x new_flags :
  rep own A v -> r ∈ a_roots A -> 0 <= x < 2 ^ 47 ->
  rep own (match a_maps A !! (r, pte_index x) with
           | Some e => map_at r x (protected new_flags e) A
           | None => A
           end) (protect_page r new_flags x v).
Proof.
  intros Hrep Hr Hx. pose proof (found own A v r x Hrep Hr (page_user x Hx)) as Hf. unfold protect_page.
  destruct (a_maps A !! (r, pte_index x)) as [e|] eqn:He.
  - destruct Hf as (t & -> & Hentry & Hleaf). rewrite Hentry.
    destruct (mapped_leaf _ _ _ _ _ _ Hrep He) as (_ & _ & _ & f & _ & _ & Hp & _). rewrite Hp.
    destruct (protected_entry new_flags e) as [E1 E2].
    replace (map_at r x (protected new_flags e) A) with (set_at r x (protected new_flags e) A).
    + apply (rep_same_frame own A v r x t e); try done. by apply page_user.
    + unfold set_at, set_page, set_map, map_at. by rewrite E2.
  - destruct Hf as [->|(t & i & -> & Hn)]; [done|]. by rewrite Hn.
Qed.

Lemma protect_pages_run own A s sp a b new_flags m :
  rep own A (vm m) -> space_at m !! s = Some sp -> pml4_virt sp ∈ a_roots A -> user_range a b ->
  wp (for_pages (R := unit) a b (fun x => in_vm (fun v => (tt, protect_page (pml4_virt sp) new_flags x v));; pret None))
    (fun _ m' => vm_became own A m own
       (with_maps (maps_change (pml4_virt sp) a b (protected new_flags) (a_maps A)) A) m') m.
Proof.
  intros Hrep Hs Hroot Hr. set (r := pml4_virt sp) in *.
  eapply (for_pages_run (fun x m' => vm_became own A m own (with_maps (maps_change r a x (protected new_flags) (a_maps A)) A) m')).
  - by apply user_range_div.
  - apply Hr.
  - destruct Hr as (_ & _ & _ & Hb). lia.
  - rewrite maps_change_empty. apply vm_became_refl. by destruct A.
  - intros x m1 Hd Hx Hlt Hm1. destruct (user_range_step _ _ _ Hr Hd Hx Hlt) as [Hal Hu].
    wp_step. apply in_vm_run. cbn [fst snd]. apply wp_pret. eapply vm_became_trans; [exact Hm1|].
    split; [done|]. split; [done|]. cbn [vm set_vm].
    pose proof (protect_page_run own _ _ r x new_flags (proj2 (proj2 Hm1)) Hroot Hu) as Hstep. cbn [a_maps with_maps] in Hstep.
    rewrite maps_change_lookup, decide_False in Hstep.
    2:{ intros [_ Hin]. rewrite page_index in Hin by done. unfold in_range, aligned in *. pose proof (Z.div_mod x 4096). lia. }
    destruct (a_maps A !! (r, pte_index x)) as [e|] eqn:He.
    + rewrite <- (maps_change_step r a x _ _ e) by done. exact Hstep.
    + rewrite <- (maps_change_skip r a x) by done. exact Hstep.
  - intros m1 H1. exact H1.
Qed.
End pages.

(** * The areas of a space as a map from addresses to attributes *)

(** ** Areas *)
Definition area_wf (a : area) : Prop := user_range (lo a) (hi a) /\ lo a < hi a.
Definition apart (n n' : Z * area) : Prop := hi n.2 <= lo n'.2.

(** Page-aligned, inside the user half, in order, disjoint. *)
Definition areas_ok (l : list (Z * area)) : Prop := Forall (fun n => area_wf n.2) l /\ StronglySorted apart l.

Lemma sorted_mid {T} (R : T -> T -> Prop) l1 x l2 :
  StronglySorted R (l1 ++ x :: l2) -> Forall (fun y => R y x) l1 /\ Forall (R x) l2.
Proof.
  induction l1 as [|y l1 IH]; cbn; intros [Hs Hy]%StronglySorted_inv; [done|]. destruct (IH Hs) as [H1 H2]. split; [|done].
  constructor; [|done]. rewrite Forall_app, Forall_cons in Hy. apply Hy.
Qed.

Lemma sorted_app {T} (R : T -> T -> Prop) l1 l2 :
  StronglySorted R (l1 ++ l2) <-> StronglySorted R l1 /\ StronglySorted R l2 /\ forall x y, x ∈ l1 -> y ∈ l2 -> R x y.
Proof.
  induction l1 as [|z l1 IH]; cbn.
  - split; [intros H; split; [constructor|]; split; [exact H|]|intros (_ & H & _); exact H].
    intros x y []%elem_of_nil.
  - split.
    + intros [Hs Hz]%StronglySorted_inv. apply IH in Hs as (H1 & H2 & H3). rewrite Forall_app in Hz. destruct Hz as [Hz1 Hz2].
      split; [by constructor|]. split; [done|]. intros x y [->|Hx]%elem_of_cons Hy; [|by apply H3].
      rewrite Forall_forall in Hz2. by apply Hz2.
    + intros ([H1 Hz]%StronglySorted_inv & H2 & H3). constructor.
      * apply IH. split; [done|]. split; [done|]. intros x y Hx. apply H3. by right.
      * apply Forall_app. split; [done|]. apply Forall_forall. intros y. apply H3. by left.
Qed.

Lemma areas_below l : areas_ok l -> StronglySorted below l.
Proof.
  intros [Hwf Hs]. induction Hs as [|n l Hs IH Hn]; [constructor|]. apply Forall_cons in Hwf as [[_ Hw] Hwf]. constructor; [by apply IH|].
  eapply Forall_impl; [exact Hn|]. unfold apart, below. lia.
Qed.

Lemma areas_app l1 l2 : areas_ok (l1 ++ l2) <-> areas_ok l1 /\ areas_ok l2 /\ forall x y, x ∈ l1 -> y ∈ l2 -> apart x y.
Proof. unfold areas_ok. rewrite Forall_app, sorted_app. tauto. Qed.

(** The area that covers an address is unique. *)
Lemma area_at_mid l1 n l2 x : areas_ok (l1 ++ n :: l2) -> lo n.2 <= x < hi n.2 -> area_at (l1 ++ n :: l2) x = Some n.
Proof.
  intros [_ Hs] Hx. apply sorted_mid in Hs as [Hb _]. induction l1 as [|m l1 IH]; cbn; unfold covers.
  - rewrite (proj2 (Z.leb_le _ _)), (proj2 (Z.ltb_lt _ _)) by lia. done.
  - apply Forall_cons in Hb as [Hm Hb]. unfold apart in Hm. rewrite (proj2 (Z.ltb_ge x (hi m.2))), andb_false_r by lia. by apply IH.
Qed.

Lemma area_at_none l x : area_at l x = None <-> forall n, n ∈ l -> ~ (lo n.2 <= x < hi n.2).
Proof.
  induction l as [|m l IH]; cbn.
  - split; [intros _ n []%elem_of_nil|done].
  - unfold covers. destruct (Z.leb_spec (lo m.2) x), (Z.ltb_spec x (hi m.2)); cbn; try rewrite IH; split; try done;
      try (intros Hall n [->|Hn]%elem_of_cons; [lia|by apply Hall]); try (intros Hall n Hn; apply Hall; by right).
    intros Hall. exfalso. apply (Hall m); [by left|lia].
Qed.

Lemma area_at_some l x n : areas_ok l -> area_at l x = Some n <-> n ∈ l /\ lo n.2 <= x < hi n.2.
Proof.
  intros Hok. split; [apply area_at_in|]. intros [(l1 & l2 & ->)%list_elem_of_split Hx]. by apply area_at_mid.
Qed.

(** ** Attributes *)
Abbreviation attr := (Z * vmm_region_type_t)%type.
Definition attr_of (a : area) : attr := (fl a, ty a).
Definition attr_at (l : list (Z * area)) (x : Z) : option attr := (fun n => attr_of n.2) <$> area_at l x.

Lemma attr_app l1 l2 x : attr_at (l1 ++ l2) x = match attr_at l1 x with Some v => Some v | None => attr_at l2 x end.
Proof. unfold attr_at. induction l1 as [|n l1 IH]; cbn; [done|]. destruct (covers n.2 x); [done|exact IH]. Qed.

Lemma attr_none l x : attr_at l x = None <-> area_at l x = None.
Proof. unfold attr_at. by destruct (area_at l x). Qed.

Lemma attr_one p a x : attr_at [(p, a)] x = if decide (lo a <= x < hi a) then Some (attr_of a) else None.
Proof.
  unfold attr_at. cbn. unfold covers. destruct (Z.leb_spec (lo a) x), (Z.ltb_spec x (hi a)); cbn; case_decide; try done; lia.
Qed.

Lemma attr_two p a q b x :
  attr_at [(p, a); (q, b)] x =
  if decide (lo a <= x < hi a) then Some (attr_of a) else if decide (lo b <= x < hi b) then Some (attr_of b) else None.
Proof. rewrite (attr_app [(p, a)] [(q, b)]), !attr_one. by repeat case_decide. Qed.

(** The areas are made of whole pages. *)
Lemma attr_page l c x : areas_ok l -> aligned c -> c <= x < c + 4096 -> attr_at l c = None -> attr_at l x = None.
Proof.
  intros [Hwf _] Hc Hx. rewrite !attr_none, !area_at_none. intros Hno n Hn Hcov. rewrite Forall_forall in Hwf.
  destruct (Hwf n Hn) as [(H1 & H2 & _) _]. apply (Hno n Hn). unfold aligned in *.
  pose proof (Z.div_mod c 4096). pose proof (Z.div_mod (lo n.2) 4096). pose proof (Z.div_mod (hi n.2) 4096). lia.
Qed.

Lemma attr_apart l n x : (forall n', n' ∈ l -> apart n' n \/ apart n n') -> lo n.2 <= x < hi n.2 -> attr_at l x = None.
Proof.
  intros Hl Hx. apply attr_none, area_at_none. intros n' Hn'. destruct (Hl n' Hn') as [Ha|Ha]; unfold apart in Ha; lia.
Qed.

(** One area replaced by pieces that differ from it on an interval. *)
Lemma attr_replace l1 p a l2 mid c e v :
  areas_ok (l1 ++ (p, a) :: l2) -> lo a <= c -> e <= hi a ->
  (forall x, attr_at mid x = if decide (c <= x < e) then v else attr_at [(p, a)] x) ->
  forall x, attr_at (l1 ++ mid ++ l2) x = if decide (c <= x < e) then v else attr_at (l1 ++ (p, a) :: l2) x.
Proof.
  intros [_ Hs] Hc He Hmid x. apply sorted_mid in Hs as [Hb Ha]. rewrite Forall_forall in Ha, Hb.
  change ((p, a) :: l2) with ([(p, a)] ++ l2). rewrite !attr_app, Hmid. case_decide; [|done].
  rewrite (attr_apart l1 (p, a)) by (auto || cbn; lia). destruct v; [done|]. apply (attr_apart l2 (p, a)); [auto|cbn; lia].
Qed.

Lemma areas_replace l1 p a l2 mid :
  areas_ok (l1 ++ (p, a) :: l2) -> areas_ok mid -> (forall n, n ∈ mid -> lo a <= lo n.2 /\ hi n.2 <= hi a) ->
  areas_ok (l1 ++ mid ++ l2).
Proof.
  intros Hok Hmid Hin. change ((p, a) :: l2) with ([(p, a)] ++ l2) in Hok. rewrite !areas_app in *.
  destruct Hok as (H1 & (H2 & H3 & H4) & H5). split; [done|]. split.
  - split; [done|]. split; [done|]. intros n y Hn Hy. specialize (H4 (p, a) y ltac:(by left) Hy). specialize (Hin n Hn).
    unfold apart in *. cbn in *. lia.
  - intros y n Hy [Hn|Hn]%elem_of_app; [|by apply H5; [|apply elem_of_app; right]].
    specialize (H5 y (p, a) Hy ltac:(by apply elem_of_app; left; left)). specialize (Hin n Hn). unfold apart in *. cbn in *. lia.
Qed.

Lemma areas_nil : areas_ok [].
Proof. split; constructor. Qed.

Lemma areas_one p a : area_wf a -> areas_ok [(p, a)].
Proof. intros Ha. split; [by constructor|]. constructor; constructor. Qed.

Lemma areas_two p a q b : area_wf a -> area_wf b -> hi a <= lo b -> areas_ok [(p, a); (q, b)].
Proof.
  intros Ha Hb Hab. split; [by apply Forall_cons; split; [|apply Forall_cons]|]. constructor; [by constructor; constructor|].
  constructor; [exact Hab|constructor].
Qed.

Lemma area_wf_hi a z : area_wf a -> aligned z -> lo a < z <= hi a -> area_wf (with_hi z a).
Proof. unfold area_wf, user_range. cbn. intuition lia. Qed.
Lemma area_wf_lo a z : area_wf a -> aligned z -> lo a <= z < hi a -> area_wf (with_lo z a).
Proof. unfold area_wf, user_range. cbn. intuition lia. Qed.

Lemma areas_mid l1 p a l2 : areas_ok (l1 ++ (p, a) :: l2) -> area_wf a.
Proof. intros [Hwf _]. rewrite Forall_app, Forall_cons in Hwf. apply Hwf. Qed.

(** A new area in a free range. *)
Definition free_range (l : list (Z * area)) (a b : Z) : Prop := forall n, n ∈ l -> hi n.2 <= a \/ b <= lo n.2.

Lemma free_range_attr l a b : areas_ok l -> a < b -> free_range l a b <-> forall x, a <= x < b -> attr_at l x = None.
Proof.
  intros [Hwf _] Hab. rewrite Forall_forall in Hwf. split.
  - intros Hf x Hx. apply attr_none, area_at_none. intros n Hn. specialize (Hf n Hn). lia.
  - intros Hf n Hn. destruct (Hwf n Hn) as [_ Hw].
    destruct (Z.le_gt_cases (hi n.2) a); [by left|]. destruct (Z.le_gt_cases b (lo n.2)); [by right|]. exfalso.
    specialize (Hf (Z.max a (lo n.2)) ltac:(lia)). rewrite attr_none, area_at_none in Hf. apply (Hf n Hn). lia.
Qed.

Lemma areas_insert l1 p a l2 :
  areas_ok (l1 ++ l2) -> area_wf a -> free_range (l1 ++ l2) (lo a) (hi a) ->
  Forall (fun n => lo n.2 <= lo a) l1 -> Forall (fun n => lo a <= lo n.2) l2 -> areas_ok (l1 ++ (p, a) :: l2).
Proof.
  intros Hok Ha Hf H1 H2. change ((p, a) :: l2) with ([(p, a)] ++ l2). rewrite !areas_app in *.
  destruct Hok as (G1 & G2 & G3). rewrite Forall_forall in H1, H2. destruct Ha as [Hr Hlt].
  assert (forall n, n ∈ l1 -> apart n (p, a)) as K1.
  { intros n Hn. unfold apart. cbn. specialize (H1 n Hn). destruct (Hf n) as [|Hb]; [apply elem_of_app; by left|done|].
    destruct G1 as [Hwf _]. rewrite Forall_forall in Hwf. destruct (Hwf n Hn). lia. }
  assert (forall n, n ∈ l2 -> apart (p, a) n) as K2.
  { intros n Hn. unfold apart. cbn. specialize (H2 n Hn). destruct (Hf n) as [Hb|]; [apply elem_of_app; by right| |done].
    destruct G2 as [Hwf _]. rewrite Forall_forall in Hwf. destruct (Hwf n Hn). lia. }
  split; [done|]. split.
  - split; [by apply areas_one|]. split; [done|]. intros n y ->%list_elem_of_singleton. apply K2.
  - intros n y Hn [->%list_elem_of_singleton|Hy]%elem_of_app; [by apply K1|by apply G3].
Qed.

Lemma attr_insert l1 p a l2 x :
  free_range (l1 ++ l2) (lo a) (hi a) ->
  attr_at (l1 ++ (p, a) :: l2) x = if decide (lo a <= x < hi a) then Some (attr_of a) else attr_at (l1 ++ l2) x.
Proof.
  intros Hf. change ((p, a) :: l2) with ([(p, a)] ++ l2). rewrite !attr_app, attr_one. case_decide; [|done].
  rewrite (proj2 (attr_none _ _)); [done|]. apply area_at_none. intros n Hn. destruct (Hf n); [apply elem_of_app; by left|lia|lia].
Qed.
