(* ===== verification/RegionOpsSpec.v ===== *)
(** * The region operations, one space at a time

    [view] relates a space object to its list of areas and to the abstract map
    of pages; [local] says that an operation changed that space only.  Every
    operation of vmm_regions.c is specified by the list and the map it leaves:
    creation, destruction and splitting, then munmap, mmap, protection and the
    page-fault handler. *)
From Stdlib Require Import ZArith Lia Sorted.
From stdpp Require Import gmap sorting.
From S2P Require Import Prelude Vmm VmmSpec PageWalk PageTreeSpec FrameSpec.
From S2P Require Import PageWalkSpec PageOpsSpec StateMonad KernelHeap VmmRegions RegionListSpec.
From S2P Require Import RegionPagesSpec.
Open Scope Z_scope.
Open Scope c_scope.
Open Scope prog_scope.

Section ops.
Context {Heap : Type} {HK : KernelHeap Heap} {HL : KernelHeapLaws Heap}.
Abbreviation mm := (@mm_t Heap).

Record view (own : ownership) (A : vm_abs) (s : Z) (sp : vm_space_t) (l : list (Z * area)) (m : mm) : Prop := {
  vw_rep : rep own A (vm m);
  vw_space : space_at m !! s = Some sp;
  vw_list : list_ok sp l;
  vw_root : pml4_virt sp ∈ a_roots A;
  vw_live : dom (region_at sp) ⊆ live (heap m) }.

(** From [m], where the space is [sp], to [m'], where it is [sp']: [R] on the
    fields other than the list. *)
Record local_upto (R : vm_space_t -> vm_space_t -> Prop) (s : Z) (own : ownership) (A : vm_abs) (m : mm) (sp : vm_space_t)
    (own' : ownership) (A' : vm_abs) (m' : mm) (sp' : vm_space_t) : Prop := {
  lc_own : own ⊆ own';
  lc_roots : a_roots A' = a_roots A;
  lc_held : a_held A' = a_held A;
  lc_pages : a_pages A' = a_pages A;
  lc_maps : forall r k, r <> pml4_virt sp -> a_maps A' !! (r, k) = a_maps A !! (r, k);
  lc_space : space_at m' = <[s := sp']> (space_at m);
  lc_pml4 : pml4_virt sp' = pml4_virt sp;
  lc_same : R sp sp';
  lc_globals : kernel_vm_space m' = kernel_vm_space m /\ current_space m' = current_space m;
  lc_fresh : (dom (region_at sp') ∖ dom (region_at sp)) ## live (heap m);
  lc_live : live (heap m') = (live (heap m) ∖ dom (region_at sp)) ∪ dom (region_at sp') }.

Abbreviation local := (local_upto same_space).

Lemma local_refl own A s sp l m : view own A s sp l m -> local s own A m sp own A m sp.
Proof.
  intros [H2 H3 H4 H5 H6]. split; try done; [by rewrite insert_id|set_solver|].
  apply leibniz_equiv. intros x. destruct (decide (x ∈ dom (region_at sp))); set_solver.
Qed.

Lemma local_trans s own A m sp own1 A1 m1 sp1 own2 A2 m2 sp2 :
  local s own A m sp own1 A1 m1 sp1 -> local s own1 A1 m1 sp1 own2 A2 m2 sp2 -> local s own A m sp own2 A2 m2 sp2.
Proof.
  intros [E1 E2 E3 E4 E5 E6 E7 ES E8 E9 E10] [F1 F2 F3 F4 F5 F6 F7 FS F8 F9 F10]. split.
  - by transitivity own1.
  - congruence.
  - congruence.
  - congruence.
  - intros r k Hr. rewrite F5 by congruence. by apply E5.
  - by rewrite F6, E6, insert_insert_eq.
  - congruence.
  - by eapply same_space_trans.
  - intuition congruence.
  - rewrite E10 in F9. intros x Hx Hl. destruct (decide (x ∈ dom (region_at sp1))); set_solver.
  - rewrite F10, E10. apply leibniz_equiv. intros x. rewrite E10 in F9.
    destruct (decide (x ∈ dom (region_at sp1))), (decide (x ∈ live (heap m))), (decide (x ∈ dom (region_at sp))); set_solver.
Qed.

(** *** The three kinds of step *)
Lemma local_vm own A s sp l m own' A' m' :
  view own A s sp l m -> vm_became own A m own' A' m' -> a_roots A' = a_roots A -> a_held A' = a_held A ->
  a_pages A' = a_pages A -> (forall r k, r <> pml4_virt sp -> a_maps A' !! (r, k) = a_maps A !! (r, k)) ->
  view own' A' s sp l m' /\ local s own A m sp own' A' m' sp.
Proof.
  intros Hv (H1 & H2 & H3) E1 E2 E3 E4. pose proof (local_refl _ _ _ _ _ _ Hv) as [_ _ _ _ _ F6 _ _ _ F9 F10]. destruct Hv.
  split; [rewrite H2; split; cbn; try done; by rewrite E1|]. split; try done; rewrite H2; done.
Qed.

Lemma local_cut own A s sp l m own' a b m' :
  view own A s sp l m -> vm_became own A m own' (with_maps (maps_cut (pml4_virt sp) a b (a_maps A)) A) m' ->
  view own' (with_maps (maps_cut (pml4_virt sp) a b (a_maps A)) A) s sp l m' /\
  local s own A m sp own' (with_maps (maps_cut (pml4_virt sp) a b (a_maps A)) A) m' sp.
Proof.
  intros Hv Hb. apply (local_vm own A s sp l m); try done. intros r k Hr. cbn. rewrite maps_cut_lookup, decide_False; tauto.
Qed.

Lemma local_space own A s sp l m sp' l' :
  view own A s sp l m -> list_ok sp' l' -> dom (region_at sp') = dom (region_at sp) -> same_space sp sp' ->
  view own A s sp' l' (set_spaces (<[s := sp']> (space_at m)) m) /\
  local s own A m sp own A (set_spaces (<[s := sp']> (space_at m)) m) sp'.
Proof.
  intros Hv Hl Hd Hsame. pose proof (proj1 Hsame) as Hp. pose proof (local_refl _ _ _ _ _ _ Hv) as [_ _ _ _ _ _ _ _ _ F9 F10]. destruct Hv as [H1 H2 H3 H4 H5].
  split; [split; cbn; try done; [apply lookup_insert_eq|congruence|by rewrite Hd]|]. split; cbn; try done; rewrite Hd; done.
Qed.

(** A step of the list operations. *)
Lemma relist_run own A s sp l m (e : prog vm_space_t unit) l' (Q : unit -> mm -> Prop) :
  view own A s sp l m -> wp e (fun _ sp' => relisted sp l' sp') sp ->
  (forall sp' m', view own A s sp' l' m' -> local s own A m sp own A m' sp' -> dom (region_at sp') = dom (region_at sp) ->
     heap m' = heap m -> Q tt m') ->
  wp (in_space s e) Q m.
Proof.
  intros Hv He HQ. eapply in_space_run; [apply Hv|]. eapply wp_weaken; [exact He|]. intros [] sp' (Hl & Hd & Hsame).
  destruct (local_space _ _ _ _ _ _ _ _ Hv Hl Hd Hsame). eauto.
Qed.

Lemma find_view own A s sp l m x (Q : ptr Z -> mm -> Prop) :
  view own A s sp l m -> Q (fst <$> area_at l x) m -> wp (vmm_find_region (& s) x) Q m.
Proof.
  intros Hv HQ. eapply read_space_run; [apply Hv| |exact HQ]. eapply find_region_run; [apply Hv|done].
Qed.

Lemma region_view own A s sp l m p a (Q : vm_region_t -> mm -> Prop) :
  view own A s sp l m -> (p, a) ∈ l -> (forall nx pv, Q (object a nx pv) m) -> wp (in_space s (region p)) Q m.
Proof.
  intros Hv Hin HQ. destruct (list_ok_in _ _ _ _ (vw_list _ _ _ _ _ _ Hv) Hin) as (nx & pv & Ho).
  eapply read_space_run; [apply Hv| |apply HQ]. eapply region_run; [exact Ho|done].
Qed.

Lemma malloc_run n m (Q : ptr Z -> mm -> Prop) :
  (forall h', kmalloc n (heap m) = (None, h') -> live h' = live (heap m) -> Q NULL (set_heap h' m)) ->
  (forall p h', kmalloc n (heap m) = (Some p, h') -> p ∉ live (heap m) -> live h' = {[p]} ∪ live (heap m) -> Q (& p) (set_heap h' m)) ->
  wp (malloc n) Q m.
Proof.
  intros Hn Hs. unfold malloc, in_heap. apply wp_pcall. destruct (kmalloc n (heap m)) as [[p|] h'] eqn:E; cbn.
  - destruct (kmalloc_live _ _ _ _ E) as [H1 H2]. by apply Hs.
  - apply Hn; [done|]. by apply (kmalloc_full n).
Qed.

(** *** Destroying a region *)
Lemma free_region_run own A s sp l m p (Q : unit -> mm -> Prop) :
  view own A s sp l m -> p ∉ l.*1 -> p ∈ dom (region_at sp) ->
  (forall sp' m', view own A s sp' l m' -> local s own A m sp own A m' sp' -> Q tt m') -> wp (free_region s p) Q m.
Proof.
  intros Hv Hp Hd HQ. unfold free_region. wp_step. eapply in_space_run; [apply Hv|]. wp_go. unfold free, in_heap. apply wp_pcall. cbn.
  destruct Hv as [H1 H2 H3 H4 H5]. assert (p ∈ live (heap m)) as Hlive by set_solver.
  pose proof (kfree_live p _ Hlive) as Hfree. apply (HQ (delete_region p sp)).
  - split; cbn; try done; [apply lookup_insert_eq|by apply list_ok_delete|]. rewrite Hfree, dom_delete. set_solver.
  - split; cbn; try done; rewrite dom_delete_L; [set_solver|]. rewrite Hfree. apply leibniz_equiv. intros x.
    destruct (decide (x ∈ dom (region_at sp))), (decide (x = p)); set_solver.
Qed.

Lemma destroy_region_run own A s sp l1 p a l2 m x :
  view own A s sp (l1 ++ (p, a) :: l2) m -> areas_ok (l1 ++ (p, a) :: l2) -> lo a <= x < hi a ->
  wp (vmm_destroy_region (& s) x) (fun rc m' => rc = VMM_SUCCESS /\ exists own' sp',
    view own' (with_maps (maps_cut (pml4_virt sp) (lo a) (hi a) (a_maps A)) A) s sp' (l1 ++ l2) m' /\
    local s own A m sp own' (with_maps (maps_cut (pml4_virt sp) (lo a) (hi a) (a_maps A)) A) m' sp') m.
Proof.
  intros Hv Hok Hx. unfold vmm_destroy_region. wp_step. eapply find_view; [exact Hv|].
  rewrite (area_at_mid l1 (p, a) l2) by done. cbn [fst fmap option_fmap option_map].
  assert ((p, a) ∈ l1 ++ (p, a) :: l2) as Hin by set_solver.
  wp_step. eapply region_view; [exact Hv|exact Hin|]. intros nx pv. cbn [object start_addr end_addr].
  assert (area_wf a) as [Hr _] by (destruct Hok as [Hwf _]; rewrite Forall_forall in Hwf; apply (Hwf _ Hin)).
  wp_step. eapply wp_weaken; [apply (unmap_pages_run own A s sp); [apply Hv|apply Hv|apply Hv|exact Hr]|].
  intros _ m1 (own1 & Hm1). destruct (local_cut _ _ _ _ _ _ _ _ _ _ Hv Hm1) as [Hv1 Hl1].
  wp_step. eapply relist_run; [exact Hv1|exact (unlink_region_run sp l1 p a l2 (vw_list _ _ _ _ _ _ Hv))|]. intros sp2 m2 Hv2 Hl2 Hd _.
  wp_step. eapply free_region_run; [exact Hv2| | |].
  - pose proof (lk_nodup _ _ (vw_list _ _ _ _ _ _ Hv)) as Hnd. rewrite !fmap_app in *. cbn in Hnd.
    apply NoDup_app in Hnd as (_ & Hd1 & [Hd2 _]%NoDup_cons). intros [Hin1|Hin2]%elem_of_app; [|done].
    apply (Hd1 p Hin1). by left.
  - rewrite Hd. apply elem_of_dom. apply (seg_dom _ _ _ _ _ (lk_seg _ _ (vw_list _ _ _ _ _ _ Hv))). rewrite fmap_app. apply elem_of_app. right. by left.
  - intros sp3 m3 Hv3 Hl3. apply wp_pret. split; [done|]. exists own1, sp3. split; [done|].
    eapply local_trans; [exact Hl1|]. eapply local_trans; [exact Hl2|exact Hl3].
Qed.

Lemma destroy_region_none own A s sp l m x :
  view own A s sp l m -> area_at l x = None -> wp (vmm_destroy_region (& s) x) (fun rc m' => rc = VMM_ERROR_NOT_FOUND /\ m' = m) m.
Proof. intros Hv Hx. unfold vmm_destroy_region. wp_step. eapply find_view; [exact Hv|]. rewrite Hx. by apply wp_pret. Qed.

(** *** Splitting a region *)
Lemma local_heap own A s sp l m h' :
  view own A s sp l m -> live h' = live (heap m) -> view own A s sp l (set_heap h' m) /\ local s own A m sp own A (set_heap h' m) sp.
Proof.
  intros Hv Hh. pose proof (local_refl _ _ _ _ _ _ Hv) as [_ _ _ _ _ F6 _ _ _ F9 F10]. destruct Hv.
  split; [split; cbn; try done; by rewrite Hh|]. split; try done; cbn; by rewrite Hh.
Qed.

(** The heap has no room for a region object. *)
Definition no_room (m : mm) : Prop := exists h', kmalloc sizeof_region (heap m) = (None, h').

(** A new region object [p] in the list of the space. *)
Lemma local_new own A s sp l m p h' sp' l' :
  view own A s sp l m -> p ∉ live (heap m) -> live h' = {[p]} ∪ live (heap m) -> list_ok sp' l' ->
  dom (region_at sp') = {[p]} ∪ dom (region_at sp) -> same_space sp sp' ->
  let m' := set_spaces (<[s := sp']> (space_at m)) (set_heap h' m) in
  view own A s sp' l' m' /\ local s own A m sp own A m' sp'.
Proof.
  intros Hv Hp Hlive Hl Hd Hsame m'. pose proof (proj1 Hsame) as Hpm. pose proof (local_refl _ _ _ _ _ _ Hv) as [_ _ _ _ _ F6 _ _ _ F9 F10]. destruct Hv as [H1 H2 H3 H4 H5].
  split; [split; cbn; try done; [apply lookup_insert_eq|congruence|rewrite Hlive, Hd; set_solver]|].
  split; cbn; try done; [rewrite Hd; set_solver|]. rewrite Hlive, Hd. apply leibniz_equiv. intros x.
  destruct (decide (x ∈ dom (region_at sp))), (decide (x = p)); set_solver.
Qed.

Lemma split_region_run own A s sp l1 p a l2 m z :
  view own A s sp (l1 ++ (p, a) :: l2) m -> areas_ok (l1 ++ (p, a) :: l2) -> aligned z -> lo a < z < hi a ->
  wp (vmm_split_region (& s) z) (fun rc m' => exists sp', local s own A m sp own A m' sp' /\
    ((rc = VMM_SUCCESS /\ exists u, view own A s sp' (l1 ++ (p, with_hi z a) :: (u, with_lo z a) :: l2) m') \/
     (rc = VMM_ERROR_NOMEM /\ no_room m /\ view own A s sp' (l1 ++ (p, a) :: l2) m'))) m.
Proof.
  intros Hv Hok Hz Hr. unfold vmm_split_region. wp_step. eapply find_view; [exact Hv|].
  rewrite (area_at_mid l1 (p, a) l2) by (done || cbn; lia). cbn [fst fmap option_fmap option_map].
  assert ((p, a) ∈ l1 ++ (p, a) :: l2) as Hin by set_solver.
  wp_step. eapply region_view; [exact Hv|exact Hin|]. intros nx pv. cbn [object start_addr end_addr].
  rewrite (proj2 (Z.leb_gt _ _)), (proj2 (Z.leb_gt _ _)) by lia. cbn [orb].
  assert (area_wf a) as [(_ & _ & Hr0 & Hr1) _] by by apply (areas_mid l1 p a l2).
  rewrite align_up_id by (lia || done). wp_step. apply malloc_run.
  - intros h' E Hh. apply wp_pret. exists sp. destruct (local_heap _ _ _ _ _ _ h' Hv Hh) as [Hv' Hl']. split; [done|].
    right. split; [done|]. split; [by exists h'|done].
  - intros u h' E Hu Hh. wp_step. eapply in_space_run; [apply Hv|]. pose proof (vw_live _ _ _ _ _ _ Hv) as Hlive.
    eapply wp_weaken; [apply (split_at_run sp l1 p a l2 u z); [apply Hv|set_solver]|]. intros [] sp' (Hl' & Hd' & Hsame).
    apply wp_pret. destruct (local_new _ _ _ _ _ _ u h' sp' _ Hv Hu Hh Hl' Hd' Hsame) as [Hv' Hloc].
    exists sp'. split; [done|]. left. split; [done|]. by exists u.
Qed.

(** An assignment to one region. *)
Lemma set_area_run own A s sp l1 p a l2 m f a' (Q : unit -> mm -> Prop) :
  view own A s sp (l1 ++ (p, a) :: l2) m -> (forall n pv, f (object a n pv) = object a' n pv) ->
  (forall sp' m', view own A s sp' (l1 ++ (p, a') :: l2) m' -> local s own A m sp own A m' sp' -> heap m' = heap m -> Q tt m') ->
  wp (in_space s (update_region p f)) Q m.
Proof.
  intros Hv Hf HQ. eapply relist_run; [exact Hv|exact (update_area_run sp l1 p a l2 f a' (vw_list _ _ _ _ _ _ Hv) Hf)|].
  intros sp' m' Hv' Hl' _ Hh. eauto.
Qed.
End ops.

Abbreviation local := (local_upto same_space).

(** * Unmapping a range of addresses *)

Lemma maps_cut_append r a c e m : a <= c <= e -> maps_cut r c e (maps_cut r a c m) = maps_cut r a e m.
Proof.
  intros Hc. apply map_eq. intros [r' k]. rewrite !maps_cut_lookup. unfold in_range. repeat case_decide; try done; exfalso; lia.
Qed.

Lemma maps_cut_sub r a e x y m : a <= x -> y <= e -> maps_cut r x y (maps_cut r a e m) = maps_cut r a e m.
Proof.
  intros Hx Hy. apply map_eq. intros [r' k]. rewrite !maps_cut_lookup. unfold in_range. repeat case_decide; try done; exfalso; lia.
Qed.

Lemma maps_cut_hole r a x m :
  aligned x -> 0 <= x < 2 ^ 47 -> a <= x -> m !! (r, pte_index x) = None -> maps_cut r a (x + 4096) m = maps_cut r a x m.
Proof.
  intros Hx Hr Ha Hm. rewrite <- maps_cut_step by done. apply delete_id. rewrite maps_cut_lookup. by case_decide.
Qed.

(** Every mapped page of the space lies in one of its regions. *)
Definition mapped_in (A : vm_abs) (r : Z) (l : list (Z * area)) : Prop :=
  forall k e, a_maps A !! (r, k) = Some e -> attr_at l (k * 4096) <> None.

Definition cut_pages (r a b : Z) (A : vm_abs) : vm_abs := with_maps (maps_cut r a b (a_maps A)) A.

Section unmap.
Context {Heap : Type} {HK : KernelHeap Heap} {HL : KernelHeapLaws Heap}.
Abbreviation mm := (@mm_t Heap).

(** One region of the loop: [mid] is what is left of it. *)
Lemma munmap_part_run own A s sp l1 p a l2 m c e r :
  view own A s sp (l1 ++ (p, a) :: l2) m -> areas_ok (l1 ++ (p, a) :: l2) -> start_addr r = lo a -> end_addr r = hi a ->
  aligned c -> aligned e -> lo a <= c -> c < e -> e <= hi a -> (lo a < c -> e < hi a -> ~ no_room m) ->
  wp (munmap_part s p r c c e) (fun _ m' => exists own' sp' mid,
    view own' (cut_pages (pml4_virt sp) c e A) s sp' (l1 ++ mid ++ l2) m' /\
    local s own A m sp own' (cut_pages (pml4_virt sp) c e A) m' sp' /\ areas_ok (l1 ++ mid ++ l2) /\
    forall x, attr_at mid x = if decide (c <= x < e) then None else attr_at [(p, a)] x) m.
Proof.
  intros Hv Hok Hs He Hc Hea Hlo Hce Hhi Hroom. unfold munmap_part. rewrite Hs, He.
  pose proof (areas_mid _ _ _ _ Hok) as Hwf. destruct Hwf as [(W1 & W2 & W3 & W4) W5].
  assert (user_range c e) as Hr by (unfold user_range; intuition lia).
  wp_step. eapply wp_weaken; [apply (unmap_pages_run own A s sp c e); [apply Hv|apply Hv|apply Hv|exact Hr]|].
  intros _ m1 (own1 & Hm1). pose proof (vm_became_space _ _ _ _ _ _ Hm1) as Hsp.
  assert (heap m1 = heap m) as Hheap by (destruct Hm1 as (_ & -> & _); done).
  destruct (local_cut _ _ _ _ _ _ _ _ _ _ Hv Hm1) as [Hv1 Hl1]. fold (cut_pages (pml4_virt sp) c e A) in *.
  destruct (Z.eqb_spec c (lo a)) as [->|Hcl]; [destruct (Z.eqb_spec e (hi a)) as [->|Heh]|destruct (Z.eqb_spec e (hi a)) as [->|Heh]];
    cbn [andb].
  - wp_step. eapply wp_weaken; [apply (destroy_region_run _ _ _ _ l1 p a l2 _ (lo a) Hv1 Hok); lia|].
    intros _ m2 (_ & own2 & sp2 & Hv2 & Hl2). apply wp_pret. exists own2, sp2, [].
    cbn [a_maps with_maps cut_pages] in *. rewrite maps_cut_sub in Hv2, Hl2 by lia.
    split; [exact Hv2|]. split; [exact (local_trans _ _ _ _ _ _ _ _ _ _ _ _ _ Hl1 Hl2)|]. split.
    + apply (areas_replace l1 p a l2 []); [done|apply areas_nil|]. intros n []%elem_of_nil.
    + intros x. rewrite attr_one. by repeat case_decide.
  - eapply set_area_run with (a' := with_lo e a); [exact Hv1|done|]. intros sp2 m2 Hv2 Hl2 _.
    exists own1, sp2, [(p, with_lo e a)]. split; [exact Hv2|]. split; [exact (local_trans _ _ _ _ _ _ _ _ _ _ _ _ _ Hl1 Hl2)|]. split.
    + apply (areas_replace l1 p a l2 [(p, with_lo e a)]); [done|apply areas_one, area_wf_lo; [by apply (areas_mid l1 p a l2)|done|lia]|].
      intros n ->%list_elem_of_singleton. cbn. lia.
    + intros x. rewrite !attr_one. cbn. repeat case_decide; try done; lia.
  - eapply set_area_run with (a' := with_hi c a); [exact Hv1|done|]. intros sp2 m2 Hv2 Hl2 _.
    exists own1, sp2, [(p, with_hi c a)]. split; [exact Hv2|]. split; [exact (local_trans _ _ _ _ _ _ _ _ _ _ _ _ _ Hl1 Hl2)|]. split.
    + apply (areas_replace l1 p a l2 [(p, with_hi c a)]); [done|apply areas_one, area_wf_hi; [by apply (areas_mid l1 p a l2)|done|lia]|].
      intros n ->%list_elem_of_singleton. cbn. lia.
    + intros x. rewrite !attr_one. cbn. repeat case_decide; try done; lia.
  - wp_step. eapply wp_weaken; [apply (split_region_run _ _ _ _ l1 p a l2 _ e Hv1 Hok); [done|lia]|].
    intros rc m2 (sp2 & Hl2 & [(_ & u & Hv2)|(_ & Hno & _)]).
    2:{ exfalso. apply Hroom; [lia|lia|]. destruct Hno as [h' Hno]. exists h'. by rewrite <- Hheap. }
    eapply set_area_run with (a' := with_hi c a); [exact Hv2|done|]. intros sp3 m3 Hv3 Hl3 _.
    exists own1, sp3, [(p, with_hi c a); (u, with_lo e a)]. split; [exact Hv3|]. split.
    { eapply local_trans; [exact Hl1|]. exact (local_trans _ _ _ _ _ _ _ _ _ _ _ _ _ Hl2 Hl3). }
    pose proof (areas_mid _ _ _ _ Hok) as Hwf. split.
    + apply (areas_replace l1 p a l2 [_; _]); [done| |].
      * apply areas_two; [apply area_wf_hi; [done..|lia]|apply area_wf_lo; [done..|lia]|cbn; lia].
      * intros n [->|[->|[]%elem_of_nil]%elem_of_cons]%elem_of_cons; cbn; lia.
    + intros x. rewrite attr_two, attr_one. cbn. repeat case_decide; try done; lia.
Qed.

Lemma attr_covered l x : attr_at l x <> None -> exists n, n ∈ l /\ lo n.2 <= x < hi n.2.
Proof.
  unfold attr_at. destruct (area_at l x) as [n|] eqn:E; [|done]. intros _. exists n. by apply area_at_in.
Qed.

Lemma munmap_from_run n : forall own A s sp l m first c last own1 sp1 l1 m1,
  mapped_in A (pml4_virt sp) l -> user_range first last -> aligned c -> first <= c <= last ->
  view own1 (cut_pages (pml4_virt sp) first c A) s sp1 l1 m1 ->
  local s own A m sp own1 (cut_pages (pml4_virt sp) first c A) m1 sp1 ->
  areas_ok l1 -> (forall x, attr_at l1 x = if decide (first <= x < c) then None else attr_at l x) ->
  ~ no_room m -> (c = first -> heap m1 = heap m) -> last - c <= Z.of_nat n * 4096 ->
  wp (munmap_from n s c last) (fun rc m' => rc = VMM_SUCCESS /\ exists own' sp' l',
    view own' (cut_pages (pml4_virt sp) first last A) s sp' l' m' /\
    local s own A m sp own' (cut_pages (pml4_virt sp) first last A) m' sp' /\ areas_ok l' /\
    forall x, attr_at l' x = if decide (first <= x < last) then None else attr_at l x) m1.
Proof.
  induction n as [|n IH]; intros own A s sp l m first c last own1 sp1 l1 m1 Hmap Hr Hc Hcr Hv Hl Hok Hattr Hroom Hheap Hn;
    cbn [munmap_from]; destruct (Z.ltb_spec c last) as [Hlt|Hge]; try lia;
    try (replace c with last in * by lia; apply wp_pret; split; [done|]; exists own1, sp1, l1; done).
  pose proof (lc_pml4 _ _ _ _ _ _ _ _ _ _ Hl) as Hpm. pose proof Hr as (R1 & R2 & R3 & R4).
  wp_step. eapply find_view; [exact Hv|]. destruct (area_at l1 c) as [[p a]|] eqn:Ea; cbn [fmap option_fmap option_map fst].
  - apply area_at_in in Ea as [Hin Hx]. cbn [snd] in Hx. apply list_elem_of_split in Hin as (k1 & k2 & ->).
    pose proof (areas_mid _ _ _ _ Hok) as [(W1 & W2 & W3 & W4) W5].
    wp_step. eapply region_view; [exact Hv|by apply elem_of_app; right; left|]. intros nx pv.
    cbn [object start_addr end_addr]. set (r := object a nx pv).
    assert ((if lo a <? c then c else lo a) = c) as -> by (destruct (Z.ltb_spec (lo a) c); lia).
    set (e := if last <? hi a then last else hi a).
    assert (aligned e /\ c < e /\ e <= hi a /\ e <= last) as (He & Hce & Heh & Hel)
      by (unfold e; destruct (Z.ltb_spec last (hi a)); intuition lia).
    assert (lo a < c -> c = first) as Hfirst.
    { intros Hlo. destruct (Z.eq_dec c first) as [|Hne]; [done|]. exfalso. specialize (Hattr (c - 1)).
      rewrite decide_True, attr_none in Hattr by lia. rewrite (area_at_mid k1 (p, a) k2) in Hattr; [done|done|cbn; lia]. }
    wp_step. eapply wp_weaken.
    { apply (munmap_part_run _ _ _ _ k1 p a k2 m1 c e r Hv Hok); try done; try lia.
      intros Hlo _. specialize (Hheap (Hfirst Hlo)). intros [h' Hno]. apply Hroom. exists h'. by rewrite <- Hheap. }
    intros _ m2 (own2 & sp2 & mid & Hv2 & Hl2 & Hok2 & Hmid). rewrite Hpm in Hv2, Hl2.
    assert (cut_pages (pml4_virt sp) c e (cut_pages (pml4_virt sp) first c A) = cut_pages (pml4_virt sp) first e A) as Hcut.
    { unfold cut_pages. cbn. by rewrite maps_cut_append by lia. }
    rewrite Hcut in Hv2, Hl2. pose proof (aligned_lt c e Hc He Hce).
    eapply (IH own A s sp l m first e last own2 sp2 (k1 ++ mid ++ k2)); try done; [lia|by eapply local_trans| | |lia].
    + intros x. rewrite (attr_replace k1 p a k2 mid c e None Hok) by (done || lia). rewrite Hattr.
      repeat case_decide; try done; lia.
    + intros ->. lia.
  - assert (last - (c + 4096) <= Z.of_nat n * 4096) as Hn' by lia. pose proof (aligned_lt c last Hc R2 Hlt).
    change PAGE_SIZE with 4096. rewrite u64_id by lia.
    assert (a_maps A !! (pml4_virt sp, pte_index c) = None) as Hnone.
    { destruct (a_maps A !! (pml4_virt sp, pte_index c)) as [e|] eqn:Ee; [|done]. exfalso. apply (Hmap _ _ Ee).
      rewrite page_index by lia. pose proof (Z.div_mod c 4096). unfold aligned in Hc. replace (c / 4096 * 4096) with c by lia.
      apply attr_none in Ea. rewrite Hattr, decide_False in Ea by lia. done. }
    assert (cut_pages (pml4_virt sp) first (c + 4096) A = cut_pages (pml4_virt sp) first c A) as Hcut.
    { unfold cut_pages. by rewrite maps_cut_hole by (done || lia). }
    eapply (IH own A s sp l m first (c + 4096) last own1 sp1 l1); rewrite ?Hcut; try done; [by apply aligned_add|lia| |lia].
    intros x. apply attr_none in Ea. destruct (decide (c <= x < c + 4096)) as [Hx|Hx].
    + rewrite (attr_page l1 c x), decide_True by (done || lia). done.
    + rewrite Hattr. repeat case_decide; try done; lia.
Qed.

Lemma page_steps_enough first last : first <= last -> last - first <= Z.of_nat (page_steps first last) * 4096.
Proof.
  intros Hle. unfold page_steps. change PAGE_SIZE with 4096. pose proof (Z.div_mod (last - first + 4096 - 1) 4096).
  pose proof (Z.mod_pos_bound (last - first + 4096 - 1) 4096). rewrite Z2Nat.id by (apply Z.div_pos; lia). lia.
Qed.

Lemma munmap_run own A s sp l m addr size :
  view own A s sp l m -> areas_ok l -> mapped_in A (pml4_virt sp) l -> 0 < addr -> 0 < size -> addr + size <= 2 ^ 47 ->
  ~ no_room m ->
  let first := vmm_align_down addr PAGE_SIZE in let last := vmm_align_up (addr + size) PAGE_SIZE in
  wp (vmm_munmap (& s) addr size) (fun rc m' => rc = VMM_SUCCESS /\ exists own' sp' l',
    view own' (cut_pages (pml4_virt sp) first last A) s sp' l' m' /\
    local s own A m sp own' (cut_pages (pml4_virt sp) first last A) m' sp' /\ areas_ok l' /\
    forall x, attr_at l' x = if decide (first <= x < last) then None else attr_at l x) m.
Proof.
  intros Hv Hok Hmap Ha Hs Hle Hroom first last. unfold vmm_munmap.
  rewrite (proj2 (Z.eqb_neq addr 0)), (proj2 (Z.eqb_neq size 0)) by lia. cbn [orb]. rewrite u64_id by lia. fold first last.
  assert (aligned first /\ first <= addr /\ 0 <= first) as (F1 & F2 & F3).
  { split; [apply align_down_aligned|]. unfold first. rewrite align_down_eq. pose proof (Z.mod_pos_bound addr 4096).
    pose proof (Z.mod_le addr 4096). lia. }
  pose proof (align_up_range (addr + size) ltac:(lia)) as Hup. fold last in Hup.
  assert (aligned last) as L1 by (apply align_up_aligned; lia).
  assert (user_range first last) as Hr.
  { split; [done|]. split; [done|]. split; [lia|]. pose proof (aligned_lt (2 ^ 47) last eq_refl L1). lia. }
  eapply (munmap_from_run _ own A s sp l m first first last own sp l m); try done.
  - lia.
  - unfold cut_pages. rewrite maps_cut_empty. by replace (with_maps (a_maps A) A) with A by by destruct A.
  - unfold cut_pages. rewrite maps_cut_empty. replace (with_maps (a_maps A) A) with A by by destruct A. by eapply local_refl.
  - intros x. rewrite decide_False by lia. done.
  - apply page_steps_enough. lia.
Qed.
End unmap.

(** * Mapping a range of addresses *)

Section map.
Context {Heap : Type} {HK : KernelHeap Heap} {HL : KernelHeapLaws Heap}.
Abbreviation mm := (@mm_t Heap).

(** ** Creating a region *)
Lemma create_region_run own A s sp l m start size fl ty :
  view own A s sp l m -> areas_ok l -> 0 <= start -> 0 < size -> start + size <= 2 ^ 47 ->
  let a := {| lo := vmm_align_down start PAGE_SIZE;
              hi := vmm_align_up (vmm_align_down start PAGE_SIZE + size) PAGE_SIZE; fl := fl; ty := ty |} in
  wp (vmm_create_region (& s) start size fl ty) (fun r m' => exists sp',
    local s own A m sp own A m' sp' /\
    match r with
    | NULL => (attr_at l (lo a) <> None \/ no_room m) /\ view own A s sp' l m' /\ sp' = sp
    | Some p => attr_at l (lo a) = None /\ exists l1 l2, l = l1 ++ l2 /\ view own A s sp' (l1 ++ (p, a) :: l2) m' /\
        Forall (fun n => lo n.2 <= lo a) l1 /\ Forall (fun n => lo a <= lo n.2) l2 /\ same_space sp sp'
    end) m.
Proof.
  intros Hv Hok Hst Hsz Hle a. unfold vmm_create_region. rewrite (proj2 (Z.eqb_neq size 0)) by lia.
  assert (0 <= lo a <= start) as Hlo.
  { cbn. rewrite align_down_eq. pose proof (Z.mod_pos_bound start 4096). pose proof (Z.mod_le start 4096). lia. }
  rewrite (u64_id (_ + size)) by (cbn in Hlo; lia). change (vmm_align_down start PAGE_SIZE) with (lo a).
  wp_step. eapply find_view; [exact Hv|]. destruct (area_at l (lo a)) as [[q b]|] eqn:Ea; cbn [fst fmap option_fmap option_map].
  { apply area_at_in in Ea as Hin. destruct Hin as [Hin Hx]. cbn [snd] in Hx. wp_step. wp_step.
    eapply region_view; [exact Hv|exact Hin|]. intros nx pv. cbn [object end_addr].
    rewrite (proj2 (Z.ltb_lt _ _)) by lia. apply wp_pret. apply wp_pret. exists sp. split; [by eapply local_refl|].
    split; [left; unfold attr_at; by rewrite Ea|done]. }
  wp_step. apply wp_pret. wp_step. apply malloc_run.
  - intros h' E Hh. apply wp_pret. destruct (local_heap _ _ _ _ _ _ h' Hv Hh) as [Hv' Hl']. exists sp. split; [done|].
    split; [right; by exists h'|done].
  - intros p h' E Hp Hh. pose proof Hv as [V1 V2 V3 V4 V5].
    assert (p ∉ dom (region_at sp)) as Hpd by set_solver.
    assert (p ∉ l.*1) as Hpl.
    { intros Hin. apply Hpd, elem_of_dom. apply (seg_dom _ _ _ _ _ (lk_seg _ _ V3) Hin). }
    set (sp1 := set_region_at (<[p := object a NULL NULL]> (region_at sp)) sp).
    assert (list_ok sp1 l) as Hl1 by by apply list_ok_insert.
    destruct (local_new _ _ _ _ _ _ p h' sp1 l Hv Hp Hh Hl1 (dom_insert_L _ _ _) (same_space_refl _)) as [Hv1 Hloc1].
    wp_step. eapply in_space_run; [exact V2|]. wp_go.
    eapply in_space_run; [apply Hv1|]. eapply wp_weaken.
    { apply (insert_region_run sp1 l p a Hl1 (areas_below _ Hok) Hpl). apply lookup_insert_eq. }
    intros [] sp2 (l1 & l2 & El & Hl2 & F1 & F2 & Hd & Hsame). apply wp_pret.
    destruct (local_space _ _ _ _ _ _ _ _ Hv1 Hl2 Hd Hsame) as [Hv2 Hloc2].
    exists sp2. split; [exact (local_trans _ _ _ _ _ _ _ _ _ _ _ _ _ Hloc1 Hloc2)|]. split; [by apply attr_none|].
    exists l1, l2. split; [done|]. split; [exact Hv2|]. done.
Qed.

(** ** Looking for an address *)
Definition range_free (l : list (Z * area)) (a b : Z) : Prop := forall x, a <= x < b -> attr_at l x = None.

Lemma range_taken_run own A s sp l m a b :
  view own A s sp l m -> areas_ok l -> user_range a b ->
  wp (range_taken s a b) (fun r m' => m' = m /\ (r = None <-> range_free l a b)) m.
Proof.
  intros Hv Hok Hr. unfold range_taken.
  eapply (for_pages_run (fun x m' => m' = m /\ range_free l a x)).
  - by apply user_range_div.
  - apply Hr.
  - destruct Hr as (_ & _ & _ & Hb). lia.
  - split; [done|]. intros x Hx. lia.
  - intros x m' Hd Hx Hlt [-> Hfree]. destruct (user_range_step _ _ _ Hr Hd Hx Hlt) as [Hal Hu].
    wp_step. eapply find_view; [exact Hv|]. apply wp_pret. destruct (area_at l x) as [n|] eqn:Ex; cbn.
    + split; [done|]. split; [done|]. intros Hall. specialize (Hall x ltac:(lia)). unfold attr_at in Hall. by rewrite Ex in Hall.
    + split; [done|]. intros y Hy. destruct (Z.lt_ge_cases y x); [apply Hfree; lia|].
      apply (attr_page l x); [done|done|lia|]. unfold attr_at. by rewrite Ex.
  - intros m' [-> Hfree]. done.
Qed.

Lemma mmap_search_run n : forall own A s sp l m from size,
  view own A s sp l m -> areas_ok l -> aligned from -> aligned size -> 0 <= from <= 2 ^ 47 -> 0 < size <= 2 ^ 47 ->
  mmap_limit - from <= Z.of_nat n * 4096 ->
  wp (mmap_search n s from size) (fun st m' => m' = m /\ aligned st /\ from <= st <= 2 ^ 47 /\
    (mmap_limit <= st + size \/ range_free l st (st + size)) /\
    forall y, aligned y -> from <= y < st -> ~ range_free l y (y + size)) m.
Proof.
  induction n as [|n IH]; intros own A s sp l m from size Hv Hok Hf Hs Hfr Hsz Hn; cbn [mmap_search];
    rewrite (u64_id (from + size)) by lia; destruct (Z.ltb_spec (from + size) mmap_limit) as [Hlt|Hge]; try lia;
    try (apply wp_pret; split; [done|]; split; [done|]; split; [lia|]; split; [by left|]; intros y _ Hy; lia).
  assert (mmap_limit + 4096 < 2 ^ 47) as Hlim by done.
  wp_step. eapply wp_weaken; [apply (range_taken_run own A s sp l m from (from + size) Hv Hok)|].
  { split; [done|]. split; [by apply aligned_add|]. lia. }
  intros [u|] m' [-> Hiff].
  - change PAGE_SIZE with 4096. rewrite u64_id by lia.
    eapply wp_weaken; [apply (IH own A s sp l m (from + 4096) size Hv Hok); [by apply aligned_add|done|lia|done|lia]|].
    intros st m' (-> & Hst & Hle & Hres & Hall). split; [done|]. split; [done|]. split; [lia|]. split; [done|].
    intros y Hy Hyr. destruct (Z.eq_dec y from) as [->|Hne].
    + intros Hfree. apply Hiff in Hfree. done.
    + apply Hall; [done|]. pose proof (aligned_lt from y Hf Hy). lia.
  - apply wp_pret. split; [done|]. split; [done|]. split; [lia|]. split; [right; by apply Hiff|]. intros y _ Hy. lia.
Qed.

(** Where a mapping goes: at the hint when its range is free, else at the
    first free range from [mmap_start] on; [None] when neither will do. *)
Definition placed (l : list (Z * area)) (mmap_from addr size fl : Z) (r : option Z) : Prop :=
  match r with
  | Some st => aligned st /\ 0 < st /\ st + size <= 2 ^ 47 /\ range_free l st (st + size) /\
      (addr <> 0 -> range_free l (vmm_align_down addr PAGE_SIZE) (vmm_align_down addr PAGE_SIZE + size) ->
       st = vmm_align_down addr PAGE_SIZE)
  | None =>
      (addr <> 0 /\ pte_has fl VMM_MMAP_FIXED = true /\
         ~ range_free l (vmm_align_down addr PAGE_SIZE) (vmm_align_down addr PAGE_SIZE + size)) \/
      forall y, aligned y -> mmap_from <= y -> y + size < mmap_limit -> ~ range_free l y (y + size)
  end.

Lemma mmap_any_run own A s sp l m addr size fl :
  view own A s sp l m -> areas_ok l -> aligned (mmap_start sp) -> 0 < mmap_start sp <= 2 ^ 47 -> aligned size -> 0 < size <= 2 ^ 46 ->
  (addr <> 0 -> ~ range_free l (vmm_align_down addr PAGE_SIZE) (vmm_align_down addr PAGE_SIZE + size)) ->
  wp (from <- in_space s (pget mmap_start);;
      start <- mmap_search (page_steps from mmap_limit) s from size;;
      if mmap_limit <=? u64 (start + size) then pret None else pret (Some start))
    (fun r m' => m' = m /\ placed l (mmap_start sp) addr size fl r) m.
Proof.
  intros Hv Hok Hal Hm Hs Hsz Hno. wp_step. eapply read_space_run; [apply Hv|by apply wp_pget|].
  assert (mmap_limit < 2 ^ 47) as Hlim by done.
  wp_step. eapply wp_weaken; [apply (mmap_search_run _ own A s sp l m _ size Hv Hok Hal Hs); [lia|lia|]|].
  { destruct (Z.le_gt_cases (mmap_start sp) mmap_limit) as [Hle|Hgt]; [by apply page_steps_enough|lia]. }
  intros st m' (-> & Hst & Hle & Hres & Hall). rewrite u64_id by lia. destruct (Z.leb_spec mmap_limit (st + size)) as [Hge|Hlt].
  - apply wp_pret. split; [done|]. right. intros y Hy Hfrom Hyl. destruct (Z.lt_ge_cases y st); [by apply Hall|lia].
  - destruct Hres as [Hres|Hres]; [lia|]. apply wp_pret. split; [done|]. split; [done|]. split; [lia|]. split; [lia|]. split; [done|].
    intros Ha Hf. by destruct (Hno Ha).
Qed.

(** The search of a mapping starts at a page, or is not needed. *)
Definition searchable (l : list (Z * area)) (mmap_from addr size fl : Z) : Prop :=
  aligned mmap_from /\ 0 < mmap_from <= 2 ^ 47 \/
  addr <> 0 /\ (pte_has fl VMM_MMAP_FIXED = true \/
    range_free l (vmm_align_down addr PAGE_SIZE) (vmm_align_down addr PAGE_SIZE + size)).

Lemma mmap_start_run own A s sp l m addr size fl :
  view own A s sp l m -> areas_ok l -> searchable l (mmap_start sp) addr size fl -> aligned size -> 0 < size <= 2 ^ 46 ->
  (addr = 0 \/ 4096 <= addr /\ addr + size <= 2 ^ 47) ->
  wp (mmap_start_addr s addr size fl) (fun r m' => m' = m /\ placed l (mmap_start sp) addr size fl r) m.
Proof.
  intros Hv Hok Hal Hs Hsz Ha. unfold mmap_start_addr. destruct (Z.eqb_spec addr 0) as [->|Hne].
  { destruct Hal as [[Hal Hm]|[? _]]; [|done]. wp_step. apply wp_pret. by eapply mmap_any_run. }
  unfold mmap_hint. wp_step. wp_step. set (st := vmm_align_down addr PAGE_SIZE).
  assert (4096 <= st <= addr) as Hst.
  { unfold st. rewrite align_down_eq. pose proof (Z.mod_pos_bound addr 4096). split; [|lia].
    pose proof (Z.div_mod addr 4096). assert (1 <= addr / 4096) by (apply Z.div_le_lower_bound; lia). lia. }
  assert (aligned st) as Hsa by apply align_down_aligned. rewrite u64_id by lia.
  eapply wp_weaken; [apply (range_taken_run own A s sp l m st (st + size) Hv Hok)|].
  { split; [done|]. split; [by apply aligned_add|]. lia. }
  intros [u|] m' [-> Hiff].
  - assert (~ range_free l st (st + size)) as Hno by (intros Hf; apply Hiff in Hf; done).
    destruct (pte_has fl VMM_MMAP_FIXED) eqn:Efix; cbn [negb]; apply wp_pret.
    + apply wp_pret. split; [done|]. left. done.
    + rewrite Z.eqb_refl. destruct Hal as [[Hal Hm]|[_ [?|?]]]; [|congruence|done]. by eapply mmap_any_run.
  - apply wp_pret. rewrite (proj2 (Z.eqb_neq st 0)) by lia. apply wp_pret. split; [done|].
    split; [done|]. split; [lia|]. split; [lia|]. split; [by apply Hiff|done].
Qed.

(** ** A mapping *)
Lemma filled_cut r a x b fl A A' :
  filled r a x fl A A' -> (forall k, in_range a b k -> a_maps A !! (r, k) = None) -> x <= b -> cut_pages r a b A' = A.
Proof.
  intros (H1 & H2 & H3 & _ & H5 & _) Hnone Hx. destruct A as [am ar ah ap], A' as [am' ar' ah' ap']. cbn in *. subst.
  unfold cut_pages, with_maps. cbn. f_equal. apply map_eq. intros [r' k]. rewrite maps_cut_lookup. case_decide as Hd.
  - destruct Hd as [-> Hd]. by rewrite Hnone.
  - apply H5. intros [-> Hin]. apply Hd. split; [done|]. unfold in_range in *. lia.
Qed.

Definition with_mmap_start (z : Z) (s : Z) (sp : vm_space_t) (m : mm) : mm :=
  set_spaces (<[s := set_mmap_start z sp]> (space_at m)) m.

(** The state after a mapping that succeeded at [st]. *)
Definition mapped (own : ownership) (A : vm_abs) (s : Z) (sp : vm_space_t) (l : list (Z * area)) (m : mm)
    (st size region_flags : Z) (lazy : bool) (m' : mm) : Prop :=
  exists own' A' sp' l', view own' A' s sp' l' m' /\ local_upto (fun _ _ => True) s own A m sp own' A' m' sp' /\ areas_ok l' /\
    (forall x, attr_at l' x = if decide (st <= x < st + size) then Some (region_flags, VMM_REGION_MMAP) else attr_at l x) /\
    (if lazy then A' = A else filled (pml4_virt sp) st (st + size) (page_flags_of region_flags) A A') /\
    mmap_start sp' = st + size /\ heap_start sp' = heap_start sp /\ heap_end sp' = heap_end sp.

(** The state after one that failed: nothing changed but the heap's inside. *)
Definition unchanged (own : ownership) (A : vm_abs) (s : Z) (sp : vm_space_t) (l : list (Z * area)) (m m' : mm) : Prop :=
  exists own' sp', view own' A s sp' l m' /\ local s own A m sp own' A m' sp'.

Lemma set_mmap_start_run own A s sp m own1 A1 sp1 l1 m1 z :
  view own1 A1 s sp1 l1 m1 -> local s own A m sp own1 A1 m1 sp1 ->
  view own1 A1 s (set_mmap_start z sp1) l1 (with_mmap_start z s sp1 m1) /\
  local_upto (fun _ _ => True) s own A m sp own1 A1 (with_mmap_start z s sp1 m1) (set_mmap_start z sp1).
Proof.
  intros [V1 V2 [V3 V4 V5] V6 V7] [E1 E2 E3 E4 E5 E6 E7 ES E8 E9 E10]. split.
  - split; cbn; try done. apply lookup_insert_eq.
  - split; cbn; try done. by rewrite E6, insert_insert_eq.
Qed.

Lemma mmap_at_run own A s sp l m st size rf fl :
  view own A s sp l m -> areas_ok l -> mapped_in A (pml4_virt sp) l -> aligned st -> aligned size ->
  0 < st -> 0 < size -> st + size <= 2 ^ 47 -> range_free l st (st + size) ->
  wp (mmap_at s st size rf fl) (fun rc m' =>
    (rc = MAP_FAILED /\ unchanged own A s sp l m m' /\ (no_room m \/ pte_has fl VMM_MMAP_LAZY = false)) \/
    (rc = st /\ mapped own A s sp l m st size rf (pte_has fl VMM_MMAP_LAZY) m')) m.
Proof.
  intros Hv Hok Hmap Hst Hsz Hp1 Hp2 Hle Hfree. unfold mmap_at. rewrite (u64_id (st + size)) by lia.
  assert (aligned (st + size)) as Hend by by apply aligned_add.
  wp_step. eapply wp_weaken; [apply (create_region_run own A s sp l m st size rf VMM_REGION_MMAP Hv Hok); lia|].
  rewrite (align_down_id st Hst), (align_up_id (st + size)) by (done || lia).
  set (a := {| lo := st; hi := st + size; fl := rf; ty := VMM_REGION_MMAP |}).
  intros [p|] m1 (sp1 & Hl1 & Hres).
  2:{ apply wp_pret. left. destruct Hres as ([Hc|Hno] & Hv1 & ->); [destruct Hc; apply Hfree; cbn; lia|].
      split; [done|]. split; [by exists own, sp|by left]. }
  destruct Hres as (_ & l1 & l2 & -> & Hv1 & F1 & F2 & Hsame).
  assert (user_range st (st + size)) as Hr by (split; [done|]; split; [done|]; lia).
  assert (free_range (l1 ++ l2) (lo a) (hi a)) as Hfr by (apply free_range_attr; [done|cbn; lia|exact Hfree]).
  assert (areas_ok (l1 ++ (p, a) :: l2)) as Hok1 by (apply areas_insert; try done; split; [done|cbn; lia]).
  assert (forall k, in_range st (st + size) k -> a_maps A !! (pml4_virt sp, k) = None) as Hnone.
  { intros k Hk. destruct (a_maps A !! (pml4_virt sp, k)) as [e|] eqn:Ee; [|done]. exfalso. apply (Hmap _ _ Ee), Hfree, Hk. }
  assert (forall x, attr_at (l1 ++ (p, a) :: l2) x =
    if decide (st <= x < st + size) then Some (rf, VMM_REGION_MMAP) else attr_at (l1 ++ l2) x) as Hattr.
  { intros x. by rewrite (attr_insert l1 p a l2 x Hfr). }
  pose proof (lc_pml4 _ _ _ _ _ _ _ _ _ _ Hl1) as Hpm. wp_step. destruct (pte_has fl VMM_MMAP_LAZY) eqn:Elazy; cbn [negb].
  - apply wp_pret. wp_step. eapply in_space_run; [apply Hv1|]. wp_go. right. split; [done|].
    destruct (set_mmap_start_run _ _ _ _ _ _ _ _ _ _ (st + size) Hv1 Hl1) as [Hv2 Hl2].
    exists own, A, (set_mmap_start (st + size) sp1), (l1 ++ (p, a) :: l2). unfold same_space in Hsame. cbn. intuition done.
  - eapply wp_weaken.
    { apply (populate_pages_run own A s sp1 (page_flags_of rf) st (st + size) m1); [apply Hv1|apply Hv1|apply Hv1|done| |].
      - by rewrite Hpm.
      - apply (protect_flags_small rf). }
    rewrite Hpm. intros [rc|] m2 (own2 & A2 & Hm2 & Hfill).
    + destruct Hfill as (x & -> & _ & Hx & Hfill & _). pose proof Hfill as (G1 & G2 & G3 & _ & G5 & _).
      destruct (local_vm _ _ _ _ _ _ _ _ _ Hv1 Hm2 G1 G2 G3) as [Hv2 Hl2].
      { intros r k Hrk. apply G5. rewrite Hpm in Hrk. tauto. }
      wp_step. eapply wp_weaken; [apply (destroy_region_run _ _ _ _ l1 p a l2 _ st Hv2 Hok1); cbn; lia|].
      intros _ m3 (_ & own3 & sp3 & Hv3 & Hl3). apply wp_pret. rewrite Hpm in Hv3, Hl3. cbn [lo hi a] in Hv3, Hl3.
      fold (cut_pages (pml4_virt sp) st (st + size) A2) in *. rewrite (filled_cut _ _ x _ _ A A2 Hfill Hnone) in Hv3, Hl3 by lia.
      left. split; [done|]. split; [|by right]. exists own3, sp3. split; [exact Hv3|].
      eapply local_trans; [exact Hl1|]. eapply local_trans; [exact Hl2|exact Hl3].
    + pose proof Hfill as (G1 & G2 & G3 & _ & G5 & _). destruct (local_vm _ _ _ _ _ _ _ _ _ Hv1 Hm2 G1 G2 G3) as [Hv2 Hl2].
      { intros r k Hrk. apply G5. rewrite Hpm in Hrk. tauto. }
      wp_step. eapply in_space_run; [apply Hv2|]. wp_go. right. split; [done|].
      destruct (set_mmap_start_run _ _ _ _ _ _ _ _ _ _ (st + size) Hv2 (local_trans _ _ _ _ _ _ _ _ _ _ _ _ _ Hl1 Hl2)) as [Hv3 Hl3].
      exists own2, A2, (set_mmap_start (st + size) sp1), (l1 ++ (p, a) :: l2). unfold same_space in Hsame. cbn. intuition done.
Qed.

Lemma mmap_run own A s sp l m addr size prot fl :
  view own A s sp l m -> areas_ok l -> mapped_in A (pml4_virt sp) l ->
  searchable l (mmap_start sp) addr (vmm_align_up size PAGE_SIZE) fl -> 0 < size <= 2 ^ 46 -> (addr = 0 \/ 4096 <= addr /\ addr + vmm_align_up size PAGE_SIZE <= 2 ^ 47) ->
  let n := vmm_align_up size PAGE_SIZE in
  wp (vmm_mmap (& s) addr size prot fl) (fun rc m' => exists r, placed l (mmap_start sp) addr n fl r /\
    match r with
    | None => rc = MAP_FAILED /\ m' = m
    | Some st =>
        (rc = MAP_FAILED /\ unchanged own A s sp l m m' /\ (no_room m \/ pte_has fl VMM_MMAP_LAZY = false)) \/
        (rc = st /\ mapped own A s sp l m st n (prot_flags prot) (pte_has fl VMM_MMAP_LAZY) m')
    end) m.
Proof.
  intros Hv Hok Hmap Hal Hsz Ha n. unfold vmm_mmap. rewrite (proj2 (Z.eqb_neq size 0)) by lia.
  pose proof (align_up_range size ltac:(lia)) as Hup. fold n in Hup. assert (aligned n) as Hn by (apply align_up_aligned; lia).
  pose proof (aligned_lt (2 ^ 46) n eq_refl Hn) as Hlt. fold n in Ha |- *.
  wp_step. eapply wp_weaken; [apply (mmap_start_run own A s sp l m addr n fl Hv Hok Hal Hn); [lia|exact Ha]|].
  intros [st|] m' [-> Hpl].
  - pose proof Hpl as (P1 & P2 & P3 & P4 & _).
    eapply wp_weaken; [apply (mmap_at_run own A s sp l m st n (prot_flags prot) fl); try done; lia|].
    intros rc m' Hres. exists (Some st). split; [exact Hpl|exact Hres].
  - apply wp_pret. exists None. done.
Qed.
End map.

(** * Changing the protection of a range of addresses *)

Lemma maps_change_append r a c e g m :
  a <= c <= e -> maps_change r c e g (maps_change r a c g m) = maps_change r a e g m.
Proof.
  intros Hc. apply map_eq. intros [r' k]. rewrite !maps_change_lookup. unfold in_range. repeat case_decide; try done; exfalso; lia.
Qed.

Definition change_pages (r a b : Z) (g : Z -> Z) (A : vm_abs) : vm_abs := with_maps (maps_change r a b g (a_maps A)) A.

(** The attributes with new flags on an interval. *)
Definition attr_set (l : list (Z * area)) (a b new_flags x : Z) : option attr :=
  if decide (a <= x < b) then (fun v => (new_flags, v.2)) <$> attr_at l x else attr_at l x.

Section protect.
Context {Heap : Type} {HK : KernelHeap Heap} {HL : KernelHeapLaws Heap}.
Abbreviation mm := (@mm_t Heap).

(** Splitting changes no attribute. *)
Lemma split_attr l1 p a l2 u z x :
  areas_ok (l1 ++ (p, a) :: l2) -> aligned z -> lo a < z < hi a ->
  areas_ok (l1 ++ (p, with_hi z a) :: (u, with_lo z a) :: l2) /\
  attr_at (l1 ++ (p, with_hi z a) :: (u, with_lo z a) :: l2) x = attr_at (l1 ++ (p, a) :: l2) x.
Proof.
  intros Hok Hz Hr. pose proof (areas_mid _ _ _ _ Hok) as Hwf. split.
  - apply (areas_replace l1 p a l2 [_; _]); [done| |].
    + apply areas_two; [apply area_wf_hi; [done..|lia]|apply area_wf_lo; [done..|lia]|cbn; lia].
    + intros n [->|[->|[]%elem_of_nil]%elem_of_cons]%elem_of_cons; cbn; lia.
  - etransitivity; [apply (attr_replace l1 p a l2 [(p, with_hi z a); (u, with_lo z a)] z z None Hok); [lia|lia|]|].
    2:{ rewrite decide_False by lia. done. }
    intros y. rewrite attr_two, attr_one. cbn. repeat case_decide; try done; lia.
Qed.

(** What a step that only splits leaves. *)
Definition recut (own : ownership) (A : vm_abs) (s : Z) (sp : vm_space_t) (l : list (Z * area)) (m : mm)
    (sp' : vm_space_t) (l' : list (Z * area)) (m' : mm) : Prop :=
  view own A s sp' l' m' /\ local s own A m sp own A m' sp' /\ areas_ok l' /\ forall x, attr_at l' x = attr_at l x.

Lemma recut_trans own A s sp l m sp1 l1 m1 sp2 l2 m2 :
  recut own A s sp l m sp1 l1 m1 -> recut own A s sp1 l1 m1 sp2 l2 m2 -> recut own A s sp l m sp2 l2 m2.
Proof.
  intros (H1 & H2 & H3 & H4) (G1 & G2 & G3 & G4). split; [done|]. split; [by eapply local_trans|]. split; [done|].
  intros x. by rewrite G4.
Qed.

Lemma split_recut_run own A s sp l1 p a l2 m z :
  view own A s sp (l1 ++ (p, a) :: l2) m -> areas_ok (l1 ++ (p, a) :: l2) -> aligned z -> lo a < z < hi a ->
  wp (vmm_split_region (& s) z) (fun rc m' => exists sp',
    (rc = VMM_SUCCESS /\ exists u, recut own A s sp (l1 ++ (p, a) :: l2) m sp' (l1 ++ (p, with_hi z a) :: (u, with_lo z a) :: l2) m') \/
    (rc = VMM_ERROR_NOMEM /\ recut own A s sp (l1 ++ (p, a) :: l2) m sp' (l1 ++ (p, a) :: l2) m')) m.
Proof.
  intros Hv Hok Hz Hr. eapply wp_weaken; [by apply (split_region_run own A s sp l1 p a l2 m z)|].
  intros rc m' (sp' & Hl & [(-> & u & Hv')|(-> & _ & Hv')]); exists sp'.
  - left. split; [done|]. exists u. split; [done|]. split; [done|]. split; [by apply (split_attr l1 p a l2 u z 0)|].
    intros x. by apply split_attr.
  - right. done.
Qed.

Lemma protect_cut_run own A s sp l1 p a l2 m c e r :
  view own A s sp (l1 ++ (p, a) :: l2) m -> areas_ok (l1 ++ (p, a) :: l2) -> start_addr r = lo a ->
  aligned c -> aligned e -> lo a <= c -> c < e -> e <= hi a ->
  wp (protect_cut s p r c e) (fun cut m' => exists sp' l', recut own A s sp (l1 ++ (p, a) :: l2) m sp' l' m' /\
    match cut with
    | inl q => exists k1 b k2, l' = k1 ++ (q, b) :: k2 /\ lo b = c /\ hi b = e /\ ty b = ty a
    | inr rc => rc = VMM_ERROR_NOMEM
    end) m.
Proof.
  intros Hv Hok Hs Hc He Hlo Hce Hhi. unfold protect_cut. rewrite Hs.
  assert (forall q b k1 k2 sp1 m1, recut own A s sp (l1 ++ (p, a) :: l2) m sp1 (k1 ++ (q, b) :: k2) m1 -> lo b = c ->
    hi b = hi a -> ty b = ty a ->
    wp (r <- in_space s (region q);;
        (if e <? end_addr r then
           rc <- vmm_split_region (& s) e;; pret (if negb (rc =? VMM_SUCCESS) then inr rc else inl q)
         else pret (inl q)))
      (fun cut m' => exists sp' l', recut own A s sp (l1 ++ (p, a) :: l2) m sp' l' m' /\
        match cut with
        | inl q => exists k1 b k2, l' = k1 ++ (q, b) :: k2 /\ lo b = c /\ hi b = e /\ ty b = ty a
        | inr rc => rc = VMM_ERROR_NOMEM
        end) m1) as Hhigh.
  { intros q b k1 k2 sp1 m1 Hcut Hbl Hbh Hty. pose proof Hcut as (Hv1 & _ & Hok1 & _).
    wp_step. eapply region_view; [exact Hv1|by apply elem_of_app; right; left|]. intros nx pv. cbn [object end_addr].
    destruct (Z.ltb_spec e (hi b)) as [Hlt|Hge].
    - wp_step. eapply wp_weaken; [apply (split_recut_run _ _ _ _ k1 q b k2 m1 e Hv1 Hok1); [done|lia]|].
      intros rc m2 (sp2 & [(-> & u & Hcut2)|(-> & Hcut2)]); apply wp_pret; (eexists sp2, _; split; [by eapply recut_trans|]).
      + change (negb (VMM_SUCCESS =? VMM_SUCCESS)) with false. cbv iota. exists k1, (with_hi e b), ((u, with_lo e b) :: k2). done.
      + done.
    - apply wp_pret. exists sp1, (k1 ++ (q, b) :: k2). split; [done|]. exists k1, b, k2. split; [done|]. split; [done|]. split; [lia|done]. }
  destruct (Z.ltb_spec (lo a) c) as [Hlt|Hge].
  - wp_step. wp_step. eapply wp_weaken; [apply (split_recut_run _ _ _ _ l1 p a l2 m c Hv Hok); [done|lia]|].
    intros rc m1 (sp1 & [(-> & u & Hcut1)|(-> & Hcut1)]).
    + change (negb (VMM_SUCCESS =? VMM_SUCCESS)) with false. cbv iota. pose proof Hcut1 as (Hv1 & _ & Hok1 & _).
      wp_step. eapply find_view; [exact Hv1|].
      replace (l1 ++ (p, with_hi c a) :: (u, with_lo c a) :: l2) with ((l1 ++ [(p, with_hi c a)]) ++ (u, with_lo c a) :: l2) in *
        by by rewrite <- app_assoc.
      rewrite (area_at_mid _ (u, with_lo c a) l2) by (done || cbn; lia). cbn [fst fmap option_fmap option_map].
      apply wp_pret. by eapply Hhigh.
    + change (negb (VMM_ERROR_NOMEM =? VMM_SUCCESS)) with true. cbv iota. apply wp_pret. apply wp_pret. by eexists sp1, _.
  - wp_step. apply wp_pret. eapply (Hhigh p a l1 l2 sp m); [|lia|done|done].
    split; [done|]. split; [by eapply local_refl|done].
Qed.

(** The state where the flags of [first, c) have been changed. *)
Definition protected_to (own : ownership) (A : vm_abs) (s : Z) (sp : vm_space_t) (l : list (Z * area)) (m : mm)
    (first c new_flags : Z) (sp' : vm_space_t) (l' : list (Z * area)) (m' : mm) : Prop :=
  view own (change_pages (pml4_virt sp) first c (protected new_flags) A) s sp' l' m' /\
  local s own A m sp own (change_pages (pml4_virt sp) first c (protected new_flags) A) m' sp' /\
  areas_ok l' /\ (forall x, attr_at l' x = attr_set l first c new_flags x).

Lemma change_pages_local own A s sp l m a b g m' :
  view own A s sp l m -> vm_became own A m own (change_pages (pml4_virt sp) a b g A) m' ->
  view own (change_pages (pml4_virt sp) a b g A) s sp l m' /\ local s own A m sp own (change_pages (pml4_virt sp) a b g A) m' sp.
Proof.
  intros Hv Hb. apply (local_vm own A s sp l m); try done. intros r k Hr. cbn. rewrite maps_change_lookup, decide_False; tauto.
Qed.

Lemma change_pages_append r a c e g A : a <= c <= e -> change_pages r c e g (change_pages r a c g A) = change_pages r a e g A.
Proof. intros Hc. unfold change_pages. cbn. by rewrite maps_change_append. Qed.

(** The area between the cuts gets its flags and its entries. *)
Lemma protect_area_run own A s sp k1 q b k2 m new_flags (Q : option unit -> mm -> Prop) :
  view own A s sp (k1 ++ (q, b) :: k2) m -> areas_ok (k1 ++ (q, b) :: k2) ->
  (forall r sp' m', protected_to own A s sp (k1 ++ (q, b) :: k2) m (lo b) (hi b) new_flags sp' (k1 ++ (q, with_fl new_flags b) :: k2) m' ->
     Q r m') ->
  wp (in_space s (update_region q (set_flags new_flags));;
      root <- in_space s (pget pml4_virt);;
      for_pages (R := unit) (lo b) (hi b) (fun a => in_vm (fun v => (tt, protect_page root new_flags a v));; pret None)) Q m.
Proof.
  intros Hv Hok HQ. pose proof (areas_mid _ _ _ _ Hok) as Hwf. wp_step.
  eapply set_area_run with (a' := with_fl new_flags b); [exact Hv|done|]. intros sp1 m1 Hv1 Hl1 _. wp_step.
  eapply read_space_run; [apply Hv1|by apply wp_pget|]. pose proof (lc_pml4 _ _ _ _ _ _ _ _ _ _ Hl1) as Hpm.
  eapply wp_weaken; [apply (protect_pages_run own A s sp1 (lo b) (hi b) new_flags m1); [apply Hv1|apply Hv1|apply Hv1|apply Hwf]|].
  fold (change_pages (pml4_virt sp1) (lo b) (hi b) (protected new_flags) A). intros r m2 Hm2.
  destruct (change_pages_local _ _ _ _ _ _ _ _ _ _ Hv1 Hm2) as [Hv2 Hl2]. rewrite Hpm in Hv2, Hl2.
  apply (HQ r sp1). split; [exact Hv2|]. split; [exact (local_trans _ _ _ _ _ _ _ _ _ _ _ _ _ Hl1 Hl2)|]. split.
  - apply (areas_replace k1 q b k2 [(q, with_fl new_flags b)]); [done|by apply areas_one|].
    intros n ->%list_elem_of_singleton. cbn. lia.
  - intros x. unfold attr_set. pose proof (areas_mid _ _ _ _ Hok) as [_ Hlt]. case_decide as Hx.
    + unfold attr_at. rewrite (area_at_mid k1 (q, with_fl new_flags b) k2), (area_at_mid k1 (q, b) k2); [done|done|done| |done].
      apply (areas_replace k1 q b k2 [(q, with_fl new_flags b)]); [done|by apply areas_one|].
      intros n ->%list_elem_of_singleton. cbn. lia.
    + change ((q, b) :: k2) with ([(q, b)] ++ k2). change ((q, with_fl new_flags b) :: k2) with ([(q, with_fl new_flags b)] ++ k2).
      rewrite !attr_app, !attr_one. cbn. by destruct (attr_at k1 x); repeat case_decide.
Qed.

Lemma attr_set_append l l' a c e nf x :
  a <= c <= e -> (forall y, attr_at l' y = attr_set l a c nf y) -> attr_set l' c e nf x = attr_set l a e nf x.
Proof.
  intros Hc Hl. unfold attr_set at 1. rewrite Hl. unfold attr_set. repeat case_decide; try done; lia.
Qed.

Lemma protect_from_run n : forall own A s sp l m first c last nf sp1 l1 m1,
  user_range first last -> aligned c -> first <= c <= last -> protected_to own A s sp l m first c nf sp1 l1 m1 ->
  (forall x, first <= x < c -> attr_at l x <> None) -> last - c <= Z.of_nat n * 4096 ->
  wp (protect_from n s c last nf) (fun rc m' => exists c' sp' l', first <= c' <= last /\
    protected_to own A s sp l m first c' nf sp' l' m' /\
    (rc = VMM_SUCCESS /\ c' = last /\ (forall x, first <= x < last -> attr_at l x <> None) \/
     rc = VMM_ERROR_NOT_FOUND /\ c' < last /\ attr_at l c' = None \/
     rc = VMM_ERROR_NOMEM)) m1.
Proof.
  induction n as [|n IH]; intros own A s sp l m first c last nf sp1 l1 m1 Hr Hc Hcr Hp Hcov Hn; cbn [protect_from];
    destruct (Z.ltb_spec c last) as [Hlt|Hge]; try lia;
    try (assert (c = last) as -> by lia; apply wp_pret; exists last, sp1, l1; split; [lia|]; split; [done|]; left; done).
  pose proof Hp as (Hv & Hl & Hok & Hattr). pose proof (lc_pml4 _ _ _ _ _ _ _ _ _ _ Hl) as Hpm. pose proof Hr as (R1 & R2 & R3 & R4).
  wp_step. eapply find_view; [exact Hv|]. destruct (area_at l1 c) as [[p a]|] eqn:Ea; cbn [fmap option_fmap option_map fst].
  2:{ apply wp_pret. exists c, sp1, l1. split; [lia|]. split; [done|]. right. left. split; [done|]. split; [lia|].
      apply attr_none in Ea. rewrite Hattr in Ea. unfold attr_set in Ea. by rewrite decide_False in Ea by lia. }
  apply area_at_in in Ea as [Hin Hx]. cbn [snd] in Hx. apply list_elem_of_split in Hin as (k1 & k2 & ->).
  pose proof (areas_mid _ _ _ _ Hok) as [(W1 & W2 & W3 & W4) W5].
  wp_step. eapply region_view; [exact Hv|by apply elem_of_app; right; left|]. intros nx pv. cbn [object start_addr end_addr].
  assert ((if lo a <? c then c else lo a) = c) as -> by (destruct (Z.ltb_spec (lo a) c); lia).
  set (e := if last <? hi a then last else hi a).
  assert (aligned e /\ c < e /\ e <= hi a /\ e <= last) as (He & Hce & Heh & Hel)
    by (unfold e; destruct (Z.ltb_spec last (hi a)); intuition lia).
  wp_step. eapply wp_weaken; [apply (protect_cut_run _ _ _ _ k1 p a k2 m1 c e (object a nx pv) Hv Hok eq_refl Hc He); lia|].
  intros cut m2 (sp2 & l2 & (Hv2 & Hl2 & Hok2 & Hattr2) & Hcut).
  assert (protected_to own A s sp l m first c nf sp2 l2 m2) as Hp2.
  { split; [done|]. split; [by eapply local_trans|]. split; [done|]. intros x. by rewrite Hattr2, Hattr. }
  destruct cut as [q|rc].
  2:{ subst rc. apply wp_pret. exists c, sp2, l2. split; [lia|]. split; [done|]. by right; right. }
  destruct Hcut as (j1 & b & j2 & -> & Hbl & Hbh & _).
  pose proof (fun Q => protect_area_run own _ s sp2 j1 q b j2 m2 nf Q Hv2 Hok2) as Harea. rewrite Hbl, Hbh in Harea.
  assert (forall x, c <= x < e -> attr_at l x <> None) as Hcov2.
  { intros x Hx2 Hnone. assert (attr_at (j1 ++ (q, b) :: j2) x = None) as Hn2.
    { rewrite Hattr2, Hattr. unfold attr_set. rewrite decide_False by lia. done. }
    apply attr_none, area_at_none with (n := (q, b)) in Hn2; [cbn in Hn2; lia|]. by apply elem_of_app; right; left. }
  assert (forall x, attr_at (j1 ++ (q, b) :: j2) x = attr_set l first c nf x) as Hattr3 by (intros x; by rewrite Hattr2, Hattr).
  assert (pml4_virt sp2 = pml4_virt sp) as Hpm2.
  { rewrite <- Hpm. destruct Hl2 as []. congruence. }
  assert (wp (in_space s (update_region q (set_flags nf));; root <- in_space s (pget pml4_virt);;
     for_pages (R := unit) c e (fun a => in_vm (fun v => (tt, protect_page root nf a v));; pret None))
    (fun _ m' => wp (protect_from n s e last nf) (fun rc m' => exists c' sp' l', first <= c' <= last /\
      protected_to own A s sp l m first c' nf sp' l' m' /\
      (rc = VMM_SUCCESS /\ c' = last /\ (forall x, first <= x < last -> attr_at l x <> None) \/
       rc = VMM_ERROR_NOT_FOUND /\ c' < last /\ attr_at l c' = None \/
       rc = VMM_ERROR_NOMEM)) m') m2) as Hall.
  { apply Harea. intros _ sp3 m3 (Hv3 & Hl3 & Hok3 & Hattr4). rewrite Hpm2, change_pages_append in Hv3, Hl3 by lia.
    pose proof (aligned_lt c e Hc He Hce).
    apply (IH own A s sp l m first e last nf sp3 (j1 ++ (q, with_fl nf b) :: j2)); [done..|lia| | |lia].
    - split; [done|]. split; [by eapply local_trans; [apply Hp2|]|]. split; [done|]. intros x. rewrite Hattr4.
      by apply attr_set_append; [lia|].
    - intros x Hx'. destruct (decide (x < c)); [by apply Hcov; lia|by apply Hcov2; lia]. }
  clear Harea. apply wp_pbind_inv in Hall. apply wp_pbind. eapply wp_weaken; [exact Hall|]. cbv beta. intros _ m3 Hall3.
  apply wp_pbind_inv in Hall3. apply wp_pbind. eapply wp_weaken; [exact Hall3|]. cbv beta. intros root m4 Hall4.
  apply wp_pbind. exact Hall4.
Qed.

Lemma user_span addr size :
  0 <= addr -> 0 < size -> addr + size <= 2 ^ 47 ->
  user_range (vmm_align_down addr PAGE_SIZE) (vmm_align_up (addr + size) PAGE_SIZE) /\
  vmm_align_down addr PAGE_SIZE <= addr /\ addr + size <= vmm_align_up (addr + size) PAGE_SIZE.
Proof.
  intros Ha Hs Hle. pose proof (align_down_eq addr). pose proof (Z.mod_pos_bound addr 4096). pose proof (Z.mod_le addr 4096).
  pose proof (align_up_range (addr + size) ltac:(lia)) as Hup. pose proof (align_up_aligned (addr + size) ltac:(lia)) as Hua.
  split; [|lia]. split; [apply align_down_aligned|]. split; [done|]. split; [lia|].
  pose proof (aligned_lt (2 ^ 47) _ eq_refl Hua). lia.
Qed.

Lemma protect_run own A s sp l m addr size nf :
  view own A s sp l m -> areas_ok l -> 0 <= addr -> 0 < size -> addr + size <= 2 ^ 47 ->
  let first := vmm_align_down addr PAGE_SIZE in let last := vmm_align_up (addr + size) PAGE_SIZE in
  wp (vmm_protect_region (& s) addr size nf) (fun rc m' => exists c' sp' l', first <= c' <= last /\
    protected_to own A s sp l m first c' nf sp' l' m' /\
    (rc = VMM_SUCCESS /\ c' = last /\ (forall x, first <= x < last -> attr_at l x <> None) \/
     rc = VMM_ERROR_NOT_FOUND /\ c' < last /\ attr_at l c' = None \/
     rc = VMM_ERROR_NOMEM)) m.
Proof.
  intros Hv Hok Ha Hs Hle first last. unfold vmm_protect_region. rewrite (proj2 (Z.eqb_neq size 0)), u64_id by lia.
  destruct (user_span addr size Ha Hs Hle) as (Hr & H1 & H2). fold first last in Hr, H1, H2 |- *.
  assert (change_pages (pml4_virt sp) first first (protected nf) A = A) as Hsame.
  { unfold change_pages. rewrite maps_change_empty. by destruct A. }
  eapply (protect_from_run _ own A s sp l m first first last nf sp l m); try done; [apply Hr|lia| |lia|].
  - unfold protected_to. rewrite Hsame. split; [done|]. split; [by eapply local_refl|]. split; [done|]. intros x.
    unfold attr_set. rewrite decide_False by lia. done.
  - apply page_steps_enough. lia.
Qed.
End protect.

(** * Page faults *)

(** The statistics are no part of the contract. *)
Lemma rep_statistics own A v st :
  rep own A v -> rep own A (with_frames (frame_database v) (free_frames v) (free_frame_count v) st v).
Proof.
  intros [Hf Hs]. split; [by apply (frames_ok_db _ v)|]. apply (shape_same _ _ v); [|exact Hs]. repeat split.
Qed.

(** What a fault on an address with these attributes leads to. *)
Inductive fault_class := NoRegion | Denied | CopyOnWrite | FillPage | NoHandler.

Definition classify (f : page_fault_info_t) (v : option attr) : fault_class :=
  match v with
  | None => NoRegion
  | Some (fl, _) =>
      if is_write f && negb (pte_has fl VMM_FLAG_WRITE) then Denied
      else if is_instruction_fetch f && negb (pte_has fl VMM_FLAG_EXEC) then Denied
      else if is_write f && pte_has fl VMM_FLAG_COW then CopyOnWrite
      else if pte_has fl VMM_FLAG_LAZY then FillPage
      else NoHandler
  end.

Section fault.
Context {Heap : Type} {HK : KernelHeap Heap} {HL : KernelHeapLaws Heap}.
Abbreviation mm := (@mm_t Heap).

(** A state that differs in the statistics. *)
Definition counted (m m' : mm) : Prop :=
  exists st, m' = set_vm (with_frames (frame_database (vm m)) (free_frames (vm m)) (free_frame_count (vm m)) st (vm m)) m.

Lemma count_faults_run a b c (Q : unit -> mm -> Prop) m : (forall m', counted m m' -> Q tt m') -> wp (count_faults a b c) Q m.
Proof. intros HQ. unfold count_faults. apply in_vm_run. apply HQ. by eexists. Qed.

Lemma counted_became own A m m' : rep own A (vm m) -> counted m m' -> vm_became own A m own A m'.
Proof. intros Hrep [st ->]. split; [done|]. split; [done|]. by apply rep_statistics. Qed.

Lemma counted_view own A s sp l m m' : view own A s sp l m -> counted m m' -> view own A s sp l m'.
Proof. intros [V1 V2 V3 V4 V5] [st ->]. split; try done. by apply rep_statistics. Qed.

Lemma counted_globals (m m' : mm) : counted m m' -> current_space m' = current_space m.
Proof. intros [st ->]. done. Qed.

(** What the handler does to the map of pages of the current space. *)
Definition fault_effect (r : Z) (f : page_fault_info_t) (v : option attr) (A : vm_abs) (rc : Z) (A' : vm_abs) : Prop :=
  match classify f v with
  | NoRegion => rc = VMM_ERROR_NOT_FOUND /\ A' = A
  | Denied => rc = VMM_ERROR_PERM_DENIED /\ A' = A
  | NoHandler => rc = VMM_ERROR_FAULT /\ A' = A
  | CopyOnWrite => abs_step (CowFault r (fault_addr f)) A rc A'
  | FillPage =>
      rc = VMM_ERROR_NOMEM /\ A' = A \/
      rc = VMM_SUCCESS /\ exists g, frame_ok g /\ refs A g = 0 /\
        A' = map_at r (fault_addr f) (phys_to_pte (frame_addr_of g) (page_flags_of (from_option fst 0 v))) A
  end.

(** A lazy page is filled only when it is absent: the processor faults then. *)
Definition fault_on_absent (r : Z) (f : page_fault_info_t) (v : option attr) (A : vm_abs) : Prop :=
  classify f v = FillPage -> a_maps A !! (r, pte_index (fault_addr f)) = None.

Lemma fault_run own A s sp l m f :
  view own A s sp l m -> current_space m = & s -> 0 <= fault_addr f < 2 ^ 47 ->
  fault_on_absent (pml4_virt sp) f (attr_at l (fault_addr f)) A ->
  wp (vmm_handle_page_fault (& f)) (fun rc m' => exists own' A', vm_became own A m own' A' m' /\
    fault_effect (pml4_virt sp) f (attr_at l (fault_addr f)) A rc A' /\
    (rc = VMM_ERROR_NOMEM -> classify f (attr_at l (fault_addr f)) = FillPage -> scarce own' A' (vm m'))) m.
Proof.
  intros Hv Hcur Hx Habs. unfold fault_effect. unfold fault_on_absent in Habs. unfold vmm_handle_page_fault. wp_step. apply count_faults_run. intros m1 Hm1.
  pose proof (counted_view _ _ _ _ _ _ _ Hv Hm1) as Hv1. pose proof (counted_became own A _ _ (vw_rep _ _ _ _ _ _ Hv) Hm1) as Hb1.
  wp_step. apply wp_pget. rewrite (counted_globals _ _ Hm1), Hcur.
  wp_step. eapply find_view; [exact Hv1|]. unfold attr_at, classify in *.
  destruct (area_at l (fault_addr f)) as [[p a]|] eqn:Ea; cbn [fst snd fmap option_fmap option_map attr_of from_option] in *.
  2:{ wp_step. apply count_faults_run. intros m2 Hm2. apply wp_pret. exists own, A. split; [|done].
      eapply vm_became_trans; [exact Hb1|]. apply counted_became; [apply Hv1|exact Hm2]. }
  apply area_at_in in Ea as [Hin Ha]. cbn [snd] in Ha.
  wp_step. eapply region_view; [exact Hv1|exact Hin|]. intros nx pv. cbn [object flags].
  destruct (is_write f && negb (pte_has (fl a) VMM_FLAG_WRITE)); [apply wp_pret; exists own, A; done|].
  destruct (is_instruction_fetch f && negb (pte_has (fl a) VMM_FLAG_EXEC)); [apply wp_pret; exists own, A; done|].
  destruct (is_write f && pte_has (fl a) VMM_FLAG_COW).
  { eapply (page_call_run s sp (fun r v => vmm_handle_cow_fault v (& r) (fault_addr f))); [apply Hv1|].
    destruct (cow_refined own A (vm m1) (pml4_virt sp) (fault_addr f)) as (own' & A' & G1 & G2 & G3 & _); [apply Hv1|apply Hv1|by apply page_user|].
    exists own', A'. split; [|done]. eapply vm_became_trans; [exact Hb1|]. split; [exact G1|]. split; [done|exact G2]. }
  destruct (pte_has (fl a) VMM_FLAG_LAZY).
  2:{ wp_step. apply count_faults_run. intros m2 Hm2. apply wp_pret. exists own, A. split; [|done].
      eapply vm_became_trans; [exact Hb1|]. apply counted_became; [apply Hv1|exact Hm2]. }
  specialize (Habs eq_refl). set (x := vmm_align_down (fault_addr f) PAGE_SIZE).
  assert (pte_index x = pte_index (fault_addr f)) as Hidx by apply align_page.
  assert (0 <= x < 2 ^ 47) as Hxr.
  { unfold x. rewrite align_down_eq. pose proof (Z.mod_pos_bound (fault_addr f) 4096). pose proof (Z.mod_le (fault_addr f) 4096). lia. }
  wp_step. eapply wp_weaken.
  { apply (populate_run own A s sp (page_flags_of (fl a)) x m1); [apply Hv1|apply Hv1|apply Hv1|done|by rewrite Hidx|].
    apply (protect_flags_small (fl a)). }
  intros [rc|] m2 (own2 & Hm2).
  - destruct Hm2 as (-> & Hm2 & Hsc). apply wp_pret. exists own2, A. split; [by eapply vm_became_trans|]. split; [by left|done].
  - destruct Hm2 as (g & Hok & Hg & Hm2). wp_step. apply count_faults_run. intros m3 Hm3. apply wp_pret. eexists own2, _. split.
    + eapply vm_became_trans; [exact Hb1|]. eapply vm_became_trans; [exact Hm2|]. apply counted_became; [apply Hm2|exact Hm3].
    + split; [|done]. right. split; [done|]. exists g. split; [done|]. split; [done|]. unfold map_at. by rewrite Hidx.
Qed.
End fault.
