(* ===== verification/RegionSpaceSpec.v ===== *)
(** * All address spaces together

    [mm_ok]: every space of a set is a list of disjoint page-aligned areas
    over page tables of its own, and no object belongs to two of them.  A step
    that is local to one space keeps it ([mm_update]); a space is created and
    destroyed without the others noticing. *)
From Stdlib Require Import ZArith Lia Sorted.
From stdpp Require Import gmap sorting.
From S2P Require Import Prelude Vmm VmmSpec PageWalk PageTreeSpec FrameSpec.
From S2P Require Import PageWalkSpec PageOpsSpec StateMonad KernelHeap VmmRegions RegionListSpec.
From S2P Require Import RegionPagesSpec RegionOpsSpec.
Open Scope Z_scope.
Open Scope c_scope.
Open Scope prog_scope.

Section spaces.
Context {Heap : Type} {HK : KernelHeap Heap} {HL : KernelHeapLaws Heap}.
Abbreviation mm := (@mm_t Heap).

(** ** What a process can see of a space *)

(** The flags and the type of the region at an address. *)
Definition region_of (m : mm) (s x : Z) : option attr :=
  match (p <- vmm_find_region (& s) x;;
         match p with
         | NULL => pret None
         | Some q => r <- in_space s (region q);; pret (Some (flags r, type r))
         end) m with
  | Some (v, _) => v
  | None => None
  end.

(** The entry of the page tables for a page. *)
Definition entry_of (m : mm) (s k : Z) : option Z :=
  match space_at m !! s with Some sp => read 3 (vm m) (pml4_virt sp) k | None => None end.

Lemma region_of_view own A s sp l m x : view own A s sp l m -> region_of m s x = attr_at l x.
Proof.
  intros Hv. unfold region_of. match goal with |- match ?e m with _ => _ end = _ => assert (wp e (fun v _ => v = attr_at l x) m) as H end.
  - wp_step. eapply find_view; [exact Hv|]. unfold attr_at. destruct (area_at l x) as [[p a]|] eqn:E; cbn; [|by apply wp_pret].
    apply area_at_in in E as [Hin _]. wp_step. eapply region_view; [exact Hv|exact Hin|]. intros nx pv. by apply wp_pret.
  - apply wp_returns in H as (v & m' & -> & ->). done.
Qed.

Lemma entry_of_view own A s sp l m k : view own A s sp l m -> user_page k -> entry_of m s k = a_maps A !! (pml4_virt sp, k).
Proof. intros [[_ V1] V2 _ V4 _] Hk. unfold entry_of. rewrite V2. by apply (sh_read _ _ _ V1). Qed.

(** ** The invariant *)
Record mm_rep (own : ownership) (A : vm_abs) (L : gmap Z (list (Z * area))) (m : mm) : Prop := {
  mo_rep : rep own A (vm m);
  mo_view : forall s l, L !! s = Some l -> exists sp, view own A s sp l m /\ areas_ok l /\ mapped_in A (pml4_virt sp) l;
  mo_roots : forall s s' sp sp', s ∈ dom L -> s' ∈ dom L -> space_at m !! s = Some sp -> space_at m !! s' = Some sp' ->
    pml4_virt sp = pml4_virt sp' -> s = s';
  mo_apart : forall s s' sp sp', s <> s' -> space_at m !! s = Some sp -> space_at m !! s' = Some sp' ->
    dom (region_at sp) ## dom (region_at sp');
  mo_live : forall s sp, space_at m !! s = Some sp -> s ∈ live (heap m) /\ dom (region_at sp) ⊆ live (heap m);
  mo_space : forall s s' sp, space_at m !! s = Some sp -> is_Some (space_at m !! s') -> s' ∉ dom (region_at sp) }.

Definition mm_ok (S : gset Z) (m : mm) : Prop := exists own A L, dom L = S /\ mm_rep own A L m.

(** The other spaces look the same. *)
Definition others_same (S : gset Z) (s : Z) (m m' : mm) : Prop :=
  forall s', s' ∈ S -> s' <> s ->
    (forall x, region_of m' s' x = region_of m s' x) /\ (forall k, user_page k -> entry_of m' s' k = entry_of m s' k).

Lemma mm_member own A L m s :
  mm_rep own A L m -> s ∈ dom L -> exists sp l, L !! s = Some l /\ view own A s sp l m /\ areas_ok l /\ mapped_in A (pml4_virt sp) l.
Proof.
  intros Hok [l Hl]%elem_of_dom. destruct (mo_view _ _ _ _ Hok _ _ Hl) as (sp & ?). by exists sp, l.
Qed.

(** A step that keeps to one space. *)
Lemma mm_update own A L m s sp l own' A' sp' l' m' :
  mm_rep own A L m -> L !! s = Some l -> view own A s sp l m ->
  view own' A' s sp' l' m' -> areas_ok l' -> mapped_in A' (pml4_virt sp) l' ->
  a_roots A' = a_roots A -> (forall r k, r <> pml4_virt sp -> a_maps A' !! (r, k) = a_maps A !! (r, k)) ->
  space_at m' = <[s := sp']> (space_at m) -> pml4_virt sp' = pml4_virt sp ->
  (dom (region_at sp') ∖ dom (region_at sp)) ## live (heap m) ->
  live (heap m') = (live (heap m) ∖ dom (region_at sp)) ∪ dom (region_at sp') ->
  mm_rep own' A' (<[s := l']> L) m' /\ others_same (dom L) s m m'.
Proof.
  intros [M1 M2 M3 M4 M5 M6] Hl Hv Hv' Hok' Hmap' Hroots Hmaps Hsp Hpm Hfresh Hlive.
  pose proof (vw_space _ _ _ _ _ _ Hv) as Hs.
  assert (dom (<[s := l']> L) = dom L) as Hdom by (apply dom_insert_lookup_L; by eexists).
  assert (forall s' l2, s' <> s -> L !! s' = Some l2 -> exists sp2, view own A s' sp2 l2 m /\ view own' A' s' sp2 l2 m' /\
    areas_ok l2 /\ mapped_in A' (pml4_virt sp2) l2 /\ pml4_virt sp2 <> pml4_virt sp) as Hother.
  { intros s' l2 Hne Hl2. destruct (M2 _ _ Hl2) as (sp2 & Hv2 & Hok2 & Hmap2).
    assert (pml4_virt sp2 <> pml4_virt sp) as Hpn.
    { intros Heq. apply Hne, (M3 s' s sp2 sp); try done; [by eapply elem_of_dom_2..|by apply Hv2]. }
    exists sp2. split; [done|]. split; [|split; [done|]; split; [|done]].
    - destruct Hv2 as [V1 V2 V3 V4 V5]. split; [apply Hv'| |done|by rewrite Hroots|].
      + rewrite Hsp, lookup_insert_ne by done. exact V2.
      + rewrite Hlive. pose proof (M4 s' s sp2 sp Hne V2 Hs). set_solver.
    - intros k e He. rewrite Hmaps in He by done. by apply (Hmap2 k e). }
  split.
  - split; [apply Hv'| | | | |].
    + intros s' l2. destruct (decide (s' = s)) as [->|Hne].
      * rewrite lookup_insert_eq. intros [= <-]. exists sp'. by rewrite Hpm.
      * rewrite lookup_insert_ne by done. intros Hl2. destruct (Hother s' l2 Hne Hl2) as (sp2 & _ & H1 & H2 & H3 & _). by exists sp2.
    + rewrite Hdom, Hsp. intros s1 s2 sp1 sp2 D1 D2. rewrite !lookup_insert_Some.
      intros [[<- <-]|[N1 E1]] [[<- <-]|[N2 E2]] Heq; [done|rewrite Hpm in Heq; by apply (M3 s s2 sp sp2)|
        rewrite Hpm in Heq; by apply (M3 s1 s sp1 sp)|by apply (M3 s1 s2 sp1 sp2)].
    + rewrite Hsp. intros s1 s2 sp1 sp2 Hne. rewrite !lookup_insert_Some.
      assert (forall s2 sp2, s2 <> s -> space_at m !! s2 = Some sp2 -> dom (region_at sp') ## dom (region_at sp2)) as Hd.
      { intros s3 sp3 N3 E3. pose proof (M4 s3 s sp3 sp N3 E3 Hs). destruct (M5 s3 sp3 E3) as [_ Hl3]. set_solver. }
      intros [[<- <-]|[N1 E1]] [[<- <-]|[N2 E2]]; [done|by apply (Hd s2)|symmetry; by apply (Hd s1)|by apply (M4 s1 s2)].
    + rewrite Hsp, Hlive. intros s1 sp1. rewrite lookup_insert_Some. intros [[<- <-]|[N1 E1]].
      * split; [|set_solver]. destruct (M5 s sp Hs) as [Hsl _]. pose proof (M6 s s sp Hs ltac:(by eexists)). set_solver.
      * destruct (M5 s1 sp1 E1) as [H1 H2]. pose proof (M4 s1 s sp1 sp ltac:(congruence) E1 Hs).
        pose proof (M6 s s1 sp Hs ltac:(by eexists)). set_solver.
    + rewrite Hsp. intros s1 s2 sp1 Hs1 Hs2. assert (is_Some (space_at m !! s2)) as Hs2'.
      { destruct (decide (s2 = s)) as [->|Hne]; [by eexists|]. by rewrite lookup_insert_ne in Hs2. }
      apply lookup_insert_Some in Hs1 as [[<- <-]|[N1 E1]]; [|by apply (M6 s1)].
      intros Hin. pose proof (M6 s s2 sp Hs Hs2') as Hn. destruct Hs2' as [sp2 Hs2']. destruct (M5 s2 sp2 Hs2') as [Hl2 _]. set_solver.
  - intros s' [l2 Hl2]%elem_of_dom Hne. destruct (Hother s' l2 Hne Hl2) as (sp2 & V & V' & _ & _ & Hpn). split.
    + intros x. by rewrite (region_of_view _ _ _ _ _ _ x V), (region_of_view _ _ _ _ _ _ x V').
    + intros k Hk. rewrite (entry_of_view _ _ _ _ _ _ k V Hk), (entry_of_view _ _ _ _ _ _ k V' Hk). by apply Hmaps.
Qed.

Lemma mm_local R own A L m s sp l own' A' sp' l' m' :
  mm_rep own A L m -> L !! s = Some l -> view own A s sp l m ->
  view own' A' s sp' l' m' -> local_upto R s own A m sp own' A' m' sp' -> areas_ok l' -> mapped_in A' (pml4_virt sp) l' ->
  mm_rep own' A' (<[s := l']> L) m' /\ others_same (dom L) s m m'.
Proof. intros Hok Hl Hv Hv' [] Ha Hm. by apply (mm_update own A L m s sp l own' A' sp'). Qed.

Lemma mm_ok_insert own A L m s l : mm_rep own A (<[s := l]> L) m -> s ∈ dom L -> mm_ok (dom L) m.
Proof. intros Hok Hs. exists own, A, (<[s := l]> L). split; [|done]. rewrite dom_insert_L. set_solver. Qed.

(** ** Creating a space *)
Lemma create_root own A v pid :
  rep own A v ->
  (PageWalk.vmm_create_address_space true pid v = (NULL, v)) \/
  exists r v', PageWalk.vmm_create_address_space true pid v = (& r, v') /\ r <> 0.
Proof.
  intros Hrep. unfold PageWalk.vmm_create_address_space, allocate_page_table. cbn [negb].
  destruct (alloc_page_rep own A v Hrep) as [[-> Hnone]|(f & v1 & -> & Hf & _)]; [by left|].
  pose proof (frame_addr_pos f (rep_frame_ok _ _ _ _ Hrep Hf)) as Hpos. rewrite (proj2 (Z.eqb_neq _ _)) by lia.
  right. eexists _, _. split; [reflexivity|lia].
Qed.

(** A new root table. *)
Lemma create_root_rep own A v pid r v' :
  rep own A v -> PageWalk.vmm_create_address_space true pid v = (& r, v') -> r <> 0 ->
  exists own', own ⊆ own' /\ r ∉ a_roots A /\ rep own' (with_roots ({[r]} ∪ a_roots A) A) v'.
Proof.
  intros Hrep E Hr. destruct (create_refined own A v pid Hrep) as (own' & A' & H1 & H2 & H3 & _).
  cbn [run] in *. rewrite E in *. cbn [fst snd default] in *. inversion H3; subst; [|done]. by exists own'.
Qed.

Lemma view_kept own A own' A' s sp l m m' :
  view own A s sp l m -> rep own' A' (vm m') -> a_roots A ⊆ a_roots A' -> space_at m' !! s = Some sp ->
  live (heap m) ⊆ live (heap m') -> view own' A' s sp l m'.
Proof. intros [V1 V2 V3 V4 V5] Hrep Hroots Hs Hlive. split; try done; set_solver. Qed.

(** An empty space in a new object. *)
Lemma mm_new own A L m p h' r v' own' sp :
  mm_rep own A L m -> p ∉ live (heap m) -> live h' = {[p]} ∪ live (heap m) -> r ∉ a_roots A ->
  rep own' (with_roots ({[r]} ∪ a_roots A) A) v' -> pml4_virt sp = r -> region_at sp = ∅ -> list_ok sp [] ->
  let m' := set_spaces (<[p := sp]> (space_at m)) (set_vm v' (set_heap h' m)) in
  mm_rep own' (with_roots ({[r]} ∪ a_roots A) A) (<[p := []]> L) m' /\ others_same (dom L) p m m' /\ p ∉ dom L.
Proof.
  intros [M1 M2 M3 M4 M5 M6] Hp Hlive Hr Hrep' Hpm Hreg Hlist m'.
  assert (space_at m !! p = None) as Hnone.
  { destruct (space_at m !! p) as [sp0|] eqn:E; [|done]. by destruct (M5 p sp0 E). }
  assert (p ∉ dom L) as HpL.
  { intros [l Hl]%elem_of_dom. destruct (M2 p l Hl) as (sp0 & [_ V2 _ _ _] & _). congruence. }
  assert (forall s l, L !! s = Some l -> s <> p) as HneL by (intros s l Hl ->; apply HpL; by eapply elem_of_dom_2).
  assert (forall s sp0, space_at m !! s = Some sp0 -> s <> p) as Hne by (intros s sp0 Hs ->; congruence).
  assert (forall s l, L !! s = Some l -> exists sp2, view own A s sp2 l m /\
    view own' (with_roots ({[r]} ∪ a_roots A) A) s sp2 l m' /\ areas_ok l /\ mapped_in A (pml4_virt sp2) l) as Hold.
  { intros s l Hl. destruct (M2 s l Hl) as (sp2 & V & G2 & G3). exists sp2. split; [done|]. split; [|done].
    apply (view_kept own A own' _ s sp2 l m); [done|done|cbn; set_solver| |cbn; set_solver].
    cbn. rewrite lookup_insert_ne; [apply V|]. intros <-. by apply (HneL _ _ Hl). }
  split; [|split; [|done]].
  - split; [exact Hrep'| | | | |]; cbn [m' space_at set_spaces set_vm set_heap heap].
    + intros s l. rewrite lookup_insert_Some. intros [[<- <-]|[Hn Hl]].
      * exists sp. split; [split; cbn; try done; [apply lookup_insert_eq|set_solver|rewrite Hreg; set_solver]|].
        split; [apply areas_nil|]. intros k e He. exfalso. rewrite Hpm in He. cbn in He. apply Hr. by apply (sh_maps _ _ _ (proj2 M1)) in He as [? _].
      * destruct (Hold s l Hl) as (sp2 & _ & G1 & G2 & G3). by exists sp2.
    + intros s s' sp1 sp2. rewrite dom_insert, !elem_of_union, !elem_of_singleton, !lookup_insert_Some.
      assert (forall s0 sp0, s0 ∈ dom L -> space_at m !! s0 = Some sp0 -> pml4_virt sp0 <> r) as Hrn.
      { intros s0 sp0 [l Hl]%elem_of_dom Hs0. destruct (M2 s0 l Hl) as (sp3 & [_ V2 _ V4 _] & _). congruence. }
      intros D1 D2 [[<- <-]|[N1 E1]] [[<- <-]|[N2 E2]] Heq; [done|..].
      * exfalso. apply (Hrn s' sp2); [naive_solver|done|congruence].
      * exfalso. apply (Hrn s sp1); [naive_solver|done|congruence].
      * apply (M3 s s' sp1 sp2); naive_solver.
    + intros s s' sp1 sp2 Hd. rewrite !lookup_insert_Some. intros [[<- <-]|[N1 E1]] [[<- <-]|[N2 E2]]; [done|..].
      * rewrite Hreg. set_solver.
      * rewrite Hreg. set_solver.
      * by apply (M4 s s').
    + intros s sp1. rewrite lookup_insert_Some, Hlive. intros [[<- <-]|[N1 E1]]; [rewrite Hreg; set_solver|].
      destruct (M5 s sp1 E1). set_solver.
    + intros s s' sp1. rewrite lookup_insert_Some. intros [[<- <-]|[N1 E1]] Hs'; [rewrite Hreg; set_solver|].
      destruct (decide (s' = p)) as [->|Hn].
      * intros Hin. destruct (M5 s sp1 E1). set_solver.
      * rewrite lookup_insert_ne in Hs' by done. by apply (M6 s).
  - intros s [l Hl]%elem_of_dom Hsp. destruct (Hold s l Hl) as (sp2 & V & V' & _). split.
    + intros x. by rewrite (region_of_view _ _ _ _ _ _ x V), (region_of_view _ _ _ _ _ _ x V').
    + intros k Hk. by rewrite (entry_of_view _ _ _ _ _ _ k V Hk), (entry_of_view _ _ _ _ _ _ k V' Hk).
Qed.

(** Steps that change neither spaces nor pages. *)
Lemma mm_heap own A L m h' : mm_rep own A L m -> live h' = live (heap m) -> mm_rep own A L (set_heap h' m).
Proof.
  intros [M1 M2 M3 M4 M5 M6] Hlive. split; cbn; rewrite ?Hlive; try done.
  intros s l Hl. destruct (M2 s l Hl) as (sp & V & H). exists sp. split; [|done].
  apply (view_kept own A own A s sp l m); try done; [apply V|cbn; by rewrite Hlive].
Qed.

Lemma mm_globals own A L m k c b : mm_rep own A L m -> mm_rep own A L (set_globals k c b m).
Proof.
  intros [M1 M2 M3 M4 M5 M6]. split; try done. intros s l Hl. destruct (M2 s l Hl) as (sp & V & H). exists sp. split; [|done].
  apply (view_kept own A own A s sp l m); try done. apply V.
Qed.

Lemma create_space_run own A L m pid :
  mm_rep own A L m ->
  wp (vmm_create_address_space pid) (fun p m' =>
    match p with
    | NULL => mm_rep own A L m' /\ space_at m' = space_at m
    | Some s => s ∉ dom L /\ others_same (dom L) s m m' /\ exists own' r,
        mm_rep own' (with_roots ({[r]} ∪ a_roots A) A) (<[s := []]> L) m' /\
        exists sp, space_at m' !! s = Some sp /\ heap_start sp = USER_HEAP_BASE /\ mmap_start sp = USER_STACK_TOP - 0x40000000
    end) m.
Proof.
  intros Hok. unfold vmm_create_address_space. wp_step. apply malloc_run.
  { intros h' E Hh. apply wp_pret. split; [by apply mm_heap|done]. }
  intros p h' E Hp Hh. wp_step. apply in_vm_run. cbn [vm set_heap]. destruct (create_root own A (vm m) pid (mo_rep _ _ _ _ Hok)) as [E0|(r & v' & E0 & Hr)]; rewrite E0; cbn [fst snd].
  - wp_step. unfold free, in_heap. apply wp_pcall. cbn. apply wp_pret.
    assert (set_heap (kfree p h') (set_vm (vm m) (set_heap h' m)) = set_heap (kfree p h') m) as -> by done.
    split; [|done]. apply mm_heap; [done|]. rewrite kfree_live, Hh by set_solver. apply leibniz_equiv. set_solver.
  - wp_step. apply wp_pmodify. apply wp_pret.
    destruct (create_root_rep _ _ _ _ _ _ (mo_rep _ _ _ _ Hok) E0 Hr) as (own' & _ & Hnew & Hrep').
    match goal with |- context [<[p := ?x]> _] => set (sp := x) end.
    assert (list_ok sp []) as Hlist by (split; [done..|constructor]).
    destruct (mm_new own A L m p h' r v' own' sp Hok Hp Hh Hnew Hrep' eq_refl eq_refl Hlist) as (H1 & H2 & H3).
    split; [exact H3|]. split; [exact H2|]. exists own', r. split; [exact H1|]. exists sp. split; [apply lookup_insert_eq|done].
Qed.
End spaces.

(** * Destroying an address space *)

(** A space with no mapped page gives its root back; the tables below stay. *)
Lemma free_root own A v r :
  rep own A v -> r ∈ a_roots A -> (forall k, a_maps A !! (r, k) = None) ->
  rep (delete r own) (with_roots (a_roots A ∖ {[r]}) A) (free_page_table v (& r)).
Proof.
  intros Hrep Hr Hnone. pose proof Hrep as [Hfr Hs]. pose proof (sh_roots _ _ _ Hs r Hr) as Hown.
  destruct (sh_own _ _ _ Hs r _ Hown) as (f & Hf & -> & Hz). cbn [free_page_table].
  assert (users own A f = 1) as Hu by (unfold users; rewrite Hown, Hz; lia).
  destruct (free_page_frames _ _ _ Hfr Hf ltac:(lia)) as [Hsame Hfr'].
  assert (forall g, users (delete (frame_addr_of f) own) (with_roots (a_roots A ∖ {[frame_addr_of f]}) A) g =
    count_set (users own A) f (users own A f - 1) g) as Husers.
  { intros g. unfold count_set. destruct (Z.eqb_spec g f) as [->|Hne].
    - rewrite Hu. unfold users. rewrite lookup_delete_eq. change (refs (with_roots _ A) f) with (refs A f). lia.
    - unfold users. rewrite lookup_delete_ne by (intros ?%frame_addr_inj; congruence). done. }
  split; [by eapply frames_ok_ext; [intros g _; apply Husers|]|].
  apply (shape_same _ _ v); [exact Hsame|]. destruct Hs as [H1 H2 H3 H4 H5 H6 H7 H8]. split; try done.
  - split.
    + intros t r' L p [_ Ho]%lookup_delete_Some. by apply (tr_table _ _ H1 t r' L p).
    + intros t r' L p i [_ Ho]%lookup_delete_Some HL Hi Hp. pose proof (tr_child _ _ H1 _ _ _ _ _ Ho HL Hi Hp) as Hc.
      rewrite lookup_delete_ne; [done|]. intros Heq. rewrite <- Heq, Hown in Hc. pose proof (tr_level _ _ H1 _ _ _ _ Ho). injection Hc as _ ? _. lia.
    + intros t r' L p [_ Ho]%lookup_delete_Some. by apply (tr_level _ _ H1 t r' L p).
  - intros r' [Hr' Hne]%elem_of_difference. rewrite lookup_delete_ne by set_solver. by apply H2.
  - intros t x [_ Ho]%lookup_delete_Some. by apply (H3 t x).
  - intros r' k e He. destruct (H4 r' k e He) as (G1 & G2 & G3 & G4). split; [|done]. cbn.
    apply elem_of_difference. split; [done|]. intros ->%elem_of_singleton. by rewrite Hnone in He.
  - intros r' k [Hr' _]%elem_of_difference. by apply H6.
Qed.

Section destroy.
Context {Heap : Type} {HK : KernelHeap Heap} {HL : KernelHeapLaws Heap}.
Abbreviation mm := (@mm_t Heap).

(** What the loop leaves of the space: the pages of the areas are gone. *)
Record unmapped (r : Z) (l : list (Z * area)) (A A' : vm_abs) : Prop := {
  un_roots : a_roots A' = a_roots A;
  un_others : forall r' k, r' <> r -> a_maps A' !! (r', k) = a_maps A !! (r', k);
  un_gone : forall k, attr_at l (k * 4096) <> None -> a_maps A' !! (r, k) = None;
  un_sub : forall k, a_maps A !! (r, k) = None -> a_maps A' !! (r, k) = None;
  un_pages : a_pages A' = a_pages A }.

Lemma unmapped_nil r A : unmapped r [] A A.
Proof. split; done. Qed.

Lemma unmapped_cons r p a l A A' :
  unmapped r l (cut_pages r (lo a) (hi a) A) A' -> unmapped r ((p, a) :: l) A A'.
Proof.
  intros [H1 H2 H3 H4 H5]. split; [done| | | |done].
  - intros r' k Hr. rewrite H2 by done. cbn. rewrite maps_cut_lookup, decide_False by tauto. done.
  - intros k. change ((p, a) :: l) with ([(p, a)] ++ l). rewrite attr_app, attr_one. case_decide as Hx; intros Hk.
    + apply H4. cbn. rewrite maps_cut_lookup, decide_True; done.
    + by apply H3.
  - intros k Hk. apply H4. cbn. rewrite maps_cut_lookup. by case_decide.
Qed.

Lemma destroy_regions_run n : forall own A s sp pv l m,
  rep own A (vm m) -> space_at m !! s = Some sp -> pml4_virt sp ∈ a_roots A -> seg (region_at sp) pv l NULL -> NoDup l.*1 ->
  Forall (fun x => area_wf x.2) l -> dom (region_at sp) ⊆ live (heap m) -> (length l <= n)%nat ->
  wp (destroy_regions n s (first l NULL)) (fun _ m' => exists own' A' sp', rep own' A' (vm m') /\ unmapped (pml4_virt sp) l A A' /\
    space_at m' = <[s := sp']> (space_at m) /\ pml4_virt sp' = pml4_virt sp /\
    live (heap m) ∖ dom (region_at sp) ⊆ live (heap m') /\ live (heap m') ⊆ live (heap m) /\ kernel_vm_space m' = kernel_vm_space m) m.
Proof.
  induction n as [|n IH]; intros own A s sp pv l m Hrep Hs Hroot Hseg Hnd Hwf Hlive Hn;
    (destruct l as [|[p a] l]; cbn [first length] in *; [cbn [destroy_regions]; apply wp_pret; exists own, A, sp;
       split; [done|]; split; [apply unmapped_nil|]; split; [by rewrite insert_id|]; split; [done|]; split; [set_solver|done]|]); [lia|].
  cbn [destroy_regions]. destruct Hseg as [Hp Hseg]. apply NoDup_cons in Hnd as [Hpl Hnd]. apply Forall_cons in Hwf as [[Hr _] Hwf]. cbn [snd] in Hr.
  wp_step. eapply read_space_run; [exact Hs|by apply (region_run p _ _ _ Hp)|]. cbn [object start_addr end_addr next].
  wp_step. eapply wp_weaken; [by apply (unmap_pages_run own A s sp (lo a) (hi a) m)|]. intros _ m1 (own1 & Hm1).
  pose proof (vm_became_space _ _ _ _ _ _ Hm1) as Hsp1. destruct Hm1 as (_ & Hm1 & Hrep1). fold (cut_pages (pml4_virt sp) (lo a) (hi a) A) in Hrep1.
  assert (heap m1 = heap m /\ kernel_vm_space m1 = kernel_vm_space m) as [Hh1 Hk1] by (rewrite Hm1; done).
  unfold free_region. wp_step. wp_step. eapply in_space_run; [rewrite Hsp1; exact Hs|]. wp_go. unfold free, in_heap. apply wp_pcall. cbn [fst snd].
  assert (p ∈ dom (region_at sp)) as Hpd by (apply elem_of_dom; by eexists).
  assert (live (kfree p (heap m)) = live (heap m) ∖ {[p]}) as Hfree by (apply kfree_live; set_solver).
  eapply wp_weaken.
  { eapply (IH own1 _ s (delete_region p sp) (& p) l); cbn [vm set_heap set_spaces space_at heap]; [exact Hrep1|apply lookup_insert_eq|done| |done|done| |lia].
    - eapply region_seg_ext; [|exact Hseg]. intros q Hq. cbn. apply lookup_delete_ne. intros <-. done.
    - cbn. rewrite dom_delete_L, Hh1, Hfree. set_solver. }
  intros _ m' (own' & A' & sp' & H1 & H2 & H3 & H4 & H5 & H6 & H7). cbn [space_at heap set_heap set_spaces kernel_vm_space delete_region region_at set_region_at pml4_virt] in *.
  exists own', A', sp'. split; [done|]. split; [by apply unmapped_cons|]. split; [by rewrite H3, insert_insert_eq, Hsp1|]. split; [done|].
  rewrite Hh1, Hfree in H5, H6. split; [rewrite dom_delete_L in H5; set_solver|]. split; [set_solver|]. by rewrite H7.
Qed.

(** A space less. *)
Lemma mm_drop own A L m s sp own' A' m' :
  mm_rep own A L m -> s ∈ dom L -> space_at m !! s = Some sp -> rep own' A' (vm m') ->
  a_roots A' = a_roots A ∖ {[pml4_virt sp]} -> (forall r k, r <> pml4_virt sp -> a_maps A' !! (r, k) = a_maps A !! (r, k)) ->
  space_at m' = delete s (space_at m) -> (live (heap m) ∖ dom (region_at sp)) ∖ {[s]} ⊆ live (heap m') ->
  mm_rep own' A' (delete s L) m' /\ others_same (dom L) s m m'.
Proof.
  intros [M1 M2 M3 M4 M5 M6] Hs Hsp Hrep' Hroots Hmaps Hsp' Hlive.
  assert (forall s' l, s' <> s -> L !! s' = Some l -> exists sp2, view own A s' sp2 l m /\ view own' A' s' sp2 l m' /\ areas_ok l /\
    mapped_in A' (pml4_virt sp2) l /\ pml4_virt sp2 <> pml4_virt sp) as Hother.
  { intros s' l Hne Hl. destruct (M2 s' l Hl) as (sp2 & V & Hao & Hmap). pose proof V as [V1 V2 V3 V4 V5].
    assert (pml4_virt sp2 <> pml4_virt sp) as Hpn.
    { intros Heq. apply Hne, (M3 s' s sp2 sp); try done. by eapply elem_of_dom_2. }
    exists sp2. split; [done|]. split; [|split; [done|]; split; [|done]].
    - split; [done|by rewrite Hsp', lookup_delete_ne|done|rewrite Hroots; set_solver|].
      pose proof (M4 s' s sp2 sp Hne V2 Hsp). pose proof (M6 s' s sp2 V2 ltac:(by eexists)). set_solver.
    - intros k e He. rewrite Hmaps in He by done. by apply (Hmap k e). }
  split.
  - split; [done| | | | |].
    + intros s' l [Hne Hl]%lookup_delete_Some. destruct (Hother s' l ltac:(done) Hl) as (sp2 & _ & H1 & H2 & H3 & _). by exists sp2.
    + rewrite dom_delete_L, Hsp'. intros s1 s2 sp1 sp2 D1 D2 [_ E1]%lookup_delete_Some [_ E2]%lookup_delete_Some.
      apply (M3 s1 s2 sp1 sp2); set_solver.
    + rewrite Hsp'. intros s1 s2 sp1 sp2 Hne [_ E1]%lookup_delete_Some [_ E2]%lookup_delete_Some. by apply (M4 s1 s2).
    + rewrite Hsp'. intros s1 sp1 [Hne E1]%lookup_delete_Some. destruct (M5 s1 sp1 E1) as [H1 H2].
      pose proof (M4 s1 s sp1 sp ltac:(done) E1 Hsp). pose proof (M6 s s1 sp Hsp ltac:(by eexists)). pose proof (M6 s1 s sp1 E1 ltac:(by eexists)). set_solver.
    + rewrite Hsp'. intros s1 s2 sp1 [_ E1]%lookup_delete_Some [x [_ E2]%lookup_delete_Some]. apply (M6 s1 s2 sp1 E1). by eexists.
  - intros s' [l Hl]%elem_of_dom Hne. destruct (Hother s' l Hne Hl) as (sp2 & V & V' & _ & _ & Hpn). split.
    + intros x. by rewrite (region_of_view _ _ _ _ _ _ x V), (region_of_view _ _ _ _ _ _ x V').
    + intros k Hk. rewrite (entry_of_view _ _ _ _ _ _ k V Hk), (entry_of_view _ _ _ _ _ _ k V' Hk). by apply Hmaps.
Qed.

Lemma destroy_space_run own A L m s :
  mm_rep own A L m -> s ∈ dom L -> kernel_vm_space m <> & s ->
  wp (vmm_destroy_address_space (& s)) (fun _ m' => space_at m' = delete s (space_at m) /\ others_same (dom L) s m m' /\
    contents (vm m') = contents (vm m) /\ exists own' A', mm_rep own' A' (delete s L) m') m.
Proof.
  intros Hok Hs Hk. destruct (mm_member _ _ _ _ _ Hok Hs) as (sp & l & Hl & V & [Hwf Hsort] & Hmap). pose proof V as [V1 V2 V3 V4 V5].
  unfold vmm_destroy_address_space. wp_step. apply wp_pget. rewrite bool_decide_eq_false_2 by congruence.
  wp_step. eapply read_space_run; [exact V2|by apply wp_pget|]. rewrite (lk_head _ _ V3).
  wp_step. eapply read_space_run; [exact V2|by apply wp_pget|].
  wp_step. eapply wp_weaken.
  { eapply (destroy_regions_run _ own A s sp NULL l m); try done; [apply V3|apply V3|]. pose proof (list_ok_fuel _ _ V3). unfold list_fuel. lia. }
  intros _ m1 (own1 & A1 & sp1 & Hrep1 & [U1 U2 U3 U4 U5] & Hsp1 & Hpm & Hl1 & Hl1' & Hk1).
  wp_step. eapply read_space_run; [rewrite Hsp1; apply lookup_insert_eq|apply wp_pget; split; [exact Hpm|done]|].
  wp_step. apply in_vm_run. cbn [fst snd]. wp_step. apply wp_pmodify. wp_step. unfold free, in_heap. apply wp_pcall. cbn [fst snd]. apply in_vm_run. cbn [fst snd].
  assert (rep (delete (pml4_virt sp) own1) (with_roots (a_roots A1 ∖ {[pml4_virt sp]}) A1) (free_page_table (vm m1) (& (pml4_virt sp)))) as Hrep2.
  { apply free_root; [done|by rewrite U1|]. intros k. destruct (a_maps A !! (pml4_virt sp, k)) as [e|] eqn:Ee; [|by apply U4].
    apply U3. by apply (Hmap k e). }
  destruct (mo_live _ _ _ _ Hok s sp V2) as [Hsl _]. pose proof (mo_space _ _ _ _ Hok s s sp V2 ltac:(by eexists)) as Hsd.
  assert (s ∈ live (heap m1)) as Hs1 by set_solver.
  match goal with |- space_at ?x = _ /\ _ => set (m' := x) end.
  assert (space_at m' = delete s (space_at m)) as Hsp' by (cbn; by rewrite Hsp1, delete_insert_eq).
  split; [exact Hsp'|].
  edestruct (mm_drop own A L m s sp (delete (pml4_virt sp) own1) (with_roots (a_roots A1 ∖ {[pml4_virt sp]}) A1) m' Hok Hs V2) as [Hok' Ho].
  - exact (rep_statistics _ _ _ _ Hrep2).
  - cbn. by rewrite U1.
  - exact U2.
  - exact Hsp'.
  - cbn. rewrite kfree_live by done. set_solver.
  - split; [exact Ho|]. split; [|by eexists _, _].
    rewrite (sh_pages _ _ _ (proj2 (mo_rep _ _ _ _ Hok))), <- U5. exact (sh_pages _ _ _ (proj2 Hrep2)).
Qed.
End destroy.
