(* ===== verification/RegionMmSpec.v ===== *)
(** * The region operations on all spaces

    Each operation of vmm_regions.c at the level of [mm_ok]: what the process
    sees afterwards ([region_of], [entry_of]), and that the other processes
    see no change. *)
From Stdlib Require Import ZArith Lia Sorted.
From stdpp Require Import gmap sorting.
From S2P Require Import Prelude.
From S2P Require Import StateMonad KernelHeap.
From S2P Require Import Vmm VmmSpec PageWalk PageTreeSpec FrameSpec PageWalkSpec PageOpsSpec PageBootSpec.
From S2P Require Import VmmRegions RegionListSpec RegionPagesSpec RegionOpsSpec.
From S2P Require Import RegionOpsSpec RegionSpaceSpec.
Open Scope Z_scope.
Open Scope c_scope.
Open Scope prog_scope.

(** ** Pages stay inside the regions *)
Lemma mapped_cut A r l l' a b :
  mapped_in A r l -> (forall x, attr_at l' x = if decide (a <= x < b) then None else attr_at l x) -> mapped_in (cut_pages r a b A) r l'.
Proof.
  intros Hm Hl k e. cbn. rewrite maps_cut_lookup. case_decide as Hd; [done|]. intros He. rewrite Hl.
  rewrite decide_False; [by apply (Hm k e)|]. intros Hx. apply Hd. done.
Qed.

Lemma mapped_change A r l l' a b nf g :
  mapped_in A r l -> (forall x, attr_at l' x = attr_set l a b nf x) -> mapped_in (change_pages r a b g A) r l'.
Proof.
  intros Hm Hl k e. cbn. rewrite maps_change_lookup. intros He. rewrite Hl. unfold attr_set.
  assert (is_Some (a_maps A !! (r, k))) as [e0 He0] by (destruct (a_maps A !! (r, k)); [by eexists|by case_decide]).
  specialize (Hm k e0 He0). by destruct (attr_at l (k * 4096)), (decide (a <= k * 4096 < b)).
Qed.

Lemma mapped_wider A r l l' : mapped_in A r l -> (forall x, attr_at l x <> None -> attr_at l' x <> None) -> mapped_in A r l'.
Proof. intros Hm Hl k e He. by apply Hl, (Hm k e). Qed.

Lemma mapped_filled A A' r l l' a b fl v :
  mapped_in A r l -> filled r a b fl A A' -> (forall x, attr_at l' x = if decide (a <= x < b) then Some v else attr_at l x) ->
  mapped_in A' r l'.
Proof.
  intros Hm (_ & _ & _ & _ & Hf & _) Hl k e He. rewrite Hl. case_decide as Hd; [done|]. rewrite Hf in He; [by apply (Hm k e)|].
  intros [_ Hin]. by apply Hd.
Qed.

(** ** A frame with one reference *)
Lemma one_mapping m key key' e e' f :
  mappings m f = 1 -> m !! key = Some e -> pte_to_phys e = frame_addr_of f ->
  m !! key' = Some e' -> pte_to_phys e' = frame_addr_of f -> key' = key.
Proof.
  intros H1 He Hp He' Hp'. destruct (decide (key' = key)) as [|Hne]; [done|]. exfalso.
  pose proof (mappings_delete m key e f He) as Hd. rewrite decide_True in Hd by done.
  assert (delete key m !! key' = Some e') as Hk by by rewrite lookup_delete_ne.
  pose proof (mapped_refs _ _ _ _ Hk Hp'). lia.
Qed.

Lemma one_ref A key key' e e' f :
  refs A f = 1 -> a_maps A !! key = Some e -> pte_to_phys e = frame_addr_of f ->
  a_maps A !! key' = Some e' -> pte_to_phys e' = frame_addr_of f -> key' = key.
Proof.
  intros H1 He Hp. pose proof (mapped_refs _ _ _ _ He Hp). unfold refs in H1. apply (one_mapping _ _ _ e e' f); [|done..].
  case_decide; lia.
Qed.

Section mm.
Context {Heap : Type} {HK : KernelHeap Heap} {HL : KernelHeapLaws Heap}.
Abbreviation mm := (@mm_t Heap).

(** The frame of a page is no other page's. *)
Definition private (S : gset Z) (m : mm) (s k f : Z) : Prop :=
  forall s' k' e, s' ∈ S -> user_page k' -> entry_of m s' k' = Some e -> pte_to_phys e = frame_addr_of f -> s' = s /\ k' = k.

Lemma ref_private own A L m s sp k e f :
  mm_rep own A L m -> s ∈ dom L -> space_at m !! s = Some sp -> refs A f = 1 -> a_maps A !! (pml4_virt sp, k) = Some e ->
  pte_to_phys e = frame_addr_of f -> private (dom L) m s k f.
Proof.
  intros Hok Hs Hsp H1 He Hp s' k' e' Hs' Hk' He' Hp'. destruct (mm_member _ _ _ _ _ Hok Hs') as (sp' & l' & _ & V' & _).
  rewrite (entry_of_view _ _ _ _ _ _ _ V' Hk') in He'.
  pose proof (one_ref A _ _ _ _ f H1 He Hp He' Hp') as [= Hr ->]. split; [|done].
  apply (mo_roots _ _ _ _ Hok s' s sp' sp); try done. apply V'.
Qed.

Definition looks_same (s : Z) (m m' : mm) : Prop :=
  (forall x, region_of m' s x = region_of m s x) /\ (forall k, user_page k -> entry_of m' s k = entry_of m s k).

Lemma looks_view own A own' A' s sp sp' l l' m m' :
  view own A s sp l m -> view own' A' s sp' l' m' -> pml4_virt sp' = pml4_virt sp ->
  (forall x, attr_at l' x = attr_at l x) -> (forall k, a_maps A' !! (pml4_virt sp, k) = a_maps A !! (pml4_virt sp, k)) -> looks_same s m m'.
Proof.
  intros V V' Hpm Hl Ha. split.
  - intros x. by rewrite (region_of_view _ _ _ _ _ _ x V), (region_of_view _ _ _ _ _ _ x V').
  - intros k Hk. by rewrite (entry_of_view _ _ _ _ _ _ k V Hk), (entry_of_view _ _ _ _ _ _ k V' Hk), Hpm.
Qed.

Lemma looks_rep own A L m m' s :
  mm_rep own A L m -> mm_rep own A L m' -> space_at m' = space_at m -> s ∈ dom L -> looks_same s m m'.
Proof.
  intros Hok Hok' Hsp Hs. destruct (mm_member _ _ _ _ _ Hok Hs) as (sp & l & Hl & V & _).
  destruct (mo_view _ _ _ _ Hok' s l Hl) as (sp' & V' & _). eapply looks_view; try done.
  pose proof (vw_space _ _ _ _ _ _ V). pose proof (vw_space _ _ _ _ _ _ V'). congruence.
Qed.

(** ** Unmapping *)
Lemma munmap_mm S m s sp addr size :
  mm_ok S m -> s ∈ S -> space_at m !! s = Some sp -> 0 < addr -> 0 < size -> addr + size <= 2 ^ 47 -> ~ no_room m ->
  let first := vmm_align_down addr PAGE_SIZE in let last := vmm_align_up (addr + size) PAGE_SIZE in
  wp (vmm_munmap (& s) addr size) (fun rc m' => rc = VMM_SUCCESS /\ mm_ok S m' /\ others_same S s m m' /\
    (forall x, region_of m' s x = if decide (first <= x < last) then None else region_of m s x) /\
    (forall k, user_page k -> entry_of m' s k = if decide (in_range first last k) then None else entry_of m s k)) m.
Proof.
  intros (own & A & L & <- & Hok) Hs Hsp Ha Hsz Hle Hroom first last.
  destruct (mm_member _ _ _ _ _ Hok Hs) as (sp0 & l & Hl & V & Hao & Hmap).
  assert (sp0 = sp) as -> by (pose proof (vw_space _ _ _ _ _ _ V); congruence).
  eapply wp_weaken; [by apply (munmap_run own A s sp l m addr size)|]. fold first last.
  intros rc m' (-> & own' & sp' & l' & V' & Hloc & Hao' & Hattr). split; [done|].
  destruct (mm_local _ _ _ _ _ _ _ _ _ _ _ _ _ Hok Hl V V' Hloc Hao') as [Hok' Ho]; [by apply (mapped_cut A _ l)|].
  split; [by eapply mm_ok_insert|]. split; [done|]. split.
  - intros x. by rewrite (region_of_view _ _ _ _ _ _ x V), (region_of_view _ _ _ _ _ _ x V').
  - intros k Hk. rewrite (entry_of_view _ _ _ _ _ _ k V Hk), (entry_of_view _ _ _ _ _ _ k V' Hk), (lc_pml4 _ _ _ _ _ _ _ _ _ _ Hloc).
    cbn. rewrite maps_cut_lookup. repeat case_decide; tauto.
Qed.

(** ** Changing the protection *)
Definition reprotect (nf : Z) (v : attr) : attr := (nf, v.2).

Lemma protect_mm S m s addr size nf :
  mm_ok S m -> s ∈ S -> 0 <= addr -> 0 < size -> addr + size <= 2 ^ 47 ->
  let first := vmm_align_down addr PAGE_SIZE in let last := vmm_align_up (addr + size) PAGE_SIZE in
  wp (vmm_protect_region (& s) addr size nf) (fun rc m' => mm_ok S m' /\ others_same S s m m' /\
    exists c, first <= c <= last /\
    (forall x, region_of m' s x = if decide (first <= x < c) then reprotect nf <$> region_of m s x else region_of m s x) /\
    (forall k, user_page k -> entry_of m' s k = if decide (in_range first c k) then protected nf <$> entry_of m s k else entry_of m s k) /\
    (rc = VMM_SUCCESS /\ c = last /\ (forall x, first <= x < last -> region_of m s x <> None) \/
     rc = VMM_ERROR_NOT_FOUND /\ c < last /\ region_of m s c = None \/
     rc = VMM_ERROR_NOMEM)) m.
Proof.
  intros (own & A & L & <- & Hok) Hs Ha Hsz Hle first last.
  destruct (mm_member _ _ _ _ _ Hok Hs) as (sp & l & Hl & V & Hao & Hmap).
  eapply wp_weaken; [by apply (protect_run own A s sp l m addr size nf)|]. fold first last.
  intros rc m' (c & sp' & l' & Hc & (V' & Hloc & Hao' & Hattr) & Hrc).
  destruct (mm_local _ _ _ _ _ _ _ _ _ _ _ _ _ Hok Hl V V' Hloc Hao') as [Hok' Ho]; [by apply (mapped_change A _ l _ _ _ nf)|].
  split; [by eapply mm_ok_insert|]. split; [done|]. exists c. split; [done|].
  assert (forall x, region_of m s x = attr_at l x) as Hr by (intros x; apply (region_of_view _ _ _ _ _ _ x V)). split; [|split].
  - intros x. rewrite Hr, (region_of_view _ _ _ _ _ _ x V'), Hattr. done.
  - intros k Hk. rewrite (entry_of_view _ _ _ _ _ _ k V Hk), (entry_of_view _ _ _ _ _ _ k V' Hk), (lc_pml4 _ _ _ _ _ _ _ _ _ _ Hloc).
    cbn. rewrite maps_change_lookup. repeat case_decide; tauto.
  - destruct Hrc as [(-> & -> & Hall)|[(-> & Hlt & Hn)| ->]]; [left|right; left; by rewrite Hr|by right; right]. split; [done|]. split; [done|].
    intros x Hx. rewrite Hr. by apply Hall.
Qed.

(** ** Mapping *)
Definition free_in (m : mm) (s a b : Z) : Prop := forall x, a <= x < b -> region_of m s x = None.

(** The search for an address starts at a page, or is not needed. *)
Definition can_search (m : mm) (s addr size fl : Z) : Prop :=
  forall sp, space_at m !! s = Some sp ->
    aligned (mmap_start sp) /\ 0 < mmap_start sp <= 2 ^ 47 \/
    addr <> 0 /\ (pte_has fl VMM_MMAP_FIXED = true \/
      free_in m s (vmm_align_down addr PAGE_SIZE) (vmm_align_down addr PAGE_SIZE + size)).

(** No free range will do. *)
Definition no_place (m : mm) (s addr size fl : Z) : Prop :=
  addr <> 0 /\ pte_has fl VMM_MMAP_FIXED = true /\
    ~ free_in m s (vmm_align_down addr PAGE_SIZE) (vmm_align_down addr PAGE_SIZE + size) \/
  exists sp, space_at m !! s = Some sp /\
    forall y, aligned y -> mmap_start sp <= y -> y + size < mmap_limit -> ~ free_in m s y (y + size).

(** The pages of a mapping that is not lazy. *)
Definition fresh_page (S : gset Z) (m' : mm) (s k fl : Z) : Prop :=
  exists f, frame_ok f /\ entry_of m' s k = Some (phys_to_pte (frame_addr_of f) fl) /\ private S m' s k f.

Lemma free_in_view own A s sp l m a b : view own A s sp l m -> free_in m s a b <-> range_free l a b.
Proof. intros V. split; intros H x Hx; specialize (H x Hx); by rewrite (region_of_view _ _ _ _ _ _ x V) in *. Qed.

Lemma mmap_mm S m s addr size prot fl :
  mm_ok S m -> s ∈ S -> 0 < size <= 2 ^ 46 -> (addr = 0 \/ 4096 <= addr /\ addr + vmm_align_up size PAGE_SIZE <= 2 ^ 47) ->
  can_search m s addr (vmm_align_up size PAGE_SIZE) fl ->
  let n := vmm_align_up size PAGE_SIZE in
  wp (vmm_mmap (& s) addr size prot fl) (fun rc m' => mm_ok S m' /\ others_same S s m m' /\
    (rc = MAP_FAILED /\ looks_same s m m' /\ (no_place m s addr n fl \/ no_room m \/ pte_has fl VMM_MMAP_LAZY = false) \/
     aligned rc /\ 0 < rc /\ rc + n <= 2 ^ 47 /\ free_in m s rc (rc + n) /\
     (addr <> 0 -> free_in m s (vmm_align_down addr PAGE_SIZE) (vmm_align_down addr PAGE_SIZE + n) -> rc = vmm_align_down addr PAGE_SIZE) /\
     (forall x, region_of m' s x = if decide (rc <= x < rc + n) then Some (prot_flags prot, VMM_REGION_MMAP) else region_of m s x) /\
     (forall k, user_page k -> ~ in_range rc (rc + n) k -> entry_of m' s k = entry_of m s k) /\
     (forall k, user_page k -> in_range rc (rc + n) k ->
        if pte_has fl VMM_MMAP_LAZY then entry_of m' s k = None else fresh_page S m' s k (page_flags_of (prot_flags prot))))) m.
Proof.
  intros (own & A & L & <- & Hok) Hs Hsz Ha Hsearch n.
  destruct (mm_member _ _ _ _ _ Hok Hs) as (sp & l & Hl & V & Hao & Hmap).
  assert (forall a b, free_in m s a b <-> range_free l a b) as Hfree by (intros; by apply (free_in_view own A s sp l)).
  assert (searchable l (mmap_start sp) addr n fl) as Hse.
  { destruct (Hsearch sp (vw_space _ _ _ _ _ _ V)) as [?|(? & [?|Hf%Hfree])]; [by left|right; auto..]. }
  eapply wp_weaken; [by apply (mmap_run own A s sp l m addr size prot fl)|]. fold n.
  assert (forall m' own' sp', view own' A s sp' l m' -> local s own A m sp own' A m' sp' ->
    mm_ok (dom L) m' /\ others_same (dom L) s m m' /\ looks_same s m m') as Hsame.
  { intros m' own' sp' V' Hloc. destruct (mm_local _ _ _ _ _ _ _ _ _ _ _ _ _ Hok Hl V V' Hloc Hao Hmap) as [Hok' Ho].
    split; [by eapply mm_ok_insert|]. split; [done|]. eapply looks_view; try done. apply Hloc. }
  intros rc m' ([st|] & Hpl & Hres).
  2:{ destruct Hres as [-> ->]. destruct (Hsame m own sp V ltac:(by eapply local_refl)) as (H1 & H2 & H3).
      split; [done|]. split; [done|]. left. split; [done|]. split; [done|]. left. destruct Hpl as [(P1 & P2 & P3)|Hpl].
      - left. by rewrite Hfree.
      - right. exists sp. split; [apply V|]. intros y Hy Hy1 Hy2. rewrite Hfree. by apply Hpl. }
  destruct Hpl as (P1 & P2 & P3 & P4 & P5). destruct Hres as [(-> & (own' & sp' & V' & Hloc) & Hwhy)|(-> & own' & A' & sp' & l' & V' & Hloc & Hao' & Hattr & Hfill & _)].
  { destruct (Hsame m' own' sp' V' Hloc) as (H1 & H2 & H3). split; [done|]. split; [done|]. left. split; [done|]. split; [done|by right]. }
  assert (mapped_in A' (pml4_virt sp) l') as Hmap'.
  { destruct (pte_has fl VMM_MMAP_LAZY).
    - subst A'. apply (mapped_wider A _ l); [done|]. intros x Hx. rewrite Hattr. by case_decide.
    - by apply (mapped_filled A A' _ l l' _ _ _ _ Hmap Hfill Hattr). }
  destruct (mm_local _ _ _ _ _ _ _ _ _ _ _ _ _ Hok Hl V V' Hloc Hao' Hmap') as [Hok' Ho].
  pose proof (lc_pml4 _ _ _ _ _ _ _ _ _ _ Hloc) as Hpm.
  assert (forall k, user_page k -> entry_of m' s k = a_maps A' !! (pml4_virt sp, k) /\ entry_of m s k = a_maps A !! (pml4_virt sp, k)) as He.
  { intros k Hk. by rewrite (entry_of_view _ _ _ _ _ _ k V Hk), (entry_of_view _ _ _ _ _ _ k V' Hk), Hpm. }
  split; [by eapply mm_ok_insert|]. split; [done|]. right. split; [done|]. split; [done|]. split; [done|]. split; [by apply Hfree|].
  split; [intros Hne Hf; apply P5; [done|by apply Hfree]|]. split; [|split].
  - intros x. by rewrite (region_of_view _ _ _ _ _ _ x V), (region_of_view _ _ _ _ _ _ x V').
  - intros k Hk Hin. destruct (He k Hk) as [-> ->]. destruct (pte_has fl VMM_MMAP_LAZY); [by rewrite Hfill|].
    destruct Hfill as (_ & _ & _ & _ & Hf & _). apply Hf. tauto.
  - intros k Hk Hin. destruct (pte_has fl VMM_MMAP_LAZY).
    + destruct (He k Hk) as [-> _]. rewrite Hfill. destruct (a_maps A !! (pml4_virt sp, k)) as [e|] eqn:Ee; [|done].
      exfalso. apply (Hmap _ _ Ee). by apply P4.
    + destruct Hfill as (_ & _ & _ & _ & _ & Hf). destruct (Hf k Hin) as (f & F1 & F2 & _ & F4). exists f. split; [done|].
      destruct (He k Hk) as [-> _]. split; [done|].
      replace (dom L) with (dom (<[s := l']> L)) by (apply dom_insert_lookup_L; by eexists).
      eapply (ref_private own' A' _ m' s sp'); [exact Hok'| |apply V'|exact F4|rewrite Hpm; exact F1|by apply new_entry].
      rewrite dom_insert. set_solver.
Qed.

(** ** Page faults *)

(** A page that is filled is absent: the processor faults only then. *)
Definition faults_absent (m : mm) (s : Z) (f : page_fault_info_t) : Prop :=
  classify f (region_of m s (fault_addr f)) = FillPage -> entry_of m s (pte_index (fault_addr f)) = None.

(** The other pages of the space look the same. *)
Definition other_pages_same (s x : Z) (m m' : mm) : Prop :=
  forall k, user_page k -> k <> pte_index x -> entry_of m' s k = entry_of m s k.

Lemma cow_entry own v A r x rc A' :
  rep own A v -> abs_step (CowFault r x) A rc A' ->
  a_roots A' = a_roots A /\ (forall r' k, (r', k) <> (r, pte_index x) -> a_maps A' !! (r', k) = a_maps A !! (r', k)) /\
  ((rc = VMM_ERROR_NOT_FOUND /\ a_maps A !! (r, pte_index x) = None \/ rc = VMM_ERROR_NOMEM) /\ A' = A \/
   rc = VMM_SUCCESS /\ exists e0 e, a_maps A !! (r, pte_index x) = Some e0 /\
     a_maps A' !! (r, pte_index x) = Some e /\ pte_has e PAGE_WRITABLE = true /\
     frame_at (a_pages A') (pte_to_phys e) = frame_at (a_pages A) (pte_to_phys e0) /\
     forall r' k e', (r', k) <> (r, pte_index x) -> a_maps A !! (r', k) = Some e' -> pte_to_phys e' <> pte_to_phys e /\
       frame_at (a_pages A') (pte_to_phys e') = frame_at (a_pages A) (pte_to_phys e')).
Proof.
  intros Hrep Hstep. assert (a_roots A' = a_roots A) as Hroots by by inversion Hstep. split; [done|].
  destruct (decide (rc = VMM_SUCCESS)) as [->|Hne].
  - destruct (cow_step_private own v A A' r x Hrep Hstep) as (e & e' & H1 & H2 & H3 & H4 & H5). split.
    + intros r' k Hk. by apply H5.
    + right. split; [done|]. exists e, e'. split_and!; try done. intros r' k e'' Hk. by apply H5.
  - inversion Hstep; subst; try done; (split; [done|]); left; (split; [|done]); [by right|by left].
Qed.

(** Every page that is mapped reads after a fault as before it. *)
Lemma fault_reads own v A r f a rc A' r' k :
  rep own A v -> fault_effect r f a A rc A' -> (classify f a = FillPage -> a_maps A !! (r, pte_index (fault_addr f)) = None) ->
  a_maps A !! (r', k) <> None ->
  (fun e => frame_at (a_pages A') (pte_to_phys e)) <$> a_maps A' !! (r', k) =
  (fun e => frame_at (a_pages A) (pte_to_phys e)) <$> a_maps A !! (r', k).
Proof.
  intros Hrep Heff Habs Hm. unfold fault_effect in Heff. destruct (classify f a) eqn:Ec.
  - by destruct Heff as [_ ->].
  - by destruct Heff as [_ ->].
  - destruct (cow_entry _ _ _ _ _ _ _ Hrep Heff) as (_ & H2 & [[_ ->]|(_ & e0 & e & H3 & H4 & _ & H5 & H6)]); [done|].
    destruct (decide ((r', k) = (r, pte_index (fault_addr f)))) as [[= -> ->]|Hne]; [rewrite H3, H4; cbn; by rewrite H5|].
    rewrite H2 by done. destruct (a_maps A !! (r', k)) as [e'|] eqn:E; [|done]. cbn. by destruct (H6 _ _ _ Hne E) as [_ ->].
  - destruct Heff as [[_ ->]|(_ & g & _ & _ & ->)]; [done|]. unfold map_at. cbn [a_maps a_pages with_maps].
    rewrite lookup_insert_ne; [done|]. intros [= <- <-]. by apply Hm, Habs.
  - by destruct Heff as [_ ->].
Qed.

(** What a page of a process reads as. *)
Definition page_bytes (m : mm) (s k : Z) : option (list byte) :=
  (fun e => frame_at (contents (vm m)) (pte_to_phys e)) <$> entry_of m s k.

(** A page of its own, which can be written. *)
Definition own_page (S : gset Z) (m' : mm) (s k : Z) : Prop :=
  exists e f, frame_ok f /\ entry_of m' s k = Some e /\ pte_to_phys e = frame_addr_of f /\ pte_has e PAGE_WRITABLE = true /\
    private S m' s k f.

Lemma fault_mm S m s f :
  mm_ok S m -> s ∈ S -> current_space m = & s -> 0 <= fault_addr f < 2 ^ 47 -> faults_absent m s f ->
  let x := fault_addr f in
  wp (vmm_handle_page_fault (& f)) (fun rc m' => mm_ok S m' /\ others_same S s m m' /\ other_pages_same s x m m' /\
    (forall y, region_of m' s y = region_of m s y) /\
    (forall s' k, s' ∈ S -> user_page k -> entry_of m s' k <> None -> page_bytes m' s' k = page_bytes m s' k) /\
    let before := entry_of m s (pte_index x) in let after := entry_of m' s (pte_index x) in
    match classify f (region_of m s x) with
    | NoRegion => rc = VMM_ERROR_NOT_FOUND /\ after = before
    | Denied => rc = VMM_ERROR_PERM_DENIED /\ after = before
    | NoHandler => rc = VMM_ERROR_FAULT /\ after = before
    | FillPage =>
        rc = VMM_ERROR_NOMEM /\ after = None \/
        rc = VMM_SUCCESS /\ fresh_page S m' s (pte_index x) (page_flags_of (from_option fst 0 (region_of m s x)))
    | CopyOnWrite =>
        (rc = VMM_ERROR_NOT_FOUND /\ before = None \/ rc = VMM_ERROR_NOMEM) /\ after = before \/
        rc = VMM_SUCCESS /\ before <> None /\ own_page S m' s (pte_index x)
    end) m.
Proof.
  intros (own & A & L & <- & Hok) Hs Hcur Hx Habs x.
  destruct (mm_member _ _ _ _ _ Hok Hs) as (sp & l & Hl & V & Hao & Hmap).
  pose proof (region_of_view _ _ _ _ _ _ x V) as Hreg. pose proof (page_user x Hx) as Hux.
  pose proof (entry_of_view _ _ _ _ _ _ _ V Hux) as Hent. unfold faults_absent in Habs. fold x in Habs. rewrite Hreg, Hent in Habs.
  eapply wp_weaken; [by apply (fault_run own A s sp l m f V Hcur Hx)|]. fold x. rewrite Hreg.
  intros rc m' (own' & A' & Hb & Heff & _).
  assert (a_roots A' = a_roots A /\ (forall r' k, (r', k) <> (pml4_virt sp, pte_index x) -> a_maps A' !! (r', k) = a_maps A !! (r', k)) /\
    mapped_in A' (pml4_virt sp) l) as (Hroots & Hmaps & Hmap').
  { assert (forall k e, a_maps A' !! (pml4_virt sp, k) = Some e -> (forall r' k, (r', k) <> (pml4_virt sp, pte_index x) ->
      a_maps A' !! (r', k) = a_maps A !! (r', k)) -> (k = pte_index x -> attr_at l x <> None) -> attr_at l (k * 4096) <> None) as Hin.
    { intros k e He Hsame Hxl. destruct (decide (k = pte_index x)) as [->|Hne].
      - specialize (Hxl eq_refl). intros Hnone. apply Hxl. rewrite page_index in Hnone by done.
        apply (attr_page l (x / 4096 * 4096) x Hao); [unfold aligned; by rewrite Z_mod_mult| |done].
        pose proof (Z.div_mod x 4096). pose proof (Z.mod_pos_bound x 4096). lia.
      - rewrite Hsame in He by congruence. by apply (Hmap k e). }
    unfold fault_effect in Heff. fold x in Heff. destruct (classify f (attr_at l x)) eqn:Ec.
    - destruct Heff as [_ ->]. done.
    - destruct Heff as [_ ->]. done.
    - destruct (cow_entry _ _ _ _ _ _ _ (vw_rep _ _ _ _ _ _ V) Heff) as (H1 & H2 & _). split; [done|]. split; [done|].
      intros k e He. apply (Hin k e He H2). intros _ Hn. unfold classify in Ec. by rewrite Hn in Ec.
    - destruct Heff as [[_ ->]|(_ & g & _ & _ & ->)]; [done|].
      assert (forall r' k, (r', k) <> (pml4_virt sp, pte_index x) ->
        a_maps (map_at (pml4_virt sp) x (phys_to_pte (frame_addr_of g) (page_flags_of (from_option fst 0 (attr_at l x)))) A) !! (r', k) = a_maps A !! (r', k)) as Hne
        by (intros r' k Hk; cbn; by apply lookup_insert_ne).
      split; [done|]. split; [done|]. intros k e He. apply (Hin k e He Hne). intros _ Hn. unfold classify in Ec. by rewrite Hn in Ec.
    - destruct Heff as [_ ->]. done. }
  destruct Hb as (Hown & Hm' & Hrep').
  assert (space_at m' = space_at m /\ heap m' = heap m) as [Hsp Hheap] by by rewrite Hm'.
  assert (view own' A' s sp l m') as V'.
  { apply (view_kept own A own' A' s sp l m); [done|done|by rewrite Hroots|rewrite Hsp; apply V|by rewrite Hheap]. }
  destruct (mm_update own A L m s sp l own' A' sp l m' Hok Hl V V' Hao Hmap' Hroots) as [Hok' Ho]; try done.
  { intros r k Hr. apply Hmaps. congruence. }
  { rewrite Hsp. symmetry. apply insert_id, V. }
  { set_solver. }
  { rewrite Hheap. pose proof (vw_live _ _ _ _ _ _ V). apply leibniz_equiv. intros y. destruct (decide (y ∈ dom (region_at sp))); set_solver. }
  assert (forall k, user_page k -> entry_of m' s k = a_maps A' !! (pml4_virt sp, k)) as He' by (intros k Hk; by apply (entry_of_view own' A' s sp l)).
  split; [by eapply mm_ok_insert|]. split; [done|]. split; [|split; [|split]].
  { intros k Hk Hne. rewrite He', (entry_of_view _ _ _ _ _ _ k V Hk) by done. apply Hmaps. congruence. }
  { intros y. by rewrite (region_of_view _ _ _ _ _ _ y V), (region_of_view _ _ _ _ _ _ y V'). }
  { intros s' k Hs' Hk. destruct (mm_member _ _ _ _ _ Hok Hs') as (sp' & l' & Hl' & W & _ & _).
    assert (entry_of m' s' k = a_maps A' !! (pml4_virt sp', k)) as Hes'.
    { destruct (decide (s' = s)) as [->|Hne].
      - assert (sp' = sp) as -> by (pose proof (vw_space _ _ _ _ _ _ W); pose proof (vw_space _ _ _ _ _ _ V); congruence). by apply He'.
      - destruct (Ho s' Hs' Hne) as [_ Hes]. rewrite Hes, (entry_of_view _ _ _ _ _ _ k W Hk) by done. symmetry. apply Hmaps.
        intros [= Hr _]. apply Hne, (mo_roots _ _ _ _ Hok s' s sp' sp); try done; [apply W|apply V]. }
    unfold page_bytes. rewrite Hes', (entry_of_view _ _ _ _ _ _ k W Hk), (sh_pages _ _ _ (proj2 Hrep')), (sh_pages _ _ _ (proj2 (vw_rep _ _ _ _ _ _ V))).
    intros Hmk. apply (fault_reads own (vm m) A (pml4_virt sp) f (attr_at l x) rc); [apply V|exact Heff|exact Habs|exact Hmk]. }
  cbn zeta. rewrite He', Hent by done. unfold fault_effect in Heff. fold x in Heff. destruct (classify f (attr_at l x)) eqn:Ec.
  - destruct Heff as [-> ->]. done.
  - destruct Heff as [-> ->]. done.
  - destruct (cow_entry _ _ _ _ _ _ _ (vw_rep _ _ _ _ _ _ V) Heff) as (_ & _ & [[Hrc ->]|(-> & e0 & e & H1 & H2 & H3 & _ & H5)]); [by left|].
    right. split; [done|]. split; [by rewrite H1|].
    destruct (mapped_leaf _ _ _ _ _ _ Hrep' H2) as (_ & _ & _ & g & _ & _ & _ & Hg & Hphys & _).
    exists e, g. split; [exact (rep_frame_ok _ _ _ _ Hrep' Hg)|]. split; [by rewrite He'|]. split; [done|]. split; [done|].
    intros s' k e' Hs' Hk Hek Hpe. destruct (mm_member _ _ _ _ _ Hok Hs') as (sp' & l' & Hl' & W & _ & _).
    assert (space_at m !! s' = Some sp' /\ space_at m !! s = Some sp) as [Ws Vs] by (split; [apply W|apply V]).
    destruct (decide ((pml4_virt sp', k) = (pml4_virt sp, pte_index x))) as [[= Hr ->]|Hne].
    { split; [|done]. by apply (mo_roots _ _ _ _ Hok s' s sp' sp). }
    exfalso. assert (a_maps A !! (pml4_virt sp', k) = Some e') as Ha'.
    { destruct (decide (s' = s)) as [->|Hns].
      - assert (sp' = sp) as -> by congruence. rewrite He', Hmaps in Hek by done. done.
      - destruct (Ho s' Hs' Hns) as [_ Hes]. rewrite Hes, (entry_of_view _ _ _ _ _ _ k W Hk) in Hek by done. done. }
    destruct (H5 _ _ _ Hne Ha') as [Hx' _]. congruence.
  - destruct Heff as [[-> ->]|(-> & g & G1 & G2 & ->)]; [left; split; [done|by apply Habs]|]. right. split; [done|].
    set (e := phys_to_pte (frame_addr_of g) _) in *. exists g. split; [done|]. split.
    + rewrite He' by done. apply lookup_insert_eq.
    + replace (dom L) with (dom (<[s := l]> L)) by (apply dom_insert_lookup_L; by eexists).
      assert (pte_to_phys e = frame_addr_of g) as Hpe by by apply new_entry.
      eapply (ref_private own' _ _ m' s sp); [exact Hok'|rewrite dom_insert; set_solver|apply V'| |apply lookup_insert_eq|done].
      rewrite refs_map_at by by apply Habs. rewrite G2, (maps_frame_eq _ _ Hpe), decide_True by done. done.
  - destruct Heff as [-> ->]. done.
Qed.
End mm.
