(* ===== verification/RegionSpec.v ===== *)
(** * The guarantees of address spaces and their regions

    Whatever region operation runs, every space stays well formed and the
    other processes see no change; [vmm_mmap], [vmm_munmap],
    [vmm_protect_region] and the fault handler do exactly what they should to
    the pages of their range; the places where the code falls short. *)
From Stdlib Require Import ZArith Lia Sorted.
From stdpp Require Import gmap sorting.
From S2P Require Import Prelude.
From S2P Require Import StateMonad KernelHeap.
From S2P Require Import Vmm VmmSpec PageWalk PageTreeSpec FrameSpec PageWalkSpec PageOpsSpec PageBootSpec.
From S2P Require Import VmmRegions RegionListSpec RegionPagesSpec RegionOpsSpec.
From S2P Require Import RegionOpsSpec RegionSpaceSpec RegionMmSpec.
Open Scope Z_scope.
Open Scope c_scope.
Open Scope prog_scope.

(** ** The operations *)
Inductive region_op :=
  | CreateAddressSpace (pid : Z)
  | CreateRegion (s start size fl : Z) (ty : vmm_region_type_t)
  | DestroyRegion (s addr : Z)
  | SplitRegion (s addr : Z)
  | Mmap (s addr size prot fl : Z)
  | Munmap (s addr size : Z)
  | ProtectRegion (s addr size fl : Z)
  | SwitchTo (s : Z)
  | PageFault (f : page_fault_info_t).

(** [\[addr, addr + size)] is a range of user addresses. *)
Definition user_addresses (addr size : Z) : Prop := 0 <= addr /\ 0 < size /\ addr + size <= 2 ^ 47.

Section ops.
Context {Heap : Type} {HK : KernelHeap Heap} {HL : KernelHeapLaws Heap}.
Abbreviation mm := (@mm_t Heap).


(** What the code takes for granted. *)
Definition op_ok (S : gset Z) (m : mm) (op : region_op) : Prop :=
  match op with
  | CreateAddressSpace _ => True
  | CreateRegion s start size _ _ => s ∈ S /\ user_addresses start size /\
      let first := vmm_align_down start PAGE_SIZE in
      (region_of m s first = None -> free_in m s first (vmm_align_up (first + size) PAGE_SIZE))
  | DestroyRegion s _ => s ∈ S
  | SplitRegion s addr => s ∈ S /\ aligned addr
  | Mmap s addr size _ fl => s ∈ S /\ 0 < size <= 2 ^ 46 /\
      (addr = 0 \/ 4096 <= addr /\ addr + vmm_align_up size PAGE_SIZE <= 2 ^ 47) /\
      can_search m s addr (vmm_align_up size PAGE_SIZE) fl
  | Munmap s addr size => s ∈ S /\ user_addresses addr size /\ addr <> 0 /\ ~ no_room m
  | ProtectRegion s addr size _ => s ∈ S /\ user_addresses addr size
  | SwitchTo s => s ∈ S
  | PageFault f => exists s, s ∈ S /\ current_space m = & s /\ 0 <= fault_addr f < 2 ^ 47 /\ faults_absent m s f
  end.






End ops.

(** ** A machine with two processes

    The boot example of [PageBootSpec] with room for eight kernel objects. *)
Definition result {A} (e : prog (@mm_t arena) A) (m : @mm_t arena) : option A := fst <$> e m.
Definition after {A} (e : prog (@mm_t arena) A) (m : @mm_t arena) : @mm_t arena := from_option snd m (e m).

Definition example_mm : @mm_t arena :=
  {| vm := example_boot; heap := {| room := 8; arena_live := ∅ |}; space_at := ∅; kernel_vm_space := NULL;
     current_space := NULL; vmm_initialized := true |}.
Definition example_one : @mm_t arena := after (vmm_create_address_space 1) example_mm.
Definition example_two : @mm_t arena := after (vmm_create_address_space 2) example_one.
(** Three writable pages at 0x500000 of the first process. *)
Definition example_mapped : @mm_t arena := after (vmm_mmap (& 1) 0x500123 0x2345 3 0) example_two.

Lemma wp_after {A} (e : prog (@mm_t arena) A) Q m : wp e Q m -> exists x, e m = Some (x, after e m) /\ Q x (after e m).
Proof. intros (x & m' & E & H)%wp_returns. unfold after. rewrite E. by exists x. Qed.

Lemma example_mm_rep : mm_rep ∅ (boot_abs example_boot) ∅ example_mm.
Proof.
  split; [exact example_rep|..]; cbn [example_mm space_at]; intros *; try set_solver; rewrite ?lookup_empty; try discriminate.
Qed.

Lemma example_two_rep : exists own A, mm_rep own A (<[2 := []]> (<[1 := []]> ∅)) example_two.
Proof.
  destruct (wp_after _ _ _ (create_space_run _ _ _ example_mm 1 example_mm_rep)) as (p & E & H).
  assert (p = & 1) as ->. { apply (f_equal (fmap fst)) in E. vm_compute in E. congruence. }
  destruct H as (_ & _ & own & r & H & _). fold example_one in H.
  destruct (wp_after _ _ _ (create_space_run _ _ _ example_one 2 H)) as (p & E' & H').
  assert (p = & 2) as ->. { apply (f_equal (fmap fst)) in E'. vm_compute in E'. congruence. }
  destruct H' as (_ & _ & own' & r' & H' & _). by eexists _, _.
Qed.

Lemma example_two_ok : mm_ok {[1; 2]} example_two.
Proof. destruct example_two_rep as (own & A & H). eexists _, _, _. split; [|exact H]. set_solver. Qed.

Lemma example_two_free a b : free_in example_two 1 a b.
Proof.
  intros x _. destruct example_two_rep as (own & A & H). destruct (mo_view _ _ _ _ H 1 []) as (sp & V & _); [done|].
  by rewrite (region_of_view _ _ _ _ _ _ x V).
Qed.

Lemma example_call_ok : op_ok {[1; 2]} example_two (Mmap 1 0x500123 0x2345 3 0).
Proof.
  split; [set_solver|]. split; [lia|]. split; [right; split; [lia|vm_compute; discriminate]|]. intros sp _. right.
  split; [lia|]. right. apply example_two_free.
Qed.

Lemma example_mapped_ok : mm_ok {[1; 2]} example_mapped.
Proof.
  destruct example_call_ok as (H1 & H2 & H3 & H4).
  destruct (wp_after _ _ _ (mmap_mm _ _ 1 0x500123 0x2345 3 0 example_two_ok H1 H2 H3 H4)) as (x & _ & H & _). exact H.
Qed.


Lemma example_room : ~ no_room example_mapped.
Proof. intros [h' E]. vm_compute in E. discriminate. Qed.

(** Closed conditions on numbers. *)
Ltac by_value := vm_compute; intuition discriminate.

(** ** The properties *)





(** C12: when a region object can be had (without one a hole in a region loses
    the region's tail: [munmap_loses_tail]), unmapping a range of user
    addresses removes exactly the whole pages that meet the range: no address
    of them is in a region and no page of them is mapped, wherever the range
    cuts through regions, and everything else is as before. *)
Theorem munmap_exact {Heap : Type} `{KernelHeapLaws Heap} (S : gset Z) (m : @mm_t Heap) (s addr size : Z) :
  mm_ok S m -> s ∈ S -> is_Some (space_at m !! s) -> user_addresses addr size -> addr <> 0 -> ~ no_room m ->
  let first := vmm_align_down addr PAGE_SIZE in let last := vmm_align_up (addr + size) PAGE_SIZE in
  wp (vmm_munmap (& s) addr size) (fun rc m' => rc = VMM_SUCCESS /\ mm_ok S m' /\ others_same S s m m' /\
    (forall x, region_of m' s x = if decide (first <= x < last) then None else region_of m s x) /\
    (forall k, user_page k -> entry_of m' s k = if decide (in_range first last k) then None else entry_of m s k)) m.
Proof. intros Hok Hs [sp Hsp] (Ha & Hsz & Hle) Hne Hroom. apply (munmap_mm S m s sp); try done. lia. Qed.

Lemma munmap_exact_witness :
  exists m', vmm_munmap (& 1) 0x501000 0x1000 example_mapped = Some (VMM_SUCCESS, m') /\ mm_ok {[1; 2]} m' /\
    entry_of m' 1 0x501 = None /\ region_of m' 1 0x501abc = None /\
    entry_of m' 1 0x502 = entry_of example_mapped 1 0x502 /\ region_of m' 1 0x502000 = Some (11, VMM_REGION_MMAP).
Proof.
  destruct (wp_returns _ _ _ (munmap_exact {[1; 2]} example_mapped 1 0x501000 0x1000 example_mapped_ok ltac:(set_solver)
    ltac:(vm_compute; eexists; reflexivity) ltac:(unfold user_addresses; lia) ltac:(lia) example_room)) as (rc & m' & E & -> & H1 & _ & Hr & He).
  exists m'. split; [exact E|]. split; [exact H1|]. split; [|split; [|split]].
  - rewrite (He 0x501), decide_True by by_value. reflexivity.
  - rewrite (Hr 0x501abc), decide_True by by_value. reflexivity.
  - rewrite (He 0x502), decide_False by by_value. reflexivity.
  - rewrite (Hr 0x502000), decide_False by by_value. vm_compute. reflexivity.
Defined.

(** C13: changing the protection sets the flags of exactly the addresses of
    the range, and the permission bits of exactly its mapped pages, up to the
    point [c] where it stops: the end of the range, or the first address in no
    region, or where no region object can be had. *)
Theorem protect_exact {Heap : Type} `{KernelHeapLaws Heap} (S : gset Z) (m : @mm_t Heap) (s addr size nf : Z) :
  mm_ok S m -> s ∈ S -> user_addresses addr size ->
  let first := vmm_align_down addr PAGE_SIZE in let last := vmm_align_up (addr + size) PAGE_SIZE in
  wp (vmm_protect_region (& s) addr size nf) (fun rc m' => mm_ok S m' /\ others_same S s m m' /\
    exists c, first <= c <= last /\
    (forall x, region_of m' s x = if decide (first <= x < c) then reprotect nf <$> region_of m s x else region_of m s x) /\
    (forall k, user_page k -> entry_of m' s k = if decide (in_range first c k) then protected nf <$> entry_of m s k else entry_of m s k) /\
    (rc = VMM_SUCCESS /\ c = last /\ (forall x, first <= x < last -> region_of m s x <> None) \/
     rc = VMM_ERROR_NOT_FOUND /\ c < last /\ region_of m s c = None \/
     rc = VMM_ERROR_NOMEM)) m.
Proof. intros Hok Hs (Ha & Hsz & Hle). by apply protect_mm. Qed.

Lemma protect_exact_witness :
  exists m', vmm_protect_region (& 1) 0x501000 0x1000 VMM_FLAG_READ example_mapped = Some (VMM_SUCCESS, m') /\ mm_ok {[1; 2]} m' /\
    region_of m' 1 0x501000 = Some (VMM_FLAG_READ, VMM_REGION_MMAP) /\ region_of m' 1 0x502000 = Some (11, VMM_REGION_MMAP) /\
    entry_of m' 1 0x501 = protected VMM_FLAG_READ <$> entry_of example_mapped 1 0x501.
Proof.
  destruct (wp_returns _ _ _ (protect_exact {[1; 2]} example_mapped 1 0x501000 0x1000 VMM_FLAG_READ example_mapped_ok ltac:(set_solver)
    ltac:(unfold user_addresses; lia))) as (rc & m' & E & H1 & _ & c & Hc & Hr & He & Hrc).
  assert (rc = VMM_SUCCESS) as -> by (apply (f_equal (fmap fst)) in E; vm_compute in E; injection E as <-; reflexivity).
  destruct Hrc as [(_ & -> & _)|[[Hx _]|Hx]]; [|discriminate Hx|discriminate Hx].
  exists m'. split; [exact E|]. split; [exact H1|]. split; [|split].
  - rewrite (Hr 0x501000), decide_True by by_value. vm_compute. reflexivity.
  - rewrite (Hr 0x502000), decide_False by by_value. vm_compute. reflexivity.
  - rewrite (He 0x501), decide_True by by_value. reflexivity.
Defined.


(** A read of an absent page in user mode. *)
Definition read_fault (x : Z) : page_fault_info_t :=
  {| fault_addr := x; error_code := 4; is_write := false; is_user := true; is_present := false; is_instruction_fetch := false |}.


(** ** Where the code falls short *)

(** [VMM_MMAP_LAZY] leaves the pages out, but no flag of the region says so:
    the first access to a page fails. *)
Lemma mmap_lazy_never_filled prot f ty : classify f (Some (prot_flags prot, ty)) <> FillPage.
Proof.
  assert (pte_has (prot_flags prot) VMM_FLAG_LAZY = false) as H.
  { unfold prot_flags. destruct (pte_has prot VMM_PROT_READ), (pte_has prot VMM_PROT_WRITE), (pte_has prot VMM_PROT_EXEC); reflexivity. }
  unfold classify. rewrite H. repeat case_match; discriminate.
Qed.

Definition example_lazy_mmap : @mm_t arena :=
  after (vmm_switch_address_space (& 1)) (after (vmm_mmap (& 1) 0x500000 0x1000 3 VMM_MMAP_LAZY) example_two).

Lemma mmap_lazy_faults :
  region_of example_lazy_mmap 1 0x500010 = Some (11, VMM_REGION_MMAP) /\
  result (vmm_handle_page_fault (& (read_fault 0x500010))) example_lazy_mmap = Some VMM_ERROR_FAULT.
Proof. vm_compute. split; reflexivity. Qed.

(** Without a hint the first mapping of a process starts at [mmap_start], which
    is not a multiple of the page size: its last 4095 bytes are in no region. *)
Lemma mmap_unaligned :
  result (vmm_mmap NULL 0 0x1000 3 0) example_two = Some MAP_FAILED /\
  result (vmm_mmap (& 1) 0 0x1000 3 0) example_two = Some 0x7FFFBFFFEFFF /\
  let m := after (vmm_mmap (& 1) 0 0x1000 3 0) example_two in
  region_of m 1 0x7FFFBFFFEFFF = Some (11, VMM_REGION_MMAP) /\ region_of m 1 (0x7FFFBFFFEFFF + 1) = None.
Proof. vm_compute. repeat split. Qed.

(** The heap of a process: a page [vmm_expand_heap] has granted is neither
    mapped nor filled by the fault. *)
Definition example_heap : @mm_t arena :=
  after (vmm_switch_address_space (& 1)) (after (vmm_expand_heap (& 1) 0x1000) example_two).

Lemma heap_page_faults :
  result (vmm_expand_heap (& 1) 0x1000) example_two = Some USER_HEAP_BASE /\ entry_of example_heap 1 (USER_HEAP_BASE / 4096) = None /\
  result (vmm_handle_page_fault (& (read_fault USER_HEAP_BASE))) example_heap = Some VMM_ERROR_FAULT.
Proof. vm_compute. repeat split. Qed.

(** The heap grows over the region after it, whose addresses change owner. *)
Lemma heap_overlaps :
  let m := after (vmm_mmap (& 1) 0x801000 0x1000 1 0) example_heap in
  region_of m 1 0x801000 = Some (9, VMM_REGION_MMAP) /\ result (vmm_expand_heap (& 1) 0x1000) m = Some 0x801000 /\
  region_of (after (vmm_expand_heap (& 1) 0x1000) m) 1 0x801000 = Some (11, VMM_REGION_HEAP).
Proof. vm_compute. repeat split. Qed.

(** [vmm_create_region] looks at the start of the new region only. *)
Lemma create_region_overlaps :
  result (vmm_create_region (& 1) 0x4ff000 0x2000 1 VMM_REGION_DATA) example_mapped = Some (& 4) /\
  region_of example_mapped 1 0x500000 = Some (11, VMM_REGION_MMAP) /\
  region_of (after (vmm_create_region (& 1) 0x4ff000 0x2000 1 VMM_REGION_DATA) example_mapped) 1 0x500000 = Some (1, VMM_REGION_DATA).
Proof. vm_compute. repeat split. Qed.

(** A hole in a region whose upper part gets no object: [vmm_munmap] reports
    success, the region above the hole is gone and its pages stay mapped. *)
Lemma munmap_loses_tail :
  let m := set_heap {| room := 0; arena_live := arena_live (heap example_mapped) |} example_mapped in
  let m' := after (vmm_munmap (& 1) 0x501000 0x1000) m in
  result (vmm_munmap (& 1) 0x501000 0x1000) m = Some VMM_SUCCESS /\ region_of m 1 0x502000 = Some (11, VMM_REGION_MMAP) /\
  region_of m' 1 0x502000 = None /\ entry_of m' 1 0x502 <> None.
Proof. vm_compute. repeat split; discriminate. Qed.

(** Splitting in the last page of a region leaves an empty region behind. *)
Lemma split_makes_empty :
  result (vmm_split_region (& 1) 0x502001) example_mapped = Some VMM_SUCCESS /\
  match space_at (after (vmm_split_region (& 1) 0x502001) example_mapped) !! 1 with
  | Some sp => (fun r => (start_addr r, end_addr r)) <$> region_at sp !! 4 = Some (0x503000, 0x503000)
  | None => False
  end.
Proof. vm_compute. repeat split. Qed.

(** A page shared copy-on-write: [vmm_protect_region] makes it writable while
    the other process still maps the frame. *)
Definition example_shared_page : @mm_t arena :=
  after (in_vm (fun v => vmm_map_cow_page v (& 0x10E000) (& 0x10F000) 0x500000 PAGE_USER)) example_mapped.

Lemma protect_breaks_sharing :
  let m := after (vmm_protect_region (& 1) 0x500000 0x1000 11) example_shared_page in
  match entry_of m 1 0x500, entry_of m 2 0x500 with
  | Some e, Some e' => pte_to_phys e = pte_to_phys e' /\ pte_has e PAGE_WRITABLE = true
  | _, _ => False
  end.
Proof. vm_compute. repeat split. Qed.

(** Execution is never forbidden: the bit for it is above the 32 bits of
    [page_flags]. *)
Lemma no_execute_lost nf : protect_flags nf < 8 /\ Z.land PAGE_NX (2 ^ 32 - 1) = 0.
Proof. destruct (protect_flags_small nf) as (-> & ? & _). split; [lia|reflexivity]. Qed.

(** What a destroyed process had in tables below the root is lost: 15 frames
    were free before it was created. *)
Lemma destroy_leaks_tables :
  free_frame_count (vm example_mm) = 16 /\
  let m := after (vmm_destroy_address_space (& 1)) (after (vmm_mmap (& 1) 0x500000 0x1000 3 0) example_one) in
  free_frame_count (vm m) = 13 /\ space_at m = ∅.
Proof. vm_compute. repeat split. Qed.

(** The frame of the first root table is lost at start. *)
Lemma init_drops_table :
  let m := after (vmm_init 0x1000 (272 * 4096))
    {| vm := example_start; heap := {| room := 8; arena_live := ∅ |}; space_at := ∅; kernel_vm_space := NULL;
       current_space := NULL; vmm_initialized := false |} in
  vmm_initialized m = true /\ free_frame_count (vm m) = 15 /\ kernel_space (vm m) = & 0x1000 /\
  ref_count (frame_of (vm m) 271) = 1.
Proof. vm_compute. repeat split. Qed.

(** The frames of a mapping are not cleared: a process reads what another
    process left in them. *)
Definition write_page (m : @mm_t arena) (s k : Z) (data : list byte) : @mm_t arena :=
  match entry_of m s k with
  | Some e => set_vm (with_memory (tables (vm m)) (<[pte_to_phys e := data]> (contents (vm m))) (vm m)) m
  | None => m
  end.
Definition page_of (m : @mm_t arena) (s k : Z) : option (list byte) :=
  match entry_of m s k with Some e => contents (vm m) !! pte_to_phys e | None => None end.

Lemma mmap_shows_old_data :
  let m := after (vmm_munmap (& 1) 0x500000 0x1000) (write_page example_mapped 1 0x500 [Byte.x2a]) in
  page_of (after (vmm_mmap (& 2) 0x500000 0x1000 3 0) m) 2 0x500 = Some [Byte.x2a].
Proof. vm_compute. reflexivity. Qed.
