(* ===== verification/ForkSpec.v ===== *)
(** * What fork promises about memory

    The child sees the parent's regions, marked copy-on-write, and the frames
    of the parent's pages; neither can write to a shared frame.  [forked]: the
    pages of a set have been shared. *)
From Stdlib Require Import ZArith Lia Sorted.
From stdpp Require Import gmap sorting.
From S2P Require Import Prelude Vmm VmmSpec PageWalk PageTreeSpec FrameSpec.
From S2P Require Import PageWalkSpec PageOpsSpec PageBootSpec StateMonad KernelHeap VmmRegions.
From S2P Require Import RegionListSpec RegionPagesSpec RegionOpsSpec RegionSpaceSpec RegionMmSpec RegionSpec.
Open Scope Z_scope.
Open Scope c_scope.
Open Scope prog_scope.

(** ** The number of frames does not change *)
Lemma alloc_total v : total_frames (vmm_alloc_page v).2 = total_frames v.
Proof.
  unfold vmm_alloc_page. destruct (free_frames v); [|done]. destruct (free_frame_count v =? 0); [done|]. apply total_set.
Qed.

Lemma table_total v : total_frames (allocate_page_table v).2 = total_frames v.
Proof.
  unfold allocate_page_table. pose proof (alloc_total v) as H. destruct (vmm_alloc_page v) as [phys v1]. by destruct (phys =? 0).
Qed.

Lemma walk_total ph n : forall v t x level create, total_frames (walk ph n v t x level create).2 = total_frames v.
Proof.
  induction n as [|n IH]; intros v t x level create; [done|]. cbn [walk]. destruct (pte_has _ _); [apply IH|]. destruct create; [|done]. cbn [negb].
  pose proof (table_total v) as H. destruct (allocate_page_table v) as [[c|] v1]; [|exact H]. rewrite IH. exact H.
Qed.

Lemma page_table_total v s x level create : total_frames (vmm_get_page_table v s x level create).2 = total_frames v.
Proof.
  unfold vmm_get_page_table, page_table_walk. destruct s as [root|]; [|done].
  pose proof (walk_total (fun v => vmm_get_physical_addr v (kernel_space v)) (Z.to_nat (PML4_LEVEL - level)) v root x level create) as H.
  by destruct (walk _ _ _ _ _ _ _) as [[]].
Qed.

Lemma map_total v s x phys fl : total_frames (vmm_map_page v s x phys fl).2 = total_frames v.
Proof.
  unfold vmm_map_page, map_page_internal. destruct s; [|done]. pose proof (page_table_total v (Some z) (vmm_align_down x PAGE_SIZE) PT_LEVEL true) as H.
  destruct (vmm_get_page_table _ _ _ _ _) as [[[t i]|] v1]; [|exact H]. by destruct (pte_has _ _).
Qed.

Lemma share_total v d s x fl : total_frames (vmm_map_cow_page v d s x fl).2 = total_frames v.
Proof.
  unfold vmm_map_cow_page. destruct d as [d|]; [|done]. destruct s as [s|]; [|done].
  pose proof (page_table_total v (Some s) (vmm_align_down x PAGE_SIZE) PT_LEVEL false) as H.
  destruct (vmm_get_page_table _ _ _ _ _) as [[[t i]|] v1]; [|exact H]. cbn [snd] in H. destruct (negb _); [exact H|]. cbv zeta.
  match goal with |- context [vmm_map_page ?v2 ?a ?b ?c ?e] => pose proof (map_total v2 a b c e) as H2; destruct (vmm_map_page v2 a b c e) as [rc v3] end.
  cbn [snd] in H2. destruct (negb _); cbn [snd]; [|unfold total_frames in *; cbn [frame_database with_frames]; rewrite length_zset]; rewrite H2; exact H.
Qed.

(** ** One page *)

(** No frame is left. *)
Definition exhausted (own : ownership) (A : vm_abs) (v : vmm_t) : Prop := forall f, managed v f -> users own A f <> 0.

Lemma exhausted_free own A v : rep own A v -> exhausted own A v -> free_frames v = NULL.
Proof.
  intros [[_ _ _ (fl & Hch & _ & _ & Hfl)] _] Hex. destruct fl as [|f fl]; [exact Hch|]. exfalso.
  assert (f ∈ f :: fl) as Hin by (by left). apply Hfl in Hin as [Hf Hz]. by apply (Hex f Hf).
Qed.

(** What sharing makes of the entry [e0] of the parent: [e] of the parent and
    [e'] of the child. *)
Definition shared_entry (full : Prop) (e0 e e' : option Z) : Prop :=
  match e0 with
  | None => e = None /\ e' = None
  | Some x => e = Some (read_only x) /\
      (e' = None /\ full \/ exists y, e' = Some y /\ pte_to_phys y = pte_to_phys x /\ pte_has y PAGE_WRITABLE = false)
  end.

Lemma shared_entry_mono (F F' : Prop) e0 e e' : (F -> F') -> shared_entry F e0 e e' -> shared_entry F' e0 e e'.
Proof. unfold shared_entry. destruct e0; [|done]. intuition. Qed.

Lemma shared_not_writable f fl : frame_ok f -> pte_has (phys_to_pte (frame_addr_of f) (cow_flags fl)) PAGE_WRITABLE = false.
Proof.
  intros Hf. change PAGE_WRITABLE with (2 ^ 1). unfold frame_addr_of. rewrite (proj2 (mapped_entry f (cow_flags fl) 1 Hf)) by lia.
  unfold cow_flags. change PAGE_WRITABLE with (2 ^ 1). rewrite Z.lor_spec, Z.ldiff_spec, Z.pow2_bits_true by lia.
  change (Z.testbit PAGE_PRESENT 1) with false. rewrite andb_false_r. done.
Qed.

Lemma refs_share A d s x fl rc A' f : abs_step (MapCow d s x fl) A rc A' ->
  (forall r k e, a_maps A !! (r, k) = Some e -> pte_has e PAGE_PRESENT = true /\ exists g, frame_ok g /\ pte_to_phys e = frame_addr_of g) ->
  refs A f <= refs A' f.
Proof.
  intros Hstep Hp.
  assert (forall e, a_maps A !! (s, pte_index x) = Some e -> refs (set_at s x (read_only e) A) f = refs A f) as Hro.
  { intros e He. destruct (Hp _ _ _ He) as [Hpr _]. destruct (read_only_entry e) as [H1 H2]. unfold set_at.
    rewrite refs_set_page, He, H2, Hpr. cbn [from_option]. unfold refs, maps_frame. rewrite H1. lia. }
  inversion Hstep; subst; unfold page_at in *; try (rewrite Hro by done; lia); [|lia].
  match goal with H : a_maps (set_at _ _ _ _) !! _ = None |- _ => rename H into Hd end.
  match goal with H : a_maps A !! (s, _) = Some ?e0 |- _ => rename H into Hs; rename e0 into e end.
  unfold set_at at 1. rewrite refs_set_page, Hd. cbn [from_option]. pose proof (Hro e Hs) as Hr. unfold refs in Hr at 1.
  assert (forall y, 0 <= maps_frame y f) as Hpos by (intros y; unfold maps_frame; destruct (decide (pte_to_phys y = _)); lia).
  pose proof (Hpos (phys_to_pte (pte_to_phys e) (cow_flags fl))). rewrite <- Hr. destruct (pte_has _ _); lia.
Qed.

Lemma key_neq (r' j r k : Z) : (r', j) <> (r, k) -> (r' =? r) && (j =? k) = false.
Proof. intros Hne. destruct (Z.eqb_spec r' r), (Z.eqb_spec j k); [congruence|done..]. Qed.

(** From [A0], the pages [P] have been shared between the spaces [r] and [d]. *)
Record forked (own : ownership) (A : vm_abs) (v : vmm_t) (A0 : vm_abs) (r d : Z) (P : Z -> Prop) : Prop := {
  fk_rep : rep own A v;
  fk_roots : a_roots A = a_roots A0;
  fk_pages : a_pages A = a_pages A0;
  fk_others : forall r' k, r' <> r -> r' <> d -> a_maps A !! (r', k) = a_maps A0 !! (r', k);
  fk_todo : forall k, ~ P k -> a_maps A !! (r, k) = a_maps A0 !! (r, k) /\ a_maps A !! (d, k) = None;
  fk_done : forall k, P k -> shared_entry (exhausted own A v) (a_maps A0 !! (r, k)) (a_maps A !! (r, k)) (a_maps A !! (d, k)) }.

Lemma forked_iff own A v A0 r d P P' : (forall k, P k <-> P' k) -> forked own A v A0 r d P -> forked own A v A0 r d P'.
Proof. intros HP [H1 H2 H3 H4 H5 H6]. split; try done; intros k Hk; [apply H5|apply H6]; by rewrite HP. Qed.

Lemma forked_skip own A v A0 r d P k :
  forked own A v A0 r d P -> ~ P k -> a_maps A !! (r, k) = None -> forked own A v A0 r d (fun j => P j \/ j = k).
Proof.
  intros [H1 H2 H3 H4 H5 H6] Hk Hn. destruct (H5 k Hk) as [Hr Hd]. split; try done.
  - intros j Hj. apply H5. tauto.
  - intros j [Hj| ->]; [by apply H6|]. rewrite <- Hr, Hn. done.
Qed.

Lemma forked_share own A v A0 r d P x fl :
  forked own A v A0 r d P -> ~ P (pte_index x) -> r ∈ a_roots A0 -> d ∈ a_roots A0 -> r <> d -> user_page (pte_index x) ->
  a_maps A !! (r, pte_index x) <> None ->
  exists own' A', own ⊆ own' /\ forked own' A' (vmm_map_cow_page v (& d) (& r) x fl).2 A0 r d (fun j => P j \/ j = pte_index x).
Proof.
  intros [H1 H2 H3 H4 H5 H6] Hk Hr Hd Hne Hu Hm. rewrite <- H2 in Hr, Hd. destruct (H5 _ Hk) as [Hr0 Hd0].
  destruct (share_refined own A v d r x fl H1 Hd Hr Hu) as (own' & A' & Hown & Hrep' & Hstep & Hoom & _).
  pose proof (share_total v (& d) (& r) x fl) as Htot. set (v' := (vmm_map_cow_page v (& d) (& r) x fl).2) in *.
  set (rc := (vmm_map_cow_page v (& d) (& r) x fl).1) in *. set (k := pte_index x) in *.
  assert (exhausted own A v -> exhausted own' A' v') as Hex.
  { intros Hex f Hf. assert (managed v f) as Hf0 by (unfold managed in *; by rewrite <- Htot). specialize (Hex f Hf0).
    assert (refs A f <= refs A' f) as Hle.
    { apply (refs_share A d r x fl rc A' f Hstep). intros r' j e He. destruct (mapped_leaf _ _ _ _ _ _ H1 He) as (_ & _ & _ & g & _ & _ & Hp & Hg & Hphys & _).
      split; [done|]. exists g. split; [exact (rep_frame_ok _ _ _ _ H1 Hg)|done]. }
    pose proof (refs_pos A f). unfold users in *. destruct (own !! frame_addr_of f) eqn:E.
    - rewrite (lookup_weaken _ _ _ _ E Hown). lia.
    - destruct (own' !! frame_addr_of f); lia. }
  assert (exists e, a_maps A !! (r, k) = Some e /\ a_roots A' = a_roots A /\ a_pages A' = a_pages A /\
    (forall r' j, (r', j) <> (r, k) -> (r', j) <> (d, k) -> a_maps A' !! (r', j) = a_maps A !! (r', j)) /\
    a_maps A' !! (r, k) = Some (read_only e) /\
    (a_maps A' !! (d, k) = None /\ exhausted own' A' v' \/
     exists y, a_maps A' !! (d, k) = Some y /\ pte_to_phys y = pte_to_phys e /\ pte_has y PAGE_WRITABLE = false)) as (e & E1 & E2 & E3 & E4 & E5 & E6).
  { assert (forall e r' j, pte_has e PAGE_PRESENT = true -> a_maps (set_at r x (read_only e) A) !! (r', j) =
      if (r' =? r) && (j =? k) then Some (read_only e) else a_maps A !! (r', j)) as Hro.
    { intros e r' j Hp. cbn. rewrite set_map_lookup, (proj2 (read_only_entry e)), Hp. done. }
    assert (forall e, a_maps A !! (r, k) = Some e -> pte_has e PAGE_PRESENT = true /\ exists f, frame_ok f /\ pte_to_phys e = frame_addr_of f) as Hp.
    { intros e He. destruct (mapped_leaf _ _ _ _ _ _ H1 He) as (_ & _ & _ & g & _ & _ & Hp & Hg & Hphys & _).
      split; [done|]. exists g. split; [exact (rep_frame_ok _ _ _ _ H1 Hg)|done]. }
    assert ((d =? r) = false) as Hdr by (apply Z.eqb_neq; congruence).
    clearbody rc. subst k. inversion Hstep; subst; unfold page_at in *; try congruence;
      (match goal with H : a_maps A !! (r, pte_index x) = Some ?e0 |- _ => rename H into He; rename e0 into e end); destruct (Hp e He) as (Hpe & f & Hf & Hphys); exists e.
    - destruct (new_entry f (cow_flags fl) Hf) as [N1 N2]. rewrite <- Hphys in N1, N2. rewrite cow_flags_present in N2.
      split; [done|]. split; [done|]. split; [done|]. split; [|split].
      + intros r' j Hne1 Hne2. unfold set_at at 1. cbn. rewrite set_map_lookup, key_neq by done.
        etransitivity; [by apply Hro|]. by rewrite key_neq.
      + unfold set_at at 1. cbn. rewrite set_map_lookup.  rewrite (proj2 (Z.eqb_neq r d)) by done. cbn [andb].
        etransitivity; [by apply Hro|]. by rewrite !Z.eqb_refl.
      + right. eexists. unfold set_at at 1. cbn. rewrite set_map_lookup.  rewrite !Z.eqb_refl. cbn [andb]. rewrite N2. split; [reflexivity|].
        split; [done|]. rewrite Hphys. by apply shared_not_writable.
    - exfalso. match goal with H : a_maps (set_at _ _ _ _) !! _ = Some _ |- _ => rewrite (Hro e) in H by done; rewrite Hdr in H; cbn in H end. congruence.
    - split; [done|]. split; [done|]. split; [done|]. split; [|split].
      + intros r' j Hne1 Hne2. by rewrite (Hro e), key_neq.
      + rewrite (Hro e) by done. by rewrite !Z.eqb_refl.
      + left. rewrite (Hro e), Hdr by done. cbn. split; [congruence|]. exact (Hoom eq_refl). }
  exists own', A'. split; [done|]. split; [done|congruence|congruence| | |].
  - intros r' j Hn1 Hn2. rewrite E4 by congruence. by apply H4.
  - intros j Hj. assert (~ P j /\ j <> k) as [Hj1 Hj2] by tauto. rewrite !E4 by congruence. by apply H5.
  - intros j Hj. destruct (decide (j = k)) as [->|Hjk].
    + rewrite <- Hr0, E1. cbn. split; [done|]. exact E6.
    + destruct Hj as [Hj|]; [|done]. rewrite !E4 by congruence. eapply shared_entry_mono; [exact Hex|]. by apply H6.
Qed.

(** * What fork promises about memory *)

Section fork.
Context {Heap : Type} {HK : KernelHeap Heap} {HL : KernelHeapLaws Heap}.
Abbreviation mm := (@mm_t Heap).

(** ** The pages of one region *)
Lemma share_page_run own A0 A s d sp sd fl P x (m : mm) :
  forked own A (vm m) A0 (pml4_virt sp) (pml4_virt sd) P -> space_at m !! s = Some sp -> space_at m !! d = Some sd ->
  ~ P (pte_index x) -> pml4_virt sp ∈ a_roots A0 -> pml4_virt sd ∈ a_roots A0 -> pml4_virt sp <> pml4_virt sd -> 0 <= x < 2 ^ 47 ->
  wp (share_page s d fl x) (fun r m' => r = None /\ m' = set_vm (vm m') m /\ exists own' A',
    forked own' A' (vm m') A0 (pml4_virt sp) (pml4_virt sd) (fun j => P j \/ j = pte_index x)) m.
Proof.
  intros Hf Hs Hd HP Hr Hrd Hne Hx. unfold share_page. pose proof (page_user x Hx) as Hu. pose proof (fk_rep _ _ _ _ _ _ _ Hf) as Hrep.
  wp_step. eapply read_space_run; [exact Hs|by apply wp_pget|]. wp_step. apply in_vm_run. cbn [fst snd].
  assert (set_vm (vm m) m = m) as -> by by destruct m. rewrite physical_read, (sh_read _ _ _ (proj2 Hrep)) by (done || by rewrite (fk_roots _ _ _ _ _ _ _ Hf)).
  destruct (a_maps A !! (pml4_virt sp, pte_index x)) as [e|] eqn:Ee.
  - destruct (sh_maps _ _ _ (proj2 Hrep) _ _ _ Ee) as (_ & _ & _ & f & Hfm & ->).
    pose proof (frame_addr_pos f (rep_frame_ok _ _ _ _ Hrep Hfm)) as Hpos.
    assert (u64 (frame_addr_of f + Z.land x (PAGE_SIZE - 1)) <> 0) as Hnz.
    { change (PAGE_SIZE - 1) with (Z.ones 12). rewrite Z.land_ones by lia. pose proof (Z.mod_pos_bound x (2 ^ 12)). rewrite u64_id by lia. lia. }
    rewrite (proj2 (Z.eqb_neq _ _)) by done. cbn [negb].
    wp_step. eapply read_space_run; [exact Hd|by apply wp_pget|]. wp_step. apply in_vm_run. cbn [fst snd]. apply wp_pret.
    split; [done|]. split; [done|].
    destruct (forked_share own A (vm m) A0 _ _ P x fl Hf HP Hr Hrd Hne Hu ltac:(congruence)) as (own' & A' & _ & H). by exists own', A'.
  - rewrite Z.eqb_refl. cbn [negb]. apply wp_pret. split; [done|]. split; [by destruct m|]. exists own, A. by apply forked_skip.
Qed.

Lemma share_pages_run own A0 A s d sp sd fl P a b (m : mm) :
  forked own A (vm m) A0 (pml4_virt sp) (pml4_virt sd) P -> space_at m !! s = Some sp -> space_at m !! d = Some sd ->
  user_range a b -> (forall k, in_range a b k -> ~ P k) ->
  pml4_virt sp ∈ a_roots A0 -> pml4_virt sd ∈ a_roots A0 -> pml4_virt sp <> pml4_virt sd ->
  wp (for_pages a b (share_page s d fl)) (fun _ m' => m' = set_vm (vm m') m /\ exists own' A',
    forked own' A' (vm m') A0 (pml4_virt sp) (pml4_virt sd) (fun j => P j \/ in_range a b j)) m.
Proof.
  intros Hf Hs Hd Hr HP Hroot Hrd Hne.
  eapply (for_pages_run (fun x m' => m' = set_vm (vm m') m /\ exists own' A',
    forked own' A' (vm m') A0 (pml4_virt sp) (pml4_virt sd) (fun j => P j \/ in_range a x j))).
  - by apply user_range_div.
  - apply Hr.
  - destruct Hr as (_ & _ & _ & Hb). lia.
  - split; [by destruct m|]. exists own, A. eapply forked_iff; [|exact Hf]. intros k. pose proof (in_range_empty a k). tauto.
  - intros x m1 Hdv Hx Hlt (Hm1 & own1 & A1 & Hf1). destruct (user_range_step _ _ _ Hr Hdv Hx Hlt) as [Hal Hu].
    assert (space_at m1 = space_at m) as Hsp by by rewrite Hm1.
    eapply wp_weaken; [apply (share_page_run own1 A0 A1 s d sp sd fl _ x m1 Hf1); try done; [by rewrite Hsp..|]|].
    + intros [HPk|Hk]; [by apply (HP _ (in_range_pages a b x Hr Hdv Hx Hlt))|].
      rewrite page_index in Hk by done. unfold in_range, aligned in *. pose proof (Z.div_mod x 4096). lia.
    + intros [[]|] m2 (Hnone & Hm2 & own2 & A2 & Hf2); [by discriminate Hnone|]. split; [by rewrite Hm2, Hm1|]. exists own2, A2.
      eapply forked_iff; [|exact Hf2]. intros k. cbn. rewrite (in_range_last a x k Hal Hu Hx). tauto.
  - done.
Qed.

(** ** The regions *)

(** Computations on the list of regions and the heap keep the page tables. *)
Definition vm_kept {A} (e : prog mm A) : Prop := forall m, wp e (fun _ m' => vm m' = vm m) m \/ e m = None.

Lemma vm_kept_wp {A} (e : prog mm A) Q m : vm_kept e -> wp e Q m -> wp e (fun x m' => Q x m' /\ vm m' = vm m) m.
Proof. intros Hk. specialize (Hk m). unfold wp in *. destruct (e m) as [[x m']|]; [|done]. destruct Hk; [done|congruence]. Qed.

Lemma vm_kept_bind {A B} (e : prog mm A) (f : A -> prog mm B) : vm_kept e -> (forall x, vm_kept (f x)) -> vm_kept (pbind e f).
Proof.
  intros He Hf m. specialize (He m). unfold wp, pbind in *. destruct (e m) as [[x m1]|]; [|by right]. destruct He as [He|]; [|congruence].
  specialize (Hf x m1). unfold wp in Hf. destruct (f x m1) as [[y m2]|]; [|by right]. destruct Hf as [Hf|]; [left; congruence|congruence].
Qed.

Lemma vm_kept_ret {A} (x : A) : vm_kept (pret x).
Proof. intros m. by left. Qed.

Lemma vm_kept_space {A} s (e : prog vm_space_t A) : vm_kept (in_space s e).
Proof. intros m. unfold wp, in_space. destruct (space_at m !! s) as [sp|]; [|by right]. destruct (e sp) as [[x sp']|]; [by left|by right]. Qed.

Lemma vm_kept_malloc n : vm_kept (malloc n).
Proof. intros m. left. unfold malloc, in_heap, wp, pcall. by destruct (kmalloc n (heap m)). Qed.

Lemma vm_kept_create_region d start size fl ty : vm_kept (vmm_create_region d start size fl ty).
Proof.
  assert (forall x, vm_kept (vmm_find_region d x)) as Hfind by (intros x; destruct d; [apply vm_kept_space|apply vm_kept_ret]).
  unfold vmm_create_region. destruct d as [d|]; [|apply vm_kept_ret]. destruct (size =? 0); [apply vm_kept_ret|].
  apply vm_kept_bind; [apply Hfind|]. intros ex. apply vm_kept_bind.
  { destruct ex; [apply vm_kept_bind; [apply vm_kept_space|intros; apply vm_kept_ret]|apply vm_kept_ret]. }
  intros []; [apply vm_kept_ret|]. apply vm_kept_bind; [apply vm_kept_malloc|]. intros [p|]; [|apply vm_kept_ret].
  repeat (apply vm_kept_bind; [apply vm_kept_space|intros []]). apply vm_kept_ret.
Qed.

Definition inherited (v : attr) : attr := (Z.lor v.1 VMM_FLAG_COW, v.2).

(** A change of the page tables only. *)
Lemma mm_vm own A L (m : mm) own' A' m' :
  mm_rep own A L m -> m' = set_vm (vm m') m -> rep own' A' (vm m') -> a_roots A' = a_roots A ->
  (forall s l sp, L !! s = Some l -> space_at m !! s = Some sp -> mapped_in A' (pml4_virt sp) l) -> mm_rep own' A' L m'.
Proof.
  intros [M1 M2 M3 M4 M5 M6] Hm' Hrep' Hroots Hmap. assert (space_at m' = space_at m /\ heap m' = heap m) as [Hsp Hh] by by rewrite Hm'.
  split; rewrite ?Hsp, ?Hh; try done. intros s l Hl. destruct (M2 s l Hl) as (sp & V & Ha & _). exists sp.
  split; [|split; [done|]; apply (Hmap s l sp Hl); apply V].
  apply (view_kept own A own' A' s sp l m); [done|done|by rewrite Hroots|rewrite Hsp; apply V|by rewrite Hh].
Qed.

(** The regions [done] of the parent have been copied. *)
Record copying (A0 : vm_abs) (L : gmap Z (list (Z * area))) (m0 : mm) (s d rd : Z) (sp : vm_space_t) (done : list (Z * area)) (m : mm) : Prop := {
  cp_rep : exists own A ld, mm_rep own A (<[d := ld]> L) m /\
    forked own A (vm m) A0 (pml4_virt sp) rd (fun k => attr_at done (k * 4096) <> None) /\
    (forall x, attr_at ld x = inherited <$> attr_at done x);
  cp_child : exists sd, space_at m !! d = Some sd /\ pml4_virt sd = rd;
  cp_space : forall s', s' <> d -> space_at m !! s' = space_at m0 !! s';
  cp_globals : kernel_vm_space m = kernel_vm_space m0 }.

Section loop.
Context (A0 : vm_abs) (L : gmap Z (list (Z * area))) (m0 : mm) (s d rd : Z) (sp : vm_space_t) (l : list (Z * area)).
Context (Hs : space_at m0 !! s = Some sp) (Hl : L !! s = Some l) (Hlist : list_ok sp l) (Hao : areas_ok l) (Hmap : mapped_in A0 (pml4_virt sp) l).
Context (Hsd : s <> d) (Hd : d ∉ dom L) (Hr : pml4_virt sp ∈ a_roots A0) (Hrd : rd ∈ a_roots A0) (Hne : pml4_virt sp <> rd).
Context (Hothers : forall s' l' sp', s' <> s -> L !! s' = Some l' -> space_at m0 !! s' = Some sp' ->
  mapped_in A0 (pml4_virt sp') l' /\ pml4_virt sp' <> pml4_virt sp /\ pml4_virt sp' <> rd).

(** The list entry of the child, and the pages it may have. *)
Lemma copied_maps own A v done ld s' l' sp' :
  forked own A v A0 (pml4_virt sp) rd (fun k => attr_at done (k * 4096) <> None) ->
  (forall x, attr_at done x <> None -> attr_at ld x <> None) ->
  <[d := ld]> L !! s' = Some l' -> (s' = d -> pml4_virt sp' = rd) -> (s' <> d -> space_at m0 !! s' = Some sp') -> mapped_in A (pml4_virt sp') l'.
Proof.
  intros [F1 F2 F3 F4 F5 F6] Hld. rewrite lookup_insert_Some. intros [[<- <-]|[Hn Hl']] Hc Ho k e He.
  - rewrite Hc in He by done. apply Hld. intros Hnone. destruct (F5 k) as [_ Hk]; [tauto|]. congruence.
  - specialize (Ho ltac:(done)). destruct (decide (s' = s)) as [->|Hn2].
    + assert (sp' = sp) as -> by congruence. assert (l' = l) as -> by congruence.
      destruct (a_maps A0 !! (pml4_virt sp, k)) as [e0|] eqn:E0; [by apply (Hmap k e0)|]. exfalso.
      destruct (decide (attr_at done (k * 4096) = None)) as [Hx|Hx].
      * destruct (F5 k) as [Hk _]; [tauto|]. congruence.
      * specialize (F6 k Hx). rewrite E0 in F6. destruct F6. congruence.
    + destruct (Hothers s' l' sp' Hn2 Hl' Ho) as (H1 & H2 & H3). rewrite F4 in He by done. by apply (H1 k e).
Qed.

Lemma member_child own A ld m : mm_rep own A (<[d := ld]> L) m -> exists sd, view own A d sd ld m /\ areas_ok ld /\ mapped_in A (pml4_virt sd) ld.
Proof. intros Hok. destruct (mo_view _ _ _ _ Hok d ld) as (sd & ?); [apply lookup_insert_eq|]. by exists sd. Qed.

Lemma area_done done p a todo x : l = done ++ (p, a) :: todo -> lo a <= x < hi a -> attr_at done x = None.
Proof.
  intros -> Hx. apply (attr_apart done (p, a)); [|done]. intros n Hn. left. destruct Hao as [_ Hso].
  apply sorted_mid in Hso as [Hb _]. rewrite Forall_forall in Hb. by apply Hb.
Qed.

(** The region of the child. *)
Lemma copy_area_run done p a todo m :
  l = done ++ (p, a) :: todo -> copying A0 L m0 s d rd sp done m ->
  wp (vmm_create_region (& d) (lo a) (u64 (hi a - lo a)) (Z.lor (fl a) VMM_FLAG_COW) (ty a)) (fun r m' =>
    (exists own A ld, mm_rep own A (<[d := ld]> L) m' /\
      forked own A (vm m') A0 (pml4_virt sp) rd (fun k => attr_at done (k * 4096) <> None) /\
      forall x, attr_at ld x = inherited <$> (if r is Some _ then attr_at (done ++ [(p, a)]) x else attr_at done x)) /\
    (exists sd, space_at m' !! d = Some sd /\ pml4_virt sd = rd) /\
    (forall s', s' <> d -> space_at m' !! s' = space_at m0 !! s') /\ kernel_vm_space m' = kernel_vm_space m0 /\
    (r = NULL -> no_room m)) m.
Proof.
  intros El [(own & A & ld & Hok & Hf & Hattr) (sd & Hsd1 & Hpd) Hsp Hg].
  destruct (member_child own A ld m Hok) as (sd' & V & Hado & Hmapd). assert (sd' = sd) as -> by (pose proof (vw_space _ _ _ _ _ _ V); congruence).
  assert (area_wf a) as [(H1 & H2 & H3 & H4) H5] by (apply (areas_mid done p a todo); by rewrite <- El).
  rewrite u64_id by lia. eapply wp_weaken; [apply vm_kept_wp; [apply vm_kept_create_region|]; apply (create_region_run own A d sd ld m (lo a) (hi a - lo a) (Z.lor (fl a) VMM_FLAG_COW) (ty a) V Hado); lia|].
  rewrite (align_down_id _ H1). replace (lo a + (hi a - lo a)) with (hi a) by lia. rewrite (align_up_id (hi a)) by (done || lia).
  set (b := {| lo := lo a; hi := hi a; fl := Z.lor (fl a) VMM_FLAG_COW; ty := ty a |}).
  assert (forall x, lo a <= x < hi a -> attr_at ld x = None) as Hfree by (intros x Hx; by rewrite Hattr, (area_done done p a todo x El Hx)).
  intros r m' ((sd2 & Hloc & Hres) & Hvm). pose proof (lc_pml4 _ _ _ _ _ _ _ _ _ _ Hloc) as Hpm.
  pose proof (lc_space _ _ _ _ _ _ _ _ _ _ Hloc) as Hsp'.
  assert (exists ld', view own A d sd2 ld' m' /\ areas_ok ld' /\ (r = NULL -> no_room m) /\
    forall x, attr_at ld' x = inherited <$> (if r is Some _ then attr_at (done ++ [(p, a)]) x else attr_at done x)) as (ld' & V' & Ha' & Hroom & Hattr').
  { destruct r as [q|].
    - destruct Hres as (_ & l1 & l2 & -> & V' & F1 & F2 & _). exists (l1 ++ (q, b) :: l2).
      assert (free_range (l1 ++ l2) (lo b) (hi b)) as Hfr by (apply free_range_attr; [done|exact H5|exact Hfree]).
      split; [done|]. split; [by apply areas_insert|]. split; [done|].
      intros x. rewrite (attr_insert l1 q b l2 x Hfr), (attr_app done), attr_one. cbn [lo hi b]. rewrite Hattr. case_decide as Hx; [by rewrite (area_done done p a todo x El Hx)|].
      by destruct (attr_at done x).
    - destruct Hres as ([Hc|Hno] & V' & ->); [destruct Hc; apply Hfree; cbn; lia|]. by exists ld. }
  destruct (mm_local same_space own A (<[d := ld]> L) m d sd ld own A sd2 ld' m' Hok) as [Hok' _]; try done; [apply lookup_insert_eq| |].
  { apply (mapped_wider A _ ld); [done|]. intros x. rewrite Hattr, Hattr'. destruct r as [q|]; [|done]. rewrite attr_app. by destruct (attr_at done x). }
  rewrite insert_insert_eq in Hok'. split; [|split; [|split; [|split]]].
  - exists own, A, ld'. split; [done|]. split; [|done]. by rewrite Hvm.
  - exists sd2. rewrite Hsp', lookup_insert_eq. split; [done|congruence].
  - intros s' Hn. rewrite Hsp', lookup_insert_ne by done. by apply Hsp.
  - destruct (lc_globals _ _ _ _ _ _ _ _ _ _ Hloc) as [-> _]. done.
  - done.
Qed.

(** One turn of the loop. *)
Lemma copy_step_run done p a todo m :
  l = done ++ (p, a) :: todo -> copying A0 L m0 s d rd sp done m ->
  wp (new_region <- vmm_create_region (& d) (lo a) (u64 (hi a - lo a)) (Z.lor (fl a) VMM_FLAG_COW) (ty a);;
      match new_region with
      | NULL => pret false
      | Some _ => for_pages (lo a) (hi a) (share_page s d (fl a));; pret true
      end)
    (fun ok m' => if ok then copying A0 L m0 s d rd sp (done ++ [(p, a)]) m' else copying A0 L m0 s d rd sp done m') m.
Proof.
  intros El Hc. assert (area_wf a) as [Hur Hlt] by (apply (areas_mid done p a todo); by rewrite <- El).
  wp_step. eapply wp_weaken; [by apply (copy_area_run done p a todo m El Hc)|].
  intros r m1 ((own & A & ld & Hok & Hf & Hattr) & (sd & Hd1 & Hpd) & Hsp & Hg & _). destruct r as [q|].
  2:{ apply wp_pret. split; [by exists own, A, ld|by exists sd|done|done]. }
  assert (space_at m1 !! s = Some sp) as Hs1 by by rewrite Hsp.
  wp_step. eapply wp_weaken; [apply (share_pages_run own A0 A s d sp sd (fl a) (fun k => attr_at done (k * 4096) <> None) (lo a) (hi a) m1)|]; rewrite ?Hpd; try done.
  { intros k Hk Hn. by apply Hn, (area_done done p a todo). }
  intros _ m' (Hm' & own' & A' & Hf'). apply wp_pret. assert (space_at m' = space_at m1) as Hsp' by by rewrite Hm'.
  assert (forked own' A' (vm m') A0 (pml4_virt sp) rd (fun k => attr_at (done ++ [(p, a)]) (k * 4096) <> None)) as Hf2.
  { eapply forked_iff; [|exact Hf']. intros k. cbn. rewrite attr_app, attr_one. unfold in_range.
    destruct (attr_at done (k * 4096)); [|case_decide]; intuition congruence. }
  split.
  - exists own', A', ld. split; [|by split]. eapply (mm_vm own A _ m1); [done|done|apply Hf2|rewrite (fk_roots _ _ _ _ _ _ _ Hf2), (fk_roots _ _ _ _ _ _ _ Hf); done|].
    intros s' l' sp' Hl' Hs'. apply (copied_maps own' A' (vm m') (done ++ [(p, a)]) ld s'); [done| |done| |].
    + intros x. rewrite Hattr. by destruct (attr_at (done ++ [(p, a)]) x).
    + intros ->. congruence.
    + intros Hn. by rewrite <- Hsp.
  - exists sd. by rewrite Hsp'.
  - intros s' Hn. rewrite Hsp'. by apply Hsp.
  - by rewrite Hm'.
Qed.

Lemma copy_regions_run n : forall done todo pv m,
  l = done ++ todo -> seg (region_at sp) pv todo NULL -> (length todo <= n)%nat -> copying A0 L m0 s d rd sp done m ->
  wp (copy_regions n s d (first todo NULL)) (fun ok m' => if ok then copying A0 L m0 s d rd sp l m' else
    exists done', copying A0 L m0 s d rd sp done' m') m.
Proof.
  induction n as [|n IH]; intros done [|[p a] todo] pv m El Hseg Hn Hc; cbn [first length copy_regions] in *;
    [apply wp_pret; by rewrite El, app_nil_r|lia|apply wp_pret; by rewrite El, app_nil_r|].
  destruct Hseg as [Hp Hseg]. wp_step. eapply read_space_run; [rewrite (cp_space _ _ _ _ _ _ _ _ _ Hc) by done; exact Hs|by apply (region_run p _ _ _ Hp)|].
  cbn [object start_addr end_addr flags type next].
  pose proof (wp_pbind_inv _ _ _ _ (copy_step_run done p a todo m El Hc)) as Hstep.
  wp_step. eapply wp_weaken; [exact Hstep|]. intros [q|] m1 Hq; [|apply wp_pret; by exists done].
  wp_step. eapply wp_weaken; [exact (wp_pbind_inv _ _ _ _ Hq)|]. intros y m2 Hm2.
  apply (IH (done ++ [(p, a)]) todo (& p)); [by rewrite <- app_assoc|done|lia|exact Hm2].
Qed.

(** What the processes see meanwhile. *)
Lemma copying_seen own0 done m :
  mm_rep own0 A0 (<[d := []]> L) m0 -> copying A0 L m0 s d rd sp done m ->
  (forall x, region_of m s x = region_of m0 s x) /\ others_same (dom L) s m0 m /\
  (forall k, user_page k -> entry_of m s k = entry_of m0 s k \/ entry_of m s k = read_only <$> entry_of m0 s k) /\
  contents (vm m) = contents (vm m0) /\
  (done = l -> (forall x, region_of m d x = inherited <$> region_of m0 s x) /\
    forall k, user_page k -> shared_entry (free_frames (vm m) = NULL) (entry_of m0 s k) (entry_of m s k) (entry_of m d k)).
Proof.
  intros H0 [(own & A & ld & Hok & [F1 F2 F3 F4 F5 F6] & Hattr) (sd & Hsd1 & Hpd) Hsp _].
  assert (forall s' l', L !! s' = Some l' -> exists sp', view own0 A0 s' sp' l' m0 /\ view own A s' sp' l' m) as Hview.
  { intros s' l' Hl'. assert (s' <> d) as Hn by (intros ->; apply Hd; by eapply elem_of_dom_2).
    destruct (mo_view _ _ _ _ H0 s' l') as (sp1 & V1 & _); [by rewrite lookup_insert_ne|].
    destruct (mo_view _ _ _ _ Hok s' l') as (sp2 & V2 & _); [by rewrite lookup_insert_ne|].
    exists sp1. split; [done|]. replace sp1 with sp2; [done|]. pose proof (vw_space _ _ _ _ _ _ V1) as E1.
    pose proof (vw_space _ _ _ _ _ _ V2) as E2. rewrite Hsp in E2 by done. congruence. }
  destruct (Hview s l Hl) as (sp0 & V0 & V). assert (sp0 = sp) as -> by (pose proof (vw_space _ _ _ _ _ _ V0); congruence).
  destruct (member_child own A ld m Hok) as (sd' & Vd & _). assert (sd' = sd) as -> by (pose proof (vw_space _ _ _ _ _ _ Vd); congruence).
  assert (forall k, user_page k -> entry_of m0 s k = a_maps A0 !! (pml4_virt sp, k)) as E0 by (intros k Hk; by apply (entry_of_view own0 A0 s sp l)).
  assert (forall k, user_page k -> entry_of m s k = a_maps A !! (pml4_virt sp, k)) as E by (intros k Hk; by apply (entry_of_view own A s sp l)).
  split; [intros x; by rewrite (region_of_view _ _ _ _ _ _ x V), (region_of_view _ _ _ _ _ _ x V0)|]. split; [|split; [|split]].
  - intros s' [l' Hl']%elem_of_dom Hn. destruct (Hview s' l' Hl') as (sp' & G0 & G).
    destruct (Hothers s' l' sp' Hn Hl' (vw_space _ _ _ _ _ _ G0)) as (_ & N1 & N2). split.
    + intros x. by rewrite (region_of_view _ _ _ _ _ _ x G), (region_of_view _ _ _ _ _ _ x G0).
    + intros k Hk. rewrite (entry_of_view _ _ _ _ _ _ k G Hk), (entry_of_view _ _ _ _ _ _ k G0 Hk). by apply F4.
  - intros k Hk. rewrite E, E0 by done. destruct (decide (attr_at done (k * 4096) = None)) as [Hx|Hx].
    + left. apply F5. tauto.
    + specialize (F6 k Hx). destruct (a_maps A0 !! (pml4_virt sp, k)); [right; by destruct F6|left; by destruct F6].
  - rewrite (sh_pages _ _ _ (proj2 F1)), F3. symmetry. apply (sh_pages _ _ _ (proj2 (mo_rep _ _ _ _ H0))).
  - intros ->. split.
    + intros x. by rewrite (region_of_view _ _ _ _ _ _ x Vd), (region_of_view _ _ _ _ _ _ x V0).
    + intros k Hk. rewrite E, E0, (entry_of_view _ _ _ _ _ _ k Vd Hk), Hpd by done. destruct (decide (attr_at l (k * 4096) = None)) as [Hx|Hx].
      * destruct (F5 k) as [-> ->]; [tauto|]. destruct (a_maps A0 !! (pml4_virt sp, k)) as [e|] eqn:Ee; [by destruct (Hmap k e Ee)|done].
      * eapply shared_entry_mono; [|by apply F6]. by apply exhausted_free.
Qed.
End loop.

(** ** The whole space *)
Lemma wp_both {A} (e : prog mm A) Q Q' m : wp e Q m -> wp e Q' m -> wp e (fun x m' => Q x m' /\ Q' x m') m.
Proof. unfold wp. by destruct (e m) as [[x m']|]. Qed.

Lemma create_space_fresh own A L m pid :
  mm_rep own A L m ->
  wp (vmm_create_address_space pid) (fun p m' => kernel_vm_space m' = kernel_vm_space m /\ forall d, p = & d -> space_at m !! d = None) m.
Proof.
  intros Hok. unfold vmm_create_address_space. wp_step. apply malloc_run; [by intros; apply wp_pret|].
  intros p h' E Hp Hh. wp_step. apply in_vm_run. cbn [vm set_heap].
  destruct (PageWalk.vmm_create_address_space true pid (vm m)) as [[r|] v']; cbn [fst snd].
  - wp_step. apply wp_pmodify. apply wp_pret. split; [done|]. intros d [= <-].
    destruct (space_at m !! p) as [sp|] eqn:Es; [|done]. by destruct (mo_live _ _ _ _ Hok p sp Es).
  - wp_step. unfold free, in_heap. apply wp_pcall. cbn. by apply wp_pret.
Qed.

(** The layout is copied last. *)
Lemma copy_layout_run own A L m d ld id :
  mm_rep own A (<[d := ld]> L) m -> d ∉ dom L ->
  wp (in_space d (pmodify (copy_layout id))) (fun _ m' => mm_rep own A (<[d := ld]> L) m' /\ others_same (dom L) d m m' /\ vm m' = vm m /\
    (forall x, region_of m' d x = region_of m d x) /\ (forall k, user_page k -> entry_of m' d k = entry_of m d k) /\
    exists sd, space_at m' = <[d := copy_layout id sd]> (space_at m)) m.
Proof.
  intros Hok Hd. destruct (mo_view _ _ _ _ Hok d ld) as (sd & V & Ha & Hm); [apply lookup_insert_eq|].
  eapply in_space_run; [apply V|]. wp_step. set (m' := set_spaces _ m). pose proof V as [V1 V2 V3 V4 V5].
  assert (view own A d (copy_layout id sd) ld m') as V'.
  { split; [done|apply lookup_insert_eq| |done|done]. destruct V3 as [L1 L2 L3]. by split. }
  destruct (mm_update own A (<[d := ld]> L) m d sd ld own A (copy_layout id sd) ld m' Hok) as [Hok' Ho]; try done; [apply lookup_insert_eq|set_solver| |].
  { cbn. apply leibniz_equiv. intros x. destruct (decide (x ∈ dom (region_at sd))); set_solver. }
  rewrite insert_insert_eq in Hok'. split; [done|]. split; [|split; [done|split; [|split]]].
  - intros s' Hs'. apply Ho. rewrite dom_insert. set_solver.
  - intros x. by rewrite (region_of_view _ _ _ _ _ _ x V), (region_of_view _ _ _ _ _ _ x V').
  - intros k Hk. by rewrite (entry_of_view _ _ _ _ _ _ k V Hk), (entry_of_view _ _ _ _ _ _ k V' Hk).
  - by exists sd.
Qed.

Definition same_layout (id sd : vm_space_t) : Prop :=
  heap_start sd = heap_start id /\ heap_end sd = heap_end id /\ stack_start sd = stack_start id /\ mmap_start sd = mmap_start id.


(** The loop, from a space [d] that has just been created. *)
Record copied (L : gmap Z (list (Z * area))) (s d : Z) (sp : vm_space_t) (m0 : mm) (ok : bool) (m : mm) : Prop := {
  co_rep : exists own A ld, mm_rep own A (<[d := ld]> L) m;
  co_globals : kernel_vm_space m = kernel_vm_space m0;
  co_space : space_at m !! s = Some sp;
  co_regions : forall x, region_of m s x = region_of m0 s x;
  co_others : others_same (dom L) s m0 m;
  co_entries : forall k, user_page k -> entry_of m s k = entry_of m0 s k \/ entry_of m s k = read_only <$> entry_of m0 s k;
  co_contents : contents (vm m) = contents (vm m0);
  co_child : ok = true -> (forall x, region_of m d x = inherited <$> region_of m0 s x) /\
    forall k, user_page k -> shared_entry (free_frames (vm m) = NULL) (entry_of m0 s k) (entry_of m s k) (entry_of m d k) }.

Lemma copy_loop_run own0 A0 L m0 s d :
  mm_rep own0 A0 (<[d := []]> L) m0 -> s ∈ dom L -> d ∉ dom L ->
  exists sp, space_at m0 !! s = Some sp /\ wp (copy_regions (list_fuel sp) s d (regions sp)) (copied L s d sp m0) m0.
Proof.
  intros H0 [l Hl]%elem_of_dom Hd. assert (s <> d) as Hsd by (intros ->; apply Hd; by eapply elem_of_dom_2).
  assert (<[d := []]> L !! s = Some l) as Hl' by by rewrite lookup_insert_ne.
  destruct (mo_view _ _ _ _ H0 s l Hl') as (sp & [V1 V2 V3 V4 V5] & Hao & Hmap).
  destruct (mo_view _ _ _ _ H0 d []) as (sd & [W1 W2 W3 W4 W5] & _ & Hmapd); [apply lookup_insert_eq|].
  assert (forall s' l', <[d := []]> L !! s' = Some l' -> s' ∈ dom (<[d := []]> L)) as Hdom by (intros; by eapply elem_of_dom_2).
  assert (pml4_virt sp <> pml4_virt sd) as Hne by (intros Heq; apply Hsd, (mo_roots _ _ _ _ H0 s d sp sd); eauto; apply (Hdom d []), lookup_insert_eq).
  assert (forall s' l' sp', s' <> s -> L !! s' = Some l' -> space_at m0 !! s' = Some sp' ->
    mapped_in A0 (pml4_virt sp') l' /\ pml4_virt sp' <> pml4_virt sp /\ pml4_virt sp' <> pml4_virt sd) as Hoth.
  { intros s' l' sp' Hn Hls Hs'. assert (s' <> d) as Hn2 by (intros ->; apply Hd; by eapply elem_of_dom_2).
    assert (<[d := []]> L !! s' = Some l') as Hls' by by rewrite lookup_insert_ne.
    destruct (mo_view _ _ _ _ H0 s' l' Hls') as (sp2 & V & _ & Hm2). assert (sp2 = sp') as -> by (pose proof (vw_space _ _ _ _ _ _ V); congruence).
    split; [done|]. split; intros Heq; [apply Hn, (mo_roots _ _ _ _ H0 s' s sp' sp)|apply Hn2, (mo_roots _ _ _ _ H0 s' d sp' sd)]; eauto.
    apply (Hdom d []), lookup_insert_eq. }
  exists sp. split; [done|].
  assert (copying A0 L m0 s d (pml4_virt sd) sp [] m0) as Hc.
  { split; [|by exists sd|done|done]. exists own0, A0, []. split; [done|]. split; [|done]. split; try done.
    intros k _. split; [done|]. destruct (a_maps A0 !! (pml4_virt sd, k)) as [e|] eqn:Ee; [by destruct (Hmapd k e Ee)|done]. }
  rewrite (lk_head _ _ V3). eapply wp_weaken.
  { eapply (copy_regions_run A0 L m0 s d (pml4_virt sd) sp l V2 Hl V3 Hao Hmap Hsd V4 W4 Hne Hoth _ [] l NULL); try done.
    - apply V3.
    - pose proof (list_ok_fuel _ _ V3). unfold list_fuel. lia. }
  intros ok m Hm. assert (exists done, copying A0 L m0 s d (pml4_virt sd) sp done m /\ (ok = true -> done = l)) as (done & Hcd & Hdn).
  { destruct ok; [by exists l|]. destruct Hm as [done Hm]. exists done. split; [exact Hm|]. intros [=]. }
  destruct (copying_seen A0 L m0 s d (pml4_virt sd) sp l V2 Hl Hmap Hd Hoth own0 done m H0 Hcd) as (S1 & S2 & S3 & S4 & S5).
  destruct Hcd as [(own & A & ld & Hok & _) _ Hsp Hg]. split; try done; [by exists own, A, ld|by rewrite Hsp|]. intros Ht. apply S5, Hdn, Ht.
Qed.

Lemma fork_mm S m s pid :
  mm_ok S m -> s ∈ S -> (forall k, kernel_vm_space m = & k -> is_Some (space_at m !! k)) ->
  wp (vmm_copy_address_space (& s) pid) (fun r m' => others_same S s m m' /\ (forall x, region_of m' s x = region_of m s x) /\
    contents (vm m') = contents (vm m) /\
    match r with
    | NULL => mm_ok S m' /\ forall k, user_page k -> entry_of m' s k = entry_of m s k \/ entry_of m' s k = read_only <$> entry_of m s k
    | Some d => (d ∉ S) /\ mm_ok ({[d]} ∪ S) m' /\
        (forall x, region_of m' d x = inherited <$> region_of m s x) /\
        (forall k, user_page k -> shared_entry (free_frames (vm m') = NULL) (entry_of m s k) (entry_of m' s k) (entry_of m' d k)) /\
        exists id sd, space_at m' !! s = Some id /\ space_at m' !! d = Some sd /\ same_layout id sd
    end) m.
Proof.
  intros (own & A & L & <- & Hok) Hs Hk. unfold vmm_copy_address_space. wp_step. eapply wp_weaken.
  { apply wp_both; [by apply (create_space_run own A L m pid)|by apply (create_space_fresh own A L)]. }
  intros [d|] m1 [Hnew (Hg1 & Hfresh)].
  2:{ destruct Hnew as [Hok1 Hsp1]. apply wp_pret. assert (forall s', s' ∈ dom L -> looks_same s' m m1) as Hsame by (intros s' Hs'; by apply (looks_rep own A L)).
      split; [by intros s' Hs' _; apply Hsame|]. split; [by apply Hsame|].
      split; [by rewrite (sh_pages _ _ _ (proj2 (mo_rep _ _ _ _ Hok1))), (sh_pages _ _ _ (proj2 (mo_rep _ _ _ _ Hok)))|].
      split; [by exists own, A, L|]. intros k Hu. left. by apply Hsame. }
  destruct Hnew as (Hd & Ho1 & own1 & rd & Hok1 & _). 
  destruct (copy_loop_run own1 _ L m1 s d Hok1 Hs Hd) as (sp & Hs1 & Hloop).
  wp_step. eapply read_space_run; [exact Hs1|by apply wp_pget|]. wp_step. eapply read_space_run; [exact Hs1|by apply wp_pget|].
  wp_step. eapply wp_weaken; [exact Hloop|]. intros ok m2 [(own2 & A2 & ld & Hok2) Hg2 Hs2 Hr2 Ho2 He2 Hc2 Hch].
  assert (s <> d) as Hsd by (intros ->; done). destruct (Ho1 s Hs Hsd) as [R1 E1].
  assert (contents (vm m2) = contents (vm m)) as Hcm.
  { by rewrite Hc2, (sh_pages _ _ _ (proj2 (mo_rep _ _ _ _ Hok1))), (sh_pages _ _ _ (proj2 (mo_rep _ _ _ _ Hok))). }
  assert (forall m3, others_same (dom L) d m2 m3 -> others_same (dom L) s m m3) as Hothers.
  { intros m3 H3 s' Hs' Hn. assert (s' <> d) as Hn2 by (intros ->; done). destruct (Ho1 s' Hs' Hn2) as [G1 G2], (Ho2 s' Hs' Hn) as [G3 G4], (H3 s' Hs' Hn2) as [G5 G6].
    split; [intros x; by rewrite G5, G3, G1|intros k Hu; by rewrite G6, G4, G2]. }
  destruct ok; cbn [negb].
  - wp_step. eapply read_space_run; [exact Hs2|by apply wp_pget|]. wp_step. eapply wp_weaken; [by apply (copy_layout_run own2 A2 L m2 d ld sp)|].
    intros _ m3 (Hok3 & Ho3 & Hvm & Rd & Ed & sd3 & Hd3). apply wp_pret. destruct (Hch eq_refl) as [Hreg Hpg]. destruct (Ho3 s Hs Hsd) as [R3 E3].
    split; [by apply Hothers|]. split; [intros x; by rewrite R3, Hr2|]. split; [by rewrite Hvm|]. split; [done|]. split; [exists own2, A2, (<[d := ld]> L); split; [apply dom_insert_L|done]|].
    split; [|split].
    + intros x. by rewrite Rd, Hreg, R1.
    + intros k Hu. rewrite Ed, E3, Hvm, <- E1 by done. by apply Hpg.
    + exists sp, (copy_layout sp sd3). by rewrite Hd3, lookup_insert_eq, lookup_insert_ne.
  - wp_step. eapply wp_weaken; [apply (destroy_space_run own2 A2 (<[d := ld]> L) m2 d Hok2)|].
    + rewrite dom_insert. set_solver.
    + rewrite Hg2, Hg1. intros Hkd. destruct (Hk d Hkd) as [x Hx]. by rewrite Hfresh in Hx.
    + intros _ m3 (Hsp3 & Ho3 & Hcm3 & own3 & A3 & Hok3). apply wp_pret. rewrite delete_insert_id in Hok3 by by apply not_elem_of_dom.
      assert (others_same (dom L) d m2 m3) as Ho3' by (intros s' Hs' Hn; apply Ho3; [rewrite dom_insert; set_solver|done]).
      destruct (Ho3' s Hs Hsd) as [R3 E3]. split; [by apply Hothers|]. split; [intros x; by rewrite R3, Hr2|]. split; [by rewrite Hcm3|].
      split; [by exists own3, A3, L|]. intros k Hu. rewrite E3, <- E1 by done. by apply He2.
Qed.
End fork.

(** ** The property *)

(** C15: fork, the address space.  Either the child is a new space with the
    regions of the parent, marked copy-on-write, with the parent's layout, and
    with the frames of the parent's pages, which neither can write to (a page
    is missing from the child only when no frame is left); or there is no
    child, and the parent's pages are as they were or read-only.  In both
    cases the regions of the parent, everything of the other processes and
    the contents of memory are as before. *)
Theorem fork_exact {Heap : Type} `{KernelHeapLaws Heap} (S : gset Z) (m : @mm_t Heap) (s pid : Z) :
  mm_ok S m -> s ∈ S -> (forall k, kernel_vm_space m = & k -> is_Some (space_at m !! k)) ->
  wp (vmm_copy_address_space (& s) pid) (fun r m' => others_same S s m m' /\ (forall x, region_of m' s x = region_of m s x) /\
    contents (vm m') = contents (vm m) /\
    match r with
    | NULL => mm_ok S m' /\ forall k, user_page k -> entry_of m' s k = entry_of m s k \/ entry_of m' s k = read_only <$> entry_of m s k
    | Some d => (d ∉ S) /\ mm_ok ({[d]} ∪ S) m' /\
        (forall x, region_of m' d x = inherited <$> region_of m s x) /\
        (forall k, user_page k -> shared_entry (free_frames (vm m') = NULL) (entry_of m s k) (entry_of m' s k) (entry_of m' d k)) /\
        exists id sd, space_at m' !! s = Some id /\ space_at m' !! d = Some sd /\ same_layout id sd
    end) m.
Proof. apply fork_mm. Qed.

Definition example_forked : @mm_t arena := after (vmm_copy_address_space (& 1) 3) example_mapped.

Lemma fork_exact_witness :
  exists d, vmm_copy_address_space (& 1) 3 example_mapped = Some (Some d, example_forked) /\ mm_ok ({[d]} ∪ {[1; 2]}) example_forked /\
    region_of example_forked d 0x502fff = Some (43, VMM_REGION_MMAP) /\
    (exists y, entry_of example_forked d 0x502 = Some y /\
      pte_to_phys <$> entry_of example_mapped 1 0x502 = Some (pte_to_phys y) /\ pte_has y PAGE_WRITABLE = false) /\
    entry_of example_forked 1 0x502 = read_only <$> entry_of example_mapped 1 0x502.
Proof.
  destruct (wp_returns _ _ _ (fork_exact {[1; 2]} example_mapped 1 3 example_mapped_ok ltac:(set_solver)
    ltac:(intros k Hk; vm_compute in Hk; discriminate Hk))) as (r & m' & E & _ & _ & _ & H).
  assert (m' = example_forked) as -> by (unfold example_forked, after; rewrite E; reflexivity).
  destruct r as [d|]; [|apply (f_equal (fmap fst)) in E; vm_compute in E; discriminate E].
  destruct H as (_ & H2 & H4 & H5 & _). exists d. split; [exact E|]. split; [exact H2|]. split; [rewrite H4; vm_compute; reflexivity|].
  specialize (H5 0x502 ltac:(by_value)). destruct (entry_of example_mapped 1 0x502) as [x|] eqn:Ex; [|vm_compute in Ex; discriminate Ex].
  destruct H5 as [H5 [[_ Hfull]|(y & Hy & Hp & Hw)]]; [vm_compute in Hfull; discriminate Hfull|]. split; [|exact H5].
  exists y. split; [exact Hy|]. split; [cbn; by rewrite Hp|exact Hw].
Defined.

(** ** After the fork *)
Definition write_fault (x : Z) : page_fault_info_t :=
  {| fault_addr := x; error_code := 7; is_write := true; is_user := true; is_present := true; is_instruction_fetch := false |}.

(** The first write of the child gets it a copy; that of the parent is refused,
    since only the child's regions are marked. *)
Lemma forked_writes :
  result (vmm_handle_page_fault (& (write_fault 0x500010))) (after (vmm_switch_address_space (& 4)) example_forked) = Some VMM_SUCCESS /\
  result (vmm_handle_page_fault (& (write_fault 0x500010))) (after (vmm_switch_address_space (& 1)) example_forked) = Some VMM_ERROR_FAULT /\
  option_map (fun e => pte_has e PAGE_WRITABLE) (entry_of example_mapped 1 0x500) = Some true.
Proof. vm_compute. repeat split. Qed.

(** A fork that fails half-way leaves the pages shared so far read-only in the
    parent, in regions that are not copy-on-write. *)
Definition example_two_regions : @mm_t arena :=
  let m := after (vmm_mmap (& 1) 0x600000 0x1000 3 0) example_mapped in
  set_heap {| room := 2; arena_live := arena_live (heap m) |} m.

Lemma failed_fork_protects :
  result (vmm_copy_address_space (& 1) 3) example_two_regions = Some NULL /\
  option_map (fun e => pte_has e PAGE_WRITABLE) (entry_of example_two_regions 1 0x500) = Some true /\
  option_map (fun e => pte_has e PAGE_WRITABLE) (entry_of (after (vmm_copy_address_space (& 1) 3) example_two_regions) 1 0x500) = Some false.
Proof. vm_compute. repeat split. Qed.

(** Destroying the running space leaves [current_space] behind: the next page
    fault reads the freed object. *)
Lemma destroyed_current_faults :
  let m := after (vmm_destroy_address_space (& 1)) (after (vmm_switch_address_space (& 1)) example_mapped) in
  current_space m = & 1 /\ space_at m !! 1 = None /\ vmm_handle_page_fault (& (write_fault 0x500010)) m = None.
Proof. vm_compute. repeat split. Qed.
