(* ===== verification/Fat.v ===== *)
(** * The FAT file system (kernel/fat.c, include/fat.h)

    One mounted volume: its geometry and cached allocation table ([info]), the
    device ([disk]) and the kernel heap.  The VFS objects the operations are
    given or make are values, each with its address where the heap has to know
    it; the pointers the operations test are options.  A computation fails
    where the code would read a buffer outside what the device filled, or
    would never return.  The pointers every caller passes non-NULL
    ([fat_info], the superblock) are not tested here; the [dir], [inode] and
    [file] arguments are tested in the VFS layer. *)
From Stdlib Require Import ZArith Lia.
From S2P Require Import Prelude BlockDevice StateMonad KernelHeap.
Open Scope Z_scope.
Open Scope c_scope.
Open Scope prog_scope.

(** ** Constants *)
Definition FAT_CLUSTER_FREE : Z := 0x0000.
Definition FAT_CLUSTER_BAD : Z := 0xFFF7.
Definition FAT_CLUSTER_EOF16 : Z := 0xFFFF.
Definition FAT_CLUSTER_EOF32 : Z := 0x0FFFFFFF.
Definition FAT_ATTR_DIRECTORY : Z := 0x10.
Definition FAT_ATTR_ARCHIVE : Z := 0x20.
Definition FAT_SUCCESS : Z := 0.
Definition FAT_ERROR_UNSUPPORTED_TYPE : Z := -2.
Definition FAT_ERROR_IO_ERROR : Z := -3.
Definition FAT_ERROR_INVALID_CLUSTER : Z := -5.
Definition FAT_ERROR_NOT_FOUND : Z := -9.

Definition VFS_SUCCESS : Z := 0.
Definition VFS_ERROR_INVALID_PARAM : Z := -1.
Definition VFS_ERROR_EXISTS : Z := -4.
Definition VFS_ERROR_NOT_DIRECTORY : Z := -5.
Definition VFS_ERROR_IS_DIRECTORY : Z := -6.
Definition VFS_ERROR_NO_SPACE : Z := -7.
Definition VFS_ERROR_NO_MEMORY : Z := -10.
Definition VFS_ERROR_IO_ERROR : Z := -11.

Inductive fat_type_t := FAT_TYPE_UNKNOWN | FAT_TYPE_FAT12 | FAT_TYPE_FAT16 | FAT_TYPE_FAT32.
#[export] Instance fat_type_eq_dec : EqDecision fat_type_t.
Proof. solve_decision. Defined.

Inductive vfs_file_type_t :=
| VFS_FILE_TYPE_REGULAR | VFS_FILE_TYPE_DIRECTORY | VFS_FILE_TYPE_SYMLINK | VFS_FILE_TYPE_CHARDEV
| VFS_FILE_TYPE_BLOCKDEV | VFS_FILE_TYPE_FIFO | VFS_FILE_TYPE_SOCKET | VFS_FILE_TYPE_UNKNOWN.

(** ** On the disk *)
Module Boot.
Record fat_boot_sector_t := {
  jump_boot : list byte;
  oem_name : list byte;
  bytes_per_sector : Z;
  sectors_per_cluster : Z;
  reserved_sectors : Z;
  num_fats : Z;
  root_entries : Z;
  total_sectors_16 : Z;
  media_type : Z;
  fat_size_16 : Z;
  sectors_per_track : Z;
  num_heads : Z;
  hidden_sectors : Z;
  total_sectors_32 : Z;
  extension : list byte;          (* the union of fat16 and fat32 *)
  boot_sector_signature : Z }.

Definition widths : list nat := [2; 1; 2; 1; 2; 2; 1; 2; 2; 2; 4; 4]%nat.
Definition numbers (b : fat_boot_sector_t) : list Z :=
  [bytes_per_sector b; sectors_per_cluster b; reserved_sectors b; num_fats b; root_entries b; total_sectors_16 b;
   media_type b; fat_size_16 b; sectors_per_track b; num_heads b; hidden_sectors b; total_sectors_32 b].

(** The struct as it lies in the sector. *)
Definition bytes (b : fat_boot_sector_t) : list byte :=
  jump_boot b ++ oem_name b ++ pack widths (numbers b) ++ extension b ++ le_split 2 (boot_sector_signature b).
Definition parse (bs : list byte) : fat_boot_sector_t :=
  let ns := unpack widths (drop 11 bs) in
  {| jump_boot := take 3 bs; oem_name := take 8 (drop 3 bs); bytes_per_sector := field 0 ns; sectors_per_cluster := field 1 ns;
     reserved_sectors := field 2 ns; num_fats := field 3 ns; root_entries := field 4 ns; total_sectors_16 := field 5 ns;
     media_type := field 6 ns; fat_size_16 := field 7 ns; sectors_per_track := field 8 ns; num_heads := field 9 ns;
     hidden_sectors := field 10 ns; total_sectors_32 := field 11 ns; extension := take 474 (drop 36 bs);
     boot_sector_signature := le_combine (take 2 (drop 510 bs)) |}.

(** The fields of [fat32] that are read. *)
Definition fat_size_32 (b : fat_boot_sector_t) : Z := le_combine (take 4 (extension b)).
Definition root_cluster (b : fat_boot_sector_t) : Z := le_combine (take 4 (drop 8 (extension b))).
End Boot.

Module Entry.
Record fat_dir_entry_t := {
  name : list byte;
  attributes : Z;
  reserved : Z;
  creation_time_tenth : Z;
  creation_time : Z;
  creation_date : Z;
  last_access_date : Z;
  first_cluster_high : Z;
  write_time : Z;
  write_date : Z;
  first_cluster_low : Z;
  file_size : Z }.

Definition widths : list nat := [1; 1; 1; 2; 2; 2; 2; 2; 2; 2; 4]%nat.
Definition numbers (e : fat_dir_entry_t) : list Z :=
  [attributes e; reserved e; creation_time_tenth e; creation_time e; creation_date e; last_access_date e; first_cluster_high e;
   write_time e; write_date e; first_cluster_low e; file_size e].
Definition bytes (e : fat_dir_entry_t) : list byte := name e ++ pack widths (numbers e).
Definition parse (bs : list byte) : fat_dir_entry_t :=
  let ns := unpack widths (drop 11 bs) in
  {| name := take 11 bs; attributes := field 0 ns; reserved := field 1 ns; creation_time_tenth := field 2 ns;
     creation_time := field 3 ns; creation_date := field 4 ns; last_access_date := field 5 ns; first_cluster_high := field 6 ns;
     write_time := field 7 ns; write_date := field 8 ns; first_cluster_low := field 9 ns; file_size := field 10 ns |}.

(** [memset(&e, 0, sizeof e)], then the fields the code sets. *)
Definition make (nm : list byte) (attr first_cluster size : Z) : fat_dir_entry_t :=
  {| name := nm; attributes := attr; reserved := 0; creation_time_tenth := 0; creation_time := 0; creation_date := 0;
     last_access_date := 0; first_cluster_high := Z.land (Z.shiftr first_cluster 16) 0xFFFF; write_time := 0; write_date := 0;
     first_cluster_low := Z.land first_cluster 0xFFFF; file_size := size |}.
End Entry.

(** ** Strings, without their terminating NUL *)
Definition dot : byte := Byte.x2e.
Definition space : byte := Byte.x20.

(** The position of the last [c]. *)
Fixpoint strrchr (str : list byte) (c : byte) : ptr nat :=
  match str with
  | [] => NULL
  | x :: rest =>
      match strrchr rest c with
      | Some i => & (S i)
      | NULL => if Byte.eqb x c then & 0%nat else NULL
      end
  end.

(** The difference of the first bytes that differ, 0 when [n] bytes agree. *)
Fixpoint memcmp (s1 s2 : list byte) (n : nat) : Z :=
  match n, s1, s2 with
  | S n, x :: s1, y :: s2 => if Byte.eqb x y then memcmp s1 s2 n else byte.unsigned x - byte.unsigned y
  | _, _, _ => 0
  end.

Definition between (lo hi : Z) (c : byte) : bool := (lo <=? byte.unsigned c) && (byte.unsigned c <=? hi).
Definition to_upper (c : byte) : byte := if between 97 122 c then byte.of_Z (byte.unsigned c - 32) else c.
Definition to_lower (c : byte) : byte := if between 65 90 c then byte.of_Z (byte.unsigned c + 32) else c.

(** [n] bytes: the given ones, then spaces. *)
Definition pad (n : nat) (bs : list byte) : list byte := take n (bs ++ replicate n space).

(** The eleven characters of a directory entry. *)
Definition fat_name_to_83 (name : list byte) : list byte :=
  let d := strrchr name dot in
  let base := match d with Some i => take i name | NULL => name end in
  let ext := match d with Some i => drop (S i) name | NULL => [] end in
  pad 8 (to_upper <$> base) ++ pad 3 (to_upper <$> ext).

Fixpoint until_space (bs : list byte) : list byte :=
  match bs with [] => [] | c :: rest => if Byte.eqb c space then [] else c :: until_space rest end.

Definition fat_83_to_name (fat_name : list byte) : list byte :=
  let base := to_lower <$> until_space (take 8 fat_name) in
  let ext := to_lower <$> until_space (take 3 (drop 8 fat_name)) in
  if Byte.eqb (nth 8 fat_name Byte.x00) space then base else base ++ dot :: ext.

(** ** In memory *)
Section fat.
Context {D Heap : Type} {HK : KernelHeap Heap}.

Record fat_fs_info_t := {
  type : fat_type_t;
  sector_size : Z;
  cluster_size : Z;
  sectors_per_cluster : Z;
  reserved_sectors : Z;
  num_fats : Z;
  fat_size : Z;
  root_dir_sectors : Z;
  total_sectors : Z;
  data_sectors : Z;
  total_clusters : Z;
  first_data_sector : Z;
  root_cluster : Z;
  root_dir_entries : Z;
  fat_table : ptr (Z * list byte);     (* its address and its bytes *)
  fat_table_size : Z;
  fat_dirty : bool;
  block_device : ptr (fat_block_device_t D) }.

Record fat_inode_info_t := {
  first_cluster : Z;
  current_cluster : Z;
  cluster_offset : Z;
  is_directory : bool;
  dir_entry : ptr Entry.fat_dir_entry_t }.      (* all zeros until a lookup sets it *)

Record fat_file_info_t := {
  file_cluster : Z;
  file_cluster_offset : Z;
  file_position : Z }.

(** The operation tables. *)
Inductive operations := fat_dir_inode_ops | fat_file_ops.

Record vfs_inode := {
  i_addr : Z;
  i_mode : vfs_file_type_t;
  i_size : Z;
  i_op : ptr operations;
  i_fop : ptr operations;
  i_private : ptr (Z * fat_inode_info_t) }.

Record vfs_dentry := {
  d_addr : Z;
  d_name : list byte;
  d_inode : ptr vfs_inode }.

Record vfs_file := {
  f_inode : vfs_inode;
  f_pos : Z;
  f_private_data : ptr (Z * fat_file_info_t) }.

Record vfs_superblock := {
  s_addr : Z;
  s_magic : Z;
  s_root : ptr vfs_dentry;
  s_fs_info : Z }.

(** The volume in use. *)
Record fat_t := {
  info : fat_fs_info_t;
  disk : D;
  heap : Heap;
  fs_supers : Z }.
Abbreviation M := (prog fat_t).

Definition set_info (i : fat_fs_info_t) (m : fat_t) : fat_t :=
  {| info := i; disk := disk m; heap := heap m; fs_supers := fs_supers m |}.
Definition set_disk (d : D) (m : fat_t) : fat_t := {| info := info m; disk := d; heap := heap m; fs_supers := fs_supers m |}.
Definition set_heap (h : Heap) (m : fat_t) : fat_t := {| info := info m; disk := disk m; heap := h; fs_supers := fs_supers m |}.
Definition set_supers (n : Z) (m : fat_t) : fat_t := {| info := info m; disk := disk m; heap := heap m; fs_supers := n |}.

Definition set_table (t : ptr (Z * list byte)) (size : Z) (dirty : bool) (i : fat_fs_info_t) : fat_fs_info_t :=
  {| type := type i; sector_size := sector_size i; cluster_size := cluster_size i; sectors_per_cluster := sectors_per_cluster i;
     reserved_sectors := reserved_sectors i; num_fats := num_fats i; fat_size := fat_size i;
     root_dir_sectors := root_dir_sectors i; total_sectors := total_sectors i; data_sectors := data_sectors i;
     total_clusters := total_clusters i; first_data_sector := first_data_sector i; root_cluster := root_cluster i;
     root_dir_entries := root_dir_entries i; fat_table := t; fat_table_size := size; fat_dirty := dirty;
     block_device := block_device i |}.

Definition kmalloc (n : Z) : M (ptr Z) := pcall (fun m => let '(p, h) := KernelHeap.kmalloc n (heap m) in (p, set_heap h m)).
Definition kfree (p : Z) : M unit := pmodify (fun m => set_heap (KernelHeap.kfree p (heap m)) m).

(** ** Sectors *)
Definition fat_read_sectors (sector count : Z) : M (Z * list byte) := fun m =>
  Some (match block_device (info m) with
        | Some dev =>
            match read_sectors dev with
            | Some read => read (disk m) sector count
            | NULL => (FAT_ERROR_IO_ERROR, [])
            end
        | NULL => (FAT_ERROR_IO_ERROR, [])
        end, m).

Definition fat_write_sectors (sector count : Z) (buffer : list byte) : M Z := fun m =>
  Some (match block_device (info m) with
        | Some dev =>
            match write_sectors dev with
            | Some write => let '(rc, d) := write (disk m) sector count buffer in (rc, set_disk d m)
            | NULL => (FAT_ERROR_IO_ERROR, m)
            end
        | NULL => (FAT_ERROR_IO_ERROR, m)
        end).

(** [memcpy] out of a buffer the device has filled. *)
Definition bytes_at (bs : list byte) (off n : Z) : ptr (list byte) :=
  if off + n <=? Z.of_nat (length bs) then & (take (Z.to_nat n) (drop (Z.to_nat off) bs)) else NULL.
Definition splice (bs : list byte) (off : Z) (new : list byte) : ptr (list byte) :=
  if off + Z.of_nat (length new) <=? Z.of_nat (length bs)
  then & (take (Z.to_nat off) bs ++ new ++ drop (Z.to_nat off + length new) bs) else NULL.
Definition may_fail {A} (o : ptr A) : M A := pdefined (fun _ => o).

(** ** The allocation table *)
Definition fat_load_fat_table : M Z :=
  i <- pget info;;
  let size := u32 (fat_size i * sector_size i) in
  p <- kmalloc size;;
  match p with
  | NULL => pmodify (fun m => set_info (set_table NULL size (fat_dirty i) (info m)) m);; pret FAT_ERROR_IO_ERROR
  | Some p =>
      r <- fat_read_sectors (reserved_sectors i) (fat_size i);;
      let '(rc, bs) := r in
      if negb (rc =? FAT_SUCCESS) then
        kfree p;;
        pmodify (fun m => set_info (set_table NULL size (fat_dirty i) (info m)) m);;
        pret FAT_ERROR_IO_ERROR
      else
        pmodify (fun m => set_info (set_table (& (p, bs)) size false (info m)) m);;
        pret FAT_SUCCESS
  end.

(** The copies still to write, from copy [i] on. *)
Fixpoint write_copies (n : nat) (i start size : Z) (bs : list byte) : M Z :=
  match n with
  | O => pret FAT_SUCCESS
  | S n =>
      rc <- fat_write_sectors (u32 (start + u32 (i * size))) size bs;;
      if negb (rc =? FAT_SUCCESS) then pret FAT_ERROR_IO_ERROR else write_copies n (i + 1) start size bs
  end.

Definition fat_write_fat_table : M Z :=
  i <- pget info;;
  match fat_table i with
  | NULL => pret FAT_SUCCESS
  | Some (p, bs) =>
      if negb (fat_dirty i) then pret FAT_SUCCESS
      else
        rc <- write_copies (Z.to_nat (num_fats i)) 0 (reserved_sectors i) (fat_size i) bs;;
        if negb (rc =? FAT_SUCCESS) then pret FAT_ERROR_IO_ERROR
        else
          pmodify (fun m => set_info (set_table (& (p, bs)) (fat_table_size i) false (info m)) m);;
          pret FAT_SUCCESS
  end.

Definition fat_get_cluster_value (cluster : Z) : M Z :=
  i <- pget info;;
  match fat_table i with
  | NULL => pret 0
  | Some (_, bs) =>
      if cluster <? 2 then pret 0
      else
        match type i with
        | FAT_TYPE_FAT16 =>
            if u32 (total_clusters i + 2) <=? cluster then pret 0
            else w <- may_fail (bytes_at bs (2 * cluster) 2);; pret (le_combine w)
        | FAT_TYPE_FAT32 =>
            if u32 (total_clusters i + 2) <=? cluster then pret 0
            else w <- may_fail (bytes_at bs (4 * cluster) 4);; pret (Z.land (le_combine w) 0x0FFFFFFF)
        | _ => pret 0
        end
  end.

(** An entry of the table. *)
Definition store_entry (bs : ptr (list byte)) : M Z :=
  bs <- may_fail bs;;
  pmodify (fun m => match fat_table (info m) with
                    | Some (p, _) => set_info (set_table (& (p, bs)) (fat_table_size (info m)) true (info m)) m
                    | NULL => m
                    end);;
  pret FAT_SUCCESS.

Definition fat_set_cluster_value (cluster value : Z) : M Z :=
  i <- pget info;;
  match fat_table i with
  | NULL => pret FAT_ERROR_INVALID_CLUSTER
  | Some (_, bs) =>
      if cluster <? 2 then pret FAT_ERROR_INVALID_CLUSTER
      else
        match type i with
        | FAT_TYPE_FAT16 =>
            if u32 (total_clusters i + 2) <=? cluster then pret FAT_ERROR_INVALID_CLUSTER
            else store_entry (splice bs (2 * cluster) (le_split 2 value))
        | FAT_TYPE_FAT32 =>
            if u32 (total_clusters i + 2) <=? cluster then pret FAT_ERROR_INVALID_CLUSTER
            else
              w <- may_fail (bytes_at bs (4 * cluster) 4);;
              store_entry (splice bs (4 * cluster)
                (le_split 4 (Z.lor (Z.land (le_combine w) 0xF0000000) (Z.land value 0x0FFFFFFF))))
        | _ => pret FAT_ERROR_UNSUPPORTED_TYPE
        end
  end.

Fixpoint find_free (n : nat) (cluster : Z) : M Z :=
  match n with
  | O => pret 0
  | S n =>
      v <- fat_get_cluster_value cluster;;
      if v =? FAT_CLUSTER_FREE then pret cluster else find_free n (cluster + 1)
  end.

Definition fat_find_free_cluster : M Z :=
  i <- pget info;;
  match fat_table i with
  | NULL => pret 0
  | Some _ => find_free (Z.to_nat (u32 (total_clusters i + 2) - 2)) 2
  end.

(** ** Clusters *)
Definition fat_cluster_to_sector (i : fat_fs_info_t) (cluster : Z) : Z :=
  if cluster <? 2 then 0 else u32 (first_data_sector i + u32 ((cluster - 2) * sectors_per_cluster i)).

Definition fat_is_cluster_eof (i : fat_fs_info_t) (cluster : Z) : bool :=
  match type i with
  | FAT_TYPE_FAT16 => 0xFFF8 <=? cluster
  | FAT_TYPE_FAT32 => 0x0FFFFFF8 <=? cluster
  | _ => false
  end.

Definition fat_is_cluster_bad (i : fat_fs_info_t) (cluster : Z) : bool :=
  match type i with
  | FAT_TYPE_FAT16 => cluster =? FAT_CLUSTER_BAD
  | FAT_TYPE_FAT32 => cluster =? 0x0FFFFFF7
  | _ => false
  end.

Definition fat_is_cluster_free (cluster : Z) : M bool :=
  v <- fat_get_cluster_value cluster;; pret (v =? FAT_CLUSTER_FREE).

Definition fat_next_cluster (cluster : Z) : M Z :=
  next <- fat_get_cluster_value cluster;;
  i <- pget info;;
  if fat_is_cluster_eof i next || fat_is_cluster_bad i next then pret 0 else pret next.

Definition fat_determine_type (b : Boot.fat_boot_sector_t) : fat_type_t :=
  let total_sectors := if negb (Boot.total_sectors_16 b =? 0) then Boot.total_sectors_16 b else Boot.total_sectors_32 b in
  let fat_size := if negb (Boot.fat_size_16 b =? 0) then Boot.fat_size_16 b else Boot.fat_size_32 b in
  let root_dir_sectors := (Boot.root_entries b * 32 + Boot.bytes_per_sector b - 1) / Boot.bytes_per_sector b in
  let first_data_sector := u32 (Boot.reserved_sectors b + u32 (Boot.num_fats b * fat_size) + root_dir_sectors) in
  let data_sectors := u32 (total_sectors - first_data_sector) in
  let total_clusters := data_sectors / Boot.sectors_per_cluster b in
  if total_clusters <? 4085 then FAT_TYPE_FAT12 else if total_clusters <? 65525 then FAT_TYPE_FAT16 else FAT_TYPE_FAT32.

Definition fat_is_valid_boot_sector (b : Boot.fat_boot_sector_t) : bool :=
  let bps := Boot.bytes_per_sector b in let spc := Boot.sectors_per_cluster b in
  if negb (Boot.boot_sector_signature b =? 0xAA55) then false
  else if negb (bps =? 512) && negb (bps =? 1024) && negb (bps =? 2048) && negb (bps =? 4096) then false
  else if (spc =? 0) || negb (Z.land spc (spc - 1) =? 0) then false
  else if Boot.reserved_sectors b =? 0 then false
  else if Boot.num_fats b =? 0 then false
  else true.

(** ** Objects *)
Definition sizeof_fat_fs_info : Z := 88.
Definition sizeof_fat_inode_info : Z := 48.
Definition sizeof_fat_file_info : Z := 12.
Definition sizeof_vfs_inode : Z := 120.
Definition sizeof_vfs_dentry : Z := 312.
Definition sizeof_vfs_superblock : Z := 88.

Definition vfs_alloc_dentry (name : list byte) : M (ptr vfs_dentry) :=
  p <- kmalloc sizeof_vfs_dentry;;
  match p with
  | NULL => pret NULL
  | Some p => pret (& {| d_addr := p; d_name := take 254 name; d_inode := NULL |})
  end.

(** A dentry without children. *)
Definition vfs_free_dentry (d : vfs_dentry) : M unit := kfree (d_addr d).

Definition vfs_alloc_inode : M (ptr vfs_inode) :=
  p <- kmalloc sizeof_vfs_inode;;
  match p with
  | NULL => pret NULL
  | Some p => pret (& {| i_addr := p; i_mode := VFS_FILE_TYPE_REGULAR; i_size := 0; i_op := NULL; i_fop := NULL; i_private := NULL |})
  end.

(** [vfs_free_inode] of an inode whose file system has a [destroy_inode]. *)
Definition vfs_free_inode (destroy_inode : ptr (vfs_inode -> M unit)) (inode : vfs_inode) : M unit :=
  match destroy_inode with
  | Some destroy => destroy inode
  | NULL => kfree (i_addr inode)
  end.

(** [n] bounds the depth of the recursion. *)
Fixpoint fat_destroy_inode (n : nat) (inode : vfs_inode) : M unit :=
  match n with
  | O => pfail
  | S n =>
      match i_private inode with Some (p, _) => kfree p | NULL => pret tt end;;
      vfs_free_inode (& (fat_destroy_inode n)) inode
  end.

Definition destroy_depth : nat := 16.

Definition inode_info_zero : fat_inode_info_t :=
  {| first_cluster := 0; current_cluster := 0; cluster_offset := 0; is_directory := false; dir_entry := NULL |}.

Definition fat_alloc_inode : M (ptr vfs_inode) :=
  inode <- vfs_alloc_inode;;
  match inode with
  | NULL => pret NULL
  | Some inode =>
      p <- kmalloc sizeof_fat_inode_info;;
      match p with
      | NULL => vfs_free_inode (& (fat_destroy_inode destroy_depth)) inode;; pret NULL
      | Some p =>
          pret (& {| i_addr := i_addr inode; i_mode := i_mode inode; i_size := i_size inode; i_op := i_op inode;
                     i_fop := i_fop inode; i_private := & (p, inode_info_zero) |})
      end
  end.

(** ** Directories *)
Inductive scan_result :=
| Found (e : Entry.fat_dir_entry_t) (offset : Z)
| EndOfDirectory
| NotHere.

(** The entries of a buffer from offset [i] on. *)
Fixpoint scan_entries (n : nat) (bs fat_name : list byte) (i : Z) : M scan_result :=
  match n with
  | O => pret NotHere
  | S n =>
      e <- may_fail (bytes_at bs i 32);;
      let first := byte.unsigned (nth 0 e Byte.x00) in
      if first =? 0 then pret EndOfDirectory
      else if first =? 0xE5 then scan_entries n bs fat_name (i + 32)
      else if memcmp e fat_name 11 =? 0 then pret (Found (Entry.parse e) i)
      else scan_entries n bs fat_name (i + 32)
  end.

Definition entries_in (size : Z) : nat := Z.to_nat ((size + 31) / 32).

(** The root directory of FAT16, from its sector [sector] on. *)
Fixpoint scan_root (n : nat) (start sector : Z) (fat_name : list byte) : M (Z * ptr (Entry.fat_dir_entry_t * Z)) :=
  match n with
  | O => pret (FAT_ERROR_NOT_FOUND, NULL)
  | S n =>
      i <- pget info;;
      r <- fat_read_sectors (u32 (start + sector)) 1;;
      let '(rc, bs) := r in
      if negb (rc =? FAT_SUCCESS) then pret (FAT_ERROR_IO_ERROR, NULL)
      else
        s <- scan_entries (entries_in (sector_size i)) bs fat_name 0;;
        match s with
        | Found e off => pret (FAT_SUCCESS, & (e, u32 (u32 (sector * sector_size i) + off)))
        | EndOfDirectory => pret (FAT_ERROR_NOT_FOUND, NULL)
        | NotHere => scan_root n start (sector + 1) fat_name
        end
  end.

(** A directory in the data area, from a cluster of its chain on. *)
Fixpoint scan_chain (n : nat) (cluster offset : Z) (fat_name : list byte) : M (Z * ptr (Entry.fat_dir_entry_t * Z)) :=
  i <- pget info;;
  if (cluster =? 0) || fat_is_cluster_eof i cluster then pret (FAT_ERROR_NOT_FOUND, NULL)
  else
    match n with
    | O => pfail
    | S n =>
        r <- fat_read_sectors (fat_cluster_to_sector i cluster) (sectors_per_cluster i);;
        let '(rc, bs) := r in
        if negb (rc =? FAT_SUCCESS) then pret (FAT_ERROR_IO_ERROR, NULL)
        else
          s <- scan_entries (entries_in (cluster_size i)) bs fat_name 0;;
          match s with
          | Found e off => pret (FAT_SUCCESS, & (e, u32 (offset + off)))
          | EndOfDirectory => pret (FAT_ERROR_NOT_FOUND, NULL)
          | NotHere =>
              next <- fat_next_cluster cluster;;
              scan_chain n next (u32 (offset + cluster_size i)) fat_name
          end
    end.

(** No chain without a cycle is longer. *)
Definition chain_fuel (i : fat_fs_info_t) : nat := Z.to_nat (total_clusters i + 2).

Definition fat_find_dir_entry (dir_cluster : Z) (name : list byte) : M (Z * ptr (Entry.fat_dir_entry_t * Z)) :=
  let fat_name := fat_name_to_83 name in
  i <- pget info;;
  if bool_decide (type i = FAT_TYPE_FAT16) && (dir_cluster =? 0) then
    scan_root (Z.to_nat (root_dir_sectors i)) (u32 (reserved_sectors i + u32 (num_fats i * fat_size i))) 0 fat_name
  else scan_chain (chain_fuel i) dir_cluster 0 fat_name.

(** The entry is prepared and dropped. *)
Definition fat_create_dir_entry (dir_cluster : Z) (name : list byte) (first_cluster size attributes : Z) : M Z :=
  let new_entry := Entry.make (fat_name_to_83 name) attributes first_cluster size in
  pret FAT_SUCCESS.

Definition fat_lookup (dir : vfs_inode) (name : list byte) : M (ptr vfs_dentry) :=
  match i_private dir with
  | NULL => pret NULL
  | Some (_, dir_info) =>
      if negb (is_directory dir_info) then pret NULL
      else
        r <- fat_find_dir_entry (first_cluster dir_info) name;;
        match r with
        | (rc, Some (entry, _)) =>
            if negb (rc =? FAT_SUCCESS) then pret NULL
            else
              new_dentry <- vfs_alloc_dentry name;;
              match new_dentry with
              | NULL => pret NULL
              | Some new_dentry =>
                  inode <- fat_alloc_inode;;
                  match inode with
                  | NULL => vfs_free_dentry new_dentry;; pret NULL
                  | Some inode =>
                      let dir := negb (Z.land (Entry.attributes entry) FAT_ATTR_DIRECTORY =? 0) in
                      let file_info :=
                        {| first_cluster := Z.lor (Entry.first_cluster_low entry) (Z.shiftl (Entry.first_cluster_high entry) 16);
                           current_cluster := 0; cluster_offset := 0; is_directory := dir; dir_entry := & entry |} in
                      let inode :=
                        {| i_addr := i_addr inode; i_mode := if dir then VFS_FILE_TYPE_DIRECTORY else VFS_FILE_TYPE_REGULAR;
                           i_size := Entry.file_size entry; i_op := if dir then & fat_dir_inode_ops else NULL;
                           i_fop := if dir then NULL else & fat_file_ops;
                           i_private := match i_private inode with Some (p, _) => & (p, file_info) | NULL => NULL end |} in
                      pret (& {| d_addr := d_addr new_dentry; d_name := d_name new_dentry; d_inode := & inode |})
                  end
              end
        | (_, NULL) => pret NULL
        end
  end.

Definition eof_value (i : fat_fs_info_t) : Z :=
  if bool_decide (type i = FAT_TYPE_FAT16) then FAT_CLUSTER_EOF16 else FAT_CLUSTER_EOF32.

Definition fat_create (dir : vfs_inode) (name : list byte) : M Z :=
  match i_private dir with
  | NULL => pret VFS_ERROR_NOT_DIRECTORY
  | Some (_, dir_info) =>
      if negb (is_directory dir_info) then pret VFS_ERROR_NOT_DIRECTORY
      else
        r <- fat_find_dir_entry (first_cluster dir_info) name;;
        if r.1 =? FAT_SUCCESS then pret VFS_ERROR_EXISTS
        else
          first <- fat_find_free_cluster;;
          if first =? 0 then pret VFS_ERROR_NO_SPACE
          else
            i <- pget info;;
            rc <- fat_set_cluster_value first (eof_value i);;
            if negb (rc =? FAT_SUCCESS) then pret VFS_ERROR_IO_ERROR
            else
              rc <- fat_create_dir_entry (first_cluster dir_info) name first 0 FAT_ATTR_ARCHIVE;;
              if negb (rc =? FAT_SUCCESS) then
                fat_set_cluster_value first FAT_CLUSTER_FREE;;
                pret VFS_ERROR_IO_ERROR
              else pret VFS_SUCCESS
  end.

(** The first cluster of a new directory. *)
Definition directory_cluster (i : fat_fs_info_t) (self parent : Z) : list byte :=
  zero_padded (Z.to_nat (cluster_size i))
    (Entry.bytes (Entry.make (pad 11 [dot]) FAT_ATTR_DIRECTORY self 0) ++
     Entry.bytes (Entry.make (pad 11 [dot; dot]) FAT_ATTR_DIRECTORY parent 0)).

Definition fat_mkdir (dir : vfs_inode) (name : list byte) : M Z :=
  match i_private dir with
  | NULL => pret VFS_ERROR_NOT_DIRECTORY
  | Some (_, dir_info) =>
      if negb (is_directory dir_info) then pret VFS_ERROR_NOT_DIRECTORY
      else
        r <- fat_find_dir_entry (first_cluster dir_info) name;;
        if r.1 =? FAT_SUCCESS then pret VFS_ERROR_EXISTS
        else
          first <- fat_find_free_cluster;;
          if first =? 0 then pret VFS_ERROR_NO_SPACE
          else
            i <- pget info;;
            rc <- fat_set_cluster_value first (eof_value i);;
            if negb (rc =? FAT_SUCCESS) then pret VFS_ERROR_IO_ERROR
            else
              rc <- fat_write_sectors (fat_cluster_to_sector i first) (sectors_per_cluster i)
                      (directory_cluster i first (first_cluster dir_info));;
              if negb (rc =? FAT_SUCCESS) then
                fat_set_cluster_value first FAT_CLUSTER_FREE;;
                pret VFS_ERROR_IO_ERROR
              else
                rc <- fat_create_dir_entry (first_cluster dir_info) name first 0 FAT_ATTR_DIRECTORY;;
                if negb (rc =? FAT_SUCCESS) then
                  fat_set_cluster_value first FAT_CLUSTER_FREE;;
                  pret VFS_ERROR_IO_ERROR
                else pret VFS_SUCCESS
  end.

(** ** Files *)
Definition fat_open (inode : vfs_inode) (file : vfs_file) : M (Z * vfs_file) :=
  match i_private inode with
  | NULL => pret (VFS_ERROR_IS_DIRECTORY, file)
  | Some (_, inode_info) =>
      if is_directory inode_info then pret (VFS_ERROR_IS_DIRECTORY, file)
      else
        p <- kmalloc sizeof_fat_file_info;;
        match p with
        | NULL => pret (VFS_ERROR_NO_MEMORY, file)
        | Some p =>
            let file_info := {| file_cluster := first_cluster inode_info; file_cluster_offset := 0; file_position := 0 |} in
            pret (VFS_SUCCESS, {| f_inode := f_inode file; f_pos := f_pos file; f_private_data := & (p, file_info) |})
        end
  end.

Definition fat_release (file : vfs_file) : M (Z * vfs_file) :=
  match f_private_data file with
  | Some (p, _) =>
      kfree p;;
      pret (VFS_SUCCESS, {| f_inode := f_inode file; f_pos := f_pos file; f_private_data := NULL |})
  | NULL => pret (VFS_SUCCESS, file)
  end.

(** [n] clusters further along a chain. *)
Fixpoint skip_clusters (n : nat) (cluster : Z) : M Z :=
  match n with
  | O => pret cluster
  | S n => if cluster =? 0 then pret cluster else next <- fat_next_cluster cluster;; skip_clusters n next
  end.

(** [fuel]: every turn but the last moves at least a cluster size less the
    first offset. *)
Definition transfer_fuel (i : fat_fs_info_t) (count : Z) : nat := Z.to_nat (count / cluster_size i + 2).

(** [done]: the bytes in the caller's buffer. *)
Fixpoint read_clusters (n : nat) (cluster offset count : Z) (done : list byte) : M (Z * list byte) :=
  let bytes_read := Z.of_nat (length done) in
  if negb (bytes_read <? count) || (cluster =? 0) then pret (VFS_SUCCESS, done)
  else
    match n with
    | O => pfail
    | S n =>
        i <- pget info;;
        r <- fat_read_sectors (fat_cluster_to_sector i cluster) (sectors_per_cluster i);;
        let '(rc, cluster_data) := r in
        if negb (rc =? FAT_SUCCESS) then pret (VFS_ERROR_IO_ERROR, done)
        else
          bs <- may_fail (bytes_at cluster_data offset (Z.min (cluster_size i - offset) (count - bytes_read)));;
          next <- fat_next_cluster cluster;;
          read_clusters n next 0 count (done ++ bs)
    end.

(** The result, the bytes copied to the buffer and the new position. *)
Definition fat_read (file : vfs_file) (count pos : Z) : M (Z * list byte * Z) :=
  let inode := f_inode file in
  match i_private inode, f_private_data file with
  | Some (_, inode_info), Some _ =>
      i <- pget info;;
      if i_size inode <=? pos then pret (0, [], pos)
      else
        let count := if i_size inode <? u64 (pos + count) then i_size inode - pos else count in
        cluster <- skip_clusters (Z.to_nat (u32 (pos / cluster_size i))) (first_cluster inode_info);;
        if cluster =? 0 then pret (VFS_ERROR_IO_ERROR, [], pos)
        else
          r <- read_clusters (transfer_fuel i count) cluster (pos mod cluster_size i) count [];;
          let '(rc, bs) := r in
          if negb (rc =? VFS_SUCCESS) then pret (rc, bs, pos)
          else pret (Z.of_nat (length bs), bs, u64 (pos + Z.of_nat (length bs)))
  | _, _ => pret (VFS_ERROR_INVALID_PARAM, [], pos)
  end.

Fixpoint write_clusters (n : nat) (cluster offset count written : Z) (buffer : list byte) : M (Z * Z) :=
  if negb (written <? count) || (cluster =? 0) then pret (VFS_SUCCESS, written)
  else
    match n with
    | O => pfail
    | S n =>
        i <- pget info;;
        let sector := fat_cluster_to_sector i cluster in
        r <- fat_read_sectors sector (sectors_per_cluster i);;
        let '(rc, cluster_data) := r in
        if negb (rc =? FAT_SUCCESS) then pret (VFS_ERROR_IO_ERROR, written)
        else
          let bytes_to_write := Z.min (cluster_size i - offset) (count - written) in
          bs <- may_fail (bytes_at buffer written bytes_to_write);;
          cluster_data <- may_fail (splice cluster_data offset bs);;
          rc <- fat_write_sectors sector (sectors_per_cluster i) cluster_data;;
          if negb (rc =? FAT_SUCCESS) then pret (VFS_ERROR_IO_ERROR, written)
          else
            next <- fat_next_cluster cluster;;
            write_clusters n next 0 count (written + bytes_to_write) buffer
    end.

Definition fat_write (file : vfs_file) (buffer : list byte) (count pos : Z) : M (Z * Z) :=
  let inode := f_inode file in
  match i_private inode, f_private_data file with
  | Some (_, inode_info), Some _ =>
      i <- pget info;;
      let count := if i_size inode <? u64 (pos + count) then (if pos <? i_size inode then i_size inode - pos else 0) else count in
      if count =? 0 then pret (0, pos)
      else
        cluster <- skip_clusters (Z.to_nat (u32 (pos / cluster_size i))) (first_cluster inode_info);;
        if cluster =? 0 then pret (VFS_ERROR_IO_ERROR, pos)
        else
          r <- write_clusters (transfer_fuel i count) cluster (pos mod cluster_size i) count 0 buffer;;
          let '(rc, written) := r in
          if negb (rc =? VFS_SUCCESS) then pret (rc, pos) else pret (written, u64 (pos + written))
  | _, _ => pret (VFS_ERROR_INVALID_PARAM, pos)
  end.

Definition fat_llseek (file : vfs_file) (offset whence : Z) : Z * vfs_file :=
  let moved pos := (pos, {| f_inode := f_inode file; f_pos := pos; f_private_data := f_private_data file |}) in
  if whence =? 0 then moved offset
  else if whence =? 1 then moved (u64 (f_pos file + offset))
  else if whence =? 2 then moved (u64 (i_size (f_inode file) + offset))
  else (u64 VFS_ERROR_INVALID_PARAM, file).

(** ** Mounting *)
Definition info_zero (dev : ptr (fat_block_device_t D)) : fat_fs_info_t :=
  {| type := FAT_TYPE_UNKNOWN; sector_size := 0; cluster_size := 0; sectors_per_cluster := 0; reserved_sectors := 0; num_fats := 0;
     fat_size := 0; root_dir_sectors := 0; total_sectors := 0; data_sectors := 0; total_clusters := 0; first_data_sector := 0;
     root_cluster := 0; root_dir_entries := 0; fat_table := NULL; fat_table_size := 0; fat_dirty := false; block_device := dev |}.

Definition geometry (ty : fat_type_t) (b : Boot.fat_boot_sector_t) (dev : ptr (fat_block_device_t D)) : fat_fs_info_t :=
  let is32 := bool_decide (ty = FAT_TYPE_FAT32) in
  let ss := Boot.bytes_per_sector b in let spc := Boot.sectors_per_cluster b in
  let fs := if is32 then Boot.fat_size_32 b else Boot.fat_size_16 b in
  let entries := if is32 then 0 else Boot.root_entries b in
  let root := if is32 then 0 else (entries * 32 + ss - 1) / ss in
  let total := if negb (Boot.total_sectors_16 b =? 0) then Boot.total_sectors_16 b else Boot.total_sectors_32 b in
  let first := u32 (Boot.reserved_sectors b + u32 (Boot.num_fats b * fs) + root) in
  let data := u32 (total - first) in
  {| type := ty; sector_size := ss; cluster_size := u32 (ss * spc); sectors_per_cluster := spc;
     reserved_sectors := Boot.reserved_sectors b; num_fats := Boot.num_fats b; fat_size := fs; root_dir_sectors := root;
     total_sectors := total; data_sectors := data; total_clusters := data / spc; first_data_sector := first;
     root_cluster := if is32 then Boot.root_cluster b else 0; root_dir_entries := entries;
     fat_table := NULL; fat_table_size := 0; fat_dirty := false; block_device := dev |}.

Definition free_table : M unit :=
  i <- pget info;;
  match fat_table i with Some (p, _) => kfree p | NULL => pret tt end.

(** The root inode, a directory. *)
Definition root_inode (i : fat_fs_info_t) (inode : vfs_inode) : vfs_inode :=
  {| i_addr := i_addr inode; i_mode := VFS_FILE_TYPE_DIRECTORY; i_size := i_size inode; i_op := & fat_dir_inode_ops; i_fop := NULL;
     i_private := match i_private inode with
                  | Some (p, x) =>
                      & (p, {| first_cluster := if bool_decide (type i = FAT_TYPE_FAT32) then root_cluster i else 0;
                               current_cluster := current_cluster x; cluster_offset := cluster_offset x;
                               is_directory := true; dir_entry := dir_entry x |})
                  | NULL => NULL
                  end |}.

Definition fat_mount (data : ptr (fat_block_device_t D)) : M (ptr vfs_superblock) :=
  p <- kmalloc sizeof_fat_fs_info;;
  match p with
  | NULL => pret NULL
  | Some p =>
      pmodify (set_info (info_zero data));;
      match data with
      | NULL => kfree p;; pret NULL
      | Some _ =>
          r <- fat_read_sectors 0 1;;
          let '(rc, bs) := r in
          if negb (rc =? FAT_SUCCESS) then kfree p;; pret NULL
          else
            bs <- may_fail (bytes_at bs 0 512);;
            let boot_sector := Boot.parse bs in
            if negb (fat_is_valid_boot_sector boot_sector) then kfree p;; pret NULL
            else
              let ty := fat_determine_type boot_sector in
              if bool_decide (ty = FAT_TYPE_UNKNOWN) || bool_decide (ty = FAT_TYPE_FAT12) then kfree p;; pret NULL
              else
                pmodify (set_info (geometry ty boot_sector data));;
                rc <- fat_load_fat_table;;
                if negb (rc =? FAT_SUCCESS) then kfree p;; pret NULL
                else
                  sb <- kmalloc sizeof_vfs_superblock;;
                  match sb with
                  | NULL => free_table;; kfree p;; pret NULL
                  | Some sb =>
                      inode <- fat_alloc_inode;;
                      match inode with
                      | NULL => free_table;; kfree p;; kfree sb;; pret NULL
                      | Some inode =>
                          i <- pget info;;
                          let inode := root_inode i inode in
                          dentry <- vfs_alloc_dentry [Byte.x2f];;
                          match dentry with
                          | NULL =>
                              fat_destroy_inode destroy_depth inode;;
                              free_table;; kfree p;; kfree sb;; pret NULL
                          | Some dentry =>
                              pmodify (fun m => set_supers (u32 (fs_supers m + 1)) m);;
                              pret (& {| s_addr := sb; s_magic := 0x46415431;
                                         s_root := & {| d_addr := d_addr dentry; d_name := d_name dentry; d_inode := & inode |};
                                         s_fs_info := p |})
                          end
                      end
                  end
      end
  end.

Definition fat_kill_sb (sb : vfs_superblock) : M unit :=
  i <- pget info;;
  (if fat_dirty i then rc <- fat_write_fat_table;; pret tt else pret tt);;
  free_table;;
  kfree (s_fs_info sb);;
  match s_root sb with Some d => vfs_free_dentry d | NULL => pret tt end;;
  pmodify (fun m => set_supers (u32 (fs_supers m - 1)) m);;
  kfree (s_addr sb).
End fat.

(** ** Volumes on the RAM disk (kernel/ramdisk.c) *)
Definition IKOS_RAMDISK : list byte := [Byte.x49; Byte.x4b; Byte.x4f; Byte.x53; space; space; space; space].

(** The fields of the [fat16] part, up to the boot code. *)
Definition fat16_extension (drive_number reserved boot_signature volume_id : Z) (volume_label filesystem_type : list byte) : list byte :=
  zero_padded 474 (pack [1; 1; 1; 4]%nat [drive_number; reserved; boot_signature; volume_id] ++ volume_label ++ filesystem_type).

Definition ramdisk_boot_sector : Boot.fat_boot_sector_t :=
  {| Boot.jump_boot := [Byte.xeb; Byte.x3c; Byte.x90]; Boot.oem_name := IKOS_RAMDISK; Boot.bytes_per_sector := 512;
     Boot.sectors_per_cluster := 1; Boot.reserved_sectors := 1; Boot.num_fats := 2; Boot.root_entries := 224;
     Boot.total_sectors_16 := RAMDISK_TOTAL_SECTORS; Boot.media_type := 0xF8; Boot.fat_size_16 := 8; Boot.sectors_per_track := 32;
     Boot.num_heads := 2; Boot.hidden_sectors := 0; Boot.total_sectors_32 := 0;
     Boot.extension := fat16_extension 0x80 0 0x29 0x12345678
       [Byte.x49; Byte.x4b; Byte.x4f; Byte.x53; space; Byte.x52; Byte.x41; Byte.x4d; Byte.x44; Byte.x53; Byte.x4b]
       [Byte.x46; Byte.x41; Byte.x54; Byte.x31; Byte.x36; space; space; space];
     Boot.boot_sector_signature := 0xAA55 |}.

(** Writes in order, up to the first that fails. *)
Fixpoint ramdisk_writes (ws : list (Z * Z * list byte)) (g : ramdisk_t) : Z * ramdisk_t :=
  match ws with
  | [] => (0, g)
  | (sector, count, buffer) :: ws =>
      let '(rc, g') := ramdisk_write_sectors (& g) sector count (& buffer) in
      let g := match g' with Some x => x | NULL => g end in
      if negb (rc =? 0) then (-1, g) else ramdisk_writes ws g
  end.

Definition ramdisk_format_fat16 (kmalloc_ok : bool) (g : ramdisk_t) : Z * ramdisk_t :=
  let '(rc, g) := if rd_initialized g then (0, g) else ramdisk_init kmalloc_ok g in
  if negb (rc =? 0) then (-1, g)
  else
    let fat_table := zero_padded 512 (le_split 2 0xFFF8 ++ le_split 2 0xFFFF) in
    ramdisk_writes [(0, 1, Boot.bytes ramdisk_boot_sector); (1, 1, fat_table); (9, 1, fat_table); (17, 14, zeros (512 * 14))] g.

(** "TEST    TXT". *)
Definition test_name : list byte :=
  [Byte.x54; Byte.x45; Byte.x53; Byte.x54; space; space; space; space; Byte.x54; Byte.x58; Byte.x54].
(** "Hello, World!" *)
Definition test_data : list byte :=
  [Byte.x48; Byte.x65; Byte.x6c; Byte.x6c; Byte.x6f; Byte.x2c; space; Byte.x57; Byte.x6f; Byte.x72; Byte.x6c; Byte.x64; Byte.x21].

(** The device copies a sector from [&test_entry]: [behind] is what lies on
    the stack behind the entry. *)
Definition ramdisk_create_test_file (behind : list byte) (g : ramdisk_t) : Z * ramdisk_t :=
  if negb (rd_initialized g) then (-1, g)
  else
    let test_entry := Entry.make test_name FAT_ATTR_ARCHIVE 2 13 in
    let '(rc, g) := ramdisk_writes [(17, 1, Entry.bytes test_entry ++ behind)] g in
    if negb (rc =? 0) then (-1, g)
    else
      let '(rc, fat_table) := ramdisk_read_sectors (& g) 1 1 true in
      if negb (rc =? 0) then (-1, g)
      else
        let fat_table := take 4 fat_table ++ le_split 2 0xFFFF ++ drop 6 fat_table in
        ramdisk_writes [(1, 1, fat_table); (9, 1, fat_table); (31, 1, zero_padded 512 test_data)] g.
