(* ===== verification/FatFileSpec.v ===== *)
(** * The allocation table and the files of a FAT volume

    [volume_ok]: the geometry of a volume fits its device and its table.  The
    table is then a map from clusters to values, which [fat_get_cluster_value]
    and [fat_set_cluster_value] read and update; a file is a [chain] of
    clusters, and its bytes are those of its clusters, one after the other:
    [fat_read] returns a piece of them and [fat_write] replaces one. *)
From Stdlib Require Import ZArith Lia List.
From S2P Require Import Prelude BlockDevice StateMonad KernelHeap Fat.
Open Scope Z_scope.
Open Scope c_scope.
Open Scope prog_scope.

(** ** Pieces of buffers *)
Lemma bytes_at_some bs off n :
  0 <= off -> 0 <= n -> off + n <= Z.of_nat (length bs) -> bytes_at bs off n = & (take (Z.to_nat n) (drop (Z.to_nat off) bs)).
Proof. intros H1 H2 H3. unfold bytes_at. by rewrite (proj2 (Z.leb_le _ _) H3). Qed.

Lemma splice_some bs off new :
  0 <= off -> off + Z.of_nat (length new) <= Z.of_nat (length bs) ->
  splice bs off new = & (take (Z.to_nat off) bs ++ new ++ drop (Z.to_nat off + length new) bs).
Proof. intros H1 H2. unfold splice. by rewrite (proj2 (Z.leb_le _ _) H2). Qed.

Section table.
Context {D Heap : Type} {HK : KernelHeap Heap}.
Abbreviation info_t := (@fat_fs_info_t D).
Abbreviation fat_t := (@Fat.fat_t D Heap).

Lemma may_fail_run {A} (o : ptr A) x (Q : A -> fat_t -> Prop) m : o = & x -> Q x m -> wp (may_fail o) Q m.
Proof. intros Ho HQ. by apply (wp_pdefined _ x). Qed.

(** ** The volume *)
Definition entry_width (i : info_t) : nat := if bool_decide (type i = FAT_TYPE_FAT16) then 2 else 4.
(** The values an entry can hold. *)
Definition entry_limit (i : info_t) : Z := if bool_decide (type i = FAT_TYPE_FAT16) then 2 ^ 16 else 2 ^ 28.

(** The table of the volume, and the value of an entry. *)
Definition table_of (i : info_t) : list byte := match fat_table i with Some (_, bs) => bs | NULL => [] end.
Definition entry_of (i : info_t) (c : Z) : Z :=
  let v := le_combine (chunk (entry_width i) (table_of i) c) in
  if bool_decide (type i = FAT_TYPE_FAT16) then v else Z.land v 0x0FFFFFFF.

(** The clusters of the volume. *)
Definition cluster_ok (i : info_t) (c : Z) : Prop := 2 <= c < total_clusters i + 2.
#[export] Instance cluster_ok_dec i c : Decision (cluster_ok i c).
Proof. unfold cluster_ok. apply _. Defined.

Record volume_ok (dev : fat_block_device_t D) (i : info_t) : Prop := {
  vo_type : type i = FAT_TYPE_FAT16 \/ type i = FAT_TYPE_FAT32;
  vo_device : block_device i = & dev;
  vo_sector : sector_size i = 512;
  vo_spc : 0 < sectors_per_cluster i < 256;
  vo_cluster : cluster_size i = 512 * sectors_per_cluster i;
  vo_clusters : 0 <= total_clusters i /\ total_clusters i + 2 < (if bool_decide (type i = FAT_TYPE_FAT16) then 0xFFF7 else 0x0FFFFFF7);
  vo_table : exists p bs, fat_table i = & (p, bs) /\ Z.of_nat (entry_width i) * (total_clusters i + 2) <= Z.of_nat (length bs);
  vo_first : 0 < reserved_sectors i /\ 0 <= fat_size i /\ 0 <= num_fats i /\ 0 <= root_dir_sectors i /\
    reserved_sectors i + num_fats i * fat_size i + root_dir_sectors i = first_data_sector i;
  vo_data : first_data_sector i + total_clusters i * sectors_per_cluster i <= BlockDevice.total_sectors dev < 2 ^ 32 }.

(** Volumes that differ in the table only. *)
Definition same_volume (i i' : info_t) : Prop :=
  exists t s d, i' = set_table t s d i.

Lemma same_volume_refl i : same_volume i i.
Proof. exists (fat_table i), (fat_table_size i), (fat_dirty i). by destruct i. Qed.
Lemma same_volume_trans i1 i2 i3 : same_volume i1 i2 -> same_volume i2 i3 -> same_volume i1 i3.
Proof. intros (t & s & d & ->) (t' & s' & d' & ->). by exists t', s', d'. Qed.

Lemma limit_positive i : 2 ^ 16 <= entry_limit i <= 2 ^ 28.
Proof. unfold entry_limit. case_bool_decide; lia. Qed.

Lemma width_type dev i :
  volume_ok dev i -> type i = FAT_TYPE_FAT16 /\ entry_width i = 2%nat /\ entry_limit i = 2 ^ 16 \/
    type i = FAT_TYPE_FAT32 /\ entry_width i = 4%nat /\ entry_limit i = 2 ^ 28.
Proof. intros [[H|H] _ _ _ _ _ _ _ _]; unfold entry_width, entry_limit; rewrite H; [by left|by right]. Qed.

Lemma entry_range i c : 0 <= entry_of i c < entry_limit i.
Proof.
  unfold entry_of, entry_limit, entry_width. case_bool_decide.
  - pose proof (le_combine_bound (chunk 2 (table_of i) c)) as [H1 H2]. split; [done|]. eapply Z.lt_le_trans; [exact H2|].
    apply Z.pow_le_mono_r; [lia|]. unfold chunk. rewrite length_take. lia.
  - change 0x0FFFFFFF with (Z.ones 28). rewrite Z.land_ones by lia. apply Z.mod_pos_bound. lia.
Qed.

(** The bytes of an entry. *)
Lemma entry_bytes dev i c :
  volume_ok dev i -> cluster_ok i c ->
  bytes_at (table_of i) (Z.of_nat (entry_width i) * c) (Z.of_nat (entry_width i)) = & (chunk (entry_width i) (table_of i) c).
Proof.
  intros Hv [H1 H2]. destruct (vo_table _ _ Hv) as (p & bs & Ht & Hlen). unfold table_of. rewrite Ht.
  rewrite bytes_at_some by nia. unfold chunk. rewrite Nat2Z.id. do 2 f_equal. f_equal. lia.
Qed.

Lemma total_u32 dev i : volume_ok dev i -> u32 (total_clusters i + 2) = total_clusters i + 2.
Proof. intros Hv. destruct (vo_clusters _ _ Hv). apply u32_id. case_bool_decide; lia. Qed.

(** No cluster of the volume is taken for an end mark. *)
Lemma ok_not_eof dev i c : volume_ok dev i -> cluster_ok i c -> fat_is_cluster_eof i c = false.
Proof.
  intros Hv [H1 H2]. destruct (vo_clusters _ _ Hv) as [_ H]. unfold fat_is_cluster_eof.
  destruct (vo_type _ _ Hv) as [E|E]; rewrite E in *; [rewrite bool_decide_eq_true_2 in H by done|rewrite bool_decide_eq_false_2 in H by done]; lia.
Qed.

(** ** Reading an entry *)
Lemma get_cluster_run dev c (Q : Z -> fat_t -> Prop) m :
  volume_ok dev (info m) -> Q (if decide (cluster_ok (info m) c) then entry_of (info m) c else 0) m ->
  wp (fat_get_cluster_value c) Q m.
Proof.
  intros Hv HQ. unfold fat_get_cluster_value. wp_step. wp_step. destruct (vo_table _ _ Hv) as (p & bs & Ht & Hlen). rewrite Ht.
  pose proof (total_u32 _ _ Hv) as Hu. destruct (Z.ltb_spec c 2) as [Hc|Hc].
  { apply wp_pret. rewrite decide_False in HQ; [done|]. unfold cluster_ok. lia. }
  destruct (Z.leb_spec (total_clusters (info m) + 2) c) as [Hc2|Hc2].
  { rewrite decide_False in HQ by (unfold cluster_ok; lia).
    destruct (vo_type _ _ Hv) as [E|E]; rewrite E, Hu, (proj2 (Z.leb_le _ _) Hc2); by apply wp_pret. }
  assert (cluster_ok (info m) c) as Hok by (unfold cluster_ok; lia). rewrite decide_True in HQ by done.
  pose proof (entry_bytes _ _ _ Hv Hok) as Hb. unfold entry_of in HQ. unfold table_of in *. rewrite Ht in *.
  destruct (width_type _ _ Hv) as [(E & Ew & _)|(E & Ew & _)]; rewrite E, Ew, ?Hu, ?(proj2 (Z.leb_gt _ _) Hc2) in *;
    wp_step; (eapply may_fail_run; [exact Hb|]); apply wp_pret; exact HQ.
Qed.

(** The next cluster of a chain, 0 at its end. *)
Definition next_of (i : info_t) (c : Z) : Z :=
  if decide (cluster_ok i c) then
    if fat_is_cluster_eof i (entry_of i c) || fat_is_cluster_bad i (entry_of i c) then 0 else entry_of i c
  else 0.

Lemma next_cluster_run dev c (Q : Z -> fat_t -> Prop) m :
  volume_ok dev (info m) -> Q (next_of (info m) c) m -> wp (fat_next_cluster c) Q m.
Proof.
  intros Hv HQ. unfold fat_next_cluster. wp_step. eapply get_cluster_run; [exact Hv|]. wp_step. wp_step. unfold next_of in HQ.
  case_decide; [by destruct (_ || _); apply wp_pret|]. unfold fat_is_cluster_eof, fat_is_cluster_bad.
  destruct (vo_type _ _ Hv) as [E|E]; rewrite E; by apply wp_pret.
Qed.

(** ** Writing an entry *)
Definition stored (i : info_t) (c v : Z) (i' : info_t) : Prop :=
  same_volume i i' /\ fat_dirty i' = true /\ length (table_of i') = length (table_of i) /\
  (forall p bs, fat_table i = & (p, bs) -> exists bs', fat_table i' = & (p, bs')) /\
  forall c', 0 <= c' < total_clusters i + 2 -> entry_of i' c' = if decide (c' = c) then v else entry_of i c'.

Lemma volume_stored dev i c v i' : volume_ok dev i -> stored i c v i' -> volume_ok dev i'.
Proof.
  intros Hv ((t & s & d & ->) & _ & Hlen & Hp & _). destruct Hv as [H1 H2 H3 H4 H5 H6 (p & bs & Ht & Hl) H8 H9]. split; try done.
  destruct (Hp p bs Ht) as [bs' Hb]. cbn in Hb. exists p, bs'. split; [exact Hb|]. unfold table_of in Hlen. cbn in Hlen. rewrite Ht, Hb in Hlen. cbn. rewrite Hlen. exact Hl.
Qed.

Lemma le_split_mod n z : le_combine (le_split n z) = z mod 2 ^ (Z.of_nat n * 8).
Proof. apply le_combine_split. Qed.

(** One entry of [w] bytes replaced. *)
Lemma chunk_stored w bs c new c' :
  length new = w -> 0 <= c -> 0 <= c' -> Z.of_nat w * (c + 1) <= Z.of_nat (length bs) ->
  chunk w (take (Z.to_nat (Z.of_nat w * c)) bs ++ new ++ drop (Z.to_nat (Z.of_nat w * c) + length new) bs) c' =
  if decide (c' = c) then new else chunk w bs c'.
Proof.
  intros Hnew Hc Hc' Hlen. replace (Z.to_nat (Z.of_nat w * c)) with (Z.to_nat c * w)%nat by lia.
  replace (Z.to_nat c * w + length new)%nat with ((Z.to_nat c + 1) * w)%nat by lia.
  rewrite <- (Z2Nat.id c') at 1 by lia. rewrite chunk_splice by lia. destruct (decide (c' = c)) as [->|Hne].
  - rewrite decide_True by lia. rewrite Nat.sub_diag. by apply chunk_0.
  - rewrite decide_False by lia. by rewrite Z2Nat.id.
Qed.

Lemma store_run dev c v bs' (m : fat_t) :
  volume_ok dev (info m) -> cluster_ok (info m) c -> length bs' = length (table_of (info m)) ->
  (forall i' c', table_of i' = bs' -> type i' = type (info m) -> 0 <= c' < total_clusters (info m) + 2 ->
     entry_of i' c' = if decide (c' = c) then v else entry_of (info m) c') ->
  wp (store_entry (& bs')) (fun rc m' => rc = FAT_SUCCESS /\ exists i', m' = set_info i' m /\ stored (info m) c v i') m.
Proof.
  intros Hv Hc Hlen Hent. unfold store_entry. wp_step. eapply may_fail_run; [reflexivity|]. wp_step. wp_step. apply wp_pret. split; [done|].
  destruct (vo_table _ _ Hv) as (p & bs & Ht & _). rewrite Ht. eexists. split; [reflexivity|].
  split; [by eexists _, _, _|]. split; [done|]. unfold table_of in Hlen. rewrite Ht in Hlen. split; [cbn; unfold table_of; by rewrite Ht|]. split.
  - intros p' bs0 E. rewrite Ht in E. injection E as <- _. by exists bs'.
  - intros c' Hc'. by apply Hent.
Qed.

Lemma set_cluster_run dev c v (m : fat_t) :
  volume_ok dev (info m) -> cluster_ok (info m) c -> 0 <= v < entry_limit (info m) ->
  wp (fat_set_cluster_value c v) (fun rc m' => rc = FAT_SUCCESS /\ exists i', m' = set_info i' m /\ stored (info m) c v i') m.
Proof.
  intros Hv Hc Hval. unfold fat_set_cluster_value. wp_step. wp_step. destruct (vo_table _ _ Hv) as (p & bs & Ht & Hlen). rewrite Ht.
  pose proof (entry_bytes _ _ _ Hv Hc) as Hb. pose proof Hc as [Hc1 Hc2]. rewrite (proj2 (Z.ltb_ge c 2)) by lia.
  assert (forall w new, length new = w -> w = entry_width (info m) ->
    splice bs (Z.of_nat w * c) new = & (take (Z.to_nat (Z.of_nat w * c)) bs ++ new ++ drop (Z.to_nat (Z.of_nat w * c) + length new) bs) /\
    length (take (Z.to_nat (Z.of_nat w * c)) bs ++ new ++ drop (Z.to_nat (Z.of_nat w * c) + length new) bs) = length (table_of (info m)) /\
    forall c', 0 <= c' < total_clusters (info m) + 2 ->
      chunk w (take (Z.to_nat (Z.of_nat w * c)) bs ++ new ++ drop (Z.to_nat (Z.of_nat w * c) + length new) bs) c' =
      if decide (c' = c) then new else chunk w bs c') as Hsp.
  { intros w new Hn ->. split; [apply splice_some; nia|]. split.
    - unfold table_of. rewrite Ht, !length_app, length_take, length_drop. nia.
    - intros c' Hc'. apply chunk_stored; [done|lia|lia|nia]. }
  unfold table_of in Hb. rewrite Ht in Hb.
  destruct (width_type _ _ Hv) as [(E & Ew & El)|(E & Ew & El)]; rewrite E, (total_u32 _ _ Hv), (proj2 (Z.leb_gt _ _) Hc2); rewrite Ew in Hb; rewrite El in Hval.
  - change (2 * c) with (Z.of_nat 2 * c). destruct (Hsp 2%nat (le_split 2 v)) as (-> & Hl & Hch); [apply length_le_split|done|].
    apply (store_run dev c v); try done. intros i' c' Ht' Hty Hc'. unfold entry_of, entry_width. rewrite Ht', Hty, E, bool_decide_eq_true_2 by done.
    rewrite Hch by done. unfold table_of. rewrite Ht. case_decide; [|done]. rewrite le_split_mod. apply Z.mod_small. lia.
  - change (4 * c) with (Z.of_nat 4 * c) in *. wp_step. eapply may_fail_run; [exact Hb|].
    set (new := le_split 4 _). destruct (Hsp 4%nat new) as (-> & Hl & Hch); [apply length_le_split|done|].
    apply (store_run dev c v); try done. intros i' c' Ht' Hty Hc'. unfold entry_of, entry_width. rewrite Ht', Hty, E, bool_decide_eq_false_2 by done.
    rewrite Hch by done. unfold table_of. rewrite Ht. case_decide; [|done]. unfold new. rewrite le_split_mod.
    change 0x0FFFFFFF with (Z.ones 28). rewrite <- (Z.land_ones _ (Z.of_nat 4 * 8)) by lia. rewrite <- Z.land_assoc.
    change (Z.land (Z.ones (Z.of_nat 4 * 8)) (Z.ones 28)) with (Z.ones 28). rewrite Z.land_lor_distr_l, <- !Z.land_assoc.
    change (Z.land 0xF0000000 (Z.ones 28)) with 0. rewrite Z.land_0_r, Z.lor_0_l, Z.land_diag, Z.land_ones by lia. apply Z.mod_small. lia.
Qed.

(** ** Looking for a free cluster *)
Definition first_free (i : info_t) (r : Z) : Prop :=
  cluster_ok i r /\ entry_of i r = 0 /\ forall c, cluster_ok i c -> c < r -> entry_of i c <> 0.
Definition no_free (i : info_t) : Prop := forall c, cluster_ok i c -> entry_of i c <> 0.

Lemma find_free_run dev (m : fat_t) :
  volume_ok dev (info m) ->
  wp fat_find_free_cluster (fun r m' => m' = m /\ (r = 0 /\ no_free (info m) \/ r <> 0 /\ first_free (info m) r)) m.
Proof.
  intros Hv. unfold fat_find_free_cluster. wp_step. wp_step. destruct (vo_table _ _ Hv) as (p & bs & Ht & _). rewrite Ht, (total_u32 _ _ Hv).
  assert (forall n c, 2 <= c -> c + Z.of_nat n = total_clusters (info m) + 2 -> (forall c', cluster_ok (info m) c' -> c' < c -> entry_of (info m) c' <> 0) ->
    wp (find_free n c) (fun r m' => m' = m /\ (r = 0 /\ no_free (info m) \/ r <> 0 /\ first_free (info m) r)) m) as Hloop.
  { induction n as [|n IH]; intros c Hc Hn Hbelow; cbn [find_free].
    - apply wp_pret. split; [done|]. left. split; [done|]. intros c' Hc'. apply Hbelow; [done|]. unfold cluster_ok in Hc'. lia.
    - wp_step. eapply get_cluster_run; [exact Hv|]. assert (cluster_ok (info m) c) as Hok by (unfold cluster_ok; lia).
      rewrite decide_True by done. unfold FAT_CLUSTER_FREE. destruct (Z.eqb_spec (entry_of (info m) c) 0) as [E|E].
      + apply wp_pret. split; [done|]. right. split; [lia|]. split; [done|]. split; [done|]. intros c' Hc' Hlt. by apply Hbelow.
      + apply IH; [lia|lia|]. intros c' Hc' Hlt. destruct (decide (c' = c)) as [->|Hne]; [done|]. apply Hbelow; [done|lia]. }
  destruct (vo_clusters _ _ Hv). apply Hloop; [lia|lia|]. intros c' [Hc' _] Hlt. lia.
Qed.

(** ** Chains *)
Fixpoint chain (i : info_t) (c : Z) (l : list Z) : Prop :=
  match l with
  | [] => c = 0
  | x :: l => c = x /\ cluster_ok i c /\ chain i (next_of i c) l
  end.

Lemma chain_unique i l : forall c l', chain i c l -> chain i c l' -> l = l'.
Proof.
  induction l as [|x l IH]; intros c [|x' l']; cbn; [done| | |].
  - intros -> (_ & [H _] & _). lia.
  - intros (_ & [H _] & _) ->. lia.
  - intros (-> & _ & H) (<- & _ & H'). f_equal. by apply (IH (next_of i x)).
Qed.

Lemma chain_app i l1 : forall c x l2, chain i c (l1 ++ x :: l2) -> chain i x (x :: l2).
Proof.
  induction l1 as [|y l1 IH]; intros c x l2; cbn; [intros (-> & H); done|]. intros (_ & _ & H). by apply (IH (next_of i c)).
Qed.

Lemma chain_nodup i l : forall c, chain i c l -> NoDup l.
Proof.
  induction l as [|x l IH]; intros c Hc; [constructor|]. pose proof Hc as (-> & Hx & Hl). apply NoDup_cons. split; [|by apply (IH (next_of i x))].
  intros (l1 & l2 & ->)%list_elem_of_split. pose proof (chain_app i (x :: l1) x x l2 Hc) as Hx2.
  pose proof (chain_unique _ _ _ _ Hc Hx2) as Heq. apply (f_equal length) in Heq. cbn in Heq. rewrite length_app in Heq. cbn in Heq. lia.
Qed.

Lemma chain_ok i l : forall c, chain i c l -> Forall (cluster_ok i) l.
Proof. induction l as [|x l IH]; intros c; cbn; [done|]. intros (-> & H & Hl). constructor; [done|]. by apply (IH (next_of i x)). Qed.

Lemma chain_short i c l : 0 <= total_clusters i -> chain i c l -> Z.of_nat (length l) <= total_clusters i.
Proof.
  intros Ht Hc. assert (l ⊆ seqZ 2 (total_clusters i)) as Hsub.
  { intros x Hx. pose proof (chain_ok _ _ _ Hc) as Hok. rewrite Forall_forall in Hok. specialize (Hok x Hx). apply elem_of_seqZ. unfold cluster_ok in Hok. lia. }
  pose proof (NoDup_submseteq _ _ (chain_nodup _ _ _ Hc) Hsub) as Hm. apply submseteq_length in Hm. rewrite length_seqZ in Hm. lia.
Qed.

(** The entries of the chain's clusters determine it. *)
Lemma cluster_chain_ext i i' l : forall c, same_volume i i' -> (forall x, x ∈ l -> entry_of i' x = entry_of i x) -> chain i c l -> chain i' c l.
Proof.
  intros c Hsame. destruct Hsame as (t & s & d & ->). revert c. induction l as [|x l IH]; intros c Hx; cbn [chain]; [done|].
  intros (-> & Hok & Hl). split; [done|]. split; [exact Hok|]. assert (next_of (set_table t s d i) x = next_of i x) as ->.
  { unfold next_of. rewrite (Hx x) by by left. done. }
  apply IH; [|done]. intros y Hy. apply Hx. by right.
Qed.
End table.

(** ** Lists *)
Lemma take_drop_split {A} (l1 l2 : list A) (off n : nat) :
  (off <= length l1)%nat ->
  take n (drop off (l1 ++ l2)) =
  take (Nat.min (length l1 - off) n) (drop off l1) ++ take (n - Nat.min (length l1 - off) n) l2.
Proof.
  intros Hoff. rewrite drop_app_le by done. rewrite take_app, length_drop. f_equal; [|f_equal; lia].
  destruct (Nat.le_ge_cases (length l1 - off) n).
  - rewrite Nat.min_l by done. rewrite !take_ge; rewrite ?length_drop; done || lia.
  - by rewrite Nat.min_r.
Qed.

(** [new] written over [l] from [off] on. *)
Definition overwrite {A} (off : nat) (new l : list A) : list A := take off l ++ new ++ drop (off + length new) l.

Lemma length_overwrite {A} off (new l : list A) : (off + length new <= length l)%nat -> length (overwrite off new l) = length l.
Proof. intros H. unfold overwrite. rewrite !length_app, length_take, length_drop. lia. Qed.

Lemma overwrite_app {A} off (new1 new2 l1 l2 : list A) :
  (off + length new1 = length l1)%nat -> overwrite off (new1 ++ new2) (l1 ++ l2) = overwrite off new1 l1 ++ overwrite 0 new2 l2.
Proof.
  intros H. unfold overwrite. rewrite take_0, length_app, take_app_le, drop_app_ge, (drop_ge l1) by lia.
  rewrite app_nil_r, <- !app_assoc. cbn [app]. repeat f_equal. lia.
Qed.

Lemma overwrite_app_l {A} off (new l1 l2 : list A) :
  (off + length new <= length l1)%nat -> overwrite off new (l1 ++ l2) = overwrite off new l1 ++ l2.
Proof. intros H. unfold overwrite. rewrite take_app_le, drop_app_le by lia. by rewrite <- !app_assoc. Qed.

Lemma overwrite_nil {A} off (l : list A) : overwrite off [] l = l.
Proof. unfold overwrite. cbn [app length]. rewrite Nat.add_0_r. apply take_drop. Qed.

Lemma overwrite_behind {A} off (new l1 l2 : list A) : overwrite (length l1 + off) new (l1 ++ l2) = l1 ++ overwrite off new l2.
Proof.
  unfold overwrite. rewrite take_app_ge, drop_app_ge by lia. rewrite <- app_assoc. do 2 f_equal; [f_equal; lia|]. do 2 f_equal. lia.
Qed.

Lemma take_overwrite {A} n off (new l : list A) :
  (off + length new <= n)%nat -> (n <= length l)%nat -> take n (overwrite off new l) = overwrite off new (take n l).
Proof.
  intros H Hl. rewrite <- (take_drop n l) at 1. rewrite overwrite_app_l by (rewrite length_take; lia).
  apply take_app_length'. rewrite length_overwrite; rewrite length_take; lia.
Qed.

Lemma overwritten_piece {A} n off (new l : list A) :
  (off + length new <= length l)%nat -> (n <= length new)%nat -> take n (drop off (overwrite off new l)) = take n new.
Proof.
  intros H Hn. unfold overwrite. rewrite drop_app_ge by (rewrite length_take; lia). rewrite length_take, Nat.min_l, Nat.sub_diag, drop_0 by lia.
  by apply take_app_le.
Qed.

Section files.
Context {D Heap : Type} {HK : KernelHeap Heap} (dev : fat_block_device_t D) `{!BlockDevice dev}.
Abbreviation info_t := (@fat_fs_info_t D).
Abbreviation fat_t := (@Fat.fat_t D Heap).

(** ** Clusters on the device *)
Definition cluster_sector (i : info_t) (c : Z) : Z := first_data_sector i + (c - 2) * sectors_per_cluster i.
Definition cluster_bytes (i : info_t) (d : D) (c : Z) : list byte := sector_run bd_sector d (cluster_sector i c) (sectors_per_cluster i).
Definition file_bytes (i : info_t) (d : D) (l : list Z) : list byte := mjoin (cluster_bytes i d <$> l).
(** The sectors of some clusters. *)
Definition in_clusters (i : info_t) (l : list Z) (j : Z) : Prop :=
  exists c, c ∈ l /\ cluster_sector i c <= j < cluster_sector i c + sectors_per_cluster i.
(** Everything outside them is as before. *)
Definition disk_kept (i : info_t) (l : list Z) (d d' : D) : Prop :=
  forall j, 0 <= j < BlockDevice.total_sectors dev -> ~ in_clusters i l j -> bd_sector d' j = bd_sector d j.

Lemma cluster_range i c : volume_ok dev i -> cluster_ok i c -> in_range dev (cluster_sector i c) (sectors_per_cluster i).
Proof.
  intros Hv [H1 H2]. pose proof (vo_spc _ _ Hv). pose proof (vo_data _ _ Hv). pose proof (vo_first _ _ Hv) as (? & ? & ? & ? & ?).
  unfold in_range, cluster_sector. split; [|split]; nia.
Qed.

Lemma cluster_sector_eq i c : volume_ok dev i -> cluster_ok i c -> fat_cluster_to_sector i c = cluster_sector i c.
Proof.
  intros Hv Hc. pose proof (cluster_range i c Hv Hc) as (H1 & H2 & H3). destruct Hc as [Hc _]. pose proof (vo_data _ _ Hv) as [_ Ht].
  pose proof (vo_first _ _ Hv) as (? & ? & ? & ? & ?).
  unfold fat_cluster_to_sector, cluster_sector in *. rewrite (proj2 (Z.ltb_ge c 2)) by lia. rewrite (u32_id ((c - 2) * _)) by nia. apply u32_id. lia.
Qed.

Lemma length_cluster i d c : volume_ok dev i -> bd_inv d -> cluster_ok i c -> Z.of_nat (length (cluster_bytes i d c)) = cluster_size i.
Proof.
  intros Hv Hd Hc. unfold cluster_bytes. rewrite (length_sector_run dev) by (done || by apply cluster_range).
  pose proof (vo_spc _ _ Hv). rewrite (vo_cluster _ _ Hv). lia.
Qed.

Lemma file_cons i d c l : file_bytes i d (c :: l) = cluster_bytes i d c ++ file_bytes i d l.
Proof. done. Qed.

Lemma file_app i d l1 l2 : file_bytes i d (l1 ++ l2) = file_bytes i d l1 ++ file_bytes i d l2.
Proof. unfold file_bytes. by rewrite fmap_app, join_app. Qed.

Lemma length_file i d l : volume_ok dev i -> bd_inv d -> Forall (cluster_ok i) l -> Z.of_nat (length (file_bytes i d l)) = Z.of_nat (length l) * cluster_size i.
Proof.
  intros Hv Hd. induction 1 as [|c l Hc _ IH]; [done|]. rewrite file_cons, length_app, Nat2Z.inj_add, IH, (length_cluster i d c) by done.
  cbn [length]. lia.
Qed.

Lemma cluster_apart i c c' j :
  volume_ok dev i -> cluster_sector i c <= j < cluster_sector i c + sectors_per_cluster i ->
  cluster_sector i c' <= j < cluster_sector i c' + sectors_per_cluster i -> c = c'.
Proof. intros Hv H1 H2. pose proof (vo_spc _ _ Hv). unfold cluster_sector in *. nia. Qed.

Lemma cluster_kept i l d d' c : volume_ok dev i -> disk_kept i l d d' -> cluster_ok i c -> c ∉ l -> cluster_bytes i d' c = cluster_bytes i d c.
Proof.
  intros Hv Hk Hc Hl. apply (sector_run_ext dev). intros j Hj. pose proof (cluster_range i c Hv Hc) as (H1 & H2 & H3). apply Hk; [lia|].
  intros (c' & Hc' & Hj'). by rewrite (cluster_apart i c c' j Hv Hj Hj') in Hl.
Qed.

Lemma file_kept i l d d' l' :
  volume_ok dev i -> disk_kept i l d d' -> Forall (cluster_ok i) l' -> (forall c, c ∈ l' -> c ∉ l) -> file_bytes i d' l' = file_bytes i d l'.
Proof.
  intros Hv Hk Hok Hl. unfold file_bytes. f_equal. apply list_fmap_ext. intros n c Hc. apply (cluster_kept i l); [done|done| |].
  - rewrite Forall_forall in Hok. by apply Hok, (list_elem_of_lookup_2 _ n).
  - by apply Hl, (list_elem_of_lookup_2 _ n).
Qed.

Lemma disk_kept_refl i l d : disk_kept i l d d.
Proof. done. Qed.
Lemma disk_kept_cons i c l d d1 d2 : disk_kept i [c] d d1 -> disk_kept i l d1 d2 -> disk_kept i (c :: l) d d2.
Proof.
  intros H1 H2 j Hj Hn. rewrite H2, H1; [done|done| |done|].
  - intros (c' & Hc' & Hr). apply list_elem_of_singleton in Hc' as ->. apply Hn. exists c. split; [by left|done].
  - intros (c' & Hc' & Hr). apply Hn. exists c'. split; [by right|done].
Qed.

(** ** Reading *)
Lemma device_read_run s n (Q : Z * list byte -> fat_t -> Prop) m :
  block_device (info m) = & dev -> bd_inv (disk m) -> in_range dev s n -> Q (0, sector_run bd_sector (disk m) s n) m ->
  wp (fat_read_sectors s n) Q m.
Proof. intros Hv Hd Hr HQ. unfold wp, fat_read_sectors. by rewrite Hv, bd_read_eq, bd_read_ok. Qed.

Lemma read_cluster_run c (Q : Z * list byte -> fat_t -> Prop) m :
  volume_ok dev (info m) -> bd_inv (disk m) -> cluster_ok (info m) c -> Q (0, cluster_bytes (info m) (disk m) c) m ->
  wp (fat_read_sectors (fat_cluster_to_sector (info m) c) (sectors_per_cluster (info m))) Q m.
Proof.
  intros Hv Hd Hc HQ. rewrite cluster_sector_eq by done. apply device_read_run; [apply Hv|done|by apply cluster_range|done].
Qed.

Definition head (l : list Z) : Z := match l with [] => 0 | x :: _ => x end.

Lemma chain_head (i : info_t) c l : chain i c l -> c = head l.
Proof. by destruct l as [|x l]; cbn; [|intros [? _]]. Qed.

Lemma chain_drop (i : info_t) l : forall c n, chain i c l -> chain i (head (drop n l)) (drop n l).
Proof.
  induction l as [|x l IH]; intros c [|n] H; cbn [drop]; [done|done|by rewrite <- (chain_head _ _ _ H)|].
  destruct H as (_ & _ & H). by apply (IH (next_of i c)).
Qed.

Lemma skip_run n : forall c l (Q : Z -> fat_t -> Prop) m, volume_ok dev (info m) -> chain (info m) c l -> Q (head (drop n l)) m -> wp (skip_clusters n c) Q m.
Proof.
  induction n as [|n IH]; intros c l Q m Hv Hc HQ; cbn [skip_clusters].
  - apply wp_pret. by rewrite (chain_head _ _ _ Hc).
  - destruct l as [|x l]; cbn [chain] in Hc.
    + subst c. apply wp_pret. exact HQ.
    + destruct Hc as (-> & [Hx _] & Hl). rewrite (proj2 (Z.eqb_neq x 0)) by lia. wp_step. eapply next_cluster_run; [exact Hv|]. by apply (IH _ l).
Qed.

Lemma read_clusters_run n : forall c l off count got (Q : Z * list byte -> fat_t -> Prop) m,
  volume_ok dev (info m) -> bd_inv (disk m) -> chain (info m) c l -> 0 <= off < cluster_size (info m) ->
  count - Z.of_nat (length got) <= Z.of_nat n * cluster_size (info m) - off ->
  Q (0, got ++ take (Z.to_nat (count - Z.of_nat (length got))) (drop (Z.to_nat off) (file_bytes (info m) (disk m) l))) m ->
  wp (read_clusters n c off count got) Q m.
Proof.
  induction n as [|n IH]; intros c l off count got Q m Hv Hd Hc Hoff Hn HQ; cbn [read_clusters];
    (destruct (Z.ltb_spec (Z.of_nat (length got)) count) as [Hlt|Hge]; cbn [negb orb];
      [|apply wp_pret; replace (Z.to_nat (count - _)) with 0%nat in HQ by lia; rewrite app_nil_r in HQ; exact HQ]); [lia|].
  destruct l as [|x l]; cbn [chain] in Hc.
  { subst c. cbn. apply wp_pret. cbn in HQ. rewrite drop_nil, take_nil, app_nil_r in HQ. exact HQ. }
  destruct Hc as (-> & Hx & Hl). pose proof Hx as [Hx2 _]. rewrite (proj2 (Z.eqb_neq x 0)) by lia. cbn [orb].
  wp_step. wp_step. wp_step. apply read_cluster_run; [done..|]. change (negb (0 =? FAT_SUCCESS)) with false. cbn iota.
  pose proof (length_cluster _ _ _ Hv Hd Hx) as Hlen. set (k := Z.min (cluster_size (info m) - off) (count - Z.of_nat (length got))) in *.
  assert (0 < k) by lia. wp_step. eapply may_fail_run; [apply bytes_at_some; lia|].
  wp_step. eapply next_cluster_run; [exact Hv|]. set (bs := take (Z.to_nat k) _).
  assert (Z.of_nat (length bs) = k) as Hbs by (unfold bs; rewrite length_take, length_drop; lia).
  apply (IH _ l); [done|done|exact Hl|lia|rewrite length_app; lia|]. rewrite length_app. change (Z.to_nat 0) with 0%nat. cbn [drop].
  replace ((got ++ bs) ++ _) with (got ++ take (Z.to_nat (count - Z.of_nat (length got))) (drop (Z.to_nat off) (file_bytes (info m) (disk m) (x :: l)))); [exact HQ|].
  rewrite <- app_assoc. f_equal. rewrite file_cons, take_drop_split by lia. f_equal; [unfold bs; f_equal; lia|]. f_equal. lia.
Qed.

(** A file: its inode, with a chain long enough for its size. *)
Record file_ok (i : info_t) (file : vfs_file) (l : list Z) : Prop := {
  fo_private : exists p x q y, i_private (f_inode file) = & (p, x) /\ f_private_data file = & (q, y) /\ chain i (first_cluster x) l;
  fo_size : 0 <= i_size (f_inode file) < 2 ^ 32;
  fo_chain : i_size (f_inode file) <= Z.of_nat (length l) * cluster_size i }.

Definition contents (i : info_t) (d : D) (file : vfs_file) (l : list Z) : list byte :=
  take (Z.to_nat (i_size (f_inode file))) (file_bytes i d l).

Lemma file_drop i d l n :
  volume_ok dev i -> bd_inv d -> Forall (cluster_ok i) l -> (n <= length l)%nat ->
  file_bytes i d (drop n l) = drop (n * Z.to_nat (cluster_size i)) (file_bytes i d l).
Proof.
  intros Hv Hd Hok Hn. rewrite <- (take_drop n l) at 2. rewrite file_app.
  assert (length (file_bytes i d (take n l)) = n * Z.to_nat (cluster_size i))%nat as Hlen.
  { pose proof (length_file i d (take n l) Hv Hd (Forall_take _ _ _ Hok)) as H. rewrite length_take in H.
    pose proof (vo_cluster _ _ Hv). pose proof (vo_spc _ _ Hv). nia. }
  symmetry. by apply drop_app_length'.
Qed.

(** The cluster of a position, and the position in it. *)
Lemma position i d l pos :
  volume_ok dev i -> bd_inv d -> Forall (cluster_ok i) l -> 0 <= pos < Z.of_nat (length l) * cluster_size i -> pos < 2 ^ 32 ->
  let n := Z.to_nat (u32 (pos / cluster_size i)) in
  (n < length l)%nat /\ head (drop n l) <> 0 /\ 0 <= pos mod cluster_size i < cluster_size i /\
  (Z.to_nat pos = n * Z.to_nat (cluster_size i) + Z.to_nat (pos mod cluster_size i))%nat /\
  drop (Z.to_nat (pos mod cluster_size i)) (file_bytes i d (drop n l)) = drop (Z.to_nat pos) (file_bytes i d l).
Proof.
  intros Hv Hd Hok Hpos Hlt n. pose proof (vo_cluster _ _ Hv) as Hcs. pose proof (vo_spc _ _ Hv) as Hspc.
  assert (0 < cluster_size i) as Hc0 by lia. pose proof (Z.mod_pos_bound pos _ Hc0) as Hm. pose proof (Z.div_mod pos (cluster_size i) ltac:(lia)) as Hdm.
  assert (0 <= pos / cluster_size i < 2 ^ 32) as Hq by (split; [apply Z.div_pos; lia|apply Z.div_lt_upper_bound; nia]).
  assert (Z.of_nat n = pos / cluster_size i) as Hn by (unfold n; rewrite u32_id by lia; lia).
  assert (n < length l)%nat as Hnl by nia. split; [done|].
  assert (exists x, x ∈ l /\ head (drop n l) = x) as (x & Hx & Hh).
  { destruct (lookup_lt_is_Some_2 l n Hnl) as [x Hx]. exists x. split; [by eapply list_elem_of_lookup_2|]. by rewrite (drop_S _ _ _ Hx). }
  split; [|split; [done|]].
  - rewrite Hh. rewrite Forall_forall in Hok. destruct (Hok x Hx). lia.
  - assert (Z.to_nat pos = n * Z.to_nat (cluster_size i) + Z.to_nat (pos mod cluster_size i))%nat as Hp by nia. split; [done|].
    rewrite file_drop by (done || lia). rewrite drop_drop. by rewrite <- Hp.
Qed.

Lemma fat_read_run file l count pos (m : fat_t) :
  volume_ok dev (info m) -> bd_inv (disk m) -> file_ok (info m) file l -> 0 <= pos -> 0 <= count -> pos + count < 2 ^ 64 ->
  wp (fat_read file count pos) (fun r m' => m' = m /\
    let out := take (Z.to_nat count) (drop (Z.to_nat pos) (contents (info m) (disk m) file l)) in
    r = (Z.of_nat (length out), out, pos + Z.of_nat (length out))) m.
Proof.
  intros Hv Hd [(p & x & q & y & Hi & Hf & Hc) Hs Hlen] Hpos Hcount Hsum. unfold fat_read. rewrite Hi, Hf. wp_step. wp_step.
  pose proof (chain_ok _ _ _ Hc) as Hok. pose proof (length_file _ _ _ Hv Hd Hok) as Hfile. set (size := i_size (f_inode file)) in *.
  assert (Z.of_nat (length (contents (info m) (disk m) file l)) = size) as Hcl by (unfold contents; rewrite length_take; fold size; lia).
  destruct (Z.leb_spec size pos) as [Heof|Hin].
  { apply wp_pret. split; [done|]. rewrite drop_ge, take_nil by lia. cbn. repeat f_equal. lia. }
  rewrite u64_id by lia. set (n := if size <? pos + count then size - pos else count).
  assert (take (Z.to_nat count) (drop (Z.to_nat pos) (contents (info m) (disk m) file l)) =
    take (Z.to_nat n) (drop (Z.to_nat pos) (file_bytes (info m) (disk m) l))) as Hout.
  { unfold contents. fold size. rewrite skipn_firstn_comm, take_take. f_equal. unfold n. destruct (Z.ltb_spec size (pos + count)); lia. }
  rewrite Hout. set (out := take _ _). assert (0 <= n /\ pos + n <= size) as [Hn0 Hn] by (unfold n; destruct (Z.ltb_spec size (pos + count)); lia).
  assert (Z.of_nat (length out) = n) as Hol by (unfold out; rewrite length_take, length_drop; lia).
  destruct (position (info m) (disk m) l pos Hv Hd Hok ltac:(lia) ltac:(lia)) as (P1 & P2 & P3 & _ & P5).
  wp_step. apply (skip_run _ _ l); [done|exact Hc|]. rewrite (proj2 (Z.eqb_neq _ 0)) by done.
  wp_step. apply (read_clusters_run _ _ (drop (Z.to_nat (u32 (pos / cluster_size (info m)))) l)); [done|done|by eapply chain_drop|done| |].
  - cbn [length]. unfold transfer_fuel. pose proof (Z.div_mod n (cluster_size (info m))). pose proof (Z.mod_pos_bound n (cluster_size (info m))).
    pose proof (Z.div_pos n (cluster_size (info m))). nia.
  - change (negb (0 =? VFS_SUCCESS)) with false. cbn iota. apply wp_pret. split; [done|]. rewrite P5. cbn [length app]. rewrite Z.sub_0_r. fold out.
    rewrite u64_id by lia. done.
Qed.

(** ** Writing *)
(** The device fails some write. *)
Definition write_fails : Prop :=
  exists d s n bs, bd_inv d /\ in_range dev s n /\ length bs = (Z.to_nat n * 512)%nat /\ (bd_write d s n bs).1 <> 0.

Lemma never_fails `{!ReliableDevice dev} : ~ write_fails.
Proof. intros (d & s & n & bs & H1 & H2 & H3 & H4). by apply H4, bd_write_zero. Qed.

Lemma write_cluster_run c bs (Q : Z -> fat_t -> Prop) m :
  volume_ok dev (info m) -> bd_inv (disk m) -> cluster_ok (info m) c -> Z.of_nat (length bs) = cluster_size (info m) ->
  (forall rc d, bd_inv d -> disk_kept (info m) [c] (disk m) d -> (rc = 0 -> cluster_bytes (info m) d c = bs) -> (rc <> 0 -> write_fails) ->
     Q rc (set_disk d m)) ->
  wp (fat_write_sectors (fat_cluster_to_sector (info m) c) (sectors_per_cluster (info m)) bs) Q m.
Proof.
  intros Hv Hd Hc Hlen HQ. unfold wp, fat_write_sectors. rewrite (vo_device _ _ Hv), bd_write_eq, cluster_sector_eq by done.
  pose proof (cluster_range _ _ Hv Hc) as Hr. pose proof (vo_spc _ _ Hv) as Hspc. pose proof (vo_cluster _ _ Hv) as Hcs.
  assert (length bs = Z.to_nat (sectors_per_cluster (info m)) * 512)%nat as Hbs by lia.
  pose proof (bd_write_inv (disk m) _ _ bs Hd Hr Hbs) as Hinv. pose proof (bd_write_ok (disk m) _ _ bs Hd Hr Hbs) as [W1 _ W3].
  assert ((bd_write (disk m) (cluster_sector (info m) c) (sectors_per_cluster (info m)) bs).1 <> 0 -> write_fails) as Hfail by (intros H; exists (disk m), (cluster_sector (info m) c), (sectors_per_cluster (info m)), bs; done).
  destruct (bd_write (disk m) (cluster_sector (info m) c) (sectors_per_cluster (info m)) bs) as [rc d]. cbn [fst snd] in *. apply HQ; [done| | |done].
  - intros j Hj Hn. apply W1; [done|]. intros Hjr. apply Hn. exists c. split; [by left|done].
  - intros ->. apply (sector_run_chunks dev); [done|lia|]. intros j Hj. by apply W3.
Qed.

Lemma splice_overwrite bs off new :
  0 <= off -> off + Z.of_nat (length new) <= Z.of_nat (length bs) -> splice bs off new = & (overwrite (Z.to_nat off) new bs).
Proof. intros H1 H2. by rewrite splice_some. Qed.

(** What is left of a transfer of [count] bytes into a chain. *)
Definition room_left (i : info_t) (l : list Z) (off left : Z) : Z := Z.min left (Z.of_nat (length l) * cluster_size i - off).

Definition written_to (l : list Z) (off count written : Z) (buffer : list byte) (r : Z * Z) (m m' : fat_t) : Prop :=
  exists d, m' = set_disk d m /\ bd_inv d /\ disk_kept (info m) l (disk m) d /\
    (r.1 = VFS_ERROR_IO_ERROR /\ write_fails \/
     let k := room_left (info m) l off (count - written) in
     r = (VFS_SUCCESS, written + k) /\
     file_bytes (info m) d l = overwrite (Z.to_nat off) (take (Z.to_nat k) (drop (Z.to_nat written) buffer)) (file_bytes (info m) (disk m) l)).

Lemma nothing_written l off count written buffer (m : fat_t) :
  bd_inv (disk m) -> room_left (info m) l off (count - written) = 0 -> written_to l off count written buffer (VFS_SUCCESS, written) m m.
Proof.
  intros Hd Hk. exists (disk m). split; [by destruct m|]. split; [done|]. split; [apply disk_kept_refl|]. right. cbn zeta. rewrite Hk.
  rewrite Z.add_0_r, take_0, overwrite_nil. done.
Qed.

Lemma write_clusters_run n : forall c l off count written buffer (m : fat_t),
  volume_ok dev (info m) -> bd_inv (disk m) -> chain (info m) c l -> 0 <= off < cluster_size (info m) -> 0 <= written <= count ->
  count <= Z.of_nat (length buffer) -> count - written <= Z.of_nat n * cluster_size (info m) - off -> (l = [] -> off = 0) ->
  wp (write_clusters n c off count written buffer) (fun r m' => written_to l off count written buffer r m m') m.
Proof.
  induction n as [|n IH]; intros c l off count written buffer m Hv Hd Hc Hoff Hw Hbuf Hn Hl0; cbn [write_clusters];
    (assert (written = count -> room_left (info m) l off (count - written) = 0) as Hfull
      by (intros ->; unfold room_left; destruct l; [rewrite (Hl0 eq_refl); cbn; lia|cbn [length]; nia]));
    (destruct (Z.ltb_spec written count) as [Hlt|Hge]; cbn [negb orb]; [|apply wp_pret, nothing_written; [done|apply Hfull; lia]]); [lia|].
  destruct l as [|x l]; cbn [chain] in Hc.
  { subst c. cbn [Z.eqb orb]. apply wp_pret, nothing_written; [done|]. unfold room_left. rewrite (Hl0 eq_refl). cbn. lia. }
  destruct Hc as (-> & Hx & Hl). pose proof Hx as [Hx2 _]. rewrite (proj2 (Z.eqb_neq x 0)) by lia. cbn [orb].
  wp_step. wp_step. wp_step. apply read_cluster_run; [done..|]. change (negb (0 =? FAT_SUCCESS)) with false. cbn iota.
  pose proof (length_cluster _ _ _ Hv Hd Hx) as Hlen. set (k := Z.min (cluster_size (info m) - off) (count - written)) in *.
  assert (0 < k) by lia. wp_step. eapply may_fail_run; [apply bytes_at_some; lia|]. set (bs := take (Z.to_nat k) _).
  assert (Z.of_nat (length bs) = k) as Hbs by (unfold bs; rewrite length_take, length_drop; lia).
  wp_step. eapply may_fail_run; [apply splice_overwrite; lia|].
  wp_step. apply write_cluster_run; [done..|rewrite length_overwrite; lia|]. intros rc d1 Hd1 Hk1 Hdone Hfail.
  destruct (Z.eqb_spec rc FAT_SUCCESS) as [->|Hrc]; cbn [negb].
  2:{ apply wp_pret. exists d1. split; [done|]. split; [done|]. split; [|left; split; [done|by apply Hfail]]. apply (disk_kept_cons _ x l _ d1); [done|apply disk_kept_refl]. }
  wp_step. eapply next_cluster_run; [exact Hv|]. eapply wp_weaken.
  { apply (IH (next_of (info m) x) l 0 count (written + k) buffer (set_disk d1 m)); cbn [info disk set_disk]; [done|done|exact Hl|lia|lia|done|nia|done]. }
  cbn [info disk set_disk]. intros r m' (d & -> & Hd' & Hk2 & Hres). cbn [info disk set_disk] in *. exists d. split; [done|]. split; [done|].
  split; [by eapply disk_kept_cons|]. destruct Hres as [Hres|[-> Hfile]]; [by left|]. right. cbn zeta.
  assert (x ∉ l) as Hxl by (apply (NoDup_cons x l), (chain_nodup (info m) (x :: l) x); by split).
  assert (cluster_bytes (info m) d x = overwrite (Z.to_nat off) bs (cluster_bytes (info m) (disk m) x)) as Hxd.
  { rewrite (cluster_kept _ l d1 d x Hv Hk2 Hx Hxl). by apply Hdone. }
  assert (file_bytes (info m) d1 l = file_bytes (info m) (disk m) l) as Hl1.
  { apply (file_kept _ [x]); [done|done|by apply (chain_ok _ _ (next_of (info m) x))|]. intros y Hy ->%list_elem_of_singleton. done. }
  set (rest := room_left (info m) l 0 (count - (written + k))) in *. set (bs2 := take (Z.to_nat rest) _) in Hfile.
  assert (room_left (info m) (x :: l) off (count - written) = k + rest /\ 0 <= rest) as [-> Hrest]
    by (unfold rest, room_left, k; cbn [length]; nia).
  rewrite Z.add_assoc. split; [done|]. rewrite !file_cons, Hxd, Hfile, Hl1, Z2Nat.inj_add, <- take_take_drop by lia. fold bs.
  rewrite drop_drop, <- Z2Nat.inj_add by lia. fold bs2. destruct (Z.le_gt_cases (cluster_size (info m) - off) (count - written)) as [Hle|Hgt].
  - symmetry. apply overwrite_app. lia.
  - assert (rest = 0) as E by (unfold rest, room_left; nia). unfold bs2. rewrite E, take_0, app_nil_r, overwrite_nil. symmetry.
    apply overwrite_app_l. lia.
Qed.

Lemma disk_kept_mono i l l' d d' : l ⊆ l' -> disk_kept i l d d' -> disk_kept i l' d d'.
Proof. intros Hl Hk j Hj Hn. apply Hk; [done|]. intros (c & Hc & Hr). apply Hn. exists c. split; [by apply Hl|done]. Qed.

(** The bytes a write of [count] bytes at [pos] stores. *)
Definition stored_count (size count pos : Z) : Z := Z.max 0 (Z.min count (size - pos)).

(** The effect of a write on the volume, whatever its result. *)
Definition write_result (file : vfs_file) (l : list Z) (buffer : list byte) (count pos : Z) (r : Z * Z) (m m' : fat_t) : Prop :=
  exists d, m' = set_disk d m /\ bd_inv d /\ disk_kept (info m) l (disk m) d /\
    (r = (VFS_ERROR_IO_ERROR, pos) /\ write_fails \/
     let n := stored_count (i_size (f_inode file)) count pos in
     r = (n, pos + n) /\
     file_bytes (info m) d l = overwrite (Z.to_nat pos) (take (Z.to_nat n) buffer) (file_bytes (info m) (disk m) l)).

Lemma fat_write_run file l buffer count pos (m : fat_t) :
  volume_ok dev (info m) -> bd_inv (disk m) -> file_ok (info m) file l -> 0 <= pos -> 0 <= count -> pos + count < 2 ^ 64 ->
  count <= Z.of_nat (length buffer) ->
  wp (fat_write file buffer count pos) (fun r m' => write_result file l buffer count pos r m m') m.
Proof.
  intros Hv Hd [(p & x & q & y & Hi & Hf & Hc) Hs Hlen] Hpos Hcount Hsum Hbuf. unfold fat_write, write_result. rewrite Hi, Hf. wp_step. wp_step.
  rewrite u64_id by lia. pose proof (chain_ok _ _ _ Hc) as Hok. set (size := i_size (f_inode file)) in *.
  assert ((if size <? pos + count then if pos <? size then size - pos else 0 else count) = stored_count size count pos) as ->
    by (unfold stored_count; destruct (Z.ltb_spec size (pos + count)), (Z.ltb_spec pos size); lia).
  set (n := stored_count size count pos). cbn zeta. assert (0 <= n <= count) as Hn by (unfold n, stored_count; lia).
  assert (n = 0 \/ pos + n <= size) as Hn' by (unfold n, stored_count; lia). destruct (Z.eqb_spec n 0) as [E|Hn0].
  { apply wp_pret. exists (disk m). split; [by destruct m|]. split; [done|]. split; [apply disk_kept_refl|]. right. rewrite E, take_0, overwrite_nil.
    split; [|done]. f_equal; lia. }
  destruct (position (info m) (disk m) l pos Hv Hd Hok ltac:(lia) ltac:(lia)) as (P1 & P2 & P3 & P4 & _). set (k := Z.to_nat (u32 _)) in *.
  wp_step. apply (skip_run _ _ l); [done|exact Hc|]. rewrite (proj2 (Z.eqb_neq _ 0)) by done.
  wp_step. eapply wp_weaken; [apply (write_clusters_run _ _ (drop k l)); try done; [by eapply chain_drop|lia|lia| |]|].
  { unfold transfer_fuel. pose proof (Z.div_mod n (cluster_size (info m))). pose proof (Z.mod_pos_bound n (cluster_size (info m))).
    pose proof (Z.div_pos n (cluster_size (info m))). nia. }
  { intros E. apply (f_equal length) in E. rewrite length_drop in E. cbn in E. lia. }
  intros [rc w] m' (d & -> & Hd' & Hk & Hres). cbn [fst] in Hres.
  assert (disk_kept (info m) l (disk m) d) as Hkl by (apply (disk_kept_mono _ (drop k l)); [apply subseteq_drop|done]).
  destruct Hres as [[-> Hfail]|[[= -> ->] Hfile]]; apply wp_pret; exists d; (split; [done|]); (split; [done|]); (split; [exact Hkl|]); [by left|]. right.
  assert (room_left (info m) (drop k l) (pos mod cluster_size (info m)) (n - 0) = n) as Hroom
    by (unfold room_left; rewrite length_drop; nia).
  rewrite Hroom, drop_0 in *. rewrite Z.add_0_l, u64_id by lia. split; [done|]. rewrite <- (take_drop k l), !file_app, Hfile, P4.
  assert (file_bytes (info m) d (take k l) = file_bytes (info m) (disk m) (take k l)) as ->.
  { apply (file_kept _ (drop k l)); [done|done|by apply Forall_take|]. intros c Hc1 Hc2. pose proof (chain_nodup _ _ _ Hc) as Hnd.
    rewrite <- (take_drop k l) in Hnd. apply NoDup_app in Hnd as (_ & Hnd & _). by apply (Hnd c). }
  pose proof (length_file _ _ (take k l) Hv Hd (Forall_take _ _ _ Hok)) as Hft. rewrite length_take in Hft.
  rewrite <- overwrite_behind. f_equal. nia.
Qed.
End files.
