(* ===== verification/FatDirSpec.v ===== *)
(** * Directories of a FAT volume

    A directory is the list of the 32-byte entries of its blocks; the search
    of [fat_find_dir_entry] is [list_find] on those before the end mark.  What
    [fat_lookup], [fat_create] and [fat_mkdir] make of it. *)
From Stdlib Require Import ZArith Lia List.
From S2P Require Import Prelude BlockDevice StateMonad KernelHeap Fat FatFileSpec.
Open Scope Z_scope.
Open Scope c_scope.
Open Scope prog_scope.

#[export] Instance byte_eq_dec : EqDecision byte := Byte.byte_eq_dec.

(** ** Entries *)
Definition ended (e : list byte) : bool := byte.unsigned (nth 0 e Byte.x00) =? 0.
Definition deleted (e : list byte) : bool := byte.unsigned (nth 0 e Byte.x00) =? 0xE5.
(** The entries before the end mark. *)
Fixpoint until_end (es : list (list byte)) : list (list byte) :=
  match es with [] => [] | e :: es => if ended e then [] else e :: until_end es end.
(** The first entry of a name, and its number. *)
Definition named (nm e : list byte) : Prop := deleted e = false /\ take 11 e = nm.
#[export] Instance named_dec nm e : Decision (named nm e).
Proof. unfold named. apply _. Defined.
Definition dir_find (nm : list byte) (es : list (list byte)) : option (nat * list byte) := list_find (named nm) (until_end es).

(** The entries of a block. *)
Definition entries_of (bs : list byte) : list (list byte) := chunk 32 bs <$> seqZ 0 (Z.of_nat (length bs) / 32).

Lemma entries_app k bs1 bs2 : length bs1 = (k * 32)%nat -> entries_of (bs1 ++ bs2) = entries_of bs1 ++ entries_of bs2.
Proof.
  intros H. unfold entries_of. rewrite length_app, Nat2Z.inj_add, H. replace (Z.of_nat (k * 32) + Z.of_nat (length bs2)) with (Z.of_nat (length bs2) + Z.of_nat k * 32) by lia.
  rewrite Z.div_add, Nat2Z.inj_mul, Z.div_mul by lia. rewrite Z.add_comm, seqZ_app by (try apply Z.div_pos; lia). rewrite fmap_app. f_equal.
  - apply list_fmap_ext. intros j x [-> Hj]%lookup_seqZ. unfold chunk. rewrite drop_app_le by lia. rewrite take_app_le; [done|]. rewrite length_drop. lia.
  - rewrite (Z.add_comm 0), <- (fmap_add_seqZ (Z.of_nat k) 0), <- list_fmap_compose. apply list_fmap_ext. intros j x [-> Hj]%lookup_seqZ. unfold compose, chunk.
    rewrite drop_app_ge by lia. do 2 f_equal. lia.
Qed.

Lemma entries_cons e bs : length e = 32%nat -> entries_of (e ++ bs) = e :: entries_of bs.
Proof.
  intros H. rewrite (entries_app 1) by done. unfold entries_of at 1. rewrite H.
  change (seqZ 0 (Z.of_nat 32 / 32)) with [0]. cbn [fmap list_fmap app]. by rewrite chunk_0.
Qed.

Lemma until_end_app es1 es2 :
  until_end (es1 ++ es2) = if existsb ended es1 then until_end es1 else es1 ++ until_end es2.
Proof. induction es1 as [|e es1 IH]; cbn; [done|]. destruct (ended e); cbn; [done|]. rewrite IH. by destruct (existsb _ _). Qed.

Lemma until_end_all es : existsb ended es = false -> until_end es = es.
Proof. induction es as [|e es IH]; cbn; [done|]. intros [-> H]%orb_false_iff. by rewrite IH. Qed.

(** A directory in two parts. *)
Lemma dir_find_app nm es1 es2 :
  dir_find nm (es1 ++ es2) =
  match dir_find nm es1 with
  | Some r => Some r
  | None => if existsb ended es1 then None else (fun r => ((length es1 + r.1)%nat, r.2)) <$> dir_find nm es2
  end.
Proof.
  unfold dir_find. rewrite until_end_app. destruct (existsb ended es1) eqn:E; [by destruct (list_find _ _)|].
  rewrite (until_end_all _ E). destruct (list_find (named nm) es1) as [[k e]|] eqn:H1.
  - by apply list_find_app_l.
  - rewrite list_find_app_r by done. destruct (list_find _ (until_end es2)) as [[k e]|]; [|done]. cbn. by rewrite Nat.add_comm.
Qed.

Lemma dir_find_cons nm e es :
  dir_find nm (e :: es) =
  if ended e then None else if decide (named nm e) then Some (0%nat, e) else (fun r => (S r.1, r.2)) <$> dir_find nm es.
Proof. unfold dir_find. cbn [until_end]. destruct (ended e); [done|]. cbn [list_find]. case_decide; [done|]. by destruct (list_find _ _) as [[k x]|]. Qed.

Lemma memcmp_zero n : forall s1 s2, (n <= length s1)%nat -> length s2 = n -> (memcmp s1 s2 n =? 0) = bool_decide (take n s1 = s2).
Proof.
  induction n as [|n IH]; intros [|x s1] [|y s2] H1 H2; cbn in *; try done; try lia. destruct (Byte.eqb x y) eqn:E.
  - apply Byte.byte_dec_bl in E as ->. rewrite IH by lia. apply bool_decide_ext. split; [by intros ->|by intros [= ->]].
  - rewrite bool_decide_eq_false_2 by (intros [= -> _]; by rewrite Byte.byte_dec_lb in E). apply Z.eqb_neq. intros H.
    assert (x = y) as ->; [|by rewrite Byte.byte_dec_lb in E]. apply byte.unsigned_inj. lia.
Qed.

(** ** Names *)
Lemma length_pad n bs : length (pad n bs) = n.
Proof. unfold pad. rewrite length_take, length_app, length_replicate. lia. Qed.

Lemma length_name_83 name : length (fat_name_to_83 name) = 11%nat.
Proof. unfold fat_name_to_83. by rewrite length_app, !length_pad. Qed.

Lemma upper_lower c : to_upper (to_lower c) = to_upper c.
Proof. destruct c; reflexivity. Qed.
Lemma lower_upper c : to_lower (to_upper c) = to_lower c.
Proof. destruct c; reflexivity. Qed.
Lemma lower_mark c x : x = dot \/ x = space -> to_lower c = x <-> c = x.
Proof. intros [-> | ->]; split; [destruct c; by intros [=]|by intros ->|destruct c; by intros [=]|by intros ->]. Qed.
Lemma upper_mark c x : x = dot \/ x = space -> to_upper c = x <-> c = x.
Proof. intros [-> | ->]; split; [destruct c; by intros [=]|by intros ->|destruct c; by intros [=]|by intros ->]. Qed.
Lemma byte_eqb_decide (x y : byte) : Byte.eqb x y = bool_decide (x = y).
Proof.
  destruct (Byte.eqb x y) eqn:E; symmetry.
  - by apply bool_decide_eq_true_2, Byte.byte_dec_bl.
  - apply bool_decide_eq_false_2. intros ->. by rewrite Byte.byte_dec_lb in E.
Qed.

Lemma strrchr_lower name : strrchr (to_lower <$> name) dot = strrchr name dot.
Proof.
  induction name as [|x name IH]; cbn; [done|]. rewrite IH, !byte_eqb_decide.
  by rewrite (bool_decide_ext _ _ (lower_mark x dot (or_introl eq_refl))).
Qed.

(** The case of a name does not matter. *)
Lemma name_83_lower name : fat_name_to_83 (to_lower <$> name) = fat_name_to_83 name.
Proof.
  assert (forall l : list byte, to_upper <$> (to_lower <$> l) = to_upper <$> l) as Hul.
  { intros l. rewrite <- list_fmap_compose. apply list_fmap_ext. intros n x _. apply upper_lower. }
  unfold fat_name_to_83. rewrite strrchr_lower. destruct (strrchr name dot) as [i|].
  - by rewrite <- fmap_take, <- fmap_drop, !Hul.
  - by rewrite Hul.
Qed.

Lemma strrchr_none name : dot ∉ name -> strrchr name dot = NULL.
Proof.
  induction name as [|x name IH]; cbn; [done|]. intros [Hx Hn]%not_elem_of_cons. rewrite IH by done. by rewrite byte_eqb_decide, bool_decide_eq_false_2 by congruence.
Qed.
Lemma strrchr_last base ext : dot ∉ ext -> strrchr (base ++ dot :: ext) dot = & (length base).
Proof. intros H. induction base as [|x base IH]; cbn; [by rewrite strrchr_none|]. by rewrite IH. Qed.

(** Names of at most eight and three characters. *)
Inductive short_name : list byte -> Prop :=
| bare_name base : (length base <= 8)%nat -> dot ∉ base -> space ∉ base -> short_name base
| dotted_name base ext : (length base <= 8)%nat -> (0 < length ext <= 3)%nat -> dot ∉ ext -> space ∉ base -> space ∉ ext ->
    short_name (base ++ dot :: ext).

Lemma until_space_pad bs n : space ∉ bs -> (length bs <= n)%nat -> until_space (pad n bs) = bs.
Proof.
  intros Hs Hn. unfold pad. rewrite take_app, take_ge by done. rewrite take_replicate, Nat.min_l by lia. clear Hn. set (k := (n - length bs)%nat). clearbody k.
  induction bs as [|x bs IH]; cbn.
  - by destruct k.
  - apply not_elem_of_cons in Hs as [Hx Hs]. rewrite byte_eqb_decide, bool_decide_eq_false_2 by congruence. by rewrite IH.
Qed.

Lemma upper_no_space (bs : list byte) : space ∉ bs -> space ∉ to_upper <$> bs.
Proof. intros H (x & Hx & Hin)%list_elem_of_fmap. symmetry in Hx. apply upper_mark in Hx as ->; [done|by right]. Qed.

Lemma lower_upper_list (bs : list byte) : to_lower <$> (to_upper <$> bs) = to_lower <$> bs.
Proof. rewrite <- list_fmap_compose. apply list_fmap_ext. intros n x _. apply lower_upper. Qed.

(** The name read back from the two parts of an entry. *)
Lemma name_of_parts base ext :
  (length base <= 8)%nat -> (length ext <= 3)%nat -> space ∉ base -> space ∉ ext ->
  fat_83_to_name (pad 8 (to_upper <$> base) ++ pad 3 (to_upper <$> ext)) =
  to_lower <$> (match ext with [] => base | _ => base ++ dot :: ext end).
Proof.
  intros Hb He Hsb Hse. unfold fat_83_to_name. rewrite take_app_length', drop_app_length' by (symmetry; apply length_pad).
  rewrite (take_ge (pad 3 _)) by (rewrite length_pad; lia).
  rewrite !until_space_pad by (try apply upper_no_space; rewrite ?length_fmap; done). rewrite !lower_upper_list.
  rewrite app_nth2, length_pad by (rewrite length_pad; lia). rewrite byte_eqb_decide. destruct ext as [|x ext].
  - rewrite bool_decide_eq_true_2; [done|]. reflexivity.
  - rewrite bool_decide_eq_false_2; [by rewrite fmap_app|]. cbn. apply not_elem_of_cons in Hse as [Hx _].
    intros Hx'. apply (upper_mark x space (or_intror eq_refl)) in Hx'. congruence.
Qed.

Lemma name_83_back name : short_name name -> fat_83_to_name (fat_name_to_83 name) = to_lower <$> name.
Proof.
  intros [base Hl Hd Hs|base ext Hb He Hd Hsb Hse]; unfold fat_name_to_83.
  - rewrite strrchr_none by done. rewrite (name_of_parts base []) by (done || cbn; lia || apply not_elem_of_nil). done.
  - rewrite strrchr_last by done. rewrite take_app_length, (cons_middle dot), app_assoc, drop_app_length' by (rewrite length_app; cbn; lia).
    rewrite name_of_parts by (done || lia). rewrite <- app_assoc. destruct ext; [cbn in He; lia|done].
Qed.

(** ** The bytes of an entry *)
Record entry_wf (e : Entry.fat_dir_entry_t) : Prop := {
  ew_name : length (Entry.name e) = 11%nat;
  ew_numbers : Forall2 fits Entry.widths (Entry.numbers e) }.

Lemma parse_entry e : entry_wf e -> Entry.parse (Entry.bytes e) = e.
Proof.
  intros [Hn Hf]. unfold Entry.parse, Entry.bytes. rewrite (drop_app_length' _ _ 11), (take_app_length' _ _ 11) by done.
  rewrite <- (app_nil_r (pack _ _)), unpack_pack by done. by destruct e.
Qed.

Lemma make_wf nm attr c size :
  length nm = 11%nat -> fits 1 attr -> 0 <= c < 2 ^ 32 -> fits 4 size -> entry_wf (Entry.make nm attr c size).
Proof.
  intros Hn Ha Hc Hs. split; [done|]. change 0xFFFF with (Z.ones 16). unfold fits in *. cbn [Entry.numbers Entry.make Entry.attributes].
  assert (forall z, 0 <= Z.land z (Z.ones 16) < 2 ^ 16) as Hb by (intros z; rewrite Z.land_ones by lia; apply Z.mod_pos_bound; lia).
  pose proof (Hb c). pose proof (Hb (Z.shiftr c 16)). unfold Entry.widths, Entry.numbers. cbn [Entry.attributes Entry.reserved Entry.creation_time_tenth Entry.creation_time
    Entry.creation_date Entry.last_access_date Entry.first_cluster_high Entry.write_time Entry.write_date Entry.first_cluster_low Entry.file_size Entry.make].
  change 0xFFFF with (Z.ones 16). fits_fields.
Qed.

(** The two halves of the first cluster. *)
Definition entry_cluster (e : Entry.fat_dir_entry_t) : Z := Z.lor (Entry.first_cluster_low e) (Z.shiftl (Entry.first_cluster_high e) 16).

Lemma make_cluster nm attr c size : 0 <= c < 2 ^ 32 -> entry_cluster (Entry.make nm attr c size) = c.
Proof.
  intros Hc. unfold entry_cluster. cbn [Entry.first_cluster_high Entry.first_cluster_low Entry.make].
  apply Z.bits_inj'. intros n Hn. rewrite Z.lor_spec, Z.shiftl_spec, !Z.land_spec by lia. change 0xFFFF with (Z.ones 16).
  destruct (Z.lt_ge_cases n 16).
  - rewrite (Z.ones_spec_low 16 n), (Z.testbit_neg_r _ (n - 16)) by lia. by rewrite andb_true_r, andb_false_l, orb_false_r.
  - rewrite (Z.ones_spec_high 16 n), andb_false_r, Z.shiftr_spec by lia. cbn [orb]. rewrite Z.sub_add. destruct (Z.lt_ge_cases n 32).
    + by rewrite Z.ones_spec_low, andb_true_r by lia.
    + rewrite Z.ones_spec_high, andb_false_r by lia. rewrite <- (Z.mod_small c (2 ^ 32)) by lia. by rewrite Z.mod_pow2_bits_high.
Qed.

Section dirs.
Context {D Heap : Type} {HK : KernelHeap Heap} (dev : fat_block_device_t D) `{!BlockDevice dev}.
Abbreviation info_t := (@fat_fs_info_t D).
Abbreviation fat_t := (@Fat.fat_t D Heap).

(** ** The search *)
Definition scanned (nm : list byte) (es : list (list byte)) (i : Z) : scan_result :=
  match dir_find nm es with
  | Some (k, e) => Found (Entry.parse e) (i + 32 * Z.of_nat k)
  | None => if existsb ended es then EndOfDirectory else NotHere
  end.

Lemma scan_list_run es : forall bs nm i (m : fat_t) (Q : scan_result -> fat_t -> Prop),
  0 <= i -> drop (Z.to_nat i) bs = mjoin es -> Forall (fun e => length e = 32%nat) es -> length nm = 11%nat ->
  Q (scanned nm es i) m -> wp (scan_entries (length es) bs nm i) Q m.
Proof.
  induction es as [|e es IH]; intros bs nm i m Q Hi Hbs Hes Hnm HQ; cbn [scan_entries length]; [by apply wp_pret|].
  apply Forall_cons in Hes as [He Hes]. cbn [mjoin list_join] in Hbs. pose proof (f_equal length Hbs) as Hlen. rewrite length_drop, length_app, He in Hlen.
  wp_step. eapply may_fail_run; [apply bytes_at_some; lia|]. rewrite Hbs. change (Z.to_nat 32) with 32%nat. rewrite <- He, take_app_length.
  rewrite memcmp_zero by lia. unfold scanned in HQ. cbn [existsb] in HQ. rewrite dir_find_cons in HQ.
  destruct (ended e) eqn:Een; unfold ended in Een; rewrite Een; [by apply wp_pret|]. cbn [orb] in HQ.
  assert (forall Q' : scan_result -> fat_t -> Prop, Q' (scanned nm es (i + 32)) m -> wp (scan_entries (length es) bs nm (i + 32)) Q' m) as Hnext.
  { intros Q' HQ'. apply IH; [lia| |done|done|exact HQ']. rewrite Z2Nat.inj_add, <- drop_drop, Hbs by lia. by apply drop_app_length'. }
  destruct (decide (named nm e)) as [[Hdel Hn]|Hn].
  - unfold deleted in Hdel. rewrite Hdel, bool_decide_eq_true_2 by done. apply wp_pret. by rewrite Z.add_0_r in HQ.
  - assert (Q (scanned nm es (i + 32)) m) as HQ'.
    { unfold scanned. destruct (dir_find nm es) as [[k x]|]; cbn in HQ; [|done]. by replace (i + 32 + 32 * Z.of_nat k) with (i + 32 * Z.of_nat (S k)) by lia. }
    destruct (byte.unsigned _ =? 0xE5) eqn:Ed; [by apply Hnext|]. rewrite bool_decide_eq_false_2; [by apply Hnext|]. intros Hn'. by apply Hn.
Qed.

Lemma entries_join n : forall bs, length bs = (n * 32)%nat -> mjoin (entries_of bs) = bs /\ length (entries_of bs) = n /\ Forall (fun e => length e = 32%nat) (entries_of bs).
Proof.
  intros bs H. unfold entries_of. rewrite H, Nat2Z.inj_mul, Z.div_mul by lia. split; [by apply concat_chunks|]. split.
  - rewrite length_fmap, length_seqZ. lia.
  - apply Forall_fmap, Forall_forall. intros x Hx%elem_of_seqZ. apply length_chunk. lia.
Qed.

Lemma scan_block_run bs n nm (m : fat_t) (Q : scan_result -> fat_t -> Prop) :
  length bs = (n * 32)%nat -> length nm = 11%nat -> Q (scanned nm (entries_of bs) 0) m -> wp (scan_entries n bs nm 0) Q m.
Proof. intros H Hnm HQ. destruct (entries_join n bs H) as (H1 & H2 & H3). rewrite <- H2. by apply scan_list_run. Qed.

(** The result of a search that starts [offset] bytes into the directory. *)
Definition find_result (nm : list byte) (es : list (list byte)) (offset : Z) : Z * ptr (Entry.fat_dir_entry_t * Z) :=
  match dir_find nm es with
  | Some (k, e) => (FAT_SUCCESS, & (Entry.parse e, offset + 32 * Z.of_nat k))
  | None => (FAT_ERROR_NOT_FOUND, NULL)
  end.

Lemma dir_find_lt nm es k e : dir_find nm es = Some (k, e) -> (k < length es)%nat.
Proof.
  unfold dir_find. intros (H & _)%list_find_Some. apply lookup_lt_Some in H.
  assert (length (until_end es) <= length es)%nat; [|lia]. clear. induction es as [|e es IH]; cbn; [done|]. destruct (ended e); cbn; lia.
Qed.

(** The rest of a directory behind a block without the name. *)
Lemma find_result_app nm es1 es2 offset :
  find_result nm (es1 ++ es2) offset =
  match scanned nm es1 0 with
  | Found e off => (FAT_SUCCESS, & (e, offset + off))
  | EndOfDirectory => (FAT_ERROR_NOT_FOUND, NULL)
  | NotHere => find_result nm es2 (offset + 32 * Z.of_nat (length es1))
  end.
Proof.
  unfold find_result, scanned. rewrite dir_find_app. destruct (dir_find nm es1) as [[k e]|]; [done|]. destruct (existsb ended es1); [done|].
  destruct (dir_find nm es2) as [[k e]|]; [|done]. cbn. do 3 f_equal. lia.
Qed.

Lemma scan_chain_run nm n : forall c l offset (Q : _ -> fat_t -> Prop) m,
  volume_ok dev (info m) -> bd_inv (disk m) -> chain (info m) c l -> (length l <= n)%nat -> length nm = 11%nat ->
  0 <= offset -> offset + Z.of_nat (length l) * cluster_size (info m) < 2 ^ 32 ->
  Q (find_result nm (entries_of (file_bytes dev (info m) (disk m) l)) offset) m ->
  wp (scan_chain n c offset nm) Q m.
Proof.
  induction n as [|n IH]; intros c l offset Q m Hv Hd Hc Hl Hnm Ho Hsize HQ; cbn [scan_chain]; wp_step; wp_step;
    (destruct l as [|x l]; [cbn [chain] in Hc; subst c; by apply wp_pret|]); [cbn in Hl; lia|].
  destruct Hc as (-> & Hx & Hc). pose proof Hx as [Hx2 _]. rewrite (proj2 (Z.eqb_neq x 0)), (ok_not_eof dev) by (done || lia). cbn [orb].
  wp_step. apply (read_cluster_run dev); [done..|]. change (negb (0 =? FAT_SUCCESS)) with false. cbn iota.
  pose proof (vo_cluster _ _ Hv) as Hcs. pose proof (vo_spc _ _ Hv) as Hspc. pose proof (length_cluster dev _ _ _ Hv Hd Hx) as Hlen.
  cbn [length] in Hl, Hsize. assert (entries_in (cluster_size (info m)) = Z.to_nat (16 * Fat.sectors_per_cluster (info m))) as He.
  { unfold entries_in. rewrite Hcs. f_equal. symmetry. apply (Z.div_unique_pos _ 32 _ 31); lia. }
  rewrite file_cons, (entries_app (Z.to_nat (16 * Fat.sectors_per_cluster (info m)))), find_result_app in HQ by lia.
  wp_step. rewrite He. apply scan_block_run; [lia|done|]. destruct (entries_join (Z.to_nat (16 * Fat.sectors_per_cluster (info m))) (cluster_bytes dev (info m) (disk m) x)) as (_ & He2 & _); [lia|].
  unfold scanned in *. destruct (dir_find nm (entries_of (cluster_bytes dev (info m) (disk m) x))) as [[k e]|] eqn:E.
  - apply dir_find_lt in E. apply wp_pret. rewrite u32_id by nia. exact HQ.
  - destruct (existsb _ _); [by apply wp_pret|]. wp_step. eapply next_cluster_run; [exact Hv|]. rewrite u32_id by nia.
    apply (IH _ l); [done|done|exact Hc|lia|done|lia|nia|]. replace (offset + cluster_size (info m)) with (offset + 32 * Z.of_nat (length (entries_of (cluster_bytes dev (info m) (disk m) x)))) by lia. exact HQ.
Qed.

(** The root directory of FAT16 lies before the data area. *)
Definition root_start (i : info_t) : Z := reserved_sectors i + num_fats i * fat_size i.
Definition in_root (i : info_t) (c : Z) : bool := bool_decide (type i = FAT_TYPE_FAT16) && (c =? 0).

Lemma scan_root_run nm n : forall sector (Q : _ -> fat_t -> Prop) m,
  volume_ok dev (info m) -> bd_inv (disk m) -> length nm = 11%nat -> 0 <= sector -> sector + Z.of_nat n <= root_dir_sectors (info m) ->
  root_dir_sectors (info m) * 512 < 2 ^ 32 ->
  Q (find_result nm (entries_of (sector_run bd_sector (disk m) (root_start (info m) + sector) (Z.of_nat n))) (sector * 512)) m ->
  wp (scan_root n (root_start (info m)) sector nm) Q m.
Proof.
  induction n as [|n IH]; intros sector Q m Hv Hd Hnm Hs Hn Hsize HQ; cbn [scan_root]; [by apply wp_pret|].
  pose proof (vo_first _ _ Hv) as (F1 & F2 & F3 & F4 & F5). pose proof (vo_data _ _ Hv) as [D1 D2]. pose proof (vo_clusters _ _ Hv) as [C1 _]. pose proof (vo_spc _ _ Hv) as Hspc.
  assert (forall k, 0 < k -> sector + k <= root_dir_sectors (info m) -> in_range dev (root_start (info m) + sector) k) as Hr by (unfold in_range, root_start; intros; nia).
  wp_step. wp_step. pose proof (Hr 1 ltac:(lia) ltac:(lia)) as Hr1. wp_step. rewrite u32_id by (unfold in_range in Hr1; lia).
  apply (device_read_run dev); [apply Hv|done..|]. change (negb (0 =? FAT_SUCCESS)) with false. cbn iota. rewrite (vo_sector _ _ Hv).
  replace (Z.of_nat (S n)) with (1 + Z.of_nat n) in HQ by lia. rewrite (sector_run_app dev) in HQ by lia.
  set (bs := sector_run bd_sector (disk m) (root_start (info m) + sector) 1) in *.
  assert (length bs = (16 * 32)%nat) as Hbs by (apply (length_sector_run dev); done).
  rewrite (entries_app 16), find_result_app in HQ by done. wp_step. change (entries_in 512) with 16%nat. apply scan_block_run; [done|done|].
  destruct (entries_join 16 bs Hbs) as (_ & He & _). unfold scanned in *. destruct (dir_find nm (entries_of bs)) as [[k e]|] eqn:E.
  - apply dir_find_lt in E. apply wp_pret. rewrite (u32_id (sector * 512)), u32_id by lia. exact HQ.
  - destruct (existsb _ _); [by apply wp_pret|]. apply IH; [done|done|done|lia|lia|done|].
    rewrite He in HQ. replace (sector * 512 + 32 * Z.of_nat 16) with ((sector + 1) * 512) in HQ by lia. by rewrite <- Z.add_assoc in HQ.
Qed.

(** The bytes of a directory: the root of FAT16, or a chain. *)
Definition dir_bytes (i : info_t) (d : D) (c : Z) (l : list Z) : list byte :=
  if in_root i c then sector_run bd_sector d (root_start i) (root_dir_sectors i) else file_bytes dev i d l.

Record dir_ok (i : info_t) (c : Z) (l : list Z) : Prop := {
  do_chain : chain i c l;
  do_root : in_root i c = true -> root_dir_sectors i * 512 < 2 ^ 32;
  do_size : Z.of_nat (length l) * cluster_size i < 2 ^ 32 }.

Lemma find_run c l name (Q : _ -> fat_t -> Prop) m :
  volume_ok dev (info m) -> bd_inv (disk m) -> dir_ok (info m) c l ->
  Q (find_result (fat_name_to_83 name) (entries_of (dir_bytes (info m) (disk m) c l)) 0) m ->
  wp (fat_find_dir_entry c name) Q m.
Proof.
  intros Hv Hd [Hc Hroot Hsize] HQ. unfold fat_find_dir_entry. wp_step. wp_step. unfold dir_bytes, in_root in *.
  pose proof (vo_first _ _ Hv) as (F1 & F2 & F3 & F4 & F5). pose proof (vo_data _ _ Hv) as [D1 D2]. pose proof (vo_clusters _ _ Hv) as [C1 _]. pose proof (vo_spc _ _ Hv) as Hspc.
  destruct (bool_decide _ && _).
  - rewrite (u32_id (num_fats (info m) * _)), u32_id by nia. apply scan_root_run; [done|done|apply length_name_83|lia|lia|by apply Hroot|].
    rewrite Z.add_0_r, Z2Nat.id by lia. exact HQ.
  - apply (scan_chain_run _ _ c l); [done|done|done| |apply length_name_83|lia|lia|exact HQ].
    pose proof (chain_short _ _ _ C1 Hc). unfold chain_fuel. lia.
Qed.

(** ** Creating *)
(** An inode of the directory that starts at cluster [c]. *)
Definition dir_inode (dir : vfs_inode) (c : Z) : Prop :=
  exists p x, i_private dir = & (p, x) /\ is_directory x = true /\ first_cluster x = c.
Definition listed (i : info_t) (d : D) (c : Z) (l : list Z) (name : list byte) : option (nat * list byte) :=
  dir_find (fat_name_to_83 name) (entries_of (dir_bytes i d c l)).

Lemma eof_limit dev' (i : info_t) : volume_ok dev' i -> 0 <= eof_value i < entry_limit i.
Proof. intros Hv. unfold eof_value, entry_limit. case_bool_decide; cbv; done. Qed.

(** The three ways a creation starts: the name is taken, no cluster is free,
    or the first free one is taken into use. *)
Lemma taken_run c l name m (Q : Z * ptr (Entry.fat_dir_entry_t * Z) -> fat_t -> Prop) :
  volume_ok dev (info m) -> bd_inv (disk m) -> dir_ok (info m) c l ->
  (forall x, listed (info m) (disk m) c l name = Some x -> Q (FAT_SUCCESS, & (Entry.parse x.2, 0 + 32 * Z.of_nat x.1)) m) ->
  (listed (info m) (disk m) c l name = None -> Q (FAT_ERROR_NOT_FOUND, NULL) m) ->
  wp (fat_find_dir_entry c name) Q m.
Proof.
  intros Hv Hd Hdir H1 H2. apply (find_run _ l); [done..|]. unfold find_result. fold (listed (info m) (disk m) c l name).
  destruct (listed _ _ _ _ _) as [[k x]|]; [by apply (H1 (k, x))|by apply H2].
Qed.

Definition created (c : Z) (l : list Z) (name : list byte) (rc : Z) (m m' : fat_t) : Prop :=
  (rc = VFS_ERROR_EXISTS /\ m' = m /\ is_Some (listed (info m) (disk m) c l name)) \/
  (listed (info m) (disk m) c l name = None /\
   (rc = VFS_ERROR_NO_SPACE /\ m' = m /\ no_free (info m) \/
    rc = VFS_SUCCESS /\ exists new i', first_free (info m) new /\ stored (info m) new (eof_value (info m)) i' /\ m' = set_info i' m)).

Lemma fat_create_run dir c l name m :
  volume_ok dev (info m) -> bd_inv (disk m) -> dir_ok (info m) c l -> dir_inode dir c ->
  wp (fat_create dir name) (fun rc m' => created c l name rc m m') m.
Proof.
  intros Hv Hd Hdir (p & x & Hp & Hx & Hc). unfold fat_create. rewrite Hp, Hx, Hc. cbn [negb]. wp_step. apply (taken_run c l); [done..| |].
  - intros e He. cbn. apply wp_pret. left. split; [done|]. split; [done|]. by rewrite He.
  - intros Hnone. cbn. wp_step. eapply wp_weaken; [by eapply find_free_run|]. intros r m' (-> & [[-> Hfree]|[Hr Hfirst]]).
    + apply wp_pret. right. split; [done|]. by left.
    + rewrite (proj2 (Z.eqb_neq r 0)) by done. wp_step. wp_step. wp_step. pose proof Hfirst as (Hok & _).
      eapply wp_weaken; [apply (set_cluster_run dev); [done|done|by eapply eof_limit]|]. intros rc m' (-> & i' & -> & Hst).
      change (negb (FAT_SUCCESS =? FAT_SUCCESS)) with false. cbn iota. apply wp_pret. right. split; [done|]. right. split; [done|]. by exists r, i'.
Qed.

(** ** The new directory *)
Definition dir_entry_of (name : list byte) (c : Z) : list byte := Entry.bytes (Entry.make (pad 11 name) FAT_ATTR_DIRECTORY c 0).

Lemma length_dir_entry name c : length (dir_entry_of name c) = 32%nat.
Proof. unfold dir_entry_of, Entry.bytes. rewrite length_app, length_pack by done. cbn [Entry.name Entry.make]. by rewrite length_pad. Qed.

Lemma length_directory (i : info_t) self parent : volume_ok dev i -> Z.of_nat (length (directory_cluster i self parent)) = cluster_size i.
Proof.
  intros Hv. pose proof (vo_cluster _ _ Hv). pose proof (vo_spc _ _ Hv). unfold directory_cluster. fold (dir_entry_of [dot] self) (dir_entry_of [dot; dot] parent).
  rewrite length_zero_padded; [lia|]. rewrite length_app, !length_dir_entry. lia.
Qed.

Definition made (c : Z) (l : list Z) (name : list byte) (rc : Z) (m m' : fat_t) : Prop :=
  (rc = VFS_ERROR_EXISTS /\ m' = m /\ is_Some (listed (info m) (disk m) c l name)) \/
  (listed (info m) (disk m) c l name = None /\
   (rc = VFS_ERROR_NO_SPACE /\ m' = m /\ no_free (info m) \/
    exists new i' d, first_free (info m) new /\ m' = set_info i' (set_disk d m) /\ bd_inv d /\ disk_kept dev (info m) [new] (disk m) d /\
      (rc = VFS_ERROR_IO_ERROR /\ stored (info m) new 0 i' \/
       rc = VFS_SUCCESS /\ stored (info m) new (eof_value (info m)) i' /\
       cluster_bytes dev (info m) d new = directory_cluster (info m) new c))).

Lemma stored_twice (i : info_t) c v i1 w i2 : stored i c v i1 -> stored i1 c w i2 -> stored i c w i2.
Proof.
  intros (S1 & _ & L1 & P1 & E1) (S2 & D2 & L2 & P2 & E2). split; [by eapply same_volume_trans|]. split; [done|]. split; [by rewrite L2|]. split.
  - intros p bs H. destruct (P1 p bs H) as [bs1 H1]. by apply (P2 p bs1).
  - intros c' Hc'. rewrite E2 by (destruct S1 as (? & ? & ? & ->); exact Hc'). case_decide; [done|]. rewrite E1 by done. by rewrite decide_False.
Qed.

Lemma fat_mkdir_run dir c l name m :
  volume_ok dev (info m) -> bd_inv (disk m) -> dir_ok (info m) c l -> dir_inode dir c ->
  wp (fat_mkdir dir name) (fun rc m' => made c l name rc m m') m.
Proof.
  intros Hv Hd Hdir (p & x & Hp & Hx & Hc). unfold fat_mkdir. rewrite Hp, Hx, Hc. cbn [negb]. wp_step. apply (taken_run c l); [done..| |].
  { intros e He. cbn. apply wp_pret. left. split; [done|]. split; [done|]. by rewrite He. }
  intros Hnone. cbn. wp_step. eapply wp_weaken; [by eapply find_free_run|]. intros r m' (-> & [[-> Hfree]|[Hr Hfirst]]).
  { apply wp_pret. right. split; [done|]. by left. }
  rewrite (proj2 (Z.eqb_neq r 0)) by done. wp_step. wp_step. wp_step. pose proof Hfirst as (Hok & _).
  eapply wp_weaken; [apply (set_cluster_run dev); [done|done|by eapply eof_limit]|]. intros rc m' (-> & i' & -> & Hst).
  change (negb (FAT_SUCCESS =? FAT_SUCCESS)) with false. cbn iota. wp_step. pose proof (volume_stored _ _ _ _ _ Hv Hst) as Hv'.
  assert (fat_cluster_to_sector (info m) r = fat_cluster_to_sector i' r /\ Fat.sectors_per_cluster (info m) = Fat.sectors_per_cluster i' /\
    cluster_ok i' r /\ cluster_size i' = cluster_size (info m) /\ (forall d, cluster_bytes dev i' d r = cluster_bytes dev (info m) d r) /\
    forall d d', disk_kept dev i' [r] d d' -> disk_kept dev (info m) [r] d d') as (-> & -> & Hok' & Hcs & Hcb & Hkept)
    by (destruct Hst as ((? & ? & ? & ->) & _); done).
  apply (write_cluster_run dev r _ _ (set_info i' m)); [done|done|done|cbn [info set_info]; rewrite Hcs; by apply length_directory|]. intros rc d Hd' Hk Hdone _.
  destruct (Z.eqb_spec rc FAT_SUCCESS) as [->|Hrc]; cbn [negb].
  - apply wp_pret. right. split; [done|]. right. exists r, i', d. split; [done|]. split; [done|]. split; [done|]. split; [by apply Hkept|]. right.
    split; [done|]. split; [done|]. rewrite <- Hcb. by apply Hdone.
  - wp_step. eapply wp_weaken; [apply (set_cluster_run dev r FAT_CLUSTER_FREE (set_disk d (set_info i' m))); [done|done|]|].
    { pose proof (limit_positive (info (set_disk d (set_info i' m)))). unfold FAT_CLUSTER_FREE. lia. }
    intros rc' m' (-> & i2 & -> & Hst2). apply wp_pret. right. split; [done|]. right. exists r, i2, d. split; [done|]. split; [done|]. split; [done|].
    split; [by apply Hkept|]. left. split; [done|]. by eapply stored_twice.
Qed.

(** ** What follows a creation *)
(** A directory whose clusters are in use. *)
Definition in_use (i : info_t) (l : list Z) : Prop := forall x, x ∈ l -> entry_of i x <> 0.

Lemma dir_stored (i i' : info_t) c l new v :
  dir_ok i c l -> in_use i l -> first_free i new -> stored i new v i' -> dir_ok i' c l /\ forall d name, listed i' d c l name = listed i d c l name.
Proof.
  intros [Hc Hr Hs] Hu (_ & Hnew & _) (Hsame & _ & _ & _ & He).
  assert (chain i' c l) as Hc'.
  { apply (cluster_chain_ext i); [done| |done]. intros x Hx. pose proof (chain_ok _ _ _ Hc) as Hok. rewrite Forall_forall in Hok. destruct (Hok x Hx).
    rewrite He by lia. rewrite decide_False; [done|]. intros ->. by apply (Hu new). }
  destruct Hsame as (t & s & d & ->). done.
Qed.

(** A created file cannot be found. *)
Lemma created_missing c l name m m' :
  volume_ok dev (info m) -> bd_inv (disk m) -> dir_ok (info m) c l -> in_use (info m) l -> created c l name VFS_SUCCESS m m' ->
  wp (fat_find_dir_entry c name) (fun r m'' => m'' = m' /\ r = (FAT_ERROR_NOT_FOUND, NULL)) m'.
Proof.
  intros Hv Hd Hdir Hu [(? & _)|(Hnone & [(? & _)|(_ & new & i' & Hfree & Hst & ->)])]; [done..|].
  destruct (dir_stored _ _ _ _ _ _ Hdir Hu Hfree Hst) as [Hdir' Hl]. apply (taken_run c l); cbn [info disk set_info].
  - by eapply volume_stored.
  - done.
  - done.
  - intros x. by rewrite Hl, Hnone.
  - done.
Qed.

(** The two entries of a new directory. *)
Lemma new_entries (i : info_t) self parent : volume_ok dev i ->
  exists es, entries_of (directory_cluster i self parent) = dir_entry_of [dot] self :: dir_entry_of [dot; dot] parent :: es /\ until_end es = [].
Proof.
  intros Hv. unfold directory_cluster, zero_padded. fold (dir_entry_of [dot] self) (dir_entry_of [dot; dot] parent).
  rewrite <- !app_assoc, !entries_cons by apply length_dir_entry. eexists. split; [reflexivity|].
  set (n := (_ - _)%nat). clearbody n. unfold entries_of, zeros. rewrite length_replicate. destruct (Z.lt_ge_cases (Z.of_nat n) 32).
  - by rewrite Z.div_small by lia.
  - rewrite seqZ_cons by (apply Z.div_str_pos; lia). cbn [fmap list_fmap until_end]. 
    assert (ended (chunk 32 (replicate n Byte.x00) 0) = true) as ->; [|done].
    unfold chunk. change (Z.to_nat 0 * 32)%nat with 0%nat. rewrite drop_0, take_replicate, Nat.min_l by lia. done.
Qed.

(** ".." finds the entry "."; "." finds none. *)
Lemma new_directory_names i self parent d :
  volume_ok dev i -> dir_ok i self [self] -> cluster_bytes dev i d self = directory_cluster i self parent ->
  listed i d self [self] [dot; dot] = Some (0%nat, dir_entry_of [dot] self) /\ listed i d self [self] [dot] = None.
Proof.
  intros Hv [(_ & [Hs _] & _) _ _] Hb. unfold listed, dir_bytes, in_root. rewrite (proj2 (Z.eqb_neq self 0)), andb_false_r by lia.
  rewrite file_cons, app_nil_r, Hb. destruct (new_entries i self parent Hv) as (es & -> & Hes).
  assert (forall name c, take 11 (dir_entry_of name c) = pad 11 name) as Ht.
  { intros name c. unfold dir_entry_of, Entry.bytes. apply take_app_length'. cbn [Entry.name Entry.make]. by rewrite length_pad. }
  assert (forall name c, ended (dir_entry_of (dot :: name) c) = false /\ deleted (dir_entry_of (dot :: name) c) = false) as He by done.
  rewrite !dir_find_cons, !(proj1 (He _ _)). split.
  - rewrite decide_True; [done|]. split; [apply He|]. by rewrite Ht.
  - rewrite !decide_False by (intros [_ H]; rewrite Ht in H; discriminate H). unfold dir_find. by rewrite Hes.
Qed.

(** The new directory is a volume directory of one cluster. *)
Lemma made_directory c l name m m' :
  volume_ok dev (info m) -> cluster_size (info m) < 2 ^ 32 -> made c l name VFS_SUCCESS m m' ->
  exists new, first_free (info m) new /\ volume_ok dev (info m') /\ bd_inv (disk m') /\ dir_ok (info m') new [new] /\
    cluster_bytes dev (info m') (disk m') new = directory_cluster (info m') new c.
Proof.
  intros Hv Hcs [(? & _)|(_ & [(? & _)|(new & i' & d & Hfree & -> & Hd & _ & [(? & _)|(_ & Hst & Hb)])])]; [done..|].
  exists new. split; [done|]. pose proof (volume_stored _ _ _ _ _ Hv Hst) as Hv'. split; [exact Hv'|]. split; [exact Hd|].
  destruct Hfree as ((H1 & H2) & _). destruct Hst as ((t & s & dd & ->) & _ & _ & _ & He). cbn [info disk set_info set_disk] in *. split; [split|exact Hb].
  - split; [done|]. split; [done|]. unfold next_of. rewrite decide_True by done. rewrite He, decide_True by (done || lia).
    unfold fat_is_cluster_eof, eof_value. cbn [type set_table]. destruct (vo_type _ _ Hv) as [E|E]; rewrite E; done.
  - unfold in_root. rewrite (proj2 (Z.eqb_neq new 0)), andb_false_r by lia. done.
  - cbn [length]. change (cluster_size (set_table t s dd (info m))) with (cluster_size (info m)). lia.
Qed.

(** ** Looking up *)
(** The inode of an entry, at [p] with its info at [q]. *)
Definition inode_of (e : Entry.fat_dir_entry_t) (p q : Z) : vfs_inode :=
  let dir := negb (Z.land (Entry.attributes e) FAT_ATTR_DIRECTORY =? 0) in
  {| i_addr := p; i_mode := if dir then VFS_FILE_TYPE_DIRECTORY else VFS_FILE_TYPE_REGULAR; i_size := Entry.file_size e;
     i_op := if dir then & fat_dir_inode_ops else NULL; i_fop := if dir then NULL else & fat_file_ops;
     i_private := & (q, {| first_cluster := entry_cluster e; current_cluster := 0; cluster_offset := 0; is_directory := dir;
                           dir_entry := & e |}) |}.

(** What a lookup makes of the heap: three objects, or what it allocated
    given back, or (the last allocation failed) no return at all. *)
Definition lookup_objects (name : list byte) (e : Entry.fat_dir_entry_t) (h : Heap) : option (ptr vfs_dentry * Heap) :=
  match KernelHeap.kmalloc sizeof_vfs_dentry h with
  | (NULL, h) => Some (NULL, h)
  | (& p, h) =>
      match KernelHeap.kmalloc sizeof_vfs_inode h with
      | (NULL, h) => Some (NULL, KernelHeap.kfree p h)
      | (& q, h) =>
          match KernelHeap.kmalloc sizeof_fat_inode_info h with
          | (NULL, _) => None
          | (& r, h) => Some (& {| d_addr := p; d_name := take 254 name; d_inode := & (inode_of e q r) |}, h)
          end
      end
  end.

Lemma destroy_never_returns n : forall inode (m : fat_t), fat_destroy_inode n inode m = None.
Proof. induction n as [|n IH]; intros inode m; [done|]. cbn. destruct (i_private inode) as [[p x]|]; cbn; apply IH. Qed.

Lemma find_value c l name (m : fat_t) :
  volume_ok dev (info m) -> bd_inv (disk m) -> dir_ok (info m) c l ->
  fat_find_dir_entry c name m = Some (find_result (fat_name_to_83 name) (entries_of (dir_bytes (info m) (disk m) c l)) 0, m).
Proof.
  intros Hv Hd Hdir.
  pose proof (find_run c l name (fun r m' => r = find_result (fat_name_to_83 name) (entries_of (dir_bytes (info m) (disk m) c l)) 0 /\ m' = m)
    m Hv Hd Hdir (conj eq_refl eq_refl)) as H.
  apply wp_returns in H as (r & m' & E & -> & ->). exact E.
Qed.

Lemma fat_lookup_value dir c l name (m : fat_t) :
  volume_ok dev (info m) -> bd_inv (disk m) -> dir_ok (info m) c l -> dir_inode dir c ->
  fat_lookup dir name m =
  match listed (info m) (disk m) c l name with
  | None => Some (NULL, m)
  | Some (_, e) => (fun r => (r.1, set_heap r.2 m)) <$> lookup_objects name (Entry.parse e) (heap m)
  end.
Proof.
  intros Hv Hd Hdir (p & x & Hp & Hx & Hc). unfold fat_lookup. rewrite Hp, Hx, Hc. cbn [negb]. unfold pbind at 1. rewrite (find_value c l) by done.
  unfold find_result. fold (listed (info m) (disk m) c l name). destruct (listed _ _ _ _ _) as [[k e]|]; [|done].
  change (negb (FAT_SUCCESS =? FAT_SUCCESS)) with false. cbn iota. unfold lookup_objects, vfs_alloc_dentry, fat_alloc_inode, vfs_alloc_inode, Fat.kmalloc.
  unfold pbind, pcall. cbn [heap]. destruct (KernelHeap.kmalloc sizeof_vfs_dentry (heap m)) as [[a|] h1]; cbn [pret heap set_heap]; [|done].
  destruct (KernelHeap.kmalloc sizeof_vfs_inode h1) as [[b|] h2]; cbn [pret heap set_heap]; [|done].
  destruct (KernelHeap.kmalloc sizeof_fat_inode_info h2) as [[g|] h3]; cbn [pret heap set_heap]; [done|].
  unfold vfs_free_inode. by rewrite destroy_never_returns.
Qed.
End dirs.
