(* ===== verification/FatSpec.v ===== *)
(** * Mounting, unmounting and what the operations add up to

    [fat_mount] and [fat_kill_sb] on any device, and the properties of the
    file system. *)
From Stdlib Require Import ZArith Lia List.
From S2P Require Import Prelude BlockDevice StateMonad KernelHeap Fat FatFileSpec FatDirSpec.
Open Scope Z_scope.
Open Scope c_scope.
Open Scope prog_scope.

(** ** The boot sector *)
Record boot_wf (b : Boot.fat_boot_sector_t) : Prop := {
  bw_jump : length (Boot.jump_boot b) = 3%nat;
  bw_oem : length (Boot.oem_name b) = 8%nat;
  bw_numbers : Forall2 fits Boot.widths (Boot.numbers b);
  bw_extension : length (Boot.extension b) = 474%nat;
  bw_signature : fits 2 (Boot.boot_sector_signature b) }.

Lemma length_boot b : boot_wf b -> length (Boot.bytes b) = 512%nat.
Proof. intros [H1 H2 H3 H4 _]. unfold Boot.bytes. rewrite !length_app, H1, H2, H4, length_pack, length_le_split by done. done. Qed.

Lemma parse_boot b : boot_wf b -> Boot.parse (Boot.bytes b) = b.
Proof.
  intros [H1 H2 H3 H4 H5]. unfold Boot.parse, Boot.bytes.
  assert (length (pack Boot.widths (Boot.numbers b)) = 25%nat) as H6 by (by rewrite length_pack).
  rewrite (app_assoc (Boot.jump_boot b)), (drop_app_length' _ _ 11), unpack_pack by (done || by rewrite length_app, H1, H2).
  rewrite <- (app_assoc (Boot.jump_boot b)), (take_app_length' _ _ 3), (drop_app_length' _ _ 3), (take_app_length' _ _ 8) by done.
  rewrite (app_assoc (Boot.jump_boot b)), (app_assoc (_ ++ _)), (drop_app_length' _ _ 36), (take_app_length' _ _ 474) by (done || by rewrite !length_app, H1, H2, H6).
  rewrite (app_assoc ((_ ++ _) ++ _)), (drop_app_length' _ _ 510), take_ge by (rewrite ?length_le_split, ?length_app, ?H1, ?H2, ?H6, ?H4; done).
  rewrite le_combine_split, Z.mod_small by exact H5. by destruct b.
Qed.

(** ** The heap *)
(** The objects of sizes [ns], allocated one after the other. *)
Fixpoint kmallocs {Heap} {HK : KernelHeap Heap} (ns : list Z) (h : Heap) : option (list Z * Heap) :=
  match ns with
  | [] => Some ([], h)
  | n :: ns =>
      match KernelHeap.kmalloc n h with
      | (NULL, _) => None
      | (& p, h) => match kmallocs ns h with Some (ps, h) => Some (p :: ps, h) | None => None end
      end
  end.

Section mount.
Context {D Heap : Type} {HK : KernelHeap Heap} {HL : KernelHeapLaws Heap} (dev : fat_block_device_t D) `{!BlockDevice dev}.
Abbreviation info_t := (@fat_fs_info_t D).
Abbreviation fat_t := (@Fat.fat_t D Heap).

Lemma kmalloc_run n (Q : ptr Z -> fat_t -> Prop) m :
  (forall p h, KernelHeap.kmalloc n (heap m) = (p, h) -> Q p (set_heap h m)) -> wp (Fat.kmalloc n) Q m.
Proof. intros HQ. unfold wp, Fat.kmalloc, pcall. destruct (KernelHeap.kmalloc n (heap m)) as [p h] eqn:E. by apply HQ. Qed.

Lemma kfree_run p (Q : unit -> fat_t -> Prop) m : Q tt (set_heap (KernelHeap.kfree p (heap m)) m) -> wp (Fat.kfree p) Q m.
Proof. done. Qed.

(** ** A volume that is not FAT16 or FAT32 is refused *)
Definition refused (b : Boot.fat_boot_sector_t) : Prop :=
  fat_is_valid_boot_sector b = false \/ fat_determine_type b = FAT_TYPE_FAT12 \/ fat_determine_type b = FAT_TYPE_UNKNOWN.

Lemma mount_refused_run (m : fat_t) :
  0 < BlockDevice.total_sectors dev -> bd_inv (disk m) -> refused (Boot.parse (bd_sector (disk m) 0)) ->
  wp (fat_mount (& dev)) (fun r m' => r = NULL /\ live (heap m') = live (heap m) /\ disk m' = disk m /\ fs_supers m' = fs_supers m) m.
Proof.
  intros Htot Hd Href. unfold fat_mount. wp_step. apply kmalloc_run. intros [p|] h E.
  2:{ apply wp_pret. apply kmalloc_full in E. done. }
  apply kmalloc_live in E as [Hp Hl]. wp_step. wp_step. wp_step. apply (device_read_run dev); [done..|unfold in_range; lia|]. cbn [disk set_info set_heap]. rewrite (sector_run_1 dev). change (negb (0 =? FAT_SUCCESS)) with false. cbn iota.
  pose proof (bd_sector_len (disk m) 0 Hd ltac:(lia)) as Hlen. apply wp_pbind. eapply may_fail_run; [apply bytes_at_some; lia|].
  change (Z.to_nat 0) with 0%nat. rewrite drop_0, take_ge by lia. set (b := Boot.parse _) in *.
  assert (forall m' : fat_t, heap m' = h -> disk m' = disk m -> fs_supers m' = fs_supers m ->
    wp (Fat.kfree p;; pret NULL) (fun (r : ptr vfs_superblock) m' => r = NULL /\ live (heap m') = live (heap m) /\ disk m' = disk m /\ fs_supers m' = fs_supers m) m') as Hend.
  { intros m' <- H2 H3. wp_step. apply kfree_run, wp_pret. cbn [heap disk set_heap fs_supers]. split; [done|]. split; [|done].
    rewrite kfree_live; [|rewrite Hl; set_solver]. rewrite Hl. set_solver. }
  destruct (fat_is_valid_boot_sector b) eqn:Hb; cbn [negb]; [|by apply Hend].
  destruct Href as [H|H]; [congruence|]. rewrite (proj2 (orb_true_iff _ _)); [by apply Hend|].
  destruct H as [-> | ->]; [right|left]; by apply bool_decide_eq_true_2.
Qed.

(** ** Mounting *)
Definition mount_sizes (i : info_t) : list Z :=
  [sizeof_fat_fs_info; u32 (fat_size i * Fat.sector_size i); sizeof_vfs_superblock; sizeof_vfs_inode; sizeof_fat_inode_info; sizeof_vfs_dentry].

(** The boot sector and the geometry of the volume on a device. *)
Definition boot_of (d : D) : Boot.fat_boot_sector_t := Boot.parse (bd_sector d 0).
Definition volume_of (d : D) : info_t := geometry (fat_determine_type (boot_of d)) (boot_of d) (& dev).
(** A boot sector [fat_mount] accepts, whose table is on the device. *)
Record mountable (d : D) : Prop := {
  mo_inv : bd_inv d;
  mo_valid : fat_is_valid_boot_sector (boot_of d) = true;
  mo_type : fat_determine_type (boot_of d) = FAT_TYPE_FAT16 \/ fat_determine_type (boot_of d) = FAT_TYPE_FAT32;
  mo_table : in_range dev (reserved_sectors (volume_of d)) (fat_size (volume_of d)) }.

(** The table as the first copy on the device has it. *)
Definition disk_table (i : info_t) (d : D) : list byte := sector_run bd_sector d (reserved_sectors i) (fat_size i).
Definition loaded (i : info_t) (t : Z) (d : D) : info_t := set_table (& (t, disk_table i d)) (u32 (fat_size i * Fat.sector_size i)) false i.

Definition root_dentry (i : info_t) (n q r : Z) : vfs_dentry :=
  {| d_addr := r; d_name := [Byte.x2f];
     d_inode := & {| i_addr := n; i_mode := VFS_FILE_TYPE_DIRECTORY; i_size := 0; i_op := & fat_dir_inode_ops; i_fop := NULL;
                     i_private := & (q, {| first_cluster := if bool_decide (type i = FAT_TYPE_FAT32) then root_cluster i else 0;
                                           current_cluster := 0; cluster_offset := 0; is_directory := true; dir_entry := NULL |}) |} |}.



(** ** Unmounting *)
Lemma fat_write_run_sectors s n bs (Q : Z -> fat_t -> Prop) m `{!ReliableDevice dev} :
  block_device (info m) = & dev -> bd_inv (disk m) -> in_range dev s n -> length bs = (Z.to_nat n * 512)%nat ->
  (forall d, bd_inv d -> (forall j, 0 <= j < BlockDevice.total_sectors dev -> ~ (s <= j < s + n) -> bd_sector d j = bd_sector (disk m) j) ->
     sector_run bd_sector d s n = bs -> Q 0 (set_disk d m)) ->
  wp (fat_write_sectors s n bs) Q m.
Proof.
  intros Hv Hd Hr Hbs HQ. unfold wp, fat_write_sectors. rewrite Hv, bd_write_eq.
  pose proof (bd_write_inv (disk m) _ _ bs Hd Hr Hbs) as Hinv. pose proof (bd_write_ok (disk m) _ _ bs Hd Hr Hbs) as [W1 _ W3].
  pose proof (bd_write_zero (disk m) _ _ bs Hd Hr Hbs) as Hz. destruct (bd_write (disk m) s n bs) as [rc d]. cbn [fst snd] in *. subst rc.
  apply HQ; [done|exact W1|]. destruct Hr as (R1 & R2 & R3). apply (sector_run_chunks dev); [done|lia|]. intros j Hj. by apply W3.
Qed.

(** The sectors of the copies [a .. a + n - 1] of the table. *)
Definition copy_start (i : info_t) (k : Z) : Z := reserved_sectors i + k * fat_size i.

Lemma write_copies_run n `{!ReliableDevice dev} : forall a bs (Q : Z -> fat_t -> Prop) m,
  let i := info m in
  volume_ok dev i -> bd_inv (disk m) -> 0 < fat_size i -> length bs = (Z.to_nat (fat_size i) * 512)%nat -> 0 <= a -> a + Z.of_nat n <= num_fats i ->
  (forall d, bd_inv d -> (forall j, 0 <= j < BlockDevice.total_sectors dev -> ~ (copy_start i a <= j < copy_start i (a + Z.of_nat n)) -> bd_sector d j = bd_sector (disk m) j) ->
     (forall k, a <= k < a + Z.of_nat n -> sector_run bd_sector d (copy_start i k) (fat_size i) = bs) -> Q FAT_SUCCESS (set_disk d m)) ->
  wp (write_copies n a (reserved_sectors i) (fat_size i) bs) Q m.
Proof.
  induction n as [|n IH]; intros a bs Q m i Hv Hd Hfs Hbs Ha Hn HQ; cbn [write_copies].
  { apply wp_pret. replace m with (set_disk (disk m) m) by by destruct m. apply HQ; [done|done|]. intros k Hk. lia. }
  pose proof (vo_first _ _ Hv) as (F1 & F2 & F3 & F4 & F5). pose proof (vo_data _ _ Hv) as [D1 D2]. pose proof (vo_clusters _ _ Hv) as [C1 _]. pose proof (vo_spc _ _ Hv) as Hspc.
  fold i in F1, F2, F3, F4, F5, D1, C1, Hspc. assert (in_range dev (copy_start i a) (fat_size i)) as Hr by (unfold in_range, copy_start; nia). pose proof Hr as (R1 & R2 & R3).
  wp_step. rewrite (u32_id (a * fat_size i)), u32_id by (unfold copy_start in *; nia). change (_ + a * fat_size i) with (copy_start i a).
  apply fat_write_run_sectors; [done|apply Hv|done|done|done|]. intros d1 Hd1 Hout1 Hin1. change (negb (0 =? FAT_SUCCESS)) with false. cbn iota.
  apply (IH (a + 1) bs Q (set_disk d1 m)); cbn [info disk set_disk]; [done|done|done|done|lia|fold i; lia|]. fold i. intros d Hd' Hout Hin.
  assert (forall k, copy_start i (k + 1) = copy_start i k + fat_size i) as Hnext by (intros; unfold copy_start; lia).
  apply HQ; [done| |].
  - intros j Hj Hnot. rewrite Hout; [apply Hout1; [done|]|done|]; intros Hin'; apply Hnot; unfold copy_start in *; nia.
  - intros k Hk. destruct (decide (k = a)) as [->|Hne]; [|apply Hin; lia]. rewrite <- Hin1. apply (sector_run_ext dev). intros j Hj.
    apply Hout; [lia|]. rewrite Hnext. lia.
Qed.

(** What unmounting leaves on the device: every copy of the table, if it was
    changed, and everything else as it was. *)
Record flushed (i : info_t) (d d' : D) : Prop := {
  fl_inv : bd_inv d';
  fl_outside j : 0 <= j < BlockDevice.total_sectors dev -> ~ (copy_start i 0 <= j < copy_start i (num_fats i)) -> bd_sector d' j = bd_sector d j;
  fl_copies k : fat_dirty i = true -> 0 <= k < num_fats i -> sector_run bd_sector d' (copy_start i k) (fat_size i) = table_of i;
  fl_clean : fat_dirty i = false -> d' = d }.

(** The table in memory is a whole copy. *)
Definition table_whole (i : info_t) : Prop := length (table_of i) = (Z.to_nat (fat_size i) * 512)%nat.

Lemma table_address i : volume_ok dev i -> exists p, fat_table i = & (p, table_of i).
Proof. intros Hv. destruct (vo_table _ _ Hv) as (p & bs & Ht & _). exists p. unfold table_of. by rewrite Ht. Qed.

Lemma table_sectors i : volume_ok dev i -> table_whole i -> 0 < fat_size i.
Proof.
  intros Hv Hw. destruct (vo_table _ _ Hv) as (p & bs & Ht & Hl). unfold table_whole, table_of in Hw. rewrite Ht in Hw. destruct (vo_clusters _ _ Hv) as [C _].
  assert (0 < Z.of_nat (entry_width i)) by (unfold entry_width; case_bool_decide; lia). nia.
Qed.

Lemma kill_run `{!ReliableDevice dev} sb root p (m : fat_t) (Q : unit -> fat_t -> Prop) :
  volume_ok dev (info m) -> bd_inv (disk m) -> table_whole (info m) -> s_root sb = & root -> fat_table (info m) = & (p, table_of (info m)) ->
  (forall d i', flushed (info m) (disk m) d ->
    Q tt {| info := i'; disk := d;
            heap := KernelHeap.kfree (s_addr sb) (KernelHeap.kfree (d_addr root) (KernelHeap.kfree (s_fs_info sb) (KernelHeap.kfree p (heap m))));
            fs_supers := u32 (fs_supers m - 1) |}) ->
  wp (fat_kill_sb sb) Q m.
Proof.
  intros Hv Hd Hw Hroot Ht HQ. unfold fat_kill_sb. wp_step. wp_step. wp_step.
  assert (forall m' : fat_t, flushed (info m) (disk m) (disk m') -> fat_table (info m') = & (p, table_of (info m)) -> heap m' = heap m -> fs_supers m' = fs_supers m ->
    wp (free_table;; Fat.kfree (s_fs_info sb);; match s_root sb with Some d => vfs_free_dentry d | NULL => pret tt end;;
        pmodify (fun m => set_supers (u32 (fs_supers m - 1)) m);; Fat.kfree (s_addr sb)) Q m') as Hend.
  { intros m' Hf Ht' Hh Hs. unfold free_table. wp_step. wp_step. wp_step. rewrite Ht'. apply kfree_run. wp_step. apply kfree_run. rewrite Hroot. wp_step. apply kfree_run.
    wp_step. wp_step. apply kfree_run. specialize (HQ (disk m') (info m') Hf). rewrite <- Hh, <- Hs in HQ. exact HQ. }
  destruct (fat_dirty (info m)) eqn:Edirty.
  - wp_step. unfold fat_write_fat_table. wp_step. wp_step. rewrite Ht, Edirty. cbn [negb]. wp_step.
    pose proof (vo_first _ _ Hv) as (_ & _ & F3 & _). apply write_copies_run; [done|done|done|by apply table_sectors|done|done|lia|].
    rewrite Z2Nat.id, Z.add_0_l by done. intros d Hd' Hout Hin. change (negb (FAT_SUCCESS =? FAT_SUCCESS)) with false. cbn iota. wp_step. wp_step.
    apply wp_pret, wp_pret, Hend; [|done..]. split; [done|exact Hout|by intros k _; apply Hin|by rewrite Edirty].
  - apply wp_pret, Hend; [|done..]. split; [done|done|by rewrite Edirty|done].
Qed.

(** ** A volume in service *)
(** The volume of the device, with its table, which is the device's unless it
    is marked dirty. *)
Record in_service (m : fat_t) : Prop := {
  sv_mountable : mountable (disk m);
  sv_volume : same_volume (volume_of (disk m)) (info m);
  sv_ok : volume_ok dev (info m);
  sv_whole : table_whole (info m);
  sv_clean : fat_dirty (info m) = false -> disk_table (info m) (disk m) = table_of (info m) }.

Lemma boot_kept d d' : bd_sector d' 0 = bd_sector d 0 -> boot_of d' = boot_of d /\ volume_of d' = volume_of d.
Proof. intros H. unfold volume_of, boot_of. by rewrite H. Qed.

Lemma mountable_kept d d' : bd_inv d' -> bd_sector d' 0 = bd_sector d 0 -> mountable d -> mountable d'.
Proof. intros Hd H [_ M2 M3 M4]. destruct (boot_kept d d' H) as [Eb Ev]. split; [done|..]; by rewrite ?Eb, ?Ev. Qed.

Lemma some_table m : in_service m -> 1 <= num_fats (info m).
Proof.
  intros [[_ M2 _ _] (t & s & d & Hi) Hv _ _]. destruct (vo_first _ _ Hv) as (_ & _ & F3 & _). rewrite Hi in *. unfold fat_is_valid_boot_sector in M2.
  assert (Boot.num_fats (boot_of (disk m)) <> 0) as Hn by (intros E; rewrite E in M2; cbn [Z.eqb] in M2; repeat (case_match; try done)).
  change (num_fats (set_table t s d (volume_of (disk m)))) with (Boot.num_fats (boot_of (disk m))) in *. lia.
Qed.

(** Changes to the data area, and to the table in memory, keep it so. *)
Lemma in_service_kept m m' :
  in_service m -> bd_inv (disk m') ->
  (forall j, 0 <= j < first_data_sector (info m) -> bd_sector (disk m') j = bd_sector (disk m) j) ->
  (info m' = info m \/ exists c v, stored (info m) c v (info m')) -> in_service m'.
Proof.
  intros Hsv Hd Hout Hi. pose proof Hsv as [Hm Hs Hv Hw Hc]. pose proof (vo_first _ _ Hv) as (F1 & F2 & F3 & F4 & F5). pose proof (some_table _ Hsv).
  assert (bd_sector (disk m') 0 = bd_sector (disk m) 0) as H0 by (apply Hout; nia). destruct (boot_kept _ _ H0) as [_ Ev].
  pose proof (mountable_kept _ _ Hd H0 Hm) as Hm'. destruct Hi as [Ei | (c & v & Hst)].
  - split; rewrite ?Ei, ?Ev; try done. intros E. rewrite <- (Hc E). apply (sector_run_ext dev). intros j Hj. apply Hout. nia.
  - split; [done| |by eapply volume_stored| |].
    + rewrite Ev. eapply same_volume_trans; [exact Hs|apply Hst].
    + destruct Hst as ((t & s & dd & E) & _ & Hl & _). unfold table_whole. rewrite Hl, Hw, E. done.
    + destruct Hst as (_ & -> & _). done.
Qed.

Lemma below_data i l j : volume_ok dev i -> Forall (cluster_ok i) l -> j < first_data_sector i -> ~ in_clusters i l j.
Proof.
  intros Hv Hl Hj (c & Hc & Hr). rewrite Forall_forall in Hl. destruct (Hl c Hc) as [H _]. pose proof (vo_spc _ _ Hv). unfold cluster_sector in Hr. nia.
Qed.

Lemma kept_below i l d d' :
  volume_ok dev i -> Forall (cluster_ok i) l -> disk_kept dev i l d d' -> forall j, 0 <= j < first_data_sector i -> bd_sector d' j = bd_sector d j.
Proof.
  intros Hv Hl Hk j Hj. pose proof (vo_data _ _ Hv) as [D1 _]. destruct (vo_clusters _ _ Hv) as [C _]. pose proof (vo_spc _ _ Hv).
  apply Hk; [nia|]. apply below_data; [done|done|lia].
Qed.

Lemma mount_in_service i t d (h : Heap) k :
  i = volume_of d -> mountable d -> volume_ok dev (loaded i t d) ->
  in_service {| info := loaded i t d; disk := d; heap := h; fs_supers := k |}.
Proof.
  intros Hi Hm Hv. pose proof (mo_inv _ Hm) as Hd. pose proof (mo_table _ Hm) as Ht. rewrite <- Hi in Ht. split; cbn [info disk].
  - exact Hm.
  - rewrite <- Hi. by exists (& (t, disk_table i d)), (u32 (fat_size i * Fat.sector_size i)), false.
  - exact Hv.
  - exact (length_sector_run dev d _ _ Hd Ht).
  - done.
Qed.






Lemma created_in_service c l name rc m m' : in_service m -> created dev c l name rc m m' -> in_service m'.
Proof.
  intros Hsv [(_ & -> & _)|(_ & [(_ & -> & _)|(_ & new & i' & _ & Hst & ->)])]; [done..|].
  apply (in_service_kept m); [done|apply Hsv|done|]. right. by exists new, (eof_value (info m)).
Qed.

Lemma made_in_service c l name rc m m' : in_service m -> made dev c l name rc m m' -> in_service m'.
Proof.
  intros Hsv [(_ & -> & _)|(_ & [(_ & -> & _)|(new & i' & d & Hfree & -> & Hd & Hk & Hres)])]; [done..|].
  apply (in_service_kept m); [done|exact Hd| |].
  - intros j Hj. apply (kept_below (info m) [new]); [apply Hsv| |done|done]. apply Forall_singleton, Hfree.
  - right. destruct Hres as [(_ & Hst)|(_ & Hst & _)]; exists new; eexists; exact Hst.
Qed.





Definition open_sizes : list Z := [sizeof_vfs_dentry; sizeof_vfs_inode; sizeof_fat_inode_info; sizeof_fat_file_info].

(** A file opened for the entry [e]. *)
Definition opened_for (e : list byte) (file : vfs_file) : Prop :=
  exists p q, f_inode file = inode_of (Entry.parse e) p q /\ is_Some (f_private_data file).

(** The root directory's first cluster, 0 for a FAT16 volume. *)
Definition root_first (i : info_t) : Z := if bool_decide (type i = FAT_TYPE_FAT32) then root_cluster i else 0.





(** The heap after the unmount. *)
Definition unmounted (sb : vfs_superblock) (root : vfs_dentry) (a : Z) (h : Heap) : Heap :=
  KernelHeap.kfree (s_addr sb) (KernelHeap.kfree (d_addr root) (KernelHeap.kfree (s_fs_info sb) (KernelHeap.kfree a h))).






(** What a session that writes the file [file] of the root directory [lr]
    starts from: the file's clusters are not the directory's, its entry is in
    the directory, and the heap has the objects of the second mount. *)
Record session_ok (m : fat_t) (sb : vfs_superblock) (root : vfs_dentry) (a : Z) (lr : list Z) (name e : list byte) (file : vfs_file) (l : list Z) : Prop := {
  so_service : in_service m;
  so_root : s_root sb = & root;
  so_table : fat_table (info m) = & (a, table_of (info m));
  so_dir : dir_ok (info m) (root_first (info m)) lr;
  so_apart : forall x, x ∈ lr -> x ∉ l;
  so_listed : exists k, listed dev (info m) (disk m) (root_first (info m)) lr name = Some (k, e);
  so_regular : Z.land (Entry.attributes (Entry.parse e)) FAT_ATTR_DIRECTORY = 0;
  so_opened : opened_for e file;
  so_file : file_ok (info m) file l;
  so_heap : exists ps h, kmallocs (mount_sizes (volume_of (disk m)) ++ open_sizes) (unmounted sb root a (heap m)) = Some (ps, h) }.







End mount.

(** ** An example volume *)
(** A device without errors whose sectors are a function. *)
Definition memory_device (n : Z) : fat_block_device_t (Z -> list byte) := {|
  read_sectors := & (fun d s k => (0, mjoin (d <$> seqZ s k)));
  write_sectors := & (fun d s k bs => (0, fun i => if (s <=? i) && (i <? s + k) then chunk 512 bs (i - s) else d i));
  BlockDevice.sector_size := 512;
  BlockDevice.total_sectors := n |}.

Definition example_dev : fat_block_device_t (Z -> list byte) := memory_device 4119.

#[export] Program Instance example_device : BlockDevice example_dev := {|
  bd_read := fun d s k => (0, mjoin (d <$> seqZ s k));
  bd_write := fun d s k bs => (0, fun i => if (s <=? i) && (i <? s + k) then chunk 512 bs (i - s) else d i);
  bd_inv := fun d => forall i, 0 <= i < 4119 -> length (d i) = 512%nat;
  bd_sector := fun d i => d i |}.
Next Obligation. done. Qed.
Next Obligation. done. Qed.
Next Obligation. done. Qed.
Next Obligation. cbn. lia. Qed.
Next Obligation. intros d i Hd Hi. by apply Hd. Qed.
Next Obligation. done. Qed.
Next Obligation.
  intros d s n bs Hd (H1 & H2 & H3) Hbs i Hi. cbn. destruct (Z.leb_spec s i), (Z.ltb_spec i (s + n)); cbn; try by apply Hd.
  apply length_chunk. lia.
Qed.
Next Obligation.
  intros d s n bs Hd (H1 & H2 & H3) Hbs.
  split; cbn; intros i Hi; [intros Hn|right|intros Hi2]; destruct (Z.leb_spec s i), (Z.ltb_spec i (s + n)); cbn; done || lia.
Qed.

#[export] Instance example_reliable : ReliableDevice example_dev.
Proof. by split. Qed.

(** A FAT16 volume of 4085 clusters of one sector: two copies of a table of 16
    sectors, one sector of root directory. *)
Definition example_boot : Boot.fat_boot_sector_t :=
  {| Boot.jump_boot := zeros 3; Boot.oem_name := zeros 8; Boot.bytes_per_sector := 512; Boot.sectors_per_cluster := 1;
     Boot.reserved_sectors := 1; Boot.num_fats := 2; Boot.root_entries := 16; Boot.total_sectors_16 := 4119;
     Boot.media_type := 0xF8; Boot.fat_size_16 := 16; Boot.sectors_per_track := 32; Boot.num_heads := 2;
     Boot.hidden_sectors := 0; Boot.total_sectors_32 := 0; Boot.extension := zeros 474; Boot.boot_sector_signature := 0xAA55 |}.
(** "test.txt" *)
Definition example_name : list byte :=
  [Byte.x74; Byte.x65; Byte.x73; Byte.x74; dot; Byte.x74; Byte.x78; Byte.x74].
(** The file "TEST.TXT" of 600 bytes in the clusters 2 and 4. *)
Definition example_entry : list byte := Entry.bytes (Entry.make test_name FAT_ATTR_ARCHIVE 2 600).
Definition example_clusters : list Z := [2; 4].
Definition example_sectors (i : Z) : list byte :=
  if i =? 0 then Boot.bytes example_boot
  else if (i =? 1) || (i =? 17) then zero_padded 512 (mjoin (le_split 2 <$> [0xFFF8; 0xFFFF; 4; 0; 0xFFFF]))
  else if i =? 33 then zero_padded 512 example_entry
  else zeros 512.

Definition example_info : @fat_fs_info_t (Z -> list byte) :=
  {| type := FAT_TYPE_FAT16; sector_size := 512; cluster_size := 512; sectors_per_cluster := 1; reserved_sectors := 1; num_fats := 2;
     fat_size := 16; root_dir_sectors := 1; total_sectors := 4119; data_sectors := 4085; total_clusters := 4085; first_data_sector := 34;
     root_cluster := 0; root_dir_entries := 16; fat_table := NULL; fat_table_size := 0; fat_dirty := false; block_device := & example_dev |}.

Lemma example_volume : volume_of example_dev example_sectors = example_info.
Proof. vm_compute. reflexivity. Qed.

Lemma example_mountable : mountable example_dev example_sectors.
Proof.
  split.
  - intros i Hi. cbn. unfold example_sectors. destruct (i =? 0); [done|]. destruct (_ || _); [done|]. by destruct (i =? 33).
  - by vm_compute.
  - left. by vm_compute.
  - rewrite example_volume. unfold in_range. cbn. lia.
Qed.

(** The volume mounted, with its objects at the addresses 1 to 6, and the file
    opened. *)
Definition example_loaded : fat_fs_info_t := loaded example_dev example_info 2 example_sectors.
Definition example_mounted : @Fat.fat_t (Z -> list byte) arena :=
  {| info := example_loaded; disk := example_sectors; heap := {| room := 20; arena_live := list_to_set (seqZ 1 9) |}; fs_supers := 1 |}.
Definition example_root : vfs_dentry := root_dentry example_info 4 5 6.
Definition example_sb : vfs_superblock := {| s_addr := 3; s_magic := 0x46415431; s_root := & example_root; s_fs_info := 1 |}.
Definition example_file : vfs_file :=
  {| f_inode := inode_of (Entry.parse example_entry) 7 8; f_pos := 0;
     f_private_data := & (9, {| file_cluster := 2; file_cluster_offset := 0; file_position := 0 |}) |}.

Lemma example_loaded_ok : volume_ok example_dev example_loaded.
Proof.
  assert (Z.of_nat (length (table_of example_loaded)) = 8192) as Hl by (by vm_compute).
  split; try done; try (cbn; lia).
  - by left.
  - exists 2, (table_of example_loaded). split; [done|]. rewrite Hl. by vm_compute.
Qed.

Lemma example_service : in_service example_dev example_mounted.
Proof.
  apply mount_in_service; [by rewrite example_volume|apply example_mountable|exact example_loaded_ok].
Qed.

Lemma example_session_ok :
  session_ok example_dev example_mounted example_sb example_root 2 [] example_name example_entry example_file example_clusters.
Proof.
  split.
  - exact example_service.
  - done.
  - done.
  - split; [done|cbn; lia|done].
  - intros x Hx. by apply elem_of_nil in Hx.
  - exists 0%nat. vm_compute. reflexivity.
  - by vm_compute.
  - exists 7, 8. split; [done|by eexists].
  - split; [|done|done]. exists 8. eexists _, 9, _. split; [reflexivity|]. split; [reflexivity|].
    split; [done|]. split; [done|]. replace (next_of _ _) with 4 by (by vm_compute). split; [done|]. split; [done|]. by vm_compute.
  - vm_compute. by eexists _, _.
Qed.


(** ** What the code does not do *)
(** A volume [ramdisk_format_fat16] makes has 2017 clusters: [fat_mount] takes
    it for a FAT12 volume and refuses it. *)
Lemma write_kept g s n bs :
  ramdisk_inv g -> in_range ramdisk_device s n -> length bs = (Z.to_nat n * 512)%nat -> 0 < s ->
  exists g', ramdisk_write_sectors (& g) s n (& bs) = (0, & g') /\ ramdisk_inv g' /\ ramdisk_sector g' 0 = ramdisk_sector g 0.
Proof.
  intros Hg Hr Hbs Hs. destruct (ramdisk_write_run g s n bs Hg Hr Hbs) as (g' & E & Hg' & H). exists g'. split; [done|]. split; [done|].
  rewrite H by (unfold RAMDISK_TOTAL_SECTORS; lia). rewrite decide_False by lia. done.
Qed.

Lemma writes_cons s n bs ws g g1 : ramdisk_write_sectors (& g) s n (& bs) = (0, & g1) -> ramdisk_writes ((s, n, bs) :: ws) g = ramdisk_writes ws g1.
Proof. intros E. cbn [ramdisk_writes]. by rewrite E. Qed.

Lemma writes_kept ws : forall g,
  ramdisk_inv g -> Forall (fun w => in_range ramdisk_device w.1.1 w.1.2 /\ length w.2 = (Z.to_nat w.1.2 * 512)%nat /\ 0 < w.1.1) ws ->
  exists g', ramdisk_writes ws g = (0, g') /\ ramdisk_inv g' /\ ramdisk_sector g' 0 = ramdisk_sector g 0.
Proof.
  induction ws as [|[[s n] bs] ws IH]; intros g Hg Hws; [by exists g|].
  apply Forall_cons in Hws as [(Hr & Hbs & Hs) Hws]. destruct (write_kept g s n bs Hg Hr Hbs Hs) as (g1 & Ew & Hg1 & E1).
  rewrite (writes_cons _ _ _ _ _ _ Ew). destruct (IH g1 Hg1 Hws) as (g' & -> & Hg' & E). exists g'. by rewrite E.
Qed.

Lemma ramdisk_boot_wf : boot_wf ramdisk_boot_sector.
Proof. split; try done. repeat constructor; done. Qed.

Lemma ramdisk_formatted g :
  ramdisk_inv g -> exists g', ramdisk_format_fat16 true g = (0, g') /\ ramdisk_inv g' /\ ramdisk_sector g' 0 = Boot.bytes ramdisk_boot_sector.
Proof.
  intros Hg. pose proof Hg as (data & _ & _ & _ & _ & Hi). unfold ramdisk_format_fat16. rewrite Hi. change (negb (0 =? 0)) with false. cbn iota.
  set (ft := zero_padded _ _). assert (length ft = 512)%nat as Hft by (by vm_compute). clearbody ft.
  pose proof (length_boot _ ramdisk_boot_wf) as Hb. destruct (ramdisk_write_run g 0 1 (Boot.bytes ramdisk_boot_sector) Hg) as (g1 & Ew & Hg1 & E1);
    [done|by rewrite Hb|]. rewrite (writes_cons _ _ _ _ _ _ Ew).
  destruct (writes_kept [(1, 1, ft); (9, 1, ft); (17, 14, zeros (512 * 14))] g1 Hg1) as (g' & -> & Hg' & E).
  { repeat constructor; cbn [fst snd]; try done; by rewrite Hft. }
  exists g'. split; [done|]. split; [done|]. rewrite E, E1 by done. rewrite decide_True by lia.
  change (0 - 0) with 0. unfold chunk. change (Z.to_nat 0 * 512)%nat with 0%nat. rewrite drop_0. apply take_ge. by rewrite Hb.
Qed.

Lemma ramdisk_volume_refused {Heap} {HK : KernelHeap Heap} {HL : KernelHeapLaws Heap} (m : @Fat.fat_t ramdisk_t Heap) g :
  ramdisk_inv g -> (ramdisk_format_fat16 true g).2 = disk m ->
  wp (fat_mount (& ramdisk_device)) (fun r m' => r = NULL /\ live (heap m') = live (heap m) /\ disk m' = disk m /\ fs_supers m' = fs_supers m) m.
Proof.
  intros Hg Hd. destruct (ramdisk_formatted g Hg) as (g' & E & Hg' & Hs). rewrite E in Hd. cbn [snd] in Hd. apply (mount_refused_run ramdisk_device).
  - done.
  - by rewrite <- Hd.
  - rewrite <- Hd. change (bd_sector g' 0) with (ramdisk_sector g' 0). rewrite Hs, (parse_boot _ ramdisk_boot_wf). right. by left.
Qed.

(** Unmounting a changed volume whose table cannot be written frees it all the
    same: the device has the old table. *)
Lemma failed_flush_lost :
  let dev : fat_block_device_t (Z -> list byte) :=
    {| read_sectors := read_sectors example_dev; write_sectors := & (fun d _ _ _ => (-1, d)); BlockDevice.sector_size := 512; BlockDevice.total_sectors := 4119 |} in
  forall m : @Fat.fat_t (Z -> list byte) arena, block_device (info m) = & dev -> wp (fat_kill_sb example_sb) (fun _ m' => disk m' = disk m) m.
Proof.
  intros dev m Hdev. unfold fat_kill_sb. wp_step. wp_step. wp_step.
  assert (forall m' : @Fat.fat_t (Z -> list byte) arena, disk m' = disk m -> wp (free_table;; Fat.kfree (s_fs_info example_sb);;
    match s_root example_sb with Some d => vfs_free_dentry d | NULL => pret tt end;;
    pmodify (fun m => set_supers (u32 (fs_supers m - 1)) m);; Fat.kfree (s_addr example_sb)) (fun _ m' => disk m' = disk m) m') as Hend.
  { intros m' H. wp_step. unfold free_table. wp_step. wp_step. by destruct (fat_table (info m')) as [[p bs]|]. }
  destruct (fat_dirty (info m)); [|by wp_step; apply Hend]. wp_step. unfold fat_write_fat_table. wp_step. wp_step.
  destruct (fat_table (info m)) as [[p bs]|]; [|by apply wp_pret, wp_pret, Hend]. destruct (negb _); [by apply wp_pret, wp_pret, Hend|].
  wp_step. destruct (Z.to_nat (num_fats (info m))) as [|n]; cbn [write_copies].
  - wp_step. change (negb (FAT_SUCCESS =? FAT_SUCCESS)) with false. cbn iota. wp_step. wp_step. by apply wp_pret, wp_pret, Hend.
  - wp_step. unfold wp at 1, fat_write_sectors. rewrite Hdev. cbn [write_sectors dev]. change (negb (-1 =? FAT_SUCCESS)) with true. cbn iota.
    apply wp_pret. change (negb (FAT_ERROR_IO_ERROR =? FAT_SUCCESS)) with true. cbn iota. by apply wp_pret, wp_pret, Hend.
Qed.

(** The root inode and its information, at 4 and 5, outlive the volume. *)
Lemma unmount_keeps_root :
  wp (fat_kill_sb example_sb) (fun _ m' => 4 ∈ live (heap m') /\ 5 ∈ live (heap m') /\ 1 ∉ live (heap m')) example_mounted.
Proof.
  eapply (kill_run example_dev example_sb example_root 2); [exact example_loaded_ok|apply example_service|apply example_service|done|done|].
  intros d i' _. split_and!; [by apply (bool_decide_unpack _); vm_compute..|]. by apply (bool_decide_unpack _); vm_compute.
Qed.

(** A lookup whose inode cannot get its private part never returns:
    [fat_destroy_inode] and [vfs_free_inode] call each other. *)
Lemma lookup_never_returns :
  forall m : @Fat.fat_t (Z -> list byte) arena, info m = info example_mounted -> disk m = disk example_mounted -> room (heap m) = 2%nat ->
  exists dir, d_inode example_root = & dir /\ fat_lookup dir example_name m = None.
Proof.
  intros m Hi Hd Hr. destruct example_session_ok as [_ _ _ Hdir _ [k Hk] _ _ _ _]. change (root_first (info example_mounted)) with 0 in Hk, Hdir. eexists. split; [reflexivity|]. rewrite (fat_lookup_value example_dev _ 0 []).
  - rewrite Hi, Hd, Hk. unfold lookup_objects.
    destruct (heap m) as [r L]. cbn in Hr. subst r. done.
  - rewrite Hi. exact example_loaded_ok.
  - rewrite Hd. apply example_mountable.
  - rewrite Hi. exact Hdir.
  - by eexists _, _.
Qed.

(** A count that wraps past 2^64 is not cut at the end of the file: the read
    returns everything up to the end of its last cluster. *)
Lemma read_wraps {D Heap} {HK : KernelHeap Heap} (dev : fat_block_device_t D) `{!BlockDevice dev} file l count pos (m : @Fat.fat_t D Heap) :
  volume_ok dev (info m) -> bd_inv (disk m) -> file_ok (info m) file l -> 0 <= pos < i_size (f_inode file) -> count < 2 ^ 64 ->
  2 ^ 64 <= pos + count ->
  wp (fat_read file count pos) (fun r m' => m' = m /\ r.1.2 = drop (Z.to_nat pos) (file_bytes dev (info m) (disk m) l)) m.
Proof.
  intros Hv Hd [(p & x & q & y & Hi & Hf & Hc) Hs Hlen] Hpos Hcount Hsum. unfold fat_read. rewrite Hi, Hf. wp_step. wp_step.
  pose proof (chain_ok _ _ _ Hc) as Hok. pose proof (length_file dev _ _ _ Hv Hd Hok) as Hfile. set (size := i_size (f_inode file)) in *.
  rewrite (proj2 (Z.leb_gt size pos)) by lia. assert (u64 (pos + count) = pos + count - 2 ^ 64) as ->.
  { unfold u64. rewrite <- (Z.mod_small (pos + count - 2 ^ 64) (2 ^ 64)) by lia. rewrite <- (Z_mod_plus_full (pos + count - 2 ^ 64) 1). f_equal. lia. }
  rewrite (proj2 (Z.ltb_ge size _)) by lia.
  destruct (position dev (info m) (disk m) l pos Hv Hd Hok ltac:(lia) ltac:(lia)) as (P1 & P2 & P3 & _ & P5).
  wp_step. apply (skip_run dev _ _ l); [done|exact Hc|]. rewrite (proj2 (Z.eqb_neq _ 0)) by done.
  wp_step. apply (read_clusters_run dev _ _ (drop (Z.to_nat (u32 (pos / cluster_size (info m)))) l)); [done|done|by eapply chain_drop|done| |].
  - cbn [length]. unfold transfer_fuel. pose proof (Z.div_mod count (cluster_size (info m))). pose proof (Z.mod_pos_bound count (cluster_size (info m))).
    pose proof (Z.div_pos count (cluster_size (info m))). nia.
  - change (negb (0 =? VFS_SUCCESS)) with false. cbn iota. apply wp_pret. split; [done|]. cbn [fst snd app length]. rewrite P5, Z.sub_0_r.
    apply take_ge. rewrite length_drop.
    pose proof (chain_short _ _ _ (proj1 (vo_clusters _ _ Hv)) Hc). pose proof (vo_data _ _ Hv). pose proof (vo_cluster _ _ Hv). pose proof (vo_spc _ _ Hv).
    destruct (vo_first _ _ Hv) as (? & ? & ? & ? & ?). nia.
Qed.
